(* ===== verification/_CoqProject ===== *)
-Q . S2P
Prelude.v
BitMath.v
BuddyAlloc.v
BuddySpec.v
KernelBuddy.v
KernelBuddyInit.v
KernelBuddyThms.v
Bytes.v
TaskQueue.v
Scheduler.v
SchedulerInv.v
WaitExit.v
WaitThms.v
Mutex.v
Signal.v
Host.v
Ring.v
Ldisc.v
Pty.v
LdiscThms.v
Pipe.v
PipeThms.v
CMem.v
CString.v
CStringThms.v
Snprintf.v
Files.v
FilesInv.v
FilesThms.v
BlockDev.v
Buffer.v
BufferLists.v
BufferOps.v
BufferRead.v
BufferWrite.v
PageTable.v
PageSpace.v
PageFree.v
PageMap.v
PageThms.v
Elf.v
ElfMem.v
ElfStack.v
ElfLoad.v
ElfThms.v
Namei.v
NameiSpec.v
NameiOps.v
PathOps.v
NameiThms.v
Shootdown.v
Slab.v
SlabBits.v
SlabOps.v
SlabFree.v
SlabAlloc.v
Ext2.v
Ext2Blocks.v
Ext2Dir.v
Ext2File.v
Ext2Cache.v
Ext2Map.v
Ext2Write.v
Ext2Inode.v
Ext2Lookup.v
Ext2Insert.v
Ext2Thms.v
Vt.v
VtDraw.v
VtRef.v
VtThms.v
Term.v
TermDraw.v
TermThms.v
DiskDevs.v
DiskThms.v
Sh.v
ShThms.v
ShRun.v
ShEdit.v
