(* ===== verification/Prelude.v ===== *)
(** * A verified model of the temple-os kernel

    temple-os is a 64-bit SMP hobby kernel in C (src/), with a small user land
    (src/user): a terminal emulator and a shell, which meet over a pseudo
    terminal, and some commands. This library translates the core of the kernel
    and these two programs into Rocq functions and proves what makes them
    correct. Files are named below without src/.

    ** The program

    Physical memory is handed out in pages by a buddy allocator
    (allocaters/buddy_alloc.c) and in smaller pieces by a slab allocator
    (allocaters/slab_alloc.c). Address spaces are four-level page tables
    (paging/), copied by fork (paging/pml4_clone.c), filled by the program
    loader (loader/elf64.c) and by mmap; removing a mapping interrupts the
    other CPUs to drop the translation (TLB shootdown). Tasks
    (multi/task_types.h) wait on run queues, sleep queues and the waiter queues
    of mutexes, pipes and terminals, all threaded through the same link fields;
    multi/scheduler.c runs them, multi/waitpid.c collects the dead,
    multi/signal.c interrupts the living. Files are reached through descriptor
    tables (interrupts/fd_table.c) and through paths (file_system/vfs_path.c,
    with a cache of directory entries and a mount table); below them are pipes,
    terminals (drivers/tty.c, drivers/pty.c over drivers/tty_ldisc.c) and ext2
    over a cache of disk blocks (file_system/blocks_buffer.c). Everything uses
    the helpers of util/.

    ** How the code is modelled

    A C function is a Rocq function with its name, in the state-and-failure
    monad [M] of this file, over the record of the state its file keeps. [None]
    is what the C code must never do: follow a null or dangling pointer, index
    past an array, divide by zero, take a lock that is held. An error return is
    an ordinary value. Unsigned words are integers with their wrap-around
    written out ([wrap]). Pointers to objects are keys of a store of objects,
    so aliasing and double frees are visible; routines that work on raw bytes
    (util/memory.c, util/string.c, the loader) run over a byte-addressed
    memory. [wp] is the weakest precondition of such code: [wp c Q s] says that
    [c] from [s] does return, and that its result satisfies [Q]; a theorem in
    this form includes absence of undefined behaviour and termination. A
    component calls another through an interface: a class of operations and
    laws ([BlockDevice] in BlockDev.v, the file system below paths in Namei.v,
    the file of the loader in Elf.v, the view of an embedded ring or queue in
    Host.v), or through a parameter with the hypothesis it relies on (an
    allocator returns null or a page not in use). Interleavings are step
    relations with an invariant by rule induction (mutexes, pipes, exit against
    wait, descriptors, TLB shootdown).

    Loops are [Fixpoint]s on the data where the C loop walks a list, and
    bounded by fuel otherwise; [None] at the end of the fuel. The bounds: the
    buddy loops run at most once per order (64), the list searches of its kernel
    pool one round more than the pool has frames; 513 and 257 rounds for a loop over a table's 512 entries or
    its user half; 42 rounds for following links and 41 levels of nesting, one
    more than VFS_SYMLINK_MAX; the entries of an ext2 directory block one round
    more than the block has bytes, an ext2 read or write one more than the
    blocks it spans; walks over a linked list or a string one more
    than its length; the shell's main loop one round more than its input has
    results of reads; the two tables of a program's relocations at most the fuel
    given to the loader, which the program is assumed not to exceed. Since the theorems are about [wp], each shows that its fuel is
    enough.

    ** The files

    - Prelude.v: this header; words, the monad, [wp], loops, locks, lemmas.
      Bytes.v: little-endian words and byte memory.
    - BitMath.v: util/math.c.
    - BuddyAlloc.v: allocaters/buddy_alloc.c, both pools. BuddySpec.v: the
      abstract pool, a map from block to order and state. KernelBuddy.v,
      KernelBuddyInit.v: the kernel pool represents an abstract pool, and every
      operation is one of its moves. KernelBuddyThms.v: requests and frees
      refine the abstract pool, a request is undone by its free, any request is
      safe, the pool built at boot is well formed.
    - Slab.v: allocaters/slab_alloc.c, kmalloc and kfree. SlabBits.v to
      SlabAlloc.v: bitmaps, slab lists, the invariant of the caches; any session
      of allocations, frees and stores.
    - TaskQueue.v: multi/task_types.h and the intrusive queues. Scheduler.v:
      multi/scheduler.c, multi/waitpid.c. SchedulerInv.v: the
      run-queue invariant, the next task, round robin. WaitExit.v,
      WaitThms.v: no lost wake-up between exit and wait, reaping.
    - Mutex.v: multi/mutex.c, exclusion and hand-off.
    - Signal.v: multi/signal.c, delivery and sigreturn over a user memory whose
      pages may be missing, and two defects.
    - Host.v: running a component inside its owner's state. Ring.v,
      Ldisc.v, Pty.v, LdiscThms.v: drivers/tty_ldisc.c, tty.c, pty.c; rings,
      cooked lines, the table of pseudo terminals.
    - Pipe.v, PipeThms.v: file_system/pipe.c; the stream, blocking, creation
      without leaks.
    - CMem.v: util/memory.c against byte-wise references. CString.v,
      CStringThms.v, Snprintf.v: util/string.c.
    - Files.v, FilesInv.v, FilesThms.v: interrupts/fd_table.c, file reference
      counts, open, close, dup, fork and exit as they treat descriptors.
    - BlockDev.v: file_system/block_device_types.h. Buffer.v to BufferWrite.v:
      file_system/blocks_buffer.c; a read returns the block; a session
      followed by a flush leaves on the device what a plain array holds.
    - Ext2.v: the ext2 file system's data and its view of the buffer cache.
      Ext2Blocks.v: ext2_helpers.c, the block map, bitmaps and inodes.
      Ext2Dir.v: ext2_ino_ops.c. Ext2File.v: ext2_file_ops.c and ext2_sb_ops.c.
      Ext2Cache.v: the rules for buffers. Ext2Map.v, Ext2Write.v,
      Ext2Inode.v, Ext2Lookup.v, Ext2Insert.v: the block map is a map, files
      are byte arrays, inodes survive the disk, directories are lists of
      entries. Ext2Thms.v: the theorems on whole operations, and what becomes of
      sizes beyond 4 GiB and of files without a double indirect block, which
      reads and writes within the double indirect part are assumed to have.
    - PageTable.v: paging/paging.c, paging/pml4_clone.c, the mmap calls of
      interrupts/syscall_handler.c. PageSpace.v: address spaces as trees.
      PageSpace.v to PageThms.v: fork's copy, teardown, mapping.
    - Elf.v to ElfThms.v: loader/elf64.c over the page tables; the initial
      stack, and loading all or nothing, for programs whose segments share no
      page. ElfLoad.v has the reference for relocations, on the program's memory
      instead of its page tables; it is defined where no table entry and no
      place crosses the end of a page.
    - Namei.v: file_system/dcache.c, vfs_dentry.c, vfs_mount.c, vfs_path.c.
      NameiSpec.v: what a path means. PathOps.v: vfs_path_ops.c, chdir and
      getcwd. NameiOps.v, NameiThms.v: resolution terminates and
      means what it should.
    - Shootdown.v: the shootdown protocol is safe, and two
      initiators deadlock.
    - Vt.v: drivers/vt.c and fb_console.c, the virtual terminals and the drawing
      of their cells. VtDraw.v: what a drawn cell is, pixel by pixel. VtRef.v:
      a reference terminal. VtThms.v: every terminal is what the reference
      makes of its bytes, and the display shows the active one; the tab defect.
    - Term.v: user/term.c, the terminal emulator. TermDraw.v: its drawing is that
      of fb_console.c. TermThms.v: its screen is what the reference terminal
      makes of the shell's output, pixel by pixel below caret, selection and
      pointer; copying and pasting; reading and writing whole frames.
    - Sh.v: user/sh.c, the shell; each of its arrays has its size, and a store
      outside is undefined. ShThms.v: command lines are read as they are
      printed; the history. ShRun.v: how pipelines are plumbed; the shell stays
      inside its arrays and ends with its input. ShEdit.v: what the terminal emulator shows while a line is
      edited; what goes wrong with lines of several rows.
    - DiskDevs.v: drivers/devfs.c, mem_devs.c, ram_block.c, disk_devs.c and
      file_system/mbr.c. DiskThms.v: disk nodes are arrays of bytes; the table
      of drivers finds what was registered.

    ** Not modelled

    - Mounting ext2 before its block size is known (EXT2FindRoot and the
      device accesses of EXT2Mount), boot-time paging ([InitPaging] and the loops
      that call [map_page_to_virt]) and the rest of the system call layer: code
      that can be modelled, planned next in this order. Of ext2 all operations
      are modelled; growing and shrinking files and removing directory entries
      are not specified by theorems yet.
    - Device drivers (AHCI, PCI, ACPI, APIC, PS/2, RTC, VGA, the
      keyboard and mouse nodes), interrupt entry, descriptor tables, CPU
      start-up: register and port accesses whose meaning is the hardware's.
    - procfs: formatting of kernel state.
    - User programs (user/) other than the terminal emulator and the shell:
      clients of the system calls.
    - Assembly (interrupts/, multi/, util/helpers.asm), stack frames and FPU
      state: below the level of the C functions modelled here. *)

From Stdlib Require Export ZArith Lia.
From stdpp Require Export base gmap list numbers option.

#[global] Open Scope Z_scope.

#[export] Set Warnings "-clear-no-such-hyp".

Create HintDb kernel discriminated.

(** * Machine words *)

(** Unsigned arithmetic of the C code: a w-bit word is a [Z] in [0, 2^w). *)
Definition wrap (w x : Z) : Z := x mod 2 ^ w.
Abbreviation wrap8 := (wrap 8).
Abbreviation wrap32 := (wrap 32).
Abbreviation wrap64 := (wrap 64).

Definition UINT64_MAX : Z := 2 ^ 64 - 1.

(** Reinterpretation of a 64-bit word as [int64_t]. *)
Definition to_s64 (x : Z) : Z :=
  let y := wrap64 x in if y <? 2 ^ 63 then y else y - 2 ^ 64.

Definition is_word (w x : Z) : Prop := 0 <= x < 2 ^ w.

Lemma wrap_range w x : 0 <= w -> is_word w (wrap w x).
Proof. intros; unfold is_word, wrap. apply Z.mod_pos_bound. lia. Qed.

Lemma wrap_small w x : is_word w x -> wrap w x = x.
Proof. unfold is_word, wrap; intros; now apply Z.mod_small. Qed.

Lemma wrap64_small x : 0 <= x < 2 ^ 64 -> wrap64 x = x.
Proof. apply wrap_small. Qed.

#[export] Hint Resolve wrap_range wrap_small : kernel.

(** * The state-and-failure monad *)

(** [M S A] is C code over the state [S] returning [A]. [None] stands for a
    run that does not complete: undefined behaviour (an out-of-range array
    access, [__builtin_clzll(0)]), spinning on a lock its own CPU holds, or a
    loop that exceeds its fuel. The theorems that matter rule it out. *)
Definition M (S A : Type) : Type := S -> option (A * S).

Definition ret {S A} (a : A) : M S A := λ s, Some (a, s).
Definition bind {S A B} (m : M S A) (f : A -> M S B) : M S B := λ s,
  match m s with Some (a, s') => f a s' | None => None end.

Declare Scope kernel_scope.
Delimit Scope kernel_scope with kernel.
Notation "'let*' x := m 'in' k" := (bind m (λ x, k))
  (at level 10, x binder, m at level 100, k at level 200,
   format "'[v' 'let*'  x  :=  m  'in' '/' k ']'") : kernel_scope.
Notation "m ;; k" := (bind m (λ _, k)) : kernel_scope.
#[global] Open Scope kernel_scope.

Section Ops.
  Context {S : Type}.
Definition get : M S S := λ s, Some (s, s).
Definition gets {A} (f : S -> A) : M S A := λ s, Some (f s, s).
Definition modify (f : S -> S) : M S unit := λ s, Some (tt, f s).
Definition undef {A} : M S A := λ _, None.
Definition of_option {A} (o : option A) : M S A :=
    match o with Some a => ret a | None => undef end.
Definition when (b : bool) (m : M S unit) : M S unit := if b then m else ret tt.

  (** A C loop whose local variables are [a]: the body either goes round again
      with new locals ([inl]) or leaves the loop with a result ([inr]). *)
Fixpoint loop {A B} (fuel : nat) (step : A -> M S (A + B)) (a : A) : M S B :=
    match fuel with
    | O => undef
    | Datatypes.S n => let* r := step a in match r with inl a' => loop n step a' | inr b => ret b end
    end.

  (** Total-correctness weakest precondition. *)
Definition wp {A} (m : M S A) (Q : A -> S -> Prop) (s : S) : Prop :=
    match m s with Some (a, s') => Q a s' | None => False end.
End Ops.

(** * Rules of the calculus *)
Section Wp.
  Context {S : Type}.
  Implicit Types (s : S).

Lemma wp_ret {A} (a : A) (Q : A -> S -> Prop) s : wp (ret a) Q s <-> Q a s.
  Proof. reflexivity. Qed.

Lemma wp_bind {A B} (m : M S A) (f : A -> M S B) Q s :
    wp (bind m f) Q s <-> wp m (λ a s', wp (f a) Q s') s.
  Proof. unfold wp, bind. destruct (m s) as [[a s']|]; reflexivity. Qed.

Lemma wp_get (Q : S -> S -> Prop) s : wp get Q s <-> Q s s.
  Proof. reflexivity. Qed.

Lemma wp_gets {A} (f : S -> A) Q s : wp (gets f) Q s <-> Q (f s) s.
  Proof. reflexivity. Qed.

Lemma wp_modify f (Q : unit -> S -> Prop) s : wp (modify f) Q s <-> Q tt (f s).
  Proof. reflexivity. Qed.

Lemma wp_of_option {A} (o : option A) a Q s :
    o = Some a -> wp (of_option o) Q s <-> Q a s.
  Proof. intros ->. reflexivity. Qed.

Lemma wp_when b m (Q : unit -> S -> Prop) s :
    wp (when b m) Q s <-> if b then wp m Q s else Q tt s.
  Proof. destruct b; reflexivity. Qed.

Lemma wp_if {A} (b : bool) (m1 m2 : M S A) Q s :
    wp (if b then m1 else m2) Q s <-> if b then wp m1 Q s else wp m2 Q s.
  Proof. destruct b; reflexivity. Qed.

Lemma wp_mono {A} (m : M S A) (Q Q' : A -> S -> Prop) s :
    wp m Q s -> (forall a s', Q a s' -> Q' a s') -> wp m Q' s.
  Proof. unfold wp. destruct (m s) as [[a s']|]; auto. Qed.

Lemma wp_run {A} (m : M S A) Q s :
    wp m Q s <-> exists a s', m s = Some (a, s') /\ Q a s'.
  Proof.
    unfold wp; split.
    - destruct (m s) as [[a s']|]; [eauto | easy].
    - intros (a & s' & -> & H); exact H.
  Qed.

Lemma wp_intro {A} (m : M S A) a s' (Q : A -> S -> Prop) s :
    m s = Some (a, s') -> Q a s' -> wp m Q s.
  Proof. unfold wp. intros ->. auto. Qed.

  (** A loop whose invariant carries a decreasing measure terminates within
      its fuel and leaves through [Q]. *)
Lemma wp_loop {A B} (I : nat -> A -> S -> Prop)
      (n fuel : nat) (step : A -> M S (A + B)) (Q : B -> S -> Prop) a s :
    I n a s -> (n < fuel)%nat ->
    (forall n a s, I n a s ->
       wp (step a) (λ r s', match r with
                            | inl a' => exists n', (n' < n)%nat /\ I n' a' s'
                            | inr b => Q b s' end) s) ->
    wp (loop fuel step a) Q s.
  Proof.
    intros HI Hn Hstep. revert n a s HI Hn.
    induction fuel as [|f IH]; intros n a s HI Hn; [lia|].
    simpl. apply wp_bind. eapply wp_mono; [eapply Hstep, HI|].
    intros [a'|b] s' H; simpl in *; [|exact H].
    destruct H as (n' & Hlt & HI'). eapply IH; [exact HI' | lia].
  Qed.

  (** Sequencing is associative. *)
Lemma wp_assoc {A B C} (a : M S A) (f : A -> M S B) (g : B -> M S C) Q s :
    wp (let* y := (let* x := a in f x) in g y) Q s -> wp (let* x := a in let* y := f x in g y) Q s.
  Proof. rewrite !wp_bind. intros H. eapply wp_mono; [exact H|]. intros x s' H'. now apply wp_bind. Qed.

Lemma loop_S {A B} n (step : A -> M S (A + B)) a :
    loop (Datatypes.S n) step a = (let* r := step a in match r with inl a' => loop n step a' | inr b => ret b end).
  Proof. reflexivity. Qed.
End Wp.
#[global] Arguments loop : simpl never.

(** Symbolic execution of straight-line code. *)
Ltac wp_step :=
  match goal with
  | |- wp (bind _ _) _ _ => apply wp_bind
  | |- wp (ret _) _ _ => apply wp_ret
  | |- wp get _ _ => apply wp_get
  | |- wp (gets _) _ _ => apply wp_gets
  | |- wp (modify _) _ _ => apply wp_modify
  | |- wp (when _ _) _ _ => apply wp_when
  | |- wp (of_option (Some _)) _ _ => eapply wp_of_option; [reflexivity|]
  | |- wp (of_option _) _ _ => eapply wp_of_option; [eassumption|]
  end; cbv beta.
Ltac wp_steps := repeat (wp_step; simpl).

(** * Locks and the interrupt flag *)

(** A field of a state. *)
Record field (S A : Type) := Field { fget : S -> A; fset : A -> S -> S }.
Arguments Field {_ _}. Arguments fget {_ _}. Arguments fset {_ _}.

(** The interrupt flag (RFLAGS.IF) of the executing CPU. *)
Class HasIF (S : Type) := if_flag : field S bool.

Section Locks.
  Context {S : Type} `{HasIF S}.
Definition check_interrupts : M S bool := gets (fget if_flag).
Definition CliHelper : M S unit := modify (fset if_flag false).
Definition StiHelper : M S unit := modify (fset if_flag true).

  (** A lock is its [locked] word; acquiring a held lock spins forever. *)
Definition spin_lock (l : field S bool) : M S unit :=
    let* b := gets (fget l) in if b then undef else modify (fset l true).
Definition spin_unlock (l : field S bool) : M S unit := modify (fset l false).

  (** [bool ie = check_interrupts(); CliHelper(); spin_lock(l);] *)
Definition lock_irqsave (l : field S bool) : M S bool :=
    let* ie := check_interrupts in CliHelper;; spin_lock l;; ret ie.
  (** [spin_unlock(l); if (ie) StiHelper();] *)
Definition unlock_irqrestore (l : field S bool) (ie : bool) : M S unit :=
    spin_unlock l;; when ie StiHelper.
End Locks.

(** * Arrays *)

(** C array accesses with a [Z] index; out of range is undefined behaviour. *)
Definition arr_get {A} (l : list A) (i : Z) : option A :=
  if i <? 0 then None else l !! Z.to_nat i.
Definition arr_set {A} (l : list A) (i : Z) (x : A) : option (list A) :=
  if (i <? 0) || (Z.of_nat (length l) <=? i) then None else Some (<[Z.to_nat i := x]> l).

Section Arrays.
  Context {A : Type}.
  Implicit Types (l : list A) (i j : Z).

Lemma arr_get_lt l i : 0 <= i < Z.of_nat (length l) -> is_Some (arr_get l i).
  Proof.
    intros. unfold arr_get. destruct (Z.ltb_spec i 0); [lia|].
    apply lookup_lt_is_Some. lia.
  Qed.

Lemma arr_get_Some_lt l i x : arr_get l i = Some x -> 0 <= i < Z.of_nat (length l).
  Proof.
    unfold arr_get. destruct (Z.ltb_spec i 0); [easy|].
    intros Hl%lookup_lt_Some. lia.
  Qed.

Lemma arr_set_lt l i x :
    0 <= i < Z.of_nat (length l) -> arr_set l i x = Some (<[Z.to_nat i := x]> l).
  Proof.
    intros. unfold arr_set.
    destruct (Z.ltb_spec i 0), (Z.leb_spec (Z.of_nat (length l)) i); try lia; reflexivity.
  Qed.

Lemma arr_get_insert l i j x :
    0 <= i < Z.of_nat (length l) ->
    arr_get (<[Z.to_nat i := x]> l) j = if decide (i = j) then Some x else arr_get l j.
  Proof.
    intros Hi. unfold arr_get. destruct (Z.ltb_spec j 0).
    { destruct (decide (i = j)); [lia | reflexivity]. }
    destruct (decide (i = j)) as [->|].
    - apply list_lookup_insert_eq. lia.
    - apply list_lookup_insert_ne. lia.
  Qed.
End Arrays.

(** * Error numbers (file_system/vfs_defs.h) *)
Definition EPERM : Z := 1.
Definition ENOENT : Z := 2.
Definition ESRCH : Z := 3.
Definition EINTR : Z := 4.
Definition EIO : Z := 5.
Definition EBADF : Z := 9.
Definition ECHILD : Z := 10.
Definition ENOMEM : Z := 12.
Definition EBUSY : Z := 16.
Definition EEXIST : Z := 17.
Definition ENOTDIR : Z := 20.
Definition EISDIR : Z := 21.
Definition EINVAL : Z := 22.
Definition EMFILE : Z := 24.
Definition ENOTTY : Z := 25.
Definition ENOSPC : Z := 28.
Definition EROFS : Z := 30.
Definition EPIPE : Z := 32.
Definition ERANGE : Z := 34.
Definition ENAMETOOLONG : Z := 36.
Definition ENOTEMPTY : Z := 39.
Definition ELOOP : Z := 40.
Definition ENOTSUP : Z := 95.

(** * Bit-level lemmas *)

Lemma testbit_pow2 n m : 0 <= n -> Z.testbit (2 ^ n) m = (m =? n).
Proof.
  intros. destruct (Z.eqb_spec m n) as [->|]; [now apply Z.pow2_bits_true|].
  apply Z.pow2_bits_false. lia.
Qed.

Lemma shiftl_1 n : 0 <= n -> Z.shiftl 1 n = 2 ^ n.
Proof. intros. rewrite Z.shiftl_mul_pow2; lia. Qed.

Lemma shiftr_div x n : 0 <= n -> Z.shiftr x n = x / 2 ^ n.
Proof. apply Z.shiftr_div_pow2. Qed.

Lemma lor_range n a b : 0 <= n -> 0 <= a < 2 ^ n -> 0 <= b < 2 ^ n -> 0 <= Z.lor a b < 2 ^ n.
Proof.
  intros Hn Ha Hb. assert (0 <= Z.lor a b) by (apply Z.lor_nonneg; lia).
  split; [assumption|].
  destruct (Z.eq_dec (Z.lor a b) 0) as [->|]; [lia|].
  apply Z.log2_lt_pow2; [lia|]. rewrite Z.log2_lor by lia.
  assert (0 < n) by (destruct (Z.eq_dec n 0) as [->|]; [|lia];
    assert (a = 0) as -> by (simpl in *; lia); assert (b = 0) as -> by (simpl in *; lia); easy).
  apply Z.max_lub_lt.
  - destruct (Z.eq_dec a 0) as [->|]; [simpl; lia | apply Z.log2_lt_pow2; lia].
  - destruct (Z.eq_dec b 0) as [->|]; [simpl; lia | apply Z.log2_lt_pow2; lia].
Qed.

Lemma land_range_l n a b : 0 <= n -> 0 <= a < 2 ^ n -> 0 <= Z.land a b < 2 ^ n.
Proof.
  intros Hn Ha. assert (0 <= Z.land a b) by (apply Z.land_nonneg; lia).
  split; [assumption|].
  destruct (Z.eq_dec (Z.land a b) 0) as [->|]; [lia|].
  rewrite <- (Z.mod_small a (2 ^ n)) by lia.
  rewrite <- Z.land_ones, <- Z.land_assoc, (Z.land_comm (Z.ones n)), Z.land_assoc, Z.land_ones by lia.
  apply Z.mod_pos_bound. lia.
Qed.

(** * Lists *)

Lemma elem_of_tail {A} (a : A) l : a ∉ l -> forall x, x ∈ l <-> x ∈ a :: l /\ x <> a.
Proof. intros Hn x. rewrite elem_of_cons. naive_solver. Qed.

Lemma elem_of_hole {A} (a : A) l1 l2 : a ∉ l1 -> a ∉ l2 ->
  forall x, x ∈ l1 ++ l2 <-> x ∈ l1 ++ a :: l2 /\ x <> a.
Proof. intros H1 H2 x. rewrite !elem_of_app, elem_of_cons. naive_solver. Qed.

Lemma NoDup_hole {A} (a : A) l1 l2 : NoDup (l1 ++ a :: l2) -> (a ∉ l1) /\ (a ∉ l2) /\ NoDup (l1 ++ l2).
Proof.
  rewrite !list.NoDup_app, list.NoDup_cons. intros (N1 & Nd & N2 & N3). split_and!; auto.
  - intros Hx. apply (Nd a Hx). apply elem_of_cons. auto.
  - intros x Hx Hy. apply (Nd x Hx). apply elem_of_cons. auto.
Qed.

(** A boolean property of a bounded integer is checked by enumeration. *)
Lemma Z_enum (n : Z) (P : Z -> bool) :
  forallb P (seqZ 0 n) = true -> forall i, 0 <= i < n -> P i = true.
Proof.
  intros H i Hi. rewrite forallb_forall in H. apply H.
  apply list_elem_of_In, elem_of_seqZ. lia.
Qed.
