(* ===== verification/BitMath.v ===== *)
(** util/math.c: the integer helpers every allocator uses. *)

From S2P Require Import Prelude.

(** * The routines *)

(** [__builtin_clzll] and [__builtin_ctzll] have no defined value at 0. *)
Definition clzll (x : Z) : option Z := if x =? 0 then None else Some (63 - Z.log2 x).

Fixpoint pos_ctz (p : positive) : Z :=
  match p with xO q => 1 + pos_ctz q | _ => 0 end.
Definition ctzll (x : Z) : option Z :=
  match x with Zpos p => Some (pos_ctz p) | _ => None end.

Fixpoint pow_loop (n : nat) (base result : Z) : Z :=
  match n with O => result | S k => pow_loop k base (wrap64 (result * base)) end.
Definition pow (base exp : Z) : Z := pow_loop (Z.to_nat exp) base 1.

Definition BiggestBit (num : Z) : option Z := lz ← clzll num; Some (wrap64 (63 - lz)).
Definition SmallestBit (num : Z) : option Z := ctzll num.

Definition IsPowerOfTwo (num : Z) : bool :=
  if num =? 0 then false else Z.land num (wrap64 (num - 1)) =? 0.

(** [~x] on 64-bit words. *)
Definition not64 (x : Z) : Z := wrap64 (Z.lnot x).

Fixpoint find_unset_from (i : Z) (buffer : list Z) : option Z :=
  match buffer with
  | [] => Some (-1)
  | w :: rest =>
      if w =? UINT64_MAX then find_unset_from (i + 1) rest
      else bit ← SmallestBit (not64 w); Some (to_s64 (wrap64 (i * 64 + wrap8 bit)))
  end.
(** [buffer] is the array of [size] words; the result is -1 or a bit index. *)
Definition FindFirstUnsetInBuffer (buffer : list Z) : option Z := find_unset_from 0 buffer.

(** * Their meaning *)

Lemma pos_ctz_nonneg p : 0 <= pos_ctz p.
Proof. induction p; simpl; lia. Qed.

Lemma pos_ctz_spec p :
  exists k, Zpos p = (2 * k + 1) * 2 ^ pos_ctz p /\ 0 <= k.
Proof.
  induction p as [p IH|p [k [IH Hk]]|]; simpl pos_ctz.
  - exists (Zpos p). lia.
  - exists k. split; [|exact Hk]. pose proof (pos_ctz_nonneg p).
    rewrite Z.pow_add_r by lia. lia.
  - exists 0. lia.
Qed.

(** [ctzll x] is the largest power of two dividing [x]. *)
Lemma ctzll_spec x : 0 < x ->
  exists n k, ctzll x = Some n /\ 0 <= n /\ 0 <= k /\ x = (2 * k + 1) * 2 ^ n.
Proof.
  destruct x as [|p|p]; try lia. intros _.
  destruct (pos_ctz_spec p) as (k & Hk & ?).
  exists (pos_ctz p), k. repeat split; auto using pos_ctz_nonneg.
Qed.

Lemma ctzll_testbit x n : ctzll x = Some n ->
  Z.testbit x n = true /\ forall m, m < n -> Z.testbit x m = false.
Proof.
  intros Hc. destruct x as [|p|p]; try easy.
  destruct (pos_ctz_spec p) as (k & Hk & ?). injection Hc as <-.
  pose proof (pos_ctz_nonneg p) as Hn. rewrite Hk. split.
  - rewrite Z.mul_pow2_bits by lia. rewrite Z.sub_diag. apply Z.testbit_odd_0.
  - intros m Hm. rewrite Z.mul_pow2_bits by lia. now apply Z.testbit_neg_r; lia.
Qed.

Lemma ctzll_range x n : 0 <= x < 2 ^ 64 -> ctzll x = Some n -> 0 <= n < 64.
Proof.
  intros Hx Hc. destruct x as [|p|p]; try easy.
  pose proof (pos_ctz_nonneg p). pose proof (ctzll_testbit _ _ Hc) as [Ht _].
  injection Hc as <-. split; [lia|].
  destruct (Z.lt_ge_cases (pos_ctz p) 64) as [|Hge]; [assumption|exfalso].
  rewrite Z.bits_above_log2 in Ht; [easy|lia|].
  apply Z.lt_le_trans with 64; [|lia]. apply Z.log2_lt_pow2; lia.
Qed.

Lemma ctzll_Some x n : 0 <= x -> ctzll x = Some n -> 0 < x.
Proof. destruct x; simpl; try easy; lia. Qed.

Lemma BiggestBit_spec x : 0 < x < 2 ^ 64 -> BiggestBit x = Some (Z.log2 x).
Proof.
  intros Hx. unfold BiggestBit, clzll. destruct (Z.eqb_spec x 0); [lia|]. simpl.
  assert (0 <= Z.log2 x < 64) by (split; [apply Z.log2_nonneg | apply Z.log2_lt_pow2; lia]).
  rewrite wrap_small; [f_equal; lia | unfold is_word; lia].
Qed.

Lemma land_pred_log2 x : 0 < x -> Z.land x (x - 1) = 0 <-> x = 2 ^ Z.log2 x.
Proof.
  intros Hx. pose proof (Z.log2_nonneg x) as Hl.
  pose proof (Z.log2_spec x Hx) as [Hlo Hhi]. split.
  - intros H0. destruct (Z.eq_dec x (2 ^ Z.log2 x)); [assumption|exfalso].
    assert (Hb1 : Z.testbit x (Z.log2 x) = true) by (apply Z.bit_log2; lia).
    assert (Z.log2 (x - 1) = Z.log2 x) by (apply Z.log2_unique; lia).
    assert (Hb2 : Z.testbit (x - 1) (Z.log2 x) = true)
      by (rewrite <- H at 1; apply Z.bit_log2; lia).
    pose proof (Z.land_spec x (x - 1) (Z.log2 x)) as HH.
    rewrite H0, Hb1, Hb2, Z.bits_0 in HH. easy.
  - intros E. set (n := Z.log2 x) in *. clearbody n. subst x.
    replace (2 ^ n - 1) with (Z.ones n) by (rewrite Z.ones_equiv; lia).
    rewrite Z.land_ones by lia. apply Z.mod_same. lia.
Qed.

Lemma IsPowerOfTwo_spec x : 0 <= x < 2 ^ 64 ->
  IsPowerOfTwo x = true <-> 0 < x /\ x = 2 ^ Z.log2 x.
Proof.
  intros Hx. unfold IsPowerOfTwo. destruct (Z.eqb_spec x 0) as [->|]; [split; [easy|lia]|].
  rewrite wrap64_small, Z.eqb_eq, land_pred_log2 by lia. lia.
Qed.

(** The order [BiggestBit(size) + !IsPowerOfTwo(size)] the allocators compute:
    the least exponent whose power of two is at least [size]. *)
Lemma order_of_size x : 0 < x < 2 ^ 64 ->
  exists n, BiggestBit x = Some n /\
    let o := if negb (IsPowerOfTwo x) then n + 1 else n in
    0 <= n < 64 /\ o = Z.log2_up x.
Proof.
  intros Hx. exists (Z.log2 x). split; [now apply BiggestBit_spec|]. cbv zeta.
  assert (0 <= Z.log2 x < 64) by (split; [apply Z.log2_nonneg | apply Z.log2_lt_pow2; lia]).
  split; [assumption|].
  pose proof (IsPowerOfTwo_spec x ltac:(lia)) as Hp.
  destruct (IsPowerOfTwo x); simpl.
  - destruct Hp as [Hp _]. destruct (Hp eq_refl) as [_ Hpow].
    rewrite Hpow at 2. rewrite Z.log2_up_pow2; [reflexivity | lia].
  - pose proof (Z.le_log2_up_succ_log2 x). pose proof (Z.le_log2_log2_up x).
    destruct (Z.eq_dec (Z.log2 x) (Z.log2_up x)) as [E|E]; [|lia].
    destruct Hp as [_ Hp]. exfalso. enough (false = true) by easy. apply Hp. split; [lia|].
    apply Z.log2_log2_up_exact in E as [b Hb]; [|lia]. subst x.
    rewrite Z.log2_pow2; [reflexivity|].
    destruct (Z.lt_ge_cases b 0); [|assumption]. rewrite Z.pow_neg_r in Hx; lia.
Qed.

Lemma not64_testbit x n : 0 <= n < 64 -> Z.testbit (not64 x) n = negb (Z.testbit x n).
Proof.
  intros. unfold not64, wrap. rewrite Z.mod_pow2_bits_low by lia. apply Z.lnot_spec. lia.
Qed.

Lemma not64_range x : 0 <= not64 x < 2 ^ 64.
Proof. apply (wrap_range 64). lia. Qed.

Lemma not64_pos x : 0 <= x < 2 ^ 64 -> x <> UINT64_MAX -> 0 < not64 x.
Proof.
  intros Hx Hne. unfold not64, wrap, Z.lnot, UINT64_MAX in *.
  replace (Z.pred (- x)) with ((2 ^ 64 - 1 - x) + (-1) * 2 ^ 64) by lia.
  rewrite Z.mod_add by lia. rewrite Z.mod_small; lia.
Qed.

(** Bit [k] of an array of 64-bit words. *)
Definition bitmap_bit (buffer : list Z) (k : Z) : bool :=
  match arr_get buffer (k / 64) with Some w => Z.testbit w (k mod 64) | None => false end.

Definition words64 (buffer : list Z) : Prop := Forall (λ w, 0 <= w < 2 ^ 64) buffer.

Lemma find_unset_from_spec buffer i : words64 buffer ->
  0 <= i -> (i + Z.of_nat (length buffer)) * 64 < 2 ^ 63 ->
  exists r, find_unset_from i buffer = Some r /\
    (r = -1 /\ Forall (λ w, w = UINT64_MAX) buffer \/
     exists j w b, buffer !! j = Some w /\ w <> UINT64_MAX /\
       (forall j', (j' < j)%nat -> buffer !! j' = Some UINT64_MAX) /\
       0 <= b < 64 /\ Z.testbit w b = false /\
       (forall b', 0 <= b' < b -> Z.testbit w b' = true) /\
       r = (i + Z.of_nat j) * 64 + b).
Proof.
  intros Hw. revert i. induction Hw as [|w rest Hx Hw IH]; intros i Hi Hlen; simpl.
  { exists (-1). split; [reflexivity|]. left. split; constructor. }
  destruct (Z.eqb_spec w UINT64_MAX) as [->|Hne].
  - destruct (IH (i + 1)) as (r & Hr & Hcase); [lia|simpl in Hlen; lia|].
    exists r. split; [exact Hr|]. destruct Hcase as [[-> Hall]|(j & w & b & Hj & ? & Hpre & ? & ? & ? & ->)].
    + left. split; [reflexivity|]. constructor; auto.
    + right. exists (S j), w, b. repeat split; auto; try lia.
      intros [|j'] Hlt; [reflexivity|]. apply Hpre. lia.
  - destruct (ctzll_spec (not64 w)) as (n & k & Hn & Hn0 & _); [now apply not64_pos|].
    unfold SmallestBit. rewrite Hn. simpl.
    pose proof (ctzll_range _ _ (not64_range w) Hn) as Hn64.
    destruct (ctzll_testbit _ _ Hn) as [Ht Hlow].
    rewrite not64_testbit in Ht by lia. apply negb_true_iff in Ht.
    eexists; split; [reflexivity|]. right. exists O, w, n. repeat split; auto; try lia.
    + intros b' Hb'. specialize (Hlow b' ltac:(lia)). rewrite not64_testbit in Hlow by lia.
      now apply negb_false_iff in Hlow.
    + rewrite (wrap_small 8) by (unfold is_word; lia).
      unfold to_s64. simpl in Hlen. rewrite !(wrap64_small) by (rewrite ?wrap64_small; lia).
      destruct (Z.ltb_spec (i * 64 + n) (2 ^ 63)); lia.
Qed.

Lemma ctzll_ge x m j : 0 < x -> 0 <= m -> x = j * 2 ^ m -> exists c, ctzll x = Some c /\ m <= c.
Proof.
  intros Hx Hm E. destruct (ctzll_spec x Hx) as (c & k & Hc & _). exists c. split; [exact Hc|].
  destruct (Z.le_gt_cases m c) as [|Hlt]; [assumption|exfalso].
  destruct (ctzll_testbit _ _ Hc) as [Ht _]. rewrite E in Ht.
  rewrite Z.mul_pow2_bits_low in Ht by lia. easy.
Qed.

Lemma ctzll_unique x n k : 0 < x -> 0 <= n -> x = (2 * k + 1) * 2 ^ n -> ctzll x = Some n.
Proof.
  intros Hx Hn E. destruct (ctzll_ge x n (2 * k + 1) Hx Hn E) as (c & Hc & Hle).
  destruct (Z.eq_dec n c) as [->|]; [exact Hc|exfalso].
  destruct (ctzll_testbit _ _ Hc) as [_ Hlow]. specialize (Hlow n ltac:(lia)).
  rewrite E, Z.mul_pow2_bits, Z.sub_diag, Z.testbit_odd_0 in Hlow by lia. easy.
Qed.
