(* ===== verification/BuddyAlloc.v ===== *)
(** allocaters/buddy_alloc.c: the state and the operations of the buddy
    allocator, the kernel pool (inline free lists threaded through the free
    pages, with the one-byte-per-frame shadow table) and the user pool
    (per-order free and used lists of [buddy_node_t]). The theorems are in
    KernelBuddy.v and UserBuddy.v.

    Addresses and sizes are 64-bit words. [kmem] is the part of kernel memory
    the inline lists live in, by virtual address; a word never stored has no
    defined value. A [buddy_node_t] list is a list of its records, a node
    being identified by its address; [kmalloc] of a node is taken to succeed,
    as the code does. *)

From S2P Require Import Prelude BitMath.

Definition PAGE_SIZE : Z := 4096.
Definition PAGE_SIZE_LOG2 : Z := 12.
Definition MAX_ORDER : Z := 64.
Definition KERNEL_VIRTUAL : Z := 0xFFFFFFFF80000000.
Definition MB : Z := 0x100000.
Definition GB : Z := 0x40000000.
Definition KSHADOW_ORDER_MASK : Z := 0x3F.
Definition KSHADOW_FREE_FLAG : Z := 0x40.
Definition NULL : Z := 0.

(** * State *)

Record buddy_node_t := BuddyNode { free : bool; address : Z; order : Z }.
Record buddy_bin_t := BuddyBin { head_free : list buddy_node_t; head_used : list buddy_node_t }.

Record buddy := Buddy {
  user_bins : list buddy_bin_t;
  user_lowest_vaild : Z;
  kernel_lowest_vaild : Z;
  kshadow : option (list Z);
  kshadow_base_pfn : Z;
  kshadow_pfn_count : Z;
  kernel_inline_heads : list Z;
  kernel_nonempty_mask : Z;
  kmem : gmap Z Z;
  kernel_buddy_lock : bool;
  user_buddy_lock : bool;
  bif : bool }.

Definition set_user_bins v s := Buddy v (user_lowest_vaild s) (kernel_lowest_vaild s) (kshadow s)
  (kshadow_base_pfn s) (kshadow_pfn_count s) (kernel_inline_heads s) (kernel_nonempty_mask s)
  (kmem s) (kernel_buddy_lock s) (user_buddy_lock s) (bif s).
Definition set_user_lowest v s := Buddy (user_bins s) v (kernel_lowest_vaild s) (kshadow s)
  (kshadow_base_pfn s) (kshadow_pfn_count s) (kernel_inline_heads s) (kernel_nonempty_mask s)
  (kmem s) (kernel_buddy_lock s) (user_buddy_lock s) (bif s).
Definition set_kernel_lowest v s := Buddy (user_bins s) (user_lowest_vaild s) v (kshadow s)
  (kshadow_base_pfn s) (kshadow_pfn_count s) (kernel_inline_heads s) (kernel_nonempty_mask s)
  (kmem s) (kernel_buddy_lock s) (user_buddy_lock s) (bif s).
Definition set_shadow sh base count s := Buddy (user_bins s) (user_lowest_vaild s)
  (kernel_lowest_vaild s) sh base count (kernel_inline_heads s) (kernel_nonempty_mask s)
  (kmem s) (kernel_buddy_lock s) (user_buddy_lock s) (bif s).
Definition set_inline heads mask mem s := Buddy (user_bins s) (user_lowest_vaild s)
  (kernel_lowest_vaild s) (kshadow s) (kshadow_base_pfn s) (kshadow_pfn_count s)
  heads mask mem (kernel_buddy_lock s) (user_buddy_lock s) (bif s).
Definition set_kernel_lock v s := Buddy (user_bins s) (user_lowest_vaild s) (kernel_lowest_vaild s)
  (kshadow s) (kshadow_base_pfn s) (kshadow_pfn_count s) (kernel_inline_heads s)
  (kernel_nonempty_mask s) (kmem s) v (user_buddy_lock s) (bif s).
Definition set_user_lock v s := Buddy (user_bins s) (user_lowest_vaild s) (kernel_lowest_vaild s)
  (kshadow s) (kshadow_base_pfn s) (kshadow_pfn_count s) (kernel_inline_heads s)
  (kernel_nonempty_mask s) (kmem s) (kernel_buddy_lock s) v (bif s).
Definition set_bif v s := Buddy (user_bins s) (user_lowest_vaild s) (kernel_lowest_vaild s)
  (kshadow s) (kshadow_base_pfn s) (kshadow_pfn_count s) (kernel_inline_heads s)
  (kernel_nonempty_mask s) (kmem s) (kernel_buddy_lock s) (user_buddy_lock s) v.

#[export] Instance buddy_if : HasIF buddy := Field bif set_bif.
Definition klock : field buddy bool := Field kernel_buddy_lock set_kernel_lock.
Definition ulock : field buddy bool := Field user_buddy_lock set_user_lock.

(** [1ULL << n] for [n < 64]. *)
Definition shl64 (n : Z) : Z := wrap64 (Z.shiftl 1 n).

(** * The shadow table *)

Definition pfn_of (addr : Z) : Z := Z.shiftr addr PAGE_SIZE_LOG2.

Definition kshadow_in_range (s : buddy) (addr : Z) : bool :=
  match kshadow s with
  | None => false
  | Some _ =>
      let pfn := pfn_of addr in
      (kshadow_base_pfn s <=? pfn) &&
      (pfn <? wrap64 (kshadow_base_pfn s + kshadow_pfn_count s))
  end.

(** [kshadow[(addr >> PAGE_SIZE_LOG2) - kshadow_base_pfn]], read and written. *)
Definition kshadow_read (addr : Z) : M buddy Z :=
  let* s := get in
  of_option (sh ← kshadow s; arr_get sh (pfn_of addr - kshadow_base_pfn s)).
Definition kshadow_write (addr v : Z) : M buddy unit :=
  let* s := get in
  let* sh := of_option (sh ← kshadow s; arr_set sh (pfn_of addr - kshadow_base_pfn s) v) in
  modify (set_shadow (Some sh) (kshadow_base_pfn s) (kshadow_pfn_count s)).

Definition free_byte (ord : Z) : Z := wrap8 (Z.lor (Z.land ord KSHADOW_ORDER_MASK) KSHADOW_FREE_FLAG).
Definition used_byte (ord : Z) : Z := wrap8 (Z.land ord KSHADOW_ORDER_MASK).

Definition kshadow_set_free (addr ord : Z) : M buddy unit :=
  let* s := get in
  if negb (kshadow_in_range s addr) then ret tt else kshadow_write addr (free_byte ord).
Definition kshadow_set_used (addr ord : Z) : M buddy unit :=
  let* s := get in
  if negb (kshadow_in_range s addr) then ret tt else kshadow_write addr (used_byte ord).
Definition kshadow_clear (addr : Z) : M buddy unit :=
  let* s := get in
  if negb (kshadow_in_range s addr) then ret tt else kshadow_write addr 0.

(** * Inline free lists of the kernel pool *)

Definition inline_slot (phys : Z) : Z := wrap64 (phys + KERNEL_VIRTUAL).

Definition mem_load (a : Z) : M buddy Z := let* s := get in of_option (kmem s !! a).
Definition mem_store (a v : Z) : M buddy unit :=
  modify (λ s, set_inline (kernel_inline_heads s) (kernel_nonempty_mask s) (<[a := v]> (kmem s)) s).
Definition head_load (ord : Z) : M buddy Z :=
  let* s := get in of_option (arr_get (kernel_inline_heads s) ord).
Definition head_store (ord v : Z) : M buddy unit :=
  let* s := get in
  let* h := of_option (arr_set (kernel_inline_heads s) ord v) in
  modify (set_inline h (kernel_nonempty_mask s) (kmem s)).
Definition mask_update (f : Z -> Z) : M buddy unit :=
  modify (λ s, set_inline (kernel_inline_heads s) (f (kernel_nonempty_mask s)) (kmem s) s).
Definition mask_set (ord : Z) : M buddy unit := mask_update (λ m, Z.lor m (shl64 ord)).
Definition mask_clear (ord : Z) : M buddy unit := mask_update (λ m, Z.land m (not64 (shl64 ord))).

Definition inline_push (ord phys : Z) : M buddy unit :=
  let* h := head_load ord in
  mem_store (inline_slot phys) h;;
  head_store ord phys;;
  mask_set ord.

Definition inline_pop (ord : Z) : M buddy Z :=
  let* head := head_load ord in
  if head =? NULL then ret head
  else
    let* nx := mem_load (inline_slot head) in
    head_store ord nx;;
    when (nx =? NULL) (mask_clear ord);;
    ret head.

(** [void** prev_link]: the head cell of the order or the slot of a page. *)
Inductive link := HeadCell | Slot (a : Z).
Definition link_store (ord : Z) (l : link) (v : Z) : M buddy unit :=
  match l with HeadCell => head_store ord v | Slot a => mem_store a v end.

(** A free list holds distinct pages of the pool, so a walk visits at most
    [kshadow_pfn_count] of them. *)
Definition walk_fuel (s : buddy) : nat := S (Z.to_nat (kshadow_pfn_count s)).

Definition inline_remove_step (ord phys : Z) (l : link * Z) : M buddy (link * Z + bool) :=
  let '(prev_link, cur) := l in
  if cur =? NULL then ret (inr false)
  else if cur =? phys then
    let* nx := mem_load (inline_slot cur) in
    link_store ord prev_link nx;;
    let* h := head_load ord in
    when (h =? NULL) (mask_clear ord);;
    ret (inr true)
  else
    let* nx := mem_load (inline_slot cur) in
    ret (inl (Slot (inline_slot cur), nx)).

Definition inline_remove (ord phys : Z) : M buddy bool :=
  let* s := get in
  let* cur := head_load ord in
  loop (walk_fuel s) (inline_remove_step ord phys) (HeadCell, cur).

(** * Nodes and bins of the user pool *)

Definition CreateBuddyNode (addr ord : Z) : buddy_node_t := BuddyNode true addr ord.
Definition CreateDupeBuddyNode (n : buddy_node_t) : buddy_node_t :=
  BuddyNode (free n) (address n) (order n).

Definition get_list (bin : buddy_bin_t) (free_list : bool) : list buddy_node_t :=
  if free_list then head_free bin else head_used bin.
Definition set_list (bin : buddy_bin_t) (free_list : bool) (l : list buddy_node_t) : buddy_bin_t :=
  if free_list then BuddyBin l (head_used bin) else BuddyBin (head_free bin) l.

(** The [while] of InsertSortedBuddyNode, on the list after [current]. *)
Fixpoint insert_walk (rest : list buddy_node_t) (node : buddy_node_t) : list buddy_node_t :=
  match rest with
  | [] => [node]
  | n :: r => if address n <? address node then n :: insert_walk r node else node :: rest
  end.
Definition insert_sorted (l : list buddy_node_t) (node : buddy_node_t) : list buddy_node_t :=
  match l with
  | [] => [node]
  | h :: r => if address h >? address node then node :: l else h :: insert_walk r node
  end.
Definition InsertSortedBuddyNode (bin : buddy_bin_t) (node : buddy_node_t) (free_list : bool) : buddy_bin_t :=
  set_list bin free_list (insert_sorted (get_list bin free_list) node).

Fixpoint remove_first (l : list buddy_node_t) (addr : Z) : list buddy_node_t :=
  match l with
  | [] => []
  | n :: r => if address n =? addr then r else n :: remove_first r addr
  end.
Definition RemoveBuddyNode (bin : buddy_bin_t) (addr : Z) (free_list : bool) : buddy_bin_t :=
  set_list bin free_list (remove_first (get_list bin free_list) addr).
Definition RemoveBuddyNodeComplete (bin : buddy_bin_t) (addr : Z) : buddy_bin_t :=
  RemoveBuddyNode (RemoveBuddyNode bin addr true) addr false.

Definition MoveBuddyNode (bin : buddy_bin_t) (node : buddy_node_t) : buddy_bin_t :=
  let was_free := free node in
  let node := BuddyNode (negb (free node)) (address node) (order node) in
  let new_node := CreateDupeBuddyNode node in
  let bin := InsertSortedBuddyNode bin new_node (negb was_free) in
  RemoveBuddyNode bin (address node) was_free.

Definition GetBuddyAddress (addr ord : Z) : Z := Z.lxor addr (shl64 ord).

(** [bins[i]], with the bins of the user pool. *)
Definition bin_load (i : Z) : M buddy buddy_bin_t :=
  let* s := get in of_option (arr_get (user_bins s) i).
Definition bin_update (i : Z) (f : buddy_bin_t -> buddy_bin_t) : M buddy unit :=
  let* b := bin_load i in
  let* s := get in
  let* bs := of_option (arr_set (user_bins s) i (f b)) in
  modify (set_user_bins bs).

Definition SplitNode_step (addr target_order curr_order : Z) : M buddy (Z + unit) :=
  if curr_order >? target_order then
    let buddy_address := GetBuddyAddress addr (curr_order - 1) in
    bin_update (curr_order - 1) (λ b,
      InsertSortedBuddyNode b (CreateBuddyNode buddy_address (curr_order - 1)) true);;
    kshadow_set_free buddy_address (curr_order - 1);;
    ret (inl (curr_order - 1))
  else ret (inr tt).

(** [node] is [None] for the NULL pointer. *)
Definition SplitNode (node : option buddy_node_t) (target_order : Z) : M buddy Z :=
  match node with
  | None => ret NULL
  | Some node =>
      if (order node <? target_order) || negb (free node) then ret NULL
      else if order node =? target_order then
        bin_update (order node) (λ b, MoveBuddyNode b node);;
        kshadow_set_used (address node) target_order;;
        ret (address node)
      else
        bin_update (order node) (λ b, RemoveBuddyNode b (address node) true);;
        bin_update target_order (λ b,
          InsertSortedBuddyNode b (BuddyNode false (address node) target_order) false);;
        kshadow_set_used (address node) target_order;;
        loop 64 (SplitNode_step (address node) target_order) (order node);;
        ret (address node)
  end.

Definition has_address (addr : Z) (n : buddy_node_t) : bool := address n =? addr.

(** The recursion of MergeBuddy climbs the orders; [bins[MAX_ORDER]] does not
    exist, so 65 calls are enough for any pool. *)
Fixpoint MergeBuddy (fuel : nat) (addr ord : Z) : M buddy bool :=
  match fuel with
  | O => undef
  | S fuel =>
      let buddy_address := GetBuddyAddress addr ord in
      let* s := get in
      let* found :=
        if kshadow_in_range s buddy_address then
          let* b := kshadow_read buddy_address in
          ret (b =? free_byte ord)
        else
          let* bin := bin_load ord in
          ret (existsb (has_address buddy_address) (head_free bin)) in
      if found then
        bin_update ord (λ b, RemoveBuddyNodeComplete b addr);;
        bin_update ord (λ b, RemoveBuddyNodeComplete b buddy_address);;
        let merged_address := if addr <? buddy_address then addr else buddy_address in
        let other_address := if addr <? buddy_address then buddy_address else addr in
        let merged_node := BuddyNode false merged_address (ord + 1) in
        bin_update (ord + 1) (λ b, InsertSortedBuddyNode b merged_node false);;
        kshadow_clear other_address;;
        kshadow_set_free merged_address (ord + 1);;
        let* merged := MergeBuddy fuel merged_address (ord + 1) in
        when (negb merged) (bin_update (ord + 1) (λ b, MoveBuddyNode b merged_node));;
        ret found
      else ret found
  end.

(** Both lists are walked in step, the free list first at each position. *)
Fixpoint find_zip (fr us : list buddy_node_t) (addr : Z) {struct fr} : option buddy_node_t :=
  match fr with
  | [] => find (has_address addr) us
  | f :: fr' =>
      if has_address addr f then Some f
      else match us with
           | [] => find_zip fr' [] addr
           | u :: us' => if has_address addr u then Some u else find_zip fr' us' addr
           end
  end.
Definition FindBuddyNode (bin : buddy_bin_t) (addr : Z) : option buddy_node_t :=
  find_zip (head_free bin) (head_used bin) addr.

(** * Pool construction *)

Definition AddToBuddyAlloc_step (user : bool) (l : Z * Z) : M buddy (Z * Z + unit) :=
  let '(start, size) := l in
  if size <? PAGE_SIZE then ret (inr tt)
  else
    let* start_order := of_option (SmallestBit start) in
    let* size_order := of_option (BiggestBit size) in
    let bit := if start_order <? size_order then start_order else size_order in
    if bit <? PAGE_SIZE_LOG2 then
      ret (inl (wrap64 (start + shl64 bit), wrap64 (size - shl64 bit)))
    else
      (if user then bin_update bit (λ b, InsertSortedBuddyNode b (CreateBuddyNode start bit) true)
       else inline_push bit start;; kshadow_set_free start bit);;
      let* s := get in
      (if user then when (bit <? user_lowest_vaild s) (modify (set_user_lowest bit))
       else when (bit <? kernel_lowest_vaild s) (modify (set_kernel_lowest bit)));;
      ret (inl (wrap64 (start + shl64 bit), wrap64 (size - shl64 bit))).

(** The block sizes first grow with the alignment of [start], then shrink with
    what is left of [size]: at most 64 rounds each way. *)
Definition AddToBuddyAlloc (start size : Z) (user : bool) : M buddy unit :=
  loop 131 (AddToBuddyAlloc_step user) (start, size).

Record e820_entry_t := E820Entry {
  base_low : Z; base_high : Z; length_low : Z; length_high : Z; e820_type : Z }.

Fixpoint InitUserBuddyAlloc (entries : list e820_entry_t) : M buddy unit :=
  match entries with
  | [] => ret tt
  | e :: rest =>
      let base := Z.lor (wrap64 (Z.shiftl (base_high e) 32)) (base_low e) in
      let len := Z.lor (wrap64 (Z.shiftl (length_high e) 32)) (length_low e) in
      (if base =? MB then
         if len <? GB - MB then ret tt
         else AddToBuddyAlloc GB (wrap64 (len - GB + MB)) true
       else when ((e820_type e =? 1) && (MB <=? len)) (AddToBuddyAlloc base len true));;
      InitUserBuddyAlloc rest
  end.

Definition InitKernelBuddyAlloc (start end_ : Z) : M buddy unit :=
  if end_ <=? start then ret tt else AddToBuddyAlloc start (end_ - start) false.

(** The table is [kshadow_pfn_count] bytes of fresh memory, zeroed. *)
Definition InitKernelBuddyShadow (pool_start_phys pool_end_phys : Z) : M buddy unit :=
  if pool_end_phys <=? pool_start_phys then ret tt
  else
    let count := Z.shiftr (pool_end_phys - pool_start_phys) PAGE_SIZE_LOG2 in
    modify (set_shadow (Some (replicate (Z.to_nat count) 0)) (pfn_of pool_start_phys) count).

(** * Kernel pool: request and free *)

Definition kernel_split_step (block ord curr : Z) : M buddy (Z + unit) :=
  if curr >? ord then
    let curr := curr - 1 in
    let buddy_addr := Z.lxor block (shl64 curr) in
    inline_push curr buddy_addr;;
    kshadow_set_free buddy_addr curr;;
    ret (inl curr)
  else ret (inr tt).

Definition kernel_request_buddy (size : Z) : M buddy Z :=
  let* n := of_option (BiggestBit size) in
  let ord := if negb (IsPowerOfTwo size) then n + 1 else n in
  let ord := if ord <? PAGE_SIZE_LOG2 then PAGE_SIZE_LOG2 else ord in
  if MAX_ORDER <=? ord then ret NULL
  else
    let* ie := lock_irqsave klock in
    let* s := get in
    let hi_mask := Z.land (kernel_nonempty_mask s) (not64 (wrap64 (shl64 ord - 1))) in
    if hi_mask =? 0 then unlock_irqrestore klock ie;; ret NULL
    else
      let* curr := of_option (ctzll hi_mask) in
      let* block := inline_pop curr in
      loop 65 (kernel_split_step block ord) curr;;
      kshadow_set_used block ord;;
      unlock_irqrestore klock ie;;
      ret block.

Definition kernel_merge_step (l : Z * Z) : M buddy (Z * Z + Z * Z) :=
  let '(addr, ord) := l in
  if negb (ord + 1 <? MAX_ORDER) then ret (inr (addr, ord))
  else
    let buddy_addr := Z.lxor addr (shl64 ord) in
    let* s := get in
    if negb (kshadow_in_range s buddy_addr) then ret (inr (addr, ord))
    else
      let* bs := kshadow_read buddy_addr in
      if negb (bs =? free_byte ord) then ret (inr (addr, ord))
      else
        let* removed := inline_remove ord buddy_addr in
        if negb removed then ret (inr (addr, ord))
        else
          let lower := if addr <? buddy_addr then addr else buddy_addr in
          let higher := if addr <? buddy_addr then buddy_addr else addr in
          kshadow_clear higher;;
          ret (inl (lower, ord + 1)).

Definition kernel_free_buddy (addr : Z) : M buddy unit :=
  let* s := get in
  if negb (kshadow_in_range s addr) then ret tt
  else
    let* ie := lock_irqsave klock in
    let* b := kshadow_read addr in
    if (b =? 0) || negb (Z.land b KSHADOW_FREE_FLAG =? 0) then unlock_irqrestore klock ie
    else
      let* r := loop 65 kernel_merge_step (addr, Z.land b KSHADOW_ORDER_MASK) in
      let '(addr, ord) := r in
      inline_push ord addr;;
      kshadow_set_free addr ord;;
      unlock_irqrestore klock ie.

(** * User pool: request and free *)

Fixpoint find_lowest (bins : list buddy_bin_t) (i : Z) (n : nat) : option Z :=
  match n with
  | O => Some 0
  | S n =>
      bin ← arr_get bins i;
      match head_free bin with [] => find_lowest bins (i + 1) n | _ => Some i end
  end.
Definition FindLowest (bins : list buddy_bin_t) : option Z :=
  find_lowest bins PAGE_SIZE_LOG2 (Z.to_nat (MAX_ORDER - PAGE_SIZE_LOG2)).

(** [while (node == NULL && order < MAX_ORDER) { order++; ... }] *)
Definition find_order_step (addr : Z) (l : Z * option buddy_node_t)
  : M buddy (Z * option buddy_node_t + Z * option buddy_node_t) :=
  let '(ord, node) := l in
  match node with
  | Some _ => ret (inr (ord, node))
  | None =>
      if ord <? MAX_ORDER then
        let* bin := bin_load (ord + 1) in
        ret (inl (ord + 1, FindBuddyNode bin addr))
      else ret (inr (ord, node))
  end.

Definition FreeBuddy (addr : Z) (user : bool) : M buddy unit :=
  if negb user then kernel_free_buddy addr
  else
    let* ie := lock_irqsave ulock in
    let* bin0 := bin_load 0 in
    let* r := loop 66 (find_order_step addr) (0, FindBuddyNode bin0 addr) in
    let '(ord, node) := r in
    match node with
    | None => unlock_irqrestore ulock ie
    | Some node =>
        let* merged := MergeBuddy 65 addr ord in
        when (negb merged) (bin_update ord (λ b, MoveBuddyNode b node));;
        let* s := get in
        let* low := of_option (FindLowest (user_bins s)) in
        modify (set_user_lowest low);;
        unlock_irqrestore ulock ie
    end.

(** [for (current_order = order; current_order < MAX_ORDER; ...)] *)
Definition request_scan_step (ord current_order : Z) : M buddy (Z + Z) :=
  if MAX_ORDER <=? current_order then ret (inr NULL)
  else
    let* bin := bin_load current_order in
    match head_free bin with
    | [] => ret (inl (current_order + 1))
    | h :: _ =>
        let* r := SplitNode (Some h) ord in
        if r =? NULL then ret (inl (current_order + 1)) else ret (inr r)
    end.

Definition RequestBuddy (size : Z) (user : bool) : M buddy Z :=
  if negb user then kernel_request_buddy size
  else
    let* n := of_option (BiggestBit size) in
    let ord := if negb (IsPowerOfTwo size) then n + 1 else n in
    let ord := if ord <? PAGE_SIZE_LOG2 + 1 then PAGE_SIZE_LOG2 else ord in
    if MAX_ORDER <=? ord then ret NULL
    else
      let* ie := lock_irqsave ulock in
      let* s := get in
      let low := user_lowest_vaild s in
      when (ord <? low) (modify (set_user_lowest ord));;
      let ord := if ord <? low then low else ord in
      let* r := loop 65 (request_scan_step ord) ord in
      unlock_irqrestore ulock ie;;
      ret r.

(** * Page counts and the consistency check *)

Definition pages_of_order (ord : Z) : Z := Z.shiftr (shl64 ord) PAGE_SIZE_LOG2.

(** The blocks of the inline list of an order, in list order. *)
Definition inline_list_step (l : Z * list Z) : M buddy (Z * list Z + list Z) :=
  let '(p, acc) := l in
  if p =? NULL then ret (inr (rev acc))
  else let* nx := mem_load (inline_slot p) in ret (inl (nx, p :: acc)).
Definition inline_list (ord : Z) : M buddy (list Z) :=
  let* s := get in
  let* h := head_load ord in
  loop (walk_fuel s) inline_list_step (h, []).

Fixpoint free_pages_from (ord : Z) (n : nat) (pages : Z) : M buddy Z :=
  match n with
  | O => ret pages
  | S n =>
      let* l := inline_list ord in
      free_pages_from (ord + 1) n (foldl (λ p _, wrap64 (p + pages_of_order ord)) pages l)
  end.

Definition buddy_kernel_total_pages : M buddy Z := gets kshadow_pfn_count.

Definition buddy_kernel_free_pages : M buddy Z :=
  let* s := get in
  match kshadow s with
  | None => ret 0
  | Some _ =>
      let* sti := lock_irqsave klock in
      let* pages := free_pages_from 0 64 0 in
      unlock_irqrestore klock sti;;
      ret pages
  end.

Fixpoint user_pages_from (with_used : bool) (bins : list buddy_bin_t) (ord : Z) (pages : Z) : Z :=
  match bins with
  | [] => pages
  | b :: rest =>
      let add p (_ : buddy_node_t) := wrap64 (p + pages_of_order ord) in
      let p := foldl add pages (head_free b) in
      user_pages_from with_used rest (ord + 1) (if with_used then foldl add p (head_used b) else p)
  end.
Definition buddy_user_total_pages : M buddy Z :=
  let* sti := lock_irqsave ulock in
  let* s := get in
  unlock_irqrestore ulock sti;;
  ret (user_pages_from true (user_bins s) 0 0).
Definition buddy_user_free_pages : M buddy Z :=
  let* sti := lock_irqsave ulock in
  let* s := get in
  unlock_irqrestore ulock sti;;
  ret (user_pages_from false (user_bins s) 0 0).

(** Counters of VerifyKernelBuddyShadow: blocks on the lists, mismatches. *)
Definition verify_block (s : buddy) (ord : Z) (acc : option (Z * Z)) (p : Z) : option (Z * Z) :=
  '(free_count, mismatches) ← acc;
  let pfn := pfn_of p in
  if (pfn <? kshadow_base_pfn s) || (wrap64 (kshadow_base_pfn s + kshadow_pfn_count s) <=? pfn)
  then Some (free_count + 1, mismatches + 1)
  else
    sh ← kshadow s; b ← arr_get sh (pfn - kshadow_base_pfn s);
    Some (free_count + 1, if b =? free_byte ord then mismatches else mismatches + 1).
Fixpoint verify_orders (ord : Z) (n : nat) (acc : Z * Z) : M buddy (Z * Z) :=
  match n with
  | O => ret acc
  | S n =>
      let* l := inline_list ord in
      let* s := get in
      let* acc := of_option (foldl (verify_block s ord) (Some acc) l) in
      verify_orders (ord + 1) n acc
  end.

Definition count_shadow (acc : Z * Z) (b : Z) : Z * Z :=
  let '(shadow_count, used_count) := acc in
  if b =? 0 then acc
  else (shadow_count + 1, if Z.land b KSHADOW_FREE_FLAG =? 0 then used_count + 1 else used_count).

Definition VerifyKernelBuddyShadow : M buddy bool :=
  let* s := get in
  match kshadow s with
  | None => ret false
  | Some sh =>
      let* sti := check_interrupts in
      CliHelper;;
      let* r := verify_orders 0 64 (0, 0) in
      let '(free_count, mismatches) := r in
      let '(shadow_count, used_count) := foldl count_shadow (0, 0) sh in
      when sti StiHelper;;
      ret ((free_count + used_count =? shadow_count) && (mismatches =? 0))
  end.

(** The allocator before initialisation. *)
Definition buddy_init : buddy :=
  Buddy (replicate 64 (BuddyBin [] [])) UINT64_MAX UINT64_MAX None 0 0 (replicate 64 0) 0 ∅
    false false true.

(** * Runs on concrete pools *)

(** A 64 KiB pool at 1 MiB. *)
Definition demo_pool : M buddy unit :=
  InitKernelBuddyShadow 0x100000 0x110000;; InitKernelBuddyAlloc 0x100000 0x110000.

Example request_free_runs :
  (demo_pool;;
   let* a := kernel_request_buddy 4096 in
   let* b := kernel_request_buddy 5000 in
   let* p := buddy_kernel_free_pages in
   kernel_free_buddy a;;
   kernel_free_buddy b;;
   let* q := buddy_kernel_free_pages in
   let* ok := VerifyKernelBuddyShadow in
   ret (a, b, p, q, ok)) buddy_init =
  (let r := (0x100000, 0x102000, 13, 16, true) in
   option_map (λ s, (r, snd s)) ((demo_pool;;
   let* a := kernel_request_buddy 4096 in
   let* b := kernel_request_buddy 5000 in
   kernel_free_buddy a;; kernel_free_buddy b) buddy_init)).
Proof. vm_compute. reflexivity. Qed.
