(* ===== verification/BuddySpec.v ===== *)
(** Abstract specification of a buddy pool: a finite map from block addresses
    to (order, is-free), its well-formedness, the two abstract moves (split a
    block, merge two buddies) and the request and free they make up. The
    kernel pool of BuddyAlloc.v is proved to implement it in KernelBuddy.v. *)

From S2P Require Import Prelude BitMath BuddyAlloc.

(** * Power-of-two arithmetic *)

Lemma pow2_pos o : 0 <= o -> 0 < 2 ^ o.
Proof. intros. apply Z.pow_pos_nonneg; lia. Qed.

Lemma pow2_S o : 0 <= o -> 2 ^ (o + 1) = 2 * 2 ^ o.
Proof. intros. rewrite Z.pow_add_r; lia. Qed.

Lemma pow2_le a b : 0 <= a <= b -> 2 ^ a <= 2 ^ b.
Proof. intros. apply Z.pow_le_mono_r; lia. Qed.

(** Alignment to a larger power of two implies alignment to a smaller one. *)
Lemma aligned_le a o o' : 0 <= o <= o' -> a mod 2 ^ o' = 0 -> a mod 2 ^ o = 0.
Proof.
  intros Ho H. pose proof (pow2_pos o) as P. pose proof (pow2_pos o') as P'.
  apply Z.mod_divide in H as [k ->]; [|lia].
  replace o' with (o + (o' - o)) by lia. rewrite Z.pow_add_r by lia.
  replace (k * (2 ^ o * 2 ^ (o' - o))) with (k * 2 ^ (o' - o) * 2 ^ o) by ring.
  apply Z.mod_mul. lia.
Qed.

Lemma aligned_add a b o : 0 <= o -> a mod 2 ^ o = 0 -> b mod 2 ^ o = 0 -> (a + b) mod 2 ^ o = 0.
Proof.
  intros Ho Ha Hb. pose proof (pow2_pos o). rewrite Z.add_mod, Ha, Hb by lia. now rewrite Z.mod_0_l by lia.
Qed.

Lemma pow2_aligned o o' : 0 <= o <= o' -> 2 ^ o' mod 2 ^ o = 0.
Proof. intros. apply (aligned_le _ o o'); [lia|]. apply Z.mod_same. pose proof (pow2_pos o'). lia. Qed.

Lemma land_pow2_aligned a o : 0 <= o -> a mod 2 ^ (o + 1) = 0 -> Z.land a (2 ^ o) = 0.
Proof.
  intros Ho H. apply Z.mod_divide in H as [k ->]; [|pose proof (pow2_pos (o + 1)); lia].
  apply Z.bits_inj'. intros n Hn. rewrite Z.land_spec, Z.bits_0, testbit_pow2 by lia.
  destruct (Z.eqb_spec n o) as [->|]; [|apply andb_false_r].
  rewrite Z.mul_pow2_bits_low by lia. reflexivity.
Qed.

(** The buddy of a block: the other half of the block one order up. *)
Lemma lxor_pow2_low a o : 0 <= o -> a mod 2 ^ (o + 1) = 0 -> Z.lxor a (2 ^ o) = a + 2 ^ o.
Proof. intros. symmetry. apply Z.add_nocarry_lxor. now apply land_pow2_aligned. Qed.

Lemma lxor_pow2_high a o : 0 <= o -> a mod 2 ^ (o + 1) = 0 -> Z.lxor (a + 2 ^ o) (2 ^ o) = a.
Proof. intros. rewrite <- lxor_pow2_low, Z.lxor_assoc, Z.lxor_nilpotent, Z.lxor_0_r by lia. reflexivity. Qed.

Lemma buddy_cases a o : 0 <= o -> a mod 2 ^ o = 0 ->
  (a mod 2 ^ (o + 1) = 0 /\ Z.lxor a (2 ^ o) = a + 2 ^ o) \/
  ((a - 2 ^ o) mod 2 ^ (o + 1) = 0 /\ Z.lxor a (2 ^ o) = a - 2 ^ o).
Proof.
  intros Ho Ha. pose proof (pow2_pos o Ho) as P. pose proof (pow2_S o Ho) as PS.
  apply Z.mod_divide in Ha as [k ->]; [|lia].
  destruct (Z.even k) eqn:E.
  - left. apply Z.even_spec in E as [j ->].
    assert (2 * j * 2 ^ o mod 2 ^ (o + 1) = 0)
      by (rewrite PS; replace (2 * j * 2 ^ o) with (j * (2 * 2 ^ o)) by ring; apply Z.mod_mul; lia).
    split; [assumption | now apply lxor_pow2_low].
  - right. rewrite <- Z.negb_odd, negb_false_iff in E. apply Z.odd_spec in E as [j ->].
    replace ((2 * j + 1) * 2 ^ o - 2 ^ o) with (j * 2 ^ (o + 1)) by (rewrite PS; ring).
    split; [apply Z.mod_mul; lia|].
    replace ((2 * j + 1) * 2 ^ o) with (j * 2 ^ (o + 1) + 2 ^ o) by (rewrite PS; ring).
    apply lxor_pow2_high; [lia|]. apply Z.mod_mul; lia.
Qed.

Lemma buddy_ne a o : 0 <= o -> Z.lxor a (2 ^ o) <> a.
Proof.
  intros Ho E. apply (f_equal (λ x, Z.testbit x o)) in E.
  rewrite Z.lxor_spec, testbit_pow2, Z.eqb_refl in E by lia. now destruct (Z.testbit a o).
Qed.

Lemma buddy_invol a o : Z.lxor (Z.lxor a (2 ^ o)) (2 ^ o) = a.
Proof. now rewrite Z.lxor_assoc, Z.lxor_nilpotent, Z.lxor_0_r. Qed.

(** * Pools *)

Abbreviation pool := (gmap Z (Z * bool)).

Definition disjoint_blocks (a o a' o' : Z) : Prop := a + 2 ^ o <= a' \/ a' + 2 ^ o' <= a.

(** Blocks are aligned, inside [lo, hi) and pairwise disjoint. *)
Record pool_wf (lo hi : Z) (B : pool) : Prop := PoolWf {
  wf_block : forall a o f, B !! a = Some (o, f) ->
    PAGE_SIZE_LOG2 <= o < MAX_ORDER /\ a mod 2 ^ o = 0 /\ lo <= a /\ a + 2 ^ o <= hi;
  wf_disj : forall a o f a' o' f', B !! a = Some (o, f) -> B !! a' = Some (o', f') ->
    a <> a' -> disjoint_blocks a o a' o' }.

(** No two free blocks are buddies. *)
Definition coalesced (B : pool) : Prop :=
  forall a o, B !! a = Some (o, true) -> o + 1 < MAX_ORDER ->
    B !! Z.lxor a (2 ^ o) <> Some (o, true).

(** One block of order [c + 1] in use becomes its lower half in use and its
    upper half free. *)
Definition split1 (a c : Z) (B : pool) : pool := <[a + 2 ^ c := (c, true)]> (<[a := (c, false)]> B).

(** Block [a], of order [o] and in use, and its free buddy become one block. *)
Definition merge1 (a o : Z) (B : pool) : pool :=
  let b := Z.lxor a (2 ^ o) in
  <[Z.min a b := (o + 1, false)]> (delete (Z.max a b) B).

Fixpoint split_down (n : nat) (a c : Z) (B : pool) : pool :=
  match n with O => B | S n => split_down n a (c - 1) (split1 a (c - 1) B) end.

(** A request of order [ord]: the smallest sufficient free block is split. *)
Definition alloc_spec (ord a : Z) (B B' : pool) : Prop :=
  exists k, ord <= k < MAX_ORDER /\ B !! a = Some (k, true) /\
    (forall a' j, ord <= j < k -> B !! a' <> Some (j, true)) /\
    B' = split_down (Z.to_nat (k - ord)) a k (<[a := (k, false)]> B).

Definition alloc_fails (ord : Z) (B : pool) : Prop :=
  forall a j, ord <= j -> B !! a <> Some (j, true).

#[global] Instance block_eq_dec : EqDecision (option (Z * bool)) := _.

(** A free: merge with the buddy as long as it is free at the same order. *)
Fixpoint coalesce (n : nat) (a o : Z) (B : pool) : pool :=
  match n with
  | O => <[a := (o, true)]> B
  | S n =>
      if decide (o + 1 < MAX_ORDER /\ B !! Z.lxor a (2 ^ o) = Some (o, true))
      then coalesce n (Z.min a (Z.lxor a (2 ^ o))) (o + 1) (merge1 a o B)
      else <[a := (o, true)]> B
  end.
Definition free_spec (a : Z) (B : pool) : pool :=
  match B !! a with Some (o, false) => coalesce 64 a o B | _ => B end.

(** * The moves preserve well-formedness *)

Section Moves.
  Context (lo hi : Z).
  Implicit Types (B : pool) (a o c : Z).

Lemma wf_order B a o f : pool_wf lo hi B -> B !! a = Some (o, f) -> 12 <= o < 64.
  Proof. intros H E. apply (wf_block _ _ _ H) in E. unfold PAGE_SIZE_LOG2, MAX_ORDER in E. lia. Qed.

  (** A map that keeps addresses and orders has the same geometry. *)
Lemma wf_set_flag B a o f f' :
    pool_wf lo hi B -> B !! a = Some (o, f) -> pool_wf lo hi (<[a := (o, f')]> B).
  Proof.
    intros [Hb Hd] E. split.
    - intros x o' g. rewrite lookup_insert. case_decide; [|apply Hb].
      intros [= <- <-]. subst. eapply Hb, E.
    - intros x o1 f1 y o2 f2. rewrite !lookup_insert. intros H1 H2 Hne.
      do 2 case_decide; simplify_eq; eauto.
  Qed.

Lemma split1_fresh B a c : pool_wf lo hi B -> B !! a = Some (c + 1, false) ->
    B !! (a + 2 ^ c) = None.
  Proof.
    intros Hwf E. pose proof (wf_order _ _ _ _ Hwf E).
    pose proof (pow2_pos c ltac:(lia)). pose proof (pow2_S c ltac:(lia)).
    destruct (B !! (a + 2 ^ c)) as [[o f]|] eqn:E2; [|reflexivity]. exfalso.
    pose proof (wf_order _ _ _ _ Hwf E2). pose proof (pow2_pos o ltac:(lia)).
    destruct (wf_disj _ _ _ Hwf _ _ _ _ _ _ E E2); lia.
  Qed.

Lemma split1_wf B a c : pool_wf lo hi B -> 12 <= c -> B !! a = Some (c + 1, false) ->
    pool_wf lo hi (split1 a c B).
  Proof.
    intros Hwf Hc E. pose proof (wf_order _ _ _ _ Hwf E) as Ho.
    pose proof (pow2_pos c ltac:(lia)) as P. pose proof (pow2_S c ltac:(lia)) as PS.
    destruct (wf_block _ _ _ Hwf _ _ _ E) as (_ & Hal & Hlo & Hhi).
    assert (Hal' : a mod 2 ^ c = 0) by (apply (aligned_le a c (c + 1)); [lia | exact Hal]).
    assert (Hother : forall x o f, B !! x = Some (o, f) -> x <> a ->
              disjoint_blocks a c x o /\ disjoint_blocks (a + 2 ^ c) c x o).
    { intros x o f Ex Hne. unfold disjoint_blocks.
      destruct (wf_disj _ _ _ Hwf _ _ _ _ _ _ E Ex ltac:(auto)); lia. }
    unfold split1. split.
    - intros x o f. rewrite !lookup_insert. unfold PAGE_SIZE_LOG2, MAX_ORDER.
      assert ((a + 2 ^ c) mod 2 ^ c = 0)
        by (apply aligned_add; [lia|exact Hal'|]; apply Z.mod_same; lia).
      destruct (decide (a + 2 ^ c = x)) as [<-|]; [intros [= <- <-]; lia|].
      destruct (decide (a = x)) as [<-|]; [intros [= <- <-]; lia|].
      intros Ex. exact (wf_block _ _ _ Hwf _ _ _ Ex).
    - intros x o f y o' f'. rewrite !lookup_insert. intros Hx Hy Hne.
      unfold disjoint_blocks in *.
      destruct (decide (a + 2 ^ c = x)), (decide (a = x)), (decide (a + 2 ^ c = y)), (decide (a = y));
        simplify_eq; try lia;
        first [ destruct (Hother _ _ _ Hy ltac:(lia)); lia
              | destruct (Hother _ _ _ Hx ltac:(lia)); lia
              | exact (wf_disj _ _ _ Hwf _ _ _ _ _ _ Hx Hy Hne) ].
  Qed.

Lemma merge1_wf B a o : pool_wf lo hi B -> o + 1 < 64 -> B !! a = Some (o, false) ->
    B !! Z.lxor a (2 ^ o) = Some (o, true) -> pool_wf lo hi (merge1 a o B).
  Proof.
    intros Hwf Ho Ea Eb. pose proof (wf_order _ _ _ _ Hwf Ea).
    pose proof (pow2_pos o ltac:(lia)) as P. pose proof (pow2_S o ltac:(lia)) as PS.
    destruct (wf_block _ _ _ Hwf _ _ _ Ea) as (_ & Hala & Hloa & Hhia).
    destruct (wf_block _ _ _ Hwf _ _ _ Eb) as (_ & _ & Hlob & Hhib).
    unfold merge1. set (b := Z.lxor a (2 ^ o)) in *.
    assert (exists l, l mod 2 ^ (o + 1) = 0 /\ Z.min a b = l /\ Z.max a b = l + 2 ^ o /\
              lo <= l /\ l + 2 * 2 ^ o <= hi /\
              (exists f, B !! l = Some (o, f)) /\ exists f, B !! (l + 2 ^ o) = Some (o, f))
      as (l & Hl & -> & -> & ? & ? & (fl & El) & (fh & Eh)).
    { destruct (buddy_cases a o) as [[Hm Hx]|[Hm Hx]]; [lia|exact Hala| |];
        fold b in Hx; rewrite Hx in *.
      - exists a. rewrite Z.min_l, Z.max_r by lia. repeat split; eauto; lia.
      - exists (a - 2 ^ o). rewrite Z.min_r, Z.max_l by lia.
        replace (a - 2 ^ o + 2 ^ o) with a by lia. repeat split; eauto; lia. }
    split.
    - intros x o' f. rewrite lookup_insert. case_decide.
      + intros [= <- <-]. subst. unfold PAGE_SIZE_LOG2, MAX_ORDER. lia.
      + intros [_ Ex]%lookup_delete_Some. exact (wf_block _ _ _ Hwf _ _ _ Ex).
    - intros x o1 f1 y o2 f2. rewrite !lookup_insert. unfold disjoint_blocks.
      assert (Hkey : forall z oz fz, delete (l + 2 ^ o) B !! z = Some (oz, fz) -> l <> z ->
                l + 2 ^ (o + 1) <= z \/ z + 2 ^ oz <= l).
      { intros z oz fz [Hz1 Hz2]%lookup_delete_Some Hne.
        pose proof (pow2_pos oz ltac:(pose proof (wf_order _ _ _ _ Hwf Hz2); lia)).
        destruct (wf_disj _ _ _ Hwf _ _ _ _ _ _ El Hz2 Hne), (wf_disj _ _ _ Hwf _ _ _ _ _ _ Eh Hz2 Hz1); lia. }
      repeat case_decide; intros Hx Hy Hne; simplify_eq.
      + eapply Hkey; eauto.
      + destruct (Hkey _ _ _ Hx ltac:(auto)); lia.
      + apply lookup_delete_Some in Hx as [_ Hx], Hy as [_ Hy].
        exact (wf_disj _ _ _ Hwf _ _ _ _ _ _ Hx Hy Hne).
  Qed.
End Moves.

(** * Free space *)

Definition weight (b : Z * bool) : Z := if b.2 then 2 ^ b.1 else 0.
Definition free_bytes (B : pool) : Z := map_fold (λ _ b acc, weight b + acc) 0 B.

Lemma free_bytes_insert_None B a b :
  B !! a = None -> free_bytes (<[a := b]> B) = weight b + free_bytes B.
Proof.
  intros E. unfold free_bytes.
  rewrite (map_fold_insert_L (λ _ b acc, weight b + acc)); [reflexivity | | exact E].
  intros. lia.
Qed.

Lemma free_bytes_delete B a b :
  B !! a = Some b -> free_bytes (delete a B) = free_bytes B - weight b.
Proof.
  intros E. rewrite <- (insert_delete_id B a b E) at 2.
  rewrite free_bytes_insert_None by apply lookup_delete_eq. lia.
Qed.

Lemma free_bytes_insert B a b b' :
  B !! a = Some b -> free_bytes (<[a := b']> B) = free_bytes B - weight b + weight b'.
Proof.
  intros E. rewrite <- insert_delete_eq, free_bytes_insert_None by apply lookup_delete_eq.
  rewrite (free_bytes_delete _ _ _ E). lia.
Qed.

(** * What the moves keep *)

Section Keep.
  Context (lo hi : Z).
  Implicit Types (B : pool) (a o c : Z).

  (** Blocks in use other than [a] are the same in both pools. *)
Definition same_used (a : Z) (B B' : pool) : Prop :=
    forall x o, x <> a -> (B !! x = Some (o, false) <-> B' !! x = Some (o, false)).

Lemma coalesced_set_used B a o : coalesced B -> coalesced (<[a := (o, false)]> B).
  Proof.
    intros H x o' E Hlt E'. rewrite lookup_insert in E, E'.
    repeat case_decide; simplify_eq. exact (H _ _ E Hlt E').
  Qed.

Lemma split1_coalesced B a c : pool_wf lo hi B -> 12 <= c -> B !! a = Some (c + 1, false) ->
    coalesced B -> coalesced (split1 a c B).
  Proof.
    intros Hwf Hc E H x o Ex Hlt Eb. pose proof (pow2_pos c ltac:(lia)).
    destruct (wf_block _ _ _ Hwf _ _ _ E) as (_ & Hal & _).
    unfold split1 in *. rewrite lookup_insert in Ex. case_decide as D1.
    - simplify_eq. rewrite lxor_pow2_high in Eb by (auto; lia).
      rewrite lookup_insert_ne, lookup_insert_eq in Eb by lia. easy.
    - rewrite lookup_insert in Ex. case_decide; simplify_eq.
      rewrite !lookup_insert in Eb.
      destruct (decide (a + 2 ^ c = Z.lxor x (2 ^ o))) as [D2|].
      + simplify_eq. assert (x = a); [|congruence].
        rewrite <- (buddy_invol x o), <- D2. apply lxor_pow2_high; [lia|exact Hal].
      + case_decide; simplify_eq. exact (H _ _ Ex Hlt Eb).
  Qed.

Lemma merge1_coalesced B a o : coalesced B -> coalesced (merge1 a o B).
  Proof.
    intros H. apply coalesced_set_used. intros x o' E Hlt E'.
    apply lookup_delete_Some in E as [_ E], E' as [_ E']. exact (H _ _ E Hlt E').
  Qed.

Lemma same_used_trans a B1 B2 B3 : same_used a B1 B2 -> same_used a B2 B3 -> same_used a B1 B3.
  Proof. unfold same_used. intros H1 H2 x o Hx. rewrite H1, H2 by exact Hx. reflexivity. Qed.

Lemma split1_same_used B a c : pool_wf lo hi B -> B !! a = Some (c + 1, false) ->
    same_used a B (split1 a c B).
  Proof.
    intros Hwf E x o Hx. pose proof (split1_fresh _ _ _ _ _ Hwf E) as Hf. unfold split1.
    rewrite !lookup_insert. repeat case_decide; subst; try congruence; naive_solver.
  Qed.

Lemma split1_free_bytes B a c : pool_wf lo hi B -> 12 <= c -> B !! a = Some (c + 1, false) ->
    free_bytes (split1 a c B) = free_bytes B + 2 ^ c.
  Proof.
    intros Hwf Hc E. pose proof (split1_fresh _ _ _ _ _ Hwf E) as Hf.
    pose proof (pow2_pos c ltac:(lia)). unfold split1.
    rewrite free_bytes_insert_None by (rewrite lookup_insert_ne by lia; exact Hf).
    rewrite (free_bytes_insert _ _ _ _ E). unfold weight; simpl. lia.
  Qed.

  (** Splitting a block of order [c] down [n] times. *)
Lemma split_down_props n a c B :
    pool_wf lo hi B -> coalesced B -> B !! a = Some (c, false) -> 12 <= c - Z.of_nat n ->
    let B' := split_down n a c B in
    pool_wf lo hi B' /\ coalesced B' /\ B' !! a = Some (c - Z.of_nat n, false) /\
    same_used a B B' /\ free_bytes B' = free_bytes B + 2 ^ c - 2 ^ (c - Z.of_nat n).
  Proof.
    revert c B. induction n as [|n IH]; intros c B Hwf Hco E Hc; cbv zeta; simpl split_down.
    { rewrite Z.sub_0_r. split_and!; auto; [easy | lia]. }
    assert (E' : B !! a = Some (c - 1 + 1, false)) by (rewrite E; do 2 f_equal; lia).
    pose proof (pow2_pos (c - 1) ltac:(lia)). pose proof (pow2_S (c - 1) ltac:(lia)) as PS.
    destruct (IH (c - 1) (split1 a (c - 1) B)) as (H1 & H2 & H3 & H4 & H5).
    - apply split1_wf; auto; lia.
    - apply split1_coalesced; auto; lia.
    - unfold split1. rewrite lookup_insert_ne by lia. apply lookup_insert_eq.
    - lia.
    - replace (c - Z.of_nat (S n)) with (c - 1 - Z.of_nat n) by lia.
      split_and!; auto.
      + exact (same_used_trans _ _ _ _ (split1_same_used _ _ _ Hwf E') H4).
      + rewrite H5, split1_free_bytes by (auto; lia).
        replace (c - 1 + 1) with c in PS by lia. lia.
  Qed.

Lemma merge1_lookup B a o : 0 <= o -> merge1 a o B !! Z.min a (Z.lxor a (2 ^ o)) = Some (o + 1, false).
  Proof. intros. apply lookup_insert_eq. Qed.

Lemma merge1_same_used B a o : 0 <= o -> B !! a = Some (o, false) ->
    B !! Z.lxor a (2 ^ o) = Some (o, true) ->
    forall x o', x <> a -> x <> Z.min a (Z.lxor a (2 ^ o)) ->
      (B !! x = Some (o', false) <-> merge1 a o B !! x = Some (o', false)).
  Proof.
    intros Ho Ea Eb x o' Hx Hm. unfold merge1. rewrite lookup_insert_ne by auto.
    pose proof (buddy_ne a o Ho). set (b := Z.lxor a (2 ^ o)) in *.
    rewrite lookup_delete. case_decide; [|reflexivity]. subst x.
    destruct (Z.max_spec a b) as [[? Hmx]|[? Hmx]]; rewrite Hmx in *; [|congruence].
    rewrite Eb. naive_solver.
  Qed.

Lemma merge1_free_bytes B a o : 0 <= o -> B !! a = Some (o, false) ->
    B !! Z.lxor a (2 ^ o) = Some (o, true) -> free_bytes (merge1 a o B) = free_bytes B - 2 ^ o.
  Proof.
    intros Ho Ea Eb. unfold merge1. pose proof (buddy_ne a o Ho).
    set (b := Z.lxor a (2 ^ o)) in *.
    destruct (Z.max_spec a b) as [[? ->]|[? ->]], (Z.min_spec a b) as [[? ->]|[? ->]]; try lia.
    - rewrite (free_bytes_insert _ _ (o, false)) by (rewrite lookup_delete_ne by auto; exact Ea).
      rewrite (free_bytes_delete _ _ _ Eb). unfold weight; simpl; lia.
    - rewrite (free_bytes_insert _ _ (o, true)) by (rewrite lookup_delete_ne by auto; exact Eb).
      rewrite (free_bytes_delete _ _ _ Ea). unfold weight; simpl; lia.
  Qed.

  (** The blocks in use after a free are those before it, [a] aside. *)
Definition used_except (a : Z) (B B' : pool) : Prop :=
    forall x o, B' !! x = Some (o, false) <-> (x <> a /\ B !! x = Some (o, false)).

Lemma used_except_final B a o o' f :
    B !! a = Some (o, f) -> used_except a B (<[a := (o', true)]> B).
  Proof. intros E x o1. rewrite lookup_insert. case_decide; naive_solver. Qed.

Lemma used_except_merge B B' a o (l := Z.min a (Z.lxor a (2 ^ o))) :
    0 <= o -> B !! a = Some (o, false) -> B !! Z.lxor a (2 ^ o) = Some (o, true) ->
    used_except l (merge1 a o B) B' -> used_except a B B'.
  Proof.
    intros Ho Ea Eb H x o'. pose proof (buddy_ne a o Ho). rewrite (H x o').
    assert (l = a \/ l = Z.lxor a (2 ^ o)) as Hl by (unfold l; lia).
    split; intros [Hx E].
    - unfold merge1 in E. rewrite lookup_insert_ne in E by auto.
      apply lookup_delete_Some in E as [Hm E]. split; [|exact E]. intros ->. lia.
    - assert (x <> l) by (destruct Hl as [->|Hl]; [exact Hx|congruence]).
      split; [assumption|]. now apply merge1_same_used.
  Qed.

Lemma coalesce_props n a o B :
    pool_wf lo hi B -> coalesced B -> B !! a = Some (o, false) -> 64 - o <= Z.of_nat n ->
    let B' := coalesce n a o B in
    pool_wf lo hi B' /\ coalesced B' /\ used_except a B B' /\ free_bytes B' = free_bytes B + 2 ^ o.
  Proof.
    revert a o B. induction n as [|n IH]; intros a o B Hwf Hco E Hn; cbv zeta; simpl coalesce.
    { pose proof (wf_order _ _ _ _ _ _ Hwf E). lia. }
    pose proof (wf_order _ _ _ _ _ _ Hwf E) as Ho.
    case_decide as D.
    - destruct D as [Hlt Eb]. unfold MAX_ORDER in Hlt. pose proof (pow2_S o ltac:(lia)).
      set (l := Z.min a (Z.lxor a (2 ^ o))) in *.
      destruct (IH l (o + 1) (merge1 a o B)) as (H1 & H2 & H3 & H4).
      + now apply merge1_wf.
      + now apply merge1_coalesced.
      + apply merge1_lookup. lia.
      + lia.
      + split_and!; auto.
        * eapply used_except_merge; eauto; lia.
        * rewrite H4, merge1_free_bytes by (auto; lia). lia.
    - split_and!.
      + exact (wf_set_flag _ _ _ _ _ _ true Hwf E).
      + intros x o' Ex Hlt Eb. destruct (decide (a = x)) as [<-|Hax].
        * rewrite lookup_insert_eq in Ex. simplify_eq.
          rewrite lookup_insert_ne in Eb by (pose proof (buddy_ne a o' ltac:(lia)); congruence).
          apply D. split; [exact Hlt | exact Eb].
        * rewrite lookup_insert_ne in Ex by exact Hax. rewrite lookup_insert in Eb.
          case_decide as D2; simplify_eq; [|exact (Hco _ _ Ex Hlt Eb)].
          apply D. split; [exact Hlt|]. now rewrite buddy_invol.
      + eapply used_except_final, E.
      + rewrite (free_bytes_insert _ _ _ _ E). unfold weight; simpl; lia.
  Qed.

  (** Freeing what was just split off undoes the split. *)
Lemma coalesce_split_down m n a k B :
    pool_wf lo hi B -> B !! a = Some (k, false) -> 12 <= k - Z.of_nat m -> (m <= n)%nat ->
    coalesce n a (k - Z.of_nat m) (split_down m a k B) = coalesce (n - m) a k B.
  Proof.
    revert n k B. induction m as [|m IH]; intros n k B Hwf E Hk Hn.
    { simpl. now rewrite Z.sub_0_r, Nat.sub_0_r. }
    assert (E' : B !! a = Some (k - 1 + 1, false)) by (rewrite E; do 2 f_equal; lia).
    pose proof (split1_fresh _ _ _ _ _ Hwf E') as Hf.
    destruct (wf_block _ _ _ Hwf _ _ _ E') as (Hr & Hal & _). unfold MAX_ORDER in Hr.
    pose proof (pow2_pos (k - 1) ltac:(lia)) as P.
    simpl split_down. replace (k - Z.of_nat (S m)) with (k - 1 - Z.of_nat m) by lia.
    rewrite IH; [|apply split1_wf; auto; lia| |lia|lia].
    2: { unfold split1. rewrite lookup_insert_ne by lia. apply lookup_insert_eq. }
    replace (n - m)%nat with (S (n - S m)) by lia. simpl coalesce.
    pose proof (lxor_pow2_low a (k - 1) ltac:(lia) Hal) as Hx. rewrite Hx.
    rewrite decide_True.
    2: { split; [unfold MAX_ORDER; lia|]. unfold split1. apply lookup_insert_eq. }
    rewrite Z.min_l by lia. replace (k - 1 + 1) with k by lia. f_equal.
    unfold merge1, split1. rewrite Hx, Z.min_l, Z.max_r by lia.
    rewrite delete_insert_id by (rewrite lookup_insert_ne by lia; exact Hf).
    rewrite insert_insert_eq. replace (k - 1 + 1) with k by lia. now apply insert_id.
  Qed.

  (** Request then free is the identity on a coalesced pool. *)
Lemma free_alloc_id ord a B B' :
    pool_wf lo hi B -> coalesced B -> 12 <= ord -> alloc_spec ord a B B' -> free_spec a B' = B.
  Proof.
    intros Hwf Hco Hord (k & Hk & E & _ & ->). unfold MAX_ORDER in Hk.
    set (V := <[a := (k, false)]> B).
    assert (EV : V !! a = Some (k, false)) by apply lookup_insert_eq.
    assert (HwV : pool_wf lo hi V) by (eapply wf_set_flag; eauto).
    destruct (split_down_props (Z.to_nat (k - ord)) a k V) as (_ & _ & Hl & _);
      [exact HwV | now apply coalesced_set_used | exact EV | lia |].
    unfold free_spec. rewrite Hl, coalesce_split_down by (auto; lia).
    destruct (64 - Z.to_nat (k - ord))%nat as [|n] eqn:En; [lia|]. simpl coalesce.
    rewrite decide_False.
    - unfold V. rewrite insert_insert_eq. now apply insert_id.
    - intros [Hlt Eb]. unfold V in Eb. rewrite lookup_insert_ne in Eb.
      + exact (Hco _ _ E Hlt Eb).
      + intros Heq. symmetry in Heq. revert Heq. apply buddy_ne. lia.
  Qed.
End Keep.

Lemma coalesce_S n a o B : coalesce (S n) a o B =
  if decide (o + 1 < MAX_ORDER /\ B !! Z.lxor a (2 ^ o) = Some (o, true))
  then coalesce n (Z.min a (Z.lxor a (2 ^ o))) (o + 1) (merge1 a o B)
  else <[a := (o, true)]> B.
Proof. reflexivity. Qed.

#[global] Arguments coalesce : simpl never.
#[global] Arguments split_down : simpl never.
