(* ===== verification/KernelBuddy.v ===== *)
(** The kernel pool of allocaters/buddy_alloc.c implements the abstract pool
    of BuddySpec.v: the representation (inline lists, non-empty mask, shadow
    table), the effect of each helper on it, and the theorems on
    [kernel_request_buddy], [kernel_free_buddy], the pool construction, the
    page counter and the consistency check. *)

From S2P Require Import Prelude BitMath BuddyAlloc BuddySpec.

(** * Representation *)

(** [lseg m h l t]: the inline list from [h] visits the pages [l] and ends at [t]. *)
Fixpoint lseg (m : gmap Z Z) (h : Z) (l : list Z) (t : Z) : Prop :=
  match l with
  | [] => h = t
  | a :: l => h = a /\ a <> NULL /\ exists nx, m !! inline_slot a = Some nx /\ lseg m nx l t
  end.
Abbreviation chain m h l := (lseg m h l NULL).

(** The lists and the mask hold exactly the free blocks of [B]. *)
Definition list_ok (s : buddy) (B : pool) (o h : Z) (l : list Z) : Prop :=
  arr_get (kernel_inline_heads s) o = Some h /\ chain (kmem s) h l /\ NoDup l /\
  (forall a, a ∈ l <-> B !! a = Some (o, true)) /\
  Z.testbit (kernel_nonempty_mask s) o = negb (h =? NULL).

Record lists_rep (s : buddy) (B : pool) : Prop := ListsRep {
  lr_len : length (kernel_inline_heads s) = 64%nat;
  lr_mask : 0 <= kernel_nonempty_mask s < 2 ^ 64;
  lr_addr : forall a b, B !! a = Some b -> 0 < a < 2 ^ 64;
  lr_list : forall o, 0 <= o < 64 -> exists h l, list_ok s B o h l }.

(** The byte the shadow holds for a frame. *)
Definition encode (b : option (Z * bool)) : Z :=
  match b with None => 0 | Some (o, true) => free_byte o | Some (o, false) => used_byte o end.

Record shadow_rep (s : buddy) (B : pool) : Prop := ShadowRep {
  sr_geom : 0 < kshadow_base_pfn s /\ 0 <= kshadow_pfn_count s /\
            (kshadow_base_pfn s + kshadow_pfn_count s) * 4096 <= 2 ^ 64;
  sr_byte : exists sh, kshadow s = Some sh /\ Z.of_nat (length sh) = kshadow_pfn_count s /\
    forall i, 0 <= i < kshadow_pfn_count s ->
      arr_get sh i = Some (encode (B !! ((kshadow_base_pfn s + i) * 4096)));
  sr_dom : forall a b, B !! a = Some b ->
    a mod 4096 = 0 /\ kshadow_base_pfn s <= a / 4096 < kshadow_base_pfn s + kshadow_pfn_count s }.

(** What an operation on the lists, or on the shadow, leaves alone. *)
Definition inline_only (s s' : buddy) : Prop := exists h m mem, s' = set_inline h m mem s.
Definition shadow_only (s s' : buddy) : Prop :=
  exists sh, s' = set_shadow (Some sh) (kshadow_base_pfn s) (kshadow_pfn_count s) s.

Lemma lists_shadow_only s s' B : shadow_only s s' -> lists_rep s B -> lists_rep s' B.
Proof. intros [sh ->] []. now constructor. Qed.

Lemma shadow_inline_only s s' B : inline_only s s' -> shadow_rep s B -> shadow_rep s' B.
Proof. intros (h & m & mem & ->) []. now constructor. Qed.

Lemma inline_only_refl s : inline_only s s.
Proof. destruct s. repeat eexists. Qed.

Lemma inline_only_trans s1 s2 s3 : inline_only s1 s2 -> inline_only s2 s3 -> inline_only s1 s3.
Proof. intros (? & ? & ? & ->) (? & ? & ? & ->). repeat eexists. Qed.

(** The lists depend only on the free blocks. *)
Lemma lists_rep_free s B B' :
  (forall a o, B !! a = Some (o, true) <-> B' !! a = Some (o, true)) ->
  (forall a b, B' !! a = Some b -> 0 < a < 2 ^ 64) -> lists_rep s B -> lists_rep s B'.
Proof.
  intros Heq Hr [H1 H2 H3 H4]. constructor; auto.
  intros o Ho. destruct (H4 o Ho) as (h & l & E & C & N & In & Mk).
  exists h, l. split_and!; auto. intros a. now rewrite In, Heq.
Qed.

(** * Segments *)

Lemma inline_slot_inj a b : 0 <= a < 2 ^ 64 -> 0 <= b < 2 ^ 64 ->
  inline_slot a = inline_slot b -> a = b.
Proof.
  unfold inline_slot, wrap, KERNEL_VIRTUAL. intros Ha Hb E.
  pose proof (Z.div_mod (a + 0xFFFFFFFF80000000) (2 ^ 64)).
  pose proof (Z.div_mod (b + 0xFFFFFFFF80000000) (2 ^ 64)). nia.
Qed.

Definition words (l : list Z) : Prop := forall a, a ∈ l -> 0 <= a < 2 ^ 64.

Lemma lseg_frame m h l t b v :
  words l -> 0 <= b < 2 ^ 64 -> b ∉ l -> lseg m h l t -> lseg (<[inline_slot b := v]> m) h l t.
Proof.
  revert h. induction l as [|a l IH]; intros h Hw Hb Hni; [easy|]. simpl.
  intros (-> & Hnz & nx & E & Hs). split_and!; auto. exists nx. split.
  - rewrite lookup_insert_ne; [exact E|]. intros Hs'%inline_slot_inj; [|auto|apply Hw; set_solver].
    subst. set_solver.
  - apply IH; auto; [|set_solver]. intros x Hx. apply Hw. set_solver.
Qed.

Lemma lseg_app m h l1 l2 t : lseg m h (l1 ++ l2) t <-> exists x, lseg m h l1 x /\ lseg m x l2 t.
Proof.
  revert h. induction l1 as [|a l1 IH]; intros h; simpl.
  - naive_solver.
  - setoid_rewrite IH. naive_solver.
Qed.

Lemma lseg_head m h l : chain m h l -> (h = NULL <-> l = []).
Proof. destruct l; simpl; [naive_solver|]. intros (-> & ? & _). naive_solver. Qed.

(** Redirecting the last link of a segment. *)
Lemma lseg_relink m h l p t t' :
  words (l ++ [p]) -> NoDup (l ++ [p]) ->
  lseg m h (l ++ [p]) t -> lseg (<[inline_slot p := t']> m) h (l ++ [p]) t'.
Proof.
  intros Hw Hnd (x & H1 & H2)%lseg_app. apply lseg_app.
  apply list.NoDup_app in Hnd as (_ & Hd & _). exists x. split.
  - apply lseg_frame; auto.
    + intros a Ha. apply Hw. set_solver.
    + apply Hw. set_solver.
    + intros Hp. apply (Hd p Hp). set_solver.
  - simpl in *. destruct H2 as (-> & ? & _). split_and!; auto.
    exists t'. split; [apply lookup_insert_eq | reflexivity].
Qed.

(** * Helpers on one order *)

Lemma shl64_pow o : 0 <= o < 64 -> shl64 o = 2 ^ o.
Proof.
  intros. unfold shl64. rewrite shiftl_1 by lia. apply wrap64_small.
  pose proof (pow2_pos o ltac:(lia)). split; [lia|]. apply Z.pow_lt_mono_r; lia.
Qed.

Lemma mask_set_bit m o j : 0 <= o < 64 -> Z.testbit (Z.lor m (shl64 o)) j = Z.testbit m j || (j =? o).
Proof. intros. rewrite shl64_pow, Z.lor_spec, testbit_pow2 by lia. reflexivity. Qed.

Lemma mask_clear_bit m o j : 0 <= o < 64 -> 0 <= j < 64 ->
  Z.testbit (Z.land m (not64 (shl64 o))) j = Z.testbit m j && negb (j =? o).
Proof. intros. rewrite Z.land_spec, not64_testbit, shl64_pow, testbit_pow2 by lia. reflexivity. Qed.

Lemma mask_set_range m o : 0 <= o < 64 -> 0 <= m < 2 ^ 64 -> 0 <= Z.lor m (shl64 o) < 2 ^ 64.
Proof. intros. apply lor_range; try lia. unfold shl64. apply (wrap_range 64). lia. Qed.

Lemma mask_clear_range m o : 0 <= m < 2 ^ 64 -> 0 <= Z.land m (not64 (shl64 o)) < 2 ^ 64.
Proof. intros. now apply land_range_l. Qed.

Section Lists.
  Context (s : buddy) (B : pool) (o : Z).
  Hypothesis (HL : lists_rep s B) (Ho : 0 <= o < 64).

Lemma list_words h l j : 0 <= j < 64 -> list_ok s B j h l -> words l.
  Proof.
    intros Hj (_ & _ & _ & In & _) a Ha%In. pose proof (lr_addr _ _ HL _ _ Ha). lia.
  Qed.

Lemma heads_in_range j : 0 <= j < 64 -> 0 <= j < Z.of_nat (length (kernel_inline_heads s)).
  Proof. rewrite (lr_len _ _ HL). lia. Qed.

  (** Rebuilding the representation after the list of order [o] became [h', l']. *)
Lemma lists_rep_update B' h' l' mask' mem' :
    let s' := set_inline (<[Z.to_nat o := h']> (kernel_inline_heads s)) mask' mem' s in
    0 <= mask' < 2 ^ 64 -> (forall a b, B' !! a = Some b -> 0 < a < 2 ^ 64) ->
    list_ok s' B' o h' l' ->
    (forall j h l, 0 <= j < 64 -> j <> o -> list_ok s B j h l ->
       chain mem' h l /\ (forall a, B !! a = Some (j, true) <-> B' !! a = Some (j, true)) /\
       Z.testbit mask' j = Z.testbit (kernel_nonempty_mask s) j) ->
    lists_rep s' B'.
  Proof.
    intros s' Hm Ha Hok Hother. constructor; auto; unfold s'; simpl.
    - rewrite length_insert. apply (lr_len _ _ HL).
    - intros j Hj. destruct (decide (o = j)) as [<-|Hne]; [exists h', l'; exact Hok|].
      destruct (lr_list _ _ HL j Hj) as (h & l & Hl). exists h, l.
      destruct (Hother j h l Hj ltac:(auto) Hl) as (C & EqB & Mk).
      destruct Hl as (Hh & _ & N & In & M0). unfold list_ok; simpl. split_and!; auto.
      + rewrite arr_get_insert, decide_False by (auto using heads_in_range). exact Hh.
      + intros a. now rewrite In.
      + now rewrite Mk.
  Qed.

Lemma inline_push_spec a :
    0 < a < 2 ^ 64 -> (forall j, B !! a <> Some (j, true)) ->
    wp (inline_push o a) (λ _ s', inline_only s s' /\ lists_rep s' (<[a := (o, true)]> B)) s.
  Proof.
    intros Ha Hnf. destruct (lr_list _ _ HL o Ho) as (h & l & Hl).
    pose proof (list_words _ _ _ Ho Hl) as Hw. pose proof (heads_in_range o Ho) as Hr.
    destruct Hl as (Hh & C & N & In & Mk).
    unfold inline_push, head_load, head_store, mem_store, mask_set, mask_update. wp_steps.
    rewrite arr_set_lt by exact Hr. wp_steps. split; [repeat eexists|].
    apply (lists_rep_update _ _ (a :: l)).
    - apply mask_set_range; [lia|]. apply (lr_mask _ _ HL).
    - intros x b. rewrite lookup_insert. case_decide; [subst; auto | apply (lr_addr _ _ HL)].
    - unfold list_ok; simpl. split_and!.
      + rewrite arr_get_insert, decide_True by auto. reflexivity.
      + reflexivity.
      + unfold NULL; lia.
      + exists h. split; [apply lookup_insert_eq|]. apply lseg_frame; auto; [lia|].
        intros Hin%In. eapply Hnf, Hin.
      + constructor; auto. intros Hin%In. eapply Hnf, Hin.
      + intros x. rewrite lookup_insert, elem_of_cons, In. case_decide; naive_solver.
      + rewrite mask_set_bit, Z.eqb_refl, orb_true_r by lia.
        destruct (Z.eqb_spec a NULL); [unfold NULL in *; lia | reflexivity].
    - intros j hj lj Hj Hne Hlj. pose proof (list_words _ _ _ Hj Hlj) as Hwj.
      destruct Hlj as (_ & Cj & _ & Inj & _). split_and!.
      + apply lseg_frame; auto; [lia|]. intros Hin%Inj. eapply Hnf, Hin.
      + intros x. rewrite lookup_insert. case_decide; [|reflexivity]. subst.
        split; [intros E; exfalso; eapply Hnf, E | naive_solver].
      + rewrite mask_set_bit by lia. destruct (Z.eqb_spec j o); [congruence|]. apply orb_false_r.
  Qed.

  (** Taking [a] out of the list of order [o] leaves the other orders alone. *)
Lemma lists_rep_take a h l h' l' mem' :
    list_ok s B o h l -> B !! a = Some (o, true) ->
    (forall x, x ∈ l' <-> x ∈ l /\ x <> a) -> NoDup l' -> chain mem' h' l' ->
    (forall j hj lj, 0 <= j < 64 -> j <> o -> list_ok s B j hj lj -> chain mem' hj lj) ->
    lists_rep (set_inline (<[Z.to_nat o := h']> (kernel_inline_heads s))
      (if h' =? NULL then Z.land (kernel_nonempty_mask s) (not64 (shl64 o))
       else kernel_nonempty_mask s) mem' s) (delete a B).
  Proof.
    intros (Hh & C & N & In & Mk) Ea Hl' N' C' Hj. pose proof (heads_in_range o Ho) as Hr.
    apply (lists_rep_update _ _ l').
    - pose proof (lr_mask _ _ HL). case_match; auto using mask_clear_range.
    - intros x b [_ Hx]%lookup_delete_Some. exact (lr_addr _ _ HL _ _ Hx).
    - unfold list_ok; simpl. split_and!; auto.
      + rewrite arr_get_insert, decide_True by auto. reflexivity.
      + intros x. rewrite Hl', In, lookup_delete_Some. naive_solver.
      + destruct (Z.eqb_spec h' NULL).
        * rewrite mask_clear_bit, Z.eqb_refl, andb_false_r by lia. reflexivity.
        * rewrite Mk. destruct (Z.eqb_spec h NULL) as [H0|]; [|reflexivity].
          apply (lseg_head _ _ _ C) in H0. subst l.
          assert (a ∈ []) by now apply In. set_solver.
    - intros j hj lj Hj' Hne Hok. split_and!; [eauto| |].
      + intros x. rewrite lookup_delete_Some. split; [|naive_solver]. intros Hx.
        split; [|exact Hx]. congruence.
      + case_match; [|reflexivity]. rewrite mask_clear_bit by lia.
        destruct (Z.eqb_spec j o); [congruence|]. apply andb_true_r.
  Qed.

Lemma inline_pop_spec a0 :
    B !! a0 = Some (o, true) ->
    wp (inline_pop o) (λ a s', inline_only s s' /\ B !! a = Some (o, true) /\
                               lists_rep s' (delete a B)) s.
  Proof.
    intros E0. destruct (lr_list _ _ HL o Ho) as (h & l & Hl).
    pose proof (heads_in_range o Ho) as Hr. pose proof Hl as (Hh & C & N & In & Mk).
    destruct l as [|a l]; [apply In in E0; set_solver|]. simpl in C.
    destruct C as (-> & Hnz & nx & Em & C). apply list.NoDup_cons in N as [Hni N].
    assert (Ea : B !! a = Some (o, true)) by (apply In; set_solver).
    unfold inline_pop, head_load, head_store, mem_load, mask_clear, mask_update. wp_steps.
    rewrite (proj2 (Z.eqb_neq _ _) Hnz). wp_steps. rewrite arr_set_lt by exact Hr. wp_steps.
    pose proof (lists_rep_take a a (a :: l) nx l (kmem s) Hl Ea) as Ht.
    destruct (nx =? NULL); simpl in *; wp_steps; (split; [repeat eexists|]); (split; [exact Ea|]);
      (apply Ht; [now apply elem_of_tail | exact N | exact C |]);
      intros ????? (_ & Cj & _); exact Cj.
  Qed.

  (** Where the walk of inline_remove stands once [l1] has been passed. *)
Definition link_ok (l1 : list Z) (lk : link) : Prop :=
    match lk with
    | HeadCell => l1 = []
    | Slot x => exists l0 y, l1 = l0 ++ [y] /\ x = inline_slot y
    end.

  (** The walk: [l2] remains, its first page is [cur], and [a] is in it. *)
Definition walk_inv (h a : Z) (l : list Z) (n : nat) (p : link * Z) (s1 : buddy) : Prop :=
    s1 = s /\ exists l1 l2, l = l1 ++ l2 /\ length l2 = n /\ (a ∈ l2) /\ (a ∉ l1) /\
      lseg (kmem s) h l1 p.2 /\ chain (kmem s) p.2 l2 /\ link_ok l1 p.1.

Lemma inline_remove_found h l1 l2 a lk :
    list_ok s B o h (l1 ++ a :: l2) -> lseg (kmem s) h l1 a -> chain (kmem s) a (a :: l2) ->
    link_ok l1 lk ->
    wp (inline_remove_step o a (lk, a)) (λ r s', r = inr true /\ inline_only s s' /\
                                                 lists_rep s' (delete a B)) s.
  Proof.
    intros Hok H1 (_ & Hnz & nx & Em & H2) Hlk.
    pose proof (list_words _ _ _ Ho Hok) as Hw. pose proof Hok as (Hh & C & N & In & Mk).
    pose proof (heads_in_range o Ho) as Hr.
    assert (Ea : B !! a = Some (o, true)) by (apply In; set_solver).
    destruct (NoDup_hole _ _ _ N) as (Hn1 & Hn2 & N').
    pose proof (elem_of_hole _ _ _ Hn1 Hn2) as Hmem.
    unfold inline_remove_step. rewrite (proj2 (Z.eqb_neq _ _) Hnz), Z.eqb_refl.
    unfold mem_load, head_load, mask_clear, mask_update. wp_steps. destruct lk as [|x]; simpl.
    - simpl in Hlk. subst l1. simpl in *. unfold head_store. wp_steps. rewrite arr_set_lt by exact Hr. wp_steps.
      erewrite arr_get_insert, decide_True by auto. wp_steps.
      pose proof (lists_rep_take a h (a :: l2) nx l2 (kmem s) Hok Ea) as Ht.
      destruct (nx =? NULL); simpl in *; wp_steps; (split; [reflexivity|]); (split; [repeat eexists|]);
        (apply Ht; [exact Hmem | exact N' | exact H2 |]); intros ????? (_ & Cj & _); exact Cj.
    - destruct Hlk as (l0 & y & -> & ->). unfold mem_store. wp_steps.
      assert (Hhz : h <> NULL).
      { intros Hz. apply (lseg_head _ _ _ C) in Hz. destruct l0; discriminate. }
      rewrite (proj2 (Z.eqb_neq _ _) Hhz). wp_steps. split; [reflexivity|]. split; [repeat eexists|].
      assert (Hwy : words (l0 ++ [y])) by (intros z Hz; apply Hw; set_solver).
      assert (Hy : (y ∉ a :: l2) /\ NoDup (l0 ++ [y]) /\ 0 <= y < 2 ^ 64).
      { apply list.NoDup_app in N as (N1 & Nd & N2). split_and!; auto; [|apply Hwy; set_solver..].
        apply Nd. set_solver. }
      destruct Hy as (Hy1 & Hy2 & Hy3).
      pose proof (lists_rep_take a h _ h ((l0 ++ [y]) ++ l2) (<[inline_slot y := nx]> (kmem s)) Hok Ea Hmem N') as Ht.
      rewrite (proj2 (Z.eqb_neq _ _) Hhz) in Ht.
      unfold arr_get in Hh. destruct (o <? 0); [easy|].
      rewrite (list_insert_id _ _ _ Hh) in Ht. apply Ht.
      + apply lseg_app. exists nx. split; [now apply lseg_relink with a|].
        apply lseg_frame; auto; [|set_solver]. intros z Hz. apply Hw. set_solver.
      + intros j hj lj Hj Hne Hok'. pose proof (list_words _ _ _ Hj Hok') as Hwj.
        destruct Hok' as (_ & Cj & _ & Inj & _). apply lseg_frame; auto.
        intros Hyj%Inj. assert (Hyo : B !! y = Some (o, true)) by (apply In; set_solver). congruence.
  Qed.

Lemma inline_remove_spec a :
    B !! a = Some (o, true) ->
    (forall h l, list_ok s B o h l -> (length l < walk_fuel s)%nat) ->
    wp (inline_remove o a) (λ r s', r = true /\ inline_only s s' /\ lists_rep s' (delete a B)) s.
  Proof.
    intros Ea Hfuel. destruct (lr_list _ _ HL o Ho) as (h & l & Hl).
    pose proof Hl as (Hh & C & N & In & Mk).
    unfold inline_remove, head_load. wp_steps.
    apply (wp_loop (walk_inv h a l) (length l)); [|now apply (Hfuel h)|].
    { split; [reflexivity|]. exists [], l. simpl. split_and!; auto; [now apply In | set_solver]. }
    clear Hfuel. intros n [lk cur] s1 (-> & l1 & l2 & -> & Hn & Ha2 & Ha1 & H1 & H2 & Hlk). simpl in *.
    destruct l2 as [|c l2]; [set_solver|]. destruct H2 as (-> & Hnz & nx & Em & H2).
    destruct (decide (c = a)) as [->|Hne].
    - eapply wp_mono; [eapply inline_remove_found; eauto|].
      + split_and!; auto. eauto.
      + intros r s' (-> & Hr). split; [reflexivity | exact Hr].
    - unfold inline_remove_step, mem_load.
      rewrite (proj2 (Z.eqb_neq _ _) Hnz), (proj2 (Z.eqb_neq _ _) Hne). wp_steps.
      exists (length l2). split; [simpl in Hn; lia|]. split; [reflexivity|].
      exists (l1 ++ [c]), l2. simpl. split_and!; auto.
      + now rewrite <- app_assoc.
      + set_solver.
      + set_solver.
      + apply lseg_app. exists c. split; [exact H1|]. simpl. eauto.
      + exists l1, c. auto.
  Qed.
End Lists.

(** * The shadow table *)

Section Shadow.
  Context (s : buddy) (B : pool).
  Hypothesis (HS : shadow_rep s B).

Lemma in_range_iff a : kshadow_in_range s a = true <->
    kshadow_base_pfn s <= a / 4096 < kshadow_base_pfn s + kshadow_pfn_count s.
  Proof.
    destruct (sr_geom _ _ HS) as (? & ? & ?), (sr_byte _ _ HS) as (sh & E & _).
    unfold kshadow_in_range, pfn_of, PAGE_SIZE_LOG2. rewrite E, shiftr_div by lia.
    change (2 ^ 12) with 4096. rewrite wrap64_small by lia. lia.
  Qed.

Lemma block_in_range a b : B !! a = Some b -> kshadow_in_range s a = true.
  Proof. intros E. apply in_range_iff. now apply (sr_dom _ _ HS) in E. Qed.

Lemma page_addr a : a mod 4096 = 0 -> a / 4096 * 4096 = a.
  Proof. intros. pose proof (Z.div_mod a 4096). lia. Qed.

Lemma kshadow_read_spec a Q : a mod 4096 = 0 -> kshadow_in_range s a = true ->
    Q (encode (B !! a)) s -> wp (kshadow_read a) Q s.
  Proof.
    intros Ha Hr%in_range_iff HQ. destruct (sr_byte _ _ HS) as (sh & E & Hlen & Hb).
    unfold kshadow_read, pfn_of, PAGE_SIZE_LOG2. wp_steps.
    rewrite E, shiftr_div by lia. change (2 ^ 12) with 4096. simpl.
    rewrite Hb by lia.
    replace (kshadow_base_pfn s + (a / 4096 - kshadow_base_pfn s)) with (a / 4096) by lia.
    rewrite page_addr by exact Ha. wp_steps. exact HQ.
  Qed.

Lemma kshadow_write_spec a v B' :
    a mod 4096 = 0 -> kshadow_in_range s a = true -> encode (B' !! a) = v ->
    (forall x, x <> a -> B' !! x = B !! x) ->
    wp (kshadow_write a v) (λ _ s', shadow_only s s' /\ shadow_rep s' B') s.
  Proof.
    intros Ha Hr%in_range_iff Hv Hx. destruct (sr_byte _ _ HS) as (sh & E & Hlen & Hb).
    unfold kshadow_write, pfn_of, PAGE_SIZE_LOG2. wp_steps.
    rewrite E, shiftr_div by lia. change (2 ^ 12) with 4096. simpl.
    rewrite arr_set_lt by lia. wp_steps. split; [eexists; reflexivity|].
    constructor; simpl.
    - apply (sr_geom _ _ HS).
    - eexists. split; [reflexivity|]. rewrite length_insert. split; [exact Hlen|].
      intros i Hi. rewrite arr_get_insert by lia. case_decide as D.
      + rewrite <- D. do 2 f_equal.
        replace (kshadow_base_pfn s + (a / 4096 - kshadow_base_pfn s)) with (a / 4096) by lia.
        rewrite page_addr by exact Ha. now rewrite Hv.
      + rewrite Hb by exact Hi. do 2 f_equal. symmetry. apply Hx. intros <-.
        apply D. rewrite Z.div_mul by lia. lia.
    - intros x b Eb. destruct (decide (x = a)) as [->|]; [auto|].
      rewrite Hx in Eb by auto. exact (sr_dom _ _ HS _ _ Eb).
  Qed.

Lemma kshadow_set_free_spec a o : a mod 4096 = 0 -> kshadow_in_range s a = true ->
    wp (kshadow_set_free a o) (λ _ s', shadow_only s s' /\ shadow_rep s' (<[a := (o, true)]> B)) s.
  Proof.
    intros Ha Hr. unfold kshadow_set_free. wp_steps. rewrite Hr. simpl.
    apply kshadow_write_spec; auto; [now rewrite lookup_insert_eq|].
    intros. now apply lookup_insert_ne.
  Qed.

Lemma kshadow_set_used_spec a o : a mod 4096 = 0 -> kshadow_in_range s a = true ->
    wp (kshadow_set_used a o) (λ _ s', shadow_only s s' /\ shadow_rep s' (<[a := (o, false)]> B)) s.
  Proof.
    intros Ha Hr. unfold kshadow_set_used. wp_steps. rewrite Hr. simpl.
    apply kshadow_write_spec; auto; [now rewrite lookup_insert_eq|].
    intros. now apply lookup_insert_ne.
  Qed.

Lemma kshadow_clear_spec a : a mod 4096 = 0 -> kshadow_in_range s a = true ->
    wp (kshadow_clear a) (λ _ s', shadow_only s s' /\ shadow_rep s' (delete a B)) s.
  Proof.
    intros Ha Hr. unfold kshadow_clear. wp_steps. rewrite Hr. simpl.
    apply kshadow_write_spec; auto; [now rewrite lookup_delete_eq|].
    intros. now apply lookup_delete_ne.
  Qed.

  (** A list of blocks of the pool is no longer than the pool has frames. *)
Lemma list_length_bound l : NoDup l -> (forall a, a ∈ l -> is_Some (B !! a)) ->
    (length l < walk_fuel s)%nat.
  Proof.
    intros N In. unfold walk_fuel.
    enough (length l <= Z.to_nat (kshadow_pfn_count s))%nat by lia.
    set (f := λ a : Z, a / 4096).
    rewrite <- (length_fmap f l), <- (length_seqZ (kshadow_base_pfn s)).
    apply submseteq_length, NoDup_submseteq.
    - apply NoDup_fmap_2_strong; [|exact N]. intros x y [? Hx]%In [? Hy]%In Exy.
      apply (sr_dom _ _ HS) in Hx as [Hx _], Hy as [Hy _]. unfold f in Exy.
      rewrite <- (page_addr x Hx), <- (page_addr y Hy). now rewrite Exy.
    - intros i (a & -> & [? Ha]%In)%list_elem_of_fmap. apply elem_of_seqZ.
      apply (sr_dom _ _ HS) in Ha. unfold f. lia.
  Qed.
End Shadow.

(** Bytes of blocks of legal orders are distinct and non-zero. *)
Lemma free_byte_val o : 0 <= o < 64 -> free_byte o = o + 64.
Proof. intros. apply Z.eqb_eq. revert o H. now apply (Z_enum 64 (λ o, free_byte o =? o + 64)). Qed.

Lemma used_byte_val o : 0 <= o < 64 -> used_byte o = o.
Proof. intros. apply Z.eqb_eq. revert o H. now apply (Z_enum 64 (λ o, used_byte o =? o)). Qed.

(** * The pool *)

Definition pool_lo (s : buddy) : Z := kshadow_base_pfn s * 4096.
Definition pool_hi (s : buddy) : Z := (kshadow_base_pfn s + kshadow_pfn_count s) * 4096.

(** The invariant of the kernel pool: the concrete state represents the
    abstract pool [B], whose blocks are aligned, in range, pairwise disjoint
    and fully coalesced; the lock is free. *)
Record kpool (s : buddy) (B : pool) : Prop := KPool {
  kp_lists : lists_rep s B;
  kp_shadow : shadow_rep s B;
  kp_wf : pool_wf (pool_lo s) (pool_hi s) B;
  kp_coalesced : coalesced B;
  kp_unlocked : kernel_buddy_lock s = false }.

(** Everything but the kernel pool's lists, mask and shadow bytes. *)
Definition same_frame (s s' : buddy) : Prop :=
  kshadow_base_pfn s' = kshadow_base_pfn s /\ kshadow_pfn_count s' = kshadow_pfn_count s /\
  kernel_buddy_lock s' = kernel_buddy_lock s /\ bif s' = bif s /\
  user_bins s' = user_bins s /\ user_lowest_vaild s' = user_lowest_vaild s /\
  user_buddy_lock s' = user_buddy_lock s /\ kernel_lowest_vaild s' = kernel_lowest_vaild s.

Lemma same_frame_refl s : same_frame s s.
Proof. unfold same_frame. split_and!; reflexivity. Qed.
Lemma same_frame_trans s1 s2 s3 : same_frame s1 s2 -> same_frame s2 s3 -> same_frame s1 s3.
Proof. unfold same_frame. intuition congruence. Qed.
Lemma inline_only_frame s s' : inline_only s s' -> same_frame s s'.
Proof. intros (? & ? & ? & ->). unfold same_frame. split_and!; reflexivity. Qed.
Lemma shadow_only_frame s s' : shadow_only s s' -> same_frame s s'.
Proof. intros (? & ->). unfold same_frame. split_and!; reflexivity. Qed.
#[export] Hint Resolve same_frame_refl inline_only_frame shadow_only_frame : kernel.

Lemma pool_bounds_frame s s' : same_frame s s' -> pool_lo s' = pool_lo s /\ pool_hi s' = pool_hi s.
Proof. unfold same_frame, pool_lo, pool_hi. intuition congruence. Qed.

(** Addresses of a well-formed pool. *)
Lemma wf_page s B a b : pool_wf (pool_lo s) (pool_hi s) B -> B !! a = Some b -> a mod 4096 = 0.
Proof.
  destruct b as [o f]. intros Hwf E. destruct (wf_block _ _ _ Hwf _ _ _ E) as (Ho & Hal & _).
  unfold PAGE_SIZE_LOG2 in Ho. apply (aligned_le a 12 o); [lia | exact Hal].
Qed.

Lemma wf_addr s B0 B a b : shadow_rep s B0 -> pool_wf (pool_lo s) (pool_hi s) B ->
  B !! a = Some b -> 0 < a < 2 ^ 64.
Proof.
  destruct b as [o f]. intros HS Hwf E. destruct (sr_geom _ _ HS) as (? & ? & ?).
  destruct (wf_block _ _ _ Hwf _ _ _ E) as (Ho & _ & Hlo & Hhi).
  unfold PAGE_SIZE_LOG2, pool_lo, pool_hi in *. pose proof (pow2_pos o ltac:(lia)). lia.
Qed.

(** The shadow only has to know where the pool is, not what [B] holds. *)
Lemma wf_in_range s B0 B a b : shadow_rep s B0 -> pool_wf (pool_lo s) (pool_hi s) B ->
  B !! a = Some b -> kshadow_in_range s a = true.
Proof.
  destruct b as [o f]. intros HS Hwf E. apply (in_range_iff _ _ HS).
  destruct (wf_block _ _ _ Hwf _ _ _ E) as (Ho & _ & Hlo & Hhi).
  unfold PAGE_SIZE_LOG2, pool_lo, pool_hi in *. pose proof (pow2_pos o ltac:(lia)).
  split; [apply Z.div_le_lower_bound; lia | apply Z.div_lt_upper_bound; lia].
Qed.

Lemma encode_free B a o lo hi : pool_wf lo hi B -> 0 <= o < 64 ->
  encode (B !! a) = free_byte o -> B !! a = Some (o, true).
Proof.
  intros Hwf Ho E. rewrite free_byte_val in E by lia.
  destruct (B !! a) as [[o' f]|] eqn:Ea; simpl in E; [|lia].
  pose proof (wf_order _ _ _ _ _ _ Hwf Ea). destruct f.
  - rewrite free_byte_val in E by lia. do 2 f_equal. lia.
  - rewrite used_byte_val in E by lia. lia.
Qed.

(** The representation does not look at the lock and the interrupt flag. *)
Lemma lists_rep_lock b i s B : lists_rep s B -> lists_rep (set_kernel_lock b (set_bif i s)) B.
Proof. intros []. now constructor. Qed.
Lemma shadow_rep_lock b i s B : shadow_rep s B -> shadow_rep (set_kernel_lock b (set_bif i s)) B.
Proof. intros []. now constructor. Qed.

Lemma wp_lock_irqsave s Q : kernel_buddy_lock s = false ->
  Q (bif s) (set_kernel_lock true (set_bif false s)) -> wp (lock_irqsave klock) Q s.
Proof.
  intros Hl HQ. unfold lock_irqsave, check_interrupts, CliHelper, spin_lock. wp_steps.
  rewrite Hl. wp_steps. exact HQ.
Qed.

Lemma wp_unlock_irqrestore s ie Q : bif s = false ->
  Q tt (set_kernel_lock false (set_bif ie s)) -> wp (unlock_irqrestore klock ie) Q s.
Proof.
  intros Hi HQ. unfold unlock_irqrestore, spin_unlock, StiHelper. wp_steps.
  destruct ie; wp_steps; [exact HQ|].
  destruct s; simpl in *; subst; exact HQ.
Qed.

(** * Requests *)

(** The order a request of [size] bytes is served at. *)
Definition request_order (size : Z) : Z := Z.max PAGE_SIZE_LOG2 (Z.log2_up size).

Lemma high_mask_bit m ord j : 0 <= ord < 64 -> 0 <= j < 64 ->
  Z.testbit (Z.land m (not64 (wrap64 (shl64 ord - 1)))) j = Z.testbit m j && (ord <=? j).
Proof.
  intros Ho Hj. pose proof (pow2_pos ord ltac:(lia)).
  assert (2 ^ ord < 2 ^ 64) by (apply Z.pow_lt_mono_r; lia).
  rewrite Z.land_spec, not64_testbit, shl64_pow, wrap64_small by lia. f_equal.
  replace (2 ^ ord - 1) with (Z.ones ord) by (rewrite Z.ones_equiv; lia).
  rewrite Z.testbit_ones_nonneg by lia. destruct (Z.ltb_spec j ord), (Z.leb_spec ord j); lia.
Qed.

(** The mask finds the smallest non-empty order, or none. *)
Lemma high_mask_spec s B ord : lists_rep s B -> 0 <= ord < 64 ->
  let hi := Z.land (kernel_nonempty_mask s) (not64 (wrap64 (shl64 ord - 1))) in
  if hi =? 0 then forall a j, ord <= j < 64 -> B !! a <> Some (j, true)
  else exists k a, ctzll hi = Some k /\ ord <= k < 64 /\ B !! a = Some (k, true) /\
         forall a' j, ord <= j < k -> B !! a' <> Some (j, true).
Proof.
  intros HL Ho hi. pose proof (lr_mask _ _ HL) as Hm.
  assert (Hempty : forall j, ord <= j < 64 -> Z.testbit hi j = false ->
            forall a, B !! a <> Some (j, true)).
  { intros j Hj Hb a Ea. unfold hi in Hb. rewrite high_mask_bit in Hb by lia.
    destruct (lr_list _ _ HL j ltac:(lia)) as (h & l & _ & C & _ & In & Mk).
    rewrite Mk, (proj2 (Z.leb_le _ _)) in Hb by lia.
    destruct (Z.eqb_spec h NULL) as [H0|]; [|easy].
    apply (lseg_head _ _ _ C) in H0. subst l. apply In in Ea. set_solver. }
  assert (Hr : 0 <= hi < 2 ^ 64) by (apply land_range_l; lia).
  destruct (Z.eqb_spec hi 0) as [H0|Hne].
  - intros a j Hj. apply Hempty; [lia|]. now rewrite H0, Z.bits_0.
  - destruct (ctzll_spec hi ltac:(lia)) as (k & _ & Hc & _).
    pose proof (ctzll_range _ _ Hr Hc) as Hk. destruct (ctzll_testbit _ _ Hc) as [Ht Hlow].
    pose proof Ht as Ht'. unfold hi in Ht'. rewrite high_mask_bit in Ht' by lia.
    apply andb_true_iff in Ht' as [Ht1 Ht2].
    destruct (lr_list _ _ HL k ltac:(lia)) as (h & l & _ & C & _ & In & Mk).
    destruct l as [|a l].
    { assert (h = NULL) by now apply (lseg_head _ _ _ C). subst h. rewrite Mk in Ht1. easy. }
    exists k, a. split_and!; auto; try lia.
    + apply In. set_solver.
    + intros a' j Hj. apply Hempty; [lia|]. apply Hlow. lia.
Qed.

(** One turn of the split loop, at the abstract and the concrete level. *)
Definition split_inv (s0 : buddy) (B : pool) (a k ord : Z) (n : nat) (c : Z) (s : buddy) : Prop :=
  exists V, ord <= c <= k /\ n = Z.to_nat (c - ord) /\ same_frame s0 s /\
    lists_rep s V /\ shadow_rep s (<[a := (k, true)]> V) /\
    pool_wf (pool_lo s0) (pool_hi s0) V /\ V !! a = Some (c, false) /\
    split_down n a c V = split_down (Z.to_nat (k - ord)) a k (<[a := (k, false)]> B).

Lemma kernel_split_step_spec s0 B a k ord n c s :
  12 <= ord -> k < 64 -> split_inv s0 B a k ord n c s ->
  wp (kernel_split_step a ord c) (λ r s', match r with
    | inl c' => exists n', (n' < n)%nat /\ split_inv s0 B a k ord n' c' s'
    | inr _ => split_inv s0 B a k ord 0 ord s' end) s.
Proof.
  intros Hord Hk64 (V & Hc & Hn & Hf & HL & HS & Hwf & Ea & Hsd).
  unfold kernel_split_step. destruct (Z.gtb_spec c ord) as [Hgt|Hle].
  2: { wp_steps. assert (c = ord) as -> by lia. rewrite Z.sub_diag in Hn. subst n.
       exists V. split_and!; auto; lia. }
  destruct (pool_bounds_frame _ _ Hf) as [Elo Ehi].
  assert (Ea' : V !! a = Some (c - 1 + 1, false)) by (rewrite Ea; do 2 f_equal; lia).
  destruct (wf_block _ _ _ Hwf _ _ _ Ea') as (_ & Hal & _).
  pose proof (pow2_pos (c - 1) ltac:(lia)) as P.
  pose proof (split1_wf _ _ _ _ (c - 1) Hwf ltac:(lia) Ea') as Hwf'.
  pose proof (split1_fresh _ _ _ _ _ Hwf Ea') as Hfresh.
  assert (Eb : split1 a (c - 1) V !! (a + 2 ^ (c - 1)) = Some (c - 1, true)) by apply lookup_insert_eq.
  rewrite <- Elo, <- Ehi in Hwf'.
  pose proof (wf_page _ _ _ _ Hwf' Eb) as Hbp.
  pose proof (wf_addr _ _ _ _ _ HS Hwf' Eb) as Hba.
  pose proof (wf_in_range _ _ _ _ _ HS Hwf' Eb) as Hbr.
  wp_steps. rewrite shl64_pow, lxor_pow2_low by (auto; lia). set (b := a + 2 ^ (c - 1)) in *.
  eapply wp_mono; [apply (inline_push_spec s V (c - 1) HL); [lia | exact Hba | congruence]|].
  intros _ s1 [Hi HL1]. cbv beta. apply wp_bind.
  pose proof (shadow_inline_only _ _ _ Hi HS) as HS1.
  eapply wp_mono; [apply (kshadow_set_free_spec _ _ HS1 b (c - 1) Hbp)|].
  { destruct Hi as (? & ? & ? & ->). exact Hbr. }
  intros _ s2 [Hs HS2]. cbv beta. wp_steps. exists (Z.to_nat (c - 1 - ord)). split; [lia|].
  exists (split1 a (c - 1) V). rewrite <- Elo, <- Ehi. split_and!; auto; try lia.
  - eauto using same_frame_trans with kernel.
  - apply (lists_shadow_only _ _ _ Hs). revert HL1. apply lists_rep_free; unfold split1.
    + intros x o. rewrite !lookup_insert. repeat case_decide; naive_solver.
    + intros x q. exact (wf_addr _ _ _ _ _ HS Hwf').
  - unfold split1. rewrite insert_insert_ne, insert_insert_eq by (unfold b; lia).
    exact HS2.
  - unfold split1. rewrite lookup_insert_ne by lia. apply lookup_insert_eq.
  - rewrite <- Hsd, Hn. replace (Z.to_nat (c - ord)) with (S (Z.to_nat (c - 1 - ord))) by lia.
    reflexivity.
Qed.

(** The working part of a request, under the lock. *)
Lemma kernel_alloc_body s B ord k a0 :
  lists_rep s B -> shadow_rep s B -> pool_wf (pool_lo s) (pool_hi s) B ->
  12 <= ord <= k -> k < 64 -> B !! a0 = Some (k, true) ->
  wp (let* block := inline_pop k in
      loop 65 (kernel_split_step block ord) k;; kshadow_set_used block ord;; ret block)
     (λ a s', B !! a = Some (k, true) /\ same_frame s s' /\
        let B' := split_down (Z.to_nat (k - ord)) a k (<[a := (k, false)]> B) in
        lists_rep s' B' /\ shadow_rep s' B') s.
Proof.
  intros HL HS Hwf Hord Hk E0. apply wp_bind.
  eapply wp_mono; [apply (inline_pop_spec s B k HL) with a0; [lia | exact E0]|].
  intros a s1 (Hi & Ea & HL1). cbv beta. apply wp_bind.
  pose proof (shadow_inline_only _ _ _ Hi HS) as HS1.
  pose proof (wf_page _ _ _ _ Hwf Ea) as Hp.
  apply (wp_loop (split_inv s B a k ord) (Z.to_nat (k - ord))); [|lia|].
  - exists (<[a := (k, false)]> B). split_and!; auto with kernel; try lia.
    + revert HL1. apply lists_rep_free.
      * intros x o. rewrite lookup_insert, lookup_delete. case_decide; naive_solver.
      * intros x b. rewrite lookup_insert. case_decide; intros Ex;
          [subst; exact (wf_addr s B B _ _ HS Hwf Ea) | exact (wf_addr s B B _ _ HS Hwf Ex)].
    + rewrite insert_insert_eq, insert_id; auto.
    + eapply wf_set_flag; eauto.
    + apply lookup_insert_eq.
  - intros n c s2 Hinv. eapply wp_mono; [apply (kernel_split_step_spec s B a k ord n c s2); auto; lia|].
    intros [c'|[]] s3; [auto|]. intros (V & _ & _ & Hf & HL3 & HS3 & HwfV & EaV & Hsd).
    change (V = split_down (Z.to_nat (k - ord)) a k (<[a := (k, false)]> B)) in Hsd.
    subst V. set (V := split_down _ _ _ _) in *. apply wp_bind.
    destruct (pool_bounds_frame _ _ Hf) as [Elo Ehi]. rewrite <- Elo, <- Ehi in HwfV.
    eapply wp_mono; [apply (kshadow_set_used_spec _ _ HS3 a ord Hp)|].
    { eapply (wf_in_range s3 _ V); eauto. }
    intros _ s4 [Hs HS4]. cbv beta. wp_steps. split_and!; auto.
    + eauto using same_frame_trans with kernel.
    + exact (lists_shadow_only _ _ _ Hs HL3).
    + rewrite insert_insert_eq, insert_id in HS4; auto.
Qed.

Lemma request_order_word size : 0 < size < 2 ^ 64 -> 12 <= request_order size <= 64.
Proof.
  intros H. unfold request_order, PAGE_SIZE_LOG2.
  assert (Z.log2_up size <= 64); [|lia].
  rewrite <- (Z.log2_up_pow2 64) by lia. apply Z.log2_up_le_mono. lia.
Qed.

Lemma restore_lock s ie : kernel_buddy_lock s = false -> bif s = ie ->
  set_kernel_lock false (set_bif ie (set_kernel_lock true (set_bif false s))) = s.
Proof. destruct s; simpl; intros; subst; reflexivity. Qed.

(** A request for [size] bytes: it serves the smallest sufficient free block,
    split down to the request's order, or returns NULL without touching the
    state when no block is large enough. *)
Lemma kernel_request_buddy_spec s B size :
  kpool s B -> 0 < size < 2 ^ 64 ->
  let ord := request_order size in
  wp (kernel_request_buddy size) (λ r s',
    (r = NULL /\ s' = s /\ (ord = 64 \/ alloc_fails ord B)) \/
    (ord < 64 /\ exists B', alloc_spec ord r B B' /\ kpool s' B' /\ same_frame s s')) s.
Proof.
  intros [HL HS Hwf Hco Hul] Hsz ord. pose proof (request_order_word size Hsz) as Hw. fold ord in Hw.
  unfold kernel_request_buddy. destruct (order_of_size size Hsz) as (n & Hn & Hn64 & Ho).
  rewrite Hn. wp_steps. rewrite Ho.
  replace (if Z.log2_up size <? PAGE_SIZE_LOG2 then PAGE_SIZE_LOG2 else Z.log2_up size) with ord
    by (unfold ord, request_order; destruct (Z.ltb_spec (Z.log2_up size) PAGE_SIZE_LOG2); lia).
  unfold MAX_ORDER. destruct (Z.leb_spec 64 ord) as [H64|H64].
  { wp_steps. left. split_and!; auto. left. lia. }
  apply wp_bind, wp_lock_irqsave; [exact Hul|]. wp_steps.
  set (s1 := set_kernel_lock true (set_bif false s)).
  pose proof (lists_rep_lock true false s B HL) as HL1. pose proof (shadow_rep_lock true false s B HS) as HS1.
  fold s1 in HL1, HS1. pose proof (high_mask_spec s1 B ord HL1 ltac:(lia)) as Hmask. simpl in Hmask.
  destruct (_ =? 0) eqn:E0.
  - apply wp_bind, wp_unlock_irqrestore; [reflexivity|]. wp_steps. left. split_and!; auto.
    + unfold s1. now apply restore_lock.
    + right. intros a j Hj Ea. pose proof (wf_order _ _ _ _ _ _ Hwf Ea). eapply Hmask; [|exact Ea]. lia.
  - destruct Hmask as (k & a0 & Hc & Hk & Ea0 & Hmin). rewrite Hc. wp_steps.
    pose proof (kernel_alloc_body s1 B ord k a0 HL1 HS1 Hwf ltac:(lia) ltac:(lia) Ea0) as Hbody.
    apply wp_bind in Hbody. eapply wp_mono; [exact Hbody|]. clear Hbody. intros a s2 Hbody. cbv beta in *.
    apply wp_bind in Hbody. apply wp_bind. eapply wp_mono; [exact Hbody|]. clear Hbody. intros [] s3 Hbody.
    cbv beta in *. apply wp_bind in Hbody. apply wp_bind. eapply wp_mono; [exact Hbody|]. clear Hbody.
    intros [] s4 Hbody. apply wp_ret in Hbody as (Ea & Hf & HL4 & HS4). cbv beta.
    apply wp_bind, wp_unlock_irqrestore; [apply Hf|]. wp_steps. right. split; [exact H64|].
    eexists. split; [exists k; unfold MAX_ORDER; eauto with lia|].
    assert (Hfr : same_frame s (set_kernel_lock false (set_bif (bif s) s4))).
    { unfold same_frame in *. simpl in *. intuition congruence. }
    split; [|exact Hfr]. destruct (pool_bounds_frame _ _ Hfr) as [Elo Ehi].
    destruct (split_down_props (pool_lo s) (pool_hi s) (Z.to_nat (k - ord)) a k (<[a := (k, false)]> B))
      as (Hwf' & Hco' & _); [eapply wf_set_flag; eauto | now apply coalesced_set_used
                            | apply lookup_insert_eq | lia |].
    constructor; [now apply lists_rep_lock | now apply shadow_rep_lock | | exact Hco' | reflexivity].
    rewrite Elo, Ehi. exact Hwf'.
Qed.

(** * Frees *)

Lemma wf_buddy_page lo hi B a o f : pool_wf lo hi B -> B !! a = Some (o, f) ->
  Z.lxor a (2 ^ o) mod 4096 = 0.
Proof.
  intros Hwf Ea. pose proof (wf_order _ _ _ _ _ _ Hwf Ea) as Ho.
  destruct (wf_block _ _ _ Hwf _ _ _ Ea) as (_ & Hal & _). change 4096 with (2 ^ 12).
  assert (Hp : 2 ^ o mod 2 ^ 12 = 0) by (apply pow2_aligned; lia).
  assert (Ha : a mod 2 ^ 12 = 0) by (apply (aligned_le a 12 o); [lia|exact Hal]).
  destruct (buddy_cases a o ltac:(lia) Hal) as [[_ ->]|[_ ->]]; [now apply aligned_add|].
  now rewrite Zminus_mod, Ha, Hp.
Qed.

(** Two pools with the same shadow have the same bytes. *)
Lemma shadow_rep_agree s B B' a : shadow_rep s B -> shadow_rep s B' -> a mod 4096 = 0 ->
  kshadow_in_range s a = true -> encode (B !! a) = encode (B' !! a).
Proof.
  intros HS HS' Ha Hr. apply (in_range_iff _ _ HS) in Hr.
  destruct (sr_byte _ _ HS) as (sh & E & _ & Hb), (sr_byte _ _ HS') as (sh' & E' & _ & Hb').
  rewrite E in E'. injection E' as <-.
  specialize (Hb (a / 4096 - kshadow_base_pfn s) ltac:(lia)).
  specialize (Hb' (a / 4096 - kshadow_base_pfn s) ltac:(lia)).
  replace (kshadow_base_pfn s + (a / 4096 - kshadow_base_pfn s)) with (a / 4096) in * by lia.
  rewrite page_addr in Hb, Hb' by exact Ha. congruence.
Qed.

(** The state of the merge loop at block [a] of order [o]: the block is in use
    in [V], its own shadow byte is stale, and what remains to be coalesced
    gives [T]. *)
Definition merge_inv (s0 : buddy) (T : pool) (n : nat) (p : Z * Z) (s : buddy) : Prop :=
  let '(a, o) := p in
  exists V j m, n = Z.to_nat (64 - o) /\ same_frame s0 s /\ lists_rep s V /\
    shadow_rep s (<[a := j]> V) /\ pool_wf (pool_lo s0) (pool_hi s0) V /\
    V !! a = Some (o, false) /\ 64 - o <= Z.of_nat m /\ coalesce m a o V = T.

Definition merge_done (s0 : buddy) (T : pool) (p : Z * Z) (s : buddy) : Prop :=
  let '(a, o) := p in
  exists V j, same_frame s0 s /\ lists_rep s V /\ shadow_rep s (<[a := j]> V) /\
    pool_wf (pool_lo s0) (pool_hi s0) V /\ V !! a = Some (o, false) /\ <[a := (o, true)]> V = T.

Lemma merge_inv_done s0 T n a o s :
  merge_inv s0 T n (a, o) s ->
  (forall V j, shadow_rep s (<[a := j]> V) -> pool_wf (pool_lo s0) (pool_hi s0) V ->
     V !! a = Some (o, false) -> ~ (o + 1 < 64 /\ V !! Z.lxor a (2 ^ o) = Some (o, true))) ->
  merge_done s0 T (a, o) s.
Proof.
  intros (V & j & m & Hn & Hf & HL & HS & Hwf & Ea & Hm & HT) Hno.
  exists V, j. split_and!; auto. rewrite <- HT.
  pose proof (wf_order _ _ _ _ _ _ Hwf Ea). destruct m as [|m]; [lia|].
  rewrite coalesce_S, decide_False; [reflexivity|]. eapply Hno; eauto.
Qed.

Lemma merge_shadow s a o j V : V !! Z.lxor a (2 ^ o) = Some (o, true) -> 0 <= o ->
  shadow_rep s (delete (Z.max a (Z.lxor a (2 ^ o))) (<[a := j]> V)) ->
  exists j', shadow_rep s (<[Z.min a (Z.lxor a (2 ^ o)) := j']> (merge1 a o V)).
Proof.
  intros Eb Ho H. pose proof (buddy_ne a o Ho). unfold merge1.
  set (b := Z.lxor a (2 ^ o)) in *.
  destruct (Z.max_spec a b) as [[? Em]|[? Em]]; rewrite Em in *.
  - exists j. rewrite Z.min_l, insert_insert_eq by lia.
    now rewrite <- delete_insert_ne by auto.
  - exists (o, true). rewrite Z.min_r, insert_insert_eq by lia.
    rewrite delete_insert_eq in H. rewrite insert_id; [exact H|].
    now rewrite lookup_delete_ne by auto.
Qed.

Lemma merge_lists s a o V : V !! a = Some (o, false) -> V !! Z.lxor a (2 ^ o) = Some (o, true) ->
  0 <= o -> lists_rep s (delete (Z.lxor a (2 ^ o)) V) ->
  (forall x b, merge1 a o V !! x = Some b -> 0 < x < 2 ^ 64) -> lists_rep s (merge1 a o V).
Proof.
  intros Ea Eb Ho HL Hr. revert HL. apply lists_rep_free; [|exact Hr]. intros x o'.
  pose proof (buddy_ne a o Ho). unfold merge1. set (b := Z.lxor a (2 ^ o)) in *.
  rewrite lookup_insert, !lookup_delete.
  destruct (Z.max_spec a b) as [[? ->]|[? ->]], (Z.min_spec a b) as [[? ->]|[? ->]]; try lia;
    repeat case_decide; naive_solver.
Qed.

Lemma kernel_merge_step_spec s0 T n p s :
  merge_inv s0 T n p s ->
  wp (kernel_merge_step p) (λ r s', match r with
    | inl p' => exists n', (n' < n)%nat /\ merge_inv s0 T n' p' s'
    | inr p' => merge_done s0 T p' s' end) s.
Proof.
  destruct p as [a o]. intros Hinv. unfold kernel_merge_step, MAX_ORDER.
  destruct (Z.ltb_spec (o + 1) 64) as [Hlt|Hge]; simpl negb; cbv iota.
  2: { wp_steps. eapply merge_inv_done; eauto. intros; lia. }
  pose proof Hinv as (V & j & m & Hn & Hf & HL & HS & Hwf & Ea & Hm & HT).
  destruct (pool_bounds_frame _ _ Hf) as [Elo Ehi]. pose proof (wf_order _ _ _ _ _ _ Hwf Ea) as Ho.
  pose proof (buddy_ne a o ltac:(lia)) as Hne. rewrite shl64_pow by lia.
  set (b := Z.lxor a (2 ^ o)) in *. wp_steps.
  destruct (kshadow_in_range s b) eqn:Hr; simpl.
  2: { wp_steps. eapply merge_inv_done; eauto. intros V' j' HS' Hwf' _ [_ Eb].
       rewrite <- Elo, <- Ehi in Hwf'. rewrite (wf_in_range s _ V' b _ HS' Hwf' Eb) in Hr. easy. }
  pose proof (wf_buddy_page _ _ _ _ _ _ Hwf Ea) as Hbp. fold b in Hbp.
  wp_steps. apply (kshadow_read_spec _ _ HS); auto. rewrite lookup_insert_ne by auto.
  destruct (Z.eqb_spec (encode (V !! b)) (free_byte o)) as [Ebyte|Ebyte]; simpl.
  2: { wp_steps. eapply merge_inv_done; eauto. intros V' j' HS' Hwf' _ [_ Eb'].
       apply Ebyte. pose proof (shadow_rep_agree _ _ _ b HS HS' Hbp Hr) as Hag.
       fold b in Eb'. rewrite !lookup_insert_ne, Eb' in Hag by auto. exact Hag. }
  pose proof (encode_free V b o _ _ Hwf ltac:(lia) Ebyte) as Eb.
  wp_steps. eapply wp_mono; [apply (inline_remove_spec s V o HL); [lia | exact Eb |]|].
  { intros h l (_ & _ & N & In & _). apply (list_length_bound _ _ HS); [exact N|].
    intros x Hx%In. rewrite lookup_insert. case_decide; eauto. }
  intros r s1 (-> & Hi & HL1). cbv beta. simpl. wp_steps.
  pose proof (shadow_inline_only _ _ _ Hi HS) as HS1.
  replace (if a <? b then b else a) with (Z.max a b) by (destruct (Z.ltb_spec a b); lia).
  replace (if a <? b then a else b) with (Z.min a b) by (destruct (Z.ltb_spec a b); lia).
  assert (Hmax : Z.max a b mod 4096 = 0 /\ kshadow_in_range s1 (Z.max a b) = true).
  { assert (Hra : kshadow_in_range s a = true).
    { rewrite <- Elo, <- Ehi in Hwf. exact (wf_in_range _ _ _ _ _ HS Hwf Ea). }
    destruct Hi as (? & ? & ? & ->). rewrite <- Elo, <- Ehi in Hwf.
    destruct (Z.max_spec a b) as [[_ ->]|[_ ->]]; split; auto. eapply wf_page; eauto. }
  destruct Hmax as [Hmp Hmr].
  eapply wp_mono; [apply (kshadow_clear_spec _ _ HS1 _ Hmp Hmr)|].
  intros _ s2 [Hs HS2]. cbv beta. wp_steps.
  destruct (merge_shadow s2 a o j V Eb ltac:(lia) HS2) as [j' HS3].
  assert (Hwf' : pool_wf (pool_lo s0) (pool_hi s0) (merge1 a o V)) by (apply merge1_wf; auto).
  assert (Hf2 : same_frame s0 s2) by eauto using same_frame_trans with kernel.
  exists (Z.to_nat (64 - (o + 1))). split; [lia|]. destruct m as [|m]; [lia|].
  exists (merge1 a o V), j', m. fold b. fold b in HS3. split_and!; auto; try lia.
  - apply (lists_shadow_only _ _ _ Hs). apply merge_lists; auto; [lia|].
    intros x q. destruct (pool_bounds_frame _ _ Hf2) as [Elo2 Ehi2].
    rewrite <- Elo2, <- Ehi2 in Hwf'. exact (wf_addr _ _ _ _ _ HS3 Hwf').
  - apply merge1_lookup. lia.
  - rewrite <- HT, coalesce_S, decide_True by (split; [exact Hlt | exact Eb]). reflexivity.
Qed.

(** How kernel_free_buddy reads a shadow byte. *)
Definition byte_is_used (b : Z) : bool := negb ((b =? 0) || negb (Z.land b KSHADOW_FREE_FLAG =? 0)).

Lemma used_byte_test o : 12 <= o < 64 ->
  byte_is_used (used_byte o) = true /\ Z.land (used_byte o) KSHADOW_ORDER_MASK = o.
Proof.
  intros. rewrite used_byte_val by lia. assert (Hr : 0 <= o < 64) by lia.
  pose proof (Z_enum 64 (λ o, (o <? 12) || byte_is_used o && (Z.land o KSHADOW_ORDER_MASK =? o))
    eq_refl o Hr) as Ht. cbv beta in Ht.
  destruct (Z.ltb_spec o 12); [lia|]. apply andb_true_iff in Ht as [Ht1 Ht2%Z.eqb_eq]. auto.
Qed.

Lemma free_byte_test o : 0 <= o < 64 -> byte_is_used (free_byte o) = false.
Proof.
  intros. apply negb_true_iff. revert o H.
  now apply (Z_enum 64 (λ o, negb (byte_is_used (free_byte o)))).
Qed.

(** The final push of a free turns [merge_done] into the result. *)
Lemma kernel_free_finish s0 T a o s :
  merge_done s0 T (a, o) s ->
  wp (inline_push o a;; kshadow_set_free a o)
     (λ _ s', lists_rep s' T /\ shadow_rep s' T /\ same_frame s0 s') s.
Proof.
  intros (V & j & Hf & HL & HS & Hwf & Ea & HT). pose proof (wf_order _ _ _ _ _ _ Hwf Ea) as Ho.
  destruct (pool_bounds_frame _ _ Hf) as [Elo Ehi]. rewrite <- Elo, <- Ehi in Hwf.
  pose proof (wf_addr _ _ _ _ _ HS Hwf Ea) as Haddr. apply wp_bind.
  eapply wp_mono; [apply (inline_push_spec s V o HL ltac:(lia) a Haddr); congruence|].
  intros _ s1 [Hi HL1]. cbv beta. pose proof (shadow_inline_only _ _ _ Hi HS) as HS1.
  eapply wp_mono; [apply (kshadow_set_free_spec _ _ HS1 a o (wf_page _ _ _ _ Hwf Ea))|].
  { destruct Hi as (? & ? & ? & ->). exact (wf_in_range _ _ _ _ _ HS Hwf Ea). }
  intros _ s2 [Hs HS2]. cbv beta. rewrite insert_insert_eq, HT in HS2. rewrite HT in HL1.
  split_and!; auto; [exact (lists_shadow_only _ _ _ Hs HL1)|].
  eauto using same_frame_trans with kernel.
Qed.

(** Freeing a page-aligned address: a block in use is coalesced with its free
    buddies; anything else (free already, not a block, outside the pool) leaves
    the state as it was. *)
Lemma kernel_free_buddy_spec s B a :
  kpool s B -> a mod 4096 = 0 ->
  wp (kernel_free_buddy a) (λ _ s', kpool s' (free_spec a B) /\ same_frame s s' /\
    ((forall o, B !! a <> Some (o, false)) -> s' = s)) s.
Proof.
  intros Hk Hp. pose proof Hk as [HL HS Hwf Hco Hul]. unfold kernel_free_buddy, free_spec. wp_steps.
  destruct (kshadow_in_range s a) eqn:Hr; simpl.
  2: { wp_steps. destruct (B !! a) as [[o f]|] eqn:Ea; [|auto with kernel].
       rewrite (block_in_range _ _ HS _ _ Ea) in Hr. easy. }
  apply wp_bind, wp_lock_irqsave; [exact Hul|]. wp_steps.
  set (s1 := set_kernel_lock true (set_bif false s)).
  pose proof (lists_rep_lock true false s B HL) as HL1. pose proof (shadow_rep_lock true false s B HS) as HS1.
  fold s1 in HL1, HS1. apply (kshadow_read_spec _ _ HS1); [exact Hp | exact Hr|].
  assert (Hbail : wp (unlock_irqrestore klock (bif s)) (λ _ s', s' = s) s1).
  { apply wp_unlock_irqrestore; [reflexivity|]. now apply restore_lock. }
  assert (Htest : forall b, (b =? 0) || negb (Z.land b KSHADOW_FREE_FLAG =? 0) = negb (byte_is_used b))
    by (intros; unfold byte_is_used; now rewrite negb_involutive).
  rewrite Htest. destruct (B !! a) as [[o []]|] eqn:Ea; simpl encode.
  - rewrite free_byte_test by (pose proof (wf_order _ _ _ _ _ _ Hwf Ea); lia). simpl negb.
    eapply wp_mono; [exact Hbail|]. intros _ s' ->. auto with kernel.
  - pose proof (wf_order _ _ _ _ _ _ Hwf Ea) as Ho. destruct (used_byte_test o Ho) as [-> ->]. simpl negb.
    destruct (coalesce_props _ _ 64 a o B Hwf Hco Ea ltac:(lia)) as (Hwf' & Hco' & _).
    apply wp_bind. set (T := coalesce 64 a o B) in *.
    apply (wp_loop (merge_inv s1 T) (Z.to_nat (64 - o))); [|lia|].
    + exists B, (o, false), 64%nat. rewrite insert_id by exact Ea.
      split_and!; auto with kernel; lia.
    + intros n p s2 Hinv. eapply wp_mono; [apply kernel_merge_step_spec, Hinv|].
      intros [p'|[a' o']] s3 H; [exact H|].
      pose proof (kernel_free_finish _ _ _ _ _ H) as Hfin. apply wp_bind in Hfin. apply wp_bind.
      eapply wp_mono; [exact Hfin|]. intros [] s4 Hfin'. cbv beta in *. apply wp_bind.
      eapply wp_mono; [exact Hfin'|]. intros [] s5 (HL5 & HS5 & Hf5).
      apply wp_unlock_irqrestore; [apply Hf5|].
      assert (Hfr : same_frame s (set_kernel_lock false (set_bif (bif s) s5))).
      { unfold same_frame in *. simpl in *. intuition congruence. }
      destruct (pool_bounds_frame _ _ Hfr) as [Elo Ehi].
      split_and!; [|exact Hfr|intros Hn; exfalso; exact (Hn o eq_refl)].
      constructor; [now apply lists_rep_lock | now apply shadow_rep_lock | | exact Hco' | reflexivity].
      now rewrite Elo, Ehi.
  - eapply wp_mono; [exact Hbail|]. intros _ s' ->. auto with kernel.
Qed.
