(* ===== verification/KernelBuddyInit.v ===== *)
(** Construction of the kernel pool: [InitKernelBuddyShadow] followed by
    [InitKernelBuddyAlloc] leaves every whole page of the range free, in
    aligned, disjoint and fully coalesced blocks, within a bounded number of
    rounds of [AddToBuddyAlloc]. *)

From S2P Require Import Prelude BitMath BuddyAlloc BuddySpec KernelBuddy.

(** Rounds left: the block sizes climb with the alignment of [start] (at most
    64 rounds), then fall with what is left of [size] (at most 64 more). *)
Definition rounds (c size : Z) : nat :=
  Z.to_nat (if c <=? Z.log2 size then 65 + (64 - c) else 1 + Z.log2 size).

Lemma log2_lt_64 x : 0 <= x < 2 ^ 64 -> 0 <= Z.log2 x < 64.
Proof.
  intros H. split; [apply Z.log2_nonneg|].
  destruct (Z.eq_dec x 0) as [->|]; [simpl; lia | apply Z.log2_lt_pow2; lia].
Qed.

(** One round: the block taken at [start] is aligned, fits, and the round
    count goes down. *)
Lemma round_step start size c :
  0 < start -> 4096 <= size -> start + size < 2 ^ 64 -> start mod 4096 = 0 ->
  ctzll start = Some c ->
  let L := Z.log2 size in let bit := if c <? L then c else L in
  12 <= bit < 64 /\ start mod 2 ^ bit = 0 /\ 2 ^ bit <= size /\
  (start mod 2 ^ (bit + 1) = 0 -> size - 2 ^ bit < 2 ^ bit) /\
  (start + 2 ^ bit) mod 4096 = 0 /\
  exists c', ctzll (start + 2 ^ bit) = Some c' /\
    (rounds c' (size - 2 ^ bit) < rounds c size)%nat.
Proof.
  intros Hs Hz Hb Hp Hc L bit.
  destruct (ctzll_spec start Hs) as (c0 & k & Hc0 & Hc0n & Hk & Es). rewrite Hc in Hc0. injection Hc0 as <-.
  pose proof (ctzll_range start c ltac:(lia) Hc) as Hcr.
  assert (HL : 12 <= L < 64) by (split; [apply Z.log2_le_pow2; lia | apply log2_lt_64; lia]).
  pose proof (Z.log2_spec size ltac:(lia)) as [HLlo HLhi]. fold L in HLlo, HLhi. rewrite Z.pow_succ_r in HLhi by lia.
  assert (Hc12 : 12 <= c).
  { destruct (ctzll_ge start 12 (start / 4096)) as (c1 & Hc1 & ?); [lia..|pose proof (Z.div_mod start 4096); lia|].
    rewrite Hc in Hc1. injection Hc1 as <-. assumption. }
  assert (Hbit : 12 <= bit < 64) by (unfold bit; destruct (c <? L); lia).
  pose proof (pow2_pos bit ltac:(lia)) as P. pose proof (pow2_S bit ltac:(lia)) as PS.
  assert (Hal : start mod 2 ^ bit = 0).
  { apply (aligned_le start bit c); [unfold bit; destruct (Z.ltb_spec c L); lia|].
    rewrite Es. apply Z.mod_mul. pose proof (pow2_pos c). lia. }
  assert (Hfit : 2 ^ bit <= size).
  { unfold bit. destruct (Z.ltb_spec c L); [|lia]. pose proof (pow2_le c L ltac:(lia)). lia. }
  split_and!; auto; try lia.
  - intros Hal'. destruct (Z.lt_ge_cases c L) as [Hlt|Hge].
    + exfalso. assert (Eb : bit = c) by (unfold bit; destruct (Z.ltb_spec c L); lia).
      rewrite Eb in *. apply Z.mod_divide in Hal' as [j Hj]; [|lia]. rewrite Es, PS in Hj.
      assert (2 * k + 1 = 2 * j) by (apply (Z.mul_reg_r _ _ (2 ^ c)); lia). lia.
    + assert (Eb : bit = L) by (unfold bit; destruct (Z.ltb_spec c L); lia). rewrite Eb. lia.
  - change 4096 with (2 ^ 12) in *. apply aligned_add; [lia|exact Hp|]. apply pow2_aligned. lia.
  - destruct (Z.le_gt_cases c L) as [Hle|Hgt].
    + assert (Eb : bit = c) by (unfold bit; destruct (Z.ltb_spec c L); lia). rewrite Eb in *.
      destruct (ctzll_ge (start + 2 ^ c) (c + 1) (k + 1)) as (c' & Hc' & Hle');
        [lia | lia | rewrite PS, Es; ring |].
      exists c'. split; [exact Hc'|]. pose proof (ctzll_range (start + 2 ^ c) c' ltac:(lia) Hc').
      pose proof (log2_lt_64 (size - 2 ^ c) ltac:(lia)).
      unfold rounds. fold L. destruct (Z.leb_spec c L), (Z.leb_spec c' (Z.log2 (size - 2 ^ c))); lia.
    + assert (Eb : bit = L) by (unfold bit; destruct (Z.ltb_spec c L); lia). rewrite Eb in *.
      assert (Hlog : Z.log2 (size - 2 ^ L) < L).
      { destruct (Z.eq_dec (size - 2 ^ L) 0) as [->|]; [simpl; lia | apply Z.log2_lt_pow2; lia]. }
      exists L. pose proof (Z.log2_nonneg (size - 2 ^ L)). split.
      * apply (ctzll_unique _ L ((2 * k + 1) * 2 ^ (c - L - 1))); [lia..|].
        rewrite Es. replace c with ((c - L - 1) + 1 + L) at 1 by lia.
        rewrite !Z.pow_add_r by lia. ring.
      * unfold rounds. fold L. destruct (Z.leb_spec c L), (Z.leb_spec L (Z.log2 (size - 2 ^ L))); lia.
Qed.

(** * The loop *)

(** The blocks pushed so far: free, ending at or before [start], and the last
    one's upper buddy can no longer be pushed whole. *)
Record built (s0 : buddy) (q start size : Z) (s : buddy) (B : pool) : Prop := Built {
  bt_lists : lists_rep s B;
  bt_shadow : shadow_rep s B;
  bt_wf : pool_wf q (pool_hi s0) B;
  bt_coal : coalesced B;
  bt_free : forall a o f, B !! a = Some (o, f) -> f = true /\ a + 2 ^ o <= start;
  bt_next : forall a o, B !! a = Some (o, true) -> a mod 2 ^ (o + 1) = 0 -> start = a + 2 ^ o -> size < 2 ^ o;
  bt_bytes : free_bytes B = start - q;
  bt_geom : kshadow_base_pfn s = kshadow_base_pfn s0 /\ kshadow_pfn_count s = kshadow_pfn_count s0 /\
            kernel_buddy_lock s = kernel_buddy_lock s0 /\ bif s = bif s0 }.

Lemma push_coalesced B start size o : coalesced B -> 0 <= o -> start mod 2 ^ o = 0 -> 2 ^ o <= size ->
  (forall a o f, B !! a = Some (o, f) -> f = true /\ a + 2 ^ o <= start) ->
  (forall a o, B !! a = Some (o, true) -> a mod 2 ^ (o + 1) = 0 -> start = a + 2 ^ o -> size < 2 ^ o) ->
  coalesced (<[start := (o, true)]> B).
Proof.
  intros Hco Ho Hal Hfit Hfree Hnext.
  assert (Hnb : B !! Z.lxor start (2 ^ o) <> Some (o, true)).
  { intros E. pose proof (pow2_pos o Ho). destruct (Hfree _ _ _ E) as [_ Hle].
    destruct (buddy_cases start o Ho Hal) as [[_ Hx]|[Hm Hx]]; rewrite Hx in *; [lia|].
    assert (size < 2 ^ o); [|lia]. apply (Hnext _ _ E Hm). lia. }
  intros x o' Ex Hlt Eb. rewrite lookup_insert in Ex. case_decide as D; simplify_eq.
  - rewrite lookup_insert_ne in Eb by (pose proof (buddy_ne x o' Ho); congruence). easy.
  - rewrite lookup_insert in Eb. case_decide as D2; simplify_eq; [|exact (Hco _ _ Ex Hlt Eb)].
    apply Hnb. now rewrite buddy_invol.
Qed.

Lemma push_wf B q hi start o :
  pool_wf q hi B -> 12 <= o < 64 -> start mod 2 ^ o = 0 -> q <= start -> start + 2 ^ o <= hi ->
  (forall a o f, B !! a = Some (o, f) -> f = true /\ a + 2 ^ o <= start) ->
  pool_wf q hi (<[start := (o, true)]> B).
Proof.
  intros Hwf Ho Hal Hq Hhi Hfree. split.
  - intros x o' f. rewrite lookup_insert. case_decide; [|apply Hwf].
    intros [= <- <-]. subst. unfold PAGE_SIZE_LOG2, MAX_ORDER. auto.
  - intros x o1 f1 y o2 f2. rewrite !lookup_insert. unfold disjoint_blocks.
    repeat case_decide; intros Hx Hy Hne; simplify_eq.
    + apply Hfree in Hy. lia.
    + apply Hfree in Hx. lia.
    + exact (wf_disj _ _ _ Hwf _ _ _ _ _ _ Hx Hy Hne).
Qed.

Lemma lists_rep_lowest v s B : lists_rep s B -> lists_rep (set_kernel_lowest v s) B.
Proof. intros []. now constructor. Qed.
Lemma shadow_rep_lowest v s B : shadow_rep s B -> shadow_rep (set_kernel_lowest v s) B.
Proof. intros []. now constructor. Qed.

Lemma built_fresh s0 q start size s B : built s0 q start size s B -> B !! start = None.
Proof.
  intros HB. destruct (B !! start) as [[o f]|] eqn:E; [|reflexivity].
  pose proof (wf_order _ _ _ _ _ _ (bt_wf _ _ _ _ _ _ HB) E). pose proof (pow2_pos o ltac:(lia)).
  apply (bt_free _ _ _ _ _ _ HB) in E. lia.
Qed.

Lemma built_push s0 q start size s B bit s3 (B' := <[start := (bit, true)]> B) :
  built s0 q start size s B -> q <= start -> 12 <= bit < 64 -> start mod 2 ^ bit = 0 ->
  2 ^ bit <= size -> start + 2 ^ bit <= pool_hi s0 ->
  (start mod 2 ^ (bit + 1) = 0 -> size - 2 ^ bit < 2 ^ bit) ->
  lists_rep s3 B' -> shadow_rep s3 B' ->
  kshadow_base_pfn s3 = kshadow_base_pfn s -> kshadow_pfn_count s3 = kshadow_pfn_count s ->
  kernel_buddy_lock s3 = kernel_buddy_lock s -> bif s3 = bif s ->
  built s0 q (start + 2 ^ bit) (size - 2 ^ bit) s3 B'.
Proof.
  intros HB Hqs Hbit Hal Hfit Hend Hnext HL3 HS3 ????. pose proof (pow2_pos bit ltac:(lia)).
  pose proof (built_fresh _ _ _ _ _ _ HB) as Hfresh. assert (Hfree := bt_free _ _ _ _ _ _ HB).
  destruct (bt_geom _ _ _ _ _ _ HB) as (Eb & Ec & El & Ei). constructor; auto.
  - apply push_wf; auto. apply HB.
  - apply (push_coalesced B start size bit); auto; try apply HB. lia.
  - intros a o f. unfold B'. rewrite lookup_insert.
    case_decide; [intros [= <- <-]; subst; split; [auto|lia]|].
    intros E. apply Hfree in E. split; [apply E | lia].
  - intros a o. unfold B'. rewrite lookup_insert. case_decide; [intros [= <-] Ha _; subst; auto|].
    intros E _ ?. apply Hfree in E. lia.
  - unfold B'. rewrite free_bytes_insert_None, (bt_bytes _ _ _ _ _ _ HB) by exact Hfresh.
    unfold weight; simpl; lia.
  - split_and!; congruence.
Qed.

Definition add_inv (s0 : buddy) (q e : Z) (n : nat) (p : Z * Z) (s : buddy) : Prop :=
  let '(start, size) := p in
  start + size = e /\ q <= start /\ 0 <= size /\ start mod 4096 = 0 /\
  (exists c, ctzll start = Some c /\ n = rounds c size) /\ exists B, built s0 q start size s B.

Lemma add_step_spec s0 q e n p s :
  0 < q -> e < 2 ^ 64 -> e / 4096 * 4096 <= pool_hi s0 -> pool_lo s0 <= q ->
  add_inv s0 q e n p s ->
  wp (AddToBuddyAlloc_step false p) (λ r s', match r with
    | inl p' => exists n', (n' < n)%nat /\ add_inv s0 q e n' p' s'
    | inr _ => exists start size B, start + size = e /\ start mod 4096 = 0 /\ 0 <= size < 4096 /\
                 built s0 q start size s' B end) s.
Proof.
  intros Hq He Hhi Hlo. destruct p as [start size].
  intros (Hse & Hqs & Hsz & Hp & (c & Hc & Hn) & B & HB). unfold AddToBuddyAlloc_step, PAGE_SIZE, SmallestBit.
  destruct (Z.ltb_spec size 4096) as [Hlt|Hge]; [wp_steps; exists start, size, B; auto with lia|].
  destruct (round_step start size c) as (Hbit & Hal & Hfit & Hnext & Hp' & c' & Hc' & Hr); [lia..|exact Hp|exact Hc|].
  wp_steps. rewrite (BiggestBit_spec size) by lia. wp_steps.
  set (bit := if c <? Z.log2 size then c else Z.log2 size) in *.
  pose proof (pow2_pos bit ltac:(lia)) as P.
  unfold PAGE_SIZE_LOG2. rewrite (proj2 (Z.ltb_ge bit 12)) by lia.
  rewrite shl64_pow by lia. rewrite !wrap64_small by lia.
  assert (Hend : start + 2 ^ bit <= pool_hi s0).
  { assert ((start + 2 ^ bit) / 4096 <= e / 4096) by (apply Z.div_le_mono; lia).
    pose proof (page_addr _ Hp'). lia. }
  pose proof (built_fresh _ _ _ _ _ _ HB) as Hfresh.
  destruct (bt_geom _ _ _ _ _ _ HB) as (Eb & Ec & El & Ei).
  wp_steps. eapply wp_mono; [apply (inline_push_spec s B bit (bt_lists _ _ _ _ _ _ HB)); [lia|lia|congruence]|].
  intros [] s1 [Hi HL1]. cbv beta. pose proof (shadow_inline_only _ _ _ Hi (bt_shadow _ _ _ _ _ _ HB)) as HS1.
  assert (Hrng : kshadow_in_range s1 start = true).
  { apply (in_range_iff _ _ HS1). destruct Hi as (? & ? & ? & ->). simpl. rewrite Eb, Ec.
    unfold pool_lo, pool_hi in *.
    split; [apply Z.div_le_lower_bound; lia | apply Z.div_lt_upper_bound; lia]. }
  eapply wp_mono; [apply (kshadow_set_free_spec _ _ HS1 start bit Hp Hrng)|].
  intros [] s2 [Hs HS2]. cbv beta. pose proof (lists_shadow_only _ _ _ Hs HL1) as HL2. wp_steps.
  assert (Hinv : forall s3, s3 = s2 \/ (exists v, s3 = set_kernel_lowest v s2) ->
     exists n', (n' < n)%nat /\ add_inv s0 q e n' (start + 2 ^ bit, size - 2 ^ bit) s3).
  { intros s3 H3. exists (rounds c' (size - 2 ^ bit)). split; [lia|].
    split_and!; eauto; try lia. exists (<[start := (bit, true)]> B).
    eapply built_push; eauto; destruct Hi as (? & ? & ? & ->), Hs as (? & ->), H3 as [->|[v ->]];
      auto using lists_rep_lowest, shadow_rep_lowest. }
  clearbody bit. destruct (_ <? _); wp_steps; apply Hinv; eauto.
Qed.

(** * Construction *)

Lemma add_to_kernel_pool s q size :
  lists_rep s ∅ -> shadow_rep s ∅ -> 0 < q -> q mod 4096 = 0 -> 0 <= size -> q + size < 2 ^ 64 ->
  pool_lo s <= q -> (q + size) / 4096 * 4096 <= pool_hi s ->
  wp (AddToBuddyAlloc q size false) (λ _ s', exists start rest B, start + rest = q + size /\
        start mod 4096 = 0 /\ 0 <= rest < 4096 /\ built s q start rest s' B) s.
Proof.
  intros HL HS Hq Hp Hsz He Hlo Hhi. unfold AddToBuddyAlloc.
  destruct (ctzll_spec q Hq) as (c & _ & Hc & _).
  pose proof (ctzll_range q c ltac:(lia) Hc) as Hcr. pose proof (log2_lt_64 size ltac:(lia)) as Hl.
  apply (wp_loop (add_inv s q (q + size)) (rounds c size)).
  - split_and!; eauto; try lia. exists ∅.
    constructor; auto; try (intros ?????; simplify_map_eq); try (intros ????; simplify_map_eq).
    + split; intros; simplify_map_eq.
    + unfold free_bytes. rewrite map_fold_empty. lia.
  - unfold rounds. destruct (c <=? Z.log2 size); lia.
  - intros n p s1 Hinv. now apply add_step_spec.
Qed.

Lemma empty_lists s : kernel_inline_heads s = replicate 64 0 -> kernel_nonempty_mask s = 0 -> lists_rep s ∅.
Proof.
  intros Hh Hm. constructor.
  - now rewrite Hh.
  - rewrite Hm. lia.
  - intros. simplify_map_eq.
  - intros o Ho. exists NULL, []. unfold list_ok. rewrite Hh, Hm. split_and!; auto.
    + unfold arr_get. destruct (Z.ltb_spec o 0); [lia|]. apply lookup_replicate. split; [reflexivity|lia].
    + reflexivity.
    + constructor.
    + intros a. rewrite lookup_empty. set_solver.
    + now rewrite Z.bits_0.
Qed.

Lemma empty_shadow s p0 p1 : 0 < p0 -> p0 mod 4096 = 0 -> p0 < p1 -> p1 < 2 ^ 64 ->
  wp (InitKernelBuddyShadow p0 p1) (λ _ s', shadow_rep s' ∅ /\ pool_lo s' = p0 /\
    pool_hi s' = p1 / 4096 * 4096 /\ exists sh base count, s' = set_shadow sh base count s) s.
Proof.
  intros H0 Hp Hlt Hmax. unfold InitKernelBuddyShadow, pfn_of, PAGE_SIZE_LOG2.
  destruct (Z.leb_spec p1 p0); [lia|]. wp_steps. rewrite !shiftr_div by lia. change (2 ^ 12) with 4096.
  pose proof (page_addr p0 Hp) as Ep.
  assert (Hsub : (p1 - p0) / 4096 = p1 / 4096 - p0 / 4096).
  { rewrite <- Ep at 1. replace (p1 - p0 / 4096 * 4096) with (p1 + - (p0 / 4096) * 4096) by lia.
    rewrite Z.div_add by lia. lia. }
  assert (p0 / 4096 <= p1 / 4096) by (apply Z.div_le_mono; lia).
  assert (0 < p0 / 4096) by lia.
  pose proof (Z.mul_div_le p1 4096 ltac:(lia)).
  unfold pool_lo, pool_hi; simpl. rewrite Hsub. split_and!; [|lia|lia|eauto].
  constructor; simpl.
  - lia.
  - eexists. split; [reflexivity|]. rewrite length_replicate. split; [lia|]. intros i Hi.
    rewrite lookup_empty. unfold arr_get. destruct (Z.ltb_spec i 0); [lia|].
    apply lookup_replicate. split; [reflexivity|lia].
  - intros. simplify_map_eq.
Qed.

Lemma kernel_pool_init p0 q p1 :
  0 < p0 -> p0 mod 4096 = 0 -> p0 <= q -> q mod 4096 = 0 -> q < p1 -> p1 < 2 ^ 64 ->
  wp (InitKernelBuddyShadow p0 p1;; InitKernelBuddyAlloc q p1) (λ _ s', exists B,
    kpool s' B /\ (forall a o f, B !! a = Some (o, f) -> f = true /\ q <= a) /\
    free_bytes B = p1 / 4096 * 4096 - q) buddy_init.
Proof.
  intros H0 Hp Hpq Hq Hlt Hmax. apply wp_bind.
  eapply wp_mono; [apply empty_shadow; auto; lia|].
  intros _ s1 (HS & Elo & Ehi & sh & base & count & ->). cbv beta.
  set (s1 := set_shadow sh base count buddy_init) in *.
  unfold InitKernelBuddyAlloc. destruct (Z.leb_spec p1 q); [lia|].
  eapply wp_mono; [apply (add_to_kernel_pool s1 q (p1 - q))|]; auto; try lia.
  - now apply empty_lists.
  - rewrite Ehi. now replace (q + (p1 - q)) with p1 by lia.
  - intros _ s2 (start & rest & B & Hsr & Hsp & Hrest & HB). exists B.
    destruct (bt_geom _ _ _ _ _ _ HB) as (Eb & Ec & El & _). split_and!.
    + constructor; [exact (bt_lists _ _ _ _ _ _ HB) | exact (bt_shadow _ _ _ _ _ _ HB) |
        | exact (bt_coal _ _ _ _ _ _ HB) | exact El].
      assert (pool_lo s2 = pool_lo s1 /\ pool_hi s2 = pool_hi s1) as [-> ->]
        by (unfold pool_lo, pool_hi; rewrite Eb, Ec; auto).
      destruct (bt_wf _ _ _ _ _ _ HB) as [Hb Hd]. split; [|exact Hd].
      intros a o f E. apply Hb in E. intuition lia.
    + intros a o f E. split; [now apply (bt_free _ _ _ _ _ _ HB) in E|].
      apply (wf_block _ _ _ (bt_wf _ _ _ _ _ _ HB)) in E. lia.
    + rewrite (bt_bytes _ _ _ _ _ _ HB). replace p1 with (start + rest) by lia.
      pose proof (page_addr start Hsp) as Es. rewrite <- Es at 2.
      rewrite Z.add_comm, Z.div_add, Z.div_small by lia. lia.
Qed.
