(* ===== verification/KernelBuddyThms.v ===== *)
(** What the kernel page pool guarantees: the theorems about
    allocaters/buddy_alloc.c's kernel fast path, each with a run on a concrete
    64 KiB pool that meets its hypotheses. *)

From S2P Require Import Prelude BitMath BuddyAlloc BuddySpec KernelBuddy KernelBuddyInit.

(** * Reachable states *)

(** The states of the kernel pool: construction, then any sequence of requests
    (of a non-zero size) and frees of page addresses. *)
Inductive kernel_pool_state : buddy -> Prop :=
| kps_init p0 q p1 s :
    0 < p0 -> p0 mod 4096 = 0 -> p0 <= q -> q mod 4096 = 0 -> q < p1 -> p1 < 2 ^ 64 ->
    (InitKernelBuddyShadow p0 p1;; InitKernelBuddyAlloc q p1) buddy_init = Some (tt, s) ->
    kernel_pool_state s
| kps_request s size r s' :
    kernel_pool_state s -> 0 < size < 2 ^ 64 ->
    kernel_request_buddy size s = Some (r, s') -> kernel_pool_state s'
| kps_free s a s' :
    kernel_pool_state s -> a mod 4096 = 0 ->
    kernel_free_buddy a s = Some (tt, s') -> kernel_pool_state s'.

Lemma wp_elim {S A} (m : M S A) Q s a s' : wp m Q s -> m s = Some (a, s') -> Q a s'.
Proof. unfold wp. intros H E. now rewrite E in H. Qed.

Lemma reachable_kpool s : kernel_pool_state s -> exists B, kpool s B.
Proof.
  induction 1 as [p0 q p1 s H0 Hp Hpq Hq Hlt Hm E|s size r s' _ [B IH] Hsz E|s a s' _ [B IH] Hp E].
  - destruct (wp_elim _ _ _ _ _ (kernel_pool_init p0 q p1 H0 Hp Hpq Hq Hlt Hm) E) as (B & HB & _). eauto.
  - destruct (wp_elim _ _ _ _ _ (kernel_request_buddy_spec s B size IH Hsz) E)
      as [(_ & -> & _)|(_ & B' & _ & HB & _)]; eauto.
  - destruct (wp_elim _ _ _ _ _ (kernel_free_buddy_spec s B a IH Hp) E) as (HB & _). eauto.
Qed.

(** The state of BuddyAlloc's demonstration pool. *)
Definition demo_state : buddy :=
  match demo_pool buddy_init with Some (_, s) => s | None => buddy_init end.

Lemma demo_reachable : kernel_pool_state demo_state.
Proof. apply (kps_init 0x100000 0x100000 0x110000); try (reflexivity || lia). Qed.

Lemma demo_kpool : exists B, kpool demo_state B.
Proof. exact (reachable_kpool _ demo_reachable). Qed.

(** * Theorems *)

(** C1. [kernel_request_buddy] implements the abstract request. From any pool
    satisfying the invariant it terminates without deadlock or undefined
    behaviour, restores the lock and the interrupt flag, and either returns
    NULL with the state untouched because no free block of the request's order
    or above exists, or splits the smallest such block, keeps the invariant,
    and takes exactly [2^order] bytes from the free space. *)
Theorem kernel_request_refines s B size :
  kpool s B -> 0 < size < 2 ^ 64 ->
  let ord := request_order size in
  wp (kernel_request_buddy size) (λ r s',
    (r = NULL /\ s' = s /\ (ord = 64 \/ alloc_fails ord B)) \/
    (ord < 64 /\ exists B', alloc_spec ord r B B' /\ kpool s' B' /\ same_frame s s' /\
       free_bytes B' = free_bytes B - 2 ^ ord)) s.
Proof.
  intros HK Hsz ord. pose proof (request_order_word size Hsz) as Hw. fold ord in Hw.
  eapply wp_mono; [exact (kernel_request_buddy_spec s B size HK Hsz)|].
  intros r s' [H|(Ho & B' & Ha & HB & Hf)]; [now left | right].
  split; [exact Ho|]. exists B'. split_and!; auto.
  pose proof Ha as (k & Hk & E & _ & ->). unfold MAX_ORDER in Hk. fold ord in Hk |- *.
  destruct (split_down_props (pool_lo s) (pool_hi s) (Z.to_nat (k - ord)) r k (<[r := (k, false)]> B))
    as (_ & _ & _ & _ & ->); [eapply wf_set_flag; [apply HK | exact E] | apply coalesced_set_used, HK
                             | apply lookup_insert_eq | lia |].
  rewrite (free_bytes_insert _ _ _ _ E). unfold weight; simpl.
  replace (k - Z.of_nat (Z.to_nat (k - ord))) with ord by lia. lia.
Qed.

Lemma kernel_request_refines_witness : exists B, kpool demo_state B /\
  wp (kernel_request_buddy 5000) (λ r s',
    (r = NULL /\ s' = demo_state /\ (request_order 5000 = 64 \/ alloc_fails (request_order 5000) B)) \/
    (request_order 5000 < 64 /\ exists B', alloc_spec (request_order 5000) r B B' /\ kpool s' B' /\
       same_frame demo_state s' /\ free_bytes B' = free_bytes B - 2 ^ request_order 5000)) demo_state.
Proof.
  destruct demo_kpool as [B HB]. exists B. split; [exact HB|].
  apply (kernel_request_refines demo_state B 5000 HB). lia.
Defined.

(** C2. [kernel_free_buddy] implements the abstract free on every page address:
    a block in use is merged upwards with its free buddies and the free space
    grows by exactly its size, every other block in use stays in use, and the
    address of anything that is not a block in use (a second free included)
    leaves the whole state unchanged. *)
Theorem kernel_free_refines s B a :
  kpool s B -> a mod 4096 = 0 ->
  wp (kernel_free_buddy a) (λ _ s',
    kpool s' (free_spec a B) /\ same_frame s s' /\
    used_except a B (free_spec a B) /\
    match B !! a with
    | Some (o, false) => free_bytes (free_spec a B) = free_bytes B + 2 ^ o
    | _ => s' = s
    end) s.
Proof.
  intros HK Hp. eapply wp_mono; [exact (kernel_free_buddy_spec s B a HK Hp)|].
  intros [] s' (HB & Hf & Hsame). unfold free_spec in *.
  destruct (B !! a) as [[o []]|] eqn:E.
  - split_and!; [exact HB | exact Hf | | apply Hsame; congruence]. intros x o'. naive_solver.
  - pose proof (wf_order _ _ _ _ _ _ (kp_wf _ _ HK) E).
    destruct (coalesce_props _ _ 64 a o B (kp_wf _ _ HK) (kp_coalesced _ _ HK) E ltac:(lia))
      as (_ & _ & Hu & Hb). auto.
  - split_and!; [exact HB | exact Hf | | apply Hsame; congruence]. intros x o'. naive_solver.
Qed.

Lemma kernel_free_refines_witness : exists B, kpool demo_state B /\
  wp (kernel_free_buddy 0x100000) (λ _ s',
    kpool s' (free_spec 0x100000 B) /\ same_frame demo_state s' /\
    used_except 0x100000 B (free_spec 0x100000 B) /\
    match B !! 0x100000 with
    | Some (o, false) => free_bytes (free_spec 0x100000 B) = free_bytes B + 2 ^ o
    | _ => s' = demo_state
    end) demo_state.
Proof.
  destruct demo_kpool as [B HB]. exists B. split; [exact HB|].
  apply (kernel_free_refines demo_state B 0x100000 HB). reflexivity.
Defined.

(** a request followed by the free of its result gives back exactly the
    pool there was before, so allocation leaves no fragmentation behind. *)
Theorem kernel_request_free_roundtrip s B size :
  kpool s B -> 0 < size < 2 ^ 64 ->
  wp (let* r := kernel_request_buddy size in kernel_free_buddy r)
     (λ _ s', kpool s' B /\ same_frame s s') s.
Proof.
  intros HK Hsz. pose proof (request_order_word size Hsz) as Hw. apply wp_bind.
  eapply wp_mono; [exact (kernel_request_buddy_spec s B size HK Hsz)|].
  intros r s1 [(-> & -> & _)|(Ho & B' & Ha & HB & Hf)].
  - eapply wp_mono; [exact (kernel_free_buddy_spec s B NULL HK eq_refl)|].
    intros [] s' (HB & Hf & Hsame). unfold free_spec in HB.
    destruct (B !! NULL) as [[o f]|] eqn:E; [|auto].
    pose proof (wf_addr _ _ _ _ _ (kp_shadow _ _ HK) (kp_wf _ _ HK) E). unfold NULL in *. lia.
  - pose proof Ha as (k & _ & E & _). pose proof (wf_page _ _ _ _ (kp_wf _ _ HK) E) as Hp.
    eapply wp_mono; [exact (kernel_free_buddy_spec s1 B' r HB Hp)|].
    intros [] s' (HB' & Hf' & _).
    rewrite (free_alloc_id _ _ _ _ _ _ (kp_wf _ _ HK) (kp_coalesced _ _ HK) (proj1 Hw) Ha) in HB'.
    eauto using same_frame_trans.
Qed.

Lemma kernel_request_free_roundtrip_witness : exists B, kpool demo_state B /\
  wp (let* r := kernel_request_buddy 4096 in kernel_free_buddy r)
     (λ _ s', kpool s' B /\ same_frame demo_state s') demo_state.
Proof.
  destruct demo_kpool as [B HB]. exists B. split; [exact HB|].
  apply (kernel_request_free_roundtrip demo_state B 4096 HB). lia.
Defined.

(** C3. in every reachable state a request that succeeds returns a block of at
    least [size] bytes, aligned to its own size, that overlaps no block already
    in use; all blocks in use stay in use, and [r] is recorded as in use. *)
Theorem kernel_request_safe s size :
  kernel_pool_state s -> 0 < size < 2 ^ 64 ->
  exists B, kpool s B /\
  wp (kernel_request_buddy size) (λ r s', r <> NULL -> exists B' o, kpool s' B' /\
    B' !! r = Some (o, false) /\ size <= 2 ^ o /\ r mod 2 ^ o = 0 /\
    pool_lo s <= r /\ r + 2 ^ o <= pool_hi s /\
    (forall a oa, B !! a = Some (oa, false) ->
       B' !! a = Some (oa, false) /\ disjoint_blocks r o a oa)) s.
Proof.
  intros [B HK]%reachable_kpool Hsz. exists B. split; [exact HK|].
  pose proof (request_order_word size Hsz) as Hw. set (ord := request_order size) in *.
  eapply wp_mono; [exact (kernel_request_buddy_spec s B size HK Hsz)|].
  intros r s' [(-> & _)|(Ho & B' & Ha & HB & Hf)] Hr; [easy|].
  pose proof Ha as (k & Hk & E & _ & EB'). unfold MAX_ORDER in Hk. fold ord in Hk, EB', Ho.
  destruct (split_down_props (pool_lo s) (pool_hi s) (Z.to_nat (k - ord)) r k (<[r := (k, false)]> B))
    as (_ & _ & Er & Hu & _); [eapply wf_set_flag; [apply HK | exact E] | apply coalesced_set_used, HK
                              | apply lookup_insert_eq | lia |].
  rewrite <- EB' in Er, Hu. replace (k - Z.of_nat (Z.to_nat (k - ord))) with ord in Er by lia.
  exists B', ord. destruct (pool_bounds_frame _ _ Hf) as [Elo Ehi].
  destruct (wf_block _ _ _ (kp_wf _ _ HB) _ _ _ Er) as (_ & Hal & Hlo & Hhi).
  rewrite Elo in Hlo. rewrite Ehi in Hhi. split_and!; auto.
  - transitivity (2 ^ Z.log2_up size); [destruct (Z.eq_dec size 1) as [->|]; [easy|];
      apply Z.log2_up_spec; lia|]. apply pow2_le. pose proof (Z.log2_up_nonneg size).
    unfold ord, request_order. lia.
  - intros a oa Ea. assert (Hne : a <> r) by congruence.
    assert (Ea' : B' !! a = Some (oa, false)).
    { apply Hu; [exact Hne|]. now rewrite lookup_insert_ne by auto. }
    split; [exact Ea'|]. exact (wf_disj _ _ _ (kp_wf _ _ HB) _ _ _ _ _ _ Er Ea' ltac:(auto)).
Qed.

Lemma kernel_request_safe_witness : kernel_pool_state demo_state /\ exists B, kpool demo_state B /\
  wp (kernel_request_buddy 4096) (λ r s', r <> NULL -> exists B' o, kpool s' B' /\
    B' !! r = Some (o, false) /\ 4096 <= 2 ^ o /\ r mod 2 ^ o = 0 /\
    pool_lo demo_state <= r /\ r + 2 ^ o <= pool_hi demo_state /\
    (forall a oa, B !! a = Some (oa, false) ->
       B' !! a = Some (oa, false) /\ disjoint_blocks r o a oa)) demo_state.
Proof.
  split; [exact demo_reachable|]. apply (kernel_request_safe demo_state 4096 demo_reachable). lia.
Defined.

(** C4. the boot sequence [InitKernelBuddyShadow(p0, p1)] then
    [InitKernelBuddyAlloc(q, p1)] completes (131 rounds are enough) and builds a
    pool satisfying the invariant in which every whole page of [q, p1) is free
    and nothing below [q] is. *)
Theorem kernel_pool_init_correct p0 q p1 :
  0 < p0 -> p0 mod 4096 = 0 -> p0 <= q -> q mod 4096 = 0 -> q < p1 -> p1 < 2 ^ 64 ->
  wp (InitKernelBuddyShadow p0 p1;; InitKernelBuddyAlloc q p1) (λ _ s', exists B,
    kpool s' B /\ (forall a o f, B !! a = Some (o, f) -> f = true /\ q <= a) /\
    free_bytes B = p1 / 4096 * 4096 - q) buddy_init.
Proof. apply kernel_pool_init. Qed.

Lemma kernel_pool_init_correct_witness :
  wp (InitKernelBuddyShadow 0x200000 GB;; InitKernelBuddyAlloc 0x23F000 GB) (λ _ s', exists B,
    kpool s' B /\ (forall a o f, B !! a = Some (o, f) -> f = true /\ 0x23F000 <= a) /\
    free_bytes B = GB / 4096 * 4096 - 0x23F000) buddy_init.
Proof. apply (kernel_pool_init_correct 0x200000 0x23F000 GB); unfold GB; reflexivity || lia. Defined.
