(* ===== verification/Bytes.v ===== *)
(** Bytes and little-endian words: how the C code lays integers out in memory,
    on disk and in files; a byte-addressed memory with block loads and stores. *)

From S2P Require Import Prelude.

(** * Little-endian integers *)

Fixpoint le_encode (n : nat) (v : Z) : list Z :=
  match n with O => [] | S n => v mod 256 :: le_encode n (v / 256) end.
Fixpoint le_decode (l : list Z) : Z :=
  match l with [] => 0 | b :: l => b + 256 * le_decode l end.

Definition is_byte (b : Z) : Prop := 0 <= b < 256.

Lemma le_encode_length n v : length (le_encode n v) = n.
Proof. revert v. induction n; intros v; simpl; auto. Qed.

Lemma le_encode_bytes n v : Forall is_byte (le_encode n v).
Proof.
  revert v. induction n; intros v; simpl; [constructor|]. constructor; [|apply IHn].
  apply Z.mod_pos_bound. lia.
Qed.

Lemma le_decode_encode n v : le_decode (le_encode n v) = v mod 256 ^ Z.of_nat n.
Proof.
  revert v. induction n as [|n IH]; intros v; [simpl; now rewrite Z.mod_1_r|].
  cbn [le_encode le_decode]. rewrite IH. rewrite Nat2Z.inj_succ, Z.pow_succ_r by lia.
  rewrite Z.rem_mul_r by lia. lia.
Qed.

Lemma le_decode_range l : Forall is_byte l -> 0 <= le_decode l < 256 ^ Z.of_nat (length l).
Proof.
  induction 1 as [|b l Hb _ IH]; [simpl; lia|]. cbn [le_decode length].
  rewrite Nat2Z.inj_succ, Z.pow_succ_r by lia. unfold is_byte in Hb. nia.
Qed.

Lemma le_encode_decode l : Forall is_byte l -> le_encode (length l) (le_decode l) = l.
Proof.
  induction 1 as [|b l Hb _ IH]; [reflexivity|]. cbn [le_decode length le_encode]. unfold is_byte in Hb.
  replace (b + 256 * le_decode l) with (le_decode l * 256 + b) by lia. f_equal.
  - rewrite Z.add_comm, Z_mod_plus_full. apply Z.mod_small. lia.
  - rewrite Z.div_add_l, (Z.div_small b) by lia. rewrite Z.add_0_r. exact IH.
Qed.

Lemma pow256_8 : 256 ^ Z.of_nat 8 = 2 ^ 64.
Proof. reflexivity. Qed.

(** * Memory *)

Abbreviation memory := (gmap Z Z).

Fixpoint store_bytes (m : memory) (a : Z) (l : list Z) : memory :=
  match l with [] => m | b :: l => <[a := b]> (store_bytes m (a + 1) l) end.
Fixpoint load_bytes (m : memory) (a : Z) (n : nat) : option (list Z) :=
  match n with
  | O => Some []
  | S n => match m !! a, load_bytes m (a + 1) n with Some b, Some l => Some (b :: l) | _, _ => None end
  end.

Lemma store_bytes_lookup_out m a l x :
  x < a \/ a + Z.of_nat (length l) <= x -> store_bytes m a l !! x = m !! x.
Proof.
  revert a. induction l as [|b l IH]; intros a Hx; [reflexivity|]. simpl in *.
  rewrite lookup_insert_ne by lia. apply IH. lia.
Qed.

Lemma load_bytes_ext m m' a n :
  (forall x, a <= x < a + Z.of_nat n -> m' !! x = m !! x) -> load_bytes m' a n = load_bytes m a n.
Proof.
  revert a. induction n as [|n IH]; intros a Hx; [reflexivity|]. simpl.
  rewrite Hx by lia. rewrite IH; [reflexivity|]. intros x ?. apply Hx. lia.
Qed.

(** Loading what was just stored. *)
Lemma load_store_same m a l : load_bytes (store_bytes m a l) a (length l) = Some l.
Proof.
  revert a. induction l as [|b l IH]; intros a; [reflexivity|]. simpl. rewrite lookup_insert_eq.
  rewrite (load_bytes_ext (store_bytes m (a + 1) l)), IH; [reflexivity|].
  intros x ?. apply lookup_insert_ne. lia.
Qed.

Lemma load_store_other m a l b n :
  b + Z.of_nat n <= a \/ a + Z.of_nat (length l) <= b -> load_bytes (store_bytes m a l) b n = load_bytes m b n.
Proof. intros H. apply load_bytes_ext. intros x ?. apply store_bytes_lookup_out. lia. Qed.

(** * Sequences of 64-bit words *)

Fixpoint words_bytes (ws : list Z) : list Z :=
  match ws with [] => [] | w :: ws => le_encode 8 w ++ words_bytes ws end.
Fixpoint bytes_words (n : nat) (l : list Z) : list Z :=
  match n with O => [] | S n => le_decode (take 8 l) :: bytes_words n (drop 8 l) end.

Lemma words_bytes_length ws : length (words_bytes ws) = (8 * length ws)%nat.
Proof.
  induction ws as [|w ws IH]; [reflexivity|]. cbn [words_bytes length].
  rewrite length_app, le_encode_length, IH. lia.
Qed.

Lemma bytes_words_bytes ws : Forall (is_word 64) ws -> bytes_words (length ws) (words_bytes ws) = ws.
Proof.
  induction 1 as [|w ws Hw _ IH]; [reflexivity|]. cbn [words_bytes length bytes_words].
  rewrite take_app_length', drop_app_length' by now rewrite le_encode_length.
  f_equal; [|exact IH]. rewrite le_decode_encode, pow256_8. now apply Z.mod_small.
Qed.
