(* ===== verification/TaskQueue.v ===== *)
(** multi/task_types.h and the intrusive task queues: the run queues of
    multi/scheduler.c, the waiter queues of file_system/pipe.c and
    drivers/tty_ldisc.c and the wait list of multi/mutex.c are all the same
    doubly linked list threaded through [task_t.next] and [task_t.prev]. The
    store is explicit, so that a task on two queues at once is a state of the
    model; the queue operations are proved to implement a FIFO list. *)

From S2P Require Import Prelude.

(** * Tasks *)

Inductive task_state_t :=
| TASK_STATE_NEW | TASK_STATE_READY | TASK_STATE_RUNNING | TASK_STATE_BLOCKED | TASK_STATE_ZOMBIE.

#[global] Instance task_state_eq_dec : EqDecision task_state_t.
Proof. solve_decision. Defined.

Definition state_eqb (a b : task_state_t) : bool := bool_decide (a = b).

(** Pointers are [Z], 0 being NULL; [fds] holds (file, flags) entries and
    [signal_actions] (handler, restorer) pairs. The saved stack pointer, the
    FPU image, the name and the mmap cursor are not modelled. *)
Record task_t := Task {
  cr3 : Z;
  kstack_top : Z;
  kstack_base : Z;
  kstack_pages : Z;
  pid : Z;
  state : task_state_t;
  time_slice : Z;
  next : Z;
  prev : Z;
  home_cpu : Z;
  fds : list (Z * Z);
  pending_signals : Z;
  signal_actions : list (Z * Z);
  parent : Z;
  wait_target : Z;
  exit_code : Z;
  zombie_next : Z;
  sleep_deadline : Z;
  sleep_next : Z;
  pgid : Z;
  sid : Z;
  cwd : Z;
  ctty : Z;
  all_next : Z;
  all_prev : Z }.

Definition set_state (v : task_state_t) (t : task_t) : task_t :=
  Task (cr3 t) (kstack_top t) (kstack_base t) (kstack_pages t) (pid t) v (time_slice t) (next t) (prev t)
    (home_cpu t) (fds t) (pending_signals t) (signal_actions t) (parent t) (wait_target t) (exit_code t)
    (zombie_next t) (sleep_deadline t) (sleep_next t) (pgid t) (sid t) (cwd t) (ctty t) (all_next t)
    (all_prev t).
Definition set_time_slice (v : Z) (t : task_t) : task_t :=
  Task (cr3 t) (kstack_top t) (kstack_base t) (kstack_pages t) (pid t) (state t) v (next t) (prev t)
    (home_cpu t) (fds t) (pending_signals t) (signal_actions t) (parent t) (wait_target t) (exit_code t)
    (zombie_next t) (sleep_deadline t) (sleep_next t) (pgid t) (sid t) (cwd t) (ctty t) (all_next t)
    (all_prev t).
Definition set_next (v : Z) (t : task_t) : task_t :=
  Task (cr3 t) (kstack_top t) (kstack_base t) (kstack_pages t) (pid t) (state t) (time_slice t) v (prev t)
    (home_cpu t) (fds t) (pending_signals t) (signal_actions t) (parent t) (wait_target t) (exit_code t)
    (zombie_next t) (sleep_deadline t) (sleep_next t) (pgid t) (sid t) (cwd t) (ctty t) (all_next t)
    (all_prev t).
Definition set_prev (v : Z) (t : task_t) : task_t :=
  Task (cr3 t) (kstack_top t) (kstack_base t) (kstack_pages t) (pid t) (state t) (time_slice t) (next t) v
    (home_cpu t) (fds t) (pending_signals t) (signal_actions t) (parent t) (wait_target t) (exit_code t)
    (zombie_next t) (sleep_deadline t) (sleep_next t) (pgid t) (sid t) (cwd t) (ctty t) (all_next t)
    (all_prev t).
Definition set_fds (v : list (Z * Z)) (t : task_t) : task_t :=
  Task (cr3 t) (kstack_top t) (kstack_base t) (kstack_pages t) (pid t) (state t) (time_slice t) (next t)
    (prev t) (home_cpu t) v (pending_signals t) (signal_actions t) (parent t) (wait_target t) (exit_code t)
    (zombie_next t) (sleep_deadline t) (sleep_next t) (pgid t) (sid t) (cwd t) (ctty t) (all_next t)
    (all_prev t).
Definition set_pending_signals (v : Z) (t : task_t) : task_t :=
  Task (cr3 t) (kstack_top t) (kstack_base t) (kstack_pages t) (pid t) (state t) (time_slice t) (next t)
    (prev t) (home_cpu t) (fds t) v (signal_actions t) (parent t) (wait_target t) (exit_code t)
    (zombie_next t) (sleep_deadline t) (sleep_next t) (pgid t) (sid t) (cwd t) (ctty t) (all_next t)
    (all_prev t).
Definition set_signal_actions (v : list (Z * Z)) (t : task_t) : task_t :=
  Task (cr3 t) (kstack_top t) (kstack_base t) (kstack_pages t) (pid t) (state t) (time_slice t) (next t)
    (prev t) (home_cpu t) (fds t) (pending_signals t) v (parent t) (wait_target t) (exit_code t)
    (zombie_next t) (sleep_deadline t) (sleep_next t) (pgid t) (sid t) (cwd t) (ctty t) (all_next t)
    (all_prev t).
Definition set_parent (v : Z) (t : task_t) : task_t :=
  Task (cr3 t) (kstack_top t) (kstack_base t) (kstack_pages t) (pid t) (state t) (time_slice t) (next t)
    (prev t) (home_cpu t) (fds t) (pending_signals t) (signal_actions t) v (wait_target t) (exit_code t)
    (zombie_next t) (sleep_deadline t) (sleep_next t) (pgid t) (sid t) (cwd t) (ctty t) (all_next t)
    (all_prev t).
Definition set_wait_target (v : Z) (t : task_t) : task_t :=
  Task (cr3 t) (kstack_top t) (kstack_base t) (kstack_pages t) (pid t) (state t) (time_slice t) (next t)
    (prev t) (home_cpu t) (fds t) (pending_signals t) (signal_actions t) (parent t) v (exit_code t)
    (zombie_next t) (sleep_deadline t) (sleep_next t) (pgid t) (sid t) (cwd t) (ctty t) (all_next t)
    (all_prev t).
Definition set_exit_code (v : Z) (t : task_t) : task_t :=
  Task (cr3 t) (kstack_top t) (kstack_base t) (kstack_pages t) (pid t) (state t) (time_slice t) (next t)
    (prev t) (home_cpu t) (fds t) (pending_signals t) (signal_actions t) (parent t) (wait_target t) v
    (zombie_next t) (sleep_deadline t) (sleep_next t) (pgid t) (sid t) (cwd t) (ctty t) (all_next t)
    (all_prev t).
Definition set_zombie_next (v : Z) (t : task_t) : task_t :=
  Task (cr3 t) (kstack_top t) (kstack_base t) (kstack_pages t) (pid t) (state t) (time_slice t) (next t)
    (prev t) (home_cpu t) (fds t) (pending_signals t) (signal_actions t) (parent t) (wait_target t)
    (exit_code t) v (sleep_deadline t) (sleep_next t) (pgid t) (sid t) (cwd t) (ctty t) (all_next t)
    (all_prev t).
Definition set_sleep_deadline (v : Z) (t : task_t) : task_t :=
  Task (cr3 t) (kstack_top t) (kstack_base t) (kstack_pages t) (pid t) (state t) (time_slice t) (next t)
    (prev t) (home_cpu t) (fds t) (pending_signals t) (signal_actions t) (parent t) (wait_target t)
    (exit_code t) (zombie_next t) v (sleep_next t) (pgid t) (sid t) (cwd t) (ctty t) (all_next t) (all_prev t).
Definition set_sleep_next (v : Z) (t : task_t) : task_t :=
  Task (cr3 t) (kstack_top t) (kstack_base t) (kstack_pages t) (pid t) (state t) (time_slice t) (next t)
    (prev t) (home_cpu t) (fds t) (pending_signals t) (signal_actions t) (parent t) (wait_target t)
    (exit_code t) (zombie_next t) (sleep_deadline t) v (pgid t) (sid t) (cwd t) (ctty t) (all_next t)
    (all_prev t).
Definition set_pgid (v : Z) (t : task_t) : task_t :=
  Task (cr3 t) (kstack_top t) (kstack_base t) (kstack_pages t) (pid t) (state t) (time_slice t) (next t)
    (prev t) (home_cpu t) (fds t) (pending_signals t) (signal_actions t) (parent t) (wait_target t)
    (exit_code t) (zombie_next t) (sleep_deadline t) (sleep_next t) v (sid t) (cwd t) (ctty t) (all_next t)
    (all_prev t).
Definition set_all_next (v : Z) (t : task_t) : task_t :=
  Task (cr3 t) (kstack_top t) (kstack_base t) (kstack_pages t) (pid t) (state t) (time_slice t) (next t)
    (prev t) (home_cpu t) (fds t) (pending_signals t) (signal_actions t) (parent t) (wait_target t)
    (exit_code t) (zombie_next t) (sleep_deadline t) (sleep_next t) (pgid t) (sid t) (cwd t) (ctty t) v
    (all_prev t).
Definition set_all_prev (v : Z) (t : task_t) : task_t :=
  Task (cr3 t) (kstack_top t) (kstack_base t) (kstack_pages t) (pid t) (state t) (time_slice t) (next t)
    (prev t) (home_cpu t) (fds t) (pending_signals t) (signal_actions t) (parent t) (wait_target t)
    (exit_code t) (zombie_next t) (sleep_deadline t) (sleep_next t) (pgid t) (sid t) (cwd t) (ctty t)
    (all_next t) v.

Abbreviation tasks := (gmap Z task_t).

(** [p->field] and [p->field = v]; a pointer to no task is undefined. *)
Definition tget {A} (p : Z) (f : task_t -> A) : M tasks A :=
  let* ts := get in of_option (f <$> ts !! p).
Definition tset (p : Z) (f : task_t -> task_t) : M tasks unit :=
  let* ts := get in
  let* t := of_option (ts !! p) in
  modify (λ ts, <[p := f t]> ts).

(** * The queue operations, on the head and tail cells [q = (head, tail)] *)

Definition enqueue (q : Z * Z) (me : Z) : M tasks (Z * Z) :=
  let '(head, tail) := q in
  tset me (set_next 0);;
  tset me (set_prev tail);;
  if negb (tail =? 0) then tset tail (set_next me);; ret (head, me) else ret (me, me).

Definition pop (q : Z * Z) : M tasks (Z * (Z * Z)) :=
  let '(head, tail) := q in
  if head =? 0 then ret (0, q)
  else
    let* nx := tget head next in
    let* tail' := (if negb (nx =? 0) then tset nx (set_prev 0);; ret tail else ret 0) in
    tset head (set_next 0);;
    tset head (set_prev 0);;
    ret (head, (nx, tail')).

Definition remove_self (q : Z * Z) (me : Z) : M tasks (Z * Z) :=
  let '(head, tail) := q in
  let* nx := tget me next in
  let* pv := tget me prev in
  if (nx =? 0) && (pv =? 0) && negb (head =? me) then ret q
  else
    let* head := (if negb (pv =? 0) then tset pv (set_next nx);; ret head
                  else ret (if head =? me then nx else head)) in
    let* tail := (if negb (nx =? 0) then tset nx (set_prev pv);; ret tail
                  else ret (if tail =? me then pv else tail)) in
    tset me (set_next 0);;
    tset me (set_prev 0);;
    ret (head, tail).

(** [for (t = chain; t != NULL; t = t->next) { t->state = READY; t->prev = NULL; }]
    A queue holds distinct tasks, so as many rounds as there are tasks. *)
Definition drain_step (t : Z) : M tasks (Z + unit) :=
  if t =? 0 then ret (inr tt)
  else
    tset t (set_state TASK_STATE_READY);;
    tset t (set_prev 0);;
    let* nx := tget t next in
    ret (inl nx).
Definition drain_all (q : Z * Z) : M tasks (Z * (Z * Z)) :=
  let* ts := get in
  loop (S (size ts)) drain_step q.1;;
  ret (q.1, (0, 0)).

(** * Representation: the list a queue stands for *)

(** A doubly linked segment: [h] is its first task, whose [prev] is [p]; [t]
    is its last task, whose [next] is [n]. *)
Fixpoint dls (ts : tasks) (p h : Z) (l : list Z) (n t : Z) : Prop :=
  match l with
  | [] => h = n /\ t = p
  | a :: l => h = a /\ a <> 0 /\ exists T, ts !! a = Some T /\ prev T = p /\ dls ts a (next T) l n t
  end.

Definition queue (ts : tasks) (q : Z * Z) (l : list Z) : Prop :=
  NoDup l /\ dls ts 0 q.1 l 0 q.2.

(** A task that is on no queue. *)
Definition detached (ts : tasks) (me : Z) : Prop :=
  me <> 0 /\ exists t, ts !! me = Some t /\ next t = 0 /\ prev t = 0.

Lemma wp_tget {A} ts p (f : task_t -> A) t Q : ts !! p = Some t -> Q (f t) ts -> wp (tget p f) Q ts.
Proof. intros E HQ. unfold tget. wp_steps. rewrite E. exact HQ. Qed.

Lemma wp_tset ts p f t Q : ts !! p = Some t -> Q tt (<[p := f t]> ts) -> wp (tset p f) Q ts.
Proof. intros E HQ. unfold tset. wp_steps. exact HQ. Qed.

(** [ts'] differs from [ts] only in the links and states of tasks of [l]. *)
Definition only (l : list Z) (ts ts' : tasks) : Prop := forall x, x ∉ l -> ts' !! x = ts !! x.

Lemma only_refl l ts : only l ts ts.
Proof. easy. Qed.

Lemma only_insert l ts ts' p t : p ∈ l -> only l ts ts' -> only l ts (<[p := t]> ts').
Proof. intros Hp H x Hx. rewrite lookup_insert_ne; [now apply H|]. congruence. Qed.

(** [ts'] is [ts] with some links of the tasks of [l] changed, nothing else. *)
Definition unlinked (t : task_t) : task_t := set_next 0 (set_prev 0 t).
Definition relinks (l : list Z) (ts ts' : tasks) : Prop :=
  only l ts ts' /\ forall x, unlinked <$> ts' !! x = unlinked <$> ts !! x.

Lemma relinks_refl l ts : relinks l ts ts.
Proof. split; [apply only_refl | easy]. Qed.

Lemma relinks_insert l ts ts' p T T' :
  p ∈ l -> ts !! p = Some T -> unlinked T' = unlinked T -> relinks l ts ts' -> relinks l ts (<[p := T']> ts').
Proof.
  intros Hp ET E [O U]. split; [now apply only_insert|]. intros x.
  destruct (decide (x = p)) as [->|]; [now rewrite lookup_insert_eq, ET; simpl; rewrite E|].
  now rewrite lookup_insert_ne.
Qed.

Lemma relinks_weaken l l' ts ts' : l ⊆ l' -> relinks l ts ts' -> relinks l' ts ts'.
Proof. intros Hl [O U]. split; [|exact U]. intros x Hx. apply O. set_solver. Qed.

Lemma relinks_trans l ts ts1 ts2 : relinks l ts ts1 -> relinks l ts1 ts2 -> relinks l ts ts2.
Proof.
  intros [O1 U1] [O2 U2]. split; intros x; [intros Hx; now rewrite O2, O1 | now rewrite U2, U1].
Qed.

Lemma dls_frame ts ts' p h l n t :
  (forall x, x ∈ l -> ts' !! x = ts !! x) -> dls ts p h l n t -> dls ts' p h l n t.
Proof.
  revert p h. induction l as [|a l IH]; intros p h Hx; simpl; [easy|].
  intros (-> & Hnz & T & E & Hp & Hd). split_and!; auto. exists T. split_and!; auto.
  - rewrite Hx; [exact E | apply elem_of_cons; auto].
  - apply IH; [|exact Hd]. intros y Hy. apply Hx. apply elem_of_cons. auto.
Qed.

Lemma dls_insert_ne ts p h l n t x T : x ∉ l -> dls ts p h l n t -> dls (<[x := T]> ts) p h l n t.
Proof. intros Hx. apply dls_frame. intros y Hy. rewrite lookup_insert_ne; [reflexivity|]. congruence. Qed.

Lemma dls_elem ts p h l n t x : dls ts p h l n t -> x ∈ l -> x <> 0 /\ is_Some (ts !! x).
Proof.
  revert p h. induction l as [|a l IH]; intros p h; simpl; [set_solver|].
  intros (-> & Hnz & T & E & _ & Hd) [->|Hx]%elem_of_cons; eauto.
Qed.

Lemma dls_app ts p h l1 l2 n t :
  dls ts p h (l1 ++ l2) n t <-> exists x y, dls ts p h l1 x y /\ dls ts y x l2 n t.
Proof.
  revert p h. induction l1 as [|a l1 IH]; intros p h; simpl; [naive_solver|].
  setoid_rewrite IH. naive_solver.
Qed.

(** The ends of a segment. *)
Lemma dls_last ts p h l n t : dls ts p h l n t -> t = List.last l p.
Proof.
  revert p h. induction l as [|a l IH]; intros p h; simpl; [naive_solver|].
  intros (_ & _ & T & _ & _ & Hd). apply IH in Hd. destruct l; auto.
  rewrite Hd. clear. revert z. induction l as [|b l IH]; intros z; [reflexivity|]. apply (IH b).
Qed.

Lemma last_in (l : list Z) d : l <> [] -> List.last l d ∈ l.
Proof.
  induction l as [|a l IH]; [easy|]. intros _. destruct l as [|b l]; [apply elem_of_cons; auto|].
  apply elem_of_cons. right. change (List.last (a :: b :: l) d) with (List.last (b :: l) d). apply IH. easy.
Qed.

Lemma queue_empty ts q l : queue ts q l -> (q.1 = 0 <-> l = []) /\ (q.2 = 0 <-> l = []).
Proof.
  intros [N D]. split.
  - destruct l as [|a l]; simpl in *; naive_solver.
  - pose proof (dls_last _ _ _ _ _ _ D) as ->. destruct l as [|a l]; [naive_solver|].
    split; [|easy]. intros H0. exfalso.
    apply (dls_elem _ _ _ _ _ _ (List.last (a :: l) 0) D); [now apply last_in | exact H0].
Qed.

Lemma dls_relink_first ts p h l n t p' T :
  NoDup l -> l <> [] -> ts !! h = Some T -> dls ts p h l n t ->
  dls (<[h := set_prev p' T]> ts) p' h l n t.
Proof.
  destruct l as [|a l]; [easy|]. intros [Hni N]%list.NoDup_cons _ ET (-> & Hnz & T' & E & Hp & Hd).
  rewrite ET in E. injection E as <-. simpl. split_and!; auto.
  exists (set_prev p' T). rewrite lookup_insert_eq. split_and!; auto.
  now apply dls_insert_ne.
Qed.

Lemma dls_relink_last ts p h l n t n' T :
  NoDup l -> l <> [] -> ts !! t = Some T -> dls ts p h l n t ->
  dls (<[t := set_next n' T]> ts) p h l n' t.
Proof.
  intros N Hne ET D. destruct (exists_last Hne) as (l0 & y & ->).
  apply list.NoDup_app in N as (N0 & Nd & _).
  apply dls_app in D as (x & z & D0 & D1). simpl in D1.
  destruct D1 as (-> & Hnz & T' & E & Hp & Hn & ->). rewrite ET in E. injection E as <-.
  apply dls_app. exists y, z. split.
  - apply dls_insert_ne; [|exact D0]. intros Hy. apply (Nd y Hy), elem_of_cons. auto.
  - simpl. split_and!; auto. exists (set_next n' T). rewrite lookup_insert_eq. auto.
Qed.

(** * The operations on represented queues *)

Ltac relink := eapply relinks_insert; [set_solver | eassumption | reflexivity |].

(** Enqueueing a detached task appends it. *)
Lemma enqueue_spec ts q l me :
  queue ts q l -> detached ts me -> me ∉ l ->
  wp (enqueue q me) (λ q' ts', queue ts' q' (l ++ [me]) /\ relinks (l ++ [me]) ts ts') ts.
Proof.
  destruct q as [hd tl]. intros HQ (Hnz & T & ET & _ & _) Hni.
  destruct (queue_empty _ _ _ HQ) as [_ Htl]. destruct HQ as [N D]. simpl in *.
  unfold enqueue. wp_steps.
  eapply wp_tset; [exact ET|]. wp_steps. eapply wp_tset; [apply lookup_insert_eq|].
  rewrite insert_insert_eq. set (T1 := set_prev tl _).
  assert (N' : NoDup (l ++ [me])).
  { apply list.NoDup_app. split_and!; auto; [|apply NoDup_singleton].
    intros x Hx ->%list_elem_of_singleton. easy. }
  destruct (Z.eqb_spec tl 0) as [H0|H0]; simpl; wp_steps.
  - apply Htl in H0 as E0. subst l. simpl in *. destruct D as [-> ->]. split.
    + split; [exact N'|]. simpl. split_and!; auto. exists T1. rewrite lookup_insert_eq. auto.
    + relink. apply relinks_refl.
  - assert (Hlne : l <> []) by naive_solver.
    pose proof (dls_last _ _ _ _ _ _ D) as Elast.
    assert (Hin : tl ∈ l) by (rewrite Elast; now apply last_in).
    destruct (dls_elem _ _ _ _ _ _ _ D Hin) as [_ [Tl ETl]].
    assert (Hne : me <> tl) by congruence.
    eapply wp_tset; [now rewrite lookup_insert_ne by auto; exact ETl|]. wp_steps. split.
    + split; [exact N'|]. apply dls_app. exists me, tl. split.
      * apply (dls_relink_last _ _ _ _ 0); auto; [now rewrite lookup_insert_ne|].
        now apply dls_insert_ne.
      * simpl. split_and!; auto. exists T1. rewrite lookup_insert_ne, lookup_insert_eq by auto. auto.
    + relink. relink. apply relinks_refl.
Qed.

(** Popping returns the head, detached, and leaves the rest in order. *)
Lemma pop_spec ts q l :
  queue ts q l ->
  wp (pop q) (λ r ts', match l with
    | [] => r = (0, q) /\ ts' = ts
    | a :: l' => r.1 = a /\ queue ts' r.2 l' /\ detached ts' a /\ relinks l ts ts'
    end) ts.
Proof.
  destruct q as [hd tl]. intros [N D]. unfold pop. simpl in *.
  destruct l as [|a l]; simpl in D.
  { destruct D as [-> ->]. simpl. wp_steps. auto. }
  destruct D as (-> & Hnz & T & ET & Hp & Hd). apply list.NoDup_cons in N as [Hni N].
  rewrite (proj2 (Z.eqb_neq _ _) Hnz). apply wp_bind. eapply wp_tget; [exact ET|].
  assert (Hfin : forall ts1 tl1, ts1 !! a = Some T -> relinks l ts ts1 -> dls ts1 0 (next T) l 0 tl1 ->
    wp (tset a (set_next 0);; tset a (set_prev 0);; ret (a, (next T, tl1)))
       (λ r ts', r.1 = a /\ queue ts' r.2 l /\ detached ts' a /\ relinks (a :: l) ts ts') ts1).
  { intros ts1 tl1 E1 O1 D1. apply wp_bind. eapply wp_tset; [exact E1|]. apply wp_bind.
    eapply wp_tset; [apply lookup_insert_eq|]. rewrite insert_insert_eq. wp_steps. split_and!; auto.
    - split; [exact N|]. now apply dls_insert_ne.
    - split; [exact Hnz|]. eexists. rewrite lookup_insert_eq. auto.
    - relink. eapply relinks_weaken; [|exact O1]. set_solver. }
  destruct (Z.eqb_spec (next T) 0) as [H0|H0]; simpl; apply wp_bind.
  - apply wp_ret. assert (l = []) as -> by (destruct l; simpl in *; [reflexivity|naive_solver]).
    apply Hfin; [exact ET | apply relinks_refl | now rewrite H0].
  - destruct l as [|b l]; [simpl in Hd; naive_solver|].
    assert (Eb : next T = b) by (simpl in Hd; naive_solver).
    destruct (dls_elem _ _ _ _ _ _ b Hd) as [_ [Tb ETb]]; [set_solver|].
    rewrite <- Eb in ETb. apply wp_bind. eapply wp_tset; [exact ETb|]. apply wp_ret, Hfin.
    + rewrite lookup_insert_ne; [exact ET|]. rewrite Eb. set_solver.
    + eapply relinks_insert; [rewrite Eb; set_solver | eassumption | reflexivity | apply relinks_refl].
    + apply (dls_relink_first _ a); auto.
Qed.

(** A task on the queue takes itself out, wherever it stands; a detached task
    that is not on the queue leaves it alone. *)
Lemma remove_self_spec ts q l1 me l2 :
  queue ts q (l1 ++ me :: l2) ->
  wp (remove_self q me) (λ q' ts', queue ts' q' (l1 ++ l2) /\ detached ts' me /\
                                   relinks (l1 ++ me :: l2) ts ts') ts.
Proof.
  destruct q as [hd tl]. intros [N D]. destruct (NoDup_hole _ _ _ N) as (Hn1 & Hn2 & N').
  pose proof N as (N1 & Nd & N2)%list.NoDup_app. apply list.NoDup_cons in N2 as [_ N2].
  apply dls_app in D as (x & pv & D1 & D2). simpl in D1, D2.
  destruct D2 as (-> & Hnz & T & ET & Hp & D2).
  assert (Hdisj : forall y, y ∈ l1 -> y ∉ l2) by (intros y Hy Hy2; apply (Nd y Hy); set_solver).
  assert (Hpv : pv = 0 /\ l1 = [] /\ hd = me \/ pv <> 0 /\ l1 <> [] /\ pv ∈ l1 /\ is_Some (ts !! pv)).
  { pose proof (dls_last _ _ _ _ _ _ D1) as E. destruct l1 as [|b l1]; [left; simpl in *; naive_solver|].
    right. assert (Hin : pv ∈ b :: l1) by (rewrite E; now apply last_in).
    destruct (dls_elem _ _ _ _ _ _ _ D1 Hin). auto. }
  assert (Hnx : next T = 0 /\ l2 = [] /\ tl = me \/ next T <> 0 /\ l2 <> [] /\ next T ∈ l2 /\ is_Some (ts !! next T)).
  { destruct l2 as [|b l2]; [left; simpl in *; naive_solver|]. right.
    assert (Eb : next T = b) by (simpl in D2; naive_solver). rewrite Eb.
    destruct (dls_elem _ _ _ _ _ _ b D2); [set_solver|]. split_and!; auto. set_solver. }
  unfold remove_self. apply wp_bind. eapply wp_tget; [exact ET|]. apply wp_bind. eapply wp_tget; [exact ET|].
  rewrite Hp. replace ((next T =? 0) && (pv =? 0) && negb (hd =? me)) with false.
  2: { symmetry. destruct Hpv as [(_ & _ & ->)|(Hz & _)]; [now rewrite (Z.eqb_refl me), andb_false_r|].
       now rewrite (proj2 (Z.eqb_neq pv 0) Hz), andb_false_r. }
  assert (Hfin : forall ts2 hd2 tl2, ts2 !! me = Some T -> relinks (l1 ++ l2) ts ts2 ->
    dls ts2 0 hd2 (l1 ++ l2) 0 tl2 ->
    wp (tset me (set_next 0);; tset me (set_prev 0);; ret (hd2, tl2)) (λ q' ts',
      queue ts' q' (l1 ++ l2) /\ detached ts' me /\ relinks (l1 ++ me :: l2) ts ts') ts2).
  { intros ts2 hd2 tl2 E2 O2 DD. apply wp_bind. eapply wp_tset; [exact E2|]. apply wp_bind.
    eapply wp_tset; [apply lookup_insert_eq|]. rewrite insert_insert_eq. apply wp_ret. split_and!.
    - split; [exact N'|]. apply dls_insert_ne; [set_solver | exact DD].
    - split; [exact Hnz|]. eexists. rewrite lookup_insert_eq. auto.
    - relink. eapply relinks_weaken; [|exact O2]. set_solver. }
  apply wp_bind.
  destruct Hpv as [(-> & -> & ->)|(Hpz & Hl1 & Hpin & [Tp ETp])]; simpl.
  - rewrite !Z.eqb_refl. apply wp_ret, wp_bind.
    destruct Hnx as [(E0 & -> & ->)|(Hnz' & Hl2 & Hnin & [Tn ETn])]; simpl.
    + rewrite E0, !Z.eqb_refl. apply wp_ret, Hfin; [exact ET | apply relinks_refl | split; reflexivity].
    + rewrite (proj2 (Z.eqb_neq _ _) Hnz'). apply wp_bind. eapply wp_tset; [exact ETn|]. apply wp_ret, Hfin.
      * rewrite lookup_insert_ne; [exact ET | congruence].
      * relink. apply relinks_refl.
      * now apply (dls_relink_first _ me).
  - rewrite (proj2 (Z.eqb_neq _ _) Hpz). apply wp_bind. eapply wp_tset; [exact ETp|]. apply wp_ret, wp_bind.
    destruct Hnx as [(E0 & -> & ->)|(Hnz' & Hl2 & Hnin & [Tn ETn])]; simpl.
    + rewrite E0, !Z.eqb_refl. apply wp_ret, Hfin.
      * rewrite lookup_insert_ne; [exact ET | congruence].
      * relink. apply relinks_refl.
      * rewrite app_nil_r. now apply (dls_relink_last _ _ _ _ me).
    + rewrite (proj2 (Z.eqb_neq _ _) Hnz'). apply wp_bind.
      assert (Hne : pv <> next T) by (intros ->; now apply (Hdisj _ Hpin)).
      eapply wp_tset; [rewrite lookup_insert_ne by auto; exact ETn|]. apply wp_ret, Hfin.
      * rewrite !lookup_insert_ne; [exact ET | congruence..].
      * relink. relink. apply relinks_refl.
      * apply dls_app. exists (next T), pv. split.
        -- apply dls_insert_ne; [intros Hy; now apply (Hdisj _ Hy)|]. now apply (dls_relink_last _ _ _ _ me).
        -- apply (dls_relink_first _ me); auto; [now rewrite lookup_insert_ne by auto|].
           apply dls_insert_ne; [now apply Hdisj | exact D2].
Qed.

Lemma remove_self_absent ts q l me :
  queue ts q l -> me ∉ l -> detached ts me ->
  wp (remove_self q me) (λ q' ts', q' = q /\ ts' = ts) ts.
Proof.
  destruct q as [hd tl]. intros [N D] Hni (Hnz & T & ET & Hn & Hp).
  unfold remove_self. apply wp_bind. eapply wp_tget; [exact ET|]. apply wp_bind. eapply wp_tget; [exact ET|].
  rewrite Hn, Hp. assert (hd <> me).
  { intros ->. destruct l as [|a l]; simpl in D; [naive_solver|]. destruct D as (-> & _). set_solver. }
  rewrite (proj2 (Z.eqb_neq hd me)) by assumption. apply wp_ret. auto.
Qed.

(** Draining marks every task READY, cuts the back links and hands the chain
    of [next] links over; the queue is left empty. *)
Lemma drain_all_spec ts q l :
  queue ts q l ->
  wp (drain_all q) (λ r ts', r = (q.1, (0, 0)) /\ only l ts ts' /\
    (forall x, x ∈ l -> exists T, ts !! x = Some T /\
       ts' !! x = Some (set_prev 0 (set_state TASK_STATE_READY T)))) ts.
Proof.
  destruct q as [hd tl]. intros [N D]. unfold drain_all. simpl. apply wp_bind, wp_get, wp_bind.
  eapply wp_mono with (Q := λ _ ts', only l ts ts' /\
    (forall x, x ∈ l -> exists T, ts !! x = Some T /\
       ts' !! x = Some (set_prev 0 (set_state TASK_STATE_READY T)))); [|intros [] ts' H; apply wp_ret; tauto].
  assert (Hsz : (length l <= size ts)%nat).
  { rewrite <- size_dom. rewrite <- (size_list_to_set (C := gset Z)) by exact N. apply subseteq_size.
    intros x Hx%elem_of_list_to_set. apply elem_of_dom. now apply (dls_elem _ _ _ _ _ _ _ D). }
  eapply (wp_loop (λ n h ts', exists l1 l2 p, l = l1 ++ l2 /\ n = length l2 /\ dls ts p h l2 0 tl /\
    only l1 ts ts' /\ (forall x, x ∈ l1 -> exists T, ts !! x = Some T /\
       ts' !! x = Some (set_prev 0 (set_state TASK_STATE_READY T)))) (length l)); [|lia|].
  { exists [], l, 0. split_and!; auto; [apply only_refl | set_solver]. }
  intros n h ts' (l1 & l2 & p & -> & -> & Dl & O & Hd). unfold drain_step.
  destruct l2 as [|a l2]; simpl in Dl.
  { destruct Dl as [-> ->]. apply wp_ret. rewrite app_nil_r. auto. }
  destruct Dl as (-> & Hnz & T & ET & _ & Dl). rewrite (proj2 (Z.eqb_neq _ _) Hnz).
  destruct (NoDup_hole _ _ _ N) as (Ha1 & Ha2 & _).
  apply wp_bind. eapply wp_tset; [rewrite O by exact Ha1; exact ET|].
  apply wp_bind. eapply wp_tset; [apply lookup_insert_eq|]. rewrite insert_insert_eq.
  apply wp_bind. eapply wp_tget; [apply lookup_insert_eq|]. apply wp_ret.
  exists (length l2). split; [simpl; lia|]. exists (l1 ++ [a]), l2, a. split_and!; auto.
  - now rewrite <- app_assoc.
  - apply only_insert; [set_solver|]. intros x Hx. apply O. set_solver.
  - intros x [Hx|Hx%list_elem_of_singleton]%elem_of_app; [|subst x].
    + rewrite lookup_insert_ne by congruence. auto.
    + exists T. now rewrite lookup_insert_eq.
Qed.

(** Queues that share no task do not disturb one another. *)
Lemma queue_frame ts ts' q l l' : only l' ts ts' -> l ## l' -> queue ts q l -> queue ts' q l.
Proof.
  intros O Hd [N D]. split; [exact N|]. eapply dls_frame; [|exact D]. intros x Hx. apply O. set_solver.
Qed.
