(* ===== verification/Scheduler.v ===== *)
(** multi/scheduler.c, the run queues, the global task list, the zombie list,
    the per-CPU sleep queues, [schedule], [task_exit] and [scheduler_tick];
    multi/waitpid.c; the record [cpu_local_t] of multi/task_types.h.

    The state [kst] is the kernel as one CPU sees it while it runs with
    interrupts off: the task store, [cpu_locals], the globals of scheduler.c
    and the lock words. Calls into other subsystems (closing files, freeing
    address spaces and stacks, storing to user memory) are recorded in order
    in [trace]. *)

From S2P Require Import Prelude TaskQueue.

(** * State *)

Record cpu_local_t := Cpu {
  current : Z;
  pending_reap : Z;
  rq : Z * Z;
  rq_lock : bool;
  sleep_head : Z;
  sleep_lock : bool;
  kernel_rsp : Z;
  tss_rsp0 : option Z }.

Definition set_current (v : Z) (s : cpu_local_t) : cpu_local_t :=
  Cpu v (pending_reap s) (rq s) (rq_lock s) (sleep_head s) (sleep_lock s) (kernel_rsp s) (tss_rsp0 s).
Definition set_pending_reap (v : Z) (s : cpu_local_t) : cpu_local_t :=
  Cpu (current s) v (rq s) (rq_lock s) (sleep_head s) (sleep_lock s) (kernel_rsp s) (tss_rsp0 s).
Definition set_rq (v : Z * Z) (s : cpu_local_t) : cpu_local_t :=
  Cpu (current s) (pending_reap s) v (rq_lock s) (sleep_head s) (sleep_lock s) (kernel_rsp s) (tss_rsp0 s).
Definition set_rq_lock (v : bool) (s : cpu_local_t) : cpu_local_t :=
  Cpu (current s) (pending_reap s) (rq s) v (sleep_head s) (sleep_lock s) (kernel_rsp s) (tss_rsp0 s).
Definition set_sleep_head (v : Z) (s : cpu_local_t) : cpu_local_t :=
  Cpu (current s) (pending_reap s) (rq s) (rq_lock s) v (sleep_lock s) (kernel_rsp s) (tss_rsp0 s).
Definition set_sleep_lock (v : bool) (s : cpu_local_t) : cpu_local_t :=
  Cpu (current s) (pending_reap s) (rq s) (rq_lock s) (sleep_head s) v (kernel_rsp s) (tss_rsp0 s).
Definition set_kernel_rsp (v : Z) (s : cpu_local_t) : cpu_local_t :=
  Cpu (current s) (pending_reap s) (rq s) (rq_lock s) (sleep_head s) (sleep_lock s) v (tss_rsp0 s).
Definition set_tss_rsp0 (v : option Z) (s : cpu_local_t) : cpu_local_t :=
  Cpu (current s) (pending_reap s) (rq s) (rq_lock s) (sleep_head s) (sleep_lock s) (kernel_rsp s) v.

(** Effects on other subsystems, in the order they happen. *)
Inductive event :=
| TtyDropTask (t : Z)
| VfsFilePut (f : Z)
| FreeUserAddressSpace (cr3 : Z)
| FreeClonedPml4 (cr3 : Z)
| RemoveKernelPages (base pages : Z)
| Kfree (p : Z)
| PtyDropFgOutput (tty pgrp : Z)
| UserStore (addr v : Z).

Record kst := Kst {
  ts : tasks;
  cpu_locals : list cpu_local_t;
  cpu_index : Z;
  kif : bool;
  tasks_head : Z;
  tasks_lock : bool;
  zombie_list_head : Z;
  zombie_list_lock : bool;
  next_pid : Z;
  pid_lock : bool;
  next_assign_cpu : Z;
  cpus_active : Z;
  timer_ticks : list Z;
  kernel_cr3 : Z;
  vfs_root : Z;
  trace : list event }.

Definition set_ts (v : tasks) (s : kst) : kst :=
  Kst v (cpu_locals s) (cpu_index s) (kif s) (tasks_head s) (tasks_lock s) (zombie_list_head s)
    (zombie_list_lock s) (next_pid s) (pid_lock s) (next_assign_cpu s) (cpus_active s) (timer_ticks s)
    (kernel_cr3 s) (vfs_root s) (trace s).
Definition set_cpu_locals (v : list cpu_local_t) (s : kst) : kst :=
  Kst (ts s) v (cpu_index s) (kif s) (tasks_head s) (tasks_lock s) (zombie_list_head s) (zombie_list_lock s)
    (next_pid s) (pid_lock s) (next_assign_cpu s) (cpus_active s) (timer_ticks s) (kernel_cr3 s) (vfs_root s)
    (trace s).
Definition set_cpu_index (v : Z) (s : kst) : kst :=
  Kst (ts s) (cpu_locals s) v (kif s) (tasks_head s) (tasks_lock s) (zombie_list_head s) (zombie_list_lock s)
    (next_pid s) (pid_lock s) (next_assign_cpu s) (cpus_active s) (timer_ticks s) (kernel_cr3 s) (vfs_root s)
    (trace s).
Definition set_kif (v : bool) (s : kst) : kst :=
  Kst (ts s) (cpu_locals s) (cpu_index s) v (tasks_head s) (tasks_lock s) (zombie_list_head s)
    (zombie_list_lock s) (next_pid s) (pid_lock s) (next_assign_cpu s) (cpus_active s) (timer_ticks s)
    (kernel_cr3 s) (vfs_root s) (trace s).
Definition set_tasks_head (v : Z) (s : kst) : kst :=
  Kst (ts s) (cpu_locals s) (cpu_index s) (kif s) v (tasks_lock s) (zombie_list_head s) (zombie_list_lock s)
    (next_pid s) (pid_lock s) (next_assign_cpu s) (cpus_active s) (timer_ticks s) (kernel_cr3 s) (vfs_root s)
    (trace s).
Definition set_tasks_lock (v : bool) (s : kst) : kst :=
  Kst (ts s) (cpu_locals s) (cpu_index s) (kif s) (tasks_head s) v (zombie_list_head s) (zombie_list_lock s)
    (next_pid s) (pid_lock s) (next_assign_cpu s) (cpus_active s) (timer_ticks s) (kernel_cr3 s) (vfs_root s)
    (trace s).
Definition set_zombie_list_head (v : Z) (s : kst) : kst :=
  Kst (ts s) (cpu_locals s) (cpu_index s) (kif s) (tasks_head s) (tasks_lock s) v (zombie_list_lock s)
    (next_pid s) (pid_lock s) (next_assign_cpu s) (cpus_active s) (timer_ticks s) (kernel_cr3 s) (vfs_root s)
    (trace s).
Definition set_zombie_list_lock (v : bool) (s : kst) : kst :=
  Kst (ts s) (cpu_locals s) (cpu_index s) (kif s) (tasks_head s) (tasks_lock s) (zombie_list_head s) v
    (next_pid s) (pid_lock s) (next_assign_cpu s) (cpus_active s) (timer_ticks s) (kernel_cr3 s) (vfs_root s)
    (trace s).
Definition set_next_pid (v : Z) (s : kst) : kst :=
  Kst (ts s) (cpu_locals s) (cpu_index s) (kif s) (tasks_head s) (tasks_lock s) (zombie_list_head s)
    (zombie_list_lock s) v (pid_lock s) (next_assign_cpu s) (cpus_active s) (timer_ticks s) (kernel_cr3 s)
    (vfs_root s) (trace s).
Definition set_pid_lock (v : bool) (s : kst) : kst :=
  Kst (ts s) (cpu_locals s) (cpu_index s) (kif s) (tasks_head s) (tasks_lock s) (zombie_list_head s)
    (zombie_list_lock s) (next_pid s) v (next_assign_cpu s) (cpus_active s) (timer_ticks s) (kernel_cr3 s)
    (vfs_root s) (trace s).
Definition set_next_assign_cpu (v : Z) (s : kst) : kst :=
  Kst (ts s) (cpu_locals s) (cpu_index s) (kif s) (tasks_head s) (tasks_lock s) (zombie_list_head s)
    (zombie_list_lock s) (next_pid s) (pid_lock s) v (cpus_active s) (timer_ticks s) (kernel_cr3 s)
    (vfs_root s) (trace s).
Definition set_trace (v : list event) (s : kst) : kst :=
  Kst (ts s) (cpu_locals s) (cpu_index s) (kif s) (tasks_head s) (tasks_lock s) (zombie_list_head s)
    (zombie_list_lock s) (next_pid s) (pid_lock s) (next_assign_cpu s) (cpus_active s) (timer_ticks s)
    (kernel_cr3 s) (vfs_root s) v.

#[global] Instance kst_if : HasIF kst := Field kif set_kif.

Definition emit (e : event) : M kst unit := modify (λ s, set_trace (trace s ++ [e]) s).

(** Code that only touches tasks, in the kernel's state. *)
Definition lift {A} (m : M tasks A) : M kst A := λ s,
  match m (ts s) with Some (a, ts') => Some (a, set_ts ts' s) | None => None end.
Definition kget {A} (p : Z) (f : task_t -> A) : M kst A := lift (tget p f).
Definition kset (p : Z) (f : task_t -> task_t) : M kst unit := lift (tset p f).

Definition cpu_get {A} (i : Z) (f : cpu_local_t -> A) : M kst A :=
  let* s := get in of_option (f <$> arr_get (cpu_locals s) i).
Definition cpu_set (i : Z) (f : cpu_local_t -> cpu_local_t) : M kst unit :=
  let* s := get in
  let* c := of_option (arr_get (cpu_locals s) i) in
  let* cs := of_option (arr_set (cpu_locals s) i (f c)) in
  modify (set_cpu_locals cs).
Definition this_cpu : M kst Z := gets cpu_index.
Definition this_current : M kst Z := let* i := this_cpu in cpu_get i current.

(** The lock word of a CPU's run queue or sleep queue; a CPU out of range has
    none, which reads as a lock that never opens. *)
Definition cpu_lock (i : Z) (g : cpu_local_t -> bool) (u : bool -> cpu_local_t -> cpu_local_t) : field kst bool :=
  Field (λ s, match arr_get (cpu_locals s) i with Some c => g c | None => true end)
        (λ b s, match arr_get (cpu_locals s) i with
                | Some c => set_cpu_locals (<[Z.to_nat i := u b c]> (cpu_locals s)) s
                | None => s end).
Definition rq_lock_of (i : Z) : field kst bool := cpu_lock i rq_lock set_rq_lock.
Definition sleep_lock_of (i : Z) : field kst bool := cpu_lock i sleep_lock set_sleep_lock.
Definition tasks_lock_f : field kst bool := Field tasks_lock set_tasks_lock.
Definition zombie_list_lock_f : field kst bool := Field zombie_list_lock set_zombie_list_lock.
Definition pid_lock_f : field kst bool := Field pid_lock set_pid_lock.

(** A walk of a task list visits each task at most once. *)
Definition walk {A B} (step : A -> M kst (A + B)) (a : A) : M kst B :=
  let* s := get in loop (S (size (ts s))) step a.

(** * The global task list *)

Definition tasks_list_add (t : Z) : M kst unit :=
  spin_lock tasks_lock_f;;
  kset t (set_all_prev 0);;
  let* h := gets tasks_head in
  kset t (set_all_next h);;
  when (negb (h =? 0)) (kset h (set_all_prev t));;
  modify (set_tasks_head t);;
  spin_unlock tasks_lock_f.

Definition tasks_list_remove (t : Z) : M kst unit :=
  spin_lock tasks_lock_f;;
  let* pv := kget t all_prev in
  let* nx := kget t all_next in
  let* h := gets tasks_head in
  (if negb (pv =? 0) then kset pv (set_all_next nx)
   else when (h =? t) (modify (set_tasks_head nx)));;
  when (negb (nx =? 0)) (kset nx (set_all_prev pv));;
  kset t (set_all_next 0);;
  kset t (set_all_prev 0);;
  spin_unlock tasks_lock_f.

Definition task_for_pid_step (want : Z) (t : Z) : M kst (Z + Z) :=
  if t =? 0 then ret (inr 0)
  else
    let* p := kget t pid in
    if p =? want then ret (inr t)
    else let* nx := kget t all_next in ret (inl nx).
Definition task_for_pid (want : Z) : M kst Z :=
  spin_lock tasks_lock_f;;
  let* h := gets tasks_head in
  let* t := walk (task_for_pid_step want) h in
  spin_unlock tasks_lock_f;;
  ret t.

Definition task_has_children_step (par target_pid t : Z) : M kst (Z + bool) :=
  if t =? 0 then ret (inr false)
  else
    let* tp := kget t parent in
    let* p := kget t pid in
    if (tp =? par) && ((target_pid =? 0) || (p =? target_pid)) then ret (inr true)
    else let* nx := kget t all_next in ret (inl nx).
Definition task_has_children (par target_pid : Z) : M kst bool :=
  spin_lock tasks_lock_f;;
  let* h := gets tasks_head in
  let* b := walk (task_has_children_step par target_pid) h in
  spin_unlock tasks_lock_f;;
  ret b.

(** * The zombie list *)

Definition zombie_list_add_locked (t : Z) : M kst unit :=
  let* h := gets zombie_list_head in
  kset t (set_zombie_next h);;
  modify (set_zombie_list_head t).

(** [link] is the cell that points at [t]: the list head (0) or the
    [zombie_next] of the task before it. *)
Definition zombie_link_set (link v : Z) : M kst unit :=
  if link =? 0 then modify (set_zombie_list_head v) else kset link (set_zombie_next v).
Definition zombie_take_step (par target_pid : Z) (lt : Z * Z) : M kst (Z * Z + Z) :=
  let '(link, t) := lt in
  if t =? 0 then ret (inr 0)
  else
    let* tp := kget t parent in
    let* p := kget t pid in
    let* nx := kget t zombie_next in
    if (tp =? par) && ((target_pid =? 0) || (p =? target_pid)) then
      zombie_link_set link nx;;
      kset t (set_zombie_next 0);;
      ret (inr t)
    else ret (inl (t, nx)).
Definition zombie_list_take_locked (par target_pid : Z) : M kst Z :=
  let* h := gets zombie_list_head in
  walk (zombie_take_step par target_pid) (0, h).

Definition zombie_list_take (par target_pid : Z) : M kst Z :=
  let* ie := lock_irqsave zombie_list_lock_f in
  let* t := zombie_list_take_locked par target_pid in
  unlock_irqrestore zombie_list_lock_f ie;;
  ret t.

(** * Run queues *)

Definition DEFAULT_TIME_SLICE : Z := 20.
Definition MAX_CPUS : nat := 64.
Definition FD_MAX : nat := 64.
Definition PAGE_SIZE : Z := 4096.
Definition STACK_PAGES : Z := 4.

Definition rq_for_task (t : Z) : M kst Z := kget t home_cpu.

Definition alloc_pid : M kst Z :=
  spin_lock pid_lock_f;;
  let* p := gets next_pid in
  modify (set_next_pid (wrap64 (p + 1)));;
  spin_unlock pid_lock_f;;
  ret p.

Definition rq_init (i : Z) : M kst unit :=
  cpu_set i (set_rq (0, 0));;
  cpu_set i (set_rq_lock false).

Definition rq_enqueue_locked (i t : Z) : M kst unit :=
  let* q := cpu_get i rq in
  let* q' := lift (enqueue q t) in
  cpu_set i (set_rq q').

Definition rq_dequeue_locked (i : Z) : M kst Z :=
  let* q := cpu_get i rq in
  let* r := lift (pop q) in
  cpu_set i (set_rq r.2);;
  ret r.1.

Definition rq_enqueue (i t : Z) : M kst unit :=
  spin_lock (rq_lock_of i);;
  rq_enqueue_locked i t;;
  spin_unlock (rq_lock_of i).

Definition rq_enqueue_external (t : Z) : M kst unit :=
  let* i := rq_for_task t in rq_enqueue i t.

Definition SchedulerInit_step (i : Z) : M kst (Z + unit) :=
  if i <? Z.of_nat MAX_CPUS then
    rq_init i;;
    cpu_set i (set_sleep_head 0);;
    cpu_set i (set_sleep_lock false);;
    ret (inl (i + 1))
  else ret (inr tt).
Definition SchedulerInit : M kst unit :=
  loop (S MAX_CPUS) SchedulerInit_step 0;;
  modify (set_pid_lock false);;
  modify (set_next_pid 1);;
  modify (set_next_assign_cpu 0).

(** * Sleep queues *)

Definition sleep_link_get (c link : Z) : M kst Z :=
  if link =? 0 then cpu_get c sleep_head else kget link sleep_next.
Definition sleep_link_set (c link v : Z) : M kst unit :=
  if link =? 0 then cpu_set c (set_sleep_head v) else kset link (set_sleep_next v).

Definition sleep_insert_step (c t link : Z) : M kst (Z + Z) :=
  let* x := sleep_link_get c link in
  if x =? 0 then ret (inr link)
  else
    let* dx := kget x sleep_deadline in
    let* dt := kget t sleep_deadline in
    if dx <=? dt then ret (inl x) else ret (inr link).
Definition sleep_queue_insert (c t : Z) : M kst unit :=
  spin_lock (sleep_lock_of c);;
  let* link := walk (sleep_insert_step c t) 0 in
  let* x := sleep_link_get c link in
  kset t (set_sleep_next x);;
  sleep_link_set c link t;;
  spin_unlock (sleep_lock_of c).

Definition sleep_wake_step (c now : Z) (_ : unit) : M kst (unit + unit) :=
  let* t := cpu_get c sleep_head in
  if t =? 0 then ret (inr tt)
  else
    let* d := kget t sleep_deadline in
    if d <=? now then
      let* nx := kget t sleep_next in
      cpu_set c (set_sleep_head nx);;
      kset t (set_sleep_next 0);;
      kset t (set_sleep_deadline 0);;
      kset t (set_state TASK_STATE_READY);;
      rq_enqueue_external t;;
      ret (inl tt)
    else ret (inr tt).
Definition sleep_queue_wake_expired (c : Z) : M kst unit :=
  let* s := get in
  let* now := of_option (arr_get (timer_ticks s) c) in
  spin_lock (sleep_lock_of c);;
  walk (sleep_wake_step c now) tt;;
  spin_unlock (sleep_lock_of c).

(** * Creating tasks *)

(** [memset(t, 0, sizeof(task_t))]. *)
Definition blank : task_t :=
  Task 0 0 0 0 0 TASK_STATE_NEW 0 0 0 0 (replicate FD_MAX (0, 0)) 0 (replicate 32 (0, 0))
    0 0 0 0 0 0 0 0 0 0 0 0.

(** [t] and [stack_base] are what [kmalloc] and [AddStack] returned. *)
Definition alloc_blank_task (t stack_base : Z) : M kst Z :=
  when (t =? 0) undef;;
  modify (λ s, set_ts (<[t := blank]> (ts s)) s);;
  let* p := alloc_pid in
  let* s := get in
  let online := if cpus_active s =? 0 then 1 else cpus_active s in
  let n := next_assign_cpu s in
  modify (set_next_assign_cpu (wrap64 (n + 1)));;
  kset t (λ _, Task (kernel_cr3 s) (stack_base + STACK_PAGES * PAGE_SIZE) stack_base STACK_PAGES p
                 TASK_STATE_READY DEFAULT_TIME_SLICE 0 0 (wrap32 (n mod online)) (replicate FD_MAX (0, 0))
                 0 (replicate 32 (0, 0)) 0 0 0 0 0 0 p p (vfs_root s) 0 0 0);;
  tasks_list_add t;;
  ret t.

Definition create_kernel_task (t stack_base : Z) : M kst Z :=
  let* t := alloc_blank_task t stack_base in
  let* i := rq_for_task t in
  rq_enqueue i t;;
  ret t.

Definition scheduler_attach_bootstrap (t kstack : Z) : M kst unit :=
  when (t =? 0) undef;;
  modify (λ s, set_ts (<[t := blank]> (ts s)) s);;
  let* p := alloc_pid in
  let* s := get in
  let* i := this_cpu in
  kset t (λ _, Task (kernel_cr3 s) kstack 0 0 p
                 TASK_STATE_RUNNING DEFAULT_TIME_SLICE 0 0 i (replicate FD_MAX (0, 0))
                 0 (replicate 32 (0, 0)) 0 0 0 0 0 0 0 0 0 0 0 0);;
  tasks_list_add t;;
  cpu_set i (set_current t).

(** * Reaping *)

Definition close_fds_step (dead i : Z) : M kst (Z + unit) :=
  if i <? Z.of_nat FD_MAX then
    let* fs := kget dead fds in
    let* e := of_option (arr_get fs i) in
    when (negb (e.1 =? 0)) (
      emit (VfsFilePut e.1);;
      let* fs' := of_option (arr_set fs i (0, e.2)) in
      kset dead (set_fds fs'));;
    ret (inl (i + 1))
  else ret (inr tt).

Definition free_dead_task (dead : Z) : M kst unit :=
  if dead =? 0 then ret tt
  else
    emit (TtyDropTask dead);;
    loop (S FD_MAX) (close_fds_step dead) 0;;
    let* global_cr3 := gets kernel_cr3 in
    let* c := kget dead cr3 in
    when (negb (c =? global_cr3)) (emit (FreeUserAddressSpace c);; emit (FreeClonedPml4 c));;
    let* kp := kget dead kstack_pages in
    let* kb := kget dead kstack_base in
    when (negb (kp =? 0)) (emit (RemoveKernelPages kb kp));;
    tasks_list_remove dead;;
    emit (Kfree dead);;
    modify (λ s, set_ts (delete dead (ts s)) s).

Definition drain_pending_reap (i : Z) : M kst unit :=
  let* dead := cpu_get i pending_reap in
  if dead =? 0 then ret tt
  else
    cpu_set i (set_pending_reap 0);;
    let* p := kget dead parent in
    let* alive := (if p =? 0 then ret false
                   else let* st := kget p state in ret (negb (state_eqb st TASK_STATE_ZOMBIE))) in
    if alive then ret tt else free_dead_task dead.

(** * schedule *)

(** How a call of [schedule] ends for its caller: it returned at once, it
    switched to another task (and will return when the caller is switched back
    in, restoring [ie]), or the CPU is halted waiting for work. *)
Inductive outcome :=
| Returned
| Switched (prev next : Z) (ie : bool)
| Halted (prev : Z) (ie : bool).

(** The chosen task [next] is installed on CPU [i]. *)
Definition install (i prev next : Z) (ie : bool) : M kst outcome :=
  kset next (set_state TASK_STATE_RUNNING);;
  kset next (set_time_slice DEFAULT_TIME_SLICE);;
  cpu_set i (set_current next);;
  let* top := kget next kstack_top in
  cpu_set i (set_kernel_rsp top);;
  cpu_set i (λ c, set_tss_rsp0 (match tss_rsp0 c with Some _ => Some top | None => None end) c);;
  let* reap := (if prev =? 0 then ret false
                else
                  let* st := kget prev state in
                  let* p := kget prev parent in
                  ret (state_eqb st TASK_STATE_ZOMBIE && (p =? 0))) in
  when reap (cpu_set i (set_pending_reap prev));;
  if negb (prev =? next) then ret (Switched prev next ie)
  else when ie StiHelper;; ret Returned.

(** From the chosen [next] on, with the run queue of CPU [i] locked. *)
Definition schedule_to (i prev next : Z) (ie : bool) : M kst outcome :=
  let* running := (if prev =? 0 then ret false
                   else let* st := kget prev state in ret (state_eqb st TASK_STATE_RUNNING)) in
  (if running then
     kset prev (set_state TASK_STATE_READY);;
     let* prev_rq := rq_for_task prev in
     if prev_rq =? i then rq_enqueue_locked i prev;; spin_unlock (rq_lock_of i)
     else spin_unlock (rq_lock_of i);; rq_enqueue prev_rq prev
   else spin_unlock (rq_lock_of i));;
  install i prev next ie.

Definition schedule : M kst outcome :=
  let* ie := check_interrupts in
  CliHelper;;
  let* i := this_cpu in
  drain_pending_reap i;;
  let* prev := cpu_get i current in
  spin_lock (rq_lock_of i);;
  let* next := rq_dequeue_locked i in
  if next =? 0 then
    let* parked := (if prev =? 0 then ret false
                    else let* st := kget prev state in ret (negb (state_eqb st TASK_STATE_RUNNING))) in
    spin_unlock (rq_lock_of i);;
    if parked then StiHelper;; ret (Halted prev ie)
    else when ie StiHelper;; ret Returned
  else schedule_to i prev next ie.

(** One round of the idle loop, after an interrupt ended the halt. *)
Definition schedule_idle (prev : Z) (ie : bool) : M kst outcome :=
  CliHelper;;
  let* i := this_cpu in
  spin_lock (rq_lock_of i);;
  let* next := rq_dequeue_locked i in
  if next =? 0 then
    let* st := kget prev state in
    spin_unlock (rq_lock_of i);;
    if state_eqb st TASK_STATE_RUNNING then when ie StiHelper;; ret Returned
    else StiHelper;; ret (Halted prev ie)
  else schedule_to i prev next ie.

(** * task_exit, scheduler_tick, waitpid *)

Definition detach_children_step (cur t : Z) : M kst (Z + unit) :=
  if t =? 0 then ret (inr tt)
  else
    let* p := kget t parent in
    when (p =? cur) (kset t (set_parent 0));;
    let* nx := kget t all_next in
    ret (inl nx).

Definition wake_parent (cur : Z) : M kst unit :=
  zombie_list_add_locked cur;;
  let* p := kget cur parent in
  let* st := kget p state in
  let* wt := kget p wait_target in
  let* me := kget cur pid in
  when (state_eqb st TASK_STATE_BLOCKED && ((wt =? 0) || (wt =? me))) (
    kset p (set_state TASK_STATE_READY);;
    rq_enqueue_external p).

(** The caller's exit code, its children orphaned, its state ZOMBIE. *)
Definition task_exit_mark (code : Z) : M kst Z :=
  CliHelper;;
  let* cur := this_current in
  kset cur (set_exit_code code);;
  spin_lock tasks_lock_f;;
  let* h := gets tasks_head in
  walk (detach_children_step cur) h;;
  spin_unlock tasks_lock_f;;
  kset cur (set_state TASK_STATE_ZOMBIE);;
  ret cur.

(** It is handed to a live parent. *)
Definition task_exit_notify (cur : Z) : M kst unit :=
  let* p := kget cur parent in
  let* alive := (if p =? 0 then ret false
                 else let* st := kget p state in ret (negb (state_eqb st TASK_STATE_ZOMBIE))) in
  when alive (
    spin_lock zombie_list_lock_f;;
    wake_parent cur;;
    spin_unlock zombie_list_lock_f).

(** Up to the call of [schedule], which does not come back. *)
Definition task_exit_prepare (code : Z) : M kst unit :=
  let* cur := task_exit_mark code in task_exit_notify cur.
Definition task_exit (code : Z) : M kst outcome :=
  task_exit_prepare code;;
  schedule.

Definition scheduler_tick : M kst outcome :=
  let* i := this_cpu in
  sleep_queue_wake_expired i;;
  let* cur := cpu_get i current in
  if cur =? 0 then ret Returned
  else
    let* sl := kget cur time_slice in
    when (0 <? sl) (kset cur (set_time_slice (sl - 1)));;
    let* sl' := kget cur time_slice in
    if sl' =? 0 then schedule else ret Returned.

Definition USER_LIMIT : Z := 0xFFFF800000000000.

(** What a round of [do_waitpid]'s loop comes to: it returns a value, or the
    caller is parked and [schedule] is called; when that call returns the loop
    goes round again. *)
Inductive wait_result := WaitDone (r : Z) | WaitParked.

Definition claim (z user_status : Z) : M kst wait_result :=
  let* code := kget z exit_code in
  let* p := kget z pid in
  free_dead_task z;;
  when (negb (user_status =? 0)) (emit (UserStore user_status code));;
  ret (WaitDone (to_s64 p)).

(** The fast path: claim a zombie that is already there, or find that there is
    nothing to wait for. [None]: go on to park. *)
Definition waitpid_scan (self want user_status : Z) : M kst (option wait_result) :=
  let* z := zombie_list_take self want in
  if negb (z =? 0) then let* r := claim z user_status in ret (Some r)
  else
    let* b := task_has_children self want in
    if negb b then ret (Some (WaitDone (- ECHILD))) else ret None.

(** Park and recheck under [zombie_list_lock]. *)
Definition waitpid_park (self want user_status : Z) : M kst wait_result :=
  CliHelper;;
  spin_lock zombie_list_lock_f;;
  let* z := zombie_list_take_locked self want in
  if negb (z =? 0) then
    spin_unlock zombie_list_lock_f;;
    StiHelper;;
    claim z user_status
  else
    kset self (set_wait_target want);;
    kset self (set_state TASK_STATE_BLOCKED);;
    spin_unlock zombie_list_lock_f;;
    ret WaitParked.

(** The entry check and one round of the loop; [WaitParked] is followed by
    [schedule] and, when that returns, by another round. *)
Definition do_waitpid_round (target_pid user_status : Z) : M kst wait_result :=
  if negb (user_status =? 0) && (USER_LIMIT <=? user_status) then ret (WaitDone (- EINVAL))
  else
    let* self := this_current in
    let want := if 0 <? target_pid then target_pid else 0 in
    let* r := waitpid_scan self want user_status in
    match r with Some r => ret r | None => waitpid_park self want user_status end.
