(* ===== verification/SchedulerInv.v ===== *)
(** The scheduler's invariant: every run queue is a FIFO of READY tasks pinned
    to its CPU, and the current task of a CPU, while it is RUNNING, is on no
    queue. The specifications of the run-queue operations and of [schedule]. *)

From S2P Require Import Prelude TaskQueue Scheduler.

(** * Executing scheduler code *)

Lemma wp_lift {A} (m : M tasks A) Q s :
  wp m (λ a ts', Q a (set_ts ts' s)) (ts s) -> wp (lift m) Q s.
Proof. unfold wp, lift. now destruct (m (ts s)) as [[a ts']|]. Qed.

Lemma wp_kget {A} s p (f : task_t -> A) T Q : ts s !! p = Some T -> Q (f T) s -> wp (kget p f) Q s.
Proof. intros E HQ. apply wp_lift. eapply wp_tget; [exact E|]. now destruct s. Qed.

Lemma wp_kset s p f T Q : ts s !! p = Some T -> Q tt (set_ts (<[p := f T]> (ts s)) s) -> wp (kset p f) Q s.
Proof. intros E HQ. apply wp_lift. eapply wp_tset; [exact E|]. exact HQ. Qed.

Lemma arr_get_nat {A} (l : list A) i : arr_get l (Z.of_nat i) = l !! i.
Proof. unfold arr_get. rewrite Nat2Z.id. now destruct (Z.ltb_spec (Z.of_nat i) 0); [lia|]. Qed.

Lemma wp_cpu_get {A} s i (f : cpu_local_t -> A) c Q :
  cpu_locals s !! i = Some c -> Q (f c) s -> wp (cpu_get (Z.of_nat i) f) Q s.
Proof. intros E HQ. unfold cpu_get. wp_steps. rewrite arr_get_nat, E. exact HQ. Qed.

Lemma wp_cpu_set s i f c Q :
  cpu_locals s !! i = Some c -> Q tt (set_cpu_locals (<[i := f c]> (cpu_locals s)) s) ->
  wp (cpu_set (Z.of_nat i) f) Q s.
Proof.
  intros E HQ. unfold cpu_set. apply wp_bind, wp_get, wp_bind. rewrite arr_get_nat, E.
  apply wp_ret, wp_bind. rewrite arr_set_lt; [|apply lookup_lt_Some in E; lia].
  rewrite Nat2Z.id. exact HQ.
Qed.

Lemma wp_rq_lock s i c Q :
  cpu_locals s !! i = Some c -> rq_lock c = false ->
  Q tt (set_cpu_locals (<[i := set_rq_lock true c]> (cpu_locals s)) s) ->
  wp (spin_lock (rq_lock_of (Z.of_nat i))) Q s.
Proof.
  intros E L HQ. unfold spin_lock. apply wp_bind, wp_gets. simpl. rewrite arr_get_nat, E, L.
  apply wp_modify. simpl. rewrite arr_get_nat, E, Nat2Z.id. exact HQ.
Qed.

Lemma wp_rq_unlock s i c Q :
  cpu_locals s !! i = Some c ->
  Q tt (set_cpu_locals (<[i := set_rq_lock false c]> (cpu_locals s)) s) ->
  wp (spin_unlock (rq_lock_of (Z.of_nat i))) Q s.
Proof. intros E HQ. apply wp_modify. simpl. rewrite arr_get_nat, E, Nat2Z.id. exact HQ. Qed.

(** * The run queues *)

(** The [i]-th run queue, with head and tail [rv !! i], stands for [qs !! i]. *)
Definition rqs (tsx : tasks) (rv : list (Z * Z)) (qs : list (list Z)) : Prop :=
  length rv = length qs /\
  forall i q l, rv !! i = Some q -> qs !! i = Some l ->
    queue tsx q l /\
    forall x, x ∈ l -> exists T, tsx !! x = Some T /\ state T = TASK_STATE_READY /\ home_cpu T = Z.of_nat i.

Definition on_rq (qs : list (list Z)) (x : Z) : Prop := exists i l, qs !! i = Some l /\ x ∈ l.

Lemma rqs_ready tsx rv qs x :
  rqs tsx rv qs -> on_rq qs x -> exists T, tsx !! x = Some T /\ state T = TASK_STATE_READY.
Proof.
  intros [Hl H] (i & l & E & Hx). destruct (lookup_lt_is_Some_2 rv i) as [q Eq].
  { apply lookup_lt_Some in E. lia. }
  destruct (H _ _ _ Eq E) as [_ Hr]. destruct (Hr _ Hx) as (T & ET & Hs & _). eauto.
Qed.

Lemma rqs_off tsx rv qs x T :
  rqs tsx rv qs -> tsx !! x = Some T -> state T <> TASK_STATE_READY -> ~ on_rq qs x.
Proof. intros H ET Hn Ho. destruct (rqs_ready _ _ _ _ H Ho) as (T' & ET' & Hs). congruence. Qed.

(** Changes elsewhere leave the run queues alone. *)
Lemma rqs_frame tsx tsx' rv qs :
  (forall x, on_rq qs x -> tsx' !! x = tsx !! x) -> rqs tsx rv qs -> rqs tsx' rv qs.
Proof.
  intros Hf [Hl H]. split; [exact Hl|]. intros i q l Eq El. destruct (H _ _ _ Eq El) as [[N D] Hr].
  assert (Hx : forall x, x ∈ l -> tsx' !! x = tsx !! x) by (intros x Hx; apply Hf; exists i, l; auto).
  split; [split; [exact N|]; eapply dls_frame; eauto|]. intros x Hin. rewrite Hx by exact Hin. auto.
Qed.

Lemma rqs_insert_off tsx rv qs x T :
  ~ on_rq qs x -> rqs tsx rv qs -> rqs (<[x := T]> tsx) rv qs.
Proof. intros Hx. apply rqs_frame. intros y Hy. apply lookup_insert_ne. intros ->. contradiction. Qed.

Lemma relinks_lookup l tsx tsx' x T :
  relinks l tsx tsx' -> tsx !! x = Some T ->
  exists T', tsx' !! x = Some T' /\ unlinked T' = unlinked T.
Proof.
  intros [_ U] ET. specialize (U x). rewrite ET in U. destruct (tsx' !! x) as [T'|]; [|easy].
  exists T'. split; [reflexivity|]. now apply (inj Some) in U.
Qed.

Lemma unlinked_get {A} (f : task_t -> A) T T' :
  (forall v T, f (set_next v T) = f T) -> (forall v T, f (set_prev v T) = f T) ->
  unlinked T' = unlinked T -> f T' = f T.
Proof. intros Hn Hp E. apply (f_equal f) in E. unfold unlinked in E. now rewrite !Hn, !Hp in E. Qed.

Lemma unlinked_fields T T' : unlinked T' = unlinked T ->
  state T' = state T /\ home_cpu T' = home_cpu T /\ pid T' = pid T /\ parent T' = parent T /\
  time_slice T' = time_slice T /\ kstack_top T' = kstack_top T.
Proof.
  intros E. split_and!;
    [apply (f_equal state) in E | apply (f_equal home_cpu) in E | apply (f_equal pid) in E
    | apply (f_equal parent) in E | apply (f_equal time_slice) in E | apply (f_equal kstack_top) in E];
    exact E.
Qed.

(** The [i]-th queue changes to [l'] by relinking tasks of its own (and tasks
    that were on no run queue); the others stand. *)
Lemma rqs_update tsx tsx' rv qs i l q' l' L :
  rqs tsx rv qs -> qs !! i = Some l -> (forall x, x ∈ L -> x ∈ l \/ ~ on_rq qs x) ->
  relinks L tsx tsx' -> queue tsx' q' l' ->
  (forall x, x ∈ l' -> exists T, tsx !! x = Some T /\ state T = TASK_STATE_READY /\ home_cpu T = Z.of_nat i) ->
  rqs tsx' (<[i := q']> rv) (<[i := l']> qs).
Proof.
  intros [Hlen H] El HL R Hq Hr. split; [now rewrite !length_insert|].
  assert (Hi : (i < length qs)%nat) by now apply lookup_lt_Some in El.
  intros j q m. destruct (decide (i = j)) as [<-|Hij].
  - rewrite !list_lookup_insert_eq by lia. intros [= <-] [= <-]. split; [exact Hq|].
    intros x Hx. destruct (Hr _ Hx) as (T & ET & Hs & Hh).
    destruct (relinks_lookup _ _ _ _ _ R ET) as (T' & ET' & U).
    destruct (unlinked_fields _ _ U) as (E1 & E2 & _). rewrite <- E1 in Hs. rewrite <- E2 in Hh. eauto.
  - rewrite !list_lookup_insert_ne by exact Hij. intros Eq Em. destruct (H _ _ _ Eq Em) as [[N D] Hr'].
    assert (Hx : forall x, x ∈ m -> tsx' !! x = tsx !! x).
    { intros x Hx. destruct R as [O _]. apply O. intros HxL.
      destruct (lookup_lt_is_Some_2 rv i) as [qi Eqi]; [lia|].
      destruct (HL _ HxL) as [Hxl|Hno]; [|apply Hno; exists j, m; auto].
      destruct (Hr' _ Hx) as (T1 & E1 & _ & h1). destruct (H _ _ _ Eqi El) as [_ Hri].
      destruct (Hri _ Hxl) as (T2 & E2 & _ & h2). rewrite E1 in E2. injection E2 as <-. lia. }
    split; [split; [exact N|]; eapply dls_frame; eauto|]. intros x Hin. rewrite Hx by exact Hin. auto.
Qed.

(** * The invariant *)

Record sched_inv (s : kst) (qs : list (list Z)) : Prop := {
  si_rqs : rqs (ts s) (rq <$> cpu_locals s) qs;
  si_locks : forall i c, cpu_locals s !! i = Some c -> rq_lock c = false;
  si_cur : forall i c, cpu_locals s !! i = Some c -> current c <> 0 ->
    exists T, ts s !! current c = Some T /\ home_cpu T = Z.of_nat i /\
              (state T = TASK_STATE_RUNNING -> next T = 0 /\ prev T = 0) }.

(** Moving a task to the tail of CPU [i]'s queue. *)
Lemma rq_enqueue_locked_spec s qs i c l x T :
  rqs (ts s) (rq <$> cpu_locals s) qs -> cpu_locals s !! i = Some c -> qs !! i = Some l ->
  ts s !! x = Some T -> x <> 0 -> next T = 0 -> prev T = 0 -> state T = TASK_STATE_READY ->
  home_cpu T = Z.of_nat i -> ~ on_rq qs x ->
  wp (rq_enqueue_locked (Z.of_nat i) x) (λ _ s', exists ts' q',
    s' = set_cpu_locals (<[i := set_rq q' c]> (cpu_locals s)) (set_ts ts' s) /\
    rqs ts' (<[i := q']> (rq <$> cpu_locals s)) (<[i := l ++ [x]]> qs) /\ relinks (l ++ [x]) (ts s) ts') s.
Proof.
  intros R Ec El ET Hx Hn Hp Hs Hh Hoff. unfold rq_enqueue_locked.
  apply wp_bind. eapply wp_cpu_get; [exact Ec|]. apply wp_bind, wp_lift.
  assert (Eq : (rq <$> cpu_locals s) !! i = Some (rq c)) by now rewrite list_lookup_fmap, Ec.
  destruct R as [Hlen R]. destruct (R _ _ _ Eq El) as [Q Hr].
  assert (Hxl : x ∉ l) by (intros Hin; apply Hoff; exists i, l; auto).
  eapply wp_mono; [apply enqueue_spec with (l := l); auto; split; eauto|].
  intros q' ts' [Q' RL]. eapply wp_cpu_set; [exact Ec|]. exists ts', q'. split_and!; [reflexivity| |exact RL].
  eapply rqs_update; [split; [exact Hlen | exact R] | exact El | | exact RL | exact Q' |].
  - intros y [Hy|Hy%list_elem_of_singleton]%elem_of_app; [now left | subst y; now right].
  - intros y [Hy|Hy%list_elem_of_singleton]%elem_of_app; [auto | subst y; eauto].
Qed.

(** Taking the head of CPU [i]'s queue. *)
Lemma rq_dequeue_locked_spec s qs i c l :
  rqs (ts s) (rq <$> cpu_locals s) qs -> cpu_locals s !! i = Some c -> qs !! i = Some l ->
  wp (rq_dequeue_locked (Z.of_nat i)) (λ r s',
    match l with
    | [] => r = 0 /\ s' = s
    | a :: l' => r = a /\ exists ts' q',
        s' = set_cpu_locals (<[i := set_rq q' c]> (cpu_locals s)) (set_ts ts' s) /\
        rqs ts' (<[i := q']> (rq <$> cpu_locals s)) (<[i := l']> qs) /\
        detached ts' a /\ relinks l (ts s) ts'
    end) s.
Proof.
  intros R Ec El. unfold rq_dequeue_locked.
  apply wp_bind. eapply wp_cpu_get; [exact Ec|]. apply wp_bind, wp_lift.
  assert (Eq : (rq <$> cpu_locals s) !! i = Some (rq c)) by now rewrite list_lookup_fmap, Ec.
  destruct R as [Hlen R]. destruct (R _ _ _ Eq El) as [Q Hr].
  eapply wp_mono; [apply pop_spec; exact Q|]. intros r ts' H. apply wp_bind. eapply wp_cpu_set; [exact Ec|].
  apply wp_ret. destruct l as [|a l'].
  - destruct H as [-> ->]. split; [reflexivity|]. destruct s, c. unfold set_cpu_locals, set_ts, set_rq. simpl in *.
    now rewrite list_insert_id.
  - destruct H as (<- & Q' & Hd & RL). split; [reflexivity|]. exists ts', r.2. split_and!; auto.
    eapply rqs_update; [split; [exact Hlen | exact R] | exact El | now left; eauto | exact RL | exact Q' |].
    intros x Hx. apply Hr. apply elem_of_cons. auto.
Qed.

(** * schedule *)

Definition is_running (tsx : tasks) (p : Z) : bool :=
  negb (p =? 0) && match tsx !! p with Some T => state_eqb (state T) TASK_STATE_RUNNING | None => false end.

(** A dead task nobody will wait for: [schedule] leaves it to be reaped. *)
Definition is_orphan_zombie (tsx : tasks) (p : Z) : bool :=
  negb (p =? 0) &&
  match tsx !! p with Some T => state_eqb (state T) TASK_STATE_ZOMBIE && (parent T =? 0) | None => false end.

(** The executing CPU is [i] and runs [a] with a fresh quantum; [r] is its
    task to reap. *)
Definition runs (s : kst) (i : nat) (a r : Z) : Prop :=
  cpu_index s = Z.of_nat i /\ a <> 0 /\
  (exists c, cpu_locals s !! i = Some c /\ current c = a /\ pending_reap c = r) /\
  exists T, ts s !! a = Some T /\ state T = TASK_STATE_RUNNING /\ time_slice T = DEFAULT_TIME_SLICE.

Lemma relinks_orphan l tsx tsx' x :
  relinks l tsx tsx' -> is_orphan_zombie tsx' x = is_orphan_zombie tsx x.
Proof.
  intros [_ U]. specialize (U x). unfold is_orphan_zombie. f_equal.
  destruct (tsx' !! x) as [T'|], (tsx !! x) as [T|]; simpl in U; try easy. apply (inj Some) in U.
  destruct (unlinked_fields _ _ U) as (-> & _ & _ & -> & _). reflexivity.
Qed.

Lemma live_not_orphan (tsx : tasks) x T :
  tsx !! x = Some T -> state T <> TASK_STATE_ZOMBIE -> is_orphan_zombie tsx x = false.
Proof.
  intros E Hs. unfold is_orphan_zombie. rewrite E. unfold state_eqb. rewrite bool_decide_eq_false_2 by exact Hs.
  apply andb_false_r.
Qed.

Lemma state_eqb_spec a b : reflect (a = b) (state_eqb a b).
Proof. unfold state_eqb. apply bool_decide_reflect. Qed.

Lemma install_spec s i p a ie qs c T :
  rqs (ts s) (rq <$> cpu_locals s) qs -> cpu_locals s !! i = Some c -> cpu_index s = Z.of_nat i ->
  (forall j d, cpu_locals s !! j = Some d -> rq_lock d = false) ->
  (forall j d, cpu_locals s !! j = Some d -> j <> i -> current d <> 0 ->
     exists T, ts s !! current d = Some T /\ home_cpu T = Z.of_nat j /\
               (state T = TASK_STATE_RUNNING -> next T = 0 /\ prev T = 0)) ->
  ts s !! a = Some T -> a <> 0 -> next T = 0 -> prev T = 0 -> home_cpu T = Z.of_nat i -> ~ on_rq qs a ->
  state T = TASK_STATE_READY -> (p = 0 \/ is_Some (ts s !! p)) ->
  wp (install (Z.of_nat i) p a ie) (λ o s',
    o = (if p =? a then Returned else Switched p a ie) /\ sched_inv s' qs /\
    runs s' i a (if is_orphan_zombie (ts s) p then p else pending_reap c) /\
    (forall x, x <> a -> ts s' !! x = ts s !! x)) s.
Proof.
  intros R Ec Ei HL Hc ET Ha0 Hn Hp Hh Hoff Hst Hpv. unfold install.
  apply wp_bind. eapply wp_kset; [exact ET|].
  apply wp_bind. eapply wp_kset; [apply lookup_insert_eq|]. simpl. rewrite insert_insert_eq.
  apply wp_bind. eapply wp_cpu_set; [exact Ec|].
  apply wp_bind. eapply wp_kget; [apply lookup_insert_eq|].
  assert (Hi : (i < length (cpu_locals s))%nat) by now apply lookup_lt_Some in Ec.
  apply wp_bind. eapply wp_cpu_set; [now apply list_lookup_insert_eq|]. simpl. rewrite list_insert_insert_eq.
  apply wp_bind. eapply wp_cpu_set; [now apply list_lookup_insert_eq|]. simpl. rewrite list_insert_insert_eq.
  set (T' := set_time_slice _ _). set (c' := set_tss_rsp0 _ _). apply wp_bind.
  set (s1 := set_cpu_locals _ _).
  assert (Hfin : forall c'', rq c'' = rq c -> rq_lock c'' = rq_lock c -> current c'' = a ->
    pending_reap c'' = (if is_orphan_zombie (ts s) p then p else pending_reap c) ->
    wp (if negb (p =? a) then ret (Switched p a ie) else when ie StiHelper;; ret Returned)
      (λ o s', o = (if p =? a then Returned else Switched p a ie) /\ sched_inv s' qs /\ runs s' i a (if is_orphan_zombie (ts s) p then p else pending_reap c) /\
       (forall x, x <> a -> ts s' !! x = ts s !! x)) (set_cpu_locals (<[i := c'']> (cpu_locals s)) s1)).
  { intros c'' Eq El Ecur Erp.
    assert (Hres : forall b, let s2 := set_kif b (set_cpu_locals (<[i := c'']> (cpu_locals s)) s1) in
      sched_inv s2 qs /\ runs s2 i a (pending_reap c'') /\ (forall x, x <> a -> ts s2 !! x = ts s !! x)).
    { intros b s2. subst s2 s1. simpl. split_and!.
      - split; simpl.
        + rewrite list_fmap_insert, Eq, list_insert_id by (now rewrite list_lookup_fmap, Ec).
          now apply rqs_insert_off.
        + intros j d. destruct (decide (i = j)) as [<-|].
          * rewrite list_lookup_insert_eq by exact Hi. intros [= <-]. rewrite El. eauto.
          * rewrite list_lookup_insert_ne by assumption. eauto.
        + intros j d. destruct (decide (i = j)) as [<-|Hij].
          * rewrite list_lookup_insert_eq by exact Hi. intros [= <-] _. rewrite Ecur. exists T'.
            rewrite lookup_insert_eq. subst T'. simpl. auto.
          * rewrite list_lookup_insert_ne by assumption. intros Ed Hd0.
            destruct (Hc _ _ Ed) as (Td & ETd & Hhd & Hrd); auto. exists Td. split_and!; auto.
            rewrite lookup_insert_ne; [exact ETd|]. intros Ea. rewrite <- Ea, ET in ETd.
            injection ETd as <-. lia.
      - split; [exact Ei|]. split; [exact Ha0|]. split; [exists c''; simpl; now rewrite list_lookup_insert_eq by exact Hi|].
        exists T'. simpl. rewrite lookup_insert_eq. subst T'. auto.
      - intros x Hx. now rewrite lookup_insert_ne. }
    rewrite <- Erp.
    destruct (Z.eqb_spec p a); simpl; [|apply wp_ret; split; [reflexivity|]; apply (Hres (kif s))].
    destruct ie; unfold when; apply wp_bind; [apply wp_modify | apply wp_ret]; apply wp_ret;
      (split; [reflexivity|]); [apply (Hres true) | apply (Hres (kif s))]. }
  destruct (Z.eqb_spec p 0) as [H0|H0].
  - replace (is_orphan_zombie (ts s) p) with false in * by now rewrite H0.
    apply wp_ret, wp_bind, wp_ret. apply (Hfin c'); reflexivity.
  - destruct Hpv as [?|[Tp ETp]]; [easy|].
    assert (Hz : is_orphan_zombie (ts s) p = state_eqb (state Tp) TASK_STATE_ZOMBIE && (parent Tp =? 0)).
    { unfold is_orphan_zombie. now rewrite (proj2 (Z.eqb_neq _ _) H0), ETp. }
    assert (exists Tq, ts s1 !! p = Some Tq /\ state_eqb (state Tq) TASK_STATE_ZOMBIE && (parent Tq =? 0) =
              state_eqb (state Tp) TASK_STATE_ZOMBIE && (parent Tp =? 0)) as (Tq & ETq & Ez).
    { subst s1. simpl. destruct (decide (p = a)) as [->|].
      - exists T'. rewrite lookup_insert_eq. split; [reflexivity|]. rewrite ET in ETp. injection ETp as <-.
        rewrite Hst. reflexivity.
      - rewrite lookup_insert_ne by auto. eauto. }
    apply wp_bind. eapply wp_kget; [exact ETq|].
    apply wp_bind. eapply wp_kget; [exact ETq|]. apply wp_ret. rewrite Ez, <- Hz. unfold when.
    destruct (is_orphan_zombie (ts s) p).
    + apply wp_bind. eapply wp_cpu_set; [subst s1; now apply list_lookup_insert_eq|].
      subst s1. simpl. rewrite list_insert_insert_eq.
      apply (Hfin (set_pending_reap p c')); reflexivity.
    + apply wp_bind, wp_ret. apply (Hfin c'); reflexivity.
Qed.

(** What [schedule] makes of CPU [i]'s queue [l] when [p] is its current task:
    the head runs next, and [p] goes to the tail if it was still running. *)
Definition rotate (running : bool) (p : Z) (l : list Z) : list Z := if running then l ++ [p] else l.

Section SchedSpec.
  Context (s : kst) (qs : list (list Z)) (i : nat) (c : cpu_local_t).
  Context (HI : sched_inv s qs) (Ec : cpu_locals s !! i = Some c) (Ei : cpu_index s = Z.of_nat i).

  (** Returning from a lock-and-unlock of the queue changes nothing. *)
Lemma relock : set_cpu_locals (<[i := set_rq_lock false c]> (cpu_locals s)) s = s.
  Proof.
    assert (Hl : rq_lock c = false) by (eapply si_locks; eauto).
    destruct s, c; unfold set_cpu_locals, set_rq_lock; simpl in *. subst. now rewrite list_insert_id.
  Qed.

Definition locked : kst := set_cpu_locals (<[i := set_rq_lock true c]> (cpu_locals s)) (set_kif false s).

Lemma locked_rqs : rqs (ts locked) (rq <$> cpu_locals locked) qs.
  Proof.
    unfold locked. simpl. rewrite list_fmap_insert. simpl.
    rewrite list_insert_id by now rewrite list_lookup_fmap, Ec. apply HI.
  Qed.

Lemma rq_home l x : qs !! i = Some l -> x ∈ l ->
    exists T, ts s !! x = Some T /\ state T = TASK_STATE_READY /\ home_cpu T = Z.of_nat i.
  Proof.
    intros El Hx. destruct (si_rqs _ _ HI) as [_ HR].
    destruct (HR i (rq c) l) as [_ Hin]; [now rewrite list_lookup_fmap, Ec | exact El | auto].
  Qed.

  (** The other CPUs' current tasks are neither current here nor queued here. *)
Lemma others (ts2 : tasks) l : qs !! i = Some l ->
    (forall x, x ∉ current c :: l -> ts2 !! x = ts s !! x) ->
    forall j d, cpu_locals s !! j = Some d -> j <> i -> current d <> 0 ->
    exists T, ts2 !! current d = Some T /\ home_cpu T = Z.of_nat j /\
              (state T = TASK_STATE_RUNNING -> next T = 0 /\ prev T = 0).
  Proof.
    intros El H2 j d Ed Hj Hd0. destruct (si_cur _ _ HI _ _ Ed Hd0) as (D & ED & Hhd & Hrd).
    exists D. split_and!; auto. rewrite H2; [exact ED|]. intros [E|Hin]%elem_of_cons.
    - destruct (si_cur _ _ HI _ _ Ec) as (P & EP & HhP & _); [congruence|].
      rewrite E, EP in ED. injection ED as <-. lia.
    - destruct (rq_home _ _ El Hin) as (D' & ED' & _ & Hh'). rewrite ED in ED'. injection ED' as <-. lia.
  Qed.

  (** With [a] dequeued, the queue of [i] being [l] now: the rest of [schedule]. *)
Lemma schedule_to_spec ts1 q1 l a ie :
    let s1 := set_cpu_locals (<[i := set_rq q1 (set_rq_lock true c)]> (cpu_locals s))
                (set_kif false (set_ts ts1 s)) in
    rqs ts1 (<[i := q1]> (rq <$> cpu_locals s)) (<[i := l]> qs) ->
    relinks (a :: l) (ts s) ts1 -> qs !! i = Some (a :: l) -> detached ts1 a -> a ∉ l ->
    wp (schedule_to (Z.of_nat i) (current c) a ie) (λ o s',
      o = (if current c =? a then Returned else Switched (current c) a ie) /\
      sched_inv s' (<[i := rotate (is_running (ts s) (current c)) (current c) l]> qs) /\ runs s' i a (if is_orphan_zombie (ts s) (current c) then current c else pending_reap c) /\
      (forall x, x ∉ current c :: a :: l -> ts s' !! x = ts s !! x)) s1.
  Proof.
    intros s1 R1 RL Eq (Ha0 & T & ET & Hn & Hp) Hal.
    assert (Hic : (i < length (cpu_locals s))%nat) by now apply lookup_lt_Some in Ec.
    assert (Hiq : (i < length qs)%nat) by now apply lookup_lt_Some in Eq.
    destruct (rq_home _ a Eq) as (T0 & ET0 & HrT & HhT); [set_solver|].
    destruct (relinks_lookup _ _ _ _ _ RL ET0) as (T1 & ET1 & U). rewrite ET in ET1. injection ET1 as <-.
    destruct (unlinked_fields _ _ U) as (Es & Eh & _). rewrite <- Es in HrT. rewrite <- Eh in HhT.
    unfold schedule_to. apply wp_bind. unfold is_running.
    assert (Hinst : forall ts2 q2 l2,
      rqs ts2 (<[i := q2]> (rq <$> cpu_locals s)) (<[i := l2]> qs) ->
      (forall x, x ∉ current c :: a :: l -> ts2 !! x = ts s !! x) ->
      ts2 !! a = Some T -> a ∉ l2 -> (current c = 0 \/ is_Some (ts2 !! current c)) ->
      is_orphan_zombie ts2 (current c) = is_orphan_zombie (ts s) (current c) ->
      wp (install (Z.of_nat i) (current c) a ie) (λ o s',
        o = (if current c =? a then Returned else Switched (current c) a ie) /\
        sched_inv s' (<[i := l2]> qs) /\
        runs s' i a (if is_orphan_zombie (ts s) (current c) then current c else pending_reap c) /\
        (forall x, x ∉ current c :: a :: l -> ts s' !! x = ts s !! x))
        (set_cpu_locals (<[i := set_rq q2 (set_rq_lock false c)]> (cpu_locals s)) (set_kif false (set_ts ts2 s)))).
    { intros ts2 q2 l2 R2 H2 E2 Hal2 Hp2 Hz. rewrite <- Hz. eapply wp_mono.
      - eapply install_spec with (T := T); simpl; eauto.
        + rewrite list_fmap_insert. exact R2.
        + now rewrite list_lookup_insert_eq.
        + intros j d. destruct (decide (i = j)) as [<-|].
          * rewrite list_lookup_insert_eq by exact Hic. now intros [= <-].
          * rewrite list_lookup_insert_ne by assumption. eapply si_locks, HI.
        + intros j d Ed Hj. rewrite list_lookup_insert_ne in Ed by auto. eapply (others _ (a :: l)); eauto.
        + intros (j & lj & Ej & Hin). destruct (decide (i = j)) as [<-|Hij].
          * rewrite list_lookup_insert_eq in Ej by exact Hiq. congruence.
          * destruct R2 as [Hlen2 R2]. destruct (lookup_lt_is_Some_2 (<[i:=q2]> (rq <$> cpu_locals s)) j) as [qj Eqj].
            { apply lookup_lt_Some in Ej. lia. }
            destruct (R2 _ _ _ Eqj Ej) as [_ Hh]. destruct (Hh _ Hin) as (Ta & ETa & _ & Hha).
            rewrite E2 in ETa. injection ETa as <-. lia.
      - simpl. intros o s' (-> & HI' & Hr & Hf). split_and!; auto. intros x Hx. rewrite Hf; [auto|]. set_solver. }
    destruct (Z.eqb_spec (current c) 0) as [H0|H0]; simpl.
    - apply wp_ret, wp_bind. eapply wp_rq_unlock; [apply list_lookup_insert_eq; exact Hic|].
      subst s1. simpl. rewrite list_insert_insert_eq. apply (Hinst _ q1); auto; [|eapply relinks_orphan, RL].
      intros x Hx. destruct RL as [O _]. apply O. set_solver.
    - destruct (si_cur _ _ HI _ _ Ec H0) as (P & EP & HhP & HrP).
      destruct (relinks_lookup _ _ _ _ _ RL EP) as (P1 & EP1 & UP).
      destruct (unlinked_fields _ _ UP) as (EsP & EhP & _).
      apply wp_bind. eapply wp_kget; [exact EP1|]. apply wp_ret, wp_bind.
      rewrite EP, EsP. destruct (state_eqb_spec (state P) TASK_STATE_RUNNING) as [Hrun|Hnr]; simpl.
      + assert (Hpn : current c ∉ a :: l).
        { intros Hin. destruct (rq_home _ _ Eq Hin) as (P' & EP' & Hs' & _). congruence. }
        assert (P1 = P) as -> by (destruct RL as [O _]; rewrite O in EP1; congruence).
        destruct (HrP Hrun) as [HnP HpP].
        assert (Hoffp : ~ on_rq (<[i := l]> qs) (current c)) by (eapply rqs_off; [exact R1 | exact EP1 | congruence]).
        apply wp_bind. eapply wp_kset; [exact EP1|]. apply wp_bind. unfold rq_for_task.
        eapply wp_kget; [apply lookup_insert_eq|]. simpl. rewrite HhP, Z.eqb_refl.
        apply wp_bind. eapply wp_mono.
        * eapply rq_enqueue_locked_spec with (x := current c) (l := l); simpl;
            [ | apply list_lookup_insert_eq; exact Hic | apply list_lookup_insert_eq; exact Hiq | apply lookup_insert_eq | auto..].
          rewrite list_fmap_insert. now apply rqs_insert_off.
        * intros [] s2 (ts2 & q2 & -> & R2 & RL2). simpl.
          eapply wp_rq_unlock; [apply list_lookup_insert_eq; now rewrite length_insert|]. simpl.
          rewrite !list_insert_insert_eq. simpl.
          destruct RL2 as [O2 U2]. simpl in O2. apply Hinst with (q2 := q2).
          -- simpl in R2. rewrite list_fmap_insert, !list_insert_insert_eq in R2. exact R2.
          -- intros x Hx. rewrite O2 by set_solver. rewrite lookup_insert_ne by set_solver.
             destruct RL as [O _]. apply O. set_solver.
          -- rewrite O2 by set_solver. rewrite lookup_insert_ne by set_solver. exact ET.
          -- set_solver.
          -- right. specialize (U2 (current c)). simpl in U2. rewrite lookup_insert_eq in U2.
             destruct (ts2 !! current c); [eauto|easy].
          -- rewrite (relinks_orphan _ _ _ _ (conj O2 U2)).
             erewrite live_not_orphan by (apply lookup_insert_eq || easy).
             erewrite live_not_orphan; [reflexivity | exact EP | congruence].
      + eapply wp_rq_unlock; [apply list_lookup_insert_eq; exact Hic|].
        subst s1. simpl. rewrite list_insert_insert_eq. apply (Hinst _ q1); eauto; [|eapply relinks_orphan, RL].
        intros x Hx. destruct RL as [O _]. apply O. set_solver.
  Qed.

  (** A call of [schedule] when no corpse is waiting to be reaped. *)
Lemma schedule_spec l : pending_reap c = 0 -> qs !! i = Some l ->
    wp schedule (λ o s',
      match l with
      | [] => ts s' = ts s /\ cpu_locals s' = cpu_locals s /\ cpu_index s' = cpu_index s /\ sched_inv s' qs /\
          o = (if (current c =? 0) || is_running (ts s) (current c) then Returned
               else Halted (current c) (kif s))
      | a :: l' =>
          o = (if current c =? a then Returned else Switched (current c) a (kif s)) /\
          sched_inv s' (<[i := rotate (is_running (ts s) (current c)) (current c) l']> qs) /\
          runs s' i a (if is_orphan_zombie (ts s) (current c) then current c else 0) /\
          (forall x, x ∉ current c :: l -> ts s' !! x = ts s !! x)
      end) s.
  Proof.
    intros Hr El. unfold schedule, check_interrupts, CliHelper. apply wp_bind, wp_gets, wp_bind, wp_modify, wp_bind.
    unfold this_cpu. apply wp_gets. simpl. rewrite Ei. apply wp_bind. unfold drain_pending_reap.
    apply wp_bind. eapply wp_cpu_get; [exact Ec|]. rewrite Hr. simpl. apply wp_ret, wp_bind.
    eapply wp_cpu_get; [exact Ec|]. apply wp_bind.
    eapply wp_rq_lock; [exact Ec | eapply si_locks; eauto|]. apply wp_bind.
    assert (Hic : (i < length (cpu_locals s))%nat) by now apply lookup_lt_Some in Ec.
    eapply wp_mono.
    { eapply (rq_dequeue_locked_spec locked _ i (set_rq_lock true c)); [apply locked_rqs | | exact El].
      now apply list_lookup_insert_eq. }
    intros r s1. destruct l as [|a l].
    - intros [-> ->]. simpl. unfold is_running. apply wp_bind.
      assert (Hun : forall b, set_kif b (set_cpu_locals (<[i := set_rq_lock false c]> (cpu_locals s)) s) = set_kif b s).
      { intros b. now rewrite relock. }
      assert (HI' : forall b, ts (set_kif b s) = ts s /\ cpu_locals (set_kif b s) = cpu_locals s /\
                              cpu_index (set_kif b s) = Z.of_nat i /\
                              sched_inv (set_kif b s) qs).
      { intros b. split_and!; [reflexivity | reflexivity | exact Ei|]. destruct HI. now split. }
      assert (Hret : forall (parked : bool),
        wp (spin_unlock (rq_lock_of (Z.of_nat i));;
            if parked then StiHelper;; ret (Halted (current c) (kif s)) else when (kif s) StiHelper;; ret Returned)
          (λ o s', ts s' = ts s /\ cpu_locals s' = cpu_locals s /\ cpu_index s' = Z.of_nat i /\ sched_inv s' qs /\
                   o = (if parked then Halted (current c) (kif s) else Returned)) locked).
      { intros parked. apply wp_bind. eapply wp_rq_unlock; [now apply list_lookup_insert_eq|].
        unfold locked. simpl. rewrite list_insert_insert_eq. simpl.
        change (set_cpu_locals _ (set_cpu_locals _ (set_kif false s)))
          with (set_kif false (set_cpu_locals (<[i := set_rq_lock false c]> (cpu_locals s)) s)). rewrite Hun.
        destruct parked.
        - apply wp_bind, wp_modify, wp_ret. destruct (HI' true) as (? & ? & ? & ?). auto.
        - apply wp_bind, wp_when. destruct (kif s).
          + apply wp_modify, wp_ret. destruct (HI' true) as (? & ? & ? & ?). auto.
          + apply wp_ret. destruct (HI' false) as (? & ? & ? & ?). auto. }
      destruct (Z.eqb_spec (current c) 0) as [H0|H0]; simpl.
      + apply wp_ret, (Hret false).
      + destruct (si_cur _ _ HI _ _ Ec H0) as (P & EP & _). apply wp_bind. eapply wp_kget; [exact EP|].
        apply wp_ret. rewrite EP. destruct (state_eqb (state P) TASK_STATE_RUNNING); simpl.
        * apply (Hret false).
        * apply (Hret true).
    - intros (-> & ts1 & q1 & -> & R1 & Hd & RL). assert (Hd' := Hd). destruct Hd' as (Ha0 & _).
      rewrite (proj2 (Z.eqb_neq _ _) Ha0). unfold locked in *. simpl in *.
      rewrite list_insert_insert_eq. rewrite list_fmap_insert, !list_insert_insert_eq in R1.
      destruct (si_rqs _ _ HI) as [_ HR].
      destruct (HR i (rq c) (a :: l)) as [[N _] _]; [now rewrite list_lookup_fmap, Ec | exact El |].
      apply list.NoDup_cons in N as [Hal _].
      pose proof (schedule_to_spec ts1 q1 l a (kif s)) as HS. rewrite Hr in HS. apply HS; auto.
  Qed.
End SchedSpec.

(** * Waking a task *)

(** What the scheduler's invariant looks at in a task. *)
Definition sched_view (T : task_t) : Z * Z * task_state_t * Z := (next T, prev T, state T, home_cpu T).

Lemma dls_view tsx tsx' p h l n t :
  (forall x T, x ∈ l -> tsx !! x = Some T -> exists T', tsx' !! x = Some T' /\ next T' = next T /\ prev T' = prev T) ->
  dls tsx p h l n t -> dls tsx' p h l n t.
Proof.
  revert p h. induction l as [|a l IH]; intros p h Hx; simpl; [easy|].
  intros (-> & Hnz & T & E & Hp & Hd). destruct (Hx a T) as (T' & E' & En & Ep); [set_solver | exact E|].
  split_and!; auto. exists T'. split_and!; [exact E' | congruence|]. rewrite En. apply IH; [|exact Hd].
  intros x X Hin. apply Hx. set_solver.
Qed.

Lemma rqs_view tsx tsx' rv qs :
  (forall x T, on_rq qs x -> tsx !! x = Some T -> exists T', tsx' !! x = Some T' /\ sched_view T' = sched_view T) ->
  rqs tsx rv qs -> rqs tsx' rv qs.
Proof.
  intros Hf [Hl H]. split; [exact Hl|]. intros i q l Eq El. destruct (H _ _ _ Eq El) as [[N D] Hr].
  assert (Hv : forall x T, x ∈ l -> tsx !! x = Some T -> exists T', tsx' !! x = Some T' /\ sched_view T' = sched_view T).
  { intros x T Hx. apply Hf. exists i, l. auto. }
  split; [split; [exact N|]; eapply dls_view; [|exact D]|].
  - intros x T Hx ET. destruct (Hv x T Hx ET) as (T' & E' & V). injection V. eauto.
  - intros x Hx. destruct (Hr x Hx) as (T & ET & Hs & Hh). destruct (Hv x T Hx ET) as (T' & E' & V).
    injection V as _ _ Es Eh. exists T'. split_and!; congruence.
Qed.

(** The invariant only depends on the views of the tasks and on the CPUs. *)
Lemma sched_inv_view s s' qs :
  (forall x T, ts s !! x = Some T -> exists T', ts s' !! x = Some T' /\ sched_view T' = sched_view T) ->
  cpu_locals s' = cpu_locals s -> sched_inv s qs -> sched_inv s' qs.
Proof.
  intros Hv Ec [R L C]. split; rewrite ?Ec; [|exact L|].
  - eapply rqs_view; [|exact R]. eauto.
  - intros i c Eci Hc. destruct (C _ _ Eci Hc) as (T & ET & Hh & Hr). destruct (Hv _ _ ET) as (T' & E' & V).
    injection V as En Ep Es Eh. exists T'. split_and!; [exact E' | congruence|].
    intros Hs. rewrite En, Ep. apply Hr. congruence.
Qed.

(** ... and not on the state of a task that is on no run queue, as long as it
    does not become RUNNING. *)
Lemma sched_inv_state s qs x T st :
  ts s !! x = Some T -> ~ on_rq qs x -> st <> TASK_STATE_RUNNING -> sched_inv s qs ->
  sched_inv (set_ts (<[x := set_state st T]> (ts s)) s) qs.
Proof.
  intros ET Hoff Hst [R L C]. split; [now apply rqs_insert_off | exact L|]. simpl.
  intros i c Ec Hc. destruct (C _ _ Ec Hc) as (D & ED & Hh & Hr). destruct (decide (x = current c)) as [->|].
  - rewrite ET in ED. injection ED as <-. exists (set_state st T). rewrite lookup_insert_eq. split_and!; auto.
    simpl. congruence.
  - exists D. rewrite lookup_insert_ne by assumption. auto.
Qed.

(** [cs'] differs from [cs] in run queues only. *)
Definition same_cpus (cs cs' : list cpu_local_t) : Prop :=
  set_rq (0, 0) <$> cs' = set_rq (0, 0) <$> cs.

Lemma rq_enqueue_external_spec s qs x T j l :
  sched_inv s qs -> ts s !! x = Some T -> x <> 0 -> next T = 0 -> prev T = 0 -> state T = TASK_STATE_READY ->
  home_cpu T = Z.of_nat j -> qs !! j = Some l -> ~ on_rq qs x ->
  wp (rq_enqueue_external x) (λ _ s', exists ts' cs', s' = set_cpu_locals cs' (set_ts ts' s) /\
    sched_inv s' (<[j := l ++ [x]]> qs) /\ relinks (l ++ [x]) (ts s) ts' /\ same_cpus (cpu_locals s) cs') s.
Proof.
  intros HI ET Hx Hn Hp Hs Hh El Hoff. unfold rq_enqueue_external, rq_for_task, rq_enqueue.
  apply wp_bind. eapply wp_kget; [exact ET|]. rewrite Hh.
  destruct (lookup_lt_is_Some_2 (cpu_locals s) j) as [c Ec].
  { destruct (si_rqs _ _ HI) as [Hlen _]. rewrite length_fmap in Hlen. apply lookup_lt_Some in El. lia. }
  assert (Hjc : (j < length (cpu_locals s))%nat) by now apply lookup_lt_Some in Ec.
  assert (Hlk : rq_lock c = false) by (eapply si_locks; eauto).
  apply wp_bind. eapply wp_rq_lock; [exact Ec | exact Hlk|]. apply wp_bind.
  eapply wp_mono.
  { eapply (rq_enqueue_locked_spec _ qs j (set_rq_lock true c) l x T); auto; simpl.
    - rewrite list_fmap_insert. simpl. rewrite list_insert_id by now rewrite list_lookup_fmap, Ec. apply HI.
    - now apply list_lookup_insert_eq. }
  simpl. intros [] s1 (ts1 & q1 & -> & R1 & RL). rewrite list_fmap_insert, !list_insert_insert_eq in *.
  eapply wp_rq_unlock; [now apply list_lookup_insert_eq|]. simpl. rewrite list_insert_insert_eq.
  exists ts1, (<[j := set_rq q1 c]> (cpu_locals s)). split_and!; auto.
  - destruct c; simpl in *; subst; reflexivity.
  - split; simpl.
    + rewrite list_fmap_insert. exact R1.
    + intros k d Ed. apply list_lookup_insert_Some in Ed as [(<- & <- & _)|[_ Ed]]; [reflexivity|].
      eapply si_locks; eauto.
    + intros k d Ed Hd. assert (exists d0, cpu_locals s !! k = Some d0 /\ current d0 = current d) as (d0 & Ed0 & E0).
      { apply list_lookup_insert_Some in Ed as [(<- & <- & _)|[_ Ed]]; eauto. }
      rewrite <- E0 in *. destruct (si_cur _ _ HI _ _ Ed0 Hd) as (D & ED & HhD & HrD).
      destruct (relinks_lookup _ _ _ _ _ RL ED) as (D' & ED' & U).
      destruct (unlinked_fields _ _ U) as (Es & Eh & _). exists D'. split_and!; [exact ED' | congruence|].
      intros Hrun. assert (D' = D) as ->; [|auto]. destruct RL as [O _]. simpl in O.
      rewrite O in ED'; [congruence|]. intros [Hin|Hin%list_elem_of_singleton]%elem_of_app; [|congruence].
      destruct (rqs_ready _ _ _ (current d0) (si_rqs _ _ HI)) as (D2 & ED2 & Hs2); [exists j, l; auto|]. congruence.
  - unfold same_cpus. rewrite list_fmap_insert. rewrite list_insert_id; [reflexivity|].
    rewrite list_lookup_fmap, Ec. reflexivity.
Qed.

(** * Waiter queues beside the run queues *)

(** Relinking parked tasks does not concern the scheduler. *)
Lemma sched_inv_relinks s qs L ts' :
  sched_inv s qs -> relinks L (ts s) ts' ->
  (forall x T, x ∈ L -> ts s !! x = Some T -> state T <> TASK_STATE_READY /\ state T <> TASK_STATE_RUNNING) ->
  sched_inv (set_ts ts' s) qs.
Proof.
  intros [R K C] RL HL. assert (O := proj1 RL). split; [|exact K|].
  - eapply rqs_frame; [|exact R]. intros x Hx. apply O. intros HxL.
    destruct (rqs_ready _ _ _ _ R Hx) as (T & ET & Hs). now destruct (HL x T HxL ET).
  - simpl. intros i c Ec Hc. destruct (C _ _ Ec Hc) as (T & ET & Hh & Hr).
    destruct (relinks_lookup _ _ _ _ _ RL ET) as (T' & ET' & U).
    destruct (unlinked_fields _ _ U) as (Es & Eh & _). exists T'. split_and!; [exact ET' | congruence|].
    intros Hrun. destruct (decide (current c ∈ L)) as [Hin|Hout].
    + destruct (HL _ T Hin ET). congruence.
    + rewrite (O _ Hout), ET in ET'. injection ET' as <-. now apply Hr.
Qed.

Lemma relinks_state L ts1 ts2 x T T' st :
  relinks L ts1 ts2 -> ts1 !! x = Some T -> ts2 !! x = Some T' ->
  relinks (x :: L) (<[x := set_state st T]> ts1) (<[x := set_state st T']> ts2).
Proof.
  intros [O U] E1 E2. split.
  - intros y Hy. rewrite !lookup_insert_ne by set_solver. apply O. set_solver.
  - intros y. destruct (decide (y = x)) as [->|]; [|now rewrite !lookup_insert_ne].
    rewrite !lookup_insert_eq. simpl. specialize (U x). rewrite E1, E2 in U. apply (inj Some) in U.
    unfold unlinked in *. f_equal. apply (f_equal (set_state st)) in U. exact U.
Qed.

Lemma queue_state tsx q l x T st : tsx !! x = Some T -> queue tsx q l -> queue (<[x := set_state st T]> tsx) q l.
Proof.
  intros E [N D]. split; [exact N|]. eapply dls_view; [|exact D]. intros y Y _ EY.
  destruct (decide (y = x)) as [->|]; [|rewrite lookup_insert_ne by auto; eauto].
  rewrite lookup_insert_eq. rewrite E in EY. injection EY as <-. eexists. split; [reflexivity|]. auto.
Qed.

(** The current task [x] parks itself at the tail of a waiter queue. *)
Lemma park_spec s qs q l x T :
  sched_inv s qs -> queue (ts s) q l -> ts s !! x = Some T -> x <> 0 -> next T = 0 -> prev T = 0 ->
  state T = TASK_STATE_RUNNING ->
  (forall y, y ∈ l -> exists Y, ts s !! y = Some Y /\ state Y = TASK_STATE_BLOCKED) ->
  wp (enqueue q x) (λ q' ts1, exists T1, ts1 !! x = Some T1 /\ unlinked T1 = unlinked T /\ (forall y, y ∉ x :: l -> ts1 !! y = ts s !! y) /\
    (forall y Y, y ∈ l -> ts s !! y = Some Y -> exists Y', ts1 !! y = Some Y' /\ unlinked Y' = unlinked Y) /\
    let ts2 := <[x := set_state TASK_STATE_BLOCKED T1]> ts1 in
    queue ts2 q' (l ++ [x]) /\ sched_inv (set_ts ts2 s) qs) (ts s).
Proof.
  intros HI Q ET Hx Hn Hp Hs Hl.
  assert (Hni : x ∉ l) by (intros Hin; destruct (Hl _ Hin) as (Y & EY & HY); congruence).
  eapply wp_mono; [apply (enqueue_spec _ q l x); auto; split; eauto|]. intros q' ts1 [Q1 RL].
  destruct (relinks_lookup _ _ _ _ _ RL ET) as (T1 & ET1 & U). exists T1. split_and!; auto.
  - intros y Hy. destruct RL as [O _]. apply O. set_solver.
  - intros y Y _ EY. eapply relinks_lookup; eauto.
  - cbv zeta. split; [now apply queue_state|].
    assert (Hoff : ~ on_rq qs x) by (eapply rqs_off; [apply HI | exact ET | congruence]).
    apply (sched_inv_relinks (set_ts (<[x := set_state TASK_STATE_BLOCKED T]> (ts s)) s) qs (x :: l ++ [x])).
    + now apply sched_inv_state.
    + now apply relinks_state.
    + simpl. intros y Y Hy EY. destruct (decide (y = x)) as [->|Hne].
      * rewrite lookup_insert_eq in EY. injection EY as <-. easy.
      * rewrite lookup_insert_ne in EY by auto. destruct (Hl y) as (Y' & EY' & HsY); [set_solver|].
        rewrite EY in EY'. injection EY' as <-. rewrite HsY. easy.
Qed.

Definition all_blocked (tsx : tasks) (l : list Z) : Prop :=
  forall y, y ∈ l -> exists Y, tsx !! y = Some Y /\ state Y = TASK_STATE_BLOCKED.

(** The head of a waiter queue is taken off it. *)
Lemma pop_parked_spec s qs q l :
  sched_inv s qs -> queue (ts s) q l -> all_blocked (ts s) l ->
  wp (pop q) (λ r ts1, match l with
    | [] => r = (0, q) /\ ts1 = ts s
    | a :: l' => r.1 = a /\ queue ts1 r.2 l' /\ sched_inv (set_ts ts1 s) qs /\ detached ts1 a /\ relinks l (ts s) ts1
    end) (ts s).
Proof.
  intros HI Q Hl. eapply wp_mono; [apply pop_spec, Q|]. intros r ts1. destruct l as [|a l]; [easy|].
  intros (Er & Q1 & Hd & RL). split_and!; auto. eapply sched_inv_relinks; [exact HI | exact RL|].
  intros x T Hx ET. destruct (Hl _ Hx) as (Y & EY & HY). rewrite ET in EY. injection EY as <-. now rewrite HY.
Qed.

(** A task off every queue, made READY and put on its run queue: no parked task
    is disturbed. *)
Lemma wake_spec s qs a A j :
  sched_inv s qs -> ts s !! a = Some A -> a <> 0 -> next A = 0 -> prev A = 0 -> state A = TASK_STATE_BLOCKED ->
  home_cpu A = Z.of_nat j -> (j < length qs)%nat ->
  wp (rq_enqueue_external a) (λ _ s', exists ts' cs' qs',
    s' = set_cpu_locals cs' (set_ts ts' s) /\ sched_inv s' qs' /\ length qs' = length qs /\ on_rq qs' a /\
    same_cpus (cpu_locals s) cs' /\
    (forall y, unlinked <$> ts' !! y = unlinked <$> (<[a := set_state TASK_STATE_READY A]> (ts s)) !! y) /\
    (forall y Y, y <> a -> ts s !! y = Some Y -> state Y <> TASK_STATE_READY -> ts' !! y = Some Y))
    (set_ts (<[a := set_state TASK_STATE_READY A]> (ts s)) s).
Proof.
  intros HI EA Ha Hn Hp Hs Hh Hj. destruct (lookup_lt_is_Some_2 qs j Hj) as [l El].
  assert (Hoff : ~ on_rq qs a) by (eapply rqs_off; [apply HI | exact EA | congruence]).
  eapply wp_mono.
  { apply (rq_enqueue_external_spec _ qs a (set_state TASK_STATE_READY A) j l); auto.
    - now apply sched_inv_state.
    - apply lookup_insert_eq. }
  intros [] s' (ts' & cs' & -> & HI' & RL & Hcs). exists ts', cs', (<[j := l ++ [a]]> qs). split_and!; auto.
  - apply length_insert.
  - exists j, (l ++ [a]). split; [now apply list_lookup_insert_eq | set_solver].
  - apply RL.
  - intros y Y Hy EY HsY. destruct RL as [O _]. simpl in O. rewrite O.
    + now rewrite lookup_insert_ne.
    + intros [Hin|Hin%list_elem_of_singleton]%elem_of_app; [|easy].
      destruct (rqs_ready _ _ _ y (si_rqs _ _ HI)) as (Y' & EY' & HsY'); [exists j, l; auto | congruence].
Qed.

(** Theorems on multi/scheduler.c: [schedule] picks the head of the CPU's run
    queue and keeps the invariant, and repeated calls run the tasks of a CPU in
    round-robin order. *)

(** * A concrete system: one CPU running task 1, with tasks 2 and 3 ready *)

Definition demo_task (n : Z) (st : task_state_t) (nx pv : Z) : task_t :=
  Task 4096 0 0 0 n st 20 nx pv 0 (replicate FD_MAX (0, 0)) 0 (replicate 32 (0, 0)) 0 0 0 0 0 0 n n 0 0 0 0.
Definition demo_cpu : cpu_local_t := Cpu 1 0 (2, 3) false 0 false 0 None.
Definition demo_kernel : kst :=
  Kst (<[1 := demo_task 1 TASK_STATE_RUNNING 0 0]> (<[2 := demo_task 2 TASK_STATE_READY 3 0]>
       (<[3 := demo_task 3 TASK_STATE_READY 0 2]> ∅))) [demo_cpu] 0 true 0 false 0 false 4 false 0 1 [0] 4096 0 [].

Lemma demo_queue : queue (ts demo_kernel) (2, 3) [2; 3].
Proof.
  split; [apply (bool_decide_unpack _); vm_compute; exact I|].
  simpl. split_and!; [reflexivity | easy|]. exists (demo_task 2 TASK_STATE_READY 3 0).
  split_and!; [reflexivity | reflexivity | reflexivity | easy|].
  exists (demo_task 3 TASK_STATE_READY 0 2). repeat split; reflexivity.
Qed.

Lemma demo_inv : sched_inv demo_kernel [[2; 3]].
Proof.
  split.
  - split; [reflexivity|]. intros [|i] q l Eq El; [|easy]. injection Eq as <-. injection El as <-.
    split; [exact demo_queue|]. intros x Hx. apply elem_of_cons in Hx as [->|Hx%list_elem_of_singleton].
    + exists (demo_task 2 TASK_STATE_READY 3 0). repeat split; reflexivity.
    + subst x. exists (demo_task 3 TASK_STATE_READY 0 2). repeat split; reflexivity.
  - intros [|i] c Ec; [|easy]. injection Ec as <-. reflexivity.
  - intros [|i] c Ec _; [|easy]. injection Ec as <-. exists (demo_task 1 TASK_STATE_RUNNING 0 0).
    repeat split; reflexivity.
Qed.

(** * schedule *)

(** C5. [schedule], called on CPU [i] with no corpse to reap, always comes to
    an outcome and keeps the scheduler's invariant. With an empty run queue
    nothing changes: a running task goes on, a parked one leaves the CPU halted.
    Otherwise the head of the queue becomes the current task, RUNNING with a
    full quantum; the task that was running goes to the tail, a blocked or dead
    one does not; a dead orphan is left in the CPU's reap slot; and no other
    task is touched. *)
Theorem schedule_picks_head s qs i c l :
  sched_inv s qs -> cpu_locals s !! i = Some c -> cpu_index s = Z.of_nat i ->
  pending_reap c = 0 -> qs !! i = Some l ->
  exists o s', schedule s = Some (o, s') /\
    match l with
    | [] => ts s' = ts s /\ cpu_locals s' = cpu_locals s /\ cpu_index s' = cpu_index s /\ sched_inv s' qs /\
        o = (if (current c =? 0) || is_running (ts s) (current c) then Returned
             else Halted (current c) (kif s))
    | a :: l' =>
        o = (if current c =? a then Returned else Switched (current c) a (kif s)) /\
        sched_inv s' (<[i := rotate (is_running (ts s) (current c)) (current c) l']> qs) /\
        runs s' i a (if is_orphan_zombie (ts s) (current c) then current c else 0) /\
        (forall x, x ∉ current c :: l -> ts s' !! x = ts s !! x)
    end.
Proof. intros HI Ec Ei Hr El. apply wp_run. now apply (schedule_spec s qs i c HI Ec Ei l). Qed.

Lemma schedule_picks_head_witness :
  exists o s', schedule demo_kernel = Some (o, s') /\ runs s' 0 2 0 /\ sched_inv s' [[3; 1]].
Proof.
  destruct (schedule_picks_head demo_kernel [[2; 3]] 0 demo_cpu [2; 3] demo_inv eq_refl eq_refl eq_refl eq_refl)
    as (o & s' & E & _ & HI & Hr & _).
  exists o, s'. split; [exact E|]. split; [exact Hr | exact HI].
Defined.

(** * Round robin *)

Fixpoint schedules (n : nat) : M kst unit :=
  match n with O => ret tt | S n => schedule;; schedules n end.

(** CPU [i] runs [p], with the tasks [l] waiting in this order. *)
Definition cpu_runs (s : kst) (i : nat) (p : Z) (l : list Z) : Prop :=
  exists qs c, sched_inv s qs /\ cpu_locals s !! i = Some c /\ cpu_index s = Z.of_nat i /\
    pending_reap c = 0 /\ qs !! i = Some l /\ current c = p /\ is_running (ts s) p = true.

Lemma schedule_rotates s i p l :
  cpu_runs s i p l ->
  wp schedule (λ _ s', match l with [] => cpu_runs s' i p [] | a :: l' => cpu_runs s' i a (l' ++ [p]) end) s.
Proof.
  intros (qs & c & HI & Ec & Ei & Hr & El & <- & Hrun).
  eapply wp_mono; [now apply (schedule_spec s qs i c HI Ec Ei l)|]. intros o s'. simpl. destruct l as [|a l].
  - intros (Ets & Ecs & Ei' & HI' & _). exists qs, c. rewrite Ets, Ecs, Ei'. split_and!; auto.
  - intros (_ & HI' & (Ei' & Ha0 & (c' & Ec' & Ecur & Epr) & T & ET & Hst & _) & _).
    eexists _, c'. split_and!; [exact HI' | exact Ec' | exact Ei' | | | exact Ecur|].
    + rewrite Epr. unfold is_running in Hrun. apply andb_prop in Hrun as [_ Hrun].
      destruct (ts s !! current c) as [P|] eqn:EP; [|easy].
      erewrite live_not_orphan; [reflexivity | exact EP|].
      destruct (state_eqb_spec (state P) TASK_STATE_RUNNING); congruence.
    + rewrite list_lookup_insert_eq by (now apply lookup_lt_Some in El). now rewrite Hrun.
    + unfold is_running. now rewrite (proj2 (Z.eqb_neq _ _) Ha0), ET, Hst.
Qed.

Lemma schedules_reach s i p l k x r :
  cpu_runs s i p (l ++ r) -> l !! k = Some x ->
  wp (schedules (S k)) (λ _ s', exists l', cpu_runs s' i x l') s.
Proof.
  revert s p l r. induction k as [|k IH]; intros s p l r Hc Hx; (destruct l as [|a l]; [easy|]).
  - injection Hx as ->. apply wp_bind. eapply wp_mono; [eapply schedule_rotates, Hc|].
    intros o s' H. apply wp_ret. simpl in H. eauto.
  - change (wp (schedule;; schedules (S k)) (λ _ s', exists l', cpu_runs s' i x l') s).
    apply wp_bind. eapply wp_mono; [eapply schedule_rotates, Hc|]. simpl. intros _ s' H.
    apply (IH s' a l (r ++ [p])); [now rewrite app_assoc | exact Hx].
Qed.

(** C6. Round robin: if CPU [i] is running a task and [x] is the [k]-th task
    in its run queue, then after [k + 1] calls of [schedule] (one per expired
    quantum) [x] is the running task of CPU [i]; no ready task starves. *)
Theorem schedule_round_robin s qs i c l k x :
  sched_inv s qs -> cpu_locals s !! i = Some c -> cpu_index s = Z.of_nat i -> pending_reap c = 0 ->
  is_running (ts s) (current c) = true -> qs !! i = Some l -> l !! k = Some x ->
  exists s', schedules (S k) s = Some (tt, s') /\
    (exists c', cpu_locals s' !! i = Some c' /\ current c' = x) /\ is_running (ts s') x = true.
Proof.
  intros HI Ec Ei Hr Hrun El Hk.
  assert (Hc : cpu_runs s i (current c) (l ++ [])) by (rewrite app_nil_r; exists qs, c; split_and!; auto).
  destruct (proj1 (wp_run _ _ _) (schedules_reach _ _ _ _ _ _ _ Hc Hk)) as ([] & s' & E & l' & qs' & c' & H).
  exists s'. split; [exact E|]. destruct H as (_ & Ec' & _ & _ & _ & Ecur & Hrun'). eauto.
Qed.

Lemma schedule_round_robin_witness :
  exists s', schedules 2 demo_kernel = Some (tt, s') /\ is_running (ts s') 3 = true.
Proof.
  destruct (schedule_round_robin demo_kernel [[2; 3]] 0 demo_cpu [2; 3] 1 3 demo_inv eq_refl eq_refl eq_refl
              eq_refl eq_refl eq_refl) as (s' & E & _ & H).
  exists s'. split; [exact E | exact H].
Defined.
