(* ===== verification/WaitExit.v ===== *)
(** The handshake between [task_exit] (multi/scheduler.c) and [do_waitpid]
    (multi/waitpid.c): the singly linked task lists, what taking a zombie
    returns, and that a wakeup is never lost: while a parent is parked in
    [do_waitpid] the zombie list holds no child it is waiting for. *)

From S2P Require Import Prelude TaskQueue Scheduler SchedulerInv.

(** * Singly linked lists of tasks *)

(** [h] starts the list [l], linked by the field [nx]. *)
Fixpoint chain (nx : task_t -> Z) (tsx : tasks) (h : Z) (l : list Z) : Prop :=
  match l with
  | [] => h = 0
  | a :: l => h = a /\ a <> 0 /\ exists T, tsx !! a = Some T /\ chain nx tsx (nx T) l
  end.

Lemma chain_frame nx tsx tsx' h l :
  (forall x T, x ∈ l -> tsx !! x = Some T -> exists T', tsx' !! x = Some T' /\ nx T' = nx T) ->
  chain nx tsx h l -> chain nx tsx' h l.
Proof.
  revert h. induction l as [|a l IH]; intros h Hx; simpl; [easy|].
  intros (-> & Hnz & T & E & Hc). split_and!; auto.
  destruct (Hx a T) as (T' & E' & En); [apply elem_of_cons; auto | exact E|].
  exists T'. split; [exact E'|]. rewrite En. apply IH; [|exact Hc].
  intros x Tx Hin. apply Hx. apply elem_of_cons. auto.
Qed.

Lemma chain_elem nx tsx h l x : chain nx tsx h l -> x ∈ l -> x <> 0 /\ is_Some (tsx !! x).
Proof.
  revert h. induction l as [|a l IH]; intros h; simpl; [set_solver|].
  intros (-> & Hnz & T & E & Hc) [->|Hx]%elem_of_cons; eauto.
Qed.

(** The cell that points at the rest of the list: the head, or the link of the
    last task before it. Writing [v] there cuts the list short. *)
Lemma chain_splice nx (st : Z -> task_t -> task_t) tsx h l1 a T l2 :
  (forall v T, nx (st v T) = v) -> NoDup (l1 ++ a :: l2) -> chain nx tsx h (l1 ++ a :: l2) -> tsx !! a = Some T ->
  match l1 with
  | [] => h = a /\ chain nx tsx (nx T) l2
  | _ => exists P, tsx !! List.last l1 0 = Some P /\ List.last l1 0 <> 0 /\
           chain nx (<[List.last l1 0 := st (nx T) P]> tsx) h (l1 ++ l2)
  end.
Proof.
  intros Hst. revert h. induction l1 as [|b l1 IH]; intros h N; simpl.
  - intros (-> & _ & T' & E & C) ET. rewrite ET in E. injection E as <-. auto.
  - intros (-> & Hb & B & EB & C) ET. simpl in N. apply list.NoDup_cons in N as [Hbn N].
    specialize (IH _ N C ET). destruct l1 as [|d l1].
    + destruct IH as [En C2]. exists B. split_and!; auto. exists (st (nx T) B). rewrite lookup_insert_eq.
      split; [reflexivity|]. rewrite Hst. eapply chain_frame; [|exact C2]. intros x X Hx EX.
      exists X. rewrite lookup_insert_ne; [auto|]. set_solver.
    + destruct IH as (P & EP & HP & C2). exists P. split_and!; auto. exists B. split; [|exact C2].
      rewrite lookup_insert_ne; [exact EB|]. intros E. apply Hbn. rewrite <- E.
      apply elem_of_app. left. apply last_in. easy.
Qed.

Lemma nodup_size (tsx : tasks) l : NoDup l -> (forall x, x ∈ l -> is_Some (tsx !! x)) -> (length l <= size tsx)%nat.
Proof.
  intros N H. rewrite <- size_dom, <- (size_list_to_set (C := gset Z)) by exact N. apply subseteq_size.
  intros x Hx%elem_of_list_to_set. apply elem_of_dom. auto.
Qed.

(** A walk along a chain: the invariant is indexed by what is done and to do. *)
Lemma wp_walk {A B} (I : list Z -> list Z -> A -> kst -> Prop) l (step : A -> M kst (A + B)) (Q : B -> kst -> Prop) a s :
  I [] l a s -> (length l <= size (ts s))%nat ->
  (forall l1 l2 a s, I l1 l2 a s -> wp (step a) (λ r s', match r with
     | inl a' => exists x l3, l2 = x :: l3 /\ I (l1 ++ [x]) l3 a' s'
     | inr b => Q b s' end) s) ->
  wp (walk step a) Q s.
Proof.
  intros HI Hlen Hstep. unfold walk. apply wp_bind, wp_get.
  eapply (wp_loop (λ n a s, exists l1 l2, n = length l2 /\ I l1 l2 a s) (length l)).
  - eauto.
  - lia.
  - intros n a' s' (l1 & l2 & -> & H). eapply wp_mono; [eapply Hstep, H|]. intros [a2|b] s2; [|easy].
    intros (x & l3 & -> & H3). exists (length l3). split; [simpl; lia | eauto].
Qed.

(** * Taking a zombie *)

Definition wants (want : Z) (T : task_t) : bool := (want =? 0) || (pid T =? want).
(** The zombie [z] is a child of [par] that a wait for [want] accepts. *)
Definition matches (par want : Z) (tsx : tasks) (z : Z) : bool :=
  match tsx !! z with Some T => (parent T =? par) && wants want T | None => false end.

Definition zlist (s : kst) (l : list Z) : Prop := NoDup l /\ chain zombie_next (ts s) (zombie_list_head s) l.

(** Everything of a task but its place in the zombie list. *)
Definition no_znext (T : task_t) : task_t := set_zombie_next 0 T.

(** What [zombie_list_take_locked] comes to on the list [l]: the first child
    that matches, cut out of the list; or none, nothing changed. *)
Definition zombie_taken (par want : Z) (s : kst) (l : list Z) (z : Z) (s' : kst) : Prop :=
  (z = 0 /\ s' = s /\ forall x, x ∈ l -> matches par want (ts s) x = false) \/
  (exists l1 l2, l = l1 ++ z :: l2 /\ matches par want (ts s) z = true /\
     (forall x, x ∈ l1 -> matches par want (ts s) x = false) /\ zlist s' (l1 ++ l2) /\ z <> 0 /\
     (forall x, no_znext <$> ts s' !! x = no_znext <$> ts s !! x) /\
     exists ts' h', s' = set_zombie_list_head h' (set_ts ts' s)).

Lemma zombie_take_spec s l par want :
  zlist s l -> wp (zombie_list_take_locked par want) (zombie_taken par want s l) s.
Proof.
  intros [N C]. unfold zombie_list_take_locked. apply wp_bind, wp_gets.
  eapply (wp_walk (λ l1 l2 a s', s' = s /\ l = l1 ++ l2 /\ a.1 = List.last l1 0 /\
     chain zombie_next (ts s) a.2 l2 /\ (forall x, x ∈ l1 -> matches par want (ts s) x = false)) l).
  - split_and!; auto. set_solver.
  - apply nodup_size; [exact N|]. intros x Hx. now apply (chain_elem _ _ _ _ _ C).
  - intros l1 l2 [link t] s' (-> & E & Elink & C2 & Hno). simpl in Elink, C2. unfold zombie_take_step.
    destruct l2 as [|a l2]; simpl in C2.
    { subst t. simpl. apply wp_ret. left. rewrite E, app_nil_r. auto. }
    destruct C2 as (-> & Hnz & T & ET & C2). rewrite (proj2 (Z.eqb_neq _ _) Hnz).
    apply wp_bind. eapply wp_kget; [exact ET|]. apply wp_bind. eapply wp_kget; [exact ET|].
    apply wp_bind. eapply wp_kget; [exact ET|].
    assert (Hm : matches par want (ts s) a = (parent T =? par) && wants want T) by (unfold matches; now rewrite ET).
    unfold wants in Hm. rewrite <- Hm. destruct (matches par want (ts s) a) eqn:Ematch.
    + subst l.
      pose proof (chain_splice zombie_next set_zombie_next _ _ _ _ _ _ (λ _ _, eq_refl) N C ET) as Hs.
      apply wp_bind. unfold zombie_link_set. destruct (NoDup_hole _ _ _ N) as (Hn1 & Hn2 & N').
      assert (Hfin : forall s2, chain zombie_next (ts s2) (zombie_list_head s2) (l1 ++ l2) ->
        ts s2 !! a = Some T -> (forall x, no_znext <$> ts s2 !! x = no_znext <$> ts s !! x) ->
        (exists ts' h', s2 = set_zombie_list_head h' (set_ts ts' s)) ->
        wp (kset a (set_zombie_next 0);; ret (inr a : (Z * Z) + Z))
          (λ r s', match r with inl _ => False | inr z => zombie_taken par want s (l1 ++ a :: l2) z s' end) s2).
      { intros s2 C2' E2 F2 (ts' & h' & ->). apply wp_bind. eapply wp_kset; [exact E2|]. apply wp_ret. right.
        exists l1, l2. split_and!; auto.
        - split; [exact N'|]. eapply chain_frame; [|exact C2']. intros x X Hx EX. simpl. exists X.
          rewrite lookup_insert_ne; [auto|]. set_solver.
        - intros x. simpl. destruct (decide (x = a)) as [->|]; [|now rewrite lookup_insert_ne].
          rewrite lookup_insert_eq, <- F2, E2. reflexivity.
        - exists (<[a := set_zombie_next 0 T]> ts'), h'. reflexivity. }
      destruct l1 as [|b l1].
      * destruct Hs as [_ C2']. simpl in Elink. subst link. simpl. apply wp_modify.
        eapply wp_mono; [apply Hfin; auto; exists (ts s), (zombie_next T); now destruct s | now intros [?|?]].
      * destruct Hs as (P & EP & HP & C2'). rewrite Elink, (proj2 (Z.eqb_neq _ _) HP).
        eapply wp_kset; [exact EP|]. eapply wp_mono; [apply Hfin; simpl | now intros [?|?]].
        -- exact C2'.
        -- rewrite lookup_insert_ne; [exact ET|]. intros E. apply Hn1. rewrite <- E. now apply (last_in (b :: l1) 0).
        -- intros x. destruct (decide (x = List.last (b :: l1) 0)) as [->|]; [|now rewrite lookup_insert_ne].
           now rewrite lookup_insert_eq, EP.
        -- exists (<[List.last (b :: l1) 0 := set_zombie_next (zombie_next T) P]> (ts s)), (zombie_list_head s). now destruct s.
    + apply wp_ret. exists a, l2. split; [reflexivity|]. split_and!; auto.
      * now rewrite <- app_assoc.
      * now rewrite last_last.
      * intros x [Hx|Hx%list_elem_of_singleton]%elem_of_app; [auto | now subst x].
Qed.

(** * The state of the handshake *)

(** [al] is the global task list, [zl] the zombie list, and [W] holds of the
    tasks that are inside [do_waitpid]. *)
Record wait_ok (s : kst) (qs : list (list Z)) (al zl : list Z) (W : Z -> Prop) : Prop := {
  wo_sched : sched_inv s qs;
  wo_all : NoDup al /\ chain all_next (ts s) (tasks_head s) al;
  wo_zombies : zlist s zl;
  wo_locks : tasks_lock s = false /\ zombie_list_lock s = false;
  wo_parent : forall x T, ts s !! x = Some T -> parent T = 0 \/ is_Some (ts s !! parent T);
  wo_parked : forall p P, W p -> ts s !! p = Some P -> state P = TASK_STATE_BLOCKED ->
    p <> 0 /\ next P = 0 /\ prev P = 0 /\ exists j l, home_cpu P = Z.of_nat j /\ qs !! j = Some l;
  (** No lost wakeup: a parked parent has no zombie to collect. *)
  wo_no_lost : forall p P z, W p -> ts s !! p = Some P -> state P = TASK_STATE_BLOCKED -> z ∈ zl ->
    matches p (wait_target P) (ts s) z = false }.

(** * task_exit *)

Definition detach_of (cur : Z) (T : task_t) : task_t := if parent T =? cur then set_parent 0 T else T.

Lemma detach_spec s al cur :
  NoDup al -> chain all_next (ts s) (tasks_head s) al ->
  wp (walk (detach_children_step cur) (tasks_head s)) (λ _ s', exists ts', s' = set_ts ts' s /\
    forall x, ts' !! x = (if decide (x ∈ al) then detach_of cur else id) <$> ts s !! x) s.
Proof.
  intros N C.
  eapply (wp_walk (λ l1 l2 t s', al = l1 ++ l2 /\ chain all_next (ts s) t l2 /\ exists ts', s' = set_ts ts' s /\
     forall x, ts' !! x = (if decide (x ∈ l1) then detach_of cur else id) <$> ts s !! x) al).
  - split_and!; auto. exists (ts s). split; [now destruct s|]. intros x. simpl. now rewrite option_fmap_id.
  - apply nodup_size; [exact N|]. intros x Hx. now apply (chain_elem _ _ _ _ _ C).
  - intros l1 l2 t s1 (-> & C2 & ts' & -> & Ht). unfold detach_children_step.
    destruct l2 as [|a l2]; simpl in C2.
    { subst t. simpl. apply wp_ret. exists ts'. split; [reflexivity|]. now rewrite app_nil_r. }
    destruct C2 as (-> & Hnz & T & ET & C2). rewrite (proj2 (Z.eqb_neq _ _) Hnz).
    destruct (NoDup_hole _ _ _ N) as (Ha1 & Ha2 & _).
    assert (Ea : ts' !! a = Some T) by (rewrite Ht, decide_False by exact Ha1; now rewrite ET).
    assert (Hin : forall ts2 : tasks, (forall x, ts2 !! x = (if decide (x = a) then Some (detach_of cur T) else ts' !! x)) ->
      forall x, ts2 !! x = (if decide (x ∈ l1 ++ [a]) then detach_of cur else id) <$> ts s !! x).
    { intros ts2 H2 x. rewrite H2. destruct (decide (x = a)) as [->|Hxa].
      - rewrite decide_True by set_solver. now rewrite ET.
      - rewrite Ht. destruct (decide (x ∈ l1)); [now rewrite decide_True by set_solver|].
        now rewrite decide_False by set_solver. }
    apply wp_bind. eapply wp_kget; [exact Ea|]. apply wp_bind, wp_when. unfold detach_of in Hin at 1.
    destruct (parent T =? cur).
    + eapply wp_kset; [exact Ea|]. apply wp_bind. eapply wp_kget; [apply lookup_insert_eq|]. apply wp_ret.
      exists a, l2. split; [reflexivity|]. split_and!; [now rewrite <- app_assoc | exact C2|].
      eexists. split; [reflexivity|]. apply Hin. intros x. simpl.
      destruct (decide (x = a)) as [->|]; [now rewrite lookup_insert_eq | now rewrite lookup_insert_ne].
    + apply wp_bind. eapply wp_kget; [exact Ea|]. apply wp_ret.
      exists a, l2. split; [reflexivity|]. split_and!; [now rewrite <- app_assoc | exact C2|].
      eexists. split; [reflexivity|]. apply Hin. intros x. destruct (decide (x = a)) as [->|]; auto.
Qed.

(** What [task_exit] does to the task [x] before it looks for its parent. *)
Definition dying (cur code : Z) (al : list Z) (x : Z) (T : task_t) : task_t :=
  let T1 := if decide (x = cur) then set_exit_code code T else T in
  let T2 := if decide (x ∈ al) then detach_of cur T1 else T1 in
  if decide (x = cur) then set_state TASK_STATE_ZOMBIE T2 else T2.

Lemma dying_fields cur code al x T : let T' := dying cur code al x T in
  next T' = next T /\ prev T' = prev T /\ home_cpu T' = home_cpu T /\ all_next T' = all_next T /\
  zombie_next T' = zombie_next T /\ pid T' = pid T /\ wait_target T' = wait_target T /\
  (x <> cur -> state T' = state T) /\ (parent T' = parent T \/ parent T' = 0).
Proof.
  unfold dying, detach_of. destruct (decide (x = cur)), (decide (x ∈ al)); simpl;
    repeat (destruct (parent _ =? cur); simpl); split_and!; auto; easy.
Qed.

Section Exit.
  Context (s : kst) (qs : list (list Z)) (al zl : list Z) (W : Z -> Prop) (i : nat) (c : cpu_local_t) (C : task_t).
  Context (HO : wait_ok s qs al zl W) (Ec : cpu_locals s !! i = Some c) (Ei : cpu_index s = Z.of_nat i).
  Context (Hcur0 : current c <> 0) (EC : ts s !! current c = Some C).
  Context (Hrun : state C = TASK_STATE_RUNNING) (Hself : parent C <> current c).
Let cur := current c.

Lemma exit_mark_spec code :
    wp (task_exit_mark code) (λ r s', r = cur /\ exists ts', s' = set_kif false (set_ts ts' s) /\
      forall x, ts' !! x = dying cur code al x <$> ts s !! x) s.
  Proof.
    destruct HO as [_ [Na Ca] _ [Lt Lz] _ _ _]. unfold task_exit_mark, CliHelper, this_current, this_cpu.
    apply wp_bind, wp_modify, wp_bind, wp_bind, wp_gets. simpl. rewrite Ei. eapply wp_cpu_get; [exact Ec|].
    fold cur. apply wp_bind. eapply wp_kset; [exact EC|]. apply wp_bind. unfold spin_lock.
    apply wp_bind, wp_gets. simpl. rewrite Lt. apply wp_modify, wp_bind, wp_gets. simpl. apply wp_bind.
    set (T1 := set_exit_code code C). set (s1 := set_tasks_lock true _). eapply wp_mono.
    { apply (detach_spec s1 al cur Na). subst s1. simpl. eapply chain_frame; [|exact Ca].
      intros x X _ EX. destruct (decide (x = cur)) as [->|]; [rewrite lookup_insert_eq; exists T1; split; [reflexivity|] | rewrite lookup_insert_ne by auto; eauto].
      fold cur in EC. rewrite EC in EX. now injection EX as <-. }
    intros [] s2 (ts2 & -> & Ht). subst s1. simpl in *. apply wp_bind. unfold spin_unlock. apply wp_modify. simpl.
    assert (E2 : ts2 !! cur = Some T1).
    { rewrite Ht, lookup_insert_eq. simpl. f_equal. destruct (decide (cur ∈ al)); [|reflexivity].
      unfold detach_of. simpl. fold cur in Hself. now rewrite (proj2 (Z.eqb_neq _ _) Hself). }
    apply wp_bind. eapply wp_kset; [exact E2|]. apply wp_ret. split; [reflexivity|]. simpl.
    exists (<[cur := set_state TASK_STATE_ZOMBIE T1]> ts2). split; [destruct s; simpl in *; now subst|].
    intros x. unfold dying. destruct (decide (x = cur)) as [->|Hx].
    - fold cur in EC. rewrite lookup_insert_eq, EC. simpl. f_equal. rewrite Ht, lookup_insert_eq in E2. simpl in E2.
      apply (inj Some) in E2. unfold T1 in *. destruct (decide (cur ∈ al)); [|reflexivity]. now rewrite E2.
    - rewrite !lookup_insert_ne, Ht, lookup_insert_ne by auto. destruct (decide (x ∈ al)); [reflexivity|].
      destruct (ts s !! x); reflexivity.
  Qed.

Lemma dying_inv code (ts' : tasks) x X' : (forall x, ts' !! x = dying cur code al x <$> ts s !! x) ->
    ts' !! x = Some X' -> exists X, ts s !! x = Some X /\ X' = dying cur code al x X.
  Proof. intros Ht. rewrite Ht. destruct (ts s !! x) as [X|]; [|easy]. intros [= <-]. eauto. Qed.

Lemma exit_mark_ok code (ts' : tasks) : (forall x, ts' !! x = dying cur code al x <$> ts s !! x) ->
    wait_ok (set_kif false (set_ts ts' s)) qs al zl W.
  Proof.
    intros Ht. destruct HO as [HS [Na Ca] [Nz Cz] HL Hpar Hpk Hlost].
    pose proof (dying_fields cur code al) as Hd.
    split; simpl.
    - destruct HS as [R L CC]. split; simpl; [|exact L|].
      + eapply rqs_view; [|exact R]. intros x T Hx ET. rewrite Ht, ET. eexists. split; [reflexivity|].
        destruct (Hd x T) as (En & Ep & Eh & _ & _ & _ & _ & Es & _). unfold sched_view. rewrite En, Ep, Eh, Es; [reflexivity|].
        intros ->. destruct (rqs_ready _ _ _ _ R Hx) as (T' & ET' & HsT). fold cur in EC. congruence.
      + intros j d Ed Hd0. destruct (CC _ _ Ed Hd0) as (T & ET & Hh & Hr). rewrite Ht, ET. eexists. split; [reflexivity|].
        destruct (Hd (current d) T) as (En & Ep & Eh & _ & _ & _ & _ & Es & _). rewrite En, Ep, Eh. split; [exact Hh|].
        destruct (decide (current d = cur)) as [E|E]; [|rewrite Es by exact E; exact Hr].
        unfold dying. rewrite !decide_True by exact E. easy.
    - split; [exact Na|]. eapply chain_frame; [|exact Ca]. intros x T _ ET. rewrite Ht, ET. eexists. split; [reflexivity|].
      apply Hd.
    - split; [exact Nz|]. eapply chain_frame; [|exact Cz]. intros x T _ ET. simpl. rewrite Ht, ET. eexists.
      split; [reflexivity|]. apply Hd.
    - exact HL.
    - intros x X' EX'. destruct (dying_inv _ _ _ _ Ht EX') as (X & EX & ->).
      destruct (Hd x X) as (_ & _ & _ & _ & _ & _ & _ & _ & [E|E]); [rewrite E|now left].
      destruct (Hpar _ _ EX) as [?|[P EP]]; [now left|]. right. rewrite Ht, EP. eauto.
    - intros p P' Hp EP' HsP. destruct (dying_inv _ _ _ _ Ht EP') as (P & EP & ->).
      destruct (Hd p P) as (En & Ep & Eh & _ & _ & _ & _ & Es & _). rewrite En, Ep, Eh.
      destruct (decide (p = cur)) as [->|Hne]; [|apply (Hpk p P); auto; now rewrite <- Es by exact Hne].
      unfold dying in HsP. rewrite !decide_True in HsP by reflexivity. easy.
    - intros p P' z Hp EP' HsP Hz. destruct (dying_inv _ _ _ _ Ht EP') as (P & EP & ->).
      destruct (decide (p = cur)) as [->|Hne].
      { unfold dying in HsP. rewrite !decide_True in HsP by reflexivity. easy. }
      destruct (Hd p P) as (_ & _ & _ & _ & _ & _ & Ew & Es & _). rewrite Es in HsP by exact Hne. rewrite Ew.
      specialize (Hlost p P z Hp EP HsP Hz). unfold matches, wants in *. rewrite Ht. simpl.
      destruct (ts s !! z) as [Z0|]; [|reflexivity]. simpl.
      destruct (Hd z Z0) as (_ & _ & _ & _ & _ & Epid & _ & _ & Epar). rewrite Epid.
      destruct Epar as [->| ->]; [exact Hlost|]. destruct (Hpk p P Hp EP HsP) as [Hp0 _].
      now rewrite (proj2 (Z.eqb_neq 0 p)) by auto.
  Qed.
End Exit.

(** What the handshake looks at in a task that stays parked. *)
Definition wait_view (T T' : task_t) : Prop :=
  pid T' = pid T /\ parent T' = parent T /\ wait_target T' = wait_target T /\ all_next T' = all_next T /\
  (state T' = TASK_STATE_BLOCKED -> sched_view T' = sched_view T).

(** Tasks that keep their views keep the handshake's state; the zombie list may
    change if no parked parent is waiting for what is new in it. *)
Lemma wait_ok_change s s' qs qs' al zl zl' W :
  wait_ok s qs al zl W -> sched_inv s' qs' -> zlist s' zl' -> length qs' = length qs ->
  tasks_lock s' = false /\ zombie_list_lock s' = false -> tasks_head s' = tasks_head s ->
  (forall x T, ts s !! x = Some T -> exists T', ts s' !! x = Some T' /\ wait_view T T') ->
  (forall x T', ts s' !! x = Some T' -> is_Some (ts s !! x)) ->
  (forall p P z, W p -> ts s' !! p = Some P -> state P = TASK_STATE_BLOCKED -> z ∈ zl' -> z ∉ zl ->
     matches p (wait_target P) (ts s') z = false) ->
  wait_ok s' qs' al zl' W.
Proof.
  intros [_ [Na Ca] _ _ Hpar Hpk Hlost] HS HZ Hlen HL Hth Hv Hdom Hnew.
  assert (Hback : forall x X', ts s' !! x = Some X' -> exists X, ts s !! x = Some X /\ wait_view X X').
  { intros x X' E. destruct (Hdom _ _ E) as [X EX]. exists X. split; [exact EX|].
    destruct (Hv _ _ EX) as (X2 & E2 & V). congruence. }
  split; auto.
  - split; [exact Na|]. rewrite Hth. eapply chain_frame; [|exact Ca]. intros x T _ ET.
    destruct (Hv _ _ ET) as (T' & ET' & V). exists T'. split; [exact ET' | apply V].
  - intros x X' E. destruct (Hback _ _ E) as (X & EX & V). destruct V as (_ & -> & _).
    destruct (Hpar _ _ EX) as [?|[P EP]]; [now left|]. right. destruct (Hv _ _ EP) as (P' & EP' & _). eauto.
  - intros p P' Hp EP' HsP. destruct (Hback _ _ EP') as (P & EP & V). destruct V as (_ & _ & _ & _ & V).
    specialize (V HsP). injection V as En Ep Es Eh.
    destruct (Hpk p P Hp EP) as (H0 & Hn & Hpv & j & l & Ej & El); [congruence|].
    split_and!; auto; [congruence | congruence|]. destruct (lookup_lt_is_Some_2 qs' j) as [l' El'].
    { apply lookup_lt_Some in El. lia. }
    exists j, l'. split; [congruence | exact El'].
  - intros p P' z Hp EP' HsP Hz. destruct (decide (z ∈ zl)) as [Hin|Hout]; [|now apply Hnew].
    destruct (Hback _ _ EP') as (P & EP & V). destruct V as (_ & _ & Ew & _ & V). specialize (V HsP).
    injection V as _ _ Es _. specialize (Hlost p P z Hp EP ltac:(congruence) Hin). rewrite Ew.
    unfold matches, wants in *. destruct (ts s' !! z) as [Z'|] eqn:EZ'; [|reflexivity].
    destruct (Hback _ _ EZ') as (Z0 & EZ & VZ). rewrite EZ in Hlost. destruct VZ as (-> & -> & _). exact Hlost.
Qed.

Lemma wait_view_znext T T1 T' : no_znext T1 = no_znext T -> wait_view T1 T' -> wait_view T T'.
Proof.
  intros U. unfold wait_view, sched_view. pose proof (f_equal pid U) as E1. pose proof (f_equal parent U) as E2.
  pose proof (f_equal wait_target U) as E3. pose proof (f_equal all_next U) as E4.
  pose proof (f_equal sched_view U) as E5. unfold sched_view in E5. simpl in *. now rewrite E1, E2, E3, E4, E5.
Qed.

(** Waking [p]: it is READY, the tasks already queued are relinked, and the
    others stay as they are. *)
Lemma woken_view ts1 p P L ts2 :
  ts1 !! p = Some P -> relinks L (<[p := set_state TASK_STATE_READY P]> ts1) ts2 ->
  (forall x T, ts1 !! x = Some T -> state T = TASK_STATE_BLOCKED -> x <> p -> x ∉ L) ->
  forall x T, ts1 !! x = Some T -> exists T', ts2 !! x = Some T' /\ wait_view T T' /\
    zombie_next T' = zombie_next T /\ (x = p -> state T' = TASK_STATE_READY).
Proof.
  intros EP RL HL x T ET.
  assert (exists T2, (<[p := set_state TASK_STATE_READY P]> ts1) !! x = Some T2 /\
            pid T2 = pid T /\ parent T2 = parent T /\ wait_target T2 = wait_target T /\ all_next T2 = all_next T /\
            zombie_next T2 = zombie_next T /\ (x = p /\ state T2 = TASK_STATE_READY \/ x <> p /\ T2 = T))
    as (T2 & ET2 & E1 & E2 & E3 & E4 & E5 & E6).
  { destruct (decide (x = p)) as [->|Hx].
    - exists (set_state TASK_STATE_READY P). rewrite lookup_insert_eq. rewrite EP in ET. injection ET as <-.
      split_and!; auto.
    - exists T. rewrite lookup_insert_ne by auto. split_and!; auto. }
  destruct (relinks_lookup _ _ _ _ _ RL ET2) as (T3 & ET3 & U3).
  assert (Es : state T3 = state T2) by (now apply (unlinked_get state)).
  exists T3. split; [exact ET3|]. unfold wait_view.
  rewrite (unlinked_get pid T2 T3), (unlinked_get parent T2 T3), (unlinked_get wait_target T2 T3),
    (unlinked_get all_next T2 T3), (unlinked_get zombie_next T2 T3) by easy.
  split_and!; auto; [|intros Hx; destruct E6 as [[_ E6]|[E6 _]]; congruence].
  intros Hb. destruct E6 as [[_ E6]|[Hx ->]]; [congruence|]. destruct RL as [O _].
  rewrite O in ET3; [congruence|]. apply (HL x T); auto. congruence.
Qed.

Definition parent_alive (tsx : tasks) (p : Z) : bool :=
  negb (p =? 0) && match tsx !! p with Some P => negb (state_eqb (state P) TASK_STATE_ZOMBIE) | None => false end.

Lemma zlist_add s zl cur C : zlist s zl -> cur ∉ zl -> cur <> 0 -> ts s !! cur = Some C ->
  zlist (set_zombie_list_head cur (set_ts (<[cur := set_zombie_next (zombie_list_head s) C]> (ts s)) s)) (cur :: zl).
Proof.
  intros [N C0] Hni H0 EC. split; [now apply list.NoDup_cons|]. simpl. split_and!; auto.
  exists (set_zombie_next (zombie_list_head s) C). rewrite lookup_insert_eq. split; [reflexivity|].
  eapply chain_frame; [|exact C0]. intros x X Hx EX. exists X. rewrite lookup_insert_ne; [auto|]. set_solver.
Qed.

Lemma exit_notify_spec s qs al zl W cur C :
  wait_ok s qs al zl W -> ts s !! cur = Some C -> cur <> 0 -> state C = TASK_STATE_ZOMBIE -> cur ∉ zl ->
  parent C <> cur ->
  (forall P, ts s !! parent C = Some P -> state P = TASK_STATE_BLOCKED -> W (parent C)) ->
  wp (task_exit_notify cur) (λ _ s', exists qs',
    wait_ok s' qs' al (if parent_alive (ts s) (parent C) then cur :: zl else zl) W /\
    (forall P, ts s !! parent C = Some P -> parent C <> 0 -> state P = TASK_STATE_BLOCKED ->
       wants (wait_target P) C = true ->
       on_rq qs' (parent C) /\ exists P', ts s' !! parent C = Some P' /\ state P' = TASK_STATE_READY)) s.
Proof.
  intros HO EC H0 HsC Hni Hself HW. unfold task_exit_notify, parent_alive.
  apply wp_bind. eapply wp_kget; [exact EC|]. apply wp_bind.
  destruct (Z.eqb_spec (parent C) 0) as [Hp0|Hp0]; simpl.
  { apply wp_ret, wp_when. exists qs. split; [exact HO | easy]. }
  destruct (wo_parent _ _ _ _ _ HO _ _ EC) as [?|[P EP]]; [easy|]. rewrite EP.
  apply wp_bind. eapply wp_kget; [exact EP|]. apply wp_ret, wp_when.
  destruct (state_eqb_spec (state P) TASK_STATE_ZOMBIE) as [Hz|Hnz]; simpl.
  { exists qs. split; [exact HO|]. intros P' [= <-]. congruence. }
  destruct (wo_locks _ _ _ _ _ HO) as [Lt Lz]. apply wp_bind. unfold spin_lock.
  apply wp_bind, wp_gets. simpl. rewrite Lz. apply wp_modify, wp_bind. unfold wake_parent, zombie_list_add_locked.
  apply wp_bind, wp_bind, wp_gets. simpl. apply wp_bind. eapply wp_kset; [exact EC|]. apply wp_modify. simpl.
  set (C1 := set_zombie_next (zombie_list_head s) C).
  assert (EP1 : (<[cur := C1]> (ts s)) !! parent C = Some P) by now rewrite lookup_insert_ne.
  apply wp_bind. eapply wp_kget; [apply lookup_insert_eq|]. simpl. apply wp_bind. eapply wp_kget; [exact EP1|].
  apply wp_bind. eapply wp_kget; [exact EP1|]. apply wp_bind. eapply wp_kget; [apply lookup_insert_eq|]. simpl.
  set (s1 := set_zombie_list_head cur (set_ts (<[cur := C1]> (ts s)) s)).
  assert (HS1 : sched_inv s1 qs).
  { eapply (sched_inv_view s); [|reflexivity | apply HO]. intros x T ET. subst s1. simpl.
    destruct (decide (x = cur)) as [->|]; [rewrite lookup_insert_eq | rewrite lookup_insert_ne by auto; eauto].
    rewrite EC in ET. injection ET as <-. exists C1. split; reflexivity. }
  assert (HZ1 : zlist s1 (cur :: zl)) by (apply zlist_add; auto; apply HO).
  change (set_zombie_list_head cur _) with (set_zombie_list_lock true s1). apply wp_when.
  assert (HC : wants (wait_target P) C = (wait_target P =? 0) || (wait_target P =? pid C)).
  { unfold wants. now rewrite (Z.eqb_sym (pid C)). }
  rewrite <- HC.
  assert (Hv1 : forall x T, ts s !! x = Some T -> exists T', ts s1 !! x = Some T' /\ no_znext T' = no_znext T).
  { intros x T ET. subst s1. simpl. destruct (decide (x = cur)) as [->|].
    - rewrite lookup_insert_eq. exists C1. split; [reflexivity|]. rewrite EC in ET. now injection ET as <-.
    - rewrite lookup_insert_ne by auto. eauto. }
  assert (Hd1 : forall x T, ts s1 !! x = Some T -> is_Some (ts s !! x)).
  { intros x T. subst s1. simpl. intros [[<- _]|[_ E]]%lookup_insert_Some; eauto. }
  assert (Hnowake : ~ (state P = TASK_STATE_BLOCKED /\ wants (wait_target P) C = true) ->
    exists qs', wait_ok (set_zombie_list_lock false (set_zombie_list_lock true s1)) qs' al (cur :: zl) W /\
      (forall P0, Some P = Some P0 -> parent C <> 0 -> state P0 = TASK_STATE_BLOCKED -> wants (wait_target P0) C = true ->
        on_rq qs' (parent C) /\ exists P', ts s1 !! parent C = Some P' /\ state P' = TASK_STATE_READY)).
  { intros Hno. exists qs. split; [|intros P0 [= <-]; tauto]. eapply (wait_ok_change s); eauto.
    - eapply sched_inv_view; [| |exact HS1]; [eauto | reflexivity].
    - intros x T ET. destruct (Hv1 _ _ ET) as (T' & ET' & U). exists T'. split; [exact ET'|].
      eapply wait_view_znext; [exact U|]. now split_and!.
    - intros p P' z Hp EP' HsP [->|?]%elem_of_cons ?; [|easy]. simpl in *. unfold matches. rewrite lookup_insert_eq.
      simpl. destruct (Z.eqb_spec (parent C) p) as [<-|]; [|reflexivity]. rewrite EP1 in EP'. injection EP' as <-.
      change (wants (wait_target P) C1) with (wants (wait_target P) C).
      destruct (wants (wait_target P) C); [tauto | reflexivity]. }
  destruct (state_eqb_spec (state P) TASK_STATE_BLOCKED) as [Hb|Hnb]; [destruct (wants (wait_target P) C) eqn:Ew|]; simpl.
  - destruct (wo_parked _ _ _ _ _ HO _ _ (HW _ EP Hb) EP Hb) as (_ & Hn & Hpv & j & l & Ej & El).
    apply wp_bind. eapply wp_kset; [exact EP1|].
    set (P1 := set_state TASK_STATE_READY P).
    assert (Hoff : ~ on_rq qs (parent C)) by (eapply rqs_off; [apply HS1 | exact EP1 | congruence]).
    eapply wp_mono.
    { apply (rq_enqueue_external_spec (set_zombie_list_lock true (set_ts (<[parent C := P1]> (ts s1)) s1)) qs (parent C) P1 j l); auto.
      - eapply (sched_inv_view (set_ts (<[parent C := P1]> (ts s1)) s1)); [eauto | reflexivity|].
        now apply sched_inv_state.
      - apply lookup_insert_eq. }
    intros [] s2 (ts2 & cs2 & -> & HI2 & RL & _). apply wp_modify. exists (<[j := l ++ [parent C]]> qs).
    assert (Hv2 : forall x T, ts s1 !! x = Some T -> exists T', ts2 !! x = Some T' /\ wait_view T T' /\
              zombie_next T' = zombie_next T /\ (x = parent C -> state T' = TASK_STATE_READY)).
    { eapply woken_view; [exact EP1 | exact RL|]. intros x Tx ETx HsX Hx [Hin|Hin%list_elem_of_singleton]%elem_of_app; [|easy].
      destruct (rqs_ready _ _ _ x (si_rqs _ _ HS1)) as (Tr & ETr & HsR); [exists j, l; auto | congruence]. }
    assert (Hd2 : forall x T, ts2 !! x = Some T -> is_Some (ts s1 !! x)).
    { intros x T ET. destruct RL as [_ U]. specialize (U x). simpl in U. rewrite ET in U.
      destruct (decide (x = parent C)) as [->|]; [eauto|]. rewrite lookup_insert_ne in U by auto.
      destruct (ts s1 !! x) eqn:Ex; [eauto|]. subst s1. simpl in *.
      now rewrite Ex in U. }
    split.
    + eapply (wait_ok_change s); eauto.
      * eapply sched_inv_view; [| |exact HI2]; [eauto | reflexivity].
      * destruct HZ1 as [N1 C1']. split; [exact N1|]. eapply chain_frame; [|exact C1']. intros x T _ ET. simpl.
        destruct (Hv2 _ _ ET) as (T' & ? & _ & ? & _). eauto.
      * apply length_insert.
      * intros x T ET. destruct (Hv1 _ _ ET) as (T1 & ET1 & U1). destruct (Hv2 _ _ ET1) as (T' & ? & V & _).
        exists T'. split; [assumption|]. eapply wait_view_znext; eauto.
      * intros x T ET. destruct (Hd2 _ _ ET). eauto.
      * intros p P' z Hp EP' HsP [->|?]%elem_of_cons ?; [|easy]. simpl in *.
        destruct (Hv2 cur C1) as (C2 & EC2 & V & _); [apply lookup_insert_eq|]. unfold matches. rewrite EC2.
        destruct V as (_ & -> & _). simpl. destruct (Z.eqb_spec (parent C) p) as [<-|]; [|reflexivity].
        destruct (Hv2 _ _ EP1) as (P2 & EP2 & _ & _ & HR). specialize (HR eq_refl). congruence.
    + intros P' E' _ _ _. destruct (Hv2 _ _ EP1) as (P2 & EP2 & _ & _ & HR). split; [|exists P2; auto].
      exists j, (l ++ [parent C]). split; [|set_solver].
      rewrite list_lookup_insert_eq; [reflexivity | now apply lookup_lt_Some in El].
  - apply wp_ret, wp_modify. apply Hnowake. intros []. congruence.
  - apply wp_ret, wp_modify. apply Hnowake. intros []. congruence.
Qed.

(** The dying task keeps its parent, and its parent's state. *)
Lemma dying_self cur code al C : parent C <> cur ->
  let C' := dying cur code al cur C in
  parent C' = parent C /\ state C' = TASK_STATE_ZOMBIE /\ pid C' = pid C.
Proof.
  intros Hs. unfold dying, detach_of. destruct (decide (cur = cur)) as [_|]; [|easy].
  destruct (decide (cur ∈ al)); simpl; [now rewrite (proj2 (Z.eqb_neq _ _) Hs)|].
  split_and!; reflexivity.
Qed.

Lemma exit_prepare_spec s qs al zl W i c C code :
  wait_ok s qs al zl W -> cpu_locals s !! i = Some c -> cpu_index s = Z.of_nat i ->
  current c <> 0 -> ts s !! current c = Some C -> state C = TASK_STATE_RUNNING ->
  parent C <> current c -> current c ∉ zl ->
  (forall P, ts s !! parent C = Some P -> state P = TASK_STATE_BLOCKED -> W (parent C)) ->
  wp (task_exit_prepare code) (λ _ s', exists qs',
    wait_ok s' qs' al (if parent_alive (ts s) (parent C) then current c :: zl else zl) W /\
    (forall P, ts s !! parent C = Some P -> parent C <> 0 -> state P = TASK_STATE_BLOCKED ->
       wants (wait_target P) C = true ->
       on_rq qs' (parent C) /\ exists P', ts s' !! parent C = Some P' /\ state P' = TASK_STATE_READY)) s.
Proof.
  intros HO Ec Ei H0 EC Hrun Hself Hni HW. unfold task_exit_prepare. apply wp_bind. eapply wp_mono.
  { eapply (exit_mark_spec s qs al zl W i c C); eauto. }
  intros r s1 (-> & ts' & -> & Ht).
  pose proof (exit_mark_ok s qs al zl W c C HO EC Hrun code ts' Ht) as HO1.
  destruct (dying_self (current c) code al C Hself) as (Ep & Es & Epid).
  set (C' := dying (current c) code al (current c) C) in *.
  assert (EC' : ts' !! current c = Some C') by now rewrite Ht, EC.
  assert (HP : forall P, ts s !! parent C = Some P -> exists P', ts' !! parent C = Some P' /\
            state P' = state P /\ wait_target P' = wait_target P).
  { intros P EP. rewrite Ht, EP. eexists. split; [reflexivity|].
    destruct (dying_fields (current c) code al (parent C) P) as (_ & _ & _ & _ & _ & _ & Ew & Est & _). auto. }
  eapply wp_mono.
  { apply (exit_notify_spec _ qs al zl W (current c) C' HO1); auto; rewrite ?Ep; auto.
    simpl. intros P'. rewrite Ht. destruct (ts s !! parent C) as [P|] eqn:EP; [|easy]. intros [= <-] Hb.
    apply (HW P); [reflexivity|].
    destruct (dying_fields (current c) code al (parent C) P) as (_ & _ & _ & _ & _ & _ & _ & Est & _).
    now rewrite <- Est by exact Hself. }
  intros [] s2 (qs' & HO2 & Hwake). rewrite Ep in *. simpl in HO2, Hwake. exists qs'. split.
  - replace (parent_alive (ts s) (parent C)) with (parent_alive ts' (parent C)); [exact HO2|].
    unfold parent_alive. f_equal. destruct (ts s !! parent C) as [P|] eqn:EP.
    + destruct (HP P eq_refl) as (P' & -> & -> & _). reflexivity.
    + rewrite Ht, EP. reflexivity.
  - intros P EP Hp0 Hb Hw. destruct (HP P EP) as (P' & EP' & Es' & Ew'). apply (Hwake P'); auto; [congruence|].
    unfold wants in *. now rewrite Ew', Epid.
Qed.

(** [free_dead_task] of multi/scheduler.c: everything a dead task still holds
    is released, once and in order, and the task leaves the task store. *)

(** The files a task has open, in descriptor order. *)
Definition open_files (fs : list (Z * Z)) : list Z := filter (λ f, f <> 0) fs.*1.

(** What reaping the task [z] does to the rest of the kernel. *)
Definition reap_events (kcr3 z : Z) (T : task_t) : list event :=
  [TtyDropTask z] ++ (VfsFilePut <$> open_files (fds T)) ++
  (if cr3 T =? kcr3 then [] else [FreeUserAddressSpace (cr3 T); FreeClonedPml4 (cr3 T)]) ++
  (if kstack_pages T =? 0 then [] else [RemoveKernelPages (kstack_base T) (kstack_pages T)]) ++
  [Kfree z].

(** Everything of a task but its place in the global task list. *)
Definition off_list (T : task_t) : task_t := set_all_next 0 (set_all_prev 0 T).

Lemma close_fds_spec s z T :
  ts s !! z = Some T -> length (fds T) = FD_MAX ->
  wp (loop (S FD_MAX) (close_fds_step z) 0) (λ _ s', exists fs', length fs' = FD_MAX /\
    s' = set_trace (trace s ++ (VfsFilePut <$> open_files (fds T)))
           (set_ts (<[z := set_fds fs' T]> (ts s)) s)) s.
Proof.
  intros ET Hlen.
  eapply (wp_loop (λ n k s', (n <= FD_MAX)%nat /\ k = Z.of_nat (FD_MAX - n) /\ exists fs', length fs' = FD_MAX /\
    drop (FD_MAX - n) fs' = drop (FD_MAX - n) (fds T) /\
    s' = set_trace (trace s ++ (VfsFilePut <$> open_files (take (FD_MAX - n) (fds T))))
           (set_ts (<[z := set_fds fs' T]> (ts s)) s)) FD_MAX); [|lia|].
  - split_and!; [lia | now rewrite Nat.sub_diag |]. exists (fds T). split_and!; auto.
    rewrite Nat.sub_diag, take_0. simpl. rewrite app_nil_r. rewrite insert_id by (now destruct T).
    now destruct s.
  - intros n k s1 (Hn & -> & fs' & Hf & Hd & ->). unfold close_fds_step.
    destruct (Z.ltb_spec (Z.of_nat (FD_MAX - n)) (Z.of_nat FD_MAX)) as [Hlt|Hge].
    2: { apply wp_ret. exists fs'. split; [exact Hf|]. rewrite take_ge by lia. reflexivity. }
    destruct n as [|n]; [lia|].
    assert (Hm : (FD_MAX - n = S (FD_MAX - S n))%nat) by lia. set (m := (FD_MAX - S n)%nat) in *.
    destruct (lookup_lt_is_Some_2 fs' m) as [e Ee]; [lia|].
    assert (EeT : fds T !! m = Some e).
    { rewrite <- (Nat.add_0_r m), <- lookup_drop, <- Hd, lookup_drop, Nat.add_0_r. exact Ee. }
    apply wp_bind. eapply wp_kget; [apply lookup_insert_eq|]. simpl. apply wp_bind.
    rewrite arr_get_nat, Ee. apply wp_ret, wp_bind, wp_when.
    unfold open_files.
    assert (Hdrop : forall fs2, drop (S m) fs2 = drop (S m) fs' -> drop (S m) fs2 = drop (S m) (fds T)).
    { intros fs2 ->. apply (f_equal (drop 1)) in Hd. rewrite !drop_drop in Hd.
      now replace (m + 1)%nat with (S m) in Hd by lia. }
    destruct (Z.eqb_spec e.1 0) as [He|He]; simpl.
    + apply wp_ret. exists n. split; [lia|]. split_and!; [lia | lia|]. exists fs'.
      split_and!; [exact Hf | rewrite Hm; now apply Hdrop|].
      rewrite Hm, (take_S_r _ _ _ EeT), fmap_app, list.filter_app, fmap_app. simpl.
      rewrite filter_cons_False by (intros Hc; now apply Hc). now rewrite app_nil_r.
    + unfold emit. apply wp_bind, wp_modify, wp_bind.
      rewrite arr_set_lt by lia. rewrite Nat2Z.id. apply wp_ret.
      eapply wp_kset; [apply lookup_insert_eq|]. apply wp_ret. exists n. split; [lia|]. split_and!; [lia | lia|].
      exists (<[m := (0, e.2)]> fs'). split_and!.
      * now rewrite length_insert.
      * rewrite Hm. apply Hdrop. apply drop_insert_lt. lia.
      * rewrite Hm, (take_S_r _ _ _ EeT), fmap_app, list.filter_app, fmap_app. simpl.
        rewrite filter_cons_True by exact He. simpl. rewrite insert_insert_eq, app_assoc. now destruct T.
Qed.

(** Unlinking a task from the global list touches its neighbours' links only. *)
Lemma tasks_list_remove_spec s z T :
  ts s !! z = Some T -> tasks_lock s = false ->
  (all_prev T = 0 \/ is_Some (ts s !! all_prev T)) -> (all_next T = 0 \/ is_Some (ts s !! all_next T)) ->
  wp (tasks_list_remove z) (λ _ s', exists ts' h',
    s' = set_tasks_head h' (set_ts ts' s) /\
    forall x, off_list <$> ts' !! x = off_list <$> ts s !! x) s.
Proof.
  intros ET Hl Hp Hn. unfold tasks_list_remove, spin_lock. apply wp_bind, wp_bind, wp_gets. simpl. rewrite Hl.
  apply wp_modify. apply wp_bind. eapply wp_kget; [exact ET|]. apply wp_bind. eapply wp_kget; [exact ET|].
  apply wp_bind, wp_gets. simpl.
  set (OK := λ s1 : kst, exists ts' h', s1 = set_tasks_lock true (set_tasks_head h' (set_ts ts' s)) /\
    forall x, off_list <$> ts' !! x = off_list <$> ts s !! x).
  assert (Hset : forall s1 x f, OK s1 -> is_Some (ts s !! x) -> (forall T, off_list (f T) = off_list T) ->
            wp (kset x f) (λ _, OK) s1).
  { intros s1 x f (ts' & h' & -> & HU) [X EX] Hf. destruct (ts' !! x) as [X'|] eqn:EX'.
    2: { specialize (HU x). now rewrite EX, EX' in HU. }
    eapply wp_kset; [exact EX'|]. exists (<[x := f X']> ts'), h'. split; [reflexivity|]. intros y.
    destruct (decide (y = x)) as [->|]; [|now rewrite lookup_insert_ne].
    now rewrite lookup_insert_eq, <- HU, EX'; simpl; rewrite Hf. }
  assert (H0 : OK (set_tasks_lock true s)) by (exists (ts s), (tasks_head s); split; [now destruct s | easy]).
  apply wp_bind. eapply wp_mono with (Q := λ _, OK).
  { destruct (Z.eqb_spec (all_prev T) 0) as [E|E]; simpl.
    - apply wp_when. destruct (_ =? z); [|exact H0]. apply wp_modify.
      exists (ts s), (all_next T). split; [now destruct s | easy].
    - apply Hset; [exact H0 | tauto | easy]. }
  intros [] s1 H1. apply wp_bind. eapply wp_mono with (Q := λ _, OK).
  { apply wp_when. destruct (Z.eqb_spec (all_next T) 0) as [E|E]; simpl; [exact H1|]. apply Hset; [exact H1 | tauto | easy]. }
  intros [] s2 H2. apply wp_bind. eapply wp_mono; [apply (Hset _ z); eauto|]. intros [] s3 H3.
  apply wp_bind. eapply wp_mono; [apply (Hset _ z); eauto|]. intros [] s4 (ts' & h' & -> & HU).
  apply wp_modify. exists ts', h'. split; [|exact HU]. destruct s. simpl in *. now subst.
Qed.

Lemma free_dead_task_spec s z T :
  ts s !! z = Some T -> z <> 0 -> length (fds T) = FD_MAX -> tasks_lock s = false ->
  (all_prev T = 0 \/ is_Some (ts s !! all_prev T)) -> (all_next T = 0 \/ is_Some (ts s !! all_next T)) ->
  wp (free_dead_task z) (λ _ s', exists ts' h',
    s' = set_trace (trace s ++ reap_events (kernel_cr3 s) z T) (set_tasks_head h' (set_ts ts' s)) /\
    ts' !! z = None /\ forall x, x <> z -> off_list <$> ts' !! x = off_list <$> ts s !! x) s.
Proof.
  intros ET Hz Hf Hl Hp Hn. unfold free_dead_task, reap_events. rewrite (proj2 (Z.eqb_neq _ _) Hz).
  unfold emit. apply wp_bind, wp_modify, wp_bind. eapply wp_mono; [apply (close_fds_spec _ z T); [exact ET | exact Hf]|].
  simpl. intros [] s1 (fs' & Hf' & ->). apply wp_bind, wp_gets. simpl.
  apply wp_bind. eapply wp_kget; [apply lookup_insert_eq|]. simpl. apply wp_bind.
  set (s1 := set_ts (<[z := set_fds fs' T]> (ts s)) s). set (tr := (trace s ++ [_]) ++ _).
  change (set_trace tr _) with (set_trace tr s1).
  set (e3 := if cr3 T =? kernel_cr3 s then [] else _). set (e4 := if kstack_pages T =? 0 then [] else _).
  eapply wp_mono with (Q := λ _ s2, s2 = set_trace (tr ++ e3) s1).
  { subst e3. apply wp_when. destruct (cr3 T =? kernel_cr3 s); simpl.
    - now rewrite app_nil_r.
    - apply wp_bind, wp_modify, wp_modify. simpl. now rewrite <- app_assoc. }
  intros [] s2 ->. apply wp_bind. eapply wp_kget; [apply lookup_insert_eq|]. simpl.
  apply wp_bind. eapply wp_kget; [apply lookup_insert_eq|]. simpl. apply wp_bind.
  eapply wp_mono with (Q := λ _ s2, s2 = set_trace ((tr ++ e3) ++ e4) s1).
  { subst e4. apply wp_when. destruct (kstack_pages T =? 0); simpl; [now rewrite app_nil_r | now apply wp_modify]. }
  intros [] s2 ->. apply wp_bind. eapply wp_mono.
  { apply (tasks_list_remove_spec _ z (set_fds fs' T)); simpl; [apply lookup_insert_eq | exact Hl | |].
    - destruct Hp as [?|[P EP]]; [now left|]. right. destruct (decide (all_prev T = z)) as [->|];
        [rewrite lookup_insert_eq | rewrite lookup_insert_ne by auto]; eauto.
    - destruct Hn as [?|[P EP]]; [now left|]. right. destruct (decide (all_next T = z)) as [->|];
        [rewrite lookup_insert_eq | rewrite lookup_insert_ne by auto]; eauto. }
  intros [] s2 (ts' & h' & -> & HU). apply wp_bind, wp_modify, wp_modify. simpl.
  exists (delete z ts'), h'. split_and!.
  - subst tr. unfold set_trace, set_tasks_head, set_ts. simpl. now rewrite <- !app_assoc.
  - apply lookup_delete_eq.
  - intros x Hx. rewrite lookup_delete_ne by auto. rewrite HU. simpl. now rewrite lookup_insert_ne by auto.
Qed.
