(* ===== verification/WaitThms.v ===== *)
(** Theorems on exiting and waiting: [task_exit] hands the corpse to a live
    parent and wakes it, [do_waitpid] parks only when there is nothing to
    collect, and reaping releases all a task held. *)

From S2P Require Import Prelude TaskQueue Scheduler SchedulerInv WaitExit.

(** * A parent (task 1) parked in waitpid on CPU 1, its child (task 2) running on CPU 0 *)

Definition demo_parent : task_t :=
  Task 4096 0 0 0 1 TASK_STATE_BLOCKED 20 0 0 1 (replicate FD_MAX (0, 0)) 0 (replicate 32 (0, 0)) 0 2 0 0 0 0 1 1 0 0 2 0.
Definition demo_child : task_t :=
  Task 8192 0 65536 4 2 TASK_STATE_RUNNING 20 0 0 0 (<[3%nat := (7, 0)]> (replicate FD_MAX (0, 0))) 0
    (replicate 32 (0, 0)) 1 0 0 0 0 0 1 1 0 0 0 1.
Definition demo_cpu0 : cpu_local_t := Cpu 2 0 (0, 0) false 0 false 0 None.
Definition demo_cpu1 : cpu_local_t := Cpu 0 0 (0, 0) false 0 false 0 None.
Definition demo_family : kst :=
  Kst (<[1 := demo_parent]> (<[2 := demo_child]> ∅)) [demo_cpu0; demo_cpu1] 0 true 1 false 0 false 3 false 0 2
    [0; 0] 4096 0 [].

Lemma demo_empty_queue tsx : queue tsx (0, 0) [].
Proof. split; [constructor | easy]. Qed.

Lemma demo_family_lookup x T : ts demo_family !! x = Some T ->
  x = 1 /\ T = demo_parent \/ x = 2 /\ T = demo_child.
Proof.
  unfold demo_family. simpl. intros [[<- <-]|[_ H]]%lookup_insert_Some; [now left|].
  apply lookup_insert_Some in H as [[<- <-]|[_ H]]; [now right | easy].
Qed.

Lemma demo_family_ok : wait_ok demo_family [[]; []] [1; 2] [] (λ x, x = 1).
Proof.
  split.
  - split.
    + split; [reflexivity|]. intros [|[|i]] q l Eq El; try easy; injection Eq as <-; injection El as <-;
        (split; [apply demo_empty_queue | set_solver]).
    + intros [|[|i]] c Ec; try easy; now injection Ec as <-.
    + intros [|[|i]] c Ec H0; try easy; injection Ec as <-; [|easy].
      exists demo_child. repeat split; reflexivity.
  - split; [apply (bool_decide_unpack _); vm_compute; exact I|]. simpl. split_and!; [reflexivity | easy|].
    exists demo_parent. split_and!; [reflexivity | reflexivity | easy|]. exists demo_child. split; reflexivity.
  - split; [constructor | reflexivity].
  - split; reflexivity.
  - intros x T [[-> ->]|[-> ->]]%demo_family_lookup; [now left|]. right. exists demo_parent. reflexivity.
  - intros p P -> [[_ ->]|[H _]]%demo_family_lookup _; [|easy]. split_and!; [easy | reflexivity | reflexivity|].
    exists 1%nat, []. split; reflexivity.
  - intros p P z _ _ _ Hz. set_solver.
Qed.

(** * task_exit *)

(** C7. No lost wakeup, the exiting side: in a state where no parked parent has
    a zombie to collect, [task_exit] of the current task (whose parent, if
    blocked, is blocked in [do_waitpid]) completes its handshake; afterwards
    again no parked parent has a zombie to collect, the corpse is on the zombie
    list if its parent is alive, and a parent that was waiting for it (by pid
    or for any child) is READY and on a run queue. *)
Theorem exit_wakes_waiting_parent s qs al zl W i c C code :
  wait_ok s qs al zl W -> cpu_locals s !! i = Some c -> cpu_index s = Z.of_nat i ->
  current c <> 0 -> ts s !! current c = Some C -> state C = TASK_STATE_RUNNING ->
  parent C <> current c -> current c ∉ zl ->
  (forall P, ts s !! parent C = Some P -> state P = TASK_STATE_BLOCKED -> W (parent C)) ->
  exists s' qs', task_exit_prepare code s = Some (tt, s') /\
    wait_ok s' qs' al (if parent_alive (ts s) (parent C) then current c :: zl else zl) W /\
    (forall P, ts s !! parent C = Some P -> parent C <> 0 -> state P = TASK_STATE_BLOCKED ->
       wants (wait_target P) C = true ->
       on_rq qs' (parent C) /\ exists P', ts s' !! parent C = Some P' /\ state P' = TASK_STATE_READY).
Proof.
  intros HO Ec Ei H0 EC Hrun Hself Hni HW.
  destruct (proj1 (wp_run _ _ _) (exit_prepare_spec s qs al zl W i c C code HO Ec Ei H0 EC Hrun Hself Hni HW))
    as ([] & s' & E & qs' & H). exists s', qs'. auto.
Qed.

Lemma exit_wakes_waiting_parent_witness :
  exists s' qs', task_exit_prepare 7 demo_family = Some (tt, s') /\
    wait_ok s' qs' [1; 2] [2] (λ x, x = 1) /\ on_rq qs' 1.
Proof.
  destruct (exit_wakes_waiting_parent demo_family [[]; []] [1; 2] [] (λ x, x = 1) 0 demo_cpu0 demo_child 7
    demo_family_ok eq_refl eq_refl) as (s' & qs' & E & HO & Hw).
  - easy.
  - reflexivity.
  - reflexivity.
  - easy.
  - intros H. inversion H.
  - intros P _ _. reflexivity.
  - exists s', qs'. split; [exact E|]. split; [exact HO|].
    assert (Hp : parent demo_child <> 0) by (intros H; discriminate H).
    exact (proj1 (Hw demo_parent eq_refl Hp eq_refl eq_refl)).
Defined.

(** * Reaping *)

(** [free_dead_task] releases all a dead task held, exactly once and in
    order: the tty is told, every open file is put in descriptor order, its own
    address space (never the kernel's) and its kernel stack are freed, and last
    the task itself; the task leaves the store and no other task changes but
    for its links in the global list. *)
Theorem free_dead_task_releases s z T :
  ts s !! z = Some T -> z <> 0 -> length (fds T) = FD_MAX -> tasks_lock s = false ->
  (all_prev T = 0 \/ is_Some (ts s !! all_prev T)) -> (all_next T = 0 \/ is_Some (ts s !! all_next T)) ->
  exists s', free_dead_task z s = Some (tt, s') /\
    trace s' = trace s ++ [TtyDropTask z] ++ (VfsFilePut <$> open_files (fds T)) ++
      (if cr3 T =? kernel_cr3 s then [] else [FreeUserAddressSpace (cr3 T); FreeClonedPml4 (cr3 T)]) ++
      (if kstack_pages T =? 0 then [] else [RemoveKernelPages (kstack_base T) (kstack_pages T)]) ++ [Kfree z] /\
    ts s' !! z = None /\ (forall x, x <> z -> off_list <$> ts s' !! x = off_list <$> ts s !! x).
Proof.
  intros ET Hz Hf Hl Hp Hn.
  destruct (proj1 (wp_run _ _ _) (free_dead_task_spec s z T ET Hz Hf Hl Hp Hn)) as ([] & s' & E & ts' & h' & -> & Hd & Hx).
  eexists. split; [exact E|]. auto.
Qed.

Lemma free_dead_task_releases_witness :
  exists s', free_dead_task 2 demo_family = Some (tt, s') /\
    trace s' = [TtyDropTask 2; VfsFilePut 7; FreeUserAddressSpace 8192; FreeClonedPml4 8192;
                RemoveKernelPages 65536 4; Kfree 2] /\ ts s' !! 2 = None.
Proof.
  destruct (free_dead_task_releases demo_family 2 demo_child) as (s' & E & Ht & Hd & _).
  - reflexivity.
  - easy.
  - reflexivity.
  - reflexivity.
  - right. exists demo_parent. reflexivity.
  - now left.
  - exists s'. split; [exact E|]. split; [|exact Hd]. rewrite Ht. vm_compute. reflexivity.
Defined.

(** * do_waitpid *)

(** A zombie can be reaped: its descriptor table is whole and its neighbours in
    the global list exist. *)
Definition reapable (tsx : tasks) (T : task_t) : Prop :=
  length (fds T) = FD_MAX /\ (all_prev T = 0 \/ is_Some (tsx !! all_prev T)) /\
  (all_next T = 0 \/ is_Some (tsx !! all_next T)).

Lemma claim_spec s z T us :
  ts s !! z = Some T -> z <> 0 -> reapable (ts s) T -> tasks_lock s = false ->
  wp (claim z us) (λ r s', r = WaitDone (to_s64 (pid T)) /\ ts s' !! z = None /\
    trace s' = trace s ++ reap_events (kernel_cr3 s) z T ++
               (if us =? 0 then [] else [UserStore us (exit_code T)])) s.
Proof.
  intros ET Hz (Hf & Hp & Hn) Hl. unfold claim. apply wp_bind. eapply wp_kget; [exact ET|].
  apply wp_bind. eapply wp_kget; [exact ET|]. apply wp_bind.
  eapply wp_mono; [apply (free_dead_task_spec s z T); auto|]. intros [] s1 (ts' & h' & -> & Hd & _).
  apply wp_bind, wp_when. destruct (us =? 0); simpl.
  - apply wp_ret. rewrite app_nil_r. auto.
  - unfold emit. apply wp_modify, wp_ret. simpl. now rewrite <- app_assoc.
Qed.

Lemma no_znext_lookup (tsx tsx' : tasks) x T :
  (forall x, no_znext <$> tsx' !! x = no_znext <$> tsx !! x) -> tsx !! x = Some T ->
  exists T', tsx' !! x = Some T' /\ no_znext T' = no_znext T.
Proof.
  intros H ET. specialize (H x). rewrite ET in H. destruct (tsx' !! x) as [T'|]; [|easy].
  exists T'. split; [reflexivity|]. now apply (inj Some) in H.
Qed.

(** Parking the current task, which no zombie matches, keeps the handshake's state. *)
Lemma park_ok s qs al zl W i c C want kf :
  wait_ok s qs al zl W -> cpu_locals s !! i = Some c -> current c <> 0 -> ts s !! current c = Some C ->
  state C = TASK_STATE_RUNNING -> (i < length qs)%nat ->
  (forall x, x ∈ zl -> matches (current c) want (ts s) x = false) ->
  wait_ok (set_zombie_list_lock false (set_kif kf
    (set_ts (<[current c := set_state TASK_STATE_BLOCKED (set_wait_target want C)]> (ts s)) s)))
    qs al zl (λ x, W x \/ x = current c).
Proof.
  intros [HS [Na Ca] [Nz Cz] [Lt Lz] Hpar Hpk Hlost] Ec H0 EC Hrun Hi Hno.
  set (C' := set_state TASK_STATE_BLOCKED (set_wait_target want C)).
  assert (Hoff : ~ on_rq qs (current c)) by (eapply rqs_off; [apply HS | exact EC | congruence]).
  assert (Hch : forall nx h l, (forall st w T, nx (set_state st (set_wait_target w T)) = nx T) ->
    chain nx (ts s) h l -> chain nx (<[current c := C']> (ts s)) h l).
  { intros nx h l Hnx. apply chain_frame. intros x T _ ET. destruct (decide (x = current c)) as [->|].
    - exists C'. rewrite lookup_insert_eq. split; [reflexivity|]. rewrite EC in ET. injection ET as <-. apply Hnx.
    - exists T. now rewrite lookup_insert_ne. }
  assert (Hm : forall p w z, matches p w (<[current c := C']> (ts s)) z = matches p w (ts s) z).
  { intros p w z. unfold matches. destruct (decide (z = current c)) as [->|]; [|now rewrite lookup_insert_ne].
    now rewrite lookup_insert_eq, EC. }
  destruct (si_cur _ _ HS _ _ Ec H0) as (C0 & EC0 & Hh & Hl). rewrite EC in EC0. injection EC0 as <-.
  split; simpl.
  - eapply (sched_inv_view (set_ts (<[current c := set_state TASK_STATE_BLOCKED C]> (ts s)) s));
      [|reflexivity | now apply sched_inv_state]. simpl.
    intros x T [[<- <-]|[Hx ET]]%lookup_insert_Some.
    + exists C'. now rewrite lookup_insert_eq.
    + exists T. now rewrite lookup_insert_ne.
  - split; [exact Na | now apply Hch].
  - split; [exact Nz | now apply Hch].
  - auto.
  - intros x T Hx. assert (exists T0, ts s !! x = Some T0 /\ parent T = parent T0) as (T0 & ET0 & ->).
    { apply lookup_insert_Some in Hx as [[<- <-]|[_ ET]]; eauto. }
    destruct (Hpar _ _ ET0) as [?|?]; [now left|]. right. apply lookup_insert_is_Some'. now right.
  - intros p P Hp [[<- <-]|[Hx ET]]%lookup_insert_Some HsP.
    + destruct (lookup_lt_is_Some_2 qs i Hi) as [l El]. destruct (Hl Hrun). split_and!; auto. exists i, l. auto.
    + destruct Hp as [Hp|?]; [|congruence]. now apply Hpk.
  - intros p P z Hp [[<- <-]|[Hx ET]]%lookup_insert_Some HsP Hz; rewrite Hm; [now apply Hno|].
    destruct Hp as [Hp|?]; [|congruence]. eapply Hlost; eauto.
Qed.

Lemma waitpid_park_spec s qs al zl W i c C want us :
  wait_ok s qs al zl W -> cpu_locals s !! i = Some c -> current c <> 0 -> ts s !! current c = Some C ->
  state C = TASK_STATE_RUNNING -> (i < length qs)%nat ->
  (forall z T, z ∈ zl -> ts s !! z = Some T -> reapable (ts s) T) ->
  wp (waitpid_park (current c) want us) (λ r s',
    (exists l1 z l2 T, zl = l1 ++ z :: l2 /\ ts s !! z = Some T /\ matches (current c) want (ts s) z = true /\
       (forall x, x ∈ l1 -> matches (current c) want (ts s) x = false) /\
       r = WaitDone (to_s64 (pid T)) /\ ts s' !! z = None /\
       trace s' = trace s ++ reap_events (kernel_cr3 s) z T ++ (if us =? 0 then [] else [UserStore us (exit_code T)])) \/
    ((forall x, x ∈ zl -> matches (current c) want (ts s) x = false) /\ r = WaitParked /\
       wait_ok s' qs al zl (λ x, W x \/ x = current c) /\
       exists C', ts s' !! current c = Some C' /\ state C' = TASK_STATE_BLOCKED /\ wait_target C' = want)) s.
Proof.
  intros HO Ec H0 EC Hrun Hi Hreap. destruct (wo_locks _ _ _ _ _ HO) as [Lt Lz].
  unfold waitpid_park, CliHelper, spin_lock. apply wp_bind, wp_modify, wp_bind, wp_bind, wp_gets. simpl. rewrite Lz.
  apply wp_modify, wp_bind. set (s1 := set_zombie_list_lock true (set_kif false s)).
  eapply wp_mono; [apply (zombie_take_spec s1 zl); apply HO|].
  intros z s2 [(-> & -> & Hno)|(l1 & l2 & -> & Hm & Hno & HZ & Hz & HU & ts' & h' & ->)]; simpl.
  - apply wp_bind. eapply wp_kset; [exact EC|]. apply wp_bind. eapply wp_kset; [apply lookup_insert_eq|].
    simpl. rewrite insert_insert_eq. apply wp_bind, wp_modify, wp_ret. right. split; [exact Hno|].
    split; [reflexivity|]. set (C' := set_state TASK_STATE_BLOCKED (set_wait_target want C)). split.
    + apply (park_ok s qs al zl W i c C want false); auto.
    + exists C'. simpl. now rewrite lookup_insert_eq.
  - rewrite (proj2 (Z.eqb_neq _ _) Hz). simpl. apply wp_bind, wp_modify, wp_bind, wp_modify. simpl in *.
    destruct (ts s !! z) as [T|] eqn:ET; [|unfold matches in Hm; now rewrite ET in Hm].
    destruct (no_znext_lookup _ _ _ _ HU ET) as (T' & ET' & U).
    destruct (Hreap z T) as (Hf & Hp & Hn); [set_solver | exact ET|].
    assert (Hsome : forall y, is_Some (ts s !! y) -> is_Some (ts' !! y)).
    { intros y [Y EY]. destruct (no_znext_lookup _ _ _ _ HU EY) as (Y' & EY' & _). eauto. }
    pose proof (f_equal fds U) as U1. pose proof (f_equal all_prev U) as U2. pose proof (f_equal all_next U) as U3.
    pose proof (f_equal pid U) as U4. pose proof (f_equal exit_code U) as U5.
    pose proof (f_equal (reap_events (kernel_cr3 s) z) U) as U6. simpl in U1, U2, U3, U4, U5.
    change (reap_events (kernel_cr3 s) z T' = reap_events (kernel_cr3 s) z T) in U6.
    eapply wp_mono.
    { apply (claim_spec _ z T'); [exact ET' | exact Hz | | exact Lt]. unfold reapable. simpl.
      rewrite U1, U2, U3. split_and!; [exact Hf | destruct Hp; auto | destruct Hn; auto]. }
    intros r s3 (-> & Hd & Ht). left. exists l1, z, l2, T. rewrite Ht, U4, U5. split_and!; auto.
    transitivity (trace s ++ reap_events (kernel_cr3 s) z T' ++ (if us =? 0 then [] else [UserStore us (exit_code T)]));
      [reflexivity | now rewrite U6].
Qed.

(** C8. No lost wakeup, the waiting side: [do_waitpid]'s park-and-recheck, run
    by the current task in a state where no parked parent has a zombie to
    collect, returns the pid of the first matching zombie, reaped with its exit
    code stored for the caller, if there is one; otherwise it parks the caller,
    and the caller, too, is then a parked parent with nothing to collect. *)
Theorem waitpid_parks_only_when_empty s qs al zl W i c C want us :
  wait_ok s qs al zl W -> cpu_locals s !! i = Some c -> current c <> 0 -> ts s !! current c = Some C ->
  state C = TASK_STATE_RUNNING -> (i < length qs)%nat ->
  (forall z T, z ∈ zl -> ts s !! z = Some T -> reapable (ts s) T) ->
  exists r s', waitpid_park (current c) want us s = Some (r, s') /\
    ((exists l1 z l2 T, zl = l1 ++ z :: l2 /\ ts s !! z = Some T /\ matches (current c) want (ts s) z = true /\
       (forall x, x ∈ l1 -> matches (current c) want (ts s) x = false) /\
       r = WaitDone (to_s64 (pid T)) /\ ts s' !! z = None /\
       trace s' = trace s ++ reap_events (kernel_cr3 s) z T ++ (if us =? 0 then [] else [UserStore us (exit_code T)])) \/
     ((forall x, x ∈ zl -> matches (current c) want (ts s) x = false) /\ r = WaitParked /\
       wait_ok s' qs al zl (λ x, W x \/ x = current c) /\
       exists C', ts s' !! current c = Some C' /\ state C' = TASK_STATE_BLOCKED /\ wait_target C' = want)).
Proof. intros. apply wp_run. now apply (waitpid_park_spec s qs al zl W i c C). Qed.

Lemma waitpid_parks_only_when_empty_witness :
  exists s', waitpid_park 2 0 0 demo_family = Some (WaitParked, s') /\
    wait_ok s' [[]; []] [1; 2] [] (λ x, x = 1 \/ x = 2).
Proof.
  destruct (waitpid_parks_only_when_empty demo_family [[]; []] [1; 2] [] (λ x, x = 1) 0 demo_cpu0 demo_child 0 0
    demo_family_ok eq_refl) as (r & s' & E & [(l1 & z & l2 & T & Ez & _)|(_ & -> & HO & _)]).
  - easy.
  - reflexivity.
  - reflexivity.
  - simpl. lia.
  - intros z T Hz. inversion Hz.
  - destruct l1; discriminate Ez.
  - exists s'. split; [exact E | exact HO].
Defined.
