(* ===== verification/Mutex.v ===== *)
(** multi/mutex.c: the sleeping mutex with direct hand-off. [mutex_lock] and
    [mutex_unlock] over the scheduler's state, the step relation of the tasks
    that use one mutex, and its invariant. *)

From S2P Require Import Prelude TaskQueue Scheduler SchedulerInv.

(** * The mutex and its operations *)

Record mutex_t := Mutex { guard : bool; mlocked : bool; owner : Z; mwait : Z * Z }.

Record mst := Mst { mk : kst; mm : mutex_t }.
Definition set_mk (v : kst) (s : mst) : mst := Mst v (mm s).
Definition set_mm (v : mutex_t) (s : mst) : mst := Mst (mk s) v.

#[global] Instance mst_if : HasIF mst := Field (λ s, kif (mk s)) (λ b s, set_mk (set_kif b (mk s)) s).

Definition in_kernel {A} (m : M kst A) : M mst A := λ s,
  match m (mk s) with Some (a, k) => Some (a, set_mk k s) | None => None end.
Definition guard_f : field mst bool :=
  Field (λ s, guard (mm s)) (λ b s, set_mm (Mutex b (mlocked (mm s)) (owner (mm s)) (mwait (mm s))) s).
Definition set_owner (b : bool) (o : Z) : M mst unit :=
  modify (λ s, set_mm (Mutex (guard (mm s)) b o (mwait (mm s))) s).
Definition set_wait (q : Z * Z) : M mst unit :=
  modify (λ s, set_mm (Mutex (guard (mm s)) (mlocked (mm s)) (owner (mm s)) q) s).

Definition mutex_init : M mst unit := modify (set_mm (Mutex false false 0 (0, 0))).

(** [mutex_lock] returns with the mutex, or parks the caller and calls
    [schedule]; when that call returns, so does [mutex_lock], restoring [ie]. *)
Inductive lock_result := Acquired | Parked (ie : bool).

Definition mutex_lock : M mst lock_result :=
  let* ie := lock_irqsave guard_f in
  let* b := gets (λ s, mlocked (mm s)) in
  if negb b then
    let* cur := in_kernel this_current in
    set_owner true cur;;
    unlock_irqrestore guard_f ie;;
    ret Acquired
  else
    let* me := in_kernel this_current in
    let* q := gets (λ s, mwait (mm s)) in
    let* q' := in_kernel (lift (enqueue q me)) in
    set_wait q';;
    in_kernel (kset me (set_state TASK_STATE_BLOCKED));;
    spin_unlock guard_f;;
    ret (Parked ie).
(** After [schedule] returned. *)
Definition mutex_lock_resume (ie : bool) : M mst unit := when ie StiHelper.

Definition mutex_unlock : M mst unit :=
  let* ie := lock_irqsave guard_f in
  let* q := gets (λ s, mwait (mm s)) in
  let* r := in_kernel (lift (pop q)) in
  set_wait r.2;;
  let waiter := r.1 in
  if negb (waiter =? 0) then
    let* b := gets (λ s, mlocked (mm s)) in
    set_owner b waiter;;
    in_kernel (kset waiter (set_state TASK_STATE_READY));;
    spin_unlock guard_f;;
    in_kernel (rq_enqueue_external waiter);;
    when ie StiHelper
  else
    set_owner false 0;;
    spin_unlock guard_f;;
    when ie StiHelper.

(** * The users of the mutex *)

(** Where a task is: outside, inside [mutex_lock], or between the return of
    [mutex_lock] and its call of [mutex_unlock]. *)
Inductive place := Outside | Waiting | Holding.

Definition runs_now (k : kst) (t : Z) : Prop :=
  exists i c T, cpu_index k = Z.of_nat i /\ cpu_locals k !! i = Some c /\ current c = t /\ t <> 0 /\
    ts k !! t = Some T /\ state T = TASK_STATE_RUNNING.

Definition upd {A} (f : Z -> A) (x : Z) (a : A) : Z -> A := λ y, if decide (y = x) then a else f y.

(** The rest of the kernel runs: it may do anything that keeps the scheduler's
    invariant and leaves the tasks parked on the mutex alone. *)
Definition env_step (k k' : kst) (pl : Z -> place) : Prop :=
  (exists qs, sched_inv k' qs) /\ length (cpu_locals k') = length (cpu_locals k) /\
  (forall x T, pl x = Waiting -> ts k !! x = Some T -> state T = TASK_STATE_BLOCKED -> ts k' !! x = Some T).

Inductive mutex_step : mst * (Z -> place) -> mst * (Z -> place) -> Prop :=
| step_acquire s s' pl t :
    runs_now (mk s) t -> pl t = Outside -> mutex_lock s = Some (Acquired, s') ->
    mutex_step (s, pl) (s', upd pl t Holding)
| step_park s s' pl t ie :
    runs_now (mk s) t -> pl t = Outside -> mutex_lock s = Some (Parked ie, s') ->
    mutex_step (s, pl) (s', upd pl t Waiting)
| step_resume s s' pl t ie :
    runs_now (mk s) t -> pl t = Waiting -> mutex_lock_resume ie s = Some (tt, s') ->
    mutex_step (s, pl) (s', upd pl t Holding)
| step_release s s' pl t :
    runs_now (mk s) t -> pl t = Holding -> mutex_unlock s = Some (tt, s') ->
    mutex_step (s, pl) (s', upd pl t Outside)
| step_env s k' pl :
    env_step (mk s) k' pl -> mutex_step (s, pl) (set_mk k' s, pl).

(** * The invariant *)

Record mutex_inv (s : mst) (pl : Z -> place) (qs : list (list Z)) (wl : list Z) : Prop := {
  mi_sched : sched_inv (mk s) qs;
  mi_guard : guard (mm s) = false;
  mi_queue : queue (ts (mk s)) (mwait (mm s)) wl;
  mi_parked : forall x, x ∈ wl -> pl x = Waiting /\ exists T j l, ts (mk s) !! x = Some T /\
    state T = TASK_STATE_BLOCKED /\ home_cpu T = Z.of_nat j /\ qs !! j = Some l;
  mi_waiting : forall x, pl x = Waiting -> x ∈ wl \/ x = owner (mm s);
  mi_holding : forall x, pl x = Holding -> x = owner (mm s);
  mi_owner : owner (mm s) <> 0 -> pl (owner (mm s)) <> Outside /\ owner (mm s) ∉ wl;
  mi_locked : mlocked (mm s) = negb (owner (mm s) =? 0);
  mi_free : owner (mm s) = 0 -> wl = [];
  mi_null : pl 0 = Outside }.

Lemma wp_in_kernel {A} (m : M kst A) Q s : wp m (λ a k, Q a (set_mk k s)) (mk s) -> wp (in_kernel m) Q s.
Proof. unfold wp, in_kernel. now destruct (m (mk s)) as [[a k]|]. Qed.

Lemma wp_this_current s i c Q :
  cpu_index s = Z.of_nat i -> cpu_locals s !! i = Some c -> Q (current c) s -> wp this_current Q s.
Proof. intros Ei Ec HQ. unfold this_current, this_cpu. apply wp_bind, wp_gets. rewrite Ei. eapply wp_cpu_get; [exact Ec | exact HQ]. Qed.

(** Interrupt-flag changes do not concern the invariant. *)
Lemma mutex_inv_if s pl qs wl b : mutex_inv s pl qs wl -> mutex_inv (set_mk (set_kif b (mk s)) s) pl qs wl.
Proof.
  intros [HS ? ? ? ? ? ? ? ? ?]. split; auto. eapply sched_inv_view; [| |exact HS]; [eauto | reflexivity].
Qed.

Lemma mutex_lock_spec s pl qs wl t :
  mutex_inv s pl qs wl -> runs_now (mk s) t -> pl t = Outside ->
  wp mutex_lock (λ r s', match r with
    | Acquired => owner (mm s) = 0 /\ mutex_inv s' (upd pl t Holding) qs wl
    | Parked _ => owner (mm s) <> 0 /\ mutex_inv s' (upd pl t Waiting) qs (wl ++ [t])
    end) s.
Proof.
  intros HM (i & c & T & Ei & Ec & <- & Ht0 & ET & Hrun) Hpl. pose proof HM as [HS HG HQ Hpk Hw Hh Ho Hlk Hfr Hnl].
  unfold mutex_lock, lock_irqsave, check_interrupts, CliHelper, spin_lock.
  apply wp_bind, wp_bind, wp_gets, wp_bind, wp_modify, wp_bind, wp_bind, wp_gets. simpl. rewrite HG.
  apply wp_modify, wp_ret, wp_bind, wp_gets. simpl. rewrite Hlk.
  destruct (Z.eqb_spec (owner (mm s)) 0) as [E0|E0]; simpl.
  - apply wp_bind, wp_in_kernel. eapply wp_this_current; [exact Ei | exact Ec|]. apply wp_bind, wp_modify.
    apply wp_bind. unfold unlock_irqrestore, spin_unlock, StiHelper. apply wp_bind, wp_modify, wp_when.
    rewrite (Hfr E0) in *.
    assert (HN : forall b, mutex_inv (Mst (set_kif b (mk s)) (Mutex false true (current c) (mwait (mm s))))
                   (upd pl (current c) Holding) qs []).
    { intros b. split; simpl; auto.
      - eapply sched_inv_view; [| |exact HS]; [eauto | reflexivity].
      - set_solver.
      - intros x. unfold upd. destruct (decide (x = current c)); [easy|]. intros Hx. destruct (Hw x Hx) as [?|Hxo]; [now left|].
        rewrite E0 in Hxo. subst x. congruence.
      - intros x. unfold upd. destruct (decide (x = current c)); [easy|]. intros Hx. pose proof (Hh x Hx) as Hxo. rewrite E0 in Hxo. subst x. congruence.
      - intros _. unfold upd. rewrite decide_True by reflexivity. split; [easy | set_solver].
      - now rewrite (proj2 (Z.eqb_neq _ _) Ht0).
      - unfold upd. now rewrite decide_False by auto. }
    destruct (kif (mk s)) eqn:Eif; [apply wp_modify|]; apply wp_ret; (split; [exact E0|]).
    + exact (HN true).
    + exact (HN false).
  - apply wp_bind, wp_in_kernel. eapply wp_this_current; [exact Ei | exact Ec|]. apply wp_bind, wp_gets. simpl.
    destruct (si_cur _ _ HS _ _ Ec Ht0) as (T' & ET' & _ & Hlinks). rewrite ET in ET'. injection ET' as <-.
    destruct (Hlinks Hrun) as [Hn Hp]. apply wp_bind, wp_in_kernel, wp_lift. simpl. eapply wp_mono.
    { apply (park_spec (mk s) qs _ wl (current c) T); auto. intros y Hy.
      destruct (Hpk y Hy) as (_ & Y & j & l & EY & HsY & _). eauto. }
    intros q' ts1 (T1 & ET1 & U1 & Hout & Hin & Q' & HI'). apply wp_bind, wp_modify, wp_bind, wp_in_kernel.
    eapply wp_kset; [exact ET1|]. apply wp_bind, wp_modify, wp_ret. split; [exact E0|]. simpl.
    set (T2 := set_state TASK_STATE_BLOCKED T1) in *. split; simpl; auto.
    + eapply sched_inv_view; [| |exact HI']; [eauto | reflexivity].
    + intros x Hx. unfold upd. destruct (decide (x = current c)) as [->|Hxc].
      * split; [reflexivity|]. destruct (si_cur _ _ HS _ _ Ec Ht0) as (T0 & ET0 & Hh0 & _).
        rewrite ET in ET0. injection ET0 as <-. destruct (unlinked_fields _ _ U1) as (_ & Eh & _).
        destruct (lookup_lt_is_Some_2 qs i) as [li Eli].
        { destruct (si_rqs _ _ HS) as [Hlen _]. rewrite length_fmap in Hlen. apply lookup_lt_Some in Ec. lia. }
        exists T2, i, li. rewrite lookup_insert_eq. split_and!; auto. simpl. congruence.
      * destruct (Hpk x) as (Hx' & X & j & l & EX & HsX & HhX & Ej); [set_solver|]. split; [exact Hx'|].
        destruct (Hin x X) as (X' & EX' & U'); [set_solver | exact EX|].
        destruct (unlinked_fields _ _ U') as (Es & Eh & _). exists X', j, l. rewrite lookup_insert_ne by auto.
        split_and!; congruence.
    + intros x. unfold upd. destruct (decide (x = current c)) as [->|]; [set_solver|].
      intros Hx. destruct (Hw x Hx); [left; set_solver | now right].
    + intros x. unfold upd. destruct (decide (x = current c)); [easy | auto].
    + intros _. destruct (Ho E0) as [Ho1 Ho2]. unfold upd. destruct (decide (owner (mm s) = current c)) as [Eo|]; [congruence|].
      split; [exact Ho1 | set_solver].
    + now rewrite (proj2 (Z.eqb_neq _ _) E0).
    + easy.
    + unfold upd. now rewrite decide_False by auto.
Qed.

(** The owner's [mutex_unlock] hands the mutex to the first waiter, which
    becomes runnable, or frees it. *)
Lemma mutex_unlock_spec s pl qs wl t :
  mutex_inv s pl qs wl -> pl t = Holding ->
  wp mutex_unlock (λ _ s', exists qs', mutex_inv s' (upd pl t Outside) qs' (tail wl) /\
    owner (mm s') = hd 0 wl /\ (wl <> [] -> on_rq qs' (hd 0 wl)) /\
    length (cpu_locals (mk s')) = length (cpu_locals (mk s))) s.
Proof.
  intros HM Hpl. pose proof HM as [HS HG HQ Hpk Hw Hh Ho Hlk Hfr Hnl].
  assert (Eto : t = owner (mm s)) by now apply Hh. assert (Ht0 : t <> 0) by (intros ->; congruence).
  unfold mutex_unlock, lock_irqsave, check_interrupts, CliHelper, spin_lock.
  apply wp_bind, wp_bind, wp_gets, wp_bind, wp_modify, wp_bind, wp_bind, wp_gets. simpl. rewrite HG.
  apply wp_modify, wp_ret, wp_bind, wp_gets. simpl. apply wp_bind, wp_in_kernel, wp_lift. simpl. eapply wp_mono.
  { apply (pop_parked_spec (mk s) qs _ wl); auto. intros y Hy.
    destruct (Hpk y Hy) as (_ & Y & j & l & EY & HsY & _). eauto. }
  intros r ts1 Hpop. apply wp_bind, wp_modify. simpl. destruct wl as [|a wl].
  - destruct Hpop as [-> ->]. simpl. apply wp_bind, wp_modify, wp_bind, wp_modify, wp_when. simpl.
    assert (HN : forall b, exists qs', mutex_inv (Mst (set_kif b (mk s)) (Mutex false false 0 (mwait (mm s))))
                   (upd pl t Outside) qs' [] /\ 0 = 0 /\ (@nil Z <> [] -> on_rq qs' 0) /\
                   length (cpu_locals (mk s)) = length (cpu_locals (mk s))).
    { intros b. exists qs. split_and!; auto; [|easy]. split; simpl; auto; unfold upd.
      - eapply sched_inv_view; [| |exact HS]; [eauto | reflexivity].
      - set_solver.
      - intros x. case_decide; [easy|]. intros Hx. destruct (Hw x Hx); [now left | congruence].
      - intros x. case_decide; [easy|]. intros Hx. pose proof (Hh x Hx). congruence.
      - now rewrite decide_False by auto. }
    destruct (kif (mk s)); [apply wp_modify; exact (HN true) | exact (HN false)].
  - destruct Hpop as (Ea & Q1 & HI1 & (Ha0 & A1 & EA1 & HnA & HpA) & RL). rewrite Ea, (proj2 (Z.eqb_neq _ _) Ha0). simpl.
    apply wp_bind, wp_gets, wp_bind, wp_modify, wp_bind, wp_in_kernel. simpl.
    eapply wp_kset; [exact EA1|]. apply wp_bind, wp_modify, wp_bind, wp_in_kernel. simpl.
    destruct (Hpk a) as (Hpa & A & j & l & EA & HsA & HhA & Ej); [set_solver|].
    destruct (relinks_lookup _ _ _ _ _ RL EA) as (A1' & EA1' & UA). rewrite EA1 in EA1'. injection EA1' as <-.
    destruct (unlinked_fields _ _ UA) as (EsA & EhA & _).
    eapply wp_mono.
    { eapply (wake_spec (set_kif false (set_ts ts1 (mk s))) qs a A1 j); auto; try congruence.
      - eapply sched_inv_view; [| |exact HI1]; [eauto | reflexivity].
      - now apply lookup_lt_Some in Ej. }
    intros [] k' (ts' & cs' & qs' & -> & HI2 & Hlen & Hon & Hcs & Hun & Hfr2). apply wp_when.
    simpl in Hun, Hfr2.
    assert (Hni : a ∉ wl) by (destruct HQ as [N _]; now apply list.NoDup_cons in N as [? _]).
    assert (Hbl : forall y, y ∈ wl -> exists Y1 Y, ts1 !! y = Some Y1 /\ ts (mk s) !! y = Some Y /\
               ts' !! y = Some Y1 /\ unlinked Y1 = unlinked Y /\ state Y1 = TASK_STATE_BLOCKED).
    { intros y Hy. destruct (Hpk y) as (_ & Y & _ & _ & EY & HsY & _); [set_solver|].
      destruct (relinks_lookup _ _ _ _ _ RL EY) as (Y1 & EY1 & U). exists Y1, Y.
      assert (state Y1 = TASK_STATE_BLOCKED) by (rewrite <- HsY; now apply (unlinked_get state)).
      split_and!; auto. apply Hfr2; [set_solver | exact EY1 | congruence]. }
    assert (HN : forall b, exists qs0, mutex_inv (Mst (set_kif b (set_cpu_locals cs' (set_ts ts' (mk s))))
                     (Mutex false (mlocked (mm s)) a r.2)) (upd pl t Outside) qs0 wl /\
                   a = a /\ (a :: wl <> [] -> on_rq qs0 a) /\ length cs' = length (cpu_locals (mk s))).
    { intros b. exists qs'. split_and!; auto.
      2: { unfold same_cpus in Hcs. apply (f_equal length) in Hcs. now rewrite !length_fmap in Hcs. }
      split; simpl; auto; unfold upd.
      - eapply sched_inv_view; [| |exact HI2]; [eauto | reflexivity].
      - destruct Q1 as [N1 D1]. split; [exact N1|]. eapply dls_frame; [|exact D1]. intros y Hy.
        destruct (Hbl y Hy) as (Y1 & Y & E1 & _ & E2 & _). congruence.
      - intros y Hy. destruct (Hbl y Hy) as (Y1 & Y & E1 & EY & E2 & U & HsY).
        destruct (Hpk y) as (Hpy & Y' & jy & ly & EY' & _ & HhY & Ejy); [set_solver|].
        destruct (Ho ltac:(congruence)) as [_ Hno].
        rewrite decide_False by (intros ->; apply Hno; rewrite <- Eto; set_solver). split; [exact Hpy|].
        destruct (lookup_lt_is_Some_2 qs' jy) as [l' El']; [apply lookup_lt_Some in Ejy; lia|].
        exists Y1, jy, l'. destruct (unlinked_fields _ _ U) as (_ & Eh & _). split_and!; auto. congruence.
      - intros x. case_decide; [easy|]. intros Hx. destruct (Hw x Hx) as [Hin|?]; [|congruence].
        apply elem_of_cons in Hin as [->|?]; auto.
      - intros x. case_decide; [easy|]. intros Hx. pose proof (Hh x Hx). congruence.
      - intros _. destruct (Ho ltac:(congruence)) as [_ Hno]. split; [|exact Hni].
        rewrite decide_False by (intros E; apply Hno; rewrite <- Eto, <- E; set_solver). congruence.
      - rewrite Hlk. now rewrite (proj2 (Z.eqb_neq _ _) Ha0), (proj2 (Z.eqb_neq (owner (mm s)) 0)) by congruence.
      - easy.
      - now rewrite decide_False by auto. }
    destruct (kif (mk s)); [apply wp_modify; exact (HN true) | exact (HN false)].
Qed.

(** Theorems on multi/mutex.c: mutual exclusion of every run of the tasks that
    use a mutex, completion of its operations, and first-come-first-served
    hand-off. *)

From S2P Require Import SchedulerInv.

Lemma mutex_step_inv s pl s' pl' :
  mutex_step (s, pl) (s', pl') -> (exists qs wl, mutex_inv s pl qs wl) -> exists qs wl, mutex_inv s' pl' qs wl.
Proof.
  intros St (qs & wl & HM). remember (s, pl) as a eqn:Ea. remember (s', pl') as b eqn:Eb.
  destruct St as [? ? ? t Hr Ht E|? ? ? t ie Hr Ht E|? ? ? t ie Hr Ht E|? ? ? t Hr Ht E|? k' ? He];
    injection Ea as -> ->; injection Eb as <- <-.
  - pose proof (mutex_lock_spec _ _ _ _ _ HM Hr Ht) as H. unfold wp in H. rewrite E in H. destruct H. eauto.
  - pose proof (mutex_lock_spec _ _ _ _ _ HM Hr Ht) as H. unfold wp in H. rewrite E in H. destruct H. eauto.
  - assert (HM' : mutex_inv s pl qs wl -> mutex_inv s (upd pl t Holding) qs wl).
    { intros [HS HG HQ Hpk Hw Hh Ho Hlk Hfr Hnl]. destruct Hr as (i & c & T & _ & _ & _ & Ht0 & ET & Hrun).
      assert (Hto : t = owner (mm s)).
      { destruct (Hw t Ht) as [Hin|?]; [|assumption]. destruct (Hpk t Hin) as (_ & T' & _ & _ & ET' & HsT & _). congruence. }
      assert (Hnw : t ∉ wl) by (rewrite Hto; apply Ho; congruence).
      split; auto; unfold upd.
      - intros x Hx. rewrite decide_False by set_solver. auto.
      - intros x. case_decide; [easy | auto].
      - intros x. case_decide; [congruence | auto].
      - intros H0. rewrite decide_True by congruence. now split; [|apply Ho].
      - now rewrite decide_False by auto. }
    unfold mutex_lock_resume, when in E. destruct ie; injection E as <-; exists qs, wl.
    + apply (mutex_inv_if s). auto.
    + auto.
  - pose proof (mutex_unlock_spec _ _ _ _ _ HM Ht) as H. unfold wp in H. rewrite E in H.
    destruct H as (qs' & H & _). eauto.
  - destruct He as ((qs' & HS') & Hlen & Hkeep). exists qs', wl.
    destruct HM as [HS HG HQ Hpk Hw Hh Ho Hlk Hfr Hnl]. split; auto; simpl.
    + destruct HQ as [N D]. split; [exact N|]. eapply dls_frame; [|exact D]. intros x Hx.
      destruct (Hpk x Hx) as (Hpx & T & _ & _ & ET & HsT & _). rewrite ET. now apply Hkeep.
    + intros x Hx. destruct (Hpk x Hx) as (Hpx & T & j & l & ET & HsT & HhT & Ej). split; [exact Hpx|].
      destruct (lookup_lt_is_Some_2 qs' j) as [l' El'].
      { destruct (si_rqs _ _ HS) as [L1 _], (si_rqs _ _ HS') as [L2 _]. rewrite !length_fmap in *.
        apply lookup_lt_Some in Ej. lia. }
      exists T, j, l'. split_and!; auto.
Qed.

(** A mutex just initialised, in any kernel that satisfies the scheduler's invariant. *)
Lemma mutex_init_inv k m qs : sched_inv k qs ->
  wp mutex_init (λ _ s', mutex_inv s' (λ _, Outside) qs []) (Mst k m).
Proof.
  intros HI. apply wp_modify. split; simpl; auto; try easy. split; [constructor | easy].
Qed.

Inductive mutex_run : mst * (Z -> place) -> Prop :=
| run_init k m qs s : sched_inv k qs -> mutex_init (Mst k m) = Some (tt, s) -> mutex_run (s, λ _, Outside)
| run_step a b : mutex_run a -> mutex_step a b -> mutex_run b.

Lemma mutex_run_inv s pl : mutex_run (s, pl) -> exists qs wl, mutex_inv s pl qs wl.
Proof.
  intros H. remember (s, pl) as a eqn:Ea. revert s pl Ea.
  induction H as [k m qs s0 HI E|[s1 pl1] b H IH St]; intros s pl Ea.
  - injection Ea as <- <-. pose proof (mutex_init_inv k m qs HI) as H. unfold wp in H. rewrite E in H. eauto.
  - subst b. eapply mutex_step_inv; [exact St | now apply IH].
Qed.

(** The demo system of the scheduler with its mutex initialised, and task 1 holding it. *)
Definition demo_mst : mst := Mst demo_kernel (Mutex false false 0 (0, 0)).

Lemma demo_runs : runs_now (mk demo_mst) 1.
Proof.
  exists 0%nat, demo_cpu, (demo_task 1 TASK_STATE_RUNNING 0 0). repeat split; try reflexivity. easy.
Qed.

(** C9. Mutual exclusion: in every run that starts from an initialised mutex
    and in which tasks call [mutex_lock] and [mutex_unlock] properly (a task
    unlocks only what it holds) while the rest of the kernel runs in between
    and leaves the tasks parked on the mutex alone, no two tasks are ever
    between the return of [mutex_lock] and the call of [mutex_unlock]. *)
Theorem mutex_excludes s pl t1 t2 :
  mutex_run (s, pl) -> pl t1 = Holding -> pl t2 = Holding -> t1 = t2.
Proof.
  intros H H1 H2. destruct (mutex_run_inv _ _ H) as (qs & wl & HM).
  rewrite (mi_holding _ _ _ _ HM _ H1), (mi_holding _ _ _ _ HM _ H2). reflexivity.
Qed.

Lemma mutex_excludes_witness :
  exists s pl, mutex_run (s, pl) /\ pl 1 = Holding /\ forall t, pl t = Holding -> t = 1.
Proof.
  assert (Hrun : exists s, mutex_run (s, upd (λ _, Outside) 1 Holding)).
  { eexists. eapply run_step.
    - apply (run_init demo_kernel (Mutex true true 9 (9, 9)) [[2; 3]] demo_mst demo_inv eq_refl).
    - apply (step_acquire demo_mst _ _ 1); [exact demo_runs | reflexivity | vm_compute; reflexivity]. }
  destruct Hrun as [s Hrun]. exists s, (upd (λ _, Outside) 1 Holding). split; [exact Hrun|]. split; [reflexivity|].
  intros t Ht. apply (mutex_excludes s _ t 1 Hrun); [exact Ht | reflexivity].
Defined.

(** Hand-off: an unlock by the holder always completes, the next owner is
    the task that has waited longest and it becomes runnable (or the mutex
    becomes free if nobody waits), the other waiters keep their order, and a
    task that calls [mutex_lock] always either gets a free mutex at once or is
    appended to the waiters. *)
Theorem mutex_hands_off_fifo s pl qs wl t :
  mutex_inv s pl qs wl ->
  (pl t = Holding -> exists s' qs', mutex_unlock s = Some (tt, s') /\
     mutex_inv s' (upd pl t Outside) qs' (tail wl) /\ owner (mm s') = hd 0 wl /\
     (wl <> [] -> on_rq qs' (hd 0 wl))) /\
  (pl t = Outside -> runs_now (mk s) t -> exists r s', mutex_lock s = Some (r, s') /\
     match r with
     | Acquired => owner (mm s) = 0 /\ mutex_inv s' (upd pl t Holding) qs wl
     | Parked _ => owner (mm s) <> 0 /\ mutex_inv s' (upd pl t Waiting) qs (wl ++ [t])
     end).
Proof.
  intros HM. split.
  - intros Ht. destruct (proj1 (wp_run _ _ _) (mutex_unlock_spec _ _ _ _ _ HM Ht)) as ([] & s' & E & qs' & H1 & H2 & H3 & _).
    exists s', qs'. auto.
  - intros Ht Hr. apply wp_run. now apply mutex_lock_spec.
Qed.

Lemma mutex_hands_off_fifo_witness :
  exists r s', mutex_lock demo_mst = Some (r, s') /\ match r with Acquired => True | Parked _ => False end.
Proof.
  assert (HM : mutex_inv demo_mst (λ _, Outside) [[2; 3]] []).
  { pose proof (mutex_init_inv demo_kernel (Mutex false false 0 (0, 0)) [[2; 3]] demo_inv) as H. exact H. }
  destruct (proj2 (mutex_hands_off_fifo demo_mst (λ _, Outside) [[2; 3]] [] 1 HM) eq_refl demo_runs)
    as (r & s' & E & Hr).
  exists r, s'. split; [exact E|]. destruct r; [exact I | now destruct Hr].
Defined.
