(* ===== verification/Signal.v ===== *)
(** multi/signal.c: sending, installing and delivering signals, and the return
    from a handler. The user's memory is a byte-addressed map; whether a user
    page is mapped is asked of paging/pml4_clone.c ([lookup_user_in_pml4]),
    an argument here. *)

From S2P Require Import Prelude BitMath Bytes TaskQueue Scheduler.

(** * Signal numbers (interrupts/signal_defs.h) *)
Definition NSIG : Z := 32.
Definition SIGINT : Z := 2.
Definition SIGKILL : Z := 9.
Definition SIGPIPE : Z := 13.
Definition SIGCHLD : Z := 17.
Definition SIGCONT : Z := 18.
Definition SIGSTOP : Z := 19.
Definition SIG_DFL : Z := 0.
Definition SIG_IGN : Z := 1.

Definition signo_valid (s : Z) : bool := (0 <? s) && (s <? NSIG).

(** * Sending *)

Definition signal_send (t signo : Z) : M kst unit :=
  if (t =? 0) || negb (signo_valid signo) then ret tt
  else
    kset t (λ T, set_pending_signals (Z.lor (pending_signals T) (Z.shiftl 1 (signo - 1))) T);;
    let* st := kget t state in
    when (state_eqb st TASK_STATE_BLOCKED) (
      kset t (set_state TASK_STATE_READY);;
      rq_enqueue_external t).

Definition send_pgrp_step (pgrp signo t : Z) : M kst (Z + unit) :=
  if t =? 0 then ret (inr tt)
  else
    let* g := kget t pgid in
    let* st := kget t state in
    when ((g =? pgrp) && negb (state_eqb st TASK_STATE_ZOMBIE)) (signal_send t signo);;
    let* nx := kget t all_next in
    ret (inl nx).
Definition signal_send_pgrp (pgrp signo : Z) : M kst unit :=
  if (pgrp =? 0) || negb (signo_valid signo) then ret tt
  else
    spin_lock tasks_lock_f;;
    let* h := gets tasks_head in
    walk (send_pgrp_step pgrp signo) h;;
    spin_unlock tasks_lock_f.

(** * Installing *)

Definition signal_install (signo handler restorer : Z) : M kst Z :=
  if negb (signo_valid signo) then ret (- EINVAL)
  else if (signo =? SIGKILL) || (signo =? SIGSTOP) then ret (- EINVAL)
  else
    let* t := this_current in
    let* acts := kget t signal_actions in
    let* acts' := of_option (arr_set acts signo (handler, restorer)) in
    kset t (set_signal_actions acts');;
    ret 0.

Definition default_terminates (signo : Z) : bool := negb ((signo =? SIGCHLD) || (signo =? SIGCONT)).

(** * The trap frame (tables/idt_types.h) *)

Record interrupt_frame_t := Frame {
  f_gs : Z; f_fs : Z;
  f_r15 : Z; f_r14 : Z; f_r13 : Z; f_r12 : Z; f_r11 : Z; f_r10 : Z; f_r9 : Z; f_r8 : Z;
  f_rdi : Z; f_rsi : Z; f_rbp : Z; f_rsp : Z; f_rbx : Z; f_rdx : Z; f_rcx : Z; f_rax : Z;
  f_int_no : Z; f_err_code : Z;
  f_rip : Z; f_cs : Z; f_qflags : Z; f_userrsp : Z; f_ss : Z }.

Definition frame_words (f : interrupt_frame_t) : list Z :=
  [f_gs f; f_fs f; f_r15 f; f_r14 f; f_r13 f; f_r12 f; f_r11 f; f_r10 f; f_r9 f; f_r8 f;
   f_rdi f; f_rsi f; f_rbp f; f_rsp f; f_rbx f; f_rdx f; f_rcx f; f_rax f;
   f_int_no f; f_err_code f; f_rip f; f_cs f; f_qflags f; f_userrsp f; f_ss f].
Definition words_frame (ws : list Z) : option interrupt_frame_t :=
  match ws with
  | [a1; a2; a3; a4; a5; a6; a7; a8; a9; a10; a11; a12; a13; a14; a15; a16; a17; a18; a19; a20; a21; a22; a23; a24; a25] =>
      Some (Frame a1 a2 a3 a4 a5 a6 a7 a8 a9 a10 a11 a12 a13 a14 a15 a16 a17 a18 a19 a20 a21 a22 a23 a24 a25)
  | _ => None
  end.
Definition FRAME_SIZE : Z := 200.

(** The frame with the handler's entry state. *)
Definition enter_handler (f : interrupt_frame_t) (handler rsp signo : Z) : interrupt_frame_t :=
  Frame (f_gs f) (f_fs f) (f_r15 f) (f_r14 f) (f_r13 f) (f_r12 f) (f_r11 f) (f_r10 f) (f_r9 f) (f_r8 f)
    signo (f_rsi f) (f_rbp f) (f_rsp f) (f_rbx f) (f_rdx f) (f_rcx f) (f_rax f)
    (f_int_no f) (f_err_code f) handler (f_cs f) (f_qflags f) rsp (f_ss f).

(** * Delivery *)

Record sst := Sst { sk : kst; umem : memory }.
Definition in_kst {A} (m : M kst A) : M sst A := λ s,
  match m (sk s) with Some (a, k) => Some (a, Sst k (umem s)) | None => None end.

(** How the tail of a system call goes on: with a frame, or not at all because
    the task exited. *)
Inductive delivery := Resume (f : interrupt_frame_t) | Exited (o : outcome).

Definition kill_current (code : Z) : M sst delivery :=
  let* o := in_kst (task_exit code) in ret (Exited o).

Section Delivery.
  (** [lookup_user_in_pml4(cr3, va, &phys)]: the physical page, or none. *)
  Context (lookup_user : Z -> Z -> option Z).

  (** A store through user addresses with the task's page tables [c] loaded; on
      a page that is not mapped it faults in ring 0. *)
Definition user_store (c a : Z) (l : list Z) : M sst unit :=
    if forallb (λ i, bool_decide (is_Some (lookup_user c (Z.land (wrap64 (a + i)) (not64 4095))))) (seqZ 0 (Z.of_nat (length l)))
    then modify (λ s, Sst (sk s) (store_bytes (umem s) a l))
    else undef.

  (** The pages from [va] up to [hi] are all mapped. *)
Definition probe_step (c hi va : Z) : M sst (Z + bool) :=
    if va <? hi then
      match lookup_user c va with None => ret (inr false) | Some _ => ret (inl (wrap64 (va + 4096))) end
    else ret (inr true).
  (** The frame and the return address span at most three pages. *)
Definition probe (c lo hi : Z) : M sst bool := loop 4 (probe_step c hi) lo.

Definition push_frame (frame : interrupt_frame_t) (t handler restorer signo : Z) : M sst delivery :=
    let* c := in_kst (kget t cr3) in
    let user_rsp := Z.land (wrap64 (f_userrsp frame - FRAME_SIZE)) (not64 15) in
    let probe_lo := Z.land user_rsp (not64 4095) in
    let probe_hi := Z.land (wrap64 (user_rsp + FRAME_SIZE + 8 + 4095)) (not64 4095) in
    let* ok := probe c probe_lo probe_hi in
    if negb ok then kill_current (Z.land signo 127)
    else
      user_store c user_rsp (words_bytes (frame_words frame));;
      let rsp := wrap64 (user_rsp - 8) in
      user_store c rsp (le_encode 8 restorer);;
      ret (Resume (enter_handler frame handler rsp signo)).

Definition signal_deliver_on_return (frame : interrupt_frame_t) : M sst delivery :=
    if negb (f_cs frame =? 0x23) then ret (Resume frame)
    else
      let* t := in_kst this_current in
      let* pending := in_kst (kget t pending_signals) in
      if pending =? 0 then ret (Resume frame)
      else
        let* c := of_option (ctzll pending) in
        let signo := c + 1 in
        in_kst (kset t (λ T, set_pending_signals (Z.land (pending_signals T) (not64 (Z.shiftl 1 (signo - 1)))) T));;
        if signo =? SIGKILL then kill_current (Z.land signo 127)
        else
          let* acts := in_kst (kget t signal_actions) in
          let* act := of_option (arr_get acts signo) in
          let '(handler, restorer) := act in
          if handler =? SIG_IGN then ret (Resume frame)
          else if handler =? SIG_DFL then
            if default_terminates signo then
              let* tty := in_kst (kget t ctty) in
              let* g := in_kst (kget t pgid) in
              in_kst (emit (PtyDropFgOutput tty g));;
              kill_current (Z.land signo 127)
            else ret (Resume frame)
          else if restorer =? 0 then kill_current (Z.land signo 127)
          else push_frame frame t handler restorer signo.

  (** [SYS_SIGRETURN]: [inl] is an error code, [inr] the frame the CPU resumes with. *)
Definition signal_sigreturn (frame : interrupt_frame_t) : M sst (Z + interrupt_frame_t) :=
    let saved_va := f_userrsp frame in
    if USER_LIMIT <=? saved_va then ret (inl (- EINVAL))
    else
      let* s := get in
      let* l := of_option (load_bytes (umem s) saved_va 200) in
      let* saved := of_option (words_frame (bytes_words 25 l)) in
      if negb (f_cs saved =? 0x23) || negb (f_ss saved =? 0x1B) then ret (inl (- EINVAL))
      else ret (inr saved).
End Delivery.

(** Theorems on multi/signal.c: the frame pushed for a handler is the frame
    [SYS_SIGRETURN] restores, and the probe of the user stack misses the slot
    of the return address. *)

From S2P Require Import SchedulerInv Mutex.

Lemma wp_in_kst {A} (m : M kst A) Q s : wp m (λ a k, Q a (Sst k (umem s))) (sk s) -> wp (in_kst m) Q s.
Proof. unfold wp, in_kst. now destruct (m (sk s)) as [[a k]|]. Qed.

Lemma frame_roundtrip f : words_frame (frame_words f) = Some f.
Proof. now destruct f. Qed.

(** Aligning down to 2^n. *)
Lemma land_not_mask x n : 0 <= n < 64 -> is_word 64 x -> Z.land x (not64 (2 ^ n - 1)) = x - x mod 2 ^ n.
Proof.
  intros Hn Hx. unfold is_word in Hx.
  assert (E : not64 (2 ^ n - 1) = 2 ^ 64 - 2 ^ n).
  { unfold not64, wrap, Z.lnot. assert (0 < 2 ^ n <= 2 ^ 63) by (split; [lia | apply Z.pow_le_mono_r; lia]).
    symmetry. apply (Z.mod_unique _ _ (-1)); lia. }
  rewrite E. apply Z.bits_inj'. intros k Hk. rewrite Z.land_spec.
  replace (x - x mod 2 ^ n) with (Z.shiftl (Z.shiftr x n) n).
  2: { rewrite Z.shiftl_mul_pow2, Z.shiftr_div_pow2 by lia. pose proof (Z.div_mod x (2 ^ n)). lia. }
  rewrite Z.shiftl_spec by lia.
  replace (2 ^ 64 - 2 ^ n) with (Z.shiftl (Z.ones (64 - n)) n).
  2: { rewrite Z.shiftl_mul_pow2, Z.ones_equiv by lia. rewrite <- Z.sub_1_r, Z.mul_sub_distr_r, <- Z.pow_add_r by lia.
       replace (64 - n + n) with 64 by lia. lia. }
  rewrite Z.shiftl_spec by lia. destruct (Z.ltb_spec k n) as [Hlt|Hge].
  { rewrite !(Z.testbit_neg_r _ (k - n)) by lia. apply andb_false_r. }
  rewrite Z.shiftr_spec by lia. replace (k - n + n) with k by lia.
  destruct (Z.ltb_spec k 64) as [H64|H64].
  - rewrite Z.ones_spec_low by lia. apply andb_true_r.
  - rewrite Z.ones_spec_high by lia. rewrite andb_false_r. symmetry.
    apply (Z.bits_above_log2 x k); [lia|]. destruct (Z.eq_dec x 0) as [->|]; [simpl; lia|].
    apply Z.log2_lt_pow2; [lia|]. assert (2 ^ 64 <= 2 ^ k) by (apply Z.pow_le_mono_r; lia). lia.
Qed.

(** The page of an address, as the table walk takes it. *)
Definition page (x : Z) : Z := x - x mod 4096.
Lemma page_mask x : is_word 64 x -> Z.land x (not64 4095) = page x.
Proof. intros Hx. change 4095 with (2 ^ 12 - 1). now rewrite land_not_mask by (lia || exact Hx). Qed.
Lemma page_spec x : page x mod 4096 = 0 /\ page x <= x < page x + 4096.
Proof. unfold page. pose proof (Z.mod_pos_bound x 4096). split; [|lia]. rewrite Zminus_mod_idemp_r, Z.sub_diag. reflexivity. Qed.
Lemma page_gap p q : p mod 4096 = 0 -> q mod 4096 = 0 -> p < q -> p + 4096 <= q.
Proof. pose proof (Z.div_mod p 4096). pose proof (Z.div_mod q 4096). lia. Qed.
Lemma page_unique x p : p mod 4096 = 0 -> p <= x < p + 4096 -> page x = p.
Proof.
  intros Hp Hx. destruct (page_spec x) as [H1 H2]. destruct (Z.lt_total (page x) p) as [H|[H|H]]; [|exact H|].
  - pose proof (page_gap _ _ H1 Hp H). lia.
  - pose proof (page_gap _ _ Hp H1 H). lia.
Qed.

(** Composing a step known to succeed. *)
Lemma bind_done {S A B} (m : M S A) (f : A -> M S B) s a s' : m s = Some (a, s') -> bind m f s = f a s'.
Proof. intros E. unfold bind. now rewrite E. Qed.

Section Probe.
Context (lu : Z -> Z -> option Z) (c : Z) (s : sst).

(** The probe of the pages from that of [a] to that of [b - 1] finds the first
    page that is not mapped. *)
Lemma probe_pages hi n : forall va, hi mod 4096 = 0 -> va mod 4096 = 0 -> 0 <= va -> hi < 2 ^ 63 + 2 ^ 14 -> hi <= va + (Z.of_nat n - 1) * 4096 -> (0 < n)%nat ->
  ((forall p, va <= p < hi -> p mod 4096 = 0 -> is_Some (lu c p)) -> loop n (probe_step lu c hi) va s = Some (true, s)) /\
  (forall p, va <= p < hi -> p mod 4096 = 0 -> lu c p = None -> loop n (probe_step lu c hi) va s = Some (false, s)).
Proof.
  induction n as [|n IH]; intros va Hh Hv H0 Hb Hn Hp; [lia|]. rewrite loop_S. unfold bind, probe_step at 1 3. destruct (Z.ltb_spec va hi) as [Hlt|Hge]; [|split; [reflexivity|intros; lia]].
  assert (hi = va + 4096 \/ va + 4096 < hi) as Hnext. { pose proof (page_gap va hi Hv Hh Hlt). lia. }
  assert ((va + 4096) mod 4096 = 0) as Hv' by (rewrite <- Hv; replace (va + 4096) with (va + 1 * 4096) by lia; apply Z_mod_plus_full).
  destruct (IH (va + 4096) Hh Hv') as [I1 I2]; [lia|lia|lia|lia|]. split.
  - intros H. destruct (H va ltac:(lia) Hv) as [x ->]. cbn. rewrite wrap64_small by lia. apply I1. intros p Hr. apply H. lia.
  - intros p Hr Hpm Hnone. destruct (lu c va) as [x|] eqn:E; [|reflexivity]. cbn. rewrite wrap64_small by lia. apply (I2 p); [|exact Hpm|exact Hnone].
    assert (p <> va) by congruence. pose proof (page_gap va p Hv Hpm). lia.
Qed.

Lemma probe_range r : 0 <= r < 2 ^ 63 -> let lo := Z.land r (not64 4095) in let hi := Z.land (wrap64 (r + FRAME_SIZE + 8 + 4095)) (not64 4095) in
  ((forall x, r <= x < r + FRAME_SIZE + 8 -> is_Some (lu c (page x))) -> probe lu c lo hi s = Some (true, s)) /\
  (forall x, r <= x < r + FRAME_SIZE + 8 -> lu c (page x) = None -> probe lu c lo hi s = Some (false, s)).
Proof.
  intros Hr lo hi. unfold FRAME_SIZE in *. unfold lo, hi. rewrite wrap64_small by lia. rewrite !page_mask by (unfold is_word; lia). destruct (page_spec r) as [P1 P2]. destruct (page_spec (r + 200 + 8 + 4095)) as [Q1 Q2].
  pose proof (Z.mod_le r 4096). assert (0 <= page r) by (unfold page; lia).
  destruct (probe_pages (page (r + 200 + 8 + 4095)) 4 (page r) Q1 P1) as [I1 I2]; [lia|lia|lia|lia|]. split.
  - intros H1. apply I1. intros p Hp Hpm. rewrite <- (page_unique (Z.max p r) p) by lia. apply H1. 
    pose proof (page_gap _ _ Hpm Q1). lia.
  - intros x Hx Hnone. destruct (page_spec x) as [X1 X2]. apply (I2 (page x)); [|exact X1|exact Hnone].
    pose proof (page_gap (page x) (page r) X1 P1). pose proof (page_gap (page (r + 200 + 8 + 4095)) (page x) Q1 X1).
    destruct (Z.eq_dec (page x) (page (r + 200 + 8 + 4095))); lia.
Qed.

Lemma user_store_ok a l : 0 <= a -> a + Z.of_nat (length l) <= 2 ^ 64 -> (forall x, a <= x < a + Z.of_nat (length l) -> is_Some (lu c (page x))) ->
  user_store lu c a l s = Some (tt, Sst (sk s) (store_bytes (umem s) a l)).
Proof.
  intros Ha Hl H. unfold user_store. assert (forallb (λ i, bool_decide (is_Some (lu c (Z.land (wrap64 (a + i)) (not64 4095))))) (seqZ 0 (Z.of_nat (length l))) = true) as ->; [|reflexivity].
  apply forallb_forall. intros i Hi%list_elem_of_In%elem_of_seqZ. apply bool_decide_eq_true_2. rewrite wrap64_small by lia. rewrite page_mask by (unfold is_word; lia). apply H. lia.
Qed.
End Probe.

(** Where the frame goes. *)
Definition frame_at (u : Z) : Z := (u - FRAME_SIZE) - (u - FRAME_SIZE) mod 16.
Lemma frame_at_spec u : FRAME_SIZE + 32 <= u < 2 ^ 63 -> Z.land (wrap64 (u - FRAME_SIZE)) (not64 15) = frame_at u /\ frame_at u mod 16 = 0 /\ u - FRAME_SIZE - 16 < frame_at u <= u - FRAME_SIZE.
Proof.
  intros Hu. unfold frame_at, FRAME_SIZE in *. rewrite wrap64_small by lia. change 15 with (2 ^ 4 - 1). rewrite land_not_mask by (unfold is_word; lia). change (2 ^ 4) with 16.
  pose proof (Z.mod_pos_bound (u - 200) 16). split; [reflexivity|]. split; [|lia]. rewrite Zminus_mod_idemp_r, Z.sub_diag. reflexivity.
Qed.

(** What delivering the lowest pending signal [signo] to a handler pushes. *)
Lemma push_frame_spec lu s frame t T handler restorer signo :
  ts (sk s) !! t = Some T -> FRAME_SIZE + 32 <= f_userrsp frame < 2 ^ 63 -> let r := frame_at (f_userrsp frame) in
  ((forall x, r - 8 <= x < r + FRAME_SIZE + 8 -> is_Some (lu (cr3 T) (page x))) ->
    push_frame lu frame t handler restorer signo s =
      Some (Resume (enter_handler frame handler (r - 8) signo),
            Sst (sk s) (store_bytes (store_bytes (umem s) r (words_bytes (frame_words frame))) (r - 8) (le_encode 8 restorer)))) /\
  (forall x, r <= x < r + FRAME_SIZE + 8 -> lu (cr3 T) (page x) = None -> push_frame lu frame t handler restorer signo s = kill_current (Z.land signo 127) s).
Proof.
  intros ET Hu r. destruct (frame_at_spec _ Hu) as (Er & _ & Hr). fold r in Er, Hr. assert (Hb : 8 <= r < 2 ^ 63) by (unfold FRAME_SIZE in Hu, Hr; lia). unfold push_frame.
  assert (Ec : in_kst (kget t cr3) s = Some (cr3 T, s)).
  { unfold in_kst, kget, lift, tget, bind, get. simpl. rewrite ET. simpl. now destruct s as [[] ?]. }
  rewrite (bind_done _ _ _ _ _ Ec). cbv zeta. rewrite Er. destruct (probe_range lu (cr3 T) s r ltac:(lia)) as [P1 P2]. split.
  - intros Hm. rewrite (bind_done _ _ _ _ _ (P1 ltac:(intros x Hx; apply Hm; lia))). cbn [negb]. unfold FRAME_SIZE in *. rewrite wrap64_small by lia.
    pose proof (words_bytes_length (frame_words frame)) as HL. change (length (frame_words frame)) with 25%nat in HL.
    rewrite (bind_done _ _ _ _ _ (user_store_ok lu (cr3 T) _ r (words_bytes (frame_words frame)) ltac:(lia) ltac:(rewrite HL; lia) ltac:(intros x Hx; apply Hm; rewrite HL in Hx; lia))).
    rewrite (bind_done _ _ _ _ _ (user_store_ok lu (cr3 T) _ (r - 8) (le_encode 8 restorer) ltac:(lia) ltac:(rewrite le_encode_length; lia) ltac:(intros x Hx; apply Hm; rewrite le_encode_length in Hx; lia))). reflexivity.
  - intros x Hx Hnone. now rewrite (bind_done _ _ _ _ _ (P2 x Hx Hnone)).
Qed.

(** The saved frame is what [SYS_SIGRETURN] reads back. *)
Lemma sigreturn_reads g frame s r :
  Forall (is_word 64) (frame_words frame) -> f_cs frame = 0x23 -> f_ss frame = 0x1B ->
  f_userrsp g = r -> r < USER_LIMIT ->
  load_bytes (umem s) r 200 = Some (words_bytes (frame_words frame)) ->
  signal_sigreturn g s = Some (inr frame, s).
Proof.
  intros Hw Hcs Hss Eg Hr Hl. unfold signal_sigreturn. rewrite Eg.
  destruct (Z.leb_spec USER_LIMIT r); [lia|]. unfold bind, get. rewrite Hl. cbn [of_option]. unfold ret.
  replace 25%nat with (length (frame_words frame)) by reflexivity.
  rewrite bytes_words_bytes, frame_roundtrip by exact Hw. cbn [of_option]. unfold ret.
  now rewrite Hcs, Hss.
Qed.

(** The lowest pending signal has a handler: it is cleared and the frame pushed. *)
Lemma deliver_to_handler lu s frame i c T n handler restorer :
  cpu_index (sk s) = Z.of_nat i -> cpu_locals (sk s) !! i = Some c -> ts (sk s) !! current c = Some T -> ctzll (pending_signals T) = Some n -> n + 1 <> SIGKILL ->
  arr_get (signal_actions T) (n + 1) = Some (handler, restorer) -> handler <> SIG_IGN -> handler <> SIG_DFL -> restorer <> 0 -> f_cs frame = 0x23 ->
  signal_deliver_on_return lu frame s = push_frame lu frame (current c) handler restorer (n + 1)
    (Sst (set_ts (<[current c := set_pending_signals (Z.land (pending_signals T) (not64 (Z.shiftl 1 n))) T]> (ts (sk s))) (sk s)) (umem s)).
Proof.
  intros Ei Ec ET En Hk Ha Hi Hd Hr Hcs. unfold signal_deliver_on_return. rewrite Hcs. cbn [negb Z.eqb Pos.eqb]. set (T' := set_pending_signals _ T). set (s1 := Sst _ _).
  assert (Hcur : in_kst this_current s = Some (current c, s)).
  { unfold in_kst, this_current, this_cpu, cpu_get, bind, gets, get. rewrite Ei, arr_get_nat, Ec. simpl. now destruct s. }
  assert (Hget : forall A (f : task_t -> A) s0 T0, ts (sk s0) !! current c = Some T0 -> in_kst (kget (current c) f) s0 = Some (f T0, s0)).
  { intros A f s0 T0 E0. unfold in_kst, kget, lift, tget, bind, get. rewrite E0. simpl. now destruct s0 as [[] ?]. }
  unfold bind at 1. rewrite Hcur. unfold bind at 1. rewrite (Hget _ _ s T ET).
  destruct (Z.eqb_spec (pending_signals T) 0) as [E0|_]; [rewrite E0 in En; discriminate En|].
  rewrite En. cbn [of_option]. unfold bind at 1, ret at 1. replace (n + 1 - 1) with n by lia.
  unfold bind at 1. replace (in_kst _ s) with (Some (tt, s1)).
  2: { unfold in_kst, kset, lift, tset, bind, get. rewrite ET. simpl. reflexivity. }
  rewrite (proj2 (Z.eqb_neq _ _) Hk). unfold bind at 1.
  rewrite (Hget _ _ s1 T') by (simpl; apply lookup_insert_eq). unfold bind at 1. simpl signal_actions.
  rewrite Ha. cbn [of_option]. unfold ret at 1.
  now rewrite (proj2 (Z.eqb_neq _ _) Hi), (proj2 (Z.eqb_neq _ _) Hd), (proj2 (Z.eqb_neq _ _) Hr).
Qed.

(** A task with the signals [p] pending and the handler table [acts]. *)
Definition demo_sig (p : Z) (acts : list (Z * Z)) : sst :=
  Sst (set_ts (<[1 := set_signal_actions acts (set_pending_signals p (demo_task 1 TASK_STATE_RUNNING 0 0))]>
                 (ts demo_kernel)) demo_kernel) ∅.
Definition demo_acts : list (Z * Z) := <[2%nat := (4096, 8192)]> (replicate 32 (0, 0)).
Definition demo_frame (rsp : Z) : interrupt_frame_t :=
  Frame 0 0 15 14 13 12 11 10 9 8 7 6 5 4 3 2 1 0 0 0 0x400000 0x23 0x202 rsp 0x1B.

(** C10. Signal round trip. The lowest pending signal of the current task, when
    it has a handler and a restorer, is cleared and nothing else of the task;
    then, with the trap frame of 200 bytes placed 16-byte aligned below the
    user's stack pointer:
    if every page under that frame, the 8 bytes above and the 8 bytes below it
    is mapped, [signal_deliver_on_return] resumes the task in the handler with
    the signal number in rdi and the restorer's address on top of its stack,
    nothing at or above the interrupted stack pointer is overwritten, and the
    restorer's [SYS_SIGRETURN] (entered with that address popped) gives the CPU
    back exactly the interrupted frame, every register of it;
    if some page under the frame or the 8 bytes above it is not mapped, the task
    is killed with the signal's status before anything is stored.
    (With only the page of the 8 bytes below not mapped the kernel faults:
    [signal_probe_misses_return_slot].) *)
Theorem signal_roundtrip lu s frame i c T n handler restorer :
  cpu_index (sk s) = Z.of_nat i -> cpu_locals (sk s) !! i = Some c -> ts (sk s) !! current c = Some T ->
  ctzll (pending_signals T) = Some n -> n + 1 <> SIGKILL ->
  arr_get (signal_actions T) (n + 1) = Some (handler, restorer) ->
  handler <> SIG_IGN -> handler <> SIG_DFL -> restorer <> 0 ->
  Forall (is_word 64) (frame_words frame) -> f_cs frame = 0x23 -> f_ss frame = 0x1B ->
  FRAME_SIZE + 32 <= f_userrsp frame < 2 ^ 63 ->
  let T' := set_pending_signals (Z.land (pending_signals T) (not64 (Z.shiftl 1 n))) T in
  let r := frame_at (f_userrsp frame) in
  ((forall x, r - 8 <= x < r + FRAME_SIZE + 8 -> is_Some (lu (cr3 T) (page x))) ->
    exists f' s', signal_deliver_on_return lu frame s = Some (Resume f', s') /\
      f_rip f' = handler /\ f_rdi f' = n + 1 /\ f_userrsp f' = r - 8 /\
      ts (sk s') = <[current c := T']> (ts (sk s)) /\
      load_bytes (umem s') (f_userrsp f') 8 = Some (le_encode 8 restorer) /\
      (forall x, f_userrsp frame <= x -> umem s' !! x = umem s !! x) /\
      forall g, f_userrsp g = f_userrsp f' + 8 -> signal_sigreturn g s' = Some (inr frame, s')) /\
  (forall x, r <= x < r + FRAME_SIZE + 8 -> lu (cr3 T) (page x) = None ->
    signal_deliver_on_return lu frame s = kill_current (Z.land (n + 1) 127) (Sst (set_ts (<[current c := T']> (ts (sk s))) (sk s)) (umem s))).
Proof.
  intros Ei Ec ET En Hk Ha Hi Hd Hr Hw Hcs Hss Hu T' r. destruct (frame_at_spec _ Hu) as (_ & _ & Hrr). fold r in Hrr.
  set (s1 := Sst (set_ts (<[current c := T']> (ts (sk s))) (sk s)) (umem s)).
  assert (Hstep : signal_deliver_on_return lu frame s = push_frame lu frame (current c) handler restorer (n + 1) s1) by now apply (deliver_to_handler lu s frame i c T n).
  destruct (push_frame_spec lu s1 frame (current c) T' handler restorer (n + 1)) as [P1 P2]; [simpl; apply lookup_insert_eq|exact Hu|]. fold r in P1, P2. rewrite Hstep. split; [|exact P2].
  intros Hm. rewrite (P1 Hm). eexists _, _. split; [reflexivity|]. cbn [f_rip f_rdi f_userrsp enter_handler sk umem ts set_ts s1].
  pose proof (words_bytes_length (frame_words frame)) as HL. change (length (frame_words frame)) with 25%nat in HL.
  split_and!; [reflexivity | reflexivity | reflexivity | reflexivity | | |].
  - apply (load_store_same _ (r - 8) (le_encode 8 restorer)).
  - intros x Hx. rewrite !store_bytes_lookup_out; [reflexivity | |]; rewrite ?HL, ?le_encode_length; unfold FRAME_SIZE in *; lia.
  - intros g Eg. apply (sigreturn_reads g frame _ r); auto; [lia | unfold USER_LIMIT, FRAME_SIZE in *; lia|].
    cbn [umem]. rewrite load_store_other by (rewrite le_encode_length; lia).
    replace 200%nat with (length (words_bytes (frame_words frame))) by exact HL. apply load_store_same.
Qed.

(** The pages 0x6000 and 0x7000 are mapped, no other. *)
Definition demo_lu (_ va : Z) : option Z := if (va =? 0x6000) || (va =? 0x7000) then Some va else None.
Lemma signal_roundtrip_witness :
  (exists f' s', signal_deliver_on_return demo_lu (demo_frame 0x7080) (demo_sig 0x42 demo_acts) = Some (Resume f', s') /\ f_rip f' = 4096 /\
    signal_sigreturn (demo_frame (f_userrsp f' + 8)) s' = Some (inr (demo_frame 0x7080), s')) /\
  exists s1, signal_deliver_on_return demo_lu (demo_frame 0x6040) (demo_sig 0x42 demo_acts) = kill_current 2 s1.
Proof.
  set (T := set_signal_actions demo_acts (set_pending_signals 0x42 (demo_task 1 TASK_STATE_RUNNING 0 0))).
  assert (H1 : cpu_locals (sk (demo_sig 0x42 demo_acts)) !! 0%nat = Some demo_cpu) by reflexivity.
  assert (H2 : ts (sk (demo_sig 0x42 demo_acts)) !! current demo_cpu = Some T) by reflexivity.
  assert (H3 : ctzll (pending_signals T) = Some 1) by reflexivity.
  assert (H4 : arr_get (signal_actions T) (1 + 1) = Some (4096, 8192)) by reflexivity.
  assert (Hw : Forall (is_word 64) (frame_words (demo_frame 0x7080)) /\ Forall (is_word 64) (frame_words (demo_frame 0x6040)))
    by (split; repeat (constructor; [vm_compute; split; [discriminate | reflexivity]|]); constructor).
  pose proof (λ u, signal_roundtrip demo_lu (demo_sig 0x42 demo_acts) (demo_frame u) 0 demo_cpu T 1 4096 8192 eq_refl H1 H2 H3 ltac:(easy) H4 ltac:(easy) ltac:(easy) ltac:(easy)) as H.
  clearbody T. split.
  - destruct (proj1 (H 0x7080 (proj1 Hw) eq_refl eq_refl ltac:(vm_compute; split; [discriminate | reflexivity]))) as (f' & s' & E & Hrip & _ & _ & _ & _ & _ & Hret).
    + intros x Hx. change (0x6FB0 - 8 <= x < 0x6FB0 + 208) in Hx. unfold demo_lu.
      destruct (Z.ltb_spec x 0x7000); [rewrite (page_unique x 0x6000) by (reflexivity || lia)|rewrite (page_unique x 0x7000) by (reflexivity || lia)]; now eexists.
    + exists f', s'. split; [exact E|]. split; [exact Hrip|]. apply Hret. reflexivity.
  - eexists. apply (proj2 (H 0x6040 (proj2 Hw) eq_refl eq_refl ltac:(vm_compute; split; [discriminate | reflexivity])) 0x5FF0); [vm_compute; split; [discriminate | reflexivity]|reflexivity].
Defined.

(** * Two defects *)

(** The probe of the user stack does not cover the slot of the return
    address: with the interrupted stack pointer 200 bytes above a page
    boundary, every page the probe looks at is mapped, and the store of the
    return address into the page below, which is not mapped, faults in ring 0. *)
Theorem signal_probe_misses_return_slot :
  let lu := λ _ va : Z, if va =? 0x6000 then None else Some va in let u := 0x7000 + FRAME_SIZE in
  probe lu 4096 (page (frame_at u)) (page (frame_at u + FRAME_SIZE + 8 + 4095)) (demo_sig 2 demo_acts) = Some (true, demo_sig 2 demo_acts) /\
  signal_deliver_on_return lu (demo_frame u) (demo_sig 2 demo_acts) = None.
Proof. split; vm_compute; reflexivity. Qed.

(** Task 1 takes the mutex; task 2 is scheduled, blocks on it and task 3 runs,
    which signals task 2; after two more quanta task 2 runs again, inside
    [mutex_lock], whose call of [schedule] has returned. *)
Definition signal_race : M mst (Z * Z * lock_result * lock_result) :=
  let* r1 := mutex_lock in
  in_kernel schedule;;
  let* r2 := mutex_lock in
  in_kernel schedule;;
  in_kernel (signal_send 2 SIGINT);;
  in_kernel schedule;;
  in_kernel schedule;;
  let* cur := in_kernel this_current in
  let* o := gets (λ s, owner (mm s)) in
  ret (cur, o, r1, r2).

(** A signal breaks mutual exclusion: [signal_send] makes a task blocked in
    [mutex_lock] READY, and [mutex_lock] does not check again when [schedule]
    returns, so it returns to task 2 while task 1 still owns the mutex. *)
Theorem signal_breaks_mutex :
  exists ie s', signal_race demo_mst = Some (2, 1, Acquired, Parked ie, s') /\
    mlocked (mm s') = true /\ is_running (ts (mk s')) 2 = true.
Proof. eexists _, _. split; [vm_compute; reflexivity|]. split; vm_compute; reflexivity. Qed.
