(* ===== verification/Host.v ===== *)
(** Running a component's code inside the state of the component that owns it.
    A driver or a file object embeds a ring, a lock and waiter-queue heads, and
    calls into the scheduler: the view of each part is a [field], its laws are
    a class, and what the driver must provide (the kernel's state) is the class
    [HasKernel], an interface the drivers instantiate. *)

From S2P Require Import Prelude TaskQueue Scheduler SchedulerInv.

(** * Lawful fields *)

Class Lawful {S A} (f : field S A) : Prop := {
  get_set : forall a s, fget f (fset f a s) = a;
  set_get : forall s, fset f (fget f s) s = s;
  set_set : forall a b s, fset f a (fset f b s) = fset f a s }.

(** Two fields that do not overlap. *)
Class Disjoint {S A B} (f : field S A) (g : field S B) : Prop := {
  get_other : forall b s, fget f (fset g b s) = fget f s;
  get_other' : forall a s, fget g (fset f a s) = fget g s }.

(** Code over a part, run in the whole. *)
Definition zoom {S A B} (f : field S A) (m : M A B) : M S B := λ s,
  match m (fget f s) with Some (b, a) => Some (b, fset f a s) | None => None end.

Lemma wp_zoom {S A B} (f : field S A) (m : M A B) Q s :
  wp m (λ b a, Q b (fset f a s)) (fget f s) -> wp (zoom f m) Q s.
Proof. unfold wp, zoom. now destruct (m (fget f s)) as [[b a]|]. Qed.

Lemma zoom_run {S A B} (f : field S A) (m : M A B) s b a :
  m (fget f s) = Some (b, a) -> zoom f m s = Some (b, fset f a s).
Proof. unfold zoom. now intros ->. Qed.

(** * Access to the kernel *)

Class HasKernel (S : Type) := kernel_f : field S kst.

Section Kernel.
  Context {S} `{HasKernel S}.

Definition inK {A} (m : M kst A) : M S A := zoom kernel_f m.
Definition on_tasks {A} (m : M tasks A) : M S A := inK (lift m).

  (** The interrupt flag is the kernel's. *)
#[export] Instance kernel_if : HasIF S :=
    Field (λ s, kif (fget kernel_f s)) (λ b s, fset kernel_f (set_kif b (fget kernel_f s)) s).

  (** [w->state = TASK_STATE_READY; rq_enqueue_external(w);] if there is one. *)
Definition wake (w : Z) : M S unit :=
    when (negb (w =? 0)) (inK (kset w (set_state TASK_STATE_READY);; rq_enqueue_external w)).

  (** Queue operations on a waiter queue kept in the field [q]. *)
Definition q_enqueue (q : field S (Z * Z)) (me : Z) : M S unit :=
    let* v := gets (fget q) in
    let* v' := on_tasks (enqueue v me) in
    modify (fset q v').
Definition q_pop (q : field S (Z * Z)) : M S Z :=
    let* v := gets (fget q) in
    let* r := on_tasks (pop v) in
    modify (fset q r.2);;
    ret r.1.
Definition q_remove (q : field S (Z * Z)) (me : Z) : M S unit :=
    let* v := gets (fget q) in
    let* v' := on_tasks (remove_self v me) in
    modify (fset q v').
Definition q_drain (q : field S (Z * Z)) : M S Z :=
    let* v := gets (fget q) in
    let* r := on_tasks (drain_all v) in
    modify (fset q r.2);;
    ret r.1.

  (** [task_t* me = current; enqueue(me); me->state = TASK_STATE_BLOCKED;] *)
Definition park_on (q : field S (Z * Z)) : M S unit :=
    let* me := inK this_current in
    q_enqueue q me;;
    inK (kset me (set_state TASK_STATE_BLOCKED)).

  (** [while (chain) { nxt = chain->next; chain->next = NULL;
       rq_enqueue_external(chain); chain = nxt; }] *)
Definition wake_chain_step (c : Z) : M kst (Z + unit) :=
    if c =? 0 then ret (inr tt)
    else
      let* nxt := kget c next in
      kset c (set_next 0);;
      rq_enqueue_external c;;
      ret (inl nxt).
Definition wake_chain (c : Z) : M S unit := inK (walk wake_chain_step c).
End Kernel.

(** How a blocking call goes on: it returns a value, or the caller is parked
    and [schedule] runs; [ie] is the interrupt state to restore. *)
Inductive blocking (A : Type) := Done (a : A) | Sleeps (ie : bool).
Arguments Done {_}. Arguments Sleeps {_}.

(** * What a completed run establishes *)

(** Partial correctness: used for facts that hold whatever the scheduler does
    in between. *)
Definition wlp {S A} (m : M S A) (Q : A -> S -> Prop) (s : S) : Prop :=
  forall a s', m s = Some (a, s') -> Q a s'.

Section Wlp.
  Context {S : Type}.
  Implicit Types (s : S).

Lemma wlp_ret {A} (a : A) (Q : A -> S -> Prop) s : Q a s -> wlp (ret a) Q s.
  Proof. intros H b s' E. injection E as <- <-. exact H. Qed.
Lemma wlp_bind {A B} (m : M S A) (f : A -> M S B) Q s :
    wlp m (λ a s', wlp (f a) Q s') s -> wlp (bind m f) Q s.
  Proof. intros H b s' E. unfold bind in E. destruct (m s) as [[a s1]|] eqn:Em; [|easy]. exact (H a s1 Em b s' E). Qed.
Lemma wlp_gets {A} (f : S -> A) Q s : Q (f s) s -> wlp (gets f) Q s.
  Proof. intros H b s' E. injection E as <- <-. exact H. Qed.
Lemma wlp_get (Q : S -> S -> Prop) s : Q s s -> wlp get Q s.
  Proof. intros H b s' E. injection E as <- <-. exact H. Qed.
Lemma wlp_modify f (Q : unit -> S -> Prop) s : Q tt (f s) -> wlp (modify f) Q s.
  Proof. intros H b s' E. injection E as <- <-. exact H. Qed.
Lemma wlp_when (b : bool) m (Q : unit -> S -> Prop) s : (if b then wlp m Q s else Q tt s) -> wlp (when b m) Q s.
  Proof. destruct b; [easy | apply wlp_ret]. Qed.
Lemma wlp_mono {A} (m : M S A) (Q Q' : A -> S -> Prop) s : wlp m Q s -> (forall a s', Q a s' -> Q' a s') -> wlp m Q' s.
  Proof. intros H HQ a s' E. auto. Qed.
Lemma wlp_of_wp {A} (m : M S A) Q s : wp m Q s -> wlp m Q s.
  Proof. intros H a s' E. unfold wp in H. now rewrite E in H. Qed.
Lemma wlp_zoom {A B} (f : field S A) (m : M A B) Q s :
    wlp m (λ b a, Q b (fset f a s)) (fget f s) -> wlp (zoom f m) Q s.
  Proof. intros H b s' E. unfold zoom in E. destruct (m (fget f s)) as [[b1 a]|] eqn:Em; [|easy]. injection E as <- <-. auto. Qed.
Lemma wlp_loop {A B} (I : A -> S -> Prop) fuel (step : A -> M S (A + B)) (Q : B -> S -> Prop) a s :
    I a s -> (forall a s, I a s -> wlp (step a) (λ r s', match r with inl a' => I a' s' | inr b => Q b s' end) s) ->
    wlp (loop fuel step a) Q s.
  Proof.
    intros HI Hs. revert a s HI. induction fuel as [|n IH]; intros a s HI; [easy|].
    rewrite loop_S. apply wlp_bind. eapply wlp_mono; [apply Hs, HI|]. intros [a'|b] s'; [apply IH | apply wlp_ret].
  Qed.
  (** Kernel code changes the kernel only. *)
Lemma wlp_inK `{HasKernel S} {A} (m : M kst A) Q s :
    (forall a k, Q a (fset kernel_f k s)) -> wlp (inK m) Q s.
  Proof. intros H1. apply wlp_zoom. intros b k E. apply H1. Qed.
End Wlp.
