(* ===== verification/Ring.v ===== *)
(** The byte rings of drivers/tty_ldisc.c (shared by the tty and the pty pairs)
    and of file_system/pipe.c: a buffer with monotonic 64-bit head and tail
    counters, indexed modulo its size. The operations, and the list of bytes a
    ring stands for. *)

From S2P Require Import Prelude.

(** * The ring and its operations *)

Record ring := Ring { rbuf : list Z; rsize : Z; rhead : Z; rtail : Z }.
Definition set_rhead (v : Z) (r : ring) : ring := Ring (rbuf r) (rsize r) v (rtail r).
Definition set_rtail (v : Z) (r : ring) : ring := Ring (rbuf r) (rsize r) (rhead r) v.
Definition set_rbuf (v : list Z) (r : ring) : ring := Ring v (rsize r) (rhead r) (rtail r).

Definition count_of (r : ring) : Z := wrap64 (rhead r - rtail r).
Definition ldisc_count : M ring Z := gets count_of.

(** [buf[i % size]] *)
Definition ring_load (i : Z) : M ring Z :=
  let* r := get in of_option (arr_get (rbuf r) (i mod rsize r)).
Definition ring_store (i c : Z) : M ring unit :=
  let* r := get in
  let* b := of_option (arr_set (rbuf r) (i mod rsize r) c) in
  modify (set_rbuf b).

Definition ldisc_push (c : Z) : M ring unit :=
  let* n := ldisc_count in
  let* r := get in
  if rsize r <=? n then ret tt
  else
    ring_store (rhead r) c;;
    modify (set_rhead (wrap64 (rhead r + 1))).

(** The byte erased, if there was one. *)
Definition ldisc_pop_back : M ring (option Z) :=
  let* n := ldisc_count in
  if n =? 0 then ret None
  else
    modify (λ r, set_rhead (wrap64 (rhead r - 1)) r);;
    let* h := gets rhead in
    let* c := ring_load h in
    ret (Some c).

(** One round of [while (tail != head && out < size)]. *)
Definition drain_step (size : Z) (out : list Z) : M ring (list Z + list Z) :=
  let* r := get in
  if negb (rtail r =? rhead r) && (Z.of_nat (length out) <? size) then
    let* b := ring_load (rtail r) in
    modify (set_rtail (wrap64 (rtail r + 1)));;
    ret (inl (out ++ [b]))
  else ret (inr out).
(** A ring holds at most [rsize] bytes. *)
Definition ring_fuel (r : ring) : nat := S (Z.to_nat (rsize r)).
Definition drain_raw (size : Z) : M ring (list Z) :=
  let* r := get in loop (ring_fuel r) (drain_step size) [].

Definition NEWLINE : Z := 10.

(** [for (i = tail; i != head; i++) if (buf[i % size] == '\n') break;] *)
Definition find_nl_step (i : Z) : M ring (Z + option Z) :=
  let* r := get in
  if i =? rhead r then ret (inr None)
  else
    let* b := ring_load i in
    if b =? NEWLINE then ret (inr (Some i)) else ret (inl (wrap64 (i + 1))).

(** One round of [while (tail <= nl_pos && out < size)]. *)
Definition drain_line_step (nl_pos size : Z) (out : list Z) : M ring (list Z + list Z) :=
  let* r := get in
  if (rtail r <=? nl_pos) && (Z.of_nat (length out) <? size) then
    let* b := ring_load (rtail r) in
    modify (set_rtail (wrap64 (rtail r + 1)));;
    ret (inl (out ++ [b]))
  else ret (inr out).

Definition TTY_FLAG_ICANON : Z := 1.
Definition TTY_FLAG_ECHO : Z := 2.
Definition TTY_FLAG_ISIG : Z := 4.
Definition has_flag (flags f : Z) : bool := negb (Z.land flags f =? 0).

Definition ldisc_drain (flags size : Z) : M ring (list Z) :=
  if has_flag flags TTY_FLAG_ICANON then
    let* r := get in
    let* nl := loop (ring_fuel r) find_nl_step (rtail r) in
    match nl with
    | None => ret []
    | Some nl_pos => loop (ring_fuel r) (drain_line_step nl_pos size) []
    end
  else drain_raw size.

(** The pipe's ring ([ring_count] and [ring_drain] of pipe.c are [ldisc_count]
    and [drain_raw]). *)
Definition space_of (r : ring) : Z := wrap64 (rsize r - count_of r).
Definition fill_step (src : list Z) (n : Z) : M ring (Z + Z) :=
  let* r := get in
  if (0 <? space_of r) && (n <? Z.of_nat (length src)) then
    let* b := of_option (arr_get src n) in
    ring_store (rhead r) b;;
    modify (set_rhead (wrap64 (rhead r + 1)));;
    ret (inl (n + 1))
  else ret (inr n).
Definition ring_fill (src : list Z) : M ring Z :=
  let* r := get in loop (ring_fuel r) (fill_step src) 0.

(** * The bytes a ring holds *)

(** The byte at the unwrapped counter value [i]. *)
Definition byte_at (b : list Z) (size i : Z) : Z := default 0 (b !! Z.to_nat (i mod size)).
Definition span (b : list Z) (size T : Z) (n : nat) : list Z :=
  (λ i, byte_at b size (T + i)) <$> seqZ 0 (Z.of_nat n).

(** The counters are the unwrapped values [T] and [T + length l] modulo 2^64. *)
Record ring_at (r : ring) (T : Z) (l : list Z) : Prop := {
  ra_size : 0 < rsize r < 2 ^ 64 /\ 2 ^ 64 mod rsize r = 0 /\ Z.of_nat (length (rbuf r)) = rsize r;
  ra_cap : Z.of_nat (length l) <= rsize r;
  ra_tail : rtail r = wrap64 T;
  ra_head : rhead r = wrap64 (T + Z.of_nat (length l));
  ra_bytes : l = span (rbuf r) (rsize r) T (length l) }.

(** A ring that holds the bytes [l], oldest first. *)
Definition ring_rep (r : ring) (l : list Z) : Prop := exists T, ring_at r T l.

Lemma wrap_mod_size T n : 0 < n -> 2 ^ 64 mod n = 0 -> wrap64 T mod n = T mod n.
Proof.
  intros Hn Hd. unfold wrap. apply Z.mod_mod_divide. apply Z.mod_divide; [lia | exact Hd].
Qed.

Lemma wrap_sub a b : wrap64 (wrap64 a - wrap64 b) = wrap64 (a - b).
Proof. unfold wrap. now rewrite <- Zminus_mod. Qed.
Lemma wrap_add1 a : wrap64 (wrap64 a + 1) = wrap64 (a + 1).
Proof. unfold wrap. now rewrite Zplus_mod_idemp_l. Qed.
Lemma wrap_sub1 a : wrap64 (wrap64 a - 1) = wrap64 (a - 1).
Proof. unfold wrap. now rewrite Zminus_mod_idemp_l. Qed.

Section Rep.
  Context (r : ring) (T : Z) (l : list Z) (HR : ring_at r T l).

Lemma ring_count_eq : count_of r = Z.of_nat (length l).
  Proof.
    destruct HR as [[Hs _] Hc Ht Hh _]. unfold count_of. rewrite Ht, Hh, wrap_sub.
    replace (T + Z.of_nat (length l) - T) with (Z.of_nat (length l)) by lia.
    apply wrap64_small. lia.
  Qed.

Lemma ring_index i : 0 <= wrap64 i mod rsize r < Z.of_nat (length (rbuf r)) /\ wrap64 i mod rsize r = i mod rsize r.
  Proof.
    destruct HR as [(Hs & Hd & Hl) _ _ _ _]. rewrite wrap_mod_size, Hl by lia.
    split; [apply Z.mod_pos_bound; lia | reflexivity].
  Qed.

Lemma span_length b n m k : length (span b n m k) = k.
  Proof. unfold span. rewrite length_fmap, length_seqZ. lia. Qed.

Lemma span_lookup b n m k (j : nat) : (j < k)%nat -> span b n m k !! j = Some (byte_at b n (m + Z.of_nat j)).
  Proof.
    intros Hj. unfold span. rewrite list_lookup_fmap, lookup_seqZ_lt by lia. reflexivity.
  Qed.

Lemma ring_byte (j : nat) c : l !! j = Some c -> byte_at (rbuf r) (rsize r) (T + Z.of_nat j) = c.
  Proof.
    intros Hj. assert (Hlt : (j < length l)%nat) by now apply lookup_lt_Some in Hj.
    destruct HR as [_ _ _ _ Hb]. rewrite Hb, span_lookup in Hj by exact Hlt. now injection Hj.
  Qed.

Lemma wp_ring_load (j : nat) c Q r1 :
    l !! j = Some c -> rbuf r1 = rbuf r -> rsize r1 = rsize r -> Q c r1 ->
    wp (ring_load (wrap64 (T + Z.of_nat j))) Q r1.
  Proof.
    intros Hj E1 E2 HQ. unfold ring_load. apply wp_bind, wp_get. rewrite E1, E2. destruct (ring_index (T + Z.of_nat j)) as [Hi Ei].
    destruct (arr_get_lt _ _ Hi) as [b Eb]. rewrite Eb. apply wp_ret.
    assert (b = c) as ->; [|exact HQ]. rewrite <- (ring_byte j c Hj). unfold byte_at.
    rewrite Ei in Eb. unfold arr_get in Eb. destruct (Z.ltb_spec ((T + Z.of_nat j) mod rsize r) 0); [lia|].
    now rewrite Eb.
  Qed.
End Rep.

(** * The operations on the bytes *)

Lemma mod_distinct a b n : 0 < Z.abs (a - b) < n -> a mod n <> b mod n.
Proof.
  intros H E. assert (Hd : (a - b) mod n = 0) by (rewrite Zminus_mod, E, Z.sub_diag; reflexivity).
  apply Z.mod_divide in Hd as [k Hk]; [|lia]. assert (k = 0 \/ 1 <= Z.abs k) as [->|] by lia; [lia|]. nia.
Qed.

Lemma byte_at_store b n i k c : 0 < n -> Z.of_nat (length b) = n ->
  byte_at (<[Z.to_nat (k mod n) := c]> b) n i = if decide (i mod n = k mod n) then c else byte_at b n i.
Proof.
  intros Hn Hl. pose proof (Z.mod_pos_bound k n Hn). pose proof (Z.mod_pos_bound i n Hn). unfold byte_at.
  destruct (decide (i mod n = k mod n)) as [->|Hne].
  - rewrite list_lookup_insert_eq by lia. reflexivity.
  - rewrite list_lookup_insert_ne by lia. reflexivity.
Qed.

Lemma span_ext b b' n T k :
  (forall j, 0 <= j < Z.of_nat k -> byte_at b' n (T + j) = byte_at b n (T + j)) -> span b' n T k = span b n T k.
Proof.
  intros H. apply list_eq. intros j. destruct (decide (j < k)%nat) as [Hj|Hj].
  - rewrite !span_lookup by exact Hj. f_equal. apply H. lia.
  - rewrite !lookup_ge_None_2 by (rewrite span_length; lia). reflexivity.
Qed.

Lemma span_S b n T k : span b n T (S k) = span b n T k ++ [byte_at b n (T + Z.of_nat k)].
Proof.
  unfold span. rewrite Nat2Z.inj_succ, <- Z.add_1_r, seqZ_app by lia. rewrite fmap_app.
  replace (seqZ (0 + Z.of_nat k) 1) with [Z.of_nat k]; [reflexivity|].
  unfold seqZ. simpl. reflexivity.
Qed.

Lemma span_tail b n T k : span b n T (S k) = byte_at b n T :: span b n (T + 1) k.
Proof.
  apply list_eq. intros [|j]; [now rewrite span_lookup, Z.add_0_r by lia|].
  simpl. destruct (decide (j < k)%nat).
  - rewrite !span_lookup by lia. do 2 f_equal. lia.
  - rewrite !lookup_ge_None_2 by (rewrite span_length; lia). reflexivity.
Qed.

(** Storing at the head of a ring that is not full appends. *)
Lemma ring_append r T l c : ring_at r T l -> Z.of_nat (length l) < rsize r ->
  wp (ring_store (rhead r) c) (λ _ r1, ring_at (set_rhead (wrap64 (rhead r + 1)) r1) T (l ++ [c]) /\
    rsize r1 = rsize r /\ rhead r1 = rhead r) r.
Proof.
  intros HR Hlt. destruct (ring_index r T l HR (T + Z.of_nat (length l))) as [Hi Ei].
  pose proof HR as [(Hs & Hd & Hl) Hc Ht Hh Hb]. unfold ring_store. apply wp_bind, wp_get, wp_bind.
  rewrite Hh, arr_set_lt by exact Hi. apply wp_ret, wp_modify. simpl. split_and!; auto.
  split; simpl; rewrite ?length_insert, ?length_app; simpl; auto; [lia | rewrite ?Hh, wrap_add1; f_equal; lia|].
  replace (length l + 1)%nat with (S (length l)) by lia. rewrite span_S. rewrite Ei. f_equal.
  - rewrite Hb at 1. symmetry. apply span_ext. intros j Hj. rewrite byte_at_store by lia.
    rewrite decide_False; [reflexivity|]. apply mod_distinct. lia.
  - rewrite byte_at_store by lia. now rewrite decide_True.
Qed.

Lemma ldisc_push_spec r T l c : ring_at r T l ->
  wp (ldisc_push c) (λ _ r', rsize r' = rsize r /\
    ring_at r' T (if Z.of_nat (length l) <? rsize r then l ++ [c] else l)) r.
Proof.
  intros HR. unfold ldisc_push, ldisc_count. apply wp_bind, wp_gets, wp_bind, wp_get.
  rewrite (ring_count_eq r T l HR).
  destruct (Z.ltb_spec (Z.of_nat (length l)) (rsize r)), (Z.leb_spec (rsize r) (Z.of_nat (length l))); try lia.
  - apply wp_bind. eapply wp_mono; [apply (ring_append r T l); auto|]. intros [] r1 (H1 & H2 & _). apply wp_modify. auto.
  - apply wp_ret. auto.
Qed.

Lemma ldisc_pop_back_spec r T l : ring_at r T l ->
  wp ldisc_pop_back (λ o r', rsize r' = rsize r /\
    match o with None => l = [] /\ r' = r | Some c => exists l', l = l' ++ [c] /\ ring_at r' T l' end) r.
Proof.
  intros HR. unfold ldisc_pop_back, ldisc_count. apply wp_bind, wp_gets. rewrite (ring_count_eq r T l HR).
  destruct (decide (l = [])) as [->|Hne]; [now apply wp_ret|].
  destruct (exists_last Hne) as (l' & c & ->). rewrite length_app in *. simpl.
  destruct (Z.eqb_spec (Z.of_nat (length l' + 1)) 0); [lia|].
  pose proof HR as [(Hs & Hd & Hl) Hc Ht Hh Hb]. rewrite length_app in Hc, Hh. simpl in Hc, Hh.
  apply wp_bind, wp_modify, wp_bind, wp_gets. simpl. rewrite Hh, wrap_sub1.
  replace (T + Z.of_nat (length l' + 1) - 1) with (T + Z.of_nat (length l')) by lia.
  set (r1 := set_rhead _ r).
  assert (HR1 : ring_at r1 T l').
  { split; simpl; auto; [lia|]. rewrite length_app in Hb. simpl in Hb.
    replace (length l' + 1)%nat with (S (length l')) in Hb by lia. rewrite span_S in Hb.
    apply app_inj_2 in Hb as [Hb _]; [exact Hb | reflexivity]. }
  apply wp_bind. eapply wp_mono with (Q := λ b r2, b = c /\ r2 = r1).
  - apply (wp_ring_load r T (l' ++ [c]) HR (length l') c); auto. now rewrite lookup_app_r, Nat.sub_diag.
  - intros b r2 [-> ->]. apply wp_ret. eauto.
Qed.

Lemma ring_at_tail r T c l : ring_at r T (c :: l) -> ring_at (set_rtail (wrap64 (T + 1)) r) (T + 1) l.
Proof.
  intros [H1 H2 H3 H4 H5]. cbn [length] in *. split; simpl; auto; [lia | rewrite H4; f_equal; lia|].
  rewrite span_tail in H5. now injection H5.
Qed.

(** Taking one byte from the front. *)
Lemma ring_take r T c l : ring_at r T (c :: l) ->
  wp (let* b := ring_load (rtail r) in modify (set_rtail (wrap64 (rtail r + 1)));; ret b)
    (λ b r', b = c /\ rsize r' = rsize r /\ rhead r' = rhead r /\ ring_at r' (T + 1) l) r.
Proof.
  intros HR. apply wp_bind. rewrite (ra_tail _ _ _ HR). replace T with (T + Z.of_nat 0) at 1 by lia.
  apply (wp_ring_load r T (c :: l) HR 0 c); auto. apply wp_bind, wp_modify, wp_ret. rewrite wrap_add1.
  split_and!; auto. now apply (ring_at_tail r T c).
Qed.

Lemma tail_eq_head r T l : ring_at r T l -> (rtail r =? rhead r) = bool_decide (l = []).
Proof.
  intros [(Hs & _) Hc Ht Hh _]. rewrite Ht, Hh. destruct l as [|c l]; simpl.
  - rewrite Z.add_0_r. apply Z.eqb_refl.
  - apply Z.eqb_neq. unfold wrap. apply mod_distinct. simpl length in *. lia.
Qed.

(** Draining returns the oldest bytes, as many as fit, and keeps the rest. *)
Lemma drain_raw_spec r T l size : ring_at r T l -> 0 <= size ->
  wp (drain_raw size) (λ out r', let n := Z.to_nat (Z.min size (Z.of_nat (length l))) in
    out = take n l /\ rsize r' = rsize r /\ ring_at r' (T + Z.of_nat n) (drop n l)) r.
Proof.
  intros HR Hsz. unfold drain_raw. apply wp_bind, wp_get.
  eapply (wp_loop (λ n out r1, exists done rest, l = done ++ rest /\ out = done /\ n = length rest /\
    Z.of_nat (length done) <= size /\ rsize r1 = rsize r /\ ring_at r1 (T + Z.of_nat (length done)) rest) (length l)).
  - exists [], l. split_and!; auto. simpl. now rewrite Z.add_0_r.
  - unfold ring_fuel. pose proof (ra_cap _ _ _ HR). lia.
  - intros n out r1 (dn & rest & -> & -> & -> & Hle & Es & HR1). unfold drain_step. apply wp_bind, wp_get.
    rewrite (tail_eq_head _ _ _ HR1). destruct rest as [|c rest]; simpl.
    + apply wp_ret. rewrite app_nil_r in *. rewrite Z.min_r by lia. rewrite Nat2Z.id, take_ge, drop_ge by lia. auto.
    + destruct (Z.ltb_spec (Z.of_nat (length dn)) size) as [Hlt|Hge].
      * apply wp_bind. assert (HT := ring_take _ _ _ _ HR1). apply wp_bind in HT. eapply wp_mono; [exact HT|].
        intros b r2 Hb. apply wp_bind in Hb. apply wp_bind. eapply wp_mono; [exact Hb|].
        intros [] r3 (-> & E3 & _ & HR3). apply wp_ret. exists (length rest). split; [lia|].
        exists (dn ++ [c]), rest. rewrite length_app. simpl. split_and!; auto; [now rewrite <- app_assoc | lia | congruence|].
        replace (T + Z.of_nat (length dn + 1)) with (T + Z.of_nat (length dn) + 1) by lia. exact HR3.
      * apply wp_ret. rewrite length_app. simpl. rewrite Z.min_l by lia.
        replace (Z.to_nat size) with (length dn) by lia. rewrite take_app_length, drop_app_length. auto.
Qed.

(** Filling appends the bytes that fit. *)
Lemma ring_fill_spec r T l src : ring_at r T l ->
  wp (ring_fill src) (λ n r', n = Z.min (Z.of_nat (length src)) (rsize r - Z.of_nat (length l)) /\
    rsize r' = rsize r /\ ring_at r' T (l ++ take (Z.to_nat n) src)) r.
Proof.
  intros HR. unfold ring_fill. apply wp_bind, wp_get. pose proof (ra_cap _ _ _ HR) as Hc0.
  destruct (ra_size _ _ _ HR) as (Hs0 & _).
  eapply (wp_loop (λ m n r1, exists k, n = Z.of_nat k /\ (k <= length src)%nat /\ rsize r1 = rsize r /\
    Z.of_nat (length l) + n <= rsize r /\
    m = Z.to_nat (rsize r - Z.of_nat (length l) - n) /\ ring_at r1 T (l ++ take k src))
    (Z.to_nat (rsize r - Z.of_nat (length l)))).
  - exists 0%nat. rewrite take_0, app_nil_r. split_and!; auto; lia.
  - unfold ring_fuel. lia.
  - intros m n r1 (k & -> & Hk & Es & Hle & -> & HR1). unfold fill_step. apply wp_bind, wp_get.
    assert (Elen : length (l ++ take k src) = (length l + k)%nat) by (rewrite length_app, length_take; lia).
    assert (Esp : space_of r1 = rsize r - Z.of_nat (length l) - Z.of_nat k).
    { unfold space_of. rewrite (ring_count_eq _ _ _ HR1), Elen, Es. rewrite wrap64_small; lia. }
    rewrite Esp. destruct (Z.ltb_spec 0 (rsize r - Z.of_nat (length l) - Z.of_nat k)) as [H0|H0],
      (Z.ltb_spec (Z.of_nat k) (Z.of_nat (length src))) as [H1|H1]; simpl.
    1: { destruct (lookup_lt_is_Some_2 src k) as [b Eb]; [lia|].
      apply wp_bind. unfold arr_get. destruct (Z.ltb_spec (Z.of_nat k) 0); [lia|]. rewrite Nat2Z.id, Eb. apply wp_ret, wp_bind.
      eapply wp_mono; [apply (ring_append r1 T (l ++ take k src)); auto; lia|]. intros [] r2 (HR2 & Es2 & Eh2).
      apply wp_bind, wp_modify, wp_ret. eexists. split; [|exists (S k); split_and!; [lia | lia | simpl; congruence | lia | reflexivity|]]; [lia|].
      rewrite (take_S_r _ _ _ Eb), app_assoc. exact HR2. }
    all: apply wp_ret; split_and!; [lia | auto | rewrite Nat2Z.id; exact HR1].
Qed.

(** * Cooked mode *)

(** The first line of [l], newline included. *)
Definition first_line (l : list Z) : option (list Z) :=
  match list_find (λ c, c = NEWLINE) l with Some (k, _) => Some (take (S k) l) | None => None end.

Lemma find_nl_spec r T l : ring_at r T l ->
  wp (loop (ring_fuel r) find_nl_step (rtail r)) (λ o r', r' = r /\
    o = match list_find (λ c, c = NEWLINE) l with Some (k, _) => Some (wrap64 (T + Z.of_nat k)) | None => None end) r.
Proof.
  intros HR. pose proof (ra_cap _ _ _ HR) as Hc.
  eapply (wp_loop (λ n i r1, exists dn rest, l = dn ++ rest /\ r1 = r /\ n = length rest /\
    i = wrap64 (T + Z.of_nat (length dn)) /\ Forall (λ c, c <> NEWLINE) dn) (length l)).
  - exists [], l. split_and!; auto. rewrite (ra_tail _ _ _ HR). simpl. now rewrite Z.add_0_r.
  - unfold ring_fuel. lia.
  - intros n i r1 (dn & rest & El & -> & -> & -> & Hno). unfold find_nl_step. apply wp_bind, wp_get.
    rewrite (ra_head _ _ _ HR). destruct (ra_size _ _ _ HR) as (Hs & _).
    assert (Hlen : length l = (length dn + length rest)%nat) by (rewrite El; apply length_app).
    destruct rest as [|c rest].
    + rewrite app_nil_r in El. rewrite El, Z.eqb_refl. apply wp_ret. split; [reflexivity|].
      rewrite (proj2 (list_find_None _ _)); [reflexivity|]. exact Hno.
    + simpl in Hlen. rewrite (proj2 (Z.eqb_neq _ _)) by (unfold wrap; apply mod_distinct; lia).
      assert (Ec : l !! length dn = Some c) by (rewrite El, lookup_app_r, Nat.sub_diag by lia; reflexivity).
      apply wp_bind. apply (wp_ring_load r T l HR (length dn) c); auto.
      destruct (Z.eqb_spec c NEWLINE) as [->|Hc'].
      * apply wp_ret. split; [reflexivity|].
        rewrite (proj2 (list_find_Some _ _ (length dn) NEWLINE)); [reflexivity|].
        split_and!; auto. intros j y Ej Hj. rewrite El, lookup_app_l in Ej by exact Hj.
        rewrite Forall_lookup in Hno. eauto.
      * apply wp_ret. exists (length rest). split; [simpl; lia|]. exists (dn ++ [c]), rest.
        split_and!; auto.
        -- now rewrite <- app_assoc.
        -- rewrite wrap_add1, length_app. simpl. f_equal. lia.
        -- apply Forall_app. split; [exact Hno | now constructor].
Qed.

(** Taking bytes while [tail <= nl_pos]: the next [n] bytes, at most [size]. *)
Lemma drain_line_spec r T l (k : nat) size : ring_at r T l -> (k < length l)%nat -> 0 <= T ->
  T + Z.of_nat (length l) < 2 ^ 64 -> 0 <= size ->
  wp (loop (ring_fuel r) (drain_line_step (wrap64 (T + Z.of_nat k)) size) []) (λ out r',
    let n := Z.to_nat (Z.min size (Z.of_nat (S k))) in
    out = take n l /\ rsize r' = rsize r /\ ring_at r' (T + Z.of_nat n) (drop n l)) r.
Proof.
  intros HR Hk HT Hw Hsz. pose proof (ra_cap _ _ _ HR) as Hc.
  eapply (wp_loop (λ n out r1, exists dn rest, l = dn ++ rest /\ out = dn /\ n = length rest /\
    Z.of_nat (length dn) <= Z.min size (Z.of_nat (S k)) /\ rsize r1 = rsize r /\
    ring_at r1 (T + Z.of_nat (length dn)) rest) (length l)).
  - exists [], l. split_and!; auto; [simpl; lia|]. simpl. now rewrite Z.add_0_r.
  - unfold ring_fuel. lia.
  - intros n out r1 (dn & rest & El & -> & -> & Hle & Es & HR1). unfold drain_line_step. apply wp_bind, wp_get.
    rewrite (ra_tail _ _ _ HR1).
    assert (Hlen : length l = (length dn + length rest)%nat) by (rewrite El; apply length_app).
    rewrite (wrap64_small (T + Z.of_nat (length dn))), (wrap64_small (T + Z.of_nat k)) by lia.
    assert (Hend : (length dn >= S k)%nat \/ Z.of_nat (length dn) >= size ->
      (λ out r', let n := Z.to_nat (Z.min size (Z.of_nat (S k))) in
        out = take n l /\ rsize r' = rsize r /\ ring_at r' (T + Z.of_nat n) (drop n l)) dn r1).
    { intros He. simpl. replace (Z.to_nat (Z.min size _)) with (length dn) by lia.
      rewrite El, take_app_length, drop_app_length. auto. }
    destruct (Z.leb_spec (T + Z.of_nat (length dn)) (T + Z.of_nat k)) as [H1|H1]; simpl.
    2: { apply wp_ret, Hend. lia. }
    destruct (Z.ltb_spec (Z.of_nat (length dn)) size) as [H2|H2]; [|apply wp_ret, Hend; lia].
    destruct rest as [|c rest]; [simpl in Hlen; lia|].
    assert (HTk := ring_take _ _ _ _ HR1). rewrite (ra_tail _ _ _ HR1), wrap64_small in HTk by lia.
    apply wp_bind in HTk. apply wp_bind. eapply wp_mono; [exact HTk|].
    intros b r2 Hb. apply wp_bind in Hb. apply wp_bind. eapply wp_mono; [exact Hb|].
    intros [] r3 (-> & E3 & _ & HR3). apply wp_ret. exists (length rest). split; [simpl; lia|].
    exists (dn ++ [c]), rest. rewrite length_app. simpl length. split_and!; auto; [now rewrite <- app_assoc | lia | congruence|].
    replace (T + Z.of_nat (length dn + 1)) with (T + Z.of_nat (length dn) + 1) by lia. exact HR3.
Qed.
