(* ===== verification/Ldisc.v ===== *)
(** drivers/tty_ldisc.c: the line discipline shared by the console tty and the
    pty pairs. An [ldisc_ring_t] is a view into its owner: the ring and the
    blocked-reader queue are fields of the owner's state. *)

From S2P Require Import Prelude TaskQueue Scheduler Host Ring Signal.

Record ldisc_ring_t (S : Type) := View { v_ring : field S ring; v_wait : field S (Z * Z) }.
Arguments View {_}. Arguments v_ring {_}. Arguments v_wait {_}.

(** The effects [ldisc_input] leaves to its caller. *)
Record ldisc_result_t := Result { signal : Z; signal_pgrp : Z; wake_task : Z }.

Definition CTRL_C : Z := 3.
Definition BACKSPACE : Z := 8.

Section Ldisc.
  Context {S} `{HasKernel S} (r : ldisc_ring_t S).

Definition ldisc_waiter_enqueue (me : Z) : M S unit := q_enqueue (v_wait r) me.
Definition ldisc_waiter_pop : M S Z := q_pop (v_wait r).
Definition ldisc_waiter_remove (me : Z) : M S unit := q_remove (v_wait r) me.

  (** [echo] may be NULL. *)
Definition ldisc_input (flags pgrp byte : Z) (echo : option (Z -> M S unit)) : M S ldisc_result_t :=
    if has_flag flags TTY_FLAG_ISIG && (byte =? CTRL_C) then ret (Result SIGINT pgrp 0)
    else if has_flag flags TTY_FLAG_ICANON && (byte =? BACKSPACE) then
      let* popped := zoom (v_ring r) ldisc_pop_back in
      match popped, echo with
      | Some _, Some echo => when (has_flag flags TTY_FLAG_ECHO) (echo BACKSPACE)
      | _, _ => ret tt
      end;;
      ret (Result 0 0 0)
    else
      zoom (v_ring r) (ldisc_push byte);;
      match echo with
      | Some echo => when (has_flag flags TTY_FLAG_ECHO) (echo byte)
      | None => ret tt
      end;;
      let wake := if has_flag flags TTY_FLAG_ICANON then byte =? NEWLINE else true in
      if wake then let* w := ldisc_waiter_pop in ret (Result 0 0 w) else ret (Result 0 0 0).
End Ldisc.

(** drivers/tty.c: the console tty: blocking reads through the line discipline,
    keyboard input, ioctls. What is echoed to the screen is recorded. *)

(** * State *)

Record tty_t := Tty {
  input_lock : bool;
  tring : ring;
  tflags : Z;
  tpgrp : Z;
  read_waiter : Z * Z }.

Definition set_input_lock (v : bool) (s : tty_t) : tty_t :=
  Tty v (tring s) (tflags s) (tpgrp s) (read_waiter s).
Definition set_tring (v : ring) (s : tty_t) : tty_t :=
  Tty (input_lock s) v (tflags s) (tpgrp s) (read_waiter s).
Definition set_tflags (v : Z) (s : tty_t) : tty_t :=
  Tty (input_lock s) (tring s) v (tpgrp s) (read_waiter s).
Definition set_tpgrp (v : Z) (s : tty_t) : tty_t :=
  Tty (input_lock s) (tring s) (tflags s) v (read_waiter s).
Definition set_read_waiter (v : Z * Z) (s : tty_t) : tty_t :=
  Tty (input_lock s) (tring s) (tflags s) (tpgrp s) v.

(** The tty in the kernel; [screen] is what [putchar] was given, oldest first,
    and [geometry] what [fb_console_geometry] and [fb_info] report. *)
Record tst := Tst {
  tkernel : kst;
  tty : tty_t;
  screen : list Z;
  geometry : Z * Z * Z * Z }.

Definition set_tkernel (v : kst) (s : tst) : tst :=
  Tst v (tty s) (screen s) (geometry s).
Definition set_tty (v : tty_t) (s : tst) : tst :=
  Tst (tkernel s) v (screen s) (geometry s).
Definition set_screen (v : list Z) (s : tst) : tst :=
  Tst (tkernel s) (tty s) v (geometry s).

#[global] Instance tst_kernel : HasKernel tst := Field tkernel set_tkernel.
Definition tty_f {A} (g : tty_t -> A) (u : A -> tty_t -> tty_t) : field tst A :=
  Field (λ s, g (tty s)) (λ a s, set_tty (u a (tty s)) s).
Definition input_lock_f : field tst bool := tty_f input_lock set_input_lock.

Definition TTY_BUF_SIZE : Z := 512.

(** [tty_ring]: the view of the tty's inline buffer and waiter list. *)
Definition tty_ring : ldisc_ring_t tst := View (tty_f tring set_tring) (tty_f read_waiter set_read_waiter).

Definition tty_echo (c : Z) : M tst unit := modify (λ s, set_screen (screen s ++ [c]) s).

(** * tty_read *)

(** One round of the loop, with [input_lock] held. *)
Definition tty_read_round (size : Z) (ie : bool) : M tst (blocking (list Z)) :=
  let* flags := gets (λ s, tflags (tty s)) in
  let* out := zoom (v_ring tty_ring) (ldisc_drain flags size) in
  if (0 <? Z.of_nat (length out)) then
    spin_unlock input_lock_f;;
    when ie StiHelper;;
    ret (Done out)
  else
    park_on (v_wait tty_ring);;
    spin_unlock input_lock_f;;
    ret (Sleeps ie).
Definition tty_read (size : Z) : M tst (blocking (list Z)) :=
  if size =? 0 then ret (Done [])
  else let* ie := lock_irqsave input_lock_f in tty_read_round size ie.
(** After [schedule] returned to the reader [me]. *)
Definition tty_read_resume (size me : Z) (ie : bool) : M tst (blocking (list Z)) :=
  CliHelper;;
  spin_lock input_lock_f;;
  ldisc_waiter_remove tty_ring me;;
  tty_read_round size ie.

(** * Keyboard input *)

Definition tty_input_byte (c : Z) : M tst unit :=
  let* ie := lock_irqsave input_lock_f in
  let* flags := gets (λ s, tflags (tty s)) in
  let* g := gets (λ s, tpgrp (tty s)) in
  let* res := ldisc_input tty_ring flags g c (Some tty_echo) in
  spin_unlock input_lock_f;;
  when (negb (signal res =? 0) && negb (signal_pgrp res =? 0))
    (inK (signal_send_pgrp (signal_pgrp res) (signal res)));;
  wake (wake_task res);;
  when ie StiHelper.

(** * ioctl *)

Definition TTY_IOCTL_SET_RAW : Z := 0x100.
Definition TTY_IOCTL_SET_COOKED : Z := 0x101.
Definition TTY_IOCTL_SET_FOREGROUND : Z := 0x102.
Definition TTY_IOCTL_TIOCSPGRP : Z := 0x103.
Definition TTY_IOCTL_TIOCGPGRP : Z := 0x104.
Definition TTY_IOCTL_TIOCGWINSZ : Z := 0x105.

Definition set_flags (f : Z -> Z) : M tst unit := modify (λ s, set_tty (set_tflags (f (tflags (tty s))) (tty s)) s).
Definition not32 (x : Z) : Z := wrap32 (Z.lnot x).

(** The result code and what is stored through [arg]. *)
Definition tty_ioctl (cmd arg : Z) : M tst (Z * list Z) :=
  let* ie := lock_irqsave input_lock_f in
  let* r :=
    (if cmd =? TTY_IOCTL_SET_RAW then
       set_flags (λ f, Z.land f (not32 (Z.lor TTY_FLAG_ICANON TTY_FLAG_ECHO)));; ret (0, [])
     else if cmd =? TTY_IOCTL_SET_COOKED then
       set_flags (λ f, Z.lor f (Z.lor TTY_FLAG_ICANON TTY_FLAG_ECHO));; ret (0, [])
     else if cmd =? TTY_IOCTL_SET_FOREGROUND then
       let* me := inK this_current in
       let* g := inK (kget me pgid) in
       modify (λ s, set_tty (set_tpgrp g (tty s)) s);; ret (0, [])
     else if cmd =? TTY_IOCTL_TIOCSPGRP then
       modify (λ s, set_tty (set_tpgrp arg (tty s)) s);; ret (0, [])
     else if cmd =? TTY_IOCTL_TIOCGPGRP then
       let* g := gets (λ s, tpgrp (tty s)) in ret (0, if arg =? 0 then [] else [g])
     else if cmd =? TTY_IOCTL_TIOCGWINSZ then
       if arg =? 0 then ret (- EINVAL, [])
       else
         let* g := gets geometry in
         let '(rows, cols, width, height) := g in
         ret (0, [wrap 16 rows; wrap 16 cols; wrap 16 width; wrap 16 height])
     else ret (- ENOTTY, [])) in
  spin_unlock input_lock_f;;
  when ie StiHelper;;
  ret r.

Definition tty_init : M tst unit :=
  modify (set_tty (Tty false (Ring (replicate 512 0) TTY_BUF_SIZE 0 0)
    (Z.lor TTY_FLAG_ICANON (Z.lor TTY_FLAG_ECHO TTY_FLAG_ISIG)) 0 (0, 0))).
