(* ===== verification/Pty.v ===== *)
(** drivers/pty.c: pseudo-terminal pairs. One pair in the kernel's state: the
    master-to-slave ring, cooked by the line discipline, the slave-to-master
    ring, raw, and the three waiter queues; and the table of pairs. *)

From S2P Require Import Prelude TaskQueue Scheduler Host Ring Signal Ldisc.

(** * State *)

Record pty_pair_t := Pair {
  plock : bool;
  m2s : ring;
  s_read_waiter : Z * Z;
  s2m : ring;
  m_read_waiter : Z * Z;
  s_write_waiter : Z * Z;
  pflags : Z;
  ppgrp : Z;
  winsize : Z * Z * Z * Z;
  in_use : bool;
  master_open : bool;
  slave_open : bool;
  slave_ever_opened : bool;
  plocked : bool;
  pindex : Z }.

Definition set_plock (v : bool) (s : pty_pair_t) : pty_pair_t :=
  Pair v (m2s s) (s_read_waiter s) (s2m s) (m_read_waiter s) (s_write_waiter s) (pflags s) (ppgrp s)
    (winsize s) (in_use s) (master_open s) (slave_open s) (slave_ever_opened s) (plocked s) (pindex s).
Definition set_m2s (v : ring) (s : pty_pair_t) : pty_pair_t :=
  Pair (plock s) v (s_read_waiter s) (s2m s) (m_read_waiter s) (s_write_waiter s) (pflags s) (ppgrp s)
    (winsize s) (in_use s) (master_open s) (slave_open s) (slave_ever_opened s) (plocked s) (pindex s).
Definition set_s_read_waiter (v : Z * Z) (s : pty_pair_t) : pty_pair_t :=
  Pair (plock s) (m2s s) v (s2m s) (m_read_waiter s) (s_write_waiter s) (pflags s) (ppgrp s) (winsize s)
    (in_use s) (master_open s) (slave_open s) (slave_ever_opened s) (plocked s) (pindex s).
Definition set_s2m (v : ring) (s : pty_pair_t) : pty_pair_t :=
  Pair (plock s) (m2s s) (s_read_waiter s) v (m_read_waiter s) (s_write_waiter s) (pflags s) (ppgrp s)
    (winsize s) (in_use s) (master_open s) (slave_open s) (slave_ever_opened s) (plocked s) (pindex s).
Definition set_m_read_waiter (v : Z * Z) (s : pty_pair_t) : pty_pair_t :=
  Pair (plock s) (m2s s) (s_read_waiter s) (s2m s) v (s_write_waiter s) (pflags s) (ppgrp s) (winsize s)
    (in_use s) (master_open s) (slave_open s) (slave_ever_opened s) (plocked s) (pindex s).
Definition set_s_write_waiter (v : Z * Z) (s : pty_pair_t) : pty_pair_t :=
  Pair (plock s) (m2s s) (s_read_waiter s) (s2m s) (m_read_waiter s) v (pflags s) (ppgrp s) (winsize s)
    (in_use s) (master_open s) (slave_open s) (slave_ever_opened s) (plocked s) (pindex s).
Definition set_pflags (v : Z) (s : pty_pair_t) : pty_pair_t :=
  Pair (plock s) (m2s s) (s_read_waiter s) (s2m s) (m_read_waiter s) (s_write_waiter s) v (ppgrp s)
    (winsize s) (in_use s) (master_open s) (slave_open s) (slave_ever_opened s) (plocked s) (pindex s).
Definition set_ppgrp (v : Z) (s : pty_pair_t) : pty_pair_t :=
  Pair (plock s) (m2s s) (s_read_waiter s) (s2m s) (m_read_waiter s) (s_write_waiter s) (pflags s) v
    (winsize s) (in_use s) (master_open s) (slave_open s) (slave_ever_opened s) (plocked s) (pindex s).
Definition set_winsize (v : Z * Z * Z * Z) (s : pty_pair_t) : pty_pair_t :=
  Pair (plock s) (m2s s) (s_read_waiter s) (s2m s) (m_read_waiter s) (s_write_waiter s) (pflags s) (ppgrp s) v
    (in_use s) (master_open s) (slave_open s) (slave_ever_opened s) (plocked s) (pindex s).
Definition set_master_open (v : bool) (s : pty_pair_t) : pty_pair_t :=
  Pair (plock s) (m2s s) (s_read_waiter s) (s2m s) (m_read_waiter s) (s_write_waiter s) (pflags s) (ppgrp s)
    (winsize s) (in_use s) v (slave_open s) (slave_ever_opened s) (plocked s) (pindex s).
Definition set_slave_open (v : bool) (s : pty_pair_t) : pty_pair_t :=
  Pair (plock s) (m2s s) (s_read_waiter s) (s2m s) (m_read_waiter s) (s_write_waiter s) (pflags s) (ppgrp s)
    (winsize s) (in_use s) (master_open s) v (slave_ever_opened s) (plocked s) (pindex s).
Definition set_slave_ever_opened (v : bool) (s : pty_pair_t) : pty_pair_t :=
  Pair (plock s) (m2s s) (s_read_waiter s) (s2m s) (m_read_waiter s) (s_write_waiter s) (pflags s) (ppgrp s)
    (winsize s) (in_use s) (master_open s) (slave_open s) v (plocked s) (pindex s).
Definition set_plocked (v : bool) (s : pty_pair_t) : pty_pair_t :=
  Pair (plock s) (m2s s) (s_read_waiter s) (s2m s) (m_read_waiter s) (s_write_waiter s) (pflags s) (ppgrp s)
    (winsize s) (in_use s) (master_open s) (slave_open s) (slave_ever_opened s) v (pindex s).

Record yst := Yst {
  ykernel : kst;
  pair : pty_pair_t }.

Definition set_ykernel (v : kst) (s : yst) : yst :=
  Yst v (pair s).
Definition set_pair (v : pty_pair_t) (s : yst) : yst :=
  Yst (ykernel s) v.

#[global] Instance yst_kernel : HasKernel yst := Field ykernel set_ykernel.
Definition pair_f {A} (g : pty_pair_t -> A) (u : A -> pty_pair_t -> pty_pair_t) : field yst A :=
  Field (λ s, g (pair s)) (λ a s, set_pair (u a (pair s)) s).
Definition plock_f : field yst bool := pair_f plock set_plock.

Definition PTY_BUF_SIZE : Z := 4096.
Definition PTY_MAX_PAIRS : Z := 8.

Definition m2s_ring : ldisc_ring_t yst := View (pair_f m2s set_m2s) (pair_f s_read_waiter set_s_read_waiter).
Definition s2m_ring : ldisc_ring_t yst := View (pair_f s2m set_s2m) (pair_f m_read_waiter set_m_read_waiter).
(** Only the waiter half of this view is used. *)
Definition s2m_writers : ldisc_ring_t yst := View (pair_f s2m set_s2m) (pair_f s_write_waiter set_s_write_waiter).

Definition echo_to_master (c : Z) : M yst unit :=
  zoom (v_ring s2m_ring) (ldisc_push c);;
  let* w := ldisc_waiter_pop s2m_ring in
  wake w.

(** * The slave's file operations *)

Definition pty_slave_read_round (size : Z) (ie : bool) : M yst (blocking (list Z)) :=
  let* flags := gets (λ s, pflags (pair s)) in
  let* out := zoom (v_ring m2s_ring) (ldisc_drain flags size) in
  let* mo := gets (λ s, master_open (pair s)) in
  if 0 <? Z.of_nat (length out) then
    spin_unlock plock_f;; when ie StiHelper;; ret (Done out)
  else if negb mo then
    spin_unlock plock_f;; when ie StiHelper;; ret (Done [])
  else
    park_on (v_wait m2s_ring);;
    spin_unlock plock_f;;
    ret (Sleeps ie).
Definition pty_slave_read (size : Z) : M yst (blocking (list Z)) :=
  if size =? 0 then ret (Done [])
  else let* ie := lock_irqsave plock_f in pty_slave_read_round size ie.
Definition pty_slave_read_resume (size me : Z) (ie : bool) : M yst (blocking (list Z)) :=
  CliHelper;;
  spin_lock plock_f;;
  ldisc_waiter_remove m2s_ring me;;
  pty_slave_read_round size ie.

(** [for (i = 0; i < want; i++) ldisc_push(&r, src[total + i]);] *)
Fixpoint push_all (bytes : list Z) : M ring unit :=
  match bytes with [] => ret tt | b :: bytes => ldisc_push b;; push_all bytes end.

(** What is left of the write: [total] bytes are done. [inl] goes round again. *)
Definition pty_slave_write_step (src : list Z) (ie : bool) (total : Z) : M yst (Z + blocking Z) :=
  let size := Z.of_nat (length src) in
  if total <? size then
    let* mo := gets (λ s, master_open (pair s)) in
    if negb mo then
      spin_unlock plock_f;;
      let* me := inK this_current in
      inK (signal_send me SIGPIPE);;
      when ie StiHelper;;
      ret (inr (Done (if 0 <? total then total else - EPIPE)))
    else
      let* space := gets (λ s, wrap64 (PTY_BUF_SIZE - count_of (s2m (pair s)))) in
      if space =? 0 then
        park_on (v_wait s2m_writers);;
        spin_unlock plock_f;;
        ret (inr (Sleeps ie))
      else
        let want := Z.min (size - total) space in
        zoom (v_ring s2m_ring) (push_all (take (Z.to_nat want) (drop (Z.to_nat total) src)));;
        let* w := ldisc_waiter_pop s2m_ring in
        wake w;;
        ret (inl (total + want))
  else
    spin_unlock plock_f;;
    when ie StiHelper;;
    ret (inr (Done total)).
(** Each round moves at least one byte, parks or returns. *)
Definition pty_slave_write_from (src : list Z) (ie : bool) (total : Z) : M yst (blocking Z) :=
  loop (S (S (length src))) (pty_slave_write_step src ie) total.
Definition pty_slave_write (src : list Z) : M yst (blocking Z) :=
  if Z.of_nat (length src) =? 0 then ret (Done 0)
  else let* ie := lock_irqsave plock_f in pty_slave_write_from src ie 0.
Definition pty_slave_write_resume (src : list Z) (total me : Z) (ie : bool) : M yst (blocking Z) :=
  CliHelper;;
  spin_lock plock_f;;
  ldisc_waiter_remove s2m_writers me;;
  let* p := inK (kget me pending_signals) in
  if negb (p =? 0) then
    spin_unlock plock_f;; when ie StiHelper;; ret (Done (if 0 <? total then total else - EINTR))
  else pty_slave_write_from src ie total.

Definition SIGWINCH : Z := 28.
Definition TIOCGPTN : Z := 0x110.
Definition TIOCSPTLCK : Z := 0x111.
Definition TIOCSCTTY : Z := 0x112.
Definition TIOCSWINSZ : Z := 0x113.

Definition set_pair_f (f : pty_pair_t -> pty_pair_t) : M yst unit := modify (λ s, set_pair (f (pair s)) s).
Definition set_ctty (v : Z) (t : task_t) : task_t :=
  Task (cr3 t) (kstack_top t) (kstack_base t) (kstack_pages t) (pid t) (state t) (time_slice t) (next t) (prev t)
    (home_cpu t) (fds t) (pending_signals t) (signal_actions t) (parent t) (wait_target t) (exit_code t)
    (zombie_next t) (sleep_deadline t) (sleep_next t) (pgid t) (sid t) (cwd t) v (all_next t) (all_prev t).

(** Setting the window size drops the lock and signals the foreground group. *)
Definition set_winsize_and_signal (ws : Z * Z * Z * Z) (ie : bool) : M yst (Z * list Z) :=
  set_pair_f (set_winsize ws);;
  let* g := gets (λ s, ppgrp (pair s)) in
  spin_unlock plock_f;;
  when (negb (g =? 0)) (inK (signal_send_pgrp g SIGWINCH));;
  when ie StiHelper;;
  ret (0, []).
Definition winsize_out (ws : Z * Z * Z * Z) : list Z := let '(a, b, c, d) := ws in [a; b; c; d].

(** [file] is the file the ioctl came through, [ws] what [arg] points at. *)
Definition pty_slave_ioctl (file cmd arg : Z) (ws : Z * Z * Z * Z) : M yst (Z * list Z) :=
  let* ie := lock_irqsave plock_f in
  let fin r := spin_unlock plock_f;; when ie StiHelper;; ret r in
  if cmd =? TTY_IOCTL_TIOCSPGRP then set_pair_f (set_ppgrp arg);; fin (0, [])
  else if cmd =? TTY_IOCTL_TIOCGPGRP then
    let* g := gets (λ s, ppgrp (pair s)) in fin (0, if arg =? 0 then [] else [g])
  else if cmd =? TTY_IOCTL_TIOCGWINSZ then
    if arg =? 0 then fin (- EINVAL, [])
    else let* w := gets (λ s, winsize (pair s)) in fin (0, winsize_out w)
  else if cmd =? TIOCSWINSZ then
    if arg =? 0 then fin (- EINVAL, []) else set_winsize_and_signal ws ie
  else if cmd =? TIOCSCTTY then
    let* me := inK this_current in
    inK (kset me (set_ctty file));;
    let* g := gets (λ s, ppgrp (pair s)) in
    let* mg := inK (kget me pgid) in
    when (g =? 0) (set_pair_f (set_ppgrp mg));;
    fin (0, [])
  else if cmd =? TTY_IOCTL_SET_RAW then
    set_pair_f (λ p, set_pflags (Z.land (pflags p) (not32 (Z.lor TTY_FLAG_ICANON TTY_FLAG_ECHO))) p);; fin (0, [])
  else if cmd =? TTY_IOCTL_SET_COOKED then
    set_pair_f (λ p, set_pflags (Z.lor (pflags p) (Z.lor TTY_FLAG_ICANON TTY_FLAG_ECHO)) p);; fin (0, [])
  else fin (- ENOTTY, []).

Definition ENODEV : Z := 19.

Definition pty_slave_open : M yst Z :=
  let* p := gets pair in
  if negb (in_use p) then ret (- ENODEV)
  else if plocked p then ret (- EIO)
  else
    let* ie := lock_irqsave plock_f in
    set_pair_f (set_slave_open true);;
    set_pair_f (set_slave_ever_opened true);;
    let* w := ldisc_waiter_pop s2m_ring in
    spin_unlock plock_f;;
    wake w;;
    when ie StiHelper;;
    ret 0.

Definition pty_slave_close : M yst Z :=
  let* ie := lock_irqsave plock_f in
  set_pair_f (set_slave_open false);;
  let* w := ldisc_waiter_pop s2m_ring in
  spin_unlock plock_f;;
  wake w;;
  when ie StiHelper;;
  ret 0.

(** [for (t; (t = ldisc_waiter_pop(&ww)); ) { t->next = writers; writers = t; }] *)
Definition collect_step (chain : Z) : M yst (Z + Z) :=
  let* t := ldisc_waiter_pop s2m_writers in
  if t =? 0 then ret (inr chain)
  else inK (kset t (set_next chain));; ret (inl t).
Definition collect_writers : M yst Z :=
  let* s := get in loop (S (size (ts (ykernel s)))) collect_step 0.
(** The woken writers are READY only now. *)
Definition wake_writer_step (c : Z) : M kst (Z + unit) :=
  if c =? 0 then ret (inr tt)
  else
    let* nxt := kget c next in
    kset c (set_next 0);;
    kset c (set_state TASK_STATE_READY);;
    rq_enqueue_external c;;
    ret (inl nxt).

Definition pty_drop_fg_output (pgid : Z) : M yst unit :=
  let* p := gets pair in
  if negb (in_use p) then ret tt
  else
    let* ie := lock_irqsave plock_f in
    let* g := gets (λ s, ppgrp (pair s)) in
    if negb (pgid =? g) then spin_unlock plock_f;; when ie StiHelper
    else
      set_pair_f (λ p, set_s2m (set_rhead 0 (set_rtail 0 (s2m p))) p);;
      let* writers := collect_writers in
      spin_unlock plock_f;;
      inK (walk wake_writer_step writers);;
      when ie StiHelper.

(** * The master's file operations *)

Definition pty_master_read_round (size : Z) (ie : bool) : M yst (blocking (Z + list Z)) :=
  let* out := zoom (v_ring s2m_ring) (ldisc_drain 0 size) in
  if 0 <? Z.of_nat (length out) then
    let* w := ldisc_waiter_pop s2m_writers in
    spin_unlock plock_f;;
    wake w;;
    when ie StiHelper;;
    ret (Done (inr out))
  else
    let* p := gets pair in
    if slave_ever_opened p && negb (slave_open p) then
      spin_unlock plock_f;; when ie StiHelper;; ret (Done (inr []))
    else
      park_on (v_wait s2m_ring);;
      spin_unlock plock_f;;
      ret (Sleeps ie).
Definition pty_master_read (size : Z) : M yst (blocking (Z + list Z)) :=
  if size =? 0 then ret (Done (inr []))
  else let* ie := lock_irqsave plock_f in pty_master_read_round size ie.
Definition pty_master_read_resume (size me : Z) (ie : bool) : M yst (blocking (Z + list Z)) :=
  CliHelper;;
  spin_lock plock_f;;
  ldisc_waiter_remove s2m_ring me;;
  let* p := inK (kget me pending_signals) in
  if negb (p =? 0) then spin_unlock plock_f;; when ie StiHelper;; ret (Done (inl (- EINTR)))
  else pty_master_read_round size ie.

(** One keystroke: its echo needs room in s2m, unless it is a signal byte. *)
Definition pty_master_write_step (src : list Z) (ie : bool) (total : Z) : M yst (Z + blocking Z) :=
  if total <? Z.of_nat (length src) then
    let* b := of_option (arr_get src total) in
    let* p := gets pair in
    let is_signal_byte := has_flag (pflags p) TTY_FLAG_ISIG && (b =? CTRL_C) in
    if has_flag (pflags p) TTY_FLAG_ECHO && negb is_signal_byte &&
       (wrap64 (PTY_BUF_SIZE - count_of (s2m p)) =? 0) then
      park_on (v_wait s2m_writers);;
      spin_unlock plock_f;;
      ret (inr (Sleeps ie))
    else
      let* res := ldisc_input m2s_ring (pflags p) (ppgrp p) b (Some echo_to_master) in
      wake (wake_task res);;
      when (negb (signal res =? 0) && negb (signal_pgrp res =? 0)) (
        spin_unlock plock_f;;
        inK (signal_send_pgrp (signal_pgrp res) (signal res));;
        CliHelper;;
        spin_lock plock_f);;
      ret (inl (total + 1))
  else
    spin_unlock plock_f;;
    when ie StiHelper;;
    ret (inr (Done total)).
Definition pty_master_write_from (src : list Z) (ie : bool) (total : Z) : M yst (blocking Z) :=
  loop (S (S (length src))) (pty_master_write_step src ie) total.
Definition pty_master_write (src : list Z) : M yst (blocking Z) :=
  if Z.of_nat (length src) =? 0 then ret (Done 0)
  else let* ie := lock_irqsave plock_f in pty_master_write_from src ie 0.
Definition pty_master_write_resume (src : list Z) (total me : Z) (ie : bool) : M yst (blocking Z) :=
  CliHelper;;
  spin_lock plock_f;;
  ldisc_waiter_remove s2m_writers me;;
  let* p := inK (kget me pending_signals) in
  let* so := gets (λ s, slave_open (pair s)) in
  if negb (p =? 0) then
    spin_unlock plock_f;; when ie StiHelper;; ret (Done (if 0 <? total then total else - EINTR))
  else if negb so then
    spin_unlock plock_f;; when ie StiHelper;; ret (Done (if 0 <? total then total else - EIO))
  else pty_master_write_from src ie total.

(** [lck] is the int [arg] points at, [ws] the winsize. *)
Definition pty_master_ioctl (cmd arg lck : Z) (ws : Z * Z * Z * Z) : M yst (Z * list Z) :=
  let* ie := lock_irqsave plock_f in
  let fin r := spin_unlock plock_f;; when ie StiHelper;; ret r in
  if cmd =? TIOCGPTN then
    if arg =? 0 then fin (- EINVAL, []) else let* i := gets (λ s, pindex (pair s)) in fin (0, [i])
  else if cmd =? TIOCSPTLCK then
    if arg =? 0 then fin (- EINVAL, []) else set_pair_f (set_plocked (negb (lck =? 0)));; fin (0, [])
  else if cmd =? TIOCSWINSZ then
    if arg =? 0 then fin (- EINVAL, []) else set_winsize_and_signal ws ie
  else if cmd =? TTY_IOCTL_TIOCGWINSZ then
    if arg =? 0 then fin (- EINVAL, [])
    else let* w := gets (λ s, winsize (pair s)) in fin (0, winsize_out w)
  else fin (- ENOTTY, []).

(** [memset(p, 0, sizeof( *p))]. *)
Definition blank_ring : ring := Ring (replicate 4096 0) PTY_BUF_SIZE 0 0.
Definition blank_pair : pty_pair_t :=
  Pair false blank_ring (0, 0) blank_ring (0, 0) (0, 0) 0 0 (0, 0, 0, 0) false false false false false 0.

Definition pty_master_close : M yst Z :=
  let* ie := lock_irqsave plock_f in
  set_pair_f (set_master_open false);;
  let* w := ldisc_waiter_pop m2s_ring in
  let* writers := collect_writers in
  let* p := gets pair in
  when (negb (slave_open p) && negb (master_open p)) (set_pair_f (λ _, blank_pair));;
  spin_unlock plock_f;;
  wake w;;
  inK (walk wake_writer_step writers);;
  when ie StiHelper;;
  ret 0.

(** * The table of pairs *)

Definition pty_get (table : list pty_pair_t) (index : Z) : option Z :=
  if PTY_MAX_PAIRS <=? index then None
  else match arr_get table index with Some p => if in_use p then Some index else None | None => None end.

Definition fresh_pair (i : Z) : pty_pair_t :=
  Pair false blank_ring (0, 0) blank_ring (0, 0) (0, 0)
    (Z.lor TTY_FLAG_ICANON (Z.lor TTY_FLAG_ECHO TTY_FLAG_ISIG)) 0 (0, 0, 0, 0) true true false false true i.

(** [ptmx_open]: the first free slot becomes a fresh pair; its index, or -ENOMEM. *)
Fixpoint ptmx_scan (table : list pty_pair_t) (i : Z) : Z * list pty_pair_t :=
  match table with
  | [] => (- ENOMEM, [])
  | p :: rest =>
      if in_use p then let '(r, rest') := ptmx_scan rest (i + 1) in (r, p :: rest')
      else (i, fresh_pair i :: rest)
  end.
Definition ptmx_open (table : list pty_pair_t) : Z * list pty_pair_t := ptmx_scan table 0.

Definition pty_init : list pty_pair_t := replicate 8 blank_pair.
