(* ===== verification/LdiscThms.v ===== *)
(** Theorems on the rings and the line discipline: bytes come out in the order
    they went in, cooked reads return one line, and two defects: a full cooked
    ring can never be read again, and a pty slot whose master closes first is
    never reused. *)

From S2P Require Import Prelude TaskQueue Scheduler Host Ring Signal Ldisc Pty.

(** An empty ring of 512 bytes. *)
Lemma empty_ring_at n : (0 < n)%nat -> Z.of_nat n < 2 ^ 64 -> 2 ^ 64 mod Z.of_nat n = 0 ->
  ring_at (Ring (replicate n 0) (Z.of_nat n) 0 0) 0 [].
Proof. intros. split; simpl; auto; try lia. rewrite length_replicate. lia. Qed.

(** * First in, first out *)

Lemma push_all_spec r T l bytes : ring_at r T l -> Z.of_nat (length (l ++ bytes)) <= rsize r ->
  wp (push_all bytes) (λ _ r', rsize r' = rsize r /\ ring_at r' T (l ++ bytes)) r.
Proof.
  revert r l. induction bytes as [|b bytes IH]; intros r l HR Hle; cbn [push_all].
  - apply wp_ret. now rewrite app_nil_r.
  - rewrite length_app in Hle. simpl in Hle. apply wp_bind. eapply wp_mono; [apply (ldisc_push_spec r T l b HR)|].
    intros [] r1 [Es HR1]. destruct (Z.ltb_spec (Z.of_nat (length l)) (rsize r)); [|lia].
    eapply wp_mono; [apply (IH r1 (l ++ [b]) HR1)|].
    + rewrite !length_app. simpl. rewrite Es. lia.
    + intros [] r2 [Es2 HR2]. rewrite <- app_assoc in HR2. split; [congruence | exact HR2].
Qed.

(** The rings are FIFO: pushing bytes that fit behind the bytes [l] a ring
    holds and then draining [size] bytes raw yields the oldest [size] bytes of
    both, in order, and leaves the rest in order; also when the 64-bit counters
    have wrapped around. *)
Theorem ring_fifo r l bytes size :
  ring_rep r l -> Z.of_nat (length (l ++ bytes)) <= rsize r -> 0 <= size ->
  exists r1 r2, push_all bytes r = Some (tt, r1) /\
    ldisc_drain 0 size r1 = Some (take (Z.to_nat size) (l ++ bytes), r2) /\
    ring_rep r2 (drop (Z.to_nat size) (l ++ bytes)).
Proof.
  intros [T HR] Hle Hsz.
  destruct (proj1 (wp_run _ _ _) (push_all_spec r T l bytes HR Hle)) as ([] & r1 & E1 & Es & HR1).
  destruct (proj1 (wp_run _ _ _) (drain_raw_spec r1 T _ size HR1 Hsz)) as (out & r2 & E2 & Eo & _ & HR2).
  exists r1, r2. split; [exact E1|]. change (ldisc_drain 0 size r1) with (drain_raw size r1). rewrite E2.
  set (all := l ++ bytes) in *. destruct (Z.le_gt_cases size (Z.of_nat (length all))) as [H|H].
  - rewrite Z.min_l in * by lia. split; [now rewrite Eo | eexists; exact HR2].
  - rewrite Z.min_r, Nat2Z.id in * by lia. split.
    + rewrite Eo. now rewrite !take_ge by lia.
    + eexists. rewrite drop_ge in * by lia. exact HR2.
Qed.

Lemma ring_fifo_witness :
  exists r1 r2, push_all [104; 105] (Ring (replicate 512 0) 512 0 0) = Some (tt, r1) /\
    ldisc_drain 0 10 r1 = Some ([104; 105], r2) /\ ring_rep r2 [].
Proof.
  apply (ring_fifo (Ring (replicate 512 0) 512 0 0) [] [104; 105] 10).
  - exists 0. apply (empty_ring_at 512); [lia | reflexivity | reflexivity].
  - simpl. lia.
  - lia.
Defined.

(** * Cooked mode *)

(** C11. Cooked reads: with ICANON set, [ldisc_drain] returns nothing and
    changes nothing while no newline is buffered; otherwise it returns the
    first line with its newline, cut at the caller's buffer size, and what is
    left of the line and the lines after it stay for the next read. *)
Theorem cooked_read_returns_line r T l flags size :
  ring_at r T l -> has_flag flags TTY_FLAG_ICANON = true -> 0 <= T -> T + Z.of_nat (length l) < 2 ^ 64 -> 0 <= size ->
  exists out r', ldisc_drain flags size r = Some (out, r') /\
    match first_line l with
    | None => out = [] /\ r' = r
    | Some line => out = take (Z.to_nat size) line /\ ring_rep r' (drop (length out) l)
    end.
Proof.
  intros HR Hf HT Hw Hsz. apply wp_run. unfold ldisc_drain. rewrite Hf. apply wp_bind, wp_get, wp_bind.
  eapply wp_mono; [apply (find_nl_spec r T l HR)|]. intros o r1 [-> ->]. unfold first_line.
  destruct (list_find (λ c, c = NEWLINE) l) as [[k x]|] eqn:E; [|now apply wp_ret].
  apply list_find_Some in E as (Ek & _ & _). assert (Hk : (k < length l)%nat) by now apply lookup_lt_Some in Ek.
  eapply wp_mono; [now apply (drain_line_spec r T l k size HR)|]. intros out r2 (-> & _ & HR2).
  rewrite take_take. split; [f_equal; lia|]. eexists. rewrite length_take.
  replace (_ `min` length l)%nat with (Z.to_nat (Z.min size (Z.of_nat (S k)))) by lia. exact HR2.
Qed.

Lemma cooked_read_returns_line_witness :
  exists r1 out r', push_all [104; 105; 10; 120] (Ring (replicate 512 0) 512 0 0) = Some (tt, r1) /\
    ldisc_drain 7 100 r1 = Some (out, r') /\ out = [104; 105; 10] /\ ring_rep r' [120].
Proof.
  assert (H0 : ring_at (Ring (replicate 512 0) 512 0 0) 0 []) by (apply (empty_ring_at 512); [lia | reflexivity | reflexivity]).
  assert (H1 : Z.of_nat (length ([] ++ [104; 105; 10; 120])) <= 512) by (simpl; lia).
  destruct (proj1 (wp_run _ _ _) (push_all_spec _ 0 [] [104; 105; 10; 120] H0 H1)) as ([] & r1 & E1 & _ & HR1).
  destruct (cooked_read_returns_line r1 0 [104; 105; 10; 120] 7 100 HR1 eq_refl) as (out & r' & E & Ho & Hr).
  - lia.
  - simpl. lia.
  - lia.
  - exists r1, out, r'. split; [exact E1|]. split; [exact E|]. split; [exact Ho|]. rewrite Ho in Hr. exact Hr.
Defined.

(** A full cooked ring is stuck: when the buffer is full and holds no
    newline, every further byte is dropped, a newline too, and every cooked
    read finds nothing, so the reader blocks until bytes are erased again. *)
Theorem full_cooked_ring_is_stuck r T l flags size bytes :
  ring_at r T l -> Z.of_nat (length l) = rsize r -> NEWLINE ∉ l -> has_flag flags TTY_FLAG_ICANON = true ->
  push_all bytes r = Some (tt, r) /\ ldisc_drain flags size r = Some ([], r).
Proof.
  intros HR Hfull Hno Hf. split.
  - assert (Hp : forall b, ldisc_push b r = Some (tt, r)).
    { intros b. unfold ldisc_push, ldisc_count, bind, gets, get. rewrite (ring_count_eq r T l HR), Hfull.
      now rewrite Z.leb_refl. }
    induction bytes as [|b bytes IH]; [reflexivity|]. cbn [push_all]. unfold bind. now rewrite Hp.
  - unfold ldisc_drain. rewrite Hf. unfold bind, get.
    destruct (proj1 (wp_run _ _ _) (find_nl_spec r T l HR)) as (o & r1 & E & -> & Ho). rewrite E, Ho.
    rewrite (proj2 (list_find_None _ _)); [reflexivity|]. apply list.Forall_forall. intros x Hx E1. apply Hno. now rewrite <- E1.
Qed.

Lemma full_cooked_ring_is_stuck_witness :
  let r := Ring (replicate 512 97) 512 512 0 in
  push_all [NEWLINE] r = Some (tt, r) /\ ldisc_drain 7 80 r = Some ([], r).
Proof.
  apply (full_cooked_ring_is_stuck _ 0 (replicate 512 97)).
  - split; [split; [simpl; lia | split; reflexivity] | simpl; lia | reflexivity | reflexivity | vm_compute; reflexivity].
  - reflexivity.
  - intros H. apply elem_of_replicate in H as [H _]. discriminate H.
  - reflexivity.
Defined.

(** * The table of pty pairs *)

(** A pty slot leaks when the master closes before the slave: after
    [pty_master_close] with the slave open and then [pty_slave_close], the slot
    is still marked in use though both sides are closed, so [ptmx_open] never
    hands it out again; with every slot in this state it fails with -ENOMEM. *)
Theorem pty_slot_leaks_when_master_closes_first :
  exists s1 s2 p, let s0 := Yst (Kst ∅ [] 0 true 0 false 0 false 1 false 0 1 [] 0 0 [])
                        (set_slave_open true (fresh_pair 0)) in
    pty_master_close s0 = Some (0, s1) /\ pty_slave_close s1 = Some (0, s2) /\ pair s2 = p /\
    master_open p = false /\ slave_open p = false /\ in_use p = true /\
    ptmx_open (replicate 8 p) = (- ENOMEM, replicate 8 p).
Proof.
  eexists _, _, _. cbv zeta. split; [vm_compute; reflexivity|]. split; [vm_compute; reflexivity|].
  split; [reflexivity|]. repeat split; vm_compute; reflexivity.
Qed.
