(* ===== verification/Pipe.v ===== *)
(** file_system/pipe.c: the in-kernel pipe, anonymous or attached to a FIFO
    inode. Reads, writes, closes and FIFO opens as the steps between the points
    where the caller parks; creating a pair of ends as code over an allocator
    that may fail. *)

From S2P Require Import Prelude TaskQueue Scheduler Host Ring Signal.

(** * State *)

Record pipe_t := Pipe {
  pipe_lock : bool;
  pring : ring;
  readers : Z;
  writers : Z;
  ever_readers : bool;
  ever_writers : bool;
  read_waiter : Z * Z;
  write_waiter : Z * Z;
  pinode : Z }.

Definition set_pipe_lock (v : bool) (s : pipe_t) : pipe_t :=
  Pipe v (pring s) (readers s) (writers s) (ever_readers s) (ever_writers s) (read_waiter s) (write_waiter s)
    (pinode s).
Definition set_pring (v : ring) (s : pipe_t) : pipe_t :=
  Pipe (pipe_lock s) v (readers s) (writers s) (ever_readers s) (ever_writers s) (read_waiter s)
    (write_waiter s) (pinode s).
Definition set_readers (v : Z) (s : pipe_t) : pipe_t :=
  Pipe (pipe_lock s) (pring s) v (writers s) (ever_readers s) (ever_writers s) (read_waiter s)
    (write_waiter s) (pinode s).
Definition set_writers (v : Z) (s : pipe_t) : pipe_t :=
  Pipe (pipe_lock s) (pring s) (readers s) v (ever_readers s) (ever_writers s) (read_waiter s)
    (write_waiter s) (pinode s).
Definition set_ever_readers (v : bool) (s : pipe_t) : pipe_t :=
  Pipe (pipe_lock s) (pring s) (readers s) (writers s) v (ever_writers s) (read_waiter s) (write_waiter s)
    (pinode s).
Definition set_ever_writers (v : bool) (s : pipe_t) : pipe_t :=
  Pipe (pipe_lock s) (pring s) (readers s) (writers s) (ever_readers s) v (read_waiter s) (write_waiter s)
    (pinode s).
Definition set_read_waiter (v : Z * Z) (s : pipe_t) : pipe_t :=
  Pipe (pipe_lock s) (pring s) (readers s) (writers s) (ever_readers s) (ever_writers s) v (write_waiter s)
    (pinode s).
Definition set_write_waiter (v : Z * Z) (s : pipe_t) : pipe_t :=
  Pipe (pipe_lock s) (pring s) (readers s) (writers s) (ever_readers s) (ever_writers s) (read_waiter s) v
    (pinode s).
Definition set_pinode (v : Z) (s : pipe_t) : pipe_t :=
  Pipe (pipe_lock s) (pring s) (readers s) (writers s) (ever_readers s) (ever_writers s) (read_waiter s)
    (write_waiter s) v.

(** The pipe in the kernel, with the FIFO inode's pointer to it ([in->pipe],
    0 is NULL) and whether it has been freed. *)
Record pst := Pst {
  pkernel : kst;
  pipe : pipe_t;
  fifo_attach_lock : bool;
  inode_pipe : Z;
  freed : bool }.

Definition set_pkernel (v : kst) (s : pst) : pst :=
  Pst v (pipe s) (fifo_attach_lock s) (inode_pipe s) (freed s).
Definition set_pipe (v : pipe_t) (s : pst) : pst :=
  Pst (pkernel s) v (fifo_attach_lock s) (inode_pipe s) (freed s).
Definition set_fifo_attach_lock (v : bool) (s : pst) : pst :=
  Pst (pkernel s) (pipe s) v (inode_pipe s) (freed s).
Definition set_inode_pipe (v : Z) (s : pst) : pst :=
  Pst (pkernel s) (pipe s) (fifo_attach_lock s) v (freed s).
Definition set_freed (v : bool) (s : pst) : pst :=
  Pst (pkernel s) (pipe s) (fifo_attach_lock s) (inode_pipe s) v.

#[global] Instance pst_kernel : HasKernel pst := Field pkernel set_pkernel.
Definition pipe_f {A} (g : pipe_t -> A) (u : A -> pipe_t -> pipe_t) : field pst A :=
  Field (λ s, g (pipe s)) (λ a s, set_pipe (u a (pipe s)) s).
Definition lock_f : field pst bool := pipe_f pipe_lock set_pipe_lock.
Definition attach_f : field pst bool := Field fifo_attach_lock set_fifo_attach_lock.
Definition ring_f : field pst ring := pipe_f pring set_pring.
Definition rq_f : field pst (Z * Z) := pipe_f read_waiter set_read_waiter.
Definition wq_f : field pst (Z * Z) := pipe_f write_waiter set_write_waiter.
Definition on_pipe (f : pipe_t -> pipe_t) : M pst unit := modify (λ s, set_pipe (f (pipe s)) s).

Definition PIPE_BUF_SIZE : Z := 4096.
Inductive side := PIPE_SIDE_READ | PIPE_SIDE_WRITE.
Definition is_read (x : side) : bool := match x with PIPE_SIDE_READ => true | _ => false end.

(** * Reading *)

(** One round of the loop, with the lock held. *)
Definition pipe_read_round (size : Z) (ie : bool) : M pst (blocking (list Z)) :=
  let* p := gets pipe in
  if 0 <? count_of (pring p) then
    let* out := zoom ring_f (drain_raw size) in
    let* w := q_pop wq_f in
    spin_unlock lock_f;;
    wake w;;
    when ie StiHelper;;
    ret (Done out)
  else if writers p =? 0 then
    spin_unlock lock_f;;
    when ie StiHelper;;
    ret (Done [])
  else
    park_on rq_f;;
    spin_unlock lock_f;;
    ret (Sleeps ie).

(** [e] is the end in [f->private_data], if any; an error is a negative number. *)
Definition pipe_read (e : option side) (size : Z) : M pst (Z + blocking (list Z)) :=
  if size =? 0 then ret (inr (Done []))
  else match e with
  | Some PIPE_SIDE_READ =>
      let* ie := lock_irqsave lock_f in
      let* r := pipe_read_round size ie in
      ret (inr r)
  | _ => ret (inl (- EBADF))
  end.
Definition pipe_read_resume (size me : Z) (ie : bool) : M pst (blocking (list Z)) :=
  CliHelper;;
  spin_lock lock_f;;
  q_remove rq_f me;;
  pipe_read_round size ie.

(** * Writing *)

(** A round of the loop with [total] bytes written: it returns, parks the
    writer, or has dropped the lock and goes round again. *)
Inductive write_result := WDone (r : Z) | WSleeps (total : Z) (ie : bool) | WAgain (total : Z) (ie : bool).

Definition pipe_write_round (src : list Z) (ie : bool) (total : Z) : M pst write_result :=
  let size := Z.of_nat (length src) in
  if total <? size then
    let* p := gets pipe in
    if readers p =? 0 then
      spin_unlock lock_f;;
      let* me := inK this_current in
      inK (signal_send me SIGPIPE);;
      when ie StiHelper;;
      ret (WDone (if 0 <? total then total else - EPIPE))
    else if 0 <? space_of (pring p) then
      let* n := zoom ring_f (ring_fill (drop (Z.to_nat total) src)) in
      let total' := total + n in
      let* r := q_pop rq_f in
      spin_unlock lock_f;;
      wake r;;
      if total' =? size then when ie StiHelper;; ret (WDone total')
      else ret (WAgain total' ie)
    else
      park_on wq_f;;
      spin_unlock lock_f;;
      ret (WSleeps total ie)
  else
    spin_unlock lock_f;;
    when ie StiHelper;;
    ret (WDone total).
Definition pipe_write (e : option side) (src : list Z) : M pst (Z + write_result) :=
  if Z.of_nat (length src) =? 0 then ret (inr (WDone 0))
  else match e with
  | Some PIPE_SIDE_WRITE =>
      let* ie := lock_irqsave lock_f in
      let* r := pipe_write_round src ie 0 in
      ret (inr r)
  | _ => ret (inl (- EBADF))
  end.
(** After [WAgain]. *)
Definition pipe_write_again (src : list Z) (total : Z) (ie : bool) : M pst write_result :=
  CliHelper;;
  spin_lock lock_f;;
  pipe_write_round src ie total.
(** After [schedule] returned to the parked writer [me]. *)
Definition pipe_write_resume (src : list Z) (total me : Z) (ie : bool) : M pst write_result :=
  CliHelper;;
  spin_lock lock_f;;
  q_remove wq_f me;;
  pipe_write_round src ie total.

(** * Closing *)

Definition pipe_free : M pst unit := modify (set_freed true).

Definition drop_end (e : side) (p : pipe_t) : pipe_t :=
  match e with
  | PIPE_SIDE_READ => if 0 <? readers p then set_readers (readers p - 1) p else p
  | PIPE_SIDE_WRITE => if 0 <? writers p then set_writers (writers p - 1) p else p
  end.

Definition pipe_close (e : option side) : M pst Z :=
  match e with
  | None => ret 0
  | Some e =>
      let* is_fifo := gets (λ s, negb (pinode (pipe s) =? 0)) in
      let* ie := check_interrupts in
      CliHelper;;
      when is_fifo (spin_lock attach_f);;
      spin_lock lock_f;;
      on_pipe (drop_end e);;
      let* p := gets pipe in
      let* chain :=
        (match e with
         | PIPE_SIDE_READ => if readers p =? 0 then q_drain wq_f else ret 0
         | PIPE_SIDE_WRITE => if writers p =? 0 then q_drain rq_f else ret 0
         end) in
      let free_pipe := (readers p =? 0) && (writers p =? 0) in
      when (free_pipe && negb (pinode p =? 0)) (modify (set_inode_pipe 0));;
      spin_unlock lock_f;;
      when is_fifo (spin_unlock attach_f);;
      wake_chain chain;;
      when free_pipe pipe_free;;
      when ie StiHelper;;
      ret 0
  end.

(** * FIFO open *)

Definition O_ACCMODE : Z := 3.
Definition O_WRONLY : Z := 1.
Definition side_of (flags : Z) : side :=
  if Z.land flags O_ACCMODE =? O_WRONLY then PIPE_SIDE_WRITE else PIPE_SIDE_READ.

(** [pipe_alloc(in)] on success. *)
Definition new_pipe (inode : Z) : pipe_t :=
  Pipe false (Ring (replicate 4096 0) PIPE_BUF_SIZE 0 0) 0 0 false false (0, 0) (0, 0) inode.

Definition count_end (e : side) (p : pipe_t) : pipe_t :=
  match e with
  | PIPE_SIDE_READ => set_ever_readers true (set_readers (wrap32 (readers p + 1)) p)
  | PIPE_SIDE_WRITE => set_ever_writers true (set_writers (wrap32 (writers p + 1)) p)
  end.
Definition my_queue (e : side) : field pst (Z * Z) := match e with PIPE_SIDE_READ => rq_f | PIPE_SIDE_WRITE => wq_f end.
Definition peer_queue (e : side) : field pst (Z * Z) := match e with PIPE_SIDE_READ => wq_f | PIPE_SIDE_WRITE => rq_f end.

(** A round of the wait for a peer; [Done tt] goes on to install the end. *)
Definition fifo_wait_round (e : side) (peer_chain : Z) (ie : bool) : M pst (blocking unit) :=
  let* p := gets pipe in
  let need_block := match e with PIPE_SIDE_READ => negb (ever_writers p) | PIPE_SIDE_WRITE => negb (ever_readers p) end in
  if negb need_block then
    spin_unlock lock_f;;
    wake_chain peer_chain;;
    when ie StiHelper;;
    ret (Done tt)
  else
    park_on (my_queue e);;
    spin_unlock lock_f;;
    wake_chain peer_chain;;
    ret (Sleeps ie).

(** [inode] is the FIFO's inode, [fresh] what [pipe_alloc] returns (0: out of memory). *)
Definition fifo_open (inode fresh flags : Z) : M pst (Z + blocking unit) :=
  let e := side_of flags in
  let* ie := lock_irqsave attach_f in
  let* ip := gets inode_pipe in
  if (ip =? 0) && (fresh =? 0) then
    spin_unlock attach_f;;
    when ie StiHelper;;
    ret (inl (- ENOMEM))
  else
    when (ip =? 0) (
      modify (λ s, Pst (pkernel s) (new_pipe inode) (fifo_attach_lock s) fresh false));;
    spin_lock lock_f;;
    on_pipe (count_end e);;
    spin_unlock attach_f;;
    let* peer_chain := q_drain (peer_queue e) in
    let* r := fifo_wait_round e peer_chain ie in
    ret (inr r).
Definition fifo_open_resume (e : side) (me : Z) (ie : bool) : M pst (blocking unit) :=
  CliHelper;;
  spin_lock lock_f;;
  q_remove (my_queue e) me;;
  fifo_wait_round e 0 ie.

(** The last part: [install_end] succeeds ([end_ok]) or the count is rolled back. *)
Definition uncount_end (e : side) (p : pipe_t) : pipe_t :=
  match e with
  | PIPE_SIDE_READ => set_readers (wrap32 (readers p - 1)) p
  | PIPE_SIDE_WRITE => set_writers (wrap32 (writers p - 1)) p
  end.
Definition fifo_open_finish (e : side) (end_ok : bool) : M pst Z :=
  if end_ok then ret 0
  else
    let* ie := check_interrupts in
    CliHelper;;
    spin_lock attach_f;;
    spin_lock lock_f;;
    on_pipe (uncount_end e);;
    let* p := gets pipe in
    let free_pipe := (readers p =? 0) && (writers p =? 0) in
    when free_pipe (modify (set_inode_pipe 0));;
    spin_unlock lock_f;;
    spin_unlock attach_f;;
    when free_pipe pipe_free;;
    when ie StiHelper;;
    ret (- ENOMEM).

(** * Creating a pair *)

(** The heap as [pipe_create_pair] sees it: whether the next allocations
    succeed, and the objects it has live. *)
Inductive obj := PipeObj | BufObj | RFile | WFile | REnd | WEnd.
#[global] Instance obj_eq_dec : EqDecision obj.
Proof. solve_decision. Defined.
Record heap := Heap { oracle : list bool; live : list obj }.

Definition kmalloc (o : obj) : M heap bool := λ h,
  match oracle h with
  | true :: rest => Some (true, Heap rest (live h ++ [o]))
  | false :: rest => Some (false, Heap rest (live h))
  | [] => Some (false, h)
  end.
(** Freeing what is not live is an error. *)
Definition kfree (o : obj) : M heap unit := λ h,
  if decide (o ∈ live h) then Some (tt, Heap (oracle h) (filter (λ x, x <> o) (live h))) else None.

Definition pipe_alloc : M heap bool :=
  let* p := kmalloc PipeObj in
  if negb p then ret false
  else
    let* b := kmalloc BufObj in
    if negb b then kfree PipeObj;; ret false else ret true.

(** [pipe_free(p)] of a pipe that has its buffer. *)
Definition free_pipe_obj : M heap unit := kfree BufObj;; kfree PipeObj.

Definition install_end (e : side) : M heap Z :=
  let* b := kmalloc (match e with PIPE_SIDE_READ => REnd | PIPE_SIDE_WRITE => WEnd end) in
  if b then ret 0 else ret (- ENOMEM).

Definition pair_fail (rf wf : bool) : M heap Z :=
  when rf (kfree RFile);;
  when wf (kfree WFile);;
  free_pipe_obj;;
  ret (- ENOMEM).

Definition pipe_create_pair : M heap Z :=
  let* p := pipe_alloc in
  if negb p then ret (- ENOMEM)
  else
    let* rf := kmalloc RFile in
    let* wf := kmalloc WFile in
    if negb rf || negb wf then pair_fail rf wf
    else
      let* r1 := install_end PIPE_SIDE_READ in
      if r1 <? 0 then pair_fail rf wf
      else
        let* r2 := install_end PIPE_SIDE_WRITE in
        if r2 <? 0 then kfree REnd;; pair_fail rf wf
        else ret 0.
