(* ===== verification/PipeThms.v ===== *)
(** Theorems on file_system/pipe.c: the pipe is a FIFO byte stream of bounded
    capacity, readers and writers park only when they must, closing the last
    end releases the pipe once, and creating a pair never leaks. *)

From S2P Require Import Prelude TaskQueue Scheduler Host Ring Signal Pipe.

Ltac wlp_step :=
  match goal with
  | |- wlp (bind _ _) _ _ => apply wlp_bind
  | |- wlp (ret _) _ _ => apply wlp_ret
  | |- wlp (gets _) _ _ => apply wlp_gets
  | |- wlp get _ _ => apply wlp_get
  | |- wlp (modify _) _ _ => apply wlp_modify
  | |- wlp (when _ _) _ _ => apply wlp_when
  | |- wlp (inK _) _ _ => apply wlp_inK; intros ? ?
  | |- wlp (on_tasks _) _ _ => apply wlp_inK; intros ? ?
  end; cbv beta.
Ltac wlp_steps := repeat (wlp_step; simpl).

(** * The bytes of the pipe *)

Definition holds (s : pst) (l : list Z) : Prop := ring_rep (pring (pipe s)) l /\ rsize (pring (pipe s)) = PIPE_BUF_SIZE.

(** Waking, parking and locking do not touch the ring. *)
Lemma wlp_wake (Q : unit -> pst -> Prop) s w : (forall k, Q tt (set_pkernel k s)) -> Q tt s -> wlp (wake w) Q s.
Proof. intros H H0. unfold wake. apply wlp_when. destruct (negb (w =? 0)); [|exact H0]. apply wlp_inK. intros [] k. apply H. Qed.

Lemma wlp_sti (ie : bool) (Q : unit -> pst -> Prop) s : (forall k, Q tt (set_pkernel k s)) -> Q tt s -> wlp (when ie StiHelper) Q s.
Proof. intros H H0. apply wlp_when. destruct ie; [|exact H0]. apply wlp_modify. apply H. Qed.

(** A completed read round takes a prefix of the bytes; it comes back empty
    handed only at end of file and parks only when the pipe is empty and may
    still be written. *)
Lemma read_round_effect s l size ie : holds s l -> 0 < size ->
  wlp (pipe_read_round size ie) (λ r s', exists l', holds s' l' /\
    match r with
    | Done out => l = out ++ l' /\ Z.of_nat (length out) = Z.min size (Z.of_nat (length l)) /\
                  (out = [] -> writers (pipe s) = 0)
    | Sleeps _ => l = [] /\ l' = [] /\ writers (pipe s) <> 0
    end) s.
Proof.
  intros [[T HR] Hsz] Hs. unfold pipe_read_round. apply wlp_bind, wlp_gets. rewrite (ring_count_eq _ _ _ HR).
  destruct (Z.ltb_spec 0 (Z.of_nat (length l))) as [Hl|Hl].
  - apply wlp_bind, wlp_zoom. eapply wlp_mono; [apply wlp_of_wp, (drain_raw_spec _ T l size HR); lia|].
    intros out r' (Eo & Es & HR'). set (n := Z.to_nat _) in *. unfold q_pop, on_tasks.
    apply wlp_bind, wlp_bind, wlp_gets, wlp_bind, wlp_inK. intros [w q] k. apply wlp_bind, wlp_modify, wlp_ret.
    apply wlp_bind, wlp_modify, wlp_bind.
    assert (HF : forall s1, pring (pipe s1) = r' -> exists l', holds s1 l' /\
      (l = out ++ l' /\ Z.of_nat (length out) = Z.min size (Z.of_nat (length l)) /\ (out = [] -> writers (pipe s) = 0))).
    { intros s1 E1. exists (drop n l). split; [split; [eexists; rewrite E1; exact HR' | rewrite E1, Es; exact Hsz]|].
      rewrite Eo. split_and!; [now rewrite take_drop | rewrite length_take; lia|].
      intros E. apply (f_equal length) in E. rewrite length_take in E. simpl in E. lia. }
    apply wlp_wake; [intros k2|]; (apply wlp_bind, wlp_sti; [intros k3|]; apply wlp_ret; apply HF; reflexivity).
  - assert (l = []) as -> by (destruct l; simpl in *; [reflexivity | lia]).
    assert (HF : forall s1, pring (pipe s1) = pring (pipe s) -> holds s1 []).
    { intros s1 E1. split; [exists T | ]; rewrite E1; assumption. }
    destruct (Z.eqb_spec (writers (pipe s)) 0) as [Hw|Hw].
    + apply wlp_bind, wlp_modify, wlp_bind. apply wlp_sti; [intros k3|]; apply wlp_ret; exists [];
        (split; [now apply HF|]); split_and!; auto; simpl; lia.
    + unfold park_on, q_enqueue, on_tasks. apply wlp_bind, wlp_bind, wlp_inK. intros me k. apply wlp_bind, wlp_bind, wlp_gets, wlp_bind, wlp_inK.
      intros q k2. apply wlp_modify, wlp_inK. intros [] k3. apply wlp_bind, wlp_modify, wlp_ret.
      exists []. split; [now apply HF|]. auto.
Qed.

(** How many bytes of the source are in the pipe after a write round. *)
Definition written (total : Z) (r : write_result) : Z :=
  match r with WDone n => if n <? 0 then total else n | WSleeps n _ => n | WAgain n _ => n end.

(** A completed write round appends the next bytes of the source, as many as fit;
    it parks only when the pipe is full and fails only when nobody reads. *)
Lemma write_round_effect s l src ie total : holds s l -> 0 <= total ->
  wlp (pipe_write_round src ie total) (λ r s',
    holds s' (l ++ take (Z.to_nat (written total r - total)) (drop (Z.to_nat total) src)) /\
    total <= written total r /\
    match r with
    | WDone n => n < 0 -> readers (pipe s) = 0 /\ n = - EPIPE
    | WSleeps n _ => n = total /\ Z.of_nat (length l) = PIPE_BUF_SIZE /\ readers (pipe s) <> 0
    | WAgain n _ => total < n < Z.of_nat (length src)
    end) s.
Proof.
  intros [[T HR] Hsz] Ht. unfold pipe_write_round.
  assert (HF : forall s1, pring (pipe s1) = pring (pipe s) ->
            holds s1 (l ++ take (Z.to_nat (total - total)) (drop (Z.to_nat total) src))).
  { intros s1 E1. rewrite Z.sub_diag, take_0, app_nil_r. split; [exists T | ]; rewrite E1; assumption. }
  destruct (Z.ltb_spec total (Z.of_nat (length src))) as [Hlt|Hge].
  2: { apply wlp_bind, wlp_modify, wlp_bind. apply wlp_sti; [intros k|]; apply wlp_ret; simpl;
       (destruct (Z.ltb_spec total 0); [lia|]); split_and!; try lia; now apply HF. }
  apply wlp_bind, wlp_gets. destruct (Z.eqb_spec (readers (pipe s)) 0) as [Hr|Hr].
  - apply wlp_bind, wlp_modify, wlp_bind, wlp_inK. intros me k. apply wlp_bind, wlp_inK. intros [] k2. apply wlp_bind.
    assert (Hw : written total (WDone (if 0 <? total then total else - EPIPE)) = total).
    { simpl. destruct (Z.ltb_spec 0 total); [destruct (Z.ltb_spec total 0); lia | reflexivity]. }
    apply wlp_sti; [intros k3|]; apply wlp_ret; rewrite Hw; (split_and!; [now apply HF | lia|]);
      intros Hn; (split; [exact Hr|]); destruct (Z.ltb_spec 0 total); [lia | reflexivity | lia | reflexivity].
  - assert (Esp : space_of (pring (pipe s)) = PIPE_BUF_SIZE - Z.of_nat (length l)).
    { unfold space_of. rewrite (ring_count_eq _ _ _ HR), Hsz. pose proof (ra_cap _ _ _ HR). rewrite Hsz in *.
      unfold PIPE_BUF_SIZE in *. apply wrap64_small. lia. }
    rewrite Esp. destruct (Z.ltb_spec 0 (PIPE_BUF_SIZE - Z.of_nat (length l))) as [Hsp|Hsp].
    + apply wlp_bind, wlp_zoom. eapply wlp_mono; [apply wlp_of_wp, (ring_fill_spec _ T l _ HR)|].
      intros n r' (En & Es & HR'). rewrite length_drop, Hsz in En. unfold q_pop, on_tasks.
      apply wlp_bind, wlp_bind, wlp_gets, wlp_bind, wlp_inK. intros [w q] k. apply wlp_bind, wlp_modify, wlp_ret.
      apply wlp_bind, wlp_modify, wlp_bind.
      assert (HG : forall s1, pring (pipe s1) = r' -> holds s1 (l ++ take (Z.to_nat (total + n - total)) (drop (Z.to_nat total) src))).
      { intros s1 E1. replace (total + n - total) with n by lia. split; [exists T | ]; rewrite E1; [exact HR' | congruence]. }
      apply wlp_wake; [intros k2|]; (destruct (Z.eqb_spec (total + n) (Z.of_nat (length src)));
        [apply wlp_bind, wlp_sti; [intros k3|]; apply wlp_ret; simpl; (destruct (Z.ltb_spec (total + n) 0); [lia|]);
         split_and!; try lia; now apply HG
        | apply wlp_ret; simpl; split_and!; try lia; now apply HG]).
    + unfold park_on, q_enqueue, on_tasks. apply wlp_bind, wlp_bind, wlp_inK. intros me k. apply wlp_bind, wlp_bind, wlp_gets, wlp_bind, wlp_inK.
      intros q k2. apply wlp_modify, wlp_inK. intros [] k3. apply wlp_bind, wlp_modify, wlp_ret. simpl.
      pose proof (ra_cap _ _ _ HR). split; [now apply HF|]. split_and!; [lia | reflexivity | lia | exact Hr].
Qed.

(** * Code that leaves the ring alone *)

Definition keeps {A} (m : M pst A) : Prop :=
  forall s a s', m s = Some (a, s') -> pring (pipe s') = pring (pipe s).

Lemma keeps_ret {A} (a : A) : keeps (ret a).
Proof. intros s b s' E. now injection E as <- <-. Qed.
Lemma keeps_gets {A} (f : pst -> A) : keeps (gets f).
Proof. intros s b s' E. now injection E as <- <-. Qed.
Lemma keeps_undef {A} : keeps (@undef pst A).
Proof. intros s b s' E. discriminate E. Qed.
Lemma keeps_modify f : (forall s, pring (pipe (f s)) = pring (pipe s)) -> keeps (modify f).
Proof. intros H s b s' E. injection E as <- <-. apply H. Qed.
Lemma keeps_bind {A B} (m : M pst A) (f : A -> M pst B) : keeps m -> (forall a, keeps (f a)) -> keeps (bind m f).
Proof.
  intros Hm Hf s b s' E. unfold bind in E. destruct (m s) as [[a s1]|] eqn:Em; [|easy].
  rewrite (Hf a s1 b s' E). exact (Hm s a s1 Em).
Qed.
Lemma keeps_inK {A} (m : M kst A) : keeps (inK m).
Proof. intros s a s' E. unfold inK, zoom in E. destruct (m _) as [[b k]|]; [|easy]. now injection E as <- <-. Qed.
Lemma keeps_when b (m : M pst unit) : keeps m -> keeps (when b m).
Proof. destruct b; [easy | intros _; apply keeps_ret]. Qed.

Create HintDb keeps discriminated.
#[export] Hint Resolve keeps_ret keeps_gets keeps_undef keeps_inK keeps_when : keeps.
Ltac keeps :=
  repeat first
    [ progress eauto 2 with keeps
    | apply keeps_bind; [|intros ?]
    | apply keeps_modify; intros ?; simpl
    | apply keeps_when
    | match goal with |- keeps (if ?b then _ else _) => destruct b end
    | match goal with |- keeps (match ?x with _ => _ end) => destruct x end ].

Lemma keeps_spin_lock f : (forall b s, pring (pipe (fset f b s)) = pring (pipe s)) -> keeps (spin_lock f).
Proof. intros H. unfold spin_lock. keeps; apply H. Qed.

Lemma keeps_q_drain q : (forall v s, pring (pipe (fset q v s)) = pring (pipe s)) -> keeps (q_drain q).
Proof. intros H. unfold q_drain, on_tasks. keeps; apply H. Qed.

Lemma close_keeps e : keeps (pipe_close e).
Proof.
  destruct e as [e|]; [|apply keeps_ret].
  unfold pipe_close, check_interrupts, CliHelper, StiHelper, spin_unlock, on_pipe, wake_chain, pipe_free. keeps; auto.
  all: try (apply keeps_spin_lock; reflexivity); try (apply keeps_q_drain; reflexivity).
  destruct e; simpl; match goal with |- context[if ?b then _ else _] => destruct b end; reflexivity.
Qed.

Lemma lock_irqsave_keeps : keeps (lock_irqsave lock_f).
Proof. unfold lock_irqsave, check_interrupts, CliHelper. keeps; auto; apply keeps_spin_lock; reflexivity. Qed.

Lemma relock_keeps q me : (forall v s, pring (pipe (fset q v s)) = pring (pipe s)) ->
  keeps (CliHelper;; spin_lock lock_f;; q_remove q me).
Proof.
  intros H. unfold CliHelper, q_remove, on_tasks. keeps; auto; apply keeps_spin_lock; reflexivity.
Qed.

(** * The stream *)

(** A run of the pipe's users: [W] is all that was accepted from writers, [R]
    all that was given to readers, each in order. A round of a read or a write
    starts at the call or where the caller resumes; between rounds the rest of
    the kernel runs. *)
Inductive pipe_run (s0 : pst) : pst -> list Z -> list Z -> Prop :=
| run_start : pipe_run s0 s0 [] []
| run_read s W R size r s' :
    pipe_run s0 s W R -> pipe_read (Some PIPE_SIDE_READ) size s = Some (inr r, s') -> 0 < size ->
    pipe_run s0 s' W (R ++ match r with Done out => out | Sleeps _ => [] end)
| run_read_resume s W R size me ie r s' :
    pipe_run s0 s W R -> pipe_read_resume size me ie s = Some (r, s') -> 0 < size ->
    pipe_run s0 s' W (R ++ match r with Done out => out | Sleeps _ => [] end)
| run_write s W R src r s' :
    pipe_run s0 s W R -> pipe_write (Some PIPE_SIDE_WRITE) src s = Some (inr r, s') ->
    pipe_run s0 s' (W ++ take (Z.to_nat (written 0 r)) src) R
| run_write_again s W R src total ie r s' :
    pipe_run s0 s W R -> 0 <= total -> pipe_write_again src total ie s = Some (r, s') ->
    pipe_run s0 s' (W ++ take (Z.to_nat (written total r - total)) (drop (Z.to_nat total) src)) R
| run_write_resume s W R src total me ie r s' :
    pipe_run s0 s W R -> 0 <= total -> pipe_write_resume src total me ie s = Some (r, s') ->
    pipe_run s0 s' (W ++ take (Z.to_nat (written total r - total)) (drop (Z.to_nat total) src)) R
| run_close s W R e r s' :
    pipe_run s0 s W R -> pipe_close e s = Some (r, s') -> pipe_run s0 s' W R
| run_kernel s W R k :
    pipe_run s0 s W R -> pipe_run s0 (set_pkernel k s) W R.

Lemma keeps_holds {A} (m : M pst A) s a s' l : keeps m -> m s = Some (a, s') -> holds s l -> holds s' l.
Proof. intros Hk E HH. unfold holds. rewrite (Hk _ _ _ E). exact HH. Qed.

Lemma bind_inv {S A B} (m : M S A) (f : A -> M S B) s b s' :
  bind m f s = Some (b, s') -> exists a s1, m s = Some (a, s1) /\ f a s1 = Some (b, s').
Proof. unfold bind. destruct (m s) as [[a s1]|]; [eauto | easy]. Qed.

Lemma bind_assoc {S A B C} (m : M S A) (f : A -> M S B) (g : B -> M S C) s :
  bind (bind m f) g s = bind m (λ a, bind (f a) g) s.
Proof. unfold bind. destruct (m s) as [[a s1]|]; reflexivity. Qed.

Lemma pipe_run_stream s0 s W R : holds s0 [] -> pipe_run s0 s W R -> exists l, holds s l /\ W = R ++ l.
Proof.
  intros H0 Hr. induction Hr as
    [|s W R size r s' _ (l & HH & ->) E Hs|s W R size me ie r s' _ (l & HH & ->) E Hs|s W R src r s' _ (l & HH & ->) E
    |s W R src total ie r s' _ (l & HH & ->) Ht E|s W R src total me ie r s' _ (l & HH & ->) Ht E
    |s W R e r s' _ (l & HH & ->) E|s W R k _ (l & HH & ->)].
  - exists []. auto.
  - unfold pipe_read in E. destruct (Z.eqb_spec size 0); [lia|].
    apply bind_inv in E as (ie & s1 & E1 & E). apply bind_inv in E as (r' & s2 & E2 & E). injection E as <- <-.
    destruct (read_round_effect s1 l size ie (keeps_holds _ _ _ _ _ lock_irqsave_keeps E1 HH) Hs _ _ E2) as (l' & HH' & Hr').
    exists l'. split; [exact HH'|]. destruct r'; [destruct Hr' as (-> & _) | destruct Hr' as (-> & -> & _)];
      now rewrite <- app_assoc.
  - unfold pipe_read_resume in E. rewrite <- !bind_assoc in E. apply bind_inv in E as (u & s1 & E1 & E).
    rewrite bind_assoc in E1.
    pose proof (keeps_holds _ _ _ _ _ (relock_keeps rq_f me (λ _ _, eq_refl)) E1 HH) as HH1.
    destruct (read_round_effect s1 l size ie HH1 Hs _ _ E) as (l' & HH' & Hr').
    exists l'. split; [exact HH'|]. destruct r; [destruct Hr' as (-> & _) | destruct Hr' as (-> & -> & _)];
      now rewrite <- app_assoc.
  - unfold pipe_write in E. destruct (Z.eqb_spec (Z.of_nat (length src)) 0) as [H00|H00].
    + injection E as <- <-. destruct src; [|simpl in H00; lia]. exists l. rewrite take_nil, app_nil_r. auto.
    + apply bind_inv in E as (ie & s1 & E1 & E). apply bind_inv in E as (r' & s2 & E2 & E). injection E as <- <-.
      destruct (write_round_effect s1 l src ie 0 (keeps_holds _ _ _ _ _ lock_irqsave_keeps E1 HH) ltac:(lia) _ _ E2)
        as (HH' & _). rewrite Z.sub_0_r in HH'. eexists. split; [exact HH' | now rewrite <- app_assoc].
  - unfold pipe_write_again in E. rewrite <- bind_assoc in E. apply bind_inv in E as (u & s1 & E1 & E).
    assert (Hk : keeps (CliHelper;; spin_lock lock_f)).
    { unfold CliHelper. keeps; auto; apply keeps_spin_lock; reflexivity. }
    destruct (write_round_effect s1 l src ie total (keeps_holds _ _ _ _ _ Hk E1 HH) Ht _ _ E) as (HH' & _).
    eexists. split; [exact HH' | now rewrite <- app_assoc].
  - unfold pipe_write_resume in E. rewrite <- !bind_assoc in E. apply bind_inv in E as (u & s1 & E1 & E).
    rewrite bind_assoc in E1.
    pose proof (keeps_holds _ _ _ _ _ (relock_keeps wq_f me (λ _ _, eq_refl)) E1 HH) as HH1.
    destruct (write_round_effect s1 l src ie total HH1 Ht _ _ E) as (HH' & _).
    eexists. split; [exact HH' | now rewrite <- app_assoc].
  - exists l. split; [exact (keeps_holds _ _ _ _ _ (close_keeps e) E HH) | reflexivity].
  - exists l. auto.
Qed.

(** A kernel with no tasks, and a fresh pipe with one reader and one writer. *)
Definition demo_pipe : pst :=
  Pst (Kst ∅ [] 0 true 0 false 0 false 1 false 0 1 [] 0 0 [])
    (set_readers 1 (set_writers 1 (new_pipe 0))) false 0 false.

Lemma demo_pipe_holds : holds demo_pipe [].
Proof.
  split; [|reflexivity]. exists 0.
  split; simpl; [split; [|split] | | | |]; unfold PIPE_BUF_SIZE; try reflexivity; lia.
Qed.

(** C12. The pipe is a FIFO byte stream: in every run of reads, writes and
    closes on a fresh pipe, interleaved with anything the rest of the kernel
    does, the bytes given to readers are a prefix of the bytes accepted from
    writers, in order, without loss or duplication; the rest of them, never
    more than 4096, are what the ring holds. *)
Theorem pipe_is_fifo_stream s0 s W R :
  holds s0 [] -> pipe_run s0 s W R ->
  exists l, holds s l /\ W = R ++ l /\ Z.of_nat (length l) <= PIPE_BUF_SIZE.
Proof.
  intros H0 Hr. destruct (pipe_run_stream _ _ _ _ H0 Hr) as (l & HH & E). exists l. split_and!; auto.
  destruct HH as [[T HR] Hs]. rewrite <- Hs. apply HR.
Qed.

Lemma pipe_is_fifo_stream_witness :
  exists s l, pipe_run demo_pipe s [104; 105; 106] [104; 105] /\ holds s l /\ [104; 105; 106] = [104; 105] ++ l.
Proof.
  assert (Hrun : exists s, pipe_run demo_pipe s [104; 105; 106] [104; 105]).
  { assert (HE : exists s1 s2, pipe_write (Some PIPE_SIDE_WRITE) [104; 105; 106] demo_pipe = Some (inr (WDone 3), s1) /\
                               pipe_read (Some PIPE_SIDE_READ) 2 s1 = Some (inr (Done [104; 105]), s2)).
    { eexists _, _. split; [vm_compute; reflexivity | vm_compute; reflexivity]. }
    destruct HE as (s1 & s2 & E1 & E2). exists s2.
    apply (run_read _ s1 _ [] 2 (Done [104; 105])); [|exact E2 | reflexivity].
    apply (run_write _ demo_pipe [] [] [104; 105; 106] (WDone 3)); [apply run_start | exact E1]. }
  destruct Hrun as [s Hrun].
  destruct (pipe_is_fifo_stream demo_pipe s _ _ demo_pipe_holds Hrun) as (l & HH & E & _).
  exists s, l. split; [exact Hrun|]. split; [exact HH | exact E].
Defined.

(** C13. Blocking and failing exactly when they must: a read of a pipe holding
    the bytes [l] that completes returns the first [min size |l|] bytes and is
    empty only when the pipe is empty and no writer is left (end of file); it
    parks only when the pipe is empty and has a writer. A write parks only when
    all 4096 bytes are taken and there is a reader, fails with -EPIPE only when
    there is no reader and nothing was written, and otherwise makes progress. *)
Theorem pipe_blocks_only_when_it_must s l size src ie total :
  holds s l -> 0 < size -> 0 <= total ->
  (forall r s', pipe_read_round size ie s = Some (r, s') ->
     match r with
     | Done out => out = take (Z.to_nat size) l /\ (out = [] -> l = [] /\ writers (pipe s) = 0)
     | Sleeps _ => l = [] /\ writers (pipe s) <> 0
     end) /\
  (forall r s', pipe_write_round src ie total s = Some (r, s') ->
     match r with
     | WDone n => n < 0 -> n = - EPIPE /\ readers (pipe s) = 0
     | WSleeps n _ => n = total /\ Z.of_nat (length l) = PIPE_BUF_SIZE /\ readers (pipe s) <> 0
     | WAgain n _ => total < n < Z.of_nat (length src)
     end).
Proof.
  intros HH Hs Ht. split; intros r s' E.
  - destruct (read_round_effect s l size ie HH Hs _ _ E) as (l' & _ & H). destruct r as [out|]; [|tauto].
    destruct H as (-> & Hlen & He). split.
    + rewrite length_app in Hlen. destruct (Z.le_gt_cases size (Z.of_nat (length out))) as [H|H].
      * replace (Z.to_nat size) with (length out) by lia. now rewrite take_app_length.
      * destruct l' as [|b l']; [rewrite app_nil_r; now rewrite take_ge by lia|]. simpl in Hlen. lia.
    + intros ->. split; [|now apply He]. destruct l' as [|b l']; [reflexivity|]. simpl in Hlen. lia.
  - destruct (write_round_effect s l src ie total HH Ht _ _ E) as (_ & _ & H). destruct r; [|exact H|exact H]. tauto.
Qed.

Lemma pipe_blocks_only_when_it_must_witness :
  exists s', pipe_read_round 10 true (set_pipe (set_writers 0 (pipe demo_pipe)) demo_pipe) = Some (Done [], s') /\
    [] = take 10 ([] : list Z) /\ 0 = 0.
Proof.
  eexists. split; [vm_compute; reflexivity|].
  destruct (pipe_blocks_only_when_it_must (set_pipe (set_writers 0 (pipe demo_pipe)) demo_pipe) [] 10 [1] true 0)
    as [H _].
  - apply demo_pipe_holds.
  - lia.
  - lia.
  - destruct (H (Done []) _ eq_refl) as [E He]. split; [exact E | exact (proj2 (He eq_refl))].
Defined.

(** Creating a pair never leaks: whatever allocations fail,
    [pipe_create_pair] completes without freeing anything twice; if it fails it
    returns -ENOMEM and leaves no object behind, and if it succeeds exactly the
    pipe, its buffer, the two files and the two ends are live. *)
Theorem pipe_create_pair_no_leak o :
  exists r h', pipe_create_pair (Heap o []) = Some (r, h') /\
    (r = - ENOMEM /\ live h' = [] \/ r = 0 /\ live h' = [PipeObj; BufObj; RFile; WFile; REnd; WEnd]).
Proof.
  destruct o as [|[] [|[] [|[] [|[] [|[] [|[] o]]]]]]; eexists _, _; (split; [vm_compute; reflexivity|]);
    ((left; split; reflexivity) || (right; split; reflexivity)).
Qed.
