(* ===== verification/CMem.v ===== *)
(** util/memory.c: memset, memcpy and memcmp over a byte-addressed memory, with
    their alignment prefixes, wide bodies and byte tails, and their equivalence
    with byte-at-a-time references. Touching an address the memory does not map
    is a fault. *)

From S2P Require Import Prelude Bytes.

(** * Loads and stores *)

Definition load8 (a : Z) : M memory Z := λ m, b ← m !! a; Some (b, m).
Definition store8 (a v : Z) : M memory unit := λ m,
  match m !! a with Some _ => Some (tt, <[a := v]> m) | None => None end.

(** Accesses of [n]-byte words, undefined through a misaligned pointer. *)
Definition loadn (n : nat) (a : Z) : M memory Z := λ m,
  if a mod Z.of_nat n =? 0 then l ← load_bytes m a n; Some (le_decode l, m) else None.
Definition storen (n : nat) (a v : Z) : M memory unit := λ m,
  if a mod Z.of_nat n =? 0 then _ ← load_bytes m a n; Some (tt, store_bytes m a (le_encode n v)) else None.
Abbreviation load32 := (loadn 4).
Abbreviation load64 := (loadn 8).
Abbreviation store64 := (storen 8).

(** * The routines *)

(** [while (size && ((uintptr_t)d & 7)) { *d++ = value; size--; }] *)
Definition memset_prefix_step (value : Z) (v : Z * Z) : M memory (Z * Z + Z * Z) :=
  let '(d, size) := v in
  if negb (size =? 0) && negb (Z.land d 7 =? 0) then
    store8 d value;; ret (inl (d + 1, size - 1))
  else ret (inr (d, size)).

Definition memset_body_step (d64 v64 qwords i : Z) : M memory (Z + unit) :=
  if i <? qwords then store64 (d64 + 8 * i) v64;; ret (inl (i + 1)) else ret (inr tt).

Definition memset_tail_step (d value n i : Z) : M memory (Z + unit) :=
  if i <? n then store8 (d + i) value;; ret (inl (i + 1)) else ret (inr tt).

(** The byte replicated into the eight bytes of a word. *)
Definition replicate64 (value : Z) : Z :=
  let v64 := value in
  let v64 := Z.lor v64 (wrap64 (Z.shiftl v64 8)) in
  let v64 := Z.lor v64 (wrap64 (Z.shiftl v64 16)) in
  Z.lor v64 (wrap64 (Z.shiftl v64 32)).

Definition memset (address value size : Z) : M memory unit :=
  let fuel := S (Z.to_nat size) in
  let* p := loop fuel (memset_prefix_step value) (address, size) in
  let '(d, size) := p in
  let v64 := replicate64 value in
  let qwords := Z.shiftr size 3 in
  loop fuel (memset_body_step d v64 qwords) 0;;
  let d := d + qwords * 8 in
  loop fuel (memset_tail_step d value (Z.land size 7)) 0.

Definition memcpy_prefix_step (v : Z * Z * Z) : M memory (Z * Z * Z + Z * Z * Z) :=
  let '(d, s, n) := v in
  if negb (n =? 0) && negb (Z.land (Z.lor d s) 7 =? 0) then
    if negb (Z.land d 7 =? Z.land s 7) then ret (inr (d, s, n))
    else let* b := load8 s in store8 d b;; ret (inl (d + 1, s + 1, n - 1))
  else ret (inr (d, s, n)).

Definition memcpy_body_step (d64 s64 qwords i : Z) : M memory (Z + unit) :=
  if i <? qwords then
    let* w := load64 (s64 + 8 * i) in store64 (d64 + 8 * i) w;; ret (inl (i + 1))
  else ret (inr tt).

Definition memcpy_tail_step (d s n i : Z) : M memory (Z + unit) :=
  if i <? n then let* b := load8 (s + i) in store8 (d + i) b;; ret (inl (i + 1)) else ret (inr tt).

Definition memcpy (dest src n : Z) : M memory unit :=
  let fuel := S (Z.to_nat n) in
  let* p := loop fuel memcpy_prefix_step (dest, src, n) in
  let '(d, s, n) := p in
  let* q :=
    if (8 <=? n) && (Z.land (Z.lor d s) 7 =? 0) then
      let qwords := Z.shiftr n 3 in
      loop fuel (memcpy_body_step d s qwords) 0;;
      ret (d + qwords * 8, s + qwords * 8, Z.land n 7)
    else ret (d, s, n) in
  let '(d, s, n) := q in
  loop fuel (memcpy_tail_step d s n) 0.

(** [for (...) if (p1[j] != p2[j]) return p1[j] - p2[j];] *)
Definition memcmp_byte_step (p1 p2 n j : Z) : M memory (Z + option Z) :=
  if j <? n then
    let* a := load8 (p1 + j) in let* b := load8 (p2 + j) in
    if negb (a =? b) then ret (inr (Some (a - b))) else ret (inl (j + 1))
  else ret (inr None).

Definition memcmp_word_step (p1 p2 words i : Z) : M memory (Z + Z) :=
  if i <? words then
    let* a := load32 (p1 + 4 * i) in let* b := load32 (p2 + 4 * i) in
    if negb (a =? b) then
      let* r := loop 5 (memcmp_byte_step (p1 + 4 * i) (p2 + 4 * i) 4) 0 in
      match r with Some c => ret (inr c) | None => ret (inl (i + 1)) end
    else ret (inl (i + 1))
  else ret (inr 0).

Definition memcmp (p1 p2 num : Z) : M memory Z :=
  let fuel := S (Z.to_nat num) in
  if Z.lor (Z.lor p1 p2) num mod 4 =? 0 then
    loop fuel (memcmp_word_step p1 p2 (wrap32 (num / 4))) 0
  else
    let* r := loop fuel (memcmp_byte_step p1 p2 num) 0 in
    ret (match r with Some c => c | None => 0 end).

(** * References *)

(** The difference of the first bytes at which two buffers differ. *)
Fixpoint bytes_diff (l1 l2 : list Z) : option Z :=
  match l1, l2 with
  | a :: l1, b :: l2 => if a =? b then bytes_diff l1 l2 else Some (a - b)
  | _, _ => None
  end.
Definition bytes_cmp (l1 l2 : list Z) : Z := default 0 (bytes_diff l1 l2).

(** The [n] bytes at [a] are mapped. *)
Definition mapped (m : memory) (a n : Z) : Prop := forall x, a <= x < a + n -> is_Some (m !! x).

(** * Lemmas on memory *)

Lemma store_bytes_lookup m a l x :
  store_bytes m a l !! x =
    if decide (a <= x < a + Z.of_nat (length l)) then l !! Z.to_nat (x - a) else m !! x.
Proof.
  destruct (decide _) as [H|H]; [|apply store_bytes_lookup_out; lia].
  revert a H. induction l as [|b l IH]; intros a H; simpl in *; [lia|].
  destruct (decide (x = a)) as [->|].
  - rewrite lookup_insert_eq, Z.sub_diag. reflexivity.
  - rewrite lookup_insert_ne, IH by lia.
    replace (Z.to_nat (x - a)) with (S (Z.to_nat (x - (a + 1)))) by lia. reflexivity.
Qed.

Lemma store_bytes_app m a l1 l2 :
  store_bytes m a (l1 ++ l2) = store_bytes (store_bytes m a l1) (a + Z.of_nat (length l1)) l2.
Proof.
  apply map_eq. intros x. rewrite !store_bytes_lookup, length_app, Nat2Z.inj_add.
  destruct (decide (a <= x < a + (Z.of_nat (length l1) + Z.of_nat (length l2)))) as [H|H],
    (decide (a + Z.of_nat (length l1) <= x < a + Z.of_nat (length l1) + Z.of_nat (length l2))) as [H1|H1],
    (decide (a <= x < a + Z.of_nat (length l1))) as [H2|H2]; try lia; auto.
  - rewrite lookup_app_r by lia. f_equal. lia.
  - rewrite lookup_app_l by lia. reflexivity.
Qed.

Lemma load_bytes_Some m a n : mapped m a (Z.of_nat n) -> exists l, load_bytes m a n = Some l.
Proof.
  revert a. induction n as [|n IH]; intros a H; [exists []; reflexivity|]. simpl.
  destruct (H a) as [b ->]; [lia|]. destruct (IH (a + 1)) as [l ->]; [intros x ?; apply H; lia|]. eauto.
Qed.

Lemma load_bytes_lookup m a n l : load_bytes m a n = Some l <->
  length l = n /\ forall i, (i < n)%nat -> m !! (a + Z.of_nat i) = l !! i.
Proof.
  revert a l. induction n as [|n IH]; intros a l; simpl.
  { split; [intros [= <-]; split; [reflexivity|lia] | intros [Hl _]; destruct l; [reflexivity|easy]]. }
  split.
  - destruct (m !! a) as [b|] eqn:Hb, (load_bytes m (a + 1) n) as [l'|] eqn:Hl; try easy. intros [= <-].
    apply IH in Hl as [Hlen Hi]. split; [simpl; lia|]. intros [|i] Hlt; simpl.
    + rewrite Z.add_0_r. exact Hb.
    + rewrite <- Hi by lia. f_equal. lia.
  - intros [Hlen Hi]. destruct l as [|b l]; [easy|]. pose proof (Hi 0%nat ltac:(lia)) as H0.
    rewrite Z.add_0_r in H0. simpl in H0. rewrite H0.
    assert (load_bytes m (a + 1) n = Some l) as ->; [|reflexivity]. apply IH. split; [simpl in Hlen; lia|].
    intros i Hlt. specialize (Hi (S i) ltac:(lia)). simpl in Hi. rewrite <- Hi. f_equal. lia.
Qed.

Lemma load_bytes_length m a n l : load_bytes m a n = Some l -> length l = n.
Proof. intros H%load_bytes_lookup. apply H. Qed.

(** A part of a loaded range. *)
Lemma load_bytes_part m a n l k j : load_bytes m a n = Some l -> (k + j <= n)%nat ->
  load_bytes m (a + Z.of_nat k) j = Some (take j (drop k l)).
Proof.
  intros [Hl Hi]%load_bytes_lookup H. apply load_bytes_lookup. split; [rewrite length_take, length_drop; lia|].
  intros i Hlt. rewrite lookup_take_lt, lookup_drop, <- Hi by lia. f_equal. lia.
Qed.

Lemma mapped_store m a l b n : mapped m b n -> mapped (store_bytes m a l) b n.
Proof.
  intros H x Hx. rewrite store_bytes_lookup. destruct (decide _); [|now apply H].
  apply lookup_lt_is_Some. lia.
Qed.

Lemma store_bytes_mapped m a l : mapped (store_bytes m a l) a (Z.of_nat (length l)).
Proof. intros x Hx. rewrite store_bytes_lookup, decide_True by lia. apply lookup_lt_is_Some. lia. Qed.

Lemma wp_load8 a b (Q : Z -> memory -> Prop) m : m !! a = Some b -> Q b m -> wp (load8 a) Q m.
Proof. intros H HQ. unfold wp, load8. rewrite H. exact HQ. Qed.

Lemma wp_store8 a v (Q : unit -> memory -> Prop) m : is_Some (m !! a) -> Q tt (store_bytes m a [v]) -> wp (store8 a v) Q m.
Proof. intros [b H] HQ. unfold wp, store8. rewrite H. exact HQ. Qed.

Lemma wp_loadn n a l (Q : Z -> memory -> Prop) m :
  a mod Z.of_nat n = 0 -> load_bytes m a n = Some l -> Q (le_decode l) m -> wp (loadn n a) Q m.
Proof. intros Ha H HQ. unfold wp, loadn. rewrite Ha, H. exact HQ. Qed.

Lemma wp_storen n a v (Q : unit -> memory -> Prop) m : a mod Z.of_nat n = 0 ->
  mapped m a (Z.of_nat n) -> Q tt (store_bytes m a (le_encode n v)) -> wp (storen n a v) Q m.
Proof. intros Ha [l H]%load_bytes_Some HQ. unfold wp, storen. rewrite Ha, H. exact HQ. Qed.

Lemma land7 x : Z.land x 7 = x mod 8.
Proof. apply (Z.land_ones x 3). lia. Qed.

Lemma land7_lor x y : Z.land (Z.lor x y) 7 = 0 <-> x mod 8 = 0 /\ y mod 8 = 0.
Proof. rewrite Z.land_lor_distr_l, Z.lor_eq_0_iff, !land7. reflexivity. Qed.

Lemma shiftr3 x : Z.shiftr x 3 = x / 8.
Proof. apply (Z.shiftr_div_pow2 x 3). lia. Qed.

Lemma aligned_step a i : a mod 8 = 0 -> (a + 8 * i) mod 8 = 0.
Proof. intros H. rewrite Z.mul_comm, Z_mod_plus_full. exact H. Qed.

(** * memset *)

Lemma replicate64_bytes v : is_byte v -> le_encode 8 (replicate64 v) = replicate 8 v.
Proof.
  intros Hv. pose proof (Z_enum 256 (λ v, bool_decide (le_encode 8 (replicate64 v) = replicate 8 v))) as H.
  apply (bool_decide_eq_true_1 _), H; [vm_compute; reflexivity | exact Hv].
Qed.

(** The state of a fill that has written [j] bytes. *)
Definition filled (m : memory) (a v j : Z) : memory := store_bytes m a (replicate (Z.to_nat j) v).

Lemma filled_app m a v j k : 0 <= j ->
  store_bytes (filled m a v j) (a + j) (replicate k v) = filled m a v (j + Z.of_nat k).
Proof.
  intros Hj. unfold filled. rewrite Z2Nat.inj_add, Nat2Z.id, replicate_add, store_bytes_app, length_replicate by lia.
  f_equal. lia.
Qed.

Section Memset.
Context (m : memory) (a v n : Z) (Hn : 0 <= n) (Hm : mapped m a n) (Hv : is_byte v).

Lemma filled_mapped j b k : a <= b -> b + k <= a + n -> mapped (filled m a v j) b k.
Proof. intros H1 H2. apply mapped_store. intros x Hx. apply Hm. lia. Qed.

Lemma memset_prefix_ok fuel : (Z.to_nat n < fuel)%nat ->
  wp (loop fuel (memset_prefix_step v) (a, n))
     (λ r m', exists j, r = (a + j, n - j) /\ 0 <= j <= n /\ m' = filled m a v j /\ (n - j = 0 \/ (a + j) mod 8 = 0)) m.
Proof.
  intros Hf. apply (wp_loop (λ k p m', exists j, p = (a + j, n - j) /\ 0 <= j <= n /\
    k = Z.to_nat (n - j) /\ m' = filled m a v j) (Z.to_nat n)); [exists 0; rewrite Z.add_0_r, Z.sub_0_r; split_and!; auto; lia|exact Hf|].
  intros k p s (j & -> & Hj & -> & ->). unfold memset_prefix_step. rewrite land7.
  destruct (Z.eqb_spec (n - j) 0); simpl; [exists j; auto|].
  destruct (Z.eqb_spec ((a + j) mod 8) 0); simpl; [exists j; auto|].
  apply wp_bind, wp_store8; [apply (filled_mapped j (a + j) 1); lia|].
  apply wp_ret. exists (Z.to_nat (n - (j + 1))). split; [lia|]. exists (j + 1). split_and!; try lia.
  - f_equal; lia.
  - exact (filled_app m a v j 1 ltac:(lia)).
Qed.

Lemma memset_body_ok fuel j q : 0 <= j -> 0 <= q -> j + 8 * q <= n -> (Z.to_nat q < fuel)%nat ->
  (q = 0 \/ (a + j) mod 8 = 0) ->
  wp (loop fuel (memset_body_step (a + j) (replicate64 v) q) 0)
     (λ _ m', m' = filled m a v (j + 8 * q)) (filled m a v j).
Proof.
  intros Hj Hq Hjq Hf Hal. apply (wp_loop (λ k i m', 0 <= i <= q /\ k = Z.to_nat (q - i) /\ m' = filled m a v (j + 8 * i)) (Z.to_nat q)).
  { rewrite Z.mul_0_r, Z.add_0_r, Z.sub_0_r. split_and!; auto; lia. }
  { exact Hf. }
  intros k i s (Hi & -> & ->). unfold memset_body_step. destruct (Z.ltb_spec i q).
  - apply wp_bind, wp_storen; [apply aligned_step; lia|apply filled_mapped; lia|].
    apply wp_ret. exists (Z.to_nat (q - (i + 1))). split_and!; try lia.
    rewrite replicate64_bytes by exact Hv.
    replace (a + j + 8 * i) with (a + (j + 8 * i)) by lia. rewrite (filled_app m a v (j + 8 * i) 8) by lia. f_equal. lia.
  - apply wp_ret. f_equal. lia.
Qed.

Lemma memset_tail_ok fuel j k : 0 <= j -> 0 <= k -> j + k <= n -> (Z.to_nat k < fuel)%nat ->
  wp (loop fuel (memset_tail_step (a + j) v k) 0) (λ _ m', m' = filled m a v (j + k)) (filled m a v j).
Proof.
  intros Hj Hq Hjk Hf. apply (wp_loop (λ c i m', 0 <= i <= k /\ c = Z.to_nat (k - i) /\ m' = filled m a v (j + i)) (Z.to_nat k)).
  { rewrite Z.add_0_r, Z.sub_0_r. split_and!; auto; lia. }
  { exact Hf. }
  intros c i s (Hi & -> & ->). unfold memset_tail_step. destruct (Z.ltb_spec i k).
  - apply wp_bind, wp_store8; [apply (filled_mapped (j + i) (a + j + i) 1); lia|].
    apply wp_ret. exists (Z.to_nat (k - (i + 1))). split_and!; try lia.
    replace (a + j + i) with (a + (j + i)) by lia. change [v] with (replicate 1 v). rewrite filled_app by lia. f_equal. lia.
  - apply wp_ret. f_equal. lia.
Qed.

Lemma memset_ok : wp (memset a v n) (λ _ m', m' = filled m a v n) m.
Proof.
  unfold memset. apply wp_bind. eapply wp_mono; [apply memset_prefix_ok; lia|].
  intros p s (j & -> & Hj & -> & Hal). apply wp_bind. rewrite shiftr3, land7.
  pose proof (Z.div_mod (n - j) 8 ltac:(lia)). pose proof (Z.mod_pos_bound (n - j) 8 ltac:(lia)).
  pose proof (Z.div_pos (n - j) 8 ltac:(lia) ltac:(lia)).
  eapply wp_mono; [apply memset_body_ok; lia|]. intros ? s ->.
  replace (a + j + (n - j) / 8 * 8) with (a + (j + 8 * ((n - j) / 8))) by lia.
  eapply wp_mono; [apply memset_tail_ok; lia|]. intros ? s ->. f_equal. lia.
Qed.
End Memset.

(** * memcpy *)

Section Memcpy.
Context (m : memory) (d s n : Z) (l : list Z).
Context (Hn : 0 <= n) (Hs : load_bytes m s (Z.to_nat n) = Some l) (Hd : mapped m d n).
Context (Hb : Forall is_byte l) (Hdir : d <= s \/ s + n <= d).

(** The state of a copy that has moved [j] bytes: what it still has to read is
    untouched, also when the destination overlaps the source from below. *)
Definition copied (j : Z) : memory := store_bytes m d (take (Z.to_nat j) l).

Lemma copied_length : Z.of_nat (length l) = n.
Proof using Hn Hs. rewrite (load_bytes_length _ _ _ _ Hs). lia. Qed.

Lemma copied_mapped j b k : d <= b -> b + k <= d + n -> mapped (copied j) b k.
Proof using Hd. intros H1 H2. apply mapped_store. intros x Hx. apply Hd. lia. Qed.

Lemma copied_load j k : 0 <= j -> j + Z.of_nat k <= n ->
  load_bytes (copied j) (s + j) k = Some (take k (drop (Z.to_nat j) l)).
Proof using Hdir Hn Hs.
  intros Hj Hk. rewrite <- (load_bytes_part _ _ _ _ (Z.to_nat j) k Hs) by lia.
  rewrite Z2Nat.id by lia. apply load_store_other. rewrite length_take. pose proof copied_length. lia.
Qed.

Lemma copied_app j k : 0 <= j -> j + Z.of_nat k <= n ->
  store_bytes (copied j) (d + j) (take k (drop (Z.to_nat j) l)) = copied (j + Z.of_nat k).
Proof using Hn Hs.
  intros Hj Hk. unfold copied. rewrite Z2Nat.inj_add, Nat2Z.id, <- take_take_drop, store_bytes_app, length_take by lia.
  f_equal. pose proof copied_length. lia.
Qed.

Lemma copied_byte j : 0 <= j < n -> exists b, copied j !! (s + j) = Some b /\
  store_bytes (copied j) (d + j) [b] = copied (j + 1).
Proof using Hdir Hn Hs.
  intros Hj. pose proof (copied_load j 1 ltac:(lia) ltac:(lia)) as Hl. pose proof (copied_app j 1 ltac:(lia) ltac:(lia)) as Ha.
  pose proof copied_length. destruct (drop (Z.to_nat j) l) as [|b r] eqn:E.
  { apply (f_equal length) in E. rewrite length_drop in E. simpl in E. lia. }
  exists b. split; [|exact Ha]. cbn [load_bytes take] in Hl. destruct (copied j !! (s + j)); congruence.
Qed.

Lemma copied_word j : 0 <= j -> j + 8 <= n -> exists bs, load_bytes (copied j) (s + j) 8 = Some bs /\
  store_bytes (copied j) (d + j) (le_encode 8 (le_decode bs)) = copied (j + 8).
Proof using Hb Hdir Hn Hs.
  intros Hj Hk. exists (take 8 (drop (Z.to_nat j) l)). split; [apply copied_load; lia|].
  etransitivity; [|apply (copied_app j 8); lia]. f_equal.
  pose proof (le_encode_decode (take 8 (drop (Z.to_nat j) l))) as H.
  rewrite length_take, length_drop in H. pose proof copied_length. rewrite Nat.min_l in H by lia.
  apply H. now apply Forall_take, Forall_drop.
Qed.

Lemma memcpy_prefix_ok fuel : (Z.to_nat n < fuel)%nat ->
  wp (loop fuel memcpy_prefix_step (d, s, n))
     (λ r m', exists j, r = (d + j, s + j, n - j) /\ 0 <= j <= n /\ m' = copied j) m.
Proof using Hd Hdir Hn Hs.
  intros Hf. apply (wp_loop (λ k p m', exists j, p = (d + j, s + j, n - j) /\ 0 <= j <= n /\
    k = Z.to_nat (n - j) /\ m' = copied j) (Z.to_nat n)); [exists 0; rewrite !Z.add_0_r, Z.sub_0_r; split_and!; auto; lia|exact Hf|].
  intros k p m' (j & -> & Hj & -> & ->). unfold memcpy_prefix_step.
  destruct (negb (n - j =? 0) && _) eqn:E; [|exists j; auto].
  destruct (negb (Z.land (d + j) 7 =? _)); [exists j; auto|].
  apply andb_prop in E as [E%negb_true_iff%Z.eqb_neq _].
  destruct (copied_byte j ltac:(lia)) as (b & Hl & Hst).
  apply wp_bind, (wp_load8 _ b); [exact Hl|].
  apply wp_bind, wp_store8; [apply (copied_mapped j (d + j) 1); lia|].
  apply wp_ret. exists (Z.to_nat (n - (j + 1))). split; [lia|]. exists (j + 1). rewrite Hst. split_and!; try lia; [|reflexivity].
  f_equal; [f_equal|]; lia.
Qed.

Lemma memcpy_body_ok fuel j q : 0 <= j -> 0 <= q -> j + 8 * q <= n -> (Z.to_nat q < fuel)%nat ->
  (d + j) mod 8 = 0 -> (s + j) mod 8 = 0 ->
  wp (loop fuel (memcpy_body_step (d + j) (s + j) q) 0) (λ _ m', m' = copied (j + 8 * q)) (copied j).
Proof using Hb Hd Hdir Hn Hs.
  intros Hj Hq Hjq Hf Hal1 Hal2.
  apply (wp_loop (λ k i m', 0 <= i <= q /\ k = Z.to_nat (q - i) /\ m' = copied (j + 8 * i)) (Z.to_nat q)).
  { rewrite Z.mul_0_r, Z.add_0_r, Z.sub_0_r. split_and!; auto; lia. }
  { exact Hf. }
  intros k i m' (Hi & -> & ->). unfold memcpy_body_step. destruct (Z.ltb_spec i q).
  - destruct (copied_word (j + 8 * i)) as (bs & Hl & Hst); [lia..|]. rewrite !Z.add_assoc in Hl, Hst.
    apply wp_bind, (wp_loadn 8 _ bs); [now apply aligned_step|exact Hl|].
    apply wp_bind, wp_storen; [now apply aligned_step|apply copied_mapped; lia|].
    apply wp_ret. exists (Z.to_nat (q - (i + 1))). rewrite Hst. split_and!; try lia. f_equal. lia.
  - apply wp_ret. f_equal. lia.
Qed.

Lemma memcpy_tail_ok fuel j k : 0 <= j -> 0 <= k -> j + k <= n -> (Z.to_nat k < fuel)%nat ->
  wp (loop fuel (memcpy_tail_step (d + j) (s + j) k) 0) (λ _ m', m' = copied (j + k)) (copied j).
Proof using Hd Hdir Hn Hs.
  intros Hj Hk Hjk Hf. apply (wp_loop (λ c i m', 0 <= i <= k /\ c = Z.to_nat (k - i) /\ m' = copied (j + i)) (Z.to_nat k)).
  { rewrite Z.add_0_r, Z.sub_0_r. split_and!; auto; lia. }
  { exact Hf. }
  intros c i m' (Hi & -> & ->). unfold memcpy_tail_step. destruct (Z.ltb_spec i k).
  - destruct (copied_byte (j + i)) as (b & Hl & Hst); [lia|]. rewrite !Z.add_assoc in Hl, Hst.
    apply wp_bind, (wp_load8 _ b); [exact Hl|].
    apply wp_bind, wp_store8; [apply (copied_mapped (j + i) (d + j + i) 1); lia|].
    apply wp_ret. exists (Z.to_nat (k - (i + 1))). rewrite Hst. split_and!; try lia. f_equal. lia.
  - apply wp_ret. f_equal. lia.
Qed.

Lemma memcpy_ok : wp (memcpy d s n) (λ _ m', m' = store_bytes m d l) m.
Proof using Hb Hd Hdir Hn Hs.
  assert (Hfin : copied n = store_bytes m d l).
  { unfold copied. rewrite take_ge; [reflexivity|]. pose proof copied_length. lia. }
  unfold memcpy. apply wp_bind. eapply wp_mono; [apply memcpy_prefix_ok; lia|].
  intros p m' (j & -> & Hj & ->). apply wp_bind.
  destruct ((8 <=? n - j) && _) eqn:E.
  - apply andb_prop in E as [E1%Z.leb_le E2%Z.eqb_eq%land7_lor]. rewrite shiftr3, land7.
    pose proof (Z.div_mod (n - j) 8 ltac:(lia)). pose proof (Z.mod_pos_bound (n - j) 8 ltac:(lia)).
    pose proof (Z.div_pos (n - j) 8 ltac:(lia) ltac:(lia)).
    apply wp_bind. eapply wp_mono; [apply memcpy_body_ok; lia|]. intros ? m' ->. apply wp_ret. cbv beta iota.
    replace (d + j + (n - j) / 8 * 8) with (d + (j + 8 * ((n - j) / 8))) by lia.
    replace (s + j + (n - j) / 8 * 8) with (s + (j + 8 * ((n - j) / 8))) by lia.
    eapply wp_mono; [apply memcpy_tail_ok; lia|]. intros ? m' ->. rewrite <- Hfin. f_equal. lia.
  - apply wp_ret. cbv beta iota. eapply wp_mono; [apply memcpy_tail_ok; lia|]. intros ? m' ->.
    rewrite <- Hfin. f_equal. lia.
Qed.
End Memcpy.

(** * memcmp *)

Lemma bytes_diff_None l1 l2 : length l1 = length l2 -> bytes_diff l1 l2 = None <-> l1 = l2.
Proof.
  revert l2. induction l1 as [|a l1 IH]; intros [|b l2] H; try easy. simpl in *.
  destruct (Z.eqb_spec a b) as [->|]; [|split; congruence]. rewrite IH by lia. split; congruence.
Qed.

Lemma bytes_diff_app l1 l2 k1 k2 : length l1 = length l2 ->
  bytes_diff (l1 ++ k1) (l2 ++ k2) = match bytes_diff l1 l2 with Some c => Some c | None => bytes_diff k1 k2 end.
Proof.
  revert l2. induction l1 as [|a l1 IH]; intros [|b l2] H; try easy. simpl in *.
  destruct (a =? b); [|reflexivity]. apply IH. lia.
Qed.

(** Splitting the comparison after [k] bytes. *)
Lemma bytes_diff_split k l1 l2 : length l1 = length l2 ->
  bytes_diff l1 l2 = match bytes_diff (take k l1) (take k l2) with
                     | Some c => Some c | None => bytes_diff (drop k l1) (drop k l2) end.
Proof.
  intros H. rewrite <- (take_drop k l1), <- (take_drop k l2) at 1.
  apply bytes_diff_app. rewrite !length_take. lia.
Qed.

Lemma bytes_cmp_zero l1 l2 : length l1 = length l2 -> Forall is_byte l1 -> Forall is_byte l2 ->
  bytes_cmp l1 l2 = 0 <-> l1 = l2.
Proof.
  intros H H1 H2. unfold bytes_cmp. rewrite <- bytes_diff_None by exact H.
  revert l2 H H2. induction H1 as [|a l1 Ha _ IH]; intros [|b l2] H H2; try easy. simpl in *.
  destruct (Z.eqb_spec a b); [apply IH; [lia|now inversion H2]|]. simpl. split; [lia|easy].
Qed.

Section Memcmp.
Context (m : memory).

Lemma memcmp_byte_ok p1 p2 n l1 l2 fuel : 0 <= n ->
  load_bytes m p1 (Z.to_nat n) = Some l1 -> load_bytes m p2 (Z.to_nat n) = Some l2 -> (Z.to_nat n < fuel)%nat ->
  wp (loop fuel (memcmp_byte_step p1 p2 n) 0) (λ r m', r = bytes_diff l1 l2 /\ m' = m) m.
Proof.
  intros Hn H1 H2 Hf. pose proof (load_bytes_length _ _ _ _ H1). pose proof (load_bytes_length _ _ _ _ H2).
  apply (wp_loop (λ c j m', 0 <= j <= n /\ c = Z.to_nat (n - j) /\ m' = m /\
    bytes_diff l1 l2 = bytes_diff (drop (Z.to_nat j) l1) (drop (Z.to_nat j) l2)) (Z.to_nat n));
    [rewrite Z.sub_0_r; split_and!; auto; lia|exact Hf|].
  intros c j m' (Hj & -> & -> & Hdiff). unfold memcmp_byte_step. destruct (Z.ltb_spec j n).
  - apply load_bytes_lookup in H1 as [_ H1]. apply load_bytes_lookup in H2 as [_ H2].
    destruct (lookup_lt_is_Some_2 l1 (Z.to_nat j)) as [a Ha]; [lia|].
    destruct (lookup_lt_is_Some_2 l2 (Z.to_nat j)) as [b Hb]; [lia|].
    apply wp_bind, (wp_load8 _ a); [rewrite <- Ha, <- H1 by lia; f_equal; lia|].
    apply wp_bind, (wp_load8 _ b); [rewrite <- Hb, <- H2 by lia; f_equal; lia|].
    rewrite (drop_S _ _ _ Ha), (drop_S _ _ _ Hb) in Hdiff. simpl in Hdiff.
    destruct (Z.eqb_spec a b); simpl; apply wp_ret; [|auto].
    exists (Z.to_nat (n - (j + 1))). split_and!; try lia; [reflexivity|].
    rewrite Hdiff. do 2 f_equal; lia.
  - apply wp_ret. split; [|reflexivity]. rewrite Hdiff, !drop_ge by lia. reflexivity.
Qed.

Lemma le_decode_eq l1 l2 : length l1 = length l2 -> Forall is_byte l1 -> Forall is_byte l2 ->
  le_decode l1 = le_decode l2 <-> l1 = l2.
Proof using.
  intros Hl H1 H2. split; [|congruence]. intros E.
  rewrite <- (le_encode_decode l1), <- (le_encode_decode l2) by assumption. congruence.
Qed.

Context (p1 p2 n : Z) (l1 l2 : list Z) (Hn : 0 <= n).
Context (H1 : load_bytes m p1 (Z.to_nat n) = Some l1) (H2 : load_bytes m p2 (Z.to_nat n) = Some l2).
Context (Hb1 : Forall is_byte l1) (Hb2 : Forall is_byte l2).

Lemma memcmp_word_ok w fuel : n = 4 * w -> p1 mod 4 = 0 -> p2 mod 4 = 0 -> (Z.to_nat w < fuel)%nat ->
  wp (loop fuel (memcmp_word_step p1 p2 w) 0) (λ r m', r = bytes_cmp l1 l2 /\ m' = m) m.
Proof using H1 H2 Hb1 Hb2 Hn.
  intros -> Hp1 Hp2 Hf. pose proof (load_bytes_length _ _ _ _ H1). pose proof (load_bytes_length _ _ _ _ H2).
  apply (wp_loop (λ c i m', 0 <= i <= w /\ c = Z.to_nat (w - i) /\ m' = m /\
    bytes_diff l1 l2 = bytes_diff (drop (Z.to_nat (4 * i)) l1) (drop (Z.to_nat (4 * i)) l2)) (Z.to_nat w));
    [rewrite Z.sub_0_r; split_and!; auto; lia|exact Hf|].
  intros c i m' (Hi & -> & -> & Hdiff). unfold memcmp_word_step. destruct (Z.ltb_spec i w);
    [|apply wp_ret; split; [unfold bytes_cmp; rewrite Hdiff, !drop_ge by lia|]; reflexivity].
  set (k := Z.to_nat (4 * i)) in *.
  pose proof (load_bytes_part m p1 _ l1 k 4 H1 ltac:(lia)) as L1.
  pose proof (load_bytes_part m p2 _ l2 k 4 H2 ltac:(lia)) as L2.
  replace (Z.of_nat k) with (4 * i) in L1, L2 by lia.
  assert (A : forall p, p mod 4 = 0 -> (p + 4 * i) mod Z.of_nat 4 = 0)
    by (intros p Hp; change (Z.of_nat 4) with 4; rewrite Z.mul_comm, Z_mod_plus_full; exact Hp).
  apply wp_bind; eapply wp_loadn; [now apply A|exact L1|]. apply wp_bind; eapply wp_loadn; [now apply A|exact L2|].
  rewrite (bytes_diff_split 4 (drop k l1) (drop k l2)), !drop_drop in Hdiff by (rewrite !length_drop; lia).
  replace (k + 4)%nat with (Z.to_nat (4 * (i + 1))) in Hdiff by lia.
  assert (Hnext : bytes_diff (take 4 (drop k l1)) (take 4 (drop k l2)) = None ->
    exists n', (n' < Z.to_nat (w - i))%nat /\ 0 <= i + 1 <= w /\ n' = Z.to_nat (w - (i + 1)) /\ m = m /\
      bytes_diff l1 l2 = bytes_diff (drop (Z.to_nat (4 * (i + 1))) l1) (drop (Z.to_nat (4 * (i + 1))) l2)).
  { intros E. exists (Z.to_nat (w - (i + 1))). rewrite E in Hdiff. split_and!; auto; lia. }
  destruct (negb _) eqn:E.
  - apply wp_bind. eapply wp_mono; [apply (memcmp_byte_ok _ _ 4); [lia|exact L1|exact L2|lia]|].
    intros r m' [-> ->]. destruct (bytes_diff (take 4 _) _) eqn:Hd; apply wp_ret; [|now apply Hnext].
    unfold bytes_cmp. rewrite Hdiff. auto.
  - apply wp_ret, Hnext. apply negb_false_iff, Z.eqb_eq, le_decode_eq in E; [|rewrite !length_take, !length_drop; lia
      |now apply Forall_take, Forall_drop|now apply Forall_take, Forall_drop].
    apply bytes_diff_None; [rewrite !length_take, !length_drop; lia|exact E].
Qed.

Lemma lor_mod4 a b : Z.lor a b mod 4 = 0 <-> a mod 4 = 0 /\ b mod 4 = 0.
Proof using.
  change 4 with (2 ^ 2). rewrite <- !Z.land_ones, Z.land_lor_distr_l, Z.lor_eq_0_iff by lia. reflexivity.
Qed.

Lemma memcmp_ok : n < 2 ^ 34 -> wp (memcmp p1 p2 n) (λ r m', r = bytes_cmp l1 l2 /\ m' = m) m.
Proof using H1 H2 Hb1 Hb2 Hn.
  intros Hlt. unfold memcmp. destruct (Z.eqb_spec (Z.lor (Z.lor p1 p2) n mod 4) 0) as [E|].
  - apply lor_mod4 in E as [[E1 E2]%lor_mod4 E3]. pose proof (Z.div_mod n 4 ltac:(lia)).
    rewrite wrap_small by (unfold is_word; lia). apply memcmp_word_ok; lia.
  - apply wp_bind. eapply wp_mono; [apply memcmp_byte_ok; eauto; lia|]. intros r m' [-> ->]. apply wp_ret. auto.
Qed.
End Memcmp.

Lemma load_bytes_mapped m a n l : load_bytes m a n = Some l -> mapped m a (Z.of_nat n).
Proof.
  intros [Hl Hi]%load_bytes_lookup x Hx. replace x with (a + Z.of_nat (Z.to_nat (x - a))) by lia.
  rewrite Hi by lia. apply lookup_lt_is_Some. lia.
Qed.

(** * What the routines guarantee *)

(** C14. memcpy, with its alignment prefix, its 64-bit body and its byte tail,
    stores at [d] exactly the [n] bytes that were at [s], changes nothing else,
    never accesses a word through a misaligned pointer and terminates; the
    ranges may overlap as long as the destination does not start inside the
    source. *)
Theorem memcpy_copies m d s n l :
  0 <= n -> load_bytes m s (Z.to_nat n) = Some l -> mapped m d n -> Forall is_byte l ->
  (d <= s \/ s + n <= d) ->
  memcpy d s n m = Some (tt, store_bytes m d l).
Proof.
  intros Hn Hs Hd Hb Hdir. pose proof (memcpy_ok m d s n l Hn Hs Hd Hb Hdir) as H.
  apply wp_run in H as ([] & m' & E & ->). exact E.
Qed.

(** Twenty bytes copied down by eight within one buffer. *)
Definition demo_mem : memory := store_bytes ∅ 61 (seqZ 0 40).
Lemma memcpy_copies_witness :
  memcpy 64 72 20 demo_mem = Some (tt, store_bytes demo_mem 64 (seqZ 11 20)).
Proof.
  apply (memcpy_copies demo_mem 64 72 20 (seqZ 11 20)); [lia|vm_compute; reflexivity| | |left; lia].
  - apply (load_bytes_mapped _ _ 20 (seqZ 3 20)). vm_compute. reflexivity.
  - apply Forall_seqZ. intros x Hx. unfold is_byte. lia.
Defined.

(** memset writes the byte to every one of the [n] addresses, through the
    prefix, the replicated 64-bit stores and the tail, and to no other; all its
    wide stores are aligned and it terminates. *)
Lemma memset_fills m a v n :
  0 <= n -> mapped m a n -> is_byte v ->
  exists m', memset a v n m = Some (tt, m') /\
    (forall x, a <= x < a + n -> m' !! x = Some v) /\
    (forall x, x < a \/ a + n <= x -> m' !! x = m !! x).
Proof.
  intros Hn Hm Hv. pose proof (memset_ok m a v n Hn Hm Hv) as H.
  apply wp_run in H as ([] & m' & E & ->). eexists. split; [exact E|]. split; intros x Hx; unfold filled.
  - rewrite store_bytes_lookup, length_replicate, decide_True by lia. apply lookup_replicate_2. lia.
  - apply store_bytes_lookup_out. rewrite length_replicate. lia.
Qed.

Lemma memset_fills_witness : exists m', memset 62 0xAC 21 demo_mem = Some (tt, m') /\ m' !! 82 = Some 0xAC /\ m' !! 83 = Some 22.
Proof.
  destruct (memset_fills demo_mem 62 0xAC 21) as (m' & E & Hin & Hout); [lia| |unfold is_byte; lia|].
  - apply (load_bytes_mapped _ _ 21 (seqZ 1 21)). vm_compute. reflexivity.
  - exists m'. split; [exact E|]. split; [apply Hin; lia|]. rewrite Hout by lia. reflexivity.
Defined.

(** memcmp, by 32-bit words when both buffers and the length allow it and
    by bytes otherwise, returns the difference of the first bytes that differ,
    and so 0 exactly when the buffers are equal. (Beyond 2^34 bytes its 32-bit
    word counter would wrap.) *)
Theorem memcmp_compares m p1 p2 n l1 l2 :
  0 <= n < 2 ^ 34 -> load_bytes m p1 (Z.to_nat n) = Some l1 -> load_bytes m p2 (Z.to_nat n) = Some l2 ->
  Forall is_byte l1 -> Forall is_byte l2 ->
  exists r, memcmp p1 p2 n m = Some (r, m) /\ r = bytes_cmp l1 l2 /\ (r = 0 <-> l1 = l2).
Proof.
  intros [Hn Hlt] H1 H2 Hb1 Hb2. pose proof (memcmp_ok m p1 p2 n l1 l2 Hn H1 H2 Hb1 Hb2 Hlt) as H.
  apply wp_run in H as (r & m' & E & -> & ->). eexists. split; [exact E|]. split; [reflexivity|].
  apply bytes_cmp_zero; auto. rewrite (load_bytes_length _ _ _ _ H1), (load_bytes_length _ _ _ _ H2). reflexivity.
Qed.

Lemma memcmp_compares_witness : exists r, memcmp 64 68 8 demo_mem = Some (r, demo_mem) /\ r = bytes_cmp (seqZ 3 8) (seqZ 7 8).
Proof.
  destruct (memcmp_compares demo_mem 64 68 8 (seqZ 3 8) (seqZ 7 8)) as (r & E & Hr & _); [lia|vm_compute; reflexivity..| | |eauto];
    apply Forall_seqZ; intros x Hx; unfold is_byte; lia.
Defined.
