(* ===== verification/CString.v ===== *)
(** util/string.c: NUL-terminated strings in memory. Number conversion both
    ways, comparison, copying, length, and the bounded printf [kvsnprintf].
    Loops over a string take their fuel as an argument: a bound on the length
    of the strings involved. [char] is signed, as on x86-64. *)

From S2P Require Import Prelude Bytes CMem.

(** * Characters *)

(** The value of a [char] object holding byte [b]. *)
Definition to_s8 (b : Z) : Z := if b <? 128 then b else b - 256.

Definition c_0 : Z := 48.   (* '0' *)
Definition c_9 : Z := 57.   (* '9' *)
Definition c_A : Z := 65.   (* 'A' *)
Definition c_F : Z := 70.   (* 'F' *)
Definition c_a : Z := 97.   (* 'a' *)
Definition c_f : Z := 102.  (* 'f' *)

Definition isdigit (c : Z) : bool := negb ((to_s8 c <? c_0) || (c_9 <? to_s8 c)).
Definition isuppercasealpha (c : Z) : bool := negb ((to_s8 c <? c_A) || (c_F <? to_s8 c)).
Definition islowercasealpha (c : Z) : bool := negb ((to_s8 c <? c_a) || (c_f <? to_s8 c)).

Definition char_to_digit (c : Z) : Z :=
  if isdigit c then to_s8 c - c_0
  else if islowercasealpha c then to_s8 c - c_a + 10
  else if isuppercasealpha c then to_s8 c - c_A + 10
  else 0xFF.

(** * Numbers *)

(** [while ( *end != '\0') end++;] *)
Definition find_end_step (p : Z) : M memory (Z + Z) :=
  let* c := load8 p in if c =? 0 then ret (inr p) else ret (inl (p + 1)).

Definition flip_step (v : Z * Z) : M memory (Z * Z + unit) :=
  let '(start, end_) := v in
  if start <? end_ then
    let* temp := load8 start in
    let* e := load8 end_ in
    store8 start e;;
    store8 end_ temp;;
    ret (inl (start + 1, end_ - 1))
  else ret (inr tt).

Definition flip_str (fuel : nat) (str : Z) : M memory unit :=
  let* end_ := loop fuel find_end_step str in
  loop fuel flip_step (str, end_ - 1).

(** The literal ["0123456789ABCDEF"] with its terminator. *)
Definition hex_digits : list Z := [48;49;50;51;52;53;54;55;56;57;65;66;67;68;69;70;0].

(** One round of the [do ... while (value)] loop; division by zero is undefined. *)
Definition itoa_digit_step (base : Z) (v : Z * Z * Z) : M memory (Z * Z * Z + Z * Z) :=
  let '(ptr, value, count) := v in
  let tmp_value := value in
  if base =? 0 then undef else
  let value := value / base in
  let* c := of_option (arr_get hex_digits (wrap64 (tmp_value - wrap64 (value * base)))) in
  store8 ptr c;;
  if value =? 0 then ret (inr (ptr + 1, wrap64 (count + 1))) else ret (inl (ptr + 1, value, wrap64 (count + 1))).

Definition itoa_pad_step (min_width : Z) (v : Z * Z) : M memory (Z * Z + Z) :=
  let '(ptr, count) := v in
  if count <? min_width then store8 ptr c_0;; ret (inl (ptr + 1, wrap64 (count + 1))) else ret (inr ptr).

Definition itoa (value str base min_width : Z) : M memory unit :=
  let fuel := (66 + Z.to_nat min_width)%nat in
  let* p := if value =? 0 then store8 str c_0;; ret (str + 1, 1)
            else loop fuel (itoa_digit_step base) (str, value, 0) in
  let* ptr := loop fuel (itoa_pad_step min_width) p in
  store8 ptr 0;;
  flip_str fuel str.

Definition atoi_step (base : Z) (v : Z * Z) : M memory (Z * Z + Z) :=
  let '(ptr, result) := v in
  let* c := load8 ptr in
  if c =? 0 then ret (inr result) else
  let result := wrap64 (result * base) in
  let digit := char_to_digit c in
  if digit =? 0xFF then ret (inr result) else ret (inl (ptr + 1, wrap64 (result + digit))).

Definition atoi (fuel : nat) (str base : Z) : M memory Z := loop fuel (atoi_step base) (str, 0).

(** * Copying, comparing, measuring *)

Definition cpystr_step (source dst idx : Z) : M memory (Z + Z) :=
  let* c := load8 (source + idx) in
  if c =? 0 then ret (inr idx) else store8 (dst + idx) c;; ret (inl (idx + 1)).

Definition cpystr (fuel : nat) (source dst : Z) : M memory unit :=
  let* idx := loop fuel (cpystr_step source dst) 0 in store8 (dst + idx) 0.

(** [inr (inr r)]: the loop returns [r]; [inr (inl idx)]: it ends at [idx]. *)
Definition strcmp_step (str1 str2 idx : Z) : M memory (Z + (Z + Z)) :=
  let* a := load8 (str1 + idx) in
  if a =? 0 then ret (inr (inl idx)) else
  let* b := load8 (str2 + idx) in
  if b =? 0 then ret (inr (inl idx)) else
  if to_s8 b <? to_s8 a then ret (inr (inr 1))
  else if to_s8 a <? to_s8 b then ret (inr (inr (-1)))
  else ret (inl (idx + 1)).

(** [if (str1[idx]) return 1; if (str2[idx]) return -1; return 0;] *)
Definition strcmp_tail (str1 str2 idx : Z) : M memory Z :=
  let* a := load8 (str1 + idx) in
  if negb (a =? 0) then ret 1 else
  let* b := load8 (str2 + idx) in
  if negb (b =? 0) then ret (-1) else ret 0.

Definition strcmp (fuel : nat) (str1 str2 : Z) : M memory Z :=
  let* r := loop fuel (strcmp_step str1 str2) 0 in
  match r with inr c => ret c | inl idx => strcmp_tail str1 str2 idx end.

Definition strncmp_step (str1 str2 n idx : Z) : M memory (Z + (Z + Z)) :=
  let* a := load8 (str1 + idx) in
  if a =? 0 then ret (inr (inl idx)) else
  let* b := load8 (str2 + idx) in
  if b =? 0 then ret (inr (inl idx)) else
  if negb (idx <? n) then ret (inr (inl idx)) else
  if to_s8 b <? to_s8 a then ret (inr (inr 1))
  else if to_s8 a <? to_s8 b then ret (inr (inr (-1)))
  else ret (inl (idx + 1)).

Definition strncmp (fuel : nat) (str1 str2 n : Z) : M memory Z :=
  let* r := loop fuel (strncmp_step str1 str2 n) 0 in
  match r with
  | inr c => ret c
  | inl idx => if idx =? n then ret 0 else strcmp_tail str1 str2 idx
  end.

Definition strlen_step (str idx : Z) : M memory (Z + Z) :=
  let* c := load8 (str + idx) in if c =? 0 then ret (inr idx) else ret (inl (idx + 1)).

Definition strlen (fuel : nat) (str : Z) : M memory Z :=
  if str =? 0 then ret 0 else loop fuel (strlen_step str) 0.

(** * Bounded formatting *)

(** [total] is passed and returned; the buffer is in memory. *)
Definition ks_putc (buf size total c : Z) : M memory Z :=
  when (wrap64 (total + 1) <? size) (store8 (buf + total) c);; ret (wrap64 (total + 1)).

Definition ks_puts_step (buf size : Z) (v : Z * Z) : M memory (Z * Z + Z) :=
  let '(s, total) := v in
  let* c := load8 s in
  if c =? 0 then ret (inr total) else
  let* total := ks_putc buf size total c in ret (inl (s + 1, total)).

(** The literal ["(null)"], a string constant outside the memory. *)
Definition null_str : list Z := [40;110;117;108;108;41].
Fixpoint ks_put_list (buf size total : Z) (l : list Z) : M memory Z :=
  match l with [] => ret total | c :: l => let* total := ks_putc buf size total c in ks_put_list buf size total l end.

Definition ks_puts (fuel : nat) (buf size total s : Z) : M memory Z :=
  if s =? 0 then ks_put_list buf size total null_str
  else loop fuel (ks_puts_step buf size) (s, total).

(** The digits [ks_putu] collects in [tmp], a local of 32 bytes: writing past
    its end is undefined. The most recent digit comes first. *)
Definition ks_digit (d : Z) : Z := wrap8 (if d <? 10 then c_0 + d else c_a + d - 10).
Definition ks_digits_step (base : Z) (v : list Z * Z) : M memory (list Z * Z + list Z) :=
  let '(tmp, value) := v in
  if value =? 0 then ret (inr tmp)
  else if (base =? 0) || (32 <=? Z.of_nat (length tmp)) then undef
  else ret (inl (ks_digit (value mod base) :: tmp, value / base)).

Definition ks_putu (buf size total value base : Z) : M memory Z :=
  let* tmp := if value =? 0 then ret [c_0] else loop 65 (ks_digits_step base) ([], value) in
  ks_put_list buf size total tmp.

(** [value] is an [int64_t]. *)
Definition ks_putd (buf size total value : Z) : M memory Z :=
  if value <? 0 then
    let* total := ks_putc buf size total 45 in
    ks_putu buf size total (wrap64 (wrap64 (- (value + 1)) + 1)) 10
  else ks_putu buf size total value 10.

(** [va_arg]: the next 64-bit slot; reading past the arguments is undefined. *)
Definition va_arg (args : list Z) : M memory (Z * list Z) :=
  match args with a :: rest => ret (a, rest) | [] => undef end.

Definition ks_convert (fuel : nat) (buf size total conv : Z) (args : list Z) : M memory (Z * list Z) :=
  if (conv =? 100) || (conv =? 105) then (* 'd', 'i' *)
    let* a := va_arg args in let* t := ks_putd buf size total (to_s64 (fst a)) in ret (t, snd a)
  else if conv =? 117 then (* 'u' *)
    let* a := va_arg args in let* t := ks_putu buf size total (fst a) 10 in ret (t, snd a)
  else if conv =? 120 then (* 'x' *)
    let* a := va_arg args in let* t := ks_putu buf size total (fst a) 16 in ret (t, snd a)
  else if conv =? 115 then (* 's' *)
    let* a := va_arg args in let* t := ks_puts fuel buf size total (fst a) in ret (t, snd a)
  else if conv =? 99 then (* 'c' *)
    let* a := va_arg args in let* t := ks_putc buf size total (wrap8 (fst a)) in ret (t, snd a)
  else if conv =? 37 then (* '%' *)
    let* t := ks_putc buf size total 37 in ret (t, args)
  else
    let* t := ks_putc buf size total 37 in
    let* t := ks_putc buf size t conv in ret (t, args).

Definition kvsnprintf_step (fuel : nat) (buf size : Z) (v : Z * Z * list Z) : M memory (Z * Z * list Z + Z) :=
  let '(fmt, total, args) := v in
  let* c := load8 fmt in
  if c =? 0 then ret (inr total) else
  if negb (c =? 37) then let* t := ks_putc buf size total c in ret (inl (fmt + 1, t, args)) else
  let fmt := fmt + 1 in
  let* c := load8 fmt in
  let* fmt := if c =? 108 then ret (fmt + 1) else ret fmt in
  let* conv := load8 fmt in
  if conv =? 0 then ret (inr total) else
  let* r := ks_convert fuel buf size total conv args in
  let '(total, args) := r in
  ret (inl (fmt + 1, total, args)).

Definition kvsnprintf (fuel : nat) (buf size fmt : Z) (args : list Z) : M memory Z :=
  if fmt =? 0 then ret 0 else
  let* total := loop fuel (kvsnprintf_step fuel buf size) (fmt, 0, args) in
  when (0 <? size) (store8 (buf + (if total <? size then total else size - 1)) 0);;
  ret (to_s64 total).

(** [va_start] collects the variable arguments. *)
Definition ksnprintf (fuel : nat) (buf size fmt : Z) (args : list Z) : M memory Z :=
  kvsnprintf fuel buf size fmt args.
