(* ===== verification/CStringThms.v ===== *)
(** What the string routines compute: the number conversions against positional
    notation, in-place reversal, comparison as an order, and [kvsnprintf]
    against an unbounded renderer. *)

From S2P Require Import Prelude Bytes CMem CString.

(** * Strings in memory *)

Definition is_char (c : Z) : Prop := 0 < c < 256.

(** The NUL-terminated string [s] is at [p]. *)
Definition cstr (m : memory) (p : Z) (s : list Z) : Prop :=
  load_bytes m p (S (length s)) = Some (s ++ [0]) /\ Forall is_char s.

Lemma cstr_char m p s i c : cstr m p s -> s !! i = Some c -> m !! (p + Z.of_nat i) = Some c /\ 0 < c < 256.
Proof.
  intros [[_ H]%load_bytes_lookup Hc] Hi. pose proof (lookup_lt_Some _ _ _ Hi).
  rewrite H, lookup_app_l by lia. split; [exact Hi|]. apply (proj1 (Forall_lookup is_char s) Hc i c Hi).
Qed.

Lemma cstr_end m p s : cstr m p s -> m !! (p + Z.of_nat (length s)) = Some 0.
Proof. intros [[_ H]%load_bytes_lookup _]. rewrite H, lookup_app_r, Nat.sub_diag by lia. reflexivity. Qed.

(** The string from its [i]-th character on. *)
Lemma cstr_drop m p s i : (i <= length s)%nat -> cstr m p s -> cstr m (p + Z.of_nat i) (drop i s).
Proof.
  intros Hi [H Hc]. split; [|now apply Forall_drop].
  rewrite (load_bytes_part _ _ _ _ i (S (length (drop i s))) H) by (rewrite length_drop; lia).
  rewrite length_drop, drop_app_le, take_ge by (rewrite ?length_app, ?length_drop; simpl; lia). reflexivity.
Qed.

Lemma cstr_cons m p c s : cstr m p (c :: s) -> m !! p = Some c /\ c <> 0 /\ is_char c /\ cstr m (p + 1) s.
Proof.
  intros H. pose proof (cstr_char m p _ 0 c H eq_refl) as [H1 H2]. rewrite Z.add_0_r in H1.
  pose proof (cstr_drop m p (c :: s) 1 ltac:(simpl; lia) H). split_and!; auto. lia.
Qed.

Lemma cstr_nil m p : cstr m p [] -> m !! p = Some 0.
Proof. intros H%cstr_end. now rewrite Z.add_0_r in H. Qed.

Lemma cstr_ext m m' p s : (forall x, p <= x <= p + Z.of_nat (length s) -> m' !! x = m !! x) -> cstr m p s -> cstr m' p s.
Proof. intros Hx [H Hc]. split; [|exact Hc]. rewrite <- H. apply load_bytes_ext. intros x ?. apply Hx. lia. Qed.

Lemma cstr_store m p s : Forall is_char s -> cstr (store_bytes m p (s ++ [0])) p s.
Proof.
  intros Hc. split; [|exact Hc]. pose proof (load_store_same m p (s ++ [0])) as H.
  rewrite length_app, Nat.add_comm in H. exact H.
Qed.

(** * Length *)

Lemma strlen_loop m p s fuel : cstr m p s -> forall i, (i <= length s)%nat -> (length s - i < fuel)%nat ->
  wp (loop fuel (strlen_step p) (Z.of_nat i)) (λ r m', r = Z.of_nat (length s) /\ m' = m) m.
Proof.
  intros Hs i Hi Hf. apply (wp_loop (λ k j m', exists i, j = Z.of_nat i /\ (i <= length s)%nat /\
    k = (length s - i)%nat /\ m' = m) (length s - i)); [eauto 6|exact Hf|].
  intros k j m' (i' & -> & Hi' & -> & ->). unfold strlen_step.
  destruct (decide (i' = length s)) as [->|Hne].
  - apply wp_bind; eapply wp_load8; [now apply cstr_end|]. apply wp_ret. auto.
  - destruct (lookup_lt_is_Some_2 s i') as [c Hc]; [lia|]. destruct (cstr_char m p s i' c Hs Hc) as [Hl Hr].
    apply wp_bind; eapply wp_load8; [exact Hl|]. destruct (Z.eqb_spec c 0); [lia|]. apply wp_ret.
    exists (length s - S i')%nat. split; [lia|]. exists (S i'). split_and!; auto; lia.
Qed.

Lemma strlen_ok m p s fuel : p <> 0 -> cstr m p s -> (length s < fuel)%nat ->
  strlen fuel p m = Some (Z.of_nat (length s), m).
Proof.
  intros Hp Hs Hf. unfold strlen. destruct (Z.eqb_spec p 0); [easy|].
  pose proof (strlen_loop m p s fuel Hs 0 ltac:(lia) ltac:(lia)) as H.
  apply wp_run in H as (r & m' & E & -> & ->). exact E.
Qed.

(** * Numbers *)

(** Positional value of a digit string, most significant digit first. *)
Definition num (base : Z) (s : list Z) : Z := foldl (λ r c, r * base + char_to_digit c) 0 s.

Definition is_digit_of (base c : Z) : Prop := is_char c /\ 0 <= char_to_digit c < base.

Lemma num_snoc base s c : num base (s ++ [c]) = num base s * base + char_to_digit c.
Proof. unfold num. rewrite foldl_app. reflexivity. Qed.

Lemma atoi_ok m p s base fuel : cstr m p s -> 0 < base <= 255 -> Forall (is_digit_of base) s -> (length s < fuel)%nat ->
  atoi fuel p base m = Some (wrap64 (num base s), m).
Proof.
  intros Hs Hb Hd Hf. enough (wp (atoi fuel p base) (λ r m', r = wrap64 (num base s) /\ m' = m) m) as H.
  { apply wp_run in H as (r & m' & E & -> & ->). exact E. }
  apply (wp_loop (λ k v m', exists i, v = (p + Z.of_nat i, wrap64 (num base (take i s))) /\ (i <= length s)%nat /\
    k = (length s - i)%nat /\ m' = m) (length s)); [exists O|exact Hf|].
  { rewrite Z.add_0_r, Nat.sub_0_r. split_and!; auto. lia. }
  intros k v m' (i & -> & Hi & -> & ->). unfold atoi_step. destruct (decide (i = length s)) as [->|Hne].
  - apply wp_bind; eapply wp_load8; [now apply cstr_end|]. apply wp_ret. rewrite take_ge by lia. auto.
  - destruct (lookup_lt_is_Some_2 s i) as [c Hc]; [lia|]. destruct (cstr_char m p s i c Hs Hc) as [Hl Hr].
    apply wp_bind; eapply wp_load8; [exact Hl|]. destruct (Z.eqb_spec c 0); [lia|].
    destruct (proj1 (Forall_lookup _ s) Hd i c Hc) as [_ Hdig].
    destruct (Z.eqb_spec (char_to_digit c) 255); [lia|]. apply wp_ret.
    exists (length s - S i)%nat. split; [lia|]. exists (S i). split_and!; auto; try lia.
    rewrite (take_S_r _ _ _ Hc), num_snoc. f_equal; [lia|]. unfold wrap.
    rewrite Zplus_mod_idemp_l, <- Zplus_mod_idemp_l, Zmult_mod_idemp_l, Zplus_mod_idemp_l. reflexivity.
Qed.

(** The characters [itoa] writes, least significant first. *)
Definition hex_char (d : Z) : Z := if d <? 10 then c_0 + d else c_A + d - 10.
Fixpoint ldigits (fuel : nat) (base v : Z) : list Z :=
  match fuel with
  | O => []
  | S f => hex_char (v mod base) :: (if v / base =? 0 then [] else ldigits f base (v / base))
  end.

Lemma hex_digits_lookup d : 0 <= d < 16 -> arr_get hex_digits d = Some (hex_char d).
Proof.
  intros H. pose proof (Z_enum 16 (λ d, bool_decide (arr_get hex_digits d = Some (hex_char d)))) as HH.
  apply (bool_decide_eq_true_1 _), HH; [vm_compute; reflexivity | exact H].
Qed.

Lemma hex_char_digit d : 0 <= d < 16 -> char_to_digit (hex_char d) = d /\ is_char (hex_char d).
Proof.
  intros H. pose proof (Z_enum 16 (λ d, bool_decide (char_to_digit (hex_char d) = d /\ 0 < hex_char d /\ hex_char d < 256))) as HH.
  unfold is_char. apply (bool_decide_eq_true_1 _), HH; [vm_compute; reflexivity | exact H].
Qed.

(** Value of a digit string, least significant digit first. *)
Definition lnum (base : Z) (s : list Z) : Z := foldr (λ c r, r * base + char_to_digit c) 0 s.

Lemma num_reverse base s : num base (reverse s) = lnum base s.
Proof.
  induction s as [|c s IH]; [reflexivity|]. rewrite reverse_cons, num_snoc, IH. reflexivity.
Qed.

Section Itoa.
Context (base : Z) (Hb : 2 <= base <= 16).

Lemma ldigits_value fuel v : 0 <= v < 2 ^ Z.of_nat fuel -> lnum base (ldigits fuel base v) = v.
Proof using Hb.
  revert v. induction fuel as [|f IH]; intros v Hv; [simpl in *; lia|]. cbn [ldigits lnum foldr].
  pose proof (Z.mod_pos_bound v base ltac:(lia)). pose proof (Z.div_mod v base ltac:(lia)).
  rewrite (proj1 (hex_char_digit (v mod base) ltac:(lia))).
  rewrite Nat2Z.inj_succ, Z.pow_succ_r in Hv by lia.
  destruct (Z.eqb_spec (v / base) 0) as [E|]; simpl; [lia|].
  change (foldr _ 0 ?l) with (lnum base l). rewrite IH; [lia|]. nia.
Qed.

Lemma ldigits_chars fuel v : 0 <= v -> Forall (is_digit_of base) (ldigits fuel base v).
Proof using Hb.
  revert v. induction fuel as [|f IH]; intros v Hv; [constructor|]. simpl. constructor.
  - pose proof (Z.mod_pos_bound v base ltac:(lia)). destruct (hex_char_digit (v mod base) ltac:(lia)) as [E ?].
    split; [assumption|]. lia.
  - destruct (v / base =? 0); [constructor|]. apply IH. apply Z.div_pos; lia.
Qed.

Lemma ldigits_length fuel v : (length (ldigits fuel base v) <= fuel)%nat.
Proof using.
  revert v. induction fuel as [|f IH]; intros v; [reflexivity|]. simpl. specialize (IH (v / base)).
  destruct (v / base =? 0); simpl; lia.
Qed.

Lemma itoa_digit_step_eq ptr v count : 0 <= v < 2 ^ 64 -> 0 <= count < 2 ^ 64 - 1 ->
  itoa_digit_step base (ptr, v, count) =
    (store8 ptr (hex_char (v mod base));;
     if v / base =? 0 then ret (inr (ptr + 1, count + 1)) else ret (inl (ptr + 1, v / base, count + 1))).
Proof using Hb.
  intros Hv Hc. unfold itoa_digit_step. destruct (Z.eqb_spec base 0); [lia|].
  pose proof (Z.mod_pos_bound v base ltac:(lia)). pose proof (Z.div_mod v base ltac:(lia)).
  pose proof (Z.div_pos v base ltac:(lia) ltac:(lia)).
  rewrite (wrap64_small (v / base * base)), (wrap64_small (count + 1)), (wrap64_small (v - _)) by lia.
  replace (v - v / base * base) with (v mod base) by lia. rewrite hex_digits_lookup by lia. reflexivity.
Qed.

(** The digit loop stores the digits from [ptr] up. *)
Lemma itoa_digits_ok fuel m ptr v count :
  0 < v < 2 ^ Z.of_nat fuel -> v < 2 ^ 64 -> 0 <= count -> count + Z.of_nat fuel < 2 ^ 64 ->
  mapped m ptr (Z.of_nat (length (ldigits fuel base v))) ->
  wp (loop fuel (itoa_digit_step base) (ptr, v, count))
    (λ r m', let l := ldigits fuel base v in
       r = (ptr + Z.of_nat (length l), count + Z.of_nat (length l)) /\ m' = store_bytes m ptr l) m.
Proof using Hb.
  revert m ptr v count. induction fuel as [|f IH]; intros m ptr v count Hv Hv64 Hc Hcf Hm; [simpl in *; lia|].
  rewrite loop_S, itoa_digit_step_eq by lia. apply wp_bind, wp_bind.
  rewrite Nat2Z.inj_succ, Z.pow_succ_r in Hv by lia. cbn [ldigits] in *.
  pose proof (Z.div_pos v base ltac:(lia) ltac:(lia)).
  apply wp_store8; [apply Hm; cbn [length]; lia|].
  destruct (Z.eqb_spec (v / base) 0) as [E|E]; apply wp_ret; cbv beta iota.
  - apply wp_ret. cbn [length]. split; [f_equal; lia|reflexivity].
  - assert (Hlt : v / base < 2 ^ Z.of_nat f) by (apply Z.div_lt_upper_bound; [lia|]; nia).
    pose proof (Z.div_lt v base ltac:(lia) ltac:(lia)).
    eapply wp_mono; [apply (IH (store_bytes m ptr [hex_char (v mod base)])); [lia..|]|].
    + apply mapped_store. intros x Hx. apply Hm. cbn [length]. lia.
    + intros r m' [-> ->]. cbn [length]. split; [f_equal; lia|].
      now rewrite <- (store_bytes_app m ptr [_]).
Qed.

Lemma itoa_pad_ok fuel w m ptr count : 0 <= count -> 0 <= w < 2 ^ 64 -> (Z.to_nat (w - count) < fuel)%nat ->
  mapped m ptr (w - count) ->
  wp (loop fuel (itoa_pad_step w) (ptr, count))
    (λ r m', r = ptr + Z.max 0 (w - count) /\ m' = store_bytes m ptr (replicate (Z.to_nat (w - count)) c_0)) m.
Proof using.
  intros Hc Hw Hf Hm. revert m ptr count Hc Hf Hm. induction fuel as [|f IH]; intros m ptr count Hc Hf Hm; [lia|].
  rewrite loop_S. apply wp_bind. unfold itoa_pad_step. destruct (Z.ltb_spec count w).
  - apply wp_bind, wp_store8; [apply Hm; lia|]. rewrite wrap64_small by lia. apply wp_ret.
    eapply wp_mono; [apply (IH (store_bytes m ptr [c_0])); [lia..|]|].
    + apply mapped_store. intros x Hx. apply Hm. lia.
    + intros r m' [-> ->]. split; [lia|]. rewrite <- (store_bytes_app m ptr [c_0]). f_equal.
      replace (Z.to_nat (w - count)) with (S (Z.to_nat (w - (count + 1)))) by lia. reflexivity.
  - apply wp_ret, wp_ret. replace (Z.to_nat (w - count)) with O by lia. split; [lia|reflexivity].
Qed.
End Itoa.

(** * In-place reversal *)

Lemma find_end_ok m p s fuel : cstr m p s -> (length s < fuel)%nat ->
  wp (loop fuel find_end_step p) (λ r m', r = p + Z.of_nat (length s) /\ m' = m) m.
Proof.
  revert p s. induction fuel as [|f IH]; intros p s Hs Hf; [lia|]. rewrite loop_S. apply wp_bind, wp_bind.
  destruct s as [|c s].
  - eapply wp_load8; [now apply cstr_nil|]. apply wp_ret, wp_ret. simpl. split; [lia|reflexivity].
  - apply cstr_cons in Hs as (Hl & Hc & _ & Hs). eapply wp_load8; [exact Hl|].
    destruct (Z.eqb_spec c 0); [easy|]. apply wp_ret. simpl in Hf.
    eapply wp_mono; [apply IH; [exact Hs|lia]|]. intros r m' [-> ->]. simpl. split; [lia|reflexivity].
Qed.

(** [l] with its first and last [i] elements exchanged. *)
Definition flipped (i : nat) (l : list Z) : list Z :=
  imap (λ k c, if bool_decide (k < i \/ length l - i <= k)%nat then l !!! (length l - 1 - k)%nat else c) l.

Lemma flipped_length i l : length (flipped i l) = length l.
Proof. apply length_imap. Qed.

Lemma flipped_lookup i l k : (k < length l)%nat -> flipped i l !! k =
  if decide (k < i \/ length l - i <= k)%nat then l !! (length l - 1 - k)%nat else l !! k.
Proof.
  intros Hk. unfold flipped. rewrite list_lookup_imap. destruct (lookup_lt_is_Some_2 l k Hk) as [c Hc]. rewrite Hc. simpl.
  destruct (decide _) as [H|H]; [rewrite bool_decide_eq_true_2 by exact H|rewrite bool_decide_eq_false_2 by exact H; reflexivity].
  symmetry. apply list_lookup_lookup_total_lt. lia.
Qed.

Lemma flipped_full i l : (length l <= 2 * i + 1)%nat -> (i <= length l)%nat -> flipped i l = reverse l.
Proof.
  intros Hi Hle. apply list_eq. intros k. destruct (decide (k < length l)%nat) as [Hk|Hk].
  - rewrite flipped_lookup, reverse_lookup by exact Hk.
    destruct (decide _) as [H|H]; [f_equal; lia|]. f_equal. lia.
  - rewrite !(proj2 (lookup_ge_None _ _)); rewrite ?length_reverse, ?flipped_length; auto; lia.
Qed.

(** One exchange. *)
Lemma flipped_step m p l i a b : (2 * i + 1 < length l)%nat ->
  flipped i l !! i = Some a -> flipped i l !! (length l - 1 - i)%nat = Some b ->
  store_bytes (store_bytes (store_bytes m p (flipped i l)) (p + Z.of_nat i) [b]) (p + Z.of_nat (length l) - 1 - Z.of_nat i) [a]
  = store_bytes m p (flipped (S i) l).
Proof.
  intros Hi Ha Hb. rewrite flipped_lookup in Ha, Hb by lia. apply map_eq. intros x.
  rewrite !store_bytes_lookup, !flipped_length. cbn [length].
  destruct (decide (p <= x < p + Z.of_nat (length l))) as [Hx|Hx];
    [|rewrite !decide_False by lia; reflexivity].
  set (k := Z.to_nat (x - p)) in *. rewrite !flipped_lookup by lia.
  rewrite decide_False in Ha by lia. rewrite decide_False in Hb by lia.
  destruct (decide (k = i)) as [Ek|]; [|destruct (decide (k = length l - 1 - i)%nat) as [Ek|]].
  - rewrite (decide_False (P := p + Z.of_nat (length l) - 1 - Z.of_nat i <= x < _)), decide_True, (decide_True (P := (k < S i \/ _)%nat)) by lia.
    rewrite Ek, Hb. replace (Z.to_nat _) with O by lia. reflexivity.
  - rewrite decide_True, (decide_True (P := (k < S i \/ _)%nat)) by lia.
    replace (length l - 1 - k)%nat with i by lia. rewrite Ha. replace (Z.to_nat _) with O by lia. reflexivity.
  - rewrite (decide_False (P := p + Z.of_nat (length l) - 1 - Z.of_nat i <= x < _)), (decide_False (P := p + Z.of_nat i <= x < _)) by lia.
    destruct (decide (k < i \/ length l - i <= k)%nat), (decide (k < S i \/ length l - S i <= k)%nat); try lia; reflexivity.
Qed.

Lemma flip_loop_ok m p l fuel : (length l < fuel)%nat ->
  wp (loop fuel flip_step (p, p + Z.of_nat (length l) - 1)) (λ _ m', m' = store_bytes m p (reverse l)) (store_bytes m p l).
Proof.
  intros Hf. apply (wp_loop (λ k v m', exists i, v = (p + Z.of_nat i, p + Z.of_nat (length l) - 1 - Z.of_nat i) /\
    (2 * i <= length l + 1)%nat /\ (i <= length l)%nat /\ k = (length l - i)%nat /\ m' = store_bytes m p (flipped i l)) (length l)); [|exact Hf|].
  { exists O. rewrite Nat.sub_0_r. split_and!; auto; try lia; [f_equal; lia|]. f_equal.
    apply list_eq. intros k. destruct (decide (k < length l)%nat).
    - rewrite flipped_lookup, decide_False by lia. reflexivity.
    - rewrite !(proj2 (lookup_ge_None _ _)); rewrite ?flipped_length; auto; lia. }
  intros k v m' (i & -> & Hi & Hil & -> & ->). unfold flip_step.
  destruct (Z.ltb_spec (p + Z.of_nat i) (p + Z.of_nat (length l) - 1 - Z.of_nat i)) as [Hlt|Hge].
  - destruct (lookup_lt_is_Some_2 (flipped i l) i) as [a Ha]; [rewrite flipped_length; lia|].
    destruct (lookup_lt_is_Some_2 (flipped i l) (length l - 1 - i)) as [b Hb]; [rewrite flipped_length; lia|].
    assert (Hin : forall j, (j < length l)%nat -> store_bytes m p (flipped i l) !! (p + Z.of_nat j) = flipped i l !! j).
    { intros j Hj. rewrite store_bytes_lookup, flipped_length, decide_True by lia. f_equal. lia. }
    apply wp_bind, (wp_load8 _ a); [rewrite Hin by lia; exact Ha|].
    replace (p + Z.of_nat (length l) - 1 - Z.of_nat i) with (p + Z.of_nat (length l - 1 - i)) by lia.
    apply wp_bind, (wp_load8 _ b); [rewrite Hin by lia; exact Hb|].
    apply wp_bind, wp_store8; [rewrite Hin by lia; eauto|].
    apply wp_bind, wp_store8; [apply (mapped_store _ _ _ p (Z.of_nat (length (flipped i l)))); [apply store_bytes_mapped|rewrite flipped_length; lia]|].
    apply wp_ret. exists (length l - S i)%nat. split; [lia|]. exists (S i). split_and!; try lia; [f_equal; lia|].
    rewrite <- (flipped_step m p l i a b) by (auto; lia). f_equal. lia.
  - apply wp_ret. f_equal. apply flipped_full; lia.
Qed.

Lemma store_bytes_app_r m a l1 l2 :
  store_bytes m a (l1 ++ l2) = store_bytes (store_bytes m (a + Z.of_nat (length l1)) l2) a l1.
Proof.
  revert a. induction l1 as [|b l1 IH]; intros a; simpl; [now rewrite Z.add_0_r|].
  rewrite IH. do 3 f_equal. lia.
Qed.

Lemma flip_str_ok m p l fuel : Forall is_char l -> (length l < fuel)%nat ->
  wp (flip_str fuel p) (λ _ m', m' = store_bytes m p (reverse l ++ [0])) (store_bytes m p (l ++ [0])).
Proof.
  intros Hl Hf. apply wp_bind. eapply wp_mono; [apply find_end_ok; [now apply cstr_store|exact Hf]|].
  intros r m' [-> ->]. rewrite (store_bytes_app_r m p l [0]). eapply wp_mono; [apply flip_loop_ok, Hf|].
  intros _ m' ->. rewrite store_bytes_app_r, length_reverse. reflexivity.
Qed.

(** What [itoa] leaves at [str]: the digits padded with zeros to [min_width]. *)
Definition itoa_text (value base min_width : Z) : list Z :=
  let l := ldigits 64 base value in
  reverse (l ++ replicate (Z.to_nat (min_width - Z.of_nat (length l))) c_0).

Lemma c_0_digit base : 2 <= base -> is_digit_of base c_0.
Proof. intros. unfold is_digit_of, is_char, c_0. change (char_to_digit 48) with 0. lia. Qed.

Lemma itoa_text_digits value base w : 0 <= value -> 2 <= base <= 16 -> Forall (is_digit_of base) (itoa_text value base w).
Proof.
  intros Hv Hb. apply Forall_reverse, Forall_app. split; [now apply ldigits_chars|].
  apply Forall_replicate, c_0_digit. lia.
Qed.

Lemma lnum_zeros base s k : lnum base (s ++ replicate k c_0) = lnum base s.
Proof.
  induction s as [|c s IH]; simpl; [|now rewrite IH].
  induction k as [|k IH]; simpl; [reflexivity|]. rewrite IH. reflexivity.
Qed.

Lemma itoa_text_num value base w : 0 <= value < 2 ^ 64 -> 2 <= base <= 16 -> num base (itoa_text value base w) = value.
Proof. intros Hv Hb. unfold itoa_text. rewrite num_reverse, lnum_zeros. now apply (ldigits_value base Hb 64). Qed.

Lemma itoa_text_length value base w :
  Z.of_nat (length (itoa_text value base w)) = Z.max w (Z.of_nat (length (ldigits 64 base value))).
Proof. unfold itoa_text. rewrite length_reverse, length_app, length_replicate. lia. Qed.

Lemma ldigits_fuel base v f : 2 <= base -> 0 <= v < 2 ^ Z.of_nat f -> (0 < f)%nat -> ldigits (S f) base v = ldigits f base v.
Proof.
  intros Hb. revert v. induction f as [|f IH]; intros v Hv Hf; [lia|].
  change (ldigits (S (S f)) base v) with (hex_char (v mod base) :: (if v / base =? 0 then [] else ldigits (S f) base (v / base))).
  cbn [ldigits]. destruct (Z.eqb_spec (v / base) 0); [reflexivity|]. f_equal.
  pose proof (Z.div_pos v base ltac:(lia) ltac:(lia)). rewrite Nat2Z.inj_succ, Z.pow_succ_r in Hv by lia.
  pose proof (Z.div_lt_upper_bound v base (2 ^ Z.of_nat f) ltac:(lia) ltac:(nia)).
  apply IH; [lia|]. destruct f; [simpl in *; lia|lia].
Qed.

Lemma ldigits_more base v k : 2 <= base -> 0 <= v < 2 ^ 64 -> ldigits (64 + k) base v = ldigits 64 base v.
Proof.
  intros Hb Hv. induction k as [|k IH]; [reflexivity|]. rewrite Nat.add_succ_r, ldigits_fuel; [exact IH|lia| |lia].
  split; [lia|]. apply Z.lt_le_trans with (2 ^ 64); [lia|]. apply Z.pow_le_mono_r; lia.
Qed.

Lemma itoa_ok m value str base w : 0 <= value < 2 ^ 64 -> 2 <= base <= 16 -> 0 <= w < 2 ^ 63 ->
  mapped m str (Z.of_nat (length (itoa_text value base w)) + 1) ->
  wp (itoa value str base w) (λ _ m', m' = store_bytes m str (itoa_text value base w ++ [0])) m.
Proof.
  intros Hv Hb Hw Hm. rewrite itoa_text_length in Hm. unfold itoa.
  set (fuel := (66 + Z.to_nat w)%nat). set (l := ldigits 64 base value) in *.
  assert (Hlen : (length l <= 64)%nat) by apply ldigits_length. apply wp_bind.
  apply (wp_mono _ (λ r m', r = (str + Z.of_nat (length l), Z.of_nat (length l)) /\ m' = store_bytes m str l)).
  { destruct (Z.eqb_spec value 0) as [->|].
    - apply wp_bind, wp_store8; [apply Hm; lia|]. apply wp_ret. subst l. simpl. change (0 / base) with 0.
      rewrite Z.mod_0_l by lia. auto.
    - assert (El : ldigits fuel base value = l) by (apply (ldigits_more base value (2 + Z.to_nat w)); lia).
      assert (2 ^ 64 <= 2 ^ Z.of_nat fuel) by (apply Z.pow_le_mono_r; lia).
      eapply wp_mono; [apply itoa_digits_ok; rewrite ?El; try lia|rewrite El; intros r m' [-> ->]; auto].
      intros x Hx. apply Hm. lia. }
  intros r m' [-> ->]. apply wp_bind. set (pad := Z.to_nat (w - Z.of_nat (length l))).
  eapply wp_mono; [apply itoa_pad_ok; [lia..|]|].
  { apply mapped_store. intros x Hx. apply Hm. lia. }
  intros ptr m' [-> ->]. rewrite <- store_bytes_app. fold pad. apply wp_bind, wp_store8.
  { eapply (mapped_store m _ _ str); [exact Hm|lia]. }
  replace (str + Z.of_nat (length l) + Z.max 0 (w - Z.of_nat (length l)))
    with (str + Z.of_nat (length (l ++ replicate pad c_0))) by (rewrite length_app, length_replicate; lia).
  rewrite <- store_bytes_app. apply flip_str_ok.
  - pose proof (itoa_text_digits value base w ltac:(lia) Hb) as Hd.
    rewrite <- Forall_reverse. eapply Forall_impl; [|exact Hd]. intros c [Hc _]. exact Hc.
  - rewrite length_app, length_replicate. lia.
Qed.

(** * Comparison *)

(** Lexicographic order of strings of signed characters. *)
Fixpoint str_cmp (s1 s2 : list Z) : Z :=
  match s1, s2 with
  | [], [] => 0
  | _ :: _, [] => 1
  | [], _ :: _ => -1
  | a :: s1, b :: s2 =>
      if to_s8 b <? to_s8 a then 1 else if to_s8 a <? to_s8 b then -1 else str_cmp s1 s2
  end.

Lemma to_s8_inj a b : is_char a -> is_char b -> to_s8 a = to_s8 b -> a = b.
Proof. unfold is_char, to_s8. intros. destruct (Z.ltb_spec a 128), (Z.ltb_spec b 128); lia. Qed.

Lemma str_cmp_zero s1 s2 : Forall is_char s1 -> Forall is_char s2 -> str_cmp s1 s2 = 0 <-> s1 = s2.
Proof.
  intros H1. revert s2. induction H1 as [|a s1 Ha H1 IH]; intros [|b s2] H2; simpl; try easy.
  inversion H2 as [|? ? Hb H2']; subst.
  destruct (Z.ltb_spec (to_s8 b) (to_s8 a)), (Z.ltb_spec (to_s8 a) (to_s8 b)); try (split; [lia|intros [=]; subst; lia]).
  rewrite IH by assumption. assert (a = b) as -> by (apply to_s8_inj; auto; lia). split; congruence.
Qed.

Lemma str_cmp_antisym s1 s2 : str_cmp s2 s1 = - str_cmp s1 s2.
Proof.
  revert s2. induction s1 as [|a s1 IH]; intros [|b s2]; simpl; try reflexivity. rewrite IH.
  destruct (Z.ltb_spec (to_s8 b) (to_s8 a)), (Z.ltb_spec (to_s8 a) (to_s8 b)); lia.
Qed.

Lemma str_cmp_trans s1 s2 s3 : str_cmp s1 s2 <= 0 -> str_cmp s2 s3 <= 0 -> str_cmp s1 s3 <= 0.
Proof.
  revert s2 s3. induction s1 as [|a s1 IH]; intros [|b s2] [|c s3]; simpl; try lia.
  destruct (Z.ltb_spec (to_s8 b) (to_s8 a)), (Z.ltb_spec (to_s8 a) (to_s8 b)), (Z.ltb_spec (to_s8 c) (to_s8 b)),
    (Z.ltb_spec (to_s8 b) (to_s8 c)), (Z.ltb_spec (to_s8 c) (to_s8 a)), (Z.ltb_spec (to_s8 a) (to_s8 c)); try lia.
  apply IH.
Qed.

(** Where both strings have been equal for [i] characters. *)
Definition same_upto (s1 s2 : list Z) (i : nat) : Prop :=
  (i <= length s1)%nat /\ (i <= length s2)%nat /\ take i s1 = take i s2.

Lemma str_cmp_app l s1 s2 : str_cmp (l ++ s1) (l ++ s2) = str_cmp s1 s2.
Proof. induction l as [|c l IH]; [reflexivity|]. simpl. rewrite Z.ltb_irrefl. exact IH. Qed.

Lemma same_upto_cmp s1 s2 i : same_upto s1 s2 i -> str_cmp s1 s2 = str_cmp (drop i s1) (drop i s2).
Proof.
  intros (_ & _ & E). rewrite <- (take_drop i s1), <- (take_drop i s2) at 1. rewrite E. apply str_cmp_app.
Qed.

Lemma same_upto_S s1 s2 i a : same_upto s1 s2 i -> s1 !! i = Some a -> s2 !! i = Some a -> same_upto s1 s2 (S i).
Proof.
  intros (H1 & H2 & E) Ha Hb. split_and!; [apply lookup_lt_Some in Ha; lia|apply lookup_lt_Some in Hb; lia|].
  now rewrite (take_S_r _ _ _ Ha), (take_S_r _ _ _ Hb), E.
Qed.

Section Compare.
Context (m : memory) (p1 p2 : Z) (s1 s2 : list Z) (H1 : cstr m p1 s1) (H2 : cstr m p2 s2).

(** Both loops fetch the characters at [i] this way. *)
Lemma fetch_pair i (K : Z -> Z -> M memory (Z + (Z + Z))) (Q : Z + (Z + Z) -> memory -> Prop) :
  (i <= length s1)%nat -> (i <= length s2)%nat ->
  (i = length s1 \/ i = length s2 -> Q (inr (inl (Z.of_nat i))) m) ->
  (forall a b, s1 !! i = Some a -> s2 !! i = Some b -> is_char a -> is_char b -> wp (K a b) Q m) ->
  wp (let* a := load8 (p1 + Z.of_nat i) in if a =? 0 then ret (inr (inl (Z.of_nat i))) else
      let* b := load8 (p2 + Z.of_nat i) in if b =? 0 then ret (inr (inl (Z.of_nat i))) else K a b) Q m.
Proof using H1 H2.
  intros Hi1 Hi2 Hend HK. apply wp_bind. destruct (decide (i = length s1)) as [E|].
  { eapply wp_load8; [rewrite E; now apply cstr_end|]. apply wp_ret, Hend. auto. }
  destruct (lookup_lt_is_Some_2 s1 i) as [a Ha]; [lia|]. destruct (cstr_char _ _ _ _ _ H1 Ha) as [La ?].
  eapply wp_load8; [exact La|]. destruct (Z.eqb_spec a 0); [lia|]. apply wp_bind.
  destruct (decide (i = length s2)) as [E|].
  { eapply wp_load8; [rewrite E; now apply cstr_end|]. apply wp_ret, Hend. auto. }
  destruct (lookup_lt_is_Some_2 s2 i) as [b Hb]; [lia|]. destruct (cstr_char _ _ _ _ _ H2 Hb) as [Lb ?].
  eapply wp_load8; [exact Lb|]. destruct (Z.eqb_spec b 0); [lia|]. now apply HK.
Qed.

Lemma strcmp_tail_ok i : same_upto s1 s2 i -> (i = length s1 \/ i = length s2) ->
  wp (strcmp_tail p1 p2 (Z.of_nat i)) (λ r m', r = str_cmp s1 s2 /\ m' = m) m.
Proof using H1 H2.
  intros Hs Hend. pose proof Hs as (Hi1 & Hi2 & _). rewrite (same_upto_cmp _ _ _ Hs). unfold strcmp_tail. apply wp_bind.
  destruct (decide (i = length s1)) as [E|].
  - eapply wp_load8; [rewrite E; now apply cstr_end|]. simpl. apply wp_bind. rewrite (drop_ge s1) by lia.
    destruct (decide (i = length s2)) as [E2|].
    + eapply wp_load8; [rewrite E2; now apply cstr_end|]. rewrite (drop_ge s2) by lia. apply wp_ret. auto.
    + destruct (lookup_lt_is_Some_2 s2 i) as [b Hb]; [lia|]. destruct (cstr_char _ _ _ _ _ H2 Hb) as [Lb ?].
      eapply wp_load8; [exact Lb|]. destruct (Z.eqb_spec b 0); [lia|]. rewrite (drop_S _ _ _ Hb). apply wp_ret. auto.
  - destruct (lookup_lt_is_Some_2 s1 i) as [a Ha]; [lia|]. destruct (cstr_char _ _ _ _ _ H1 Ha) as [La ?].
    eapply wp_load8; [exact La|]. destruct (Z.eqb_spec a 0); [lia|].
    rewrite (drop_S _ _ _ Ha), (drop_ge s2) by lia. apply wp_ret. auto.
Qed.

Lemma strcmp_ok fuel : (length s1 < fuel)%nat -> strcmp fuel p1 p2 m = Some (str_cmp s1 s2, m).
Proof using H1 H2.
  intros Hf. enough (wp (strcmp fuel p1 p2) (λ r m', r = str_cmp s1 s2 /\ m' = m) m) as H.
  { apply wp_run in H as (r & m' & E & -> & ->). exact E. }
  apply wp_bind. apply (wp_loop (λ k j m', exists i, j = Z.of_nat i /\ same_upto s1 s2 i /\ k = (length s1 - i)%nat /\ m' = m) (length s1)).
  { exists O. split_and!; auto; try lia. split_and!; simpl; auto; lia. }
  { exact Hf. }
  intros k j m' (i & -> & Hs & -> & ->). pose proof Hs as (Hi1 & Hi2 & _). unfold strcmp_step.
  apply fetch_pair; [exact Hi1|exact Hi2|intros Hend; now apply strcmp_tail_ok|].
  intros a b Ha Hb Ca Cb. pose proof (same_upto_cmp _ _ _ Hs) as E. rewrite (drop_S _ _ _ Ha), (drop_S _ _ _ Hb) in E. simpl in E.
  destruct (Z.ltb_spec (to_s8 b) (to_s8 a)); [apply wp_ret, wp_ret; auto|].
  destruct (Z.ltb_spec (to_s8 a) (to_s8 b)); [apply wp_ret, wp_ret; auto|].
  assert (a = b) as -> by (apply to_s8_inj; auto; lia). pose proof (lookup_lt_Some _ _ _ Ha).
  apply wp_ret. exists (length s1 - S i)%nat. split; [lia|]. exists (S i). split_and!; auto; [lia|]. eapply same_upto_S; eauto.
Qed.

Lemma strncmp_ok fuel n : 0 <= n -> (length s1 < fuel)%nat ->
  strncmp fuel p1 p2 n m = Some (str_cmp (take (Z.to_nat n) s1) (take (Z.to_nat n) s2), m).
Proof using H1 H2.
  intros Hn Hf. set (t := Z.to_nat n).
  enough (wp (strncmp fuel p1 p2 n) (λ r m', r = str_cmp (take t s1) (take t s2) /\ m' = m) m) as H.
  { apply wp_run in H as (r & m' & E & -> & ->). exact E. }
  assert (Hcut : forall i, same_upto s1 s2 i -> (i <= t)%nat -> same_upto (take t s1) (take t s2) i).
  { intros i (? & ? & E) Hit. split_and!; [rewrite length_take; lia..|]. rewrite !take_take, !Nat.min_l by lia. exact E. }
  apply wp_bind. apply (wp_loop (λ k j m', exists i, j = Z.of_nat i /\ same_upto s1 s2 i /\ (i <= t)%nat /\ k = (length s1 - i)%nat /\ m' = m) (length s1)).
  { exists O. split_and!; auto; try lia. split_and!; simpl; auto; lia. }
  { exact Hf. }
  intros k j m' (i & -> & Hs & Hit & -> & ->). pose proof Hs as (Hi1 & Hi2 & Heq). unfold strncmp_step.
  assert (Hfin : i = t -> str_cmp (take t s1) (take t s2) = 0).
  { intros ->. rewrite (same_upto_cmp _ _ _ (Hcut _ Hs Hit)), !drop_ge by (rewrite length_take; lia). reflexivity. }
  apply fetch_pair; [exact Hi1|exact Hi2| |].
  - intros Hend. destruct (Z.eqb_spec (Z.of_nat i) n); [apply wp_ret; rewrite Hfin by lia; auto|].
    eapply wp_mono; [now apply strcmp_tail_ok|]. intros r m' [-> ->]. split; [|reflexivity].
    rewrite (same_upto_cmp _ _ _ Hs), (same_upto_cmp _ _ _ (Hcut _ Hs Hit)).
    destruct Hend as [E|E].
    + rewrite (drop_ge s1), (drop_ge (take t s1)) by (rewrite ?length_take; lia).
      destruct (drop i s2) eqn:D; [rewrite drop_ge by (apply (f_equal length) in D; rewrite length_drop in D; simpl in D; rewrite length_take; lia); reflexivity|].
      rewrite skipn_firstn_comm, D. replace (t - i)%nat with (S (t - i - 1)) by lia. reflexivity.
    + rewrite (drop_ge s2), (drop_ge (take t s2)) by (rewrite ?length_take; lia).
      destruct (drop i s1) eqn:D; [rewrite drop_ge by (apply (f_equal length) in D; rewrite length_drop in D; simpl in D; rewrite length_take; lia); reflexivity|].
      rewrite skipn_firstn_comm, D. replace (t - i)%nat with (S (t - i - 1)) by lia. reflexivity.
  - intros a b Ha Hb Ca Cb. destruct (Z.ltb_spec (Z.of_nat i) n); simpl;
      [|apply wp_ret; destruct (Z.eqb_spec (Z.of_nat i) n); [apply wp_ret; rewrite Hfin by lia; auto|lia]].
    pose proof (same_upto_cmp _ _ _ (Hcut _ Hs Hit)) as E.
    rewrite (drop_S (take t s1) a i), (drop_S (take t s2) b i) in E by (rewrite lookup_take_lt by lia; assumption). simpl in E.
    destruct (Z.ltb_spec (to_s8 b) (to_s8 a)); [apply wp_ret, wp_ret; auto|].
    destruct (Z.ltb_spec (to_s8 a) (to_s8 b)); [apply wp_ret, wp_ret; auto|].
    assert (a = b) as -> by (apply to_s8_inj; auto; lia). pose proof (lookup_lt_Some _ _ _ Ha).
    apply wp_ret. exists (length s1 - S i)%nat. split; [lia|]. exists (S i). split_and!; auto; try lia. eapply same_upto_S; eauto.
Qed.
End Compare.

(** * What the string routines guarantee *)

(** itoa leaves at [str], in any base from 2 to 16, a NUL-terminated
    string of valid digits padded to [min_width], touching only that string's
    bytes, and atoi in the same base reads the number back. *)
Theorem itoa_atoi_roundtrip m value str base min_width fuel :
  0 <= value < 2 ^ 64 -> 2 <= base <= 16 -> 0 <= min_width < 2 ^ 63 ->
  mapped m str (Z.of_nat (length (itoa_text value base min_width)) + 1) ->
  (length (itoa_text value base min_width) < fuel)%nat ->
  exists s, itoa value str base min_width m = Some (tt, store_bytes m str (s ++ [0])) /\
    Forall (is_digit_of base) s /\ min_width <= Z.of_nat (length s) /\
    atoi fuel str base (store_bytes m str (s ++ [0])) = Some (value, store_bytes m str (s ++ [0])).
Proof.
  intros Hv Hb Hw Hm Hf. exists (itoa_text value base min_width).
  pose proof (itoa_text_digits value base min_width ltac:(lia) Hb) as Hd. split_and!; [|exact Hd| |].
  - pose proof (itoa_ok m value str base min_width Hv Hb Hw Hm) as H. apply wp_run in H as ([] & m' & E & ->). exact E.
  - rewrite itoa_text_length. lia.
  - rewrite (atoi_ok _ str (itoa_text value base min_width)); auto; [|apply cstr_store|lia].
    + rewrite itoa_text_num by auto. now rewrite wrap64_small.
    + eapply Forall_impl; [|exact Hd]. intros c [Hc _]. exact Hc.
Qed.

Definition demo_buf : memory := store_bytes ∅ 512 (replicate 12 255).
Lemma itoa_atoi_roundtrip_witness : exists m', itoa 48879 512 16 6 demo_buf = Some (tt, m') /\ atoi 12 512 16 m' = Some (48879, m').
Proof.
  destruct (itoa_atoi_roundtrip demo_buf 48879 512 16 6 12) as (s & E & _ & _ & A); [lia..| | |eauto].
  - intros x Hx. change (Z.of_nat (length (itoa_text 48879 16 6)) + 1) with 7 in Hx.
    apply (load_bytes_mapped demo_buf 512 12 (replicate 12 255)); [vm_compute; reflexivity|lia].
  - change (length (itoa_text 48879 16 6)) with 6%nat. lia.
Defined.

(** strcmp returns 0 exactly on equal strings, swapping its arguments
    negates the result and "not greater" is transitive, so it totally orders
    the strings (by signed characters); strncmp is strcmp of the first [n]
    characters. Both terminate and change nothing. *)
Theorem strcmp_orders m p1 p2 p3 s1 s2 s3 n fuel :
  cstr m p1 s1 -> cstr m p2 s2 -> cstr m p3 s3 -> 0 <= n ->
  (length s1 < fuel)%nat -> (length s2 < fuel)%nat ->
  exists r12 r23 r13, strcmp fuel p1 p2 m = Some (r12, m) /\ strcmp fuel p2 p3 m = Some (r23, m) /\
    strcmp fuel p1 p3 m = Some (r13, m) /\ strcmp fuel p2 p1 m = Some (- r12, m) /\
    (r12 = 0 <-> s1 = s2) /\ (r12 <= 0 -> r23 <= 0 -> r13 <= 0) /\
    exists rn, strncmp fuel p1 p2 n m = Some (rn, m) /\
      (rn = 0 <-> take (Z.to_nat n) s1 = take (Z.to_nat n) s2).
Proof.
  intros H1 H2 H3 Hn Hf1 Hf2. exists (str_cmp s1 s2), (str_cmp s2 s3), (str_cmp s1 s3).
  rewrite <- str_cmp_antisym. split_and!; try (apply strcmp_ok; auto; fail).
  - apply str_cmp_zero; [apply H1|apply H2].
  - apply str_cmp_trans.
  - eexists. split; [apply (strncmp_ok m p1 p2 s1 s2); auto|]. apply str_cmp_zero; apply Forall_take; [apply H1|apply H2].
Qed.

Definition demo_strings : memory := store_bytes ∅ 100 [97; 98; 0; 97; 200; 0].
Lemma strcmp_orders_witness : strcmp 5 100 103 demo_strings = Some (1, demo_strings).
Proof.
  assert (H1 : cstr demo_strings 100 [97; 98]) by (split; [vm_compute; reflexivity|repeat constructor; unfold is_char; lia]).
  assert (H2 : cstr demo_strings 103 [97; 200]) by (split; [vm_compute; reflexivity|repeat constructor; unfold is_char; lia]).
  destruct (strcmp_orders demo_strings 100 103 100 [97; 98] [97; 200] [97; 98] 1 5 H1 H2 H1) as (r & r' & r'' & E & _); [lia|simpl; lia..|].
  rewrite E. vm_compute in E. congruence.
Defined.

(** A character that is no digit ends the number, but only after the result so
    far has been multiplied by the base once more: ["12x"] reads as 120. *)
Lemma atoi_bad_digit_scales m p s bad rest base fuel :
  cstr m p (s ++ bad :: rest) -> 0 < base <= 255 -> Forall (is_digit_of base) s -> char_to_digit bad = 0xFF ->
  (length s < fuel)%nat -> atoi fuel p base m = Some (wrap64 (num base s * base), m).
Proof.
  intros Hs Hb Hd Hbad Hf. enough (wp (atoi fuel p base) (λ r m', r = wrap64 (num base s * base) /\ m' = m) m) as H.
  { apply wp_run in H as (r & m' & E & -> & ->). exact E. }
  apply (wp_loop (λ k v m', exists i, v = (p + Z.of_nat i, wrap64 (num base (take i s))) /\ (i <= length s)%nat /\
    k = (length s - i)%nat /\ m' = m) (length s)); [exists O|exact Hf|].
  { rewrite Z.add_0_r, Nat.sub_0_r. split_and!; auto. lia. }
  intros k v m' (i & -> & Hi & -> & ->). unfold atoi_step. destruct (decide (i = length s)) as [->|Hne].
  - destruct (cstr_char m p _ (length s) bad Hs) as [Hl Hr]; [rewrite lookup_app_r, Nat.sub_diag by lia; reflexivity|].
    apply wp_bind; eapply wp_load8; [exact Hl|]. destruct (Z.eqb_spec bad 0); [lia|]. rewrite Hbad. simpl. apply wp_ret.
    rewrite take_ge by lia. unfold wrap. rewrite Zmult_mod_idemp_l. auto.
  - destruct (lookup_lt_is_Some_2 s i) as [c Hc]; [lia|].
    destruct (cstr_char m p _ i c Hs) as [Hl Hr]; [rewrite lookup_app_l by lia; exact Hc|].
    apply wp_bind; eapply wp_load8; [exact Hl|]. destruct (Z.eqb_spec c 0); [lia|].
    destruct (proj1 (Forall_lookup _ s) Hd i c Hc) as [_ Hdig].
    destruct (Z.eqb_spec (char_to_digit c) 255); [lia|]. apply wp_ret.
    exists (length s - S i)%nat. split; [lia|]. exists (S i). split_and!; auto; try lia.
    rewrite (take_S_r _ _ _ Hc), num_snoc. f_equal; [lia|]. unfold wrap.
    rewrite Zplus_mod_idemp_l, <- Zplus_mod_idemp_l, Zmult_mod_idemp_l, Zplus_mod_idemp_l. reflexivity.
Qed.
