(* ===== verification/Snprintf.v ===== *)
(** [kvsnprintf] of util/string.c against an unbounded renderer: the buffer
    receives the rendered text cut to [size - 1] characters and a NUL, and the
    result is the length of the whole text. *)

From S2P Require Import Prelude Bytes CMem CString CStringThms.

(** * The renderer *)

(** Digits of a value, most significant first, in the lower-case alphabet. *)
Fixpoint kdigits (fuel : nat) (base v : Z) (acc : list Z) : list Z :=
  match fuel with
  | O => acc
  | S f => if v =? 0 then acc else kdigits f base (v / base) (ks_digit (v mod base) :: acc)
  end.
Definition utext (base v : Z) : list Z := if v =? 0 then [c_0] else kdigits 64 base v [].
Definition dtext (v : Z) : list Z := if v <? 0 then 45 :: utext 10 (- v) else utext 10 v.

Section Render.
(** The strings the [%s] arguments point to. *)
Context (strs : Z -> option (list Z)).

(** The text of one conversion and the arguments left. *)
Definition conv_text (conv : Z) (args : list Z) : option (list Z * list Z) :=
  if conv =? 37 then Some ([37], args)
  else if bool_decide (conv ∈ [100; 105; 117; 120; 115; 99]) then
    match args with
    | [] => None
    | a :: rest =>
        if (conv =? 100) || (conv =? 105) then Some (dtext (to_s64 a), rest)
        else if conv =? 117 then Some (utext 10 a, rest)
        else if conv =? 120 then Some (utext 16 a, rest)
        else if conv =? 115 then
          if a =? 0 then Some (null_str, rest) else s ← strs a; Some (s, rest)
        else Some ([wrap8 a], rest)
    end
  else Some ([37; conv], args).

Fixpoint render (f : list Z) (args : list Z) : option (list Z) :=
  match f with
  | [] => Some []
  | c :: f1 =>
      if negb (c =? 37) then r ← render f1 args; Some (c :: r)
      else match f1 with
           | [] => Some []
           | c2 :: f2 =>
               if c2 =? 108 then
                 match f2 with
                 | [] => Some []
                 | c3 :: f3 => ta ← conv_text c3 args; r ← render f3 (snd ta); Some (fst ta ++ r)
                 end
               else ta ← conv_text c2 args; r ← render f2 (snd ta); Some (fst ta ++ r)
           end
  end.
End Render.

(** * Digits *)

Lemma ks_digit_value d : 0 <= d < 16 -> char_to_digit (ks_digit d) = d.
Proof.
  intros H. pose proof (Z_enum 16 (λ d, bool_decide (char_to_digit (ks_digit d) = d))) as HH.
  apply (bool_decide_eq_true_1 _), HH; [vm_compute; reflexivity | exact H].
Qed.

Lemma num_cons_acc base acc r : foldl (λ r c, r * base + char_to_digit c) r acc = r * base ^ Z.of_nat (length acc) + num base acc.
Proof.
  revert r. induction acc as [|c acc IH]; intros r; [cbn; lia|]. unfold num. cbn [foldl length].
  rewrite IH, (IH (0 * base + _)), Nat2Z.inj_succ, Z.pow_succ_r by lia. lia.
Qed.

Lemma kdigits_value fuel base v acc : 2 <= base <= 16 -> 0 <= v < 2 ^ Z.of_nat fuel ->
  num base (kdigits fuel base v acc) = v * base ^ Z.of_nat (length acc) + num base acc.
Proof.
  intros Hb. revert v acc. induction fuel as [|f IH]; intros v acc Hv; [simpl in *; replace v with 0 by lia; lia|].
  cbn [kdigits]. destruct (Z.eqb_spec v 0) as [->|]; [lia|].
  rewrite Nat2Z.inj_succ, Z.pow_succ_r in Hv by lia.
  pose proof (Z.mod_pos_bound v base ltac:(lia)). pose proof (Z.div_mod v base ltac:(lia)) as E.
  pose proof (Z.div_pos v base ltac:(lia) ltac:(lia)).
  pose proof (Z.div_lt_upper_bound v base (2 ^ Z.of_nat f) ltac:(lia) ltac:(nia)).
  rewrite IH by lia. unfold num at 1. cbn [foldl length]. rewrite num_cons_acc, ks_digit_value by lia.
  rewrite Nat2Z.inj_succ, Z.pow_succ_r by lia. rewrite E at 3. lia.
Qed.

(** The text of a number denotes it. *)
Lemma utext_value base v : 2 <= base <= 16 -> 0 <= v < 2 ^ 64 -> num base (utext base v) = v.
Proof.
  intros Hb Hv. unfold utext. destruct (Z.eqb_spec v 0) as [->|]; [reflexivity|].
  rewrite kdigits_value by (simpl Z.of_nat; lia). cbn. lia.
Qed.

(** [v < 8^k] needs at most [k] digits in base 10 or 16. *)
Lemma ks_digits_ok base m fuel v tmp k : 8 <= base -> 0 <= v < 8 ^ Z.of_nat k -> (length tmp + k <= 32)%nat -> (k < fuel)%nat ->
  loop (S fuel) (ks_digits_step base) (tmp, v) m = Some (kdigits fuel base v tmp, m).
Proof.
  intros Hb. revert v tmp k. induction fuel as [|f IH]; intros v tmp k Hv Hk Hf; [lia|].
  rewrite loop_S. cbn [kdigits]. unfold bind, ks_digits_step at 1. destruct (Z.eqb_spec v 0) as [->|]; [reflexivity|].
  destruct k as [|k]; [simpl in *; lia|]. rewrite Nat2Z.inj_succ, Z.pow_succ_r in Hv by lia.
  destruct (Z.eqb_spec base 0); [lia|]. destruct (Z.leb_spec 32 (Z.of_nat (length tmp))); [lia|].
  pose proof (Z.div_lt_upper_bound v base (8 ^ Z.of_nat k) ltac:(lia) ltac:(nia)).
  pose proof (Z.div_pos v base ltac:(lia) ltac:(lia)). simpl. apply (IH _ _ k); simpl; lia.
Qed.

(** * Emission *)

Section Emit.
Context (m : memory) (buf size : Z) (Hsize : 0 <= size) (Hbuf : mapped m buf size).

(** The memory after [out] has been put. *)
Definition emitted (out : list Z) : memory := store_bytes m buf (take (Z.to_nat (size - 1)) out).
Definition fits (out : list Z) : Prop := Z.of_nat (length out) < 2 ^ 63.
Abbreviation len l := (Z.of_nat (length l)).

(** A run that appends the text [t] to what was put. *)
Definition puts (out t : list Z) (run : M memory Z) : Prop :=
  run (emitted out) = Some (len (out ++ t), emitted (out ++ t)).

Lemma fits_app_l a b : fits (a ++ b) -> fits a.
Proof. unfold fits. rewrite length_app. lia. Qed.

Lemma ks_putc_puts out c : fits (out ++ [c]) -> puts out [c] (ks_putc buf size (len out) c).
Proof using Hbuf Hsize.
  unfold fits, puts, ks_putc. rewrite length_app. simpl. intros Hf. rewrite wrap64_small by lia.
  unfold bind, when, emitted. destruct (Z.ltb_spec (len out + 1) size).
  - unfold store8. destruct (mapped_store m buf (take (Z.to_nat (size - 1)) out) buf size Hbuf (buf + len out) ltac:(lia)) as [b ->].
    rewrite (take_ge (out ++ [c])) by (rewrite length_app; simpl; lia). rewrite take_ge by lia.
    rewrite store_bytes_app. unfold ret. repeat f_equal. lia.
  - rewrite take_app_le by lia. unfold ret. repeat f_equal. lia.
Qed.

Lemma puts_nil out run : run = ret (len out) -> puts out [] run.
Proof. intros ->. unfold puts. now rewrite app_nil_r. Qed.

Lemma puts_bind out t1 t2 run (k : Z -> M memory Z) : puts out t1 run -> puts (out ++ t1) t2 (k (len (out ++ t1))) ->
  puts out (t1 ++ t2) (bind run k).
Proof. unfold puts, bind. intros -> H. now rewrite app_assoc. Qed.

Lemma ks_put_list_puts t out : fits (out ++ t) -> puts out t (ks_put_list buf size (len out) t).
Proof using Hbuf Hsize.
  revert out. induction t as [|c t IH]; intros out Hf; [now apply puts_nil|].
  cbn [ks_put_list]. replace (out ++ c :: t) with ((out ++ [c]) ++ t) in Hf by now rewrite <- app_assoc.
  apply (puts_bind out [c] t); [apply ks_putc_puts; now apply fits_app_l in Hf|]. now apply IH.
Qed.

Lemma ks_putu_puts out v base : 8 <= base -> 0 <= v < 2 ^ 64 -> fits (out ++ utext base v) ->
  puts out (utext base v) (ks_putu buf size (len out) v base).
Proof using Hbuf Hsize.
  intros Hb Hv Hf. unfold ks_putu, utext in *. destruct (Z.eqb_spec v 0) as [->|].
  - now apply (ks_put_list_puts [c_0]).
  - unfold puts, bind. rewrite (ks_digits_ok base _ 64 v [] 22); [|lia| |simpl; lia|lia].
    + now apply ks_put_list_puts.
    + split; [lia|]. apply Z.lt_trans with (2 ^ 64); [lia|]. vm_compute. reflexivity.
Qed.

Lemma ks_putd_puts out v : - 2 ^ 63 <= v < 2 ^ 63 -> fits (out ++ dtext v) ->
  puts out (dtext v) (ks_putd buf size (len out) v).
Proof using Hbuf Hsize.
  intros Hv Hf. unfold ks_putd, dtext in *. destruct (Z.ltb_spec v 0); [|apply ks_putu_puts; auto; lia].
  replace (out ++ 45 :: utext 10 (- v)) with ((out ++ [45]) ++ utext 10 (- v)) in Hf by now rewrite <- app_assoc.
  apply (puts_bind out [45]); [apply ks_putc_puts; now apply fits_app_l in Hf|].
  rewrite (wrap64_small (- (v + 1))), wrap64_small by lia. replace (- (v + 1) + 1) with (- v) by lia.
  apply ks_putu_puts; auto; lia.
Qed.

(** A string outside the buffer. *)
Definition out_str (p : Z) (s : list Z) : Prop := cstr m p s /\ (p + len s < buf \/ buf + size <= p).

Lemma out_str_emitted p s out : out_str p s -> cstr (emitted out) p s.
Proof using Hsize.
  intros [H Hd]. apply (cstr_ext m); [|exact H]. intros x Hx. apply store_bytes_lookup_out. rewrite length_take. lia.
Qed.

Lemma out_str_cons p c s : out_str p (c :: s) -> out_str (p + 1) s.
Proof using. intros [H Hd]. apply cstr_cons in H as (_ & _ & _ & H). split; [exact H|]. simpl in Hd. lia. Qed.

Lemma ks_puts_loop fuel p s out : out_str p s -> (length s < fuel)%nat -> fits (out ++ s) ->
  puts out s (loop fuel (ks_puts_step buf size) (p, len out)).
Proof using Hbuf Hsize.
  revert p s out. induction fuel as [|f IH]; intros p s out Hs Hf Hfit; [lia|]. rewrite loop_S.
  pose proof (out_str_emitted _ _ out Hs) as Hc. unfold puts, bind at 1, ks_puts_step at 1, bind at 1, load8.
  destruct s as [|c s].
  - rewrite (cstr_nil _ _ Hc). simpl. now rewrite app_nil_r.
  - destruct (cstr_cons _ _ _ _ Hc) as (Hl & Hne & _). rewrite Hl. simpl. destruct (Z.eqb_spec c 0); [easy|].
    replace (out ++ c :: s) with ((out ++ [c]) ++ s) in * by now rewrite <- app_assoc.
    unfold bind. rewrite (ks_putc_puts out c) by now apply fits_app_l in Hfit. simpl.
    apply IH; [now apply out_str_cons in Hs|simpl in Hf; lia|exact Hfit].
Qed.

(** * Conversions and the main loop *)

Context (strs : Z -> option (list Z)) (fuel : nat).
Context (Hstrs : forall p s, strs p = Some s -> out_str p s /\ (length s < fuel)%nat).

Lemma to_s64_range a : - 2 ^ 63 <= to_s64 a < 2 ^ 63.
Proof using. unfold to_s64. pose proof (wrap_range 64 a ltac:(lia)) as H. unfold is_word in H. destruct (Z.ltb_spec (wrap64 a) (2 ^ 63)); lia. Qed.

Lemma ks_convert_ok conv args t rest out : conv_text strs conv args = Some (t, rest) -> Forall (is_word 64) args ->
  fits (out ++ t) ->
  ks_convert fuel buf size (len out) conv args (emitted out) = Some ((len (out ++ t), rest), emitted (out ++ t)) /\ Forall (is_word 64) rest.
Proof using Hbuf Hsize Hstrs.
  intros Hc Ha Hf. unfold conv_text in Hc. unfold ks_convert.
  destruct (Z.eqb_spec conv 37) as [->|].
  { injection Hc as <- <-. simpl. unfold bind. rewrite ks_putc_puts by exact Hf. auto. }
  case_bool_decide as Hin.
  - destruct args as [|a args]; [easy|]. inversion Ha as [|? ? Hw Ha']; subst. unfold is_word in Hw.
    destruct ((conv =? 100) || (conv =? 105)) eqn:E1; [|destruct (conv =? 117) eqn:E2; [|destruct (conv =? 120) eqn:E3; [|destruct (conv =? 115) eqn:E4]]].
    + injection Hc as <- <-. unfold bind, va_arg, ret. simpl. rewrite ks_putd_puts by (auto; apply to_s64_range). auto.
    + injection Hc as <- <-. unfold bind, va_arg, ret. simpl. rewrite ks_putu_puts by (auto; lia). auto.
    + injection Hc as <- <-. unfold bind, va_arg, ret. simpl. rewrite ks_putu_puts by (auto; lia). auto.
    + unfold bind, va_arg, ret. simpl. unfold ks_puts. destruct (a =? 0).
      * injection Hc as <- <-. rewrite ks_put_list_puts by exact Hf. auto.
      * destruct (strs a) as [s|] eqn:Hs; simpl in Hc; [|easy]. injection Hc as <- <-. destruct (Hstrs _ _ Hs) as [Ho Hl].
        rewrite (ks_puts_loop fuel a s) by auto. auto.
    + destruct (Z.eqb_spec conv 99) as [->|]; [|exfalso; apply orb_false_iff in E1 as [E1 E0]; rewrite Z.eqb_neq in *; rewrite !elem_of_cons, elem_of_nil in Hin; tauto].
      injection Hc as <- <-. unfold bind, va_arg, ret. simpl. rewrite ks_putc_puts by exact Hf. auto.
  - injection Hc as <- <-. rewrite !elem_of_cons in Hin.
    destruct (Z.eqb_spec conv 100), (Z.eqb_spec conv 105), (Z.eqb_spec conv 117), (Z.eqb_spec conv 120), (Z.eqb_spec conv 115),
      (Z.eqb_spec conv 99); try tauto. simpl.
    replace (out ++ [37; conv]) with ((out ++ [37]) ++ [conv]) in * by now rewrite <- app_assoc.
    unfold bind. rewrite ks_putc_puts by now apply fits_app_l in Hf. rewrite ks_putc_puts by exact Hf. auto.
Qed.

Lemma load_emitted p c s out : out_str p (c :: s) -> load8 p (emitted out) = Some (c, emitted out) /\ (c =? 0) = false.
Proof using Hsize.
  intros H%(out_str_emitted _ _ out). destruct (cstr_cons _ _ _ _ H) as (Hl & Hne & _). unfold load8. rewrite Hl.
  split; [reflexivity|]. now apply Z.eqb_neq.
Qed.

Lemma load_emitted_end p out : out_str p [] -> load8 p (emitted out) = Some (0, emitted out).
Proof using Hsize. intros H%(out_str_emitted _ _ out). unfold load8. now rewrite (cstr_nil _ _ H). Qed.

(** What one conversion contributes, and where the format goes on. *)
Lemma conversion_step n p args conv f out r :
  (forall p out args r, out_str p f -> Forall (is_word 64) args -> render strs f args = Some r -> fits (out ++ r) ->
     loop n (kvsnprintf_step fuel buf size) (p, len out, args) (emitted out) = Some (len (out ++ r), emitted (out ++ r))) ->
  out_str p (conv :: f) -> Forall (is_word 64) args ->
  (ta ← conv_text strs conv args; r ← render strs f (snd ta); Some (fst ta ++ r)) = Some r -> fits (out ++ r) ->
  bind (let* c := load8 p in
        if c =? 0 then ret (inr (len out)) else
        let* r := ks_convert fuel buf size (len out) c args in
        let '(total, args) := r in ret (inl (p + 1, total, args)))
    (λ r, match r with inl a => loop n (kvsnprintf_step fuel buf size) a | inr b => ret b end) (emitted out)
  = Some (len (out ++ r), emitted (out ++ r)).
Proof using Hbuf Hsize Hstrs.
  intros IH Hs Ha Hr Hf. destruct (conv_text strs conv args) as [[t rest]|] eqn:Ht; simpl in Hr; [|easy].
  destruct (render strs f rest) as [r'|] eqn:Hr'; simpl in Hr; [|easy]. injection Hr as <-.
  rewrite app_assoc in *. destruct (load_emitted _ _ _ out Hs) as [Hl Hne].
  unfold bind. rewrite Hl, Hne.
  destruct (ks_convert_ok conv args t rest out Ht Ha ltac:(now apply fits_app_l in Hf)) as [-> Ha']. simpl.
  apply IH; auto. now apply out_str_cons in Hs.
Qed.

Lemma kvsnprintf_loop n : forall p f args r out, (length f < n)%nat -> out_str p f -> Forall (is_word 64) args ->
  render strs f args = Some r -> fits (out ++ r) ->
  loop n (kvsnprintf_step fuel buf size) (p, len out, args) (emitted out) = Some (len (out ++ r), emitted (out ++ r)).
Proof using Hbuf Hsize Hstrs.
  induction n as [|n IH]; intros p f args r out Hn Hs Ha Hr Hf; [lia|]. rewrite loop_S.
  destruct f as [|c f]; simpl in Hr, Hn.
  { injection Hr as <-. rewrite app_nil_r. unfold bind, kvsnprintf_step, bind. now rewrite load_emitted_end. }
  destruct (load_emitted _ _ _ out Hs) as [Hl Hne]. unfold kvsnprintf_step at 1.
  unfold bind at 1 2. rewrite Hl, Hne. destruct (Z.eqb_spec c 37) as [->|]; simpl in Hr.
  - simpl. apply out_str_cons in Hs. destruct f as [|c2 f2].
    { injection Hr as <-. rewrite app_nil_r. unfold bind, ret. rewrite load_emitted_end by exact Hs. change (0 =? 108) with false. cbv iota beta. rewrite load_emitted_end by exact Hs. reflexivity. }
    destruct (load_emitted _ _ _ out Hs) as [Hl2 Hne2]. unfold bind at 1. rewrite Hl2.
    destruct (c2 =? 108) eqn:E; unfold bind at 1, ret at 1.
    + apply out_str_cons in Hs. destruct f2 as [|c3 f3].
      { injection Hr as <-. rewrite app_nil_r. unfold bind. rewrite load_emitted_end by exact Hs. reflexivity. }
      eapply conversion_step in Hr; [exact Hr| |exact Hs|exact Ha|exact Hf].
      intros. apply (IH _ f3); auto. simpl in Hn. lia.
    + eapply conversion_step in Hr; [exact Hr| |exact Hs|exact Ha|exact Hf].
      intros. apply (IH _ f2); auto. simpl in Hn. lia.
  - destruct (render strs f args) as [r'|] eqn:Hr'; simpl in Hr; [|easy]. injection Hr as <-. simpl.
    replace (out ++ c :: r') with ((out ++ [c]) ++ r') in * by now rewrite <- app_assoc.
    unfold bind. rewrite ks_putc_puts by now apply fits_app_l in Hf. simpl.
    apply (IH _ f); auto; [lia|]. now apply out_str_cons in Hs.
Qed.
End Emit.

(** * What the formatter guarantees *)

(** C15. with a buffer of [size] bytes, kvsnprintf leaves in it the rendered
    text cut to [size - 1] characters and a terminating NUL (nothing when
    [size] is 0), writes nothing else, and returns the length of the whole
    text, whatever the conversions. The format and the strings it prints lie
    outside the buffer and are shorter than the fuel. *)
Theorem kvsnprintf_renders m buf size fmt f args strs r fuel :
  0 <= size < 2 ^ 64 -> mapped m buf size -> fmt <> 0 ->
  out_str m buf size fmt f -> (length f < fuel)%nat ->
  (forall p s, strs p = Some s -> out_str m buf size p s /\ (length s < fuel)%nat) ->
  Forall (is_word 64) args -> render strs f args = Some r -> Z.of_nat (length r) < 2 ^ 63 ->
  kvsnprintf fuel buf size fmt args m =
    Some (Z.of_nat (length r),
          if 0 <? size then store_bytes m buf (take (Z.to_nat (size - 1)) r ++ [0]) else m).
Proof.
  intros Hsize Hbuf Hfmt Hf Hn Hstrs Ha Hr Hfit. unfold kvsnprintf. destruct (Z.eqb_spec fmt 0); [easy|].
  pose proof (kvsnprintf_loop m buf size (proj1 Hsize) Hbuf strs fuel Hstrs fuel fmt f args r [] Hn Hf Ha Hr Hfit) as H.
  replace (emitted m buf size []) with m in H by (unfold emitted; now rewrite take_nil).
  change (Z.of_nat (length [])) with 0 in H. cbn [app] in H. unfold bind at 1.
  rewrite H. unfold bind, when, emitted. destruct (Z.ltb_spec 0 size).
  - set (cut := take (Z.to_nat (size - 1)) r).
    replace (if _ <? size then _ else _) with (Z.of_nat (length cut))
      by (unfold cut; rewrite length_take; destruct (Z.ltb_spec (Z.of_nat (length r)) size); lia).
    assert (Hcut : Z.of_nat (length cut) < size) by (unfold cut; rewrite length_take; lia).
    unfold store8. destruct (mapped_store m buf cut buf size Hbuf (buf + Z.of_nat (length cut)) ltac:(lia)) as [b ->].
    rewrite store_bytes_app. unfold ret, to_s64. rewrite !wrap64_small by lia.
    destruct (Z.ltb_spec (Z.of_nat (length r)) (2 ^ 63)); [reflexivity|lia].
  - replace (Z.to_nat (size - 1)) with O by lia. unfold ret, to_s64. rewrite !wrap64_small by lia.
    destruct (Z.ltb_spec (Z.of_nat (length r)) (2 ^ 63)); [reflexivity|lia].
Qed.

(** ["n=%d:%s"] with -42 and the string ["abc"] into eight bytes. *)
Definition demo_fmt : list Z := [110; 61; 37; 100; 58; 37; 115].
Definition demo_text_mem : memory := store_bytes (store_bytes (store_bytes ∅ 1000 (replicate 8 0)) 2000 (demo_fmt ++ [0])) 3000 [97; 98; 99; 0].
Definition demo_strs (p : Z) : option (list Z) := if p =? 3000 then Some [97; 98; 99] else None.

Lemma kvsnprintf_renders_witness : exists m', kvsnprintf 10 1000 8 2000 [2 ^ 64 - 42; 3000] demo_text_mem = Some (9, m') /\
  load_bytes m' 1000 8 = Some [110; 61; 45; 52; 50; 58; 97; 0].
Proof.
  assert (Hs : forall p l, cstr demo_text_mem p l -> (2000 <= p) -> out_str demo_text_mem 1000 8 p l) by (intros p l ? ?; split; [assumption|lia]).
  eexists. split.
  - eapply (kvsnprintf_renders demo_text_mem 1000 8 2000 demo_fmt [2 ^ 64 - 42; 3000] demo_strs [110; 61; 45; 52; 50; 58; 97; 98; 99] 10); try lia.
    + apply (load_bytes_mapped _ _ 8 (replicate 8 0)). vm_compute. reflexivity.
    + apply Hs; [|lia]. split; [vm_compute; reflexivity|]. repeat constructor; unfold is_char; lia.
    + simpl. lia.
    + intros p s E. unfold demo_strs in E. destruct (Z.eqb_spec p 3000) as [->|]; [|easy]. injection E as <-.
      split; [|simpl; lia]. apply Hs; [|lia]. split; [vm_compute; reflexivity|]. repeat constructor; unfold is_char; lia.
    + repeat constructor; unfold is_word; lia.
    + vm_compute. reflexivity.
    + simpl. lia.
  - vm_compute. reflexivity.
Defined.
