(* ===== verification/Files.v ===== *)
(** Descriptor tables and the lifetime of open files: interrupts/fd_table.c,
    [vfs_file_get] and [vfs_file_put] of file_system/vfs_file.c, the system
    calls that create, copy and drop descriptors (interrupts/vfs_syscalls.c,
    interrupts/syscall_handler.c), the table copies of multi/fork.c and
    [SpawnHandler], and the closing loop of [free_dead_task].

    A [file_t] is its reference count in [files]; an address that is not in
    [files] has been freed, and touching its count is undefined. [closed]
    records the files that were closed, in order. *)

From S2P Require Import Prelude.

(** * State *)

Record fstate := FState {
  tables : list (list (Z * Z));   (** per task, FD_MAX entries (file, flags) *)
  cur : Z;                        (** the running task *)
  files : gmap Z Z;               (** ref_count of every live file_t *)
  closed : list Z }.
Definition set_tables v s := FState v (cur s) (files s) (closed s).
Definition set_files v s := FState (tables s) (cur s) v (closed s).
Definition set_closed v s := FState (tables s) (cur s) (files s) v.

Definition FD_MAX : nat := 64.
Definition STDERR_FILENO : Z := 2.

(** [t->fds[i]] *)
Definition fd_get (t i : Z) : M fstate (Z * Z) :=
  let* s := get in of_option (tb ← arr_get (tables s) t; arr_get tb i).
Definition fd_set (t i : Z) (e : Z * Z) : M fstate unit :=
  let* s := get in
  let* tb := of_option (arr_get (tables s) t) in
  let* tb' := of_option (arr_set tb i e) in
  let* ts := of_option (arr_set (tables s) t tb') in
  modify (set_tables ts).

(** * Files *)

Definition file_refs (f : Z) : M fstate Z := let* s := get in of_option (files s !! f).

Definition vfs_file_get (f : Z) : M fstate unit :=
  if f =? 0 then ret tt else
  let* n := file_refs f in
  modify (λ s, set_files (<[f := wrap64 (n + 1)]> (files s)) s).

(** [vfs_close] and the two frees are the entry in [closed] and the removal. *)
Definition vfs_file_put (f : Z) : M fstate unit :=
  if f =? 0 then ret tt else
  let* n := file_refs f in
  if n =? 1 then modify (λ s, set_closed (closed s ++ [f]) (set_files (delete f (files s)) s))
  else modify (λ s, set_files (<[f := wrap64 (n - 1)]> (files s)) s).

(** * fd_table.c *)

Definition valid_fd (fd : Z) : Z := if (0 <=? fd) && (fd <? Z.of_nat FD_MAX) then 0 else - EBADF.

Definition fd_alloc_step (t f i : Z) : M fstate (Z + Z) :=
  if i <? Z.of_nat FD_MAX then
    let* e := fd_get t i in
    if fst e =? 0 then fd_set t i (f, 0);; ret (inr i) else ret (inl (i + 1))
  else ret (inr (- EMFILE)).

Definition fd_alloc (f : Z) : M fstate Z :=
  if f =? 0 then ret (- EINVAL) else
  let* t := gets cur in
  loop (S FD_MAX) (fd_alloc_step t f) (STDERR_FILENO + 1).

Definition fd_lookup (fd : Z) : M fstate Z :=
  if valid_fd fd <? 0 then ret 0 else
  let* t := gets cur in let* e := fd_get t fd in ret (fst e).

Definition fd_alloc_at (f fd : Z) : M fstate Z :=
  if f =? 0 then ret (- EINVAL) else
  if valid_fd fd <? 0 then ret (- EBADF) else
  let* t := gets cur in
  let* e := fd_get t fd in
  let prev := fst e in
  when (negb (prev =? 0)) (fd_set t fd (0, snd e);; vfs_file_put prev);;
  fd_set t fd (f, 0);;
  ret fd.

Definition fd_release (fd : Z) : M fstate Z :=
  if valid_fd fd <? 0 then ret 0 else
  let* t := gets cur in
  let* e := fd_get t fd in
  let f := fst e in
  if f =? 0 then ret 0 else
  fd_set t fd (0, 0);;
  ret f.

(** * System calls *)

(** [vfs_open_path] returns an error or a new file with one reference. *)
Definition SysOpen (path : Z) (opened : Z + Z) : M fstate Z :=
  if path =? 0 then ret (- EINVAL) else
  match opened with
  | inl err => ret err
  | inr fp =>
      modify (λ s, set_files (<[fp := 1]> (files s)) s);;
      let* fd := fd_alloc fp in
      if fd <? 0 then vfs_file_put fp;; ret fd else ret fd
  end.

Definition SysClose (fd : Z) : M fstate Z :=
  let* fp := fd_release fd in
  if fp =? 0 then ret (- EBADF) else
  vfs_file_put fp;;
  ret 0.

Definition DupHandler (fd : Z) : M fstate Z :=
  let* f := fd_lookup fd in
  if f =? 0 then ret (- EBADF) else
  vfs_file_get f;;
  let* newfd := fd_alloc f in
  if newfd <? 0 then vfs_file_put f;; ret newfd else ret newfd.

Definition Dup2Handler (oldfd newfd : Z) : M fstate Z :=
  if (oldfd <? 0) || (Z.of_nat FD_MAX <=? oldfd) then ret (- EBADF) else
  if (newfd <? 0) || (Z.of_nat FD_MAX <=? newfd) then ret (- EBADF) else
  let* f := fd_lookup oldfd in
  if f =? 0 then ret (- EBADF) else
  if oldfd =? newfd then ret newfd else
  vfs_file_get f;;
  let* r := fd_alloc_at f newfd in
  if r <? 0 then vfs_file_put f;; ret r else ret newfd.

(** [pipe_create_pair] returns an error or two new files with one reference
    each; the descriptors are returned in place of the user's array. *)
Definition PipeHandler (user_fds : Z) (made : Z + Z * Z) : M fstate (Z + Z * Z) :=
  if user_fds =? 0 then ret (inl (- EINVAL)) else
  if 0xFFFF800000000000 <=? user_fds then ret (inl (- EINVAL)) else
  match made with
  | inl err => ret (inl err)
  | inr (rf, wf) =>
      modify (λ s, set_files (<[rf := 1]> (<[wf := 1]> (files s))) s);;
      let* rfd := fd_alloc rf in
      if rfd <? 0 then vfs_file_put rf;; vfs_file_put wf;; ret (inl rfd) else
      let* wfd := fd_alloc wf in
      if wfd <? 0 then
        let* _ := fd_release rfd in
        vfs_file_put rf;; vfs_file_put wf;; ret (inl wfd)
      else ret (inr (rfd, wfd))
  end.

(** * Task creation and death *)

(** The loop of [do_fork]: a child with an empty table. *)
Definition fork_fds_step (child parent i : Z) : M fstate (Z + unit) :=
  if i <? Z.of_nat FD_MAX then
    let* e := fd_get parent i in
    fd_set child i e;;
    when (negb (fst e =? 0)) (vfs_file_get (fst e));;
    ret (inl (i + 1))
  else ret (inr tt).

Definition fork_fds : M fstate Z :=
  let* s := get in
  let child := Z.of_nat (length (tables s)) in
  modify (set_tables (tables s ++ [replicate FD_MAX (0, 0)]));;
  loop (S FD_MAX) (fork_fds_step child (cur s)) 0;;
  ret child.

(** [create_user_task]: three descriptors for one new terminal file. *)
Definition create_user_fds (tty_f : Z) : M fstate Z :=
  let* s := get in
  let t := Z.of_nat (length (tables s)) in
  modify (set_tables (tables s ++ [replicate FD_MAX (0, 0)]));;
  when (negb (tty_f =? 0)) (
    modify (λ s, set_files (<[tty_f := 1]> (files s)) s);;
    fd_set t 0 (tty_f, 0);;
    fd_set t 1 (tty_f, 0);; vfs_file_get tty_f;;
    fd_set t 2 (tty_f, 0);; vfs_file_get tty_f);;
  ret t.

(** The loop of [SpawnHandler]: replace the new task's table by the caller's. *)
Definition spawn_fds_step (t parent i : Z) : M fstate (Z + unit) :=
  if i <? Z.of_nat FD_MAX then
    let* old := fd_get t i in
    when (negb (fst old =? 0)) (vfs_file_put (fst old));;
    let* e := fd_get parent i in
    fd_set t i e;;
    when (negb (fst e =? 0)) (vfs_file_get (fst e));;
    ret (inl (i + 1))
  else ret (inr tt).

Definition spawn_fds (tty_f : Z) : M fstate Z :=
  let* t := create_user_fds tty_f in
  let* parent := gets cur in
  loop (S FD_MAX) (spawn_fds_step t parent) 0;;
  ret t.

(** The loop of [free_dead_task]. *)
Definition reap_fds_step (dead i : Z) : M fstate (Z + unit) :=
  if i <? Z.of_nat FD_MAX then
    let* e := fd_get dead i in
    when (negb (fst e =? 0)) (vfs_file_put (fst e);; fd_set dead i (0, snd e));;
    ret (inl (i + 1))
  else ret (inr tt).

Definition reap_fds (dead : Z) : M fstate unit := loop (S FD_MAX) (reap_fds_step dead) 0.
