(* ===== verification/FilesInv.v ===== *)
(** The reference-count invariant of open files: a file's count is the number
    of descriptor slots, over all tasks, that refer to it, up to the references
    an operation holds in flight. Preservation by each routine of Files.v. *)

From S2P Require Import Prelude Files.

(** * Counting references *)

Definition ind (b : bool) : Z := if b then 1 else 0.

Definition sumf {A} (g : A -> Z) (l : list A) : Z := foldr (λ x acc, g x + acc) 0 l.
Definition cnt (f : Z) (tb : list (Z * Z)) : Z := sumf (λ e, ind (fst e =? f)) tb.
(** The slots of all tables that hold [f]. *)
Definition slots (f : Z) (tabs : list (list (Z * Z))) : Z := sumf (cnt f) tabs.

Lemma sumf_app {A} (g : A -> Z) l1 l2 : sumf g (l1 ++ l2) = sumf g l1 + sumf g l2.
Proof. induction l1 as [|x l1 IH]; simpl; [reflexivity|]. unfold sumf in *. lia. Qed.

Lemma sumf_insert {A} (g : A -> Z) l i x y : l !! i = Some x -> sumf g (<[i := y]> l) = sumf g l - g x + g y.
Proof.
  intros H. pose proof (lookup_lt_Some _ _ _ H). rewrite insert_take_drop by assumption.
  rewrite <- (take_drop_middle l i x H) at 3. rewrite !sumf_app. cbn [sumf foldr]. fold (sumf g (drop (S i) l)). lia.
Qed.

Lemma sumf_nonneg {A} (g : A -> Z) l : (forall x, 0 <= g x) -> 0 <= sumf g l.
Proof. intros Hg. induction l as [|x l IH]; simpl; [lia|]. specialize (Hg x). unfold sumf in *. lia. Qed.

Lemma sumf_elem {A} (g : A -> Z) l i x : (forall x, 0 <= g x) -> l !! i = Some x -> g x <= sumf g l.
Proof.
  intros Hg H. rewrite <- (take_drop_middle l i x H), sumf_app. pose proof (sumf_nonneg g (take i l) Hg).
  pose proof (sumf_nonneg g (drop (S i) l) Hg). cbn [sumf foldr]. fold (sumf g (drop (S i) l)). lia.
Qed.

Lemma ind_nonneg b : 0 <= ind b <= 1.
Proof. destruct b; simpl; lia. Qed.

Lemma cnt_nonneg f tb : 0 <= cnt f tb.
Proof. apply sumf_nonneg. intros. apply ind_nonneg. Qed.

Lemma slots_nonneg f tabs : 0 <= slots f tabs.
Proof. apply sumf_nonneg. intros. apply cnt_nonneg. Qed.

Lemma cnt_empty f n : f <> 0 -> cnt f (replicate n (0, 0)) = 0.
Proof.
  intros Hf. induction n as [|n IH]; [reflexivity|]. unfold cnt, sumf in *. cbn [replicate foldr fst].
  rewrite IH. destruct (Z.eqb_spec 0 f); [congruence|reflexivity].
Qed.

Lemma sumf_bound {A} (g : A -> Z) l k : (forall x, x ∈ l -> g x <= k) -> sumf g l <= k * Z.of_nat (length l).
Proof.
  induction l as [|x l IH]; intros H; simpl; [lia|]. pose proof (H x ltac:(left)).
  assert (sumf g l <= k * Z.of_nat (length l)) by (apply IH; intros; apply H; now right). unfold sumf in *. lia.
Qed.

(** * The invariant *)

Definition slot (s : fstate) (t i : Z) : option (Z * Z) := tb ← arr_get (tables s) t; arr_get tb i.

Record refs_ok (h : Z -> Z) (s : fstate) : Prop := {
  rf_tables : Forall (λ tb, length tb = FD_MAX) (tables s);
  rf_cur : 0 <= cur s < Z.of_nat (length (tables s));
  rf_count : forall f, f <> 0 -> default 0 (files s !! f) = slots f (tables s) + h f;
  rf_live : forall f n, files s !! f = Some n -> f <> 0 /\ 1 <= n;
  rf_small : Z.of_nat (length (tables s)) < 2 ^ 40 /\ forall f, f <> 0 -> h f <= 8 }.

(** No reference in flight. *)
Definition none_held : Z -> Z := λ _, 0.
(** [f] held once more. *)
Definition hold (f : Z) (d : Z) (h : Z -> Z) : Z -> Z := λ g, h g + d * ind (f =? g).

Lemma refs_ok_ext h h' s : (forall f, f <> 0 -> h f = h' f) -> refs_ok h s -> refs_ok h' s.
Proof.
  intros E H. destruct H as [H1 H2 H3 H4 [H5 H6]]. split; auto; [|split; auto];
    intros f Hf; rewrite <- E by exact Hf; auto.
Qed.

Section Inv.
Context (h : Z -> Z) (s : fstate) (H : refs_ok h s).

Lemma slot_in t i : 0 <= t < Z.of_nat (length (tables s)) -> 0 <= i < Z.of_nat FD_MAX -> exists e, slot s t i = Some e.
Proof using H.
  intros Ht Hi. unfold slot. destruct (arr_get_lt (tables s) t Ht) as [tb Htb]. rewrite Htb. simpl.
  assert (length tb = FD_MAX).
  { unfold arr_get in Htb. destruct (t <? 0); [easy|]. exact (proj1 (Forall_lookup _ _) (rf_tables _ _ H) _ _ Htb). }
  destruct (arr_get_lt tb i) as [e He]; [lia|]. eauto.
Qed.

(** The state with one slot replaced. *)
Definition put_slot (t i : Z) (e : Z * Z) : fstate :=
  set_tables (match arr_get (tables s) t with
              | Some tb => <[Z.to_nat t := <[Z.to_nat i := e]> tb]> (tables s) | None => tables s end) s.

Lemma arr_get_lookup {A} (l : list A) i x : arr_get l i = Some x -> 0 <= i /\ l !! Z.to_nat i = Some x.
Proof using. unfold arr_get. destruct (Z.ltb_spec i 0); [easy|]. auto. Qed.

Lemma slot_pos t i e : slot s t i = Some e -> forall f, fst e = f -> 1 <= slots f (tables s).
Proof using.
  intros He f <-. unfold slot in He. destruct (arr_get (tables s) t) as [tb|] eqn:Ht; simpl in He; [|easy].
  apply arr_get_lookup in Ht as [_ Ht]. apply arr_get_lookup in He as [_ He].
  pose proof (sumf_elem (cnt (fst e)) _ _ _ (cnt_nonneg _) Ht).
  pose proof (sumf_elem (λ x, ind (fst x =? fst e)) _ _ _ (λ x, proj1 (ind_nonneg _)) He) as E2.
  simpl in E2. rewrite Z.eqb_refl in E2. unfold slots, cnt, ind in *. lia.
Qed.

Lemma slots_put t i e old f : slot s t i = Some old ->
  slots f (tables (put_slot t i e)) = slots f (tables s) - ind (fst old =? f) + ind (fst e =? f).
Proof using.
  intros Ho. unfold slot in Ho. unfold put_slot. destruct (arr_get (tables s) t) as [tb|] eqn:Ht; simpl in Ho; [|easy].
  apply arr_get_lookup in Ht as [_ Ht]. apply arr_get_lookup in Ho as [_ Ho].
  cbn [tables set_tables]. unfold slots. rewrite (sumf_insert _ _ _ _ _ Ht). unfold cnt at 3.
  rewrite (sumf_insert _ _ _ _ _ Ho). unfold cnt. lia.
Qed.

Lemma slot_put t i e old t' i' : slot s t i = Some old ->
  slot (put_slot t i e) t' i' = if decide (t' = t /\ i' = i) then Some e else slot s t' i'.
Proof using.
  intros Ho. unfold slot in *. unfold put_slot. destruct (arr_get (tables s) t) as [tb|] eqn:Ht; simpl in Ho; [|easy].
  cbn [tables set_tables]. pose proof (arr_get_Some_lt _ _ _ Ht). pose proof (arr_get_Some_lt _ _ _ Ho).
  rewrite arr_get_insert by assumption. destruct (decide (t = t')) as [<-|].
  - simpl. rewrite arr_get_insert by assumption. rewrite Ht. simpl.
    destruct (decide (i = i')) as [<-|]; [rewrite decide_True by auto; reflexivity|rewrite decide_False by (intros []; congruence); reflexivity].
  - destruct (decide (t' = t /\ i' = i)) as [[]|]; [congruence|reflexivity].
Qed.

Lemma put_slot_ok t i e old : slot s t i = Some old -> (forall f, f <> 0 -> h f + ind (fst old =? f) - ind (fst e =? f) <= 8) ->
  refs_ok (λ f, h f + ind (fst old =? f) - ind (fst e =? f)) (put_slot t i e).
Proof using H.
  intros Ho Hb. pose proof Ho as Ho'. unfold slot in Ho'. destruct (arr_get (tables s) t) as [tb|] eqn:Ht; simpl in Ho'; [|easy].
  split.
  - unfold put_slot. rewrite Ht. cbn [tables set_tables]. apply Forall_insert; [apply H|].
    rewrite length_insert. apply arr_get_lookup in Ht as [_ Ht]. exact (proj1 (Forall_lookup _ _) (rf_tables _ _ H) _ _ Ht).
  - unfold put_slot. rewrite Ht. simpl. rewrite length_insert. apply H.
  - intros f Hf. rewrite (slots_put _ _ _ _ _ Ho). change (files (put_slot t i e)) with (files s).
    rewrite (rf_count _ _ H) by exact Hf. lia.
  - apply H.
  - split; [|exact Hb]. unfold put_slot. rewrite Ht. simpl. rewrite length_insert. apply H.
Qed.

Lemma put_slot_length t i e : length (tables (put_slot t i e)) = length (tables s).
Proof using. unfold put_slot. destruct (arr_get (tables s) t); simpl; [apply length_insert|reflexivity]. Qed.

Lemma wp_fd_get t i e (Q : Z * Z -> fstate -> Prop) : slot s t i = Some e -> Q e s -> wp (fd_get t i) Q s.
Proof using. intros He HQ. unfold fd_get, slot in *. apply wp_bind, wp_get. rewrite He. exact HQ. Qed.

Lemma wp_fd_set t i e old (Q : unit -> fstate -> Prop) : slot s t i = Some old -> Q tt (put_slot t i e) -> wp (fd_set t i e) Q s.
Proof using.
  intros Ho HQ. unfold fd_set, slot, put_slot in *. destruct (arr_get (tables s) t) as [tb|] eqn:Ht; simpl in Ho; [|easy].
  pose proof (arr_get_Some_lt _ _ _ Ht). pose proof (arr_get_Some_lt _ _ _ Ho).
  apply wp_bind, wp_get, wp_bind. eapply wp_of_option; [exact Ht|].
  apply wp_bind. eapply wp_of_option; [now apply arr_set_lt|]. apply wp_bind. eapply wp_of_option; [now apply arr_set_lt|].
  apply wp_modify. exact HQ.
Qed.

(** A file that some slot or in-flight reference refers to is live, its count is exact. *)
Lemma file_live f : f <> 0 -> 1 <= slots f (tables s) + h f -> files s !! f = Some (slots f (tables s) + h f).
Proof using H.
  intros Hf Hp. pose proof (rf_count _ _ H f Hf) as E. destruct (files s !! f); simpl in E; [congruence|lia].
Qed.

Lemma slots_small f : slots f (tables s) <= 64 * 2 ^ 40.
Proof using H.
  pose proof (rf_small _ _ H) as [Hs _]. unfold slots. etransitivity; [apply (sumf_bound _ _ 64)|lia].
  intros tb Htb. apply list_elem_of_lookup in Htb as [k Htb].
  pose proof (proj1 (Forall_lookup _ _) (rf_tables _ _ H) _ _ Htb) as Hl. simpl in Hl.
  unfold cnt. etransitivity; [apply (sumf_bound _ _ 1)|rewrite Hl; unfold FD_MAX; lia].
  intros. apply ind_nonneg.
Qed.

Lemma wp_file_get f (Q : unit -> fstate -> Prop) : f <> 0 -> 1 <= slots f (tables s) + h f -> h f < 8 ->
  (forall s', tables s' = tables s -> cur s' = cur s -> refs_ok (hold f 1 h) s' -> Q tt s') -> wp (vfs_file_get f) Q s.
Proof using H.
  intros Hf Hp Hb HQ. unfold vfs_file_get, file_refs. destruct (Z.eqb_spec f 0); [easy|].
  apply wp_bind, wp_bind, wp_get. eapply wp_of_option; [now apply file_live|]. apply wp_modify. apply HQ; [reflexivity..|].
  pose proof (slots_small f). pose proof (proj2 (rf_small _ _ H) f Hf). rewrite wrap64_small by lia. split; simpl; try apply H.
  - intros g Hg. unfold hold. destruct (Z.eqb_spec f g) as [<-|Hne]; simpl.
    + rewrite lookup_insert_eq. simpl. lia.
    + rewrite lookup_insert_ne by assumption. rewrite (rf_count _ _ H) by exact Hg. lia.
  - intros g n1 Hg. destruct (decide (f = g)) as [<-|]; [rewrite lookup_insert_eq in Hg; injection Hg as <-; lia|].
    rewrite lookup_insert_ne in Hg by assumption. eapply rf_live; eauto.
  - split; [apply H|]. intros g Hg. pose proof (proj2 (rf_small _ _ H) g Hg). unfold hold in *.
    destruct (Z.eqb_spec f g) as [<-|]; simpl; lia.
Qed.

Lemma wp_file_put f (Q : unit -> fstate -> Prop) : f <> 0 -> 1 <= slots f (tables s) + h f ->
  (forall s', tables s' = tables s -> cur s' = cur s -> refs_ok (hold f (-1) h) s' -> Q tt s') -> wp (vfs_file_put f) Q s.
Proof using H.
  intros Hf Hp HQ. unfold vfs_file_put, file_refs. destruct (Z.eqb_spec f 0); [easy|].
  apply wp_bind, wp_bind, wp_get. eapply wp_of_option; [now apply file_live|].
  pose proof (slots_small f). pose proof (proj2 (rf_small _ _ H) f Hf).
  assert (Hb : forall g, g <> 0 -> hold f (-1) h g <= 8) by (intros g Hg; unfold hold; pose proof (ind_nonneg (f =? g)); pose proof (proj2 (rf_small _ _ H) g Hg); lia).
  destruct (Z.eqb_spec (slots f (tables s) + h f) 1) as [E1|]; apply wp_modify; apply HQ; try reflexivity.
  - split; simpl; try apply H; [| |split; [apply H|exact Hb]].
    + intros g Hg. unfold hold. destruct (Z.eqb_spec f g) as [<-|Hne]; simpl.
      * rewrite lookup_delete_eq. simpl. lia.
      * rewrite lookup_delete_ne by assumption. rewrite (rf_count _ _ H) by exact Hg. lia.
    + intros g n1 Hg. apply lookup_delete_Some in Hg as [_ Hg]. eapply rf_live; eauto.
  - rewrite wrap64_small by lia. split; simpl; try apply H; [| |split; [apply H|exact Hb]].
    + intros g Hg. unfold hold. destruct (Z.eqb_spec f g) as [<-|Hne]; simpl.
      * rewrite lookup_insert_eq. simpl. lia.
      * rewrite lookup_insert_ne by assumption. rewrite (rf_count _ _ H) by exact Hg. lia.
    + intros g n1 Hg. destruct (decide (f = g)) as [<-|]; [rewrite lookup_insert_eq in Hg; injection Hg as <-; lia|].
      rewrite lookup_insert_ne in Hg by assumption. eapply rf_live; eauto.
Qed.
End Inv.

(** * The routines *)

Definition occupied (s : fstate) (t i : Z) : Prop := exists e, slot s t i = Some e /\ fst e <> 0.
Definition vacant (s : fstate) (t i : Z) : Prop := exists e, slot s t i = Some e /\ fst e = 0.

(** [fd_alloc] takes the lowest vacant descriptor from 3 on. *)
Definition alloc_result (f : Z) (s : fstate) (r : Z) (s' : fstate) : Prop :=
  (3 <= r < Z.of_nat FD_MAX /\ vacant s (cur s) r /\ (forall j, 3 <= j < r -> occupied s (cur s) j) /\
     s' = put_slot s (cur s) r (f, 0)) \/
  (r = - EMFILE /\ s' = s /\ forall j, 3 <= j < Z.of_nat FD_MAX -> occupied s (cur s) j).

Section Routines.
Context (h : Z -> Z) (s : fstate) (H : refs_ok h s).

Lemma fd_alloc_ok f : f <> 0 -> wp (fd_alloc f) (alloc_result f s) s.
Proof using H.
  intros Hf. unfold fd_alloc. destruct (Z.eqb_spec f 0); [easy|]. apply wp_bind, wp_gets.
  apply (wp_loop (λ k i s', 3 <= i <= Z.of_nat FD_MAX /\ k = Z.to_nat (Z.of_nat FD_MAX - i) /\ s' = s /\
    forall j, 3 <= j < i -> occupied s (cur s) j) (Z.to_nat (Z.of_nat FD_MAX - 3))).
  { unfold STDERR_FILENO, FD_MAX. split_and!; auto; lia. }
  { unfold FD_MAX. lia. }
  intros k i s' (Hi & -> & -> & Hocc). unfold fd_alloc_step.
  destruct (Z.ltb_spec i (Z.of_nat FD_MAX)); [|apply wp_ret; right; split_and!; auto; intros; apply Hocc; lia].
  destruct (slot_in h s H (cur s) i) as [e He]; [apply H|lia|]. apply wp_bind. eapply wp_fd_get; [exact He|].
  destruct (Z.eqb_spec (fst e) 0) as [E|E].
  - apply wp_bind. eapply wp_fd_set; [exact He|]. apply wp_ret. left. split_and!; auto; try lia. exists e. auto.
  - apply wp_ret. exists (Z.to_nat (Z.of_nat FD_MAX - (i + 1))). split_and!; auto; try lia.
    intros j Hj. destruct (decide (j = i)) as [->|]; [exists e; auto|apply Hocc; lia].
Qed.

(** Installing a held reference in a vacant slot hands it over. *)
Lemma install_ok t i f : vacant s t i -> refs_ok (hold f (-1) h) (put_slot s t i (f, 0)).
Proof using H.
  intros (e & He & E0). pose proof (proj2 (rf_small _ _ H)) as Hb. eapply refs_ok_ext; [|eapply put_slot_ok; [exact H|exact He|]].
  - intros g Hg. unfold hold. rewrite E0. cbn [fst]. destruct (Z.eqb_spec 0 g); [congruence|]. cbn [ind]. lia.
  - intros g Hg. rewrite E0. cbn [fst]. specialize (Hb g Hg). pose proof (ind_nonneg (f =? g)).
    destruct (Z.eqb_spec 0 g); cbn [ind]; [congruence|lia].
Qed.

(** Clearing a slot takes its reference back in hand. *)
Lemma clear_ok t i e fl : slot s t i = Some e -> (fst e <> 0 -> h (fst e) < 8) -> refs_ok (hold (fst e) 1 h) (put_slot s t i (0, fl)).
Proof using H.
  intros He Hlt. pose proof (proj2 (rf_small _ _ H)) as Hb. eapply refs_ok_ext; [|eapply put_slot_ok; [exact H|exact He|]].
  - intros g Hg. unfold hold. cbn [fst]. destruct (Z.eqb_spec 0 g); [congruence|]. cbn [ind]. lia.
  - intros g Hg. cbn [fst]. destruct (Z.eqb_spec 0 g); [congruence|]. specialize (Hb g Hg).
    destruct (Z.eqb_spec (fst e) g) as [<-|]; cbn [ind]; [specialize (Hlt Hg)|]; lia.
Qed.
End Routines.
