(* ===== verification/FilesThms.v ===== *)
(** Open files stay alive exactly as long as a descriptor refers to them: every
    operation of Files.v preserves the reference-count invariant and is
    defined, from boot on. *)

From S2P Require Import Prelude Files FilesInv.

(** Discharges an invariant whose in-flight references cancel. *)
Ltac held := eapply refs_ok_ext; [|eassumption]; intros; unfold hold, none_held; lia.

(** What a system call or a task event leaves behind. *)
Definition keeps (grow : nat) (s : fstate) {A} : A -> fstate -> Prop :=
  λ _ s', refs_ok none_held s' /\ length (tables s') = (length (tables s) + grow)%nat.

Definition safe (s : fstate) : Prop := refs_ok none_held s.

Lemma fresh_file h s f : refs_ok h s -> f <> 0 -> files s !! f = None -> h f < 8 ->
  refs_ok (hold f 1 h) (set_files (<[f := 1]> (files s)) s).
Proof.
  intros H Hf Hn Hb. pose proof (rf_count _ _ H f Hf) as E. rewrite Hn in E. simpl in E. split; simpl; try apply H.
  - intros g Hg. unfold hold. destruct (Z.eqb_spec f g) as [<-|]; cbn [ind].
    + rewrite lookup_insert_eq. simpl. lia.
    + rewrite lookup_insert_ne by assumption. rewrite (rf_count _ _ H) by exact Hg. lia.
  - intros g n Hg. destruct (decide (f = g)) as [<-|]; [rewrite lookup_insert_eq in Hg; injection Hg as <-; lia|].
    rewrite lookup_insert_ne in Hg by assumption. eapply rf_live; eauto.
  - split; [apply H|]. intros g Hg. pose proof (proj2 (rf_small _ _ H) g Hg). unfold hold.
    destruct (Z.eqb_spec f g) as [<-|]; cbn [ind]; lia.
Qed.

Lemma refs_ok_hold_0 d h s : refs_ok (hold 0 d h) s <-> refs_ok h s.
Proof.
  split; apply refs_ok_ext; intros f Hf; unfold hold; destruct (Z.eqb_spec 0 f); try congruence; cbn [ind]; lia.
Qed.

(** ** System calls *)

Section Calls.
Context (s : fstate) (H : safe s).

(** Allocating a descriptor for a reference in flight, or giving it up. *)
Lemma alloc_or_put s1 f : refs_ok (hold f 1 none_held) s1 -> f <> 0 ->
  wp (let* fd := fd_alloc f in if fd <? 0 then vfs_file_put f;; ret fd else ret fd) (keeps 0 s1) s1.
Proof.
  intros H1 Hf. apply wp_bind. eapply wp_mono; [eapply fd_alloc_ok; eauto|].
  intros r s2 [(Hr & Hv & _ & ->)|(-> & -> & _)].
  - destruct (Z.ltb_spec r 0); [lia|]. apply wp_ret. split; [|rewrite put_slot_length; lia].
    pose proof (install_ok _ _ H1 (cur s1) r f Hv). held.
  - simpl. apply wp_bind. eapply wp_file_put; [exact H1|exact Hf| |].
    + pose proof (slots_nonneg f (tables s1)). unfold hold, none_held. rewrite Z.eqb_refl. cbn [ind]. lia.
    + intros s' Ht _ H'. apply wp_ret. split; [held|rewrite Ht; lia].
Qed.

Lemma SysOpen_ok path opened : (forall fp, opened = inr fp -> fp <> 0 /\ files s !! fp = None) -> wp (SysOpen path opened) (keeps 0 s) s.
Proof using H.
  intros Hop. unfold SysOpen. destruct (path =? 0); [apply wp_ret; split; [exact H|lia]|]. destruct opened as [err|fp]; [apply wp_ret; split; [exact H|lia]|].
  destruct (Hop fp eq_refl) as [Hf Hn]. apply wp_bind, wp_modify.
  apply (alloc_or_put (set_files (<[fp := 1]> (files s)) s)); [|exact Hf]. apply fresh_file; auto. unfold none_held. lia.
Qed.

Lemma valid_fd_range fd : (valid_fd fd <? 0) = false -> 0 <= fd < Z.of_nat FD_MAX.
Proof. unfold valid_fd. destruct (Z.leb_spec 0 fd), (Z.ltb_spec fd (Z.of_nat FD_MAX)); simpl; intros; try easy; lia. Qed.

Lemma fd_release_ok h s1 fd : refs_ok h s1 -> (forall f, f <> 0 -> h f < 8) -> wp (fd_release fd)
  (λ f s', length (tables s') = length (tables s1) /\ cur s' = cur s1 /\ refs_ok (hold f 1 h) s' /\
     forall e, 0 <= fd < Z.of_nat FD_MAX -> slot s1 (cur s1) fd = Some e -> f = fst e) s1.
Proof.
  intros H1 Hb. unfold fd_release. destruct (valid_fd fd <? 0) eqn:V.
  { apply wp_ret. split_and!; auto; [now apply refs_ok_hold_0|]. unfold valid_fd in V. intros e Hfd _.
    destruct (Z.leb_spec 0 fd), (Z.ltb_spec fd (Z.of_nat FD_MAX)); simpl in V; try easy; lia. }
  apply valid_fd_range in V. apply wp_bind, wp_gets. destruct (slot_in _ _ H1 (cur s1) fd) as [e He]; [apply H1|lia|].
  apply wp_bind. eapply wp_fd_get; [exact He|]. destruct (Z.eqb_spec (fst e) 0) as [E|E].
  { apply wp_ret. split_and!; auto; [now apply refs_ok_hold_0|]. intros e' _ He'. congruence. }
  apply wp_bind. eapply wp_fd_set; [exact He|]. apply wp_ret. split_and!; [apply put_slot_length|reflexivity| |].
  - apply (clear_ok _ _ H1 _ _ e); auto.
  - intros e' _ He'. congruence.
Qed.

Lemma held_pos f s1 : 1 <= slots f (tables s1) + hold f 1 none_held f.
Proof. pose proof (slots_nonneg f (tables s1)). unfold hold, none_held. rewrite Z.eqb_refl. cbn [ind]. lia. Qed.

Lemma SysClose_ok fd : wp (SysClose fd) (keeps 0 s) s.
Proof using H.
  unfold SysClose. apply wp_bind. eapply wp_mono; [apply (fd_release_ok none_held); [exact H|unfold none_held; lia]|].
  intros f s1 (Hl & _ & H1 & _). destruct (Z.eqb_spec f 0) as [->|Hf].
  - apply wp_ret. split; [exact (proj1 (refs_ok_hold_0 _ _ _) H1)|lia].
  - apply wp_bind. eapply wp_file_put; [exact H1|exact Hf|apply held_pos|]. intros s2 Ht _ H2. apply wp_ret.
    split; [held|rewrite Ht; lia].
Qed.

Lemma fd_lookup_ok fd : wp (fd_lookup fd) (λ f s', s' = s /\ (f <> 0 -> 1 <= slots f (tables s) /\ 0 <= fd < Z.of_nat FD_MAX /\
   exists fl, slot s (cur s) fd = Some (f, fl))) s.
Proof using H.
  unfold fd_lookup. destruct (valid_fd fd <? 0) eqn:V; [apply wp_ret; split; [reflexivity|lia]|].
  apply valid_fd_range in V. apply wp_bind, wp_gets. destruct (slot_in _ _ H (cur s) fd) as [e He]; [apply H|lia|].
  apply wp_bind. eapply wp_fd_get; [exact He|]. apply wp_ret. split; [reflexivity|]. intros _.
  split_and!; try lia; [eapply slot_pos; eauto|]. exists (snd e). now destruct e.
Qed.

Lemma DupHandler_ok fd : wp (DupHandler fd) (keeps 0 s) s.
Proof using H.
  unfold DupHandler. apply wp_bind. eapply wp_mono; [apply fd_lookup_ok|]. intros f s1 [-> Hf].
  destruct (Z.eqb_spec f 0) as [->|Hne]; [apply wp_ret; split; [exact H|lia]|]. apply wp_bind.
  eapply wp_file_get; [exact H|exact Hne|unfold none_held; pose proof (Hf Hne); lia|unfold none_held; lia|].
  intros s1 Ht _ H1. eapply wp_mono; [now apply alloc_or_put|]. intros r s2 [Hs2 Hl]. split; [exact Hs2|rewrite Hl, Ht; lia].
Qed.

Lemma fd_alloc_at_ok s1 f fd : refs_ok (hold f 1 none_held) s1 -> f <> 0 -> 0 <= fd < Z.of_nat FD_MAX ->
  wp (fd_alloc_at f fd) (λ r s', r = fd /\ keeps 0 s1 r s') s1.
Proof.
  intros H1 Hf Hfd. unfold fd_alloc_at. destruct (Z.eqb_spec f 0); [easy|].
  assert (valid_fd fd = 0) as ->.
  { unfold valid_fd. destruct (Z.leb_spec 0 fd), (Z.ltb_spec fd (Z.of_nat FD_MAX)); simpl; lia. }
  simpl. apply wp_bind, wp_gets. destruct (slot_in _ _ H1 (cur s1) fd) as [e He]; [apply H1|lia|].
  apply wp_bind. eapply wp_fd_get; [exact He|]. apply wp_bind.
  apply (wp_mono _ (λ _ s', refs_ok (hold f 1 none_held) s' /\ length (tables s') = length (tables s1) /\ vacant s' (cur s1) fd /\ cur s' = cur s1)).
  - apply wp_when. destruct (Z.eqb_spec (fst e) 0) as [E|E]; simpl; [split_and!; auto; exists e; auto|].
    apply wp_bind. eapply wp_fd_set; [exact He|].
    assert (Hc : refs_ok (hold (fst e) 1 (hold f 1 none_held)) (put_slot s1 (cur s1) fd (0, snd e))).
    { apply (clear_ok _ _ H1); auto. intros _. unfold hold, none_held. pose proof (ind_nonneg (f =? fst e)). lia. }
    eapply wp_file_put; [exact Hc|exact E| |].
    + pose proof (slots_nonneg (fst e) (tables (put_slot s1 (cur s1) fd (0, snd e)))).
      unfold hold, none_held. rewrite Z.eqb_refl. pose proof (ind_nonneg (f =? fst e)). cbn [ind]. lia.
    + intros s2 Ht Hcur H2. split_and!; [held|rewrite Ht; apply put_slot_length| |exact Hcur].
      exists (0, snd e). unfold slot. rewrite Ht. fold (slot (put_slot s1 (cur s1) fd (0, snd e)) (cur s1) fd).
      rewrite (slot_put _ _ _ _ _ _ _ He), decide_True by auto. auto.
  - intros _ s2 (H2 & Hl & Hv & Hc). pose proof Hv as (e2 & He2 & _). apply wp_bind. eapply wp_fd_set; [exact He2|].
    apply wp_ret. split; [reflexivity|]. split; [|rewrite put_slot_length; lia].
    pose proof (install_ok _ _ H2 (cur s1) fd f Hv). held.
Qed.

Lemma Dup2Handler_ok oldfd newfd : wp (Dup2Handler oldfd newfd) (keeps 0 s) s.
Proof using H.
  unfold Dup2Handler. destruct (Z.ltb_spec oldfd 0), (Z.leb_spec (Z.of_nat FD_MAX) oldfd); simpl;
    try (apply wp_ret; split; [exact H|lia]).
  destruct (Z.ltb_spec newfd 0), (Z.leb_spec (Z.of_nat FD_MAX) newfd); simpl; try (apply wp_ret; split; [exact H|lia]).
  apply wp_bind. eapply wp_mono; [apply fd_lookup_ok|]. intros f s1 [-> Hf].
  destruct (Z.eqb_spec f 0) as [->|Hne]; [apply wp_ret; split; [exact H|lia]|].
  destruct (oldfd =? newfd); [apply wp_ret; split; [exact H|lia]|]. apply wp_bind.
  eapply wp_file_get; [exact H|exact Hne|unfold none_held; pose proof (Hf Hne); lia|unfold none_held; lia|].
  intros s1 Ht _ Hg. apply wp_bind. eapply wp_mono; [apply (fd_alloc_at_ok s1); auto; lia|].
  intros r s2 (-> & Hk & Hl). destruct (Z.ltb_spec newfd 0); [lia|]. apply wp_ret. split; [exact Hk|rewrite Hl, Ht; lia].
Qed.

(** Giving up two references in flight. *)
Lemma put_both s1 rf wf (r : Z) : refs_ok (hold rf 1 (hold wf 1 none_held)) s1 -> rf <> 0 -> wf <> 0 ->
  wp (vfs_file_put rf;; vfs_file_put wf;; ret (@inl Z (Z * Z) r)) (keeps 0 s1) s1.
Proof.
  intros H1 Hr Hw. apply wp_bind. eapply wp_file_put; [exact H1|exact Hr| |].
  { pose proof (slots_nonneg rf (tables s1)). unfold hold, none_held. rewrite Z.eqb_refl. pose proof (ind_nonneg (wf =? rf)). cbn [ind]. lia. }
  intros s2 Ht2 _ H2. assert (H2' : refs_ok (hold wf 1 none_held) s2) by held. apply wp_bind.
  eapply wp_file_put; [exact H2'|exact Hw|apply held_pos|]. intros s3 Ht3 _ H3. apply wp_ret. split; [held|]. rewrite Ht3, Ht2. lia.
Qed.

Lemma PipeHandler_ok user_fds made :
  (forall rf wf, made = inr (rf, wf) -> rf <> 0 /\ wf <> 0 /\ rf <> wf /\ files s !! rf = None /\ files s !! wf = None) ->
  wp (PipeHandler user_fds made) (keeps 0 s) s.
Proof using H.
  intros Hop. unfold PipeHandler. destruct (user_fds =? 0); [apply wp_ret; split; [exact H|lia]|].
  destruct (_ <=? user_fds); [apply wp_ret; split; [exact H|lia]|]. destruct made as [err|[rf wf]]; [apply wp_ret; split; [exact H|lia]|].
  destruct (Hop rf wf eq_refl) as (Hr & Hw & Hne & Fr & Fw). apply wp_bind, wp_modify.
  set (s1 := set_files _ s).
  assert (H1 : refs_ok (hold rf 1 (hold wf 1 none_held)) s1).
  { assert (refs_ok (hold wf 1 none_held) (set_files (<[wf := 1]> (files s)) s)) by (apply fresh_file; auto; unfold none_held; lia).
    change s1 with (set_files (<[rf := 1]> (files (set_files (<[wf := 1]> (files s)) s))) (set_files (<[wf := 1]> (files s)) s)).
    apply (fresh_file (hold wf 1 none_held) (set_files (<[wf := 1]> (files s)) s) rf); auto; [simpl; rewrite lookup_insert_ne; auto|].
    unfold hold, none_held. pose proof (ind_nonneg (wf =? rf)). lia. }
  apply wp_bind. eapply wp_mono; [eapply fd_alloc_ok; [exact H1|exact Hr]|]. intros rfd s2 [(Hrfd & Hv & _ & ->)|(-> & -> & _)].
  2: { simpl. eapply wp_mono; [now apply put_both|]. intros r s5 [H5 Hl5]. split; [exact H5|exact Hl5]. }
  destruct (Z.ltb_spec rfd 0); [lia|]. pose proof Hv as (e & He & _).
  assert (H2 : refs_ok (hold wf 1 none_held) (put_slot s1 (cur s1) rfd (rf, 0))) by (pose proof (install_ok _ _ H1 (cur s1) rfd rf Hv); held).
  apply wp_bind. eapply wp_mono; [eapply fd_alloc_ok; [exact H2|exact Hw]|]. intros wfd s3 [(Hwfd & Hv2 & _ & ->)|(-> & -> & _)].
  - destruct (Z.ltb_spec wfd 0); [lia|]. apply wp_ret. split; [|rewrite !put_slot_length; simpl; lia].
    pose proof (install_ok _ _ H2 _ wfd wf Hv2). held.
  - simpl. apply wp_bind. eapply wp_mono; [eapply fd_release_ok; [exact H2|]|].
    { intros f Hf. unfold hold, none_held. pose proof (ind_nonneg (wf =? f)). lia. }
    intros f s4 (Hl & _ & H4 & Hf). rewrite (Hf (rf, 0)) in H4; [|lia|].
    + eapply wp_mono; [now apply put_both|]. intros r s5 [H5 Hl5]. split; [exact H5|]. rewrite Hl5, Hl, put_slot_length. simpl. lia.
    + change (cur (put_slot s1 (cur s1) rfd (rf, 0))) with (cur s1). rewrite (slot_put _ _ _ _ _ _ _ He), decide_True by auto. reflexivity.
Qed.
End Calls.

(** ** Task creation and death *)

Definition empty_table : list (Z * Z) := replicate FD_MAX (0, 0).
Definition add_table (s : fstate) : fstate := set_tables (tables s ++ [empty_table]) s.

Lemma add_table_ok s : refs_ok none_held s -> Z.of_nat (length (tables s)) < 2 ^ 40 - 1 -> refs_ok none_held (add_table s).
Proof.
  intros H Hl. split; simpl.
  - apply Forall_app. split; [apply H|]. constructor; [apply length_replicate|constructor].
  - rewrite length_app. simpl. pose proof (rf_cur _ _ H). lia.
  - intros f Hf. unfold slots. rewrite sumf_app. change (sumf (cnt f) [empty_table]) with (cnt f empty_table + 0). unfold empty_table. rewrite cnt_empty by exact Hf.
    rewrite (rf_count _ _ H) by exact Hf. unfold slots. lia.
  - apply H.
  - rewrite length_app. simpl. split; [lia|]. intros f _. unfold none_held. lia.
Qed.

Lemma add_table_slot s t i : slot (add_table s) t i =
  if decide (t = Z.of_nat (length (tables s))) then arr_get empty_table i else slot s t i.
Proof.
  unfold slot, add_table, arr_get. cbn [tables set_tables]. destruct (Z.ltb_spec t 0).
  - rewrite decide_False by lia. reflexivity.
  - destruct (decide _) as [->|].
    + rewrite Nat2Z.id, lookup_app_r, Nat.sub_diag by lia. reflexivity.
    + destruct (decide (t < Z.of_nat (length (tables s)))).
      * rewrite lookup_app_l by lia. reflexivity.
      * rewrite !(proj2 (lookup_ge_None _ _)); rewrite ?length_app; simpl; auto; lia.
Qed.

Lemma empty_table_get i : 0 <= i < Z.of_nat FD_MAX -> arr_get empty_table i = Some (0, 0).
Proof. intros Hi. unfold arr_get. destruct (Z.ltb_spec i 0); [lia|]. apply lookup_replicate_2. lia. Qed.

Section Tasks.
Context (s : fstate) (H : safe s).

(** Overwriting slot [(t, i)], whose reference was given up, by a copy of the
    parent's slot. *)
Lemma copy_slot s1 parent t i old e : 0 <= i < Z.of_nat FD_MAX -> parent <> t ->
  refs_ok (hold (fst old) (-1) none_held) s1 -> slot s1 t i = Some old -> slot s1 parent i = Some e ->
  wp (fd_set t i e;; when (negb (fst e =? 0)) (vfs_file_get (fst e)))
     (λ _ s', refs_ok none_held s' /\ length (tables s') = length (tables s1) /\ cur s' = cur s1 /\
        forall t' i', slot s' t' i' = if decide (t' = t /\ i' = i) then Some e else slot s1 t' i') s1.
Proof.
  intros Hi Hne H1 Ho He. apply wp_bind. eapply wp_fd_set; [exact Ho|].
  set (s2 := put_slot s1 t i e).
  assert (H2 : refs_ok (hold (fst e) (-1) none_held) s2).
  { eapply refs_ok_ext; [|eapply put_slot_ok; [exact H1|exact Ho|]]; unfold hold, none_held.
    - intros f Hf. cbv beta. lia.
    - intros f Hf. pose proof (ind_nonneg (fst e =? f)). lia. }
  assert (Hs2 : forall t' i', slot s2 t' i' = if decide (t' = t /\ i' = i) then Some e else slot s1 t' i')
    by (intros; apply (slot_put _ _ _ _ _ _ _ Ho)).
  apply wp_when. destruct (Z.eqb_spec (fst e) 0) as [E0|E0]; simpl.
  - rewrite E0, refs_ok_hold_0 in H2. split_and!; auto. apply put_slot_length.
  - eapply wp_file_get; [exact H2|exact E0| |unfold hold, none_held; pose proof (ind_nonneg (fst e =? fst e)); lia|].
    + assert (Hp : slot s2 parent i = Some e) by (rewrite Hs2, decide_False by tauto; exact He).
      assert (Ht : slot s2 t i = Some e) by (rewrite Hs2, decide_True by auto; reflexivity).
      pose proof (slots_put s2 t i (0, 0) e (fst e) Ht) as Hc. rewrite Z.eqb_refl in Hc. cbn [fst] in Hc.
      destruct (Z.eqb_spec 0 (fst e)); [congruence|]. cbn [ind] in Hc.
      assert (1 <= slots (fst e) (tables (put_slot s2 t i (0, 0)))).
      { apply (slot_pos (put_slot s2 t i (0, 0)) parent i e); [|reflexivity].
        rewrite (slot_put _ _ _ _ _ _ _ Ht), decide_False by tauto. exact Hp. }
      unfold hold, none_held. rewrite Z.eqb_refl. cbn [ind]. lia.
    + intros s3 Ht Hcur H3. split_and!; [held|rewrite Ht; apply put_slot_length|exact Hcur|].
      intros t' i'. unfold slot at 1. rewrite Ht. apply Hs2.
Qed.

Lemma fork_fds_ok : Z.of_nat (length (tables s)) < 2 ^ 40 - 1 ->
  wp fork_fds (λ child s', keeps 1 s child s' /\ child = Z.of_nat (length (tables s)) /\
    forall i, 0 <= i < Z.of_nat FD_MAX -> slot s' child i = slot s (cur s) i) s.
Proof using H.
  intros Hl. unfold fork_fds. apply wp_bind, wp_get, wp_bind, wp_modify. fold empty_table. fold (add_table s).
  pose proof (rf_cur _ _ H) as Hcur. set (child := Z.of_nat (length (tables s))). apply wp_bind.
  apply (wp_loop (λ k i s', 0 <= i <= Z.of_nat FD_MAX /\ k = Z.to_nat (Z.of_nat FD_MAX - i) /\ refs_ok none_held s' /\
    length (tables s') = S (length (tables s)) /\ (forall j, slot s' (cur s) j = slot s (cur s) j) /\
    forall j, 0 <= j < Z.of_nat FD_MAX -> slot s' child j = if decide (j < i) then slot s (cur s) j else Some (0, 0)) FD_MAX).
  - split_and!; auto using add_table_ok; try (unfold FD_MAX; lia).
    + simpl. rewrite length_app. simpl. lia.
    + intros j. rewrite add_table_slot, decide_False by lia. reflexivity.
    + intros j Hj. rewrite decide_False by lia. rewrite add_table_slot, decide_True by reflexivity. now apply empty_table_get.
  - lia.
  - intros k i s1 (Hi & -> & H1 & Hl1 & Hp & Hc). unfold fork_fds_step.
    destruct (Z.ltb_spec i (Z.of_nat FD_MAX)); [|apply wp_ret, wp_ret; split; [split; [exact H1|lia]|]; split; [reflexivity|]].
    + destruct (slot_in _ _ H1 (cur s) i) as [e He]; [lia|lia|]. apply wp_bind. eapply wp_fd_get; [exact He|].
      assert (Ho : slot s1 child i = Some (0, 0)) by (rewrite Hc, decide_False by lia; reflexivity).
      pose proof (copy_slot s1 (cur s) child i (0, 0) e ltac:(lia) ltac:(lia) (proj2 (refs_ok_hold_0 _ _ _) H1) Ho He) as HC.
      apply (proj1 (wp_bind _ _ _ _)) in HC. apply wp_bind. eapply wp_mono; [exact HC|].
      intros u s2 Hw. apply wp_bind. eapply wp_mono; [exact Hw|]. intros _ s3 (H3 & Hl3 & _ & Hs3). apply wp_ret.
      exists (Z.to_nat (Z.of_nat FD_MAX - (i + 1))). split_and!; auto; try lia.
      * intros j. rewrite Hs3, decide_False by lia. apply Hp.
      * intros j Hj. rewrite Hs3. destruct (decide (j = i)) as [->|].
        -- rewrite !decide_True by (auto; lia). rewrite <- Hp. auto.
        -- rewrite decide_False by tauto. rewrite Hc by lia. destruct (decide (j < i)), (decide (j < i + 1)); auto; lia.
    + intros j Hj. rewrite Hc, decide_True by lia. reflexivity.
Qed.

(** Filling a vacant slot with one more reference to a file some slot holds. *)
Lemma dup_tty s1 t i f : refs_ok none_held s1 -> f <> 0 -> vacant s1 t i -> 1 <= slots f (tables s1) ->
  wp (fd_set t i (f, 0);; vfs_file_get f) (λ _ s', refs_ok none_held s' /\ length (tables s') = length (tables s1) /\ cur s' = cur s1 /\
    forall t' i', slot s' t' i' = if decide (t' = t /\ i' = i) then Some (f, 0) else slot s1 t' i') s1.
Proof.
  intros H1 Hf Hv Hp. pose proof Hv as (e & He & E0). apply wp_bind. eapply wp_fd_set; [exact He|].
  pose proof (install_ok _ _ H1 t i f Hv) as H2. eapply wp_file_get; [exact H2|exact Hf| | |].
  - rewrite (slots_put _ _ _ _ _ _ He). unfold hold, none_held. cbn [fst]. rewrite Z.eqb_refl. rewrite E0.
    destruct (Z.eqb_spec 0 f); [congruence|]. cbn [ind]. lia.
  - unfold hold, none_held. rewrite Z.eqb_refl. cbn [ind]. lia.
  - intros s3 Ht Hc H3. split_and!; [held|rewrite Ht; apply put_slot_length|exact Hc|].
    intros t' i'. unfold slot at 1. rewrite Ht. apply (slot_put _ _ _ _ _ _ _ He).
Qed.

Lemma create_user_fds_ok tty_f : Z.of_nat (length (tables s)) < 2 ^ 40 - 1 -> (tty_f <> 0 -> files s !! tty_f = None) ->
  wp (create_user_fds tty_f) (λ t s', keeps 1 s t s' /\ t = Z.of_nat (length (tables s)) /\ cur s' = cur s /\
    forall j, slot s' (cur s) j = slot s (cur s) j) s.
Proof using H.
  intros Hl Hfresh. unfold create_user_fds. apply wp_bind, wp_get, wp_bind, wp_modify. fold empty_table. fold (add_table s).
  pose proof (rf_cur _ _ H) as Hcur. set (t := Z.of_nat (length (tables s))). pose proof (add_table_ok s H Hl) as Ha.
  assert (Hold : forall j, slot (add_table s) (cur s) j = slot s (cur s) j) by (intros; rewrite add_table_slot, decide_False by lia; reflexivity).
  assert (Hnew : forall j, 0 <= j < Z.of_nat FD_MAX -> slot (add_table s) t j = Some (0, 0))
    by (intros; rewrite add_table_slot, decide_True by reflexivity; now apply empty_table_get).
  assert (Hlen : length (tables (add_table s)) = (length (tables s) + 1)%nat) by apply length_app.
  apply wp_bind, wp_when. destruct (Z.eqb_spec tty_f 0) as [->|Hf]; simpl.
  { apply wp_ret. split_and!; auto. split; auto. }
  apply wp_bind, wp_modify. set (s1 := set_files (<[tty_f := 1]> (files (add_table s))) (add_table s)).
  assert (H1 : refs_ok (hold tty_f 1 none_held) s1) by (apply fresh_file; auto; unfold none_held; lia).
  apply wp_bind. eapply wp_fd_set; [exact (Hnew 0 ltac:(unfold FD_MAX; lia))|].
  assert (Hv0 : vacant s1 t 0) by (exists (0, 0); split; [apply Hnew; unfold FD_MAX; lia|reflexivity]).
  set (s2 := put_slot s1 t 0 (tty_f, 0)).
  assert (H2 : refs_ok none_held s2) by (pose proof (install_ok _ _ H1 t 0 tty_f Hv0); held).
  assert (Hs2 : forall t' i', slot s2 t' i' = if decide (t' = t /\ i' = 0) then Some (tty_f, 0) else slot (add_table s) t' i').
  { intros t' i'. apply (slot_put s1 t 0 (tty_f, 0) (0, 0)). apply Hnew. unfold FD_MAX. lia. }
  change (put_slot _ t 0 (tty_f, 0)) with s2.
  assert (Hd : forall s3 i, 1 <= i <= 2 -> refs_ok none_held s3 -> slot s3 t 0 = Some (tty_f, 0) -> slot s3 t i = Some (0, 0) ->
     wp (fd_set t i (tty_f, 0);; vfs_file_get tty_f) (λ _ s', refs_ok none_held s' /\ length (tables s') = length (tables s3) /\ cur s' = cur s3 /\
      forall t' i', slot s' t' i' = if decide (t' = t /\ i' = i) then Some (tty_f, 0) else slot s3 t' i') s3).
  { intros s3 i Hi H3 Hs0 Hsi. apply dup_tty; auto; [exists (0, 0); auto|]. eapply slot_pos; [exact Hs0|reflexivity]. }
  assert (E20 : slot s2 t 0 = Some (tty_f, 0)) by (rewrite Hs2, decide_True by auto; reflexivity).
  assert (E21 : slot s2 t 1 = Some (0, 0)) by (rewrite Hs2, decide_False by lia; apply Hnew; unfold FD_MAX; lia).
  pose proof (Hd s2 1 ltac:(lia) H2 E20 E21) as HC. apply (proj1 (wp_bind _ _ _ _)) in HC.
  apply wp_bind. eapply wp_mono; [exact HC|]. intros u3 s3 HC3. apply wp_bind. eapply wp_mono; [exact HC3|].
  intros u4 s4 (H4 & Hl4 & Hc4 & Hs4). 
  assert (E40 : slot s4 t 0 = Some (tty_f, 0)) by (rewrite Hs4, decide_False by lia; exact E20).
  assert (E42 : slot s4 t 2 = Some (0, 0)) by (rewrite Hs4, Hs2, !decide_False by lia; apply Hnew; unfold FD_MAX; lia).
  pose proof (Hd s4 2 ltac:(lia) H4 E40 E42) as HE. apply (proj1 (wp_bind _ _ _ _)) in HE.
  apply wp_bind. eapply wp_mono; [exact HE|]. intros u5 s5 HE5. eapply wp_mono; [exact HE5|].
  intros u6 s6 (H6 & Hl6 & Hc6 & Hs6). apply wp_ret. split_and!; auto.
  - split; [exact H6|]. rewrite Hl6, Hl4. unfold s2. rewrite put_slot_length. exact Hlen.
  - rewrite Hc6, Hc4. reflexivity.
  - intros j. rewrite Hs6, Hs4, Hs2, !decide_False by lia. apply Hold.
Qed.

Lemma spawn_fds_ok tty_f : Z.of_nat (length (tables s)) < 2 ^ 40 - 1 -> (tty_f <> 0 -> files s !! tty_f = None) ->
  wp (spawn_fds tty_f) (λ t s', keeps 1 s t s' /\ t = Z.of_nat (length (tables s)) /\
    forall i, 0 <= i < Z.of_nat FD_MAX -> slot s' t i = slot s (cur s) i) s.
Proof using H.
  intros Hl Hfresh. unfold spawn_fds. apply wp_bind. eapply wp_mono; [now apply create_user_fds_ok|].
  intros t s0 ((H0 & Hl0) & -> & Hc0 & Hp0). set (t := Z.of_nat (length (tables s))). pose proof (rf_cur _ _ H) as Hcur.
  apply wp_bind, wp_gets. rewrite Hc0. apply wp_bind.
  apply (wp_loop (λ k i s', 0 <= i <= Z.of_nat FD_MAX /\ k = Z.to_nat (Z.of_nat FD_MAX - i) /\ refs_ok none_held s' /\
    length (tables s') = S (length (tables s)) /\ (forall j, slot s' (cur s) j = slot s (cur s) j) /\
    forall j, 0 <= j < i -> slot s' t j = slot s (cur s) j) FD_MAX); [split_and!; auto; unfold FD_MAX; lia|lia|].
  intros k i s1 (Hi & -> & H1 & Hl1 & Hp & Hc). unfold spawn_fds_step.
  destruct (Z.ltb_spec i (Z.of_nat FD_MAX)) as [Hlt|Hge]; [|apply wp_ret, wp_ret; split; [split; [exact H1|lia]|]; split; [reflexivity|]; intros; apply Hc; lia].
  destruct (slot_in _ _ H1 (cur s) i) as [e He]; [lia|lia|]. destruct (slot_in _ _ H1 t i) as [old Ho]; [lia|lia|].
  apply wp_bind. eapply wp_fd_get; [exact Ho|]. apply wp_bind.
  apply (wp_mono _ (λ _ s2, refs_ok (hold (fst old) (-1) none_held) s2 /\ tables s2 = tables s1)).
  { apply wp_when. destruct (Z.eqb_spec (fst old) 0) as [->|Hne]; simpl; [split; [now apply refs_ok_hold_0|reflexivity]|].
    eapply wp_file_put; [exact H1|exact Hne| |auto]. pose proof (slot_pos s1 t i old Ho _ eq_refl). unfold none_held. lia. }
  intros u2 s2 (H2 & Ht2). assert (Hsl : forall t' i', slot s2 t' i' = slot s1 t' i') by (intros; unfold slot; now rewrite Ht2).
  apply wp_bind. eapply wp_fd_get; [rewrite Hsl; exact He|].
  pose proof (copy_slot s2 (cur s) t i old e ltac:(lia) ltac:(lia) H2) as HC. rewrite !Hsl in HC. specialize (HC Ho He).
  apply (proj1 (wp_bind _ _ _ _)) in HC. apply wp_bind. eapply wp_mono; [exact HC|]. intros u3 s3 Hw.
  apply wp_bind. eapply wp_mono; [exact Hw|]. intros u4 s4 (H4 & Hl4 & _ & Hs4). apply wp_ret.
  exists (Z.to_nat (Z.of_nat FD_MAX - (i + 1))). split_and!; auto; try lia.
  - rewrite Hl4, Ht2. exact Hl1.
  - intros j. rewrite Hs4, decide_False, Hsl by lia. apply Hp.
  - intros j Hj. rewrite Hs4. destruct (decide (j = i)) as [->|].
    + rewrite decide_True by auto. rewrite <- Hp. auto.
    + rewrite decide_False, Hsl by tauto. apply Hc. lia.
Qed.

Lemma reap_fds_ok dead : 0 <= dead < Z.of_nat (length (tables s)) ->
  wp (reap_fds dead) (λ u s', keeps 0 s u s' /\ forall i, 0 <= i < Z.of_nat FD_MAX -> vacant s' dead i) s.
Proof using H.
  intros Hd. unfold reap_fds.
  apply (wp_loop (λ k i s', 0 <= i <= Z.of_nat FD_MAX /\ k = Z.to_nat (Z.of_nat FD_MAX - i) /\ refs_ok none_held s' /\
    length (tables s') = length (tables s) /\ forall j, 0 <= j < i -> vacant s' dead j) FD_MAX); [split_and!; auto; unfold FD_MAX; lia|lia|].
  intros k i s1 (Hi & -> & H1 & Hl1 & Hv). unfold reap_fds_step.
  destruct (Z.ltb_spec i (Z.of_nat FD_MAX)) as [Hlt|Hge]; [|apply wp_ret; split; [split; [exact H1|lia]|]; intros; apply Hv; lia].
  destruct (slot_in _ _ H1 dead i) as [e He]; [lia|lia|]. apply wp_bind. eapply wp_fd_get; [exact He|]. apply wp_bind.
  apply (wp_mono _ (λ _ s2, refs_ok none_held s2 /\ length (tables s2) = length (tables s1) /\ vacant s2 dead i /\
    forall j, j <> i -> slot s2 dead j = slot s1 dead j)).
  - apply wp_when. destruct (Z.eqb_spec (fst e) 0) as [E|E]; simpl; [split_and!; auto; exists e; auto|].
    apply wp_bind. eapply wp_file_put; [exact H1|exact E|pose proof (slot_pos s1 dead i e He _ eq_refl); unfold none_held; lia|].
    intros s2 Ht2 _ H2. assert (He2 : slot s2 dead i = Some e) by (unfold slot; rewrite Ht2; exact He).
    eapply wp_fd_set; [exact He2|]. split_and!.
    + assert (Hc : refs_ok (hold (fst e) 1 (hold (fst e) (-1) none_held)) (put_slot s2 dead i (0, snd e)))
        by (apply (clear_ok _ _ H2); [exact He2|unfold hold, none_held; pose proof (ind_nonneg (fst e =? fst e)); lia]). held.
    + rewrite put_slot_length, Ht2. reflexivity.
    + exists (0, snd e). rewrite (slot_put _ _ _ _ _ _ _ He2), decide_True by auto. auto.
    + intros j Hj. rewrite (slot_put _ _ _ _ _ _ _ He2), decide_False by tauto. unfold slot. now rewrite Ht2.
  - intros u2 s2 (H2 & Hl2 & Hvi & Hsl). apply wp_ret. exists (Z.to_nat (Z.of_nat FD_MAX - (i + 1))).
    split_and!; auto; try lia. intros j Hj. destruct (decide (j = i)) as [->|]; [exact Hvi|].
    destruct (Hv j ltac:(lia)) as (e' & He' & E'). exists e'. rewrite Hsl by lia. auto.
Qed.
End Tasks.

(** * Runs of the descriptor layer *)

Inductive fop :=
| OpOpen (path : Z) (opened : Z + Z) | OpClose (fd : Z) | OpDup (fd : Z) | OpDup2 (oldfd newfd : Z)
| OpPipe (user_fds : Z) (made : Z + Z * Z) | OpFork | OpSpawn (tty_f : Z) | OpReap (dead : Z) | OpSwitch (t : Z).

Definition exec (op : fop) : M fstate unit :=
  match op with
  | OpOpen p o => let* _ := SysOpen p o in ret tt
  | OpClose fd => let* _ := SysClose fd in ret tt
  | OpDup fd => let* _ := DupHandler fd in ret tt
  | OpDup2 a b => let* _ := Dup2Handler a b in ret tt
  | OpPipe u m => let* _ := PipeHandler u m in ret tt
  | OpFork => let* _ := fork_fds in ret tt
  | OpSpawn f => let* _ := spawn_fds f in ret tt
  | OpReap d => reap_fds d
  | OpSwitch t => modify (λ s, FState (tables s) t (files s) (closed s))
  end.

(** The allocator returns unused addresses; tasks named by an operation exist. *)
Definition admissible (s : fstate) (op : fop) : Prop :=
  match op with
  | OpOpen _ (inr f) => f <> 0 /\ files s !! f = None
  | OpPipe _ (inr (r, w)) => r <> 0 /\ w <> 0 /\ r <> w /\ files s !! r = None /\ files s !! w = None
  | OpFork => Z.of_nat (length (tables s)) < 2 ^ 40 - 1
  | OpSpawn f => Z.of_nat (length (tables s)) < 2 ^ 40 - 1 /\ (f <> 0 -> files s !! f = None)
  | OpReap t | OpSwitch t => 0 <= t < Z.of_nat (length (tables s))
  | _ => True
  end.

Definition boot_files : fstate := FState [empty_table] 0 ∅ [].

Inductive freach : fstate -> Prop :=
| freach_boot : freach boot_files
| freach_step s op s' : freach s -> admissible s op -> exec op s = Some (tt, s') -> freach s'.

Lemma exec_ok s op : safe s -> admissible s op -> wp (exec op) (λ _ s', safe s') s.
Proof.
  intros H Ha. destruct op as [p [e|f]|fd|fd|a b|u [e|[r w]]| |f|d|t]; simpl in Ha; cbn [exec].
  10: { apply (wp_mono _ _ _ _ (reap_fds_ok s H d Ha)). now intros _ s' [[H' _] _]. }
  10: { apply wp_modify. destruct H as [H1 H2 H3 H4 H5]. split; auto. }
  all: apply wp_bind.
  - eapply wp_mono; [apply (SysOpen_ok s H); easy|]. now intros r s' [H' _].
  - eapply wp_mono; [apply (SysOpen_ok s H); intros fp [= <-]; exact Ha|]. now intros r s' [H' _].
  - eapply wp_mono; [apply (SysClose_ok s H)|]. now intros r s' [H' _].
  - eapply wp_mono; [apply (DupHandler_ok s H)|]. now intros r s' [H' _].
  - eapply wp_mono; [apply (Dup2Handler_ok s H)|]. now intros r s' [H' _].
  - eapply wp_mono; [apply (PipeHandler_ok s H); easy|]. now intros r s' [H' _].
  - eapply wp_mono; [apply (PipeHandler_ok s H); intros rf wf [= <- <-]; exact Ha|]. now intros r' s' [H' _].
  - eapply wp_mono; [apply (fork_fds_ok s H Ha)|]. now intros r s' [[H' _] _].
  - eapply wp_mono; [apply (spawn_fds_ok s H f (proj1 Ha) (proj2 Ha))|]. now intros r s' [[H' _] _].
Qed.

Lemma freach_safe s : freach s -> safe s.
Proof.
  induction 1 as [|s op s' _ IH Ha E].
  - split; [constructor; [reflexivity|constructor]|simpl; lia| | |].
    + intros f Hf. unfold slots. change (sumf (cnt f) (tables boot_files)) with (cnt f empty_table + 0).
      unfold empty_table. rewrite cnt_empty by exact Hf. reflexivity.
    + intros f n Hn. simpl in Hn. rewrite lookup_empty in Hn. easy.
    + split; [simpl; lia|]. intros. unfold none_held. lia.
  - pose proof (exec_ok s op IH Ha) as H. unfold wp in H. rewrite E in H. exact H.
Qed.

(** * What the descriptor layer guarantees *)

(** C16. in every state the descriptor calls can reach, a file's reference
    count is the number of descriptor slots that refer to it, over all tasks,
    so a file is live exactly while some descriptor refers to it; and no
    further open, close, dup, dup2, pipe, fork, spawn or reap ever touches a
    freed file. *)
Theorem descriptors_keep_files_alive s : freach s ->
  (forall f, f <> 0 -> (is_Some (files s !! f) <-> 1 <= slots f (tables s)) /\
     forall n, files s !! f = Some n -> n = slots f (tables s)) /\
  forall op, admissible s op -> exists s', exec op s = Some (tt, s').
Proof.
  intros Hr. pose proof (freach_safe s Hr) as H. split.
  - intros f Hf. pose proof (rf_count _ _ H f Hf) as E. unfold none_held in E. split; [|intros n Hn; rewrite Hn in E; simpl in E; lia].
    split.
    + intros [n Hn]. rewrite Hn in E. simpl in E. pose proof (rf_live _ _ H _ _ Hn). lia.
    + intros Hp. destruct (files s !! f); [eauto|simpl in E; lia].
  - intros op Ha. pose proof (exec_ok s op H Ha) as Hw. apply wp_run in Hw as ([] & s' & E & _). eauto.
Qed.

(** Open a file, copy its descriptor, fork: four references. *)
Lemma descriptors_keep_files_alive_witness : exists s, freach s /\ files s !! 4096 = Some (slots 4096 (tables s)) /\
  slots 4096 (tables s) = 4 /\ exists s', exec (OpReap 1) s = Some (tt, s').
Proof.
  eassert (R1 : freach _). { eapply (freach_step _ (OpOpen 1024 (inr 4096))); [apply freach_boot|split; [lia|reflexivity]|vm_compute; reflexivity]. }
  eassert (R2 : freach _). { eapply (freach_step _ (OpDup 3)); [exact R1|exact I|vm_compute; reflexivity]. }
  eassert (R3 : freach _). { eapply (freach_step _ OpFork); [exact R2|simpl; lia|vm_compute; reflexivity]. }
  eexists. split; [exact R3|]. destruct (descriptors_keep_files_alive _ R3) as [Hc Hp].
  split; [|split; [vm_compute; reflexivity|apply (Hp (OpReap 1)); simpl; lia]].
  destruct (Hc 4096 ltac:(lia)) as [[_ Hs] Hn]. destruct Hs as [n Hn']; [vm_compute; discriminate|]. rewrite Hn'. f_equal. apply Hn, Hn'.
Defined.

(** fd_alloc installs the file in the lowest vacant descriptor from 3 on
    and changes nothing else, or, when none is vacant, reports -EMFILE and
    changes nothing. *)
Lemma fd_alloc_lowest s f : freach s -> f <> 0 ->
  exists r s', fd_alloc f s = Some (r, s') /\
    ((3 <= r < 64 /\ vacant s (cur s) r /\ (forall j, 3 <= j < r -> occupied s (cur s) j) /\
        slot s' (cur s) r = Some (f, 0) /\ files s' = files s /\
        forall t i, ~ (t = cur s /\ i = r) -> slot s' t i = slot s t i) \/
     (r = - EMFILE /\ s' = s /\ forall j, 3 <= j < 64 -> occupied s (cur s) j)).
Proof.
  intros Hr Hf. pose proof (fd_alloc_ok _ s (freach_safe s Hr) f Hf) as H.
  apply wp_run in H as (r & s' & E & [(Hb & Hv & Hocc & ->)|Hfull]); exists r; eexists; (split; [exact E|]); [left|right; exact Hfull].
  destruct Hv as (e & He & E0). split_and!; try (unfold FD_MAX in Hb; lia); auto.
  - exists e. auto.
  - rewrite (slot_put _ _ _ _ _ _ _ He), decide_True by auto. reflexivity.
  - intros t i Hne. rewrite (slot_put _ _ _ _ _ _ _ He), decide_False by exact Hne. reflexivity.
Qed.

Lemma fd_alloc_lowest_witness : exists s', fd_alloc 4096 boot_files = Some (3, s') /\ slot s' 0 3 = Some (4096, 0).
Proof.
  destruct (fd_alloc_lowest boot_files 4096 freach_boot ltac:(lia)) as (r & s' & E & [(Hr & _ & Hocc & Hs & _)|(_ & _ & Hocc)]).
  - destruct (decide (r = 3)) as [->|Hne]; [eauto|]. destruct (Hocc 3 ltac:(lia)) as (e & He & Hn). vm_compute in He. injection He as <-. now elim Hn.
  - destruct (Hocc 3 ltac:(lia)) as (e & He & Hn). vm_compute in He. injection He as <-. now elim Hn.
Defined.

(** a forked child and a spawned child start with exactly the caller's
    descriptors, whatever terminal file the new task was first given, and a
    reaped task is left with none. *)
Theorem children_inherit_descriptors s tty_f dead : freach s ->
  Z.of_nat (length (tables s)) < 2 ^ 40 - 1 -> (tty_f <> 0 -> files s !! tty_f = None) ->
  0 <= dead < Z.of_nat (length (tables s)) ->
  (exists child s', fork_fds s = Some (child, s') /\ forall i, 0 <= i < 64 -> slot s' child i = slot s (cur s) i) /\
  (exists t s', spawn_fds tty_f s = Some (t, s') /\ forall i, 0 <= i < 64 -> slot s' t i = slot s (cur s) i) /\
  (exists s', reap_fds dead s = Some (tt, s') /\ forall i, 0 <= i < 64 -> vacant s' dead i).
Proof.
  intros Hr Hl Hf Hd. pose proof (freach_safe s Hr) as H. split_and!.
  - pose proof (fork_fds_ok s H Hl) as Hw. apply wp_run in Hw as (c & s' & E & _ & _ & Hs). eauto.
  - pose proof (spawn_fds_ok s H tty_f Hl Hf) as Hw. apply wp_run in Hw as (c & s' & E & _ & _ & Hs). eauto.
  - pose proof (reap_fds_ok s H dead Hd) as Hw. apply wp_run in Hw as ([] & s' & E & _ & Hs). eauto.
Qed.

Lemma children_inherit_descriptors_witness : exists t s', spawn_fds 512 boot_files = Some (t, s') /\ slot s' t 0 = Some (0, 0).
Proof.
  destruct (children_inherit_descriptors boot_files 512 0 freach_boot) as (_ & (t & s' & E & Hs) & _); [simpl; lia|reflexivity|simpl; lia|].
  exists t, s'. split; [exact E|]. rewrite Hs by lia. reflexivity.
Defined.
