(* ===== verification/BlockDev.v ===== *)
(** file_system/block_device_types.h: block devices, as the buffer cache and
    the disk device nodes use them. The interface is a class of operations with
    its laws; an image in memory implements it. *)

From S2P Require Import Prelude.

(** * Block devices *)

(** [bdev->read] and [bdev->write], in sectors; [None] is a transfer the device
    cannot perform. *)
Class BlockDevice (D : Type) := {
  sector_size : Z;
  dev_read : D -> Z -> Z -> option (list Z);
  dev_write : D -> Z -> list Z -> option D }.

(** What its clients rely on: a transfer inside the device succeeds, a read
    returns what was last written to those sectors. *)
Class DeviceLaws (D : Type) `{BlockDevice D} := {
  dev_has : D -> Z -> Z -> Prop;
  sector_pos : 0 < sector_size;
  dev_read_ok : forall d lba n, dev_has d lba n -> exists l, dev_read d lba n = Some l /\ Z.of_nat (length l) = n * sector_size;
  dev_write_ok : forall d lba n l, dev_has d lba n -> Z.of_nat (length l) = n * sector_size ->
    exists d', dev_write d lba l = Some d' /\ dev_read d' lba n = Some l /\
      (forall lba' n', lba' + n' <= lba \/ lba + n <= lba' -> dev_read d' lba' n' = dev_read d lba' n') /\
      (forall lba' n', dev_has d lba' n' -> dev_has d' lba' n') }.

(** * A device held in memory *)

(** Sectors of [ss] bytes of a flat image. *)
Section Ram.
Context (ss : Z) (Hss : 0 < ss).

Definition ram_has (d : list Z) (lba n : Z) : Prop := 0 <= lba /\ 0 <= n /\ (lba + n) * ss <= Z.of_nat (length d).
Definition ram_ok (d : list Z) (lba n : Z) : bool := (0 <=? lba) && (0 <=? n) && ((lba + n) * ss <=? Z.of_nat (length d)).
Definition ram_read (d : list Z) (lba n : Z) : option (list Z) :=
  if ram_ok d lba n then Some (take (Z.to_nat (n * ss)) (drop (Z.to_nat (lba * ss)) d)) else None.
Definition ram_write (d : list Z) (lba : Z) (l : list Z) : option (list Z) :=
  if ram_ok d lba (Z.of_nat (length l) / ss)
  then Some (take (Z.to_nat (lba * ss)) d ++ l ++ drop (Z.to_nat (lba * ss) + length l) d) else None.

Lemma ram_ok_has d lba n : ram_ok d lba n = true <-> ram_has d lba n.
Proof. unfold ram_ok, ram_has. rewrite !andb_true_iff, !Z.leb_le. tauto. Qed.

Definition RamDisk : BlockDevice (list Z) := {| sector_size := ss; dev_read := ram_read; dev_write := ram_write |}.

(** Overwriting [l] at [a]. *)
Definition splice (d : list Z) (a : nat) (l : list Z) : list Z := take a d ++ l ++ drop (a + length l) d.

Lemma splice_length d a l : (a + length l <= length d)%nat -> length (splice d a l) = length d.
Proof. intros. unfold splice. rewrite !length_app, length_take, length_drop. lia. Qed.

Lemma splice_same d a l : (a + length l <= length d)%nat -> take (length l) (drop a (splice d a l)) = l.
Proof.
  intros. unfold splice. rewrite drop_app_length' by (rewrite length_take; lia). apply take_app_length.
Qed.

Lemma splice_other d a l m n : (a + length l <= length d)%nat -> (m + n <= a \/ a + length l <= m)%nat ->
  take n (drop m (splice d a l)) = take n (drop m d).
Proof.
  intros Hd [Hm|Hm]; unfold splice.
  - rewrite drop_app_le by (rewrite length_take; lia). rewrite take_app_le by (rewrite length_drop, length_take; lia).
    rewrite !take_drop_commute, take_take. do 2 f_equal. lia.
  - rewrite drop_app_ge by (rewrite length_take; lia). rewrite drop_app_ge by (rewrite length_take; lia).
    rewrite drop_drop, length_take. do 2 f_equal. lia.
Qed.

Lemma ram_nat d lba n : ram_has d lba n -> (Z.to_nat (lba * ss) + Z.to_nat (n * ss) <= length d)%nat.
Proof using Hss. unfold ram_has. intros. nia. Qed.

Definition RamDiskLaws : @DeviceLaws (list Z) RamDisk.
Proof using Hss.
  refine (@Build_DeviceLaws _ RamDisk ram_has Hss _ _).
  - intros d lba n H. pose proof (ram_nat d lba n H). simpl. unfold ram_read. rewrite (proj2 (ram_ok_has d lba n) H).
    eexists. split; [reflexivity|]. rewrite length_take, length_drop. destruct H as (? & ? & ?). nia.
  - intros d lba n l H Hl. pose proof (ram_nat d lba n H) as Hn. simpl in *. unfold ram_write. rewrite Hl, Z.div_mul by lia.
    rewrite (proj2 (ram_ok_has d lba n) H). fold (splice d (Z.to_nat (lba * ss)) l).
    assert (El : length l = Z.to_nat (n * ss)) by lia.
    assert (Hfit : (Z.to_nat (lba * ss) + length l <= length d)%nat) by lia.
    eexists. split; [reflexivity|]. assert (Hok : forall lba' n', ram_ok (splice d (Z.to_nat (lba * ss)) l) lba' n' = ram_ok d lba' n').
    { intros. unfold ram_ok. now rewrite splice_length. }
    split_and!.
    + unfold ram_read. rewrite Hok, (proj2 (ram_ok_has d lba n) H), <- El. f_equal. now apply splice_same.
    + intros lba' n' Hdis. unfold ram_read. rewrite Hok. destruct (ram_ok d lba' n') eqn:E; [|reflexivity]. f_equal. apply splice_other; [exact Hfit|].
      apply ram_ok_has in E. unfold ram_has in *. nia.
    + intros lba' n'. rewrite <- !ram_ok_has. now rewrite Hok.
Defined.
End Ram.
