(* ===== verification/Buffer.v ===== *)
(** file_system/blocks_buffer.c: the buffer cache. Blocks of one mounted file
    system are cached in nodes that are at once on a hash chain (by block
    number) and on a doubly linked list ordered by use. The nodes are a store
    with explicit links; block buffers are pages; the device is any instance of
    [BlockDevice]. [bread] is also given as its two halves, what it does under
    the cache lock and the device read after it. *)

From S2P Require Import Prelude BlockDev.

(** * State *)

Record buffer_node_t := Node {
  is_valid : bool; is_dirty : bool; block_number : Z; data : Z; ref_count : Z;
  prev : Z; next : Z; hash_next : Z }.
Definition set_valid v n := Node v (is_dirty n) (block_number n) (data n) (ref_count n) (prev n) (next n) (hash_next n).
Definition set_dirty v n := Node (is_valid n) v (block_number n) (data n) (ref_count n) (prev n) (next n) (hash_next n).
Definition set_block v n := Node (is_valid n) (is_dirty n) v (data n) (ref_count n) (prev n) (next n) (hash_next n).
Definition set_data v n := Node (is_valid n) (is_dirty n) (block_number n) v (ref_count n) (prev n) (next n) (hash_next n).
Definition set_refs v n := Node (is_valid n) (is_dirty n) (block_number n) (data n) v (prev n) (next n) (hash_next n).
Definition set_prev v n := Node (is_valid n) (is_dirty n) (block_number n) (data n) (ref_count n) v (next n) (hash_next n).
Definition set_next v n := Node (is_valid n) (is_dirty n) (block_number n) (data n) (ref_count n) (prev n) v (hash_next n).
Definition set_hash_next v n := Node (is_valid n) (is_dirty n) (block_number n) (data n) (ref_count n) (prev n) (next n) v.

Definition BUFFER_CACHE_SIZE : Z := 512.
Definition BUFFER_CACHE_CAP : Z := 4096.

(** [kmalloc] zeroes what it returns. *)
Definition zero_node : buffer_node_t := Node false false 0 0 0 0 0 0.

(** The fields of the superblock the cache uses. *)
Record superblock_t := Sb { block_size : Z; pages_in_block : Z; start_lba : Z }.

Record bcache (D : Type) := Bc {
  nodes : gmap Z buffer_node_t;
  hash_table : list Z;
  lru_head : Z;
  lru_tail : Z;
  size : Z;
  capacity : Z;
  lock : bool;
  pages : gmap Z (list Z);       (** the block buffers *)
  disk : D }.
Arguments Bc {_}. Arguments nodes {_}. Arguments hash_table {_}. Arguments lru_head {_}. Arguments lru_tail {_}.
Arguments size {_}. Arguments capacity {_}. Arguments lock {_}. Arguments pages {_}. Arguments disk {_}.

Section Setters.
Context {D : Type}.
Implicit Types (s : bcache D).
Definition set_nodes v s := Bc v (hash_table s) (lru_head s) (lru_tail s) (size s) (capacity s) (lock s) (pages s) (disk s).
Definition set_hash_table v s := Bc (nodes s) v (lru_head s) (lru_tail s) (size s) (capacity s) (lock s) (pages s) (disk s).
Definition set_lru_head v s := Bc (nodes s) (hash_table s) v (lru_tail s) (size s) (capacity s) (lock s) (pages s) (disk s).
Definition set_lru_tail v s := Bc (nodes s) (hash_table s) (lru_head s) v (size s) (capacity s) (lock s) (pages s) (disk s).
Definition set_size v s := Bc (nodes s) (hash_table s) (lru_head s) (lru_tail s) v (capacity s) (lock s) (pages s) (disk s).
Definition set_lock v s := Bc (nodes s) (hash_table s) (lru_head s) (lru_tail s) (size s) (capacity s) v (pages s) (disk s).
Definition set_pages v s := Bc (nodes s) (hash_table s) (lru_head s) (lru_tail s) (size s) (capacity s) (lock s) v (disk s).
Definition set_disk (v : D) s := Bc (nodes s) (hash_table s) (lru_head s) (lru_tail s) (size s) (capacity s) (lock s) (pages s) v.
End Setters.

Section Cache.
Context {D : Type} `{BlockDevice D} (sb : superblock_t).
Abbreviation B := (M (bcache D)).

(** [p->field] and [p->field = v] *)
Definition nget {A} (p : Z) (f : buffer_node_t -> A) : B A := let* s := get in of_option (f <$> nodes s !! p).
Definition nset (p : Z) (f : buffer_node_t -> buffer_node_t) : B unit :=
  let* s := get in
  let* n := of_option (nodes s !! p) in
  modify (set_nodes (<[p := f n]> (nodes s))).

(** The cache's mutex: a task that finds it held does not get past this call. *)
Definition mutex_lock : B unit := let* b := gets lock in if b then undef else modify (set_lock true).
Definition mutex_unlock : B unit := modify (set_lock false).

(** * Device transfers *)

Definition EXT2SectorsInBlock : Z := wrap32 (block_size sb / sector_size).
Definition EXT2BlockToLba (block_idx : Z) : Z :=
  let sectors_per_block := wrap32 (block_size sb / sector_size) in
  wrap64 (start_lba sb + wrap32 (block_idx * sectors_per_block)).

(** Into and out of the buffer at [buf]. *)
Definition EXT2ReadBlocks (block_idx count buf : Z) : B Z :=
  if (buf =? 0) || (count =? 0) then ret 1 else
  let* s := get in
  let* l := of_option (dev_read (disk s) (EXT2BlockToLba block_idx) (wrap32 (count * EXT2SectorsInBlock))) in
  modify (λ s, set_pages (<[buf := l]> (pages s)) s);;
  ret 0.
Definition EXT2WriteBlocks (block_idx count buf : Z) : B Z :=
  if (buf =? 0) || (count =? 0) then ret 1 else
  let* s := get in
  let* l := of_option (pages s !! buf) in
  let* d := of_option (dev_write (disk s) (EXT2BlockToLba block_idx) l) in
  modify (set_disk d);;
  ret 0.

(** * The two lists *)

Definition DeleteNodeFromLRU (node : Z) : B unit :=
  if node =? 0 then ret tt else
  let* pv := nget node prev in
  let* nx := nget node next in
  (if negb (pv =? 0) then nset pv (set_next nx) else modify (set_lru_tail nx));;
  (if negb (nx =? 0) then nset nx (set_prev pv) else modify (set_lru_head pv)).

Definition bucket_get (i : Z) : B Z := let* s := get in of_option (arr_get (hash_table s) i).
Definition bucket_set (i v : Z) : B unit :=
  let* s := get in let* t := of_option (arr_set (hash_table s) i v) in modify (set_hash_table t).

Definition delete_hash_step (node hash_idx : Z) (v : Z * Z) : B (Z * Z + unit) :=
  let '(current, pv) := v in
  if current =? 0 then ret (inr tt) else
  let* nx := nget current hash_next in
  if current =? node then
    (if negb (pv =? 0) then nset pv (set_hash_next nx) else bucket_set hash_idx nx);; ret (inr tt)
  else ret (inl (nx, current)).

(** Chains are at most as long as the cache. *)
Definition chain_fuel : nat := S (Z.to_nat BUFFER_CACHE_CAP).

Definition DeleteNodeFromHash (node : Z) : B unit :=
  if node =? 0 then ret tt else
  let* b := nget node block_number in
  let hash_idx := b mod BUFFER_CACHE_SIZE in
  let* current := bucket_get hash_idx in
  loop chain_fuel (delete_hash_step node hash_idx) (current, 0).

Definition AddNodeToLRUHead (node : Z) : B unit :=
  if node =? 0 then ret tt else
  let* h := gets lru_head in
  if h =? node then ret tt else
  nset node (set_prev h);;
  nset node (set_next 0);;
  when (negb (h =? 0)) (nset h (set_next node));;
  modify (set_lru_head node);;
  let* t := gets lru_tail in
  when (t =? 0) (modify (set_lru_tail node)).

Definition SwitchNodeToLRUHead (node : Z) : B unit :=
  let* h := gets lru_head in
  if (node =? 0) || (h =? node) then ret tt else
  DeleteNodeFromLRU node;;
  AddNodeToLRUHead node.

(** * Reading a block *)

(** The search of [bread]: a hit, or the last invalid node seen. *)
Definition bread_find_step (block : Z) (v : Z * Z) : B (Z * Z + (Z + Z)) :=
  let '(node, avi) := v in
  if node =? 0 then ret (inr (inr avi)) else
  let* valid := nget node is_valid in
  let avi := if negb valid then node else avi in
  let* b := nget node block_number in
  if (b =? block) && valid then ret (inr (inl node)) else
  let* nx := nget node hash_next in
  ret (inl (nx, avi)).

(** The least recently used node without references. *)
Definition victim_step (node : Z) : B (Z + Z) :=
  if node =? 0 then ret (inr 0) else
  let* r := nget node ref_count in
  if 0 <? r then let* nx := nget node next in ret (inl nx) else ret (inr node).

(** Making room: true unless every node is in use. *)
Definition evict : B bool :=
  let* t := gets lru_tail in
  let* del_node := loop chain_fuel victim_step t in
  if del_node =? 0 then ret false else
  let* dirty := nget del_node is_dirty in
  let* b := nget del_node block_number in
  let* d := nget del_node data in
  when dirty (let* _ := EXT2WriteBlocks b 1 d in ret tt);;
  modify (λ s, set_pages (delete d (pages s)) s);;
  DeleteNodeFromLRU del_node;;
  DeleteNodeFromHash del_node;;
  modify (λ s, set_nodes (delete del_node (nodes s)) s);;
  ret true.

(** What [bread] does up to releasing the lock. [page] is what AddKernelPages
    returns and [junk] what the new pages hold; [kmalloc] picks an address given
    the nodes in use. The result is the buffer and whether it still has to be
    read; [kerror] reports and returns. *)
Definition bread_locked (kmalloc : gmap Z buffer_node_t -> Z) (block page : Z) (junk : list Z) : B (Z * bool) :=
  let hash_idx := block mod BUFFER_CACHE_SIZE in
  mutex_lock;;
  let* first := bucket_get hash_idx in
  let* r := loop chain_fuel (bread_find_step block) (first, 0) in
  match r with
  | inl hit =>
      let* d := nget hit data in
      let* rc := nget hit ref_count in
      nset hit (set_refs (wrap64 (rc + 1)));;
      SwitchNodeToLRUHead hit;;
      mutex_unlock;;
      ret (d, false)
  | inr avi =>
      if page =? 0 then mutex_unlock;; ret (0, false) else
      modify (λ s, set_pages (<[page := junk]> (pages s)) s);;
      let* target :=
        if avi =? 0 then
          let* n := gets size in let* cap := gets capacity in
          let* room := if n =? cap then evict else modify (set_size (wrap64 (n + 1)));; ret true in
          if negb room then ret 0 else
          (let* node := gets (λ s, kmalloc (nodes s)) in
           modify (λ s, set_nodes (<[node := zero_node]> (nodes s)) s);;
           let* h := bucket_get hash_idx in
           nset node (set_hash_next h);;
           bucket_set hash_idx node;;
           AddNodeToLRUHead node;;
           ret node)
        else ret avi in
      if target =? 0 then ret (0, false) else
      (nset target (set_valid true);;
       nset target (set_block block);;
       nset target (set_data page);;
       nset target (set_refs 1);;
       SwitchNodeToLRUHead target;;
       mutex_unlock;;
       ret (page, true))
  end.

Definition bread (kmalloc : gmap Z buffer_node_t -> Z) (block page : Z) (junk : list Z) : B Z :=
  let* r := bread_locked kmalloc block page junk in
  let '(d, fill) := r in
  if fill then let* _ := EXT2ReadBlocks block 1 d in ret d else ret d.

(** * Releasing, marking, flushing *)

(** [while (node != NULL) { if (it is this block and valid) ...; node = hash_next }] *)
Definition find_step (want_valid : bool) (block node : Z) : B (Z + Z) :=
  if node =? 0 then ret (inr 0) else
  let* b := nget node block_number in
  let* v := nget node is_valid in
  if (b =? block) && eqb v want_valid then ret (inr node) else
  let* nx := nget node hash_next in ret (inl nx).

Definition find_node (want_valid : bool) (block : Z) : B Z :=
  let* first := bucket_get (block mod BUFFER_CACHE_SIZE) in
  loop chain_fuel (find_step want_valid block) first.

Definition brelse (block : Z) : B unit :=
  mutex_lock;;
  let* node := find_node true block in
  when (negb (node =? 0)) (
    let* r := nget node ref_count in
    when (0 <? r) (nset node (set_refs (r - 1))));;
  mutex_unlock.

Definition bwrite (block : Z) : B unit :=
  mutex_lock;;
  let* node := find_node true block in
  when (negb (node =? 0)) (nset node (set_dirty true);; SwitchNodeToLRUHead node);;
  mutex_unlock.

(** [if (node->is_dirty) { EXT2WriteBlocks(...); node->is_dirty = false; }] *)
Definition clean_node (node : Z) : B unit :=
  let* dirty := nget node is_dirty in
  when dirty (
    let* b := nget node block_number in
    let* d := nget node data in
    let* _ := EXT2WriteBlocks b 1 d in
    nset node (set_dirty false)).

Definition bflush (block : Z) : B unit :=
  mutex_lock;;
  let* node := find_node true block in
  when (negb (node =? 0)) (clean_node node;; SwitchNodeToLRUHead node);;
  mutex_unlock.

Definition flush_step (node : Z) : B (Z + unit) :=
  if node =? 0 then ret (inr tt) else
  clean_node node;;
  let* pv := nget node prev in ret (inl pv).

Definition bflush_all : B unit :=
  mutex_lock;;
  let* h := gets lru_head in
  loop chain_fuel flush_step h;;
  mutex_unlock.

Definition binvalidate (block : Z) : B unit :=
  mutex_lock;;
  let* node := find_node true block in
  when (negb (node =? 0)) (
    nset node (set_dirty false);;
    nset node (set_valid false);;
    DeleteNodeFromHash node;;
    DeleteNodeFromLRU node;;
    let* d := nget node data in
    modify (λ s, set_pages (delete d (pages s)) s);;
    modify (λ s, set_nodes (delete node (nodes s)) s);;
    modify (λ s, set_size (wrap64 (size s - 1)) s));;
  mutex_unlock.

Definition bclean (block : Z) : B unit :=
  mutex_lock;;
  let* node := find_node false block in
  when (negb (node =? 0)) (
    clean_node node;;
    DeleteNodeFromHash node;;
    DeleteNodeFromLRU node;;
    modify (λ s, set_nodes (delete node (nodes s)) s));;
  mutex_unlock.

(** Writing one node back and freeing it, as [bclean_all] does for each. *)
Definition clean_out (p : Z) : B unit :=
  let* dirty := nget p is_dirty in
  let* b := nget p block_number in
  let* d := nget p data in
  when dirty (let* _ := EXT2WriteBlocks b 1 d in ret tt);;
  modify (λ s, set_pages (delete d (pages s)) s);;
  modify (λ s, set_nodes (delete p (nodes s)) s).

(** [while (p->prev != NULL)]: [p] itself is not checked. *)
Definition clean_all_step (p : Z) : B (Z + Z) :=
  let* pv := nget p prev in
  if pv =? 0 then ret (inr p) else clean_out p;; ret (inl pv).

Definition bclean_all : B unit :=
  mutex_lock;;
  let* h := gets lru_head in
  let* p := loop chain_fuel clean_all_step h in
  clean_out p;;
  modify (λ s, set_hash_table (replicate (length (hash_table s)) 0) s);;
  modify (set_lru_head 0);;
  modify (set_lru_tail 0);;
  modify (set_size 0);;
  mutex_unlock.

(** A client stores through the pointer [bread] gave it. *)
Definition poke (buf : Z) (l : list Z) : B unit := modify (λ s, set_pages (<[buf := l]> (pages s)) s).
End Cache.

(** The cache at boot. *)
Definition empty_cache {D} (d : D) : bcache D :=
  Bc ∅ (replicate (Z.to_nat BUFFER_CACHE_SIZE) 0) 0 0 0 BUFFER_CACHE_CAP false ∅ d.
