(* ===== verification/BufferLists.v ===== *)
(** The buffer cache's linked lists: what the use-ordered list and the hash
    chains stand for, and the list operations of Buffer.v on them. *)

From S2P Require Import Prelude Buffer.

(** * Linked lists through a field *)

Definition hdz (b : Z) (l : list Z) : Z := match l with [] => b | x :: _ => x end.
Definition lastz (a : Z) (l : list Z) : Z := List.last l a.

(** [N x] is the link of [x]: each element links to the next, the last to [b]. *)
Fixpoint chain (N : Z -> option Z) (l : list Z) (b : Z) : Prop :=
  match l with [] => True | x :: l => N x = Some (hdz b l) /\ chain N l b end.
(** Backwards: the first links to [a]. *)
Fixpoint bchain (P : Z -> option Z) (a : Z) (l : list Z) : Prop :=
  match l with [] => True | x :: l => P x = Some a /\ bchain P x l end.

Lemma lastz_snoc a l x : lastz a (l ++ [x]) = x.
Proof. apply last_last. Qed.

Lemma lastz_in a l : l <> [] -> lastz a l ∈ l.
Proof.
  intros Hl. destruct (exists_last Hl) as (l0 & y & ->). rewrite lastz_snoc. apply elem_of_app. right. now apply list_elem_of_singleton.
Qed.

Lemma lastz_app a l x l' : lastz a (l ++ x :: l') = lastz x l'.
Proof.
  revert a. induction l as [|y l IH]; intros a; simpl.
  - unfold lastz. simpl. destruct l' as [|z l']; [reflexivity|]. change (List.last (x :: z :: l') a) with (List.last (z :: l') a).
    destruct (exists_last (l := z :: l') ltac:(easy)) as (l0 & w & ->). now rewrite !last_last.
  - rewrite <- (IH a). unfold lastz. destruct (l ++ x :: l') eqn:E; [now destruct l|reflexivity].
Qed.

Section Chains.
Implicit Types (N P : Z -> option Z).

Lemma chain_ext N N' l b : (forall x, x ∈ l -> N' x = N x) -> chain N l b -> chain N' l b.
Proof.
  induction l as [|x l IH]; simpl; [easy|]. intros E [Hx Hl]. split; [rewrite E; [exact Hx|left]|].
  apply IH; [|exact Hl]. intros y Hy. apply E. now right.
Qed.

Lemma bchain_ext P P' a l : (forall x, x ∈ l -> P' x = P x) -> bchain P a l -> bchain P' a l.
Proof.
  revert a. induction l as [|x l IH]; simpl; [easy|]. intros a E [Hx Hl]. split; [rewrite E; [exact Hx|left]|].
  apply IH; [|exact Hl]. intros y Hy. apply E. now right.
Qed.

Lemma chain_app N l1 l2 b : chain N (l1 ++ l2) b <-> chain N l1 (hdz b l2) /\ chain N l2 b.
Proof.
  induction l1 as [|x l1 IH]; simpl; [tauto|]. rewrite IH.
  replace (hdz b (l1 ++ l2)) with (hdz (hdz b l2) l1) by (destruct l1; reflexivity). tauto.
Qed.

Lemma bchain_app P a l1 l2 : bchain P a (l1 ++ l2) <-> bchain P a l1 /\ bchain P (lastz a l1) l2.
Proof.
  revert a. induction l1 as [|x l1 IH]; intros a; [simpl; unfold lastz; simpl; tauto|]. cbn [bchain app]. rewrite IH.
  replace (lastz a (x :: l1)) with (lastz x l1) by (symmetry; apply (lastz_app a [] x l1)). tauto.
Qed.

(** Taking [x] out: only the link of its predecessor changes. *)
Lemma chain_remove N N' l1 x l2 b : NoDup (l1 ++ x :: l2) -> chain N (l1 ++ x :: l2) b ->
  (l1 <> [] -> N' (lastz 0 l1) = Some (hdz b l2)) ->
  (forall y, y ∈ l1 ++ l2 -> (l1 <> [] -> y <> lastz 0 l1) -> N' y = N y) -> chain N' (l1 ++ l2) b.
Proof.
  intros Nd Hc Hlast Hsame. apply NoDup_hole in Nd as (_ & _ & Nd). apply list.NoDup_app in Nd as (N1 & N12 & _).
  apply chain_app in Hc as [H1 [_ H2]]. apply chain_app. split.
  - destruct (decide (l1 = [])) as [->|Hne]; [exact I|]. destruct (exists_last Hne) as (l0 & y & ->).
    apply chain_app in H1 as [H0 _]. apply chain_app. rewrite lastz_snoc in *. apply list.NoDup_app in N1 as (_ & Ny & _).
    split; [|split; [now apply Hlast|exact I]]. eapply chain_ext; [|exact H0]. intros z Hz. apply Hsame; [set_solver|].
    intros _ ->. apply (Ny y Hz). now apply list_elem_of_singleton.
  - eapply chain_ext; [|exact H2]. intros y Hy. apply Hsame; [set_solver|]. intros Hne ->.
    apply (N12 (lastz 0 l1)); [now apply lastz_in|exact Hy].
Qed.

Lemma bchain_remove P P' l1 x l2 a : NoDup (l1 ++ x :: l2) -> bchain P a (l1 ++ x :: l2) ->
  (l2 <> [] -> P' (hdz 0 l2) = Some (lastz a l1)) ->
  (forall y, y ∈ l1 ++ l2 -> (l2 <> [] -> y <> hdz 0 l2) -> P' y = P y) -> bchain P' a (l1 ++ l2).
Proof.
  intros Nd Hc Hfirst Hsame. apply NoDup_hole in Nd as (_ & _ & Nd). apply list.NoDup_app in Nd as (_ & N12 & N2).
  apply bchain_app in Hc as [H1 [_ H2]]. apply bchain_app. split.
  - eapply bchain_ext; [|exact H1]. intros y Hy. apply Hsame; [set_solver|]. intros Hne ->. apply (N12 _ Hy).
    destruct l2; [easy|left].
  - destruct l2 as [|z l2]; [exact I|]. simpl in *. destruct H2 as [_ H2]. split; [now apply Hfirst|].
    apply list.NoDup_cons in N2 as [Nz _]. eapply bchain_ext; [|exact H2]. intros y Hy. apply Hsame; [set_solver|].
    intros _ ->. easy.
Qed.
End Chains.

(** * The list in order of use *)

Abbreviation nx nds := (λ x, next <$> (nds : gmap Z buffer_node_t) !! x).
Abbreviation pv nds := (λ x, prev <$> (nds : gmap Z buffer_node_t) !! x).
Abbreviation hx nds := (λ x, hash_next <$> (nds : gmap Z buffer_node_t) !! x).

(** Oldest first: [tail] is the first of [L], [head] the last. *)
Record lruq (nds : gmap Z buffer_node_t) (head tail : Z) (L : list Z) : Prop := {
  lq_next : chain (nx nds) L 0;
  lq_prev : bchain (pv nds) 0 L;
  lq_nodup : NoDup L;
  lq_nz : 0 ∉ L;
  lq_tail : tail = hdz 0 L;
  lq_head : head = lastz 0 L }.

(** A node without its place in the list of use. *)
Definition core (n : buffer_node_t) : buffer_node_t := set_prev 0 (set_next 0 n).
Definition same_core (nds nds' : gmap Z buffer_node_t) : Prop := forall x, core <$> nds' !! x = core <$> nds !! x.

Lemma same_core_refl nds : same_core nds nds.
Proof. easy. Qed.

Lemma same_core_trans a b c : same_core a b -> same_core b c -> same_core a c.
Proof. intros H1 H2 x. now rewrite H2, H1. Qed.

Lemma same_core_insert nds nds' x n n' : nds !! x = Some n -> core n' = core n -> same_core nds nds' -> same_core nds (<[x := n']> nds').
Proof.
  intros Hx Hc H y. destruct (decide (x = y)) as [<-|]; [rewrite lookup_insert_eq, Hx; simpl; now rewrite Hc|].
  rewrite lookup_insert_ne by assumption. apply H.
Qed.

Lemma same_core_some nds nds' x n : same_core nds nds' -> nds !! x = Some n -> exists n', nds' !! x = Some n' /\ core n' = core n.
Proof. intros H Hx. specialize (H x). rewrite Hx in H. destruct (nds' !! x) as [n'|]; [|easy]. exists n'. split; [reflexivity|]. now apply (inj Some) in H. Qed.

Lemma same_core_none nds nds' x : same_core nds nds' -> nds !! x = None -> nds' !! x = None.
Proof. intros H Hx. specialize (H x). rewrite Hx in H. now destruct (nds' !! x). Qed.

Lemma same_core_sym nds nds' : same_core nds nds' -> same_core nds' nds.
Proof. intros H x. symmetry. apply H. Qed.

Lemma same_core_hx nds nds' x : same_core nds nds' -> hx nds' x = hx nds x.
Proof.
  intros H. specialize (H x). simpl. destruct (nds !! x) as [n|], (nds' !! x) as [n'|]; simpl in *; try easy.
  apply (inj Some) in H. f_equal. apply (f_equal hash_next) in H. exact H.
Qed.

Section Ops.
Context {D : Type}.
Implicit Types (s : bcache D).

(** [s] with its list of use replaced. *)
Definition relru (nds : gmap Z buffer_node_t) (h t : Z) s : bcache D := set_lru_tail t (set_lru_head h (set_nodes nds s)).

Lemma wp_nget {A} p (f : buffer_node_t -> A) n (Q : A -> bcache D -> Prop) s : nodes s !! p = Some n -> Q (f n) s -> wp (nget p f) Q s.
Proof. intros E HQ. unfold nget. apply wp_bind, wp_get. rewrite E. exact HQ. Qed.

Lemma wp_nset p f n (Q : unit -> bcache D -> Prop) s : nodes s !! p = Some n -> Q tt (set_nodes (<[p := f n]> (nodes s)) s) -> wp (nset p f) Q s.
Proof. intros E HQ. unfold nset. apply wp_bind, wp_get, wp_bind. eapply wp_of_option; [exact E|]. apply wp_modify. exact HQ. Qed.

Lemma wp_bucket_get i v (Q : Z -> bcache D -> Prop) s : arr_get (hash_table s) i = Some v -> Q v s -> wp (bucket_get i) Q s.
Proof. intros E HQ. unfold bucket_get. apply wp_bind, wp_get. rewrite E. exact HQ. Qed.

Lemma wp_bucket_set i v (Q : unit -> bcache D -> Prop) s : 0 <= i < Z.of_nat (length (hash_table s)) ->
  Q tt (set_hash_table (<[Z.to_nat i := v]> (hash_table s)) s) -> wp (bucket_set i v) Q s.
Proof. intros Hi HQ. unfold bucket_set. apply wp_bind, wp_get, wp_bind. eapply wp_of_option; [now apply arr_set_lt|]. apply wp_modify. exact HQ. Qed.

Lemma relru_same s : relru (nodes s) (lru_head s) (lru_tail s) s = s.
Proof. now destruct s. Qed.

Lemma bchain_mem P a l x : bchain P a l -> x ∈ l -> is_Some (P x).
Proof. revert a. induction l as [|y l IH]; intros a; simpl; [set_solver|]. intros [Hy Hl] [->|Hx]%elem_of_cons; eauto. Qed.

Lemma lruq_mem nds h t L x : lruq nds h t L -> x ∈ L -> is_Some (nds !! x).
Proof. intros H Hx. destruct (bchain_mem _ _ _ x (lq_prev _ _ _ _ H) Hx) as [p Hp]. destruct (nds !! x); [eauto|easy]. Qed.

(** The list without [x]. *)
Lemma delete_lru_spec s l1 x l2 : lruq (nodes s) (lru_head s) (lru_tail s) (l1 ++ x :: l2) ->
  wp (DeleteNodeFromLRU x) (λ _ s', exists nds h t, s' = relru nds h t s /\ lruq nds h t (l1 ++ l2) /\ same_core (nodes s) nds) s.
Proof.
  intros [Hn Hp Nd Hz Ht Hh]. destruct (NoDup_hole _ _ _ Nd) as (Nx1 & Nx2 & N12).
  assert (Hx0 : x <> 0) by (intros ->; apply Hz; set_solver).
  pose proof (proj2 (proj1 (chain_app _ l1 (x :: l2) 0) Hn)) as [Hnx _].
  pose proof (proj2 (proj1 (bchain_app _ 0 l1 (x :: l2)) Hp)) as [Hpx _].
  destruct (nodes s !! x) as [n|] eqn:En; simpl in Hnx, Hpx; [|easy]. injection Hnx as Hnx. injection Hpx as Hpx.
  unfold DeleteNodeFromLRU. destruct (Z.eqb_spec x 0); [easy|].
  apply wp_bind. eapply wp_nget; [exact En|]. apply wp_bind. eapply wp_nget; [exact En|]. rewrite Hnx, Hpx.
  set (a := lastz 0 l1). set (b := hdz 0 l2).
  assert (Ha : l1 = [] /\ a = 0 \/ l1 <> [] /\ a <> 0 /\ a ∈ l1 /\ exists m, nodes s !! a = Some m).
  { destruct (decide (l1 = [])) as [->|Hne]; [left; auto|right]. pose proof (lastz_in 0 l1 Hne) as Hin.
    split_and!; auto; [intros E; apply Hz; rewrite <- E; set_solver|].
    destruct (bchain_mem _ _ _ a Hp ltac:(set_solver)) as [q Hq]. destruct (nodes s !! a); [eauto|easy]. }
  assert (Hb : l2 = [] /\ b = 0 \/ l2 <> [] /\ b <> 0 /\ b ∈ l2 /\ exists m, nodes s !! b = Some m).
  { destruct l2 as [|y l2]; [left; auto|right]. simpl in b. split_and!; auto; [intros E; apply Hz; rewrite <- E; set_solver|set_solver|].
    destruct (bchain_mem _ _ _ b Hp ltac:(set_solver)) as [q Hq]. destruct (nodes s !! b); [eauto|easy]. }
  set (nds1 := if decide (l1 = []) then nodes s else match nodes s !! a with Some m => <[a := set_next b m]> (nodes s) | None => nodes s end).
  set (nds2 := if decide (l2 = []) then nds1 else match nds1 !! b with Some m => <[b := set_prev a m]> nds1 | None => nds1 end).
  apply wp_bind.
  apply (wp_mono _ (λ _ s', s' = relru nds1 (lru_head s) (if decide (l1 = []) then b else lru_tail s) s)).
  { unfold nds1. destruct Ha as [(-> & ->)|(Hne & Ha0 & _ & m & Em)].
    - simpl. apply wp_modify. now destruct s.
    - rewrite !decide_False by exact Hne. rewrite (proj2 (Z.eqb_neq a 0) Ha0). simpl. eapply wp_nset; [exact Em|]. rewrite Em. now destruct s. }
  intros _ s1 ->.
  assert (Hb1 : l2 <> [] -> exists m, nds1 !! b = Some m).
  { intros Hne. destruct Hb as [(-> & _)|(_ & _ & _ & m & Em)]; [easy|]. unfold nds1. destruct (decide (l1 = [])); [eauto|].
    destruct (nodes s !! a) as [ma|]; [|eauto]. destruct (decide (a = b)) as [->|]; [rewrite lookup_insert_eq|rewrite lookup_insert_ne by assumption]; eauto. }
  assert (Hab : l1 <> [] -> l2 <> [] -> a <> b).
  { intros H1 H2 E. destruct Ha as [[]|(_ & _ & Hin & _)], Hb as [[]|(_ & _ & Hin2 & _)]; try easy.
    apply list.NoDup_app in N12 as (_ & N12 & _). apply (N12 a Hin). now rewrite E. }
  apply (wp_mono _ (λ _ s', s' = relru nds2 (if decide (l2 = []) then a else lru_head s) (if decide (l1 = []) then b else lru_tail s) s)).
  { unfold nds2. destruct Hb as [(-> & Eb)|(Hne & Hb0 & _)].
    - rewrite Eb. simpl. apply wp_modify. now destruct s.
    - rewrite !decide_False by exact Hne. rewrite (proj2 (Z.eqb_neq b 0) Hb0). simpl. destruct (Hb1 Hne) as [m Em].
      eapply wp_nset; [exact Em|]. cbn [relru nodes set_lru_tail set_lru_head set_nodes]. rewrite Em. now destruct s. }
  intros _ s2 ->. exists nds2, (if decide (l2 = []) then a else lru_head s), (if decide (l1 = []) then b else lru_tail s). split; [reflexivity|].
  assert (Hc1 : same_core (nodes s) nds1).
  { unfold nds1. destruct (decide (l1 = [])); [apply same_core_refl|]. destruct (nodes s !! a) as [m|] eqn:Em; [|apply same_core_refl].
    eapply same_core_insert; [exact Em|reflexivity|apply same_core_refl]. }
  assert (Hnx2 : forall y, nx nds2 y = nx nds1 y).
  { intros y. unfold nds2. destruct (decide (l2 = [])); [reflexivity|]. destruct (nds1 !! b) as [m|] eqn:Em; [|reflexivity].
    simpl. destruct (decide (b = y)) as [<-|]; [rewrite lookup_insert_eq, Em|rewrite lookup_insert_ne by assumption]; reflexivity. }
  assert (Hpv1 : forall y, pv nds1 y = pv (nodes s) y).
  { intros y. unfold nds1. destruct (decide (l1 = [])); [reflexivity|]. destruct (nodes s !! a) as [m|] eqn:Em; [|reflexivity].
    simpl. destruct (decide (a = y)) as [<-|]; [rewrite lookup_insert_eq, Em|rewrite lookup_insert_ne by assumption]; reflexivity. }
  split.
  - split; auto.
    + eapply (chain_remove (nx (nodes s))); [exact Nd|exact Hn| |].
      * intros Hne. rewrite Hnx2. unfold nds1. rewrite decide_False by exact Hne. fold a. destruct Ha as [[]|(_ & _ & _ & m & Em)]; [easy|].
        rewrite Em, lookup_insert_eq. reflexivity.
      * intros y Hy Hya. rewrite Hnx2. unfold nds1. destruct (decide (l1 = [])) as [|Hne]; [reflexivity|].
        destruct (nodes s !! a); [|reflexivity]. rewrite lookup_insert_ne; [reflexivity|]. intros E. apply (Hya Hne). now symmetry.
    + eapply (bchain_remove (pv (nodes s))); [exact Nd|exact Hp| |].
      * intros Hne. unfold nds2. rewrite decide_False by exact Hne. fold b. destruct (Hb1 Hne) as [m Em].
        rewrite Em, lookup_insert_eq. reflexivity.
      * intros y Hy Hyb. unfold nds2. destruct (decide (l2 = [])) as [|Hne]; [apply Hpv1|].
        destruct (nds1 !! b); [|apply Hpv1]. rewrite lookup_insert_ne; [apply Hpv1|]. intros E. apply (Hyb Hne). now symmetry.
    + set_solver.
    + rewrite Ht. unfold b. destruct l1; reflexivity.
    + rewrite Hh, lastz_app. unfold a. destruct (decide (l2 = [])) as [->|Hne]; [now rewrite app_nil_r|].
      destruct l2 as [|y l2]; [easy|]. rewrite lastz_app. exact (lastz_app x [] y l2).
  - unfold nds2. destruct (decide (l2 = [])); [exact Hc1|]. destruct (nds1 !! b) as [m|] eqn:Em; [|exact Hc1].
    destruct (same_core_some nds1 (nodes s) b m (same_core_sym _ _ Hc1) Em) as (m0 & E0 & Ec).
    eapply same_core_insert; [exact E0| |exact Hc1]. rewrite Ec. reflexivity.
Qed.

(** The list with a new most recently used node. *)
Lemma add_lru_spec s L x n : lruq (nodes s) (lru_head s) (lru_tail s) L -> x <> 0 -> x ∉ L -> nodes s !! x = Some n ->
  wp (AddNodeToLRUHead x) (λ _ s', exists nds h t, s' = relru nds h t s /\ lruq nds h t (L ++ [x]) /\ same_core (nodes s) nds) s.
Proof.
  intros HL Hx0 HxL En. pose proof HL as [Hn Hp Nd Hz Ht Hh]. unfold AddNodeToLRUHead. destruct (Z.eqb_spec x 0); [easy|].
  apply wp_bind, wp_gets. set (a := lru_head s).
  assert (Ha : L = [] /\ a = 0 \/ L <> [] /\ a <> 0 /\ a ∈ L /\ exists m, nodes s !! a = Some m).
  { unfold a. rewrite Hh. destruct (decide (L = [])) as [->|Hne]; [left; auto|right]. pose proof (lastz_in 0 L Hne) as Hin.
    split_and!; auto; [intros E; apply Hz; rewrite <- E; exact Hin|].
    destruct (lruq_mem _ _ _ _ _ HL Hin) as [m Em]. eauto. }
  assert (Hax : a <> x) by (destruct Ha as [(_ & ->)|(_ & _ & Hin & _)]; congruence).
  rewrite (proj2 (Z.eqb_neq a x) Hax).
  apply wp_bind. eapply wp_nset; [exact En|]. apply wp_bind. eapply wp_nset; [apply lookup_insert_eq|].
  cbn [nodes set_nodes]. rewrite insert_insert_eq. set (n1 := set_next 0 (set_prev a n)). set (nds1 := <[x := n1]> (nodes s)).
  set (nds2 := if decide (L = []) then nds1 else match nodes s !! a with Some m => <[a := set_next x m]> nds1 | None => nds1 end).
  apply wp_bind. apply (wp_mono _ (λ _ s', s' = set_nodes nds2 s)).
  { apply wp_when. unfold nds2. destruct Ha as [(-> & ->)|(Hne & Ha0 & _ & m & Em)]; simpl; [now destruct s|].
    rewrite (proj2 (Z.eqb_neq a 0) Ha0), decide_False by exact Hne. simpl.
    eapply wp_nset; [cbn [nodes set_nodes]; unfold nds1; rewrite lookup_insert_ne by auto; exact Em|]. rewrite Em. now destruct s. }
  intros _ s1 ->. apply wp_bind, wp_modify, wp_bind, wp_gets. cbn [lru_tail set_lru_head set_nodes].
  apply (wp_mono _ (λ _ s', s' = relru nds2 x (hdz x L) s)).
  { apply wp_when. rewrite Ht. destruct L as [|y L]; simpl; [apply wp_modify; now destruct s|].
    destruct (Z.eqb_spec y 0); [exfalso; apply Hz; subst; left|]. destruct s. simpl in *. now subst. }
  intros _ s2 ->. exists nds2, x, (hdz x L). split; [reflexivity|].
  assert (Hc1 : same_core (nodes s) nds1) by (eapply same_core_insert; [exact En|reflexivity|apply same_core_refl]).
  assert (Hc2 : same_core (nodes s) nds2).
  { unfold nds2. destruct (decide (L = [])); [exact Hc1|]. destruct (nodes s !! a) as [m|] eqn:Em; [|exact Hc1].
    eapply same_core_insert; [exact Em|reflexivity|exact Hc1]. }
  assert (Hxn : nds2 !! x = Some n1).
  { unfold nds2. destruct (decide (L = [])); [apply lookup_insert_eq|]. destruct (nodes s !! a); [|apply lookup_insert_eq].
    rewrite lookup_insert_ne by exact Hax. apply lookup_insert_eq. }
  assert (Hother : forall y, y <> x -> y <> a -> nds2 !! y = nodes s !! y).
  { intros y H1 H2. unfold nds2, nds1. destruct (decide (L = [])); [now rewrite lookup_insert_ne by auto|].
    destruct (nodes s !! a); [|now rewrite lookup_insert_ne by auto]. now rewrite !lookup_insert_ne by auto. }
  split; [|exact Hc2]. split.
  - apply chain_app. split; [|simpl; rewrite Hxn; auto].
    destruct (decide (L = [])) as [->|Hne]; [exact I|]. destruct Ha as [[]|(_ & Ha0 & Hain & m & Em)]; [easy|].
    destruct (exists_last Hne) as (L0 & y & ->). rewrite lastz_snoc in Hh. assert (Ey : a = y) by exact Hh.
    apply chain_app in Hn as [Hn0 _]. apply list.NoDup_app in Nd as (_ & Ny & _).
    apply chain_app. split.
    + eapply chain_ext; [|exact Hn0]. intros z Hzin. rewrite Hother; [reflexivity| |].
      * intros ->. apply HxL. set_solver.
      * intros ->. apply (Ny a Hzin). rewrite Ey. now apply list_elem_of_singleton.
    + simpl. split; [|exact I]. unfold nds2. rewrite Em, <- Ey, lookup_insert_eq. reflexivity.
  - apply bchain_app. split; [|simpl; rewrite Hxn; simpl; rewrite <- Hh; auto].
    eapply bchain_ext; [|exact Hp]. intros y Hy. destruct (decide (y = a)) as [->|Hya].
    + unfold nds2. destruct (decide (L = [])) as [->|Hne]; [easy|]. destruct Ha as [[]|(_ & _ & _ & m & Em)]; [easy|].
      rewrite Em, lookup_insert_eq. reflexivity.
    + rewrite Hother; [reflexivity| |exact Hya]. congruence.
  - apply list.NoDup_app. split_and!; auto; [|apply NoDup_singleton]. intros y Hy ->%list_elem_of_singleton. easy.
  - set_solver.
  - destruct L; reflexivity.
  - now rewrite lastz_snoc.
Qed.

(** Moving a node to the front of use. *)
Lemma switch_lru_spec s L x : lruq (nodes s) (lru_head s) (lru_tail s) L -> x ∈ L ->
  wp (SwitchNodeToLRUHead x) (λ _ s', exists nds h t L', s' = relru nds h t s /\ lruq nds h t L' /\ L' ≡ₚ L /\ same_core (nodes s) nds) s.
Proof.
  intros HL Hx. unfold SwitchNodeToLRUHead. apply wp_bind, wp_gets.
  destruct (Z.eqb_spec x 0) as [->|Hx0]; [exfalso; exact (lq_nz _ _ _ _ HL Hx)|]. simpl. destruct (lru_head s =? x).
  { apply wp_ret. exists (nodes s), (lru_head s), (lru_tail s), L. rewrite relru_same. split_and!; auto using same_core_refl. }
  destruct (list_elem_of_split _ _ Hx) as (l1 & l2 & ->). apply wp_bind. eapply wp_mono; [apply (delete_lru_spec s l1 x l2 HL)|].
  intros _ s1 (nds & h & t & -> & H1 & Hc1). pose proof (lq_nodup _ _ _ _ HL) as Nd. apply NoDup_hole in Nd as (Nx1 & Nx2 & _).
  destruct (lruq_mem _ _ _ _ _ HL Hx) as [n En]. destruct (same_core_some _ _ _ _ Hc1 En) as (n' & En' & _).
  eapply wp_mono; [eapply (add_lru_spec (relru nds h t s) (l1 ++ l2) x n'); [exact H1|exact Hx0|set_solver|exact En']|].
  intros _ s2 (nds2 & h2 & t2 & -> & H2 & Hc2). exists nds2, h2, t2, ((l1 ++ l2) ++ [x]). split_and!; auto.
  - rewrite <- app_assoc. apply Permutation_app_head. rewrite Permutation_app_comm. reflexivity.
  - eapply same_core_trans; eauto.
Qed.

(** ** Hash chains *)

Definition rehash (nds : gmap Z buffer_node_t) (tb : list Z) s : bcache D := set_hash_table tb (set_nodes nds s).
Definition same_body (nds nds' : gmap Z buffer_node_t) : Prop := forall y, set_hash_next 0 <$> nds' !! y = set_hash_next 0 <$> nds !! y.

Lemma chain_mem N l b x : chain N l b -> x ∈ l -> is_Some (N x).
Proof. induction l as [|y l IH]; simpl; [set_solver|]. intros [Hy Hl] [->|Hx]%elem_of_cons; eauto. Qed.

Lemma chain_cut N c1 y c2 b : chain N (c1 ++ y :: c2) b -> N y = Some (hdz b c2).
Proof. intros H. apply chain_app in H as [_ [H _]]. exact H. Qed.

Lemma hx_node nds y v : hx nds y = Some v -> exists n, nds !! y = Some n /\ hash_next n = v.
Proof. simpl. destruct (nds !! y) as [n|]; [|easy]. intros [= <-]. eauto. Qed.

Lemma delete_hash_loop s c1 x c2 i : chain (hx (nodes s)) (c1 ++ x :: c2) 0 -> NoDup (c1 ++ x :: c2) -> 0 ∉ c1 ++ x :: c2 ->
  0 <= i < Z.of_nat (length (hash_table s)) -> (length c1 < chain_fuel)%nat ->
  wp (loop chain_fuel (delete_hash_step x i) (hdz x c1, 0))
     (λ _ s', s' = if decide (c1 = []) then set_hash_table (<[Z.to_nat i := hdz 0 c2]> (hash_table s)) s
                   else match nodes s !! lastz 0 c1 with
                        | Some m => set_nodes (<[lastz 0 c1 := set_hash_next (hdz 0 c2) m]> (nodes s)) s
                        | None => s end) s.
Proof.
  intros Hc Nd Hz Hi Hf. assert (Hx0 : x <> 0) by (intros ->; apply Hz; set_solver).
  apply (wp_loop (λ k v s', exists d e, c1 = d ++ e /\ v = (hdz x e, lastz 0 d) /\ k = length e /\ s' = s) (length c1));
    [exists [], c1; auto|exact Hf|].
  intros k v s' (d & e & Ec & -> & -> & ->). unfold delete_hash_step. destruct e as [|y e]; simpl.
  - rewrite app_nil_r in Ec. subst d. destruct (Z.eqb_spec x 0); [easy|].
    pose proof (chain_cut _ _ _ _ _ Hc) as Hx. destruct (hx_node _ _ _ Hx) as (n0 & En & En').
    apply wp_bind. eapply wp_nget; [exact En|]. rewrite Z.eqb_refl, En'. apply wp_bind.
    destruct (decide (c1 = [])) as [->|Hne].
    + simpl. apply wp_bucket_set; [exact Hi|]. apply wp_ret. reflexivity.
    + assert (Hl0 : lastz 0 c1 <> 0) by (intros E; apply Hz; rewrite <- E; apply elem_of_app; left; now apply lastz_in).
      rewrite (proj2 (Z.eqb_neq _ _) Hl0). simpl.
      destruct (chain_mem _ _ _ (lastz 0 c1) Hc) as [w Hw]; [apply elem_of_app; left; now apply lastz_in|].
      destruct (hx_node _ _ _ Hw) as (m & Em & _). eapply wp_nset; [exact Em|]. apply wp_ret. now rewrite Em.
  - assert (Hy : y ∈ c1) by (rewrite Ec; set_solver).
    destruct (Z.eqb_spec y 0); [exfalso; apply Hz; subst; set_solver|].
    assert (Hcy : hx (nodes s) y = Some (hdz 0 (e ++ x :: c2))).
    { apply (chain_cut (hx (nodes s)) d y (e ++ x :: c2) 0). rewrite Ec, <- app_assoc in Hc. exact Hc. }
    destruct (hx_node _ _ _ Hcy) as (n0 & En & En'). apply wp_bind. eapply wp_nget; [exact En|].
    destruct (Z.eqb_spec y x) as [->|Hyx]; [exfalso; apply NoDup_hole in Nd as (Nx & _); easy|].
    apply wp_ret. exists (length e). split; [lia|]. exists (d ++ [y]), e. split_and!; auto.
    + now rewrite <- app_assoc.
    + rewrite lastz_snoc, En'. f_equal. destruct e; reflexivity.
Qed.

Lemma delete_hash_spec s c1 x c2 n : nodes s !! x = Some n -> let i := block_number n mod BUFFER_CACHE_SIZE in
  chain (hx (nodes s)) (c1 ++ x :: c2) 0 -> NoDup (c1 ++ x :: c2) -> 0 ∉ c1 ++ x :: c2 ->
  Z.of_nat (length (hash_table s)) = BUFFER_CACHE_SIZE -> arr_get (hash_table s) i = Some (hdz 0 (c1 ++ x :: c2)) ->
  (length c1 < chain_fuel)%nat ->
  wp (DeleteNodeFromHash x) (λ _ s', exists nds tb, s' = rehash nds tb s /\ chain (hx nds) (c1 ++ c2) 0 /\
    same_body (nodes s) nds /\ (forall y, y ∉ c1 -> nds !! y = nodes s !! y) /\ length tb = length (hash_table s) /\
    forall j, arr_get tb j = if decide (j = i) then Some (hdz 0 (c1 ++ c2)) else arr_get (hash_table s) j) s.
Proof.
  intros En i Hc Nd Hz Hlen Hb Hf. assert (Hx0 : x <> 0) by (intros ->; apply Hz; set_solver).
  assert (Hi : 0 <= i < Z.of_nat (length (hash_table s))) by (rewrite Hlen; apply Z.mod_pos_bound; reflexivity).
  unfold DeleteNodeFromHash. destruct (Z.eqb_spec x 0); [easy|]. apply wp_bind. eapply wp_nget; [exact En|]. fold i.
  apply wp_bind. eapply wp_bucket_get; [exact Hb|].
  replace (hdz 0 (c1 ++ x :: c2)) with (hdz x c1) by (destruct c1; reflexivity).
  eapply wp_mono; [now apply (delete_hash_loop s c1 x c2 i)|]. intros _ s' ->.
  destruct (decide (c1 = [])) as [->|Hne].
  - exists (nodes s), (<[Z.to_nat i := hdz 0 c2]> (hash_table s)). split_and!; auto; [exact (proj2 Hc)|easy|apply length_insert|].
    intros j. rewrite arr_get_insert by exact Hi. destruct (decide (i = j)), (decide (j = i)); try congruence; reflexivity.
  - assert (Hin : lastz 0 c1 ∈ c1) by now apply lastz_in.
    destruct (chain_mem _ _ _ (lastz 0 c1) Hc) as [w Hw]; [set_solver|]. destruct (hx_node _ _ _ Hw) as (m & Em & _). rewrite Em.
    exists (<[lastz 0 c1 := set_hash_next (hdz 0 c2) m]> (nodes s)), (hash_table s). split_and!; auto.
    + eapply chain_remove; [exact Nd|exact Hc| |].
      * intros _. rewrite lookup_insert_eq. reflexivity.
      * intros y Hy Hyl. rewrite lookup_insert_ne; [reflexivity|]. intros E. now apply (Hyl Hne).
    + intros y. destruct (decide (lastz 0 c1 = y)) as [<-|]; [rewrite lookup_insert_eq, Em; reflexivity|now rewrite lookup_insert_ne].
    + intros y Hy. rewrite lookup_insert_ne; [reflexivity|]. congruence.
    + intros j. destruct (decide (j = i)) as [->|]; [|reflexivity]. rewrite Hb. f_equal. destruct c1; [easy|reflexivity].
Qed.
End Ops.

(** The buffer cache's invariant: both lists hold every node, a clean buffer
    equals its block on the device, and the contents the cache stands for. *)

From S2P Require Import BlockDev.

Section Inv.
Context {D : Type} {dv : BlockDevice D} {lw : DeviceLaws D} (sb : superblock_t) (nblocks : Z).

(** * Geometry of the file system on the device *)

Definition spb : Z := block_size sb / sector_size.
Record geometry : Prop := {
  g_spb : 1 <= spb < 2 ^ 32;
  g_block : block_size sb = spb * sector_size;
  g_blocks : 0 <= nblocks /\ nblocks * spb <= 2 ^ 32;
  g_start : 0 <= start_lba sb /\ start_lba sb + 2 ^ 32 < 2 ^ 64 }.
Context (G : geometry).

Definition in_blk (b : Z) : Prop := 0 <= b < nblocks.
Abbreviation lba := (EXT2BlockToLba sb).
(** Block [b] on the device. *)
Definition dread (d : D) (b : Z) : option (list Z) := dev_read d (lba b) spb.

Lemma spb_eq : EXT2SectorsInBlock sb = spb.
Proof using G. unfold EXT2SectorsInBlock. fold spb. apply wrap_small. pose proof (g_spb G). unfold is_word. lia. Qed.

Lemma lba_eq b : in_blk b -> lba b = start_lba sb + b * spb.
Proof using G.
  intros Hb. unfold in_blk in Hb. pose proof (g_spb G). pose proof (g_blocks G). pose proof (g_start G).
  unfold EXT2BlockToLba. fold spb. rewrite (wrap_small 32 spb) by (unfold is_word; lia).
  rewrite (wrap_small 32) by (unfold is_word; nia). apply wrap64_small. nia.
Qed.

Lemma lba_disjoint b b' : in_blk b -> in_blk b' -> b <> b' -> lba b' + spb <= lba b \/ lba b + spb <= lba b'.
Proof using G. intros H1 H2 Hne. rewrite !lba_eq by assumption. pose proof (g_spb G). nia. Qed.

Definition on_disk (d : D) : Prop := forall b, in_blk b -> dev_has d (lba b) spb.

Lemma dread_ok d b : on_disk d -> in_blk b -> exists l, dread d b = Some l /\ Z.of_nat (length l) = block_size sb.
Proof using G. intros Hd Hb. destruct (dev_read_ok d (lba b) spb (Hd b Hb)) as (l & E & Hl). exists l. rewrite (g_block G). auto. Qed.

Lemma dwrite_ok d b l : on_disk d -> in_blk b -> Z.of_nat (length l) = block_size sb ->
  exists d', dev_write d (lba b) l = Some d' /\ dread d' b = Some l /\ on_disk d' /\
    forall b', in_blk b' -> b' <> b -> dread d' b' = dread d b'.
Proof using G.
  intros Hd Hb Hl. rewrite (g_block G) in Hl. destruct (dev_write_ok d (lba b) spb l (Hd b Hb) Hl) as (d' & E & Hr & Ho & Hh).
  exists d'. split_and!; auto; [intros b' Hb'; apply Hh, Hd, Hb'|]. intros b' Hb' Hne. apply Ho. now apply lba_disjoint; auto.
Qed.

Lemma wp_write b buf l (Q : Z -> bcache D -> Prop) s : on_disk (disk s) -> in_blk b -> buf <> 0 -> pages s !! buf = Some l ->
  Z.of_nat (length l) = block_size sb ->
  (forall d', dread d' b = Some l -> on_disk d' -> (forall b', in_blk b' -> b' <> b -> dread d' b' = dread (disk s) b') -> Q 0 (set_disk d' s)) ->
  wp (EXT2WriteBlocks sb b 1 buf) Q s.
Proof using G.
  intros Hd Hb Hbuf Hp Hl HQ. unfold EXT2WriteBlocks. rewrite (proj2 (Z.eqb_neq buf 0) Hbuf). simpl.
  destruct (dwrite_ok (disk s) b l Hd Hb Hl) as (d' & E & H1 & H2 & H3).
  apply wp_bind, wp_get, wp_bind. eapply wp_of_option; [exact Hp|]. apply wp_bind. eapply wp_of_option; [exact E|].
  apply wp_bind, wp_modify, wp_ret. auto.
Qed.

Lemma wp_read b buf (Q : Z -> bcache D -> Prop) s : on_disk (disk s) -> in_blk b -> buf <> 0 ->
  (forall l, dread (disk s) b = Some l -> Z.of_nat (length l) = block_size sb -> Q 0 (set_pages (<[buf := l]> (pages s)) s)) ->
  wp (EXT2ReadBlocks sb b 1 buf) Q s.
Proof using G.
  intros Hd Hb Hbuf HQ. unfold EXT2ReadBlocks. rewrite (proj2 (Z.eqb_neq buf 0) Hbuf). simpl.
  destruct (dread_ok (disk s) b Hd Hb) as (l & E & Hl). pose proof (g_spb G). rewrite spb_eq.
  replace (wrap32 (1 * spb)) with spb by (rewrite wrap_small; unfold is_word; lia).
  apply wp_bind, wp_get, wp_bind. eapply wp_of_option; [exact E|]. apply wp_bind, wp_modify, wp_ret. auto.
Qed.

(** * The invariant *)

(** A node, its buffer and its block; block [ex] is between being stored into
    and being marked dirty, or still to be read. *)
Definition node_ok (ex : option Z) (pgs : gmap Z (list Z)) (d : D) (n : buffer_node_t) : Prop :=
  is_valid n = true /\ in_blk (block_number n) /\ data n <> 0 /\
  exists c, pgs !! data n = Some c /\ Z.of_nat (length c) = block_size sb /\
    (is_dirty n = false -> ex <> Some (block_number n) -> dread d (block_number n) = Some c).

(** [L] is the list in order of use, [C i] the chain of bucket [i]. *)
Record cinv (ex : option Z) (s : bcache D) (L : list Z) (C : Z -> list Z) : Prop := {
  ci_lru : lruq (nodes s) (lru_head s) (lru_tail s) L;
  ci_dom : forall x, is_Some (nodes s !! x) <-> x ∈ L;
  ci_tab : Z.of_nat (length (hash_table s)) = BUFFER_CACHE_SIZE;
  ci_bucket : forall i, 0 <= i < BUFFER_CACHE_SIZE ->
    arr_get (hash_table s) i = Some (hdz 0 (C i)) /\ chain (hx (nodes s)) (C i) 0 /\ NoDup (C i);
  ci_mem : forall i x, 0 <= i < BUFFER_CACHE_SIZE ->
    (x ∈ C i <-> exists n, nodes s !! x = Some n /\ block_number n mod BUFFER_CACHE_SIZE = i);
  ci_node : forall x n, nodes s !! x = Some n -> node_ok ex (pages s) (disk s) n;
  ci_inj : forall x y n m, nodes s !! x = Some n -> nodes s !! y = Some m ->
    block_number n = block_number m \/ data n = data m -> x = y;
  ci_len : Z.of_nat (length L) <= BUFFER_CACHE_CAP;
  ci_disk : on_disk (disk s) }.

Definition sized (s : bcache D) (L : list Z) : Prop := size s = Z.of_nat (length L) /\ capacity s = BUFFER_CACHE_CAP.

(** The contents of block [b] as the cache's clients see them. *)
Definition holds (s : bcache D) (b : Z) (c : list Z) : Prop :=
  (exists x n, nodes s !! x = Some n /\ block_number n = b /\ pages s !! data n = Some c) \/
  ((forall x n, nodes s !! x = Some n -> block_number n <> b) /\ dread (disk s) b = Some c).
Definition same_view (s s' : bcache D) : Prop := forall b c, in_blk b -> (holds s' b c <-> holds s b c).

Lemma bucket_range b : 0 <= b mod BUFFER_CACHE_SIZE < BUFFER_CACHE_SIZE.
Proof. apply Z.mod_pos_bound. reflexivity. Qed.

Section Facts.
Context (ex : option Z) (s : bcache D) (L : list Z) (C : Z -> list Z) (HI : cinv ex s L C).

Lemma node_nz x n : nodes s !! x = Some n -> x <> 0.
Proof using HI. intros Hx ->. apply (lq_nz _ _ _ _ (ci_lru _ _ _ _ HI)). apply (ci_dom _ _ _ _ HI). eauto. Qed.

Lemma chain_nz i : 0 <= i < BUFFER_CACHE_SIZE -> 0 ∉ C i.
Proof using HI. intros Hi H0. apply (ci_mem _ _ _ _ HI _ _ Hi) in H0 as (n & Hn & _). now apply (node_nz 0 n). Qed.

Lemma chain_length i : 0 <= i < BUFFER_CACHE_SIZE -> (length (C i) < chain_fuel)%nat.
Proof using HI.
  intros Hi. pose proof (ci_len _ _ _ _ HI) as Hs. apply Nat.le_lt_trans with (length L); [|unfold chain_fuel; lia].
  apply submseteq_length, NoDup_submseteq; [apply (ci_bucket _ _ _ _ HI _ Hi)|]. intros x Hx. apply (ci_mem _ _ _ _ HI _ _ Hi) in Hx as (n & Hn & _).
  apply (ci_dom _ _ _ _ HI). eauto.
Qed.

Lemma lru_length : (length L < chain_fuel)%nat.
Proof using HI. pose proof (ci_len _ _ _ _ HI) as Hs. unfold chain_fuel. lia. Qed.

(** Searching a chain for a property of the node. *)
Lemma search_ok {A R} (step : A -> M (bcache D) (A + R)) (mk : Z -> A) (hit : buffer_node_t -> bool) (found : Z -> R) (miss : R) (i : Z)
    (Q : R -> bcache D -> Prop) : 0 <= i < BUFFER_CACHE_SIZE ->
  step (mk 0) = ret (inr miss) ->
  (forall x n, nodes s !! x = Some n -> x <> 0 -> hit n = true -> is_valid n = true -> wp (step (mk x)) (λ r s', r = inr (found x) /\ s' = s) s) ->
  (forall x n, nodes s !! x = Some n -> x <> 0 -> hit n = false -> is_valid n = true ->
     wp (step (mk x)) (λ r s', r = inl (mk (hash_next n)) /\ s' = s) s) ->
  (forall x n, x ∈ C i -> nodes s !! x = Some n -> hit n = true -> Q (found x) s) ->
  ((forall x n, x ∈ C i -> nodes s !! x = Some n -> hit n = false) -> Q miss s) ->
  wp (loop chain_fuel step (mk (hdz 0 (C i)))) Q s.
Proof using G HI.
  intros Hi Hend Hhit Hmiss Qf Qm. destruct (ci_bucket _ _ _ _ HI _ Hi) as (_ & Hc & _).
  apply (wp_loop (λ k v s', exists d e, C i = d ++ e /\ v = mk (hdz 0 e) /\ k = length e /\ s' = s /\
    forall x n, x ∈ d -> nodes s !! x = Some n -> hit n = false) (length (C i))); [|now apply chain_length|].
  { exists [], (C i). split_and!; auto. set_solver. }
  intros k v s' (d & e & Ec & -> & -> & -> & Hd). destruct e as [|x e]; simpl.
  - rewrite Hend. apply wp_ret, Qm. intros x n Hx. apply Hd. rewrite Ec, app_nil_r in Hx. exact Hx.
  - assert (Hx : x ∈ C i) by (rewrite Ec; set_solver). pose proof Hx as (n & En & Eb)%(ci_mem _ _ _ _ HI _ _ Hi).
    destruct (ci_node _ _ _ _ HI _ _ En) as (Hv & _). destruct (hit n) eqn:Eh.
    + eapply wp_mono; [apply (Hhit x n En (node_nz _ _ En) Eh Hv)|]. intros r s' [-> ->]. eauto.
    + eapply wp_mono; [apply (Hmiss x n En (node_nz _ _ En) Eh Hv)|].
      intros r s' [-> ->]. exists (length e). split; [lia|]. exists (d ++ [x]), e. split_and!; auto.
      * now rewrite <- app_assoc.
      * f_equal. rewrite Ec in Hc. apply chain_cut in Hc. simpl in Hc. rewrite En in Hc. now injection Hc.
      * intros y m [Hy| ->%list_elem_of_singleton]%elem_of_app; [now apply Hd|]. congruence.
Qed.
End Facts.

(** * Preservation *)

Lemma lruq_ext nds nds' h t L : (forall y, y ∈ L -> pv nds' y = pv nds y /\ nx nds' y = nx nds y) -> lruq nds h t L -> lruq nds' h t L.
Proof.
  intros E [H1 H2 H3 H4 H5 H6]. split; auto.
  - eapply chain_ext; [|exact H1]. intros y Hy. apply (proj2 (E y Hy)).
  - eapply bchain_ext; [|exact H2]. intros y Hy. apply (proj1 (E y Hy)).
Qed.

(** What a node is apart from its links. *)
Definition body (n : buffer_node_t) : buffer_node_t := set_hash_next 0 (core n).

Lemma body_fields n n' : body n' = body n -> is_valid n' = is_valid n /\ is_dirty n' = is_dirty n /\
  block_number n' = block_number n /\ data n' = data n /\ ref_count n' = ref_count n.
Proof. destruct n, n'. unfold body, core. simpl. intros [= -> -> -> -> ->]. auto. Qed.

Lemma core_body n n' : core n' = core n -> body n' = body n.
Proof. unfold body. now intros ->. Qed.

Definition same_bodies (nds nds' : gmap Z buffer_node_t) : Prop := forall y, body <$> nds' !! y = body <$> nds !! y.

Lemma same_bodies_some nds nds' x n : same_bodies nds nds' -> nds !! x = Some n -> exists n', nds' !! x = Some n' /\ body n' = body n.
Proof. intros H Hx. specialize (H x). rewrite Hx in H. destruct (nds' !! x) as [n'|]; [|easy]. exists n'. split; [reflexivity|]. now apply (inj Some) in H. Qed.

Lemma same_bodies_sym nds nds' : same_bodies nds nds' -> same_bodies nds' nds.
Proof. intros H x. symmetry. apply H. Qed.

Lemma same_core_bodies nds nds' : same_core nds nds' -> same_bodies nds nds'.
Proof.
  intros H x. specialize (H x). destruct (nds !! x) as [n|], (nds' !! x) as [n'|]; simpl in *; try easy.
  apply (inj Some) in H. f_equal. now apply core_body.
Qed.

(** The view only depends on the bodies, the pages and the device. *)
Lemma holds_bodies s s' b c : same_bodies (nodes s) (nodes s') -> pages s' = pages s -> disk s' = disk s -> holds s b c -> holds s' b c.
Proof.
  intros Hb Hp Hd [(x & n & Hx & E & Hc)|[Hn Hc]]; [left|right].
  - destruct (same_bodies_some _ _ _ _ Hb Hx) as (n' & Hx' & Eb). apply body_fields in Eb as (_ & _ & E1 & E2 & _).
    exists x, n'. rewrite Hp, E1, E2. auto.
  - rewrite Hd. split; [|exact Hc]. intros x n' Hx'. destruct (same_bodies_some _ _ _ _ (same_bodies_sym _ _ Hb) Hx') as (n & Hx & Eb).
    apply body_fields in Eb as (_ & _ & E1 & _). rewrite <- E1. now apply (Hn x).
Qed.

Lemma same_view_bodies s s' : same_bodies (nodes s) (nodes s') -> pages s' = pages s -> disk s' = disk s -> same_view s s'.
Proof. intros Hb Hp Hd b c _. split; apply holds_bodies; auto using same_bodies_sym. Qed.

Lemma same_view_refl s : same_view s s.
Proof. easy. Qed.

Lemma same_view_trans s1 s2 s3 : same_view s1 s2 -> same_view s2 s3 -> same_view s1 s3.
Proof. intros H1 H2 b c Hb. rewrite (H2 b c Hb). apply H1, Hb. Qed.

(** Reordering the list of use. *)
Lemma cinv_relru ex s L C nds h t L' : cinv ex s L C -> lruq nds h t L' -> L' ≡ₚ L -> same_core (nodes s) nds ->
  cinv ex (relru nds h t s) L' C.
Proof.
  intros HI HL HP Hc. pose proof (same_core_sym _ _ Hc) as Hc'. split; try exact HL; try apply HI.
  - intros x. rewrite HP, <- (ci_dom _ _ _ _ HI). simpl. specialize (Hc x). destruct (nds !! x), (nodes s !! x); try easy.
    all: split; intros [? ?]; eauto; easy.
  - intros i Hi. destruct (ci_bucket _ _ _ _ HI i Hi) as (H1 & H2 & H3). split_and!; auto.
    eapply chain_ext; [|exact H2]. intros x _. now apply same_core_hx.
  - intros i x Hi. rewrite (ci_mem _ _ _ _ HI i x Hi). simpl. split; intros (n & En & Eb).
    + destruct (same_core_some _ _ _ _ Hc En) as (n' & En' & Ec). exists n'. split; [exact En'|].
      apply core_body, body_fields in Ec as (_ & _ & -> & _). exact Eb.
    + destruct (same_core_some _ _ _ _ Hc' En) as (n' & En' & Ec). exists n'. split; [exact En'|].
      apply core_body, body_fields in Ec as (_ & _ & -> & _). exact Eb.
  - intros x n En. destruct (same_core_some _ _ _ _ Hc' En) as (n' & En' & Ec). pose proof (ci_node _ _ _ _ HI _ _ En') as Hn.
    apply core_body, body_fields in Ec as (E1 & E2 & E3 & E4 & _). unfold node_ok in *. simpl. now rewrite <- E1, <- E2, <- E3, <- E4.
  - intros x y n m En Em. destruct (same_core_some _ _ _ _ Hc' En) as (n' & En' & Ec), (same_core_some _ _ _ _ Hc' Em) as (m' & Em' & Ed).
    apply core_body, body_fields in Ec as (_ & _ & E3 & E4 & _), Ed as (_ & _ & F3 & F4 & _). rewrite <- E3, <- E4, <- F3, <- F4.
    now apply (ci_inj _ _ _ _ HI).
  - rewrite HP. apply HI.
Qed.

(** Changing a node, the pages and the device, but no link. *)
Lemma cinv_upd ex ex' s s' L C x n n' : cinv ex s L C -> nodes s !! x = Some n -> nodes s' = <[x := n']> (nodes s) ->
  hash_table s' = hash_table s -> lru_head s' = lru_head s -> lru_tail s' = lru_tail s ->
  (prev n', next n', hash_next n', block_number n', data n') = (prev n, next n, hash_next n, block_number n, data n) ->
  (forall y m, nodes s' !! y = Some m -> node_ok ex' (pages s') (disk s') m) -> on_disk (disk s') -> cinv ex' s' L C.
Proof.
  intros HI En Es Et Eh El [= Lp Ln Lh Lb Ld] Hok Hd.
  assert (Hfield : forall {A} (f : buffer_node_t -> A) y, f n' = f n -> f <$> nodes s' !! y = f <$> nodes s !! y).
  { intros A f y Hf. rewrite Es. destruct (decide (x = y)) as [<-|]; [rewrite lookup_insert_eq, En; simpl; now rewrite Hf|now rewrite lookup_insert_ne]. }
  assert (Hback : forall y m, nodes s' !! y = Some m -> exists m0, nodes s !! y = Some m0 /\ block_number m0 = block_number m /\ data m0 = data m).
  { intros y m Hy. rewrite Es in Hy. destruct (decide (x = y)) as [<-|]; [rewrite lookup_insert_eq in Hy; injection Hy as <-; exists n; auto|].
    rewrite lookup_insert_ne in Hy by assumption. exists m. auto. }
  split.
  - rewrite Eh, El. eapply lruq_ext; [|apply HI]. intros y _. split; apply Hfield; auto.
  - intros y. rewrite <- (ci_dom _ _ _ _ HI). rewrite Es. destruct (decide (x = y)) as [<-|]; [rewrite lookup_insert_eq, En; split; eauto|now rewrite lookup_insert_ne].
  - rewrite Et. apply HI.
  - intros i Hi. rewrite Et. destruct (ci_bucket _ _ _ _ HI i Hi) as (H1 & H2 & H3). split_and!; auto.
    eapply chain_ext; [|exact H2]. intros y _. apply Hfield; auto.
  - intros i y Hi. rewrite (ci_mem _ _ _ _ HI i y Hi). split; intros (m & Hm & Hb).
    + rewrite Es. destruct (decide (x = y)) as [<-|]; [rewrite lookup_insert_eq; exists n'; split; [reflexivity|]; congruence|].
      rewrite lookup_insert_ne by assumption. eauto.
    + destruct (Hback y m Hm) as (m0 & Hm0 & E & _). exists m0. rewrite E. auto.
  - exact Hok.
  - intros y z m1 m2 H1 H2 Hor. destruct (Hback y m1 H1) as (a & Ha & A1 & A2), (Hback z m2 H2) as (b & Hb & B1 & B2).
    apply (ci_inj _ _ _ _ HI y z a b Ha Hb). rewrite A1, A2, B1, B2. exact Hor.
  - apply HI.
  - exact Hd.
Qed.

(** Removing a node from both lists, with its page. *)
Lemma cinv_remove ex s s' l1 x l2 C c1 c2 n : cinv ex s (l1 ++ x :: l2) C -> nodes s !! x = Some n ->
  let i := block_number n mod BUFFER_CACHE_SIZE in C i = c1 ++ x :: c2 ->
  lruq (nodes s') (lru_head s') (lru_tail s') (l1 ++ l2) -> nodes s' !! x = None ->
  (forall y, y <> x -> body <$> nodes s' !! y = body <$> nodes s !! y) ->
  (forall y, y <> x -> y ∉ C i -> hx (nodes s') y = hx (nodes s) y) -> chain (hx (nodes s')) (c1 ++ c2) 0 ->
  length (hash_table s') = length (hash_table s) ->
  (forall j, arr_get (hash_table s') j = if decide (j = i) then Some (hdz 0 (c1 ++ c2)) else arr_get (hash_table s) j) ->
  pages s' = delete (data n) (pages s) -> on_disk (disk s') ->
  (forall b, in_blk b -> b <> block_number n -> dread (disk s') b = dread (disk s) b) ->
  cinv ex s' (l1 ++ l2) (λ j, if decide (j = i) then c1 ++ c2 else C j).
Proof.
  intros HI En i Ec HL Hx Hb Hh Hc Htl Ht Hp Hd Hdr. pose proof (lq_nodup _ _ _ _ (ci_lru _ _ _ _ HI)) as Nd.
  destruct (NoDup_hole _ _ _ Nd) as (Nx1 & Nx2 & N12). pose proof (bucket_range (block_number n)) as Hi. fold i in Hi.
  destruct (ci_bucket _ _ _ _ HI i Hi) as (_ & _ & Nc). rewrite Ec in Nc. destruct (NoDup_hole _ _ _ Nc) as (Ncx1 & Ncx2 & Nc12).
  assert (Hfw : forall y m, y <> x -> nodes s !! y = Some m -> exists m', nodes s' !! y = Some m' /\ body m' = body m).
  { intros y m Hy Hm. specialize (Hb y Hy). rewrite Hm in Hb. destruct (nodes s' !! y) as [m'|]; [|easy]. apply (inj Some) in Hb. eauto. }
  assert (Hbw : forall y m, nodes s' !! y = Some m -> y <> x /\ exists m0, nodes s !! y = Some m0 /\ body m = body m0).
  { intros y m Hm. assert (y <> x) by congruence. split; [assumption|]. specialize (Hb y H). rewrite Hm in Hb.
    destruct (nodes s !! y) as [m0|]; [|easy]. apply (inj Some) in Hb. eauto. }
  split; auto.
  - intros y. split.
    + intros [m Hm]. destruct (Hbw y m Hm) as (Hy & m0 & Hm0 & _). assert (y ∈ l1 ++ x :: l2) by (apply (ci_dom _ _ _ _ HI); eauto). set_solver.
    + intros Hy. assert (y <> x) by (intros ->; set_solver). assert (is_Some (nodes s !! y)) as [m Hm] by (apply (ci_dom _ _ _ _ HI); set_solver).
      destruct (Hfw y m ltac:(assumption) Hm) as (m' & Hm' & _). eauto.
  - rewrite Htl. apply HI.
  - intros j Hj. rewrite Ht. destruct (decide (j = i)) as [->|Hne]; [auto|]. destruct (ci_bucket _ _ _ _ HI j Hj) as (H1 & H2 & H3).
    split_and!; auto. eapply chain_ext; [|exact H2]. intros y Hy. apply Hh.
    + intros ->. apply (ci_mem _ _ _ _ HI j x Hj) in Hy as (m & Hm & Em). apply Hne. rewrite <- Em. unfold i. congruence.
    + intros Hyi. apply (ci_mem _ _ _ _ HI j y Hj) in Hy as (m & Hm & Em). apply (ci_mem _ _ _ _ HI i y Hi) in Hyi as (m' & Hm' & Em'). congruence.
  - intros j y Hj. assert (Hmem : y ∈ (if decide (j = i) then c1 ++ c2 else C j) <-> y ∈ C j /\ y <> x).
    { destruct (decide (j = i)) as [->|Hne]; [rewrite Ec; now apply elem_of_hole|]. split; [|tauto]. intros Hy. split; [exact Hy|]. intros ->.
      apply (ci_mem _ _ _ _ HI j x Hj) in Hy as (m & Hm & Em). apply Hne. rewrite <- Em. unfold i. congruence. }
    rewrite Hmem, (ci_mem _ _ _ _ HI j y Hj). split.
    + intros [(m & Hm & Em) Hy]. destruct (Hfw y m Hy Hm) as (m' & Hm' & Eb). apply body_fields in Eb as (_ & _ & E & _). exists m'. rewrite E. auto.
    + intros (m & Hm & Em). destruct (Hbw y m Hm) as (Hy & m0 & Hm0 & Eb). apply body_fields in Eb as (_ & _ & E & _). split; [|exact Hy]. exists m0. rewrite <- E. auto.
  - intros y m Hm. destruct (Hbw y m Hm) as (Hy & m0 & Hm0 & Eb). destruct (ci_node _ _ _ _ HI y m0 Hm0) as (V & B & Nz & c & Pc & Lc & Cc).
    apply body_fields in Eb as (E1 & E2 & E3 & E4 & _). unfold node_ok. rewrite E1, E2, E3, E4. split_and!; auto. exists c. split_and!; auto.
    + rewrite Hp, lookup_delete_ne; [exact Pc|]. intros Ed. apply Hy. symmetry. apply (ci_inj _ _ _ _ HI x y n m0 En Hm0). now right.
    + intros Hdirty Hex. rewrite Hdr; auto. intros Eb. apply Hy. apply (ci_inj _ _ _ _ HI y x m0 n Hm0 En). now left.
  - intros y z m1 m2 H1 H2 Hor. destruct (Hbw y m1 H1) as (_ & a & Ha & Ea), (Hbw z m2 H2) as (_ & b & Hb' & Eb').
    apply body_fields in Ea as (_ & _ & A3 & A4 & _), Eb' as (_ & _ & B3 & B4 & _). apply (ci_inj _ _ _ _ HI y z a b Ha Hb'). now rewrite <- A3, <- A4, <- B3, <- B4.
  - pose proof (ci_len _ _ _ _ HI) as Hl. rewrite !length_app in *. simpl in Hl. lia.
Qed.

(** Adding a node at the front of a bucket and of the list of use; its block
    is still to be read. *)
Lemma cinv_insert s s' L C x n b page junk : cinv None s L C -> nodes s !! x = None -> x <> 0 -> Z.of_nat (length L) < BUFFER_CACHE_CAP ->
  in_blk b -> (forall y m, nodes s !! y = Some m -> block_number m <> b /\ data m <> page) -> page <> 0 ->
  pages s' !! page = Some junk -> Z.of_nat (length junk) = block_size sb -> (forall p, p <> page -> pages s' !! p = pages s !! p) ->
  let i := b mod BUFFER_CACHE_SIZE in
  nodes s' !! x = Some n -> is_valid n = true /\ block_number n = b /\ data n = page /\ hash_next n = hdz 0 (C i) ->
  (forall y, y <> x -> core <$> nodes s' !! y = core <$> nodes s !! y) ->
  lruq (nodes s') (lru_head s') (lru_tail s') (L ++ [x]) ->
  length (hash_table s') = length (hash_table s) ->
  (forall j, 0 <= j < BUFFER_CACHE_SIZE -> arr_get (hash_table s') j = if decide (j = i) then Some x else arr_get (hash_table s) j) ->
  disk s' = disk s -> cinv (Some b) s' (L ++ [x]) (λ j, if decide (j = i) then x :: C i else C j).
Proof.
  intros HI Hx Hx0 Hlen Hb Hno Hpg0 Hpg Hjunk Hpgs i Hn (Nv & Nb & Nd & Nh) Hc HL Htl Ht Hd.
  assert (Hi : 0 <= i < BUFFER_CACHE_SIZE) by apply bucket_range.
  assert (HxL : x ∉ L) by (intros Hin%(ci_dom _ _ _ _ HI); rewrite Hx in Hin; now destruct Hin).
  assert (Hxc : forall j, 0 <= j < BUFFER_CACHE_SIZE -> x ∉ C j) by (intros j Hj Hin; apply (ci_mem _ _ _ _ HI j x Hj) in Hin as (m & Hm & _); congruence).
  assert (Hfw : forall y m, nodes s !! y = Some m -> exists m', nodes s' !! y = Some m' /\ core m' = core m).
  { intros y m Hm. assert (y <> x) by congruence. specialize (Hc y ltac:(assumption)). rewrite Hm in Hc.
    destruct (nodes s' !! y) as [m'|]; [|easy]. apply (inj Some) in Hc. eauto. }
  assert (Hbw : forall y m, nodes s' !! y = Some m -> y = x /\ m = n \/ y <> x /\ exists m0, nodes s !! y = Some m0 /\ core m = core m0).
  { intros y m Hm. destruct (decide (y = x)) as [->|Hy]; [left; split; congruence|right; split; [exact Hy|]]. specialize (Hc y Hy). rewrite Hm in Hc.
    destruct (nodes s !! y) as [m0|]; [|easy]. apply (inj Some) in Hc. eauto. }
  assert (Hhx : forall y, y <> x -> hx (nodes s') y = hx (nodes s) y).
  { intros y Hy. specialize (Hc y Hy). destruct (nodes s !! y), (nodes s' !! y); simpl in *; try easy. apply (inj Some), (f_equal hash_next) in Hc. simpl in Hc. congruence. }
  split; auto.
  - intros y. rewrite elem_of_app, list_elem_of_singleton, <- (ci_dom _ _ _ _ HI). split.
    + intros [m Hm]. destruct (Hbw y m Hm) as [[]|(_ & m0 & Hm0 & _)]; eauto.
    + intros [[m Hm]| ->]; [destruct (Hfw y m Hm) as (m' & Hm' & _); eauto|eauto].
  - rewrite Htl. apply HI.
  - intros j Hj. rewrite (Ht j Hj). destruct (ci_bucket _ _ _ _ HI j Hj) as (H1 & H2 & H3). destruct (decide (j = i)) as [->|].
    + split_and!; [reflexivity| |apply list.NoDup_cons; auto]. cbn [chain]. split; [rewrite Hn; simpl; now rewrite Nh|].
      eapply chain_ext; [|exact H2]. intros y Hy. apply Hhx. intros ->. now apply (Hxc i).
    + split_and!; auto. eapply chain_ext; [|exact H2]. intros y Hy. apply Hhx. intros ->. now apply (Hxc j).
  - intros j y Hj. assert (Hold : y <> x -> y ∈ (if decide (j = i) then x :: C i else C j) <-> y ∈ C j).
    { intros Hy. destruct (decide (j = i)) as [->|]; [set_solver|reflexivity]. }
    destruct (decide (y = x)) as [->|Hy].
    + split.
      * intros Hin. destruct (decide (j = i)) as [->|]; [exists n; split; [exact Hn|now rewrite Nb]|now apply Hxc in Hin].
      * intros (m & Hm & Em). assert (m = n) as -> by congruence. rewrite Nb in Em. fold i in Em. rewrite decide_True by auto. left.
    + rewrite (Hold Hy), (ci_mem _ _ _ _ HI j y Hj). split; intros (m & Hm & Em).
      * destruct (Hfw y m Hm) as (m' & Hm' & Ec). apply core_body, body_fields in Ec as (_ & _ & E & _). exists m'. rewrite E. auto.
      * destruct (Hbw y m Hm) as [[]|(_ & m0 & Hm0 & Ec)]; [easy|]. apply core_body, body_fields in Ec as (_ & _ & E & _). exists m0. rewrite <- E. auto.
  - intros y m Hm. destruct (Hbw y m Hm) as [[-> ->]|(Hy & m0 & Hm0 & Ec)].
    + unfold node_ok. rewrite Nb, Nd. split_and!; auto. exists junk. split_and!; auto. congruence.
    + destruct (ci_node _ _ _ _ HI y m0 Hm0) as (V & B & Nz & c & Pc & Lc & Cc). apply core_body, body_fields in Ec as (E1 & E2 & E3 & E4 & _).
      unfold node_ok. rewrite E1, E2, E3, E4, Hd. split_and!; auto. exists c. split; [rewrite Hpgs; [exact Pc|]; apply (Hno y m0 Hm0)|]. split; [exact Lc|]. intros Hdirty _. now apply Cc.
  - intros y z m1 m2 H1 H2 Hor. destruct (Hbw y m1 H1) as [[-> ->]|(Hy & a & Ha & Ea)], (Hbw z m2 H2) as [[-> ->]|(Hz & a' & Ha' & Ea')]; auto.
    + apply core_body, body_fields in Ea' as (_ & _ & A3 & A4 & _). destruct (Hno z a' Ha'). rewrite Nb, Nd, A3, A4 in Hor. destruct Hor; congruence.
    + apply core_body, body_fields in Ea as (_ & _ & A3 & A4 & _). destruct (Hno y a Ha). rewrite Nb, Nd, A3, A4 in Hor. destruct Hor; congruence.
    + apply core_body, body_fields in Ea as (_ & _ & A3 & A4 & _), Ea' as (_ & _ & B3 & B4 & _).
      apply (ci_inj _ _ _ _ HI y z a a' Ha Ha'). now rewrite <- A3, <- A4, <- B3, <- B4.
  - rewrite length_app. simpl. lia.
  - rewrite Hd. apply HI.
Qed.
End Inv.
