(* ===== verification/BufferOps.v ===== *)
(** The buffer cache's operations keep its invariant and the contents it stands
    for. *)

From S2P Require Import Prelude BlockDev Buffer BufferLists.

Section Ops.
Context {D : Type} {dv : BlockDevice D} {lw : DeviceLaws D} (sb : superblock_t) (nblocks : Z) (G : geometry sb nblocks).
Abbreviation cinv := (cinv sb nblocks).
Abbreviation in_blk := (in_blk nblocks).
Abbreviation same_view := (same_view sb nblocks).
Abbreviation holds := (holds sb).
Implicit Types (s : bcache D) (L : list Z) (C : Z -> list Z).

(** A search for a block finds its node if it is cached. *)
Definition located s (b x : Z) : Prop :=
  (x = 0 /\ forall y m, nodes s !! y = Some m -> block_number m <> b) \/ (exists n, nodes s !! x = Some n /\ block_number n = b).

Lemma located_search ex s L C b (Q : Z -> Prop) : cinv ex s L C ->
  (forall x, located s b x -> Q x) ->
  (forall x n, x ∈ C (b mod BUFFER_CACHE_SIZE) -> nodes s !! x = Some n -> (block_number n =? b) = true -> Q x) /\
  ((forall x n, x ∈ C (b mod BUFFER_CACHE_SIZE) -> nodes s !! x = Some n -> (block_number n =? b) = false) -> Q 0).
Proof using G.
  intros HI HQ. split.
  - intros x n _ Hn Hb%Z.eqb_eq. apply HQ. right. eauto.
  - intros Hall. apply HQ. left. split; [reflexivity|]. intros y m Hm Hb.
    assert (y ∈ C (b mod BUFFER_CACHE_SIZE)) by (apply (ci_mem _ _ _ _ _ _ HI); [apply bucket_range|]; exists m; rewrite Hb; auto).
    specialize (Hall y m ltac:(assumption) Hm). apply Z.eqb_neq in Hall. easy.
Qed.

Lemma find_node_ok ex s L C b : cinv ex s L C -> wp (find_node true b) (λ x s', s' = s /\ located s b x) s.
Proof using G.
  intros HI. unfold find_node. pose proof (bucket_range b) as Hi. apply wp_bind.
  eapply wp_bucket_get; [apply (ci_bucket _ _ _ _ _ _ HI _ Hi)|].
  destruct (located_search ex s L C b (λ x, s = s /\ located s b x) HI (λ x H, conj eq_refl H)) as [H1 H2].
  apply (search_ok sb nblocks G ex s L C HI (find_step true b) (λ z, z) (λ n, block_number n =? b) (λ z, z) 0); auto.
  - intros x n En Hx Hb Hv. unfold find_step. rewrite (proj2 (Z.eqb_neq x 0) Hx).
    apply wp_bind. eapply wp_nget; [exact En|]. apply wp_bind. eapply wp_nget; [exact En|]. rewrite Hb, Hv. simpl. apply wp_ret. auto.
  - intros x n En Hx Hb Hv. unfold find_step. rewrite (proj2 (Z.eqb_neq x 0) Hx).
    apply wp_bind. eapply wp_nget; [exact En|]. apply wp_bind. eapply wp_nget; [exact En|]. rewrite Hb. simpl.
    apply wp_bind. eapply wp_nget; [exact En|]. apply wp_ret. auto.
Qed.

(** No node is invalid, so a search for invalid nodes finds none. *)
Lemma find_invalid_ok ex s L C b : cinv ex s L C -> wp (find_node false b) (λ x s', s' = s /\ x = 0) s.
Proof using G.
  intros HI. unfold find_node. pose proof (bucket_range b) as Hi. apply wp_bind.
  eapply wp_bucket_get; [apply (ci_bucket _ _ _ _ _ _ HI _ Hi)|].
  apply (search_ok sb nblocks G ex s L C HI (find_step false b) (λ z, z) (λ _, false) (λ z, z) 0); auto; [easy| |easy].
  intros x n En Hx _ Hv. unfold find_step. rewrite (proj2 (Z.eqb_neq x 0) Hx).
  apply wp_bind. eapply wp_nget; [exact En|]. apply wp_bind. eapply wp_nget; [exact En|]. rewrite Hv, andb_false_r. simpl.
  apply wp_bind. eapply wp_nget; [exact En|]. apply wp_ret. auto.
Qed.

Lemma bread_search_ok ex s L C b : cinv ex s L C ->
  wp (loop chain_fuel (bread_find_step b) (hdz 0 (C (b mod BUFFER_CACHE_SIZE)), 0))
     (λ r s', s' = s /\ ((r = inr 0 /\ forall y m, nodes s !! y = Some m -> block_number m <> b) \/
        exists x n, r = inl x /\ nodes s !! x = Some n /\ block_number n = b)) s.
Proof using G.
  intros HI. pose proof (bucket_range b) as Hi.
  apply (search_ok sb nblocks G ex s L C HI (bread_find_step b) (λ z, (z, 0)) (λ n, block_number n =? b) inl (inr 0)); auto.
  - intros x n En Hx Hb Hv. unfold bread_find_step. rewrite (proj2 (Z.eqb_neq x 0) Hx).
    apply wp_bind. eapply wp_nget; [exact En|]. apply wp_bind. eapply wp_nget; [exact En|]. rewrite Hb, Hv. simpl. apply wp_ret. auto.
  - intros x n En Hx Hb Hv. unfold bread_find_step. rewrite (proj2 (Z.eqb_neq x 0) Hx).
    apply wp_bind. eapply wp_nget; [exact En|]. apply wp_bind. eapply wp_nget; [exact En|]. rewrite Hb, Hv. simpl.
    apply wp_bind. eapply wp_nget; [exact En|]. apply wp_ret. auto.
  - intros x n _ Hn Hb%Z.eqb_eq. split; [reflexivity|]. right. eauto.
  - intros Hall. split; [reflexivity|]. left. split; [reflexivity|]. intros y m Hm Hb.
    assert (y ∈ C (b mod BUFFER_CACHE_SIZE)) by (apply (ci_mem _ _ _ _ _ _ HI); [apply bucket_range|]; exists m; rewrite Hb; auto).
    specialize (Hall y m ltac:(assumption) Hm). apply Z.eqb_neq in Hall. easy.
Qed.

(** Moving a node to the front, in the invariant. *)
Lemma switch_ok ex s L C x n : cinv ex s L C -> nodes s !! x = Some n ->
  wp (SwitchNodeToLRUHead x) (λ _ s', exists nds h t L', s' = relru nds h t s /\ same_core (nodes s) nds /\ L' ≡ₚ L /\ cinv ex s' L' C) s.
Proof using G.
  intros HI En. eapply wp_mono; [apply (switch_lru_spec s L x); [apply HI|apply (ci_dom _ _ _ _ _ _ HI); eauto]|].
  intros _ s' (nds & h & t & L' & -> & HL & HP & Hc). exists nds, h, t, L'. split_and!; auto. now apply (cinv_relru sb nblocks ex s L).
Qed.

(** ** Taking a node out *)

(** The part of the invariant about links. *)
Record linked s L C : Prop := {
  lk_lru : lruq (nodes s) (lru_head s) (lru_tail s) L;
  lk_dom : forall x, is_Some (nodes s !! x) <-> x ∈ L;
  lk_tab : Z.of_nat (length (hash_table s)) = BUFFER_CACHE_SIZE;
  lk_bucket : forall i, 0 <= i < BUFFER_CACHE_SIZE ->
    arr_get (hash_table s) i = Some (hdz 0 (C i)) /\ chain (hx (nodes s)) (C i) 0 /\ NoDup (C i);
  lk_mem : forall i x, 0 <= i < BUFFER_CACHE_SIZE ->
    (x ∈ C i <-> exists n, nodes s !! x = Some n /\ block_number n mod BUFFER_CACHE_SIZE = i);
  lk_len : Z.of_nat (length L) <= BUFFER_CACHE_CAP }.

Lemma cinv_linked ex s L C : cinv ex s L C -> linked s L C.
Proof using. intros []. split; auto. Qed.

Lemma linked_chain s L C i : linked s L C -> 0 <= i < BUFFER_CACHE_SIZE -> (0 ∉ C i) /\ (length (C i) < chain_fuel)%nat.
Proof using G.
  intros HI Hi. assert (Hsub : forall x, x ∈ C i -> x ∈ L).
  { intros x Hx. apply (lk_mem _ _ _ HI _ _ Hi) in Hx as (n & Hn & _). apply (lk_dom _ _ _ HI). eauto. }
  split; [intros H0%Hsub; now apply (lq_nz _ _ _ _ (lk_lru _ _ _ HI))|].
  pose proof (lk_len _ _ _ HI). apply Nat.le_lt_trans with (length L); [|unfold chain_fuel; lia].
  apply submseteq_length, NoDup_submseteq; [apply (lk_bucket _ _ _ HI _ Hi)|exact Hsub].
Qed.

(** The two unlinkings of [x], in the order of [evict] (use first) or of
    [binvalidate] (hash first). *)
Lemma unlink_ok s l1 x l2 C c1 c2 n (m : M (bcache D) unit) : linked s (l1 ++ x :: l2) C -> nodes s !! x = Some n ->
  C (block_number n mod BUFFER_CACHE_SIZE) = c1 ++ x :: c2 ->
  m = (DeleteNodeFromLRU x;; DeleteNodeFromHash x) \/ m = (DeleteNodeFromHash x;; DeleteNodeFromLRU x) ->
  wp m (λ _ s', exists nds h t tb, s' = rehash nds tb (relru nds h t s) /\ lruq nds h t (l1 ++ l2) /\
     same_bodies (nodes s) nds /\ (forall y, y ∉ C (block_number n mod BUFFER_CACHE_SIZE) -> hx nds y = hx (nodes s) y) /\
     chain (hx nds) (c1 ++ c2) 0 /\ length tb = length (hash_table s) /\
     forall j, arr_get tb j = if decide (j = block_number n mod BUFFER_CACHE_SIZE) then Some (hdz 0 (c1 ++ c2)) else arr_get (hash_table s) j) s.
Proof using G.
  intros HI En Ec Hm. pose proof (bucket_range (block_number n)) as Hi. set (i := block_number n mod BUFFER_CACHE_SIZE) in *.
  destruct (lk_bucket _ _ _ HI i Hi) as (Hb & Hc & Nc). destruct (linked_chain s _ C i HI Hi) as [Hz Hlen]. rewrite Ec in Hc, Nc, Hz, Hb, Hlen.
  assert (Hf : (length c1 < chain_fuel)%nat) by (rewrite length_app in Hlen; lia).
  assert (Hlru : forall nds nds', same_body nds nds' -> forall h t L, lruq nds h t L -> lruq nds' h t L).
  { intros nds nds' Hs h t L. apply lruq_ext. intros y _. specialize (Hs y). destruct (nds !! y), (nds' !! y); simpl in *; try easy.
    apply (inj Some) in Hs. split; f_equal; [apply (f_equal prev) in Hs|apply (f_equal next) in Hs]; exact Hs. }
  assert (Hbod : forall a b c, same_core a b -> same_body b c -> same_bodies a c).
  { intros a b c H1 H2 y. specialize (H1 y). specialize (H2 y). destruct (a !! y), (b !! y), (c !! y); simpl in *; try easy.
    apply (inj Some) in H1, H2. f_equal. unfold body. rewrite <- H1. apply (f_equal core) in H2. exact H2. }
  assert (Hbod' : forall a b c, same_body a b -> same_core b c -> same_bodies a c).
  { intros a b c H1 H2 y. specialize (H1 y). specialize (H2 y). destruct (a !! y), (b !! y), (c !! y); simpl in *; try easy.
    apply (inj Some) in H1, H2. f_equal. unfold body. rewrite H2. apply (f_equal core) in H1. exact H1. }
  destruct Hm as [->| ->]; apply wp_bind.
  - eapply wp_mono; [apply (delete_lru_spec s l1 x l2), HI|]. intros _ s1 (nds1 & h & t & -> & HL1 & Hc1).
    destruct (same_core_some _ _ _ _ Hc1 En) as (n1 & En1 & Ecore). pose proof (core_body _ _ Ecore) as Eb. apply body_fields in Eb as (_ & _ & Eb & _).
    eapply wp_mono; [eapply (delete_hash_spec (relru nds1 h t s) c1 x c2 n1); rewrite ?Eb; auto; [|apply HI]|].
    { eapply chain_ext; [|exact Hc]. intros y _. now apply same_core_hx. }
    intros _ s2 (nds2 & tb & -> & Hch & Hsb & Hout & Htl & Htb). rewrite Eb in Htb. fold i in Htb.
    exists nds2, h, t, tb. split_and!; auto.
    + eapply Hlru; eauto.
    + eapply Hbod; eauto.
    + intros y Hy. rewrite <- (same_core_hx _ _ y Hc1). simpl. rewrite Hout; [reflexivity|]. rewrite Ec in Hy. set_solver.
  - eapply wp_mono; [eapply (delete_hash_spec s c1 x c2 n); auto; apply HI|].
    intros _ s1 (nds1 & tb & -> & Hch & Hsb & Hout & Htl & Htb).
    eapply wp_mono; [apply (delete_lru_spec (rehash nds1 tb s) l1 x l2); eapply Hlru; [exact Hsb|apply HI]|].
    intros _ s2 (nds2 & h & t & -> & HL2 & Hc2). exists nds2, h, t, tb. split_and!; auto.
    + eapply Hbod'; eauto.
    + intros y Hy. rewrite (same_core_hx _ _ y Hc2). simpl. rewrite Hout; [reflexivity|]. rewrite Ec in Hy. set_solver.
    + eapply chain_ext; [|exact Hch]. intros y _. now apply same_core_hx.
Qed.

(** What removing node [x], whose body was [n], leaves. *)
Record removed x n s s' : Prop := {
  rm_gone : nodes s' !! x = None;
  rm_rest : forall y, y <> x -> body <$> nodes s' !! y = body <$> nodes s !! y;
  rm_pages : pages s' = delete (data n) (pages s);
  rm_size : size s' = size s /\ capacity s' = capacity s /\ lock s' = lock s }.

(** Every view but that of the removed node's block is kept. *)
Lemma removed_view ex x n s s' L C b c : cinv ex s L C -> nodes s !! x = Some n -> removed x n s s' ->
  (forall b, in_blk b -> b <> block_number n -> dread sb (disk s') b = dread sb (disk s) b) ->
  in_blk b -> b <> block_number n -> (holds s' b c <-> holds s b c).
Proof using G.
  intros HI En [R1 R2 R3 _] Hd Hb Hne. split.
  - intros [(y & m & Hy & Em & Pm)|[Hno Hc]].
    + assert (Hyx : y <> x) by congruence. pose proof (R2 y Hyx) as E. rewrite Hy in E. destruct (nodes s !! y) as [m0|] eqn:Em0; [|easy].
      apply (inj Some), body_fields in E as (_ & _ & E3 & E4 & _). left. exists y, m0. rewrite <- E3, <- E4. split_and!; auto.
      rewrite R3 in Pm. now apply lookup_delete_Some in Pm as [_ Pm].
    + right. rewrite <- Hd by auto. split; [|exact Hc]. intros y m Hy Em. destruct (decide (y = x)) as [->|Hyx]; [congruence|].
      pose proof (R2 y Hyx) as E. rewrite Hy in E. destruct (nodes s' !! y) as [m'|] eqn:Em'; [|easy].
      apply (inj Some), body_fields in E as (_ & _ & E3 & _). apply (Hno y m' Em'). congruence.
  - intros [(y & m & Hy & Em & Pm)|[Hno Hc]].
    + assert (Hyx : y <> x) by congruence. pose proof (R2 y Hyx) as E. rewrite Hy in E. destruct (nodes s' !! y) as [m'|] eqn:Em'; [|easy].
      apply (inj Some), body_fields in E as (_ & _ & E3 & E4 & _). left. exists y, m'. rewrite E3, E4. split_and!; auto.
      rewrite R3, lookup_delete_ne; [exact Pm|]. intros Ed. apply Hyx. apply (ci_inj _ _ _ _ _ _ HI y x m n Hy En). auto.
    + right. rewrite Hd by auto. split; [|exact Hc]. intros y m' Hy Em. assert (Hyx : y <> x) by congruence.
      pose proof (R2 y Hyx) as E. rewrite Hy in E. destruct (nodes s !! y) as [m|] eqn:Em'; [|easy].
      apply (inj Some), body_fields in E as (_ & _ & E3 & _). apply (Hno y m Em'). congruence.
Qed.

(** The view of a block that is cached, or not. *)
Lemma holds_cached ex s L C x n c : cinv ex s L C -> nodes s !! x = Some n -> (holds s (block_number n) c <-> pages s !! data n = Some c).
Proof using G.
  intros HI En. split; [|intros; left; exists x, n; auto]. intros [(y & m & Hy & Em & Pm)|[Hno _]]; [|now elim (Hno x n En)].
  assert (y = x) as -> by (apply (ci_inj _ _ _ _ _ _ HI y x m n Hy En); auto). congruence.
Qed.

Lemma holds_uncached s b c : (forall y m, nodes s !! y = Some m -> block_number m <> b) -> (holds s b c <-> dread sb (disk s) b = Some c).
Proof using. intros Hno. split; [|intros; right; auto]. intros [(y & m & Hy & Em & _)|[_ Hc]]; [now elim (Hno y m Hy)|exact Hc]. Qed.

Lemma removed_uncached ex x n s s' L C y m : cinv ex s L C -> nodes s !! x = Some n -> removed x n s s' ->
  nodes s' !! y = Some m -> block_number m <> block_number n.
Proof using G.
  intros HI En [R1 R2 _ _] Hy Eb. assert (Hyx : y <> x) by congruence. pose proof (R2 y Hyx) as E. rewrite Hy in E.
  destruct (nodes s !! y) as [m0|] eqn:E0; [|easy]. apply (inj Some), body_fields in E as (_ & _ & E3 & _).
  apply Hyx, (ci_inj _ _ _ _ _ _ HI y x m0 n E0 En). left. congruence.
Qed.

(** The victim: the least recently used node without references, if any. *)
Lemma victim_ok ex s L C : cinv ex s L C ->
  wp (loop chain_fuel victim_step (lru_tail s)) (λ x s', s' = s /\
    ((x = 0 /\ forall y m, nodes s !! y = Some m -> 0 < ref_count m) \/ exists n, nodes s !! x = Some n /\ ref_count n <= 0)) s.
Proof using G.
  intros HI. pose proof (ci_lru _ _ _ _ _ _ HI) as HL. rewrite (lq_tail _ _ _ _ HL).
  apply (wp_loop (λ k v s', exists d e, L = d ++ e /\ v = hdz 0 e /\ k = length e /\ s' = s /\
    forall y m, y ∈ d -> nodes s !! y = Some m -> 0 < ref_count m) (length L)); [|apply (lru_length _ _ _ _ _ _ HI)|].
  { exists [], L. split_and!; auto. set_solver. }
  intros k v s' (d & e & EL & -> & -> & -> & Hd). unfold victim_step. destruct e as [|x e]; simpl.
  - apply wp_ret. split; [reflexivity|]. left. split; [reflexivity|]. intros y m Hy. apply (Hd y m); [|exact Hy].
    rewrite app_nil_r in EL. subst d. apply (ci_dom _ _ _ _ _ _ HI). eauto.
  - assert (Hx : x ∈ L) by (rewrite EL; set_solver). destruct (proj2 (ci_dom _ _ _ _ _ _ HI x) Hx) as [n En].
    destruct (Z.eqb_spec x 0) as [->|]; [exfalso; exact (lq_nz _ _ _ _ HL Hx)|].
    apply wp_bind. eapply wp_nget; [exact En|]. destruct (Z.ltb_spec 0 (ref_count n)).
    + apply wp_bind. eapply wp_nget; [exact En|]. apply wp_ret. exists (length e). split; [lia|]. exists (d ++ [x]), e. split_and!; auto.
      * now rewrite <- app_assoc.
      * pose proof (lq_next _ _ _ _ HL) as Hc. rewrite EL in Hc. apply chain_cut in Hc. simpl in Hc. rewrite En in Hc. now injection Hc.
      * intros y m [Hy| ->%list_elem_of_singleton]%elem_of_app; [now apply Hd|]. congruence.
    + apply wp_ret. split; [reflexivity|]. right. eauto.
Qed.

Lemma elem_split (x : Z) l : x ∈ l -> exists l1 l2, l = l1 ++ x :: l2.
Proof using. apply list_elem_of_split. Qed.

(** Unlinking [x] and dropping its page and node. *)
Lemma drop_node {R} ex s0 s L C x n (m : M (bcache D) unit) (K : M (bcache D) R) (Q : R -> bcache D -> Prop) :
  cinv ex s0 L C -> nodes s0 !! x = Some n -> linked s L C -> (exists n', nodes s !! x = Some n' /\ block_number n' = block_number n) ->
  (forall y, y <> x -> nodes s !! y = nodes s0 !! y) ->
  m = (DeleteNodeFromLRU x;; DeleteNodeFromHash x) \/ m = (DeleteNodeFromHash x;; DeleteNodeFromLRU x) ->
  (forall s1 l1 l2 C', L = l1 ++ x :: l2 ->
     (forall s', nodes s' = delete x (nodes s1) -> hash_table s' = hash_table s1 -> lru_head s' = lru_head s1 -> lru_tail s' = lru_tail s1 ->
        pages s' = delete (data n) (pages s0) -> on_disk sb nblocks (disk s') ->
        (forall b, in_blk b -> b <> block_number n -> dread sb (disk s') b = dread sb (disk s0) b) -> cinv ex s' (l1 ++ l2) C') ->
     same_bodies (nodes s) (nodes s1) -> pages s1 = pages s -> disk s1 = disk s -> size s1 = size s -> capacity s1 = capacity s -> lock s1 = lock s ->
     wp K Q s1) ->
  wp (m;; K) Q s.
Proof using G.
  intros HI En HL (n' & En' & Ebn) Hsame Hm HK. assert (Hx : x ∈ L) by (apply (ci_dom _ _ _ _ _ _ HI); eauto).
  destruct (elem_split x L Hx) as (l1 & l2 & ->). set (i := block_number n mod BUFFER_CACHE_SIZE).
  assert (Hxc : x ∈ C i) by (apply (ci_mem _ _ _ _ _ _ HI _ _ (bucket_range _)); eauto).
  destruct (elem_split x (C i) Hxc) as (c1 & c2 & Ec).
  apply wp_bind. eapply wp_mono; [apply (unlink_ok s l1 x l2 C c1 c2 n' m); auto; now rewrite Ebn|].
  intros _ s1 (nds & h & t & tb & -> & HL1 & Hbod & Hhx & Hch & Htl & Htb). rewrite Ebn in Hhx, Htb. fold i in Hhx, Htb.
  destruct (NoDup_hole _ _ _ (lq_nodup _ _ _ _ (ci_lru _ _ _ _ _ _ HI))) as (Nx1 & Nx2 & _).
  destruct (ci_bucket _ _ _ _ _ _ HI i (bucket_range _)) as (_ & _ & Nc). rewrite Ec in Nc. apply NoDup_hole in Nc as (Ncx1 & Ncx2 & _).
  assert (Hht : length (hash_table s) = length (hash_table s0)) by (pose proof (lk_tab _ _ _ HL); pose proof (ci_tab _ _ _ _ _ _ HI); lia).
  apply (HK (rehash nds tb (relru nds h t s)) l1 l2 (λ j, if decide (j = i) then c1 ++ c2 else C j)); auto.
  intros s' E1 E2 E3 E4 E5 E6 E7. simpl in *.
  eapply (cinv_remove sb nblocks G ex s0 s' l1 x l2 C c1 c2 n HI En Ec); auto.
  - rewrite E1, E3, E4. eapply lruq_ext; [|exact HL1]. intros y Hy. rewrite lookup_delete_ne by (intros <-; set_solver). auto.
  - rewrite E1. apply lookup_delete_eq.
  - intros y Hy. rewrite E1, lookup_delete_ne by auto. rewrite Hbod. now rewrite Hsame.
  - intros y Hy Hyc. rewrite E1, lookup_delete_ne by auto. rewrite Hhx by exact Hyc. now rewrite Hsame.
  - rewrite E1. eapply chain_ext; [|exact Hch]. intros y Hy. rewrite lookup_delete_ne; [reflexivity|]. intros <-. set_solver.
  - rewrite E2. lia.
  - intros j. rewrite E2, Htb. fold i. destruct (decide (j = i)); [reflexivity|].
    destruct (Z.le_gt_cases 0 j) as [Hj0|Hj0]; [destruct (Z.lt_ge_cases j BUFFER_CACHE_SIZE) as [Hj1|Hj1]|].
    + rewrite (proj1 (lk_bucket _ _ _ HL j (conj Hj0 Hj1))), (proj1 (ci_bucket _ _ _ _ _ _ HI j (conj Hj0 Hj1))). reflexivity.
    + unfold arr_get. pose proof (lk_tab _ _ _ HL). destruct (j <? 0); [reflexivity|].
      rewrite !(proj2 (lookup_ge_None _ _)); auto; lia.
    + unfold arr_get. destruct (Z.ltb_spec j 0); [reflexivity|lia].
Qed.

(** Removal, with what happened to the device. *)
Definition evicted x n s s' : Prop := removed x n s s' /\ same_view s s'.

Lemma evict_ok s L C : cinv None s L C -> wp (evict sb) (λ r s',
  (r = false /\ s' = s /\ forall y m, nodes s !! y = Some m -> 0 < ref_count m) \/
  (r = true /\ exists L' C' x n, nodes s !! x = Some n /\ ref_count n <= 0 /\ cinv None s' L' C' /\ S (length L') = length L /\ evicted x n s s')) s.
Proof using G.
  intros HI. unfold evict. apply wp_bind, wp_gets, wp_bind. eapply wp_mono; [apply (victim_ok None s L C HI)|].
  intros x s0 [-> [[-> Hall]|(n & En & Hr)]]; [simpl; apply wp_ret; left; auto|].
  pose proof (node_nz _ _ _ _ _ _ HI x n En) as Hx0. rewrite (proj2 (Z.eqb_neq x 0) Hx0).
  apply wp_bind. eapply wp_nget; [exact En|]. apply wp_bind. eapply wp_nget; [exact En|]. apply wp_bind. eapply wp_nget; [exact En|].
  destruct (ci_node _ _ _ _ _ _ HI x n En) as (Hv & Hb & Hd0 & c & Pc & Lc & Hclean).
  apply wp_bind. apply (wp_mono _ (λ _ s', exists d', s' = set_disk d' s /\ dread sb d' (block_number n) = Some c /\ on_disk sb nblocks d' /\
    forall b', in_blk b' -> b' <> block_number n -> dread sb d' b' = dread sb (disk s) b')).
  { apply wp_when. destruct (is_dirty n) eqn:Edirty.
    - apply wp_bind. eapply (wp_write sb nblocks G); [apply HI|exact Hb|exact Hd0|exact Pc|exact Lc|]. intros d' H1 H2 H3. apply wp_ret. eauto.
    - exists (disk s). split; [now destruct s|]. split; [apply Hclean; easy|]. split; [apply HI|auto]. }
  intros _ s1 (d' & -> & Hdx & Hdd & Hdo). apply wp_bind, wp_modify. apply wp_assoc.
  eapply (drop_node None s _ L C x n); [exact HI|exact En| |exists n; auto|reflexivity|left; reflexivity|].
  { destruct (cinv_linked None s L C HI). split; auto. }
  intros s1 l1 l2 C' EL Hci Hbod E1 E2 E3 E4 E5. apply wp_bind, wp_modify, wp_ret. right. split; [reflexivity|].
  set (s' := set_nodes (delete x (nodes s1)) s1).
  assert (HI' : cinv None s' (l1 ++ l2) C').
  { apply Hci; try reflexivity; [exact E1| |]; simpl; rewrite E2; simpl; auto. }
  assert (HR : removed x n s s').
  { split; simpl; auto; [apply lookup_delete_eq|]. intros y Hy. rewrite lookup_delete_ne by auto. apply Hbod. }
  exists (l1 ++ l2), C', x, n. split_and!; auto.
  - rewrite EL, !length_app. simpl. lia.
  - split; [exact HR|]. intros b c' Hbin. destruct (decide (b = block_number n)) as [->|Hne].
    + rewrite (holds_cached None s L C x n c' HI En). rewrite holds_uncached by (intros y m; eapply (removed_uncached None x n s s'); eauto).
      simpl. rewrite E2. simpl. rewrite Hdx, Pc. reflexivity.
    + eapply (removed_view None x n s s'); eauto. intros b' Hb' Hne'. simpl. rewrite E2. simpl. auto.
Qed.
End Ops.
