(* ===== verification/BufferRead.v ===== *)
(** [bread]: what it returns and what it leaves, on each of its branches. *)

From S2P Require Import Prelude BlockDev Buffer BufferLists BufferOps.

Section Read.
Context {D : Type} {dv : BlockDevice D} {lw : DeviceLaws D} (sb : superblock_t) (nblocks : Z) (G : geometry sb nblocks).
Context (kmalloc : gmap Z buffer_node_t -> Z) (Hkm : forall m, kmalloc m <> 0 /\ m !! kmalloc m = None).
Abbreviation cinv := (cinv sb nblocks).
Abbreviation in_blk := (in_blk nblocks).
Abbreviation same_view := (same_view sb nblocks).
Abbreviation holds := (holds sb).
Implicit Types (s : bcache D) (L : list Z) (C : Z -> list Z).

(** Pages that are no node's buffer may come and go. *)
Lemma cinv_page ex s L C page l : cinv ex s L C -> (forall y m, nodes s !! y = Some m -> data m <> page) ->
  cinv ex (set_pages (<[page := l]> (pages s)) s) L C.
Proof using G.
  intros HI Hfr. destruct HI. split; auto. intros x n En. destruct (ci_node x n En) as (V & B & Nz & c & Pc & R).
  split_and!; auto. exists c. split; [|exact R]. simpl. rewrite lookup_insert_ne; [exact Pc|]. intros E. now apply (Hfr x n).
Qed.

Lemma view_page s page l : (forall y m, nodes s !! y = Some m -> data m <> page) -> same_view s (set_pages (<[page := l]> (pages s)) s).
Proof using G.
  intros Hfr b c _. split; (intros [(y & m & Hy & Em & Pm)|H]; [left; exists y, m; split_and!; auto|right; exact H]).
  all: simpl in *; rewrite lookup_insert_ne in *; auto; intros E; now apply (Hfr y m).
Qed.

(** The nodes in use and their buffers, over a step. *)
Definition keeps s s' : Prop := forall y m, nodes s !! y = Some m -> 0 < ref_count m ->
  exists m', nodes s' !! y = Some m' /\ block_number m' = block_number m /\ data m' = data m /\ ref_count m <= ref_count m' /\
    pages s' !! data m = pages s !! data m.

Lemma keeps_trans s1 s2 s3 : keeps s1 s2 -> keeps s2 s3 -> keeps s1 s3.
Proof using.
  intros H1 H2 y m Hy Hr. destruct (H1 y m Hy Hr) as (m1 & E1 & B1 & D1 & R1 & P1). destruct (H2 y m1 E1 ltac:(lia)) as (m2 & E2 & B2 & D2 & R2 & P2).
  exists m2. rewrite D1 in P2. split_and!; congruence || lia.
Qed.

Lemma keeps_bodies s s' : same_bodies (nodes s) (nodes s') -> pages s' = pages s -> keeps s s'.
Proof using.
  intros Hb Hp y m Hy _. destruct (same_bodies_some _ _ _ _ Hb Hy) as (m' & Hy' & E). apply body_fields in E as (_ & _ & E3 & E4 & E5).
  exists m'. rewrite Hp. split_and!; auto. lia.
Qed.

Definition uncached s b : Prop := forall y m, nodes s !! y = Some m -> block_number m <> b.
Definition unused s page : Prop := forall y m, nodes s !! y = Some m -> data m <> page.

(** One more reference to [b], and to no other block. *)
Definition counted s s' b : Prop := forall y m', nodes s' !! y = Some m' ->
  (exists m, nodes s !! y = Some m /\ block_number m = block_number m' /\ ref_count m' = ref_count m + (if block_number m' =? b then 1 else 0)) \/
  (uncached s b /\ block_number m' = b /\ ref_count m' = 1).

Lemma counted_bodies s s1 s' b : same_bodies (nodes s1) (nodes s') -> counted s s1 b -> counted s s' b.
Proof using.
  intros Hb H y m' Hy. destruct (same_bodies_some _ _ _ _ (same_bodies_sym _ _ Hb) Hy) as (m1 & H1 & E). apply body_fields in E as (_ & _ & E3 & _ & E5).
  rewrite <- E3, <- E5. exact (H y m1 H1).
Qed.

(** What a successful [bread_locked] leaves: block [b] in a buffer in use. *)
Definition got s' (b d : Z) (c : list Z) : Prop :=
  d <> 0 /\ exists x n, nodes s' !! x = Some n /\ block_number n = b /\ data n = d /\ 0 < ref_count n /\ pages s' !! d = Some c.

Lemma got_same_core s s' b d c : same_core (nodes s) (nodes s') -> pages s' = pages s -> got s b d c -> got s' b d c.
Proof using.
  intros Hc Hp (Hd & x & n & En & Eb & Ed & Hr & Pc). split; [exact Hd|]. destruct (same_core_some _ _ _ _ Hc En) as (n' & En' & E).
  apply core_body, body_fields in E as (_ & _ & E3 & E4 & E5). exists x, n'. rewrite Hp. split_and!; congruence.
Qed.

(** Changing the flags or the count of a node. *)
Lemma view_upd s s' x n n' : nodes s !! x = Some n -> nodes s' = <[x := n']> (nodes s) -> block_number n' = block_number n -> data n' = data n ->
  pages s' = pages s -> disk s' = disk s -> same_view s s'.
Proof using.
  intros En Es Eb Ed Ep Edk b c _. unfold BufferLists.holds. rewrite Es, Ep, Edk.
  split; (intros [(y & m & Hy & Em & Pm)|[Hno Hd]]; [left|right; split; [|exact Hd]]).
  - apply lookup_insert_Some in Hy as [[<- <-]|[_ Hy]]; [exists x, n|exists y, m]; split_and!; congruence.
  - intros y m Hy. destruct (decide (x = y)) as [<-|].
    + assert (m = n) as -> by congruence. rewrite <- Eb. apply (Hno x n'), lookup_insert_eq.
    + apply (Hno y m). now rewrite lookup_insert_ne.
  - destruct (decide (x = y)) as [<-|].
    + assert (m = n) as -> by congruence. exists x, n'. rewrite lookup_insert_eq. split_and!; congruence.
    + exists y, m. rewrite lookup_insert_ne by assumption. auto.
  - intros y m Hy. apply lookup_insert_Some in Hy as [[<- <-]|[_ Hy]]; [rewrite Eb; eauto|eauto].
Qed.

(** A hit. *)
Lemma hit_ok s L C x n : cinv None s L C -> nodes s !! x = Some n -> 0 <= ref_count n < 2 ^ 64 - 1 ->
  wp (let* d := nget x data in let* rc := nget x ref_count in nset x (set_refs (wrap64 (rc + 1)));; SwitchNodeToLRUHead x;; mutex_unlock;; ret (d, false))
    (λ r s', exists L' C' c, r = (data n, false) /\ cinv None s' L' C' /\ length L' = length L /\ same_view s s' /\ keeps s s' /\ counted s s' (block_number n) /\
       got s' (block_number n) (data n) c /\ holds s (block_number n) c /\ lock s' = false /\ size s' = size s /\ capacity s' = capacity s) s.
Proof using G.
  intros HI En Hr. destruct (ci_node _ _ _ _ _ _ HI x n En) as (V & B & Nz & c & Pc & Lc & Hc).
  apply wp_bind. eapply wp_nget; [exact En|]. apply wp_bind. eapply wp_nget; [exact En|]. apply wp_bind. eapply wp_nset; [exact En|].
  rewrite wrap64_small by lia. set (n' := set_refs (ref_count n + 1) n). set (s1 := set_nodes (<[x := n']> (nodes s)) s).
  assert (E1 : nodes s1 !! x = Some n') by apply lookup_insert_eq.
  assert (HI1 : cinv None s1 L C).
  { eapply (cinv_upd sb nblocks None None s s1 L C x n n' HI En); auto; [|apply HI]. intros y m Hm. simpl in Hm. apply lookup_insert_Some in Hm as [[<- <-]|[_ Hm]].
    - apply (ci_node _ _ _ _ _ _ HI x n En).
    - apply (ci_node _ _ _ _ _ _ HI y m Hm). }
  apply wp_bind. eapply wp_mono; [apply (switch_ok sb nblocks G None s1 L C x n' HI1 E1)|].
  intros _ s2 (nds & h & t & L' & -> & Hcore & HP & HI2). apply wp_bind, wp_modify, wp_ret.
  set (s3 := set_lock false _). exists L', C, c.
  assert (Hg1 : got s1 (block_number n) (data n) c) by (split; [exact Nz|]; exists x, n'; split_and!; auto; simpl; lia).
  assert (Hfwd : keeps s s1).
  { intros y m Hy Hm. simpl. destruct (decide (x = y)) as [<-|]; [rewrite lookup_insert_eq; exists n'; assert (m = n) as -> by congruence; simpl; split_and!; auto; lia|].
    rewrite lookup_insert_ne by assumption. exists m. split_and!; auto. lia. }
  split_and!; auto.
  - now destruct HI2.
  - now rewrite HP.
  - apply (same_view_trans sb nblocks s s1); [apply (view_upd s s1 x n n'); auto|]. apply same_view_bodies; auto using same_core_bodies.
  - eapply keeps_trans; [exact Hfwd|]. apply keeps_bodies; auto using same_core_bodies.
  - eapply (counted_bodies s s1); [now apply same_core_bodies|]. intros y m Hy. left. simpl in Hy. apply lookup_insert_Some in Hy as [[<- <-]|[Hne Hy]].
    + exists n. split_and!; auto. simpl. now rewrite Z.eqb_refl.
    + exists m. split_and!; auto. destruct (Z.eqb_spec (block_number m) (block_number n)); [|lia]. elim Hne. apply (ci_inj _ _ _ _ _ _ HI x y n m En Hy). auto.
  - eapply (got_same_core s1); auto.
  - apply (holds_cached sb nblocks G None s L C x n c HI En), Pc.
Qed.
(** ** A miss *)


(** The new node, on both lists. *)
Lemma link_ok s L C b : let i := b mod BUFFER_CACHE_SIZE in let x := kmalloc (nodes s) in
  let n := set_hash_next (hdz 0 (C i)) zero_node in cinv None s L C ->
  wp (let* node := gets (λ s, kmalloc (nodes s)) in
      modify (λ s, set_nodes (<[node := zero_node]> (nodes s)) s);;
      let* h := bucket_get i in
      nset node (set_hash_next h);;
      bucket_set i node;;
      AddNodeToLRUHead node;;
      ret node)
     (λ r s', r = x /\ exists nds h t, s' = relru nds h t (rehash (<[x := n]> (nodes s)) (<[Z.to_nat i := x]> (hash_table s)) s) /\
        lruq nds h t (L ++ [x]) /\ same_core (<[x := n]> (nodes s)) nds) s.
Proof using G Hkm.
  intros i x n HI. pose proof (bucket_range b) as Hi. fold i in Hi. destruct (Hkm (nodes s)) as [Hx0 Hx]. fold x in Hx0, Hx.
  assert (HxL : x ∉ L) by (intros Hin%(ci_dom _ _ _ _ _ _ HI); rewrite Hx in Hin; now destruct Hin).
  apply wp_bind, wp_gets. fold x. apply wp_bind, wp_modify. apply wp_bind. eapply wp_bucket_get; [apply (ci_bucket _ _ _ _ _ _ HI i Hi)|].
  apply wp_bind. eapply wp_nset; [apply lookup_insert_eq|]. simpl. rewrite insert_insert_eq.
  apply wp_bind. eapply wp_bucket_set; [simpl; rewrite (ci_tab _ _ _ _ _ _ HI); exact Hi|]. simpl.
  apply wp_bind. eapply wp_mono; [apply (add_lru_spec _ L x n)|]; auto.
  - simpl. eapply lruq_ext; [|apply HI]. intros y Hy. simpl. rewrite lookup_insert_ne by (intros <-; auto). auto.
  - apply lookup_insert_eq.
  - intros _ s' (nds & h & t & -> & HL & Hc). apply wp_ret. split; [reflexivity|]. exists nds, h, t. auto.
Qed.

(** Adding a node for [b] changes the view of no other block. *)
Lemma added_view s s' x n b b' c : nodes s !! x = None -> nodes s' !! x = Some n -> block_number n = b ->
  (forall y, y <> x -> body <$> nodes s' !! y = body <$> nodes s !! y) -> pages s' = pages s -> disk s' = disk s ->
  b' <> b -> (holds s' b' c <-> holds s b' c).
Proof using.
  intros Hx Hn Eb Hrest Hp Hd Hne. unfold BufferLists.holds. rewrite Hp, Hd.
  assert (Hto : forall y m, nodes s !! y = Some m -> exists m', nodes s' !! y = Some m' /\ block_number m' = block_number m /\ data m' = data m).
  { intros y m Hy. assert (Hyx : y <> x) by congruence. specialize (Hrest y Hyx). rewrite Hy in Hrest. destruct (nodes s' !! y) as [m'|]; [|easy].
    apply (inj Some), body_fields in Hrest as (_ & _ & E3 & E4 & _). exists m'. auto. }
  assert (Hof : forall y m', nodes s' !! y = Some m' -> block_number m' = b' -> exists m, nodes s !! y = Some m /\ block_number m' = block_number m /\ data m' = data m).
  { intros y m' Hy Em. assert (Hyx : y <> x) by congruence. specialize (Hrest y Hyx). rewrite Hy in Hrest. destruct (nodes s !! y) as [m|]; [|easy].
    apply (inj Some), body_fields in Hrest as (_ & _ & E3 & E4 & _). exists m. auto. }
  split; (intros [(y & m & Hy & Em & Pm)|[Hno Hc]]; [left|right; split; [|exact Hc]]).
  - destruct (Hof y m Hy Em) as (m0 & H0 & E1 & E2). exists y, m0. split_and!; congruence.
  - intros y m Hy. destruct (Hto y m Hy) as (m' & H' & E1 & _). rewrite <- E1. now apply (Hno y).
  - destruct (Hto y m Hy) as (m0 & H0 & E1 & E2). exists y, m0. split_and!; congruence.
  - intros y m Hy Em. destruct (Hof y m Hy Em) as (m0 & H0 & E1 & _). apply (Hno y m0 H0). congruence.
Qed.

(** What [bread_locked] leaves on a miss: block [b] has a node whose buffer is
    still to be read. *)
Definition pending s s' L (b page : Z) (junk : list Z) : Prop :=
  (exists L' C', cinv (Some b) s' L' C' /\ length L' = S (length L)) /\
  (forall b' c, in_blk b' -> b' <> b -> (holds s' b' c <-> holds s b' c)) /\ keeps s s' /\ counted s s' b /\ got s' b page junk /\
  disk s' = disk s /\ lock s' = false /\ size s' = size s /\ capacity s' = capacity s.

Lemma fill_ok s L C b page junk nds h t : let i := b mod BUFFER_CACHE_SIZE in let x := kmalloc (nodes s) in
  let n := set_hash_next (hdz 0 (C i)) zero_node in
  cinv None s L C -> Z.of_nat (length L) < BUFFER_CACHE_CAP -> in_blk b -> uncached s b -> unused s page -> page <> 0 ->
  pages s !! page = Some junk -> Z.of_nat (length junk) = block_size sb ->
  lruq nds h t (L ++ [x]) -> same_core (<[x := n]> (nodes s)) nds ->
  wp (nset x (set_valid true);; nset x (set_block b);; nset x (set_data page);; nset x (set_refs 1);; SwitchNodeToLRUHead x;; mutex_unlock;; ret (page, true))
    (λ r s', r = (page, true) /\ pending s s' L b page junk)
    (relru nds h t (rehash (<[x := n]> (nodes s)) (<[Z.to_nat i := x]> (hash_table s)) s)).
Proof using G Hkm.
  intros i x n HI Hlen Hb Hun Hpg Hpg0 Hp Hj HL Hc. destruct (Hkm (nodes s)) as [Hx0 Hx]. fold x in Hx0, Hx.
  pose proof (bucket_range b) as Hi. fold i in Hi. pose proof (ci_tab _ _ _ _ _ _ HI) as Htab.
  destruct (same_core_some _ _ _ _ Hc (lookup_insert_eq (nodes s) x n)) as (n1 & En1 & Ec1).
  apply wp_bind. eapply wp_nset; [exact En1|]. simpl. apply wp_bind. eapply wp_nset; [apply lookup_insert_eq|]. simpl. rewrite insert_insert_eq.
  apply wp_bind. eapply wp_nset; [apply lookup_insert_eq|]. simpl. rewrite insert_insert_eq.
  apply wp_bind. eapply wp_nset; [apply lookup_insert_eq|]. simpl. rewrite insert_insert_eq.
  set (n2 := set_refs 1 _). set (s1 := set_nodes _ _).
  assert (En2 : nodes s1 !! x = Some n2) by apply lookup_insert_eq.
  assert (Hold : forall y, y <> x -> core <$> nodes s1 !! y = core <$> nodes s !! y).
  { intros y Hy. simpl. rewrite lookup_insert_ne by auto. rewrite (Hc y). now rewrite lookup_insert_ne by auto. }
  assert (Hbod : forall y, y <> x -> body <$> nodes s1 !! y = body <$> nodes s !! y).
  { intros y Hy. specialize (Hold y Hy). destruct (nodes s1 !! y), (nodes s !! y); simpl in *; try easy. apply (inj Some) in Hold. f_equal. now apply core_body. }
  assert (HI1 : cinv (Some b) s1 (L ++ [x]) (λ j, if decide (j = i) then x :: C i else C j)).
  { eapply (cinv_insert sb nblocks G s s1 L C x n2 b page junk HI Hx Hx0 Hlen Hb); auto.
    - intros y m Hm. split; [now apply (Hun y)|now apply (Hpg y)].
    - split_and!; auto. simpl. apply (f_equal hash_next) in Ec1. exact Ec1.
    - simpl. eapply lruq_ext; [|exact HL]. intros y _. simpl. destruct (decide (x = y)) as [<-|]; [rewrite lookup_insert_eq, En1; auto|now rewrite lookup_insert_ne].
    - simpl. apply length_insert.
    - intros j _. simpl. rewrite arr_get_insert by (rewrite Htab; exact Hi). fold i. destruct (decide (i = j)), (decide (j = i)); auto; congruence. }
  apply wp_bind. eapply wp_mono; [apply (switch_ok sb nblocks G _ s1 _ _ x n2 HI1 En2)|].
  intros _ s2 (nds2 & h2 & t2 & L' & -> & Hcore & HP & HI2). apply wp_bind, wp_modify, wp_ret. split; [reflexivity|].
  assert (Hb2 : same_bodies (nodes s1) nds2) by now apply same_core_bodies.
  split; [exists L', (λ j, if decide (j = i) then x :: C i else C j); split; [now destruct HI2|rewrite HP, length_app; simpl; lia]|].
  split_and!; auto.
  - intros b' c' Hb' Hne. rewrite <- (added_view s s1 x n2 b b' c' Hx En2 eq_refl Hbod eq_refl eq_refl Hne).
    apply (same_view_bodies sb nblocks s1 (set_lock false (relru nds2 h2 t2 s1)) Hb2 eq_refl eq_refl b' c' Hb').
  - intros y m Hy Hr. assert (y <> x) by congruence. specialize (Hbod y ltac:(assumption)). simpl. pose proof (Hb2 y) as E. rewrite Hbod, Hy in E.
    destruct (nds2 !! y) as [m'|]; [|easy]. apply (inj Some), body_fields in E as (_ & _ & E3 & E4 & E5). exists m'. split_and!; auto. lia.
  - eapply (counted_bodies s s1); [exact Hb2|]. intros y m Hy. destruct (decide (y = x)) as [->|Hyx]; [right; assert (m = n2) as -> by congruence; auto|left].
    specialize (Hbod y Hyx). rewrite Hy in Hbod. destruct (nodes s !! y) as [m0|] eqn:E0; [|easy]. apply (inj Some), body_fields in Hbod as (_ & _ & E3 & _ & E5).
    exists m0. split_and!; auto. destruct (Z.eqb_spec (block_number m) b); [|lia]. elim (Hun y m0 E0). congruence.
  - eapply (got_same_core s1); auto. split; [exact Hpg0|]. exists x, n2. split_and!; auto. simpl. lia.
Qed.
(** Making room. *)
Definition full s : Prop := size s = BUFFER_CACHE_CAP /\ forall y m, nodes s !! y = Some m -> 0 < ref_count m.
Definition shrunk s s' : Prop :=
  (forall y m', nodes s' !! y = Some m' -> exists m, nodes s !! y = Some m /\ block_number m' = block_number m /\ data m' = data m /\ ref_count m' = ref_count m) /\
  forall p, unused s p -> pages s' !! p = pages s !! p.

Lemma room_ok s L C : cinv None s L C -> sized s L ->
  wp (if size s =? capacity s then evict sb else modify (set_size (wrap64 (size s + 1)));; ret true)
    (λ r s', (r = false /\ s' = s /\ full s) \/
       (r = true /\ (exists L' C', cinv None s' L' C' /\ Z.of_nat (length L') < BUFFER_CACHE_CAP /\ size s' = Z.of_nat (length L') + 1) /\
        same_view s s' /\ keeps s s' /\ shrunk s s' /\ capacity s' = capacity s /\ lock s' = lock s)) s.
Proof using G.
  intros HI [Hsz Hcap]. rewrite Hcap. destruct (Z.eqb_spec (size s) BUFFER_CACHE_CAP) as [E|E].
  - eapply wp_mono; [apply (evict_ok sb nblocks G s L C HI)|].
    intros r s' [(-> & -> & Hall)|(-> & L' & C' & x & n & En & Hr & HI' & Hlen & HR & Hview)]; [left; split_and!; auto; split; auto|right].
    destruct HR as [R1 R2 R3 (R4 & R5 & R6)]. split; [reflexivity|]. split_and!; auto.
    + exists L', C'. split_and!; auto; lia.
    + intros y m Hy Hm. assert (Hyx : y <> x) by (intros ->; assert (m = n) as -> by congruence; lia). specialize (R2 y Hyx). rewrite Hy in R2.
      destruct (nodes s' !! y) as [m'|]; [|easy]. apply (inj Some), body_fields in R2 as (_ & _ & E3 & E4 & E5). exists m'. split_and!; auto; [lia|].
      rewrite R3. apply lookup_delete_ne. intros Ed. apply Hyx. symmetry. apply (ci_inj _ _ _ _ _ _ HI x y n m En Hy). auto.
    + split.
      * intros y m' Hy. assert (Hyx : y <> x) by congruence. specialize (R2 y Hyx). rewrite Hy in R2. destruct (nodes s !! y) as [m|]; [|easy].
        apply (inj Some), body_fields in R2 as (_ & _ & E3 & E4 & E5). exists m. auto.
      * intros p Hp. rewrite R3. apply lookup_delete_ne. now apply (Hp x n).
    + congruence.
  - apply wp_bind, wp_modify, wp_ret. right. pose proof (ci_len _ _ _ _ _ _ HI) as Hlen. unfold BUFFER_CACHE_CAP in *.
    rewrite wrap64_small by lia. split; [reflexivity|].
    split; [exists L, C; split_and!; [now destruct HI|lia|simpl; lia]|]. split; [apply same_view_bodies; auto; intros y; reflexivity|].
    split; [apply keeps_bodies; [intros y; reflexivity|reflexivity]|]. split; [split; [intros y m; exists m; auto|reflexivity]|auto].
Qed.

(** What [bread] needs of its caller and of the page allocator. *)
Definition readable s (b page : Z) (junk : list Z) : Prop :=
  in_blk b /\ lock s = false /\ unused s page /\ Z.of_nat (length junk) = block_size sb /\
  forall y m, nodes s !! y = Some m -> 0 <= ref_count m < 2 ^ 64 - 1.

(** The outcomes of its locked part. *)
Inductive locked_outcome s (L : list Z) (b page : Z) (junk : list Z) (s' : bcache D) : Z * bool -> Prop :=
  | lo_hit L' C' d c : cinv None s' L' C' -> sized s' L' -> same_view s s' -> keeps s s' -> counted s s' b -> got s' b d c -> holds s b c -> lock s' = false ->
      locked_outcome s L b page junk s' (d, false)
  | lo_miss L' C' : cinv (Some b) s' L' C' -> sized s' L' -> (forall b' c, in_blk b' -> b' <> b -> (holds s' b' c <-> holds s b' c)) ->
      uncached s b -> (forall c, holds s b c <-> dread sb (disk s') b = Some c) -> keeps s s' -> counted s s' b -> got s' b page junk -> lock s' = false ->
      locked_outcome s L b page junk s' (page, true)
  | lo_nomem : page = 0 -> uncached s b -> s' = s -> locked_outcome s L b page junk s' (0, false)
  | lo_full : full s -> uncached s b -> s' = set_pages (<[page := junk]> (pages s)) (set_lock true s) -> locked_outcome s L b page junk s' (0, false).

Lemma same_lock s : lock s = false -> set_lock false (set_lock true s) = s.
Proof using. destruct s. simpl. now intros ->. Qed.

Lemma miss_ok s L C b page junk : cinv None s L C -> sized s L -> lock s = true -> in_blk b -> uncached s b -> unused s page -> page <> 0 ->
  Z.of_nat (length junk) = block_size sb -> pages s !! page = Some junk ->
  let i := b mod BUFFER_CACHE_SIZE in
  wp (let* target :=
        (let* n := gets size in let* cap := gets capacity in
         let* room := (if n =? cap then evict sb else modify (set_size (wrap64 (n + 1)));; ret true) in
         if negb room then ret 0 else
         (let* node := gets (λ s, kmalloc (nodes s)) in
          modify (λ s, set_nodes (<[node := zero_node]> (nodes s)) s);;
          let* h := bucket_get i in
          nset node (set_hash_next h);;
          bucket_set i node;;
          AddNodeToLRUHead node;;
          ret node)) in
      if target =? 0 then ret (0, false) else
      (nset target (set_valid true);; nset target (set_block b);; nset target (set_data page);; nset target (set_refs 1);;
       SwitchNodeToLRUHead target;; mutex_unlock;; ret (page, true)))
    (λ r s', (r = (0, false) /\ s' = s /\ full s) \/
       (r = (page, true) /\ (exists L' C', cinv (Some b) s' L' C' /\ sized s' L') /\
        (forall b' c, in_blk b' -> b' <> b -> (holds s' b' c <-> holds s b' c)) /\
        (forall c, holds s b c <-> dread sb (disk s') b = Some c) /\ keeps s s' /\ counted s s' b /\ got s' b page junk /\ lock s' = false)) s.
Proof using G Hkm.
  intros HI Hsz Hlk Hb Hun Hpg Hpg0 Hj Hp i. apply wp_bind.
  apply (wp_mono _ (λ x s1, (x = 0 /\ s1 = s /\ full s) \/ exists s0 L0 C0 nds h t, x = kmalloc (nodes s0) /\
    cinv None s0 L0 C0 /\ Z.of_nat (length L0) < BUFFER_CACHE_CAP /\ size s0 = Z.of_nat (length L0) + 1 /\
    same_view s s0 /\ keeps s s0 /\ shrunk s s0 /\ capacity s0 = capacity s /\
    s1 = relru nds h t (rehash (<[x := set_hash_next (hdz 0 (C0 i)) zero_node]> (nodes s0)) (<[Z.to_nat i := x]> (hash_table s0)) s0) /\
    lruq nds h t (L0 ++ [x]) /\ same_core (<[x := set_hash_next (hdz 0 (C0 i)) zero_node]> (nodes s0)) nds)).
  { apply wp_bind, wp_gets, wp_bind, wp_gets, wp_bind. eapply wp_mono; [apply (room_ok s L C HI Hsz)|].
    intros r s0 [(-> & -> & Hf)|(-> & (L0 & C0 & HI0 & Hl0 & Hs0) & Hv & Hk & Hsh & Hc & _)]; [apply wp_ret; auto|]. cbn [negb].
    eapply wp_mono; [apply (link_ok s0 L0 C0 b HI0)|]. intros x s1 (-> & nds & h & t & Es & HL & Hco). right.
    exists s0, L0, C0, nds, h, t. split_and!; auto. }
  intros x s1 [(-> & -> & Hf)|(s0 & L0 & C0 & nds & h & t & -> & HI0 & Hl0 & Hs0 & Hv & Hk & [Hsh1 Hsh2] & Hc & -> & HL & Hco)]; [simpl; apply wp_ret; auto|].
  destruct (Hkm (nodes s0)) as [Hx0 _]. rewrite (proj2 (Z.eqb_neq _ 0) Hx0).
  assert (Hun0 : uncached s0 b) by (intros y m' Hy; destruct (Hsh1 y m' Hy) as (m & Hm & -> & _ & _); now apply (Hun y)).
  assert (Hpg1 : unused s0 page) by (intros y m' Hy; destruct (Hsh1 y m' Hy) as (m & Hm & _ & -> & _); now apply (Hpg y)).
  eapply wp_mono; [eapply (fill_ok s0 L0 C0 b page junk nds h t); auto; now rewrite Hsh2|].
  intros r s' (-> & (L' & C' & HI' & Hlen') & Hoth & Hk' & Hct & Hgot & Hdk & Hlk' & Hsz' & Hcap'). right. split; [reflexivity|]. split_and!; auto.
  - exists L', C'. split; [exact HI'|]. destruct Hsz as [_ Hcap]. split; [lia|congruence].
  - intros b' c Hb' Hne. rewrite Hoth by auto. now apply Hv.
  - intros c. rewrite <- (Hv b c Hb), Hdk. now apply holds_uncached.
  - eapply keeps_trans; eauto.
  - intros y m' Hy. destruct (Hct y m' Hy) as [(m & Hm & E1 & E2)|(_ & E1 & E2)]; [left|right; auto].
    destruct (Hsh1 y m Hm) as (m0 & H0 & F1 & _ & F3). exists m0. split_and!; auto; [congruence|lia].
Qed.
Lemma bread_locked_ok s L C b page junk : cinv None s L C -> sized s L -> readable s b page junk ->
  wp (bread_locked sb kmalloc b page junk) (λ r s', locked_outcome s L b page junk s' r) s.
Proof using G Hkm.
  intros HI Hsz (Hb & Hlk & Hpg & Hj & Hrc). unfold bread_locked, mutex_lock.
  apply wp_bind, wp_bind, wp_gets. rewrite Hlk. apply wp_modify. set (s1 := set_lock true s).
  assert (HI1 : cinv None s1 L C) by now destruct HI.
  apply wp_bind. eapply wp_bucket_get; [apply (ci_bucket _ _ _ _ _ _ HI1 _ (bucket_range b))|].
  apply wp_bind. eapply wp_mono; [apply (bread_search_ok sb nblocks G None s1 L C b HI1)|].
  intros r s2 [-> [[-> Hun]|(x & n & -> & En & Eb)]].
  - destruct (Z.eqb_spec page 0) as [->|Hpg0].
    { apply wp_bind, wp_modify, wp_ret. apply lo_nomem; [reflexivity|exact Hun|]. subst s1. now apply same_lock. }
    apply wp_bind, wp_modify. simpl Z.eqb. cbn iota.
    eapply wp_mono; [apply (miss_ok (set_pages (<[page := junk]> (pages s1)) s1) L C b page junk); auto|].
    + now apply cinv_page.
    + apply lookup_insert_eq.
    + intros r s' [(-> & -> & Hf)|(-> & (L' & C' & HI' & Hsz') & Hoth & Hd & Hk & Hct & Hgot & Hlk')]; [now apply lo_full|].
      assert (Hv : same_view s (set_pages (<[page := junk]> (pages s1)) s1)) by apply (view_page s page junk Hpg).
      eapply lo_miss; eauto.
      * intros b' c Hb' Hne. rewrite Hoth by auto. apply (Hv b' c Hb').
      * intros c. rewrite <- Hd. symmetry. apply (Hv b c Hb).
      * eapply keeps_trans; [|exact Hk]. intros y m Hy Hr. exists m. split_and!; auto; [lia|]. apply lookup_insert_ne. intros E. now apply (Hpg y m).
  - eapply wp_mono; [apply (hit_ok s1 L C x n HI1 En), (Hrc x n En)|].
    intros r s' (L' & C' & c & -> & HI' & Hlen & Hv & Hk & Hct & Hg & Hh & Hl' & Hsz' & Hcap'). rewrite Eb in Hct, Hg, Hh.
    eapply lo_hit; eauto. destruct Hsz. split; [rewrite Hlen; simpl in *; congruence|simpl in *; congruence].
Qed.

(** [bread], run without another task between its two parts. *)
Definition bread_post s (b page : Z) (junk : list Z) (d : Z) s' : Prop :=
  ((exists L' C', cinv None s' L' C' /\ sized s' L') /\ same_view s s' /\ keeps s s' /\ counted s s' b /\ lock s' = false /\
   exists c, got s' b d c /\ holds s b c) \/
  (d = 0 /\ uncached s b /\ ((page = 0 /\ s' = s) \/ (full s /\ s' = set_pages (<[page := junk]> (pages s)) (set_lock true s)))).

Lemma bread_ok s L C b page junk : cinv None s L C -> sized s L -> readable s b page junk ->
  wp (bread sb kmalloc b page junk) (bread_post s b page junk) s.
Proof using G Hkm.
  intros HI Hsz HR. pose proof HR as (Hb & _). unfold bread. apply wp_bind. eapply wp_mono; [now apply (bread_locked_ok s L C)|].
  intros r s1 H. destruct H as [L' C' d c HI' Hs' Hv Hk Hct Hg Hh Hl|L' C' HI' Hs' Hoth Hun Hd Hk Hct Hg Hl|Hp Hun ->|Hf Hun ->].
  - apply wp_ret. left. split_and!; eauto.
  - destruct Hg as (Hpg0 & x & n & En & Eb & Ed & Hr & Pj). apply wp_bind. eapply (wp_read sb nblocks G); [apply HI'|exact Hb|exact Hpg0|].
    intros l Hl1 Hl2. apply wp_ret. left. set (s' := set_pages _ s1).
    assert (Hpgs : forall y m, nodes s1 !! y = Some m -> y <> x -> pages s' !! data m = pages s1 !! data m).
    { intros y m Hy Hne. apply lookup_insert_ne. intros E. apply Hne, (ci_inj _ _ _ _ _ _ HI' y x m n Hy En). right. congruence. }
    assert (HI2 : cinv None s' L' C').
    { eapply (cinv_upd sb nblocks (Some b) None s1 s' L' C' x n n HI' En); auto; [now rewrite insert_id| |apply HI'].
      intros y m Hy. change (nodes s1 !! y = Some m) in Hy. destruct (ci_node _ _ _ _ _ _ HI' y m Hy) as (V & B & Nz & c & Pc & Lc & Hc). split_and!; auto.
      destruct (decide (y = x)) as [->|Hne].
      - assert (m = n) as -> by congruence. exists l. rewrite Ed, Eb. split_and!; auto. apply lookup_insert_eq.
      - exists c. rewrite (Hpgs y m Hy Hne). split_and!; auto. intros Hdirty _. apply Hc; [exact Hdirty|]. intros [= E]. apply Hne, (ci_inj _ _ _ _ _ _ HI' y x m n Hy En). left. congruence. }
    assert (Hl' : holds s b l) by now apply Hd. split_and!; auto; [eauto| | |].
    + intros b' c Hb'. destruct (decide (b' = b)) as [->|Hne].
      * rewrite <- Eb at 1. rewrite (holds_cached sb nblocks G None s' L' C' x n c HI2 En), Hd, Ed. simpl. rewrite lookup_insert_eq, Hl1. reflexivity.
      * rewrite <- (Hoth b' c Hb' Hne). unfold BufferLists.holds. split; (intros [(y & m & Hy & Em & Pm)|H]; [left; exists y, m; split_and!; auto|right; exact H]).
        all: change (nodes s1 !! y = Some m) in Hy; assert (Hyx : y <> x) by (intros ->; congruence); pose proof (Hpgs y m Hy Hyx) as Ep; congruence.
    + intros y m Hy Hm. destruct (Hk y m Hy Hm) as (m' & E1 & E2 & E3 & E4 & E5). exists m'. split_and!; auto. rewrite <- E3, (Hpgs y m' E1); [rewrite E3; exact E5|].
      intros ->. apply (Hun x m Hy). congruence.
    + exists l. split; [|exact Hl']. split; [exact Hpg0|]. exists x, n. split_and!; auto. apply lookup_insert_eq.
  - apply wp_ret. right. auto.
  - apply wp_ret. right. auto.
Qed.
End Read.
