(* ===== verification/BufferWrite.v ===== *)
(** Releasing, storing, writing back and dropping cached blocks. *)

From S2P Require Import Prelude BlockDev Buffer BufferLists BufferOps BufferRead.

Section Write.
Context {D : Type} {dv : BlockDevice D} {lw : DeviceLaws D} (sb : superblock_t) (nblocks : Z) (G : geometry sb nblocks).
Abbreviation cinv := (cinv sb nblocks).
Abbreviation in_blk := (in_blk nblocks).
Abbreviation same_view := (same_view sb nblocks).
Abbreviation holds := (holds sb).
Abbreviation dread := (dread sb).
Implicit Types (s : bcache D) (L : list Z) (C : Z -> list Z).

(** The shape [brelse], [bwrite], [bflush] and [binvalidate] share. *)
Lemma found_ok ex s L C b (body : Z -> M (bcache D) unit) (Q : bcache D -> Prop) : cinv ex s L C -> lock s = false ->
  (uncached s b -> Q s) ->
  (forall x n, nodes s !! x = Some n -> block_number n = b -> wp (body x) (λ _ s', Q (set_lock false s')) (set_lock true s)) ->
  wp (mutex_lock;; let* node := find_node true b in when (negb (node =? 0)) (body node);; mutex_unlock) (λ _ s', Q s') s.
Proof using G.
  intros HI Hlk Hno Hyes. unfold mutex_lock. apply wp_bind, wp_bind, wp_gets. rewrite Hlk. apply wp_modify.
  assert (HI1 : cinv ex (set_lock true s) L C) by now destruct HI.
  apply wp_bind. eapply wp_mono; [apply (find_node_ok sb nblocks G ex _ L C b HI1)|]. intros x s1 [-> [[-> Hun]|(n & En & Eb)]].
  - simpl. apply wp_bind, wp_ret, wp_modify. rewrite same_lock by exact Hlk. exact (Hno Hun).
  - pose proof (node_nz _ _ _ _ _ _ HI1 x n En) as Hx0. rewrite (proj2 (Z.eqb_neq x 0) Hx0). simpl.
    apply wp_bind. eapply wp_mono; [apply (Hyes x n En Eb)|]. intros u s' HQ. apply wp_modify, HQ.
Qed.

Lemma cinv_setlock ex v s L C : cinv ex s L C -> cinv ex (set_lock v s) L C.
Proof using. now intros []. Qed.

(** ** [brelse] *)
Definition dropped (b : Z) (m : buffer_node_t) : buffer_node_t :=
  if (block_number m =? b) && (0 <? ref_count m) then set_refs (ref_count m - 1) m else m.

Lemma brelse_ok s L C b : cinv None s L C -> lock s = false ->
  wp (brelse b) (λ _ s', cinv None s' L C /\ same_view s s' /\ nodes s' = dropped b <$> nodes s /\ pages s' = pages s /\ disk s' = disk s /\ lock s' = false /\
    size s' = size s /\ capacity s' = capacity s) s.
Proof using G.
  intros HI Hlk. apply (found_ok None s L C b _ (λ s', cinv None s' L C /\ same_view s s' /\ nodes s' = dropped b <$> nodes s /\ pages s' = pages s /\
    disk s' = disk s /\ lock s' = false /\ size s' = size s /\ capacity s' = capacity s) HI Hlk).
  - intros Hun. split_and!; auto using same_view_refl. apply map_eq. intros y. rewrite lookup_fmap. destruct (nodes s !! y) as [m|] eqn:Ey; [|reflexivity].
    simpl. unfold dropped. now rewrite (proj2 (Z.eqb_neq _ _) (Hun y m Ey)).
  - intros x n En Eb.
    assert (Hmap : forall n', n' = dropped b n -> dropped b <$> nodes s = <[x := n']> (nodes s)).
    { intros n' ->. apply map_eq. intros y. rewrite lookup_fmap. destruct (decide (x = y)) as [<-|Hne]; [now rewrite lookup_insert_eq, En|].
      rewrite lookup_insert_ne by exact Hne. destruct (nodes s !! y) as [m|] eqn:Ey; [|reflexivity]. simpl. f_equal. unfold dropped.
      destruct (Z.eqb_spec (block_number m) b); [|reflexivity]. elim Hne. apply (ci_inj _ _ _ _ _ _ HI x y n m En Ey). left. congruence. }
    apply wp_bind. eapply wp_nget; [exact En|]. apply wp_when. destruct (Z.ltb_spec 0 (ref_count n)) as [Hr|Hr].
    + eapply wp_nset; [exact En|]. set (n' := set_refs _ n). rewrite (Hmap n') by (unfold dropped; rewrite Eb, Z.eqb_refl, (proj2 (Z.ltb_lt _ _) Hr); reflexivity).
      split; [|split; [apply (view_upd sb nblocks s _ x n n'); auto|split_and!; auto]].
      eapply (cinv_upd sb nblocks None None s _ L C x n n' HI En); auto; [|apply HI]. intros y m Hm. simpl in Hm. apply lookup_insert_Some in Hm as [[<- <-]|[_ Hm]].
      * apply (ci_node _ _ _ _ _ _ HI x n En).
      * apply (ci_node _ _ _ _ _ _ HI y m Hm).
    + rewrite (Hmap n) by (unfold dropped; rewrite (proj2 (Z.ltb_ge _ _) Hr), andb_false_r; reflexivity). rewrite insert_id by exact En.
      replace (set_lock false (set_lock true s)) with s by (symmetry; now apply same_lock). split_and!; auto using same_view_refl.
Qed.

(** ** A store through the buffer, then [bwrite] *)

(** Every node is as it was up to its flags and place. *)
Definition same_refs s s' : Prop := forall y m', nodes s' !! y = Some m' ->
  exists m, nodes s !! y = Some m /\ block_number m = block_number m' /\ ref_count m = ref_count m'.

Lemma store_ok s L C x n b l : cinv None s L C -> lock s = false -> nodes s !! x = Some n -> block_number n = b -> Z.of_nat (length l) = block_size sb ->
  wp (poke (data n) l;; bwrite b) (λ _ s', (exists L', cinv None s' L' C /\ length L' = length L) /\ holds s' b l /\
    (forall b' c, in_blk b' -> b' <> b -> (holds s' b' c <-> holds s b' c)) /\ same_refs s s' /\ disk s' = disk s /\ lock s' = false /\ size s' = size s /\ capacity s' = capacity s) s.
Proof using G.
  intros HI Hlk En Eb Hl. apply wp_bind, wp_modify. set (s1 := set_pages _ s).
  assert (Hpgs : forall y m, nodes s !! y = Some m -> y <> x -> pages s1 !! data m = pages s !! data m).
  { intros y m Hy Hne. apply lookup_insert_ne. intros E. apply Hne, (ci_inj _ _ _ _ _ _ HI y x m n Hy En). right. congruence. }
  assert (Hok : forall ex n', (prev n', next n', hash_next n', block_number n', data n') = (prev n, next n, hash_next n, block_number n, data n) ->
    is_valid n' = true -> (is_dirty n' = true \/ ex = Some b) -> cinv ex (set_nodes (<[x := n']> (nodes s1)) s1) L C).
  { intros ex n' Ef Ev Ed. eapply (cinv_upd sb nblocks None ex s _ L C x n n' HI En); auto; [|apply HI].
    injection Ef as _ _ _ Fb Fd. intros y m Hm. simpl in Hm. apply lookup_insert_Some in Hm as [[<- <-]|[Hne Hm]].
    - destruct (ci_node _ _ _ _ _ _ HI x n En) as (_ & B & Nz & _). unfold node_ok. rewrite Fb, Fd. split_and!; auto.
      exists l. split_and!; [apply lookup_insert_eq|exact Hl|]. intros H1 H2. destruct Ed; congruence.
    - destruct (ci_node _ _ _ _ _ _ HI y m Hm) as (V & B & Nz & c & Pc & Lc & Hc). split_and!; auto. exists c. simpl.
      pose proof (Hpgs y m Hm ltac:(auto)) as Ep. simpl in Ep. rewrite Ep. split_and!; auto. }
  destruct (ci_node _ _ _ _ _ _ HI x n En) as (Hv & _ & Hnz & _).
  assert (HI1 : cinv (Some b) s1 L C).
  { specialize (Hok (Some b) n eq_refl Hv (or_intror eq_refl)). simpl in Hok. rewrite insert_id in Hok by exact En. now destruct Hok. }
  set (Q := λ s', (exists L', cinv None s' L' C /\ length L' = length L) /\ holds s' b l /\
    (forall b' c, in_blk b' -> b' <> b -> (holds s' b' c <-> holds s b' c)) /\ same_refs s s' /\ disk s' = disk s /\ lock s' = false /\ size s' = size s /\ capacity s' = capacity s).
  apply (found_ok (Some b) s1 L C b _ Q HI1 Hlk).
  { intros Hun. now elim (Hun x n En). }
  intros y m Em Eb'. assert (y = x) as -> by (apply (ci_inj _ _ _ _ _ _ HI y x m n Em En); left; congruence). assert (m = n) as -> by (simpl in Em; congruence).
  apply wp_bind. eapply wp_nset; [exact En|]. set (n' := set_dirty true n). set (s2 := set_nodes _ _).
  assert (HI2 : cinv None s2 L C) by (specialize (Hok None n' eq_refl Hv (or_introl eq_refl)); now destruct Hok).
  eapply wp_mono; [apply (switch_ok sb nblocks G None s2 L C x n' HI2 (lookup_insert_eq _ _ _))|].
  intros _ s3 (nds & h & t & L' & -> & Hcore & HP & HI3). set (s4 := set_lock false _).
  assert (Hv24 : same_view s2 s4) by (apply same_view_bodies; auto using same_core_bodies).
  assert (Hb : in_blk b) by (rewrite <- Eb; apply (ci_node _ _ _ _ _ _ HI x n En)).
  split; [exists L'; split; [now apply cinv_setlock|now rewrite HP]|]. split_and!; auto.
  - apply (Hv24 b l Hb). left. exists x, n'. split_and!; auto; apply lookup_insert_eq.
  - intros b' c Hb' Hne. rewrite (Hv24 b' c Hb'). assert (Hv12 : same_view s1 s2) by (apply (view_upd sb nblocks s1 s2 x n n'); auto).
    rewrite (Hv12 b' c Hb'). unfold BufferLists.holds. split; (intros [(y & m & Hy & Em' & Pm)|H]; [left; exists y, m; split_and!; auto|right; exact H]).
    all: change (nodes s !! y = Some m) in Hy; assert (Hyx : y <> x) by (intros ->; congruence); pose proof (Hpgs y m Hy Hyx) as Ep; congruence.
  - intros y m' Hy. destruct (same_core_some _ _ _ _ (same_core_sym _ _ Hcore) Hy) as (m2 & H2 & E2). apply core_body, body_fields in E2 as (_ & _ & E3 & _ & E5).
    rewrite <- E3, <- E5. simpl in H2. apply lookup_insert_Some in H2 as [[<- <-]|[_ H2]]; eauto.
Qed.
(** ** Writing back *)

(** [x] written back if it was dirty; nothing else changed. *)
Record cleaned x n s s' : Prop := {
  cl_nodes : nodes s' = <[x := set_dirty false n]> (nodes s);
  cl_view : same_view s s';
  cl_disk : dread (disk s') (block_number n) = pages s !! data n;
  cl_other : forall b, in_blk b -> b <> block_number n -> dread (disk s') b = dread (disk s) b;
  cl_rest : pages s' = pages s /\ lock s' = lock s /\ size s' = size s /\ capacity s' = capacity s }.

Lemma clean_node_ok s L C x n : cinv None s L C -> nodes s !! x = Some n ->
  wp (clean_node sb x) (λ _ s', cinv None s' L C /\ cleaned x n s s') s.
Proof using G.
  intros HI En. destruct (ci_node _ _ _ _ _ _ HI x n En) as (V & B & Nz & c & Pc & Lc & Hc). unfold clean_node.
  apply wp_bind. eapply wp_nget; [exact En|]. apply wp_when. destruct (is_dirty n) eqn:Ed.
  - apply wp_bind. eapply wp_nget; [exact En|]. apply wp_bind. eapply wp_nget; [exact En|]. apply wp_bind.
    eapply (wp_write sb nblocks G); [apply HI|exact B|exact Nz|exact Pc|exact Lc|]. intros d' H1 H2 H3.
    eapply wp_nset; [exact En|]. set (n' := set_dirty false n). set (s' := set_nodes _ _).
    assert (HI' : cinv None s' L C).
    { eapply (cinv_upd sb nblocks None None s s' L C x n n' HI En); auto. intros y m Hm. simpl in Hm. apply lookup_insert_Some in Hm as [[<- <-]|[Hne Hm]].
      - split_and!; auto. exists c. auto.
      - destruct (ci_node _ _ _ _ _ _ HI y m Hm) as (V' & B' & Nz' & c' & Pc' & Lc' & Hc'). split_and!; auto. exists c'. split_and!; auto. simpl.
        intros Hd Hex. rewrite H3; auto. intros E. apply Hne, (ci_inj _ _ _ _ _ _ HI x y n m En Hm). auto. }
    split; [exact HI'|]. split; auto; [|now rewrite Pc]. intros b c' Hb. destruct (decide (b = block_number n)) as [->|Hne].
    + rewrite (holds_cached sb nblocks G None s L C x n c' HI En).
      apply (holds_cached sb nblocks G None s' L C x n' c' HI' (lookup_insert_eq _ _ _)).
    + transitivity (holds (set_nodes (<[x := n']> (nodes s)) s) b c'); [|apply (view_upd sb nblocks s _ x n n'); auto].
      unfold BufferLists.holds. simpl. now rewrite H3.
  - assert (set_dirty false n = n) as Es by (destruct n; simpl in *; now subst). split; [exact HI|]. split; auto using same_view_refl.
    + rewrite Es. now rewrite insert_id.
    + rewrite Pc. now apply Hc.
Qed.

(** Nodes in [e] are clean. *)
Definition all_clean s (e : list Z) : Prop := forall y m, y ∈ e -> nodes s !! y = Some m -> is_dirty m = false.

Lemma flush_loop_ok s L C : cinv None s L C ->
  wp (loop chain_fuel (flush_step sb) (lru_head s)) (λ _ s', cinv None s' L C /\ same_view s s' /\ all_clean s' L /\
    lock s' = lock s /\ size s' = size s /\ capacity s' = capacity s /\ pages s' = pages s) s.
Proof using G.
  intros HI0. rewrite (lq_head _ _ _ _ (ci_lru _ _ _ _ _ _ HI0)).
  apply (wp_loop (λ k v s', exists d e, L = d ++ e /\ v = lastz 0 d /\ k = length d /\ cinv None s' L C /\ same_view s s' /\ all_clean s' e /\
    lock s' = lock s /\ size s' = size s /\ capacity s' = capacity s /\ pages s' = pages s) (length L)); [|apply (lru_length _ _ _ _ _ _ HI0)|].
  { exists L, []. rewrite app_nil_r. split_and!; auto using same_view_refl. intros y m Hy. now apply not_elem_of_nil in Hy. }
  intros k v s1 (d & e & EL & -> & -> & HI & Hv & Hcl & R). unfold flush_step. pose proof (ci_lru _ _ _ _ _ _ HI) as HL.
  destruct (decide (d = [])) as [->|Hne].
  { simpl. apply wp_ret. simpl in EL. subst e. split_and!; auto; apply R. }
  destruct (exists_last Hne) as (d0 & x & ->). rewrite lastz_snoc.
  assert (Hx : x ∈ L) by (rewrite EL; set_solver). destruct (proj2 (ci_dom _ _ _ _ _ _ HI x) Hx) as [n En].
  rewrite (proj2 (Z.eqb_neq x 0) (node_nz _ _ _ _ _ _ HI x n En)).
  apply wp_bind. eapply wp_mono; [apply (clean_node_ok s1 L C x n HI En)|]. intros _ s2 [HI2 [Hn Hv2 _ _ (R1 & R2 & R3 & R4)]].
  assert (En2 : nodes s2 !! x = Some (set_dirty false n)) by (rewrite Hn; apply lookup_insert_eq).
  apply wp_bind. eapply wp_nget; [exact En2|]. apply wp_ret. destruct R as (Q1 & Q2 & Q3 & Q4).
  exists (length d0). split; [rewrite length_app; simpl; lia|]. exists d0, (x :: e). rewrite <- app_assoc in EL. split_and!; auto; try congruence.
  - pose proof (lq_prev _ _ _ _ HL) as Hp. rewrite EL in Hp. simpl in Hp. apply bchain_app in Hp as [_ [Hp _]]. rewrite En in Hp. now injection Hp.
  - eapply same_view_trans; eauto.
  - intros y m Hy Hm. rewrite Hn in Hm. apply lookup_insert_Some in Hm as [[<- <-]|[Hyx Hm]]; [reflexivity|].
    apply elem_of_cons in Hy as [->|Hy]; [easy|]. now apply (Hcl y m).
Qed.

(** A clean cache and the device agree. *)
Lemma clean_view s L C b c : cinv None s L C -> all_clean s L -> in_blk b -> (dread (disk s) b = Some c <-> holds s b c).
Proof using G.
  intros HI Hcl Hb. split.
  - intros Hd. destruct (dread_ok sb nblocks G (disk s) b (ci_disk _ _ _ _ _ _ HI) Hb) as (c' & Ec & _).
    destruct (decide (exists x n, nodes s !! x = Some n /\ block_number n = b)) as [(x & n & En & Eb)|Hno].
    + left. exists x, n. split_and!; auto. destruct (ci_node _ _ _ _ _ _ HI x n En) as (_ & _ & _ & c0 & P0 & _ & H0). rewrite P0, <- Hd, <- Eb.
      symmetry. apply H0; [|easy]. apply (Hcl x n); [|exact En]. apply (ci_dom _ _ _ _ _ _ HI). eauto.
    + right. split; [|exact Hd]. intros x n En Eb. apply Hno. eauto.
  - intros [(x & n & En & Eb & Pc)|[_ Hd]]; [|exact Hd]. destruct (ci_node _ _ _ _ _ _ HI x n En) as (_ & _ & _ & c0 & P0 & _ & H0).
    rewrite <- Eb. assert (c0 = c) as <- by congruence. apply H0; [|easy]. apply (Hcl x n); [|exact En]. apply (ci_dom _ _ _ _ _ _ HI). eauto.
Qed.
Lemma bflush_all_ok s L C : cinv None s L C -> lock s = false ->
  wp (bflush_all sb) (λ _ s', cinv None s' L C /\ same_view s s' /\ (forall b c, in_blk b -> (dread (disk s') b = Some c <-> holds s b c)) /\
    lock s' = false /\ size s' = size s /\ capacity s' = capacity s) s.
Proof using G.
  intros HI Hlk. unfold bflush_all, mutex_lock. apply wp_bind, wp_bind, wp_gets. rewrite Hlk. apply wp_modify, wp_bind, wp_gets, wp_bind.
  assert (HI1 : cinv None (set_lock true s) L C) by now apply cinv_setlock.
  eapply wp_mono; [apply (flush_loop_ok (set_lock true s) L C HI1)|]. intros _ s1 (HI2 & Hv & Hcl & _ & R1 & R2 & _). apply wp_modify.
  split; [now apply cinv_setlock|]. split; [exact Hv|]. split_and!; auto.
  intros b c Hb. pose proof (clean_view s1 L C b c HI2 Hcl Hb) as E. pose proof (Hv b c Hb) as E'. simpl. rewrite E. exact E'.
Qed.

Lemma bflush_ok s L C b : cinv None s L C -> lock s = false -> in_blk b ->
  wp (bflush sb b) (λ _ s', (exists L', cinv None s' L' C /\ length L' = length L) /\ same_view s s' /\ (forall c, dread (disk s') b = Some c <-> holds s b c) /\
    (forall b', in_blk b' -> b' <> b -> dread (disk s') b' = dread (disk s) b') /\ lock s' = false /\ size s' = size s /\ capacity s' = capacity s) s.
Proof using G.
  intros HI Hlk Hb. set (Q := λ s', (exists L', cinv None s' L' C /\ length L' = length L) /\ same_view s s' /\ (forall c, dread (disk s') b = Some c <-> holds s b c) /\
    (forall b', in_blk b' -> b' <> b -> dread (disk s') b' = dread (disk s) b') /\ lock s' = false /\ size s' = size s /\ capacity s' = capacity s).
  apply (found_ok None s L C b _ Q HI Hlk).
  { intros Hun. split; [eauto|]. split; [apply same_view_refl|]. split_and!; auto. intros c. symmetry. now apply holds_uncached. }
  intros x n En Eb. apply wp_bind. eapply wp_mono; [apply (clean_node_ok (set_lock true s) L C x n (cinv_setlock _ _ _ _ _ HI) En)|].
  intros _ s2 [HI2 [Hn Hv Hd Ho (R1 & R2 & R3 & R4)]]. assert (En2 : nodes s2 !! x = Some (set_dirty false n)) by (rewrite Hn; apply lookup_insert_eq).
  eapply wp_mono; [apply (switch_ok sb nblocks G None s2 L C x _ HI2 En2)|].
  intros _ s3 (nds & h & t & L' & -> & Hcore & HP & HI3). set (s4 := set_lock false _).
  assert (Hv24 : same_view s2 s4) by (apply same_view_bodies; auto using same_core_bodies). rewrite Eb in Hd, Ho.
  split; [exists L'; split; [now apply cinv_setlock|now rewrite HP]|]. split; [exact (same_view_trans sb nblocks _ _ _ Hv Hv24)|]. split_and!; auto.
  intros c. simpl. rewrite Hd, <- Eb. symmetry. apply (holds_cached sb nblocks G None s L C x n c HI En).
Qed.

(** ** Dropping a block *)
Lemma binvalidate_ok s L C b : cinv None s L C -> sized s L -> lock s = false ->
  wp (binvalidate b) (λ _ s', (exists L' C', cinv None s' L' C' /\ sized s' L') /\ uncached s' b /\ disk s' = disk s /\ lock s' = false /\
    forall b' c, in_blk b' -> b' <> b -> (holds s' b' c <-> holds s b' c)) s.
Proof using G.
  intros HI Hsz Hlk. set (Q := λ s', (exists L' C', cinv None s' L' C' /\ sized s' L') /\ uncached s' b /\ disk s' = disk s /\ lock s' = false /\
    forall b' c, in_blk b' -> b' <> b -> (holds s' b' c <-> holds s b' c)).
  apply (found_ok None s L C b _ Q HI Hlk).
  { intros Hun. split; [eauto|]. split_and!; auto. }
  intros x n En Eb. apply wp_bind. eapply wp_nset; [exact En|]. apply wp_bind. eapply wp_nset; [apply lookup_insert_eq|]. simpl. rewrite insert_insert_eq.
  set (n' := set_valid false _). set (s1 := set_nodes _ _). apply wp_assoc.
  destruct (ci_node _ _ _ _ _ _ HI x n En) as (_ & Hb & _).
  assert (En1 : nodes s1 !! x = Some n') by apply lookup_insert_eq.
  assert (Hne1 : forall y, y <> x -> nodes s1 !! y = nodes s !! y) by (intros y Hy; simpl; now rewrite lookup_insert_ne by auto).
  eapply (drop_node sb nblocks G None s s1 L C x n); [exact HI|exact En| |exists n'; auto|exact Hne1|right; reflexivity|].
  { destruct (cinv_linked sb nblocks None s L C HI) as [K1 K2 K3 K4 K5 K6].
    assert (Hf : forall y, (prev <$> nodes s1 !! y = prev <$> nodes s !! y) /\ (next <$> nodes s1 !! y = next <$> nodes s !! y) /\
      (hash_next <$> nodes s1 !! y = hash_next <$> nodes s !! y)) by (intros y; destruct (decide (y = x)) as [->|Hy]; [rewrite En1, En; auto|rewrite Hne1 by auto; auto]).
    split; auto.
    - eapply lruq_ext; [|exact K1]. intros y _. destruct (Hf y) as (? & ? & ?). auto.
    - intros y. rewrite <- K2. destruct (decide (y = x)) as [->|Hy]; [rewrite En1, En; split; eauto|now rewrite Hne1].
    - intros i Hi. destruct (K4 i Hi) as (? & Hc & ?). split_and!; auto. eapply chain_ext; [|exact Hc]. intros y _. apply (Hf y).
    - intros i y Hi. rewrite (K5 i y Hi). destruct (decide (y = x)) as [->|Hy]; [|now rewrite Hne1].
      rewrite En1, En. split; intros (m & [= <-] & Em); eexists; eauto. }
  intros s2 l1 l2 C' EL Hci Hbod E1 E2 E3 E4 E5.
  destruct (same_bodies_some _ _ _ _ Hbod En1) as (n2 & En2 & Eb2). apply body_fields in Eb2 as (_ & _ & _ & Ed2 & _).
  apply wp_bind. eapply wp_nget; [exact En2|]. apply wp_bind, wp_modify, wp_bind, wp_modify, wp_modify. rewrite Ed2. cbn [data n' set_valid set_dirty].
  match goal with |- Q ?x => set (s' := x) end.
  assert (HI' : cinv None s' (l1 ++ l2) C').
  { apply Hci; try reflexivity; simpl; rewrite ?E1, ?E2; auto. apply HI. }
  assert (HR : removed x n s (set_lock (lock s) (set_size (size s) s'))).
  { split; simpl; auto; [apply lookup_delete_eq| |now rewrite E1]. intros y Hy. rewrite lookup_delete_ne by auto. rewrite (Hbod y). now rewrite Hne1. }
  split; [exists (l1 ++ l2), C'; split; [exact HI'|]|].
  { destruct Hsz as [Hs1 Hs2]. rewrite EL, length_app in Hs1. simpl in Hs1. pose proof (ci_len _ _ _ _ _ _ HI) as Hl. rewrite EL, length_app in Hl. simpl in Hl.
    unfold BUFFER_CACHE_CAP in *. split; simpl; [rewrite E3; simpl; rewrite wrap64_small, length_app by lia; lia|rewrite E4; exact Hs2]. }
  split_and!; auto.
  - intros y m Hy. rewrite <- Eb. eapply (removed_uncached sb nblocks G None x n s _ L C y m HI En HR Hy).
  - intros b' c Hb' Hne. apply (removed_view sb nblocks G None x n s _ L C b' c HI En HR); [|exact Hb'|congruence]. intros b0 _ _. simpl. now rewrite E2.
Qed.

(** No cached node is invalid: [bclean] finds nothing to do. *)
Lemma bclean_ok s L C b : cinv None s L C -> lock s = false -> wp (bclean sb b) (λ _ s', s' = s) s.
Proof using G.
  intros HI Hlk. unfold bclean, mutex_lock. apply wp_bind, wp_bind, wp_gets. rewrite Hlk. apply wp_modify, wp_bind.
  eapply wp_mono; [apply (find_invalid_ok sb nblocks G None (set_lock true s) L C b), cinv_setlock, HI|].
  intros x s1 [-> ->]. simpl. apply wp_bind, wp_ret, wp_modify. now apply same_lock.
Qed.
(** ** Emptying the cache *)

(** The nodes of [e] are written back and freed, the others are as in [s]. *)
Record drained s (e : list Z) s' : Prop := {
  dr_nodes : forall y, nodes s' !! y = if decide (y ∈ e) then None else nodes s !! y;
  dr_pages : forall y m, nodes s !! y = Some m -> y ∉ e -> pages s' !! data m = pages s !! data m;
  dr_disk : on_disk sb nblocks (disk s');
  dr_done : forall y m, nodes s !! y = Some m -> y ∈ e -> dread (disk s') (block_number m) = pages s !! data m;
  dr_rest : forall b, in_blk b -> (forall y m, nodes s !! y = Some m -> y ∈ e -> block_number m <> b) -> dread (disk s') b = dread (disk s) b;
  dr_head : (hash_table s', lru_head s', lock s', capacity s') = (hash_table s, lru_head s, lock s, capacity s) }.

Lemma clean_out_ok s L C e x n s1 : cinv None s L C -> drained s e s1 -> nodes s !! x = Some n -> x ∉ e ->
  wp (clean_out sb x) (λ _ s', drained s (x :: e) s') s1.
Proof using G.
  intros HI [D1 D2 D3 D4 D5 D6] En Hx. destruct (ci_node _ _ _ _ _ _ HI x n En) as (V & B & Nz & c & Pc & Lc & Hc).
  assert (En1 : nodes s1 !! x = Some n) by (rewrite D1, decide_False by auto; exact En).
  assert (Hinj : forall y m, nodes s !! y = Some m -> block_number m = block_number n \/ data m = data n -> y = x).
  { intros y m Hy Hor. exact (ci_inj _ _ _ _ _ _ HI y x m n Hy En Hor). }
  unfold clean_out. do 3 (apply wp_bind; eapply wp_nget; [exact En1|]). apply wp_bind.
  apply (wp_mono _ (λ _ s2, exists d', s2 = set_disk d' s1 /\ dread d' (block_number n) = Some c /\ on_disk sb nblocks d' /\
    forall b', in_blk b' -> b' <> block_number n -> dread d' b' = dread (disk s1) b')).
  { apply wp_when. destruct (is_dirty n) eqn:Edirty.
    - apply wp_bind. eapply (wp_write sb nblocks G); [exact D3|exact B|exact Nz|rewrite (D2 x n En Hx); exact Pc|exact Lc|]. intros d' H1 H2 H3. apply wp_ret. eauto.
    - exists (disk s1). split; [now destruct s1|]. split_and!; auto. rewrite D5; [now apply Hc|exact B|].
      intros y m Hy Hin E. apply Hx. now rewrite <- (Hinj y m Hy (or_introl E)). }
  intros _ s2 (d' & -> & H1 & H2 & H3). apply wp_bind, wp_modify, wp_modify. split; simpl; auto.
  - intros y. destruct (decide (y = x)) as [->|Hy]; [rewrite lookup_delete_eq, decide_True by set_solver; reflexivity|].
    rewrite lookup_delete_ne, D1 by auto. destruct (decide (y ∈ e)), (decide (y ∈ x :: e)); auto; set_solver.
  - intros y m Hy Hin. rewrite lookup_delete_ne; [apply (D2 y m Hy); set_solver|]. intros E. apply Hin. rewrite (Hinj y m Hy); [set_solver|auto].
  - intros y m Hy Hin. destruct (decide (y = x)) as [->|Hyx]; [assert (m = n) as -> by congruence; congruence|].
    rewrite H3; [apply (D4 y m Hy); set_solver|apply (ci_node _ _ _ _ _ _ HI y m Hy)|]. intros E. apply Hyx, (Hinj y m Hy). auto.
  - intros b Hb Hno. rewrite H3; [|exact Hb|intros ->; apply (Hno x n En); set_solver]. apply D5; [exact Hb|]. intros y m Hy Hin. apply (Hno y m Hy). set_solver.
Qed.

Lemma bclean_all_ok s L C : cinv None s L C -> capacity s = BUFFER_CACHE_CAP -> L <> [] -> lock s = false ->
  wp (bclean_all sb) (λ _ s', cinv None s' [] (λ _, []) /\ sized s' [] /\ lock s' = false /\
    forall b c, in_blk b -> (dread (disk s') b = Some c <-> holds s b c)) s.
Proof using G.
  intros HI Hcap Hne Hlk. pose proof (ci_lru _ _ _ _ _ _ HI) as HL. pose proof (lq_nodup _ _ _ _ HL) as Nd.
  assert (HI1 : cinv None (set_lock true s) L C) by now apply cinv_setlock. set (s0 := set_lock true s) in *.
  assert (Hin : forall x, x ∈ L -> exists n, nodes s0 !! x = Some n) by (intros x Hx; apply (ci_dom _ _ _ _ _ _ HI1) in Hx as [n Hn]; eauto).
  unfold bclean_all, mutex_lock. apply wp_bind, wp_bind, wp_gets. rewrite Hlk. apply wp_modify, wp_bind, wp_gets, wp_bind. fold s0.
  apply (wp_mono _ (λ x s', exists e, L = x :: e /\ drained s0 e s')).
  - destruct (exists_last Hne) as (d0 & x0 & E0). replace (lru_head s0) with x0 by (simpl; rewrite (lq_head _ _ _ _ HL), E0; symmetry; apply lastz_snoc).
    apply (wp_loop (λ k v s', exists d e, L = d ++ v :: e /\ k = length d /\ drained s0 e s') (length d0)).
    { exists d0, []. split_and!; auto. split; auto; [apply HI1|]. intros y m _ Hy. now apply not_elem_of_nil in Hy. }
    { pose proof (lru_length _ _ _ _ _ _ HI) as Hf. rewrite E0, length_app in Hf. lia. }
    intros k x s1 (d & e & EL & -> & HD). destruct (Hin x) as [n En]; [rewrite EL; set_solver|]. pose proof Nd as Nd'. rewrite EL in Nd'. apply NoDup_hole in Nd' as (Nx1 & Nx2 & _).
    unfold clean_all_step. apply wp_bind. eapply wp_nget; [rewrite (dr_nodes _ _ _ HD), decide_False by exact Nx2; exact En|].
    pose proof (lq_prev _ _ _ _ HL) as Hp. rewrite EL in Hp. apply bchain_app in Hp as [_ [Hp _]]. change (nodes s0) with (nodes s) in En. rewrite En in Hp. injection Hp as Hp.
    rewrite Hp. destruct (decide (d = [])) as [->|Hd]; [simpl; apply wp_ret; eauto|].
    destruct (exists_last Hd) as (d1 & y & ->). rewrite lastz_snoc. destruct (Z.eqb_spec y 0) as [->|]; [exfalso; apply (lq_nz _ _ _ _ HL); rewrite EL; set_solver|].
    apply wp_bind. eapply wp_mono; [apply (clean_out_ok s0 L C e x n s1 HI1 HD En Nx2)|]. intros u s2 HD2. apply wp_ret.
    exists (length d1). split; [rewrite length_app; simpl; lia|]. exists d1, (x :: e). rewrite EL, <- app_assoc. auto.
  - intros x s1 (e & EL & HD). destruct (Hin x) as [n En]; [rewrite EL; set_solver|]. rewrite EL in Nd. apply list.NoDup_cons in Nd as [Nx _].
    apply wp_bind. eapply wp_mono; [apply (clean_out_ok s0 L C e x n s1 HI1 HD En Nx)|]. rewrite <- EL. intros _ s2 [D1 _ D3 D4 D5 D6]. injection D6 as Ht _ _ Hc.
    do 4 (apply wp_bind, wp_modify). apply wp_modify. set (s' := set_lock false _).
    assert (Hnone : forall y, nodes s' !! y = None).
    { intros y. simpl. rewrite D1. destruct (decide (y ∈ L)) as [|Hy]; [reflexivity|]. destruct (nodes s !! y) as [m|] eqn:Ey; [|exact Ey]. elim Hy. apply (ci_dom _ _ _ _ _ _ HI). eauto. }
    split_and!; auto.
    + split; simpl; auto.
      * split; simpl; auto; [apply NoDup_nil_2|apply not_elem_of_nil].
      * intros y. change (is_Some (nodes s' !! y) <-> y ∈ []). rewrite Hnone. split; [now intros [? ?]|now intros ?%not_elem_of_nil].
      * rewrite length_replicate, Ht. apply (ci_tab _ _ _ _ _ _ HI).
      * intros i Hi. split_and!; auto; [|apply NoDup_nil_2]. unfold arr_get. destruct (Z.ltb_spec i 0); [lia|].
        apply lookup_replicate_2. rewrite Ht. pose proof (ci_tab _ _ _ _ _ _ HI). simpl. lia.
      * intros i y _. change (y ∈ [] <-> exists m, nodes s' !! y = Some m /\ block_number m mod BUFFER_CACHE_SIZE = i). rewrite Hnone. split; [now intros ?%not_elem_of_nil|now intros (? & ? & _)].
      * intros y m Hm. change (nodes s' !! y = Some m) in Hm. now rewrite Hnone in Hm.
      * intros y z m1 m2 Hm. change (nodes s' !! y = Some m1) in Hm. now rewrite Hnone in Hm.
      * unfold BUFFER_CACHE_CAP. lia.
    + split; [reflexivity|]. simpl. rewrite Hc. exact Hcap.
    + intros b c Hb. simpl. destruct (decide (exists y m, nodes s !! y = Some m /\ block_number m = b)) as [(y & m & Ey & Eb)|Hno].
      * rewrite <- Eb, (holds_cached sb nblocks G None s L C y m c HI Ey). rewrite (D4 y m Ey); [reflexivity|]. apply (ci_dom _ _ _ _ _ _ HI). eauto.
      * assert (Hun : uncached s b) by (intros y m Ey Eb; apply Hno; eauto). rewrite (holds_uncached sb s b c Hun), D5; [reflexivity|exact Hb|]. intros y m Ey _. now apply (Hun y).
Qed.
End Write.

(** What the buffer cache promises its clients: [bread] returns the block's
    contents; a session of reads, stores and releases followed by a flush
    leaves on the device what the same session on a plain array of blocks
    leaves; and what happens when every buffer is in use. *)

(** * Sessions *)

(** A client's access to block [b]: read it, store [f] of its contents through
    the buffer, mark it dirty, release it. *)
Section Client.
Context {D : Type} {dv : BlockDevice D} (sb : superblock_t).
Context (kmalloc : gmap Z buffer_node_t -> Z) (AddKernelPages : gmap Z (list Z) -> Z) (junk : list Z).

Definition access (b : Z) (f : list Z -> list Z) : M (bcache D) unit :=
  let* page := gets (λ s, AddKernelPages (pages s)) in
  let* d := bread sb kmalloc b page junk in
  let* s := get in
  let* c := of_option (pages s !! d) in
  poke d (f c);;
  bwrite b;;
  brelse b.

Fixpoint session (ops : list (Z * (list Z -> list Z))) : M (bcache D) unit :=
  match ops with [] => ret tt | (b, f) :: ops => access b f;; session ops end.
End Client.

(** The same on an array of blocks. *)
Fixpoint array_session (ops : list (Z * (list Z -> list Z))) (F : Z -> list Z) : Z -> list Z :=
  match ops with [] => F | (b, f) :: ops => array_session ops (λ x, if x =? b then f (F b) else F x) end.

Section Session.
Context {D : Type} {dv : BlockDevice D} {lw : DeviceLaws D} (sb : superblock_t) (nblocks : Z) (G : geometry sb nblocks).
Context (kmalloc : gmap Z buffer_node_t -> Z) (Hkm : forall m, kmalloc m <> 0 /\ m !! kmalloc m = None).
Context (AddKernelPages : gmap Z (list Z) -> Z) (Hkp : forall m, AddKernelPages m <> 0 /\ m !! AddKernelPages m = None).
Context (junk : list Z) (Hjunk : Z.of_nat (length junk) = block_size sb).
Abbreviation cinv := (cinv sb nblocks).
Abbreviation in_blk := (in_blk nblocks).
Abbreviation holds := (holds sb).
Implicit Types (s : bcache D) (F : Z -> list Z).

(** Between accesses: no buffer is in use, and the cache stands for [F]. *)
Record idle s F : Prop := {
  id_inv : exists L C, cinv None s L C /\ sized s L;
  id_lock : lock s = false;
  id_refs : forall y m, nodes s !! y = Some m -> ref_count m = 0;
  id_view : forall b, in_blk b -> holds s b (F b) }.

Lemma holds_fun ex s L C b c c' : cinv ex s L C -> holds s b c -> holds s b c' -> c = c'.
Proof using G.
  intros HI [(x & n & Ex & Eb & Px)|[Hn Hd]] H'.
  - rewrite <- Eb in H'. apply (holds_cached sb nblocks G ex s L C x n c' HI Ex) in H'. congruence.
  - apply holds_uncached in H'; [congruence|exact Hn].
Qed.

Lemma idle_readable s F b : idle s F -> in_blk b -> readable sb nblocks s b (AddKernelPages (pages s)) junk.
Proof using Hkp Hjunk.
  intros [(L & C & HI & _) Hlk Hrf _] Hb. split_and!; auto.
  - intros y m Hy Ed. destruct (ci_node _ _ _ _ _ _ HI y m Hy) as (_ & _ & _ & c & Pc & _). rewrite Ed in Pc. destruct (Hkp (pages s)) as [_ Hn]. congruence.
  - intros y m Hy. rewrite (Hrf y m Hy). lia.
Qed.

(** With nothing in use there is a buffer to reuse. *)
Lemma idle_not_full s F : idle s F -> ~ full s.
Proof using.
  intros [(L & C & HI & Hs & _) _ Hrf _] [Hsz Hall]. destruct L as [|x L]; [simpl in *; rewrite Hs in Hsz; discriminate|].
  destruct (proj2 (ci_dom _ _ _ _ _ _ HI x) ltac:(left)) as [n En]. pose proof (Hall x n En) as Hpos. rewrite (Hrf x n En) in Hpos. clear - Hpos. lia.
Qed.

Lemma access_ok s F b f : idle s F -> in_blk b -> (forall c, length (f c) = length c) ->
  wp (access sb kmalloc AddKernelPages junk b f) (λ _ s', idle s' (λ x, if x =? b then f (F b) else F x)) s.
Proof using G Hkm Hkp Hjunk.
  intros Hid Hb Hf. pose proof Hid as [(L & C & HI & Hsz) Hlk Hrf Hv]. unfold access. apply wp_bind, wp_gets, wp_bind.
  eapply wp_mono; [apply (bread_ok sb nblocks G kmalloc Hkm s L C b _ junk HI Hsz (idle_readable s F b Hid Hb))|].
  intros d s1 [((L1 & C1 & HI1 & Hsz1) & Hsv & _ & Hct & Hlk1 & c & (Hd0 & x & n & En & Eb & Ed & _ & Pc) & Hc)|(_ & _ & [[Hp _]|[Hfull _]])];
    [|now elim (proj1 (Hkp (pages s)))|now elim (idle_not_full s F Hid)].
  assert (c = F b) as -> by exact (holds_fun None s L C b _ _ HI Hc (Hv b Hb)).
  apply wp_bind, wp_get, wp_bind. eapply wp_of_option; [exact Pc|]. apply wp_assoc, wp_bind. rewrite <- Ed.
  destruct (ci_node _ _ _ _ _ _ HI1 x n En) as (_ & _ & _ & c1 & Pc1 & Lc1 & _). assert (c1 = F b) as -> by congruence.
  eapply wp_mono; [apply (store_ok sb nblocks G s1 L1 C1 x n b (f (F b)) HI1 Hlk1 En Eb); now rewrite Hf|].
  intros _ s2 ((L2 & HI2 & Hlen2) & Hh2 & Ho2 & Hr2 & Hd2 & Hlk2 & Hs2 & Hc2).
  eapply wp_mono; [apply (brelse_ok sb nblocks G s2 L2 C1 b HI2 Hlk2)|]. intros _ s3 (HI3 & Hv3 & Hn3 & _ & _ & Hlk3 & Hs3 & Hc3).
  destruct Hsz1 as [Hsz1 Hcap1]. split; auto.
  - exists L2, C1. split; [exact HI3|]. split; congruence.
  - intros y m3 Hy. rewrite Hn3, lookup_fmap in Hy. destruct (nodes s2 !! y) as [m2|] eqn:E2; [|easy]. injection Hy as <-.
    destruct (Hr2 y m2 E2) as (m1 & E1 & F1 & F2). unfold dropped. rewrite <- F1, <- F2.
    destruct (Hct y m1 E1) as [(m & Em & _ & Er)|(_ & Ebb & Er)]; [rewrite (Hrf y m Em) in Er|rewrite Ebb, Z.eqb_refl in *].
    + destruct (Z.eqb_spec (block_number m1) b); simpl; [|lia]. rewrite Er. simpl. lia.
    + rewrite Er. simpl. lia.
  - intros b' Hb'. apply (Hv3 b' _ Hb'). destruct (Z.eqb_spec b' b) as [->|Hne]; [exact Hh2|]. apply (Ho2 b' _ Hb' Hne), (Hsv b' _ Hb'), Hv, Hb'.
Qed.

Definition op_ok (op : Z * (list Z -> list Z)) : Prop := in_blk op.1 /\ forall c, length (op.2 c) = length c.

Lemma session_ok ops s F : idle s F -> Forall op_ok ops ->
  wp (session sb kmalloc AddKernelPages junk ops) (λ _ s', idle s' (array_session ops F)) s.
Proof using G Hkm Hkp Hjunk.
  intros Hid Hops. revert s F Hid. induction Hops as [|[b f] ops [Hb Hf] _ IH]; intros s F Hid; cbn [session array_session]; [now apply wp_ret|].
  apply wp_bind. eapply wp_mono; [apply (access_ok s F b f Hid Hb Hf)|]. intros u s1 H1. now apply IH.
Qed.

Lemma empty_idle d F : on_disk sb nblocks d -> (forall b, in_blk b -> dread sb d b = Some (F b)) -> idle (empty_cache d) F.
Proof using.
  intros Hd HF. split; auto; [|easy|intros b Hb; right; split; [easy|now apply HF]].
  exists [], (λ _, []). split; [|split; reflexivity]. split; auto; try easy.
  - split; simpl; auto; [apply NoDup_nil_2|apply not_elem_of_nil].
  - intros y. split; [now intros [? ?]|now intros ?%not_elem_of_nil].
  - intros i Hi. split; [|split; [exact I|apply NoDup_nil_2]]. unfold arr_get. destruct (Z.ltb_spec i 0) as [Hneg|_]; [clear - Hi Hneg; lia|].
    apply lookup_replicate_2. clear - Hi. unfold BUFFER_CACHE_SIZE in *. lia.
  - intros i y _. split; [now intros ?%not_elem_of_nil|now intros (? & ? & _)].
Qed.
End Session.

(** * The properties *)

Section Claims.
Context {D : Type} {dv : BlockDevice D} {lw : DeviceLaws D} (sb : superblock_t) (nblocks : Z) (G : geometry sb nblocks).
Context (kmalloc : gmap Z buffer_node_t -> Z) (Hkm : forall m, kmalloc m <> 0 /\ m !! kmalloc m = None).

(** C17. [bread] on a consistent cache either returns a buffer in use that
    holds exactly the block's contents as the cache stands for them (from the
    buffer already cached, or from the device after, if need be, writing back
    and freeing the least recently used unreferenced buffer), and then the
    contents of every block and every buffer in use are as before, with one
    more reference to this block and to no other; or it returns NULL, when the
    block is not cached and there is no memory (nothing changed) or every
    buffer is in use (and then the cache stays locked). *)
Theorem bread_returns_block s L C b page junk : cinv sb nblocks None s L C -> sized s L -> readable sb nblocks s b page junk ->
  wp (bread sb kmalloc b page junk) (bread_post sb nblocks s b page junk) s.
Proof using G Hkm. apply bread_ok; assumption. Qed.

(** C18. Any sequence of accesses (read a block, store into its buffer, mark
    it dirty, release it) from an empty cache, then [bflush_all], completes and
    leaves on the device what the same stores leave in a plain array of blocks:
    whatever was evicted, reread and reordered on the way. *)
Theorem session_reaches_disk (AddKernelPages : gmap Z (list Z) -> Z) junk (ops : list (Z * (list Z -> list Z))) (d : D) (F : Z -> list Z) :
  (forall m, AddKernelPages m <> 0 /\ m !! AddKernelPages m = None) -> Z.of_nat (length junk) = block_size sb ->
  on_disk sb nblocks d -> (forall b, in_blk nblocks b -> dread sb d b = Some (F b)) -> Forall (op_ok nblocks) ops ->
  wp (session sb kmalloc AddKernelPages junk ops;; bflush_all sb)
     (λ _ s', forall b, in_blk nblocks b -> dread sb (disk s') b = Some (array_session ops F b)) (empty_cache d).
Proof using G Hkm.
  intros Hkp Hj Hd HF Hops. apply wp_bind.
  eapply wp_mono; [apply (session_ok sb nblocks G kmalloc Hkm AddKernelPages Hkp junk Hj ops); [apply (empty_idle sb nblocks d F Hd HF)|exact Hops]|].
  intros _ s1 [(L & C & HI & _) Hlk _ Hv]. eapply wp_mono; [apply (bflush_all_ok sb nblocks G s1 L C HI Hlk)|].
  intros _ s2 (_ & _ & Hdisk & _) b Hb. apply (Hdisk b _ Hb), (Hv b Hb).
Qed.
End Claims.

(** * A small file system *)
Module Demo.
(** Four blocks of four two-byte sectors, after one reserved sector. *)
Definition dv : BlockDevice (list Z) := RamDisk 2.
#[local] Existing Instance dv.
Definition lw : DeviceLaws (list Z) := RamDiskLaws 2 eq_refl.
#[local] Existing Instance lw.
Definition sb : superblock_t := Sb 8 1 1.
Definition image : list Z := map Z.of_nat (seq 0 34).
Definition kmalloc (m : gmap Z buffer_node_t) : Z := fresh (dom m ∪ {[0]}).
Definition kpages (m : gmap Z (list Z)) : Z := fresh (dom m ∪ {[0]}).
Definition junk : list Z := replicate 8 7.
Definition block (b : Z) : list Z := take 8 (drop (Z.to_nat (2 + 8 * b)) image).

Lemma geometry_ok : geometry sb 4.
Proof. split; vm_compute; intuition congruence. Qed.

Lemma fresh_ok {A} (m : gmap Z A) : fresh (dom m ∪ {[0]}) <> 0 /\ m !! fresh (dom m ∪ {[0]}) = None.
Proof.
  pose proof (is_fresh (dom m ∪ {[0]})) as H. split; [intros E; rewrite E in H; set_solver|]. apply not_elem_of_dom. set_solver.
Qed.

Lemma image_has : on_disk sb 4 image.
Proof. intros b Hb. unfold in_blk in Hb. rewrite (lba_eq sb 4 geometry_ok b Hb). change (spb sb) with 4.
  split_and!; cbn; lia. Qed.

Lemma image_blocks b : in_blk 4 b -> dread sb image b = Some (block b).
Proof. intros Hb. unfold in_blk in Hb. assert (b = 0 \/ b = 1 \/ b = 2 \/ b = 3) as [->|[->|[->| ->]]] by lia; reflexivity. Qed.
End Demo.

Lemma bread_returns_block_witness :
  wp (@bread _ Demo.dv Demo.sb Demo.kmalloc 2 16 Demo.junk) (@bread_post _ Demo.dv Demo.lw Demo.sb 4 (empty_cache Demo.image) 2 16 Demo.junk) (empty_cache Demo.image).
Proof.
  destruct (@empty_idle _ Demo.dv Demo.lw Demo.sb 4 Demo.image Demo.block Demo.image_has Demo.image_blocks) as [(L & C & HI & Hsz) Hlk _ _].
  apply (@bread_returns_block _ Demo.dv Demo.lw Demo.sb 4 Demo.geometry_ok Demo.kmalloc Demo.fresh_ok _ L C); auto.
  split_and!; try reflexivity; easy.
Defined.

Lemma session_reaches_disk_witness :
  wp (@session _ Demo.dv Demo.sb Demo.kmalloc Demo.kpages Demo.junk [(1, λ c, map Z.opp c); (3, λ c, c)];; @bflush_all _ Demo.dv Demo.sb)
     (λ _ s', forall b, in_blk 4 b -> @dread _ Demo.dv Demo.sb (disk s') b = Some (array_session [(1, λ c, map Z.opp c); (3, λ c, c)] Demo.block b))
     (empty_cache Demo.image).
Proof.
  apply (@session_reaches_disk _ Demo.dv Demo.lw Demo.sb 4 Demo.geometry_ok Demo.kmalloc Demo.fresh_ok).
  - exact Demo.fresh_ok.
  - reflexivity.
  - exact Demo.image_has.
  - exact Demo.image_blocks.
  - repeat constructor; unfold in_blk; simpl; try lia; intros c; simpl; rewrite ?length_map; reflexivity.
Defined.

(** What a second task gets if it reads a block between the two halves of
    another task's [bread] of it: the buffer, before the device read. *)
Example bread_returns_unread_buffer :
  (let* _ := @bread_locked _ Demo.dv Demo.sb Demo.kmalloc 2 16 Demo.junk in
   let* d := @bread _ Demo.dv Demo.sb Demo.kmalloc 2 24 Demo.junk in
   gets (λ s, pages s !! d)) (empty_cache Demo.image) ≫= (λ r, r.1) = Some Demo.junk /\ Demo.block 2 <> Demo.junk.
Proof. split; [vm_compute; reflexivity|discriminate]. Qed.

(** [bclean_all] on an empty cache follows a null pointer. *)
Example bclean_all_empty : @bclean_all _ Demo.dv Demo.sb (empty_cache Demo.image) = None.
Proof. vm_compute. reflexivity. Qed.
