(* ===== verification/PageTable.v ===== *)
(** paging/paging.c, paging/pml4_clone.c and the mmap system calls: four-level
    page tables. A table is a physical page of 512 entries, a user page a
    physical page of bytes; the code reaches both at their alias above
    KERNEL_VIRTUAL, here by physical address. [RequestBuddy(PAGE_SIZE, false)]
    is a parameter that picks a page not in use; freeing a page that is not in
    use is undefined. Invalidations are recorded in the order they are issued. *)

From S2P Require Import Prelude.

(** * Entries *)

Record page_entry_t := Pte {
  present : bool; writable : bool; user : bool; pwt : bool; pcd : bool; accessed : bool; dirty : bool;
  page_size : bool; global : bool; available : Z; address : Z; reserved : Z; no_execute : bool }.

Definition zero_entry : page_entry_t := Pte false false false false false false false false false 0 0 0 false.

Definition set_present v e := Pte v (writable e) (user e) (pwt e) (pcd e) (accessed e) (dirty e) (page_size e) (global e) (available e) (address e) (reserved e) (no_execute e).
Definition set_writable v e := Pte (present e) v (user e) (pwt e) (pcd e) (accessed e) (dirty e) (page_size e) (global e) (available e) (address e) (reserved e) (no_execute e).
Definition set_user v e := Pte (present e) (writable e) v (pwt e) (pcd e) (accessed e) (dirty e) (page_size e) (global e) (available e) (address e) (reserved e) (no_execute e).
Definition set_pwt v e := Pte (present e) (writable e) (user e) v (pcd e) (accessed e) (dirty e) (page_size e) (global e) (available e) (address e) (reserved e) (no_execute e).
Definition set_pcd v e := Pte (present e) (writable e) (user e) (pwt e) v (accessed e) (dirty e) (page_size e) (global e) (available e) (address e) (reserved e) (no_execute e).
Definition set_page_size v e := Pte (present e) (writable e) (user e) (pwt e) (pcd e) (accessed e) (dirty e) v (global e) (available e) (address e) (reserved e) (no_execute e).
Definition set_global v e := Pte (present e) (writable e) (user e) (pwt e) (pcd e) (accessed e) (dirty e) (page_size e) v (available e) (address e) (reserved e) (no_execute e).
Definition set_no_execute v e := Pte (present e) (writable e) (user e) (pwt e) (pcd e) (accessed e) (dirty e) (page_size e) (global e) (available e) (address e) (reserved e) v.
(** [e.address = phys >> 12], a 40-bit field. *)
Definition set_address phys e := Pte (present e) (writable e) (user e) (pwt e) (pcd e) (accessed e) (dirty e) (page_size e) (global e) (available e) (wrap 40 (Z.shiftr phys 12)) (reserved e) (no_execute e).
(** [(uint64_t)e.address << 12] *)
Definition entry_phys (e : page_entry_t) : Z := Z.shiftl (address e) 12.

Definition PAGE_SIZE : Z := 4096.
Definition TABLE_SIZE : Z := PAGE_SIZE * 512.
Definition MB : Z := 1048576.
Definition KERNEL_VIRTUAL : Z := 0xFFFFFFFF80000000.
Definition USER_MMAP_BASE : Z := 0x500000000000.
Definition USER_MMAP_END : Z := 0x700000000000.
Definition KERNEL_VIRT_TO_PHYS (a : Z) : Z := wrap64 (a - KERNEL_VIRTUAL).
Definition PML4_IDX (a : Z) : Z := Z.land (Z.shiftr a 39) 511.
Definition PDPT_IDX (a : Z) : Z := Z.land (Z.shiftr a 30) 511.
Definition PD_IDX (a : Z) : Z := Z.land (Z.shiftr a 21) 511.
Definition PT_IDX (a : Z) : Z := Z.land (Z.shiftr a 12) 511.

Definition PRESENT_PAGE : Z := 1.
Definition RW_PAGE : Z := 2.
Definition USER_PAGE : Z := 4.
Definition WRITE_THROUGH_PAGE : Z := 8.
Definition CACHE_DIS_PAGE : Z := 16.
Definition GLOBAL_PAGE : Z := 256.
Definition NX_PAGE : Z := 0x8000000000000000.
Definition RW_KERNEL : Z := Z.lor (Z.lor (Z.lor PRESENT_PAGE RW_PAGE) GLOBAL_PAGE) NX_PAGE.
Definition RW_USER : Z := Z.lor (Z.lor (Z.lor PRESENT_PAGE RW_PAGE) USER_PAGE) NX_PAGE.
(** [(flags & bit) ? 1 : 0] *)
Definition has_flag (flags bit : Z) : bool := negb (Z.land flags bit =? 0).

(** * State *)

Record vm := Vm {
  tables : gmap Z (list page_entry_t);
  frames : gmap Z (list Z);
  busy : gset Z;            (** pages that are not free: handed out, or never given to the allocator *)
  paging_lock : bool;
  intr : bool;
  flushed : list Z }.       (** addresses given to tlb_flush_remote *)
Definition set_tables v s := Vm v (frames s) (busy s) (paging_lock s) (intr s) (flushed s).
Definition set_frames v s := Vm (tables s) v (busy s) (paging_lock s) (intr s) (flushed s).
Definition set_busy v s := Vm (tables s) (frames s) v (paging_lock s) (intr s) (flushed s).
Definition set_paging_lock v s := Vm (tables s) (frames s) (busy s) v (intr s) (flushed s).
Definition set_intr v s := Vm (tables s) (frames s) (busy s) (paging_lock s) v (flushed s).
Definition set_flushed v s := Vm (tables s) (frames s) (busy s) (paging_lock s) (intr s) v.

#[export] Instance vm_if : HasIF vm := Field intr set_intr.
Definition paging_lock_f : field vm bool := Field paging_lock set_paging_lock.

(** [t[i]] and [t[i].field = ...] *)
Definition entry (t i : Z) : M vm page_entry_t :=
  let* s := get in let* es := of_option (tables s !! t) in of_option (arr_get es i).
Definition set_entry (t i : Z) (f : page_entry_t -> page_entry_t) : M vm unit :=
  let* s := get in
  let* es := of_option (tables s !! t) in
  let* e := of_option (arr_get es i) in
  let* es' := of_option (arr_set es i (f e)) in
  modify (set_tables (<[t := es']> (tables s))).
Definition zero_table : list page_entry_t := replicate 512 zero_entry.
Definition zero_page : list Z := replicate 4096 0.
#[global] Arguments zero_table : simpl never.
#[global] Arguments zero_page : simpl never.
(** [memset(page, 0, PAGE_SIZE)], for a page that becomes a table or data. *)
Definition memset_table (t : Z) : M vm unit := modify (λ s, set_tables (<[t := zero_table]> (tables s)) s).
Definition memset_page (p : Z) : M vm unit := modify (λ s, set_frames (<[p := zero_page]> (frames s)) s).
Definition memcpy_page (dst src : Z) : M vm unit :=
  let* s := get in let* c := of_option (frames s !! src) in modify (set_frames (<[dst := c]> (frames s))).

Definition tlb_flush_remote (a : Z) : M vm unit := modify (λ s, set_flushed (flushed s ++ [a]) s).

Section Paging.
Context (request : gset Z -> Z) (pml4 : Z).

Definition RequestBuddy : M vm Z :=
  let* s := get in
  let p := request (busy s) in
  if p =? 0 then ret 0 else modify (set_busy ({[p]} ∪ busy s));; ret p.
Definition FreeBuddy (p : Z) : M vm unit :=
  let* s := get in
  if bool_decide (p ∈ busy s)
  then modify (λ s, set_busy (busy s ∖ {[p]}) (set_tables (delete p (tables s)) (set_frames (delete p (frames s)) s)))
  else undef.

(** * Mapping and unmapping a page *)

(** [if (t[i].present == 0) { ... new table ... } if (is_user) t[i].user = 1;]
    The result is [None] when there is no memory, and otherwise whether the
    table is new, with its address. *)
Definition ensure_table (t i : Z) (is_user : bool) : M vm (option (bool * Z)) :=
  let* e := entry t i in
  let* fresh := (if present e then ret (Some false) else
    let* phys := RequestBuddy in
    if phys =? 0 then ret None else
    memset_table phys;;
    set_entry t i (set_present true);;
    set_entry t i (set_writable true);;
    set_entry t i (set_address phys);;
    ret (Some true)) in
  match fresh with
  | None => ret None
  | Some fresh =>
      when is_user (set_entry t i (set_user true));;
      let* e := entry t i in
      ret (Some (fresh, entry_phys e))
  end.

(** The assignments to a leaf entry, in order. *)
Definition fill_entry (t i phy flags : Z) : M vm unit :=
  set_entry t i (set_present true);;
  set_entry t i (set_writable (has_flag flags RW_PAGE));;
  set_entry t i (set_user (has_flag flags USER_PAGE));;
  set_entry t i (set_address phy);;
  set_entry t i (set_no_execute (has_flag flags NX_PAGE));;
  set_entry t i (set_pcd (has_flag flags CACHE_DIS_PAGE));;
  set_entry t i (set_pwt (has_flag flags WRITE_THROUGH_PAGE));;
  set_entry t i (set_global (has_flag flags GLOBAL_PAGE)).

Definition map_locked (pml4_base virt phy flags : Z) (big_page : bool) : M vm Z :=
  let is_user := has_flag flags USER_PAGE in
  let* r := ensure_table pml4_base (PML4_IDX virt) is_user in
  match r with None => ret (- ENOMEM) | Some (_, pdpt) =>
  let* r := ensure_table pdpt (PDPT_IDX virt) is_user in
  match r with None => ret (- ENOMEM) | Some (new_pd, pd) =>
  if big_page then
    if negb new_pd then ret 0 else
    if negb (PT_IDX virt =? 0) && negb (PT_IDX phy =? 0) then ret 0 else
    fill_entry pd (PD_IDX virt) phy flags;;
    set_entry pd (PD_IDX virt) (set_page_size true);;
    ret 0
  else
  let* r := ensure_table pd (PD_IDX virt) is_user in
  match r with None => ret (- ENOMEM) | Some (_, pt) =>
  let* e := entry pd (PD_IDX virt) in
  if page_size e then ret (- EEXIST) else
  fill_entry pt (PT_IDX virt) phy flags;;
  ret 0 end end end.

Definition map_page_to_virt_in (pml4_base virt phy flags : Z) (big_page : bool) : M vm Z :=
  let* ie := lock_irqsave paging_lock_f in
  let* r := map_locked pml4_base virt phy flags big_page in
  unlock_irqrestore paging_lock_f ie;;
  ret r.

Definition map_page_to_virt (virt phy flags : Z) (big_page : bool) : M vm unit :=
  let* _ := map_page_to_virt_in pml4 virt phy flags big_page in ret tt.

(** The entry of the last table, unless something on the way is missing or
    (with [stop_at_big]) is a 2MB page. *)
Definition walk_locked (pml4_base virt : Z) (stop_at_big : bool) : M vm (option Z) :=
  let* e4 := entry pml4_base (PML4_IDX virt) in
  if negb (present e4) then ret None else
  let* e3 := entry (entry_phys e4) (PDPT_IDX virt) in
  if negb (present e3) then ret None else
  let* e2 := entry (entry_phys e3) (PD_IDX virt) in
  if negb (present e2) then ret None else
  if stop_at_big && page_size e2 then ret None else
  let* e1 := entry (entry_phys e2) (PT_IDX virt) in
  if negb (present e1) then ret None else ret (Some (entry_phys e2)).

Definition unmap_page_in (pml4_base virt : Z) : M vm Z :=
  let* ie := lock_irqsave paging_lock_f in
  let* w := walk_locked pml4_base virt true in
  let* found := match w with
    | None => ret false
    | Some p1 => set_entry p1 (PT_IDX virt) (set_present false);; ret true end in
  spin_unlock paging_lock_f;;
  when found (tlb_flush_remote virt);;
  when ie StiHelper;;
  ret (if found then 0 else - ENOENT).

(** The physical page of [virt], or [None] for [-ENOENT]. *)
Definition lookup_user_in_pml4 (pml4_phys virt : Z) : M vm (option Z) :=
  let* w := walk_locked pml4_phys virt false in
  match w with
  | None => ret None
  | Some p1 => let* e1 := entry p1 (PT_IDX virt) in ret (Some (entry_phys e1))
  end.

Definition RemovePage (addr : Z) (big_page : bool) : M vm unit :=
  let* ie := lock_irqsave paging_lock_f in
  let* e4 := entry pml4 (PML4_IDX addr) in
  let* found := (if negb (present e4) then ret false else
    let* e3 := entry (entry_phys e4) (PDPT_IDX addr) in
    if negb (present e3) then ret false else
    let* e2 := entry (entry_phys e3) (PD_IDX addr) in
    if negb (present e2) then ret false else
    if big_page then set_entry (entry_phys e3) (PD_IDX addr) (set_present false);; ret true else
    if page_size e2 then ret false else
    let* e1 := entry (entry_phys e2) (PT_IDX addr) in
    if negb (present e1) then ret false else
    set_entry (entry_phys e2) (PT_IDX addr) (set_present false);; ret true) in
  spin_unlock paging_lock_f;;
  when found (tlb_flush_remote addr);;
  when ie StiHelper.

(** * Address spaces *)

Definition copy_kernel_step (new_pml4 i : Z) : M vm (Z + unit) :=
  if i <? 512 then let* e := entry pml4 i in set_entry new_pml4 i (λ _, e);; ret (inl (i + 1)) else ret (inr tt).

(** A new root sharing the kernel half; 0 stands for [-ENOMEM]. *)
Definition clone_kernel_pml4 : M vm Z :=
  let* phys := RequestBuddy in
  if phys =? 0 then ret 0 else
  memset_table phys;;
  loop 257 (copy_kernel_step phys) 256;;
  ret phys.

Definition free_cloned_pml4 (pml4_phys : Z) : M vm unit := FreeBuddy pml4_phys.

(** One iteration of each loop of [clone_user_pml4]; a result other than 0 is
    the error with which it goes to [fail]. *)
Definition clone_pt_step (p1 c1 i : Z) : M vm (Z + Z) :=
  if i <? 512 then
    let* e := entry p1 i in
    if negb (present e) then ret (inl (i + 1)) else
    if pcd e then set_entry c1 i (λ _, e);; ret (inl (i + 1)) else
    let* new_page := RequestBuddy in
    if new_page =? 0 then ret (inr (- ENOMEM)) else
    memcpy_page new_page (entry_phys e);;
    set_entry c1 i (λ _, e);;
    set_entry c1 i (set_address new_page);;
    ret (inl (i + 1))
  else ret (inr 0).
Definition clone_pt (p1 c1 : Z) : M vm Z := loop 513 (clone_pt_step p1 c1) 0.

(** The three outer loops have the same body up to their bound and the check
    for large pages. *)
Definition clone_table_step (bound : Z) (check_big : bool) (inner : Z -> Z -> M vm Z) (p c i : Z) : M vm (Z + Z) :=
  if i <? bound then
    let* e := entry p i in
    if negb (present e) then ret (inl (i + 1)) else
    if check_big && page_size e then ret (inr (- ENOTSUP)) else
    let* new_table := RequestBuddy in
    if new_table =? 0 then ret (inr (- ENOMEM)) else
    memset_table new_table;;
    set_entry c i (λ _, e);;
    set_entry c i (set_address new_table);;
    let* r := inner (entry_phys e) new_table in
    if negb (r =? 0) then ret (inr r) else ret (inl (i + 1))
  else ret (inr 0).
Definition clone_pd (p2 c2 : Z) : M vm Z := loop 513 (clone_table_step 512 true clone_pt p2 c2) 0.
Definition clone_pdpt (p3 c3 : Z) : M vm Z := loop 513 (clone_table_step 512 true clone_pd p3 c3) 0.
Definition clone_pml4 (p4 c4 : Z) : M vm Z := loop 257 (clone_table_step 256 false clone_pdpt p4 c4) 0.

(** The loops of [free_user_address_space]. *)
Definition free_pt_step (p1 i : Z) : M vm (Z + unit) :=
  if i <? 512 then
    let* e := entry p1 i in
    if negb (present e) then ret (inl (i + 1)) else
    (if pcd e then ret tt else FreeBuddy (entry_phys e));;
    set_entry p1 i (λ _, zero_entry);;
    ret (inl (i + 1))
  else ret (inr tt).
Definition free_pt (p1 : Z) : M vm unit := loop 513 (free_pt_step p1) 0.

Definition free_table_step (bound : Z) (check_big : bool) (inner : Z -> M vm unit) (t i : Z) : M vm (Z + unit) :=
  if i <? bound then
    let* e := entry t i in
    if negb (present e) then ret (inl (i + 1)) else
    (if check_big && page_size e then FreeBuddy (entry_phys e)
     else inner (entry_phys e);; FreeBuddy (entry_phys e));;
    set_entry t i (λ _, zero_entry);;
    ret (inl (i + 1))
  else ret (inr tt).
Definition free_pd (p2 : Z) : M vm unit := loop 513 (free_table_step 512 true free_pt p2) 0.
Definition free_pdpt (p3 : Z) : M vm unit := loop 513 (free_table_step 512 true free_pd p3) 0.
Definition free_user_address_space (p4 : Z) : M vm unit := loop 257 (free_table_step 256 false free_pdpt p4) 0.

(** The new root, or the error. *)
Definition clone_user_pml4 (parent_pml4_phys : Z) : M vm (Z + Z) :=
  let* child_phys := clone_kernel_pml4 in
  if child_phys =? 0 then ret (inl (- ENOMEM)) else
  let* r := clone_pml4 parent_pml4_phys child_phys in
  if r =? 0 then ret (inr child_phys) else
  (free_user_address_space child_phys;;
   free_cloned_pml4 child_phys;;
   ret (inl r)).

(** * mmap and munmap *)

Definition round_up_page (size : Z) : Z := Z.land (wrap64 (wrap64 (size + PAGE_SIZE) - 1)) (wrap64 (Z.lnot (PAGE_SIZE - 1))).
Definition mmap_flags : Z := Z.lor (Z.lor (Z.lor PRESENT_PAGE RW_PAGE) USER_PAGE) NX_PAGE.

(** One page of the loop of [MmapHandler]; [inr] leaves it, with how much is
    mapped and whether it failed. *)
Definition mmap_step (cr3 va_start size off : Z) : M vm (Z + bool * Z) :=
  if off <? size then
    let* phys := RequestBuddy in
    if phys =? 0 then ret (inr (false, off)) else
    memset_page phys;;
    let* r := map_page_to_virt_in cr3 (wrap64 (va_start + off)) phys mmap_flags false in
    if r <? 0 then FreeBuddy phys;; ret (inr (false, off)) else
    ret (inl (wrap64 (off + PAGE_SIZE)))
  else ret (inr (true, off)).

(** One page of the loop that undoes a partial mapping. *)
Definition mmap_undo_step (cr3 va_start mapped off : Z) : M vm (Z + unit) :=
  if off <? mapped then
    let* phys := lookup_user_in_pml4 cr3 (wrap64 (va_start + off)) in
    match phys with
    | Some phys => let* _ := unmap_page_in cr3 (wrap64 (va_start + off)) in FreeBuddy phys
    | None => ret tt end;;
    ret (inl (wrap64 (off + PAGE_SIZE)))
  else ret (inr tt).

(** The handler for a task with root [cr3] and break [mmap_next]: its result
    and the new break. [pages] bounds the number of iterations. *)
Definition MmapHandler (cr3 mmap_next size : Z) : M vm (Z * Z) :=
  if size =? 0 then ret (- EINVAL, mmap_next) else
  let size := round_up_page size in
  let mmap_next := if mmap_next =? 0 then USER_MMAP_BASE else mmap_next in
  if USER_MMAP_END <? wrap64 (mmap_next + size) then ret (- ENOMEM, mmap_next) else
  let fuel := S (Z.to_nat (size / PAGE_SIZE)) in
  let* r := loop fuel (mmap_step cr3 mmap_next size) 0 in
  let '(ok, mapped) := r in
  if ok then ret (mmap_next, wrap64 (mmap_next + size)) else
  loop fuel (mmap_undo_step cr3 mmap_next mapped) 0;;
  ret (- ENOMEM, mmap_next).

Definition munmap_step (cr3 addr size off : Z) : M vm (Z + unit) :=
  if off <? size then
    let* phys := lookup_user_in_pml4 cr3 (wrap64 (addr + off)) in
    match phys with
    | Some phys => let* _ := unmap_page_in cr3 (wrap64 (addr + off)) in FreeBuddy phys
    | None => ret tt end;;
    ret (inl (wrap64 (off + PAGE_SIZE)))
  else ret (inr tt).

Definition MunmapHandler (cr3 addr size : Z) : M vm Z :=
  if negb (Z.land addr (PAGE_SIZE - 1) =? 0) then ret (- EINVAL) else
  if size =? 0 then ret (- EINVAL) else
  let size := round_up_page size in
  if (addr <? USER_MMAP_BASE) || (USER_MMAP_END <? wrap64 (addr + size)) then ret (- EINVAL) else
  loop (S (Z.to_nat (size / PAGE_SIZE))) (munmap_step cr3 addr size) 0;;
  ret 0.

(** The file-backed variant: [mmap_phys] is the driver's, [None] for an error. *)
Definition mmap_file_step (mmap_phys : Z -> option Z) (cr3 va_start size off : Z) : M vm (Z + bool * Z) :=
  if off <? size then
    match mmap_phys off with
    | None => ret (inr (false, off))
    | Some phys =>
        let* r := map_page_to_virt_in cr3 (wrap64 (va_start + off)) phys (Z.lor (Z.lor mmap_flags WRITE_THROUGH_PAGE) CACHE_DIS_PAGE) false in
        if r <? 0 then ret (inr (false, off)) else ret (inl (wrap64 (off + PAGE_SIZE)))
    end
  else ret (inr (true, off)).
Definition mmap_file_undo_step (cr3 va_start mapped off : Z) : M vm (Z + unit) :=
  if off <? mapped then
    let* _ := unmap_page_in cr3 (wrap64 (va_start + off)) in ret (inl (wrap64 (off + PAGE_SIZE)))
  else ret (inr tt).
(** After the descriptor has been found to have [mmap_phys]. *)
Definition MmapFileHandler (mmap_phys : Z -> option Z) (cr3 mmap_next size : Z) : M vm (Z * Z) :=
  if size =? 0 then ret (- EINVAL, mmap_next) else
  let size := round_up_page size in
  let mmap_next := if mmap_next =? 0 then USER_MMAP_BASE else mmap_next in
  if USER_MMAP_END <? wrap64 (mmap_next + size) then ret (- ENOMEM, mmap_next) else
  let fuel := S (Z.to_nat (size / PAGE_SIZE)) in
  let* r := loop fuel (mmap_file_step mmap_phys cr3 mmap_next size) 0 in
  let '(ok, mapped) := r in
  if ok then ret (mmap_next, wrap64 (mmap_next + size)) else
  loop fuel (mmap_file_undo_step cr3 mmap_next mapped) 0;;
  ret (- ENOMEM, mmap_next).

(** * Kernel mappings *)

Definition FillPageDirectory_step (virt phy count stride flags : Z) (big : bool) (i : Z) : M vm (Z + unit) :=
  if i <? count then map_page_to_virt (wrap64 (virt + i * stride)) (wrap64 (phy + i * stride)) flags big;; ret (inl (i + 1)) else ret (inr tt).
Definition FillPageDirectoryGeneral (virt phy size flags : Z) : M vm unit :=
  let remaining_size := size mod TABLE_SIZE in
  let num_big_pages := size / TABLE_SIZE in
  let num_small_pages := if negb (remaining_size =? 0) then wrap64 (remaining_size + PAGE_SIZE - 1) / PAGE_SIZE else 0 in
  let unaligned := negb (PT_IDX phy =? 0) || negb (PT_IDX virt =? 0) in
  let num_big_pages := if unaligned then 0 else num_big_pages in
  let num_small_pages := if unaligned then wrap64 (size + PAGE_SIZE - 1) / PAGE_SIZE else num_small_pages in
  loop (S (Z.to_nat num_big_pages)) (FillPageDirectory_step virt phy num_big_pages TABLE_SIZE flags true) 0;;
  loop (S (Z.to_nat num_small_pages))
    (FillPageDirectory_step (wrap64 (virt + num_big_pages * TABLE_SIZE)) (wrap64 (phy + num_big_pages * TABLE_SIZE)) num_small_pages PAGE_SIZE flags false) 0.

(** [AddKernelPages] and [AddNonCachableKernelPages] after RequestBuddy: two
    loops, both with [big_page] set. *)
Definition add_big_step (flags : Z) (v : Z * Z) : M vm (Z * Z + Z * Z) :=
  let '(num_pages, curr) := v in
  if 2 * MB / PAGE_SIZE <=? num_pages then
    map_page_to_virt curr (KERNEL_VIRT_TO_PHYS curr) flags true;; ret (inl (num_pages - 2 * MB / PAGE_SIZE, wrap64 (curr + 2 * MB)))
  else ret (inr v).
Definition add_small_step (flags : Z) (v : Z * Z) : M vm (Z * Z + unit) :=
  let '(num_pages, curr) := v in
  if 0 <? num_pages then map_page_to_virt curr (KERNEL_VIRT_TO_PHYS curr) flags true;; ret (inl (num_pages - 1, wrap64 (curr + PAGE_SIZE)))
  else ret (inr tt).
Definition add_pages (start num_pages flags : Z) : M vm unit :=
  let fuel := S (Z.to_nat num_pages) in
  let* v := loop fuel (add_big_step flags) (num_pages, start) in
  loop fuel (add_small_step flags) v.
(** [phys] is what RequestBuddy returned, 0 included. *)
Definition AddKernelPages (phys num_pages : Z) : M vm Z :=
  let start_addr := wrap64 (phys + KERNEL_VIRTUAL) in
  add_pages start_addr num_pages RW_KERNEL;; ret start_addr.

(** [RemoveKernelPages] after FreeBuddy. *)
Definition remove_big_step (v : Z * Z) : M vm (Z * Z + Z * Z) :=
  let '(num_pages, curr) := v in
  if 2 * MB / PAGE_SIZE <=? num_pages then RemovePage curr true;; ret (inl (num_pages - 2 * MB / PAGE_SIZE, wrap64 (curr + 2 * MB))) else ret (inr v).
Definition remove_small_step (v : Z * Z) : M vm (Z * Z + unit) :=
  let '(num_pages, curr) := v in
  if 0 <? num_pages then RemovePage curr false;; ret (inl (num_pages - 1, wrap64 (curr + PAGE_SIZE))) else ret (inr tt).
Definition RemoveKernelPages (start num_pages : Z) : M vm unit :=
  let fuel := S (Z.to_nat num_pages) in
  let* v := loop fuel remove_big_step (num_pages, start) in
  loop fuel remove_small_step v.
End Paging.
