(* ===== verification/PageSpace.v ===== *)
(** Address spaces as trees of physical pages: which pages a table owns, and
    when two tables describe the same memory. A table of [n] index levels below
    it is a page table for [n = 1], a root (user half) for [n = 4]. *)

From S2P Require Import Prelude PageTable.

(** Indices of the user half at the root, all of them below. *)
Definition idx_ok (n : nat) (i : Z) : Prop := 0 <= i < (if (n =? 4)%nat then 256 else 512).
#[export] Instance idx_ok_dec n i : Decision (idx_ok n i).
Proof. unfold idx_ok. apply _. Defined.

Definition ent (s : vm) (t i : Z) : option page_entry_t := es ← tables s !! t; arr_get es i.

(** Page [f] is the table at the end of path [π] from [t], or the data page at
    the end of a full path; pages of devices are not owned. *)
Fixpoint owned (n : nat) (s : vm) (t : Z) (π : list Z) (f : Z) : Prop :=
  match n with
  | O => False
  | S m => match π with
    | [] => f = t
    | i :: π => idx_ok n i /\ exists e, ent s t i = Some e /\ present e = true /\
        match m with O => pcd e = false /\ π = [] /\ f = entry_phys e | S _ => owned m s (entry_phys e) π f end
    end
  end.
(** The same below one entry of a table of [S m] levels. *)
Definition kid (m : nat) (s : vm) (e : page_entry_t) (π : list Z) (f : Z) : Prop :=
  match m with O => pcd e = false /\ π = [] /\ f = entry_phys e | S _ => owned m s (entry_phys e) π f end.

(** Every table on the way is there, there are no large pages, and every owned
    page holds data. *)
Fixpoint tree_ok (n : nat) (s : vm) (t : Z) : Prop :=
  match n with
  | O => False
  | S m => exists es, tables s !! t = Some es /\ length es = 512%nat /\
      (m <> 0%nat -> forall i e, idx_ok n i -> arr_get es i = Some e -> page_size e = false) /\
      forall i e, idx_ok n i -> arr_get es i = Some e -> present e = true ->
        match m with
        | O => pcd e = false -> exists c, frames s !! entry_phys e = Some c /\ length c = 4096%nat
        | S _ => page_size e = false /\ tree_ok m s (entry_phys e) end
  end.
Definition kid_ok (m : nat) (s : vm) (e : page_entry_t) : Prop :=
  match m with
  | O => pcd e = false -> exists c, frames s !! entry_phys e = Some c /\ length c = 4096%nat
  | S _ => page_size e = false /\ tree_ok m s (entry_phys e) end.

Record space (n : nat) (s : vm) (t : Z) : Prop := {
  sp_tree : tree_ok n s t;
  sp_inj : forall π π' f, owned n s t π f -> owned n s t π' f -> π = π';
  sp_live : forall π f, owned n s t π f -> f ∈ busy s }.

Definition same_at (s s' : vm) (f : Z) : Prop := tables s' !! f = tables s !! f /\ frames s' !! f = frames s !! f.
Definition agree (n : nat) (s s' : vm) (t : Z) : Prop := forall π f, owned n s t π f -> same_at s s' f.
Definition kid_agree (m : nat) (s s' : vm) (e : page_entry_t) : Prop := forall π f, kid m s e π f -> same_at s s' f.

Lemma owned_S m s t i π f : owned (S m) s t (i :: π) f <-> idx_ok (S m) i /\ exists e, ent s t i = Some e /\ present e = true /\ kid m s e π f.
Proof. destruct m; reflexivity. Qed.

Lemma tree_S m s t : tree_ok (S m) s t <-> exists es, tables s !! t = Some es /\ length es = 512%nat /\
  (m <> 0%nat -> forall i e, idx_ok (S m) i -> arr_get es i = Some e -> page_size e = false) /\
  forall i e, idx_ok (S m) i -> arr_get es i = Some e -> present e = true -> kid_ok m s e.
Proof. destruct m; reflexivity. Qed.

Lemma idx_512 n i : idx_ok n i -> 0 <= i < 512.
Proof. unfold idx_ok. destruct (n =? 4)%nat; lia. Qed.

Lemma ent_some s t es i : tables s !! t = Some es -> ent s t i = arr_get es i.
Proof. unfold ent. now intros ->. Qed.

Lemma ent_get n es i : length es = 512%nat -> idx_ok n i -> exists e : page_entry_t, arr_get es i = Some e.
Proof. intros Hl Hi%idx_512. apply arr_get_lt. lia. Qed.

Lemma zero_table_length : length zero_table = 512%nat.
Proof. apply length_replicate. Qed.

Lemma zero_table_get n j : idx_ok n j -> arr_get zero_table j = Some zero_entry.
Proof. intros Hj%idx_512. unfold arr_get. destruct (Z.ltb_spec j 0); [lia|]. apply lookup_replicate_2. lia. Qed.

(** Ownership depends only on the owned tables. *)
Lemma owned_ext n s s' t : agree n s s' t -> forall π f, owned n s' t π f <-> owned n s t π f.
Proof.
  revert t. induction n as [|m IH]; intros t Ha π f; [reflexivity|]. destruct π as [|i π]; [reflexivity|]. rewrite !owned_S.
  assert (Et : ent s' t i = ent s t i) by (unfold ent; now rewrite (proj1 (Ha [] t eq_refl))). rewrite Et.
  assert (Hk : idx_ok (S m) i -> forall e, ent s t i = Some e -> present e = true -> (kid m s' e π f <-> kid m s e π f)).
  { intros Hi e Ee Hp. destruct m as [|m]; [reflexivity|]. apply IH. intros π' f' Ho. apply (Ha (i :: π') f'). apply owned_S. eauto. }
  split; (intros (Hi & e & Ee & Hp & Hkd); split; [exact Hi|]; exists e; split_and!; auto; now apply (Hk Hi e Ee Hp)).
Qed.

Lemma kid_agree_of m s s' t i e : agree (S m) s s' t -> idx_ok (S m) i -> ent s t i = Some e -> present e = true -> kid_agree m s s' e.
Proof. intros Ha Hi Ee Hp π f Hk. apply (Ha (i :: π)). apply owned_S. eauto. Qed.

Lemma kid_ext m s s' e : kid_agree m s s' e -> forall π f, kid m s' e π f <-> kid m s e π f.
Proof. destruct m as [|m]; [reflexivity|]. intros Ha. apply (owned_ext (S m) s s'). exact Ha. Qed.

Lemma tree_ext n s s' t : agree n s s' t -> tree_ok n s t -> tree_ok n s' t.
Proof.
  revert t. induction n as [|m IH]; intros t Ha; [easy|]. rewrite !tree_S. intros (es & Et & Hl & Hps & He).
  exists es. rewrite (proj1 (Ha [] t eq_refl)). split_and!; auto. intros i e Hi Ei Hp.
  assert (Hka : kid_agree m s s' e) by (eapply kid_agree_of; eauto; now rewrite (ent_some s t es)).
  specialize (He i e Hi Ei Hp). destruct m as [|m]; simpl in *.
  - intros Hpc. rewrite (proj2 (Hka [] (entry_phys e) (conj Hpc (conj eq_refl eq_refl)))). now apply He.
  - destruct He as [Hs He]. split; [exact Hs|]. apply IH; [exact Hka|exact He].
Qed.

Lemma kid_ok_ext m s s' e : kid_agree m s s' e -> kid_ok m s e -> kid_ok m s' e.
Proof.
  destruct m as [|m].
  - intros Ha He Hp. rewrite (proj2 (Ha [] (entry_phys e) (conj Hp (conj eq_refl eq_refl)))). now apply He.
  - intros Ha [Hs He]. split; [exact Hs|]. now apply (tree_ext (S m) s s').
Qed.

(** * Spaces and their parts *)

Lemma space_kid m s t i e : space (S m) s t -> idx_ok (S m) i -> ent s t i = Some e -> present e = true ->
  kid_ok m s e /\ (forall π π' f, kid m s e π f -> kid m s e π' f -> π = π') /\ (forall π f, kid m s e π f -> f ∈ busy s /\ f <> t).
Proof.
  intros [Ht Hi Hl] Hix Ee Hp. apply tree_S in Ht as (es & Et & _ & _ & He). split_and!.
  - apply (He i e Hix); [now rewrite <- (ent_some s t es)|exact Hp].
  - intros π π' f H1 H2. assert (E : i :: π = i :: π') by (apply (Hi _ _ f); apply owned_S; eauto). now injection E.
  - intros π f Hk. assert (Ho : owned (S m) s t (i :: π) f) by (apply owned_S; eauto). split; [eapply Hl; eauto|]. intros ->.
    discriminate (Hi [] (i :: π) t eq_refl Ho).
Qed.

Lemma space_kids_disjoint m s t i j e e' π π' f : space (S m) s t -> idx_ok (S m) i -> idx_ok (S m) j ->
  ent s t i = Some e -> ent s t j = Some e' -> present e = true -> present e' = true -> kid m s e π f -> kid m s e' π' f -> i = j.
Proof.
  intros Hs Hi Hj Ee Ee' Hp Hp' Hk Hk'. assert (E : i :: π = j :: π') by (apply (sp_inj _ _ _ Hs _ _ f); apply owned_S; eauto). now injection E.
Qed.

(** Building a space from its parts. *)
Lemma space_build m s t es : tables s !! t = Some es -> length es = 512%nat -> t ∈ busy s ->
  (m <> 0%nat -> forall i e, idx_ok (S m) i -> arr_get es i = Some e -> page_size e = false) ->
  (forall i e, idx_ok (S m) i -> arr_get es i = Some e -> present e = true ->
     kid_ok m s e /\ (forall π π' f, kid m s e π f -> kid m s e π' f -> π = π') /\ (forall π f, kid m s e π f -> f ∈ busy s /\ f <> t)) ->
  (forall i j e e' π π' f, idx_ok (S m) i -> idx_ok (S m) j -> arr_get es i = Some e -> arr_get es j = Some e' -> present e = true -> present e' = true ->
     kid m s e π f -> kid m s e' π' f -> i = j) ->
  space (S m) s t.
Proof.
  intros Et Hl Hb Hps Hk Hd. split.
  - apply tree_S. exists es. split_and!; auto. intros i e Hi Ee Hp. now apply (Hk i e).
  - intros [|i π] [|j π'] f; rewrite ?owned_S.
    + auto.
    + simpl. intros -> (Hj & e & Ee & Hp & Hkd). rewrite (ent_some s t es _ Et) in Ee. now elim (proj2 (proj2 (proj2 (Hk j e Hj Ee Hp)) _ _ Hkd)).
    + simpl. intros (Hj & e & Ee & Hp & Hkd) ->. rewrite (ent_some s t es _ Et) in Ee. now elim (proj2 (proj2 (proj2 (Hk i e Hj Ee Hp)) _ _ Hkd)).
    + intros (Hi & e & Ee & Hp & Hkd) (Hj & e' & Ee' & Hp' & Hkd'). rewrite (ent_some s t es i Et) in Ee. rewrite (ent_some s t es j Et) in Ee'.
      assert (i = j) as <- by (eapply (Hd i j); eauto). assert (e' = e) as -> by congruence. f_equal. eapply (Hk i e); eauto.
  - intros [|i π] f; rewrite ?owned_S; [now simpl; intros ->|]. intros (Hi & e & Ee & Hp & Hkd). rewrite (ent_some s t es _ Et) in Ee. now apply (proj2 (proj2 (Hk i e Hi Ee Hp)) π).
Qed.

Lemma space_ext n s s' t : agree n s s' t -> (forall π f, owned n s t π f -> f ∈ busy s') -> space n s t -> space n s' t.
Proof.
  intros Ha Hb [H1 H2 H3]. split; [now apply (tree_ext n s)| |].
  - intros π π' f. rewrite !(owned_ext n s s' t Ha). apply H2.
  - intros π f. rewrite (owned_ext n s s' t Ha). apply Hb.
Qed.

(** * Physical addresses *)
Definition is_page (p : Z) : Prop := 0 < p < 2 ^ 52 /\ p mod 4096 = 0.

Lemma entry_phys_set p e : is_page p -> entry_phys (set_address p e) = p.
Proof.
  intros [Hp Hm]. unfold entry_phys, set_address. cbn [address]. rewrite shiftr_div, Z.shiftl_mul_pow2 by lia. change (2 ^ 12) with 4096.
  rewrite wrap_small; [pose proof (Z.div_mod p 4096); lia|]. unfold is_word. split; [apply Z.div_pos; lia|apply Z.div_lt_upper_bound; lia].
Qed.

(** * Copies *)

(** Table [c] in [s'] describes the memory table [p] describes in [s]: the same
    entries up to the addresses, device pages shared, other pages with the same
    contents. *)
Fixpoint mirror (n : nat) (s : vm) (p : Z) (s' : vm) (c : Z) : Prop :=
  match n with
  | O => False
  | S m => forall i, idx_ok n i -> exists e e', ent s p i = Some e /\ ent s' c i = Some e' /\
      if present e then
        match m with
        | O => if pcd e then e' = e else (exists a, e' = set_address a e) /\ frames s' !! entry_phys e' = frames s !! entry_phys e
        | S _ => (exists a, e' = set_address a e) /\ mirror m s (entry_phys e) s' (entry_phys e')
        end
      else present e' = false
  end.
Definition mirror_entry (m : nat) (s : vm) (e : page_entry_t) (s' : vm) (e' : page_entry_t) : Prop :=
  if present e then
    match m with
    | O => if pcd e then e' = e else (exists a, e' = set_address a e) /\ frames s' !! entry_phys e' = frames s !! entry_phys e
    | S _ => (exists a, e' = set_address a e) /\ mirror m s (entry_phys e) s' (entry_phys e')
    end
  else present e' = false.

Lemma mirror_S m s p s' c : mirror (S m) s p s' c <-> forall i, idx_ok (S m) i ->
  exists e e', ent s p i = Some e /\ ent s' c i = Some e' /\ mirror_entry m s e s' e'.
Proof. destruct m; reflexivity. Qed.

Lemma mirror_entry_present m s e s' e' : mirror_entry m s e s' e' -> present e' = present e.
Proof.
  unfold mirror_entry. destruct (present e) eqn:Hp; [|auto]. destruct m.
  - destruct (pcd e); [now intros ->|]. now intros [[a ->] _].
  - now intros [[a ->] _].
Qed.

Lemma mirror_ext n s1 s2 s1' s2' p c : agree n s1 s2 p -> agree n s1' s2' c -> mirror n s1 p s1' c -> mirror n s2 p s2' c.
Proof.
  revert p c. induction n as [|m IH]; intros p c Ha Ha'; [easy|]. rewrite !mirror_S. intros H i Hi. destruct (H i Hi) as (e & e' & E1 & E2 & Hm).
  exists e, e'. assert (F1 : ent s2 p i = Some e) by (unfold ent; now rewrite (proj1 (Ha [] p eq_refl))).
  assert (F2 : ent s2' c i = Some e') by (unfold ent; now rewrite (proj1 (Ha' [] c eq_refl))). split_and!; auto.
  pose proof (mirror_entry_present _ _ _ _ _ Hm) as Hpe. unfold mirror_entry in *. destruct (present e) eqn:Hp; [|exact Hm].
  pose proof (kid_agree_of m s1 s2 p i e Ha Hi E1 Hp) as K1. pose proof (kid_agree_of m s1' s2' c i e' Ha' Hi E2 Hpe) as K2.
  destruct m as [|m].
  - destruct (pcd e) eqn:Hpc; [exact Hm|]. destruct Hm as [[a ->] Hf]. split; [eauto|].
    rewrite (proj2 (K1 [] _ (conj Hpc (conj eq_refl eq_refl)))). rewrite <- Hf. apply (K2 []). exact (conj Hpc (conj eq_refl eq_refl)).
  - destruct Hm as [He Hm]. split; [exact He|]. now apply (IH _ _ K1 K2).
Qed.

Lemma mirror_entry_ext m s1 s2 s1' s2' e e' : (present e = true -> kid_agree m s1 s2 e) -> (present e' = true -> kid_agree m s1' s2' e') ->
  mirror_entry m s1 e s1' e' -> mirror_entry m s2 e s2' e'.
Proof.
  intros K1 K2 Hm. pose proof (mirror_entry_present _ _ _ _ _ Hm) as Hpe. unfold mirror_entry in *. destruct (present e) eqn:Hp; [|exact Hm].
  specialize (K1 eq_refl). specialize (K2 Hpe). destruct m as [|m].
  - destruct (pcd e) eqn:Hpc; [exact Hm|]. destruct Hm as [[a ->] Hf]. split; [eauto|].
    rewrite (proj2 (K1 [] _ (conj Hpc (conj eq_refl eq_refl)))). rewrite <- Hf. apply (K2 []). exact (conj Hpc (conj eq_refl eq_refl)).
  - destruct Hm as [He Hm]. split; [exact He|]. now apply (mirror_ext (S m) s1 s2 s1' s2').
Qed.

(** [clone_user_pml4]: the copy of an address space. *)

(** ** Execution *)
Lemma wp_entry t i es e (Q : page_entry_t -> vm -> Prop) s : tables s !! t = Some es -> arr_get es i = Some e -> Q e s -> wp (entry t i) Q s.
Proof. intros E1 E2 HQ. unfold entry. apply wp_bind, wp_get, wp_bind. eapply wp_of_option; [exact E1|]. now rewrite E2. Qed.

Lemma wp_set_entry t i f es e (Q : unit -> vm -> Prop) s : tables s !! t = Some es -> arr_get es i = Some e ->
  Q tt (set_tables (<[t := <[Z.to_nat i := f e]> es]> (tables s)) s) -> wp (set_entry t i f) Q s.
Proof.
  intros E1 E2 HQ. unfold set_entry. apply wp_bind, wp_get, wp_bind. eapply wp_of_option; [exact E1|]. apply wp_bind. eapply wp_of_option; [exact E2|].
  apply wp_bind. eapply wp_of_option; [apply arr_set_lt, (arr_get_Some_lt _ _ _ E2)|]. apply wp_modify, HQ.
Qed.

(** Two assignments to one entry. *)
Lemma wp_set_entry2 t i f g es e (Q : unit -> vm -> Prop) s : tables s !! t = Some es -> arr_get es i = Some e ->
  Q tt (set_tables (<[t := <[Z.to_nat i := g (f e)]> es]> (tables s)) s) -> wp (set_entry t i f;; set_entry t i g) Q s.
Proof.
  intros E1 E2 HQ. pose proof (arr_get_Some_lt _ _ _ E2) as Hi. apply wp_bind. eapply wp_set_entry; eauto.
  eapply wp_set_entry; [apply lookup_insert_eq|rewrite arr_get_insert by exact Hi; now rewrite decide_True|].
  cbn [tables set_tables]. rewrite insert_insert_eq, list_insert_insert_eq. exact HQ.
Qed.

Implicit Types (s : vm).

Definition rest_same s s' : Prop := paging_lock s' = paging_lock s /\ intr s' = intr s /\ flushed s' = flushed s.

(** Pages are only added; [c] apart, the old ones are as they were. *)
Record grows s s' c : Prop := {
  gr_busy : busy s ⊆ busy s';
  gr_same : forall f, f ∈ busy s -> f <> c -> same_at s s' f;
  gr_rest : rest_same s s' }.

(** The part of [c]'s tree built since [s0]: a space of new pages, and
    every new page is in it. *)
Record built n s0 c s : Prop := {
  bu_grows : grows s0 s c;
  bu_space : space n s c;
  bu_fresh : forall π f, owned n s c π f -> π <> [] -> f ∉ busy s0;
  bu_all : forall f, f ∈ busy s -> f ∈ busy s0 \/ exists π, owned n s c π f;
  bu_kernel : forall j, 0 <= j < 512 -> ~ idx_ok n j -> ent s c j = ent s0 c j }.

(** Adding entry [i] with what it owns. *)
Lemma attach m s0 c s s' es i e e0 : built (S m) s0 c s -> tables s !! c = Some es -> c ∈ busy s0 -> idx_ok (S m) i ->
  arr_get es i = Some e0 -> present e0 = false ->
  busy s ⊆ busy s' -> (forall f, f ∈ busy s -> f <> c -> same_at s s' f) -> rest_same s s' ->
  tables s' !! c = Some (<[Z.to_nat i := e]> es) -> kid_ok m s' e -> (forall π π' f, kid m s' e π f -> kid m s' e π' f -> π = π') ->
  (forall π f, kid m s' e π f -> f ∈ busy s' /\ f ∉ busy s) -> present e = true -> (m <> 0%nat -> page_size e = false) ->
  (forall f, f ∈ busy s' -> f ∈ busy s \/ exists π, kid m s' e π f) ->
  built (S m) s0 c s'.
Proof.
  intros [[G1 G2 G3] Hsp Hfr Hall Hker] Ec Hc Hi E0 P0 Hb Hsame Hrest Ec' Hk Hkinj Hkf Hp Hpsz Hnew.
  pose proof (sp_tree _ _ _ Hsp) as Ht. apply tree_S in Ht as (es0 & Ec0 & Hlen & Hps & _). assert (es0 = es) as -> by congruence.
  pose proof (idx_512 _ _ Hi) as Hi5. assert (Hil : 0 <= i < Z.of_nat (length es)) by lia.
  assert (Hcb : c ∈ busy s) by exact (G1 c Hc).
  assert (Hold : forall j e1, idx_ok (S m) j -> j <> i -> arr_get es j = Some e1 -> present e1 = true -> kid_agree m s s' e1).
  { intros j e1 Hj Hne Ej Hpj π f Hkd. rewrite <- (ent_some s c es j Ec) in Ej. destruct (space_kid m s c j e1 Hsp Hj Ej Hpj) as (_ & _ & Hl).
    destruct (Hl π f Hkd). auto. }
  assert (Hget : forall j e1, arr_get (<[Z.to_nat i := e]> es) j = Some e1 -> (j = i /\ e1 = e) \/ (j <> i /\ arr_get es j = Some e1)).
  { intros j e1. rewrite arr_get_insert by exact Hil. destruct (decide (i = j)) as [->|]; [intros [= ->]; auto|auto]. }
  assert (Hkid : forall j e1 π f, idx_ok (S m) j -> j <> i -> arr_get es j = Some e1 -> present e1 = true -> kid m s' e1 π f -> kid m s e1 π f /\ f ∈ busy s /\ f <> c).
  { intros j e1 π f Hj Hne Ej Hpj Hkd. apply (kid_ext m s s' e1 (Hold j e1 Hj Hne Ej Hpj)) in Hkd. split; [exact Hkd|].
    rewrite <- (ent_some s c es j Ec) in Ej. destruct (space_kid m s c j e1 Hsp Hj Ej Hpj) as (_ & _ & Hl). eauto. }
  assert (Hsp' : space (S m) s' c).
  { apply (space_build m s' c (<[Z.to_nat i := e]> es)); auto; [now rewrite length_insert| | |].
    - intros Hm j e1 Hj Ej. destruct (Hget j e1 Ej) as [[-> ->]|[Hne Ej']]; [now apply Hpsz|now apply (Hps Hm j)].
    - intros j e1 Hj Ej Hpj. destruct (Hget j e1 Ej) as [[-> ->]|[Hne Ej']].
      + split_and!; auto. intros π f Hkd. destruct (Hkf π f Hkd) as [H1 H2]. split; [exact H1|]. intros ->. contradiction.
      + pose proof Ej' as Ej2. rewrite <- (ent_some s c es j Ec) in Ej2. destruct (space_kid m s c j e1 Hsp Hj Ej2 Hpj) as (K1 & K2 & K3). split_and!.
        * exact (kid_ok_ext m s s' e1 (Hold j e1 Hj Hne Ej' Hpj) K1).
        * intros π π' f H1 H2. apply (K2 π π' f); now apply (Hkid j e1).
        * intros π f Hkd. destruct (Hkid j e1 π f Hj Hne Ej' Hpj Hkd) as (_ & H1 & H2). split; [exact (Hb f H1)|exact H2].
    - intros j k e1 e2 π π' f Hj Hk' Ej Ek Hpj Hpk Hkj Hkk. destruct (Hget j e1 Ej) as [[-> ->]|[Hnj Ej']], (Hget k e2 Ek) as [[-> ->]|[Hnk Ek']]; auto.
      + destruct (Hkid k e2 π' f Hk' Hnk Ek' Hpk Hkk) as (_ & H1 & _). now elim (proj2 (Hkf π f Hkj)).
      + destruct (Hkid j e1 π f Hj Hnj Ej' Hpj Hkj) as (_ & H1 & _). now elim (proj2 (Hkf π' f Hkk)).
      + eapply (space_kids_disjoint m s c j k e1 e2 π π' f Hsp Hj Hk'); rewrite ?(ent_some s c es _ Ec); auto; [now apply (Hkid j e1)|now apply (Hkid k e2)]. }
  assert (Hown : forall j π f, owned (S m) s' c (j :: π) f -> (j = i /\ kid m s' e π f) \/ (j <> i /\ owned (S m) s c (j :: π) f)).
  { intros j π f. rewrite !owned_S, (ent_some s' c _ j Ec'), (ent_some s c es j Ec). intros (Hj & e1 & Ej & Hpj & Hkj).
    destruct (Hget j e1 Ej) as [[-> ->]|[Hnj Ej']]; [auto|right]. split; [exact Hnj|]. split; [exact Hj|]. exists e1. split_and!; auto. now apply (Hkid j e1). }
  split; [split|exact Hsp'| | |].
  - set_solver.
  - intros f Hf Hne. destruct (G2 f Hf Hne) as [A1 A2], (Hsame f (G1 f Hf) Hne) as [B1 B2]. split; congruence.
  - unfold rest_same in *. destruct G3 as (? & ? & ?), Hrest as (? & ? & ?). split_and!; congruence.
  - intros [|j π] f Ho Hne; [easy|]. destruct (Hown j π f Ho) as [[-> Hkd]|[_ Ho']]; [intros Hf; apply (proj2 (Hkf π f Hkd)), (G1 f Hf)|now apply (Hfr (j :: π))].
  - intros f Hf. destruct (Hnew f Hf) as [Hf'|[π Hkd]].
    + destruct (Hall f Hf') as [|[π Ho]]; [auto|right]. destruct π as [|j π]; [exists []; exact Ho|]. exists (j :: π).
      rewrite owned_S, (ent_some s c es j Ec) in Ho. rewrite owned_S, (ent_some s' c _ j Ec'). destruct Ho as (Hj & e1 & Ej & Hpj & Hkj). split; [exact Hj|]. exists e1.
      assert (Hnj : j <> i) by (intros ->; congruence). split_and!; auto.
      * rewrite arr_get_insert by exact Hil. now rewrite decide_False by auto.
      * now apply (kid_ext m s s' e1 (Hold j e1 Hj Hnj Ej Hpj)).
    + right. exists (i :: π). rewrite owned_S, (ent_some s' c _ i Ec'). split; [exact Hi|]. exists e. rewrite arr_get_insert by exact Hil. now rewrite decide_True by auto.
  - intros j Hj Hno. rewrite <- (Hker j Hj Hno), (ent_some s' c _ j Ec'), (ent_some s c es j Ec), arr_get_insert by exact Hil.
    apply decide_False. now intros <-.
Qed.
(** ** The loops *)

(** The source's tree is there and the copy's root is not in it. *)
Definition source n s p c : Prop := tree_ok n s p /\ forall π f, owned n s p π f -> f ∈ busy s /\ f <> c.
(** Every user entry of [c] is zero. *)
Definition blank n s c : Prop := exists es, tables s !! c = Some es /\ length es = 512%nat /\
  forall j, idx_ok n j -> arr_get es j = Some zero_entry.

(** Entries below [i] are copied, the others still blank. *)
Record copying m s0 p c i s : Prop := {
  cp_built : built (S m) s0 c s;
  cp_rest : forall j, idx_ok (S m) j -> i <= j -> ent s c j = Some zero_entry;
  cp_done : forall j, idx_ok (S m) j -> j < i -> exists e e', ent s0 p j = Some e /\ ent s c j = Some e' /\ mirror_entry m s0 e s e' }.

Definition copied n s0 p c r s' : Prop := built n s0 c s' /\ ((r = 0 /\ mirror n s0 p s' c) \/ r < 0).

Lemma copying_init m s p c : blank (S m) s c -> c ∈ busy s -> copying m s p c 0 s.
Proof.
  intros (es & Ec & Hl & Hbl) Hc. assert (Hno : forall j e, idx_ok (S m) j -> arr_get es j = Some e -> present e = true -> False).
  { intros j e Hj Ej Hp. rewrite (Hbl j Hj) in Ej. injection Ej as <-. discriminate. }
  split.
  - assert (Ho : forall π f, owned (S m) s c π f -> π = []).
    { intros [|j π] f; [auto|]. rewrite owned_S, (ent_some s c es j Ec). intros (Hj & e & Ej & Hp & _). now elim (Hno j e). }
    split; [split; [set_solver|split; reflexivity|split_and!; reflexivity]| | |auto|auto].
    + apply (space_build m s c es); auto; [intros _ i e Hi Ei; rewrite (Hbl i Hi) in Ei; now injection Ei as <-| |]; intros i e; [intros Hi Ei Hp; now elim (Hno i e)|]. intros e1 e2 π π' f Hi _ Ei _ Hp _. now elim (Hno i e1).
    + intros π f H1 H2. now elim H2; apply (Ho π f).
  - intros j Hj _. rewrite (ent_some s c es j Ec). auto.
  - intros j Hj Hlt. apply idx_512 in Hj. lia.
Qed.

Lemma source_agree n s0 s p c : source n s0 p c -> grows s0 s c -> agree n s0 s p.
Proof. intros [_ Ho] [_ Hs _] π f Hf. destruct (Ho π f Hf). auto. Qed.

Lemma copying_skip m s0 p c i s e : copying m s0 p c i s -> ent s0 p i = Some e -> present e = false -> copying m s0 p c (i + 1) s.
Proof.
  intros [Hb Hr Hd] Ee Hp. split; auto.
  - intros j Hj Hle. apply Hr; [exact Hj|lia].
  - intros j Hj Hlt. destruct (decide (j = i)) as [->|]; [|apply Hd; [exact Hj|lia]]. pose proof (Hr i Hj ltac:(lia)) as E'.
    exists e, zero_entry. split_and!; auto. unfold mirror_entry. now rewrite Hp.
Qed.

(** Attaching the copy of entry [i]. *)
Lemma copying_attach m s0 p c i s s' es e e' : copying m s0 p c i s -> tables s !! c = Some es -> c ∈ busy s0 -> idx_ok (S m) i ->
  busy s ⊆ busy s' -> (forall f, f ∈ busy s -> f <> c -> same_at s s' f) -> rest_same s s' ->
  tables s' !! c = Some (<[Z.to_nat i := e']> es) -> kid_ok m s' e' -> (forall π π' f, kid m s' e' π f -> kid m s' e' π' f -> π = π') ->
  (forall π f, kid m s' e' π f -> f ∈ busy s' /\ f ∉ busy s) -> present e' = true -> (m <> 0%nat -> page_size e' = false) ->
  (forall f, f ∈ busy s' -> f ∈ busy s \/ exists π, kid m s' e' π f) ->
  built (S m) s0 c s' /\ (ent s0 p i = Some e -> mirror_entry m s0 e s' e' -> copying m s0 p c (i + 1) s').
Proof.
  intros HC Ec Hc Hi Hb Hsame Hrest Ec' Hk Hkinj Hkf Hp Hpsz Hnew. destruct HC as [HB Hr Hd].
  pose proof (Hr i Hi ltac:(lia)) as E0. rewrite (ent_some s c es i Ec) in E0.
  pose proof (arr_get_Some_lt _ _ _ E0) as Hil.
  assert (HB' : built (S m) s0 c s') by (eapply (attach m s0 c s s' es i e' zero_entry); eauto). split; [exact HB'|]. intros Ee Hm. split; [exact HB'| |].
  - intros j Hj Hle. rewrite (ent_some s' c _ j Ec'), arr_get_insert by exact Hil.
    rewrite decide_False, <- (ent_some s c es j Ec) by (auto; lia). apply Hr; [exact Hj|lia].
  - intros j Hj Hlt. destruct (decide (i = j)) as [<-|Hne].
    + exists e, e'. rewrite (ent_some s' c _ i Ec'), arr_get_insert, decide_True by auto. auto.
    + destruct (Hd j Hj ltac:(lia)) as (e1 & e1' & E1 & E1' & M1). exists e1, e1'. split; [exact E1|].
      split; [rewrite (ent_some s' c _ j Ec'), arr_get_insert, decide_False by auto; now rewrite <- (ent_some s c es j Ec)|].
      apply (mirror_entry_ext m s0 s0 s s' e1 e1'); [easy| |exact M1]. intros Hp1 π f Hkd.
      destruct (space_kid m s c j e1' (bu_space _ _ _ _ HB) Hj E1' Hp1) as (_ & _ & Hl). destruct (Hl π f Hkd). auto.
Qed.

Lemma copying_done m s0 p c i s : copying m s0 p c i s -> (forall j, idx_ok (S m) j -> j < i) -> copied (S m) s0 p c 0 s.
Proof. intros [Hb _ Hd] Hi. split; [exact Hb|]. left. split; [reflexivity|]. apply mirror_S. intros j Hj. apply Hd; auto. Qed.

Lemma source_entry m s0 s p c i : source (S m) s0 p c -> grows s0 s c -> idx_ok (S m) i -> exists es e, tables s !! p = Some es /\ arr_get es i = Some e /\
  ent s0 p i = Some e /\ (present e = true -> kid_ok m s0 e /\ kid_agree m s0 s e /\ forall π f, kid m s0 e π f -> f ∈ busy s0 /\ f <> c).
Proof.
  intros Hsrc Hg Hi. pose proof (source_agree _ _ _ _ _ Hsrc Hg) as Ha. destruct Hsrc as [Ht Ho]. apply tree_S in Ht as (es & Ep & Hl & _ & He).
  destruct (ent_get (S m) es i Hl Hi) as [e Ee]. exists es, e. rewrite (proj1 (Ha [] p eq_refl)). split_and!; auto; [now rewrite (ent_some s0 p es i Ep)|].
  intros Hp. assert (Ee' : ent s0 p i = Some e) by now rewrite (ent_some s0 p es i Ep). split_and!; [now apply (He i)|now apply (kid_agree_of m s0 s p i)|].
  intros π f Hk. apply (Ho (i :: π) f). apply owned_S. eauto.
Qed.
(** ** Each level *)

Section Clone.
Context (request : gset Z -> Z) (Hreq : forall u, request u <> 0 -> is_page (request u) /\ (request u ∉ u)).

Lemma wp_request (Q : Z -> vm -> Prop) s : (request (busy s) = 0 -> Q 0 s) ->
  (forall p, is_page p -> p <> 0 -> p ∉ busy s -> Q p (set_busy ({[p]} ∪ busy s) s)) -> wp (RequestBuddy request) Q s.
Proof using Hreq.
  intros H0 H1. unfold RequestBuddy. apply wp_bind, wp_get. destruct (Z.eqb_spec (request (busy s)) 0) as [E|E]; [apply wp_ret; auto|].
  apply wp_bind, wp_modify, wp_ret. destruct (Hreq (busy s) E). auto.
Qed.


Lemma clone_pt_ok s0 p c : source 1 s0 p c -> blank 1 s0 c -> c ∈ busy s0 -> wp (clone_pt request p c) (copied 1 s0 p c) s0.
Proof using Hreq.
  intros Hsrc Hbl Hc. unfold clone_pt.
  apply (wp_loop (λ k i s, k = Z.to_nat (512 - i) /\ 0 <= i <= 512 /\ copying 0 s0 p c i s) 512%nat); [|lia|].
  { split_and!; [reflexivity|lia|lia|now apply copying_init]. }
  intros k i s (-> & Hi & HC). unfold clone_pt_step. destruct (Z.ltb_spec i 512) as [Hlt|Hge].
  2: { apply wp_ret. apply (copying_done 0 s0 p c i s HC). intros j Hj%idx_512. lia. }
  assert (Hix : idx_ok 1 i) by (unfold idx_ok; simpl; lia). pose proof (bu_grows _ _ _ _ (cp_built _ _ _ _ _ _ HC)) as Hg.
  destruct (source_entry 0 s0 s p c i Hsrc Hg Hix) as (es & e & Ep & Ee & E0 & Hkid).
  apply wp_bind. eapply wp_entry; [exact Ep|exact Ee|]. destruct (present e) eqn:Hp; simpl.
  2: { apply wp_ret. exists (Z.to_nat (512 - (i + 1))). split; [lia|]. split_and!; try lia. now apply (copying_skip 0 s0 p c i s e). }
  destruct (Hkid eq_refl) as (Hko & Hka & Hkb). destruct (sp_tree _ _ _ (bu_space _ _ _ _ (cp_built _ _ _ _ _ _ HC))) as (ec & Ec & Hlc & _).
  destruct (ent_get 1 ec i Hlc Hix) as [e1 Ee1].
  assert (Hnext : forall s', copying 0 s0 p c (i + 1) s' -> exists n', (n' < Z.to_nat (512 - i))%nat /\ n' = Z.to_nat (512 - (i + 1)) /\ 0 <= i + 1 <= 512 /\ copying 0 s0 p c (i + 1) s').
  { intros s' H. exists (Z.to_nat (512 - (i + 1))). split_and!; auto; lia. }
  destruct (pcd e) eqn:Hpc.
  - apply wp_bind. eapply wp_set_entry; [exact Ec|exact Ee1|]. apply wp_ret, Hnext.
    eapply (copying_attach 0 s0 p c i s _ ec e e HC Ec Hc Hix); simpl; auto; try (intros; destruct_and?; congruence).
    + intros f Hf Hne. split; [simpl; now rewrite lookup_insert_ne by auto|reflexivity].
    + split_and!; reflexivity.
    + apply lookup_insert_eq.
    + unfold mirror_entry. now rewrite Hp, Hpc.
  - destruct (Hko Hpc) as (cnt & Ecnt & Hcl). rewrite <- (proj2 (Hka [] _ (conj Hpc (conj eq_refl eq_refl)))) in Ecnt.
    apply wp_bind. apply wp_request; [intros _; simpl; apply wp_ret; split; [apply (cp_built _ _ _ _ _ _ HC)|right; reflexivity]|].
    intros np Hnp Hnp0 Hnb. rewrite (proj2 (Z.eqb_neq np 0) Hnp0). unfold memcpy_page. apply wp_bind, wp_bind, wp_get, wp_bind.
    eapply wp_of_option; [exact Ecnt|]. apply wp_modify. cbv beta. apply wp_assoc, wp_bind. eapply wp_set_entry2; [exact Ec|exact Ee1|]. apply wp_ret, Hnext.
    set (e' := set_address np e). assert (Hph : entry_phys e' = np) by now apply entry_phys_set.
    eapply (copying_attach 0 s0 p c i s _ ec e e' HC Ec Hc Hix); simpl; auto; rewrite ?Hph.
    + intros f Hf. now apply elem_of_union_r.
    + intros f Hf Hne. split; simpl; [now rewrite lookup_insert_ne by auto|]. apply lookup_insert_ne. intros ->. contradiction.
    + split_and!; reflexivity.
    + apply lookup_insert_eq.
    + intros _. exists cnt. split; [apply lookup_insert_eq|exact Hcl].
    + intros π π' f (_ & -> & _) (_ & -> & _). reflexivity.
    + intros π f (_ & _ & ->). split; [apply elem_of_union_l, elem_of_singleton_2; reflexivity|exact Hnb].
    + easy.
    + intros f [->%elem_of_singleton|Hf]%elem_of_union; [right; exists []; auto|auto].
    + unfold mirror_entry. rewrite Hp, Hpc, Hph. split; [now exists np|]. simpl. rewrite lookup_insert_eq, <- Ecnt.
      apply (proj2 (Hka [] _ (conj Hpc (conj eq_refl eq_refl)))).
Qed.

Lemma clone_table_ok m bound check inner s0 p c : (m = 1 \/ m = 2 \/ m = 3)%nat -> (forall j, idx_ok (S m) j <-> 0 <= j < bound) -> 0 < bound ->
  (forall s p c, source m s p c -> blank m s c -> c ∈ busy s -> wp (inner p c) (copied m s p c) s) ->
  source (S m) s0 p c -> blank (S m) s0 c -> c ∈ busy s0 ->
  wp (loop (S (Z.to_nat bound)) (clone_table_step request bound check inner p c) 0) (copied (S m) s0 p c) s0.
Proof using Hreq.
  intros Hm Hbd Hpos Hinner Hsrc Hbl Hc. assert (Hm0 : m <> 0%nat) by lia.
  apply (wp_loop (λ k i s, k = Z.to_nat (bound - i) /\ 0 <= i <= bound /\ copying m s0 p c i s) (Z.to_nat bound)); [|lia|].
  { split_and!; [f_equal; lia|lia|lia|now apply copying_init]. }
  intros k i s (-> & Hi & HC). unfold clone_table_step. destruct (Z.ltb_spec i bound) as [Hlt|Hge].
  2: { apply wp_ret. apply (copying_done m s0 p c i s HC). intros j Hj%Hbd. lia. }
  assert (Hix : idx_ok (S m) i) by (apply Hbd; lia). pose proof (bu_grows _ _ _ _ (cp_built _ _ _ _ _ _ HC)) as Hg.
  destruct (source_entry m s0 s p c i Hsrc Hg Hix) as (es & e & Ep & Ee & E0 & Hkid).
  assert (Hnext : forall s', copying m s0 p c (i + 1) s' -> exists n', (n' < Z.to_nat (bound - i))%nat /\ n' = Z.to_nat (bound - (i + 1)) /\ 0 <= i + 1 <= bound /\ copying m s0 p c (i + 1) s').
  { intros s' H. exists (Z.to_nat (bound - (i + 1))). split_and!; auto; lia. }
  apply wp_bind. eapply wp_entry; [exact Ep|exact Ee|]. destruct (present e) eqn:Hp; simpl.
  2: { apply wp_ret, Hnext. now apply (copying_skip m s0 p c i s e). }
  destruct (Hkid eq_refl) as (Hko & Hka & Hkb).
  assert (Hko' : page_size e = false /\ tree_ok m s0 (entry_phys e)) by (destruct m; [easy|exact Hko]). destruct Hko' as [Hbig Htree]. rewrite Hbig, andb_false_r.
  pose proof (sp_tree _ _ _ (bu_space _ _ _ _ (cp_built _ _ _ _ _ _ HC))) as Htc. apply tree_S in Htc as (ec & Ec & Hlc & _ & _).
  destruct (ent_get (S m) ec i Hlc Hix) as [e1 Ee1].
  apply wp_bind. apply wp_request; [intros _; simpl; apply wp_ret; split; [apply (cp_built _ _ _ _ _ _ HC)|right; reflexivity]|].
  intros nt Hnt Hnt0 Hnb. rewrite (proj2 (Z.eqb_neq nt 0) Hnt0). apply wp_bind, wp_modify. apply wp_assoc, wp_bind.
  assert (Hcnt : c <> nt) by (intros ->; apply Hnb, (gr_busy _ _ _ Hg), Hc).
  eapply wp_set_entry2; [simpl; rewrite lookup_insert_ne by auto; exact Ec|exact Ee1|].
  set (e' := set_address nt e). assert (Hph : entry_phys e' = nt) by now apply entry_phys_set. set (s2 := set_tables _ _).
  assert (Hs2 : forall f, f ∈ busy s -> f <> c -> same_at s s2 f).
  { intros f Hf Hne. split; simpl; [|reflexivity]. rewrite lookup_insert_ne by auto. apply lookup_insert_ne. intros ->. contradiction. }
  assert (Hka2 : agree m s0 s2 (entry_phys e)).
  { intros π f Ho. assert (Hk : kid m s0 e π f) by (destruct m; [easy|exact Ho]). destruct (Hkb π f Hk) as [Hb1 Hb2].
    destruct (Hka π f Hk) as [A1 A2], (Hs2 f (gr_busy _ _ _ Hg f Hb1) Hb2) as [B1 B2]. split; congruence. }
  apply wp_bind. eapply wp_mono; [apply (Hinner s2 (entry_phys e) nt)|].
  - split; [now apply (tree_ext m s0)|]. intros π f Ho. apply (owned_ext m s0 s2 _ Hka2) in Ho. assert (Hk : kid m s0 e π f) by (destruct m; [easy|exact Ho]).
    destruct (Hkb π f Hk) as [Hb1 _]. pose proof (gr_busy _ _ _ Hg f Hb1). simpl. split; [now apply elem_of_union_r|]. intros ->. contradiction.
  - exists zero_table. simpl. rewrite lookup_insert_ne, lookup_insert_eq by auto. split; [reflexivity|]. split; [apply zero_table_length|].
    exact (zero_table_get m).
  - simpl. apply elem_of_union_l, elem_of_singleton_2. reflexivity.
  - intros r s3 [HB3 Hr]. destruct HB3 as [[G1 G2 G3] Hsp3 Hfr3 Hall3 _].
    assert (HA : built (S m) s0 c s3 /\ (ent s0 p i = Some e -> mirror_entry m s0 e s3 e' -> copying m s0 p c (i + 1) s3)).
    { assert (Hkid3 : forall π f, kid m s3 e' π f <-> owned m s3 nt π f) by (intros π f; destruct m; [easy|]; simpl; now rewrite Hph).
      eapply (copying_attach m s0 p c i s s3 ec e e' HC Ec Hc Hix); auto.
      - intros f Hf. apply G1. now apply elem_of_union_r.
      - intros f Hf Hne. destruct (Hs2 f Hf Hne) as [A1 A2]. assert (f <> nt) by (intros ->; contradiction). destruct (G2 f) as [B1 B2]; [now apply elem_of_union_r|auto|]. split; congruence.
      - rewrite (proj1 (G2 c (elem_of_union_r _ _ _ (gr_busy _ _ _ Hg c Hc)) Hcnt)). apply lookup_insert_eq.
      - destruct m; [easy|]. simpl. rewrite Hph. split; [exact Hbig|apply Hsp3].
      - intros π π' f. rewrite !Hkid3. apply Hsp3.
      - intros π f. rewrite Hkid3. intros Ho. split; [eapply Hsp3; eauto|]. destruct π as [|j π]; [destruct m; [easy|]; simpl in Ho; now subst f|].
        pose proof (Hfr3 _ _ Ho ltac:(easy)) as Hn. simpl in Hn. intros Hf. apply Hn. now apply elem_of_union_r.
      - intros f Hf. destruct (Hall3 f Hf) as [Hf'|[π Ho]]; [|right; exists π; now apply Hkid3]. simpl in Hf'. apply elem_of_union in Hf' as [->%elem_of_singleton|Hf']; [|auto].
        right. exists []. apply Hkid3. now destruct m. }
    destruct HA as [HB HN]. destruct Hr as [[-> Hmir]|Hneg]; simpl.
    + apply wp_ret, Hnext, HN; [exact E0|]. unfold mirror_entry. rewrite Hp. destruct m; [easy|]. split; [now exists nt|]. rewrite Hph.
      apply (mirror_ext (S m) s2 s0 s3 s3); [|easy|exact Hmir]. intros π f Ho. apply (owned_ext (S m) s0 s2 _ Hka2) in Ho. destruct (Hka2 π f Ho). split; congruence.
    + rewrite (proj2 (Z.eqb_neq r 0)) by lia. simpl. apply wp_ret. split; [exact HB|right; exact Hneg].
Qed.
End Clone.
