(* ===== verification/PageFree.v ===== *)
(** [free_user_address_space]: every page of the space is freed, once. *)

From S2P Require Import Prelude PageTable PageSpace.

Implicit Types (s : vm).

Lemma wp_free p (Q : unit -> vm -> Prop) s : p ∈ busy s ->
  Q tt (set_busy (busy s ∖ {[p]}) (set_tables (delete p (tables s)) (set_frames (delete p (frames s)) s))) -> wp (FreeBuddy p) Q s.
Proof. intros Hp HQ. unfold FreeBuddy. apply wp_bind, wp_get. rewrite bool_decide_true by exact Hp. apply wp_modify, HQ. Qed.

(** Pages below entries before [i]. *)
Definition below m s0 t i f : Prop := exists j π, j < i /\ owned (S m) s0 t (j :: π) f.

(** The loop over the entries of [t], at [i]. *)
Record freeing m s0 t i s : Prop := {
  fr_busy : forall f, f ∈ busy s <-> f ∈ busy s0 /\ ~ below m s0 t i f;
  fr_same : forall f, f <> t -> ~ below m s0 t i f -> same_at s0 s f;
  fr_table : exists es, tables s !! t = Some es /\ length es = 512%nat /\
    (forall j, idx_ok (S m) j -> j < i -> exists e, arr_get es j = Some e /\ present e = false) /\
    (forall j, 0 <= j < 512 -> i <= j \/ ~ idx_ok (S m) j -> arr_get es j = ent s0 t j);
  fr_rest : rest_same s0 s }.

(** What is left: the root, without user entries. *)
Record freed n s0 t s : Prop := {
  fd_busy : forall f, f ∈ busy s <-> f ∈ busy s0 /\ ~ exists π, π <> [] /\ owned n s0 t π f;
  fd_same : forall f, (forall π, ~ owned n s0 t π f) -> same_at s0 s f;
  fd_blank : exists es, tables s !! t = Some es /\ length es = 512%nat /\ forall j, idx_ok n j -> exists e, arr_get es j = Some e /\ present e = false;
  fd_kernel : forall j, 0 <= j < 512 -> ~ idx_ok n j -> ent s t j = ent s0 t j;
  fd_rest : rest_same s0 s }.

Lemma below_0 m s0 t f : ~ below m s0 t 0 f.
Proof. intros (j & π & Hj & Ho). apply owned_S in Ho as (Hi%idx_512 & _). lia. Qed.

Lemma below_next m s0 t i e f : idx_ok (S m) i -> ent s0 t i = Some e -> (below m s0 t (i + 1) f <-> below m s0 t i f \/ (present e = true /\ exists π, kid m s0 e π f)).
Proof.
  intros Hi Ee. split.
  - intros (j & π & Hj & Ho). destruct (decide (j = i)) as [->|]; [right|left; exists j, π; split; [lia|exact Ho]].
    apply owned_S in Ho as (_ & e' & Ee' & Hp & Hk). assert (e' = e) as -> by congruence. eauto.
  - intros [(j & π & Hj & Ho)|(Hp & π & Hk)]; [exists j, π; split; [lia|exact Ho]|]. exists i, π. split; [lia|]. apply owned_S. eauto.
Qed.

Lemma freeing_init m s t : space (S m) s t -> freeing m s t 0 s.
Proof.
  intros Hs. pose proof (sp_tree _ _ _ Hs) as Ht. apply tree_S in Ht as (es & Et & Hl & _ & _). split.
  - intros f. split; [intros H; split; [exact H|apply below_0]|now intros [H _]].
  - intros f _ _. split; reflexivity.
  - exists es. split_and!; auto; [intros j Hj%idx_512 Hlt; lia|]. intros j _ _. now rewrite (ent_some s t es j Et).
  - split_and!; reflexivity.
Qed.

Lemma freeing_done m s0 t i s : space (S m) s0 t -> freeing m s0 t i s -> (forall j, idx_ok (S m) j -> j < i) -> freed (S m) s0 t s.
Proof.
  intros Hsp [Hb Hs (es & Et & Hl & He & Hk) Hr] Hi.
  assert (Hbel : forall f, below m s0 t i f <-> exists π, π <> [] /\ owned (S m) s0 t π f).
  { intros f. split; [intros (j & π & _ & Ho); exists (j :: π); split; [easy|exact Ho]|].
    intros ([|j π] & Hne & Ho); [easy|]. exists j, π. split; [|exact Ho]. apply Hi. apply owned_S in Ho. apply Ho. }
  split; auto.
  - intros f. rewrite Hb, Hbel. reflexivity.
  - intros f Hno. apply Hs; [intros ->; now apply (Hno [])|]. rewrite Hbel. intros (π & _ & Ho). now apply (Hno π).
  - exists es. split_and!; auto.
  - intros j Hj Hno. rewrite (ent_some s t es j Et). apply Hk; auto.
Qed.

(** Entry [i] done. *)
Lemma freeing_step m s0 t i s s' es e : space (S m) s0 t -> freeing m s0 t i s -> idx_ok (S m) i -> ent s0 t i = Some e -> present e = true -> tables s !! t = Some es ->
  (forall f, f ∈ busy s' <-> f ∈ busy s /\ ~ exists π, kid m s0 e π f) ->
  (forall f, f <> t -> (~ exists π, kid m s0 e π f) -> same_at s s' f) ->
  tables s' !! t = Some (<[Z.to_nat i := zero_entry]> es) -> rest_same s s' -> freeing m s0 t (i + 1) s'.
Proof.
  intros Hsp [Hb Hs (es0 & Et & Hl & He & Hk) Hr] Hi Ee Hp Et0 Hb' Hs' Et' Hr'. assert (es0 = es) as -> by congruence. pose proof (idx_512 _ _ Hi) as Hi5.
  pose proof (below_next m s0 t i e) as Hbn. split.
  - intros f. rewrite Hb', Hb, (Hbn f Hi Ee). split; [intros [[H1 H2] H3]; split; [exact H1|]; intros [|[_ H]]; auto|].
    intros [H1 H2]. split_and!; auto.
  - intros f Hne Hno. rewrite (Hbn f Hi Ee) in Hno. destruct (Hs f Hne ltac:(auto)) as [A1 A2], (Hs' f Hne ltac:(auto)) as [B1 B2]. split; congruence.
  - exists (<[Z.to_nat i := zero_entry]> es). rewrite length_insert. split_and!; auto.
    + intros j Hj Hlt. rewrite arr_get_insert by lia. destruct (decide (i = j)) as [<-|]; [exists zero_entry; auto|]. apply He; [exact Hj|lia].
    + intros j Hj Hor. rewrite arr_get_insert by lia. rewrite decide_False; [apply Hk; [exact Hj|]; destruct Hor; [left; lia|auto]|]. intros <-. destruct Hor; [lia|contradiction].
  - unfold rest_same in *. destruct Hr as (? & ? & ?), Hr' as (? & ? & ?). split_and!; congruence.
Qed.

(** What is below entry [i] is still as it was. *)
Lemma freeing_kid m s0 t i s e : space (S m) s0 t -> freeing m s0 t i s -> idx_ok (S m) i -> ent s0 t i = Some e -> present e = true ->
  forall π f, kid m s0 e π f -> f ∈ busy s /\ f <> t /\ same_at s0 s f.
Proof.
  intros Hsp [Hb Hs _ _] Hi Ee Hp π f Hk. destruct (space_kid m s0 t i e Hsp Hi Ee Hp) as (_ & _ & Hl). destruct (Hl π f Hk) as [H1 H2].
  assert (Hno : ~ below m s0 t i f).
  { intros (j & π' & Hj & Ho). assert (E : i :: π = j :: π') by (apply (sp_inj _ _ _ Hsp _ _ f); [apply owned_S; eauto|exact Ho]). injection E as <- _. lia. }
  split_and!; auto. apply Hb. auto.
Qed.

Lemma freeing_skip m s0 t i s e : freeing m s0 t i s -> idx_ok (S m) i -> ent s0 t i = Some e -> present e = false -> freeing m s0 t (i + 1) s.
Proof.
  intros [Hb Hs (es & Et & Hl & He & Hk) Hr] Hi Ee Hp. pose proof (λ f, below_next m s0 t i e f Hi Ee) as Hbn.
  assert (Hbn' : forall f, below m s0 t (i + 1) f <-> below m s0 t i f) by (intros f; rewrite Hbn, Hp; intuition discriminate). split; auto.
  - intros f. now rewrite Hb, Hbn'.
  - intros f Hne. rewrite Hbn'. auto.
  - exists es. split_and!; auto.
    + intros j Hj Hlt. destruct (decide (j = i)) as [->|]; [|apply He; [exact Hj|lia]]. exists e. rewrite Hk; auto; [apply (idx_512 _ _ Hj)|lia].
    + intros j Hj Hor. apply Hk; [exact Hj|]. destruct Hor; [left; lia|auto].
Qed.

Lemma free_pt_ok s0 t : space 1 s0 t -> wp (free_pt t) (λ _ s', freed 1 s0 t s') s0.
Proof.
  intros Hsp. unfold free_pt. apply (wp_loop (λ k i s, k = Z.to_nat (512 - i) /\ 0 <= i <= 512 /\ freeing 0 s0 t i s) 512%nat); [|lia|].
  { split_and!; [reflexivity|lia|lia|now apply freeing_init]. }
  intros k i s (-> & Hi & HF). unfold free_pt_step. destruct (Z.ltb_spec i 512) as [Hlt|Hge].
  2: { apply wp_ret. apply (freeing_done 0 s0 t i s Hsp HF). intros j Hj%idx_512. lia. }
  assert (Hix : idx_ok 1 i) by (unfold idx_ok; simpl; lia).
  assert (Hnext : forall s', freeing 0 s0 t (i + 1) s' -> exists n', (n' < Z.to_nat (512 - i))%nat /\ n' = Z.to_nat (512 - (i + 1)) /\ 0 <= i + 1 <= 512 /\ freeing 0 s0 t (i + 1) s').
  { intros s' H. exists (Z.to_nat (512 - (i + 1))). split_and!; auto; lia. }
  pose proof HF as [_ _ (es & Et & Hl & _ & Hk) _]. destruct (ent_get 1 es i Hl Hix) as [e Ee].
  assert (E0 : ent s0 t i = Some e) by (rewrite <- Hk; [exact Ee|lia|left; lia]).
  apply wp_bind. eapply wp_entry; [exact Et|exact Ee|]. destruct (present e) eqn:Hp; simpl.
  2: { apply wp_ret, Hnext. now apply (freeing_skip 0 s0 t i s e). }
  destruct (pcd e) eqn:Hpc.
  - apply wp_bind, wp_ret, wp_bind. eapply wp_set_entry; [exact Et|exact Ee|]. apply wp_ret, Hnext.
    apply (freeing_step 0 s0 t i s _ es e Hsp HF Hix E0 Hp Et); simpl.
    + intros f. split; [intros H; split; [exact H|]; intros (π & Hf & _); congruence|now intros [H _]].
    + intros f Hne _. split; [simpl; now rewrite lookup_insert_ne by auto|reflexivity].
    + apply lookup_insert_eq.
    + split_and!; reflexivity.
  - destruct (freeing_kid 0 s0 t i s e Hsp HF Hix E0 Hp [] (entry_phys e) (conj Hpc (conj eq_refl eq_refl))) as (Hb & Hne & _).
    apply wp_bind. apply wp_free; [exact Hb|]. apply wp_bind. eapply wp_set_entry; [simpl; rewrite lookup_delete_ne by auto; exact Et|exact Ee|].
    apply wp_ret, Hnext. apply (freeing_step 0 s0 t i s _ es e Hsp HF Hix E0 Hp Et); simpl.
    + intros f. rewrite elem_of_difference, elem_of_singleton. split; intros [H1 H2]; split; auto; [intros (π & _ & _ & Hf); auto|intros ->; apply H2; now exists []].
    + intros f Hft Hno. assert (f <> entry_phys e) by (intros ->; apply Hno; now exists []). split; simpl; rewrite ?lookup_insert_ne, ?lookup_delete_ne by auto; reflexivity.
    + apply lookup_insert_eq.
    + split_and!; reflexivity.
Qed.

Lemma free_table_ok m bound check inner s0 t : m <> 0%nat -> (forall j, idx_ok (S m) j <-> 0 <= j < bound) -> 0 < bound ->
  (forall s t, space m s t -> wp (inner t) (λ _ s', freed m s t s') s) ->
  space (S m) s0 t -> wp (loop (S (Z.to_nat bound)) (free_table_step bound check inner t) 0) (λ _ s', freed (S m) s0 t s') s0.
Proof.
  intros Hm Hbd Hpos Hinner Hsp.
  apply (wp_loop (λ k i s, k = Z.to_nat (bound - i) /\ 0 <= i <= bound /\ freeing m s0 t i s) (Z.to_nat bound)); [|lia|].
  { split_and!; [f_equal; lia|lia|lia|now apply freeing_init]. }
  intros k i s (-> & Hi & HF). unfold free_table_step. destruct (Z.ltb_spec i bound) as [Hlt|Hge].
  2: { apply wp_ret. apply (freeing_done m s0 t i s Hsp HF). intros j Hj%Hbd. lia. }
  assert (Hix : idx_ok (S m) i) by (apply Hbd; lia). pose proof (idx_512 _ _ Hix) as Hi5.
  assert (Hnext : forall s', freeing m s0 t (i + 1) s' -> exists n', (n' < Z.to_nat (bound - i))%nat /\ n' = Z.to_nat (bound - (i + 1)) /\ 0 <= i + 1 <= bound /\ freeing m s0 t (i + 1) s').
  { intros s' H. exists (Z.to_nat (bound - (i + 1))). split_and!; auto; lia. }
  pose proof HF as [_ _ (es & Et & Hl & _ & Hk) _]. destruct (ent_get (S m) es i Hl Hix) as [e Ee].
  assert (E0 : ent s0 t i = Some e) by (rewrite <- Hk; [exact Ee|lia|left; lia]).
  apply wp_bind. eapply wp_entry; [exact Et|exact Ee|]. destruct (present e) eqn:Hp; simpl.
  2: { apply wp_ret, Hnext. now apply (freeing_skip m s0 t i s e). }
  destruct (space_kid m s0 t i e Hsp Hix E0 Hp) as (Hko & Hkinj & Hkl). pose proof (freeing_kid m s0 t i s e Hsp HF Hix E0 Hp) as Hkid.
  assert (Hko' : page_size e = false /\ tree_ok m s0 (entry_phys e)) by (destruct m; [easy|exact Hko]). destruct Hko' as [Hbig Htree]. rewrite Hbig, andb_false_r.
  assert (Hkd : forall π f, kid m s0 e π f <-> owned m s0 (entry_phys e) π f) by (intros; destruct m; [easy|reflexivity]).
  assert (Hroot : kid m s0 e [] (entry_phys e)) by (apply Hkd; now destruct m).
  assert (Hag : agree m s0 s (entry_phys e)) by (intros π f Ho; apply (Hkid π), Hkd, Ho).
  assert (Hspk : space m s (entry_phys e)).
  { apply (space_ext m s0); [exact Hag|intros π f Ho; apply (Hkid π), Hkd, Ho|]. split; [exact Htree| |].
    - intros π π' f. rewrite <- !Hkd. apply Hkinj.
    - intros π f Ho. apply (Hkl π), Hkd, Ho. }
  apply wp_bind, wp_bind. eapply wp_mono; [apply (Hinner s _ Hspk)|]. intros _ s1 [F1 F2 F3 _ F5].
  assert (Hown : forall π f, owned m s (entry_phys e) π f <-> kid m s0 e π f) by (intros π f; rewrite Hkd; apply (owned_ext m s0 s _ Hag)).
  assert (Htt : same_at s s1 t) by (apply F2; intros π Ho; apply Hown in Ho; now elim (proj1 (proj2 (Hkid _ _ Ho)))).
  apply wp_free.
  { apply F1. split; [apply (Hkid _ _ Hroot)|]. intros (π & Hne & Ho). apply Hown in Ho. now apply Hne, (Hkinj π [] (entry_phys e)). }
  apply wp_bind. eapply wp_set_entry; [simpl; rewrite lookup_delete_ne, (proj1 Htt) by (apply (Hkid _ _ Hroot)); exact Et|exact Ee|].
  apply wp_ret, Hnext. apply (freeing_step m s0 t i s _ es e Hsp HF Hix E0 Hp Et); simpl.
  - intros f. rewrite elem_of_difference, elem_of_singleton, F1. split.
    + intros [[H1 H2] H3]. split; [exact H1|]. intros ([|j π] & Hf); [apply H3; rewrite Hkd in Hf; now destruct m|]. apply H2. exists (j :: π). split; [easy|]. now apply Hown.
    + intros [H1 H2]. split; [split; [exact H1|]; intros (π & _ & Ho); apply H2; exists π; now apply Hown|]. intros ->. apply H2. now exists [].
  - intros f Hft Hno. assert (f <> entry_phys e) by (intros ->; apply Hno; now exists []).
    destruct (F2 f) as [A1 A2]; [intros π Ho; apply Hno; exists π; now apply Hown|].
    split; simpl; rewrite ?lookup_insert_ne, ?lookup_delete_ne by auto; auto.
  - apply lookup_insert_eq.
  - exact F5.
Qed.

Lemma idx_512_iff m j : m <> 3%nat -> (idx_ok (S m) j <-> 0 <= j < 512).
Proof. intros Hm. unfold idx_ok. destruct (Nat.eqb_spec (S m) 4); [lia|reflexivity]. Qed.

Lemma free_user_ok s p4 : space 4 s p4 -> wp (free_user_address_space p4) (λ _ s', freed 4 s p4 s') s.
Proof.
  apply (free_table_ok 3 256 false free_pdpt s p4); [easy|reflexivity|lia|]. clear s p4. intros s t.
  apply (free_table_ok 2 512 true free_pd s t); [easy|now intros; apply idx_512_iff|lia|]. clear s t. intros s t.
  apply (free_table_ok 1 512 true free_pt s t); [easy|now intros; apply idx_512_iff|lia|]. apply free_pt_ok.
Qed.

(** [clone_user_pml4] as a whole, and what a copied address space means for
    the memory its owner sees. *)


Section Fork.
Context (request : gset Z -> Z) (Hreq : forall u, request u <> 0 -> is_page (request u) /\ (request u ∉ u)).
Context (pml4 : Z).

(** The kernel's root table. *)
Definition kernel_root s : Prop := pml4 ∈ busy s /\ exists kes, tables s !! pml4 = Some kes /\ length kes = 512%nat.

Definition fresh_root s c s' : Prop := is_page c /\ (c ∉ busy s) /\ busy s' = {[c]} ∪ busy s /\ (forall f, f <> c -> same_at s s' f) /\ rest_same s s' /\ blank 4 s' c /\
  forall j, 256 <= j < 512 -> ent s' c j = ent s pml4 j.

Lemma clone_kernel_ok s : kernel_root s -> wp (clone_kernel_pml4 request pml4) (λ c s', (c = 0 /\ s' = s) \/ (c <> 0 /\ fresh_root s c s')) s.
Proof using Hreq.
  intros (Hkb & kes & Ek & Hkl). unfold clone_kernel_pml4. apply wp_bind. apply (wp_request request Hreq); [intros _; apply wp_ret; auto|].
  intros c Hc Hc0 Hcb. rewrite (proj2 (Z.eqb_neq c 0) Hc0). apply wp_bind, wp_modify. set (s1 := set_tables _ _). assert (Hkc : pml4 <> c) by (intros <-; contradiction).
  apply wp_bind. apply (wp_mono _ (λ _ s', exists es, s' = set_tables (<[c := es]> (tables s1)) s1 /\ length es = 512%nat /\
    (forall j, 0 <= j < 256 -> arr_get es j = Some zero_entry) /\ forall j, 256 <= j < 512 -> arr_get es j = arr_get kes j)).
  - apply (wp_loop (λ k i s', k = Z.to_nat (512 - i) /\ 256 <= i <= 512 /\ exists es, s' = set_tables (<[c := es]> (tables s1)) s1 /\ length es = 512%nat /\
      (forall j, 0 <= j < 256 -> arr_get es j = Some zero_entry) /\ forall j, 256 <= j < i -> arr_get es j = arr_get kes j) 256%nat); [|lia|].
    + split_and!; [reflexivity|lia|lia|]. exists zero_table. split; [unfold s1; simpl; now rewrite insert_insert_eq|]. split; [apply zero_table_length|].
      split; [intros j Hj; apply (zero_table_get 4 j); unfold idx_ok; simpl; lia|intros j Hj; lia].
    + intros k i s' (-> & Hi & es & -> & Hl & Hz & Hcp). unfold copy_kernel_step. destruct (Z.ltb_spec i 512) as [Hlt|Hge].
      2: { apply wp_ret. exists es. assert (i = 512) as -> by lia. auto. }
      destruct (ent_get 1 kes i Hkl) as [e Ee]; [unfold idx_ok; simpl; lia|]. destruct (ent_get 1 es i Hl) as [e1 Ee1]; [unfold idx_ok; simpl; lia|].
      apply wp_bind. eapply (wp_entry pml4 i kes e); [simpl; rewrite !lookup_insert_ne by auto; exact Ek|exact Ee|].
      apply wp_bind. eapply wp_set_entry; [apply lookup_insert_eq|exact Ee1|]. apply wp_ret. exists (Z.to_nat (512 - (i + 1))). split; [lia|]. split_and!; [reflexivity|lia|lia|].
      exists (<[Z.to_nat i := e]> es). split; [simpl; now rewrite insert_insert_eq|]. rewrite length_insert. split; [exact Hl|].
      split; intros j Hj; rewrite arr_get_insert by lia; destruct (decide (i = j)) as [<-|]; [lia|auto|auto|apply Hcp; lia].
  - intros _ s' (es & -> & Hl & Hz & Hcp). apply wp_ret. right. split; [exact Hc0|]. split_and!; auto.
    + intros f Hf. split; [simpl; now rewrite !lookup_insert_ne by auto|reflexivity].
    + split_and!; reflexivity.
    + exists es. simpl. rewrite lookup_insert_eq. split; [reflexivity|]. split; [exact Hl|]. exact Hz.
    + intros j Hj. rewrite (ent_some s pml4 kes j Ek), <- Hcp by exact Hj. apply ent_some. simpl. apply lookup_insert_eq.
Qed.

Lemma clone_pml4_ok s p c : source 4 s p c -> blank 4 s c -> c ∈ busy s -> wp (clone_pml4 request p c) (copied 4 s p c) s.
Proof using Hreq.
  apply (clone_table_ok request Hreq 3 256 false (clone_pdpt request) s p c); [lia|reflexivity|lia|]. clear s p c. intros s p c.
  apply (clone_table_ok request Hreq 2 512 true (clone_pd request) s p c); [lia|now intros; apply idx_512_iff|lia|]. clear s p c. intros s p c.
  apply (clone_table_ok request Hreq 1 512 true (clone_pt request) s p c); [lia|now intros; apply idx_512_iff|lia|]. clear s p c. intros s p c.
  apply (clone_pt_ok request Hreq).
Qed.

(** The outcome: a copy made of new pages, or an error and nothing changed. *)
Definition cloned s p (r : Z + Z) s' : Prop :=
  match r with
  | inr c => space 4 s' c /\ mirror 4 s p s' c /\ (forall j, 256 <= j < 512 -> ent s' c j = ent s pml4 j) /\
      (forall π f, owned 4 s' c π f -> f ∉ busy s) /\ (forall f, f ∈ busy s' <-> f ∈ busy s \/ exists π, owned 4 s' c π f)
  | inl r => r < 0 /\ forall f, f ∈ busy s' <-> f ∈ busy s
  end /\ (forall f, f ∈ busy s -> same_at s s' f) /\ rest_same s s'.

Lemma clone_user_ok s p : kernel_root s -> space 4 s p -> wp (clone_user_pml4 request pml4 p) (cloned s p) s.
Proof using Hreq.
  intros Hk Hsp. unfold clone_user_pml4. apply wp_bind. eapply wp_mono; [apply (clone_kernel_ok s Hk)|].
  intros c s1 [[-> ->]|(Hc0 & Hc & Hcb & Hb1 & Hs1 & Hr1 & Hbl & Hker)].
  { simpl. apply wp_ret. split; [split; [reflexivity|auto]|]. split; [intros f _; split; reflexivity|split_and!; reflexivity]. }
  rewrite (proj2 (Z.eqb_neq c 0) Hc0). assert (Hne : forall f, f ∈ busy s -> f <> c) by (intros f Hf ->; contradiction).
  assert (Hag : agree 4 s s1 p) by (intros π f Ho; apply Hs1, Hne, (sp_live _ _ _ Hsp π f Ho)).
  assert (Hsrc : source 4 s1 p c).
  { split; [apply (tree_ext 4 s); [exact Hag|apply Hsp]|]. intros π f Ho. apply (owned_ext 4 s s1 p Hag), (sp_live _ _ _ Hsp) in Ho. rewrite Hb1. split; [now apply elem_of_union_r|auto]. }
  apply wp_bind. eapply wp_mono; [apply (clone_pml4_ok s1 p c Hsrc Hbl)|].
  { rewrite Hb1. now apply elem_of_union_l, elem_of_singleton_2. }
  intros r s2 [[[G1 G2 G3] Hsp2 Hfr Hall Hkh] Hr]. rewrite Hb1 in G1, Hfr, Hall.
  assert (Hsame : forall f, f ∈ busy s -> same_at s s2 f).
  { intros f Hf. destruct (Hs1 f (Hne f Hf)) as [A1 A2], (G2 f) as [B1 B2]; [rewrite Hb1; now apply elem_of_union_r|auto|]. split; congruence. }
  assert (Hrest : rest_same s s2) by (unfold rest_same in *; destruct Hr1 as (? & ? & ?), G3 as (? & ? & ?); split_and!; congruence).
  assert (Hown : forall π f, owned 4 s2 c π f -> f ∉ busy s).
  { intros [|j π] f Ho; [simpl in Ho; now subst f|]. intros Hf. apply (Hfr (j :: π) f Ho ltac:(easy)). now apply elem_of_union_r. }
  assert (Hbusy : forall f, f ∈ busy s2 <-> f ∈ busy s \/ exists π, owned 4 s2 c π f).
  { intros f. split; [intros Hf; destruct (Hall f Hf) as [[->%elem_of_singleton|]%elem_of_union|]; [right; exists []; reflexivity|auto|auto]|].
    intros [Hf|[π Ho]]; [apply G1; now apply elem_of_union_r|now apply (sp_live _ _ _ Hsp2 π)]. }
  destruct Hr as [[-> Hmir]|Hneg].
  - apply wp_ret. split; [|split; [exact Hsame|exact Hrest]]. split_and!; auto.
    + apply (mirror_ext 4 s1 s s2 s2); [|easy|exact Hmir]. intros π f Ho. apply (owned_ext 4 s s1 p Hag) in Ho. destruct (Hag π f Ho). split; congruence.
    + intros j Hj. rewrite <- Hker by exact Hj. apply Hkh; [lia|]. unfold idx_ok. simpl. lia.
  - rewrite (proj2 (Z.eqb_neq r 0)) by lia. apply wp_bind. eapply wp_mono; [apply (free_user_ok s2 c Hsp2)|]. intros _ s3 [F1 F2 F3 _ F5].
    assert (Hc3 : c ∈ busy s3).
    { apply F1. split; [now apply (sp_live _ _ _ Hsp2 [])|]. intros (π & Hne' & Ho). now apply Hne', (sp_inj _ _ _ Hsp2 π [] c). }
    apply wp_bind. apply wp_free; [exact Hc3|]. apply wp_ret. split; [split; [exact Hneg|]|split].
    + intros f. simpl. rewrite elem_of_difference, elem_of_singleton, F1, Hbusy. split.
      * intros [[[Hf|[[|j π] Ho]] H2] H3]; [exact Hf|now elim H3|elim H2; exists (j :: π); easy].
      * intros Hf. split; [split; [auto|]|auto]. intros (π & _ & Ho). now apply (Hown π f).
    + intros f Hf. destruct (Hsame f Hf) as [A1 A2], (F2 f) as [B1 B2]; [intros π Ho; now apply (Hown π f)|].
      assert (c <> f) by (intros ->; contradiction). split; simpl; rewrite lookup_delete_ne by auto; congruence.
    + unfold rest_same in *. simpl. destruct Hrest as (? & ? & ?), F5 as (? & ? & ?). split_and!; congruence.
Qed.
End Fork.
