(* ===== verification/PageMap.v ===== *)
(** Mapping, unmapping and looking up a page of an address space. *)

From S2P Require Import Prelude PageTable PageSpace PageFree.

Implicit Types (s : vm).

(** * Paths *)

Fixpoint path_ok (n : nat) (π : list Z) : Prop :=
  match n, π with O, [] => True | S m, i :: π => idx_ok n i /\ path_ok m π | _, _ => False end.

(** The last entry of a full path, if everything on it is present. *)
Fixpoint leaf (s : vm) (t : Z) (π : list Z) : option page_entry_t :=
  match π with
  | [] => None
  | i :: ρ => e ← ent s t i; if present e then match ρ with [] => Some e | _ => leaf s (entry_phys e) ρ end else None
  end.

Definition va_path (va : Z) : list Z := [PML4_IDX va; PDPT_IDX va; PD_IDX va; PT_IDX va].
Definition user_va (va : Z) : Prop := 0 <= va < 2 ^ 47.

Lemma idx_range va k : 0 <= Z.land (Z.shiftr va k) 511 < 512.
Proof. change 511 with (Z.ones 9). rewrite Z.land_ones by lia. apply Z.mod_pos_bound. lia. Qed.

Lemma va_path_ok va : user_va va -> path_ok 4 (va_path va).
Proof.
  intros Hva. pose proof (idx_range va 30). pose proof (idx_range va 21). pose proof (idx_range va 12).
  assert (0 <= PML4_IDX va < 256).
  { unfold PML4_IDX, user_va in *. change 511 with (Z.ones 9). rewrite Z.land_ones, Z.shiftr_div_pow2 by lia.
    assert (0 <= va / 2 ^ 39 < 256) by (split; [apply Z.div_pos; lia|apply Z.div_lt_upper_bound; lia]). rewrite Z.mod_small; lia. }
  simpl. unfold idx_ok. simpl. unfold PDPT_IDX, PD_IDX, PT_IDX. tauto.
Qed.

(** Addresses with the same path are in the same page. *)
Lemma va_path_page va va' : user_va va -> user_va va' -> va_path va = va_path va' -> va / 4096 = va' / 4096.
Proof.
  unfold user_va, va_path, PML4_IDX, PDPT_IDX, PD_IDX, PT_IDX. intros H H' E. change 511 with (Z.ones 9) in E. rewrite !Z.land_ones, !Z.shiftr_div_pow2 in E by lia.
  injection E as E4 E3 E2 E1.
  assert (Hd : forall v, 0 <= v < 2 ^ 47 -> v / 2 ^ 12 = (((v / 2 ^ 39) mod 2 ^ 9 * 2 ^ 9 + (v / 2 ^ 30) mod 2 ^ 9) * 2 ^ 9 + (v / 2 ^ 21) mod 2 ^ 9) * 2 ^ 9 + (v / 2 ^ 12) mod 2 ^ 9).
  { intros v Hv. rewrite (Z.mod_small (v / 2 ^ 39)) by (split; [apply Z.div_pos; lia|apply Z.div_lt_upper_bound; lia]).
    replace (v / 2 ^ 39) with (v / 2 ^ 30 / 2 ^ 9) by (rewrite Z.div_div by lia; reflexivity). rewrite (Z.mul_comm (v / 2 ^ 30 / 2 ^ 9)), <- Z.div_mod by lia.
    replace (v / 2 ^ 30) with (v / 2 ^ 21 / 2 ^ 9) by (rewrite Z.div_div by lia; reflexivity). rewrite (Z.mul_comm (v / 2 ^ 21 / 2 ^ 9)), <- Z.div_mod by lia.
    replace (v / 2 ^ 21) with (v / 2 ^ 12 / 2 ^ 9) by (rewrite Z.div_div by lia; reflexivity). rewrite (Z.mul_comm (v / 2 ^ 12 / 2 ^ 9)), <- Z.div_mod by lia. reflexivity. }
  change 4096 with (2 ^ 12). rewrite (Hd va H), (Hd va' H'), E4, E3, E2, E1. reflexivity.
Qed.

Lemma leaf_ext n s s' t π : agree n s s' t -> path_ok n π -> leaf s' t π = leaf s t π.
Proof.
  revert t π. induction n as [|m IH]; intros t [|i ρ] Ha; try easy. intros [Hi Hρ]. simpl.
  assert (Et : ent s' t i = ent s t i) by (unfold ent; now rewrite (proj1 (Ha [] t eq_refl))). rewrite Et. destruct (ent s t i) as [e|] eqn:Ee; [|reflexivity].
  simpl. destruct (present e) eqn:Hp; [|reflexivity]. destruct ρ as [|j ρ]; [reflexivity|]. destruct m as [|m]; [easy|].
  apply IH; [|exact Hρ]. exact (kid_agree_of (S m) s s' t i e Ha Hi Ee Hp).
Qed.

(** * Changing a space *)

(** From [s] to [s'] only [t]'s tree and new pages changed; what it owns is
    what it owned, new pages, and pages of [X]. *)
Record change (X : gset Z) n s t s' : Prop := {
  ch_space : space n s' t;
  ch_busy : busy s ⊆ busy s';
  ch_same : forall f, f ∈ busy s -> (forall π, ~ owned n s t π f) -> same_at s s' f;
  ch_frames : frames s' = frames s;
  ch_own : forall π f, owned n s' t π f -> (exists π', owned n s t π' f) \/ (f ∉ busy s) \/ f ∈ X;
  ch_kernel : forall j, 0 <= j < 512 -> ~ idx_ok n j -> ent s' t j = ent s t j }.

(** It only grew, and every new page is in it. *)
Record mono n s t s' : Prop := {
  mo_own : forall π f, owned n s t π f -> owned n s' t π f;
  mo_new : forall f, f ∈ busy s' -> f ∈ busy s \/ exists π, owned n s' t π f }.

Section Entry.
Context (X : gset Z) (m : nat) (s s' : vm) (t i : Z) (es : list page_entry_t) (e' : page_entry_t).
Context (Hsp : space (S m) s t) (Et : tables s !! t = Some es) (Hi : idx_ok (S m) i) (Et' : tables s' !! t = Some (<[Z.to_nat i := e']> es)).
Context (Hps : m <> 0%nat -> page_size e' = false) (Hb : busy s ⊆ busy s') (Hfr : frames s' = frames s).
Context (Hsame : forall f, f ∈ busy s -> f <> t -> (forall π, ~ owned (S m) s t (i :: π) f) -> same_at s s' f).
Context (Hkid : present e' = true -> kid_ok m s' e' /\ (forall π π' f, kid m s' e' π f -> kid m s' e' π' f -> π = π') /\
  forall π f, kid m s' e' π f -> f ∈ busy s' /\ ((exists π', owned (S m) s t (i :: π') f) \/ (f ∉ busy s) \/ f ∈ X)).
Context (HX : forall f, f ∈ X -> forall π, ~ owned (S m) s t π f).

Lemma entry_len : length es = 512%nat.
Proof using Hsp Et. pose proof (sp_tree _ _ _ Hsp) as Ht. apply tree_S in Ht as (es0 & E & Hl & _). congruence. Qed.

Lemma entry_get j : 0 <= j < 512 -> arr_get (<[Z.to_nat i := e']> es) j = if decide (i = j) then Some e' else arr_get es j.
Proof using Hsp Et Hi. intros _. pose proof (idx_512 _ _ Hi) as H5. apply arr_get_insert. rewrite entry_len. clear - H5. lia. Qed.

Lemma entry_other j e : idx_ok (S m) j -> j <> i -> arr_get es j = Some e -> present e = true -> kid_agree m s s' e.
Proof using Hsp Et Hi Hsame.
  intros Hj Hne Ej Hp π f Hk. assert (Ho : owned (S m) s t (j :: π) f) by (apply owned_S; rewrite (ent_some s t es j Et); eauto).
  apply Hsame; [now apply (sp_live _ _ _ Hsp (j :: π))| |].
  - intros ->. discriminate (sp_inj _ _ _ Hsp (j :: π) [] t Ho eq_refl).
  - intros π' Ho'. pose proof (sp_inj _ _ _ Hsp _ _ f Ho Ho') as E. now injection E.
Qed.

Lemma entry_kid_back j e π f : idx_ok (S m) j -> j <> i -> arr_get es j = Some e -> present e = true -> kid m s' e π f -> owned (S m) s t (j :: π) f.
Proof using Hsp Et Hi Hsame.
  intros Hj Hne Ej Hp Hk. apply (kid_ext m s s' e (entry_other j e Hj Hne Ej Hp)) in Hk. apply owned_S. rewrite (ent_some s t es j Et). eauto.
Qed.

Lemma change_entry_space : space (S m) s' t.
Proof using All.
  assert (Htb : t ∈ busy s) by now apply (sp_live _ _ _ Hsp []).
  assert (Hnot : forall π f, kid m s' e' π f -> present e' = true -> f <> t /\ forall j π', j <> i -> ~ owned (S m) s t (j :: π') f).
  { intros π f Hk Hp. destruct (Hkid Hp) as (_ & _ & Hl). destruct (Hl π f Hk) as [_ [(π' & Ho)|[Hf|Hf]]]; split.
    - intros ->. discriminate (sp_inj _ _ _ Hsp (i :: π') [] t Ho eq_refl).
    - intros j π'' Hne Ho''. pose proof (sp_inj _ _ _ Hsp _ _ f Ho Ho'') as E. injection E as E1 _. congruence.
    - intros ->. contradiction.
    - intros j π'' _ Ho''. apply Hf, (sp_live _ _ _ Hsp _ _ Ho'').
    - intros ->. now apply (HX t Hf []).
    - intros j π'' _. now apply HX. }
  apply (space_build m s' t (<[Z.to_nat i := e']> es)); auto.
  - rewrite length_insert. apply entry_len.
  - intros Hm j e Hj Ej. rewrite entry_get in Ej by exact (idx_512 _ _ Hj). destruct (decide (i = j)) as [<-|]; [injection Ej as <-; auto|].
    pose proof (sp_tree _ _ _ Hsp) as Ht. apply tree_S in Ht as (es0 & E & _ & Hz & _). assert (es0 = es) as -> by congruence. eapply Hz; eauto.
  - intros j e Hj Ej Hp. rewrite entry_get in Ej by exact (idx_512 _ _ Hj). destruct (decide (i = j)) as [<-|Hne].
    + injection Ej as <-. destruct (Hkid Hp) as (K1 & K2 & K3). split_and!; auto. intros π f Hk. split; [apply (K3 π f Hk)|apply (Hnot π f Hk Hp)].
    + pose proof Ej as Ej2. rewrite <- (ent_some s t es j Et) in Ej2. destruct (space_kid m s t j e Hsp Hj Ej2 Hp) as (K1 & K2 & K3).
      assert (Hne' : j <> i) by auto. pose proof (entry_other j e Hj Hne' Ej Hp) as Ka. split_and!.
      * exact (kid_ok_ext m s s' e Ka K1).
      * intros π π' f H1 H2. apply (K2 π π' f); now apply (kid_ext m s s' e Ka).
      * intros π f Hk. apply (kid_ext m s s' e Ka) in Hk. destruct (K3 π f Hk). split; auto.
  - intros j k ej ek π π' f Hj Hk Ej Ek Hpj Hpk Hkj Hkk. rewrite entry_get in Ej, Ek by eauto using idx_512.
    destruct (decide (i = j)) as [<-|Hnj], (decide (i = k)) as [<-|Hnk]; auto.
    + injection Ej as <-. exfalso. apply (proj2 (Hnot π f Hkj Hpj) k π'); [auto|]. eapply entry_kid_back; eauto.
    + injection Ek as <-. exfalso. apply (proj2 (Hnot π' f Hkk Hpk) j π); [auto|]. eapply entry_kid_back; eauto.
    + assert (E : j :: π = k :: π') by (apply (sp_inj _ _ _ Hsp _ _ f); eapply entry_kid_back; eauto). now injection E.
Qed.

Lemma change_entry : change X (S m) s t s'.
Proof using All.
  split; auto using change_entry_space.
  - intros f Hf Hno. apply Hsame; auto. intros ->. now apply (Hno []).
  - intros [|j π] f Ho; [left; exists []; exact Ho|]. rewrite owned_S, (ent_some s' t _ j Et') in Ho. destruct Ho as (Hj & e & Ej & Hp & Hk).
    rewrite entry_get in Ej by exact (idx_512 _ _ Hj). destruct (decide (i = j)) as [<-|Hne].
    + injection Ej as <-. destruct (Hkid Hp) as (_ & _ & K3). destruct (K3 π f Hk) as [_ [(π' & Ho)|[|]]]; eauto.
    + left. exists (j :: π). eapply entry_kid_back; eauto.
  - intros j Hj Hno. rewrite (ent_some s' t _ j Et'), (ent_some s t es j Et), entry_get by exact Hj. rewrite decide_False; [reflexivity|]. intros <-. contradiction.
Qed.

Lemma mono_entry : (forall π f, owned (S m) s t (i :: π) f -> present e' = true /\ kid m s' e' π f) ->
  (forall f, f ∈ busy s' -> f ∈ busy s \/ (present e' = true /\ exists π, kid m s' e' π f)) -> mono (S m) s t s'.
Proof using Hsp Et Hi Et' Hsame.
  intros Hkeep Hnew. assert (Hin : forall π f, present e' = true -> kid m s' e' π f -> owned (S m) s' t (i :: π) f).
  { intros π f Hp Hk. apply owned_S. split; [exact Hi|]. exists e'.
    rewrite (ent_some s' t _ i Et'), entry_get, decide_True by (auto; exact (idx_512 _ _ Hi)). auto. }
  split; [|intros f Hf; destruct (Hnew f Hf) as [|[Hp (π & Hk)]]; eauto].
  intros [|j π] f Ho; [exact Ho|]. destruct (decide (i = j)) as [<-|Hne]; [destruct (Hkeep π f Ho); auto|].
  apply owned_S in Ho as (Hj & e & Ej & Hp & Hk). apply owned_S. rewrite (ent_some s t es j Et) in Ej. split; [exact Hj|]. exists e.
  rewrite (ent_some s' t _ j Et'), entry_get, decide_False by (auto; exact (idx_512 _ _ Hj)). split_and!; auto. apply (kid_ext m s s'); [|exact Hk].
  apply (entry_other j e); auto.
Qed.

Lemma leaf_entry_other j ρ : path_ok (S m) (j :: ρ) -> j <> i -> leaf s' t (j :: ρ) = leaf s t (j :: ρ).
Proof using Hsp Et Hi Et' Hsame.
  intros [Hj Hρ] Hne. simpl. rewrite (ent_some s' t _ j Et'), (ent_some s t es j Et), entry_get, decide_False by (auto; exact (idx_512 _ _ Hj)).
  destruct (arr_get es j) as [e|] eqn:Ej; [|reflexivity]. simpl. destruct (present e) eqn:Hp; [|reflexivity]. destruct ρ as [|k ρ]; [reflexivity|].
  pose proof (entry_other j e Hj Hne Ej Hp) as Ka. clear - Ka Hρ. destruct m as [|m']; [easy|]. now apply (leaf_ext (S m')).
Qed.

Lemma leaf_entry_same ρ : ρ <> [] -> leaf s' t (i :: ρ) = if present e' then leaf s' (entry_phys e') ρ else None.
Proof using Hsp Et Hi Et'.
  intros Hρ. simpl. rewrite (ent_some s' t _ i Et'), entry_get, decide_True by (auto; exact (idx_512 _ _ Hi)). simpl. now destruct ρ.
Qed.

Lemma ent_entry : ent s' t i = Some e'.
Proof using Hsp Et Hi Et'. rewrite (ent_some s' t _ i Et'), entry_get, decide_True by (auto; exact (idx_512 _ _ Hi)). reflexivity. Qed.
End Entry.

Lemma change_refl n s t : space n s t -> change ∅ n s t s.
Proof. intros H. split; auto; [split; reflexivity|eauto]. Qed.

Lemma mono_refl n s t : mono n s t s.
Proof. split; auto. Qed.

Lemma change_trans X n s t s1 s2 : change ∅ n s t s1 -> change X n s1 t s2 -> change X n s t s2.
Proof.
  intros [A1 A2 A3 A4 A5 A6] [B1 B2 B3 B4 B5 B6].
  assert (Hback : forall π f, f ∈ busy s -> owned n s1 t π f -> exists π', owned n s t π' f).
  { intros π f Hf Ho. destruct (A5 π f Ho) as [|[|H]]; [auto|contradiction|now apply elem_of_empty in H]. }
  split; [exact B1|set_solver| |congruence| |intros j Hj Hno; now rewrite B6, A6].
  - intros f Hf Hno. destruct (A3 f Hf Hno) as [E1 E2], (B3 f) as [F1 F2]; [exact (A2 f Hf)| |split; congruence].
    intros π Ho. destruct (Hback π f Hf Ho) as (π' & Ho'). now apply (Hno π').
  - intros π f Ho. destruct (B5 π f Ho) as [(π' & Ho')|[Hf|Hf]]; [|right; left; intros H; apply Hf, (A2 f H)|auto].
    destruct (A5 π' f Ho') as [|[|H]]; auto. now apply elem_of_empty in H.
Qed.

Lemma mono_trans n s t s1 s2 : mono n s t s1 -> mono n s1 t s2 -> mono n s t s2.
Proof.
  intros [A1 A2] [B1 B2]. split; [auto|]. intros f Hf. destruct (B2 f Hf) as [Hf1|]; [|auto]. destruct (A2 f Hf1) as [|[π Ho]]; eauto.
Qed.

(** A change of the table below entry [i] is a change of the whole. *)
Section Lift.
Context (X : gset Z) (m : nat) (s s' : vm) (t i : Z) (e : page_entry_t).
Context (Hm : m <> 0%nat) (Hsp : space (S m) s t) (Hi : idx_ok (S m) i) (Ee : ent s t i = Some e) (Hp : present e = true).
Context (Hch : change X m s (entry_phys e) s') (HX : forall f, f ∈ X -> forall π, ~ owned (S m) s t π f).

Lemma kid_owned s0 π f : kid m s0 e π f <-> owned m s0 (entry_phys e) π f.
Proof using Hm. clear - Hm. destruct m; [easy|reflexivity]. Qed.

Lemma lift_facts : exists es, tables s !! t = Some es /\ tables s' !! t = Some (<[Z.to_nat i := e]> es) /\ page_size e = false /\
  (forall f, f ∈ busy s -> f <> t -> (forall π, ~ owned (S m) s t (i :: π) f) -> same_at s s' f) /\
  (forall π f, owned m s (entry_phys e) π f <-> owned (S m) s t (i :: π) f).
Proof using All.
  pose proof (sp_tree _ _ _ Hsp) as Ht. apply tree_S in Ht as (es & Et & Hl & Hps & _). exists es.
  assert (Hown : forall π f, owned m s (entry_phys e) π f <-> owned (S m) s t (i :: π) f).
  { intros π f. rewrite owned_S, <- kid_owned. split; [eauto|]. intros (_ & e1 & E1 & _ & Hk). assert (e1 = e) as -> by congruence. exact Hk. }
  assert (Htt : same_at s s' t).
  { apply (ch_same _ _ _ _ _ Hch); [now apply (sp_live _ _ _ Hsp [])|]. intros π Ho%Hown. discriminate (sp_inj _ _ _ Hsp _ [] t Ho eq_refl). }
  rewrite (ent_some s t es i Et) in Ee. split; [exact Et|]. split.
  { rewrite (proj1 Htt), Et. f_equal. symmetry. apply list_insert_id. unfold arr_get in Ee. now destruct (i <? 0). }
  split; [now apply (Hps Hm i)|]. split; [|exact Hown]. intros f Hf _ Hno. apply (ch_same _ _ _ _ _ Hch); [exact Hf|]. intros π Ho%Hown. now apply (Hno π).
Qed.

Lemma change_lift : change X (S m) s t s' /\ ent s' t i = Some e /\
  (forall j ρ, path_ok (S m) (j :: ρ) -> j <> i -> leaf s' t (j :: ρ) = leaf s t (j :: ρ)) /\
  (mono m s (entry_phys e) s' -> mono (S m) s t s').
Proof using All.
  destruct lift_facts as (es & Et & Et' & Hps & Hsame & Hown). split_and!.
  - apply (change_entry X m s s' t i es e Hsp Et Hi Et' (λ _, Hps) (ch_busy _ _ _ _ _ Hch) (ch_frames _ _ _ _ _ Hch) Hsame); [|exact HX].
    intros _. pose proof (ch_space _ _ _ _ _ Hch) as Hk. split_and!.
    + clear - Hm Hps Hk. destruct m; [easy|]. split; [exact Hps|apply Hk].
    + intros π π' f. rewrite !kid_owned. apply Hk.
    + intros π f. rewrite kid_owned. intros Ho. split; [eapply Hk; eauto|]. destruct (ch_own _ _ _ _ _ Hch π f Ho) as [(π' & Ho'%Hown)|]; eauto.
  - exact (ent_entry m s s' t i es e Hsp Et Hi Et').
  - exact (leaf_entry_other m s s' t i es e Hsp Et Hi Et' Hsame).
  - intros [M1 M2]. apply (mono_entry m s s' t i es e Hsp Et Hi Et' Hsame).
    + intros π f Ho%Hown. split; [exact Hp|]. now apply kid_owned, M1.
    + intros f Hf. destruct (M2 f Hf) as [|[π Ho]]; [auto|right]. split; [exact Hp|]. exists π. now apply kid_owned.
Qed.
End Lift.

(** Table [u], with [k] levels, is at the end of [π]. *)
Fixpoint node (n : nat) (s : vm) (t : Z) (π : list Z) (u : Z) (k : nat) : Prop :=
  match π with
  | [] => u = t /\ k = n /\ k <> 0%nat
  | i :: π => exists m e, n = S m /\ idx_ok n i /\ ent s t i = Some e /\ present e = true /\ m <> 0%nat /\ node m s (entry_phys e) π u k
  end.

Lemma space_kid_table m s t i e : space (S m) s t -> idx_ok (S m) i -> ent s t i = Some e -> present e = true -> m <> 0%nat -> space m s (entry_phys e).
Proof.
  intros Hsp Hi Ee Hp Hm. destruct (space_kid m s t i e Hsp Hi Ee Hp) as (K1 & K2 & K3). destruct m as [|m]; [easy|].
  split; [apply K1|exact K2|]. intros π f Ho. apply (K3 π f Ho).
Qed.

Lemma node_space n s t π u k : space n s t -> node n s t π u k -> space k s u.
Proof.
  revert n t. induction π as [|i π IH]; intros n t Hsp; cbn [node]; [now intros (-> & -> & _)|].
  intros (m & e & -> & Hi & Ee & Hp & Hm & Hn). apply (IH m (entry_phys e)); [|exact Hn]. eapply space_kid_table; eauto.
Qed.

Lemma node_leaf n s t π u k ρ : node n s t π u k -> ρ <> [] -> leaf s t (π ++ ρ) = leaf s u ρ.
Proof.
  revert n t. induction π as [|i π IH]; intros n t; cbn [node app]; [now intros (-> & _)|].
  intros (m & e & -> & Hi & Ee & Hp & Hm & Hn) Hρ. cbn [leaf]. rewrite Ee. cbn [mbind option_bind]. rewrite Hp, <- (IH m (entry_phys e) Hn Hρ).
  destruct (π ++ ρ) eqn:E; [|reflexivity]. apply app_eq_nil in E as [_ ->]. easy.
Qed.

Lemma path_ok_ne k ρ : k <> 0%nat -> path_ok k ρ -> ρ <> [].
Proof. destruct k, ρ; easy. Qed.

(** A change of a table somewhere below is a change of the whole. *)
Lemma lift_path X s s' u k π : change X k s u s' -> forall n t, space n s t -> node n s t π u k -> (forall f, f ∈ X -> forall π', ~ owned n s t π' f) ->
  change X n s t s' /\ node n s' t π u k /\ (mono k s u s' -> mono n s t s') /\
  (forall σ, path_ok n σ -> (forall ρ, σ <> π ++ ρ) -> leaf s' t σ = leaf s t σ).
Proof.
  intros Hch. induction π as [|i π IH]; intros n t Hsp; cbn [node].
  { intros (-> & -> & Hk) _. split_and!; auto. intros σ _ H. now elim (H σ). }
  intros (m & e & -> & Hi & Ee & Hp & Hm & Hn) HX. pose proof (space_kid_table m s t i e Hsp Hi Ee Hp Hm) as Hspk.
  destruct (IH m (entry_phys e) Hspk Hn) as (Hc & Hn' & Hmo & Hlf).
  { intros f Hf π' Ho. apply (HX f Hf (i :: π')). apply owned_S. split; [exact Hi|]. exists e. split_and!; auto. now destruct m. }
  destruct (change_lift X m s s' t i e Hm Hsp Hi Ee Hp Hc HX) as (L1 & L2 & L3 & L4). split_and!; auto.
  - exists m, e. auto 7.
  - intros [|j σ] Hσ Hne; [easy|]. destruct (decide (j = i)) as [->|]; [|now apply L3]. destruct Hσ as [_ Hσ].
    cbn [leaf]. rewrite L2, Ee. cbn [mbind option_bind]. rewrite Hp. destruct σ as [|j σ]; [now destruct m|].
    apply Hlf; [exact Hσ|]. intros ρ E. apply (Hne ρ). now rewrite E.
Qed.

(** If the table below owns no more than it did, so does the whole. *)
Lemma lift_shrink X s s' u k π : change X k s u s' -> (forall π' f, owned k s' u π' f -> owned k s u π' f) ->
  forall n t, space n s t -> node n s t π u k -> (forall f, f ∈ X -> forall π', ~ owned n s t π' f) -> forall π' f, owned n s' t π' f -> owned n s t π' f.
Proof.
  intros Hch Hsh. induction π as [|i π IH]; intros n t Hsp; cbn [node]; [now intros (-> & -> & Hk) _|].
  intros (m & e & -> & Hi & Ee & Hp & Hm & Hn) HX. pose proof (space_kid_table m s t i e Hsp Hi Ee Hp Hm) as Hspk.
  assert (HXk : forall f, f ∈ X -> forall π', ~ owned m s (entry_phys e) π' f).
  { intros f Hf π' Ho. apply (HX f Hf (i :: π')). apply owned_S. split; [exact Hi|]. exists e. split_and!; auto. now destruct m. }
  destruct (lift_path X s s' u k π Hch m (entry_phys e) Hspk Hn HXk) as (Hc & _).
  destruct (lift_facts X m s s' t i e Hm Hsp Hi Ee Hp Hc HX) as (es & Et & Et' & _ & Hsame & Hown).
  intros [|j π'] f; [easy|]. intros Ho. apply owned_S in Ho as (Hj & e1 & E1 & P1 & K1). destruct (decide (j = i)) as [->|Hne].
  - rewrite (ent_entry m s s' t i es e Hsp Et Hi Et') in E1. injection E1 as <-. apply Hown. apply (IH m (entry_phys e) Hspk Hn HXk). now apply (kid_owned m e Hm s').
  - rewrite (ent_some s' t _ j Et'), (entry_get m s t i es e Hsp Et Hi j (idx_512 _ _ Hj)), decide_False in E1 by auto.
    exact (entry_kid_back m s s' t i es Hsp Et Hi Hsame j e1 π' f Hj Hne E1 P1 K1).
Qed.

(** A leaf that is no device page is an owned page. *)
Lemma leaf_owned n s t π e : path_ok n π -> leaf s t π = Some e -> pcd e = false -> owned n s t π (entry_phys e).
Proof.
  revert t π. induction n as [|m IH]; intros t [|i ρ]; try easy. intros [Hi Hρ]. cbn [leaf]. destruct (ent s t i) as [e1|] eqn:E1; [|easy]. cbn [mbind option_bind].
  destruct (present e1) eqn:P1; [|easy]. intros Hl Hpc. apply owned_S. split; [exact Hi|]. exists e1. split_and!; auto. destruct ρ as [|j ρ].
  - injection Hl as ->. destruct m; [split_and!; auto|easy].
  - destruct m as [|m]; [easy|]. now apply (IH (entry_phys e1) (j :: ρ)).
Qed.

Lemma owned_leaf n s t π f : path_ok n π -> owned n s t π f -> exists e, leaf s t π = Some e /\ pcd e = false /\ f = entry_phys e.
Proof.
  revert t π. induction n as [|m IH]; intros t [|i ρ]; try easy. intros [Hi Hρ] Ho. apply owned_S in Ho as (_ & e1 & E1 & P1 & K1). cbn [leaf]. rewrite E1. cbn [mbind option_bind].
  rewrite P1. destruct m as [|m].
  - destruct ρ; [|easy]. destruct K1 as (Hpc & _ & ->). eauto.
  - destruct ρ as [|j ρ]; [easy|]. now apply (IH (entry_phys e1) (j :: ρ)).
Qed.

(** * The code *)

(** Another assignment to an entry that was just assigned. *)
Lemma wp_set_entry_next t i f x es T (Q : unit -> vm -> Prop) s : 0 <= i < Z.of_nat (length es) ->
  Q tt (set_tables (<[t := <[Z.to_nat i := f x]> es]> T) s) -> wp (set_entry t i f) Q (set_tables (<[t := <[Z.to_nat i := x]> es]> T) s).
Proof.
  intros Hi HQ. eapply wp_set_entry; [apply lookup_insert_eq|rewrite arr_get_insert by exact Hi; now rewrite decide_True|].
  simpl. rewrite insert_insert_eq, list_insert_insert_eq. exact HQ.
Qed.

Lemma blank_space m s p : m <> 0%nat -> blank m s p -> p ∈ busy s -> space m s p /\ (forall π f, owned m s p π f -> π = [] /\ f = p) /\
  forall π, path_ok m π -> leaf s p π = None.
Proof using.
  intros Hm Hbl Hb. destruct m as [|m]; [easy|]. pose proof Hbl as (es & Hp & _ & Hz). split_and!.
  - eapply bu_space, cp_built, (copying_init m s 0 p); [exact Hbl|exact Hb].
  - intros [|j π] f; [auto|]. rewrite owned_S, (ent_some s p _ j Hp). intros (Hj & e & Ej & Hpr & _). rewrite (Hz j Hj) in Ej. injection Ej as <-. discriminate.
  - intros [|j π]; [easy|]. intros [Hj _]. simpl. rewrite (ent_some s p _ j Hp), (Hz j Hj). reflexivity.
Qed.

Lemma zero_space m s p : m <> 0%nat -> tables s !! p = Some zero_table -> p ∈ busy s -> space m s p /\ (forall π f, owned m s p π f -> π = [] /\ f = p) /\
  forall π, path_ok m π -> leaf s p π = None.
Proof using.
  intros Hm Hp. apply blank_space; [exact Hm|]. exists zero_table. split_and!; [exact Hp|apply zero_table_length|exact (zero_table_get m)].
Qed.

Section Map.
Context (request : gset Z -> Z) (Hreq : forall u, request u <> 0 -> is_page (request u) /\ (request u ∉ u)).

Definition ensured m s t i (r : option (bool * Z)) s' : Prop :=
  change ∅ (S m) s t s' /\ mono (S m) s t s' /\ (forall π, path_ok (S m) π -> leaf s' t π = leaf s t π) /\ rest_same s s' /\
  match r with
  | None => request (busy s) = 0
  | Some (_, k) => exists e', ent s' t i = Some e' /\ present e' = true /\ page_size e' = false /\ entry_phys e' = k
  end.

(** The entry as it was, up to flags that do not matter here. *)
Lemma ensured_touch m s t i es e e' b : m <> 0%nat -> space (S m) s t -> idx_ok (S m) i -> tables s !! t = Some es -> arr_get es i = Some e -> present e = true ->
  present e' = true -> page_size e' = false -> entry_phys e' = entry_phys e ->
  ensured m s t i (Some (b, entry_phys e')) (set_tables (<[t := <[Z.to_nat i := e']> es]> (tables s)) s).
Proof using.
  intros Hm Hsp Hi Et Ee Hp Hp' Hps' Hph. set (s' := set_tables _ s). assert (Et' : tables s' !! t = Some (<[Z.to_nat i := e']> es)) by apply lookup_insert_eq.
  assert (Es : ent s t i = Some e) by now rewrite (ent_some s t es i Et).
  assert (Hsame : forall f, f <> t -> same_at s s' f) by (intros f Hf; split; [simpl; now rewrite lookup_insert_ne by auto|reflexivity]).
  destruct (space_kid m s t i e Hsp Hi Es Hp) as (K1 & K2 & K3). assert (Ka : kid_agree m s s' e) by (intros π f Hk; apply Hsame, (K3 π f Hk)).
  assert (Hkid : forall π f, kid m s' e' π f <-> kid m s e π f) by (intros π f; rewrite <- (kid_ext m s s' e Ka); destruct m; [easy|]; simpl; now rewrite Hph).
  assert (Hown : forall π f, owned (S m) s t (i :: π) f <-> kid m s e π f).
  { intros π f. rewrite owned_S. split; [intros (_ & e1 & E1 & _ & Hk); assert (e1 = e) as -> by congruence; exact Hk|eauto]. }
  split_and!; simpl.
  - apply (change_entry ∅ m s s' t i es e' Hsp Et Hi Et'); auto; [|intros f Hf; now apply elem_of_empty in Hf]. intros _. split_and!.
    + pose proof (kid_ok_ext m s s' e Ka K1) as Hk. destruct m; [easy|]. split; [exact Hps'|]. rewrite Hph. apply Hk.
    + intros π π' f. rewrite !Hkid. apply K2.
    + intros π f. rewrite Hkid. intros Hk. split; [apply (K3 π f Hk)|]. left. exists π. now apply Hown.
  - apply (mono_entry m s s' t i es e' Hsp Et Hi Et'); auto. intros π f. rewrite Hown, Hkid. auto.
  - intros [|j ρ] Hπ; [easy|]. destruct (decide (j = i)) as [->|Hne]; [|apply (leaf_entry_other m s s' t i es e' Hsp Et Hi Et'); auto].
    destruct Hπ as [_ Hρ]. destruct ρ as [|k ρ]; [destruct m; easy|]. rewrite (leaf_entry_same m s s' t i es e' Hsp Et Hi Et') by easy. rewrite Hp', Hph.
    cbn [leaf]. rewrite Es. cbn [mbind option_bind]. rewrite Hp. destruct m as [|m]; [easy|]. exact (leaf_ext (S m) s s' (entry_phys e) (k :: ρ) Ka Hρ).
  - split_and!; reflexivity.
  - exists e'. split_and!; auto. exact (ent_entry m s s' t i es e' Hsp Et Hi Et').
Qed.

(** A new table under an absent entry. *)
Lemma ensured_new m s t i es e e' p b : m <> 0%nat -> space (S m) s t -> idx_ok (S m) i -> tables s !! t = Some es -> arr_get es i = Some e -> present e = false ->
  present e' = true -> page_size e' = false -> entry_phys e' = p -> p ∉ busy s ->
  ensured m s t i (Some (b, p)) (set_tables (<[t := <[Z.to_nat i := e']> es]> (<[p := zero_table]> (tables s))) (set_busy ({[p]} ∪ busy s) s)).
Proof using.
  intros Hm Hsp Hi Et Ee Hp Hp' Hps' Hph Hfresh. set (s' := set_tables _ _). assert (Et' : tables s' !! t = Some (<[Z.to_nat i := e']> es)) by apply lookup_insert_eq.
  assert (Es : ent s t i = Some e) by now rewrite (ent_some s t es i Et).
  assert (Htp : t <> p) by (intros ->; apply Hfresh, (sp_live _ _ _ Hsp []); reflexivity).
  assert (Hsame : forall f, f ∈ busy s -> f <> t -> same_at s s' f).
  { intros f Hf Hft. split; [simpl|reflexivity]. rewrite lookup_insert_ne by auto. apply lookup_insert_ne. intros ->. contradiction. }
  assert (Hpz : tables s' !! p = Some zero_table) by (simpl; rewrite lookup_insert_ne by auto; apply lookup_insert_eq).
  destruct (zero_space m s' p Hm Hpz) as (Hzs & Hzo & Hzl); [simpl; now apply elem_of_union_l, elem_of_singleton_2|].
  assert (Hkid : forall π f, kid m s' e' π f <-> owned m s' p π f) by (intros π f; destruct m; [easy|]; simpl; now rewrite Hph).
  assert (Hnone : forall π f, ~ owned (S m) s t (i :: π) f) by (intros π f; rewrite owned_S; intros (_ & e1 & E1 & Hp1 & _); congruence).
  split_and!; simpl.
  - apply (change_entry ∅ m s s' t i es e' Hsp Et Hi Et'); auto; [simpl; intros f Hf; now apply elem_of_union_r| |intros f Hf; now apply elem_of_empty in Hf].
    intros _. split_and!.
    + destruct m; [easy|]. split; [exact Hps'|]. rewrite Hph. apply Hzs.
    + intros π π' f. rewrite !Hkid. apply Hzs.
    + intros π f. rewrite Hkid. intros Ho. split; [eapply Hzs; eauto|]. right. left. destruct (Hzo π f Ho) as [_ ->]. exact Hfresh.
  - apply (mono_entry m s s' t i es e' Hsp Et Hi Et'); auto; [intros π f Ho; now elim (Hnone π f)|].
    simpl. intros f [->%elem_of_singleton|Hf]%elem_of_union; [right; split; [exact Hp'|]; exists []; apply Hkid; now destruct m|auto].
  - intros [|j ρ] Hπ; [easy|]. destruct (decide (j = i)) as [->|Hne]; [|apply (leaf_entry_other m s s' t i es e' Hsp Et Hi Et'); auto].
    destruct Hπ as [_ Hρ]. destruct ρ as [|k ρ]; [destruct m; easy|]. rewrite (leaf_entry_same m s s' t i es e' Hsp Et Hi Et') by easy. rewrite Hp', Hph.
    rewrite (Hzl _ Hρ). cbn [leaf]. rewrite Es. cbn [mbind option_bind]. now rewrite Hp.
  - split_and!; reflexivity.
  - exists e'. split_and!; auto. exact (ent_entry m s s' t i es e' Hsp Et Hi Et').
Qed.

Lemma ensure_ok m s t i u : m <> 0%nat -> space (S m) s t -> idx_ok (S m) i -> wp (ensure_table request t i u) (ensured m s t i) s.
Proof using Hreq.
  intros Hm Hsp Hi. pose proof (sp_tree _ _ _ Hsp) as Ht. apply tree_S in Ht as (es & Et & Hl & Hps & _). destruct (ent_get (S m) es i Hl Hi) as [e Ee].
  pose proof (Hps Hm i e Hi Ee) as Hpe. assert (Hil : 0 <= i < Z.of_nat (length es)) by (rewrite Hl; pose proof (idx_512 _ _ Hi); lia).
  unfold ensure_table. apply wp_bind. eapply wp_entry; [exact Et|exact Ee|]. apply wp_bind. destruct (present e) eqn:Hp.
  - apply wp_ret. apply wp_bind, wp_when. destruct u.
    + eapply wp_set_entry; [exact Et|exact Ee|]. apply wp_bind. eapply wp_entry; [apply lookup_insert_eq|rewrite arr_get_insert by exact Hil; now rewrite decide_True|].
      apply wp_ret. now apply (ensured_touch m s t i es e).
    + apply wp_bind. eapply wp_entry; [exact Et|exact Ee|]. apply wp_ret.
      replace s with (set_tables (<[t := <[Z.to_nat i := e]> es]> (tables s)) s) at 2; [now apply (ensured_touch m s t i es e)|].
      rewrite list_insert_id by (unfold arr_get in Ee; now destruct (i <? 0)). rewrite insert_id by exact Et. now destruct s.
  - apply wp_bind. apply (wp_request request Hreq).
    { intros H0. apply wp_ret. apply wp_ret. split; [now apply change_refl|]. split; [apply mono_refl|]. split; [auto|]. split; [split_and!; reflexivity|exact H0]. }
    intros p Hpg Hp0 Hpb. rewrite (proj2 (Z.eqb_neq p 0) Hp0). apply wp_bind, wp_modify. set (s1 := set_tables _ _).
    assert (Htp : t <> p) by (intros ->; apply Hpb, (sp_live _ _ _ Hsp []); reflexivity).
    assert (Et1 : tables s1 !! t = Some es) by (simpl; now rewrite lookup_insert_ne by auto).
    apply wp_bind. eapply wp_set_entry; [exact Et1|exact Ee|]. apply wp_bind, wp_set_entry_next; [exact Hil|]. apply wp_bind, wp_set_entry_next; [exact Hil|].
    apply wp_ret. apply wp_bind, wp_when. destruct u.
    + apply wp_set_entry_next; [exact Hil|]. apply wp_bind. eapply wp_entry; [apply lookup_insert_eq|rewrite arr_get_insert by exact Hil; now rewrite decide_True|].
      apply wp_ret. rewrite (entry_phys_set p (set_writable true (set_present true e)) Hpg : entry_phys (set_user true (set_address p _)) = p).
      apply (ensured_new m s t i es e); auto. exact (entry_phys_set p (set_writable true (set_present true e)) Hpg).
    + apply wp_bind. eapply wp_entry; [apply lookup_insert_eq|rewrite arr_get_insert by exact Hil; now rewrite decide_True|].
      apply wp_ret. rewrite (entry_phys_set p _ Hpg). apply (ensured_new m s t i es e); auto. exact (entry_phys_set p _ Hpg).
Qed.
(** The leaf entry [fill_entry] leaves. *)
Definition leaf_entry (e : page_entry_t) (phy flags : Z) : page_entry_t :=
  set_global (has_flag flags GLOBAL_PAGE) (set_pwt (has_flag flags WRITE_THROUGH_PAGE) (set_pcd (has_flag flags CACHE_DIS_PAGE)
    (set_no_execute (has_flag flags NX_PAGE) (set_address phy (set_user (has_flag flags USER_PAGE) (set_writable (has_flag flags RW_PAGE) (set_present true e))))))).

(** Pages the space takes over by mapping [phy]. *)
Definition adopted (phy flags : Z) : gset Z := if has_flag flags CACHE_DIS_PAGE then ∅ else {[phy]}.
Definition adoptable n s t (phy flags : Z) : Prop := has_flag flags CACHE_DIS_PAGE = false ->
  phy ∈ busy s /\ (exists c, frames s !! phy = Some c /\ length c = 4096%nat) /\ forall π, ~ owned n s t π phy.

Lemma fill_leaf_ok s t i phy flags e : space 1 s t -> idx_ok 1 i -> ent s t i = Some e -> present e = false -> is_page phy -> adoptable 1 s t phy flags ->
  wp (fill_entry t i phy flags) (λ _ s', change (adopted phy flags) 1 s t s' /\ mono 1 s t s' /\ rest_same s s' /\
    leaf s' t [i] = Some (leaf_entry e phy flags) /\ forall j, idx_ok 1 j -> j <> i -> leaf s' t [j] = leaf s t [j]) s.
Proof using.
  intros Hsp Hi Ee Hp Hpg Had. pose proof (sp_tree _ _ _ Hsp) as Ht. destruct Ht as (es & Et & Hl & _).
  assert (Hil : 0 <= i < Z.of_nat (length es)) by (rewrite Hl; pose proof (idx_512 _ _ Hi); lia). pose proof Ee as Ee'. rewrite (ent_some s t es i Et) in Ee'.
  unfold fill_entry. apply wp_bind. eapply wp_set_entry; [exact Et|exact Ee'|]. do 6 (apply wp_bind, wp_set_entry_next; [exact Hil|]). apply wp_set_entry_next; [exact Hil|].
  fold (leaf_entry e phy flags). set (e' := leaf_entry e phy flags). set (s' := set_tables _ s). assert (Et' : tables s' !! t = Some (<[Z.to_nat i := e']> es)) by apply lookup_insert_eq.
  assert (Hph : entry_phys e' = phy) by exact (entry_phys_set phy _ Hpg).
  assert (Hsame : forall f, f ∈ busy s -> f <> t -> (forall π, ~ owned 1 s t (i :: π) f) -> same_at s s' f).
  { intros f _ Hf _. split; [simpl; now rewrite lookup_insert_ne by auto|reflexivity]. }
  assert (Hnone : forall π f, ~ owned 1 s t (i :: π) f) by (intros π f (_ & e1 & E1 & Hp1 & _); congruence).
  assert (Hkid : forall π f, kid 0 s' e' π f -> has_flag flags CACHE_DIS_PAGE = false /\ π = [] /\ f = phy) by (intros π f (Hpc & -> & ->); auto).
  split_and!.
  - apply (change_entry (adopted phy flags) 0 s s' t i es e' Hsp Et Hi Et'); auto; [easy| |].
    + intros _. split_and!.
      * intros Hpc. rewrite Hph. apply Had, Hpc.
      * intros π π' f H1 H2. destruct (Hkid _ _ H1) as (_ & -> & _), (Hkid _ _ H2) as (_ & -> & _). reflexivity.
      * intros π f Hk. destruct (Hkid _ _ Hk) as (Hc & -> & ->). split; [apply Had, Hc|]. right. right. unfold adopted. rewrite Hc. now apply elem_of_singleton.
    + intros f Hf. unfold adopted in Hf. destruct (has_flag flags CACHE_DIS_PAGE) eqn:Hc; [now apply elem_of_empty in Hf|]. apply elem_of_singleton in Hf as ->. now apply Had.
  - apply (mono_entry 0 s s' t i es e' Hsp Et Hi Et'); auto. intros π f Ho. now elim (Hnone π f).
  - split_and!; reflexivity.
  - cbn [leaf]. rewrite (ent_entry 0 s s' t i es e' Hsp Et Hi Et'). reflexivity.
  - intros j Hj Hne. apply (leaf_entry_other 0 s s' t i es e' Hsp Et Hi Et' Hsame); [split; easy|exact Hne].
Qed.
(** Tables added so far: the memory described is the same. *)
Definition stage s p4 s' : Prop := change ∅ 4 s p4 s' /\ mono 4 s p4 s' /\ rest_same s s' /\ forall π, path_ok 4 π -> leaf s' p4 π = leaf s p4 π.

Lemma path_cases n π : path_ok n π -> forall σ, (exists ρ, π = σ ++ ρ) \/ (forall ρ, π <> σ ++ ρ).
Proof using. intros _ σ. destruct (decide (σ `prefix_of` π)) as [[ρ ->]|H]; [eauto|]. right. intros ρ ->. apply H. now exists ρ. Qed.

Lemma node_path n s t π u k ρ : node n s t π u k -> path_ok n (π ++ ρ) -> path_ok k ρ.
Proof using.
  revert n t. induction π as [|i π IH]; intros n t; cbn [node app]; [now intros (-> & -> & _)|]. intros (m & e & -> & _ & _ & _ & _ & Hn) [_ H]. eauto.
Qed.

Lemma node_snoc n s t π u m i e : node n s t π u (S m) -> m <> 0%nat -> idx_ok (S m) i -> ent s u i = Some e -> present e = true -> node n s t (π ++ [i]) (entry_phys e) m.
Proof using.
  intros Hn Hm Hi Ee Hp. revert n t Hn. induction π as [|j π IH]; intros n t; cbn [node app].
  - intros (-> & <- & _). exists m, e. split_and!; auto.
  - intros (m0 & e0 & -> & Hj & E0 & P0 & Hm0 & Hn). exists m0, e0. split_and!; auto.
Qed.

Lemma stage_step s s1 s2 p4 π u m i r : stage s p4 s1 -> node 4 s1 p4 π u (S m) -> idx_ok (S m) i -> m <> 0%nat -> ensured m s1 u i r s2 ->
  stage s p4 s2 /\ node 4 s2 p4 π u (S m) /\ match r with None => True | Some (_, k) => node 4 s2 p4 (π ++ [i]) k m /\ exists e, ent s2 u i = Some e /\ page_size e = false end.
Proof using.
  intros (C1 & M1 & R1 & L1) Hn Hi Hm (C2 & M2 & L2 & R2 & Hr). pose proof (ch_space _ _ _ _ _ C1) as Hsp.
  destruct (lift_path ∅ s1 s2 u (S m) π C2 4 p4 Hsp Hn) as (LC & LN & LM & LL); [intros f Hf; now apply elem_of_empty in Hf|]. split; [|split; [exact LN|]].
  - split; [now apply (change_trans ∅ 4 s p4 s1)|]. split; [eapply mono_trans; eauto|]. split; [unfold rest_same in *; destruct R1 as (? & ? & ?), R2 as (? & ? & ?); split_and!; congruence|].
    intros σ Hσ. rewrite <- (L1 σ Hσ). destruct (path_cases 4 σ Hσ π) as [[ρ ->]|Hno]; [|now apply LL].
    pose proof (node_path _ _ _ _ _ _ _ Hn Hσ) as Hρ. assert (Hne : ρ <> []) by now apply (path_ok_ne (S m)).
    rewrite (node_leaf 4 s2 p4 π u (S m) ρ LN Hne), (node_leaf 4 s1 p4 π u (S m) ρ Hn Hne). now apply L2.
  - destruct r as [[b k]|]; [|exact I]. destruct Hr as (e' & Ee & Hp & Hps & <-). split; [eapply node_snoc; eauto|eauto].
Qed.

Lemma adoptable_sub n s t π u k phy flags s1 p4 : n = 4%nat -> t = p4 -> node n s1 t π u k -> change ∅ 4 s p4 s1 -> adoptable 4 s p4 phy flags -> adoptable k s1 u phy flags.
Proof using.
  intros -> -> Hn Hc Had Hf. destruct (Had Hf) as (H1 & H2 & H3). split; [exact (ch_busy _ _ _ _ _ Hc phy H1)|]. split; [now rewrite (ch_frames _ _ _ _ _ Hc)|].
  assert (Hno : forall π', ~ owned 4 s1 p4 π' phy).
  { intros π' Ho. destruct (ch_own _ _ _ _ _ Hc π' phy Ho) as [(π2 & Ho2)|[|H]]; [now apply (H3 π2)|contradiction|now apply elem_of_empty in H]. }
  clear - Hn Hno. revert Hno Hn. generalize 4%nat p4. induction π as [|i π IH]; intros n t Hno; cbn [node]; [now intros (-> & -> & _)|].
  intros (m & e & -> & Hi & Ee & Hp & Hm & Hn) π'. apply (IH m (entry_phys e)); [|exact Hn]. intros π2 Ho. apply (Hno (i :: π2)). apply owned_S.
  split; [exact Hi|]. exists e. split_and!; auto. now destruct m.
Qed.

Definition map_result s p4 va phy flags (r : Z) s' : Prop :=
  rest_same s s' /\ mono 4 s p4 s' /\
  ((r = 0 /\ change (adopted phy flags) 4 s p4 s' /\ (exists e, leaf s' p4 (va_path va) = Some (leaf_entry e phy flags)) /\
    forall π, path_ok 4 π -> π <> va_path va -> leaf s' p4 π = leaf s p4 π) \/
   (r = - ENOMEM /\ change ∅ 4 s p4 s' /\ forall π, path_ok 4 π -> leaf s' p4 π = leaf s p4 π)).

Lemma map_locked_ok s p4 va phy flags : space 4 s p4 -> user_va va -> is_page phy -> leaf s p4 (va_path va) = None -> adoptable 4 s p4 phy flags ->
  wp (map_locked request p4 va phy flags false) (map_result s p4 va phy flags) s.
Proof using Hreq.
  intros Hsp Hva Hpg Hlf Had. pose proof (va_path_ok va Hva) as Hpath. pose proof Hpath as (I4 & I3 & I2 & I1 & _).
  assert (S0 : stage s p4 s) by (split; [now apply change_refl|split; [apply mono_refl|split; [split_and!; reflexivity|auto]]]).
  assert (Hfail : forall s', stage s p4 s' -> map_result s p4 va phy flags (- ENOMEM) s') by (intros s' (C & M & R & L); split_and!; auto; right; auto).
  unfold map_locked. apply wp_bind. eapply wp_mono; [apply (ensure_ok 3 s p4 (PML4_IDX va) _ ltac:(easy) Hsp I4)|]. intros r1 s1 H1.
  destruct (stage_step s s s1 p4 [] p4 3 _ r1 S0 (conj eq_refl (conj eq_refl (Nat.neq_succ_0 3))) I4 ltac:(easy) H1) as (S1 & _ & N1). destruct r1 as [[b1 k3]|]; [|apply wp_ret; auto]. destruct N1 as [N1 _]. cbn [app] in N1.
  apply wp_bind. eapply wp_mono; [apply (ensure_ok 2 s1 k3 (PDPT_IDX va) _ ltac:(easy)); [|exact I3]; eapply node_space; [apply S1|exact N1]|]. intros r2 s2 H2.
  destruct (stage_step s s1 s2 p4 _ k3 2 _ r2 S1 N1 I3 ltac:(easy) H2) as (S2 & _ & N2). destruct r2 as [[b2 k2]|]; [|apply wp_ret; auto]. destruct N2 as [N2 _]. cbn [app] in N2.
  apply wp_bind. eapply wp_mono; [apply (ensure_ok 1 s2 k2 (PD_IDX va) _ ltac:(easy)); [|exact I2]; eapply node_space; [apply S2|exact N2]|]. intros r3 s3 H3.
  destruct (stage_step s s2 s3 p4 _ k2 1 _ r3 S2 N2 I2 ltac:(easy) H3) as (S3 & N2' & N3). destruct r3 as [[b3 k1]|]; [|apply wp_ret; auto]. destruct N3 as [N3 (e2 & E2 & Hbig)]. cbn [app] in N3.
  pose proof (ch_space _ _ _ _ _ (proj1 S3)) as Hsp3. pose proof (node_space _ _ _ _ _ _ Hsp3 N2') as Hspk2. destruct (sp_tree _ _ _ Hspk2) as (es2 & Et2 & _).
  apply wp_bind. eapply wp_entry; [exact Et2|rewrite <- (ent_some s3 k2 es2 _ Et2); exact E2|]. rewrite Hbig.
  pose proof (node_space _ _ _ _ _ _ Hsp3 N3) as Hspk1. destruct (sp_tree _ _ _ Hspk1) as (es1 & Et1 & Hl1 & _). destruct (ent_get 1 es1 _ Hl1 I1) as [e1 Ee1].
  assert (Ent1 : ent s3 k1 (PT_IDX va) = Some e1) by now rewrite (ent_some s3 k1 es1 _ Et1).
  assert (Hp1 : present e1 = false).
  { destruct S3 as (_ & _ & _ & L3). rewrite <- (L3 _ Hpath) in Hlf. change (va_path va) with ([PML4_IDX va; PDPT_IDX va; PD_IDX va] ++ [PT_IDX va]) in Hlf.
    rewrite (node_leaf 4 s3 p4 _ k1 1 [PT_IDX va] N3 ltac:(easy)) in Hlf. cbn [leaf] in Hlf. rewrite Ent1 in Hlf. cbn [mbind option_bind] in Hlf. now destruct (present e1). }
  assert (Had1 : adoptable 1 s3 k1 phy flags) by (eapply (adoptable_sub 4 s p4 _ k1 1); [reflexivity|reflexivity|exact N3|apply S3|exact Had]).
  apply wp_bind. eapply wp_mono; [apply (fill_leaf_ok s3 k1 (PT_IDX va) phy flags e1 Hspk1 I1 Ent1 Hp1 Hpg Had1)|]. intros _ s4 (C4 & M4 & R4 & Lf & Lo). apply wp_ret.
  destruct S3 as (C3 & M3 & R3 & L3).
  destruct (lift_path (adopted phy flags) s3 s4 k1 1 _ C4 4 p4 Hsp3 N3) as (LC & LN & LM & LL).
  { intros f Hf π' Ho. unfold adopted in Hf. destruct (has_flag flags CACHE_DIS_PAGE) eqn:Hc; [now apply elem_of_empty in Hf|]. apply elem_of_singleton in Hf as ->.
    assert (Had4 : adoptable 4 s3 p4 phy flags) by (eapply (adoptable_sub 4 s p4 [] p4 4); [reflexivity|reflexivity|easy|exact C3|exact Had]). now apply (proj2 (proj2 (Had4 Hc)) π'). }
  split; [unfold rest_same in *; destruct R3 as (? & ? & ?), R4 as (? & ? & ?); split_and!; congruence|]. split; [eapply mono_trans; eauto|]. left.
  split; [reflexivity|]. split; [eapply change_trans; eauto|]. split.
  - exists e1. change (va_path va) with ([PML4_IDX va; PDPT_IDX va; PD_IDX va] ++ [PT_IDX va]). now rewrite (node_leaf 4 s4 p4 _ k1 1 [PT_IDX va] LN ltac:(easy)).
  - intros σ Hσ Hne. rewrite <- (L3 σ Hσ). destruct (path_cases 4 σ Hσ [PML4_IDX va; PDPT_IDX va; PD_IDX va]) as [[ρ ->]|Hno]; [|now apply LL].
    pose proof (node_path _ _ _ _ _ _ _ N3 Hσ) as Hρ. assert (Hnr : ρ <> []) by now apply (path_ok_ne 1).
    rewrite (node_leaf 4 s4 p4 _ k1 1 ρ LN Hnr), (node_leaf 4 s3 p4 _ k1 1 ρ N3 Hnr). destruct ρ as [|j [|]]; [easy| |now destruct Hρ].
    apply Lo; [apply Hρ|]. intros ->. apply Hne. reflexivity.
Qed.
End Map.

(** * Memory *)

(** The byte at a user address. *)
Definition user_byte s p4 va : option Z := e ← leaf s p4 (va_path va); c ← frames s !! entry_phys e; arr_get c (va mod 4096).

(** Memory a task sees depends only on the pages it owns. *)
Lemma user_byte_ext s s' p va : space 4 s p -> user_va va -> agree 4 s s' p -> (forall e, leaf s p (va_path va) = Some e -> pcd e = false) ->
  user_byte s' p va = user_byte s p va.
Proof.
  intros Hsp Hva Ha Hdev. unfold user_byte. pose proof (va_path_ok va Hva) as Hpath. rewrite (leaf_ext 4 s s' p _ Ha Hpath).
  destruct (leaf s p (va_path va)) as [e|] eqn:El; [|reflexivity]. cbn [mbind option_bind].
  rewrite (proj2 (Ha _ _ (leaf_owned 4 s p _ e Hpath El (Hdev e eq_refl)))). reflexivity.
Qed.

(** Looking a page up and unmapping it, and the entry points with the lock. *)


(** * Parts of the state that do not matter *)

Definition core_eq s s' : Prop := tables s' = tables s /\ frames s' = frames s /\ busy s' = busy s.

Lemma core_agree s s' n t : core_eq s s' -> agree n s s' t.
Proof. intros (E1 & E2 & _) π f _. split; congruence. Qed.

Lemma core_sym s s' : core_eq s s' -> core_eq s' s.
Proof. intros (? & ? & ?). split_and!; congruence. Qed.

Lemma core_owned s s' n t π f : core_eq s s' -> (owned n s' t π f <-> owned n s t π f).
Proof. intros H. apply owned_ext. now apply core_agree. Qed.

Lemma core_space s s' n t : core_eq s s' -> space n s t -> space n s' t.
Proof. intros H Hs. apply (space_ext n s); [now apply core_agree| |exact Hs]. intros π f Ho. destruct H as (_ & _ & ->). now apply (sp_live _ _ _ Hs π). Qed.

Lemma core_leaf s s' t π : core_eq s s' -> leaf s' t π = leaf s t π.
Proof.
  intros (E & _). revert t. induction π as [|i π IH]; intros t; [reflexivity|]. cbn [leaf]. unfold ent. rewrite E. destruct (tables s !! t ≫= _) as [e|]; [|reflexivity].
  cbn [mbind option_bind]. destruct (present e); [|reflexivity]. destruct π; [reflexivity|]. apply IH.
Qed.

Lemma core_change X n s t s' s0 s0' : core_eq s s0 -> core_eq s' s0' -> change X n s t s' -> change X n s0 t s0'.
Proof.
  intros H H' [C1 C2 C3 C4 C5 C6]. pose proof H as (A1 & A2 & A3). pose proof H' as (B1 & B2 & B3). split.
  - now apply (core_space s').
  - rewrite A3, B3. exact C2.
  - intros f Hf Hno. rewrite A3 in Hf. destruct (C3 f Hf) as [D1 D2]; [intros π Ho; apply (Hno π); now apply (core_owned s s0)|]. split; congruence.
  - congruence.
  - intros π f Ho. apply (core_owned s' s0' n t π f H') in Ho. rewrite A3. destruct (C5 π f Ho) as [(π' & Ho')|]; [|auto]. left. exists π'. now apply (core_owned s s0).
  - intros j Hj Hno. unfold ent in *. rewrite A1, B1. now apply C6.
Qed.

Lemma core_mono n s t s' s0 s0' : core_eq s s0 -> core_eq s' s0' -> mono n s t s' -> mono n s0 t s0'.
Proof.
  intros H H' [M1 M2]. pose proof H as (A1 & A2 & A3). pose proof H' as (B1 & B2 & B3). split.
  - intros π f Ho. apply (core_owned s' s0'); [exact H'|]. apply M1. now apply (core_owned s s0).
  - intros f Hf. rewrite B3 in Hf. rewrite A3. destruct (M2 f Hf) as [|[π Ho]]; [auto|right]. exists π. now apply (core_owned s' s0').
Qed.

(** Code that leaves the lock alone, run under the lock. *)
Definition locked s : vm := set_paging_lock true (set_intr false s).
Definition unlocked s s' : vm := set_intr (intr s) (set_paging_lock false s').

Lemma wp_irqsave (Q : bool -> vm -> Prop) s : paging_lock s = false -> Q (intr s) (locked s) -> wp (lock_irqsave paging_lock_f) Q s.
Proof. intros Hl HQ. unfold lock_irqsave, check_interrupts, CliHelper, spin_lock. wp_steps. rewrite Hl. simpl. exact HQ. Qed.

(** Releasing the lock, then interrupts as they were. *)
Lemma unlocked_ie s s' : intr s' = false -> (if intr s then set_intr true (set_paging_lock false s') else set_paging_lock false s') = unlocked s s'.
Proof. intros H. unfold unlocked. destruct (intr s) eqn:E; [reflexivity|]. destruct s'. simpl in *. now subst. Qed.

Lemma wp_irqrestore (Q : unit -> vm -> Prop) s s' : intr s' = false -> Q tt (unlocked s s') -> wp (unlock_irqrestore paging_lock_f (intr s)) Q s'.
Proof.
  intros Hi HQ. unfold unlock_irqrestore, spin_unlock, StiHelper. apply wp_bind, wp_modify. simpl.
  rewrite <- (unlocked_ie s s' Hi) in HQ. destruct (intr s); simpl; [apply wp_modify|apply wp_ret]; exact HQ.
Qed.

Section Entries.
Context (request : gset Z -> Z) (Hreq : forall u, request u <> 0 -> is_page (request u) /\ (request u ∉ u)).

Lemma map_page_ok s p4 va phy flags : space 4 s p4 -> paging_lock s = false -> user_va va -> is_page phy -> leaf s p4 (va_path va) = None -> adoptable 4 s p4 phy flags ->
  wp (map_page_to_virt_in request p4 va phy flags false) (map_result s p4 va phy flags) s.
Proof using Hreq.
  intros Hsp Hlk Hva Hpg Hlf Had. assert (Hc : core_eq s (locked s)) by (split_and!; reflexivity). unfold map_page_to_virt_in. apply wp_bind, wp_irqsave; [exact Hlk|].
  apply wp_bind. eapply wp_mono; [apply (map_locked_ok request Hreq (locked s) p4 va phy flags (core_space _ _ _ _ Hc Hsp) Hva Hpg)|].
  - now rewrite (core_leaf s (locked s) p4 _ Hc).
  - intros Hf. destruct (Had Hf) as (H1 & H2 & H3). split_and!; auto.
  - intros r s1 ((R1 & R2 & R3) & M & Hr). apply wp_bind, wp_irqrestore; [exact R2|]. apply wp_ret.
    assert (Hc' : core_eq s1 (unlocked s s1)) by (split_and!; reflexivity). pose proof (core_sym _ _ Hc) as Hcs.
    split; [split_and!; [now rewrite Hlk|reflexivity|exact R3]|]. split; [exact (core_mono _ _ _ _ _ _ Hcs Hc' M)|].
    destruct Hr as [(-> & C & (e & He) & L)|(-> & C & L)]; [left|right]; (split; [reflexivity|]; split; [exact (core_change _ _ _ _ _ _ _ Hcs Hc' C)|]).
    + split; [exists e; now rewrite (core_leaf s1)|]. intros π Hπ Hne. rewrite (core_leaf s1 (unlocked s s1) p4 π Hc'), (L π Hπ Hne). exact (core_leaf s (locked s) p4 π Hc).
    + intros π Hπ. rewrite (core_leaf s1 (unlocked s s1) p4 π Hc'), (L π Hπ). exact (core_leaf s (locked s) p4 π Hc).
Qed.

(** ** Walking to the last table *)
Lemma walk_step n s t π u m i : space n s t -> node n s t π u (S m) -> idx_ok (S m) i ->
  exists es e, tables s !! u = Some es /\ arr_get es i = Some e /\ ent s u i = Some e /\ (m <> 0%nat -> page_size e = false) /\
    (m <> 0%nat -> present e = true -> node n s t (π ++ [i]) (entry_phys e) m).
Proof using.
  intros Hsp Hn Hi. pose proof (node_space _ _ _ _ _ _ Hsp Hn) as Hspu. pose proof (sp_tree _ _ _ Hspu) as Ht. apply tree_S in Ht as (es & Et & Hl & Hps & _).
  destruct (ent_get (S m) es i Hl Hi) as [e Ee]. assert (Ee' : ent s u i = Some e) by now rewrite (ent_some s u es i Et). exists es, e. split_and!; auto.
  - intros Hm. now apply (Hps Hm i).
  - intros Hm Hp. eapply node_snoc; eauto.
Qed.

Lemma leaf_none n s t π u m i e ρ : node n s t π u (S m) -> ent s u i = Some e -> present e = false -> leaf s t (π ++ i :: ρ) = None.
Proof using. intros Hn Ee Hp. rewrite (node_leaf n s t π u (S m) (i :: ρ) Hn ltac:(easy)). cbn [leaf]. rewrite Ee. cbn [mbind option_bind]. now rewrite Hp. Qed.

Lemma walk_ok s p4 va b : space 4 s p4 -> user_va va -> wp (walk_locked p4 va b) (λ r s', s' = s /\
  match r with
  | None => leaf s p4 (va_path va) = None
  | Some p1 => node 4 s p4 [PML4_IDX va; PDPT_IDX va; PD_IDX va] p1 1 /\ exists es e, tables s !! p1 = Some es /\ arr_get es (PT_IDX va) = Some e /\ present e = true /\
      leaf s p4 (va_path va) = Some e end) s.
Proof using.
  intros Hsp Hva. pose proof (va_path_ok va Hva) as (I4 & I3 & I2 & I1 & _). unfold walk_locked, va_path.
  assert (N4 : node 4 s p4 [] p4 4) by (split_and!; easy).
  destruct (walk_step 4 s p4 [] p4 3 _ Hsp N4 I4) as (t4 & e4 & T4 & A4 & E4 & _ & N3). apply wp_bind. eapply wp_entry; [exact T4|exact A4|].
  destruct (present e4) eqn:P4; simpl negb; cbn iota; [specialize (N3 ltac:(easy) eq_refl)|apply wp_ret; split; [reflexivity|exact (leaf_none _ _ _ _ _ _ _ e4 _ N4 E4 P4)]].
  destruct (walk_step 4 s p4 _ _ 2 _ Hsp N3 I3) as (t3 & e3 & T3 & A3 & E3 & _ & N2). apply wp_bind. eapply wp_entry; [exact T3|exact A3|].
  destruct (present e3) eqn:P3; simpl negb; cbn iota; [specialize (N2 ltac:(easy) eq_refl)|apply wp_ret; split; [reflexivity|exact (leaf_none _ _ _ _ _ _ _ e3 _ N3 E3 P3)]].
  destruct (walk_step 4 s p4 _ _ 1 _ Hsp N2 I2) as (t2 & e2 & T2 & A2 & E2 & B2 & N1). apply wp_bind. eapply wp_entry; [exact T2|exact A2|].
  destruct (present e2) eqn:P2; simpl negb; cbn iota; [specialize (N1 ltac:(easy) eq_refl)|apply wp_ret; split; [reflexivity|exact (leaf_none _ _ _ _ _ _ _ e2 _ N2 E2 P2)]].
  rewrite (B2 ltac:(easy)), andb_false_r.
  destruct (walk_step 4 s p4 _ _ 0 _ Hsp N1 I1) as (t1 & e1 & T1 & A1 & E1 & _ & _). apply wp_bind. eapply wp_entry; [exact T1|exact A1|].
  destruct (present e1) eqn:P1; simpl negb; cbn iota; [|apply wp_ret; split; [reflexivity|exact (leaf_none _ _ _ _ _ _ _ e1 _ N1 E1 P1)]].
  apply wp_ret. split; [reflexivity|]. split; [exact N1|]. exists t1, e1. split_and!; auto.
  pose proof (node_leaf 4 s p4 _ _ 1 [PT_IDX va] N1 ltac:(easy)) as Hl. cbn [app] in Hl. rewrite Hl. cbn [leaf]. rewrite E1. cbn [mbind option_bind]. now rewrite P1.
Qed.

Lemma lookup_ok s p4 va : space 4 s p4 -> user_va va -> wp (lookup_user_in_pml4 p4 va) (λ r s', s' = s /\ r = entry_phys <$> leaf s p4 (va_path va)) s.
Proof using.
  intros Hsp Hva. unfold lookup_user_in_pml4. apply wp_bind. eapply wp_mono; [apply (walk_ok s p4 va false Hsp Hva)|].
  intros [p1|] s1 [-> Hr]; [|apply wp_ret; now rewrite Hr]. destruct Hr as (_ & es & e & Et & Ee & _ & Hl). apply wp_bind. eapply wp_entry; [exact Et|exact Ee|].
  apply wp_ret. now rewrite Hl.
Qed.

(** ** Unmapping *)
Definition unmap_result s p4 va (r : Z) s' : Prop :=
  match leaf s p4 (va_path va) with
  | None => r = - ENOENT /\ core_eq s s' /\ flushed s' = flushed s
  | Some e => r = 0 /\ change ∅ 4 s p4 s' /\ busy s' = busy s /\ leaf s' p4 (va_path va) = None /\
      (forall π, path_ok 4 π -> π <> va_path va -> leaf s' p4 π = leaf s p4 π) /\
      (pcd e = false -> forall π, ~ owned 4 s' p4 π (entry_phys e)) /\ flushed s' = flushed s ++ [va]
  end /\ paging_lock s' = false /\ intr s' = intr s.

Lemma clear_leaf_ok s t i es e : space 1 s t -> idx_ok 1 i -> tables s !! t = Some es -> arr_get es i = Some e -> present e = true ->
  let s' := set_tables (<[t := <[Z.to_nat i := set_present false e]> es]> (tables s)) s in
  change ∅ 1 s t s' /\ leaf s' t [i] = None /\ (forall j, idx_ok 1 j -> j <> i -> leaf s' t [j] = leaf s t [j]) /\ forall π f, owned 1 s' t π f -> owned 1 s t π f /\ π <> [i].
Proof using.
  intros Hsp Hi Et Ee Hp s'. assert (Et' : tables s' !! t = Some (<[Z.to_nat i := set_present false e]> es)) by apply lookup_insert_eq.
  assert (Hsame : forall f, f ∈ busy s -> f <> t -> (forall π, ~ owned 1 s t (i :: π) f) -> same_at s s' f).
  { intros f _ Hf _. split; [simpl; now rewrite lookup_insert_ne by auto|reflexivity]. }
  split_and!.
  - apply (change_entry ∅ 0 s s' t i es (set_present false e) Hsp Et Hi Et'); auto; try easy.
  - cbn [leaf]. rewrite (ent_entry 0 s s' t i es _ Hsp Et Hi Et'). reflexivity.
  - intros j Hj Hne. apply (leaf_entry_other 0 s s' t i es _ Hsp Et Hi Et' Hsame); [split; easy|exact Hne].
  - intros [|j π] f; [easy|]. rewrite !owned_S, (ent_some s' t _ j Et'), (ent_some s t es j Et). intros (Hj & e1 & E1 & P1 & K1).
    rewrite (entry_get 0 s t i es _ Hsp Et Hi j (idx_512 _ _ Hj)) in E1. destruct (decide (i = j)) as [<-|]; [injection E1 as <-; discriminate|].
    split; [|congruence]. split; [exact Hj|]. exists e1. auto.
Qed.

Lemma unmap_ok s p4 va : space 4 s p4 -> paging_lock s = false -> user_va va -> wp (unmap_page_in p4 va) (unmap_result s p4 va) s.
Proof using.
  intros Hsp Hlk Hva. assert (Hc : core_eq s (locked s)) by (split_and!; reflexivity). pose proof (core_sym _ _ Hc) as Hcs. pose proof (core_space _ _ _ _ Hc Hsp) as HspL.
  unfold unmap_page_in. apply wp_bind, wp_irqsave; [exact Hlk|]. apply wp_bind. eapply wp_mono; [apply (walk_ok (locked s) p4 va true HspL Hva)|].
  intros w s1 [-> Hw]. rewrite !(core_leaf s (locked s) p4 _ Hc) in Hw. apply wp_bind.
  assert (Hie : forall (found : bool) (s2 : vm) (Q : Z -> vm -> Prop) (r : Z), intr s2 = false ->
    Q r (unlocked s (if found then set_flushed (flushed s2 ++ [va]) s2 else s2)) -> wp (spin_unlock paging_lock_f;; when found (tlb_flush_remote va);; when (intr s) StiHelper;; ret r) Q s2).
  { intros found s2 Q r Hi HQ. unfold spin_unlock, tlb_flush_remote, StiHelper. apply wp_bind, wp_modify. rewrite <- unlocked_ie in HQ by (destruct found; exact Hi).
    destruct found, (intr s); wp_steps; exact HQ. }
  destruct w as [p1|].
  - destruct Hw as (N1 & es & e & Et & Ee & Hp & Hl). pose proof (va_path_ok va Hva) as (_ & _ & _ & I1 & _).
    apply wp_bind. eapply wp_set_entry; [exact Et|exact Ee|]. apply wp_ret, Hie; [reflexivity|]. set (s2 := set_tables _ (locked s)). cbn iota.
    pose proof (node_space _ _ _ _ _ _ HspL N1) as Hsp1. destruct (clear_leaf_ok (locked s) p1 (PT_IDX va) es e Hsp1 I1 Et Ee Hp) as (C1 & L1 & L2 & O1). fold s2 in C1, L1, L2, O1.
    destruct (lift_path ∅ (locked s) s2 p1 1 _ C1 4 p4 HspL N1) as (LC & LN & _ & LL); [intros f Hf; now apply elem_of_empty in Hf|].
    set (s3 := unlocked s _). assert (Hc3 : core_eq s2 s3) by (split_and!; reflexivity). split; [|split; reflexivity]. rewrite Hl. split_and!; auto.
    + exact (core_change _ _ _ _ _ _ _ Hcs Hc3 LC).
    + rewrite (core_leaf s2 s3 p4 _ Hc3). change (va_path va) with ([PML4_IDX va; PDPT_IDX va; PD_IDX va] ++ [PT_IDX va]).
      now rewrite (node_leaf 4 s2 p4 _ p1 1 [PT_IDX va] LN ltac:(easy)).
    + intros σ Hσ Hne. rewrite (core_leaf s2 s3 p4 σ Hc3), <- (core_leaf s (locked s) p4 σ Hc).
      destruct (path_cases 4 σ Hσ [PML4_IDX va; PDPT_IDX va; PD_IDX va]) as [[ρ ->]|Hno]; [|now apply LL].
      pose proof (node_path _ _ _ _ _ _ _ N1 Hσ) as Hρ. assert (Hnr : ρ <> []) by now apply (path_ok_ne 1).
      rewrite (node_leaf 4 s2 p4 _ p1 1 ρ LN Hnr), (node_leaf 4 (locked s) p4 _ p1 1 ρ N1 Hnr). destruct ρ as [|j [|]]; [easy| |now destruct Hρ].
      apply L2; [apply Hρ|]. intros ->. apply Hne. reflexivity.
    + intros Hpc π Ho. apply (core_owned s2 s3 4 p4 π _ Hc3) in Ho. pose proof (va_path_ok va Hva) as Hpath.
      assert (Ho1 : owned 4 (locked s) p4 (va_path va) (entry_phys e)) by (apply leaf_owned; auto; now rewrite (core_leaf s (locked s) p4 _ Hc)).
      assert (Ho2 : owned 4 (locked s) p4 π (entry_phys e)).
      { apply (lift_shrink ∅ (locked s) s2 p1 1 [PML4_IDX va; PDPT_IDX va; PD_IDX va] C1 (λ π' f H, proj1 (O1 π' f H)) 4 p4 HspL N1); [|exact Ho]. intros f Hf. now apply elem_of_empty in Hf. }
      pose proof (sp_inj _ _ _ HspL _ _ _ Ho1 Ho2) as <-. destruct (owned_leaf 4 s2 p4 (va_path va) _ Hpath Ho) as (e1 & E1 & _).
      change (va_path va) with ([PML4_IDX va; PDPT_IDX va; PD_IDX va] ++ [PT_IDX va]) in E1. rewrite (node_leaf 4 s2 p4 _ p1 1 [PT_IDX va] LN ltac:(easy)) in E1. congruence.
  - apply wp_ret, Hie; [reflexivity|]. set (s3 := unlocked s _). split; [|split; reflexivity]. rewrite Hw. split; [reflexivity|]. split; [split_and!; reflexivity|reflexivity].
Qed.
End Entries.
