(* ===== verification/PageThms.v ===== *)
(** What the page-table code promises: fork's copy, freeing, mapping. *)

From S2P Require Import Prelude PageTable PageSpace PageFree PageMap.

Implicit Types (s : vm).

(** * Copies, address by address *)

Lemma mirror_leaf n s p s' c π : mirror n s p s' c -> path_ok n π ->
  match leaf s p π with
  | None => leaf s' c π = None
  | Some e => exists e', leaf s' c π = Some e' /\ if pcd e then e' = e else (exists a, e' = set_address a e) /\ frames s' !! entry_phys e' = frames s !! entry_phys e
  end.
Proof.
  revert p c π. induction n as [|m IH]; intros p c [|i ρ] Hm; try easy. intros [Hi Hρ]. apply mirror_S in Hm. destruct (Hm i Hi) as (e & e' & E & E' & He).
  cbn [leaf]. rewrite E, E'. cbn [mbind option_bind]. rewrite (mirror_entry_present _ _ _ _ _ He). unfold mirror_entry in He.
  destruct (present e) eqn:Hp; [|reflexivity]. destruct ρ as [|j ρ].
  - destruct m as [|m]; [|easy]. eauto.
  - destruct m as [|m]; [easy|]. destruct He as [_ He]. exact (IH _ _ (j :: ρ) He Hρ).
Qed.

Section Claims.
Context (request : gset Z -> Z) (Hreq : forall u, request u <> 0 -> is_page (request u) /\ (request u ∉ u)).

(** C19. Copying an address space for fork either fails, with every page it
    allocated freed and nothing else changed, or yields a root with the
    kernel's half and, at every user address, what the parent has there: a
    device page shared, any other page a private copy with the same
    permissions and bytes. The child's pages are all new, so a store into one
    of them changes no byte the parent sees; no page is leaked. *)
Theorem fork_copies_address_space pml4 s p : kernel_root pml4 s -> space 4 s p ->
  wp (clone_user_pml4 request pml4 p) (λ r s',
    match r with
    | inr c =>
        space 4 s' c /\ space 4 s' p /\ (forall j, 256 <= j < 512 -> ent s' c j = ent s pml4 j) /\
        (forall f, f ∈ busy s' <-> f ∈ busy s \/ exists π, owned 4 s' c π f) /\
        (forall va, user_va va ->
           match leaf s p (va_path va) with
           | None => leaf s' c (va_path va) = None
           | Some e => if pcd e then leaf s' c (va_path va) = Some e
                       else user_byte s' c va = user_byte s p va /\ exists a, leaf s' c (va_path va) = Some (set_address a e) end) /\
        (forall π f x va, owned 4 s' c π f -> user_va va -> (forall e, leaf s p (va_path va) = Some e -> pcd e = false) ->
           user_byte (set_frames (<[f := x]> (frames s')) s') p va = user_byte s p va)
    | inl r => r < 0 /\ space 4 s' p /\ (forall f, f ∈ busy s' <-> f ∈ busy s)
    end) s.
Proof using Hreq.
  intros Hk Hsp. eapply wp_mono; [apply (clone_user_ok request Hreq pml4 s p Hk Hsp)|]. intros [r|c] s' (H & Hsame & _).
  - destruct H as [Hr Hb]. split_and!; auto. apply (space_ext 4 s); [intros π f Ho; apply Hsame, (sp_live _ _ _ Hsp π f Ho)| |exact Hsp].
    intros π f Ho. apply Hb, (sp_live _ _ _ Hsp π f Ho).
  - destruct H as (Hc & Hm & Hker & Hfr & Hb). assert (Ha : agree 4 s s' p) by (intros π f Ho; apply Hsame, (sp_live _ _ _ Hsp π f Ho)). split_and!; auto.
    + apply (space_ext 4 s); auto. intros π f Ho. apply Hb. left. apply (sp_live _ _ _ Hsp π f Ho).
    + intros va Hva. pose proof (mirror_leaf 4 s p s' c _ Hm (va_path_ok va Hva)) as H. unfold user_byte.
      destruct (leaf s p (va_path va)) as [e|]; [|exact H]. destruct H as (e' & -> & H). destruct (pcd e); [now subst|]. destruct H as [[a ->] Hf].
      split; [cbn [mbind option_bind]; now rewrite Hf|eauto].
    + intros π f x va Ho Hva Hdev. apply user_byte_ext; auto. intros π' f' Ho'. destruct (Ha π' f' Ho') as [A1 A2]. split; [exact A1|]. simpl.
      rewrite lookup_insert_ne; [exact A2|]. intros ->. apply (Hfr π f' Ho), (sp_live _ _ _ Hsp π' f' Ho').
Qed.

(** C20. Tearing an address space down frees every page it owns, tables and
    data, exactly once (freeing a page that is not in use has no result here),
    frees no other page, and touches no page of another address space; pages of
    devices are left alone. *)
Theorem free_releases_exactly s p4 : space 4 s p4 ->
  wp (free_user_address_space p4;; free_cloned_pml4 p4) (λ _ s',
    (forall f, f ∈ busy s' <-> f ∈ busy s /\ forall π, ~ owned 4 s p4 π f) /\
    (forall q, space 4 s q -> (forall π π' f, owned 4 s q π f -> ~ owned 4 s p4 π' f) -> space 4 s' q /\ forall va, user_va va ->
       (forall e, leaf s q (va_path va) = Some e -> pcd e = false) -> user_byte s' q va = user_byte s q va)) s.
Proof.
  intros Hsp. apply wp_bind. eapply wp_mono; [apply (free_user_ok s p4 Hsp)|]. intros _ s1 [F1 F2 F3 _ F5].
  assert (Hp4 : p4 ∈ busy s1).
  { apply F1. split; [now apply (sp_live _ _ _ Hsp [])|]. intros (π & Hne & Ho). now apply Hne, (sp_inj _ _ _ Hsp π [] p4). }
  apply wp_free; [exact Hp4|]. set (s' := set_busy _ _).
  assert (Hb : forall f, f ∈ busy s' <-> f ∈ busy s /\ forall π, ~ owned 4 s p4 π f).
  { intros f. simpl. rewrite elem_of_difference, elem_of_singleton, F1. split.
    - intros [[H1 H2] H3]. split; [exact H1|]. intros [|i π] Ho; [now apply H3|]. apply H2. exists (i :: π). split; [easy|exact Ho].
    - intros [H1 H2]. split; [split; [exact H1|]; intros (π & _ & Ho); now apply (H2 π)|]. intros ->. now apply (H2 []). }
  split; [exact Hb|]. intros q Hq Hdis.
  assert (Ha : agree 4 s s' q).
  { intros π f Ho. destruct (F2 f) as [A1 A2]; [intros π' Ho'; exact (Hdis π π' f Ho Ho')|]. assert (p4 <> f) by (intros ->; exact (Hdis π [] f Ho eq_refl)).
    split; simpl; rewrite lookup_delete_ne by auto; auto. }
  split; [|intros va Hva Hdev; now apply (user_byte_ext s s' q va Hq Hva Ha)]. apply (space_ext 4 s); auto. intros π f Ho. apply Hb.
  split; [now apply (sp_live _ _ _ Hq π)|]. intros π'. now apply (Hdis π).
Qed.

(** C21. Mapping a page at an unmapped user address, looking it up, unmapping
    it and looking it up again: either there is no memory for a table and
    every lookup is as before, or the first lookup finds the page, the second
    finds nothing, and the page is no longer part of the space. Every other
    address keeps its entry throughout, the lock is released and interrupts
    are as they were, and the address is invalidated exactly when an entry
    was removed. *)
Theorem map_lookup_unmap s p4 va phy flags : space 4 s p4 -> paging_lock s = false -> user_va va -> is_page phy ->
  leaf s p4 (va_path va) = None -> adoptable 4 s p4 phy flags ->
  wp (let* r := map_page_to_virt_in request p4 va phy flags false in
      let* a := lookup_user_in_pml4 p4 va in
      let* u := unmap_page_in p4 va in
      let* b := lookup_user_in_pml4 p4 va in
      ret (r, a, u, b))
    (λ x s', ((x = (0, Some phy, 0, None) /\ flushed s' = flushed s ++ [va] /\ (has_flag flags CACHE_DIS_PAGE = false -> forall π, ~ owned 4 s' p4 π phy)) \/
              (x = (- ENOMEM, None, - ENOENT, None) /\ flushed s' = flushed s)) /\
       space 4 s' p4 /\ (forall π, path_ok 4 π -> leaf s' p4 π = leaf s p4 π) /\ paging_lock s' = false /\ intr s' = intr s) s.
Proof using Hreq.
  intros Hsp Hlk Hva Hpg Hlf Had. pose proof (va_path_ok va Hva) as Hpath. apply wp_bind.
  eapply wp_mono; [apply (map_page_ok request Hreq s p4 va phy flags); auto|]. intros r s1 ((R1 & R2 & R3) & _ & Hr).
  assert (H1 : space 4 s1 p4) by (destruct Hr as [(_ & C & _)|(_ & C & _)]; apply C).
  apply wp_bind. eapply wp_mono; [apply (lookup_ok s1 p4 va H1 Hva)|]. intros a s2 [-> ->].
  apply wp_bind. eapply wp_mono; [apply (unmap_ok s1 p4 va H1); [now rewrite R1|exact Hva]|]. intros u s3 (Hu & U1 & U2). unfold unmap_result in Hu.
  assert (Hpd : forall e, pcd (leaf_entry e phy flags) = has_flag flags CACHE_DIS_PAGE) by reflexivity.
  destruct Hr as [(-> & C & (e & He) & L)|(-> & C & L)].
  - rewrite He in Hu. destruct Hu as (-> & C3 & _ & L3 & L3' & Hno & Hfl). pose proof (ch_space _ _ _ _ _ C3) as H3.
    assert (Hph : entry_phys (leaf_entry e phy flags) = phy) by exact (entry_phys_set phy _ Hpg).
    apply wp_bind. eapply wp_mono; [apply (lookup_ok s3 p4 va H3 Hva)|]. intros b s4 [-> ->]. apply wp_ret. rewrite He, L3. simpl. rewrite Hph. split_and!; auto; [| |congruence].
    + left. split_and!; auto; [congruence|]. intros Hc. rewrite Hph in Hno. now apply Hno.
    + intros π Hπ. destruct (decide (π = va_path va)) as [->|Hne]; [congruence|]. rewrite L3', L by auto. reflexivity.
  - rewrite (L _ Hpath), Hlf in Hu |- *. destruct Hu as (-> & Hc & Hfl). pose proof (core_space _ _ _ _ Hc H1) as H3.
    apply wp_bind. eapply wp_mono; [apply (lookup_ok s3 p4 va H3 Hva)|]. intros b s4 [-> ->]. apply wp_ret. rewrite (core_leaf s1 s3 p4 _ Hc), (L _ Hpath), Hlf. split_and!; auto; [| |congruence].
    + right. split; [reflexivity|congruence].
    + intros π Hπ. rewrite (core_leaf s1 s3 p4 π Hc). now apply L.
Qed.
End Claims.

(** * A small machine *)
Module Demo.
(** Pages 1 to 64, taken from the top. *)
Fixpoint find_page (n : nat) (u : gset Z) : Z :=
  match n with O => 0 | S m => let p := 4096 * Z.of_nat n in if bool_decide (p ∈ u) then find_page m u else p end.
Definition request : gset Z -> Z := find_page 64.

Lemma find_page_ok n u : (n <= 64)%nat -> find_page n u <> 0 -> is_page (find_page n u) /\ (find_page n u ∉ u).
Proof.
  induction n as [|n IH]; intros Hn; cbn [find_page]; [easy|]. destruct (bool_decide_reflect (4096 * Z.of_nat (S n) ∈ u)) as [|Hu]; [apply IH; lia|].
  intros _. split; [|exact Hu]. split; [lia|]. rewrite Z.mul_comm. apply Z.mod_mul. lia.
Qed.

Lemma request_ok u : request u <> 0 -> is_page (request u) /\ (request u ∉ u).
Proof. apply find_page_ok. lia. Qed.

Definition kroot : Z := 4096 * 100.
Definition root : Z := 4096 * 101.
Definition page : Z := 4096 * 102.
Definition va : Z := 0x400000.
Definition empty : vm := Vm (<[kroot := zero_table]> (<[root := zero_table]> ∅)) (<[page := zero_page]> ∅) {[kroot; root; page]} false true [].
(** The address space with one page. *)
Definition one : vm := match map_page_to_virt_in request root va page RW_USER false empty with Some (_, s) => s | None => empty end.

Lemma kroot_busy : kroot ∈ busy empty.
Proof. unfold empty; cbn [busy]. rewrite !elem_of_union, !elem_of_singleton. auto. Qed.

Lemma root_busy : root ∈ busy empty.
Proof. unfold empty; cbn [busy]. rewrite !elem_of_union, !elem_of_singleton. auto. Qed.

Lemma page_busy : page ∈ busy empty.
Proof. unfold empty; cbn [busy]. rewrite !elem_of_union, !elem_of_singleton. auto. Qed.

Lemma root_zero : tables empty !! root = Some zero_table.
Proof. unfold empty; cbn [tables]. rewrite lookup_insert_ne by (unfold kroot, root; lia). apply lookup_insert_eq. Qed.

Lemma kroot_zero : tables empty !! kroot = Some zero_table.
Proof. unfold empty; cbn [tables]. apply lookup_insert_eq. Qed.

Lemma page_zero : frames empty !! page = Some zero_page.
Proof. unfold empty; cbn [frames]. apply lookup_insert_eq. Qed.

Lemma empty_zero : space 4 empty root /\ (forall π f, owned 4 empty root π f -> π = [] /\ f = root) /\ forall π, path_ok 4 π -> leaf empty root π = None.
Proof. apply zero_space; [easy|exact root_zero|exact root_busy]. Qed.

Lemma empty_space : space 4 empty root /\ forall π, path_ok 4 π -> leaf empty root π = None.
Proof. destruct empty_zero as (H1 & _ & H3). auto. Qed.

Lemma page_adoptable : adoptable 4 empty root page RW_USER.
Proof.
  intros _. split_and!; [exact page_busy|exists zero_page; split; [exact page_zero|apply length_replicate]|]. intros π Ho.
  destruct (proj1 (proj2 empty_zero) π page Ho) as [_ E]. revert E. unfold page, root. lia.
Qed.

Lemma page_ok : is_page page.
Proof. split; [unfold page; lia|reflexivity]. Qed.

Lemma va_ok : user_va va.
Proof. unfold user_va, va. lia. Qed.

Lemma one_space : space 4 one root /\ kernel_root kroot one.
Proof.
  pose proof (map_page_ok request request_ok empty root va page RW_USER (proj1 empty_space) eq_refl va_ok page_ok (proj2 empty_space _ (va_path_ok va va_ok)) page_adoptable) as H.
  unfold wp in H. unfold one. destruct (map_page_to_virt_in _ _ _ _ _ _ empty) as [[r s]|]; [|easy]. destruct H as (_ & _ & H).
  assert (Hch : exists X, change X 4 empty root s) by (destruct H as [(_ & C & _)|(_ & C & _)]; eauto). destruct Hch as (X & [C1 C2 C3 _ _ _]). split; [exact C1|].
  split; [exact (C2 _ kroot_busy)|]. exists zero_table. rewrite (proj1 (C3 kroot kroot_busy ltac:(intros π Ho; destruct (proj1 (proj2 empty_zero) π kroot Ho) as [_ E]; revert E; unfold kroot, root; lia))).
  split; [exact kroot_zero|apply zero_table_length].
Qed.
End Demo.

Lemma fork_copies_address_space_witness :
  Demo.one <> Demo.empty /\ exists r s', clone_user_pml4 Demo.request Demo.kroot Demo.root Demo.one = Some (r, s').
Proof.
  split; [intros E; apply (f_equal (λ s, size (tables s))) in E; vm_compute in E; discriminate|].
  pose proof (fork_copies_address_space Demo.request Demo.request_ok Demo.kroot Demo.one Demo.root (proj2 Demo.one_space) (proj1 Demo.one_space)) as H.
  destruct (proj1 (wp_run _ _ _) H) as (r & s' & E & _). exists r, s'. exact E.
Defined.

Lemma free_releases_exactly_witness : exists s', (free_user_address_space Demo.root;; free_cloned_pml4 Demo.root) Demo.one = Some (tt, s') /\
  forall f, f ∈ busy s' <-> f ∈ busy Demo.one /\ forall π, ~ owned 4 Demo.one Demo.root π f.
Proof.
  pose proof (free_releases_exactly Demo.one Demo.root (proj1 Demo.one_space)) as H. destruct (proj1 (wp_run _ _ _) H) as ([] & s' & E & H' & _). exists s'. split; [exact E|exact H'].
Defined.

Lemma map_lookup_unmap_witness : exists x s',
  (let* r := map_page_to_virt_in Demo.request Demo.root Demo.va Demo.page RW_USER false in
   let* a := lookup_user_in_pml4 Demo.root Demo.va in
   let* u := unmap_page_in Demo.root Demo.va in
   let* b := lookup_user_in_pml4 Demo.root Demo.va in
   ret (r, a, u, b)) Demo.empty = Some (x, s') /\ space 4 s' Demo.root.
Proof.
  pose proof (map_lookup_unmap Demo.request Demo.request_ok Demo.empty Demo.root Demo.va Demo.page RW_USER (proj1 Demo.empty_space) eq_refl Demo.va_ok Demo.page_ok
    (proj2 Demo.empty_space _ (va_path_ok Demo.va Demo.va_ok)) Demo.page_adoptable) as H.
  destruct (proj1 (wp_run _ _ _) H) as (x & s' & E & _ & H' & _). exists x, s'. split; [exact E|exact H'].
Defined.

(** On this machine: the lookup finds the page, and a clone fits in memory. *)
Example map_demo :
  (r ← (let* _ := map_page_to_virt_in Demo.request Demo.root Demo.va Demo.page RW_USER false in lookup_user_in_pml4 Demo.root Demo.va) Demo.empty; Some r.1) = Some (Some Demo.page).
Proof. vm_compute. reflexivity. Qed.

Example clone_demo : (r ← clone_user_pml4 Demo.request Demo.kroot Demo.root Demo.one; Some (match r.1 with inl _ => true | inr _ => false end, size (busy r.2))) = Some (false, 11%nat).
Proof. vm_compute. reflexivity. Qed.

(** * Where the code falls short *)

(** munmap returns a device page to the allocator. *)
Example munmap_frees_device_page :
  (let* r := MmapFileHandler Demo.request (λ _, Some 0xFD000000) Demo.root 0 4096 in
   let* _ := MunmapHandler Demo.root r.1 4096 in ret r.1) Demo.empty = None.
Proof. vm_compute. reflexivity. Qed.

(** A size that wraps to zero when rounded up is granted, with nothing mapped. *)
Example mmap_of_everything :
  (r ← MmapHandler Demo.request Demo.root 0 (2 ^ 64 - 1) Demo.empty; Some (r.1, bool_decide (busy r.2 = busy Demo.empty))) = Some ((USER_MMAP_BASE, USER_MMAP_BASE), true).
Proof. vm_compute. reflexivity. Qed.

(** Out of memory, [AddKernelPages] does not return NULL. *)
Example add_kernel_pages_no_memory : (r ← AddKernelPages Demo.request Demo.kroot 0 0 Demo.empty; Some r.1) = Some KERNEL_VIRTUAL.
Proof. vm_compute. reflexivity. Qed.

(** A large kernel mapping that was removed is never installed again. *)
Example large_page_not_restored :
  let v := 0xFFFFFFFF90000000 in let p := 0x10000000 in
  let add := map_page_to_virt Demo.request Demo.kroot v p RW_KERNEL true in
  let here := let* e4 := entry Demo.kroot (PML4_IDX v) in let* e3 := entry (entry_phys e4) (PDPT_IDX v) in let* e2 := entry (entry_phys e3) (PD_IDX v) in ret (present e2) in
  (r ← (let* _ := add in let* a := here in RemovePage Demo.kroot v true;; let* _ := add in let* b := here in ret (a, b)) Demo.empty; Some r.1) = Some (true, false).
Proof. vm_compute. reflexivity. Qed.
