(* ===== verification/Elf.v ===== *)
(** The program loader (src/loader/elf64.c): mapping the segments of a file,
    relative relocations, and the initial stack with the argument and
    environment strings.

    Kernel code reaches a user page through its alias at KERNEL_VIRTUAL plus
    the physical address; such a pointer is given here by its physical address,
    and NULL by [None]. The file is reached through the operations [vfs_read]
    and [vfs_seek] of an interface. *)

From S2P Require Import Prelude Bytes PageTable.

(** * Data *)

Record Elf64_Ehdr := Ehdr {
  e_ident : list Z; e_type : Z; e_machine : Z; e_entry : Z; e_phoff : Z; e_phentsize : Z; e_phnum : Z }.
Record Elf64_Phdr := Phdr {
  p_type : Z; p_flags : Z; p_offset : Z; p_vaddr : Z; p_filesz : Z; p_memsz : Z }.
Record elf64_image_t := Image { img_entry : Z; img_base : Z; brk : Z; stack_top : Z; cr3_phys : Z }.

Definition USER_STACK_TOP_VA : Z := 0x00007FFFF0000000.
Definition USER_STACK_PAGES : Z := 4.
Definition USER_VIRTUAL : Z := 0x40000000.
Definition ELF_ARGS_MAX_ENTRIES : Z := 256.
Definition ELF_ARGS_BLOB_MAX : Z := 4096.
Definition E2BIG : Z := 7.
Definition PF_X : Z := 1.
Definition PF_W : Z := 2.
Definition PT_LOAD : Z := 1.
Definition PT_DYNAMIC : Z := 2.
Definition ET_EXEC : Z := 2.
Definition ET_DYN : Z := 3.
Definition EM_X86_64 : Z := 62.
Definition DT_NULL : Z := 0.
Definition DT_RELA : Z := 7.
Definition DT_RELASZ : Z := 8.
Definition DT_RELAENT : Z := 9.
Definition R_X86_64_RELATIVE : Z := 8.
Definition SIZEOF_EHDR : Z := 64.
Definition SIZEOF_PHDR : Z := 56.
Definition SIZEOF_DYN : Z := 16.
Definition SIZEOF_RELA : Z := 24.

(** The field of [n] bytes at offset [o] of a structure. *)
Definition le_field (o n : nat) (l : list Z) : Z := le_decode (take n (drop o l)).
Definition parse_ehdr (l : list Z) : Elf64_Ehdr :=
  Ehdr (take 16 l) (le_field 16 2 l) (le_field 18 2 l) (le_field 24 8 l) (le_field 32 8 l) (le_field 54 2 l) (le_field 56 2 l).
Definition parse_phdr (l : list Z) : Elf64_Phdr :=
  Phdr (le_field 0 4 l) (le_field 4 4 l) (le_field 8 8 l) (le_field 16 8 l) (le_field 32 8 l) (le_field 40 8 l).
Fixpoint parse_phdrs (n : nat) (l : list Z) : list Elf64_Phdr :=
  match n with O => [] | S n => parse_phdr (take 56 l) :: parse_phdrs n (drop 56 l) end.

(** * Physical memory, byte by byte *)

Definition page_of (a : Z) : Z := a - a mod 4096.
Definition byte_at (s : vm) (a : Z) : option Z := c ← frames s !! page_of a; arr_get c (a mod 4096).
Definition store_byte (a b : Z) : M vm unit :=
  let* s := get in
  let* c := of_option (frames s !! page_of a) in
  let* c' := of_option (arr_set c (a mod 4096) b) in
  modify (set_frames (<[page_of a := c']> (frames s))).
(** [memcpy] into the alias of [a], and a structure read from it; both go on
    into the next physical page. *)
Fixpoint memcpy_to (a : Z) (l : list Z) : M vm unit :=
  match l with [] => ret tt | b :: l => store_byte a b;; memcpy_to (a + 1) l end.
Fixpoint read_phys (a : Z) (n : nat) : M vm (list Z) :=
  match n with
  | O => ret []
  | S n => let* s := get in let* b := of_option (byte_at s a) in let* l := read_phys (a + 1) n in ret (b :: l)
  end.

(** * The file *)

(** What the loader uses of an open file: [vfs_read] gives an error or the
    bytes read, [vfs_seek] (from the start) a result. *)
Class ElfFile (F : Type) := {
  vfs_read : F -> Z -> (Z + list Z) * F;
  vfs_seek : F -> Z -> Z * F }.

Section Loader.
Context (request : gset Z -> Z) (pml4 : Z) (kmalloc : Z -> Z) {F : Type} `{ElfFile F}.

Definition flags_for_phdr (flags : Z) : Z :=
  let f := Z.lor PRESENT_PAGE USER_PAGE in
  let f := if has_flag flags PF_W then Z.lor f RW_PAGE else f in
  if has_flag flags PF_X then f else Z.lor f NX_PAGE.

Definition alloc_and_map_user_page (cr3 va flags : Z) : M vm Z :=
  let* phys := RequestBuddy request in
  if phys =? 0 then ret (- ENOMEM) else
  memset_page phys;;
  let* r := map_page_to_virt_in request cr3 va phys flags false in
  if r <? 0 then FreeBuddy phys;; ret r else ret 0.

Definition user_va_to_kvirt (cr3 user_va : Z) : M vm (option Z) :=
  let* r := lookup_user_in_pml4 cr3 (Z.land user_va (wrap64 (Z.lnot 0xFFF))) in
  match r with None => ret None | Some phys => ret (Some (phys + Z.land user_va 0xFFF)) end.

Definition write_user_step (cr3 : Z) (v : Z * list Z) : M vm (Z * list Z + Z) :=
  let '(dst, src) := v in
  let len := Z.of_nat (length src) in
  if negb (0 <? len) then ret (inr 0) else
  let page_off := Z.land dst 0xFFF in
  let chunk := PAGE_SIZE - page_off in
  let chunk := if len <? chunk then len else chunk in
  let* kdst := user_va_to_kvirt cr3 dst in
  match kdst with
  | None => ret (inr (- EINVAL))
  | Some kdst =>
      memcpy_to kdst (take (Z.to_nat chunk) src);;
      ret (inl (wrap64 (dst + chunk), drop (Z.to_nat chunk) src))
  end.
Definition write_user (cr3 dst : Z) (src : list Z) : M vm Z := loop (S (length src)) (write_user_step cr3) (dst, src).

(** * Segments *)

(** Maps fresh pages from [va] up to [va_end]. *)
Definition map_range_step (cr3 flags va_end va : Z) : M vm (Z + Z) :=
  if va <? va_end then
    let* r := alloc_and_map_user_page cr3 va flags in
    if r <? 0 then ret (inr r) else ret (inl (wrap64 (va + PAGE_SIZE)))
  else ret (inr 0).
Definition map_range (cr3 flags va va_end : Z) : M vm Z := loop (Z.to_nat ((va_end - va) / PAGE_SIZE + 2)) (map_range_step cr3 flags va_end) va.

(** One turn of the copy loop: the locals are the file, [dst] and [remaining]. *)
Definition load_step (cr3 : Z) (v : F * Z * Z) : M vm (F * Z * Z + Z * F) :=
  let '(f, dst, remaining) := v in
  if negb (0 <? remaining) then ret (inr (0, f)) else
  let chunk := if PAGE_SIZE <? remaining then PAGE_SIZE else remaining in
  let '(n, f) := vfs_read f chunk in
  match n with
  | inl _ => ret (inr (- EIO, f))
  | inr bytes =>
      let n := Z.of_nat (length bytes) in
      if n <=? 0 then ret (inr (- EIO, f)) else
      let* w := write_user cr3 dst bytes in
      if w <? 0 then ret (inr (w, f)) else ret (inl (f, wrap64 (dst + n), wrap64 (remaining - n)))
  end.

(** The result with the new [out->brk] and the file. *)
Definition map_pt_load (cr3 : Z) (f : F) (ph : Elf64_Phdr) (bias brk : Z) : M vm (Z * Z * F) :=
  let mask := wrap64 (Z.lnot 0xFFF) in
  let va_start := Z.land (wrap64 (p_vaddr ph + bias)) mask in
  let va_end_unaligned := wrap64 (p_vaddr ph + bias + p_memsz ph) in
  let va_end := Z.land (wrap64 (va_end_unaligned + 0xFFF)) mask in
  if 0xFFFF800000000000 <=? va_end_unaligned then ret (- EINVAL, brk, f) else
  if va_start <? 0x1000 then ret (- EINVAL, brk, f) else
  let* r := map_range cr3 (flags_for_phdr (p_flags ph)) va_start va_end in
  if r <? 0 then ret (r, brk, f) else
  let finish := λ f, ret (0, if brk <? va_end then va_end else brk, f) in
  if 0 <? p_filesz ph then
    let '(r, f) := vfs_seek f (to_s64 (p_offset ph)) in
    if r <? 0 then ret (- EIO, brk, f) else
    let* r := loop (S (Z.to_nat (p_filesz ph))) (load_step cr3) (f, wrap64 (p_vaddr ph + bias), p_filesz ph) in
    let '(r, f) := r in
    if r <? 0 then ret (r, brk, f) else finish f
  else finish f.

(** * Relative relocations *)

(** Walks the dynamic section; the locals are the offset and the three values
    found so far. The section ends at DT_NULL or at an unmapped page; [fuel]
    bounds the walk. *)
Definition dyn_step (cr3 dyn_va : Z) (v : Z * (Z * Z * Z)) : M vm (Z * (Z * Z * Z) + option (Z * Z * Z)) :=
  let '(off, (rela_va, relasz, relaent)) := v in
  let* dp := user_va_to_kvirt cr3 (wrap64 (dyn_va + off)) in
  match dp with
  | None => ret (inr None)
  | Some dp =>
      let* d := read_phys dp 16 in
      let d_tag := to_s64 (le_field 0 8 d) in let d_val := le_field 8 8 d in
      if d_tag =? DT_NULL then ret (inr (Some (rela_va, relasz, relaent))) else
      let found := if d_tag =? DT_RELA then (d_val, relasz, relaent) else
                   if d_tag =? DT_RELASZ then (rela_va, d_val, relaent) else
                   if d_tag =? DT_RELAENT then (rela_va, relasz, d_val) else (rela_va, relasz, relaent) in
      ret (inl (wrap64 (off + SIZEOF_DYN), found))
  end.

Definition rela_step (cr3 bias rela_va relaent count i : Z) : M vm (Z + Z) :=
  if negb (i <? count) then ret (inr 0) else
  let* rp := user_va_to_kvirt cr3 (wrap64 (rela_va + bias + i * relaent)) in
  match rp with
  | None => ret (inr (- EINVAL))
  | Some rp =>
      let* rel := read_phys rp 24 in
      if negb (Z.land (le_field 8 8 rel) 0xFFFFFFFF =? R_X86_64_RELATIVE) then ret (inr (- ENOTSUP)) else
      let* tgt := user_va_to_kvirt cr3 (wrap64 (le_field 0 8 rel + bias)) in
      match tgt with
      | None => ret (inr (- EINVAL))
      | Some tgt => memcpy_to tgt (le_encode 8 (wrap64 (bias + le_field 16 8 rel)));; ret (inl (i + 1))
      end
  end.

Definition apply_pie_relocations (fuel : nat) (cr3 : Z) (phs : list Elf64_Phdr) (bias : Z) : M vm Z :=
  match List.find (λ ph, p_type ph =? PT_DYNAMIC) phs with
  | None => ret 0
  | Some dyn_ph =>
      let* r := loop fuel (dyn_step cr3 (wrap64 (p_vaddr dyn_ph + bias))) (0, (0, 0, SIZEOF_RELA)) in
      match r with
      | None => ret (- EINVAL)
      | Some (rela_va, relasz, relaent) =>
          if (rela_va =? 0) || (relasz =? 0) then ret 0 else
          if negb (relaent =? SIZEOF_RELA) then ret (- EINVAL) else
          loop fuel (rela_step cr3 bias rela_va relaent (relasz / relaent)) 0
      end
  end.

(** * The initial stack *)

Definition cstrlen (s : list Z) : Z := Z.of_nat (length s).

(** Counts the entries of an array of strings and adds up their sizes, each
    with its NUL. *)
Fixpoint count_strings (l : list (list Z)) (n bytes : Z) : Z + Z * Z :=
  match l with
  | [] => inr (n, bytes)
  | a :: l => if ELF_ARGS_MAX_ENTRIES <=? n then inl (- E2BIG) else count_strings l (n + 1) (wrap64 (bytes + cstrlen a + 1))
  end.

(** [qbuf[qi++] = strings_va + soff; soff += cstrlen(argv[i]) + 1;] *)
Fixpoint pointers (strings_va soff : Z) (l : list (list Z)) : list Z * Z :=
  match l with
  | [] => ([], soff)
  | a :: l => let '(ps, soff') := pointers strings_va (wrap64 (soff + cstrlen a + 1)) l in (wrap64 (strings_va + soff) :: ps, soff')
  end.

(** Copies the strings one after the other; an error or the next offset. *)
Fixpoint write_strings (cr3 strings_va off : Z) (l : list (list Z)) : M vm (Z + Z) :=
  match l with
  | [] => ret (inr off)
  | a :: l =>
      let* r := write_user cr3 (wrap64 (strings_va + off)) (a ++ [0]) in
      if r <? 0 then ret (inl r) else write_strings cr3 strings_va (wrap64 (off + (cstrlen a + 1))) l
  end.

(** An error or the new [out->stack_top]; an array that is NULL is [None]. *)
Definition setup_user_stack (cr3 : Z) (argv envp : option (list (list Z))) : M vm (Z + Z) :=
  let top := USER_STACK_TOP_VA in
  let base := top - USER_STACK_PAGES * PAGE_SIZE in
  let* r := map_range cr3 (Z.lor (Z.lor (Z.lor PRESENT_PAGE RW_PAGE) USER_PAGE) NX_PAGE) base top in
  if r <? 0 then ret (inl r) else
  let argv := default [] argv in let envp := default [] envp in
  match count_strings argv 0 0 with inl r => ret (inl r) | inr (argc, strings_bytes) =>
  match count_strings envp 0 strings_bytes with inl r => ret (inl r) | inr (envc, strings_bytes) =>
  if ELF_ARGS_BLOB_MAX <? strings_bytes then ret (inl (- E2BIG)) else
  let ptrs_qwords := 1 + (argc + 1) + (envc + 1) + 2 in
  let ptrs_bytes := ptrs_qwords * 8 in
  let argc_va := Z.land (wrap64 (top - strings_bytes - ptrs_bytes)) (wrap64 (Z.lnot 0xF)) in
  let strings_va := wrap64 (argc_va + ptrs_bytes) in
  if argc_va <? base then ret (inl (- E2BIG)) else
  if kmalloc ptrs_bytes =? 0 then ret (inl (- ENOMEM)) else
  let '(argps, soff) := pointers strings_va 0 argv in
  let '(envps, _) := pointers strings_va soff envp in
  let qbuf := [argc] ++ argps ++ [0] ++ envps ++ [0; 0; 0] in
  let* r := write_user cr3 argc_va (words_bytes qbuf) in
  if r <? 0 then ret (inl r) else
  let* r := write_strings cr3 strings_va 0 argv in
  match r with inl r => ret (inl r) | inr off =>
  let* r := write_strings cr3 strings_va off envp in
  match r with inl r => ret (inl r) | inr _ => ret (inr argc_va) end end end end.

(** * Loading a program *)

(** The checks on the header. *)
Definition ehdr_ok (eh : Elf64_Ehdr) : bool :=
  bool_decide (take 6 (e_ident eh) = [0x7F; 69; 76; 70; 2; 1]) && (e_machine eh =? EM_X86_64) &&
  ((e_type eh =? ET_EXEC) || (e_type eh =? ET_DYN)) && (e_phentsize eh =? SIZEOF_PHDR) &&
  negb (e_phnum eh =? 0) && negb (64 <? e_phnum eh).

(** The loop over the program headers: the result with [out->brk] and the file. *)
Fixpoint load_segments (cr3 bias : Z) (f : F) (brk : Z) (phs : list Elf64_Phdr) : M vm (Z * Z * F) :=
  match phs with
  | [] => ret (0, brk, f)
  | ph :: phs =>
      if negb (p_type ph =? PT_LOAD) then load_segments cr3 bias f brk phs else
      let* r := map_pt_load cr3 f ph bias brk in
      let '(r, brk, f) := r in
      if r <? 0 then ret (r, brk, f) else load_segments cr3 bias f brk phs
  end.

(** The body between the new root and the end: an error or [out]. *)
Definition load_image (fuel : nat) (eh : Elf64_Ehdr) (phs : list Elf64_Phdr) (argv envp : option (list (list Z))) (f : F) (cr3 : Z) : M vm (Z + elf64_image_t) :=
  let bias := if e_type eh =? ET_EXEC then 0 else USER_VIRTUAL in
  let* r := load_segments cr3 bias f 0 phs in
  let '(r, brk, f) := r in
  if r <? 0 then ret (inl r) else
  let* r := apply_pie_relocations fuel cr3 phs bias in
  if r <? 0 then ret (inl r) else
  let* r := setup_user_stack cr3 argv envp in
  match r with
  | inl r => ret (inl r)
  | inr sp => ret (inr (Image (wrap64 (e_entry eh + bias)) bias brk sp cr3))
  end.

(** [load_elf64_argv] on a file that was opened. The kernel heap and the file
    handle are given back on every path and are not part of the state. *)
Definition load_elf64_argv (fuel : nat) (f : F) (argv envp : option (list (list Z))) : M vm (Z + elf64_image_t) :=
  let '(h, f) := vfs_read f SIZEOF_EHDR in
  match h with inl _ => ret (inl (- EIO)) | inr hb =>
  if negb (Z.of_nat (length hb) =? SIZEOF_EHDR) then ret (inl (- EIO)) else
  let eh := parse_ehdr hb in
  if negb (ehdr_ok eh) then ret (inl (- EINVAL)) else
  let ph_bytes := e_phnum eh * SIZEOF_PHDR in
  if kmalloc ph_bytes =? 0 then ret (inl (- ENOMEM)) else
  let '(r, f) := vfs_seek f (to_s64 (e_phoff eh)) in
  if r <? 0 then ret (inl (- EIO)) else
  let '(p, f) := vfs_read f ph_bytes in
  match p with inl _ => ret (inl (- EIO)) | inr pb =>
  if negb (Z.of_nat (length pb) =? ph_bytes) then ret (inl (- EIO)) else
  let* scratch := RequestBuddy request in
  if scratch =? 0 then ret (inl (- ENOMEM)) else
  let* cr3 := clone_kernel_pml4 request pml4 in
  if cr3 =? 0 then FreeBuddy scratch;; ret (inl (- ENOMEM)) else
  let* r := load_image fuel eh (parse_phdrs (Z.to_nat (e_phnum eh)) pb) argv envp f cr3 in
  match r with
  | inr img => FreeBuddy scratch;; ret (inr img)
  | inl r => free_user_address_space cr3;; free_cloned_pml4 cr3;; FreeBuddy scratch;; ret (inl r)
  end end end.
End Loader.
