(* ===== verification/ElfMem.v ===== *)
(** Reading and writing user memory through the page tables, byte by byte. *)

From S2P Require Import Prelude Bytes PageTable PageSpace PageFree PageMap Elf.

Implicit Types (s : vm).

(** * Page arithmetic *)

Lemma mask_down k x : 0 <= k <= 64 -> 0 <= x < 2 ^ 64 -> Z.land x (wrap64 (Z.lnot (Z.ones k))) = x - x mod 2 ^ k.
Proof.
  intros Hk Hx. assert (E : Z.land x (wrap64 (Z.lnot (Z.ones k))) = Z.ldiff x (Z.ones k)).
  { unfold wrap. rewrite <- Z.land_ones by lia. apply Z.bits_inj'. intros n Hn. rewrite !Z.land_spec, Z.ldiff_spec, Z.lnot_spec by lia.
    destruct (Z.testbit x n) eqn:Et; [|reflexivity]. rewrite (Z.ones_spec_low 64) by (split; [lia|]; destruct (Z.lt_ge_cases n 64); [lia|];
      rewrite (Z.bits_above_log2 x n) in Et; [easy|lia|]; destruct (Z.eq_dec x 0) as [->|]; [now rewrite Z.bits_0 in Et|]; apply Z.lt_le_trans with 64; [apply Z.log2_lt_pow2; lia|lia]).
    now rewrite andb_true_r. }
  rewrite E, Z.ldiff_ones_r, Z.shiftr_div_pow2, Z.shiftl_mul_pow2 by lia. pose proof (Z.div_mod x (2 ^ k) ltac:(lia)). lia.
Qed.

Lemma land_4095 x : Z.land x 0xFFF = x mod 4096.
Proof. change 0xFFF with (Z.ones 12). now rewrite Z.land_ones by lia. Qed.

Lemma page_down x : 0 <= x < 2 ^ 64 -> Z.land x (wrap64 (Z.lnot 0xFFF)) = page_of x.
Proof. apply (mask_down 12). lia. Qed.

Lemma page_of_eq a p : p mod 4096 = 0 -> p <= a < p + 4096 -> page_of a = p.
Proof. unfold page_of. intros Hp Ha. pose proof (Z.div_mod p 4096 ltac:(lia)). pose proof (Z.div_mod a 4096 ltac:(lia)). pose proof (Z.mod_pos_bound a 4096 ltac:(lia)). nia. Qed.

Lemma page_of_add p o : p mod 4096 = 0 -> 0 <= o < 4096 -> page_of (p + o) = p.
Proof. intros. apply page_of_eq; lia. Qed.

Lemma mod_add p o : p mod 4096 = 0 -> 0 <= o < 4096 -> (p + o) mod 4096 = o.
Proof. intros Hp Ho. pose proof (page_of_add p o Hp Ho). unfold page_of in *. lia. Qed.

Lemma entry_phys_mod e : entry_phys e mod 4096 = 0.
Proof. unfold entry_phys. rewrite Z.shiftl_mul_pow2 by lia. apply Z.mod_mul. lia. Qed.

(** The indices only depend on the page. *)
Lemma idx_page_of va k : 12 <= k -> Z.shiftr (page_of va) k = Z.shiftr va k.
Proof.
  intros Hk. unfold page_of. rewrite !Z.shiftr_div_pow2 by lia. replace (2 ^ k) with (2 ^ 12 * 2 ^ (k - 12)) by (rewrite <- Z.pow_add_r by lia; f_equal; lia).
  rewrite <- !Z.div_div by lia. f_equal. change (2 ^ 12) with 4096. replace (va - va mod 4096) with (va / 4096 * 4096) by (pose proof (Z.div_mod va 4096 ltac:(lia)); lia).
  now rewrite Z.div_mul by lia.
Qed.

Lemma va_path_page_of va : va_path (page_of va) = va_path va.
Proof. unfold va_path, PML4_IDX, PDPT_IDX, PD_IDX, PT_IDX. now rewrite !idx_page_of by lia. Qed.

Lemma va_path_same va va' : user_va va -> user_va va' -> va_path va = va_path va' <-> page_of va = page_of va'.
Proof.
  intros H H'. split; intros E.
  - pose proof (va_path_page va va' H H' E). unfold page_of. pose proof (Z.div_mod va 4096 ltac:(lia)). pose proof (Z.div_mod va' 4096 ltac:(lia)). lia.
  - now rewrite <- (va_path_page_of va), E, va_path_page_of.
Qed.

Lemma user_byte_at s p va : user_byte s p va = e ← leaf s p (va_path va); byte_at s (entry_phys e + va mod 4096).
Proof.
  unfold user_byte. destruct (leaf s p (va_path va)) as [e|]; [|reflexivity]. cbn [mbind option_bind]. unfold byte_at.
  pose proof (Z.mod_pos_bound va 4096 ltac:(lia)). now rewrite page_of_add, mod_add by (auto using entry_phys_mod).
Qed.

(** * Writes to data pages *)

Record data_only s s' : Prop := {
  do_tables : tables s' = tables s;
  do_busy : busy s' = busy s;
  do_rest : rest_same s s';
  do_frames : forall p, length <$> frames s' !! p = length <$> frames s !! p }.

Lemma data_refl s : data_only s s.
Proof. split; [| |split_and!|]; reflexivity. Qed.

Lemma data_trans s s1 s2 : data_only s s1 -> data_only s1 s2 -> data_only s s2.
Proof.
  intros [A1 A2 (A3 & A4 & A5) A6] [B1 B2 (B3 & B4 & B5) B6].
  split; [congruence|congruence|split_and!; congruence|]. intros p. now rewrite B6.
Qed.

Section Data.
Context (s s' : vm) (Hd : data_only s s').

Lemma data_ent t i : ent s' t i = ent s t i.
Proof using Hd. unfold ent. now rewrite (do_tables _ _ Hd). Qed.

Lemma data_leaf t π : leaf s' t π = leaf s t π.
Proof using Hd.
  revert t. induction π as [|i ρ IH]; intros t; [reflexivity|]. cbn [leaf]. rewrite data_ent. destruct (ent s t i) as [e|]; [|reflexivity]. cbn.
  destruct (present e); [|reflexivity]. destruct ρ; [reflexivity|apply IH].
Qed.

Lemma data_owned n t π f : owned n s' t π f <-> owned n s t π f.
Proof using Hd.
  revert t π. induction n as [|m IH]; intros t [|i π]; try reflexivity. rewrite !owned_S, data_ent.
  assert (Hk : forall e, kid m s' e π f <-> kid m s e π f) by (intros e; destruct m; [reflexivity|apply IH]). setoid_rewrite Hk. reflexivity.
Qed.

Lemma data_frame p c : frames s !! p = Some c -> exists c', frames s' !! p = Some c' /\ length c' = length c.
Proof using Hd. intros E. pose proof (do_frames _ _ Hd p) as H. rewrite E in H. destruct (frames s' !! p) as [c'|]; [|easy]. injection H as H. eauto. Qed.

Lemma data_tree n t : tree_ok n s t -> tree_ok n s' t.
Proof using Hd.
  revert t. induction n as [|m IH]; intros t; [easy|]. rewrite !tree_S. intros (es & Et & Hl & Hps & Hk). exists es. rewrite (do_tables _ _ Hd). split_and!; auto.
  intros i e Hi Ee Hp. specialize (Hk i e Hi Ee Hp). destruct m as [|m]; simpl in *.
  - intros Hpc. destruct (Hk Hpc) as (c & Ec & Hc). destruct (data_frame _ _ Ec) as (c' & E' & H'). exists c'. split; [exact E'|congruence].
  - destruct Hk as [Hs Hk]. split; [exact Hs|]. now apply IH.
Qed.

Lemma data_space n t : space n s t -> space n s' t.
Proof using Hd.
  intros [H1 H2 H3]. split; [now apply data_tree| |].
  - intros π π' f. rewrite !data_owned. apply H2.
  - intros π f. rewrite data_owned, (do_busy _ _ Hd). apply H3.
Qed.
End Data.

(** The pages [a, a + len) lies in. *)
Definition touches (a : Z) (len : nat) (p : Z) : Prop := exists x, a <= x < a + Z.of_nat len /\ page_of x = p.

Lemma store_byte_ok a b s : is_Some (byte_at s a) ->
  wp (store_byte a b) (λ _ s', data_only s s' /\ (forall x, byte_at s' x = if decide (x = a) then Some b else byte_at s x) /\
    forall p, p <> page_of a -> frames s' !! p = frames s !! p) s.
Proof.
  unfold byte_at. intros [y Hy]. destruct (frames s !! page_of a) as [c|] eqn:Ec; [|easy]. cbn in Hy. pose proof (arr_get_Some_lt _ _ _ Hy) as Hlt.
  unfold store_byte. apply wp_bind, wp_get. apply wp_bind. rewrite (wp_of_option _ c) by exact Ec. apply wp_bind. rewrite (wp_of_option _ _ _ _ (arr_set_lt c (a mod 4096) b Hlt)).
  apply wp_modify. split_and!.
  - split; [reflexivity|reflexivity|split_and!; reflexivity|]. intros p. simpl. destruct (decide (page_of a = p)) as [<-|Hne].
    + rewrite lookup_insert_eq, Ec. simpl. now rewrite length_insert.
    + now rewrite lookup_insert_ne by auto.
  - intros x. cbn [frames set_frames]. destruct (decide (x = a)) as [->|Hne]; [rewrite lookup_insert_eq; cbn; rewrite arr_get_insert by auto; now rewrite decide_True|].
    destruct (decide (page_of a = page_of x)) as [E|E]; [|now rewrite lookup_insert_ne by auto]. rewrite E, lookup_insert_eq, <- E, Ec. cbn. rewrite arr_get_insert by auto.
    rewrite decide_False; [reflexivity|]. unfold page_of in E. lia.
  - intros p Hp. cbn [frames set_frames]. now rewrite lookup_insert_ne by auto.
Qed.

Lemma memcpy_to_ok l : forall a s, (forall x, a <= x < a + Z.of_nat (length l) -> is_Some (byte_at s x)) ->
  wp (memcpy_to a l) (λ _ s', data_only s s' /\
    (forall x, byte_at s' x = if decide (a <= x < a + Z.of_nat (length l)) then l !! Z.to_nat (x - a) else byte_at s x) /\
    forall p, ~ touches a (length l) p -> frames s' !! p = frames s !! p) s.
Proof.
  induction l as [|b l IH]; intros a s Hs.
  - apply wp_ret. split_and!; [apply data_refl| |auto]. intros x. now rewrite decide_False by (cbn; lia).
  - cbn [memcpy_to]. apply wp_bind. eapply wp_mono; [apply store_byte_ok, Hs; cbn; lia|]. intros _ s1 (D1 & B1 & F1).
    eapply wp_mono; [apply (IH (a + 1) s1)|].
    { intros x Hx. rewrite B1. case_decide; [eauto|]. apply Hs. cbn [length]. lia. }
    intros _ s2 (D2 & B2 & F2). split_and!; [eapply data_trans; eauto| |].
    + intros x. rewrite B2, B1. cbn [length]. destruct (decide (x = a)) as [->|Hne].
      * rewrite decide_False, decide_True by lia. now rewrite Z.sub_diag.
      * destruct (decide (a + 1 <= x < a + 1 + Z.of_nat (length l))); [rewrite decide_True by lia; replace (Z.to_nat (x - a)) with (S (Z.to_nat (x - (a + 1)))) by lia; reflexivity|].
        now rewrite decide_False by lia.
    + intros p Hp. rewrite F2, F1; [reflexivity| |].
      * intros ->. apply Hp. exists a. cbn [length]. split; [lia|reflexivity].
      * intros (x & Hx & E). apply Hp. exists x. cbn [length]. split; [lia|exact E].
Qed.

(** * Through the page tables *)

(** A page of the address space holds [va]. *)
Definition mapped s p va : Prop := exists e, leaf s p (va_path va) = Some e /\ pcd e = false.

Lemma data_mapped s s' p va : data_only s s' -> mapped s p va <-> mapped s' p va.
Proof. intros Hd. unfold mapped. now rewrite (data_leaf _ _ Hd). Qed.

Lemma mapped_page s p va va' : page_of va = page_of va' -> mapped s p va -> mapped s p va'.
Proof. unfold mapped. intros E. now rewrite <- (va_path_page_of va'), <- E, va_path_page_of. Qed.

Lemma leaf_frame n s p π e : path_ok n π -> tree_ok n s p -> leaf s p π = Some e -> pcd e = false -> exists c, frames s !! entry_phys e = Some c /\ length c = 4096%nat.
Proof.
  revert p π. induction n as [|m IH]; intros p [|i ρ]; try easy. intros [Hi Hρ]. rewrite tree_S. intros (es & Et & _ & _ & Hk). cbn [leaf]. rewrite (ent_some _ _ _ _ Et).
  destruct (arr_get es i) as [e0|] eqn:Ee; [|easy]. cbn. destruct (present e0) eqn:Hp; [|easy]. specialize (Hk i e0 Hi Ee Hp). destruct ρ as [|j ρ].
  - intros [= ->] Hpc. destruct m; [now apply Hk|easy].
  - destruct m as [|m]; [easy|]. destruct Hk as [_ Hk]. intros Hl Hpc. exact (IH _ _ Hρ Hk Hl Hpc).
Qed.

Lemma mapped_bytes s p va e x : space 4 s p -> user_va va -> leaf s p (va_path va) = Some e -> pcd e = false -> page_of x = entry_phys e -> is_Some (byte_at s x).
Proof.
  intros Hsp Hva Hl Hpc Hx. destruct (leaf_frame 4 s p _ e (va_path_ok va Hva) (sp_tree _ _ _ Hsp) Hl Hpc) as (c & Ec & Hc).
  unfold byte_at. rewrite Hx, Ec. cbn. apply arr_get_lt. rewrite Hc. pose proof (Z.mod_pos_bound x 4096 ltac:(lia)). lia.
Qed.

(** Different pages of a space are different physical pages. *)
Lemma mapped_inj s p va va' e e' : space 4 s p -> user_va va -> user_va va' -> leaf s p (va_path va) = Some e -> pcd e = false ->
  leaf s p (va_path va') = Some e' -> pcd e' = false -> entry_phys e = entry_phys e' -> page_of va = page_of va'.
Proof.
  intros Hsp H H' L P L' P' E. apply (va_path_same va va' H H'). apply (sp_inj _ _ _ Hsp _ _ (entry_phys e)).
  - now apply leaf_owned; auto using va_path_ok.
  - rewrite E. now apply leaf_owned; auto using va_path_ok.
Qed.

Section User.
Context (p4 : Z).

Lemma user_va_to_kvirt_ok s va : space 4 s p4 -> user_va va ->
  wp (user_va_to_kvirt p4 va) (λ r s', s' = s /\ r = (λ e, entry_phys e + va mod 4096) <$> leaf s p4 (va_path va)) s.
Proof using.
  intros Hsp Hva. unfold user_va_to_kvirt. assert (H64 : 0 <= va < 2 ^ 64) by (unfold user_va in Hva; lia). rewrite (page_down va H64), land_4095.
  assert (Hp : user_va (page_of va)) by (unfold user_va, page_of in *; pose proof (Z.mod_pos_bound va 4096 ltac:(lia)); pose proof (Z.mod_le va 4096 ltac:(lia) ltac:(lia)); lia).
  apply wp_bind. eapply wp_mono; [apply (lookup_ok s p4 _ Hsp Hp)|]. intros r s' [-> ->]. rewrite va_path_page_of. destruct (leaf s p4 (va_path va)); apply wp_ret; auto.
Qed.

(** The outcome of a write of [l] at [dst]. *)
Definition written s dst (l : list Z) s' : Prop :=
  data_only s s' /\
  (forall va, user_va va -> mapped s p4 va -> user_byte s' p4 va = if decide (dst <= va < dst + Z.of_nat (length l)) then l !! Z.to_nat (va - dst) else user_byte s p4 va) /\
  (forall f, (forall π, ~ owned 4 s p4 π f) -> frames s' !! f = frames s !! f).

Lemma written_nil s dst : written s dst [] s.
Proof using. split_and!; [apply data_refl| |auto]. intros va _ _. now rewrite decide_False by (cbn; lia). Qed.

Lemma written_app s dst l1 l2 s1 s2 : written s dst l1 s1 -> written s1 (dst + Z.of_nat (length l1)) l2 s2 -> written s dst (l1 ++ l2) s2.
Proof using.
  intros (D1 & B1 & F1) (D2 & B2 & F2). split_and!; [eapply data_trans; eauto| |].
  - intros va Hva Hm. pose proof (B2 va Hva) as H2. rewrite <- (data_mapped s s1 p4 va D1) in H2. rewrite (H2 Hm), (B1 va Hva Hm), length_app.
    destruct (decide (dst <= va < dst + Z.of_nat (length l1))).
    + rewrite decide_False, decide_True by lia. rewrite lookup_app_l by lia. reflexivity.
    + destruct (decide (dst + Z.of_nat (length l1) <= va < _)) as [H|H]; [|now rewrite decide_False by lia]. rewrite decide_True by lia.
      rewrite lookup_app_r by lia. f_equal. lia.
  - intros f Hf. rewrite F2, F1; auto. intros π. rewrite (data_owned s s1 D1). apply Hf.
Qed.

(** A copy into the page of [dst] that does not leave it. *)
Lemma write_chunk_ok s dst e l : space 4 s p4 -> user_va dst -> leaf s p4 (va_path dst) = Some e -> pcd e = false -> dst mod 4096 + Z.of_nat (length l) <= 4096 ->
  wp (memcpy_to (entry_phys e + dst mod 4096) l) (λ _ s', written s dst l s') s.
Proof using.
  intros Hsp Hdst Hl Hpc Hlen. pose proof (Z.mod_pos_bound dst 4096 ltac:(lia)) as Hm.
  assert (Hpg : forall x, entry_phys e + dst mod 4096 <= x < entry_phys e + dst mod 4096 + Z.of_nat (length l) -> page_of x = entry_phys e)
    by (intros x Hx; apply page_of_eq; [apply entry_phys_mod|lia]).
  eapply wp_mono; [apply memcpy_to_ok|].
  { intros x Hx. apply (mapped_bytes s p4 dst e x); auto. }
  intros _ s' (D & B & F). split_and!; [exact D| |].
  - intros va Hva (e' & Hl' & Hpc'). rewrite !user_byte_at, (data_leaf _ _ D), Hl'. cbn [mbind option_bind]. rewrite B. pose proof (Z.mod_pos_bound va 4096 ltac:(lia)) as Hm'.
    destruct (decide (dst <= va < dst + Z.of_nat (length l))) as [Hr|Hr].
    + assert (E : page_of va = page_of dst) by (apply page_of_eq; [unfold page_of; rewrite Zminus_mod_idemp_r, Z.sub_diag; reflexivity|unfold page_of; lia]).
      assert (e' = e) as -> by (rewrite <- va_path_page_of, E, va_path_page_of in Hl'; congruence). unfold page_of in E. rewrite decide_True by lia. f_equal. lia.
    + rewrite decide_False; [reflexivity|]. intros Hx. apply Hr. specialize (Hpg _ Hx). rewrite page_of_add in Hpg by (auto using entry_phys_mod).
      pose proof (mapped_inj s p4 va dst e' e Hsp Hva Hdst Hl' Hpc' Hl Hpc Hpg) as E. unfold page_of in E. lia.
  - intros f Hf. apply F. intros (x & Hx & <-). rewrite (Hpg x Hx) in Hf. apply (Hf (va_path dst)). now apply leaf_owned; auto using va_path_ok.
Qed.

Lemma write_user_ok s dst l : space 4 s p4 -> 0 <= dst -> dst + Z.of_nat (length l) <= 2 ^ 47 ->
  (forall va, dst <= va < dst + Z.of_nat (length l) -> mapped s p4 va) ->
  wp (write_user p4 dst l) (λ r s', r = 0 /\ written s dst l s') s.
Proof using.
  unfold write_user. generalize (Nat.lt_succ_diag_r (length l)). generalize (S (length l)) as fuel. intros fuel. revert s dst l.
  induction fuel as [|fuel IH]; intros s dst l Hf Hsp Hd Hend Hm; [lia|]. rewrite loop_S. apply wp_bind. unfold write_user_step at 1.
  destruct (Z.ltb_spec 0 (Z.of_nat (length l))) as [Hpos|Hz]; cbn [negb].
  2:{ destruct l; [|cbn in Hz; lia]. apply wp_ret. cbn. split; [reflexivity|apply written_nil]. }
  rewrite land_4095. unfold PAGE_SIZE. pose proof (Z.mod_pos_bound dst 4096 ltac:(lia)) as Hmod. set (chunk := if _ <? _ then _ else _).
  assert (Hc : 0 < chunk <= Z.of_nat (length l) /\ dst mod 4096 + chunk <= 4096) by (subst chunk; destruct (Z.ltb_spec (Z.of_nat (length l)) (4096 - dst mod 4096)); lia).
  assert (Hva : user_va dst) by (unfold user_va; lia). destruct (Hm dst ltac:(lia)) as (e & Hl & Hpc).
  apply wp_bind. eapply wp_mono; [apply (user_va_to_kvirt_ok s dst Hsp Hva)|]. intros r s' [-> ->]. rewrite Hl. cbn [fmap option_fmap option_map].
  assert (Hlen : Z.of_nat (length (take (Z.to_nat chunk) l)) = chunk) by (rewrite length_take; lia).
  apply wp_bind. eapply wp_mono; [apply (write_chunk_ok s dst e (take (Z.to_nat chunk) l)); auto; lia|]. intros u s1 W1; cbv beta in W1. apply wp_ret.
  rewrite wrap64_small by lia. pose proof W1 as (D1 & _). eapply wp_mono; [apply (IH s1)|].
  - rewrite length_drop. lia.
  - now apply (data_space s s1).
  - lia.
  - rewrite length_drop. lia.
  - intros va Hr. rewrite length_drop in Hr. apply (data_mapped s s1 p4 va D1), Hm. lia.
  - intros r s2 [-> W2]. split; [reflexivity|]. rewrite <- (take_drop (Z.to_nat chunk) l). apply (written_app s dst _ _ s1); [exact W1|]. now rewrite Hlen.
Qed.
End User.

(** Building up an address space: fresh pages, ranges of pages, and what stays
    as it was meanwhile. *)


(** * Growth *)

(** From [s] to [s'] the space at [p4] only grew, by new pages; no other page
    that was in use changed, and every page taken belongs to the space. *)
Record grown p4 s s' : Prop := {
  gr_space : space 4 s' p4;
  gr_rest : rest_same s s';
  gr_busy : busy s ⊆ busy s';
  gr_new : forall f, f ∈ busy s' -> f ∈ busy s \/ exists π, owned 4 s' p4 π f;
  gr_keep : forall π f, owned 4 s p4 π f -> owned 4 s' p4 π f;
  gr_own : forall π f, owned 4 s' p4 π f -> (exists π', owned 4 s p4 π' f) \/ (f ∉ busy s);
  gr_same : forall f, f ∈ busy s -> (forall π, ~ owned 4 s p4 π f) -> same_at s s' f;
  gr_leaf : forall va, user_va va -> mapped s p4 va -> leaf s' p4 (va_path va) = leaf s p4 (va_path va);
  gr_kernel : forall j, 256 <= j < 512 -> ent s' p4 j = ent s p4 j }.

(** And no byte that was mapped changed. *)
Definition keeps p4 s s' : Prop := forall va, user_va va -> mapped s p4 va -> user_byte s' p4 va = user_byte s p4 va.

Lemma rest_trans s s1 s2 : rest_same s s1 -> rest_same s1 s2 -> rest_same s s2.
Proof. intros (? & ? & ?) (? & ? & ?). split_and!; congruence. Qed.

Section Grown.
Context (p4 : Z).

Lemma grown_refl s : space 4 s p4 -> grown p4 s s.
Proof. intros. split; eauto; try (split_and!; reflexivity). intros f _ _. split; reflexivity. Qed.

Lemma grown_mapped s s' va : grown p4 s s' -> user_va va -> mapped s p4 va -> mapped s' p4 va.
Proof. intros G Hva Hm. pose proof (gr_leaf _ _ _ G va Hva Hm) as E. unfold mapped in *. now rewrite E. Qed.

Lemma grown_trans s s1 s2 : grown p4 s s1 -> grown p4 s1 s2 -> grown p4 s s2.
Proof.
  intros G1 G2. split.
  - apply G2.
  - eapply rest_trans; [apply G1|apply G2].
  - etrans; [apply G1|apply G2].
  - intros f Hf. destruct (gr_new _ _ _ G2 f Hf) as [Hf1|H]; [|auto]. destruct (gr_new _ _ _ G1 f Hf1) as [H|(π & Ho)]; [auto|]. right. exists π. now apply (gr_keep _ _ _ G2).
  - intros π f Ho. now apply (gr_keep _ _ _ G2), (gr_keep _ _ _ G1).
  - intros π f Ho. destruct (gr_own _ _ _ G2 π f Ho) as [(π' & Ho')|Hn]; [now apply (gr_own _ _ _ G1 π')|]. right. intros Hf. apply Hn, (gr_busy _ _ _ G1), Hf.
  - intros f Hf Hno. destruct (gr_same _ _ _ G1 f Hf Hno) as [A1 A2]. destruct (gr_same _ _ _ G2 f) as [B1 B2]; [now apply (gr_busy _ _ _ G1)| |split; congruence].
    intros π Ho. destruct (gr_own _ _ _ G1 π f Ho) as [(π' & Ho')|Hn]; [now apply (Hno π')|auto].
  - intros va Hva Hm. rewrite (gr_leaf _ _ _ G2 va Hva (grown_mapped s s1 va G1 Hva Hm)). now apply (gr_leaf _ _ _ G1).
  - intros j Hj. now rewrite (gr_kernel _ _ _ G2), (gr_kernel _ _ _ G1).
Qed.

Lemma bytes_kept_trans s s1 s2 : grown p4 s s1 -> keeps p4 s s1 -> keeps p4 s1 s2 -> keeps p4 s s2.
Proof. intros G K1 K2 va Hva Hm. rewrite (K2 va Hva (grown_mapped s s1 va G Hva Hm)). now apply K1. Qed.

Lemma written_grown s dst l s' : space 4 s p4 -> written p4 s dst l s' -> grown p4 s s'.
Proof.
  intros Hsp (D & _ & F). split.
  - now apply (data_space s s' D).
  - apply D.
  - now rewrite (do_busy _ _ D).
  - intros f. rewrite (do_busy _ _ D). auto.
  - intros π f. now rewrite (data_owned s s' D).
  - intros π f. rewrite (data_owned s s' D). eauto.
  - intros f _ Hf. split; [now rewrite (do_tables _ _ D)|auto].
  - intros va _ _. apply (data_leaf s s' D).
  - intros j _. apply (data_ent s s' D).
Qed.

End Grown.

(** * One fresh page *)
Section Alloc.
Context (request : gset Z -> Z) (Hreq : forall u, request u <> 0 -> is_page (request u) /\ (request u ∉ u)) (p4 : Z).

(** The new page at [va] holds zeros. *)
Definition fresh_at s' va flags : Prop :=
  (exists e phy, leaf s' p4 (va_path va) = Some (leaf_entry e phy flags)) /\ forall va', user_va va' -> page_of va' = page_of va -> user_byte s' p4 va' = Some 0.

Definition alloc_result s va flags (r : Z) s' : Prop :=
  grown p4 s s' /\ keeps p4 s s' /\ (forall va', user_va va' -> page_of va' <> page_of va -> leaf s' p4 (va_path va') = leaf s p4 (va_path va')) /\
  ((r = 0 /\ fresh_at s' va flags) \/ (r = - ENOMEM /\ leaf s' p4 (va_path va) = leaf s p4 (va_path va))).

(** The state [map_page_to_virt_in] starts from: page [p] is taken and clear. *)
Definition take_page s p : vm := set_frames (<[p := zero_page]> (frames s)) (set_busy ({[p]} ∪ busy s) s).

Section Taken.
Context (s : vm) (p va flags : Z) (Hsp : space 4 s p4) (Hva : user_va va) (Hp : is_page p) (Hpb : p ∉ busy s) (Hlf : leaf s p4 (va_path va) = None).
#[local] Abbreviation s2 := (take_page s p).

Lemma taken_ne π f : owned 4 s p4 π f -> f <> p.
Proof using Hsp Hpb. intros Ho ->. apply Hpb, (sp_live _ _ _ Hsp π p Ho). Qed.

Lemma taken_agree : agree 4 s s2 p4.
Proof using Hsp Hpb. intros π f Ho. split; [reflexivity|]. unfold take_page. simpl. rewrite lookup_insert_ne; [reflexivity|]. intros E. exact (taken_ne π f Ho (eq_sym E)). Qed.

Lemma taken_owned π f : owned 4 s2 p4 π f <-> owned 4 s p4 π f.
Proof using Hsp Hpb. apply owned_ext, taken_agree. Qed.

Lemma taken_busy f : f ∈ busy s2 <-> f = p \/ f ∈ busy s.
Proof using. unfold take_page. simpl. now rewrite elem_of_union, elem_of_singleton. Qed.

Lemma taken_space : space 4 s2 p4.
Proof using Hsp Hpb. apply (space_ext 4 s); [apply taken_agree| |exact Hsp]. intros π f Ho. apply taken_busy. right. now apply (sp_live _ _ _ Hsp π). Qed.

Lemma taken_leaf π : path_ok 4 π -> leaf s2 p4 π = leaf s p4 π.
Proof using Hsp Hpb. apply leaf_ext, taken_agree. Qed.

Lemma taken_adoptable : adoptable 4 s2 p4 p flags.
Proof using Hsp Hpb.
  intros _. split_and!; [apply taken_busy; auto| |].
  - exists zero_page. unfold take_page. simpl. split; [apply lookup_insert_eq|reflexivity].
  - intros π Ho. apply taken_owned in Ho. exact (taken_ne π p Ho eq_refl).
Qed.

Lemma taken_other va' : user_va va' -> page_of va' <> page_of va -> va_path va' <> va_path va.
Proof using Hva. intros H Hne E. now apply Hne, (va_path_same va' va). Qed.

Section Mapped.
Context (X : gset Z) (s3 : vm) (HX : forall f, f ∈ X -> f = p) (C : change X 4 s2 p4 s3) (Mo : mono 4 s2 p4 s3) (R : rest_same s2 s3).
Context (L : forall π, path_ok 4 π -> π <> va_path va -> leaf s3 p4 π = leaf s2 p4 π).

Lemma mapped_leaf va' : user_va va' -> mapped s p4 va' -> leaf s3 p4 (va_path va') = leaf s p4 (va_path va').
Proof using Hsp Hpb Hlf L.
  intros Hva' Hm. rewrite L; [apply taken_leaf|..]; auto using va_path_ok. intros E. destruct Hm as (e & He & _). rewrite E in He. congruence.
Qed.

Lemma mapped_keeps : keeps p4 s s3.
Proof using Hsp Hpb Hlf L C.
  intros va' Hva' Hm. unfold user_byte. rewrite (mapped_leaf va' Hva' Hm). destruct Hm as (e & He & Hpc). rewrite He. cbn [mbind option_bind].
  rewrite (ch_frames _ _ _ _ _ C). unfold take_page. cbn [frames set_frames]. rewrite lookup_insert_ne; [reflexivity|]. intros E.
  apply (taken_ne (va_path va') (entry_phys e)); [|auto]. now apply leaf_owned; auto using va_path_ok.
Qed.

Lemma mapped_own π f : owned 4 s3 p4 π f -> (exists π', owned 4 s p4 π' f) \/ (f ∉ busy s).
Proof using Hsp Hpb C HX.
  intros Ho. destruct (ch_own _ _ _ _ _ C π f Ho) as [(π' & Ho')|[Hn|Hx]].
  - left. exists π'. now apply taken_owned.
  - right. intros Hf. apply Hn, taken_busy. auto.
  - right. now rewrite (HX f Hx).
Qed.

Lemma mapped_same f : f ∈ busy s -> (forall π, ~ owned 4 s p4 π f) -> same_at s s3 f.
Proof using Hsp Hpb C.
  intros Hf Hno. destruct (ch_same _ _ _ _ _ C f) as [A1 A2]; [apply taken_busy; auto|intros π Ho; apply (Hno π), taken_owned, Ho|].
  split; [exact A1|]. rewrite A2. unfold take_page. cbn [frames set_frames]. rewrite lookup_insert_ne; [reflexivity|]. intros E. apply Hpb. rewrite E. exact Hf.
Qed.

Lemma mapped_kernel j : 256 <= j < 512 -> ent s3 p4 j = ent s p4 j.
Proof using C. intros Hj. rewrite (ch_kernel _ _ _ _ _ C); [reflexivity|lia|]. unfold idx_ok. cbn. lia. Qed.

Lemma mapped_grown : (p ∈ busy s3 -> exists π, owned 4 s3 p4 π p) -> grown p4 s s3.
Proof using Hsp Hpb Hlf L C Mo R HX.
  intros Hpo. split; auto using mapped_same, mapped_leaf, mapped_kernel.
  - apply C.
  - intros f Hf. apply (ch_busy _ _ _ _ _ C), taken_busy. auto.
  - intros f Hf. destruct (mo_new _ _ _ _ Mo f Hf) as [H|H]; [|auto]. apply taken_busy in H as [->|H]; auto.
  - intros π f Ho. apply (mo_own _ _ _ _ Mo), taken_owned, Ho.
  - apply mapped_own.
Qed.

(** The page is given back. *)
Lemma unmapped_grown s4 : (forall π, ~ owned 4 s3 p4 π p) -> (forall f, f <> p -> same_at s3 s4 f) -> (forall f, f ∈ busy s4 <-> f ∈ busy s3 /\ f <> p) -> rest_same s3 s4 ->
  grown p4 s s4 /\ forall π, path_ok 4 π -> leaf s4 p4 π = leaf s3 p4 π.
Proof using Hsp Hpb Hlf L C Mo R HX.
  intros Hno Hs Hb R4. assert (Ha : agree 4 s3 s4 p4) by (intros π f Ho; apply Hs; intros ->; now apply (Hno π)).
  assert (Ho4 : forall π f, owned 4 s4 p4 π f <-> owned 4 s3 p4 π f) by (apply owned_ext, Ha). assert (Hl4 : forall π, path_ok 4 π -> leaf s4 p4 π = leaf s3 p4 π) by (intros; now apply leaf_ext with 4%nat).
  split; [|exact Hl4]. split.
  - apply (space_ext 4 s3); [exact Ha| |apply C]. intros π f Ho. apply Hb. split; [apply (sp_live _ _ _ (ch_space _ _ _ _ _ C) π f Ho)|intros ->; now apply (Hno π)].
  - eapply rest_trans; [exact R|exact R4].
  - intros f Hf. apply Hb. split; [apply (ch_busy _ _ _ _ _ C), taken_busy; auto|]. intros ->. contradiction.
  - intros f Hf. apply Hb in Hf as [Hf Hne]. destruct (mo_new _ _ _ _ Mo f Hf) as [H|(π & Ho)]; [apply taken_busy in H as [->|H]; [contradiction|auto]|].
    right. exists π. now apply Ho4.
  - intros π f Ho. apply Ho4, (mo_own _ _ _ _ Mo), taken_owned, Ho.
  - intros π f Ho. apply (mapped_own π), Ho4, Ho.
  - intros f Hf Hn. destruct (mapped_same f Hf Hn) as [A1 A2]. destruct (Hs f) as [B1 B2]; [intros ->; contradiction|]. split; congruence.
  - intros va' Hva' Hm. rewrite (Hl4 _ (va_path_ok va' Hva')). now apply mapped_leaf.
  - intros j Hj. unfold ent. rewrite (proj1 (Ha [] p4 eq_refl)). now apply mapped_kernel.
Qed.
End Mapped.
End Taken.

Lemma alloc_ok s va flags : space 4 s p4 -> paging_lock s = false -> user_va va -> leaf s p4 (va_path va) = None -> has_flag flags CACHE_DIS_PAGE = false ->
  wp (alloc_and_map_user_page request p4 va flags) (alloc_result s va flags) s.
Proof using Hreq.
  intros Hsp Hlk Hva Hlf Hnc. unfold alloc_and_map_user_page. apply wp_bind. apply (wp_request request Hreq).
  { intros _. apply wp_ret. split_and!; [now apply grown_refl|easy|easy|auto]. }
  intros p Hp Hp0 Hpb. rewrite (proj2 (Z.eqb_neq p 0) Hp0). apply wp_bind, wp_modify. change (set_frames _ _) with (take_page s p). set (s2 := take_page s p).
  apply wp_bind. eapply wp_mono; [apply (map_page_ok request Hreq s2 p4 va p flags); auto|].
  { now apply taken_space. } { now apply taken_adoptable. }
  intros r s3 (R & Mo & [(-> & C & (e & He) & L)|(-> & C & L)]).
  - apply wp_ret. assert (HX : forall f, f ∈ adopted p flags -> f = p) by (intros f; unfold adopted; rewrite Hnc; apply elem_of_singleton_1).
    assert (Hph : entry_phys (leaf_entry e p flags) = p) by exact (entry_phys_set p _ Hp). split_and!.
    + apply (mapped_grown s p va Hsp Hpb Hlf _ s3 HX C Mo R L). intros _. exists (va_path va). pose proof (leaf_owned 4 s3 p4 _ _ (va_path_ok va Hva) He Hnc) as Ho. now rewrite Hph in Ho.
    + exact (mapped_keeps s p va Hsp Hpb Hlf _ s3 C L).
    + intros va' Hva' Hne. rewrite L by (auto using va_path_ok, taken_other). now apply (taken_leaf s p Hsp Hpb), va_path_ok.
    + left. split; [reflexivity|]. split; [eauto|]. intros va' Hva' Hpg. unfold user_byte. apply (va_path_same va' va Hva' Hva) in Hpg as ->. rewrite He. cbn [mbind option_bind].
      rewrite (ch_frames _ _ _ _ _ C), Hph. unfold s2, take_page. cbn [frames set_frames]. rewrite lookup_insert_eq. cbn [mbind option_bind]. unfold arr_get, zero_page.
      pose proof (Z.mod_pos_bound va' 4096 ltac:(lia)). destruct (Z.ltb_spec (va' mod 4096) 0); [lia|]. apply lookup_replicate_2. lia.
  - assert (HX : forall f, f ∈ (∅ : gset Z) -> f = p) by (intros f Hf; now apply elem_of_empty in Hf).
    assert (L' : forall π, path_ok 4 π -> π <> va_path va -> leaf s3 p4 π = leaf s2 p4 π) by auto.
    assert (Hno : forall π, ~ owned 4 s3 p4 π p).
    { intros π Ho. destruct (ch_own _ _ _ _ _ C π p Ho) as [(π' & Ho')|[Hn|Hx]]; [|apply Hn, taken_busy; auto|now apply elem_of_empty in Hx].
      apply (taken_owned s p Hsp Hpb) in Ho'. now apply (taken_ne s p Hsp Hpb π' p Ho'). }
    change (- ENOMEM <? 0) with true. apply wp_bind, wp_free; [apply (ch_busy _ _ _ _ _ C), taken_busy; auto|]. set (s4 := set_busy _ _). apply wp_ret.
    destruct (unmapped_grown s p va Hsp Hpb Hlf _ s3 HX C Mo R L' s4 Hno) as [G Hl4].
    + intros f Hf. split; unfold s4; simpl; rewrite lookup_delete_ne by auto; reflexivity.
    + intros f. unfold s4. simpl. now rewrite elem_of_difference, elem_of_singleton.
    + split_and!; reflexivity.
    + assert (Hl : forall π, path_ok 4 π -> leaf s4 p4 π = leaf s p4 π) by (intros π Hπ; rewrite (Hl4 π Hπ), (L π Hπ); now apply (taken_leaf s p Hsp Hpb)).
      split_and!; auto using va_path_ok. intros va' Hva' Hm. unfold user_byte. rewrite (Hl _ (va_path_ok va' Hva')). destruct Hm as (e & He & Hpc). rewrite He. cbn [mbind option_bind].
      assert (Hne : p <> entry_phys e) by (intros E; apply (taken_ne s p Hsp Hpb (va_path va') (entry_phys e)); [apply leaf_owned; auto using va_path_ok|auto]).
      unfold s4. simpl. rewrite lookup_delete_ne, (ch_frames _ _ _ _ _ C) by auto. unfold s2, take_page. cbn [frames set_frames]. now rewrite lookup_insert_ne by auto.
Qed.

(** * A range of fresh pages *)

Definition has_flags s x flags : Prop := exists e phy, leaf s p4 (va_path x) = Some (leaf_entry e phy flags).
Definition filled s flags a b : Prop := forall x, a <= x < b -> has_flags s x flags /\ user_byte s p4 x = Some 0.

Lemma has_flags_mapped s x flags : has_flag flags CACHE_DIS_PAGE = false -> has_flags s x flags -> mapped s p4 x.
Proof. intros Hnc (e & phy & He). exists (leaf_entry e phy flags). auto. Qed.

Lemma grown_flags s s' x flags : has_flag flags CACHE_DIS_PAGE = false -> grown p4 s s' -> user_va x -> has_flags s x flags -> has_flags s' x flags.
Proof. intros Hnc G Hx Hf. pose proof (gr_leaf _ _ _ G x Hx (has_flags_mapped s x flags Hnc Hf)) as E. destruct Hf as (e & phy & He). exists e, phy. congruence. Qed.

Lemma grown_filled s s' flags a b : has_flag flags CACHE_DIS_PAGE = false -> 0 <= a -> b <= 2 ^ 47 -> grown p4 s s' -> keeps p4 s s' -> filled s flags a b -> filled s' flags a b.
Proof.
  intros Hnc Ha Hb G K Hf x Hx. destruct (Hf x Hx) as [H1 H2]. assert (Hux : user_va x) by (unfold user_va; lia). split; [now apply (grown_flags s)|].
  rewrite (K x Hux); [exact H2|]. eapply has_flags_mapped; eauto.
Qed.

Definition map_range_result s flags a b (r : Z) s' : Prop :=
  grown p4 s s' /\ keeps p4 s s' /\ (forall x, user_va x -> ~ a <= x < b -> leaf s' p4 (va_path x) = leaf s p4 (va_path x)) /\
  (r = - ENOMEM \/ (r = 0 /\ filled s' flags a b)).

Lemma page_of_range a va x : a mod 4096 = 0 -> va mod 4096 = 0 -> a <= va -> page_of x = va -> a <= x < va + 4096.
Proof. unfold page_of. intros _ _ Ha E. pose proof (Z.mod_pos_bound x 4096 ltac:(lia)). lia. Qed.

Lemma aligned_lt a b : a mod 4096 = 0 -> b mod 4096 = 0 -> a < b -> a + 4096 <= b.
Proof. intros Ha Hb. pose proof (Z.div_mod a 4096 ltac:(lia)). pose proof (Z.div_mod b 4096 ltac:(lia)). nia. Qed.

Lemma page_of_aligned a : a mod 4096 = 0 -> page_of a = a.
Proof. unfold page_of. lia. Qed.

Lemma map_range_ok s flags a b : space 4 s p4 -> paging_lock s = false -> 0 <= a -> a <= b <= 2 ^ 47 -> a mod 4096 = 0 -> b mod 4096 = 0 ->
  (forall x, a <= x < b -> leaf s p4 (va_path x) = None) -> has_flag flags CACHE_DIS_PAGE = false ->
  wp (map_range request p4 flags a b) (map_range_result s flags a b) s.
Proof using Hreq.
  intros Hsp Hlk Ha Hb Ma Mb Hn Hnc. unfold map_range, PAGE_SIZE. pose proof (Z.div_pos (b - a) 4096 ltac:(lia) ltac:(lia)) as Hdp.
  apply (wp_loop (λ n va s', n = Z.to_nat ((b - va) / 4096) /\ a <= va <= b /\ va mod 4096 = 0 /\ grown p4 s s' /\ keeps p4 s s' /\
    (forall x, user_va x -> ~ a <= x < va -> leaf s' p4 (va_path x) = leaf s p4 (va_path x)) /\ filled s' flags a va) (Z.to_nat ((b - a) / 4096))); [|lia|].
  { split_and!; auto; try lia; [now apply grown_refl|easy|]. intros x Hx. lia. }
  clear Hdp. intros n va s1 (-> & Hva & Mva & G & K & Lo & Hf). unfold map_range_step. destruct (Z.ltb_spec va b) as [Hlt|Hge].
  2:{ apply wp_ret. assert (va = b) as -> by lia. split_and!; auto. }
  pose proof (aligned_lt va b Mva Mb Hlt) as Hstep. assert (Huva : user_va va) by (unfold user_va; lia).
  apply wp_bind. eapply wp_mono; [apply (alloc_ok s1 va flags); auto|].
  { apply G. } { rewrite (proj1 (gr_rest _ _ _ G)). exact Hlk. } { rewrite Lo by (auto; lia). apply Hn. lia. }
  intros r s2 (G2 & K2 & L2 & Hr). pose proof (grown_trans p4 _ _ _ G G2) as G'. pose proof (bytes_kept_trans p4 _ _ _ G K K2) as K'.
  destruct Hr as [(-> & [Hfl Hz])|(-> & Hl)].
  - apply wp_ret. unfold PAGE_SIZE. rewrite wrap64_small by lia. exists (Z.to_nat ((b - (va + 4096)) / 4096)). split.
    { replace (b - va) with (b - (va + 4096) + 1 * 4096) by lia. rewrite Z.div_add by lia. pose proof (Z.div_pos (b - (va + 4096)) 4096 ltac:(lia) ltac:(lia)). lia. }
    split_and!; auto; try lia; [rewrite Z.add_mod, Mva by lia; reflexivity| |].
    + intros x Hx Hno. rewrite L2; [apply Lo; auto; lia|exact Hx|]. intros E. rewrite (page_of_aligned va Mva) in E. pose proof (page_of_range a va x Ma Mva ltac:(lia) E). lia.
    + intros x Hx. destruct (decide (x < va)); [apply (grown_filled s1 s2 flags a va); auto; lia|]. assert (E : page_of x = page_of va) by (rewrite (page_of_aligned va Mva); apply page_of_eq; [exact Mva|lia]).
      assert (Hux : user_va x) by (unfold user_va; lia). split; [|now apply Hz]. unfold has_flags. now rewrite (proj2 (va_path_same x va Hux Huva) E).
  - apply wp_ret. split_and!; auto. intros x Hx Hno. destruct (decide (page_of x = page_of va)) as [E|E].
    + rewrite (proj2 (va_path_same x va Hx Huva) E), Hl. apply Lo; auto. lia.
    + rewrite L2 by auto. apply Lo; auto. lia.
Qed.
End Alloc.
