(* ===== verification/ElfStack.v ===== *)
(** The initial stack: where the argument and environment strings and the
    pointers to them end up. *)

From S2P Require Import Prelude Bytes PageTable PageSpace PageFree PageMap Elf ElfMem.

Implicit Types (s : vm) (l : list (list Z)).

(** * Strings back to back *)

Definition blob l : list Z := concat ((λ a, a ++ [0]) <$> l).
Definition blob_size l : Z := Z.of_nat (length (blob l)).

Lemma blob_cons a l : blob (a :: l) = (a ++ [0]) ++ blob l.
Proof. reflexivity. Qed.

Lemma blob_app l1 l2 : blob (l1 ++ l2) = blob l1 ++ blob l2.
Proof. unfold blob. now rewrite fmap_app, concat_app. Qed.

Lemma blob_size_cons a l : blob_size (a :: l) = cstrlen a + 1 + blob_size l.
Proof. unfold blob_size, cstrlen. rewrite blob_cons, !length_app. cbn [length]. lia. Qed.

Lemma blob_size_pos l : 0 <= blob_size l.
Proof. unfold blob_size. lia. Qed.

(** Every string with its NUL takes a byte at least. *)
Lemma count_strings_ok l : forall n b, 0 <= n <= 256 -> 0 <= b -> b + blob_size l < 2 ^ 64 ->
  count_strings l n b = if n + Z.of_nat (length l) <=? 256 then inr (n + Z.of_nat (length l), b + blob_size l) else inl (- E2BIG).
Proof.
  induction l as [|a l IH]; intros n b Hn Hb Hs.
  - cbn [count_strings length]. replace (blob_size []) with 0 by reflexivity. destruct (Z.leb_spec (n + Z.of_nat 0) 256); [|lia]. now rewrite !Z.add_0_r.
  - rewrite blob_size_cons in Hs |- *. cbn [count_strings length]. unfold ELF_ARGS_MAX_ENTRIES. pose proof (blob_size_pos l). assert (0 <= cstrlen a) by (unfold cstrlen; lia).
    destruct (Z.leb_spec 256 n).
    + destruct (Z.leb_spec (n + Z.of_nat (S (length l))) 256); [lia|reflexivity].
    + rewrite wrap64_small by lia. rewrite IH by lia. replace (n + 1 + Z.of_nat (length l)) with (n + Z.of_nat (S (length l))) by lia.
      destruct (_ <=? 256); [|reflexivity]. f_equal. f_equal. lia.
Qed.

(** The pointers: one per string, at its offset. *)
Definition offsets (va : Z) l : list Z := (λ i, va + blob_size (take i l)) <$> seq 0 (length l).

Lemma offsets_cons va a l : offsets va (a :: l) = va :: offsets (va + cstrlen a + 1) l.
Proof.
  unfold offsets. cbn [length seq fmap list_fmap]. f_equal; [unfold blob_size; cbn; lia|]. rewrite <- seq_shift, <- list_fmap_compose. apply list_fmap_ext. intros i k _. simpl.
  rewrite blob_size_cons. lia.
Qed.

Lemma pointers_ok l : forall va off, 0 <= va -> 0 <= off -> va + off + blob_size l < 2 ^ 64 -> pointers va off l = (offsets (va + off) l, off + blob_size l).
Proof.
  induction l as [|a l IH]; intros va off Hv Ho Hs.
  - cbn. unfold blob_size. cbn. f_equal. lia.
  - rewrite blob_size_cons in Hs |- *. pose proof (blob_size_pos l). assert (0 <= cstrlen a) by (unfold cstrlen; lia). cbn [pointers]. rewrite (wrap64_small (off + _ + 1)) by lia.
    rewrite IH by lia. rewrite offsets_cons, wrap64_small by lia. f_equal; [|lia]. do 2 f_equal. lia.
Qed.

Lemma offsets_length va l : length (offsets va l) = length l.
Proof. unfold offsets. now rewrite length_fmap, length_seq. Qed.

Section Stack.
Context (request : gset Z -> Z) (Hreq : forall u, request u <> 0 -> is_page (request u) /\ (request u ∉ u)) (p4 : Z).

(** The bytes [bs] are at [a]. *)
Definition holds s a (bs : list Z) : Prop := forall i b, bs !! i = Some b -> user_byte s p4 (a + Z.of_nat i) = Some b.

Lemma holds_app s a b1 b2 : holds s a (b1 ++ b2) <-> holds s a b1 /\ holds s (a + Z.of_nat (length b1)) b2.
Proof.
  split.
  - intros H. split; intros i b Hi; [apply H; now apply lookup_app_l_Some|]. replace (a + Z.of_nat (length b1) + Z.of_nat i) with (a + Z.of_nat (length b1 + i)) by lia.
    apply H. rewrite lookup_app_r by lia. rewrite <- Hi. f_equal. lia.
  - intros [H1 H2] i b Hi. apply lookup_app_Some in Hi as [Hi|[Hge Hi]]; [now apply H1|]. apply H2 in Hi. rewrite <- Hi. f_equal. lia.
Qed.

Lemma written_holds s dst bs s' : written p4 s dst bs s' -> 0 <= dst -> dst + Z.of_nat (length bs) <= 2 ^ 47 ->
  (forall x, dst <= x < dst + Z.of_nat (length bs) -> mapped s p4 x) -> holds s' dst bs.
Proof.
  intros (_ & B & _) Hd He Hm i b Hi. pose proof (lookup_lt_Some _ _ _ Hi). rewrite B; [|unfold user_va; lia|apply Hm; lia]. rewrite decide_True by lia. rewrite <- Hi. f_equal. lia.
Qed.

(** The string that starts at each pointer. *)
Lemma blob_pointers s va l : holds s va (blob l) -> Forall2 (λ q a, holds s q (a ++ [0])) (offsets va l) l.
Proof.
  revert va. induction l as [|a l IH]; intros va H; [constructor|]. rewrite offsets_cons. rewrite blob_cons in H. apply holds_app in H as [H1 H2].
  constructor; [exact H1|]. apply IH. rewrite length_app in H2. cbn [length] in H2. unfold cstrlen. replace (va + Z.of_nat (length a) + 1) with (va + Z.of_nat (length a + 1)) by lia. exact H2.
Qed.

Lemma offsets_range va l q : q ∈ offsets va l -> va <= q < va + blob_size l.
Proof.
  revert va. induction l as [|a l IH]; intros va Hq; [now apply elem_of_nil in Hq|]. rewrite offsets_cons in Hq. rewrite blob_size_cons. pose proof (blob_size_pos l).
  assert (0 <= cstrlen a) by (unfold cstrlen; lia). apply elem_of_cons in Hq as [->|Hq]; [lia|]. apply IH in Hq. lia.
Qed.

Lemma write_strings_ok l : forall s va off, space 4 s p4 -> 0 <= va -> 0 <= off -> va + off + blob_size l <= 2 ^ 47 ->
  (forall x, va + off <= x < va + off + blob_size l -> mapped s p4 x) ->
  wp (write_strings p4 va off l) (λ r s', r = inr (off + blob_size l) /\ written p4 s (va + off) (blob l) s') s.
Proof using.
  induction l as [|a l IH]; intros s va off Hsp Hv Ho Hs Hm.
  - apply wp_ret. split; [unfold blob_size; cbn; f_equal; lia|apply written_nil].
  - rewrite blob_size_cons in Hs, Hm |- *. pose proof (blob_size_pos l). assert (Ha : 0 <= cstrlen a) by (unfold cstrlen; lia). cbn [write_strings].
    rewrite (wrap64_small (va + off)), (wrap64_small (off + _)) by lia. assert (Hl : Z.of_nat (length (a ++ [0])) = cstrlen a + 1) by (unfold cstrlen; rewrite length_app; cbn [length]; lia).
    apply wp_bind. eapply wp_mono; [apply (write_user_ok p4 s (va + off) (a ++ [0]))|].
    { exact Hsp. } { lia. } { lia. } { intros x Hx. apply Hm. lia. }
    intros r s1 [-> W1]. change (0 <? 0) with false. cbv iota. pose proof W1 as (D1 & _). eapply wp_mono; [apply (IH s1 va (off + (cstrlen a + 1)))|].
    { now apply (data_space s s1). } { lia. } { lia. } { lia. } { intros x Hx. apply (data_mapped s s1 p4 x D1), Hm. lia. }
    intros r s2 [-> W2]. split; [f_equal; lia|]. rewrite blob_cons. apply (written_app p4 s _ _ _ s1); [exact W1|]. rewrite Hl. replace (va + off + (cstrlen a + 1)) with (va + (off + (cstrlen a + 1))) by lia. exact W2.
Qed.

(** * The whole stack *)

Definition stack_base : Z := USER_STACK_TOP_VA - USER_STACK_PAGES * PAGE_SIZE.
Definition stack_flags : Z := Z.lor (Z.lor (Z.lor PRESENT_PAGE RW_PAGE) USER_PAGE) NX_PAGE.

(** More than 256 entries in an array, or more than 4096 bytes of strings. *)
Definition too_big l1 l2 : Prop := 256 < Z.of_nat (length l1) \/ 256 < Z.of_nat (length l2) \/ 4096 < blob_size l1 + blob_size l2.

(** What a program finds at its first instruction: the count, the argument
    pointers and NULL, the environment pointers and NULL, an empty auxiliary
    vector, and each pointer at its string, between [sp] and the top. *)
Record initial_stack s sp l1 l2 : Prop := {
  is_aligned : sp mod 16 = 0;
  is_above : stack_base <= sp;
  is_fits : sp + 8 * (5 + Z.of_nat (length l1) + Z.of_nat (length l2)) <= USER_STACK_TOP_VA;
  is_frame : exists ps1 ps2, holds s sp (words_bytes ([Z.of_nat (length l1)] ++ ps1 ++ [0] ++ ps2 ++ [0; 0; 0])) /\
    Forall2 (λ q a, sp < q /\ q + cstrlen a + 1 <= USER_STACK_TOP_VA /\ holds s q (a ++ [0])) ps1 l1 /\
    Forall2 (λ q a, sp < q /\ q + cstrlen a + 1 <= USER_STACK_TOP_VA /\ holds s q (a ++ [0])) ps2 l2 }.

Lemma offsets_end va l : Forall2 (λ q a, va <= q /\ q + cstrlen a + 1 <= va + blob_size l) (offsets va l) l.
Proof.
  revert va. induction l as [|a l IH]; intros va; [constructor|]. rewrite offsets_cons, blob_size_cons. pose proof (blob_size_pos l). assert (0 <= cstrlen a) by (unfold cstrlen; lia).
  constructor; [lia|]. eapply Forall2_impl; [|apply IH]. cbv beta. intros q b [? ?]. lia.
Qed.

Lemma frame_strings s sp va l top : holds s va (blob l) -> sp < va -> va + blob_size l <= top ->
  Forall2 (λ q a, sp < q /\ q + cstrlen a + 1 <= top /\ holds s q (a ++ [0])) (offsets va l) l.
Proof using.
  intros H Hv Ht. apply blob_pointers in H. pose proof (offsets_end va l) as H2. apply Forall2_same_length_lookup_2; [apply offsets_length|]. intros i q a Hq Ha.
  pose proof (Forall2_lookup_lr _ _ _ _ _ _ H Hq Ha). destruct (Forall2_lookup_lr _ _ _ _ _ _ H2 Hq Ha). split_and!; auto; lia.
Qed.

Lemma words_bytes_size ws : Z.of_nat (length (words_bytes ws)) = 8 * Z.of_nat (length ws).
Proof. rewrite words_bytes_length. lia. Qed.

(** A write inside the stack keeps what was there before the stack. *)
Lemma written_keeps s s1 dst bs s2 : grown p4 s s1 -> keeps p4 s s1 -> written p4 s1 dst bs s2 -> 
  (forall x, dst <= x < dst + Z.of_nat (length bs) -> ~ mapped s p4 x) -> keeps p4 s s2.
Proof using.
  intros G K (D & B & _) Hno va Hva Hm. rewrite (B va Hva) by now apply (grown_mapped p4 s). rewrite decide_False; [now apply K|]. intros Hx. now apply (Hno va Hx).
Qed.

Context (kmalloc : Z -> Z).

Definition setup_result s l1 l2 (r : Z + Z) s' : Prop :=
  grown p4 s s' /\ keeps p4 s s' /\
  match r with
  | inl e => e = - ENOMEM \/ (e = - E2BIG /\ too_big l1 l2)
  | inr sp => ~ too_big l1 l2 /\ initial_stack s' sp l1 l2 /\ forall x, stack_base <= x < USER_STACK_TOP_VA -> has_flags p4 s' x stack_flags
  end.

Lemma setup_ok s argv envp : space 4 s p4 -> paging_lock s = false -> (forall x, stack_base <= x < USER_STACK_TOP_VA -> leaf s p4 (va_path x) = None) ->
  blob_size (default [] argv) + blob_size (default [] envp) < 2 ^ 64 ->
  wp (setup_user_stack request kmalloc p4 argv envp) (setup_result s (default [] argv) (default [] envp)) s.
Proof using Hreq.
  intros Hsp Hlk Hn Hsz. unfold setup_user_stack. set (l1 := default [] argv) in *. set (l2 := default [] envp) in *. fold stack_base stack_flags.
  assert (Hbt : stack_base = USER_STACK_TOP_VA - 16384) by reflexivity. assert (Htop : USER_STACK_TOP_VA = 0x00007FFFF0000000) by reflexivity.
  apply wp_bind. eapply wp_mono; [apply (map_range_ok request Hreq p4 s stack_flags stack_base USER_STACK_TOP_VA); auto; try reflexivity; lia|].
  intros r s1 (G1 & K1 & _ & [->|[-> Hf]]); [apply wp_ret; split_and!; auto|]. change (0 <? 0) with false. cbv iota.
  assert (Hm1 : forall x, stack_base <= x < USER_STACK_TOP_VA -> mapped s1 p4 x) by (intros x Hx; eapply (has_flags_mapped p4 s1 x stack_flags); [reflexivity|apply Hf, Hx]).
  pose proof (blob_size_pos l1) as P1. pose proof (blob_size_pos l2) as P2. rewrite (count_strings_ok l1 0 0) by lia.
  destruct (Z.leb_spec (0 + Z.of_nat (length l1)) 256) as [Hc1|Hc1]; [|apply wp_ret; split_and!; auto; right; split; [auto|left; lia]].
  rewrite (count_strings_ok l2 0) by lia. destruct (Z.leb_spec (0 + Z.of_nat (length l2)) 256) as [Hc2|Hc2]; [|apply wp_ret; split_and!; auto; right; split; [auto|right; left; lia]].
  rewrite !Z.add_0_l. unfold ELF_ARGS_BLOB_MAX. destruct (Z.ltb_spec 4096 (blob_size l1 + blob_size l2)) as [Hc3|Hc3]; [apply wp_ret; split_and!; auto; right; split; [auto|right; right; lia]|].
  set (pb := (1 + _ + _ + 2) * 8). assert (Hpb : 40 <= pb <= 4136) by lia. set (x := USER_STACK_TOP_VA - (blob_size l1 + blob_size l2) - pb).
  pose proof (Z.mod_pos_bound x 16 ltac:(lia)) as Hx. rewrite (wrap64_small x) by lia. change 15 with (Z.ones 4). rewrite (mask_down 4 x) by lia. change (2 ^ 4) with 16.
  set (sp := x - x mod 16). rewrite (wrap64_small (sp + pb)) by lia. destruct (Z.ltb_spec sp stack_base); [lia|].
  destruct (kmalloc pb =? 0); [apply wp_ret; split_and!; auto|].
  rewrite (pointers_ok l1), (pointers_ok l2) by lia. rewrite Z.add_0_r, Z.add_0_l.
  set (qbuf := [Z.of_nat (length l1)] ++ _). assert (Hq : Z.of_nat (length (words_bytes qbuf)) = pb).
  { rewrite words_bytes_size. unfold qbuf. rewrite !length_app, !offsets_length. cbn [length]. lia. }
  apply wp_bind. eapply wp_mono; [apply (write_user_ok p4 s1 sp (words_bytes qbuf))|].
  { apply G1. } { lia. } { lia. } { intros y Hy. apply Hm1. lia. }
  intros r s2 [-> W2]. change (0 <? 0) with false. cbv iota. pose proof W2 as (D2 & _). pose proof (data_space s1 s2 D2 4 p4 (gr_space _ _ _ G1)) as Hsp2.
  apply wp_bind. eapply wp_mono; [apply (write_strings_ok l1 s2 (sp + pb) 0)|].
  { exact Hsp2. } { lia. } { lia. } { lia. } { intros y Hy. apply (data_mapped s1 s2 p4 y D2), Hm1. lia. }
  intros r s3 [-> W3]. pose proof W3 as (D3 & _). rewrite Z.add_0_r in W3. pose proof (data_space s2 s3 D3 4 p4 Hsp2) as Hsp3.
  apply wp_bind. eapply wp_mono; [apply (write_strings_ok l2 s3 (sp + pb) (0 + blob_size l1))|].
  { exact Hsp3. } { lia. } { lia. } { lia. } { intros y Hy. apply (data_mapped s2 s3 p4 y D3), (data_mapped s1 s2 p4 y D2), Hm1. lia. }
  intros r s4 [-> W4]. apply wp_ret. rewrite Z.add_0_l in W4.
  assert (W : written p4 s1 sp (words_bytes qbuf ++ blob l1 ++ blob l2) s4).
  { apply (written_app p4 s1 sp _ _ s2); [exact W2|]. rewrite Hq. apply (written_app p4 s2 _ _ _ s3); [exact W3|exact W4]. }
  assert (Hlen : Z.of_nat (length (words_bytes qbuf ++ blob l1 ++ blob l2)) = pb + blob_size l1 + blob_size l2) by (rewrite !length_app; unfold blob_size; lia).
  assert (Hh : holds s4 sp (words_bytes qbuf ++ blob l1 ++ blob l2)) by (apply (written_holds s1); auto; try lia; intros y Hy; apply Hm1; lia).
  apply holds_app in Hh as [Hh1 Hh2]. apply holds_app in Hh2 as [Hh2 Hh3]. rewrite Hq in Hh2, Hh3. split_and!.
  - eapply grown_trans; [exact G1|]. eapply written_grown; [apply G1|exact W].
  - apply (written_keeps s s1 sp _ s4 G1 K1 W). intros y Hy (e & He & _). rewrite Hn in He by lia. discriminate.
  - unfold too_big. lia.
  - split.
    + unfold sp. rewrite Zminus_mod_idemp_r, Z.sub_diag. reflexivity.
    + lia.
    + lia.
    + eexists _, _. split; [exact Hh1|]. split; apply frame_strings; auto; lia.
  - intros y Hy. unfold has_flags. rewrite (data_leaf s1 s4 (proj1 W)). apply Hf, Hy.
Qed.
End Stack.
