(* ===== verification/ElfLoad.v ===== *)
(** Loading segments and whole programs. *)

From S2P Require Import Prelude Bytes PageTable PageSpace PageFree PageMap Elf ElfMem ElfStack.

Implicit Types (s : vm) (ph : Elf64_Phdr).

(** What the loader relies on: reads deliver the next bytes of the file,
    possibly fewer than asked for, and seeks set the position. *)
Class FileLaws (F : Type) `{ElfFile F} (contents : F -> list Z) (pos : F -> Z) : Prop := {
  vfs_read_spec f n : 0 <= n -> contents (vfs_read f n).2 = contents f /\
    match (vfs_read f n).1 with
    | inl _ => True
    | inr bs => Z.of_nat (length bs) <= n /\ bs = take (length bs) (drop (Z.to_nat (pos f)) (contents f)) /\ pos (vfs_read f n).2 = pos f + Z.of_nat (length bs)
    end;
  vfs_seek_spec f o : contents (vfs_seek f o).2 = contents f /\ (0 <= (vfs_seek f o).1 -> 0 <= o /\ pos (vfs_seek f o).2 = o) }.

(** The pages of a segment. *)
Definition seg_start (bias : Z) ph : Z := p_vaddr ph + bias.
Definition seg_lo (bias : Z) ph : Z := page_of (seg_start bias ph).
Definition seg_hi (bias : Z) ph : Z := page_of (seg_start bias ph + p_memsz ph + 4095).

(** A header the ELF format allows, with its pages below the stack. *)
Record seg_ok (bias : Z) ph : Prop := {
  so_lo : 4096 <= seg_start bias ph;
  so_file : 0 <= p_filesz ph <= p_memsz ph;
  so_offset : 0 <= p_offset ph < 2 ^ 64;
  so_hi : seg_start bias ph + p_memsz ph + 4095 < stack_base }.
Definition apart (bias : Z) ph ph' : Prop := seg_hi bias ph <= seg_lo bias ph' \/ seg_hi bias ph' <= seg_lo bias ph.
Fixpoint segments_ok (bias : Z) (phs : list Elf64_Phdr) : Prop :=
  match phs with
  | [] => True
  | ph :: phs => (p_type ph = PT_LOAD -> seg_ok bias ph /\ forall ph', ph' ∈ phs -> p_type ph' = PT_LOAD -> apart bias ph ph') /\ segments_ok bias phs
  end.

Lemma page_of_mod x : page_of x mod 4096 = 0.
Proof. unfold page_of. rewrite Zminus_mod_idemp_r, Z.sub_diag. reflexivity. Qed.

Lemma page_of_bounds x : page_of x <= x < page_of x + 4096.
Proof. unfold page_of. pose proof (Z.mod_pos_bound x 4096 ltac:(lia)). lia. Qed.

Lemma page_of_mono x y : x <= y -> page_of x <= page_of y.
Proof.
  intros H. unfold page_of. pose proof (Z.div_mod x 4096 ltac:(lia)). pose proof (Z.div_mod y 4096 ltac:(lia)). pose proof (Z.div_le_mono x y 4096 ltac:(lia) H). lia.
Qed.

Lemma to_s64_nonneg x : 0 <= x < 2 ^ 64 -> 0 <= to_s64 x -> to_s64 x = x.
Proof. intros Hx. unfold to_s64. rewrite wrap64_small by lia. destruct (Z.ltb_spec x (2 ^ 63)); lia. Qed.

Lemma flags_cacheable pf : has_flag (flags_for_phdr pf) CACHE_DIS_PAGE = false.
Proof. unfold flags_for_phdr. destruct (has_flag pf PF_W), (has_flag pf PF_X); reflexivity. Qed.


(** * Relocations on a memory *)

(** A user's memory: its bytes, [None] where nothing is mapped. *)
Definition umem : Type := Z -> option Z.
(** The [n] bytes at [va]: [Some None] if nothing is mapped there. Not defined
    outside the user's half and across the end of a page, where the loader's
    access through the alias of the page goes on into another page's memory. *)
Definition peek (m : umem) (va : Z) (n : nat) : option (option (list Z)) :=
  if (0 <=? va) && (va <? 2 ^ 47) then
    match m va with
    | None => Some None
    | Some _ =>
        if va mod 4096 + Z.of_nat n <=? 4096 then match mapM m (seqZ va (Z.of_nat n)) with Some l => Some (Some l) | None => None end
        else None
    end
  else None.
Definition poke (m : umem) (va : Z) (bs : list Z) : umem := λ x,
  if decide (va <= x < va + Z.of_nat (length bs)) then bs !! Z.to_nat (x - va) else m x.

(** The entries of the dynamic section at [va] before its DT_NULL; [Some None]
    if it runs into a page that is not mapped. *)
Fixpoint dyn_table (fuel : nat) (m : umem) (va : Z) : option (option (list (Z * Z))) :=
  match fuel with
  | O => None
  | S fuel =>
      match peek m va 16 with
      | None => None
      | Some None => Some None
      | Some (Some d) =>
          if to_s64 (le_field 0 8 d) =? DT_NULL then Some (Some [])
          else match dyn_table fuel m (wrap64 (va + 16)) with
               | Some (Some l) => Some (Some ((to_s64 (le_field 0 8 d), le_field 8 8 d) :: l))
               | r => r
               end
      end
  end.
(** The value of the last entry with a tag, [d] if there is none. *)
Definition last_of (tag d : Z) (l : list (Z * Z)) : Z := foldl (λ acc e, if e.1 =? tag then e.2 else acc) d l.

(** The next [n] relocations, from number [i] on: each stores the base plus its
    addend, in eight bytes, at its place. An error, or the memory then. *)
Fixpoint apply_relas (n : nat) (i : Z) (m : umem) (rela_va bias : Z) : option (Z + umem) :=
  match n with
  | O => Some (inr m)
  | S n =>
      match peek m (wrap64 (rela_va + bias + i * 24)) 24 with
      | None => None
      | Some None => Some (inl (- EINVAL))
      | Some (Some rel) =>
          if negb (Z.land (le_field 8 8 rel) 0xFFFFFFFF =? R_X86_64_RELATIVE) then Some (inl (- ENOTSUP)) else
          let place := wrap64 (le_field 0 8 rel + bias) in
          match peek m place 8 with
          | None => None
          | Some None => Some (inl (- EINVAL))
          | Some (Some _) => apply_relas n (i + 1) (poke m place (le_encode 8 (wrap64 (bias + le_field 16 8 rel)))) rela_va bias
          end
      end
  end.
Definition relocate (fuel : nat) (m : umem) (phs : list Elf64_Phdr) (bias : Z) : option (Z + umem) :=
  match List.find (λ ph, p_type ph =? PT_DYNAMIC) phs with
  | None => Some (inr m)
  | Some ph =>
      match dyn_table fuel m (wrap64 (p_vaddr ph + bias)) with
      | None => None
      | Some None => Some (inl (- EINVAL))
      | Some (Some l) =>
          let rela_va := last_of DT_RELA 0 l in let relasz := last_of DT_RELASZ 0 l in
          if (rela_va =? 0) || (relasz =? 0) then Some (inr m)
          else if negb (last_of DT_RELAENT 24 l =? 24) then Some (inl (- EINVAL))
          else if (relasz / 24 <? 0) || negb (Z.to_nat (relasz / 24) <? fuel)%nat then None
          else apply_relas (Z.to_nat (relasz / 24)) 0 m rela_va bias
      end
  end.

(** More fuel does not change what the reference gives. *)
Lemma dyn_table_fuel m : forall fuel fuel' va v, (fuel <= fuel')%nat -> dyn_table fuel m va = Some v -> dyn_table fuel' m va = Some v.
Proof.
  induction fuel as [|fuel IH]; intros fuel' va v Hf E; [discriminate|]. destruct fuel' as [|fuel']; [lia|]. cbn [dyn_table] in *. destruct (peek m va 16) as [[d|]|]; auto. destruct (_ =? DT_NULL); [exact E|].
  destruct (dyn_table fuel m (wrap64 (va + 16))) as [o|] eqn:Et; [|discriminate]. now rewrite (IH fuel' _ o) by (lia || exact Et).
Qed.
Lemma relocate_fuel fuel fuel' m phs bias v : (fuel <= fuel')%nat -> relocate fuel m phs bias = Some v -> relocate fuel' m phs bias = Some v.
Proof.
  unfold relocate. intros Hf E. destruct (List.find _ phs) as [ph|]; [|exact E]. destruct (dyn_table fuel m _) as [o|] eqn:Et; [|discriminate]. rewrite (dyn_table_fuel m fuel fuel' _ o Hf Et).
  destruct o as [l|]; [|exact E]. destruct (_ || _); [exact E|]. destruct (negb (last_of DT_RELAENT 24 l =? 24)); [exact E|]. destruct (_ <? 0); [exact E|]. cbn [orb] in *.
  destruct (Nat.ltb_spec (Z.to_nat (last_of DT_RELASZ 0 l / 24)) fuel); [|discriminate]. now rewrite (proj2 (Nat.ltb_lt _ _)) by lia.
Qed.

Section Load.
Context (request : gset Z -> Z) (Hreq : forall u, request u <> 0 -> is_page (request u) /\ (request u ∉ u)).
Context {F : Type} `{ElfFile F} (contents : F -> list Z) (pos : F -> Z) `{!FileLaws F contents pos} (p4 : Z).

Definition in_file (C : list Z) ph n : list Z := take n (drop (Z.to_nat (p_offset ph)) C).

(** The segment is in memory: with its permissions, the bytes of the file, and
    zeros around them. *)
Definition segment s (C : list Z) (bias : Z) ph : Prop := forall x, seg_lo bias ph <= x < seg_hi bias ph ->
  has_flags p4 s x (flags_for_phdr (p_flags ph)) /\
  user_byte s p4 x = (if decide (seg_start bias ph <= x < seg_start bias ph + p_filesz ph)
                      then C !! Z.to_nat (p_offset ph + (x - seg_start bias ph)) else Some 0).

(** ** The copy loop *)

Definition copied_in s1 C ph bias (f : F) s : Prop := contents f = C /\ written p4 s1 (seg_start bias ph) (in_file C ph (Z.to_nat (p_filesz ph))) s /\
  length (in_file C ph (Z.to_nat (p_filesz ph))) = Z.to_nat (p_filesz ph).
Definition copying_in s1 C ph bias (f : F) dst remaining s : Prop := exists done, Z.of_nat done <= p_filesz ph /\ dst = seg_start bias ph + Z.of_nat done /\
  remaining = p_filesz ph - Z.of_nat done /\ contents f = C /\ pos f = p_offset ph + Z.of_nat done /\
  length (in_file C ph done) = done /\ written p4 s1 (seg_start bias ph) (in_file C ph done) s.

Lemma in_file_more C ph done bs : 0 <= p_offset ph -> length (in_file C ph done) = done -> bs = take (length bs) (drop (Z.to_nat (p_offset ph + Z.of_nat done)) C) ->
  in_file C ph (done + length bs) = in_file C ph done ++ bs /\ length (in_file C ph (done + length bs)) = (done + length bs)%nat.
Proof using.
  intros Ho Hd Hb. assert (E : in_file C ph (done + length bs) = in_file C ph done ++ bs).
  { unfold in_file. rewrite <- take_take_drop, drop_drop. f_equal. rewrite Hb at 2. do 2 f_equal. lia. }
  split; [exact E|]. rewrite E, length_app, Hd. reflexivity.
Qed.

Lemma load_loop_ok s1 ph bias f C : seg_ok bias ph -> space 4 s1 p4 -> (forall x, seg_lo bias ph <= x < seg_hi bias ph -> mapped s1 p4 x) ->
  contents f = C -> pos f = p_offset ph ->
  wp (loop (S (Z.to_nat (p_filesz ph))) (load_step p4) (f, seg_start bias ph, p_filesz ph))
    (λ r s', grown p4 s1 s' /\ contents r.2 = C /\ ((r.1 = - EIO /\ exists l, written p4 s1 (seg_start bias ph) l s' /\ Z.of_nat (length l) <= p_filesz ph) \/ (r.1 = 0 /\ copied_in s1 C ph bias r.2 s'))) s1.
Proof using FileLaws0.
  intros [O1 O2 O3 O4] Hsp Hm HC Hpos. assert (Hlo : seg_lo bias ph <= seg_start bias ph) by apply page_of_bounds.
  assert (Hhi : seg_start bias ph + p_memsz ph <= seg_hi bias ph) by (unfold seg_hi; pose proof (page_of_bounds (seg_start bias ph + p_memsz ph + 4095)); lia).
  assert (Hst : stack_base < 2 ^ 47) by reflexivity.
  apply (wp_loop (λ n v s, n = Z.to_nat v.2 /\ copying_in s1 C ph bias v.1.1 v.1.2 v.2 s) (Z.to_nat (p_filesz ph))); [|lia|].
  { split; [reflexivity|]. exists 0%nat. split_and!; auto; try (cbn; lia). apply written_nil. }
  intros n [[f1 dst] remaining] s (-> & done & Hdn & Hdst & Hrem & HC1 & Hpos1 & Hlen & W). cbn [fst snd] in *. unfold load_step.
  assert (G : grown p4 s1 s) by (eapply written_grown; eauto).
  assert (Hpart : exists l, written p4 s1 (seg_start bias ph) l s /\ Z.of_nat (length l) <= p_filesz ph) by (exists (in_file C ph done); rewrite Hlen; auto).
  destruct (Z.ltb_spec 0 remaining) as [Hpr|Hz]; cbn [negb].
  2:{ apply wp_ret. split_and!; auto. right. split; [reflexivity|]. assert (done = Z.to_nat (p_filesz ph)) as -> by lia. split_and!; auto. }
  unfold PAGE_SIZE. set (chunk := if 4096 <? remaining then _ else _). assert (Hc : 0 < chunk <= remaining) by (subst chunk; destruct (Z.ltb_spec 4096 remaining); lia).
  destruct (vfs_read_spec f1 chunk ltac:(lia)) as [Hcs Hrd]. destruct (vfs_read f1 chunk) as [[er|bs] f2]; cbn [fst snd] in *; [apply wp_ret; split_and!; cbn; auto; congruence|].
  destruct Hrd as (Hbl & Hbs & Hp2). destruct (Z.leb_spec (Z.of_nat (length bs)) 0); [apply wp_ret; split_and!; cbn; auto; congruence|].
  pose proof W as (D & _). apply wp_bind. eapply wp_mono; [apply (write_user_ok p4 s dst bs)|].
  { apply G. } { lia. } { lia. } { intros x Hx. apply (data_mapped s1 s p4 x D), Hm. lia. }
  intros r s2 [-> W2]. apply wp_ret. rewrite !wrap64_small by lia. exists (Z.to_nat (remaining - Z.of_nat (length bs))). split; [lia|]. split; [reflexivity|].
  destruct (in_file_more C ph done bs) as [E1 E2]; [lia|exact Hlen|congruence|].
  exists (done + length bs)%nat. cbn [fst snd]. split_and!; try lia; [congruence|]. rewrite E1. apply (written_app p4 s1 _ _ _ s); [exact W|]. rewrite Hlen, <- Hdst. exact W2.
Qed.

(** ** One segment *)

Lemma seg_bounds bias ph : seg_ok bias ph -> 4096 <= seg_lo bias ph /\ seg_lo bias ph <= seg_hi bias ph <= stack_base /\
  seg_start bias ph + p_memsz ph <= seg_hi bias ph /\ seg_lo bias ph <= seg_start bias ph.
Proof using.
  intros [O1 O2 O3 O4]. unfold seg_lo, seg_hi. pose proof (page_of_bounds (seg_start bias ph)). pose proof (page_of_bounds (seg_start bias ph + p_memsz ph + 4095)).
  pose proof (page_of_mono (seg_start bias ph) (seg_start bias ph + p_memsz ph + 4095) ltac:(lia)). pose proof (page_of_mono 4096 _ O1) as Hm. change (page_of 4096) with 4096 in Hm.
  pose proof (page_of_mono _ _ (Z.lt_le_incl _ _ O4)) as Hs. change (page_of stack_base) with stack_base in Hs. lia.
Qed.

Definition load_result s C bias brk ph (r : Z * Z * F) s' : Prop :=
  grown p4 s s' /\ keeps p4 s s' /\ (forall x, user_va x -> ~ seg_lo bias ph <= x < seg_hi bias ph -> leaf s' p4 (va_path x) = leaf s p4 (va_path x)) /\ contents r.2 = C /\
  (r.1.1 = - ENOMEM \/ r.1.1 = - EIO \/ (r.1.1 = 0 /\ r.1.2 = Z.max brk (seg_hi bias ph) /\ segment s' C bias ph)).

(** From the pages full of zeros and the bytes copied. *)
Lemma segment_done s1 C bias ph f s' : seg_ok bias ph -> filled p4 s1 (flags_for_phdr (p_flags ph)) (seg_lo bias ph) (seg_hi bias ph) -> copied_in s1 C ph bias f s' -> segment s' C bias ph.
Proof using.
  intros Hok Hf (_ & W & Hl) x Hx. destruct (seg_bounds bias ph Hok) as (B1 & B2 & B3 & B4). assert (Hst : stack_base < 2 ^ 47) by reflexivity.
  assert (Hux : user_va x) by (unfold user_va; lia). destruct (Hf x Hx) as [H1 H2]. pose proof W as (D & B & _).
  split; [unfold has_flags in *; now rewrite (data_leaf _ _ D)|]. rewrite (B x Hux) by (eapply has_flags_mapped; [apply flags_cacheable|exact H1]). rewrite Hl.
  pose proof (so_file _ _ Hok). pose proof (so_offset _ _ Hok). rewrite Z2Nat.id by lia. case_decide; [|exact H2].
  unfold in_file. rewrite lookup_take_lt, lookup_drop by lia. f_equal. lia.
Qed.

Lemma written_outside s s1 bias ph l s' : seg_ok bias ph -> grown p4 s s1 -> keeps p4 s s1 -> (forall x, seg_lo bias ph <= x < seg_hi bias ph -> leaf s p4 (va_path x) = None) ->
  written p4 s1 (seg_start bias ph) l s' -> Z.of_nat (length l) <= p_filesz ph -> keeps p4 s s'.
Proof using.
  intros Hok G K Hn W Hl. apply (written_keeps p4 s s1 (seg_start bias ph) l s' G K W). intros x Hx (e & He & _). pose proof (so_file _ _ Hok). pose proof (seg_bounds bias ph Hok).
  rewrite Hn in He by lia. discriminate.
Qed.

Lemma map_pt_load_ok s f ph bias brk C : seg_ok bias ph -> space 4 s p4 -> paging_lock s = false ->
  (forall x, seg_lo bias ph <= x < seg_hi bias ph -> leaf s p4 (va_path x) = None) -> contents f = C ->
  wp (map_pt_load request p4 f ph bias brk) (load_result s C bias brk ph) s.
Proof using FileLaws0 Hreq.
  intros Hok Hsp Hlk Hn HC. pose proof (seg_bounds bias ph Hok) as (B1 & B2 & B3 & B4). pose proof Hok as [O1 O2 O3 O4].
  assert (Hst : stack_base < 2 ^ 47) by reflexivity. unfold map_pt_load. fold (seg_start bias ph). rewrite !(wrap64_small (seg_start bias ph)), !(wrap64_small (seg_start bias ph + p_memsz ph)),
    !(wrap64_small (seg_start bias ph + p_memsz ph + 4095)) by lia. rewrite !page_down by lia. fold (seg_lo bias ph) (seg_hi bias ph).
  destruct (Z.leb_spec 0xFFFF800000000000 (seg_start bias ph + p_memsz ph)); [lia|]. destruct (Z.ltb_spec (seg_lo bias ph) 0x1000); [lia|].
  apply wp_bind. eapply wp_mono; [apply (map_range_ok request Hreq p4 s (flags_for_phdr (p_flags ph)) (seg_lo bias ph) (seg_hi bias ph)); auto; try lia|].
  { apply page_of_mod. } { apply page_of_mod. } { apply flags_cacheable. }
  intros r s1 (G1 & K1 & L1 & [->|[-> Hf]]); [apply wp_ret; split_and!; cbn; auto|]. change (0 <? 0) with false. cbv iota.
  assert (Hmax : (if brk <? seg_hi bias ph then seg_hi bias ph else brk) = Z.max brk (seg_hi bias ph)) by (destruct (Z.ltb_spec brk (seg_hi bias ph)); lia).
  destruct (Z.ltb_spec 0 (p_filesz ph)) as [Hpos|Hz].
  2:{ apply wp_ret. rewrite Hmax. split_and!; cbn; auto. right. right. split_and!; auto. intros x Hx. destruct (Hf x Hx). rewrite decide_False by lia. auto. }
  destruct (vfs_seek_spec f (to_s64 (p_offset ph))) as [Hsc Hsk]. destruct (vfs_seek f (to_s64 (p_offset ph))) as [r f1]. cbn [fst snd] in *.
  destruct (Z.ltb_spec r 0) as [|Hr]; [apply wp_ret; split_and!; cbn; auto; congruence|]. destruct (Hsk Hr) as [Hp0 Hp1]. rewrite to_s64_nonneg in Hp1 by auto.
  apply wp_bind. eapply wp_mono; [apply (load_loop_ok s1 ph bias f1 C Hok)|].
  { apply G1. } { intros x Hx. eapply has_flags_mapped; [apply flags_cacheable|apply Hf, Hx]. } { congruence. } { exact Hp1. }
  intros [r1 f2] s2 (G2 & HC2 & Hr2). cbn [fst snd] in *. pose proof (grown_trans p4 _ _ _ G1 G2) as G.
  assert (Hleaf : forall l, written p4 s1 (seg_start bias ph) l s2 -> forall x, user_va x -> ~ seg_lo bias ph <= x < seg_hi bias ph -> leaf s2 p4 (va_path x) = leaf s p4 (va_path x)).
  { intros l (D & _) x Hx Hno. rewrite (data_leaf s1 s2 D). now apply L1. }
  destruct Hr2 as [(-> & l & W & Hl)|(-> & Hcp)].
  - pose proof (written_outside s s1 bias ph l s2 Hok G1 K1 Hn W Hl). apply wp_ret. split_and!; cbn; auto. exact (Hleaf l W).
  - pose proof Hcp as (_ & W & Hl). apply wp_ret. rewrite Hmax. split_and!; cbn; auto; [|exact (Hleaf _ W)|].
    + apply (written_outside s s1 bias ph _ s2 Hok G1 K1 Hn W). rewrite Hl. lia.
    + right. right. split_and!; auto. exact (segment_done s1 C bias ph f2 s2 Hok Hf Hcp).
Qed.

(** ** All segments *)

Definition brk_of (bias brk : Z) (phs : list Elf64_Phdr) : Z := foldl (λ b ph, if p_type ph =? PT_LOAD then Z.max b (seg_hi bias ph) else b) brk phs.

Lemma segment_grown s s' C bias ph : seg_ok bias ph -> grown p4 s s' -> keeps p4 s s' -> segment s C bias ph -> segment s' C bias ph.
Proof using.
  intros Hok G K Hs x Hx. destruct (Hs x Hx) as [H1 H2]. pose proof (seg_bounds bias ph Hok). assert (stack_base < 2 ^ 47) by reflexivity.
  assert (Hux : user_va x) by (unfold user_va; lia). split; [apply (grown_flags p4 s); auto using flags_cacheable|]. rewrite (K x Hux); [exact H2|].
  eapply has_flags_mapped; [apply flags_cacheable|exact H1].
Qed.

Lemma segments_in bias phs ph : segments_ok bias phs -> ph ∈ phs -> p_type ph = PT_LOAD -> seg_ok bias ph.
Proof using.
  induction phs as [|q phs IH]; [intros _ Hin; now apply elem_of_nil in Hin|]. intros [Hq Hok] [->|Hin]%elem_of_cons Ht; [now apply Hq|auto].
Qed.

Definition segments_result s C bias brk (phs : list Elf64_Phdr) (r : Z * Z * F) s' : Prop :=
  grown p4 s s' /\ keeps p4 s s' /\
  (forall x, user_va x -> (forall ph, ph ∈ phs -> p_type ph = PT_LOAD -> ~ seg_lo bias ph <= x < seg_hi bias ph) -> leaf s' p4 (va_path x) = leaf s p4 (va_path x)) /\
  (r.1.1 = - ENOMEM \/ r.1.1 = - EIO \/ (r.1.1 = 0 /\ r.1.2 = brk_of bias brk phs /\ forall ph, ph ∈ phs -> p_type ph = PT_LOAD -> segment s' C bias ph)).

Lemma load_segments_ok bias C phs : forall s f brk, segments_ok bias phs -> space 4 s p4 -> paging_lock s = false ->
  (forall ph x, ph ∈ phs -> p_type ph = PT_LOAD -> seg_lo bias ph <= x < seg_hi bias ph -> leaf s p4 (va_path x) = None) -> contents f = C ->
  wp (load_segments request p4 bias f brk phs) (segments_result s C bias brk phs) s.
Proof using FileLaws0 Hreq.
  induction phs as [|ph phs IH]; intros s f brk Hok Hsp Hlk Hn HC.
  { apply wp_ret. split_and!; [now apply grown_refl|easy|easy|]. right. right. split_and!; auto. intros ph Hin. now apply elem_of_nil in Hin. }
  destruct Hok as [Hph Hok]. cbn [load_segments]. unfold PT_LOAD in *. destruct (Z.eqb_spec (p_type ph) 1) as [Ht|Ht]; cbn [negb].
  2:{ eapply wp_mono; [apply (IH s f brk Hok Hsp Hlk); [intros ph' x Hin; apply Hn; now right|exact HC]|]. intros r s' (G & K & L & Hr). split_and!; auto.
    { intros x Hx Hno. apply L; [exact Hx|]. intros ph' Hin. apply Hno. now right. }
    destruct Hr as [?|[?|(E0 & E1 & Hs)]]; auto. right. right. split_and!; auto. { rewrite E1. unfold brk_of. cbn [foldl]. unfold PT_LOAD. now rewrite (proj2 (Z.eqb_neq _ _) Ht). }
    intros ph' [->|Hin]%elem_of_cons; [easy|auto]. }
  destruct (Hph Ht) as [Hsok Hap]. apply wp_bind. eapply wp_mono; [apply (map_pt_load_ok s f ph bias brk C Hsok Hsp Hlk); [|exact HC]|].
  { intros x. apply (Hn ph x); [now left|exact Ht]. }
  intros [[r brk1] f1] s1 (G1 & K1 & L1 & HC1 & Hr1). cbn [fst snd] in *.
  assert (Hout : forall x, user_va x -> (forall ph', ph' ∈ ph :: phs -> p_type ph' = 1 -> ~ seg_lo bias ph' <= x < seg_hi bias ph') -> leaf s1 p4 (va_path x) = leaf s p4 (va_path x)).
  { intros x Hx Hno. apply L1; [exact Hx|]. apply (Hno ph); [now left|exact Ht]. }
  assert (Hneg : forall e : Z, e < 0 -> e = - ENOMEM \/ e = - EIO -> wp (if e <? 0 then ret (e, brk1, f1) else load_segments request p4 bias f1 brk1 phs) (segments_result s C bias brk (ph :: phs)) s1).
  { intros e He Hee. rewrite (proj2 (Z.ltb_lt e 0) He). apply wp_ret. split_and!; cbn; tauto. }
  destruct Hr1 as [->|[->|(-> & -> & Hseg)]]; [apply Hneg; [reflexivity|auto]|apply Hneg; [reflexivity|auto]|]. change (0 <? 0) with false. cbv iota.
  eapply wp_mono; [apply (IH s1 f1 _ Hok (gr_space _ _ _ G1))|].
  { now rewrite (proj1 (gr_rest _ _ _ G1)). }
  { intros ph' x Hin Ht' Hx. destruct (Hap ph' Hin Ht') as [Ha|Ha]; (rewrite L1; [apply (Hn ph' x); [now right|exact Ht'|exact Hx]| |lia]).
    all: pose proof (seg_bounds bias ph' (segments_in bias phs ph' Hok Hin Ht')); assert (stack_base < 2 ^ 47) by reflexivity; unfold user_va; lia. }
  { exact HC1. }
  intros r s2 (G2 & K2 & L2 & Hr2). split_and!; [eapply grown_trans; eauto|eapply bytes_kept_trans; eauto| |].
  - intros x Hx Hno. rewrite L2; [now apply Hout|exact Hx|]. intros ph' Hin. apply Hno. now right.
  - destruct Hr2 as [?|[?|(E0 & E1 & Hs)]]; auto. right. right. split_and!; auto. { rewrite E1. unfold brk_of. cbn [foldl]. unfold PT_LOAD. now rewrite (proj2 (Z.eqb_eq _ _) Ht). }
    intros ph' [->|Hin]%elem_of_cons Ht'; [|auto]. now apply (segment_grown s1).
Qed.

(** ** Relocations *)

(** The loaded segments as a memory: the bytes of the file and zeros. *)
Definition image_memory (C : list Z) (bias : Z) (phs : list Elf64_Phdr) : umem := λ x,
  match List.find (λ ph, (p_type ph =? PT_LOAD) && ((seg_lo bias ph <=? x) && (x <? seg_hi bias ph))) phs with
  | None => None
  | Some ph => if decide (seg_start bias ph <= x < seg_start bias ph + p_filesz ph) then C !! Z.to_nat (p_offset ph + (x - seg_start bias ph)) else Some 0
  end.

(** The space shows the memory [m]. *)
Definition shows s (m : umem) : Prop := forall x, user_va x -> user_byte s p4 x = m x /\ (is_Some (m x) -> mapped s p4 x) /\ (m x = None -> leaf s p4 (va_path x) = None).

Lemma segments_shown s C bias phs : space 4 s p4 -> segments_ok bias phs -> (forall ph, ph ∈ phs -> p_type ph = PT_LOAD -> segment s C bias ph) ->
  (forall x, user_va x -> (forall ph, ph ∈ phs -> p_type ph = PT_LOAD -> ~ seg_lo bias ph <= x < seg_hi bias ph) -> leaf s p4 (va_path x) = None) -> shows s (image_memory C bias phs).
Proof using.
  intros Hsp Hok Hseg Hno x Hx. unfold image_memory. destruct (List.find _ phs) as [ph|] eqn:E.
  - apply List.find_some in E as [Hin [Ht%Z.eqb_eq [H1%Z.leb_le H2%Z.ltb_lt]%andb_true_iff]%andb_true_iff]. apply list_elem_of_In in Hin. destruct (Hseg ph Hin Ht x (conj H1 H2)) as [Hf Hb]. rewrite <- Hb.
    assert (mapped s p4 x) as Hm by (eapply has_flags_mapped; [apply flags_cacheable|exact Hf]). split; [reflexivity|]. split; [auto|]. intros En. destruct Hm as (e & He & Hpc). exfalso. rewrite user_byte_at, He in En. cbn [mbind option_bind] in En.
    destruct (mapped_bytes s p4 x e (entry_phys e + x mod 4096) Hsp Hx He Hpc) as [b Eb]; [|congruence]. apply page_of_add; [apply entry_phys_mod|]. apply Z.mod_pos_bound. lia.
  - rewrite user_byte_at. rewrite Hno; [split; [reflexivity|split; [intros [b Hb]; discriminate|reflexivity]]|exact Hx|]. intros ph Hin%list_elem_of_In Ht Hr. apply (List.find_none _ _ E) in Hin. rewrite Ht in Hin.
    rewrite (proj2 (Z.leb_le _ _)), (proj2 (Z.ltb_lt _ _)) in Hin by lia. discriminate.
Qed.

Lemma mapM_seq_ext {A} (f g : Z -> option A) n : forall a b, (forall i, 0 <= i < Z.of_nat n -> f (a + i) = g (b + i)) -> mapM f (seqZ a (Z.of_nat n)) = mapM g (seqZ b (Z.of_nat n)).
Proof using.
  induction n as [|n IH]; intros a b Hfg; [reflexivity|]. rewrite (seqZ_cons a), (seqZ_cons b) by lia. rewrite Nat2Z.inj_succ, Z.pred_succ. cbn [mapM]. rewrite <- (Z.add_0_r a), <- (Z.add_0_r b), (Hfg 0), !Z.add_0_r by lia.
  rewrite (IH (Z.succ a) (Z.succ b)); [reflexivity|]. intros i Hi. rewrite !Z.add_succ_l, <- !Z.add_succ_r. apply Hfg. lia.
Qed.
Lemma read_phys_run s n : forall a l, mapM (byte_at s) (seqZ a (Z.of_nat n)) = Some l -> read_phys a n s = Some (l, s).
Proof using.
  induction n as [|n IH]; intros a l E; [now injection E as <-|]. rewrite seqZ_cons in E by lia. rewrite Nat2Z.inj_succ, Z.pred_succ in E. cbn [mapM] in E. destruct (byte_at s a) as [b|] eqn:Eb; [|discriminate].
  cbn [mbind option_bind] in E. destruct (mapM (byte_at s) (seqZ (Z.succ a) (Z.of_nat n))) as [l'|] eqn:El; [|discriminate]. injection E as <-. cbn [read_phys]. unfold bind, get. rewrite Eb. cbn [of_option]. unfold ret. now rewrite (IH (a + 1) l') by exact El.
Qed.

Section Access.
Context (s : vm) (m : umem) (Hsp : space 4 s p4) (Hm : shows s m).

Lemma peek_none va n : peek m va n = Some None -> user_va_to_kvirt p4 va s = Some (None, s).
Proof using Hsp Hm.
  unfold peek. destruct (Z.leb_spec 0 va), (Z.ltb_spec va (2 ^ 47)); cbn [andb]; try discriminate. destruct (m va) eqn:Em.
  { case_match; [|discriminate]. destruct (mapM _ _); discriminate. }
  intros _. destruct (Hm va) as (_ & _ & Hl); [unfold user_va; lia|]. pose proof (user_va_to_kvirt_ok p4 s va Hsp ltac:(unfold user_va; lia)) as Hw. rewrite (Hl Em) in Hw.
  apply wp_run in Hw as (r & s' & E & -> & ->). exact E.
Qed.
(** Code that reads or writes where the reference does. *)
Lemma peek_some va n l : peek m va n = Some (Some l) -> exists p, user_va_to_kvirt p4 va s = Some (Some p, s) /\ read_phys p n s = Some (l, s) /\
  forall bs, length bs = n -> wp (memcpy_to p bs) (λ _ s', data_only s s' /\ grown p4 s s' /\ shows s' (poke m va bs)) s.
Proof using Hsp Hm.
  unfold peek. destruct (Z.leb_spec 0 va), (Z.ltb_spec va (2 ^ 47)); cbn [andb]; try discriminate. destruct (m va) eqn:Em; [|discriminate]. destruct (Z.leb_spec (va mod 4096 + Z.of_nat n) 4096) as [Hn|]; [|discriminate].
  destruct (mapM m _) as [l'|] eqn:El; [|discriminate]. intros [= ->]. assert (Hva : user_va va) by (unfold user_va; lia). destruct (Hm va Hva) as (_ & Hmap & _). rewrite Em in Hmap. destruct (Hmap (ltac:(now eexists))) as (e & He & Hpc).
  exists (entry_phys e + va mod 4096). pose proof (user_va_to_kvirt_ok p4 s va Hsp Hva) as Hw. rewrite He in Hw. apply wp_run in Hw as (r & s' & E & -> & ->). split; [exact E|].
  pose proof (Z.mod_pos_bound va 4096 ltac:(lia)) as Hmod. pose proof (Z.div_mod va 4096 ltac:(lia)) as Hdm.
  assert (Hin : forall i, 0 <= i < Z.of_nat n -> user_va (va + i) /\ page_of (va + i) = page_of va /\ (va + i) mod 4096 = va mod 4096 + i).
  { intros i Hi. assert (page_of (va + i) = page_of va) as Ep. { apply page_of_eq; [apply page_of_mod|]. pose proof (page_of_bounds va). unfold page_of in *. lia. }
    split_and!; [|exact Ep|unfold page_of in Ep; lia]. unfold user_va. assert (2 ^ 47 mod 4096 = 0) by reflexivity. assert (page_of va + 4096 <= 2 ^ 47); [|pose proof (page_of_bounds (va + i)); lia].
    pose proof (page_of_bounds va). pose proof (page_of_mod va). pose proof (Z.div_mod (page_of va) 4096 ltac:(lia)). pose proof (Z.div_mod (2 ^ 47) 4096 ltac:(lia)). lia. }
  split.
  - apply read_phys_run. rewrite <- El. apply mapM_seq_ext. intros i Hi. destruct (Hin i Hi) as (I1 & I2 & I3). rewrite <- (proj1 (Hm _ I1)), user_byte_at. rewrite <- (va_path_page_of (va + i)), I2, va_path_page_of, He.
    cbn [mbind option_bind]. f_equal. lia.
  - intros bs Hl. eapply wp_mono; [apply (write_chunk_ok p4 s va e bs Hsp Hva He Hpc); lia|]. intros u s' W. pose proof W as (D & B & _). split; [exact D|]. split; [now apply (written_grown p4 s va bs)|].
    intros x Hx. destruct (Hm x Hx) as (M1 & M2 & M3). unfold poke. rewrite (data_leaf _ _ D). destruct (decide (va <= x < va + Z.of_nat (length bs))) as [Hr|Hr].
    + destruct (Hin (x - va) ltac:(lia)) as (_ & I2 & _). replace (va + (x - va)) with x in I2 by lia. assert (mapped s p4 x) as Hmx by (apply (mapped_page s p4 va); [congruence|now exists e]).
      rewrite (B x Hx Hmx). rewrite decide_True by exact Hr. split; [reflexivity|]. split; [intros _; now apply (data_mapped s s')|]. intros En. apply lookup_ge_None in En. lia.
    + split; [|split; [intros Hs; apply (data_mapped s s'); auto|exact M3]]. destruct (m x) as [b|] eqn:Eb; [rewrite (B x Hx) by (apply M2; now eexists); now rewrite decide_False|].
      rewrite user_byte_at, (data_leaf _ _ D), (M3 eq_refl). reflexivity.
Qed.
End Access.

Lemma wrap_step a b c : wrap64 (a + wrap64 (b + c)) = wrap64 (wrap64 (a + b) + c).
Proof using. unfold wrap. rewrite Zplus_mod_idemp_r, Zplus_mod_idemp_l. f_equal. lia. Qed.

Lemma dyn_loop_run s m dyn_va fuel : space 4 s p4 -> shows s m -> forall off a b c v, dyn_table fuel m (wrap64 (dyn_va + off)) = Some v ->
  loop fuel (dyn_step p4 dyn_va) (off, (a, b, c)) s = Some ((λ l, (last_of DT_RELA a l, last_of DT_RELASZ b l, last_of DT_RELAENT c l)) <$> v, s).
Proof using.
  intros Hsp Hm. induction fuel as [|fuel IH]; intros off a b c v E; [discriminate|]. cbn [dyn_table] in E. rewrite loop_S. unfold bind at 1, dyn_step at 1, bind at 1.
  destruct (peek m _ 16) as [[d|]|] eqn:Ed; [| |discriminate].
  2:{ injection E as <-. now rewrite (peek_none s m Hsp Hm _ 16 Ed). }
  destruct (peek_some s m Hsp Hm _ 16 d Ed) as (p & -> & Er & _). unfold bind at 1. rewrite Er. unfold DT_NULL in *. destruct (Z.eqb_spec (to_s64 (le_field 0 8 d)) 0) as [|Hne]; [injection E as <-; reflexivity|].
  rewrite <- wrap_step in E. destruct (dyn_table fuel m _) as [[l|]|] eqn:Et; [| |discriminate]; injection E as <-; unfold ret at 1; change SIZEOF_DYN with 16;
    match goal with |- loop _ _ (_, ?f) _ = _ => destruct f as [[a' b'] c'] eqn:Ef end; rewrite (IH _ a' b' c' _ Et); [|reflexivity].
  cbn [fmap option_fmap option_map]. do 2 f_equal. unfold last_of at 4 5 6. cbn [foldl fst snd]. unfold DT_RELA, DT_RELASZ, DT_RELAENT in *.
  destruct (Z.eqb_spec (to_s64 (le_field 0 8 d)) 7) as [E7|]; [rewrite E7; injection Ef as <- <- <-; reflexivity|]. destruct (Z.eqb_spec (to_s64 (le_field 0 8 d)) 8) as [E8|]; [rewrite E8; injection Ef as <- <- <-; reflexivity|].
  destruct (Z.eqb_spec (to_s64 (le_field 0 8 d)) 9) as [E9|]; injection Ef as <- <- <-; reflexivity.
Qed.

(** What a relocation run did. *)
Definition relocated_as (v : Z + umem) s (r : Z) s' : Prop :=
  data_only s s' /\ grown p4 s s' /\ match v with inl e => r = e /\ (e = - EINVAL \/ e = - ENOTSUP) | inr m' => r = 0 /\ shows s' m' end.

Lemma rela_loop_run bias rela_va count n : forall fuel i s m v, space 4 s p4 -> shows s m -> (n < fuel)%nat -> 0 <= i -> count = i + Z.of_nat n -> apply_relas n i m rela_va bias = Some v ->
  wp (loop fuel (rela_step p4 bias rela_va 24 count) i) (relocated_as v s) s.
Proof using.
  induction n as [|n IH]; intros fuel i s m v Hsp Hm Hf Hi Hc E; (destruct fuel as [|fuel]; [lia|]); cbn [apply_relas] in E; rewrite loop_S; apply wp_bind; unfold rela_step at 1.
  { injection E as <-. rewrite (proj2 (Z.ltb_ge i count)) by lia. apply wp_ret, wp_ret. split; [apply data_refl|]. split; [now apply grown_refl|auto]. }
  rewrite (proj2 (Z.ltb_lt i count)) by lia. cbn [negb]. apply wp_bind. assert (Hstop : forall e, e = - EINVAL \/ e = - ENOTSUP -> relocated_as (inl e) s e s) by (intros e He; split; [apply data_refl|]; split; [now apply grown_refl|auto]).
  destruct (peek m _ 24) as [[rel|]|] eqn:Er; [| |discriminate].
  2:{ injection E as <-. eapply wp_intro; [apply (peek_none s m Hsp Hm _ _ Er)|]. apply wp_ret, wp_ret. auto. }
  destruct (peek_some s m Hsp Hm _ _ rel Er) as (p & Ep & Erd & _). eapply wp_intro; [exact Ep|]. apply wp_bind. eapply wp_intro; [exact Erd|]. destruct (_ =? R_X86_64_RELATIVE); cbn [negb] in *.
  2:{ injection E as <-. apply wp_ret, wp_ret. auto. }
  apply wp_bind. destruct (peek m _ 8) as [[old|]|] eqn:Et; [| |discriminate].
  2:{ injection E as <-. eapply wp_intro; [apply (peek_none s m Hsp Hm _ _ Et)|]. apply wp_ret, wp_ret. auto. }
  destruct (peek_some s m Hsp Hm _ _ old Et) as (q & Eq & _ & Hw). eapply wp_intro; [exact Eq|]. apply wp_bind. eapply wp_mono; [apply Hw, le_encode_length|]. intros _ s1 (D1 & G1 & M1). apply wp_ret.
  eapply wp_mono; [apply (IH fuel (i + 1) s1 _ v (gr_space _ _ _ G1) M1); [lia|lia|lia|exact E]|]. intros r s2 (D2 & G2 & Hr). split; [now apply (data_trans s s1)|]. split; [now apply (grown_trans p4 s s1)|exact Hr].
Qed.

(** The loader's relocations are those of the reference. *)
Lemma relocations_ok fuel s m phs bias v : space 4 s p4 -> shows s m -> relocate fuel m phs bias = Some v -> wp (apply_pie_relocations fuel p4 phs bias) (relocated_as v s) s.
Proof using.
  intros Hsp Hm E. unfold relocate in E. unfold apply_pie_relocations. assert (Hstay : relocated_as (inr m) s 0 s) by (split; [apply data_refl|]; split; [now apply grown_refl|auto]).
  destruct (List.find _ phs) as [ph|]; [|injection E as <-; now apply wp_ret]. destruct (dyn_table fuel m _) as [o|] eqn:Ed; [|discriminate]. apply wp_bind.
  eapply wp_intro; [apply (dyn_loop_run s m _ fuel Hsp Hm 0 0 0 SIZEOF_RELA o)|].
  { rewrite Z.add_0_r. replace (wrap64 (wrap64 (p_vaddr ph + bias))) with (wrap64 (p_vaddr ph + bias)); [exact Ed|]. unfold wrap. now rewrite Z.mod_mod. }
  destruct o as [l|]; cbn [fmap option_fmap option_map].
  2:{ injection E as <-. apply wp_ret. split; [apply data_refl|]. split; [now apply grown_refl|auto]. }
  destruct (_ || _); [injection E as <-; now apply wp_ret|]. unfold SIZEOF_RELA in *. destruct (Z.eqb_spec (last_of DT_RELAENT 24 l) 24) as [E24|]; cbn [negb] in *.
  2:{ injection E as <-. apply wp_ret. split; [apply data_refl|]. split; [now apply grown_refl|auto]. }
  rewrite E24. destruct (Z.ltb_spec (last_of DT_RELASZ 0 l / 24) 0); cbn [orb] in E; [discriminate|]. destruct (Nat.ltb_spec (Z.to_nat (last_of DT_RELASZ 0 l / 24)) fuel) as [Hf|]; [|discriminate].
  apply (rela_loop_run bias _ _ (Z.to_nat (last_of DT_RELASZ 0 l / 24)) fuel 0 s m v); auto; lia.
Qed.

(** ** The image *)
Context (kmalloc : Z -> Z).

(** The segment shows the bytes of [m] with its permissions. *)
Definition in_place s (m : umem) (bias : Z) ph : Prop := forall x, seg_lo bias ph <= x < seg_hi bias ph -> has_flags p4 s x (flags_for_phdr (p_flags ph)) /\ user_byte s p4 x = m x.

Definition image s (m : umem) (eh : Elf64_Ehdr) (phs : list Elf64_Phdr) l1 l2 (img : elf64_image_t) : Prop :=
  let bias := if e_type eh =? ET_EXEC then 0 else USER_VIRTUAL in
  (forall ph, ph ∈ phs -> p_type ph = PT_LOAD -> in_place s m bias ph) /\
  initial_stack p4 s (stack_top img) l1 l2 /\ (forall x, stack_base <= x < USER_STACK_TOP_VA -> has_flags p4 s x stack_flags) /\
  img_entry img = wrap64 (e_entry eh + bias) /\ img_base img = bias /\ brk img = brk_of bias 0 phs /\ cr3_phys img = p4.

Lemma in_place_grown s s' m bias ph : seg_ok bias ph -> grown p4 s s' -> keeps p4 s s' -> in_place s m bias ph -> in_place s' m bias ph.
Proof using.
  intros Hok G K Hs x Hx. destruct (Hs x Hx) as [H1 H2]. pose proof (seg_bounds bias ph Hok). assert (stack_base < 2 ^ 47) by reflexivity.
  assert (Hux : user_va x) by (unfold user_va; lia). split; [apply (grown_flags p4 s); auto using flags_cacheable|]. rewrite (K x Hux); [exact H2|].
  eapply has_flags_mapped; [apply flags_cacheable|exact H1].
Qed.

Lemma load_image_ok fuel s eh phs argv envp f C v : let bias := if e_type eh =? ET_EXEC then 0 else USER_VIRTUAL in
  segments_ok bias phs -> relocate fuel (image_memory C bias phs) phs bias = Some v -> space 4 s p4 -> paging_lock s = false ->
  (forall π, path_ok 4 π -> leaf s p4 π = None) -> contents f = C -> blob_size (default [] argv) + blob_size (default [] envp) < 2 ^ 64 ->
  wp (load_image request kmalloc fuel eh phs argv envp f p4) (λ r s', grown p4 s s' /\
    match r with
    | inl e => e = - ENOMEM \/ e = - EIO \/ v = inl e /\ (e = - EINVAL \/ e = - ENOTSUP) \/ (e = - E2BIG /\ too_big (default [] argv) (default [] envp))
    | inr img => exists m, v = inr m /\ image s' m eh phs (default [] argv) (default [] envp) img
    end) s.
Proof using FileLaws0 Hreq.
  intros bias Hok Hrel Hsp Hlk Hn HC Hsz. assert (Hst : USER_STACK_TOP_VA < 2 ^ 47 /\ 0 < stack_base < USER_STACK_TOP_VA) by done.
  assert (Hnone : forall x, user_va x -> leaf s p4 (va_path x) = None) by (intros x Hx; now apply Hn, va_path_ok).
  assert (Hbelow : forall ph, ph ∈ phs -> p_type ph = PT_LOAD -> seg_ok bias ph) by (intros ph; now apply segments_in).
  unfold load_image. fold bias. apply wp_bind. eapply wp_mono; [apply (load_segments_ok bias C phs s f 0 Hok Hsp Hlk); [|exact HC]|].
  { intros ph x Hin Ht Hx. pose proof (seg_bounds bias ph (Hbelow ph Hin Ht)). apply Hnone. unfold user_va. lia. }
  intros [[r brk] f1] s1 (G1 & K1 & L1 & Hr). cbn [fst snd] in *. destruct Hr as [->|[->|(-> & -> & Hseg)]]; [apply wp_ret; auto|apply wp_ret; auto|]. change (0 <? 0) with false. cbv iota.
  pose proof (segments_shown s1 C bias phs (gr_space _ _ _ G1) Hok Hseg) as Hm1. assert (shows s1 (image_memory C bias phs)) as Hm by (apply Hm1; intros x Hx Hno; rewrite L1 by auto; now apply Hnone). clear Hm1.
  apply wp_bind. eapply wp_mono; [apply (relocations_ok fuel s1 _ phs bias v (gr_space _ _ _ G1) Hm Hrel)|]. intros r s2 (D2 & G2 & Hr). pose proof (grown_trans p4 _ _ _ G1 G2) as G12.
  destruct v as [e|m].
  { destruct Hr as [-> He]. assert (e < 0) by (destruct He as [-> | ->]; reflexivity). rewrite (proj2 (Z.ltb_lt e 0)) by assumption. apply wp_ret. split; [exact G12|]. auto 6. }
  destruct Hr as [-> Hm2]. change (0 <? 0) with false. cbv iota.
  assert (forall ph, ph ∈ phs -> p_type ph = PT_LOAD -> in_place s2 m bias ph) as Hplace.
  { intros ph Hin Ht x Hx. pose proof (seg_bounds bias ph (Hbelow ph Hin Ht)). split; [apply (grown_flags p4 s1); auto using flags_cacheable; [unfold user_va; lia|now apply (Hseg ph Hin Ht)]|]. apply Hm2. unfold user_va. lia. }
  apply wp_bind. eapply wp_mono; [apply (setup_ok request Hreq p4 kmalloc s2 argv envp (gr_space _ _ _ G2))|].
  { now rewrite (proj1 (gr_rest _ _ _ G12)). }
  { intros x Hx. assert (Hux : user_va x) by (unfold user_va; lia). rewrite (data_leaf s1 s2 D2), L1; [now apply Hnone|exact Hux|]. intros ph Hin Ht. pose proof (seg_bounds bias ph (Hbelow ph Hin Ht)). lia. }
  { exact Hsz. }
  intros r s3 (G3 & K3 & Hr). pose proof (grown_trans p4 _ _ _ G12 G3) as G. destruct r as [e|sp]; apply wp_ret; (split; [exact G|]); [tauto|].
  destruct Hr as (Hnb & His & Hfl). exists m. split; [reflexivity|]. split_and!; auto. intros ph Hin Ht. apply (in_place_grown s2); auto.
Qed.
End Load.
