(* ===== verification/ElfThms.v ===== *)
(** What the loader promises: the initial stack, and a program loaded whole or
    not at all. *)

From S2P Require Import Prelude Bytes PageTable PageSpace PageFree PageMap PageThms Elf ElfMem ElfStack ElfLoad.

Implicit Types (s : vm).

(** * Leaving the space alone *)
Section Agree.
Context (p4 : Z) (s s' : vm) (Hsp : space 4 s p4) (Ha : agree 4 s s' p4).

Lemma agree_flags x flags : user_va x -> has_flags p4 s x flags -> has_flags p4 s' x flags.
Proof using Ha. intros Hx. unfold has_flags. now rewrite (leaf_ext 4 s s' p4 _ Ha (va_path_ok x Hx)). Qed.

Lemma agree_byte x flags : user_va x -> has_flag flags CACHE_DIS_PAGE = false -> has_flags p4 s x flags -> user_byte s' p4 x = user_byte s p4 x.
Proof using Hsp Ha. intros Hx Hnc (e & phy & He). apply user_byte_ext; auto. intros e' He'. rewrite He in He'. now injection He' as <-. Qed.

Lemma agree_place m bias ph : seg_ok bias ph -> in_place p4 s m bias ph -> in_place p4 s' m bias ph.
Proof using Hsp Ha.
  intros Hok Hs x Hx. destruct (Hs x Hx) as [H1 H2]. pose proof (seg_bounds bias ph Hok). assert (stack_base < 2 ^ 47) by reflexivity.
  assert (Hux : user_va x) by (unfold user_va; lia). split; [now apply agree_flags|]. now rewrite (agree_byte x _ Hux (flags_cacheable _) H1).
Qed.

Context (Hst : forall x, stack_base <= x < USER_STACK_TOP_VA -> has_flags p4 s x stack_flags).

Lemma stack_va x : stack_base <= x < USER_STACK_TOP_VA -> user_va x.
Proof using. unfold user_va. assert (USER_STACK_TOP_VA < 2 ^ 47 /\ 0 < stack_base) by done. lia. Qed.

Lemma agree_holds a bs : stack_base <= a -> a + Z.of_nat (length bs) <= USER_STACK_TOP_VA -> holds p4 s a bs -> holds p4 s' a bs.
Proof using Hsp Ha Hst.
  intros H1 H2 H i b Hi. pose proof (lookup_lt_Some _ _ _ Hi). assert (Hr : stack_base <= a + Z.of_nat i < USER_STACK_TOP_VA) by lia.
  rewrite (agree_byte _ stack_flags (stack_va _ Hr)); [now apply H|reflexivity|now apply Hst].
Qed.

Lemma agree_stack sp l1 l2 : initial_stack p4 s sp l1 l2 -> initial_stack p4 s' sp l1 l2.
Proof using Hsp Ha Hst.
  intros [I1 I2 I3 (ps1 & ps2 & Hw & F1 & F2)]. pose proof (Forall2_length F1) as L1. pose proof (Forall2_length F2) as L2. split; auto. exists ps1, ps2.
  assert (Hstr : forall ps l, Forall2 (λ q a, sp < q /\ q + cstrlen a + 1 <= USER_STACK_TOP_VA /\ holds p4 s q (a ++ [0])) ps l ->
    Forall2 (λ q a, sp < q /\ q + cstrlen a + 1 <= USER_STACK_TOP_VA /\ holds p4 s' q (a ++ [0])) ps l).
  { intros ps l HF. eapply Forall2_impl; [|exact HF]. intros q a (? & ? & ?). split_and!; auto. apply agree_holds; auto; [lia|]. rewrite length_app. unfold cstrlen in *. cbn [length]. lia. }
  split_and!; auto. apply agree_holds; auto. rewrite words_bytes_size, !length_app. cbn [length]. lia.
Qed.
End Agree.

(** * Programs *)

Definition elf_header (C : list Z) : Elf64_Ehdr := parse_ehdr (take 64 C).
Definition elf_phdrs (C : list Z) : list Elf64_Phdr :=
  let eh := elf_header C in parse_phdrs (Z.to_nat (e_phnum eh)) (take (Z.to_nat (e_phnum eh * 56)) (drop (Z.to_nat (e_phoff eh)) C)).
Definition elf_bias (C : list Z) : Z := if e_type (elf_header C) =? ET_EXEC then 0 else USER_VIRTUAL.

(** The program's memory once it is loaded and relocated, or the error of the
    relocations; not defined when an entry of the tables or a place to relocate
    crosses the end of a page or lies outside the user's half, or when [fuel] is
    not enough. *)
Definition elf_memory (C : list Z) : umem := image_memory C (elf_bias C) (elf_phdrs C).
Definition elf_relocated (fuel : nat) (C : list Z) : option (Z + umem) := relocate fuel (elf_memory C) (elf_phdrs C) (elf_bias C).

(** A file that is no program, or one whose segments are as the format has them,
    lie above page 0 and below the stack and share no page, and whose
    relocations are defined. *)
Definition program_ok (fuel : nat) (C : list Z) : Prop := Forall is_byte C /\
  (ehdr_ok (elf_header C) = true -> segments_ok (elf_bias C) (elf_phdrs C) /\ is_Some (elf_relocated fuel C)).

(** The memory before the relocations, in the pages of a segment: the bytes of
    the file, and zeros around them. *)
Lemma segment_memory bias phs C ph x : segments_ok bias phs -> ph ∈ phs -> p_type ph = PT_LOAD -> seg_lo bias ph <= x < seg_hi bias ph ->
  image_memory C bias phs x = if decide (seg_start bias ph <= x < seg_start bias ph + p_filesz ph) then C !! Z.to_nat (p_offset ph + (x - seg_start bias ph)) else Some 0.
Proof.
  unfold image_memory. induction phs as [|q phs IH]; [intros _ Hin; now apply elem_of_nil in Hin|]. intros [Hq Hok] [->|Hin]%elem_of_cons Ht Hx; cbn [List.find].
  - rewrite Ht. cbn [Z.eqb Pos.eqb PT_LOAD andb]. rewrite (proj2 (Z.leb_le _ _)), (proj2 (Z.ltb_lt _ _)) by lia. reflexivity.
  - destruct ((p_type q =? PT_LOAD) && _) eqn:E; [|now apply IH]. apply andb_true_iff in E as [Hqt%Z.eqb_eq [H1%Z.leb_le H2%Z.ltb_lt]%andb_true_iff]. destruct (proj2 (Hq Hqt) ph Hin Ht); lia.
Qed.
(** Without a dynamic section nothing is relocated. *)
Lemma no_dynamic fuel C : (forall ph, ph ∈ elf_phdrs C -> p_type ph <> PT_DYNAMIC) -> elf_relocated fuel C = Some (inr (elf_memory C)).
Proof.
  intros Hd. unfold elf_relocated, relocate. destruct (List.find _ _) as [ph|] eqn:E; [|reflexivity]. apply List.find_some in E as [Hin%list_elem_of_In E%Z.eqb_eq]. now elim (Hd ph).
Qed.

Lemma le_field_range o n C : Forall is_byte C -> 0 <= le_field o n C < 256 ^ Z.of_nat n.
Proof.
  intros HC. unfold le_field. assert (Hb : Forall is_byte (take n (drop o C))) by (apply Forall_take, Forall_drop, HC). pose proof (le_decode_range _ Hb) as [H1 H2].
  split; [exact H1|]. eapply Z.lt_le_trans; [exact H2|]. apply Z.pow_le_mono_r; [lia|]. rewrite length_take. lia.
Qed.

Lemma e_phoff_range C : Forall is_byte C -> 0 <= e_phoff (elf_header C) < 2 ^ 64.
Proof. intros HC. apply (le_field_range 32 8). now apply Forall_take. Qed.

Lemma e_phnum_range C : Forall is_byte C -> 0 <= e_phnum (elf_header C).
Proof. intros HC. apply (le_field_range 56 2). now apply Forall_take. Qed.

(** ** Around the image: the scratch page and the new root *)
Section Around.
Context (pml4 c scratch : Z) (s s2 s3 : vm) (Hsb : scratch ∉ busy s).
Context (Hroot : fresh_root pml4 (set_busy ({[scratch]} ∪ busy s) s) c s2) (Hg : grown c s2 s3).

Lemma root_busy2 g : g ∈ busy s2 <-> g = c \/ g = scratch \/ g ∈ busy s.
Proof using Hroot. destruct Hroot as (_ & _ & -> & _). simpl. now rewrite !elem_of_union, !elem_of_singleton. Qed.

Lemma root_ne g : g ∈ busy s -> g <> c /\ g <> scratch.
Proof using Hroot Hsb.
  destruct Hroot as (_ & Hc & _). simpl in Hc. rewrite elem_of_union, elem_of_singleton in Hc. intros Hg'. split; intros E; [apply Hc; right; now rewrite <- E|apply Hsb; now rewrite <- E].
Qed.

Lemma root_scratch : scratch <> c.
Proof using Hroot. destruct Hroot as (_ & Hc & _). simpl in Hc. rewrite elem_of_union, elem_of_singleton in Hc. intros E. apply Hc. now left. Qed.

Lemma root_space : space 4 s2 c /\ (forall π f, owned 4 s2 c π f -> π = [] /\ f = c) /\ forall π, path_ok 4 π -> leaf s2 c π = None.
Proof using Hroot. apply blank_space; [easy|apply Hroot|]. apply root_busy2. auto. Qed.

Lemma grown_foreign g : g ∈ busy s2 -> g <> c -> forall π, ~ owned 4 s3 c π g.
Proof using Hroot Hg. intros Hb Hne π Ho. destruct (gr_own _ _ _ Hg π g Ho) as [(π' & Ho')|Hn]; [|contradiction]. now apply (proj1 (proj2 root_space)) in Ho' as [_ ?]. Qed.

Lemma around_same g : g ∈ busy s -> same_at s s3 g.
Proof using Hroot Hg Hsb.
  intros Hb. destruct (root_ne g Hb) as [H1 H2]. destruct Hroot as (_ & _ & _ & Hs & _). destruct (Hs g H1) as [A1 A2]. simpl in A1, A2.
  destruct (gr_same _ _ _ Hg g) as [B1 B2]; [apply root_busy2; auto| |split; congruence]. intros π Ho. now apply (proj1 (proj2 root_space)) in Ho as [_ ?].
Qed.

Lemma around_busy g : g ∈ busy s3 <-> g = scratch \/ g ∈ busy s \/ exists π, owned 4 s3 c π g.
Proof using Hroot Hg.
  split.
  - intros Hb. destruct (gr_new _ _ _ Hg g Hb) as [H|H]; [|auto]. apply root_busy2 in H as [->|[H|H]]; auto. right. right. exists []. reflexivity.
  - intros [->|[H|(π & Ho)]]; [apply (gr_busy _ _ _ Hg), root_busy2; auto|apply (gr_busy _ _ _ Hg), root_busy2; auto|apply (sp_live _ _ _ (gr_space _ _ _ Hg) π g Ho)].
Qed.

(** Success: only the scratch page is given back. *)
Lemma finish_ok (Q : unit -> vm -> Prop) :
  (forall s', agree 4 s3 s' c -> space 4 s' c -> (forall g, g ∈ busy s' <-> g ∈ busy s \/ exists π, owned 4 s' c π g) -> (forall g, g ∈ busy s -> same_at s s' g) -> Q tt s') ->
  wp (FreeBuddy scratch) Q s3.
Proof using All.
  intros HQ. pose proof (grown_foreign scratch (proj2 (root_busy2 scratch) (or_intror (or_introl eq_refl))) root_scratch) as Hno.
  apply wp_free; [apply around_busy; auto|]. set (s' := set_busy _ _).
  assert (Hs : forall g, g <> scratch -> same_at s3 s' g) by (intros g Hne; split; unfold s'; simpl; now rewrite lookup_delete_ne by auto).
  assert (Hb : forall g, g ∈ busy s' <-> g ∈ busy s3 /\ g <> scratch) by (intros g; unfold s'; simpl; now rewrite elem_of_difference, elem_of_singleton).
  assert (Ha : agree 4 s3 s' c) by (intros π g Ho; apply Hs; intros ->; now apply (Hno π)).
  assert (Hown : forall π g, owned 4 s' c π g <-> owned 4 s3 c π g) by (apply owned_ext, Ha). apply HQ; [exact Ha| | |].
  - apply (space_ext 4 s3); [exact Ha| |apply Hg]. intros π g Ho. apply Hb. split; [apply (sp_live _ _ _ (gr_space _ _ _ Hg) π g Ho)|intros ->; now apply (Hno π)].
  - intros g. rewrite Hb, around_busy. setoid_rewrite Hown. split; [tauto|]. intros [H|(π & Ho)]; (split; [eauto|]); [apply root_ne, H|intros ->; now apply (Hno π)].
  - intros g H. destruct (around_same g H) as [A1 A2]. destruct (Hs g) as [B1 B2]; [apply root_ne, H|split; congruence].
Qed.

(** Failure: everything is. *)
Lemma undo_ok {A} (x : A) (Q : A -> vm -> Prop) :
  (forall s', (forall g, g ∈ busy s' <-> g ∈ busy s) -> (forall g, g ∈ busy s -> same_at s s' g) -> Q x s') ->
  wp (free_user_address_space c;; free_cloned_pml4 c;; FreeBuddy scratch;; ret x) Q s3.
Proof using All.
  intros HQ. pose proof (gr_space _ _ _ Hg) as Hsp. pose proof (grown_foreign scratch (proj2 (root_busy2 scratch) (or_intror (or_introl eq_refl))) root_scratch) as Hno.
  apply wp_bind. eapply wp_mono; [apply (free_user_ok s3 c Hsp)|]. intros _ s4 [F1 F2 _ _ _].
  assert (Hc4 : c ∈ busy s4) by (apply F1; split; [now apply (sp_live _ _ _ Hsp [])|]; intros (π & Hne & Ho); now apply Hne, (sp_inj _ _ _ Hsp π [] c)).
  assert (Hs4 : scratch ∈ busy s4) by (apply F1; split; [apply around_busy; auto|]; intros (π & _ & Ho); now apply (Hno π)).
  apply wp_bind. apply wp_free; [exact Hc4|]. apply wp_bind. apply wp_free; [simpl; rewrite elem_of_difference, elem_of_singleton; split; [exact Hs4|apply root_scratch]|]. set (s' := set_busy _ _).
  assert (Hb : forall g, g ∈ busy s' <-> g ∈ busy s4 /\ g <> c /\ g <> scratch) by (intros g; unfold s'; simpl; rewrite !elem_of_difference, !elem_of_singleton; tauto). apply wp_ret, HQ.
  - intros g. rewrite Hb, F1, around_busy. split.
    + intros ([[?|[?|(π & Ho)]] Hn] & Hgc & Hgs); [contradiction|auto|]. destruct π as [|i π]; [now elim Hgc|]. elim Hn. exists (i :: π). split; [easy|exact Ho].
    + intros H. destruct (root_ne g H) as [H1 H2]. split_and!; auto. intros (π & _ & Ho). apply (grown_foreign g (proj2 (root_busy2 g) (or_intror (or_intror H))) H1 π Ho).
  - intros g H. destruct (root_ne g H) as [H1 H2]. destruct (around_same g H) as [A1 A2].
    destruct (F2 g (grown_foreign g (proj2 (root_busy2 g) (or_intror (or_intror H))) H1)) as [B1 B2]. unfold s'. split; simpl; rewrite !lookup_delete_ne by auto; congruence.
Qed.
End Around.

Section Claims.
Context (request : gset Z -> Z) (Hreq : forall u, request u <> 0 -> is_page (request u) /\ (request u ∉ u)).
Context (kmalloc : Z -> Z).

(** C22. The initial stack of a program stays within the four pages mapped for
    it: on success the stack pointer is 16-byte aligned, and the count, both
    pointer arrays with their terminators, the empty auxiliary vector and every
    string lie between it and the top, each pointer at its own string. The only
    failures are lack of memory and arguments over the limits (256 entries an
    array, 4096 bytes of strings in all), and those always fail. Nothing mapped
    before changes. *)
Theorem initial_stack_in_bounds s p4 argv envp : space 4 s p4 -> paging_lock s = false ->
  (forall x, stack_base <= x < USER_STACK_TOP_VA -> leaf s p4 (va_path x) = None) -> blob_size (default [] argv) + blob_size (default [] envp) < 2 ^ 64 ->
  wp (setup_user_stack request kmalloc p4 argv envp) (λ r s',
    match r with
    | inl e => e = - ENOMEM \/ (e = - E2BIG /\ too_big (default [] argv) (default [] envp))
    | inr sp => ~ too_big (default [] argv) (default [] envp) /\ initial_stack p4 s' sp (default [] argv) (default [] envp) /\
                (forall x, stack_base <= x < USER_STACK_TOP_VA -> has_flags p4 s' x RW_USER)
    end /\ space 4 s' p4 /\ (forall va, user_va va -> mapped s p4 va -> user_byte s' p4 va = user_byte s p4 va) /\
    (forall f, f ∈ busy s -> (forall π, ~ owned 4 s p4 π f) -> same_at s s' f)) s.
Proof using Hreq.
  intros Hsp Hlk Hn Hsz. eapply wp_mono; [now apply (setup_ok request Hreq p4 kmalloc s argv envp)|]. intros r s' (G & K & Hr).
  split_and!; [exact Hr|apply G|exact K|apply G].
Qed.

Context (pml4 : Z) {F : Type} `{ElfFile F} (contents : F -> list Z) (pos : F -> Z) `{!FileLaws F contents pos}.

(** A read that delivers all it was asked for. *)
Lemma read_whole f n bs f' : 0 <= n -> vfs_read f n = (inr bs, f') -> Z.of_nat (length bs) = n ->
  contents f' = contents f /\ bs = take (Z.to_nat n) (drop (Z.to_nat (pos f)) (contents f)).
Proof using FileLaws0.
  intros Hn E Hl. destruct (vfs_read_spec f n Hn) as [H1 H2]. rewrite E in H1, H2. cbn [fst snd] in *. destruct H2 as (_ & H2 & _). split; [exact H1|]. now rewrite <- Hl, Nat2Z.id.
Qed.

(** The part after the headers were read. *)
Definition load_body fuel eh phs argv envp (f : F) : M vm (Z + elf64_image_t) :=
  let* scratch := RequestBuddy request in
  if scratch =? 0 then ret (inl (- ENOMEM)) else
  let* cr3 := clone_kernel_pml4 request pml4 in
  if cr3 =? 0 then FreeBuddy scratch;; ret (inl (- ENOMEM)) else
  let* r := load_image request kmalloc fuel eh phs argv envp f cr3 in
  match r with
  | inr img => FreeBuddy scratch;; ret (inr img)
  | inl r => free_user_address_space cr3;; free_cloned_pml4 cr3;; FreeBuddy scratch;; ret (inl r)
  end.

Definition load_post s (v : Z + umem) eh phs argv envp (r : Z + elf64_image_t) s' : Prop :=
  match r with
  | inl e => e < 0 /\ forall g, g ∈ busy s' <-> g ∈ busy s
  | inr img =>
      let c := cr3_phys img in
      space 4 s' c /\ (exists m, v = inr m /\ image c s' m eh phs (default [] argv) (default [] envp) img) /\ (forall j, 256 <= j < 512 -> ent s' c j = ent s pml4 j) /\
      (forall π g, owned 4 s' c π g -> g ∉ busy s) /\ (forall g, g ∈ busy s' <-> g ∈ busy s \/ exists π, owned 4 s' c π g)
  end /\ (forall g, g ∈ busy s -> same_at s s' g).

Lemma load_fail s v eh phs argv envp e : e < 0 -> load_post s v eh phs argv envp (inl e) s.
Proof using. intros He. split; [auto|]. intros g _. split; reflexivity. Qed.

Lemma load_body_ok fuel s eh phs argv envp f C v : let bias := if e_type eh =? ET_EXEC then 0 else USER_VIRTUAL in
  kernel_root pml4 s -> paging_lock s = false -> segments_ok bias phs ->
  relocate fuel (image_memory C bias phs) phs bias = Some v -> contents f = C -> blob_size (default [] argv) + blob_size (default [] envp) < 2 ^ 64 ->
  wp (load_body fuel eh phs argv envp f) (load_post s v eh phs argv envp) s.
Proof using Hreq FileLaws0.
  intros bias (Hkb & kes & Ek & Hkl) Hlk Hok Hrel HC Hsz. unfold load_body. apply wp_bind. apply (wp_request request Hreq); [intros _; now apply wp_ret, load_fail|].
  intros sc _ Hsc0 Hscb. rewrite (proj2 (Z.eqb_neq sc 0) Hsc0). set (s1 := set_busy _ s).
  assert (Hk1 : kernel_root pml4 s1) by (split; [unfold s1; simpl; now apply elem_of_union_r|exists kes; auto]).
  apply wp_bind. eapply wp_mono; [apply (clone_kernel_ok request Hreq pml4 s1 Hk1)|]. intros c s2 [[-> ->]|(Hc0 & Hroot)].
  { cbn [Z.eqb]. apply wp_bind. apply wp_free; [unfold s1; simpl; rewrite elem_of_union, elem_of_singleton; auto|]. apply wp_ret. split.
    - split; [reflexivity|]. intros g. unfold s1. simpl. rewrite elem_of_difference, elem_of_union, !elem_of_singleton. split; [tauto|]. intros Hg. split; [auto|]. intros ->. contradiction.
    - intros g Hg. assert (sc <> g) by (intros ->; contradiction). split; simpl; now rewrite lookup_delete_ne by auto. }
  rewrite (proj2 (Z.eqb_neq c 0) Hc0). destruct (root_space pml4 c sc s s2 Hroot) as (Hsp & Hown & Hlf).
  apply wp_bind. eapply wp_mono; [apply (load_image_ok request Hreq contents pos c kmalloc fuel s2 eh phs argv envp f C v Hok Hrel Hsp); auto|].
  { destruct Hroot as (_ & _ & _ & _ & (R & _) & _). rewrite R. exact Hlk. }
  intros [e|img] s3 [G Hr].
  - apply (undo_ok pml4 c sc s s2 s3 Hscb Hroot G). intros s' Hb Hs. split; [split; [|exact Hb]|exact Hs]. destruct Hr as [->|[->|[(_ & [-> | ->])|[-> _]]]]; reflexivity.
  - apply wp_bind. apply (finish_ok pml4 c sc s s2 s3 Hscb Hroot G). intros s' Ha Hsp' Hb Hs. apply wp_ret. destruct Hr as (m & Ev & Hr). pose proof Hr as (Hseg & His & Hfl & E1 & E2 & E3 & E4).
    pose proof (gr_space _ _ _ G) as Hsp3. split; [|exact Hs]. cbv zeta. rewrite E4. split; [exact Hsp'|]. split; [|split; [|split; [|exact Hb]]].
    + assert (Hfl' : forall x, stack_base <= x < USER_STACK_TOP_VA -> has_flags c s' x stack_flags) by (intros x Hx; apply (agree_flags c s3 s' Ha); auto using stack_va).
      exists m. split; [exact Ev|]. split; [|split; [|auto]].
      * intros ph Hin Ht. apply (agree_place c s3 s' Hsp3 Ha); [now apply (segments_in _ phs)|auto].
      * apply (agree_stack c s3 s' Hsp3 Ha); auto.
    + intros j Hj. unfold ent at 1. rewrite (proj1 (Ha [] c eq_refl)). change (ent s3 c j = ent s pml4 j). rewrite (gr_kernel _ _ _ G j Hj). destruct Hroot as (_ & _ & _ & _ & _ & _ & Hker). exact (Hker j Hj).
    + intros π g Ho Hg. apply (owned_ext 4 s3 s' c Ha) in Ho. destruct (root_ne pml4 c sc s s2 Hscb Hroot g Hg) as [Hne _].
      apply (grown_foreign pml4 c sc s s2 s3 Hroot G g) with π; auto. apply (root_busy2 pml4 c sc s s2 Hroot). auto.
Qed.

(** C23. Loading a program is all or nothing. The program may be fixed or
    position independent, with any table of relocations. Its segments, if it is
    a program, have at most as many bytes in the file as in memory, lie from the
    second page up to the stack and share no page (segments that share one lose
    it: [shared_page_leaks]), and no entry of its dynamic section and relocation
    table and no place to relocate crosses the end of a page (where the loader
    reads and writes foreign memory: [rela_crosses_page]).
    [fuel] exceeds the number of entries of either table; more of it changes
    nothing ([relocate_fuel]).
    Then a failure - a file that cannot be read or is no program, too little
    memory, arguments over the limits, a relocation of another kind or outside
    the program - gives back every page that was taken. A success yields a new
    address space, made of new pages only, that shares the kernel's half, holds
    every segment with its permissions and with the bytes of the file and zeros
    behind them as the relocations leave them - the base plus the addend at the
    place of each - the initial stack, and the entry point of the header. No
    page in use before is touched either way. *)
Theorem load_all_or_nothing fuel s f argv envp : kernel_root pml4 s -> paging_lock s = false -> pos f = 0 -> program_ok fuel (contents f) ->
  blob_size (default [] argv) + blob_size (default [] envp) < 2 ^ 64 ->
  wp (load_elf64_argv request pml4 kmalloc fuel f argv envp) (λ r s',
    match r with
    | inl e => e < 0 /\ forall g, g ∈ busy s' <-> g ∈ busy s
    | inr img =>
        let c := cr3_phys img in
        space 4 s' c /\
        (exists m, elf_relocated fuel (contents f) = Some (inr m) /\ image c s' m (elf_header (contents f)) (elf_phdrs (contents f)) (default [] argv) (default [] envp) img) /\
        ehdr_ok (elf_header (contents f)) = true /\ (forall j, 256 <= j < 512 -> ent s' c j = ent s pml4 j) /\
        (forall π g, owned 4 s' c π g -> g ∉ busy s) /\ (forall g, g ∈ busy s' <-> g ∈ busy s \/ exists π, owned 4 s' c π g)
    end /\ (forall g, g ∈ busy s -> same_at s s' g)) s.
Proof using Hreq FileLaws0.
  intros Hk Hlk Hpos [HC Hprog] Hsz. set (C := contents f) in *.
  set (good := λ (r : Z + elf64_image_t) s', exists v, (forall img, r = inr img -> elf_relocated fuel C = Some v /\ ehdr_ok (elf_header C) = true) /\ load_post s v (elf_header C) (elf_phdrs C) argv envp r s').
  apply (wp_mono _ good).
  2:{ intros r s' (v & H3 & H1 & H2). split; [|exact H2]. destruct r as [e|img]; [exact H1|]. destruct (H3 img eq_refl) as [-> Heh]. destruct H1 as (? & (m & -> & ?) & ? & ? & ?). split_and!; eauto. }
  unfold load_elf64_argv.
  assert (Hfail : forall e, e < 0 -> wp (ret (inl e)) good s) by (intros e He; apply wp_ret; exists (inl 0); split; [discriminate|now apply load_fail]).
  destruct (vfs_read f SIZEOF_EHDR) as [[er|hb] f1] eqn:E1; [now apply Hfail|]. destruct (Z.eqb_spec (Z.of_nat (length hb)) SIZEOF_EHDR) as [Hl1|]; [|now apply Hfail]. cbn [negb].
  destruct (read_whole f SIZEOF_EHDR hb f1 ltac:(unfold SIZEOF_EHDR; lia) E1 Hl1) as [HC1 ->]. rewrite Hpos, drop_0. change (Z.to_nat SIZEOF_EHDR) with 64%nat. fold C. fold (elf_header C).
  destruct (ehdr_ok (elf_header C)) eqn:Heh; [|now apply Hfail]. cbn [negb]. destruct (Hprog eq_refl) as [Hok [v Hrel]].
  destruct (kmalloc _ =? 0); [now apply Hfail|]. destruct (vfs_seek_spec f1 (to_s64 (e_phoff (elf_header C)))) as [Hsc Hsk].
  destruct (vfs_seek f1 _) as [r f2]. cbn [fst snd] in *. destruct (Z.ltb_spec r 0) as [|Hr]; [now apply Hfail|]. destruct (Hsk Hr) as [Hp0 Hp2].
  rewrite to_s64_nonneg in Hp2 by (auto using e_phoff_range). pose proof (e_phnum_range C HC) as Hnum.
  destruct (vfs_read f2 _) as [[er|pb] f3] eqn:E3; [now apply Hfail|]. destruct (Z.eqb_spec (Z.of_nat (length pb)) (e_phnum (elf_header C) * SIZEOF_PHDR)) as [Hl3|]; [|now apply Hfail]. cbn [negb].
  destruct (read_whole f2 (e_phnum (elf_header C) * SIZEOF_PHDR) pb f3 ltac:(unfold SIZEOF_PHDR; lia) E3 Hl3) as [HC3 ->]. rewrite Hp2, Hsc, HC1. fold C. fold (elf_phdrs C).
  fold (load_body fuel (elf_header C) (elf_phdrs C) argv envp f3). eapply wp_mono; [apply (load_body_ok fuel s (elf_header C) (elf_phdrs C) argv envp f3 C v Hk Hlk); [exact Hok|exact Hrel|now rewrite HC3, Hsc|exact Hsz]|].
  intros r' s' Hpost. exists v. auto.
Qed.
End Claims.

(** * A program in memory *)
Module Ram.
(** A file is its bytes and a position. *)
#[export] Instance ram_file : ElfFile (list Z * Z) := {|
  vfs_read f n := let bs := take (Z.to_nat n) (drop (Z.to_nat f.2) f.1) in (inr bs, (f.1, f.2 + Z.of_nat (length bs)));
  vfs_seek f o := if o <? 0 then (- EINVAL, f) else (o, (f.1, o)) |}.

#[export] Instance ram_laws : FileLaws (list Z * Z) fst snd.
Proof.
  split.
  - intros f n Hn. cbn. split; [reflexivity|]. split_and!; [rewrite length_take; lia| |reflexivity].
    rewrite length_take. symmetry. destruct (Nat.min_spec (Z.to_nat n) (length (drop (Z.to_nat f.2) f.1))) as [[? ->]|[? ->]]; [reflexivity|]. now rewrite firstn_all, take_ge by lia.
  - intros f o. cbn. destruct (Z.ltb_spec o 0); cbn; [split; [reflexivity|unfold EINVAL; lia]|auto].
Qed.

Definition kmalloc (n : Z) : Z := 1.

Definition header (ty entry phoff phnum : Z) : list Z := [0x7F; 69; 76; 70; 2; 1; 1; 0; 0; 0; 0; 0; 0; 0; 0; 0] ++ le_encode 2 ty ++ le_encode 2 EM_X86_64 ++ le_encode 4 1 ++
  le_encode 8 entry ++ le_encode 8 phoff ++ le_encode 8 0 ++ le_encode 4 0 ++ le_encode 2 64 ++ le_encode 2 56 ++ le_encode 2 phnum ++ le_encode 2 0 ++ le_encode 2 0 ++ le_encode 2 0.
Definition phdr (ty flags offset vaddr filesz memsz : Z) : list Z :=
  le_encode 4 ty ++ le_encode 4 flags ++ le_encode 8 offset ++ le_encode 8 vaddr ++ le_encode 8 vaddr ++ le_encode 8 filesz ++ le_encode 8 memsz ++ le_encode 8 4096.
(** An executable with one segment of five bytes and eight of memory. *)
Definition program : list Z := header ET_EXEC 0x400003 64 1 ++ phdr PT_LOAD 5 120 0x400003 5 8 ++ [1; 2; 3; 4; 5].

Definition entries (l : list (Z * Z)) : list Z := concat (map (λ e, le_encode 8 e.1 ++ le_encode 8 e.2) l).
Definition rela (place kind addend : Z) : list Z := le_encode 8 place ++ le_encode 8 kind ++ le_encode 8 addend.
(** A position independent program as the repository's are: a segment to read,
    write and execute with its dynamic section, here at address [v], eight bytes
    of data at [v], and one relocation at [table]. *)
Definition pie (v table : Z) : list Z := let size := table + 24 - v in
  header ET_DYN v 64 2 ++ phdr PT_LOAD 7 176 v size size ++ phdr PT_DYNAMIC 6 184 (v + 8) 64 64 ++
  le_encode 8 0 ++ entries [(DT_RELA, table); (DT_RELASZ, 24); (DT_RELAENT, 24); (DT_NULL, 0)] ++ replicate (Z.to_nat (table - v - 72)) 7 ++ rela v R_X86_64_RELATIVE 0x123.

Lemma bytes_ok C : forallb (λ b, (0 <=? b) && (b <? 256)) C = true -> Forall is_byte C.
Proof. intros E. rewrite forallb_forall in E. apply List.Forall_forall. intros b Hb. apply E, andb_true_iff in Hb as [H1%Z.leb_le H2%Z.ltb_lt]. split; assumption. Qed.
Lemma pie_fine : program_ok 5 (pie 0x100 0x150).
Proof.
  split; [apply bytes_ok; vm_compute; reflexivity|]. intros _. split; [|assert (is_Some_b : bool_decide (is_Some (elf_relocated 5 (pie 0x100 0x150))) = true) by (vm_compute; reflexivity); now apply bool_decide_eq_true_1 in is_Some_b].
  replace (elf_phdrs (pie 0x100 0x150)) with [Phdr PT_LOAD 7 176 0x100 0x68 0x68; Phdr PT_DYNAMIC 6 184 0x108 64 64] by (vm_compute; reflexivity). replace (elf_bias (pie 0x100 0x150)) with USER_VIRTUAL by (vm_compute; reflexivity).
  split; [|split; [discriminate|exact I]]. intros _. split; [split; vm_compute; intuition discriminate|]. intros ph' [->|Hin]%elem_of_cons; [discriminate|now apply elem_of_nil in Hin].
Qed.
End Ram.
Import (hints) Ram.

Lemma initial_stack_in_bounds_witness : exists r s',
  setup_user_stack Demo.request Ram.kmalloc Demo.root (Some [[97; 98]; [99]]) None Demo.empty = Some (r, s') /\ space 4 s' Demo.root.
Proof.
  pose proof (initial_stack_in_bounds Demo.request Demo.request_ok Ram.kmalloc Demo.empty Demo.root (Some [[97; 98]; [99]]) None (proj1 Demo.empty_space) eq_refl
    (λ x Hx, proj2 Demo.empty_space _ (va_path_ok x (stack_va x Hx))) ltac:(vm_compute; reflexivity)) as H.
  destruct (proj1 (wp_run _ _ _) H) as (r & s' & E & _ & H' & _). exists r, s'. split; [exact E|exact H'].
Defined.

Lemma load_all_or_nothing_witness : exists r s',
  load_elf64_argv Demo.request Demo.kroot Ram.kmalloc 5 (Ram.pie 0x100 0x150, 0) (Some [[97; 98]]) None Demo.empty = Some (r, s') /\ forall g, g ∈ busy Demo.empty -> same_at Demo.empty s' g.
Proof.
  pose proof (load_all_or_nothing Demo.request Demo.request_ok Ram.kmalloc Demo.kroot fst snd 5%nat Demo.empty (Ram.pie 0x100 0x150, 0) (Some [[97; 98]]) None
    (conj Demo.kroot_busy (ex_intro _ zero_table (conj Demo.kroot_zero zero_table_length))) eq_refl eq_refl Ram.pie_fine ltac:(vm_compute; reflexivity)) as H.
  destruct (proj1 (wp_run _ _ _) H) as (r & s' & E & _ & H'). exists r, s'. split; [exact E|exact H'].
Defined.

(** On this machine the load succeeds; the entry point, the segment's bytes
    with the zero before and after, and the count on the stack. *)
Example load_demo :
  (r ← load_elf64_argv Demo.request Demo.kroot Ram.kmalloc 1 (Ram.program, 0) (Some [[97; 98]]) None Demo.empty;
   match r.1 with
   | inr img => Some (img_entry img, brk img, (λ x, user_byte r.2 (cr3_phys img) x) <$> [0x400002; 0x400003; 0x400007; 0x400008; stack_top img])
   | inl _ => None end) = Some (0x400003, 0x401000, [Some 0; Some 1; Some 5; Some 0; Some 1]).
Proof. vm_compute. reflexivity. Qed.

(** The position independent program at its base: the entry point, the data
    relocated, and the byte behind it. *)
Example load_pie_demo :
  (r ← load_elf64_argv Demo.request Demo.kroot Ram.kmalloc 5 (Ram.pie 0x100 0x150, 0) None None Demo.empty;
   match r.1 with
   | inr img => Some (img_entry img, (λ x, user_byte r.2 (cr3_phys img) x) <$> seqZ 0x40000100 9)
   | inl _ => None end) = Some (0x40000100, [Some 0x23; Some 1; Some 0; Some 0x40; Some 0; Some 0; Some 0; Some 0; Some 7]).
Proof. vm_compute. reflexivity. Qed.
(** A relocation of another kind fails, and all pages are free again. *)
Example load_pie_fails :
  let C := take (length (Ram.pie 0x100 0x150) - 16) (Ram.pie 0x100 0x150) ++ le_encode 8 6 ++ le_encode 8 0 in
  (r ← load_elf64_argv Demo.request Demo.kroot Ram.kmalloc 5 (C, 0) None None Demo.empty;
   Some (match r.1 with inl e => e | inr _ => 0 end, bool_decide (busy r.2 = busy Demo.empty))) = Some (- ENOTSUP, true).
Proof. vm_compute. reflexivity. Qed.

(** * Where the code falls short *)

(** A relocation entry that crosses the end of a page, as entries of 24 bytes do
    that are only aligned to eight: its second part is read behind the physical
    page of the first, which here is a page table and none of the program's
    memory. The same program with the entry moved to the page's start loads. *)
Example rela_crosses_page :
  let load C := r ← load_elf64_argv Demo.request Demo.kroot Ram.kmalloc 5 (C, 0) None None Demo.empty; Some (match r.1 with inl e => e | inr img => img_entry img end) in
  load (Ram.pie 0xF00 0xFF8) = None /\ load (Ram.pie 0xF00 0x1000) = Some 0x40000F00.
Proof. split; vm_compute; reflexivity. Qed.

(** Two segments that share a page: the second mapping replaces the first, the
    first page is lost, and so are its bytes. *)
Example shared_page_leaks :
  let phs := [Phdr PT_LOAD 5 120 0x400000 5 8; Phdr PT_LOAD 6 120 0x400800 5 8] in
  (r ← (let* _ := load_segments Demo.request Demo.root 0 (Ram.program, 0) 0 phs in
        let* s := get in
        free_user_address_space Demo.root;; ret (user_byte s Demo.root 0x400000)) Demo.empty;
   Some (r.1, size (busy Demo.empty), size (busy r.2))) = Some (Some 0, 3%nat, 4%nat).
Proof. vm_compute. reflexivity. Qed.

(** An address above the user half passes the check and is mapped through the
    kernel's half of the root. *)
Example kernel_half_mapped :
  (r ← (let* r := map_pt_load Demo.request Demo.root (Ram.program, 0) (Phdr PT_LOAD 6 120 0x800000000000 0 8) 0 0 in
        let* e := entry Demo.root 256 in ret (r.1.1, present e, user e)) Demo.empty; Some r.1) = Some (0, true, true).
Proof. vm_compute. reflexivity. Qed.
