(* ===== verification/Namei.v ===== *)
(** Names to files: the directory-entry cache, mounts and path resolution
    (src/file_system/dcache.c, vfs_dentry.c, vfs_mount.c, vfs_path.c, the
    checks of vfs_inode.c and the path operations of vfs_path_ops.c).

    Directory entries live in a store indexed by their address; 0 is NULL. An
    inode is given by its identity on the file system, which is reached through
    an interface. Paths and names are lists of bytes without the final NUL. *)

From S2P Require Import Prelude CString.

Definition VFS_TYPE_DIR : Z := 2.
Definition VFS_TYPE_SYMLINK : Z := 3.
Definition VFS_NAME_MAX : Z := 255.
Definition VFS_PATH_MAX : Z := 4096.
Definition VFS_SYMLINK_MAX : Z := 40.
Definition S_IMMUTABLE : Z := 2.
Definition GOLDEN_RATIO_32 : Z := 0x61C88647.
Definition DCACHE_SIZE : Z := 1024.
Definition slash : Z := 47.
Definition dot : Z := 46.

Inductive mount_type_t := MOUNT_NONE | MOUNT_BIND | MOUNT_FILESYSTEM.
#[export] Instance mount_type_eq_dec : EqDecision mount_type_t.
Proof. solve_decision. Defined.

Record dentry_t := Dentry { mount_type : mount_type_t; mount_dentry : Z; name : list Z; inode : option Z; parent : Z }.
Definition set_inode v d := Dentry (mount_type d) (mount_dentry d) (name d) v (parent d).
Definition set_mount t m d := Dentry t m (name d) (inode d) (parent d).

(** What the names need of a file system: the type and flags of an inode, the
    [lookup] of a name in a directory, and the text of a symbolic link (an
    error or its bytes). *)
Class FileSys (FS : Type) := {
  itype : FS -> Z -> Z;
  iflags : FS -> Z -> Z;
  fs_lookup : FS -> Z -> list Z -> option Z;
  fs_readlink : FS -> Z -> Z + list Z }.

Section Names.
Context {FS : Type} `{FileSys FS} (kmalloc : gset Z -> Z).

Record vfs := Vfs {
  dentries : gmap Z dentry_t;
  dcache_table : list (list Z);     (** each bucket from its head *)
  vfs_root : Z;
  cwd : Z;                          (** of the current task *)
  fsys : FS }.
Definition set_dentries v s := Vfs v (dcache_table s) (vfs_root s) (cwd s) (fsys s).
Definition set_dcache v s := Vfs (dentries s) v (vfs_root s) (cwd s) (fsys s).
Definition set_root v s := Vfs (dentries s) (dcache_table s) v (cwd s) (fsys s).
Definition set_cwd v s := Vfs (dentries s) (dcache_table s) (vfs_root s) v (fsys s).

(** [d->field] and [d->field = ...] *)
Definition dget (d : Z) : M vfs dentry_t := let* s := get in of_option (dentries s !! d).
Definition dset (d : Z) (f : dentry_t -> dentry_t) : M vfs unit :=
  let* s := get in let* e := of_option (dentries s !! d) in modify (set_dentries (<[d := f e]> (dentries s))).

(** * The cache *)

Definition hash_char (h c : Z) : Z := wrap64 (wrap64 (wrap64 (Z.shiftl h 5) + h) + wrap64 (to_s8 c)).
Definition hash_dentry (p : Z) (n : list Z) : Z := foldl hash_char (wrap64 (p * GOLDEN_RATIO_32)) n mod DCACHE_SIZE.

Definition bucket_get (b : Z) : M vfs (list Z) := let* s := get in of_option (arr_get (dcache_table s) b).
Definition bucket_set (b : Z) (l : list Z) : M vfs unit :=
  let* s := get in let* t := of_option (arr_set (dcache_table s) b l) in modify (set_dcache t).

Definition dCachePut (d : Z) : M vfs unit :=
  let* e := dget d in
  let b := hash_dentry (parent e) (name e) in
  let* l := bucket_get b in
  bucket_set b (d :: l).

(** Unlinks the first entry for [d]. *)
Fixpoint unlink_entry (d : Z) (l : list Z) : list Z :=
  match l with [] => [] | x :: l => if x =? d then l else x :: unlink_entry d l end.
Definition dCacheRemove (d : Z) : M vfs unit :=
  let* e := dget d in
  let b := hash_dentry (parent e) (name e) in
  let* l := bucket_get b in
  bucket_set b (unlink_entry d l).

Fixpoint bucket_find (p : Z) (n : list Z) (l : list Z) : M vfs Z :=
  match l with
  | [] => ret 0
  | d :: l => let* e := dget d in if (parent e =? p) && bool_decide (name e = n) then ret d else bucket_find p n l
  end.
Definition dCacheLookup (p : Z) (n : list Z) : M vfs Z := let* l := bucket_get (hash_dentry p n) in bucket_find p n l.

(** * Directory entries *)

Definition vfs_dentry_alloc (p : Z) (n : list Z) : M vfs Z :=
  let len := Z.of_nat (length n) in
  if (len =? 0) || (VFS_NAME_MAX <? len) then ret 0 else
  let* s := get in
  let d := kmalloc (dom (dentries s)) in
  if d =? 0 then ret 0 else
  modify (set_dentries (<[d := Dentry MOUNT_NONE 0 n None p]> (dentries s)));;
  ret d.

Definition vfs_dentry_free (d : Z) : M vfs unit :=
  if d =? 0 then ret tt else
  dCacheRemove d;;
  modify (λ s, set_dentries (delete d (dentries s)) s).

(** [vfs_lookup]: fills in the inode of [d]. *)
Definition vfs_lookup (dir : Z) (d : Z) : M vfs Z :=
  let* s := get in
  if negb (itype (fsys s) dir =? VFS_TYPE_DIR) then ret (- ENOTDIR) else
  let* e := dget d in
  match fs_lookup (fsys s) dir (name e) with
  | None => ret (- ENOENT)
  | Some i => dset d (set_inode (Some i));; ret 0
  end.

Definition vfs_dentry_get (p : Z) (n : list Z) : M vfs Z :=
  if p =? 0 then ret 0 else
  let* e := dget p in
  match inode e with
  | None => ret 0
  | Some dir =>
      let* hit := dCacheLookup p n in
      if negb (hit =? 0) then ret hit else
      let* d := vfs_dentry_alloc p n in
      if d =? 0 then ret 0 else
      let* r := vfs_lookup dir d in
      if r <? 0 then vfs_dentry_free d;; ret 0 else
      dCachePut d;; ret d
  end.

(** * Mounts *)

Definition traverse_step (d : Z) : M vfs (Z + Z) :=
  if d =? 0 then ret (inr d) else
  let* e := dget d in
  if bool_decide (mount_type e = MOUNT_FILESYSTEM) && negb (mount_dentry e =? 0) then ret (inl (mount_dentry e)) else ret (inr d).
Definition vfs_traverse_mount (d : Z) : M vfs Z := let* s := get in loop (S (size (dentries s))) traverse_step d.

Definition is_dir (s : vfs) (e : dentry_t) : bool := match inode e with Some i => itype (fsys s) i =? VFS_TYPE_DIR | None => false end.

(** [root_inode] is [sb->root_inode]; the superblock itself was checked. *)
Definition vfs_mount_root (root_inode : option Z) : M vfs Z :=
  let* s := get in
  if negb (vfs_root s =? 0) then ret (- EBUSY) else
  match root_inode with None => ret (- EINVAL) | Some i =>
  let d := kmalloc (dom (dentries s)) in
  if d =? 0 then ret (- ENOMEM) else
  modify (λ s, set_root d (set_dentries (<[d := Dentry MOUNT_FILESYSTEM 0 [slash] (Some i) d]> (dentries s)) s));;
  ret 0 end.

Definition vfs_mount_at (target : Z) (root_inode : option Z) : M vfs Z :=
  if target =? 0 then ret (- EINVAL) else
  let* s := get in
  let* e := dget target in
  match inode e with None => ret (- EINVAL) | Some ti =>
  if negb (itype (fsys s) ti =? VFS_TYPE_DIR) then ret (- ENOTDIR) else
  if negb (mount_dentry e =? 0) then ret (- EBUSY) else
  match root_inode with None => ret (- EINVAL) | Some i =>
  let root := kmalloc (dom (dentries s)) in
  if root =? 0 then ret (- ENOMEM) else
  let up := if negb (parent e =? 0) then parent e else target in
  modify (set_dentries (<[root := Dentry MOUNT_NONE 0 (name e) (Some i) up]> (dentries s)));;
  dset target (set_mount MOUNT_FILESYSTEM root);;
  ret 0 end end.

(** The file system's [unmount] succeeds or not ([unmounted]). *)
Definition vfs_unmount_at (unmounted : Z) (target : Z) : M vfs Z :=
  if target =? 0 then ret (- EINVAL) else
  let* e := dget target in
  if mount_dentry e =? 0 then ret (- EINVAL) else
  if unmounted <? 0 then ret unmounted else
  dset target (set_mount MOUNT_NONE 0);;
  modify (λ s, set_dentries (delete (mount_dentry e) (dentries s)) s);;
  ret 0.

(** * Paths *)

Definition starts_at_root (path : list Z) : bool := match path with c :: _ => c =? slash | [] => false end.

Definition path_anchor (s : vfs) (path : list Z) : Z :=
  if starts_at_root path then vfs_root s else if negb (cwd s =? 0) then cwd s else vfs_root s.

Fixpoint skip_slashes (p : list Z) : list Z := match p with c :: q => if c =? slash then skip_slashes q else p | [] => [] end.
(** Copies the component at [p]; [None] when it does not fit. *)
Fixpoint copy_component (n : Z) (p : list Z) : option (list Z * list Z) :=
  match p with
  | [] => Some ([], [])
  | c :: q => if c =? slash then Some ([], p) else
              if VFS_NAME_MAX + 1 <=? n + 1 then None else
              '(comp, rest) ← copy_component (n + 1) q; Some (c :: comp, rest)
  end.
(** The next component with the rest of the path; an empty component at the end. *)
Definition next_component (p : list Z) : Z + list Z * list Z :=
  match skip_slashes p with
  | [] => inr ([], [])
  | s => match copy_component 0 s with None => inl (- ENAMETOOLONG) | Some r => inr r end
  end.

Definition step (curr : Z) (comp : list Z) : M vfs Z :=
  if bool_decide (comp = [dot]) then ret curr else
  if bool_decide (comp = [dot; dot]) then let* e := dget curr in ret (if negb (parent e =? 0) then parent e else curr) else
  vfs_dentry_get curr comp.

(** The text up to the first NUL, as a C string. *)
Fixpoint c_text (l : list Z) : list Z := match l with [] => [] | c :: l => if c =? 0 then [] else c :: c_text l end.

Definition is_symlink (s : vfs) (e : dentry_t) : bool := match inode e with Some i => itype (fsys s) i =? VFS_TYPE_SYMLINK | None => false end.

Section Walk.
Context (walk : Z -> list Z -> M vfs (Z + Z)) (depth : Z).   (** [walk_inner] one level deeper *)

(** One turn of [follow_symlinks]; the result 0 is NULL. *)
Definition follow_step (curr : Z) : M vfs (Z + Z) :=
  if curr =? 0 then ret (inr 0) else
  let* s := get in
  let* e := dget curr in
  match inode e with None => ret (inr curr) | Some i =>
  if negb (itype (fsys s) i =? VFS_TYPE_SYMLINK) then ret (inr curr) else
  if VFS_SYMLINK_MAX <=? depth then ret (inr 0) else
  match fs_readlink (fsys s) i with
  | inl _ => ret (inr 0)
  | inr text =>
      let target := c_text (take (Z.to_nat (VFS_PATH_MAX - 1)) text) in
      let base := if starts_at_root target then vfs_root s else parent e in
      let* r := walk base target in
      match r with inl _ => ret (inr 0) | inr next => ret (inl next) end
  end end.
Definition follow_symlinks (curr : Z) : M vfs Z := loop 42 follow_step curr.

(** One turn of the loop over components: the locals are [curr] and the rest. *)
Definition walk_step (v : Z * list Z) : M vfs (Z * list Z + (Z + Z)) :=
  let '(curr, p) := v in
  match next_component p with
  | inl e => ret (inr (inl e))
  | inr ([], _) => let* d := vfs_traverse_mount curr in ret (inr (inr d))
  | inr (comp, rest) =>
      let* curr := vfs_traverse_mount curr in
      let* d := step curr comp in
      if d =? 0 then ret (inr (inl (- ENOENT))) else
      let* d := follow_symlinks d in
      if d =? 0 then ret (inr (inl (- ELOOP))) else ret (inl (d, rest))
  end.
End Walk.

(** [k] levels of recursion are left; a walk at depth 40 follows no link, so 41
    are enough. *)
Fixpoint walk_inner (k : nat) (depth : Z) (start : Z) (path : list Z) : M vfs (Z + Z) :=
  match k with
  | O => undef
  | S k =>
      if VFS_SYMLINK_MAX <? depth then ret (inl (- ELOOP)) else
      if VFS_PATH_MAX <=? Z.of_nat (length path) then ret (inl (- ENAMETOOLONG)) else
      let* s := get in
      let curr := if starts_at_root path then vfs_root s else start in
      if curr =? 0 then ret (inl (- ENOENT)) else
      loop (S (length path)) (walk_step (walk_inner k (depth + 1)) depth) (curr, path)
  end.

Definition vfs_path_walk (start : Z) (rel : list Z) : M vfs (Z + Z) :=
  let* s := get in walk_inner 41 0 (if start =? 0 then vfs_root s else start) rel.
Definition vfs_namei (path : list Z) : M vfs (Z + Z) :=
  let* s := get in
  if vfs_root s =? 0 then ret (inl (- ENOENT)) else walk_inner 41 0 (path_anchor s path) path.
End Names.
