(* ===== verification/NameiSpec.v ===== *)
(** What a path means: components, mounts, symbolic links, and the ways a
    resolution can fail; and the invariant of the directory entries. *)

From S2P Require Import Prelude CString Namei.

(** * Components *)

(** The pieces between slashes, and those that are not empty. *)
Fixpoint split_slash (p : list Z) : list (list Z) :=
  match p with
  | [] => [[]]
  | c :: p => if c =? slash then [] :: split_slash p else match split_slash p with w :: ws => (c :: w) :: ws | [] => [[c]] end
  end.
Definition components (p : list Z) : list (list Z) := filter (λ w, w <> []) (split_slash p).

Lemma split_slash_ne p : split_slash p <> [].
Proof. induction p as [|c p IH]; cbn; [easy|]. destruct (c =? slash); [easy|]. now destruct (split_slash p). Qed.

Lemma components_slash p : components (slash :: p) = components p.
Proof. reflexivity. Qed.

Lemma components_skip p : components (skip_slashes p) = components p.
Proof. induction p as [|c p IH]; [reflexivity|]. cbn [skip_slashes]. destruct (Z.eqb_spec c slash) as [->|]; [now rewrite IH|reflexivity]. Qed.

Definition cut_here (rest : list Z) : Prop := match rest with [] => True | c :: _ => c = slash end.

Lemma split_word w rest : slash ∉ w -> cut_here rest -> exists ws, split_slash rest = [] :: ws /\ split_slash (w ++ rest) = w :: ws.
Proof.
  intros Hw Hr. assert (Hrest : exists ws, split_slash rest = [] :: ws) by (destruct rest as [|c rest]; [exists []; reflexivity|]; cbn in Hr; subst c; exists (split_slash rest); reflexivity).
  destruct Hrest as [ws E]. exists ws. split; [exact E|]. induction w as [|c w IH]; [exact E|]. rewrite not_elem_of_cons in Hw. destruct Hw as [Hc Hw]. cbn.
  destruct (Z.eqb_spec c slash); [congruence|]. now rewrite (IH Hw).
Qed.

Lemma components_word w rest : slash ∉ w -> w <> [] -> cut_here rest -> components (w ++ rest) = w :: components rest.
Proof.
  intros Hw Hne Hr. destruct (split_word w rest Hw Hr) as (ws & E1 & E2). unfold components. rewrite E1, E2. rewrite filter_cons_True by exact Hne. f_equal.
Qed.

Lemma first_word p : exists w rest, p = w ++ rest /\ (slash ∉ w) /\ cut_here rest.
Proof.
  induction p as [|c p (w & rest & -> & Hw & Hr)]; [exists [], []; split_and!; auto; [apply not_elem_of_nil|exact I]|]. destruct (decide (c = slash)) as [->|Hc].
  - exists [], (slash :: w ++ rest). split_and!; [reflexivity|apply not_elem_of_nil|reflexivity].
  - exists (c :: w), rest. split_and!; auto. rewrite not_elem_of_cons. auto.
Qed.

Lemma copy_component_spec p : forall n, 0 <= n <= 255 ->
  match copy_component n p with
  | Some (w, rest) => p = w ++ rest /\ (slash ∉ w) /\ cut_here rest /\ n + Z.of_nat (length w) <= 255
  | None => exists w rest, p = w ++ rest /\ (slash ∉ w) /\ cut_here rest /\ 255 < n + Z.of_nat (length w)
  end.
Proof.
  induction p as [|c p IH]; intros n Hn; cbn [copy_component].
  { split_and!; auto; [apply not_elem_of_nil|exact I|cbn; lia]. }
  destruct (Z.eqb_spec c slash) as [->|Hc]; [split_and!; auto; [apply not_elem_of_nil|reflexivity|cbn; lia]|]. unfold VFS_NAME_MAX.
  destruct (Z.leb_spec (255 + 1) (n + 1)) as [Hl|Hl].
  - destruct (first_word p) as (w & rest & -> & Hw & Hr). exists (c :: w), rest. split_and!; auto; [rewrite not_elem_of_cons; auto|cbn [length]; lia].
  - specialize (IH (n + 1) ltac:(lia)). destruct (copy_component (n + 1) p) as [[w rest]|]; cbn [mbind option_bind].
    + destruct IH as (-> & Hw & Hr & Hlen). split_and!; auto; [rewrite not_elem_of_cons; auto|cbn [length]; lia].
    + destruct IH as (w & rest & -> & Hw & Hr & Hlen). exists (c :: w), rest. split_and!; auto; [rewrite not_elem_of_cons; auto|cbn [length]; lia].
Qed.

Lemma skip_slashes_length p : (length (skip_slashes p) <= length p)%nat.
Proof. induction p as [|c p IH]; cbn; [lia|]. destruct (c =? slash); cbn; lia. Qed.

Lemma skip_slashes_head p c q : skip_slashes p = c :: q -> c <> slash.
Proof. induction p as [|c' p IH]; cbn; [easy|]. destruct (Z.eqb_spec c' slash); [auto|]. intros [= <- <-]. auto. Qed.

(** [next_component] takes the components one at a time. *)
Lemma next_component_spec p :
  match next_component p with
  | inl e => e = - ENAMETOOLONG /\ exists w ws, components p = w :: ws /\ 255 < Z.of_nat (length w)
  | inr ([], _) => components p = []
  | inr (w, rest) => components p = w :: components rest /\ (length rest < length p)%nat /\ Z.of_nat (length w) <= 255
  end.
Proof.
  unfold next_component. pose proof (components_skip p) as E. pose proof (skip_slashes_length p) as Hl. destruct (skip_slashes p) as [|c q] eqn:Es; [now rewrite <- E|].
  pose proof (skip_slashes_head p c q Es) as Hc. pose proof (copy_component_spec (c :: q) 0 ltac:(lia)) as H. destruct (copy_component 0 (c :: q)) as [[w rest]|].
  - destruct H as (E1 & Hw & Hr & Hlen). destruct w as [|c1 w].
    { cbn in E1. subst rest. cbn in Hr. contradiction. }
    rewrite <- E, E1. split_and!; [apply components_word; auto|rewrite E1, length_app in Hl; cbn [length] in Hl; lia|lia].
  - destruct H as (w & rest & E1 & Hw & Hr & Hlen). split; [reflexivity|]. exists w, (components rest). rewrite <- E, E1. split; [|lia].
    apply components_word; auto. intros ->. cbn in Hlen. lia.
Qed.

Section Spec.
Context {FS : Type} `{FileSys FS}.
#[local] Abbreviation vfs := (@vfs FS).
Implicit Types (s : vfs) (e : dentry_t).

(** * Steps *)

Definition mounted e : Prop := mount_type e = MOUNT_FILESYSTEM /\ mount_dentry e <> 0.

(** [r] is what is mounted, in the end, on [d]. *)
Inductive covers s : Z -> Z -> Prop :=
| covers_end d e : dentries s !! d = Some e -> ~ mounted e -> covers s d d
| covers_mount d e r : dentries s !! d = Some e -> mounted e -> covers s (mount_dentry e) r -> covers s d r.

(** [d] is the entry of the directory [c] for the name [n]. *)
Definition child s c n d : Prop := exists ec ic e i, dentries s !! c = Some ec /\ inode ec = Some ic /\ itype (fsys s) ic = VFS_TYPE_DIR /\
  dentries s !! d = Some e /\ parent e = c /\ name e = n /\ inode e = Some i /\ fs_lookup (fsys s) ic n = Some i.

(** One component: itself, the parent, or an entry. *)
Inductive one s (c : Z) : list Z -> Z -> Prop :=
| one_dot : one s c [dot] c
| one_up e : dentries s !! c = Some e -> one s c [dot; dot] (if decide (parent e = 0) then c else parent e)
| one_child n d : n <> [dot] -> n <> [dot; dot] -> child s c n d -> one s c n d.

Definition link_text (text : list Z) : list Z := c_text (take (Z.to_nat (VFS_PATH_MAX - 1)) text).
Definition link_base s e (target : list Z) : Z := if starts_at_root target then vfs_root s else parent e.

(** From [c] along the names, following the links met on the way. *)
Inductive walks s : Z -> list (list Z) -> Z -> Prop :=
| walks_end c : walks s c [] c
| walks_step c c' n d d' ns r : covers s c c' -> one s c' n d -> follows s d d' -> walks s d' ns r -> walks s c (n :: ns) r
with follows s : Z -> Z -> Prop :=
| follows_plain d e : dentries s !! d = Some e -> is_symlink s e = false -> follows s d d
| follows_link d e i text c c' r : dentries s !! d = Some e -> inode e = Some i -> itype (fsys s) i = VFS_TYPE_SYMLINK -> fs_readlink (fsys s) i = inr text ->
    walks s (link_base s e (link_text text)) (components (link_text text)) c -> covers s c c' -> follows s c' r -> follows s d r.

(** The entry a path denotes. *)
Definition resolves s (start : Z) (path : list Z) (d : Z) : Prop :=
  exists c, walks s (if starts_at_root path then vfs_root s else start) (components path) c /\ covers s c d.

(** * Failures *)

(** No entry can be had for [n]: [c] is no directory, it has no such name, or
    there is no memory. *)
Definition missing (kmalloc : gset Z -> Z) s c n : Prop := n <> [dot] /\ n <> [dot; dot] /\
  exists ec ic, dentries s !! c = Some ec /\ inode ec = Some ic /\ (itype (fsys s) ic <> VFS_TYPE_DIR \/ fs_lookup (fsys s) ic n = None \/ exists X, kmalloc X = 0).

Section Fails.
Context (kmalloc : gset Z -> Z) (s : vfs).

(** Where a walk at a given depth stops, and with which error; and the links
    that cannot be followed: nested too deeply, unreadable, or leading nowhere. *)
Inductive fails : Z -> Z -> list (list Z) -> Z -> Prop :=
| fails_missing k c c' n ns : covers s c c' -> missing kmalloc s c' n -> fails k c (n :: ns) (- ENOENT)
| fails_link k c c' n d ns : covers s c c' -> one s c' n d -> blocked k d -> fails k c (n :: ns) (- ELOOP)
| fails_later k c c' n d d' ns x : covers s c c' -> one s c' n d -> follows s d d' -> fails k d' ns x -> fails k c (n :: ns) x
| fails_long k c n ns : 255 < Z.of_nat (length n) -> fails k c (n :: ns) (- ENAMETOOLONG)
with blocked : Z -> Z -> Prop :=
| blocked_deep k d e : dentries s !! d = Some e -> is_symlink s e = true -> VFS_SYMLINK_MAX <= k -> blocked k d
| blocked_unreadable k d e i x : dentries s !! d = Some e -> inode e = Some i -> itype (fsys s) i = VFS_TYPE_SYMLINK -> fs_readlink (fsys s) i = inl x -> blocked k d
| blocked_orphan k d e i text : dentries s !! d = Some e -> inode e = Some i -> itype (fsys s) i = VFS_TYPE_SYMLINK -> fs_readlink (fsys s) i = inr text ->
    link_base s e (link_text text) = 0 -> blocked k d
| blocked_target k d e i text x : dentries s !! d = Some e -> inode e = Some i -> itype (fsys s) i = VFS_TYPE_SYMLINK -> fs_readlink (fsys s) i = inr text ->
    fails (k + 1) (link_base s e (link_text text)) (components (link_text text)) x -> blocked k d.
End Fails.

(** * Growth: more entries, the same files *)

Record extends s s' : Prop := {
  ex_dentries : forall d e, dentries s !! d = Some e -> dentries s' !! d = Some e;
  ex_root : vfs_root s' = vfs_root s;
  ex_cwd : cwd s' = cwd s;
  ex_fsys : fsys s' = fsys s }.

Lemma extends_refl s : extends s s.
Proof. split; auto. Qed.

Lemma extends_trans s1 s2 s3 : extends s1 s2 -> extends s2 s3 -> extends s1 s3.
Proof. intros [] []. split; auto; congruence. Qed.

Section Mono.
Context (s s' : vfs) (Hx : extends s s').

Lemma covers_mono c r : covers s c r -> covers s' c r.
Proof using Hx. induction 1 as [d e Hd Hm|d e r Hd Hm _ IH]; [apply (covers_end s' d e)|apply (covers_mount s' d e r)]; auto; now apply (ex_dentries _ _ Hx). Qed.

Lemma child_mono c n d : child s c n d -> child s' c n d.
Proof using Hx. intros (ec & ic & e & i & H1 & H2 & H3 & H4 & H5 & H6 & H7 & H8). exists ec, ic, e, i. rewrite (ex_fsys _ _ Hx). split_and!; auto; now apply (ex_dentries _ _ Hx). Qed.

Lemma one_mono c n d : one s c n d -> one s' c n d.
Proof using Hx.
  intros [|e He|n' d' H1 H2 Hc]; [constructor| |].
  - apply (one_up s' c e). now apply (ex_dentries _ _ Hx).
  - apply one_child; auto. now apply child_mono.
Qed.

Lemma symlink_mono e : is_symlink s' e = is_symlink s e.
Proof using Hx. unfold is_symlink. now rewrite (ex_fsys _ _ Hx). Qed.

Lemma base_mono e t : link_base s' e t = link_base s e t.
Proof using Hx. unfold link_base. now rewrite (ex_root _ _ Hx). Qed.

Lemma walks_mono c ns r : walks s c ns r -> walks s' c ns r
with follows_mono d r : follows s d r -> follows s' d r.
Proof using Hx.
  - intros [|c0 c' n d d' ns' r' H1 H2 H3 H4]; [constructor|]. apply (walks_step s' c0 c' n d d'); auto using covers_mono, one_mono.
  - intros [d0 e H1 H2|d0 e i text c c' r' H1 H2 H3 H4 H5 H6 H7].
    + apply (follows_plain s' d0 e); [now apply (ex_dentries _ _ Hx)|now rewrite symlink_mono].
    + apply (follows_link s' d0 e i text c c'); rewrite ?(ex_fsys _ _ Hx), ?base_mono; auto using covers_mono. now apply (ex_dentries _ _ Hx).
Qed.

Lemma resolves_mono start path d : resolves s start path d -> resolves s' start path d.
Proof using Hx. intros (c & Hw & Hc). exists c. rewrite (ex_root _ _ Hx). auto using walks_mono, covers_mono. Qed.

Lemma missing_mono km c n : missing km s c n -> missing km s' c n.
Proof using Hx.
  intros (H1 & H2 & ec & ic & H3 & H4 & H5). split_and!; auto. exists ec, ic. rewrite (ex_fsys _ _ Hx). split_and!; auto. now apply (ex_dentries _ _ Hx).
Qed.

Lemma fails_mono km k c ns x : fails km s k c ns x -> fails km s' k c ns x
with blocked_mono km k d : blocked km s k d -> blocked km s' k d.
Proof using Hx.
  - intros [k0 c0 c' n ns' H1 H2|k0 c0 c' n d ns' H1 H2 H3|k0 c0 c' n d d' ns' x' H1 H2 H3 H4|k0 c0 n ns' H1].
    + apply (fails_missing km s' k0 c0 c'); auto using covers_mono, missing_mono.
    + apply (fails_link km s' k0 c0 c' n d); auto using covers_mono, one_mono.
    + apply (fails_later km s' k0 c0 c' n d d'); auto using covers_mono, one_mono, follows_mono.
    + now apply fails_long.
  - intros [k0 d0 e H1 H2 H3|k0 d0 e i x H1 H2 H3 H4|k0 d0 e i text H1 H2 H3 H4 H5|k0 d0 e i text x H1 H2 H3 H4 H5].
    + apply (blocked_deep km s' k0 d0 e); auto; [now apply (ex_dentries _ _ Hx)|now rewrite symlink_mono].
    + apply (blocked_unreadable km s' k0 d0 e i x); rewrite ?(ex_fsys _ _ Hx); auto. now apply (ex_dentries _ _ Hx).
    + apply (blocked_orphan km s' k0 d0 e i text); rewrite ?(ex_fsys _ _ Hx), ?base_mono; auto. now apply (ex_dentries _ _ Hx).
    + apply (blocked_target km s' k0 d0 e i text x); rewrite ?(ex_fsys _ _ Hx), ?base_mono; auto. now apply (ex_dentries _ _ Hx).
Qed.
End Mono.

(** * The invariant *)

Definition dir_at s d : Prop := exists e i, dentries s !! d = Some e /\ inode e = Some i /\ itype (fsys s) i = VFS_TYPE_DIR.

Record wf s : Prop := {
  wf_null : dentries s !! 0 = None;
  wf_table : length (dcache_table s) = 1024%nat;
  wf_inode : forall d e, dentries s !! d = Some e -> exists i, inode e = Some i;
  wf_parent : forall d e, dentries s !! d = Some e -> parent e <> 0 -> dir_at s (parent e);
  wf_mount : forall d e, dentries s !! d = Some e -> mount_dentry e <> 0 -> dir_at s (mount_dentry e);
  wf_rank : exists rank : Z -> nat, (forall d e, dentries s !! d = Some e -> (rank d <= size (dentries s))%nat) /\
    forall d e, dentries s !! d = Some e -> mount_dentry e <> 0 -> (rank (mount_dentry e) < rank d)%nat;
  wf_cached : forall b l d, arr_get (dcache_table s) b = Some l -> d ∈ l -> exists e, dentries s !! d = Some e /\ b = hash_dentry (parent e) (name e) /\ child s (parent e) (name e) d;
  wf_root : vfs_root s <> 0 -> dir_at s (vfs_root s);
  wf_cwd : cwd s <> 0 -> dir_at s (cwd s) }.

Definition plain s d : Prop := exists e, dentries s !! d = Some e /\ is_symlink s e = false.

Lemma dir_plain s d : dir_at s d -> plain s d.
Proof. intros (e & i & H1 & H2 & H3). exists e. split; [exact H1|]. unfold is_symlink. now rewrite H2, H3. Qed.

Lemma dir_mono s s' d : extends s s' -> dir_at s d -> dir_at s' d.
Proof. intros Hx (e & i & H1 & H2 & H3). exists e, i. rewrite (ex_fsys _ _ Hx). split_and!; auto. now apply (ex_dentries _ _ Hx). Qed.

Lemma plain_mono s s' d : extends s s' -> plain s d -> plain s' d.
Proof. intros Hx (e & H1 & H2). exists e. rewrite (symlink_mono s s' Hx). split; [now apply (ex_dentries _ _ Hx)|exact H2]. Qed.
End Spec.
