(* ===== verification/NameiOps.v ===== *)
(** The cache, mounts and single steps keep the invariant and do what the
    specification says. *)

From S2P Require Import Prelude CString Namei NameiSpec.

Section Ops.
Context {FS : Type} `{FileSys FS} (kmalloc : gset Z -> Z) (Hkm : forall X, kmalloc X <> 0 -> kmalloc X ∉ X).
#[local] Abbreviation vfs := (@vfs FS).
Implicit Types (s : vfs) (e : dentry_t).

Lemma wp_dget d e (Q : dentry_t -> vfs -> Prop) s : dentries s !! d = Some e -> Q e s -> wp (dget d) Q s.
Proof using. intros Hd HQ. unfold dget. apply wp_bind, wp_get. now rewrite (wp_of_option _ e). Qed.

Lemma wp_dset d f e (Q : unit -> vfs -> Prop) s : dentries s !! d = Some e -> Q tt (set_dentries (<[d := f e]> (dentries s)) s) -> wp (dset d f) Q s.
Proof using. intros Hd HQ. unfold dset. apply wp_bind, wp_get, wp_bind. rewrite (wp_of_option _ e) by exact Hd. now apply wp_modify. Qed.

Lemma hash_range p n : 0 <= hash_dentry p n < 1024.
Proof using. unfold hash_dentry, DCACHE_SIZE. apply Z.mod_pos_bound. lia. Qed.

Lemma wp_dbucket_get b (Q : list Z -> vfs -> Prop) s : length (dcache_table s) = 1024%nat -> 0 <= b < 1024 ->
  (forall l, arr_get (dcache_table s) b = Some l -> Q l s) -> wp (bucket_get b) Q s.
Proof using.
  intros Hl Hb HQ. unfold bucket_get. apply wp_bind, wp_get. destruct (arr_get_lt (dcache_table s) b) as [l E]; [lia|]. rewrite (wp_of_option _ l) by exact E. auto.
Qed.

Lemma wp_dbucket_set b l (Q : unit -> vfs -> Prop) s : length (dcache_table s) = 1024%nat -> 0 <= b < 1024 ->
  Q tt (set_dcache (<[Z.to_nat b := l]> (dcache_table s)) s) -> wp (bucket_set b l) Q s.
Proof using. intros Hl Hb HQ. unfold bucket_set. apply wp_bind, wp_get, wp_bind. rewrite (wp_of_option _ _ _ _ (arr_set_lt (dcache_table s) b l ltac:(lia))). now apply wp_modify. Qed.

(** * Mounts *)

Lemma traverse_ok s d e : wf s -> dentries s !! d = Some e -> wp (vfs_traverse_mount d) (λ r s', s' = s /\ covers s d r /\ (r = d \/ dir_at s r)) s.
Proof using.
  intros Hw Hd. destruct (wf_rank _ Hw) as (rank & R1 & R2). unfold vfs_traverse_mount. apply wp_bind, wp_get.
  apply (wp_loop (λ n c s', s' = s /\ n = rank c /\ (exists ec, dentries s !! c = Some ec) /\ (c = d \/ dir_at s c) /\ forall r, covers s c r -> covers s d r) (rank d)).
  - split_and!; eauto.
  - pose proof (R1 d e Hd). lia.
  - intros n c s' (-> & -> & (ec & Hc) & Hdir & Hcov). unfold traverse_step. destruct (Z.eqb_spec c 0) as [->|_]; [rewrite (wf_null _ Hw) in Hc; discriminate|].
    apply wp_bind. eapply wp_dget; [exact Hc|]. destruct (bool_decide_reflect (mount_type ec = MOUNT_FILESYSTEM)) as [Hm|Hm]; cbn [andb].
    + destruct (Z.eqb_spec (mount_dentry ec) 0) as [Hz|Hnz]; cbn [negb].
      * apply wp_ret. split_and!; auto. apply Hcov, (covers_end s c ec); [exact Hc|]. intros [_ H']. contradiction.
      * apply wp_ret. pose proof (wf_mount _ Hw c ec Hc Hnz) as Hmd. exists (rank (mount_dentry ec)). split; [exact (R2 c ec Hc Hnz)|]. split_and!; auto.
        { destruct Hmd as (em & _ & Hem & _). eauto. }
        intros r Hr. apply Hcov, (covers_mount s c ec); auto. split; auto.
    + apply wp_ret. split_and!; auto. apply Hcov, (covers_end s c ec); [exact Hc|]. intros [H' _]. contradiction.
Qed.

(** * Entries *)

Lemma bucket_find_ok s c n l : (forall d, d ∈ l -> exists e, dentries s !! d = Some e /\ d <> 0) ->
  wp (bucket_find c n l) (λ d s', s' = s /\ (d = 0 \/ (d ∈ l /\ exists e, dentries s !! d = Some e /\ parent e = c /\ name e = n))) s.
Proof using.
  induction l as [|x l IH]; intros Hl; [apply wp_ret; auto|]. cbn [bucket_find]. destruct (Hl x ltac:(now left)) as (e & Hx & Hx0). apply wp_bind. eapply wp_dget; [exact Hx|].
  destruct (Z.eqb_spec (parent e) c) as [Hp|Hp]; cbn [andb].
  - destruct (bool_decide_reflect (name e = n)) as [Hn|Hn]; [apply wp_ret; split; [reflexivity|]; right; split; [now left|eauto]|].
    eapply wp_mono; [apply IH; intros d Hd; apply Hl; now right|]. intros d s' [-> [->|[Hin Hd]]]; (split; [reflexivity|]); [auto|]. right. split; [now right|exact Hd].
  - eapply wp_mono; [apply IH; intros d Hd; apply Hl; now right|]. intros d s' [-> [->|[Hin Hd]]]; (split; [reflexivity|]); [auto|]. right. split; [now right|exact Hd].
Qed.

Lemma cached_live s b l d : wf s -> arr_get (dcache_table s) b = Some l -> d ∈ l -> exists e, dentries s !! d = Some e /\ d <> 0.
Proof using. intros Hw Hb Hd. destruct (wf_cached _ Hw b l d Hb Hd) as (e & He & _). exists e. split; [exact He|]. intros ->. rewrite (wf_null _ Hw) in He. discriminate. Qed.

Lemma lookup_cache_ok s c n : wf s -> wp (dCacheLookup c n) (λ d s', s' = s /\ (d = 0 \/ (d <> 0 /\ child s c n d))) s.
Proof using.
  intros Hw. unfold dCacheLookup. apply wp_bind. apply wp_dbucket_get; [apply Hw|apply hash_range|]. intros l Hl.
  eapply wp_mono; [apply (bucket_find_ok s c n l); intros d; now apply (cached_live s (hash_dentry c n))|]. intros d s' [-> [->|[Hin (e & He & <- & <-)]]]; (split; [reflexivity|]); [auto|].
  right. destruct (cached_live s _ _ d Hw Hl Hin) as (_ & _ & Hd0). destruct (wf_cached _ Hw _ _ d Hl Hin) as (e' & He' & _ & Hc). assert (e' = e) as -> by congruence. auto.
Qed.

(** A new entry, cached. *)
Section Added.
Context (s : vfs) (c d i : Z) (n : list Z) (ec : dentry_t) (ic : Z) (l : list Z).
Context (Hw : wf s) (Hc : dentries s !! c = Some ec) (Hic : inode ec = Some ic) (Hdir : itype (fsys s) ic = VFS_TYPE_DIR) (Hd : dentries s !! d = None) (Hd0 : d <> 0).
Context (Hlk : fs_lookup (fsys s) ic n = Some i) (Hl : arr_get (dcache_table s) (hash_dentry c n) = Some l).

Definition added : vfs := set_dcache (<[Z.to_nat (hash_dentry c n) := d :: l]> (dcache_table s)) (set_dentries (<[d := Dentry MOUNT_NONE 0 n (Some i) c]> (dentries s)) s).

Lemma added_extends : extends s added.
Proof using Hd. split; auto. intros x e Hx. simpl. rewrite lookup_insert_ne; [exact Hx|]. intros E. rewrite <- E, Hd in Hx. discriminate. Qed.

Lemma added_child : child added c n d.
Proof using Hc Hic Hdir Hd Hlk.
  exists ec, ic, (Dentry MOUNT_NONE 0 n (Some i) c), i. split_and!; auto; [now apply (ex_dentries _ _ added_extends)|apply lookup_insert_eq].
Qed.

Lemma added_lookup x e : dentries added !! x = Some e -> (x = d /\ e = Dentry MOUNT_NONE 0 n (Some i) c) \/ (x <> d /\ dentries s !! x = Some e).
Proof using. simpl. destruct (decide (x = d)) as [->|Hne]; [rewrite lookup_insert_eq; intros [= <-]; auto|]. rewrite lookup_insert_ne by auto. auto. Qed.

Lemma added_wf : wf added.
Proof using All.
  pose proof added_extends as Hx. pose proof (hash_range c n) as Hh. split.
  - simpl. rewrite lookup_insert_ne by auto. apply Hw.
  - simpl. rewrite length_insert. apply Hw.
  - intros x e [[-> ->]|[_ Hx0]]%added_lookup; [eauto|now apply (wf_inode _ Hw x)].
  - intros x e [[-> ->]|[_ Hx0]]%added_lookup Hp.
    + simpl. apply (dir_mono s added); [exact Hx|]. exists ec, ic. auto.
    + apply (dir_mono s added); [exact Hx|]. now apply (wf_parent _ Hw x).
  - intros x e [[-> ->]|[_ Hx0]]%added_lookup Hp; [easy|]. apply (dir_mono s added); [exact Hx|]. now apply (wf_mount _ Hw x).
  - destruct (wf_rank _ Hw) as (rank & R1 & R2). exists (λ x, if decide (x = d) then 0%nat else rank x).
    assert (Hsz : size (dentries added) = S (size (dentries s))) by (simpl; now apply map_size_insert_None). split.
    + intros x e [[-> ->]|[Hne Hx0]]%added_lookup; [rewrite decide_True by auto; lia|]. rewrite decide_False by auto. specialize (R1 x e Hx0). lia.
    + intros x e [[-> ->]|[Hne Hx0]]%added_lookup Hp; [easy|]. rewrite (decide_False (P := x = d)) by auto. specialize (R2 x e Hx0 Hp). destruct (decide (mount_dentry e = d)); lia.
  - intros b l' x Hb Hin. simpl in Hb. rewrite arr_get_insert in Hb by (rewrite (wf_table _ Hw); lia). destruct (decide (hash_dentry c n = b)) as [<-|Hne].
    + injection Hb as <-. apply elem_of_cons in Hin as [->|Hin].
      * eexists. split; [apply lookup_insert_eq|]. split; [reflexivity|apply added_child].
      * destruct (wf_cached _ Hw _ _ x Hl Hin) as (e & He & Hbk & Hch). exists e. split; [now apply (ex_dentries _ _ Hx)|]. split; [exact Hbk|]. now apply (child_mono s added).
    + destruct (wf_cached _ Hw _ _ x Hb Hin) as (e & He & Hbk & Hch). exists e. split; [now apply (ex_dentries _ _ Hx)|]. split; [exact Hbk|]. now apply (child_mono s added).
  - intros Hr. apply (dir_mono s added); [exact Hx|]. now apply (wf_root _ Hw).
  - intros Hr. apply (dir_mono s added); [exact Hx|]. now apply (wf_cwd _ Hw).
Qed.
End Added.

(** An entry taken back leaves no trace. *)
Definition fresh_entry c n : dentry_t := Dentry MOUNT_NONE 0 n None c.

Lemma unlink_absent d l : d ∉ l -> unlink_entry d l = l.
Proof using. induction l as [|x l IH]; [reflexivity|]. rewrite not_elem_of_cons. intros [H1 H2]. cbn. destruct (Z.eqb_spec x d); [congruence|]. now rewrite IH. Qed.

Lemma free_fresh_ok s c n d (Q : unit -> vfs -> Prop) : wf s -> dentries s !! d = None -> d <> 0 -> Q tt s ->
  wp (vfs_dentry_free d) Q (set_dentries (<[d := fresh_entry c n]> (dentries s)) s).
Proof using.
  intros Hw Hd Hd0 HQ. unfold vfs_dentry_free. rewrite (proj2 (Z.eqb_neq d 0) Hd0). apply wp_bind. unfold dCacheRemove. apply wp_bind. eapply wp_dget; [apply lookup_insert_eq|].
  apply wp_bind. apply wp_dbucket_get; [apply Hw|apply hash_range|]. cbn [parent name fresh_entry dcache_table set_dentries]. intros l Hl.
  assert (Hno : d ∉ l) by (intros Hin; destruct (cached_live s _ _ d Hw Hl Hin) as (e & He & _); congruence). rewrite (unlink_absent d l Hno).
  apply wp_dbucket_set; [apply Hw|apply hash_range|]. apply wp_modify. simpl. rewrite delete_insert_id by exact Hd.
  assert (E : <[Z.to_nat (hash_dentry c n) := l]> (dcache_table s) = dcache_table s).
  { apply list_insert_id. unfold arr_get in Hl. now destruct (hash_dentry c n <? 0). }
  rewrite E. unfold set_dentries, set_dcache. simpl. destruct s. exact HQ.
Qed.

Lemma dentry_get_ok s c n ec : wf s -> dentries s !! c = Some ec -> n <> [] -> Z.of_nat (length n) <= 255 -> n <> [dot] -> n <> [dot; dot] ->
  wp (vfs_dentry_get kmalloc c n) (λ d s', wf s' /\ extends s s' /\ ((d = 0 /\ missing kmalloc s' c n) \/ (d <> 0 /\ child s' c n d))) s.
Proof using Hkm.
  intros Hw Hc Hne Hlen Hn1 Hn2. destruct (wf_inode _ Hw c ec Hc) as [ic Hic]. unfold vfs_dentry_get. destruct (Z.eqb_spec c 0) as [->|_]; [rewrite (wf_null _ Hw) in Hc; discriminate|].
  assert (Hmiss : (itype (fsys s) ic <> VFS_TYPE_DIR \/ fs_lookup (fsys s) ic n = None \/ exists X, kmalloc X = 0) -> missing kmalloc s c n) by (intros Hm; split_and!; auto; exists ec, ic; auto).
  apply wp_bind. eapply wp_dget; [exact Hc|]. rewrite Hic. apply wp_bind. eapply wp_mono; [apply (lookup_cache_ok s c n Hw)|].
  intros h s' [-> [->|[Hh0 Hch]]]; [|rewrite (proj2 (Z.eqb_neq h 0) Hh0); apply wp_ret; split_and!; auto using extends_refl]. cbn [negb Z.eqb].
  apply wp_bind. unfold vfs_dentry_alloc, VFS_NAME_MAX. destruct (Z.eqb_spec (Z.of_nat (length n)) 0) as [Hz|_]; [destruct n; [easy|cbn in Hz; lia]|].
  destruct (Z.ltb_spec 255 (Z.of_nat (length n))); [lia|]. cbn [orb]. apply wp_bind, wp_get. set (d := kmalloc (dom (dentries s))).
  destruct (Z.eqb_spec d 0) as [Hd0|Hd0].
  { apply wp_ret. cbn [Z.eqb]. apply wp_ret. split_and!; auto using extends_refl. left. split; [reflexivity|]. apply Hmiss. right. right. eexists. exact Hd0. }
  apply wp_bind, wp_modify, wp_ret. rewrite (proj2 (Z.eqb_neq d 0) Hd0). assert (Hd : dentries s !! d = None) by (apply not_elem_of_dom; now apply Hkm). fold (fresh_entry c n).
  assert (Hback : missing kmalloc s c n -> wp (vfs_dentry_free d;; ret 0) (λ d s', wf s' /\ extends s s' /\ ((d = 0 /\ missing kmalloc s' c n) \/ (d <> 0 /\ child s' c n d))) (set_dentries (<[d := fresh_entry c n]> (dentries s)) s)).
  { intros Hm. apply wp_bind. apply free_fresh_ok; auto. apply wp_ret. split_and!; auto using extends_refl. }
  apply wp_bind. unfold vfs_lookup. apply wp_bind, wp_get. simpl. destruct (Z.eqb_spec (itype (fsys s) ic) VFS_TYPE_DIR) as [Hdir|Hdir]; cbn [negb].
  2:{ apply wp_ret. change (- ENOTDIR <? 0) with true. cbv iota. apply Hback, Hmiss. auto. }
  apply wp_bind. eapply wp_dget; [apply lookup_insert_eq|]. cbn [name fresh_entry]. destruct (fs_lookup (fsys s) ic n) as [i|] eqn:Hlk.
  2:{ apply wp_ret. change (- ENOENT <? 0) with true. cbv iota. apply Hback, Hmiss. auto. }
  apply wp_bind. eapply wp_dset; [apply lookup_insert_eq|]. apply wp_ret. change (0 <? 0) with false. cbv iota. simpl. rewrite insert_insert_eq. cbn [set_inode fresh_entry mount_type mount_dentry name parent].
  apply wp_bind. unfold dCachePut. apply wp_bind. eapply wp_dget; [apply lookup_insert_eq|]. apply wp_bind. apply wp_dbucket_get; [apply Hw|apply hash_range|]. cbn [parent name dcache_table set_dentries]. intros l Hl.
  apply wp_dbucket_set; [apply Hw|apply hash_range|]. apply wp_ret. change (set_dcache _ _) with (added s c d i n l).
  split; [eapply added_wf; eauto|]. split; [now apply added_extends|]. right. split; [exact Hd0|]. eapply added_child; eauto.
Qed.

(** * One component *)

Lemma child_live s c n d : child s c n d -> exists e, dentries s !! d = Some e.
Proof using. intros (_ & _ & e & _ & _ & _ & _ & He & _). eauto. Qed.

Lemma step_ok s c n ec : wf s -> dentries s !! c = Some ec -> n <> [] -> Z.of_nat (length n) <= 255 ->
  wp (step kmalloc c n) (λ d s', wf s' /\ extends s s' /\ ((d = 0 /\ missing kmalloc s' c n) \/ (d <> 0 /\ one s' c n d /\ exists e, dentries s' !! d = Some e))) s.
Proof using Hkm.
  intros Hw Hc Hne Hlen. assert (Hc0 : c <> 0) by (intros ->; rewrite (wf_null _ Hw) in Hc; discriminate). unfold step.
  destruct (bool_decide_reflect (n = [dot])) as [->|Hn1]; [apply wp_ret; split_and!; auto using extends_refl; right; split_and!; eauto; constructor|].
  destruct (bool_decide_reflect (n = [dot; dot])) as [->|Hn2].
  - apply wp_bind. eapply wp_dget; [exact Hc|]. apply wp_ret. split_and!; auto using extends_refl. right. pose proof (one_up s c ec Hc) as Ho.
    destruct (Z.eqb_spec (parent ec) 0) as [Hp|Hp]; cbn [negb]; [rewrite decide_True in Ho by exact Hp|rewrite decide_False in Ho by exact Hp]; split_and!; eauto.
    destruct (wf_parent _ Hw c ec Hc Hp) as (ep & _ & He & _). eauto.
  - eapply wp_mono; [apply (dentry_get_ok s c n ec); auto|]. intros d s' (W & X & [Hm|[Hd Hch]]); split_and!; auto. right. split_and!; auto; [now apply one_child|now apply (child_live s' c n)].
Qed.

(** * Mounting keeps the invariant *)

(** Entries with another mount on them. *)
Definition renamed e e' : Prop := inode e' = inode e /\ parent e' = parent e /\ name e' = name e.
Record remounts s s' : Prop := {
  rm_dentries : forall d e, dentries s !! d = Some e -> exists e', dentries s' !! d = Some e' /\ renamed e e';
  rm_fsys : fsys s' = fsys s }.

Lemma dir_remount s s' d : remounts s s' -> dir_at s d -> dir_at s' d.
Proof using. intros R (e & i & Hd & Hi & Ht). destruct (rm_dentries _ _ R d e Hd) as (e' & Hd' & E & _). exists e', i. rewrite (rm_fsys _ _ R). split_and!; auto. congruence. Qed.

Lemma child_remount s s' c n d : remounts s s' -> child s c n d -> child s' c n d.
Proof using.
  intros R (ec & ic & e & i & H1 & H2 & H3 & H4 & H5 & H6 & H7 & H8). destruct (rm_dentries _ _ R c ec H1) as (ec' & H1' & E1 & _). destruct (rm_dentries _ _ R d e H4) as (e' & H4' & E2 & E3 & E4).
  exists ec', ic, e', i. rewrite (rm_fsys _ _ R). split_and!; auto; congruence.
Qed.

Section Mounted.
Context (s : vfs) (t r i : Z) (e : dentry_t) (Hw : wf s) (Ht : dentries s !! t = Some e) (Hdir : dir_at s t) (Hr : dentries s !! r = None) (Hr0 : r <> 0).
Context (Hi : itype (fsys s) i = VFS_TYPE_DIR) (Hfree : mount_dentry e = 0).
Definition up_of : Z := if negb (parent e =? 0) then parent e else t.
Definition root_entry : dentry_t := Dentry MOUNT_NONE 0 (name e) (Some i) up_of.
Definition with_mount : vfs := set_dentries (<[t := set_mount MOUNT_FILESYSTEM r e]> (<[r := root_entry]> (dentries s))) s.

Lemma mount_ne : t <> r.
Proof using Ht Hr. intros E. rewrite E in Ht. congruence. Qed.

Lemma mount_lookup x ex : dentries with_mount !! x = Some ex ->
  (x = t /\ ex = set_mount MOUNT_FILESYSTEM r e) \/ (x = r /\ ex = root_entry) \/ (x <> t /\ x <> r /\ dentries s !! x = Some ex).
Proof using.
  simpl. destruct (decide (x = t)) as [->|H1]; [rewrite lookup_insert_eq; intros [= <-]; auto|]. rewrite lookup_insert_ne by auto.
  destruct (decide (x = r)) as [->|H2]; [rewrite lookup_insert_eq; intros [= <-]; auto|]. rewrite lookup_insert_ne by auto. auto.
Qed.

Lemma mount_remounts : remounts s with_mount.
Proof using Ht Hr.
  split; [|reflexivity]. intros d ed Hd. simpl. destruct (decide (d = t)) as [->|H1].
  - exists (set_mount MOUNT_FILESYSTEM r e). rewrite lookup_insert_eq. assert (ed = e) as -> by congruence. split; [reflexivity|]. split_and!; reflexivity.
  - exists ed. rewrite !lookup_insert_ne; [split; [exact Hd|split_and!; reflexivity]| |auto]. intros E. rewrite <- E, Hr in Hd. discriminate.
Qed.

Lemma mount_root_dir : dir_at with_mount r.
Proof using Ht Hr Hi. pose proof mount_ne. exists root_entry, i. simpl. rewrite lookup_insert_ne, lookup_insert_eq by auto. auto. Qed.

Lemma mount_wf : wf with_mount.
Proof using All.
  pose proof mount_remounts as R. pose proof mount_ne as Hne. assert (Hup : dir_at s up_of) by (unfold up_of; destruct (Z.eqb_spec (parent e) 0) as [|Hp]; [exact Hdir|exact (wf_parent _ Hw t e Ht Hp)]).
  assert (Ht0 : t <> 0) by (intros E; rewrite E, (wf_null _ Hw) in Ht; discriminate). split.
  - simpl. rewrite !lookup_insert_ne by auto. apply Hw.
  - apply Hw.
  - intros x ex [[-> ->]|[[-> ->]|(_ & _ & Hx)]]%mount_lookup; [exact (wf_inode _ Hw t e Ht)|now exists i|exact (wf_inode _ Hw x ex Hx)].
  - intros x ex [[-> ->]|[[-> ->]|(_ & _ & Hx)]]%mount_lookup Hp; apply (dir_remount s _ _ R); [exact (wf_parent _ Hw t e Ht Hp)|exact Hup|exact (wf_parent _ Hw x ex Hx Hp)].
  - intros x ex [[-> ->]|[[-> ->]|(_ & _ & Hx)]]%mount_lookup Hp; [exact mount_root_dir|easy|apply (dir_remount s _ _ R), (wf_mount _ Hw x ex Hx Hp)].
  - destruct (wf_rank _ Hw) as (rank & R1 & R2). exists (λ x, if decide (x = r) then 0%nat else S (rank x)).
    assert (Hsz : size (dentries with_mount) = S (size (dentries s))).
    { simpl. rewrite map_size_insert_Some by (rewrite lookup_insert_ne by auto; eauto). now apply map_size_insert_None. }
    split.
    + intros x ex [[-> ->]|[[-> ->]|(Hx1 & Hx2 & Hx)]]%mount_lookup; [rewrite decide_False by auto; specialize (R1 t e Ht); lia|rewrite decide_True by auto; lia|].
      rewrite decide_False by auto. specialize (R1 x ex Hx). lia.
    + intros x ex [[-> ->]|[[-> ->]|(Hx1 & Hx2 & Hx)]]%mount_lookup Hm; [cbn [mount_dentry set_mount]; rewrite decide_True, decide_False by auto; lia|easy|].
      rewrite (decide_False (P := x = r)) by auto. specialize (R2 x ex Hx Hm). destruct (decide (mount_dentry ex = r)); lia.
  - intros b l d Hb Hd. destruct (wf_cached _ Hw b l d Hb Hd) as (ed & Hed & Hbk & Hch). destruct (rm_dentries _ _ R d ed Hed) as (ed' & Hed' & E1 & E2 & E3).
    exists ed'. rewrite E2, E3. split_and!; auto. now apply (child_remount s).
  - intros Hn. apply (dir_remount s _ _ R), (wf_root _ Hw Hn).
  - intros Hn. apply (dir_remount s _ _ R), (wf_cwd _ Hw Hn).
Qed.
End Mounted.

(** Mounting the root of a file system keeps the invariant. *)
Lemma mount_at_ok s t i et : wf s -> dentries s !! t = Some et -> itype (fsys s) i = VFS_TYPE_DIR -> wp (vfs_mount_at kmalloc t (Some i)) (λ r s', wf s') s.
Proof using Hkm.
  intros Hw Ht Hi. unfold vfs_mount_at. assert (Ht0 : t <> 0) by (intros ->; rewrite (wf_null _ Hw) in Ht; discriminate). rewrite (proj2 (Z.eqb_neq t 0) Ht0).
  apply wp_bind, wp_get, wp_bind. eapply wp_dget; [exact Ht|]. destruct (wf_inode _ Hw t et Ht) as [ti Hti]. rewrite Hti. destruct (Z.eqb_spec (itype (fsys s) ti) VFS_TYPE_DIR) as [Hd|]; [|now apply wp_ret].
  cbn [negb]. destruct (Z.eqb_spec (mount_dentry et) 0) as [Hm|]; [|now apply wp_ret]. cbn [negb]. set (r := kmalloc _). destruct (Z.eqb_spec r 0) as [|Hr0]; [now apply wp_ret|].
  assert (Hr : dentries s !! r = None) by (apply not_elem_of_dom; now apply Hkm). apply wp_bind, wp_modify, wp_bind.
  assert (Hne : t <> r) by (intros E; rewrite <- E, Ht in Hr; discriminate). eapply wp_dset; [simpl; rewrite lookup_insert_ne by auto; exact Ht|]. apply wp_ret. simpl.
  apply (mount_wf s t r i et); auto. exists et, ti. auto.
Qed.

(** The first root. *)
Lemma mount_root_ok i tbl fs : itype fs i = VFS_TYPE_DIR -> tbl = replicate 1024 [] -> wp (vfs_mount_root kmalloc (Some i)) (λ r s', r = - ENOMEM \/ (r = 0 /\ wf s' /\ vfs_root s' <> 0)) (Vfs ∅ tbl 0 0 fs).
Proof using Hkm.
  intros Hi ->. unfold vfs_mount_root. apply wp_bind, wp_get. cbn [vfs_root Z.eqb negb]. set (r := kmalloc _). destruct (Z.eqb_spec r 0) as [|Hr0]; [apply wp_ret; auto|].
  apply wp_bind, wp_modify, wp_ret. right. split; [reflexivity|]. split; [|exact Hr0]. set (er := Dentry _ _ _ _ _). set (s' := set_root _ _).
  assert (Hl : forall x ex, dentries s' !! x = Some ex -> x = r /\ ex = er) by (intros x ex; simpl; rewrite insert_empty; intros [<- <-]%lookup_singleton_Some; auto).
  assert (Hdir : dir_at s' r) by (exists er, i; split_and!; auto; apply lookup_insert_eq). split.
  - simpl. rewrite insert_empty. now apply lookup_singleton_ne.
  - apply length_replicate.
  - intros x ex [-> ->]%Hl. now exists i.
  - now intros x ex [-> ->]%Hl.
  - now intros x ex [-> ->]%Hl.
  - exists (λ _, 0%nat). split; [intros; lia|now intros x ex [-> ->]%Hl].
  - intros b l d Hb Hd. cbn [dcache_table set_root set_dentries s'] in Hb. unfold arr_get in Hb. destruct (b <? 0); [easy|]. apply lookup_replicate_1 in Hb as [-> _]. now apply elem_of_nil in Hd.
  - auto.
  - easy.
Qed.
End Ops.

(** Path resolution ends, and ends as specified. *)

Section Walk.
Context {FS : Type} `{FileSys FS} (kmalloc : gset Z -> Z) (Hkm : forall X, kmalloc X <> 0 -> kmalloc X ∉ X).
#[local] Abbreviation vfs := (@vfs FS).
Implicit Types (s : vfs) (e : dentry_t).

Definition walk_from s (start : Z) (path : list Z) : Z := if starts_at_root path then vfs_root s else start.

(** A path is refused: too long, from nowhere, or on the way. *)
Definition refused s (depth start : Z) (path : list Z) (x : Z) : Prop :=
  (x = - ENAMETOOLONG /\ VFS_PATH_MAX <= Z.of_nat (length path)) \/ (x = - ENOENT /\ walk_from s start path = 0) \/
  fails kmalloc s depth (walk_from s start path) (components path) x.

Definition walk_post s (depth start : Z) (path : list Z) (r : Z + Z) s' : Prop :=
  wf s' /\ extends s s' /\ match r with inr d => d <> 0 /\ plain s' d /\ resolves s' start path d | inl x => refused s' depth start path x end.

Lemma c_text_length l : (length (c_text l) <= length l)%nat.
Proof using. induction l as [|c l IH]; cbn; [lia|]. destruct (c =? 0); cbn; lia. Qed.

Lemma link_text_short text : Z.of_nat (length (link_text text)) < VFS_PATH_MAX.
Proof using. unfold link_text. pose proof (c_text_length (take (Z.to_nat (VFS_PATH_MAX - 1)) text)) as Hl. rewrite length_take in Hl. unfold VFS_PATH_MAX in *. lia. Qed.

Lemma base_plain s d e t : wf s -> dentries s !! d = Some e -> link_base s e t <> 0 -> plain s (link_base s e t).
Proof using. intros Hw Hd. unfold link_base. destruct (starts_at_root t); intros Hn; apply dir_plain; [now apply (wf_root _ Hw)|now apply (wf_parent _ Hw d)]. Qed.

Lemma base_from s e t : walk_from s (link_base s e t) t = link_base s e t.
Proof using. unfold walk_from, link_base. now destruct (starts_at_root t). Qed.

Lemma plain_stops walk depth s d : wf s -> plain s d -> d <> 0 -> wp (follow_step walk depth d) (λ r s', s' = s /\ r = inr d) s.
Proof using.
  intros Hw (e & Hd & Hns) Hd0. unfold follow_step. rewrite (proj2 (Z.eqb_neq d 0) Hd0). apply wp_bind, wp_get, wp_bind. eapply wp_dget; [exact Hd|].
  destruct (wf_inode _ Hw d e Hd) as [i Hi]. unfold is_symlink in Hns. rewrite Hi in Hns |- *. rewrite Hns. cbn [negb]. apply wp_ret. auto.
Qed.

Section Follow.
Context (k : nat) (depth : Z).
Context (IH : depth < VFS_SYMLINK_MAX -> forall s start path, wf s -> (start <> 0 -> plain s start) -> wp (walk_inner kmalloc k (depth + 1) start path) (walk_post s (depth + 1) start path) s).

Lemma follow_ok s d e : wf s -> dentries s !! d = Some e ->
  wp (follow_symlinks (walk_inner kmalloc k (depth + 1)) depth d)
    (λ r s', wf s' /\ extends s s' /\ ((r = 0 /\ blocked kmalloc s' depth d) \/ (r <> 0 /\ plain s' r /\ follows s' d r))) s.
Proof using IH.
  intros Hw Hd. assert (Hd0 : d <> 0) by (intros ->; rewrite (wf_null _ Hw) in Hd; discriminate). destruct (wf_inode _ Hw d e Hd) as [i Hi].
  unfold follow_symlinks. rewrite loop_S. apply wp_bind. destruct (is_symlink s e) eqn:Hsy.
  2:{ eapply wp_mono; [apply (plain_stops _ depth s d Hw); [exists e; auto|exact Hd0]|]. intros r s' [-> ->]. apply wp_ret. split_and!; auto using extends_refl.
    right. split_and!; auto; [exists e; auto|]. now apply (follows_plain s d e). }
  pose proof Hsy as Hty. unfold is_symlink in Hty. rewrite Hi in Hty. pose proof (proj1 (Z.eqb_eq _ _) Hty) as Hty'.
  unfold follow_step at 1. rewrite (proj2 (Z.eqb_neq d 0) Hd0). apply wp_bind, wp_get, wp_bind. eapply wp_dget; [exact Hd|]. rewrite Hi, Hty. cbn [negb].
  assert (Hstop : forall s', wf s' -> extends s s' -> blocked kmalloc s' depth d -> wf s' /\ extends s s' /\ ((0 = 0 /\ blocked kmalloc s' depth d) \/ (0 <> 0 /\ plain s' 0 /\ follows s' d 0))) by auto.
  destruct (Z.leb_spec VFS_SYMLINK_MAX depth) as [Hdeep|Hdeep]; [apply wp_ret, wp_ret, Hstop; auto using extends_refl; now apply (blocked_deep kmalloc s depth d e)|].
  destruct (fs_readlink (fsys s) i) as [x|text] eqn:Hrl; [apply wp_ret, wp_ret, Hstop; auto using extends_refl; now apply (blocked_unreadable kmalloc s depth d e i x)|].
  fold (link_text text). fold (link_base s e (link_text text)). apply wp_bind.
  eapply wp_mono; [apply (IH Hdeep s (link_base s e (link_text text)) (link_text text) Hw); intros Hb; now apply (base_plain s d)|].
  intros r s1 (W1 & X1 & Hr). pose proof (ex_dentries _ _ X1 d e Hd) as Hd1. rewrite <- (ex_fsys _ _ X1) in Hty', Hrl. destruct r as [x|next].
  - apply wp_ret, wp_ret, Hstop; auto. rewrite <- (base_mono s s1 X1 e) in Hr. unfold refused in Hr. rewrite base_from in Hr. pose proof (link_text_short text).
    destruct Hr as [[_ Hl]|[[_ Hz]|Hf]]; [lia| |].
    + now apply (blocked_orphan kmalloc s1 depth d e i text).
    + now apply (blocked_target kmalloc s1 depth d e i text x).
  - destruct Hr as (Hn0 & Hpl & c & Hwk & Hcv). apply wp_ret. rewrite loop_S. apply wp_bind. eapply wp_mono; [apply (plain_stops _ depth s1 next W1 Hpl Hn0)|].
    intros r s2 [-> ->]. apply wp_ret. split_and!; auto. right. split_and!; auto. rewrite <- (base_mono s s1 X1 e) in Hwk. fold (walk_from s1 (link_base s1 e (link_text text)) (link_text text)) in Hwk.
    rewrite base_from in Hwk. apply (follows_link s1 d e i text c next); auto. destruct Hpl as (en & Hen & Hns). now apply (follows_plain s1 next en).
Qed.
End Follow.

(** ** The loop over the components *)

(** What is left to do from [curr] is what is left of the whole. *)
Definition on_the_way s (depth c0 : Z) (all : list (list Z)) (curr : Z) (ns : list (list Z)) : Prop :=
  forall s', extends s s' -> (forall r, walks s' curr ns r -> walks s' c0 all r) /\ (forall x, fails kmalloc s' depth curr ns x -> fails kmalloc s' depth c0 all x).

Lemma on_the_way_step s s1 depth c0 all curr n ns c' d d' : on_the_way s depth c0 all curr (n :: ns) -> extends s s1 ->
  covers s1 curr c' -> one s1 c' n d -> follows s1 d d' -> on_the_way s1 depth c0 all d' ns.
Proof using.
  intros Hw Hx H1 H2 H3 s' Hx'. destruct (Hw s' (extends_trans _ _ _ Hx Hx')) as [Hr Hf]. split.
  - intros r Hd. apply Hr. apply (walks_step s' curr c' n d d'); eauto using covers_mono, one_mono, follows_mono.
  - intros x Hd. apply Hf. apply (fails_later kmalloc s' depth curr c' n d d'); eauto using covers_mono, one_mono, follows_mono.
Qed.

Lemma namei_walk_ok k : forall depth start path s, 0 <= depth <= VFS_SYMLINK_MAX -> VFS_SYMLINK_MAX - depth < Z.of_nat k -> wf s -> (start <> 0 -> plain s start) ->
  wp (walk_inner kmalloc k depth start path) (walk_post s depth start path) s.
Proof using Hkm.
  induction k as [|k IHk]; intros depth start path s Hdp Hk Hw Hst; [lia|]. cbn [walk_inner]. destruct (Z.ltb_spec VFS_SYMLINK_MAX depth); [lia|].
  destruct (Z.leb_spec VFS_PATH_MAX (Z.of_nat (length path))) as [Hlong|Hlong]; [apply wp_ret; split_and!; auto using extends_refl; left; auto|].
  apply wp_bind, wp_get. fold (walk_from s start path). set (c0 := walk_from s start path). destruct (Z.eqb_spec c0 0) as [Hz|Hnz]; [apply wp_ret; split_and!; auto using extends_refl; right; left; auto|].
  assert (Hc0 : plain s c0) by (unfold c0, walk_from in *; destruct (starts_at_root path); [apply dir_plain, (wf_root _ Hw), Hnz|auto]).
  assert (Hfrom : forall s', extends s s' -> walk_from s' start path = c0) by (intros s' Hx; unfold c0, walk_from; now rewrite (ex_root _ _ Hx)).
  assert (IH : depth < VFS_SYMLINK_MAX -> forall s start path, wf s -> (start <> 0 -> plain s start) -> wp (walk_inner kmalloc k (depth + 1) start path) (walk_post s (depth + 1) start path) s)
    by (intros Hd' s' st' p' W' P'; apply IHk; [lia|lia|exact W'|exact P']).
  apply (wp_loop (λ n v s1, n = length v.2 /\ wf s1 /\ extends s s1 /\ plain s1 v.1 /\ on_the_way s1 depth c0 (components path) v.1 (components v.2)) (length path)); [|lia|].
  { split_and!; auto using extends_refl. intros s' _. auto. }
  intros n [curr p] s1 (-> & W1 & X1 & (ec & Hcur & Hns) & Hway). cbn [fst snd] in *. unfold walk_step. pose proof (next_component_spec p) as Hnc.
  assert (Hfail : forall s' x, wf s' -> extends s1 s' -> fails kmalloc s' depth curr (components p) x -> walk_post s depth start path (inl x) s').
  { intros s' x W' X' Hf. pose proof (extends_trans _ _ _ X1 X') as X. split_and!; auto. right. right. rewrite (Hfrom s' X). now apply (Hway s' X'). }
  destruct (next_component p) as [x|[[|b w] rest]].
  - destruct Hnc as (-> & w & ws & E & Hlw). apply wp_ret. apply Hfail; auto using extends_refl. rewrite E. now apply fails_long.
  - apply wp_bind. eapply wp_mono; [apply (traverse_ok s1 curr ec W1 Hcur)|]. intros d s' (-> & Hcv & Hdd). apply wp_ret. split; [exact W1|]. split; [exact X1|].
    assert (Hpl : plain s1 d) by (destruct Hdd as [->|Hdir]; [exists ec; auto|now apply dir_plain]). split_and!; auto.
    { intros ->. destruct Hpl as (e0 & He0 & _). rewrite (wf_null _ W1) in He0. discriminate. }
    exists curr. split; [|exact Hcv]. fold (walk_from s1 start path). rewrite (Hfrom s1 X1). apply (Hway s1 (extends_refl _)). rewrite Hnc. constructor.
  - destruct Hnc as (E & Hlt & Hlw). set (nm := b :: w) in *. apply wp_bind. eapply wp_mono; [apply (traverse_ok s1 curr ec W1 Hcur)|]. intros c' s' (-> & Hcv & Hcc).
    assert (Hc' : exists e', dentries s1 !! c' = Some e') by (destruct Hcc as [->|(e' & _ & He' & _)]; eauto). destruct Hc' as [e' He'].
    apply wp_bind. eapply wp_mono; [apply (step_ok kmalloc Hkm s1 c' nm e' W1 He'); [easy|exact Hlw]|]. intros d s2 (W2 & X2 & [[-> Hmiss]|(Hd0 & Hone & ed & Hed)]).
    { cbn [Z.eqb]. apply wp_ret. apply Hfail; auto. rewrite E. apply (fails_missing kmalloc s2 depth curr c'); [now apply (covers_mono s1)|exact Hmiss]. }
    rewrite (proj2 (Z.eqb_neq d 0) Hd0). apply wp_bind. eapply wp_mono; [apply (follow_ok k depth IH s2 d ed W2 Hed)|]. intros d' s3 (W3 & X3 & Hr). pose proof (extends_trans _ _ _ X2 X3) as X13.
    pose proof (covers_mono s1 s3 X13 _ _ Hcv) as Hcv3. pose proof (one_mono s2 s3 X3 _ _ _ Hone) as Hone3. destruct Hr as [[-> Hbl]|(Hd'0 & Hpl & Hfo)].
    + cbn [Z.eqb]. apply wp_ret. apply Hfail; auto. rewrite E. now apply (fails_link kmalloc s3 depth curr c' nm d).
    + rewrite (proj2 (Z.eqb_neq d' 0) Hd'0). apply wp_ret. exists (length rest). split; [exact Hlt|]. cbn [fst snd]. split_and!; auto; [eapply extends_trans; eauto|].
      rewrite E in Hway. exact (on_the_way_step s1 s3 depth c0 _ curr nm (components rest) c' d d' Hway X13 Hcv3 Hone3 Hfo).
Qed.
End Walk.
