(* ===== verification/PathOps.v ===== *)
(** Operations by path: creating, removing, renaming, reading links, and the
    working directory (src/file_system/vfs_path.c, vfs_path_ops.c, the checks of
    vfs_inode.c, and chdir and getcwd of src/interrupts/vfs_syscalls.c). *)

From S2P Require Import Prelude CString Namei.

Section Ops.
Context {FS : Type} `{FileSys FS} (kmalloc : gset Z -> Z).
#[local] Abbreviation vfs := (@vfs FS).

(** * Parent and last name *)

(** The path up to its last slash and what follows; [None] without a slash. *)
Fixpoint split_last (rev_path leaf : list Z) : option (list Z) * list Z :=
  match rev_path with
  | [] => (None, leaf)
  | c :: q => if c =? slash then (Some (rev q), leaf) else split_last q (c :: leaf)
  end.

(** An error, or the parent directory and the last name; [leaf_cap] is the
    size of the caller's buffer. *)
Definition vfs_namei_parent (path : list Z) (leaf_cap : Z) : M vfs (Z + Z * list Z) :=
  let plen := Z.of_nat (length path) in
  if (plen =? 0) || (VFS_PATH_MAX <=? plen) then ret (inl (- EINVAL)) else
  match skip_slashes (rev path) with
  | [] => ret (inl (- EINVAL))
  | body =>
      let '(up, leaf) := split_last body [] in
      let leaf_len := Z.of_nat (length leaf) in
      if (leaf_len =? 0) || (VFS_NAME_MAX <? leaf_len) then ret (inl (- ENAMETOOLONG)) else
      if leaf_cap <? leaf_len + 1 then ret (inl (- ENAMETOOLONG)) else
      let* s := get in
      match up with
      | None => let a := path_anchor s path in if a =? 0 then ret (inl (- ENOENT)) else ret (inr (a, leaf))
      | Some [] => if vfs_root s =? 0 then ret (inl (- ENOENT)) else ret (inr (vfs_root s, leaf))
      | Some parent_path => let* r := vfs_namei kmalloc parent_path in ret (match r with inl e => inl e | inr d => inr (d, leaf) end)
      end
  end.

(** * Checks of vfs_inode.c *)

(** The pair checks, then the operation of the file system. *)
Definition dir_op (op : Z -> Z -> M vfs Z) (dir d : Z) : M vfs Z :=
  let* s := get in
  if negb (itype (fsys s) dir =? VFS_TYPE_DIR) then ret (- ENOTDIR) else
  if negb (Z.land (iflags (fsys s) dir) S_IMMUTABLE =? 0) then ret (- EPERM) else
  op dir d.

Definition vfs_readlink (i : Z) (size : Z) : M vfs (Z + list Z) :=
  let* s := get in
  if negb (itype (fsys s) i =? VFS_TYPE_SYMLINK) then ret (inl (- EINVAL)) else
  if size =? 0 then ret (inl (- EINVAL)) else
  match fs_readlink (fsys s) i with
  | inl e => ret (inl e)
  | inr text => ret (inr (take (Z.to_nat size) text))
  end.

(** * Path operations *)

(** [op] is called on the parent's inode and a new entry. *)
Definition with_new_child (path : list Z) (op : Z -> Z -> M vfs Z) : M vfs Z :=
  let* r := vfs_namei_parent path (VFS_NAME_MAX + 1) in
  match r with
  | inl e => ret e
  | inr (p, leaf) =>
      let* ep := dget p in
      match inode ep with
      | None => ret (- ENOENT)
      | Some dir =>
          let* d := vfs_dentry_alloc kmalloc p leaf in
          if d =? 0 then ret (- ENOMEM) else
          let* r := op dir d in
          if r <? 0 then vfs_dentry_free d;; ret r else
          dCachePut d;; ret 0
      end
  end.

Definition with_existing_child (path : list Z) (op : Z -> Z -> M vfs Z) : M vfs Z :=
  let* r := vfs_namei_parent path (VFS_NAME_MAX + 1) in
  match r with
  | inl e => ret e
  | inr (p, leaf) =>
      let* ep := dget p in
      match inode ep with
      | None => ret (- ENOENT)
      | Some dir =>
          let* d := vfs_dentry_get kmalloc p leaf in
          if d =? 0 then ret (- ENOENT) else
          let* r := op dir d in
          if r <? 0 then ret r else
          vfs_dentry_free d;; ret 0
      end
  end.

Definition vfs_rename_path (old_path new_path : list Z) (rename : Z -> Z -> Z -> Z -> M vfs Z) : M vfs Z :=
  let* r := vfs_namei_parent old_path (VFS_NAME_MAX + 1) in
  match r with inl e => ret e | inr (old_parent, old_leaf) =>
  let* r := vfs_namei_parent new_path (VFS_NAME_MAX + 1) in
  match r with inl e => ret e | inr (new_parent, new_leaf) =>
  let* eo := dget old_parent in
  let* en := dget new_parent in
  match inode eo, inode en with
  | Some old_dir, Some new_dir =>
      let* old_d := vfs_dentry_get kmalloc old_parent old_leaf in
      if old_d =? 0 then ret (- ENOENT) else
      let* new_d := vfs_dentry_alloc kmalloc new_parent new_leaf in
      if new_d =? 0 then ret (- ENOMEM) else
      let* r := dir_op (λ _ _, dir_op (λ _ _, rename old_dir old_d new_dir new_d) new_dir new_d) old_dir old_d in
      if r <? 0 then vfs_dentry_free new_d;; ret r else
      dCachePut new_d;;
      vfs_dentry_free old_d;;
      ret 0
  | _, _ => ret (- ENOENT)
  end end end.

Definition vfs_readlink_path (path : list Z) (size : Z) : M vfs (Z + list Z) :=
  let* r := vfs_namei kmalloc path in
  match r with
  | inl e => ret (inl e)
  | inr d =>
      if d =? 0 then ret (inl (- ENOENT)) else
      let* e := dget d in
      match inode e with None => ret (inl (- ENOENT)) | Some i => vfs_readlink i size end
  end.

(** * The working directory *)

Definition SysChdir (path : list Z) : M vfs Z :=
  let* r := vfs_namei kmalloc path in
  match r with
  | inl e => ret e
  | inr d =>
      if d =? 0 then ret (- ENOENT) else
      let* s := get in
      let* e := dget d in
      match inode e with
      | None => ret (- ENOENT)
      | Some i => if negb (itype (fsys s) i =? VFS_TYPE_DIR) then ret (- ENOTDIR) else modify (set_cwd d);; ret 0
      end
  end.

(** Collects the names from [d] up to the root, at most 128. *)
Definition getcwd_step (v : Z * list (list Z)) : M vfs (Z * list (list Z) + option (list (list Z))) :=
  let '(d, names) := v in
  let* s := get in
  if (d =? vfs_root s) || (d =? 0) then ret (inr (Some names)) else
  if 128 <=? Z.of_nat (length names) then ret (inr None) else
  let* e := dget d in
  ret (inl (parent e, name e :: names)).
(** [names] is ordered from the root; an error, or the bytes stored (with the
    NUL). *)
Fixpoint compose (size pos : Z) (names : list (list Z)) : Z + list Z :=
  match names with
  | [] => inr [0]
  | n :: names =>
      let nlen := Z.of_nat (length n) in
      if size <? pos + 1 + nlen + 1 then inl (- ERANGE) else
      match compose size (pos + 1 + nlen) names with inl e => inl e | inr r => inr (slash :: n ++ r) end
  end.
Definition SysGetcwd (size : Z) : M vfs (Z + list Z) :=
  if size =? 0 then ret (inl (- EINVAL)) else
  let* s := get in
  let start := if cwd s =? 0 then vfs_root s else cwd s in
  if start =? 0 then ret (inl (- ENOENT)) else
  let* names := loop 130 getcwd_step (start, []) in
  match names with
  | None => ret (inl (- ENAMETOOLONG))
  | Some [] => if size <? 2 then ret (inl (- ERANGE)) else ret (inr [slash; 0])
  | Some names => ret (compose size 0 names)
  end.
End Ops.
