(* ===== verification/NameiThms.v ===== *)
(** What path resolution promises. *)

From S2P Require Import Prelude CString Namei NameiSpec NameiOps PathOps.

Section Claims.
Context {FS : Type} `{FileSys FS} (kmalloc : gset Z -> Z) (Hkm : forall X, kmalloc X <> 0 -> kmalloc X ∉ X).
#[local] Abbreviation vfs := (@vfs FS).
Implicit Types (s : vfs).

Lemma anchor_plain s path : wf s -> path_anchor s path <> 0 -> plain s (path_anchor s path).
Proof using.
  intros Hw. unfold path_anchor. destruct (starts_at_root path); [intros; now apply dir_plain, (wf_root _ Hw)|]. destruct (Z.eqb_spec (cwd s) 0); cbn [negb]; intros; apply dir_plain; [now apply (wf_root _ Hw)|now apply (wf_cwd _ Hw)].
Qed.

Lemma namei_ok s path : wf s -> vfs_root s <> 0 -> wp (vfs_namei kmalloc path) (walk_post kmalloc s 0 (path_anchor s path) path) s.
Proof using Hkm.
  intros Hw Hr. unfold vfs_namei. apply wp_bind, wp_get. rewrite (proj2 (Z.eqb_neq _ 0) Hr). apply (namei_walk_ok kmalloc Hkm); auto; [unfold VFS_SYMLINK_MAX; lia|unfold VFS_SYMLINK_MAX; lia|].
  now apply anchor_plain.
Qed.

(** C24. Resolving a path always comes to an end, whatever links and mounts
    there are. It yields the entry the path denotes, component by component,
    through mounts and links, which is no symbolic link itself; or it reports
    an error, and then the specification has a reason for that error: the path
    or a name is too long, a name is missing, or a link cannot be followed.
    The cached entries stay coherent with the directories and no entry that
    was there changes. *)
Theorem namei_terminates s path : wf s -> vfs_root s <> 0 ->
  wp (vfs_namei kmalloc path) (λ r s',
    match r with
    | inr d => resolves s' (path_anchor s path) path d /\ plain s' d
    | inl x => refused kmalloc s' 0 (path_anchor s path) path x
    end /\ wf s' /\ extends s s') s.
Proof using Hkm.
  intros Hw Hr. eapply wp_mono; [apply (namei_ok s path Hw Hr)|]. intros r s' (W & X & Hres). split; [|auto]. destruct r; [exact Hres|]. destruct Hres as (_ & H1 & H2). auto.
Qed.

(** [readlink] follows the link it is asked about, so it never reads one. *)
Lemma readlink_path_fails s path size : wf s -> vfs_root s <> 0 -> wp (vfs_readlink_path kmalloc path size) (λ r _, exists x, r = inl x) s.
Proof using Hkm.
  intros Hw Hr. unfold vfs_readlink_path. apply wp_bind. eapply wp_mono; [apply (namei_ok s path Hw Hr)|]. intros [x|d] s' (W & X & Hres); [apply wp_ret; eauto|].
  destruct Hres as (Hd0 & (e & Hd & Hns) & _). rewrite (proj2 (Z.eqb_neq d 0) Hd0). apply wp_bind. eapply wp_dget; [exact Hd|]. unfold is_symlink in Hns.
  destruct (inode e) as [i|]; [|apply wp_ret; eauto]. unfold vfs_readlink. apply wp_bind, wp_get. rewrite Hns. apply wp_ret. eauto.
Qed.
End Claims.

(** * A small tree *)
Module Tree.
(** Directories 1 ([/]), 2 ([/a]) and 6 ([/m]), a file 3 ([/a/f]), links 4
    ([/l] to [a/f]), 5 ([/o] to itself) and 9 ([/z] to [q]), and on [/m] a file system with the
    directory 7 and a file 8 ([x]). *)
Definition ch (c : Z) : list Z := [c].
#[export] Instance tree : FileSys unit := {|
  itype _ i := if (i =? 3) || (i =? 8) then 1 else if (i =? 4) || (i =? 5) || (i =? 9) then VFS_TYPE_SYMLINK else VFS_TYPE_DIR;
  iflags _ _ := 0;
  fs_lookup _ i n :=
    if i =? 1 then if bool_decide (n = ch 97) then Some 2 else if bool_decide (n = ch 108) then Some 4 else if bool_decide (n = ch 111) then Some 5 else if bool_decide (n = ch 109) then Some 6 else if bool_decide (n = ch 122) then Some 9 else None
    else if i =? 2 then if bool_decide (n = ch 102) then Some 3 else None
    else if i =? 7 then if bool_decide (n = ch 120) then Some 8 else None else None;
  fs_readlink _ i := if i =? 4 then inr [97; 47; 102] else if i =? 5 then inr [111] else inr [113] |}.

(** The lowest free address of 1 to 20. *)
Fixpoint first_free (k : nat) (X : gset Z) : Z :=
  match k with O => 0 | S k => let a := 20 - Z.of_nat k in if bool_decide (a ∈ X) then first_free k X else a end.
Definition kmalloc : gset Z -> Z := first_free 20.

Lemma kmalloc_ok X : kmalloc X <> 0 -> kmalloc X ∉ X.
Proof. unfold kmalloc. generalize 20%nat. intros k. induction k as [|k IH]; cbn [first_free]; [easy|]. destruct (bool_decide_reflect (20 - Z.of_nat k ∈ X)); auto. Qed.

Definition start : vfs := Vfs ∅ (replicate 1024 []) 0 0 tt.
Definition booted : vfs := match vfs_mount_root kmalloc (Some 1) start with Some (_, s) => s | None => start end.

Lemma booted_wf : wf booted /\ vfs_root booted <> 0.
Proof.
  pose proof (mount_root_ok kmalloc kmalloc_ok 1 _ tt eq_refl eq_refl) as Hm. destruct (proj1 (wp_run _ _ _) Hm) as (r & s & E & Hr). unfold booted, start. rewrite E.
  destruct Hr as [->|(_ & H1 & H2)]; [|auto]. exfalso. vm_compute in E. discriminate.
Qed.
End Tree.
Import (hints) Tree.

Lemma namei_terminates_witness : exists r s', vfs_namei Tree.kmalloc [47; 108] Tree.booted = Some (r, s') /\ wf s'.
Proof.
  pose proof (namei_terminates Tree.kmalloc Tree.kmalloc_ok Tree.booted [47; 108] (proj1 Tree.booted_wf) (proj2 Tree.booted_wf)) as Hm.
  destruct (proj1 (wp_run _ _ _) Hm) as (r & s' & E & _ & W & _). exists r, s'. split; [exact E|exact W].
Defined.

(** The inode a path leads to, or the error. *)
Definition inode_of (path : list Z) (s : @vfs unit) : option (Z + option Z) :=
  r ← vfs_namei Tree.kmalloc path s; match r.1 with inl x => Some (inl x) | inr d => e ← dentries r.2 !! d; Some (inr (inode e)) end.

(** [/l], [/a/../a//f], [/a/x], [/o] and, after mounting on [/m], [/m/x/]. *)
Example resolve_demo :
  (inode_of [47; 108] Tree.booted, inode_of [47; 97; 47; 46; 46; 47; 97; 47; 47; 102] Tree.booted, inode_of [47; 97; 47; 120] Tree.booted, inode_of [47; 111] Tree.booted) =
  (Some (inr (Some 3)), Some (inr (Some 3)), Some (inl (- ENOENT)), Some (inl (- ELOOP))).
Proof. vm_compute. reflexivity. Qed.

Example mount_demo :
  (r ← vfs_namei Tree.kmalloc [47; 109] Tree.booted; match r.1 with inl _ => None | inr d => m ← vfs_mount_at Tree.kmalloc d (Some 7) r.2; inode_of [47; 109; 47; 120; 47] m.2 end) = Some (inr (Some 8)).
Proof. vm_compute. reflexivity. Qed.

(** * Where the code falls short *)

(** A link to a missing name is reported as a loop. *)
Example dangling_link_is_eloop : inode_of [47; 122] Tree.booted = Some (inl (- ELOOP)).
Proof. vm_compute. reflexivity. Qed.

(** [readlink] of the link [/l] looks at the file behind it and fails. *)
Example readlink_demo : (r ← vfs_readlink_path Tree.kmalloc [47; 108] 64 Tree.booted; Some r.1) = Some (inl (- EINVAL)).
Proof. vm_compute. reflexivity. Qed.

(** Renaming a directory frees its entry while cached entries below still point
    at it: the working directory [/a] is gone, and [..] from it is undefined. *)
Example rename_dangles :
  (r ← (let* _ := SysChdir Tree.kmalloc [47; 97] in
        let* r := vfs_rename_path Tree.kmalloc [47; 97] [47; 98] (λ _ _ _ _, ret 0) in ret r) Tree.booted;
   Some (r.1, bool_decide (is_Some (dentries r.2 !! cwd r.2)), match vfs_namei Tree.kmalloc [46; 46] r.2 with None => true | Some _ => false end)) = Some (0, false, true).
Proof. vm_compute. reflexivity. Qed.
