(* ===== verification/Shootdown.v ===== *)
(** TLB shootdown ([tlb_flush_remote] and [TlbShootdownHandler] of
    src/paging/paging.c): a protocol between CPUs, as a step relation.

    A translation is an address with the identity of a mapping; mappings are
    numbered as they are made, so that a new mapping of the same address is
    told apart from the one that was removed. Each CPU has its TLB, its
    interrupt flag, a pending shootdown interrupt, and the point it has reached
    in the code that removes a mapping ([unmap_page_in] and [RemovePage], which
    run the shootdown with interrupts disabled). *)

From S2P Require Import Prelude BitMath.

(** Where a CPU is on the way through [tlb_flush_remote]. *)
Inductive stage :=
| Local      (** the entry is cleared; before the local invalidation *)
| Acquire    (** before [spin_lock(&shootdown.lock)] *)
| StoreAddr  (** before [shootdown.addr = addr] *)
| StoreMask  (** before the store of [shootdown.pending] *)
| Send       (** before [SendIpiAllExcludingSelf] *)
| Spin       (** in the loop on [pending] *)
| Release    (** before [spin_unlock(&shootdown.lock)] *)
| Return.    (** about to return *)
#[export] Instance stage_eq_dec : EqDecision stage.
Proof. solve_decision. Defined.

(** [At st a v b]: removing mapping [v] of address [a]; [b] is the interrupt
    flag to restore. *)
Inductive point := Running | At (st : stage) (a v : Z) (b : bool).

Record cpu := Cpu { pc : point; ie : bool; ipi : bool; irq : option Z; tlb : gmap Z Z }.
Record machine := Machine {
  cpus : list cpu;
  pt : gmap Z Z;            (** address to mapping *)
  next : Z;                 (** number of the next mapping *)
  lock : bool; addr : Z; pending : Z }.
Definition set_pc v c := Cpu v (ie c) (ipi c) (irq c) (tlb c).
Definition set_ie v c := Cpu (pc c) v (ipi c) (irq c) (tlb c).
Definition set_ipi v c := Cpu (pc c) (ie c) v (irq c) (tlb c).
Definition set_irq v c := Cpu (pc c) (ie c) (ipi c) v (tlb c).
Definition set_tlb v c := Cpu (pc c) (ie c) (ipi c) (irq c) v.
Definition set_cpus v s := Machine v (pt s) (next s) (lock s) (addr s) (pending s).
Definition upd (i : nat) (c : cpu) (s : machine) : machine := set_cpus (<[i := c]> (cpus s)) s.
Definition set_pt v n s := Machine (cpus s) v n (lock s) (addr s) (pending s).
Definition set_lock v s := Machine (cpus s) (pt s) (next s) v (addr s) (pending s).
Definition set_addr v s := Machine (cpus s) (pt s) (next s) (lock s) v (pending s).
Definition set_pending v s := Machine (cpus s) (pt s) (next s) (lock s) (addr s) v.

Definition online_cpu_mask_excluding_self (cpus_active self_idx : Z) : Z :=
  let online := if 64 <? cpus_active then 64 else cpus_active in
  let mask := if 64 <=? online then not64 0 else Z.shiftl 1 online - 1 in
  Z.land mask (not64 (Z.shiftl 1 self_idx)).

(** [if (addr == 0) flush_tlb(); else InvlpgHelper(addr);] *)
Definition invalidate (a : Z) (t : gmap Z Z) : gmap Z Z := if a =? 0 then ∅ else delete a t.

Definition mask_of s (i : nat) : Z := online_cpu_mask_excluding_self (Z.of_nat (length (cpus s))) (Z.of_nat i).

(** Every other CPU has the interrupt pending. *)
Definition send_ipi (i : nat) (l : list cpu) : list cpu := imap (λ j c, if decide (j = i) then c else set_ipi true c) l.

(** One step of one CPU, or a new mapping made. [step_load] is the hardware
    filling a TLB entry from the page table, which may happen at any point. *)
Inductive step : machine -> machine -> Prop :=
| step_load i c a v s : cpus s !! i = Some c -> pt s !! a = Some v ->
    step s (upd i (set_tlb (<[a := v]> (tlb c)) c) s)
| step_map a s : step s (set_pt (<[a := next s]> (pt s)) (next s + 1) s)
| step_flag i c b s : cpus s !! i = Some c -> pc c = Running -> irq c = None ->
    step s (upd i (set_ie b c) s)
| step_unmap i c a v s : cpus s !! i = Some c -> pc c = Running -> irq c = None -> pt s !! a = Some v ->
    step s (upd i (set_ie false (set_pc (At Local a v (ie c)) c)) (set_pt (delete a (pt s)) (next s) s))
| step_local i c a v b s : cpus s !! i = Some c -> pc c = At Local a v b -> irq c = None ->
    step s (upd i (set_tlb (invalidate a (tlb c))
      (set_pc (At (if (Z.of_nat (length (cpus s)) <=? 1) || (mask_of s i =? 0) then Return else Acquire) a v b) c)) s)
| step_acquire i c a v b s : cpus s !! i = Some c -> pc c = At Acquire a v b -> irq c = None -> lock s = false ->
    step s (upd i (set_pc (At StoreAddr a v b) c) (set_lock true s))
| step_addr i c a v b s : cpus s !! i = Some c -> pc c = At StoreAddr a v b -> irq c = None ->
    step s (upd i (set_pc (At StoreMask a v b) c) (set_addr a s))
| step_mask i c a v b s : cpus s !! i = Some c -> pc c = At StoreMask a v b -> irq c = None ->
    step s (upd i (set_pc (At Send a v b) c) (set_pending (mask_of s i) s))
| step_send i c a v b s : cpus s !! i = Some c -> pc c = At Send a v b -> irq c = None ->
    step s (set_cpus (send_ipi i (<[i := set_pc (At Spin a v b) c]> (cpus s))) s)
| step_spin i c a v b s : cpus s !! i = Some c -> pc c = At Spin a v b -> irq c = None -> pending s = 0 ->
    step s (upd i (set_pc (At Release a v b) c) s)
| step_release i c a v b s : cpus s !! i = Some c -> pc c = At Release a v b -> irq c = None ->
    step s (upd i (set_pc (At Return a v b) c) (set_lock false s))
| step_return i c a v b s : cpus s !! i = Some c -> pc c = At Return a v b -> irq c = None ->
    step s (upd i (set_ie b (set_pc Running c)) s)
| step_irq i c s : cpus s !! i = Some c -> ipi c = true -> ie c = true -> irq c = None ->
    step s (upd i (set_tlb (invalidate (addr s) (tlb c)) (set_irq (Some (addr s)) (set_ipi false c))) s)
| step_ack i c x s : cpus s !! i = Some c -> irq c = Some x ->
    step s (upd i (set_irq None c) (set_pending (Z.land (pending s) (not64 (Z.shiftl 1 (Z.of_nat i)))) s)).

(** [n] CPUs at rest. *)
Definition booted (n : nat) (m : gmap Z Z) (nx : Z) : machine := Machine (replicate n (Cpu Running true false None ∅)) m nx false 0 0.
Inductive reachable : machine -> Prop :=
| reachable_boot n m nx : (1 <= n <= 64)%nat -> (forall a v, m !! a = Some v -> v < nx) -> reachable (booted n m nx)
| reachable_step s s' : reachable s -> step s s' -> reachable s'.
Inductive steps : machine -> machine -> Prop :=
| steps_refl s : steps s s
| steps_step s s1 s2 : steps s s1 -> step s1 s2 -> steps s s2.

(** * Bits *)

Lemma one_shl_testbit i j : 0 <= i -> Z.testbit (Z.shiftl 1 i) j = (j =? i).
Proof. intros Hi. rewrite shiftl_1 by lia. now apply testbit_pow2. Qed.

Lemma mask_testbit n i j : 1 <= n <= 64 -> 0 <= i < 64 -> 0 <= j < 64 -> Z.testbit (online_cpu_mask_excluding_self n i) j = (j <? n) && negb (j =? i).
Proof.
  intros Hn Hi Hj. unfold online_cpu_mask_excluding_self. destruct (Z.ltb_spec 64 n); [lia|]. rewrite Z.land_spec, not64_testbit, one_shl_testbit by lia. f_equal.
  destruct (Z.leb_spec 64 n) as [H64|H64].
  - rewrite not64_testbit, Z.bits_0 by lia. destruct (Z.ltb_spec j n); [reflexivity|lia].
  - rewrite shiftl_1, Z.sub_1_r, <- Z.ones_equiv by lia. destruct (Z.ltb_spec j n); [apply Z.ones_spec_low; lia|apply Z.ones_spec_high; lia].
Qed.

Lemma ack_testbit p i j : 0 <= i < 64 -> 0 <= j < 64 -> Z.testbit (Z.land p (not64 (Z.shiftl 1 i))) j = Z.testbit p j && negb (j =? i).
Proof. intros Hi Hj. now rewrite Z.land_spec, not64_testbit, one_shl_testbit by lia. Qed.

(** The shootdown protocol is safe: once [tlb_flush_remote] returns, no CPU
    can use the translation that was removed, now or later. The invariant is
    proved by rule induction on the reachable states. The protocol is not live:
    two CPUs that remove mappings at the same time wait for each other. *)

(** * Vocabulary *)

Definition on_cpu (s : machine) (i : nat) (P : cpu -> Prop) : Prop := exists c, cpus s !! i = Some c /\ P c.
Definition at_stage (s : machine) (i : nat) (st : stage) (a v : Z) : Prop := on_cpu s i (λ c, exists b, pc c = At st a v b).
(** CPU [j] does not hold the translation of [a] by mapping [v]. *)
Definition lacks (s : machine) (j : nat) (a v : Z) : Prop := forall c, cpus s !! j = Some c -> tlb c !! a <> Some v.
(** Mapping [v] of [a] was made and has been removed from the page table. *)
Definition dead (s : machine) (a v : Z) : Prop := v < next s /\ pt s !! a <> Some v.
(** No CPU has, and none can load, the translation. *)
Definition gone (s : machine) (a v : Z) : Prop := dead s a v /\ forall j, lacks s j a v.
Definition bit (s : machine) (j : nat) : bool := Z.testbit (pending s) (Z.of_nat j).
Definition holding (st : stage) : bool :=
  match st with StoreAddr | StoreMask | Send | Spin | Release => true | _ => false end.

Record inv (s : machine) : Prop := {
  inv_len : (1 <= length (cpus s) <= 64)%nat;
  inv_fresh a v : pt s !! a = Some v -> v < next s;
  inv_dead i st a v : at_stage s i st a v -> dead s a v;
  inv_own i st a v : at_stage s i st a v -> st <> Local -> lacks s i a v;
  inv_lock i st a v : at_stage s i st a v -> holding st = true -> lock s = true;
  inv_one i st a v i' st' a' v' : at_stage s i st a v -> holding st = true ->
    at_stage s i' st' a' v' -> holding st' = true -> i = i';
  inv_addr i st a v : at_stage s i st a v -> st = StoreMask \/ st = Send \/ st = Spin -> addr s = a;
  inv_sent i a v j : at_stage s i Send a v -> j <> i -> (j < length (cpus s))%nat -> bit s j = true;
  inv_spin i a v j : at_stage s i Spin a v -> j <> i -> bit s j = false -> lacks s j a v;
  inv_ipi j : on_cpu s j (λ c, ipi c = true) -> bit s j = true /\ exists i a v, i <> j /\ at_stage s i Spin a v;
  inv_irq j : on_cpu s j (λ c, irq c <> None) -> bit s j = true /\ ~ on_cpu s j (λ c, ipi c = true) /\
    exists i a v, i <> j /\ at_stage s i Spin a v /\ lacks s j a v;
  inv_done i st a v : at_stage s i st a v -> st = Release \/ st = Return -> gone s a v }.

(** * Steps *)

Lemma upd_lookup i c s j c' : cpus (upd i c s) !! j = Some c' -> (j = i /\ c' = c) \/ (j <> i /\ cpus s !! j = Some c').
Proof. cbn. intros H. destruct (decide (j = i)) as [->|Hn]; [left|right].
  - apply list_lookup_insert_Some in H as [(?&?&?)|[]]; naive_solver.
  - rewrite list_lookup_insert_ne in H by done. auto.
Qed.

Lemma send_lookup i l j c' : send_ipi i l !! j = Some c' -> exists c, l !! j = Some c /\ pc c' = pc c /\ tlb c' = tlb c /\ irq c' = irq c /\ (ipi c' = true -> j <> i \/ ipi c = true) /\ (j = i -> c' = c).
Proof.
  unfold send_ipi. rewrite list_lookup_imap. destruct (l !! j) as [c|]; [|done]. cbn. intros [= <-]. exists c. case_decide; cbn; naive_solver.
Qed.

Lemma invalidate_lookup a a' v (t : gmap Z Z) : invalidate a t !! a' = Some v -> t !! a' = Some v /\ a' <> a.
Proof.
  unfold invalidate. destruct (a =? 0); [now rewrite lookup_empty|]. intros [H1 H2]%lookup_delete_Some. auto.
Qed.

Lemma step_length s s' : step s s' -> length (cpus s') = length (cpus s).
Proof. destruct 1; cbn; unfold send_ipi; rewrite ?length_imap, ?length_insert; reflexivity. Qed.

Lemma step_fresh s s' : step s s' -> (forall a v, pt s !! a = Some v -> v < next s) -> forall a v, pt s' !! a = Some v -> v < next s'.
Proof.
  destruct 1; cbn; intros Hf a' v'; try apply Hf.
  - intros [[_ <-]|[_ H]]%lookup_insert_Some; [lia|]. apply Hf in H. lia.
  - intros [_ H']%lookup_delete_Some. eauto.
Qed.

Lemma step_dead s s' a v : step s s' -> dead s a v -> dead s' a v.
Proof.
  unfold dead. destruct 1; cbn; intros [Hv Hp]; split; try done; try lia.
  - intros [[_ <-]|[_ ?]]%lookup_insert_Some; [lia|done].
  - intros [_ ?]%lookup_delete_Some. done.
Qed.

(** A CPU that lacks a dead translation never gets it back. *)
Lemma step_lacks s s' j a v : step s s' -> dead s a v -> lacks s j a v -> lacks s' j a v.
Proof.
  unfold dead, lacks. destruct 1; intros [Hv Hp] HL c' Hc';
    try (apply upd_lookup in Hc' as [[-> ->]|[Hn Hc']]; [cbn|now apply HL]);
    try (now apply HL); try (now apply HL in H).
  - intros [[-> <-]|[_ ?]]%lookup_insert_Some; [done|]. now apply (HL c).
  - intros [? ?]%invalidate_lookup. now apply (HL c).
  - cbn in Hc'. apply send_lookup in Hc' as (c1 & H2 & _ & -> & _).
    apply list_lookup_insert_Some in H2 as [(?&<-&?)|[]]; [subst; cbn|]; eauto.
  - intros [? ?]%invalidate_lookup. now apply (HL c).
Qed.

Lemma step_gone s s' a v : step s s' -> gone s a v -> gone s' a v.
Proof. intros Hs [Hd HL]. split; [now apply (step_dead s)|]. intros j. now apply (step_lacks s). Qed.

(** * What a step does to the stages *)

Lemma on_insert s s' i c c' j P : cpus s !! i = Some c -> cpus s' = <[i := c']> (cpus s) ->
  on_cpu s' j P <-> (j = i /\ P c') \/ (j <> i /\ on_cpu s j P).
Proof.
  intros Hc Hs. unfold on_cpu. rewrite Hs. destruct (decide (j = i)) as [->|Hn].
  - rewrite list_lookup_insert_eq by (eapply lookup_lt_Some; eauto). naive_solver.
  - rewrite list_lookup_insert_ne by done. naive_solver.
Qed.

Lemma on_send s s' i c c' j P : cpus s !! i = Some c -> cpus s' = send_ipi i (<[i := c']> (cpus s)) ->
  on_cpu s' j P <-> (j = i /\ P c') \/ (j <> i /\ on_cpu s j (λ c, P (set_ipi true c))).
Proof.
  intros Hc Hs. unfold on_cpu. rewrite Hs. unfold send_ipi. rewrite list_lookup_imap. destruct (decide (j = i)) as [->|Hn].
  - rewrite list_lookup_insert_eq by (eapply lookup_lt_Some; eauto). cbn. destruct (decide (i = i)); naive_solver.
  - rewrite list_lookup_insert_ne by done. destruct (cpus s !! j); cbn; [destruct (decide (j = i))|]; naive_solver.
Qed.

Lemma at_cpu s i c st a v : cpus s !! i = Some c -> at_stage s i st a v <-> exists b, pc c = At st a v b.
Proof. intros Hc. unfold at_stage, on_cpu. rewrite Hc. naive_solver. Qed.


Lemma at_insert s s' i c c' j st a v : cpus s !! i = Some c -> cpus s' = <[i := c']> (cpus s) ->
  at_stage s' j st a v <-> (j = i /\ exists b, pc c' = At st a v b) \/ (j <> i /\ at_stage s j st a v).
Proof. apply on_insert. Qed.

Lemma at_send s s' i c c' j st a v : cpus s !! i = Some c -> cpus s' = send_ipi i (<[i := c']> (cpus s)) ->
  at_stage s' j st a v <-> (j = i /\ exists b, pc c' = At st a v b) \/ (j <> i /\ at_stage s j st a v).
Proof. apply on_send. Qed.

Lemma at_intro s i c st a v b : cpus s !! i = Some c -> pc c = At st a v b -> at_stage s i st a v.
Proof. intros. exists c. eauto. Qed.

(** Splits a step, and each fact about a CPU after it into the CPU that made
    the step and the others. *)
Ltac step_cases Hst :=
  destruct Hst;
  try match goal with Hc : cpus ?s !! ?i = Some ?c, H : pc ?c = At _ _ _ _ |- _ => pose proof (at_intro _ _ _ _ _ _ _ Hc H) end;
  repeat match goal with
  | Hc : cpus ?s !! ?i = Some ?c, H : at_stage (upd ?i ?c' ?s') _ _ _ _ |- _ =>
      apply (at_insert s (upd i c' s') i c c' _ _ _ _ Hc eq_refl) in H as [[-> [? H]]|[? H]]; cbn in H
  | Hc : cpus ?s !! ?i = Some ?c, H : at_stage (set_cpus (send_ipi ?i (<[?i := ?c']> (cpus ?s))) ?s) _ _ _ _ |- _ =>
      apply (at_send s (set_cpus (send_ipi i (<[i := c']> (cpus s))) s) i c c' _ _ _ _ Hc eq_refl) in H as [[-> [? H]]|[? H]]; cbn in H
  | Hc : cpus ?s !! ?i = Some ?c, H : pc ?c = At ?st ?a ?v _ |- _ =>
      lazymatch goal with _ : at_stage s i st a v |- _ => fail | _ => pose proof (at_intro _ _ _ _ _ _ _ Hc H) end
  end; simplify_eq/=.

(** Two CPUs cannot both hold the lock. *)
Ltac two_holders :=
  exfalso; match goal with
  | Hi : inv ?s, Hn : ?i <> ?j, H : at_stage ?s ?i ?st _ _, H' : at_stage ?s ?j ?st' _ _ |- _ =>
      apply Hn; eapply (inv_one s Hi i st _ _ j st'); solve [eauto]
  end.

Lemma step_at_dead s s' i st a v : step s s' -> inv s -> at_stage s' i st a v -> dead s' a v.
Proof.
  intros Hst Hi H.
  enough (dead s a v \/ dead s' a v) as [Hd|Hd] by eauto using step_dead.
  step_cases Hst; eauto using inv_dead.
  right. split; cbn; [eapply inv_fresh; eauto|]. now rewrite lookup_delete_eq.
Qed.

Lemma step_at_own s s' i st a v : step s s' -> inv s -> at_stage s' i st a v -> st <> Local -> lacks s' i a v.
Proof.
  intros Hst Hi H Hn. pose proof (step_at_dead _ _ _ _ _ _ Hst Hi H) as Hd.
  enough (at_stage s i Local a v /\ lacks s' i a v \/ dead s a v /\ lacks s i a v) as [[_ ?]|[? ?]] by eauto using step_lacks.
  step_cases Hst; eauto 6 using inv_dead, inv_own.
  left. split; [done|]. intros c' Hc'. apply upd_lookup in Hc' as [[_ ->]|[]]; [cbn|done]. now intros [_ ?]%invalidate_lookup.
Qed.

Lemma step_at_lock s s' i st a v : step s s' -> inv s -> at_stage s' i st a v -> holding st = true -> lock s' = true.
Proof.
  intros Hst Hi H Hh. step_cases Hst; eauto using inv_lock.
  - destruct (_ || _); discriminate.
  - two_holders.
Qed.

Lemma step_at_one s s' i st a v i' st' a' v' : step s s' -> inv s -> at_stage s' i st a v -> holding st = true ->
  at_stage s' i' st' a' v' -> holding st' = true -> i = i'.
Proof.
  intros Hst Hi H Hh H' Hh'. step_cases Hst; try done; try solve [eapply inv_one; eauto].
  all: try (destruct (_ || _); discriminate).
  all: match goal with H : at_stage ?s ?j ?st _ _, Hh : holding ?st = true |- _ =>
         pose proof (inv_lock s ltac:(done) j st _ _ H Hh); congruence end.
Qed.

Lemma step_at_addr s s' i st a v : step s s' -> inv s -> at_stage s' i st a v -> st = StoreMask \/ st = Send \/ st = Spin -> addr s' = a.
Proof.
  intros Hst Hi H Hh. step_cases Hst; try solve [eapply inv_addr; eauto]; try naive_solver.
  - destruct (_ || _); naive_solver.
  - destruct Hh as [->|[->| ->]]; two_holders.
Qed.

Lemma mask_of_bit s i j : (1 <= length (cpus s) <= 64)%nat -> (i < length (cpus s))%nat -> (j < length (cpus s))%nat -> j <> i ->
  Z.testbit (mask_of s i) (Z.of_nat j) = true.
Proof.
  intros Hl Hi Hj Hn. unfold mask_of. rewrite mask_testbit by lia. apply andb_true_iff. split; [apply Z.ltb_lt; lia|].
  apply negb_true_iff, Z.eqb_neq. lia.
Qed.

Lemma at_fun s i st a v st' a' v' : at_stage s i st a v -> at_stage s i st' a' v' -> st' = st /\ a' = a /\ v' = v.
Proof. intros (c & Hc & b & H) (c' & Hc' & b' & H'). simplify_eq. rewrite H in H'. now simplify_eq. Qed.

Lemma spin_unique s i a v i' st' a' v' : inv s -> at_stage s i Spin a v -> at_stage s i' st' a' v' -> holding st' = true ->
  i' = i /\ st' = Spin /\ a' = a /\ v' = v.
Proof.
  intros Hi H H' Hh. assert (i = i') as <- by (eapply inv_one; [done|exact H|done|exact H'|done]).
  split; [done|]. exact (at_fun _ _ _ _ _ _ _ _ H H').
Qed.

(** The CPU that holds the lock is the one that spins. *)
Ltac spin_holder :=
  match goal with
  | Hi : inv ?s, Hs : at_stage ?s ?i Spin _ _, H : at_stage ?s ?i' ?st _ _ |- _ =>
      lazymatch st with Spin => fail | _ => idtac end;
      let H1 := fresh in pose proof (spin_unique s i _ _ i' st _ _ Hi Hs H eq_refl) as (_ & H1 & _); discriminate H1
  | Hi : inv ?s, Hs : at_stage ?s ?i Spin _ _, H : at_stage ?s ?i' Spin _ _ |- _ =>
      destruct (spin_unique s i _ _ i' Spin _ _ Hi Hs H eq_refl) as (? & _ & ? & ?); clear H; subst
  end.

Lemma irq_spin s i c x : inv s -> cpus s !! i = Some c -> irq c = Some x ->
  bit s i = true /\ ~ on_cpu s i (λ c, ipi c = true) /\ exists i' a v, i' <> i /\ at_stage s i' Spin a v /\ lacks s i a v.
Proof. intros Hi Hc Hx. apply inv_irq; [done|]. exists c. split; [done|]. congruence. Qed.

Lemma ack_bit s i j : (i < 64)%nat -> (j < 64)%nat -> j <> i ->
  Z.testbit (Z.land (pending s) (not64 (Z.shiftl 1 (Z.of_nat i)))) (Z.of_nat j) = bit s j.
Proof. intros Hi Hj Hn. rewrite ack_testbit by lia. destruct (Z.eqb_spec (Z.of_nat j) (Z.of_nat i)); [lia|]. apply andb_true_r. Qed.

Lemma step_at_sent s s' i a v j : step s s' -> inv s -> at_stage s' i Send a v -> j <> i -> (j < length (cpus s'))%nat -> bit s' j = true.
Proof.
  intros Hst Hi H Hn Hj. rewrite (step_length _ _ Hst) in Hj. unfold bit.
  step_cases Hst; try solve [eapply inv_sent; eauto]; try (destruct (_ || _); discriminate).
  all: try (apply mask_of_bit; eauto using inv_len, lookup_lt_Some; fail).
  all: try two_holders.
  all: edestruct irq_spin as (_ & _ & i1 & a1 & v1 & _ & Hs & _); [eauto..|]; spin_holder.
Qed.

Lemma ack_spin s i0 c x i a v j : inv s -> cpus s !! i0 = Some c -> irq c = Some x -> at_stage s i Spin a v -> j <> i ->
  (j < length (cpus s))%nat -> Z.testbit (Z.land (pending s) (not64 (Z.shiftl 1 (Z.of_nat i0)))) (Z.of_nat j) = false -> lacks s j a v.
Proof.
  intros Hi Hc Hx H Hn Hj Hb. pose proof (inv_len s Hi). apply lookup_lt_Some in Hc as Hlt. destruct (decide (j = i0)) as [->|Hne].
  - destruct (irq_spin s i0 c x Hi Hc Hx) as (_ & _ & i1 & a1 & v1 & _ & Hs & HL). now spin_holder.
  - rewrite ack_bit in Hb by lia. eapply inv_spin; eauto.
Qed.

Lemma step_at_spin s s' i a v j : step s s' -> inv s -> at_stage s' i Spin a v -> j <> i -> bit s' j = false -> lacks s' j a v.
Proof.
  intros Hst Hi H Hn Hb c' Hc'. assert (Hj : (j < length (cpus s))%nat) by (rewrite <- (step_length _ _ Hst); eauto using lookup_lt_Some).
  pose proof (step_at_dead _ _ _ _ _ _ Hst Hi H) as Hd. revert c' Hc'.
  enough (dead s a v /\ lacks s j a v) as [? ?] by (eapply step_lacks; eauto).
  unfold bit in Hb. pose proof (inv_len s Hi) as Hl.
  step_cases Hst; try solve [split; [eapply inv_dead; eauto|eapply inv_spin; eauto]]; try (destruct (_ || _); discriminate); try two_holders.
  - pose proof (inv_sent s Hi _ _ _ j ltac:(eauto) Hn Hj). unfold bit in *. congruence.
  - split; [eapply inv_dead; eauto|]. eapply ack_spin; [done| | | |done..]; eauto.
  - split; [eapply inv_dead; eauto|]. eapply ack_spin; [done| | | |done..]; eauto.
Qed.

(** A CPU that spins stays there until every bit is clear. *)
Lemma step_spins s s' i a v j : step s s' -> at_stage s i Spin a v -> bit s j = true -> at_stage s' i Spin a v.
Proof.
  intros Hst H Hb.
  destruct Hst; try exact H;
    match goal with Hc : cpus s !! ?i0 = Some ?c |- _ => destruct (decide (i = i0)) as [->|Hne];
      [apply (at_cpu s i0 c) in H as [b' Hb']; [|done]|] end;
    first [eapply at_insert; [eassumption|reflexivity|] | eapply at_send; [eassumption|reflexivity|]];
    cbn; eauto; try congruence.
  unfold bit in Hb. rewrite H3, Z.bits_0 in Hb. discriminate.
Qed.

(** A bit is cleared only by the acknowledgement of its CPU. *)
Lemma step_bit s s' i a v j : step s s' -> inv s -> at_stage s i Spin a v -> (j < length (cpus s))%nat -> bit s j = true ->
  bit s' j = true \/ on_cpu s j (λ c, irq c <> None) /\ on_cpu s' j (λ c, irq c = None).
Proof.
  intros Hst Hi Hs Hj Hb. pose proof (inv_len s Hi) as Hl. destruct Hst; try (left; exact Hb).
  - assert (at_stage s i0 StoreMask a0 v0) by eauto using at_intro. spin_holder.
  - destruct (decide (j = i0)) as [->|Hn]; [right|left].
    + split; [exists c; split; [done|congruence]|]. eapply on_insert; [eassumption|reflexivity|]. left; auto.
    + unfold bit. cbn. apply lookup_lt_Some in H. rewrite ack_bit; [done|lia..].
Qed.

Lemma step_ipi_from s s' j : step s s' -> on_cpu s' j (λ c, ipi c = true) ->
  on_cpu s j (λ c, ipi c = true) \/ exists i a v, j <> i /\ at_stage s i Send a v /\ at_stage s' i Spin a v /\ pending s' = pending s.
Proof.
  intros Hst H.
  destruct Hst; try (left; exact H);
    match goal with Hc : cpus s !! ?i0 = Some ?c |- _ =>
      first [eapply on_insert in H; [|eassumption|reflexivity] | eapply on_send in H; [|eassumption|reflexivity]]; cbn in H end;
    destruct H as [[-> H]|[Hn H]]; try (left; exact H); try (left; eexists; split; [eassumption|exact H]); try discriminate.
  right. exists i, a, v. split; [done|]. split; [eauto using at_intro|]. split; [|done]. eapply at_send; [eassumption|reflexivity|]. left. cbn. eauto.
Qed.

Lemma step_irq_from s s' j : step s s' -> on_cpu s' j (λ c, irq c <> None) ->
  on_cpu s j (λ c, irq c <> None) \/
  on_cpu s j (λ c, ipi c = true) /\ ~ on_cpu s' j (λ c, ipi c = true) /\ pending s' = pending s /\ forall v, lacks s' j (addr s) v.
Proof.
  intros Hst H.
  destruct Hst; try (left; exact H);
    match goal with Hc : cpus s !! ?i0 = Some ?c |- _ =>
      first [eapply on_insert in H; [|eassumption|reflexivity] | eapply on_send in H; [|eassumption|reflexivity]]; cbn in H end;
    destruct H as [[-> H]|[Hn H]]; try (left; exact H); try (left; eexists; split; [eassumption|exact H]); try done.
  right. split; [eexists; eauto|]. split; [|split; [done|]].
  - intros Hc. eapply on_insert in Hc; [|eassumption|reflexivity]. cbn in Hc. naive_solver.
  - intros v c' [[_ ->]|[]]%upd_lookup; [cbn|done]. now intros [_ ?]%invalidate_lookup.
Qed.

(** No other CPU is online when the mask is empty. *)
Lemma alone s i j : inv s -> (i < length (cpus s))%nat -> (Z.of_nat (length (cpus s)) <=? 1) || (mask_of s i =? 0) = true ->
  j <> i -> cpus s !! j = None.
Proof.
  intros Hi Hlt Hm Hn. apply lookup_ge_None. apply Nat.nlt_ge. intros Hj. pose proof (inv_len s Hi).
  apply orb_true_iff in Hm as [Hm|Hm]; [apply Z.leb_le in Hm; lia|]. apply Z.eqb_eq in Hm.
  pose proof (mask_of_bit s i j ltac:(lia) Hlt Hj Hn) as Hb. rewrite Hm, Z.bits_0 in Hb. discriminate.
Qed.

Lemma spin_done s i a v : inv s -> at_stage s i Spin a v -> pending s = 0 -> gone s a v.
Proof.
  intros Hi H Hp. split; [eapply inv_dead; eauto|]. intros j. destruct (decide (j = i)) as [->|Hn]; [eapply inv_own; eauto|].
  eapply inv_spin; eauto. unfold bit. rewrite Hp. apply Z.bits_0.
Qed.

Lemma step_at_done s s' i st a v : step s s' -> inv s -> at_stage s' i st a v -> st = Release \/ st = Return -> gone s' a v.
Proof.
  intros Hst Hi H Hd. pose proof (step_at_own _ _ _ _ _ _ Hst Hi H ltac:(naive_solver)) as Hown.
  pose proof (step_at_dead _ _ _ _ _ _ Hst Hi H) as Hdead. pose proof (step_length _ _ Hst) as Hlen.
  enough (gone s a v \/ forall j, j <> i -> cpus s !! j = None) as [Hg|Hg].
  - eapply step_gone; eauto.
  - split; [done|]. intros j. destruct (decide (j = i)) as [->|Hn]; [done|]. intros c Hc. apply lookup_lt_Some in Hc. apply Hg, lookup_ge_None in Hn. lia.
  - step_cases Hst; try solve [left; eapply inv_done; eauto]; try naive_solver.
    + right. intros j. eapply alone; eauto using lookup_lt_Some. destruct (_ || _); naive_solver.
    + left. eapply spin_done; eauto.
Qed.

Lemma step_inv_ipi s s' j : step s s' -> inv s -> on_cpu s' j (λ c, ipi c = true) ->
  bit s' j = true /\ exists i a v, i <> j /\ at_stage s' i Spin a v.
Proof.
  intros Hst Hi H. assert (Hj : (j < length (cpus s))%nat) by (destruct H as (c & Hc & _); rewrite <- (step_length _ _ Hst); eauto using lookup_lt_Some).
  destruct (step_ipi_from _ _ _ Hst H) as [Ho|(i & a & v & Hn & Hs & Hs' & Hp)].
  - destruct (inv_ipi s Hi j Ho) as (Hb & i & a & v & Hn & Hs). split; [|eauto 7 using step_spins].
    destruct (step_bit _ _ _ _ _ _ Hst Hi Hs Hj Hb) as [?|[Hq _]]; [done|]. now apply (inv_irq s Hi) in Hq as (_ & ? & _).
  - unfold bit. rewrite Hp. split; [eapply inv_sent; eauto|eauto 7].
Qed.

Lemma step_inv_irq s s' j : step s s' -> inv s -> on_cpu s' j (λ c, irq c <> None) ->
  bit s' j = true /\ ~ on_cpu s' j (λ c, ipi c = true) /\ exists i a v, i <> j /\ at_stage s' i Spin a v /\ lacks s' j a v.
Proof.
  intros Hst Hi H. assert (Hj : (j < length (cpus s))%nat) by (destruct H as (c & Hc & _); rewrite <- (step_length _ _ Hst); eauto using lookup_lt_Some).
  destruct (step_irq_from _ _ _ Hst H) as [Ho|(Ho & Hno & Hp & HL)].
  - destruct (inv_irq s Hi j Ho) as (Hb & Hni & i & a & v & Hn & Hs & HL). split; [|split].
    + destruct (step_bit _ _ _ _ _ _ Hst Hi Hs Hj Hb) as [?|[_ (c' & Hc' & Hq)]]; [done|]. destruct H as (c & Hc & ?). congruence.
    + intros [?|(i1 & a1 & v1 & _ & Hs1 & _)]%(step_ipi_from _ _ _ Hst); [done|spin_holder].
    + exists i, a, v. split; [done|]. split; [eauto using step_spins|]. eapply step_lacks; eauto using inv_dead.
  - destruct (inv_ipi s Hi j Ho) as (Hb & i & a & v & Hn & Hs). unfold bit in *. rewrite Hp. split; [done|]. split; [done|].
    exists i, a, v. split; [done|]. split; [eauto using step_spins|]. rewrite <- (inv_addr s Hi _ _ _ _ Hs) by auto. apply HL.
Qed.

Lemma inv_step s s' : step s s' -> inv s -> inv s'.
Proof.
  intros Hst Hi. split.
  - rewrite (step_length _ _ Hst). apply (inv_len s Hi).
  - apply (step_fresh s); [done|apply (inv_fresh s Hi)].
  - intros *. now apply (step_at_dead s).
  - intros *. now apply (step_at_own s).
  - intros *. now apply (step_at_lock s).
  - intros *. now apply (step_at_one s).
  - intros *. now apply (step_at_addr s).
  - intros *. now apply (step_at_sent s).
  - intros *. now apply (step_at_spin s).
  - intros *. now apply (step_inv_ipi s).
  - intros *. now apply (step_inv_irq s).
  - intros *. now apply (step_at_done s).
Qed.

Lemma booted_at n m nx i st a v : ~ at_stage (booted n m nx) i st a v.
Proof. intros (c & [-> _]%lookup_replicate_1 & b & [=]). Qed.

Lemma inv_booted n m nx : (1 <= n <= 64)%nat -> (forall a v, m !! a = Some v -> v < nx) -> inv (booted n m nx).
Proof.
  intros Hn Hm. split; try (intros * []%booted_at).
  - cbn. now rewrite length_replicate.
  - exact Hm.
  - intros j (c & [-> _]%lookup_replicate_1 & [=]).
  - intros j (c & [-> _]%lookup_replicate_1 & H). now cbn in H.
Qed.

Lemma reachable_inv s : reachable s -> inv s.
Proof. induction 1; eauto using inv_booted, inv_step. Qed.

Lemma steps_gone s s' a v : steps s s' -> gone s a v -> gone s' a v.
Proof. induction 1; eauto using step_gone. Qed.

(** * The properties *)

(** C25. When the code that removes mapping [v] of address [a] is about to
    return from [tlb_flush_remote], on any CPU of up to 64 and under any
    interleaving of page-table walks, new mappings, other removals and
    shootdown interrupts, no CPU holds the translation any more, and none will
    hold it in any later state. *)
Theorem shootdown_safe s s' i c a v b : reachable s -> cpus s !! i = Some c -> pc c = At Return a v b -> steps s s' -> gone s' a v.
Proof.
  intros Hr Hc Hp Hs. eapply steps_gone; [done|]. eapply (inv_done s (reachable_inv s Hr)); [eapply at_intro; eauto|now right].
Qed.

(** Fires one step of a concrete run. *)
Ltac fire R tac := eapply reachable_step in R; [|tac; reflexivity]; 
  match type of R with reachable ?s => let s' := eval cbn in s in change (reachable s') in R end.
(** Two CPUs have the translation; one removes the mapping. *)
Lemma shootdown_safe_witness : exists s c, reachable s /\ cpus s !! 0%nat = Some c /\ pc c = At Return 4096 0 true /\
  lock s = false /\ gone s 4096 0.
Proof.
  assert (R : reachable (booted 2 {[4096 := 0]} 1)).
  { apply reachable_boot; [lia|]. intros a v [_ <-]%lookup_singleton_Some. lia. }
  fire R ltac:(eapply (step_load 0 _ 4096 0)).
  fire R ltac:(eapply (step_load 1 _ 4096 0)).
  fire R ltac:(eapply (step_unmap 0 _ 4096 0)).
  fire R ltac:(eapply (step_local 0 _ 4096 0)).
  fire R ltac:(eapply (step_acquire 0 _ 4096 0)).
  fire R ltac:(eapply (step_addr 0 _ 4096 0)).
  fire R ltac:(eapply (step_mask 0 _ 4096 0)).
  fire R ltac:(eapply (step_send 0 _ 4096 0)).
  fire R ltac:(eapply (step_irq 1)).
  fire R ltac:(eapply (step_ack 1)).
  fire R ltac:(eapply (step_spin 0 _ 4096 0)).
  fire R ltac:(eapply (step_release 0 _ 4096 0)).
  match type of R with reachable ?s => exists s end. eexists. split; [exact R|]. split; [vm_compute; reflexivity|]. split; [reflexivity|]. split; [reflexivity|].
  eapply (shootdown_safe _ _ 0); [exact R|vm_compute; reflexivity|reflexivity|constructor].
Defined.

(** Two CPUs are removing mappings; the first waits for the acknowledgement of
    the second, which waits for the lock with interrupts off. *)
Record deadlocked (s : machine) : Prop := {
  dl_spin : on_cpu s 0 (λ c, ie c = false /\ irq c = None /\ exists a v b, pc c = At Spin a v b);
  dl_acquire : on_cpu s 1 (λ c, ie c = false /\ irq c = None /\ exists a v b, pc c = At Acquire a v b);
  dl_len : length (cpus s) = 2%nat;
  dl_lock : lock s = true;
  dl_bit : bit s 1 = true }.

Lemma deadlocked_step s s' : step s s' -> deadlocked s -> deadlocked s'.
Proof.
  intros Hst Hd. pose proof (step_length _ _ Hst) as Hl. destruct Hd as [(c0 & H0 & E0 & I0 & a0 & v0 & b0 & P0) (c1 & H1 & E1 & I1 & a1 & v1 & b1 & P1) Hlen Hlk Hb].
  assert (Hp : pending s <> 0) by (unfold bit in Hb; intros E; rewrite E, Z.bits_0 in Hb; discriminate).
  destruct Hst as [i c|a s|i c|i c|i c|i c|i c|i c|i c|i c|i c|i c|i c|i c]; try (split; [exists c0|exists c1|..]; naive_solver).
  all: pose proof (lookup_lt_Some _ _ _ H) as Hi; rewrite Hlen in Hi.
  all: assert (i = 0%nat \/ i = 1%nat) as [-> | ->] by lia; simplify_eq; try congruence.
  all: split; [| |cbn in *; lia|done|done]; (eapply on_insert; [exact H|reflexivity|]); cbn; unfold on_cpu; naive_solver.
Qed.

Lemma deadlocked_steps s s' : steps s s' -> deadlocked s -> deadlocked s'.
Proof. induction 1; eauto using deadlocked_step. Qed.

Lemma deadlock_reachable : exists s, reachable s /\ deadlocked s.
Proof.
  assert (R : reachable (booted 2 {[4096 := 0; 8192 := 1]} 2)).
  { apply reachable_boot; [lia|]. intros a v [[_ <-]|[_ [_ <-]%lookup_singleton_Some]]%lookup_insert_Some; lia. }
  fire R ltac:(eapply (step_unmap 0 _ 4096 0)).
  fire R ltac:(eapply (step_unmap 1 _ 8192 1)).
  fire R ltac:(eapply (step_local 0 _ 4096 0)).
  fire R ltac:(eapply (step_local 1 _ 8192 1)).
  fire R ltac:(eapply (step_acquire 0 _ 4096 0)).
  fire R ltac:(eapply (step_addr 0 _ 4096 0)).
  fire R ltac:(eapply (step_mask 0 _ 4096 0)).
  fire R ltac:(eapply (step_send 0 _ 4096 0)).
  eexists. split; [exact R|]. split; [eexists; split; [vm_compute; reflexivity|eauto 8].. | reflexivity | reflexivity | reflexivity].
Qed.
