(* ===== verification/Slab.v ===== *)
(** allocaters/slab_alloc.c: the kernel heap. Twelve caches of slots of one
    size each; a cache has three singly linked lists of slabs: full, partial
    and empty; a slab is a run of pages cut into slots with a bitmap of the
    slots in use. The descriptors of the slabs live in a store with explicit
    links; the memory the slots are cut from is the byte memory of CMem.v.
    The address [AddKernelPages] returns is an argument of the calls that need
    pages. *)

From S2P Require Import Prelude BitMath Bytes CMem.

(** * State *)

Record slab_t := Slab { start : Z; num_slots : Z; free_count : Z; next : Z; bitmap_size : Z; bitmap : list Z }.
Record cache_t := Cache { csize : Z; full_slabs : Z; partial_slabs : Z; empty_slabs : Z; clock : bool }.
Record heap := Heap { slabs : gmap Z slab_t; caches : list cache_t; curr_addr : Z; ie : bool; ram : memory }.

Definition set_free_count v d := Slab (start d) (num_slots d) v (next d) (bitmap_size d) (bitmap d).
Definition set_next v d := Slab (start d) (num_slots d) (free_count d) v (bitmap_size d) (bitmap d).
Definition set_bitmap v d := Slab (start d) (num_slots d) (free_count d) (next d) (bitmap_size d) v.
Definition set_full v c := Cache (csize c) v (partial_slabs c) (empty_slabs c) (clock c).
Definition set_partial v c := Cache (csize c) (full_slabs c) v (empty_slabs c) (clock c).
Definition set_empty v c := Cache (csize c) (full_slabs c) (partial_slabs c) v (clock c).
Definition set_clock v c := Cache (csize c) (full_slabs c) (partial_slabs c) (empty_slabs c) v.
Definition set_slabs v s := Heap v (caches s) (curr_addr s) (ie s) (ram s).
Definition set_caches v s := Heap (slabs s) v (curr_addr s) (ie s) (ram s).
Definition set_curr v s := Heap (slabs s) (caches s) v (ie s) (ram s).
Definition set_ie v s := Heap (slabs s) (caches s) (curr_addr s) v (ram s).
Definition set_ram v s := Heap (slabs s) (caches s) (curr_addr s) (ie s) v.
#[export] Instance heap_if : HasIF heap := Field ie set_ie.

(** * Constants *)

Definition PAGE_SIZE : Z := 4096.
(** The sizes of buddy_node_t, a page, dentry_t, ext2_inode_data_t,
    dcache_entry_t, block_device_t, block_device_node_t, partition_device_t,
    superblock_t, ext2_info_t, inode_t and buffer_node_t. *)
Definition sizes : list Z := [32; PAGE_SIZE; 96; 136; 16; 80; 16; 32; 120; 136; 136; 88].
Definition slab_sizes : list Z := [4; 32; 4; 4; 4; 4; 1; 1; 1; 1; 4; 4].
Definition num_cache : Z := 12.
Definition SIZEOF_SLAB : Z := 40.
Definition NO_CACHE : Z := 0xFFFFFFF.
Definition SLAB_GARBAGE_BYTE : Z := 0xAC.

(** * Accesses *)

Definition slab_at (p : Z) : M heap slab_t := let* s := get in of_option (slabs s !! p).
Definition slab_upd (p : Z) (f : slab_t -> slab_t) : M heap unit :=
  let* d := slab_at p in modify (λ s, set_slabs (<[p := f d]> (slabs s)) s).
Definition cache_at (i : Z) : M heap cache_t := let* s := get in of_option (arr_get (caches s) i).
Definition cache_upd (i : Z) (f : cache_t -> cache_t) : M heap unit :=
  let* s := get in let* c := of_option (arr_get (caches s) i) in
  let* l := of_option (arr_set (caches s) i (f c)) in modify (set_caches l).
Definition size_of (i : Z) : M heap Z := of_option (arr_get sizes i).
Definition pages_of (i : Z) : M heap Z := of_option (arr_get slab_sizes i).
Definition bitmap_at (p j : Z) : M heap Z := let* d := slab_at p in of_option (arr_get (bitmap d) j).
Definition bitmap_set (p j v : Z) : M heap unit :=
  let* d := slab_at p in let* b := of_option (arr_set (bitmap d) j v) in slab_upd p (set_bitmap b).
Definition lock_cache (i : Z) : M heap unit :=
  let* c := cache_at i in if clock c then undef else cache_upd i (set_clock true).
Definition unlock_cache (i : Z) : M heap unit := cache_upd i (set_clock false).
(** [memset] on the memory of the heap. *)
Definition heap_memset (p v n : Z) : M heap unit := λ s,
  match memset p v n (ram s) with Some (_, m) => Some (tt, set_ram m s) | None => None end.
(** A walk over a list of slabs visits each descriptor at most once. *)
Definition list_fuel (s : heap) : nat := S (size (slabs s)).

(** * The operations *)

Definition CalculateBitMapSize (i : Z) : M heap Z :=
  let* n := pages_of i in let* z := size_of i in
  let slots := wrap64 (n * PAGE_SIZE) / z in
  ret (if slots mod 64 =? 0 then slots / 64 else slots / 64 + 1).

(** [while (bit_pos < 64) { bit = num << (63 - bit_pos); bit = bit >> 63; if (bit == 0) break; bit_pos++; }] *)
Definition GetEmptyBit_step (num bit_pos : Z) : M heap (Z + Z) :=
  if bit_pos <? 64 then
    let bit := wrap64 (Z.shiftl num (63 - bit_pos)) in
    let bit := Z.shiftr bit 63 in
    if bit =? 0 then ret (inr bit_pos) else ret (inl (bit_pos + 1))
  else ret (inr bit_pos).
Definition GetEmptyBit (num : Z) : M heap Z := loop 65 (GetEmptyBit_step num) 0.

Definition DeleteSlab_step (target p : Z) : M heap (Z + Z) :=
  let* d := slab_at p in
  if negb (next d =? 0) && negb (next d =? target) then ret (inl (next d)) else ret (inr p).
Definition DeleteSlab (head target : Z) : M heap Z :=
  if head =? 0 then ret head
  else if head =? target then let* d := slab_at head in ret (next d)
  else
    let* s := get in
    let* p := loop (list_fuel s) (DeleteSlab_step target) head in
    let* d := slab_at p in
    if next d =? 0 then ret head
    else
      let* t := slab_at (next d) in
      slab_upd p (set_next (next t));; ret head.

(** One word of the bitmap of the first partial slab: allocate its first free
    slot. *)
Definition SearchCache_take (idx s_p i w : Z) : M heap Z :=
  let* bit_pos := GetEmptyBit w in
  bitmap_set s_p i (Z.lxor w (wrap64 (Z.shiftl 1 bit_pos)));;
  slab_upd s_p (λ d, set_free_count (wrap64 (free_count d - 1)) d);;
  let* d := slab_at s_p in
  when (free_count d =? 0)
    (let* c := cache_at idx in
     let* h := DeleteSlab (partial_slabs c) s_p in
     cache_upd idx (set_partial h);;
     let* c := cache_at idx in
     slab_upd s_p (set_next (full_slabs c));;
     cache_upd idx (set_full s_p));;
  let* z := size_of idx in
  let* d := slab_at s_p in
  ret (wrap64 (start d + (i * 64 + bit_pos) * z)).

Definition SearchCache_step (idx s_p i : Z) : M heap (Z + option Z) :=
  let* d := slab_at s_p in
  if i <? bitmap_size d then
    let* w := bitmap_at s_p i in
    if w =? UINT64_MAX then ret (inl (i + 1))
    else let* r := SearchCache_take idx s_p i w in ret (inr (Some r))
  else ret (inr None).

Definition SearchCache_partial (idx : Z) : M heap (option Z) :=
  let* c := cache_at idx in
  if partial_slabs c =? 0 then ret None
  else let* d := slab_at (partial_slabs c) in
       loop (S (Z.to_nat (bitmap_size d))) (SearchCache_step idx (partial_slabs c)) 0.

Definition SearchCache_empty (idx : Z) : M heap Z :=
  let* c := cache_at idx in
  let s_p := empty_slabs c in
  if s_p =? 0 then ret 0
  else
    let* d := slab_at s_p in
    let r := start d in
    bitmap_set s_p 0 1;;
    slab_upd s_p (λ d, set_free_count (wrap64 (free_count d - 1)) d);;
    let* d := slab_at s_p in
    cache_upd idx (set_empty (next d));;
    let* c := cache_at idx in
    slab_upd s_p (set_next (partial_slabs c));;
    cache_upd idx (set_partial s_p);;
    ret r.

(** Zero is NULL. *)
Definition SearchCache (idx : Z) : M heap Z :=
  let* r := SearchCache_partial idx in
  match r with Some p => ret p | None => SearchCache_empty idx end.

Definition AddSlab (bitmap_size : Z) : M heap Z :=
  modify (λ s, set_curr (wrap64 (curr_addr s + SIZEOF_SLAB + 8 * bitmap_size)) s);;
  let* s := get in ret (wrap64 (curr_addr s - SIZEOF_SLAB - 8 * bitmap_size)).

Definition AddSlabW (AddKernelPages : Z -> Z) (idx : Z) : M heap unit :=
  let* slab_size := pages_of idx in
  let slab_addr := AddKernelPages slab_size in
  let* z := size_of idx in
  let total_slots := wrap64 (slab_size * PAGE_SIZE) / z in
  let bitmap_len := if total_slots mod 64 =? 0 then total_slots / 64 else total_slots / 64 + 1 in
  let* new_slab := AddSlab bitmap_len in
  let* c := cache_at idx in
  modify (λ s, set_slabs (<[new_slab :=
    Slab slab_addr total_slots total_slots (empty_slabs c) bitmap_len (replicate (Z.to_nat bitmap_len) 0)]> (slabs s)) s);;
  cache_upd idx (set_empty new_slab).

(** [p1->start <= ptr && p1->start + slab_sizes[cache_idx] * PAGE_SIZE > ptr] *)
Definition in_slab (d : slab_t) (n ptr : Z) : bool := (start d <=? ptr) && (ptr <? wrap64 (start d + n * PAGE_SIZE)).

Definition SearchSlab_step2 (n ptr : Z) (v : Z * Z) : M heap (Z * Z + (Z * Z + Z)) :=
  let '(p1, p2) := v in
  if negb (p1 =? 0) && negb (p2 =? 0) then
    let* d1 := slab_at p1 in
    if in_slab d1 n ptr then ret (inr (inr p1))
    else
      let* d2 := slab_at p2 in
      if in_slab d2 n ptr then ret (inr (inr p2)) else ret (inl (next d1, next d2))
  else ret (inr (inl (p1, p2))).
Definition SearchSlab_step1 (n ptr p : Z) : M heap (Z + Z) :=
  if p =? 0 then ret (inr 0)
  else let* d := slab_at p in if in_slab d n ptr then ret (inr p) else ret (inl (next d)).
Definition SearchSlab (slab1 slab2 ptr idx : Z) : M heap Z :=
  let* n := pages_of idx in
  let* s := get in
  let* r := loop (list_fuel s) (SearchSlab_step2 n ptr) (slab1, slab2) in
  match r with
  | inr p => ret p
  | inl (p1, p2) =>
      let* r := loop (list_fuel s) (SearchSlab_step1 n ptr) p1 in
      if negb (r =? 0) then ret r else loop (list_fuel s) (SearchSlab_step1 n ptr) p2
  end.

Definition GetBestCacheIndex_step (size : Z) (v : Z * Z * Z) : M heap (Z * Z * Z + Z) :=
  let '(i, best_idx, min_waste) := v in
  if i <? num_cache then
    let* c := cache_at i in
    if size <=? csize c then
      let waste := csize c - size in
      if waste =? 0 then ret (inr i)
      else if waste <? min_waste then ret (inl (i + 1, i, waste)) else ret (inl (i + 1, best_idx, min_waste))
    else ret (inl (i + 1, best_idx, min_waste))
  else ret (inr best_idx).
Definition GetBestCacheIndex (size : Z) : M heap Z := loop 13 (GetBestCacheIndex_step size) (0, NO_CACHE, UINT64_MAX).

Definition kmalloc (AddKernelPages : Z -> Z) (size : Z) : M heap Z :=
  let* idx := GetBestCacheIndex size in
  if idx =? NO_CACHE then ret 0
  else
    let* org_int_state := check_interrupts in
    CliHelper;;
    lock_cache idx;;
    let* r := SearchCache idx in
    if negb (r =? 0) then
      unlock_cache idx;; heap_memset r 0 size;; when org_int_state StiHelper;; ret r
    else
      unlock_cache idx;;
      AddSlabW AddKernelPages idx;;
      lock_cache idx;;
      let* r := SearchCache idx in
      unlock_cache idx;;
      when (negb (r =? 0)) (heap_memset r 0 size);;
      when org_int_state StiHelper;;
      ret r.

(** The search of [kfree] with size zero, whose result the code drops. *)
Definition kfree_search_step (ptr i : Z) : M heap (Z + unit) :=
  if i <? num_cache then
    let* c := cache_at i in
    let* r := SearchSlab (full_slabs c) (partial_slabs c) ptr i in
    if r =? 0 then ret (inl (i + 1)) else ret (inr tt)
  else ret (inr tt).

(** The part of [kfree] under the lock: slot [ptr] of slab [p]. *)
Definition kfree_slot (idx p ptr : Z) : M heap unit :=
  slab_upd p (λ d, set_free_count (wrap64 (free_count d + 1)) d);;
  let* d := slab_at p in
  let* z := size_of idx in
  let slot_index := wrap64 (ptr - start d) / z in
  let bitmap_index := slot_index / 64 in
  let bit_pos := slot_index mod 64 in
  let* w := bitmap_at p bitmap_index in
  bitmap_set p bitmap_index (Z.lxor w (wrap64 (Z.shiftl 1 bit_pos)));;
  let* d := slab_at p in
  when (free_count d =? 1)
    (let* c := cache_at idx in
     let* h := DeleteSlab (full_slabs c) p in
     cache_upd idx (set_full h);;
     let* c := cache_at idx in
     slab_upd p (set_next (partial_slabs c));;
     cache_upd idx (set_partial p));;
  let* d := slab_at p in
  when (free_count d =? num_slots d)
    (let* c := cache_at idx in
     let* h := DeleteSlab (partial_slabs c) p in
     cache_upd idx (set_partial h);;
     let* c := cache_at idx in
     slab_upd p (set_next (empty_slabs c));;
     cache_upd idx (set_empty p)).

Definition kfree (ptr size : Z) : M heap unit :=
  if size =? 0 then loop 13 (kfree_search_step ptr) 0
  else
    heap_memset ptr SLAB_GARBAGE_BYTE size;;
    let* idx := GetBestCacheIndex size in
    if idx =? NO_CACHE then ret tt
    else
      let* c := cache_at idx in
      let* p := SearchSlab (full_slabs c) (partial_slabs c) ptr idx in
      if p =? 0 then ret tt
      else
        let* org_int_state := check_interrupts in
        CliHelper;;
        lock_cache idx;;
        kfree_slot idx p ptr;;
        unlock_cache idx;;
        when org_int_state StiHelper.

(** * Construction *)

(** One cache of [InitSlabAlloc]: pages from [AddKernelPagesPrimitive]; the
    descriptor's [next] is what the memory held. *)
Definition InitSlabAlloc_step (AddKernelPagesPrimitive : Z -> Z) (uninit : Z -> Z) (i : Z) : M heap (Z + unit) :=
  if i <? num_cache then
    let* z := size_of i in
    cache_upd i (λ c, Cache z (full_slabs c) (partial_slabs c) (empty_slabs c) (clock c));;
    let* n := pages_of i in
    let start_addr := AddKernelPagesPrimitive i in
    let* s := get in
    let d := curr_addr s in
    cache_upd i (set_empty d);;
    let* bm := CalculateBitMapSize i in
    let slots := wrap64 (n * PAGE_SIZE) / z in
    modify (λ s, set_slabs (<[d := Slab start_addr slots slots (uninit d) bm (replicate (Z.to_nat bm) 0)]> (slabs s)) s);;
    modify (λ s, set_curr (wrap64 (curr_addr s + SIZEOF_SLAB + 8 * bm)) s);;
    ret (inl (i + 1))
  else ret (inr tt).
Definition InitSlabAlloc (AddKernelPagesPrimitive : Z -> Z) (uninit : Z -> Z) (start : Z) : M heap unit :=
  modify (set_curr start);;
  loop 13 (InitSlabAlloc_step AddKernelPagesPrimitive uninit) 0.

(** Statically allocated caches. *)
Definition slab_boot (m : memory) : heap := Heap ∅ (replicate 12 (Cache 0 0 0 0 false)) 0 true m.
