(* ===== verification/SlabBits.v ===== *)
(** The bitmaps of the kernel heap: which slots of a slab are in use, how many,
    and the searches and flips of Slab.v on them. *)

From S2P Require Import Prelude BitMath Bytes CMem Slab.

(** Slot [k] of the slab is in use. *)
Definition slot_used (d : slab_t) (k : Z) : bool :=
  match arr_get (bitmap d) (k / 64) with Some w => Z.testbit w (k mod 64) | None => false end.
Definition used_slots (d : slab_t) : list Z := filter (λ k, slot_used d k = true) (seqZ 0 (num_slots d)).
Definition used_count (d : slab_t) : Z := Z.of_nat (length (used_slots d)).

(** * Words *)

Lemma top_bit w b : 0 <= b <= 63 -> Z.shiftr (wrap64 (Z.shiftl w (63 - b))) 63 = Z.b2z (Z.testbit w b).
Proof.
  intros Hb. apply Z.bits_inj'. intros n Hn. rewrite Z.shiftr_spec by lia. unfold wrap.
  destruct (decide (n = 0)) as [->|].
  - rewrite Z.mod_pow2_bits_low, Z.shiftl_spec, Z.b2z_bit0 by lia. f_equal. lia.
  - rewrite Z.mod_pow2_bits_high by lia. destruct (Z.testbit w b); cbn; [|now rewrite Z.bits_0].
    change 1 with (2 ^ 0). now rewrite Z.pow2_bits_false by lia.
Qed.

Lemma wp_GetEmptyBit w (Q : Z -> heap -> Prop) s : is_word 64 w -> w <> UINT64_MAX ->
  (forall b, 0 <= b < 64 -> Z.testbit w b = false -> (forall j, 0 <= j < b -> Z.testbit w j = true) -> Q b s) ->
  wp (GetEmptyBit w) Q s.
Proof.
  intros Hw Hm HQ. unfold GetEmptyBit.
  eapply (wp_loop (λ n b s', s' = s /\ Z.of_nat n = 64 - b /\ 0 <= b /\ forall j, 0 <= j < b -> Z.testbit w j = true) 64);
    [split_and!; [done|lia..]|lia|].
  intros n b s' (-> & Hn & Hb & Hall). unfold GetEmptyBit_step. destruct (Z.ltb_spec b 64) as [H64|H64].
  - rewrite top_bit by lia. destruct (Z.testbit w b) eqn:E; cbn; [|now apply HQ].
    exists (Nat.pred n). split; [lia|]. split_and!; [done|lia..|]. intros j Hj. destruct (decide (j = b)) as [->|]; [done|]. apply Hall. lia.
  - exfalso. apply Hm. apply Z.bits_inj'. intros j Hj. unfold UINT64_MAX. rewrite Z.sub_1_r, <- Z.ones_equiv.
    destruct (decide (j < 64)).
    + rewrite Z.ones_spec_low by lia. apply Hall. lia.
    + rewrite Z.ones_spec_high by lia. unfold is_word in Hw. rewrite <- (Z.mod_small w (2 ^ 64)) by lia. now rewrite Z.mod_pow2_bits_high by lia.
Qed.

Lemma flip_testbit w b j : 0 <= b < 64 -> 0 <= j -> Z.testbit (Z.lxor w (wrap64 (Z.shiftl 1 b))) j = xorb (Z.testbit w j) (j =? b).
Proof.
  intros Hb Hj. rewrite Z.lxor_spec. f_equal. rewrite shiftl_1 by lia.
  rewrite wrap64_small by (split; [lia|]; apply Z.pow_lt_mono_r; lia). now apply testbit_pow2.
Qed.

Lemma flip_word w b : is_word 64 w -> 0 <= b < 64 -> is_word 64 (Z.lxor w (wrap64 (Z.shiftl 1 b))).
Proof.
  intros Hw Hb. unfold is_word in *.
  assert (E : Z.lxor w (wrap64 (Z.shiftl 1 b)) = Z.lxor w (wrap64 (Z.shiftl 1 b)) mod 2 ^ 64); [|rewrite E; apply Z.mod_pos_bound; lia].
  apply Z.bits_inj'. intros j Hj. destruct (decide (j < 64)); [now rewrite Z.mod_pow2_bits_low by lia|].
  rewrite Z.mod_pow2_bits_high, flip_testbit by lia. rewrite <- (Z.mod_small w (2 ^ 64)) by lia. rewrite Z.mod_pow2_bits_high by lia.
  destruct (Z.eqb_spec j b); [lia|done].
Qed.

(** * Counting *)

Lemma filter_iff_in {A} (P Q : A -> Prop) `{!forall x, Decision (P x), !forall x, Decision (Q x)} (l : list A) :
  (forall x, x ∈ l -> P x <-> Q x) -> filter P l = filter Q l.
Proof.
  induction l as [|a l IH]; [done|]. intros HPQ. rewrite !filter_cons, IH by set_solver. specialize (HPQ a ltac:(set_solver)).
  destruct (decide (P a)), (decide (Q a)); naive_solver.
Qed.

Lemma filter_all_in {A} (P : A -> Prop) `{!forall x, Decision (P x)} (l : list A) : (forall x, x ∈ l -> P x) -> filter P l = l.
Proof.
  induction l as [|a l IH]; [done|]. intros HP. rewrite filter_cons, IH by set_solver.
  destruct (decide (P a)) as [_|n]; [done|]. exfalso. apply n, HP. set_solver.
Qed.

Lemma filter_none_in {A} (P : A -> Prop) `{!forall x, Decision (P x)} (l : list A) : (forall x, x ∈ l -> ~ P x) -> filter P l = [].
Proof.
  induction l as [|a l IH]; [done|]. intros HP. rewrite filter_cons, IH by set_solver.
  destruct (decide (P a)) as [n|_]; [|done]. exfalso. eapply HP; [|done]. set_solver.
Qed.

Lemma filter_flip {A} `{EqDecision A} (P Q : A -> Prop) `{!forall x, Decision (P x), !forall x, Decision (Q x)} (l : list A) x :
  NoDup l -> x ∈ l -> ~ P x -> Q x -> (forall y, y ∈ l -> y <> x -> P y <-> Q y) -> length (filter Q l) = S (length (filter P l)).
Proof.
  induction l as [|a l IH]; [intros _ []%elem_of_nil|]. intros [Ha Hn]%list.NoDup_cons Hx HP HQ Heq.
  destruct (decide (a = x)) as [->|Hne].
  - rewrite !filter_cons. rewrite decide_True, decide_False by done. cbn. f_equal. f_equal. apply filter_iff_in.
    intros y Hy. symmetry. apply Heq; [set_solver|]. now intros ->.
  - assert (Hx' : x ∈ l) by set_solver. rewrite !filter_cons. specialize (Heq a) as Hea.
    assert (Hl : length (filter Q l) = S (length (filter P l))) by (apply IH; auto; intros y Hy; apply Heq; set_solver).
    destruct (decide (P a)), (decide (Q a)); cbn; rewrite ?Hl; try done; exfalso; set_solver.
Qed.

Section Slab.
Context (d : slab_t).
(** The shape of a bitmap: enough words, no bit past the last slot. *)
Record bitmap_ok : Prop := {
  bo_pos : 0 < num_slots d < 2 ^ 32;
  bo_size : bitmap_size d = (num_slots d + 63) / 64;
  bo_len : Z.of_nat (length (bitmap d)) = bitmap_size d;
  bo_words : Forall (is_word 64) (bitmap d);
  bo_past k : num_slots d <= k -> slot_used d k = false;
  bo_count : free_count d = num_slots d - used_count d }.
End Slab.

Lemma used_slots_all d : (forall k, 0 <= k < num_slots d -> slot_used d k = true) -> 0 <= num_slots d -> used_count d = num_slots d.
Proof.
  intros H H0. unfold used_count, used_slots. rewrite filter_all_in.
  - rewrite length_seqZ. lia.
  - intros k [? ?]%elem_of_seqZ. apply H. lia.
Qed.

(** Flipping the bit of slot [k] changes that slot only. *)
Lemma slot_used_flip d k w n : 0 <= k -> arr_get (bitmap d) (k / 64) = Some w ->
  let d' := set_free_count n (set_bitmap (<[Z.to_nat (k / 64) := Z.lxor w (wrap64 (Z.shiftl 1 (k mod 64)))]> (bitmap d)) d) in
  forall j, 0 <= j -> slot_used d' j = if decide (j = k) then negb (slot_used d k) else slot_used d j.
Proof.
  intros Hk Hw d' j Hj. unfold slot_used. cbn [bitmap set_free_count set_bitmap d'].
  pose proof (Z.mod_pos_bound k 64 ltac:(lia)). pose proof (Z.mod_pos_bound j 64 ltac:(lia)).
  pose proof (Z.div_mod k 64 ltac:(lia)). pose proof (Z.div_mod j 64 ltac:(lia)).
  rewrite arr_get_insert by (eapply arr_get_Some_lt; eauto). rewrite Hw. destruct (decide (k / 64 = j / 64)) as [E|E].
  - rewrite flip_testbit by lia. rewrite <- E, Hw. destruct (decide (j = k)) as [->|Hn].
    + now rewrite Z.eqb_refl, xorb_true_r.
    + destruct (Z.eqb_spec (j mod 64) (k mod 64)); [lia|]. apply xorb_false_r.
  - destruct (decide (j = k)) as [->|]; [done|reflexivity].
Qed.

(** The slab with the bit of slot [k] flipped and the count adjusted. *)
Definition flip_slot (k n w : Z) (d : slab_t) : slab_t :=
  set_free_count n (set_bitmap (<[Z.to_nat (k / 64) := Z.lxor w (wrap64 (Z.shiftl 1 (k mod 64)))]> (bitmap d)) d).

Lemma slot_word d k : bitmap_ok d -> 0 <= k < num_slots d -> exists w, arr_get (bitmap d) (k / 64) = Some w /\ is_word 64 w /\ slot_used d k = Z.testbit w (k mod 64).
Proof.
  intros Hd Hk. destruct (arr_get_lt (bitmap d) (k / 64)) as [w Hw].
  - rewrite (bo_len d Hd), (bo_size d Hd). split; [apply Z.div_pos; lia|]. apply Z.div_lt_upper_bound; [lia|].
    pose proof (Z.div_mod (num_slots d + 63) 64 ltac:(lia)). pose proof (Z.mod_pos_bound (num_slots d + 63) 64 ltac:(lia)). lia.
  - exists w. split; [done|]. split; [|unfold slot_used; now rewrite Hw].
    unfold arr_get in Hw. destruct (k / 64 <? 0); [done|]. eapply Forall_lookup_1; [apply (bo_words d Hd)|done].
Qed.

Lemma flip_count d k n w : bitmap_ok d -> 0 <= k < num_slots d -> arr_get (bitmap d) (k / 64) = Some w ->
  used_count (flip_slot k n w d) = used_count d + (if slot_used d k then -1 else 1).
Proof.
  intros Hd Hk Hw. pose proof (slot_used_flip d k w n ltac:(lia) Hw) as Hf. cbv zeta in Hf. fold (flip_slot k n w d) in Hf.
  unfold used_count, used_slots. change (num_slots (flip_slot k n w d)) with (num_slots d).
  assert (Hin : k ∈ seqZ 0 (num_slots d)) by (apply elem_of_seqZ; lia). pose proof (NoDup_seqZ 0 (num_slots d)) as Hnd.
  pose proof (Hf k ltac:(lia)) as Hk'. rewrite decide_True in Hk' by done.
  assert (Hj : forall j, j ∈ seqZ 0 (num_slots d) -> j <> k -> slot_used d j = true <-> slot_used (flip_slot k n w d) j = true).
  { intros j [? ?]%elem_of_seqZ Hn. rewrite (Hf j) by lia. now rewrite decide_False. }
  destruct (slot_used d k) eqn:E; cbn in Hk'.
  - rewrite (filter_flip (λ j, slot_used (flip_slot k n w d) j = true) (λ j, slot_used d j = true) (seqZ 0 (num_slots d)) k); [lia|done|done|congruence|done|].
    intros j ? ?. symmetry. auto.
  - rewrite (filter_flip (λ j, slot_used d j = true) (λ j, slot_used (flip_slot k n w d) j = true) (seqZ 0 (num_slots d)) k); [lia|done|done|congruence|done|done].
Qed.

Lemma flip_ok d k w : bitmap_ok d -> 0 <= k < num_slots d -> arr_get (bitmap d) (k / 64) = Some w ->
  bitmap_ok (flip_slot k (free_count d + (if slot_used d k then 1 else -1)) w d).
Proof.
  intros Hd Hk Hw. pose proof (flip_count d k (free_count d + (if slot_used d k then 1 else -1)) w Hd Hk Hw) as Hc.
  pose proof (slot_used_flip d k w (free_count d + (if slot_used d k then 1 else -1)) ltac:(lia) Hw) as Hf.
  cbv zeta in Hf. fold (flip_slot k (free_count d + (if slot_used d k then 1 else -1)) w d) in Hf.
  destruct Hd. split; try done.
  - cbn. now rewrite length_insert.
  - cbn. apply Forall_insert; [done|]. apply flip_word; [|apply Z.mod_pos_bound; lia].
    unfold arr_get in Hw. destruct (k / 64 <? 0); [done|]. eapply Forall_lookup_1; eauto.
  - intros j Hj. change (num_slots d <= j) in Hj. rewrite Hf by lia. rewrite decide_False by lia. auto.
  - rewrite Hc. cbn. rewrite bo_count0. destruct (slot_used d k); lia.
Qed.

Lemma used_count_le d : bitmap_ok d -> 0 <= used_count d <= num_slots d.
Proof.
  intros Hd. unfold used_count, used_slots. pose proof (length_filter (λ k, slot_used d k = true) (seqZ 0 (num_slots d))) as H.
  rewrite length_seqZ in H. destruct (bo_pos d Hd). lia.
Qed.

(** A slot that is free: the count is not zero; one in use: it is not full. *)
Lemma used_count_lt d k : bitmap_ok d -> 0 <= k < num_slots d -> slot_used d k = false -> used_count d < num_slots d.
Proof.
  intros Hd Hk Hu. destruct (slot_word d k Hd Hk) as (w & Hw & _). pose proof (flip_count d k 0 w Hd Hk Hw) as Hc.
  pose proof (flip_ok d k w Hd Hk Hw) as Hd'. apply used_count_le in Hd'. rewrite flip_count in Hd' by done. rewrite Hu in Hd'. cbn in Hd'. lia.
Qed.

Lemma used_count_pos d k : bitmap_ok d -> 0 <= k < num_slots d -> slot_used d k = true -> 0 < used_count d.
Proof.
  intros Hd Hk Hu. destruct (slot_word d k Hd Hk) as (w & Hw & _).
  pose proof (flip_ok d k w Hd Hk Hw) as Hd'. apply used_count_le in Hd'. rewrite flip_count in Hd' by done. rewrite Hu in Hd'. cbn in Hd'. lia.
Qed.

Lemma used_count_full d k : bitmap_ok d -> 0 <= k < num_slots d -> used_count d = num_slots d -> slot_used d k = true.
Proof. intros Hd Hk Hc. destruct (slot_used d k) eqn:E; [done|]. pose proof (used_count_lt d k Hd Hk E). lia. Qed.

Lemma used_count_empty d k : bitmap_ok d -> 0 <= k < num_slots d -> used_count d = 0 -> slot_used d k = false.
Proof. intros Hd Hk Hc. destruct (slot_used d k) eqn:E; [|done]. pose proof (used_count_pos d k Hd Hk E). lia. Qed.

(** The first clear bit belongs to a slot, when some slot is free. *)
Lemma first_free d k : bitmap_ok d -> 0 < free_count d -> 0 <= k -> (forall j, 0 <= j < k -> slot_used d j = true) -> k < num_slots d.
Proof.
  intros Hd Hf Hk Hall. apply Z.nle_gt. intros Hge. rewrite (bo_count d Hd) in Hf. rewrite used_slots_all in Hf; [lia| |destruct (bo_pos d Hd); lia].
  intros j Hj. apply Hall. lia.
Qed.

Lemma bitmap_ok_fresh a n nx m : 0 < n < 2 ^ 32 -> m = (n + 63) / 64 -> bitmap_ok (Slab a n n nx m (replicate (Z.to_nat m) 0)) /\ used_count (Slab a n n nx m (replicate (Z.to_nat m) 0)) = 0.
Proof.
  intros Hn ->. assert (Hu : forall k, slot_used (Slab a n n nx ((n + 63) / 64) (replicate (Z.to_nat ((n + 63) / 64)) 0)) k = false).
  { intros k. unfold slot_used, arr_get. cbn. destruct (_ <? 0); [done|]. destruct (replicate _ 0 !! _) eqn:E; [|done].
    apply lookup_replicate_1 in E as [-> _]. apply Z.bits_0. }
  assert (Hc : used_count (Slab a n n nx ((n + 63) / 64) (replicate (Z.to_nat ((n + 63) / 64)) 0)) = 0).
  { unfold used_count, used_slots. rewrite filter_none_in; [done|]. intros k _. now rewrite Hu. }
  split; [|done]. pose proof (Z.div_pos (n + 63) 64 ltac:(lia) ltac:(lia)). split; try done; cbn.
  - rewrite length_replicate. lia.
  - apply Forall_replicate. unfold is_word. lia.
  - rewrite Hc. lia.
Qed.

(** The kernel heap's invariant: the lists of slabs of each cache, what each
    list holds, and the memory the slabs cover; the effect of the list
    operations of Slab.v. *)

(** * Constants of a cache *)

Definition sz (i : Z) : Z := default 0 (arr_get sizes i).
Definition pg (i : Z) : Z := default 0 (arr_get slab_sizes i).
Definition slots (i : Z) : Z := pg i * PAGE_SIZE / sz i.

Ltac cases12 i := 
  assert (i = 0 \/ i = 1 \/ i = 2 \/ i = 3 \/ i = 4 \/ i = 5 \/ i = 6 \/ i = 7 \/ i = 8 \/ i = 9 \/ i = 10 \/ i = 11)
    as [->|[->|[->|[->|[->|[->|[->|[->|[->|[->|[->| ->]]]]]]]]]]] by lia.

Lemma size_at i : 0 <= i < 12 -> arr_get sizes i = Some (sz i).
Proof. intros Hi. cases12 i; reflexivity. Qed.
Lemma pages_at i : 0 <= i < 12 -> arr_get slab_sizes i = Some (pg i).
Proof. intros Hi. cases12 i; reflexivity. Qed.
Lemma const_bounds i : 0 <= i < 12 ->
  0 < sz i <= 4096 /\ 0 < pg i <= 32 /\ 2 <= slots i <= 1024 /\ slots i * sz i <= pg i * PAGE_SIZE /\ wrap64 (pg i * PAGE_SIZE) / sz i = slots i.
Proof. intros Hi. cases12 i; vm_compute; intuition discriminate. Qed.

(** * Lists of slabs *)

Fixpoint chain (st : gmap Z slab_t) (p : Z) (l : list Z) : Prop :=
  match l with
  | [] => p = 0
  | a :: l => p = a /\ a <> 0 /\ exists d, st !! a = Some d /\ chain st (next d) l
  end.

Lemma slabs_ext st st' l : forall p, chain st p l -> (forall a, a ∈ l -> next <$> st' !! a = next <$> st !! a) -> chain st' p l.
Proof.
  induction l as [|a l IH]; cbn; [done|]. intros p (-> & H0 & d & Hd & Hc) Heq. split; [done|]. split; [done|].
  pose proof (Heq a ltac:(set_solver)) as E. rewrite Hd in E. destruct (st' !! a) as [d'|]; [|done]. cbn in E. injection E as E.
  exists d'. split; [done|]. rewrite E. apply IH; set_solver.
Qed.

Lemma chain_insert st p l a d : chain st p l -> a ∉ l -> chain (<[a := d]> st) p l.
Proof. intros Hc Ha. eapply slabs_ext; [exact Hc|]. intros x Hx. now rewrite lookup_insert_ne by set_solver. Qed.

Lemma chain_nonzero st p l : chain st p l -> Forall (λ a, a <> 0) l.
Proof. revert p. induction l; cbn; [constructor|]. intros p (_ & H & d & _ & Hc). constructor; eauto. Qed.

Lemma slabs_app st l1 l2 : forall p, chain st p (l1 ++ l2) -> exists q, chain st q l2.
Proof. induction l1 as [|a l1 IH]; cbn; [eauto|]. intros p (_ & _ & d & _ & Hc). eauto. Qed.

Lemma chain_lookup st l : forall p a, chain st p l -> a ∈ l -> is_Some (st !! a).
Proof. induction l as [|b l IH]; [set_solver|]. cbn. intros p a (_ & _ & d & Hd & Hc) [->|Ha]%elem_of_cons; eauto. Qed.

Lemma slabs_length st p l : chain st p l -> NoDup l -> (length l <= size st)%nat.
Proof.
  intros Hc Hn. rewrite <- size_dom, <- (size_list_to_set (C := gset Z) l) by done. apply subseteq_size.
  intros a Ha%elem_of_list_to_set. apply elem_of_dom. eapply chain_lookup; eauto.
Qed.

(** * Rules for the accesses *)

Lemma wp_slab_at p d (Q : slab_t -> heap -> Prop) s : slabs s !! p = Some d -> Q d s -> wp (slab_at p) Q s.
Proof. intros H HQ. unfold slab_at. wp_step. wp_step. eapply wp_of_option; [eassumption|exact HQ]. Qed.
Lemma wp_slab_upd p f d (Q : unit -> heap -> Prop) s : slabs s !! p = Some d -> Q tt (set_slabs (<[p := f d]> (slabs s)) s) -> wp (slab_upd p f) Q s.
Proof. intros H HQ. unfold slab_upd. wp_step. eapply wp_slab_at; [exact H|exact HQ]. Qed.
Lemma wp_cache_at i c (Q : cache_t -> heap -> Prop) s : arr_get (caches s) i = Some c -> Q c s -> wp (cache_at i) Q s.
Proof. intros H HQ. unfold cache_at. wp_step. wp_step. eapply wp_of_option; [eassumption|exact HQ]. Qed.
Lemma wp_cache_upd i f c (Q : unit -> heap -> Prop) s : arr_get (caches s) i = Some c ->
  Q tt (set_caches (<[Z.to_nat i := f c]> (caches s)) s) -> wp (cache_upd i f) Q s.
Proof.
  intros H HQ. unfold cache_upd. wp_step. wp_step. wp_step. eapply wp_of_option; [exact H|].
  wp_step. eapply wp_of_option; [apply arr_set_lt; eapply arr_get_Some_lt; eauto|]. exact HQ.
Qed.
Lemma wp_bitmap_at p j d w (Q : Z -> heap -> Prop) s : slabs s !! p = Some d -> arr_get (bitmap d) j = Some w -> Q w s -> wp (bitmap_at p j) Q s.
Proof. intros H Hw HQ. unfold bitmap_at. wp_step. eapply wp_slab_at; [done|]. eapply wp_of_option; [eassumption|exact HQ]. Qed.
Lemma wp_bitmap_set p j d w v (Q : unit -> heap -> Prop) s : slabs s !! p = Some d -> arr_get (bitmap d) j = Some w ->
  Q tt (set_slabs (<[p := set_bitmap (<[Z.to_nat j := v]> (bitmap d)) d]> (slabs s)) s) -> wp (bitmap_set p j v) Q s.
Proof.
  intros H Hw HQ. unfold bitmap_set. wp_step. eapply wp_slab_at; [done|]. wp_step.
  eapply wp_of_option; [apply arr_set_lt; eapply arr_get_Some_lt; eauto|]. eapply wp_slab_upd; [done|]. exact HQ.
Qed.
Lemma wp_size_of i (Q : Z -> heap -> Prop) s : 0 <= i < 12 -> Q (sz i) s -> wp (size_of i) Q s.
Proof. intros Hi HQ. unfold size_of. rewrite size_at by done. exact HQ. Qed.
Lemma wp_pages_of i (Q : Z -> heap -> Prop) s : 0 <= i < 12 -> Q (pg i) s -> wp (pages_of i) Q s.
Proof. intros Hi HQ. unfold pages_of. rewrite pages_at by done. exact HQ. Qed.

(** * Removing a slab from a list *)

(** The same slabs up to the links of those in [l]. *)
Definition relinked (l : list Z) (st st' : gmap Z slab_t) : Prop :=
  forall a, (a ∉ l -> st' !! a = st !! a) /\ set_next 0 <$> st' !! a = set_next 0 <$> st !! a.

Lemma relinked_refl l st : relinked l st st.
Proof. done. Qed.

Lemma DeleteSlab_loop target s l2 : forall fuel l1 p, (length l1 < fuel)%nat -> chain (slabs s) p (l1 ++ target :: l2) -> target ∉ l1 -> l1 <> [] ->
  wp (loop fuel (DeleteSlab_step target) p) (λ q s', s' = s /\ exists l0 d, l1 = l0 ++ [q] /\ slabs s !! q = Some d /\ next d = target) s.
Proof.
  induction fuel as [|fuel IH]; [lia|]. intros [|a l1] p Hf Hc Hn Hne; [done|]. destruct Hc as (-> & Ha & d & Hd & Hc).
  rewrite loop_S. wp_step. unfold DeleteSlab_step. wp_step. eapply wp_slab_at; [done|].
  destruct l1 as [|b l1].
  - destruct Hc as (E & Ht & _). rewrite E, Z.eqb_refl, andb_false_r. cbn. split; [done|]. exists [], d. auto.
  - pose proof Hc as (E & Hb & _). rewrite (proj2 (Z.eqb_neq (next d) 0)) by lia.
    assert (next d <> target) by set_solver. rewrite (proj2 (Z.eqb_neq (next d) target)) by done. cbn [negb andb].
    apply wp_ret. cbn beta iota. eapply wp_mono; [eapply IH; [|exact Hc|set_solver|done]; cbn in *; lia|].
    cbn. intros q s' (-> & l0 & d' & E' & Hq & Hn'). split; [done|]. exists (a :: l0), d'. rewrite E'. auto.
Qed.

Lemma slabs_cut st l0 q t l2 d dt : forall p, chain st p (l0 ++ q :: t :: l2) -> NoDup (l0 ++ q :: t :: l2) ->
  st !! q = Some d -> st !! t = Some dt -> chain (<[q := set_next (next dt) d]> st) p (l0 ++ q :: l2).
Proof.
  induction l0 as [|a l0 IH]; intros p; cbn [app].
  - intros (-> & Hq & d' & Hd' & Ht & _ & dt' & Hdt' & Hc) Hnd Hd Hdt. simplify_eq. apply list.NoDup_cons in Hnd as [Hnq Hnd].
    split; [done|]. split; [done|]. eexists. split; [apply lookup_insert_eq|]. cbn. apply chain_insert; [done|set_solver].
  - intros (-> & Ha & d' & Hd' & Hc) Hnd Hd Hdt. apply list.NoDup_cons in Hnd as [Hna Hnd].
    split; [done|]. split; [done|]. exists d'. split; [rewrite lookup_insert_ne by set_solver; done|]. now apply IH.
Qed.

Lemma wp_DeleteSlab s head target l1 l2 (Q : Z -> heap -> Prop) :
  chain (slabs s) head (l1 ++ target :: l2) -> NoDup (l1 ++ target :: l2) ->
  (forall h st', chain st' h (l1 ++ l2) -> relinked (l1 ++ l2) (slabs s) st' -> Q h (set_slabs st' s)) ->
  wp (DeleteSlab head target) Q s.
Proof.
  intros Hc Hnd HQ. unfold DeleteSlab. destruct l1 as [|a l1].
  - destruct Hc as (-> & Ht & d & Hd & Hc). rewrite (proj2 (Z.eqb_neq target 0)) by done. rewrite Z.eqb_refl. wp_step.
    eapply wp_slab_at; [done|]. apply wp_ret. specialize (HQ (next d) (slabs s) Hc (relinked_refl _ _)). now destruct s.
  - pose proof Hc as (-> & Ha & _). apply NoDup_hole in Hnd as Hh. destruct Hh as (Hn1 & Hn2 & _).
    rewrite (proj2 (Z.eqb_neq a 0)) by done. rewrite (proj2 (Z.eqb_neq a target)) by set_solver.
    wp_step. wp_step. wp_step. eapply wp_mono; [eapply (DeleteSlab_loop target s l2); [|exact Hc|done|done]|].
    { pose proof (slabs_length _ _ _ Hc Hnd) as Hl. rewrite length_app in Hl. unfold list_fuel. cbn in *. lia. }
    cbn. intros q s' (-> & l0 & d & E & Hq & Hn). wp_step. eapply wp_slab_at; [done|].
    assert (El : (a :: l1) ++ target :: l2 = l0 ++ q :: target :: l2) by (rewrite E, <- app_assoc; done).
    assert (El' : (a :: l1) ++ l2 = l0 ++ q :: l2) by (rewrite E, <- app_assoc; done).
    rewrite El in Hc, Hnd.
    destruct (chain_lookup _ _ _ target Hc ltac:(set_solver)) as [dt Hdt].
    pose proof (chain_nonzero _ _ _ Hc) as Hnz. rewrite list.Forall_forall in Hnz. specialize (Hnz target ltac:(set_solver)).
    rewrite Hn, (proj2 (Z.eqb_neq target 0)) by done. wp_step. eapply wp_slab_at; [done|]. wp_step. eapply wp_slab_upd; [done|]. apply wp_ret.
    apply HQ.
    + rewrite El'. eapply slabs_cut; eauto.
    + intros x. rewrite El'. split.
      * intros Hx. rewrite lookup_insert_ne; [done|]. set_solver.
      * destruct (decide (x = q)) as [->|]; [rewrite lookup_insert_eq, Hq; done|now rewrite lookup_insert_ne].
Qed.

(** * A cache and its slabs *)

(** A slab of cache [i], and the memory it covers. *)
Record slab_ok (i : Z) (m : memory) (d : slab_t) : Prop := {
  so_bits : bitmap_ok d;
  so_slots : num_slots d = slots i;
  so_start : 0 < start d;
  so_end : start d + pg i * PAGE_SIZE < 2 ^ 64;
  so_mapped : mapped m (start d) (pg i * PAGE_SIZE) }.

Definition holds (st : gmap Z slab_t) (m : memory) (i : Z) (l : list Z) (P : slab_t -> Prop) : Prop :=
  forall a, a ∈ l -> exists d, st !! a = Some d /\ slab_ok i m d /\ P d.
Definition is_full (d : slab_t) : Prop := free_count d = 0.
Definition is_partial (d : slab_t) : Prop := 0 < free_count d < num_slots d.
Definition is_empty (d : slab_t) : Prop := free_count d = num_slots d.

Record lists := Lists { lf : list Z; lp : list Z; le : list Z }.
Definition all (l : lists) : list Z := lf l ++ lp l ++ le l.

Record cinv (st : gmap Z slab_t) (m : memory) (i : Z) (c : cache_t) (l : lists) : Prop := {
  ci_idx : 0 <= i < 12;
  ci_size : csize c = sz i;
  ci_full : chain st (full_slabs c) (lf l);
  ci_partial : chain st (partial_slabs c) (lp l);
  ci_empty : chain st (empty_slabs c) (le l);
  ci_nodup : NoDup (all l);
  ci_F : holds st m i (lf l) is_full;
  ci_P : holds st m i (lp l) is_partial;
  ci_E : holds st m i (le l) is_empty }.

Lemma slab_ok_next i m d v : slab_ok i m d -> slab_ok i m (set_next v d).
Proof. intros [[] ? ? ? ?]. now split. Qed.

Lemma holds_insert st m i l P a d : holds st m i l P -> a ∉ l -> holds (<[a := d]> st) m i l P.
Proof. intros H Ha b Hb. destruct (H b Hb) as (d' & ? & ?). exists d'. rewrite lookup_insert_ne by set_solver. auto. Qed.

Lemma holds_cons st m i l P a d : holds st m i l P -> st !! a = Some d -> slab_ok i m d -> P d -> holds st m i (a :: l) P.
Proof. intros H Ha Hok HP b [->|Hb]%elem_of_cons; [eauto|now apply H]. Qed.

Lemma holds_sub st m i l l' P : holds st m i l P -> (forall a, a ∈ l' -> a ∈ l) -> holds st m i l' P.
Proof. intros H Hs a Ha. auto. Qed.

Lemma relinked_get l st st' a d : relinked l st st' -> st !! a = Some d -> exists v, st' !! a = Some (set_next v d).
Proof.
  intros Hr Hd. destruct (Hr a) as [_ E]. rewrite Hd in E. destruct (st' !! a) as [d'|]; [|done]. cbn in E. injection E as E1 E2 E3 E4 E5.
  exists (next d'). destruct d', d; cbn in *. now subst.
Qed.

Lemma holds_relinked st st' l0 m i l P : relinked l0 st st' -> (forall d v, P d -> P (set_next v d)) -> holds st m i l P -> holds st' m i l P.
Proof.
  intros Hr HP H a Ha. destruct (H a Ha) as (d & Hd & Hok & Hp). destruct (relinked_get _ _ _ _ _ Hr Hd) as [v Hv].
  exists (set_next v d). auto using slab_ok_next.
Qed.

Lemma chain_relinked st st' l0 p l : relinked l0 st st' -> (forall a, a ∈ l -> a ∉ l0) -> chain st p l -> chain st' p l.
Proof. intros Hr Hd Hc. eapply slabs_ext; [done|]. intros a Ha. now rewrite (proj1 (Hr a)) by auto. Qed.

(** Slot [k] of slab [a] changes hands; the other slabs keep their slots. *)
Record toggled (st st' : gmap Z slab_t) (a k : Z) (d d' : slab_t) : Prop := {
  tg_before : st !! a = Some d;
  tg_after : st' !! a = Some d';
  tg_start : start d' = start d;
  tg_slots : num_slots d' = num_slots d;
  tg_range : 0 <= k < num_slots d;
  tg_bits j : 0 <= j -> slot_used d' j = if decide (j = k) then negb (slot_used d k) else slot_used d j;
  tg_others b : b <> a -> set_next 0 <$> st' !! b = set_next 0 <$> st !! b }.

Lemma toggled_flip st a k n w d v : st !! a = Some d -> 0 <= k < num_slots d -> arr_get (bitmap d) (k / 64) = Some w ->
  toggled st (<[a := set_next v (flip_slot k n w d)]> st) a k d (set_next v (flip_slot k n w d)).
Proof.
  intros Hd Hk Hw. split; try done; [apply lookup_insert_eq| |].
  - intros j Hj. exact (slot_used_flip d k w n (proj1 Hk) Hw j Hj).
  - intros b Hb. now rewrite lookup_insert_ne.
Qed.

Lemma toggled_next st st' a k d d' v : toggled st st' a k d d' -> toggled st (<[a := set_next v d']> st') a k d (set_next v d').
Proof.
  intros []. split; try done; [apply lookup_insert_eq|]. intros b Hb. rewrite lookup_insert_ne by done. auto.
Qed.

Lemma toggled_relinked st st' st2 l a k d d' : toggled st st' a k d d' -> a ∉ l -> relinked l st' st2 -> toggled st st2 a k d d'.
Proof.
  intros [] Ha Hr. split; try done.
  - now rewrite (proj1 (Hr a)).
  - intros b Hb. rewrite (proj2 (Hr b)). auto.
Qed.
