(* ===== verification/SlabOps.v ===== *)
(** Taking a slot from a cache, adding a slab and giving a slot back keep the
    cache's invariant and change one slot. *)

From S2P Require Import Prelude BitMath Bytes CMem Slab SlabBits.

(** From [s], cache [i] with record [c] and lists [l]: the slot at address [p],
    in use or not as [u] says, changes hands. *)
Definition slot_step (u : bool) (i : Z) (s : heap) (c : cache_t) (l : lists) (p : Z) (s' : heap) : Prop :=
  exists a k d d' c' l' st',
    s' = set_slabs st' (set_caches (<[Z.to_nat i := c']> (caches s)) s) /\ clock c' = clock c /\
    cinv st' (ram s) i c' l' /\ all l' ≡ₚ all l /\ a ∈ all l /\
    (forall b, b ∉ all l -> st' !! b = slabs s !! b) /\
    toggled (slabs s) st' a k d d' /\ slot_used d k = u /\ p = start d + k * sz i.

Lemma caches_id i c s : arr_get (caches s) i = Some c -> set_caches (<[Z.to_nat i := c]> (caches s)) s = s.
Proof.
  intros H. destruct s; unfold set_caches; cbn in *. f_equal. apply list_insert_id. unfold arr_get in H. now destruct (i <? 0).
Qed.

Lemma arr_get_upd i c c' (cs : list cache_t) : arr_get cs i = Some c -> arr_get (<[Z.to_nat i := c']> cs) i = Some c'.
Proof. intros H. rewrite arr_get_insert by (eapply arr_get_Some_lt; eauto). now rewrite decide_True. Qed.

(** * Changing one slab *)

(** A slab of a list replaced by one with the same link. *)
Lemma chain_replace st p l a d d' : chain st p l -> st !! a = Some d -> next d' = next d -> chain (<[a := d']> st) p l.
Proof.
  intros Hc Hd Hn. eapply slabs_ext; [done|]. intros b _. destruct (decide (b = a)) as [->|]; [|now rewrite lookup_insert_ne].
  rewrite lookup_insert_eq, Hd. cbn. now rewrite Hn.
Qed.

(** The first partial slab loses a slot and stays partial. *)
Lemma cinv_stay st m i c F a P E d d' : cinv st m i c (Lists F (a :: P) E) -> st !! a = Some d -> next d' = next d ->
  slab_ok i m d' -> is_partial d' -> cinv (<[a := d']> st) m i c (Lists F (a :: P) E).
Proof.
  intros [] Hd Hn Hok Hp. cbn in *. unfold all in ci_nodup. cbn in ci_nodup. apply NoDup_hole in ci_nodup as Hh. destruct Hh as (HF & HPE & _).
  split; cbn [lf lp le]; try done.
  1, 3: eapply chain_replace; eassumption.
  - eapply (chain_replace st _ (a :: P)); eassumption.
  - apply holds_insert; [done|set_solver].
  - eapply holds_cons; [|apply lookup_insert_eq|done..]. apply holds_insert; [|set_solver]. eapply holds_sub; [done|set_solver].
  - apply holds_insert; [done|set_solver].
Qed.

(** The first partial slab becomes full. *)
Lemma cinv_fill st m i c F a P E d d' : cinv st m i c (Lists F (a :: P) E) -> st !! a = Some d ->
  slab_ok i m d' -> is_full d' -> next d' = full_slabs c ->
  cinv (<[a := d']> st) m i (set_full a (set_partial (next d) c)) (Lists (a :: F) P E).
Proof.
  intros [] Hd Hok Hf Hn. cbn in *. unfold all in ci_nodup. cbn in ci_nodup. apply NoDup_hole in ci_nodup as Hh. destruct Hh as (HF & HPE & Hnd).
  destruct ci_partial as (_ & Ha & d0 & Hd0 & Hc). simplify_eq.
  split; cbn; try done.
  - split; [done|]. split; [done|]. eexists. split; [apply lookup_insert_eq|]. rewrite Hn. now apply chain_insert.
  - apply chain_insert; [done|set_solver].
  - apply chain_insert; [done|set_solver].
  - apply list.NoDup_cons. split; [set_solver|done].
  - eapply holds_cons; [|apply lookup_insert_eq|done..]. now apply holds_insert.
  - apply holds_insert; [|set_solver]. eapply holds_sub; [done|set_solver].
  - apply holds_insert; [done|set_solver].
Qed.

(** The first empty slab becomes partial. *)
Lemma cinv_start st m i c F P a E d d' : cinv st m i c (Lists F P (a :: E)) -> st !! a = Some d ->
  slab_ok i m d' -> is_partial d' -> next d' = partial_slabs c ->
  cinv (<[a := d']> st) m i (set_partial a (set_empty (next d) c)) (Lists F (a :: P) E).
Proof.
  intros [] Hd Hok Hf Hn. cbn in *. unfold all in ci_nodup. cbn in ci_nodup. rewrite app_assoc in ci_nodup.
  apply NoDup_hole in ci_nodup as Hh. destruct Hh as (HFP & HE & Hnd).
  destruct ci_empty as (_ & Ha & d0 & Hd0 & Hc). simplify_eq.
  split; cbn; try done.
  - apply chain_insert; [done|set_solver].
  - split; [done|]. split; [done|]. eexists. split; [apply lookup_insert_eq|]. rewrite Hn. apply chain_insert; [done|set_solver].
  - apply chain_insert; [done|set_solver].
  - unfold all; cbn. assert (Hp : F ++ a :: P ++ E ≡ₚ (F ++ P) ++ a :: E) by solve_Permutation. now rewrite Hp.
  - apply holds_insert; [done|set_solver].
  - eapply holds_cons; [|apply lookup_insert_eq|done..]. apply holds_insert; [done|set_solver].
  - apply holds_insert; [|set_solver]. eapply holds_sub; [done|set_solver].
Qed.

(** * Taking a slot *)

Lemma wp_DeleteSlab_head a d (Q : Z -> heap -> Prop) s : a <> 0 -> slabs s !! a = Some d -> Q (next d) s -> wp (DeleteSlab a a) Q s.
Proof.
  intros Ha Hd HQ. unfold DeleteSlab. rewrite (proj2 (Z.eqb_neq a 0)), Z.eqb_refl by done. wp_step. eapply wp_slab_at; [done|]. exact HQ.
Qed.

Lemma free_count_range d : bitmap_ok d -> 0 <= free_count d <= num_slots d /\ num_slots d < 2 ^ 32.
Proof. intros Hd. pose proof (used_count_le d Hd). pose proof (bo_pos d Hd). rewrite (bo_count d Hd). lia. Qed.

Lemma slab_ok_flip i m d k w v : slab_ok i m d -> 0 <= k < num_slots d -> arr_get (bitmap d) (k / 64) = Some w ->
  slab_ok i m (set_next v (flip_slot k (free_count d + (if slot_used d k then 1 else -1)) w d)).
Proof. intros [] Hk Hw. apply slab_ok_next. split; try done. now apply flip_ok. Qed.

Lemma flip_next k n w d : set_next (next d) (flip_slot k n w d) = flip_slot k n w d.
Proof. now destruct d. Qed.

Lemma slot_addr i m d k : 0 <= i < 12 -> slab_ok i m d -> 0 <= k < num_slots d -> 0 < start d + k * sz i < 2 ^ 64 /\ start d + k * sz i + sz i <= start d + pg i * PAGE_SIZE.
Proof. intros Hi [] Hk. destruct (const_bounds i Hi) as (? & ? & ? & ? & _). nia. Qed.

Lemma wp_take i s c F a P E d k w : arr_get (caches s) i = Some c -> cinv (slabs s) (ram s) i c (Lists F (a :: P) E) -> slabs s !! a = Some d ->
  0 <= k < num_slots d -> arr_get (bitmap d) (k / 64) = Some w -> slot_used d k = false -> is_word 64 w -> w <> UINT64_MAX ->
  (forall j, 0 <= j < k mod 64 -> Z.testbit w j = true) ->
  wp (SearchCache_take i a (k / 64) w) (slot_step false i s c (Lists F (a :: P) E)) s.
Proof.
  intros Hc HI Hd Hk Hw Hu Hww Hwm Hlow. pose proof (ci_idx _ _ _ _ _ HI) as Hi.
  destruct (ci_P _ _ _ _ _ HI a ltac:(cbn; set_solver)) as (d0 & Hd0 & Hok & Hp). simplify_eq.
  pose proof (Z.mod_pos_bound k 64 ltac:(lia)) as Hmod. pose proof (Z.div_mod k 64 ltac:(lia)) as Hdm.
  unfold SearchCache_take. wp_step. apply wp_GetEmptyBit; [done..|]. intros b Hb Hfalse Hall.
  assert (b = k mod 64) as ->.
  { destruct (Z.lt_trichotomy b (k mod 64)) as [Hlt|[?|Hgt]]; [|done|].
    - rewrite Hlow in Hfalse by lia. done.
    - unfold slot_used in Hu. rewrite Hw, Hall in Hu by lia. done. }
  pose proof (free_count_range d (so_bits _ _ _ Hok)) as Hfr.
  pose proof (slab_ok_flip i (ram s) d k w (next d) Hok Hk Hw) as Hok'. rewrite Hu, flip_next in Hok'.
  pose proof (slab_ok_flip i (ram s) d k w (full_slabs c) Hok Hk Hw) as Hokf. rewrite Hu in Hokf.
  wp_step. eapply wp_bitmap_set; [done|exact Hw|]. wp_step. eapply wp_slab_upd; [apply lookup_insert_eq|]. cbn [free_count set_bitmap].
  unfold is_partial in Hp. rewrite wrap64_small by lia. cbn [slabs set_slabs]. rewrite insert_insert_eq.
  change (set_free_count (free_count d - 1) _) with (flip_slot k (free_count d - 1) w d). replace (free_count d - 1) with (free_count d + -1) by lia.
  wp_step. eapply wp_slab_at; [apply lookup_insert_eq|]. wp_step. apply wp_when.
  destruct (slot_addr i (ram s) d k Hi Hok Hk) as [Hpa _].
  assert (Haddr : wrap64 (start d + (k / 64 * 64 + k mod 64) * sz i) = start d + k * sz i) by (rewrite wrap64_small; [|split]; replace (k / 64 * 64 + k mod 64) with k by lia; lia).
  change (free_count (flip_slot k (free_count d + -1) w d)) with (free_count d + -1).
  pose proof (ci_partial _ _ _ _ _ HI) as (Epa & Hanz & _).
  destruct (Z.eqb_spec (free_count d + -1) 0) as [Hz|Hz]; cbv iota.
  - wp_step. eapply wp_cache_at; [exact Hc|]. wp_step. rewrite Epa. eapply wp_DeleteSlab_head; [done|apply lookup_insert_eq|].
    wp_step. eapply wp_cache_upd; [exact Hc|]. wp_step. eapply wp_cache_at; [eapply arr_get_upd, Hc|]. wp_step.
    eapply wp_slab_upd; [apply lookup_insert_eq|]. cbn [slabs set_slabs set_caches caches]. rewrite insert_insert_eq.
    eapply wp_cache_upd; [eapply arr_get_upd, Hc|]. cbn [slabs set_slabs set_caches caches curr_addr ie ram]. rewrite list_insert_insert_eq.
    wp_step. apply wp_size_of; [done|]. wp_step. eapply wp_slab_at; [apply lookup_insert_eq|]. apply wp_ret. cbn [start set_next flip_slot set_free_count set_bitmap full_slabs set_partial next].
    exists a, k, d, (set_next (full_slabs c) (flip_slot k (free_count d + -1) w d)), (set_full a (set_partial (next d) c)), (Lists (a :: F) P E), (<[a := set_next (full_slabs c) (flip_slot k (free_count d + -1) w d)]> (slabs s)).
    split_and!; try done.
    + eapply cinv_fill; try done.
    + unfold all; cbn. solve_Permutation.
    + unfold all; set_solver.
    + intros b Hb'. rewrite lookup_insert_ne; [done|]. unfold all in Hb'; cbn in Hb'; set_solver.
    + now apply toggled_flip.
  - wp_step. apply wp_size_of; [done|]. wp_step. eapply wp_slab_at; [apply lookup_insert_eq|]. apply wp_ret.
    exists a, k, d, (flip_slot k (free_count d + -1) w d), c, (Lists F (a :: P) E), (<[a := flip_slot k (free_count d + -1) w d]> (slabs s)).
    rewrite (caches_id i c) by done. split_and!; try done.
    + eapply cinv_stay; try done. unfold is_partial. cbn. lia.
    + unfold all; set_solver.
    + intros b Hb'. rewrite lookup_insert_ne; [done|]. unfold all in Hb'; cbn in Hb'; set_solver.
    + rewrite <- (flip_next k (free_count d + -1) w d). now apply toggled_flip.
Qed.

Lemma first_clear (s : heap) w : is_word 64 w -> w <> UINT64_MAX ->
  exists b, 0 <= b < 64 /\ Z.testbit w b = false /\ forall j, 0 <= j < b -> Z.testbit w j = true.
Proof.
  intros Hw Hm. assert (H : wp (GetEmptyBit w) (λ b _, 0 <= b < 64 /\ Z.testbit w b = false /\ forall j, 0 <= j < b -> Z.testbit w j = true) s).
  { apply wp_GetEmptyBit; auto. }
  apply wp_run in H as (b & _ & _ & H). eauto.
Qed.

Lemma max_testbit j : 0 <= j < 64 -> Z.testbit UINT64_MAX j = true.
Proof. intros Hj. unfold UINT64_MAX. rewrite Z.sub_1_r, <- Z.ones_equiv. apply Z.ones_spec_low. lia. Qed.

Lemma div64 q r : 0 <= r < 64 -> (64 * q + r) / 64 = q /\ (64 * q + r) mod 64 = r.
Proof. intros Hr. split; [symmetry; apply (Z.div_unique _ 64 q r); lia|symmetry; apply (Z.mod_unique _ 64 q r); lia]. Qed.

Lemma wp_SearchCache_partial i s c F a P E : arr_get (caches s) i = Some c -> cinv (slabs s) (ram s) i c (Lists F (a :: P) E) ->
  wp (SearchCache_partial i) (λ r s', exists p, r = Some p /\ slot_step false i s c (Lists F (a :: P) E) p s') s.
Proof.
  intros Hc HI. destruct (ci_P _ _ _ _ _ HI a ltac:(cbn; set_solver)) as (d & Hd & Hok & Hp).
  pose proof (ci_partial _ _ _ _ _ HI) as (Epa & Hanz & _). pose proof (so_bits _ _ _ Hok) as Hbo.
  unfold SearchCache_partial. wp_step. eapply wp_cache_at; [done|]. rewrite Epa, (proj2 (Z.eqb_neq a 0)) by done.
  wp_step. eapply wp_slab_at; [done|].
  pose proof (bo_size d Hbo) as Hsz. pose proof (bo_pos d Hbo). pose proof (Z.div_pos (num_slots d + 63) 64 ltac:(lia) ltac:(lia)).
  eapply (wp_loop (λ n j s', s' = s /\ 0 <= j <= bitmap_size d /\ Z.of_nat n = bitmap_size d - j /\ forall x, 0 <= x < 64 * j -> slot_used d x = true) (Z.to_nat (bitmap_size d)));
    [split_and!; [done|lia..]|lia|].
  intros n j s' (-> & Hj & Hn & Hall). unfold SearchCache_step. wp_step. eapply wp_slab_at; [done|].
  destruct (Z.ltb_spec j (bitmap_size d)) as [Hlt|Hge].
  - destruct (arr_get_lt (bitmap d) j) as [w Hw]; [rewrite (bo_len d Hbo); lia|].
    assert (Hww : is_word 64 w). { unfold arr_get in Hw. destruct (j <? 0); [done|]. eapply Forall_lookup_1; [apply (bo_words d Hbo)|done]. }
    wp_step. eapply wp_bitmap_at; [done..|]. destruct (Z.eqb_spec w UINT64_MAX) as [->|Hm].
    + apply wp_ret. exists (Nat.pred n). split; [lia|]. split_and!; [done|lia..|]. intros x Hx. destruct (decide (x < 64 * j)); [apply Hall; lia|].
      replace x with (64 * j + (x - 64 * j)) by lia. destruct (div64 j (x - 64 * j) ltac:(lia)) as [E1 E2]. unfold slot_used. rewrite E1, Hw, E2. apply max_testbit. lia.
    + destruct (first_clear s w Hww Hm) as (b & Hb & Hbf & Hbl). destruct (div64 j b Hb) as [E1 E2].
      assert (Hu : slot_used d (64 * j + b) = false) by (unfold slot_used; rewrite E1, Hw, E2; done).
      assert (Hk : 64 * j + b < num_slots d).
      { apply first_free; [done|unfold is_partial in Hp; lia|lia|]. intros x Hx. destruct (decide (x < 64 * j)); [apply Hall; lia|].
        replace x with (64 * j + (x - 64 * j)) by lia. destruct (div64 j (x - 64 * j) ltac:(lia)) as [E3 E4]. unfold slot_used. rewrite E3, Hw, E4. apply Hbl. lia. }
      wp_step. rewrite <- E1. eapply wp_mono; [eapply (wp_take i s c F a P E d (64 * j + b) w); eauto; [lia|now rewrite E1|now rewrite E2]|].
      intros p s' Hs. apply wp_ret. eauto.
  - exfalso. unfold is_partial in Hp. pose proof (first_free d (num_slots d) Hbo ltac:(lia) ltac:(lia)) as Hf.
    pose proof (Z.div_mod (num_slots d + 63) 64 ltac:(lia)). pose proof (Z.mod_pos_bound (num_slots d + 63) 64 ltac:(lia)).
    enough (num_slots d < num_slots d) by lia. apply Hf. intros x Hx. apply Hall. lia.
Qed.

Lemma wp_SearchCache_empty i s c F P a E : arr_get (caches s) i = Some c -> cinv (slabs s) (ram s) i c (Lists F P (a :: E)) ->
  wp (SearchCache_empty i) (slot_step false i s c (Lists F P (a :: E))) s.
Proof.
  intros Hc HI. pose proof (ci_idx _ _ _ _ _ HI) as Hi. destruct (ci_E _ _ _ _ _ HI a ltac:(cbn; set_solver)) as (d & Hd & Hok & Hp).
  pose proof (ci_empty _ _ _ _ _ HI) as (Epa & Hanz & _). pose proof (so_bits _ _ _ Hok) as Hbo. pose proof (so_slots _ _ _ Hok) as Hsl.
  destruct (const_bounds i Hi) as (_ & _ & Hslots & _). pose proof (free_count_range d Hbo) as Hfr. unfold is_empty in Hp.
  assert (H0 : 0 <= 0 < num_slots d) by lia. destruct (slot_word d 0 Hbo H0) as (w & Hw & Hww & Hu0).
  assert (Hu : slot_used d 0 = false) by (apply used_count_empty; auto; rewrite (bo_count d Hbo) in Hp; lia).
  assert (w = 0) as ->.
  { apply Z.bits_inj'. intros j Hj. rewrite Z.bits_0. destruct (decide (j < 64)).
    - assert (Hz : slot_used d j = false).
      { destruct (decide (j < num_slots d)); [|apply (bo_past d Hbo); lia]. apply used_count_empty; [done|lia|]. rewrite (bo_count d Hbo) in Hp. lia. }
      unfold slot_used in Hz. rewrite Z.div_small, Z.mod_small in Hz by lia. change (0 / 64) with 0 in Hw. now rewrite Hw in Hz.
    - unfold is_word in Hww. rewrite <- (Z.mod_small w (2 ^ 64)) by lia. now rewrite Z.mod_pow2_bits_high by lia. }
  pose proof (slab_ok_flip i (ram s) d 0 0 (partial_slabs c) Hok H0 Hw) as Hokf. rewrite Hu in Hokf.
  unfold SearchCache_empty. wp_step. eapply wp_cache_at; [done|]. rewrite Epa, (proj2 (Z.eqb_neq a 0)) by done.
  wp_step. eapply wp_slab_at; [done|]. wp_step. eapply (wp_bitmap_set a (0 / 64)); [done|exact Hw|]. wp_step.
  eapply wp_slab_upd; [apply lookup_insert_eq|]. cbn [free_count set_bitmap slabs set_slabs]. rewrite wrap64_small by lia. rewrite insert_insert_eq.
  change (set_free_count (free_count d - 1) _) with (flip_slot 0 (free_count d - 1) 0 d). replace (free_count d - 1) with (free_count d + -1) by lia.
  wp_step. eapply wp_slab_at; [apply lookup_insert_eq|]. wp_step. eapply wp_cache_upd; [exact Hc|]. wp_step. eapply wp_cache_at; [eapply arr_get_upd, Hc|].
  wp_step. eapply wp_slab_upd; [apply lookup_insert_eq|]. cbn [slabs set_slabs set_caches caches]. rewrite insert_insert_eq.
  wp_step. eapply wp_cache_upd; [eapply arr_get_upd, Hc|]. cbn [slabs set_slabs set_caches caches curr_addr ie ram]. rewrite list_insert_insert_eq. apply wp_ret.
  exists a, 0, d, (set_next (partial_slabs c) (flip_slot 0 (free_count d + -1) 0 d)), (set_partial a (set_empty (next d) c)), (Lists F (a :: P) E),
    (<[a := set_next (partial_slabs c) (flip_slot 0 (free_count d + -1) 0 d)]> (slabs s)).
  split_and!; try done; try lia.
  - eapply cinv_start; try done. unfold is_partial. cbn. lia.
  - unfold all; cbn. solve_Permutation.
  - unfold all; set_solver.
  - intros b Hb'. rewrite lookup_insert_ne; [done|]. unfold all in Hb'; cbn in Hb'; set_solver.
  - now apply toggled_flip.
Qed.

Lemma all_ok st m i c l a : cinv st m i c l -> a ∈ all l -> exists d, st !! a = Some d /\ slab_ok i m d.
Proof.
  intros [] Ha. unfold all in Ha. rewrite !elem_of_app in Ha.
  destruct Ha as [Ha|[Ha|Ha]]; [apply ci_F in Ha|apply ci_P in Ha|apply ci_E in Ha]; naive_solver.
Qed.

Lemma slot_step_pos u i s c l p s' : slot_step u i s c l p s' -> 0 < p < 2 ^ 64.
Proof.
  intros (a & k & d & d' & c' & l' & st' & -> & _ & HI & Hp & Ha & _ & [] & _ & ->). pose proof (ci_idx _ _ _ _ _ HI).
  destruct (all_ok _ _ _ _ _ a HI) as (d0 & ? & Hok); [now rewrite Hp|]. simplify_eq.
  rewrite <- tg_start. eapply slot_addr; eauto. lia.
Qed.

(** [SearchCache] takes a slot if some slab has one. *)
Lemma wp_SearchCache i s c l : arr_get (caches s) i = Some c -> cinv (slabs s) (ram s) i c l ->
  wp (SearchCache i) (λ p s', if decide (lp l = [] /\ le l = []) then p = 0 /\ s' = s else slot_step false i s c l p s') s.
Proof.
  intros Hc HI. unfold SearchCache. wp_step. destruct l as [F [|a P] E]; cbn [lp le].
  - unfold SearchCache_partial. wp_step. eapply wp_cache_at; [done|]. pose proof (ci_partial _ _ _ _ _ HI) as Hp. cbn in Hp. rewrite Hp.
    apply wp_ret. destruct E as [|a E].
    + unfold SearchCache_empty. wp_step. eapply wp_cache_at; [done|]. pose proof (ci_empty _ _ _ _ _ HI) as He. cbn in He. rewrite He. apply wp_ret.
      now rewrite decide_True.
    + eapply wp_mono; [eapply (wp_SearchCache_empty i s c F [] a E); eassumption|]. intros p s' Hs. case_decide; [naive_solver|done].
  - eapply wp_mono; [eapply (wp_SearchCache_partial i s c F a P E); eassumption|]. intros r s' (p & -> & Hs). apply wp_ret. case_decide; [naive_solver|done].
Qed.

(** * Adding a slab *)

Definition bm_len (i : Z) : Z := (slots i + 63) / 64.

Lemma bm_len_eq i : 0 <= i < 12 -> (if slots i mod 64 =? 0 then slots i / 64 else slots i / 64 + 1) = bm_len i /\ 0 < bm_len i <= 16.
Proof. intros Hi. cases12 i; vm_compute; intuition discriminate. Qed.

(** Memory for a new slab of cache [i] at [pa]. *)
Record mem_ok (m : memory) (i pa : Z) : Prop := {
  mo_start : 0 < pa; mo_end : pa + pg i * PAGE_SIZE < 2 ^ 64; mo_mapped : mapped m pa (pg i * PAGE_SIZE) }.

Lemma cinv_add st m i c F P E n pa : cinv st m i c (Lists F P E) -> n ∉ F ++ P ++ E -> n <> 0 -> mem_ok m i pa ->
  cinv (<[n := Slab pa (slots i) (slots i) (empty_slabs c) (bm_len i) (replicate (Z.to_nat (bm_len i)) 0)]> st) m i (set_empty n c) (Lists F P (n :: E)).
Proof.
  intros [] Hn H0 []. cbn in *. unfold all in ci_nodup; cbn in ci_nodup.
  destruct (const_bounds i ci_idx) as (_ & _ & Hs & _).
  destruct (bitmap_ok_fresh pa (slots i) (empty_slabs c) (bm_len i) ltac:(lia) eq_refl) as [Hbo Hcnt].
  split; cbn; try done.
  - apply chain_insert; [done|set_solver].
  - apply chain_insert; [done|set_solver].
  - split; [done|]. split; [done|]. eexists. split; [apply lookup_insert_eq|]. cbn. apply chain_insert; [done|set_solver].
  - unfold all; cbn. assert (Hp : F ++ P ++ n :: E ≡ₚ n :: F ++ P ++ E) by solve_Permutation. rewrite Hp. now constructor.
  - apply holds_insert; [done|set_solver].
  - apply holds_insert; [done|set_solver].
  - eapply holds_cons; [|apply lookup_insert_eq| |]; [apply holds_insert; [done|set_solver]| |done]. now split.
Qed.

Lemma wp_AddSlabW pages i s c : 0 <= i < 12 -> arr_get (caches s) i = Some c -> 0 < curr_addr s -> curr_addr s + 200 < 2 ^ 64 ->
  wp (AddSlabW pages i) (λ _ s', s' = Heap
    (<[curr_addr s := Slab (pages (pg i)) (slots i) (slots i) (empty_slabs c) (bm_len i) (replicate (Z.to_nat (bm_len i)) 0)]> (slabs s))
    (<[Z.to_nat i := set_empty (curr_addr s) c]> (caches s)) (curr_addr s + SIZEOF_SLAB + 8 * bm_len i) (ie s) (ram s)) s.
Proof.
  intros Hi Hc H0 Hlt. destruct (const_bounds i Hi) as (_ & _ & _ & _ & Hsl). destruct (bm_len_eq i Hi) as [Hbm Hbr].
  unfold AddSlabW. wp_step. apply wp_pages_of; [done|]. wp_step. apply wp_size_of; [done|]. rewrite Hsl, Hbm. wp_step. unfold AddSlab.
  wp_step. wp_step. wp_step. wp_step. apply wp_ret. cbn [curr_addr set_curr]. unfold SIZEOF_SLAB. rewrite !wrap64_small by (rewrite ?wrap64_small; lia).
  replace (curr_addr s + 40 + 8 * bm_len i - 40 - 8 * bm_len i) with (curr_addr s) by lia.
  wp_step. eapply wp_cache_at; [exact Hc|]. wp_step. wp_step. eapply wp_cache_upd; [exact Hc|]. reflexivity.
Qed.
