(* ===== verification/SlabFree.v ===== *)
(** Giving a slot back: finding its slab, and moving the slab between the lists
    of its cache. *)

From S2P Require Import Prelude BitMath Bytes CMem Slab SlabBits SlabOps.

(** * Finding the slab of a pointer *)

Section Search.
Context (s : heap) (i ptr a : Z).
Context (Hi : 0 <= i < 12).
(** [a] is the only slab that covers [ptr]. *)
Definition covers (b : Z) : Prop := exists d, slabs s !! b = Some d /\ in_slab d (pg i) ptr = bool_decide (b = a).

Lemma search_one l : forall fuel p, (length l < fuel)%nat -> chain (slabs s) p l -> (forall b, b ∈ l -> covers b) -> a <> 0 ->
  wp (loop fuel (SearchSlab_step1 (pg i) ptr) p) (λ r s', s' = s /\ r = if decide (a ∈ l) then a else 0) s.
Proof.
  induction l as [|b l IH]; intros [|fuel] p Hf Hc Hcov Ha; try (cbn in Hf; lia); rewrite loop_S; wp_step; unfold SearchSlab_step1.
  - cbn in Hc. rewrite Hc. apply wp_ret. apply wp_ret. split; [done|]. rewrite decide_False by set_solver. done.
  - destruct Hc as (-> & Hb & d & Hd & Hc). rewrite (proj2 (Z.eqb_neq b 0)) by done. wp_step. eapply wp_slab_at; [done|].
    destruct (Hcov b ltac:(set_solver)) as (d0 & Hd0 & E). simplify_eq. rewrite E. case_bool_decide as Hba.
    + subst b. apply wp_ret. apply wp_ret. split; [done|]. rewrite decide_True by set_solver. reflexivity.
    + apply wp_ret. eapply wp_mono; [apply IH; [cbn in Hf; lia|done|set_solver|done]|]. cbn. intros r s' [-> ->]. split; [done|].
      repeat case_decide; set_solver.
Qed.

Lemma search_two l2 : forall l1 fuel p1 p2, (length l1 < fuel)%nat -> chain (slabs s) p1 l1 -> chain (slabs s) p2 l2 ->
  (forall b, b ∈ l1 ++ l2 -> covers b) -> a ∈ l1 ++ l2 ->
  wp (loop fuel (SearchSlab_step2 (pg i) ptr) (p1, p2)) (λ r s', s' = s /\
    (r = inr a \/ exists q1 q2 k1 k2, r = inl (q1, q2) /\ chain (slabs s) q1 k1 /\ chain (slabs s) q2 k2 /\ a ∈ k1 ++ k2 /\
      suffix k1 l1 /\ suffix k2 l2)) s.
Proof.
  induction l2 as [|b2 l2 IH]; intros l1 [|fuel] p1 p2 Hf H1 H2 Hcov Ha; try lia; rewrite loop_S; wp_step; unfold SearchSlab_step2.
  - cbn in H2. rewrite H2, andb_false_r. cbn. split; [done|]. right. exists p1, 0, l1, []. split_and!; try done.
  - destruct l1 as [|b1 l1].
    { cbn in H1. rewrite H1. cbn. split; [done|]. right. exists 0, p2, [], (b2 :: l2). split_and!; try done. }
    destruct H1 as (-> & Hb1 & d1 & Hd1 & H1). destruct H2 as (-> & Hb2 & d2 & Hd2 & H2).
    rewrite (proj2 (Z.eqb_neq b1 0)), (proj2 (Z.eqb_neq b2 0)) by done. cbn [negb andb].
    wp_step. eapply wp_slab_at; [done|]. destruct (Hcov b1 ltac:(set_solver)) as (d0 & Hd0 & E1). simplify_eq. rewrite E1.
    case_bool_decide as Hba; [subst b1; apply wp_ret; cbn; auto|].
    wp_step. eapply wp_slab_at; [done|]. destruct (Hcov b2 ltac:(set_solver)) as (d0' & Hd0' & E2). simplify_eq. rewrite E2.
    case_bool_decide as Hba2; [subst b2; apply wp_ret; cbn; auto|].
    apply wp_ret. eapply wp_mono; [apply (IH l1); [cbn in Hf; lia|done..|set_solver|set_solver]|].
    cbn. intros r s' (-> & [->|(q1 & q2 & k1 & k2 & -> & ? & ? & ? & ? & ?)]); split; auto. right.
    exists q1, q2, k1, k2. split_and!; try done; now apply suffix_cons_r.
Qed.

Lemma wp_SearchSlab p1 p2 l1 l2 (Q : Z -> heap -> Prop) : chain (slabs s) p1 l1 -> chain (slabs s) p2 l2 -> NoDup (l1 ++ l2) ->
  (forall b, b ∈ l1 ++ l2 -> covers b) -> a ∈ l1 ++ l2 -> Q a s -> wp (SearchSlab p1 p2 ptr i) Q s.
Proof.
  intros H1 H2 Hnd Hcov Ha HQ. apply list.NoDup_app in Hnd as (Hn1 & _ & Hn2).
  pose proof (slabs_length _ _ _ H1 Hn1) as Hl1. pose proof (slabs_length _ _ _ H2 Hn2) as Hl2.
  assert (Hanz : a <> 0).
  { apply chain_nonzero in H1, H2. rewrite list.Forall_forall in H1, H2. apply elem_of_app in Ha as [Ha|Ha]; auto. }
  unfold SearchSlab. wp_step. apply wp_pages_of; [done|]. wp_step. wp_step. wp_step.
  eapply wp_mono; [eapply (search_two l2 l1); [unfold list_fuel; lia|done..]|].
  cbv beta. intros r s' (-> & [->|(q1 & q2 & k1 & k2 & -> & Hq1 & Hq2 & Hin & Hs1 & Hs2)]); [now apply wp_ret|].
  apply suffix_length in Hs1 as Hx1. apply suffix_length in Hs2 as Hx2.
  assert (Hsub : forall b, b ∈ k1 ++ k2 -> covers b). { destruct Hs1 as [y1 ->], Hs2 as [y2 ->]. set_solver. }
  wp_step. eapply wp_mono; [eapply (search_one k1); [unfold list_fuel; lia|done|set_solver|done]|].
  cbv beta. intros r s' [-> ->]. case_decide as Hk.
  - rewrite (proj2 (Z.eqb_neq a 0)) by done. now apply wp_ret.
  - cbn. eapply wp_mono; [eapply (search_one k2); [unfold list_fuel; lia|done|set_solver|done]|]. cbv beta. intros r s' [-> ->].
    case_decide; [done|set_solver].
Qed.
End Search.

(** * Moving a slab between lists *)

Section Move.
Context (st st' : gmap Z slab_t) (m : memory) (i h py pz a : Z) (X1 X2 Y Z' : list Z) (d : slab_t) (PX PY PZ : slab_t -> Prop).
Context (Hnx : forall e v, PX e -> PX (set_next v e)) (Hny : forall e v, PY e -> PY (set_next v e)) (Hnz : forall e v, PZ e -> PZ (set_next v e)).
Context (Hnd : NoDup (X1 ++ a :: X2 ++ Y ++ Z')) (Hr : relinked (X1 ++ X2) st st') (Hcx : chain st' h (X1 ++ X2))
  (Hcy : chain st py Y) (Hcz : chain st pz Z') (Ha0 : a <> 0) (Hok : slab_ok i m d) (Hpy : PY d)
  (HX : holds st m i (X1 ++ X2) PX) (HY : holds st m i Y PY) (HZ : holds st m i Z' PZ).
Let st2 := <[a := set_next py d]> st'.

(** [a] leaves [X1 ++ a :: X2] for the front of [Y]. *)
Lemma move_slab : chain st2 h (X1 ++ X2) /\ chain st2 a (a :: Y) /\ chain st2 pz Z' /\
  holds st2 m i (X1 ++ X2) PX /\ holds st2 m i (a :: Y) PY /\ holds st2 m i Z' PZ.
Proof.
  apply NoDup_hole in Hnd as (Ha1 & Ha2 & Hn). rewrite app_assoc in Hn. apply list.NoDup_app in Hn as (_ & Hdis & _).
  split_and!.
  - apply chain_insert; [done|set_solver].
  - split; [done|]. split; [done|]. eexists. split; [apply lookup_insert_eq|]. apply chain_insert; [|set_solver].
    eapply chain_relinked; [done| |done]. intros b Hb Hx. apply (Hdis b Hx). set_solver.
  - apply chain_insert; [|set_solver]. eapply chain_relinked; [done| |done]. intros b Hb Hx. apply (Hdis b Hx). set_solver.
  - apply holds_insert; [|set_solver]. eapply holds_relinked; eauto.
  - eapply holds_cons; [|apply lookup_insert_eq|now apply slab_ok_next|now apply Hny]. apply holds_insert; [|set_solver]. eapply holds_relinked; eauto.
  - apply holds_insert; [|set_solver]. eapply holds_relinked; eauto.
Qed.
End Move.

(** A full slab that got a slot back. *)
Lemma cinv_unfill st st' m i c F1 a F2 P E h d : cinv st m i c (Lists (F1 ++ a :: F2) P E) -> a <> 0 ->
  relinked (F1 ++ F2) (<[a := d]> st) st' -> chain st' h (F1 ++ F2) -> slab_ok i m d -> is_partial d ->
  cinv (<[a := set_next (partial_slabs c) d]> st') m i (set_partial a (set_full h c)) (Lists (F1 ++ F2) (a :: P) E).
Proof.
  intros [] Ha Hr Hc Hok Hp. unfold all in ci_nodup; cbn in *. rewrite <- app_assoc in ci_nodup. cbn in ci_nodup.
  apply NoDup_hole in ci_nodup as Hh. destruct Hh as (Ha1 & Ha2 & Hn).
  destruct (move_slab (<[a := d]> st) st' m i h (partial_slabs c) (empty_slabs c) a F1 F2 P E d is_full is_partial is_empty) as (? & ? & ? & ? & ? & ?); try done.
  1, 2: apply chain_insert; [done|set_solver].
  1, 2, 3: apply holds_insert; [|set_solver]; eapply holds_sub; [done|set_solver].
  split; cbn [lf lp le all] in *; try done. unfold all; cbn. assert (Hp' : (F1 ++ F2) ++ a :: P ++ E ≡ₚ F1 ++ a :: F2 ++ P ++ E) by solve_Permutation. now rewrite Hp'.
Qed.

(** A partial slab that got its last slot back. *)
Lemma cinv_drain st st' m i c F P1 a P2 E h d : cinv st m i c (Lists F (P1 ++ a :: P2) E) -> a <> 0 ->
  relinked (P1 ++ P2) (<[a := d]> st) st' -> chain st' h (P1 ++ P2) -> slab_ok i m d -> is_empty d ->
  cinv (<[a := set_next (empty_slabs c) d]> st') m i (set_empty a (set_partial h c)) (Lists F (P1 ++ P2) (a :: E)).
Proof.
  intros [] Ha Hr Hc Hok Hp. unfold all in ci_nodup; cbn in *.
  assert (Hperm : P1 ++ a :: P2 ++ E ++ F ≡ₚ F ++ (P1 ++ a :: P2) ++ E) by solve_Permutation.
  rewrite <- Hperm in ci_nodup. apply NoDup_hole in ci_nodup as Hh. destruct Hh as (Ha1 & Ha2 & Hn).
  destruct (move_slab (<[a := d]> st) st' m i h (empty_slabs c) (full_slabs c) a P1 P2 E F d is_partial is_empty is_full) as (? & ? & ? & ? & ? & ?); try done.
  1, 2: apply chain_insert; [done|set_solver].
  1, 2, 3: apply holds_insert; [|set_solver]; eapply holds_sub; [done|set_solver].
  split; cbn [lf lp le all] in *; try done. unfold all; cbn. assert (Hp' : F ++ (P1 ++ P2) ++ a :: E ≡ₚ P1 ++ a :: P2 ++ E ++ F) by solve_Permutation. now rewrite Hp'.
Qed.

(** A partial slab that stays partial. *)
Lemma cinv_keep st m i c F P E a d d' : cinv st m i c (Lists F P E) -> a ∈ P -> st !! a = Some d -> next d' = next d ->
  slab_ok i m d' -> is_partial d' -> cinv (<[a := d']> st) m i c (Lists F P E).
Proof.
  intros [] Ha Hd Hn Hok Hp. unfold all in ci_nodup; cbn in *. apply list.NoDup_app in ci_nodup as Hh. destruct Hh as (_ & HF & HPE).
  apply list.NoDup_app in HPE as (_ & HPE & _).
  split; cbn [lf lp le]; try done; try (eapply chain_replace; eassumption).
  - apply holds_insert; [done|]. intros Hx. apply (HF a Hx). set_solver.
  - intros b Hb. destruct (decide (b = a)) as [->|]; [rewrite lookup_insert_eq; eauto|]. rewrite lookup_insert_ne by done. now apply ci_P.
  - apply holds_insert; [done|]. now apply HPE.
Qed.

(** * Giving a slot back *)

Section Put.
Context (i : Z) (s : heap) (c : cache_t) (F P E : list Z) (a k w : Z) (d : slab_t).
Context (Hc : arr_get (caches s) i = Some c) (HI : cinv (slabs s) (ram s) i c (Lists F P E)) (Hd : slabs s !! a = Some d)
  (Ha : a <> 0) (Hok : slab_ok i (ram s) d) (Hk : 0 <= k < num_slots d) (Hw : arr_get (bitmap d) (k / 64) = Some w) (Hu : slot_used d k = true).
Let d2 := flip_slot k (free_count d + 1) w d.
Let s2 := set_slabs (<[a := d2]> (slabs s)) s.

Lemma put_ok : slab_ok i (ram s) d2.
Proof. pose proof (slab_ok_flip i (ram s) d k w (next d) Hok Hk Hw) as H. rewrite Hu, flip_next in H. exact H. Qed.

Lemma put_toggled : toggled (slabs s) (<[a := d2]> (slabs s)) a k d d2.
Proof. unfold d2. rewrite <- flip_next at 1. rewrite <- (flip_next k (free_count d + 1) w d) at 2. now apply toggled_flip. Qed.

Lemma put_free : free_count d < num_slots d.
Proof. rewrite (bo_count d (so_bits _ _ _ Hok)). pose proof (used_count_pos d k (so_bits _ _ _ Hok) Hk Hu). lia. Qed.

Lemma put_unfill F1 F2 : F = F1 ++ a :: F2 -> free_count d = 0 -> 1 < num_slots d ->
  wp (let* c := cache_at i in
      let* h := DeleteSlab (full_slabs c) a in
      cache_upd i (set_full h);;
      let* c := cache_at i in
      slab_upd a (set_next (partial_slabs c));;
      cache_upd i (set_partial a))
    (λ _ s', slot_step true i s c (Lists F P E) (start d + k * sz i) s' /\ exists d', slabs s' !! a = Some d' /\ free_count d' = 1 /\ num_slots d' = num_slots d) s2.
Proof.
  intros EF Hz Hn. pose proof (ci_nodup _ _ _ _ _ HI) as Hnd. unfold all in Hnd; cbn in Hnd.
  assert (HndF : NoDup (F1 ++ a :: F2)) by (rewrite <- EF; now apply list.NoDup_app in Hnd as (? & _)).
  apply NoDup_hole in HndF as Hh. destruct Hh as (H1 & H2 & _).
  wp_step. eapply wp_cache_at; [exact Hc|]. wp_step. eapply (wp_DeleteSlab _ _ a F1 F2); [|done|].
  { rewrite <- EF. cbn. eapply chain_replace; [apply (ci_full _ _ _ _ _ HI)|exact Hd|reflexivity]. }
  intros h st' Hch Hrel. cbn [slabs set_slabs s2] in Hrel.
  assert (Hga : st' !! a = Some d2) by (rewrite (proj1 (Hrel a)) by set_solver; apply lookup_insert_eq).
  wp_step. eapply wp_cache_upd; [exact Hc|]. wp_step. eapply wp_cache_at; [eapply arr_get_upd, Hc|]. wp_step.
  eapply wp_slab_upd; [exact Hga|]. eapply wp_cache_upd; [eapply arr_get_upd, Hc|]. cbn [slabs set_slabs set_caches caches curr_addr ie ram s2].
  rewrite list_insert_insert_eq. split; [|eexists; split; [apply lookup_insert_eq|]; cbn; split; [lia|done]].
  exists a, k, d, (set_next (partial_slabs c) d2), (set_partial a (set_full h c)), (Lists (F1 ++ F2) (a :: P) E), (<[a := set_next (partial_slabs c) d2]> st').
  subst F. split_and!; try done.
  - eapply cinv_unfill; try done; [exact put_ok|]. unfold is_partial, d2. cbn. lia.
  - unfold all; cbn. solve_Permutation.
  - unfold all; cbn. set_solver.
  - intros b Hb. unfold all in Hb; cbn in Hb. rewrite lookup_insert_ne by set_solver. rewrite (proj1 (Hrel b)) by set_solver. rewrite lookup_insert_ne by set_solver. done.
  - apply toggled_next. eapply toggled_relinked; [apply put_toggled| |done]. set_solver.
Qed.

Lemma put_drain P1 P2 : P = P1 ++ a :: P2 -> free_count d + 1 = num_slots d ->
  wp (let* c := cache_at i in
      let* h := DeleteSlab (partial_slabs c) a in
      cache_upd i (set_partial h);;
      let* c := cache_at i in
      slab_upd a (set_next (empty_slabs c));;
      cache_upd i (set_empty a)) (λ _ s', slot_step true i s c (Lists F P E) (start d + k * sz i) s') s2.
Proof.
  intros EP Hn. pose proof (ci_nodup _ _ _ _ _ HI) as Hnd. unfold all in Hnd; cbn in Hnd.
  assert (HndP : NoDup (P1 ++ a :: P2)) by (rewrite <- EP; apply list.NoDup_app in Hnd as (_ & _ & Hnd); now apply list.NoDup_app in Hnd as (? & _)).
  apply NoDup_hole in HndP as Hh. destruct Hh as (H1 & H2 & _).
  wp_step. eapply wp_cache_at; [exact Hc|]. wp_step. eapply (wp_DeleteSlab _ _ a P1 P2); [|done|].
  { rewrite <- EP. cbn. eapply chain_replace; [apply (ci_partial _ _ _ _ _ HI)|exact Hd|reflexivity]. }
  intros h st' Hch Hrel. cbn [slabs set_slabs s2] in Hrel.
  assert (Hga : st' !! a = Some d2) by (rewrite (proj1 (Hrel a)) by set_solver; apply lookup_insert_eq).
  wp_step. eapply wp_cache_upd; [exact Hc|]. wp_step. eapply wp_cache_at; [eapply arr_get_upd, Hc|]. wp_step.
  eapply wp_slab_upd; [exact Hga|]. eapply wp_cache_upd; [eapply arr_get_upd, Hc|]. cbn [slabs set_slabs set_caches caches curr_addr ie ram s2].
  rewrite list_insert_insert_eq.
  exists a, k, d, (set_next (empty_slabs c) d2), (set_empty a (set_partial h c)), (Lists F (P1 ++ P2) (a :: E)), (<[a := set_next (empty_slabs c) d2]> st').
  subst P. split_and!; try done.
  - eapply cinv_drain; try done. exact put_ok.
  - unfold all; cbn. solve_Permutation.
  - unfold all; cbn. set_solver.
  - intros b Hb. unfold all in Hb; cbn in Hb. rewrite lookup_insert_ne by set_solver. rewrite (proj1 (Hrel b)) by set_solver. rewrite lookup_insert_ne by set_solver. done.
  - apply toggled_next. eapply toggled_relinked; [apply put_toggled| |done]. set_solver.
Qed.

Lemma put_keep : a ∈ P -> 0 < free_count d -> free_count d + 1 < num_slots d -> slot_step true i s c (Lists F P E) (start d + k * sz i) s2.
Proof.
  intros Hin H0 Hn. exists a, k, d, d2, c, (Lists F P E), (<[a := d2]> (slabs s)). rewrite (caches_id i c) by done. split_and!; try done.
  - eapply cinv_keep; try done; [exact put_ok|]. unfold is_partial, d2. cbn. lia.
  - unfold all; cbn. set_solver.
  - intros b Hb. unfold all in Hb; cbn in Hb. rewrite lookup_insert_ne by set_solver. done.
  - apply put_toggled.
Qed.
End Put.

Lemma slot_index i m d k : 0 <= i < 12 -> slab_ok i m d -> 0 <= k < num_slots d -> wrap64 (start d + k * sz i - start d) / sz i = k.
Proof.
  intros Hi Hok Hk. destruct (slot_addr i m d k Hi Hok Hk). destruct (const_bounds i Hi) as (? & _). pose proof (so_start _ _ _ Hok).
  rewrite wrap64_small by nia. replace (start d + k * sz i - start d) with (k * sz i) by lia. apply Z.div_mul. lia.
Qed.

Lemma wp_kfree_slot i s c F P E a d k p : arr_get (caches s) i = Some c -> cinv (slabs s) (ram s) i c (Lists F P E) -> a ∈ F ++ P ->
  slabs s !! a = Some d -> 0 <= k < num_slots d -> slot_used d k = true -> p = start d + k * sz i ->
  wp (kfree_slot i a p) (λ _ s', slot_step true i s c (Lists F P E) p s') s.
Proof.
  intros Hc HI Hin Hd Hk Hu ->. pose proof (ci_idx _ _ _ _ _ HI) as Hi.
  destruct (all_ok _ _ _ _ _ a HI) as (d0 & Hd0 & Hok); [unfold all; cbn; set_solver|]. simplify_eq.
  pose proof (so_bits _ _ _ Hok) as Hbo. pose proof (free_count_range d Hbo) as Hfr. pose proof (put_free i s k d Hok Hk Hu) as Hlt.
  pose proof (so_slots _ _ _ Hok) as Hsl. destruct (const_bounds i Hi) as (_ & _ & Hs & _).
  assert (Ha : a <> 0).
  { pose proof (chain_nonzero _ _ _ (ci_full _ _ _ _ _ HI)) as N1. pose proof (chain_nonzero _ _ _ (ci_partial _ _ _ _ _ HI)) as N2.
    rewrite list.Forall_forall in N1, N2. cbn in N1, N2. apply elem_of_app in Hin as [?|?]; auto. }
  destruct (slot_word d k Hbo Hk) as (w & Hw & _).
  unfold kfree_slot. wp_step. eapply wp_slab_upd; [exact Hd|]. wp_step. eapply wp_slab_at; [apply lookup_insert_eq|]. wp_step. apply wp_size_of; [done|].
  cbn [start set_free_count]. rewrite (slot_index i (ram s)) by done. rewrite (wrap64_small (free_count d + 1)) by lia.
  wp_step. eapply wp_bitmap_at; [apply lookup_insert_eq|exact Hw|]. wp_step. eapply wp_bitmap_set; [apply lookup_insert_eq|exact Hw|].
  cbn [slabs set_slabs bitmap set_free_count]. rewrite insert_insert_eq.
  change (set_bitmap _ (set_free_count (free_count d + 1) d)) with (flip_slot k (free_count d + 1) w d).
  change (set_slabs ?x (set_slabs _ s)) with (set_slabs x s).
  wp_step. eapply wp_slab_at; [apply lookup_insert_eq|]. wp_step. apply wp_when. change (free_count (flip_slot k (free_count d + 1) w d)) with (free_count d + 1).
  destruct (Z.eqb_spec (free_count d + 1) 1) as [H1|H1]; cbv iota.
  - assert (HaF : a ∈ F).
    { apply elem_of_app in Hin as [?|HP]; [done|]. destruct (ci_P _ _ _ _ _ HI a HP) as (d0 & ? & _ & Hp). simplify_eq. unfold is_partial in Hp. lia. }
    apply list_elem_of_split in HaF as (F1 & F2 & ->).
    eapply wp_mono; [eapply (put_unfill i s c (F1 ++ a :: F2) P E a k w d); eauto; lia|].
    cbv beta. intros _ s' (Hs' & d' & Hd' & Hf & Hn). wp_step. eapply wp_slab_at; [exact Hd'|]. apply wp_when. rewrite Hf, Hn.
    rewrite (proj2 (Z.eqb_neq 1 (num_slots d))) by lia. exact Hs'.
  - assert (HaP : a ∈ P).
    { apply elem_of_app in Hin as [HF|?]; [|done]. destruct (ci_F _ _ _ _ _ HI a HF) as (d0 & ? & _ & Hp). simplify_eq. unfold is_full in Hp. lia. }
    wp_step. eapply wp_slab_at; [apply lookup_insert_eq|]. apply wp_when. change (free_count (flip_slot k (free_count d + 1) w d)) with (free_count d + 1).
    change (num_slots (flip_slot k (free_count d + 1) w d)) with (num_slots d). destruct (Z.eqb_spec (free_count d + 1) (num_slots d)) as [H2|H2].
    + apply list_elem_of_split in HaP as (P1 & P2 & ->). eapply put_drain; eauto.
    + eapply put_keep; eauto; lia.
Qed.

(** The kernel heap as a whole: every cache and the memory of all slabs, and
    what [kmalloc] and [kfree] do to the set of live blocks. *)

(** * The invariant *)

(** Two ranges of bytes do not meet. *)
Definition apart (a n b m : Z) : Prop := a + n <= b \/ b + m <= a.

Record wf (s : heap) (L : Z -> lists) : Prop := {
  wf_len : length (caches s) = 12%nat;
  wf_cache i c : arr_get (caches s) i = Some c -> cinv (slabs s) (ram s) i c (L i) /\ clock c = false;
  wf_sep i j a : 0 <= i < 12 -> 0 <= j < 12 -> a ∈ all (L i) -> a ∈ all (L j) -> i = j;
  wf_mem i j a b d e : 0 <= i < 12 -> 0 <= j < 12 -> a ∈ all (L i) -> b ∈ all (L j) -> a <> b ->
    slabs s !! a = Some d -> slabs s !! b = Some e -> apart (start d) (pg i * PAGE_SIZE) (start e) (pg j * PAGE_SIZE);
  wf_addr a : is_Some (slabs s !! a) -> 0 < a < curr_addr s;
  wf_curr : 0 < curr_addr s }.

(** Slot [k] of slab [a] of cache [i] is in use, at address [p]. *)
Record slot_at (s : heap) (L : Z -> lists) (i a k p : Z) (d : slab_t) : Prop := {
  sl_idx : 0 <= i < 12;
  sl_in : a ∈ all (L i);
  sl_slab : slabs s !! a = Some d;
  sl_range : 0 <= k < num_slots d;
  sl_addr : p = start d + k * sz i }.
Definition live (s : heap) (L : Z -> lists) (p i : Z) : Prop := exists a k d, slot_at s L i a k p d /\ slot_used d k = true.

Section Inv.
Context (s : heap) (L : Z -> lists) (Hwf : wf s L).

Lemma cache_get i : 0 <= i < 12 -> exists c, arr_get (caches s) i = Some c /\ cinv (slabs s) (ram s) i c (L i) /\ clock c = false.
Proof.
  intros Hi. destruct (arr_get_lt (caches s) i) as [c Hc]; [rewrite (wf_len s L Hwf); lia|]. exists c. split; [done|]. now apply (wf_cache s L Hwf).
Qed.

Lemma slot_ok i a k p d : slot_at s L i a k p d -> slab_ok i (ram s) d /\ start d <= p /\ p + sz i <= start d + pg i * PAGE_SIZE /\ 0 < p /\ p + sz i < 2 ^ 64.
Proof.
  intros []. destruct (cache_get i sl_idx0) as (c & _ & HI & _). destruct (all_ok _ _ _ _ _ a HI sl_in0) as (d0 & ? & Hok). simplify_eq.
  destruct (slot_addr i (ram s) d k sl_idx0 Hok sl_range0). pose proof (so_end _ _ _ Hok). destruct (const_bounds i sl_idx0) as (? & _). split; [done|]. nia.
Qed.

(** Different slots do not overlap. *)
Lemma slots_apart i a k p d j b k' q e : slot_at s L i a k p d -> slot_at s L j b k' q e ->
  (a = b /\ k = k' /\ i = j /\ p = q) \/ apart p (sz i) q (sz j).
Proof.
  intros H1 H2. pose proof (slot_ok _ _ _ _ _ H1) as (Hok1 & ? & ? & _). pose proof (slot_ok _ _ _ _ _ H2) as (Hok2 & ? & ? & _).
  destruct H1, H2. destruct (decide (a = b)) as [->|Hn].
  - assert (i = j) as -> by (eapply (wf_sep s L Hwf); eauto). simplify_eq. destruct (const_bounds j sl_idx0) as (? & _).
    unfold apart. destruct (decide (k = k')) as [->|]; [auto|]. right. destruct (decide (k < k')); nia.
  - right. unfold apart. destruct (wf_mem s L Hwf i j a b d e); auto; lia.
Qed.

Lemma slot_unique i a k p d j b k' e : slot_at s L i a k p d -> slot_at s L j b k' p e -> a = b /\ k = k' /\ i = j.
Proof.
  intros H1 H2. destruct (slots_apart _ _ _ _ _ _ _ _ _ _ H1 H2) as [(? & ? & ? & _)|Hap]; [done|].
  destruct H1, H2. destruct (const_bounds i sl_idx0) as (? & _), (const_bounds j sl_idx1) as (? & _). destruct Hap; lia.
Qed.

Lemma live_apart p i q j : live s L p i -> live s L q j -> p <> q -> apart p (sz i) q (sz j).
Proof. intros (a & k & d & H & _) (b & k' & e & H' & _) Hn. destruct (slots_apart _ _ _ _ _ _ _ _ _ _ H H') as [(_ & _ & _ & ?)|?]; [done|done]. Qed.
End Inv.

(** * One slot changes hands *)

Lemma cinv_clock st m i c l b : cinv st m i (set_clock b c) l <-> cinv st m i c l.
Proof. split; intros []; now split. Qed.

Lemma cinv_frame st st' m i c l : cinv st m i c l -> (forall b, b ∈ all l -> st' !! b = st !! b) -> cinv st' m i c l.
Proof.
  intros [] Heq. unfold all in Heq.
  assert (Hh : forall l' P, (forall b, b ∈ l' -> st' !! b = st !! b) -> holds st m i l' P -> holds st' m i l' P).
  { intros l' P He H b Hb. rewrite He by done. auto. }
  assert (Hch : forall p l', (forall b, b ∈ l' -> st' !! b = st !! b) -> chain st p l' -> chain st' p l').
  { intros p l' He H. eapply slabs_ext; [done|]. intros b Hb. now rewrite He. }
  split; auto; (apply Hh || apply Hch); auto; intros b Hb; apply Heq; set_solver.
Qed.

Section Step.
Context (s : heap) (L : Z -> lists) (Hwf : wf s L) (u : bool) (i : Z) (c c1 : cache_t) (b0 : bool) (p : Z).
Context (Hc : arr_get (caches s) i = Some c).
Context (a k : Z) (d d' : slab_t) (c' : cache_t) (l' : lists) (st' : gmap Z slab_t).
Context (HI : cinv st' (ram s) i c' l') (Hp : all l' ≡ₚ all (L i)) (Ha : a ∈ all (L i))
  (Hfr : forall b, b ∉ all (L i) -> st' !! b = slabs s !! b) (Ht : toggled (slabs s) st' a k d d') (Hu : slot_used d k = u) (Hpa : p = start d + k * sz i).
Let s' := Heap st' (<[Z.to_nat i := set_clock false c']> (caches s)) (curr_addr s) b0 (ram s).
Let L' := λ j, if decide (j = i) then l' else L j.

Lemma step_idx : 0 <= i < 12.
Proof. apply (ci_idx _ _ _ _ _ HI). Qed.

Lemma step_all j : forall b, b ∈ all (L' j) <-> b ∈ all (L j).
Proof. intros b. unfold L'. case_decide as E; [|done]. subst j. now rewrite Hp. Qed.

(** Slabs keep their place; the slots other than [k] of [a] their state. *)
Lemma step_slab b e : slabs s !! b = Some e -> exists e', st' !! b = Some e' /\ start e' = start e /\ num_slots e' = num_slots e /\
  forall j, 0 <= j -> slot_used e' j = if decide (b = a /\ j = k) then negb u else slot_used e j.
Proof.
  intros He. destruct Ht. destruct (decide (b = a)) as [->|Hn].
  - simplify_eq. exists d'. split_and!; try done. intros j Hj. rewrite tg_bits by done. repeat case_decide; naive_solver.
  - pose proof (tg_others b Hn) as E. rewrite He in E. destruct (st' !! b) as [e'|]; [|done]. cbn in E. injection E as E1 E2 E3 E4 E5.
    exists e'. split_and!; try done. intros j Hj. rewrite decide_False by naive_solver. unfold slot_used. now rewrite E5.
Qed.

Lemma step_slab_back b e' : st' !! b = Some e' -> exists e, slabs s !! b = Some e /\ start e' = start e /\ num_slots e' = num_slots e /\
  forall j, 0 <= j -> slot_used e' j = if decide (b = a /\ j = k) then negb u else slot_used e j.
Proof.
  intros He'. destruct (slabs s !! b) as [e|] eqn:He.
  - destruct (step_slab b e He) as (e2 & ? & ?). simplify_eq. eauto.
  - destruct Ht. destruct (decide (b = a)) as [->|Hn]; [congruence|]. pose proof (tg_others b Hn) as E. rewrite He, He' in E. done.
Qed.

Lemma wf_step : wf s' L'.
Proof.
  pose proof step_idx as Hi. split; cbn.
  - rewrite length_insert. apply (wf_len s L Hwf).
  - intros j cj. rewrite arr_get_insert by (rewrite (wf_len s L Hwf); lia). unfold L'. case_decide as E.
    + subst j. rewrite decide_True by done. intros [= <-]. split; [|done]. now apply cinv_clock.
    + intros Hj. rewrite decide_False by congruence. destruct (wf_cache s L Hwf j cj Hj) as [HIj ?]. split; [|done].
      eapply cinv_frame; [done|]. intros b Hb. apply Hfr. intros Hb'. apply E. symmetry. eapply (wf_sep s L Hwf); eauto using ci_idx.
  - intros x y b ? ? Hx%step_all Hy%step_all. eapply (wf_sep s L Hwf); eauto.
  - intros x y b e D E ? ? Hx%step_all Hy%step_all Hn (D0 & HD & -> & _)%step_slab_back (E0 & HE & -> & _)%step_slab_back. now eapply (wf_mem s L Hwf x y b e).
  - intros b [e (e0 & He & _)%step_slab_back]. apply (wf_addr s L Hwf). eauto.
  - apply (wf_curr s L Hwf).
Qed.

Lemma step_slot_at j b x q e' : slot_at s' L' j b x q e' <-> exists e, slot_at s L j b x q e /\ st' !! b = Some e' /\ (slot_used e' x = if decide (b = a /\ x = k) then negb u else slot_used e x).
Proof.
  split.
  - intros []. destruct (step_slab_back b e' sl_slab0) as (e & He & E1 & E2 & Hbits). exists e. split; [|split; [done|apply Hbits; lia]].
    split; try done; [now apply step_all|now rewrite <- E2|now rewrite <- E1].
  - intros (e & [] & He' & _). destruct (step_slab_back b e' He') as (e2 & He2 & E1 & E2 & _). simplify_eq.
    split; try done; [now apply step_all|lia|now rewrite E1].
Qed.

(** The live blocks after the step. *)
Lemma live_step q j : live s' L' q j <-> (u = false /\ q = p /\ j = i) \/ (q <> p /\ live s L q j).
Proof.
  assert (H0 : slot_at s L i a k p d) by (destruct Ht; split; eauto using step_idx).
  split.
  - intros (b & x & e' & (e & Hat & He' & Hbits)%step_slot_at & Hl). rewrite Hbits in Hl. case_decide as E.
    + destruct E as [-> ->]. left. apply negb_true_iff in Hl. pose proof (slot_ok s L Hwf _ _ _ _ _ Hat). destruct Hat, H0.
      assert (j = i) as -> by (eapply (wf_sep s L Hwf); eauto). simplify_eq. done.
    + right. split; [|exists b, x, e; auto]. intros ->. destruct (slot_unique s L Hwf _ _ _ _ _ _ _ _ _ Hat H0) as (-> & -> & _). naive_solver.
  - intros [(Eu & -> & ->)|(Hq & b & x & e & Hat & Hl)].
    + exists a, k, d'. assert (Hat : slot_at s' L' i a k p d').
      { apply step_slot_at. exists d. destruct Ht. split_and!; try done. rewrite decide_True by done. rewrite tg_bits by lia. rewrite decide_True by done. now rewrite Hu. }
      split; [done|]. apply step_slot_at in Hat as (e & _ & _ & Hb). rewrite decide_True in Hb by done. now rewrite Hb, Eu.
    + destruct Hat as [? ? Hsl ? ?]. destruct (step_slab b e Hsl) as (e' & He' & E1 & E2 & Hbits). exists b, x, e'.
      rewrite Hbits by lia. rewrite decide_False; [split; [|done]; split; cbn; try done; [now apply step_all|lia|now rewrite E1]|].
      intros [-> ->]. destruct H0. apply Hq. simplify_eq. assert (j = i) as -> by (eapply (wf_sep s L Hwf); eauto). done.
Qed.
End Step.

(** * A new slab; memory contents *)

Lemma slot_used_fresh pa n nx m k : slot_used (Slab pa n n nx m (replicate (Z.to_nat m) 0)) k = false.
Proof.
  unfold slot_used, arr_get. cbn. destruct (_ <? 0); [done|]. destruct (replicate _ 0 !! _) eqn:E; [|done].
  apply lookup_replicate_1 in E as [-> _]. apply Z.bits_0.
Qed.

Section Add.
Context (s : heap) (L : Z -> lists) (Hwf : wf s L) (i pa : Z) (c : cache_t) (b0 : bool).
Context (Hc : arr_get (caches s) i = Some c) (Hm : mem_ok (ram s) i pa).
Context (Hfresh : forall j b e, 0 <= j < 12 -> b ∈ all (L j) -> slabs s !! b = Some e -> apart pa (pg i * PAGE_SIZE) (start e) (pg j * PAGE_SIZE)).
Let n := curr_addr s.
Let d := Slab pa (slots i) (slots i) (empty_slabs c) (bm_len i) (replicate (Z.to_nat (bm_len i)) 0).
Let s' := Heap (<[n := d]> (slabs s)) (<[Z.to_nat i := set_empty n c]> (caches s)) (n + SIZEOF_SLAB + 8 * bm_len i) b0 (ram s).
Let L' := λ j, if decide (j = i) then Lists (lf (L i)) (lp (L i)) (n :: le (L i)) else L j.

Lemma add_idx : 0 <= i < 12.
Proof. destruct (wf_cache s L Hwf i c Hc) as [HI _]. apply (ci_idx _ _ _ _ _ HI). Qed.

Lemma add_fresh : slabs s !! n = None.
Proof. destruct (slabs s !! n) eqn:E; [|done]. pose proof (wf_addr s L Hwf n ltac:(eauto)). unfold n in *. lia. Qed.

Lemma add_notin j : 0 <= j < 12 -> n ∉ all (L j).
Proof.
  intros Hj Hin. destruct (cache_get s L Hwf j Hj) as (cj & _ & HI & _). destruct (all_ok _ _ _ _ _ n HI Hin) as (e & He & _). now rewrite add_fresh in He.
Qed.

Lemma add_all j b : 0 <= j < 12 -> b ∈ all (L' j) <-> (b = n /\ j = i) \/ b ∈ all (L j).
Proof. intros Hj. unfold L', all. case_decide as E; [subst j; cbn; rewrite !elem_of_app, elem_of_cons|rewrite !elem_of_app]; naive_solver. Qed.

Lemma add_cinv : cinv (<[n := d]> (slabs s)) (ram s) i (set_empty n c) (Lists (lf (L i)) (lp (L i)) (n :: le (L i))).
Proof.
  destruct (wf_cache s L Hwf i c Hc) as [HI _]. apply cinv_add; [now destruct (L i)|apply (add_notin i add_idx)| |done].
  pose proof (wf_curr s L Hwf). unfold n. lia.
Qed.

Lemma wf_add : wf s' L'.
Proof.
  pose proof add_idx as Hi. destruct (bm_len_eq i Hi) as [_ Hbm]. destruct (wf_cache s L Hwf i c Hc) as [HI Hcl].
  split; cbn.
  - rewrite length_insert. apply (wf_len s L Hwf).
  - intros j cj. rewrite arr_get_insert by (rewrite (wf_len s L Hwf); lia). unfold L'. case_decide as E.
    + subst j. rewrite decide_True by done. intros [= <-]. split; [apply add_cinv|done].
    + intros Hj. rewrite decide_False by congruence. destruct (wf_cache s L Hwf j cj Hj) as [HIj ?]. split; [|done].
      eapply cinv_frame; [done|]. intros b Hb. rewrite lookup_insert_ne; [done|]. intros <-. eapply add_notin; [|done]. eauto using ci_idx.
  - intros x y b Hx Hy [[-> ->]|Hbx]%add_all [[? ->]|Hby]%add_all; try done; [now apply add_notin in Hby|subst b; now apply add_notin in Hbx|].
    eapply (wf_sep s L Hwf); eauto.
  - intros x y b e D E Hx Hy [[-> ->]|Hbx]%add_all [[-> ->]|Hby]%add_all Hn; try done.
    + rewrite lookup_insert_eq, lookup_insert_ne by done. intros [= <-] HE. eapply Hfresh; eauto.
    + rewrite lookup_insert_eq, lookup_insert_ne by done. intros HD [= <-]. destruct (Hfresh x b D); auto; [right|left]; done.
    + assert (n <> b) by (intros <-; now apply add_notin in Hbx). assert (n <> e) by (intros <-; now apply add_notin in Hby).
      rewrite !lookup_insert_ne by done. now eapply (wf_mem s L Hwf).
  - intros b. pose proof (wf_curr s L Hwf). unfold SIZEOF_SLAB. destruct (decide (b = n)) as [->|Hn].
    + intros _. unfold n. lia.
    + rewrite lookup_insert_ne by done. intros Hb%(wf_addr s L Hwf). unfold n. lia.
  - pose proof (wf_curr s L Hwf). unfold n, SIZEOF_SLAB. lia.
Qed.

Lemma live_add q j : live s' L' q j <-> live s L q j.
Proof.
  split; intros (a & k & e & [] & Hu).
  - cbn in *. apply add_all in sl_in0; [|done]. destruct sl_in0 as [[-> ->]|Hin].
    + rewrite lookup_insert_eq in sl_slab0. apply (inj Some) in sl_slab0. rewrite <- sl_slab0 in Hu. unfold d in Hu. now rewrite slot_used_fresh in Hu.
    + rewrite lookup_insert_ne in sl_slab0 by (intros <-; now apply add_notin in Hin). now exists a, k, e.
  - exists a, k, e. split; [|done]. split; try done; [apply add_all; auto|]. cbn. rewrite lookup_insert_ne; [done|]. intros <-. now rewrite add_fresh in sl_slab0.
Qed.
End Add.

Lemma holds_ram st m m' i l P : (forall x, is_Some (m !! x) -> is_Some (m' !! x)) -> holds st m i l P -> holds st m' i l P.
Proof. intros Hm H a Ha. destruct (H a Ha) as (d & ? & [] & ?). exists d. split; [done|]. split; [|done]. split; try done. intros x Hx. auto. Qed.

Lemma wf_ram s L m b : wf s L -> (forall x, is_Some (ram s !! x) -> is_Some (m !! x)) -> wf (set_ie b (set_ram m s)) L.
Proof.
  intros [] Hm. split; try done. cbn. intros i c Hc. destruct (wf_cache0 i c Hc) as [[] ?]. split; [|done]. split; try done; now apply (holds_ram _ (ram s)).
Qed.
