(* ===== verification/SlabAlloc.v ===== *)
(** [kmalloc] and [kfree] on the set of live blocks. *)

From S2P Require Import Prelude BitMath Bytes CMem Slab SlabBits SlabOps SlabFree.

(** * The cache of a size *)

Fixpoint best_scan (l : list Z) (i size best_idx min_waste : Z) : Z :=
  match l with
  | [] => best_idx
  | z :: l =>
      if size <=? z then
        if z - size =? 0 then i
        else if z - size <? min_waste then best_scan l (i + 1) size i (z - size) else best_scan l (i + 1) size best_idx min_waste
      else best_scan l (i + 1) size best_idx min_waste
  end.
Definition best (size : Z) : Z := best_scan sizes 0 size NO_CACHE UINT64_MAX.

(** The cache chosen for a size that has one is large enough. *)
Lemma best_fits size : 0 <= size <= 4096 -> 0 <= best size < 12 /\ size <= sz (best size).
Proof.
  intros Hs.
  assert (H : (0 <=? best size) && (best size <? 12) && (size <=? sz (best size)) = true).
  { apply (Z_enum 4097 (λ size, (0 <=? best size) && (best size <? 12) && (size <=? sz (best size)))); [vm_compute; reflexivity|lia]. }
  rewrite !andb_true_iff in H. lia.
Qed.

Lemma scan_none size l : Forall (λ z, z < size) l -> forall i b w, best_scan l i size b w = b.
Proof. induction 1 as [|z l Hz _ IH]; intros i b w; cbn; [done|]. rewrite (proj2 (Z.leb_gt size z)) by lia. apply IH. Qed.

Lemma best_none size : 4096 < size -> best size = NO_CACHE.
Proof. intros Hs. apply scan_none. repeat constructor; unfold PAGE_SIZE; lia. Qed.

Lemma scan_loop s L size : wf s L -> forall l i b w fuel, 0 <= i -> l = drop (Z.to_nat i) sizes -> i + Z.of_nat (length l) = 12 -> (length l < fuel)%nat ->
  wp (loop fuel (GetBestCacheIndex_step size) (i, b, w)) (λ r s', r = best_scan l i size b w /\ s' = s) s.
Proof.
  intros Hwf. induction l as [|z l IH]; intros i b w [|fuel] Hi El Hlen Hf; try lia; rewrite loop_S; wp_step; unfold GetBestCacheIndex_step.
  - cbn in Hlen. rewrite (proj2 (Z.ltb_ge i num_cache)) by (unfold num_cache; lia). now repeat apply wp_ret.
  - cbn in Hlen. rewrite (proj2 (Z.ltb_lt i num_cache)) by (unfold num_cache; lia).
    destruct (cache_get s L Hwf i ltac:(lia)) as (c & Hc & HI & _).
    assert (Hz : sizes !! Z.to_nat i = Some z) by (rewrite <- (Nat.add_0_r (Z.to_nat i)), <- lookup_drop, <- El; done).
    assert (Ez : csize c = z).
    { rewrite (ci_size _ _ _ _ _ HI). pose proof (size_at i ltac:(lia)) as E. unfold arr_get in E. rewrite (proj2 (Z.ltb_ge i 0)) in E by lia. congruence. }
    assert (El' : l = drop (Z.to_nat (i + 1)) sizes).
    { replace (Z.to_nat (i + 1)) with (S (Z.to_nat i)) by lia. erewrite drop_S in El by exact Hz. now injection El. }
    wp_step. eapply wp_cache_at; [exact Hc|]. rewrite Ez. cbn [best_scan].
    destruct (size <=? z); [destruct (z - size =? 0); [now repeat apply wp_ret|destruct (z - size <? w)]|];
      apply wp_ret; apply IH; cbn in *; (done || lia).
Qed.

Lemma wp_GetBestCacheIndex s L size (Q : Z -> heap -> Prop) : wf s L -> Q (best size) s -> wp (GetBestCacheIndex size) Q s.
Proof.
  intros Hwf HQ. unfold GetBestCacheIndex. eapply wp_mono; [apply (scan_loop s L size Hwf sizes); (done || cbn; lia)|]. intros r s' [-> ->]. unfold best in HQ. exact HQ.
Qed.

#[global] Opaque best.

(** * Live blocks *)

(** The heap holds exactly the blocks of [C], at the sizes asked for. *)
Record rep (s : heap) (L : Z -> lists) (C : gmap Z Z) : Prop := {
  rp_wf : wf s L;
  rp_size p size : C !! p = Some size -> 0 < size <= 4096;
  rp_live p i : live s L p i <-> exists size, C !! p = Some size /\ best size = i }.

Lemma rep_block s L C p size : rep s L C -> C !! p = Some size -> live s L p (best size) /\ 0 < size <= 4096 /\ size <= sz (best size).
Proof.
  intros Hr Hp. pose proof (rp_size s L C Hr p size Hp). destruct (best_fits size ltac:(lia)). split; [|done]. apply (rp_live s L C Hr). eauto.
Qed.

(** Blocks are apart. *)
Lemma rep_apart s L C p n q m : rep s L C -> C !! p = Some n -> C !! q = Some m -> p <> q -> apart p n q m.
Proof.
  intros Hr Hp Hq Hn. destruct (rep_block s L C p n Hr Hp) as (Hlp & _ & ?), (rep_block s L C q m Hr Hq) as (Hlq & _ & ?).
  pose proof (live_apart s L (rp_wf s L C Hr) p _ q _ Hlp Hlq Hn) as []; [left|right]; lia.
Qed.

Lemma rep_mapped s L C p n : rep s L C -> C !! p = Some n -> mapped (ram s) p n /\ 0 < p.
Proof.
  intros Hr Hp. destruct (rep_block s L C p n Hr Hp) as ((a & k & d & Hat & _) & _ & Hle).
  destruct (slot_ok s L (rp_wf s L C Hr) _ _ _ _ _ Hat) as (Hok & ? & ? & ? & _). split; [|done].
  intros x Hx. apply (so_mapped _ _ _ Hok). lia.
Qed.

(** [memset] of a mapped range. *)
Definition written (m m' : memory) (p n v : Z) : Prop := forall x, m' !! x = if decide (p <= x < p + n) then Some v else m !! x.

Lemma wp_heap_memset p v n (Q : unit -> heap -> Prop) s : 0 <= n -> mapped (ram s) p n -> is_byte v ->
  (forall m', written (ram s) m' p n v -> Q tt (set_ram m' s)) -> wp (heap_memset p v n) Q s.
Proof.
  intros Hn Hm Hv HQ. pose proof (memset_ok (ram s) p v n Hn Hm Hv) as H. apply wp_run in H as (x & m' & E & ->). unfold wp, heap_memset. rewrite E.
  apply HQ. intros y. unfold filled. rewrite store_bytes_lookup, length_replicate, Z2Nat.id by lia. case_decide; [|done].
  apply lookup_replicate. split; [done|]. lia.
Qed.

Lemma written_mapped m m' p n v x : written m m' p n v -> is_Some (m !! x) -> is_Some (m' !! x).
Proof. intros H Hx. rewrite H. case_decide; eauto. Qed.

(** * [kmalloc] *)

(** The pages [AddKernelPages] returns for a new slab of cache [i] belong to
    no slab, and there is room for its descriptor. *)
Record room (s : heap) (L : Z -> lists) (i pa : Z) : Prop := {
  rm_mem : mem_ok (ram s) i pa;
  rm_apart j b e : 0 <= j < 12 -> b ∈ all (L j) -> slabs s !! b = Some e -> apart pa (pg i * PAGE_SIZE) (start e) (pg j * PAGE_SIZE);
  rm_desc : curr_addr s + 200 < 2 ^ 64 }.

(** A block of [size] bytes at [p] becomes live, zeroed. *)
Definition allocated (s : heap) (C : gmap Z Z) (size p : Z) (s' : heap) : Prop :=
  0 < p /\ C !! p = None /\ ie s' = ie s /\ written (ram s) (ram s') p size 0 /\ exists L', rep s' L' (<[p := size]> C).

Lemma wp_lock i c (Q : unit -> heap -> Prop) s : arr_get (caches s) i = Some c -> clock c = false ->
  Q tt (set_caches (<[Z.to_nat i := set_clock true c]> (caches s)) s) -> wp (lock_cache i) Q s.
Proof. intros Hc Hl HQ. unfold lock_cache. wp_step. eapply wp_cache_at; [exact Hc|]. rewrite Hl. eapply wp_cache_upd; [exact Hc|exact HQ]. Qed.

Lemma live_same s1 s2 L p i : slabs s1 = slabs s2 -> live s1 L p i <-> live s2 L p i.
Proof. intros E. split; intros (a & k & d & [] & Hu); exists a, k, d; (split; [|done]); split; congruence. Qed.

Section Take.
Context (s : heap) (L : Z -> lists) (C : gmap Z Z) (Hr : rep s L C) (size : Z) (Hs : 0 < size <= 4096).
Let i := best size.

(** The slot that a search under the lock found becomes a block. *)
Lemma take_rep c s1 b0 p s' : arr_get (caches s) i = Some c ->
  s1 = Heap (slabs s) (<[Z.to_nat i := set_clock true c]> (caches s)) (curr_addr s) b0 (ram s) ->
  slot_step false i s1 (set_clock true c) (L i) p s' ->
  exists c', arr_get (caches s') i = Some c' /\ C !! p = None /\ 0 < p /\ mapped (ram s) p size /\ ram s' = ram s /\ ie s' = b0 /\
  forall m' b, written (ram s) m' p size 0 ->
    exists L', rep (set_ie b (set_ram m' (set_caches (<[Z.to_nat i := set_clock false c']> (caches s')) s'))) L' (<[p := size]> C).
Proof.
  intros Hc -> Hst. pose proof (slot_step_pos _ _ _ _ _ _ _ Hst) as Hpos.
  destruct Hst as (a & k & d & d' & c' & l' & st' & -> & Hcl & HI & Hp & Ha & Hfr & Ht & Hu & Epa). cbn [slabs caches ram set_slabs set_caches] in *.
  rewrite list_insert_insert_eq. pose proof (rp_wf s L C Hr) as Hwf. destruct (best_fits size ltac:(lia)) as [Hi Hle]. fold i in Hi, Hle.
  assert (Hat : slot_at s L i a k p d) by (destruct Ht; split; eauto).
  destruct (slot_ok s L Hwf _ _ _ _ _ Hat) as (Hok & ? & ? & _).
  assert (HCp : C !! p = None).
  { destruct (C !! p) as [n|] eqn:E; [|done]. exfalso. destruct (proj2 (rp_live s L C Hr p (best n))) as (b & x & e & Hat' & Hu'); [eauto|].
    destruct (slot_unique s L Hwf _ _ _ _ _ _ _ _ _ Hat Hat') as (-> & -> & _). destruct Hat, Hat'. simplify_eq. congruence. }
  exists c'. split_and!; try done; try lia.
  - apply arr_get_upd with c. exact Hc.
  - intros x Hx. apply (so_mapped _ _ _ Hok). lia.
  - intros m' b Hm'. cbn [caches set_slabs set_caches]. rewrite list_insert_insert_eq.
    exists (λ j, if decide (j = i) then l' else L j). split.
    + apply wf_ram; [|intros x; cbn; intros Hx; eapply written_mapped; eauto].
      exact (wf_step s L Hwf false i b0 a k d d' c' l' st' HI Hp Hfr Ht Hu).
    + intros q n. rewrite lookup_insert_Some. intros [[_ <-]|[_ Hq]]; [done|]. eapply rp_size; eauto.
    + intros q j. rewrite (live_same _ (Heap st' (<[Z.to_nat i := set_clock false c']> (caches s)) (curr_addr s) b0 (ram s))) by done.
      rewrite (live_step s L Hwf false i b0 p a k d d' c' l' st' HI Hp Ha Ht Hu Epa). rewrite (rp_live s L C Hr).
      split.
      * intros [(_ & -> & ->)|(Hn & n & Hq & <-)]; [exists size; now rewrite lookup_insert_eq|exists n; now rewrite lookup_insert_ne].
      * intros (n & [[-> ->]|[Hn Hq]]%lookup_insert_Some & <-); [left; done|right; eauto].
Qed.
End Take.

Lemma set_ie_id b s : ie s = b -> set_ie b s = s.
Proof. destruct s; cbn. now intros ->. Qed.

(** Locking, a search that finds a slot, and the rest of [kmalloc]. *)
Lemma wp_kmalloc_found s L C size b (r : Z) c s1 s' : rep s L C -> 0 < size <= 4096 -> arr_get (caches s) (best size) = Some c ->
  s1 = Heap (slabs s) (<[Z.to_nat (best size) := set_clock true c]> (caches s)) (curr_addr s) false (ram s) ->
  slot_step false (best size) s1 (set_clock true c) (L (best size)) r s' ->
  wp (unlock_cache (best size);; heap_memset r 0 size;; when b StiHelper;; ret r) (λ p s2, 0 < p /\ C !! p = None /\ ie s2 = b /\
    written (ram s) (ram s2) p size 0 /\ exists L', rep s2 L' (<[p := size]> C)) s'.
Proof.
  intros Hr Hs Hc Es1 Hst. destruct (take_rep s L C Hr size Hs c s1 false r s' Hc Es1 Hst) as (c' & Hc' & HC & Hp & Hmap & Eram & Eie & Hrep).
  unfold unlock_cache. wp_step. eapply wp_cache_upd; [exact Hc'|]. wp_step. apply wp_heap_memset; [lia|cbn; now rewrite Eram|unfold is_byte; lia|].
  intros m' Hm'. cbn [ram set_caches] in Hm'. rewrite Eram in Hm'. wp_step. apply wp_when. destruct b.
  - apply wp_modify. apply wp_ret. split_and!; try done. exact (Hrep m' true Hm').
  - apply wp_ret. split_and!; try done. destruct (Hrep m' false Hm') as [L' HL']. exists L'. rewrite set_ie_id in HL' by exact Eie. exact HL'.
Qed.

Lemma cache_unlock (c : cache_t) : clock c = false -> set_clock false (set_clock true c) = c.
Proof. destruct c; cbn. now intros ->. Qed.

Lemma slab_kmalloc_ok s L C pages size : rep s L C -> 0 < size <= 4096 -> room s L (best size) (pages (pg (best size))) ->
  wp (kmalloc pages size) (allocated s C size) s.
Proof.
  intros Hr Hs []. pose proof (rp_wf s L C Hr) as Hwf. destruct (best_fits size ltac:(lia)) as [Hi _].
  destruct (cache_get s L Hwf (best size) Hi) as (c & Hc & HI & Hcl).
  unfold kmalloc. wp_step. eapply wp_GetBestCacheIndex; [done|]. rewrite (proj2 (Z.eqb_neq (best size) NO_CACHE)) by (unfold NO_CACHE; lia).
  wp_step. apply wp_gets. wp_step. apply wp_modify. wp_step. eapply wp_lock; [exact Hc|done|]. wp_step.
  cbn [fset if_flag heap_if set_caches slabs caches curr_addr ie ram set_ie].
  eapply wp_mono; [eapply (wp_SearchCache (best size) _ (set_clock true c) (L (best size))); [eapply arr_get_upd, Hc|now apply cinv_clock]|].
  cbv beta. intros r s' Hres. case_decide as Hempty.
  - destruct Hres as [-> ->]. cbn [Z.eqb negb]. unfold unlock_cache at 1. wp_step. eapply wp_cache_upd; [eapply arr_get_upd, Hc|].
    cbn [caches set_caches slabs curr_addr ie ram]. rewrite list_insert_insert_eq, cache_unlock, (list_insert_id _ (Z.to_nat (best size)) c) by (done || (unfold arr_get in Hc; now destruct (best size <? 0))).
    wp_step. eapply wp_mono; [eapply (wp_AddSlabW pages (best size) _ c); [done|exact Hc|apply (wf_curr s L Hwf)|exact rm_desc0]|].
    cbv beta. intros _ s2 ->. cbn [slabs caches curr_addr ie ram].
    pose proof (wf_add s L Hwf (best size) (pages (pg (best size))) c false Hc rm_mem0 rm_apart0) as Hwf2.
    pose proof (live_add s L Hwf (best size) (pages (pg (best size))) c false) as Hl2. cbv zeta in Hwf2, Hl2.
    match type of Hwf2 with wf ?s2 ?L2 => set (s2' := s2) in *; set (L2' := L2) in * end.
    assert (Hr2 : rep s2' L2' C). { split; [exact Hwf2|apply Hr|]. intros p j. rewrite Hl2. apply Hr. }
    assert (Hc2 : arr_get (caches s2') (best size) = Some (set_empty (curr_addr s) c)) by (eapply arr_get_upd, Hc).
    destruct (wf_cache s2' L2' Hwf2 _ _ Hc2) as [HI2 _].
    wp_step. eapply wp_lock; [exact Hc2|done|]. wp_step.
    eapply wp_mono; [eapply (wp_SearchCache (best size) _ (set_clock true (set_empty (curr_addr s) c)) (L2' (best size))); [eapply arr_get_upd, Hc2|now apply cinv_clock]|].
    cbv beta. intros r s' Hres.
    assert (Hle2 : le (L2' (best size)) = curr_addr s :: le (L (best size))) by (unfold L2'; now rewrite decide_True).
    destruct (decide (lp (L2' (best size)) = [] /\ le (L2' (best size)) = [])) as [[_ He]|_]; [rewrite Hle2 in He; discriminate|].
    rewrite (proj2 (Z.eqb_neq r 0)) by (pose proof (slot_step_pos _ _ _ _ _ _ _ Hres); lia).
    exact (wp_kmalloc_found s2' L2' C size (ie s) r (set_empty (curr_addr s) c) _ s' Hr2 Hs Hc2 eq_refl Hres).
  - rewrite (proj2 (Z.eqb_neq r 0)) by (pose proof (slot_step_pos _ _ _ _ _ _ _ Hres); lia).
    exact (wp_kmalloc_found s L C size (ie s) r c _ s' Hr Hs Hc eq_refl Hres).
Qed.

(** * [kfree] *)

(** The slab of a live slot is the only one that covers it. *)
Lemma slot_covers s L i a k p d : wf s L -> slot_at s L i a k p d -> forall b, b ∈ all (L i) -> covers s i p a b.
Proof.
  intros Hwf Hat b Hb. destruct (slot_ok s L Hwf _ _ _ _ _ Hat) as (Hok & ? & ? & _). destruct Hat as [Hi Ha Hsl _ _].
  destruct (cache_get s L Hwf i Hi) as (c & _ & HI & _). destruct (all_ok _ _ _ _ _ b HI Hb) as (e & He & Hoke).
  exists e. split; [done|]. unfold in_slab. destruct (const_bounds i Hi) as (? & ? & _). pose proof (so_end _ _ _ Hoke). pose proof (so_start _ _ _ Hoke).
  unfold PAGE_SIZE in *. rewrite wrap64_small by lia. case_bool_decide as E.
  - subst b. simplify_eq. apply andb_true_iff. split; [apply Z.leb_le|apply Z.ltb_lt]; lia.
  - apply andb_false_iff. rewrite Z.leb_gt, Z.ltb_ge. destruct (wf_mem s L Hwf i i b a e d Hi Hi Hb Ha E He Hsl); unfold PAGE_SIZE in *; lia.
Qed.

Lemma slot_not_empty st m i c l a d k : cinv st m i c l -> a ∈ all l -> st !! a = Some d -> 0 <= k < num_slots d -> slot_used d k = true -> a ∈ lf l ++ lp l.
Proof.
  intros HI Ha Hd Hk Hu. unfold all in Ha. rewrite app_assoc in Ha. apply elem_of_app in Ha as [?|He]; [done|].
  destruct (ci_E _ _ _ _ _ HI a He) as (d0 & ? & Hok & Hem). simplify_eq. unfold is_empty in Hem.
  pose proof (used_count_pos d k (so_bits _ _ _ Hok) Hk Hu). rewrite (bo_count d (so_bits _ _ _ Hok)) in Hem. lia.
Qed.

(** The slot given back under the lock is no block any more. *)
Lemma put_rep s L C p size c b0 s1 s' : rep s L C -> C !! p = Some size -> arr_get (caches s) (best size) = Some c ->
  s1 = Heap (slabs s) (<[Z.to_nat (best size) := set_clock true c]> (caches s)) (curr_addr s) b0 (ram s) ->
  slot_step true (best size) s1 (set_clock true c) (L (best size)) p s' ->
  exists c', arr_get (caches s') (best size) = Some c' /\ ie s' = b0 /\ ram s' = ram s /\
  forall b, exists L', rep (set_ie b (set_caches (<[Z.to_nat (best size) := set_clock false c']> (caches s')) s')) L' (delete p C).
Proof.
  intros Hr HC Hc -> (a & k & d & d' & c' & l' & st' & -> & Hcl & HI & Hp & Ha & Hfr & Ht & Hu & Epa). cbn [slabs caches ram set_slabs set_caches] in *.
  pose proof (rp_wf s L C Hr) as Hwf. rewrite list_insert_insert_eq. exists c'. split_and!; try done; [now apply arr_get_upd with c|].
  intros b. cbn [caches set_slabs set_caches]. rewrite list_insert_insert_eq. exists (λ j, if decide (j = best size) then l' else L j). split.
  - exact (wf_step s L Hwf true (best size) b a k d d' c' l' st' HI Hp Hfr Ht Hu).
  - intros q n [_ Hq]%lookup_delete_Some. eapply rp_size; eauto.
  - intros q j. rewrite (live_same _ (Heap st' (<[Z.to_nat (best size) := set_clock false c']> (caches s)) (curr_addr s) b0 (ram s))) by done.
    rewrite (live_step s L Hwf true (best size) b0 p a k d d' c' l' st' HI Hp Ha Ht Hu Epa). rewrite (rp_live s L C Hr). split.
    + intros [(? & _)|(Hn & n & Hq & <-)]; [done|]. exists n. rewrite lookup_delete_Some. auto.
    + intros (n & [Hn Hq]%lookup_delete_Some & <-). right. eauto.
Qed.

Lemma lists_eta l : Lists (lf l) (lp l) (le l) = l.
Proof. now destruct l. Qed.

Lemma kfree_ok s L C p size : rep s L C -> C !! p = Some size ->
  wp (kfree p size) (λ _ s', ie s' = ie s /\ written (ram s) (ram s') p size SLAB_GARBAGE_BYTE /\ exists L', rep s' L' (delete p C)) s.
Proof.
  intros Hr HC. destruct (rep_block s L C p size Hr HC) as ((a & k & d & Hat & Hu) & Hs & _). destruct (rep_mapped s L C p size Hr HC) as [Hmap _].
  unfold kfree. rewrite (proj2 (Z.eqb_neq size 0)) by lia. wp_step. apply wp_heap_memset; [lia|done|unfold is_byte, SLAB_GARBAGE_BYTE; lia|]. intros m' Hm'.
  assert (Hr1 : rep (set_ram m' s) L C).
  { split; [|apply Hr|].
    - rewrite <- (set_ie_id (ie s) (set_ram m' s)) by done. apply wf_ram; [apply Hr|]. intros x. eapply written_mapped; eauto.
    - intros q j. rewrite (live_same _ s) by done. apply Hr. }
  pose proof (rp_wf _ _ _ Hr1) as Hwf. assert (Hat1 : slot_at (set_ram m' s) L (best size) a k p d) by (destruct Hat; now split).
  set (s1 := set_ram m' s) in *. pose proof (sl_idx _ _ _ _ _ _ _ Hat1) as Hi. destruct (cache_get s1 L Hwf (best size) Hi) as (c & Hc & HI & Hcl).
  pose proof (slot_not_empty _ _ _ _ _ a d k HI (sl_in _ _ _ _ _ _ _ Hat1) (sl_slab _ _ _ _ _ _ _ Hat1) (sl_range _ _ _ _ _ _ _ Hat1) Hu) as Hin.
  wp_step. eapply wp_GetBestCacheIndex; [done|]. rewrite (proj2 (Z.eqb_neq (best size) NO_CACHE)) by (unfold NO_CACHE; lia).
  wp_step. eapply wp_cache_at; [exact Hc|]. wp_step.
  assert (Hnd : NoDup (lf (L (best size)) ++ lp (L (best size)))).
  { pose proof (ci_nodup _ _ _ _ _ HI) as Hn. unfold all in Hn. rewrite app_assoc in Hn. now apply list.NoDup_app in Hn as (? & _). }
  eapply (wp_SearchSlab s1 (best size) p a Hi); [apply (ci_full _ _ _ _ _ HI)|apply (ci_partial _ _ _ _ _ HI)|done| |done|].
  { intros b Hb. eapply slot_covers; [done..|]. unfold all. rewrite app_assoc. apply elem_of_app. auto. }
  assert (Ha0 : a <> 0). { pose proof (wf_addr s1 L Hwf a) as H. rewrite (sl_slab _ _ _ _ _ _ _ Hat1) in H. specialize (H ltac:(eauto)). lia. }
  rewrite (proj2 (Z.eqb_neq a 0)) by done. wp_step. apply wp_gets. wp_step. apply wp_modify. wp_step. eapply wp_lock; [exact Hc|done|]. wp_step.
  cbn [fset if_flag heap_if set_caches slabs caches curr_addr ie ram set_ie s1 set_ram].
  eapply wp_mono; [eapply (wp_kfree_slot (best size) _ (set_clock true c) (lf (L (best size))) (lp (L (best size))) (le (L (best size))) a d k p); [eapply arr_get_upd, Hc| |exact Hin|apply Hat|apply Hat|done|apply Hat]|].
  { apply cinv_clock. rewrite lists_eta. exact HI. }
  cbv beta. intros _ s' Hst. rewrite lists_eta in Hst.
  destruct (put_rep s1 L C p size c false _ s' Hr1 HC Hc eq_refl Hst) as (c' & Hc' & Eie & Eram & Hrep).
  wp_step. unfold unlock_cache. eapply wp_cache_upd; [exact Hc'|]. apply wp_when. cbn [fget if_flag heap_if ie set_ram s1].
  destruct (ie s) eqn:Ei.
  - apply wp_modify. split; [done|]. split; [cbn; rewrite Eram; exact Hm'|]. exact (Hrep true).
  - split; [exact Eie|]. split; [cbn; rewrite Eram; exact Hm'|]. destruct (Hrep false) as [L' HL']. exists L'. rewrite set_ie_id in HL' by exact Eie. exact HL'.
Qed.

(** [InitSlabAlloc] builds a heap with no live block. *)

(** The caches with their sizes set. *)
Definition sized_cache (j : nat) (c : cache_t) : cache_t := Cache (sz (Z.of_nat j)) (full_slabs c) (partial_slabs c) (empty_slabs c) (clock c).
Definition sized (s : heap) : heap := set_caches (imap sized_cache (caches s)) s.

Lemma sized_insert i x (l : list cache_t) : (i < length l)%nat -> imap sized_cache (<[i := x]> l) = <[i := sized_cache i x]> (imap sized_cache l).
Proof.
  intros Hi. apply list_eq. intros j. rewrite list_lookup_imap. destruct (decide (j = i)) as [->|Hn].
  - rewrite !list_lookup_insert_eq by (rewrite ?length_imap; lia). done.
  - rewrite !list_lookup_insert_ne, list_lookup_imap by done. done.
Qed.

Section Init.
Context (prim uninit : Z -> Z) (m : memory) (start0 : Z).
Context (Hstart : 0 < start0) (Hroom : start0 + 3000 < 2 ^ 64) (Hzero : forall x, uninit x = 0).
Context (Hmem : forall i, 0 <= i < 12 -> mem_ok m i (prim i)).
Context (Hapart : forall i j, 0 <= i < 12 -> 0 <= j < 12 -> i <> j -> apart (prim i) (pg i * PAGE_SIZE) (prim j) (pg j * PAGE_SIZE)).

(** The first [i] caches are built. *)
Record built (i : Z) (s : heap) (L : Z -> lists) : Prop := {
  bt_wf : wf (sized s) L;
  bt_live p j : ~ live (sized s) L p j;
  bt_curr : curr_addr s <= start0 + 200 * i;
  bt_ram : ram s = m;
  bt_ie : ie s = true;
  bt_todo j : i <= j < 12 -> arr_get (caches s) j = Some (Cache 0 0 0 0 false);
  bt_done j c : 0 <= j < i -> arr_get (caches s) j = Some c -> csize c = sz j;
  bt_start j b e : 0 <= j < 12 -> b ∈ all (L j) -> slabs s !! b = Some e -> j < i /\ start e = prim j }.

Lemma sized_get s j : arr_get (caches (sized s)) j = sized_cache (Z.to_nat j) <$> arr_get (caches s) j.
Proof. unfold arr_get. cbn. destruct (j <? 0); [done|]. apply list_lookup_imap. Qed.

Lemma boot_get i c : arr_get (caches (sized (slab_boot m))) i = Some c -> 0 <= i < 12 /\ c = Cache (sz i) 0 0 0 false.
Proof.
  rewrite sized_get. unfold arr_get. destruct (Z.ltb_spec i 0); [done|]. destruct (caches (slab_boot m) !! Z.to_nat i) as [c0|] eqn:E; [|done].
  pose proof (lookup_lt_Some _ _ _ E) as Hlt. cbn in Hlt. apply lookup_replicate_1 in E as [-> _]. cbn. intros [= <-].
  unfold sized_cache. cbn. rewrite Z2Nat.id by lia. split; [lia|done].
Qed.

Lemma sized_boot : built 0 (set_curr start0 (slab_boot m)) (λ _, Lists [] [] []).
Proof.
  split; try done.
  - split; cbn; try done; try set_solver.
    + intros i c Hic. apply boot_get in Hic as [Hlt ->].
      split; [|done]. split; cbn; try done; try lia; [constructor|set_solver..].
    + intros a [? Ha]. now rewrite lookup_empty in Ha.
  - intros p j (a & k & d & [_ Hin _ _ _] & _). cbn in Hin. set_solver.
  - cbn. lia.
  - intros j Hj. cases12 j; reflexivity.
  - lia.
Qed.

Lemma wp_init_step i s L : built i s L -> 0 <= i < 12 ->
  wp (InitSlabAlloc_step prim uninit i) (λ r s', r = inl (i + 1) /\ exists L', built (i + 1) s' L') s.
Proof.
  intros [] Hi. destruct (const_bounds i Hi) as (_ & _ & _ & _ & Hsl). destruct (bm_len_eq i Hi) as [Hbm Hbr].
  pose proof (bt_todo0 i ltac:(lia)) as Hc.
  unfold InitSlabAlloc_step. rewrite (proj2 (Z.ltb_lt i num_cache)) by (unfold num_cache; lia).
  wp_step. apply wp_size_of; [done|]. wp_step. eapply wp_cache_upd; [exact Hc|]. wp_step. apply wp_pages_of; [done|]. wp_step. wp_step.
  wp_step. eapply wp_cache_upd; [eapply arr_get_upd, Hc|]. cbn [caches set_caches]. rewrite list_insert_insert_eq.
  wp_step. unfold CalculateBitMapSize. wp_step. apply wp_pages_of; [done|]. wp_step. apply wp_size_of; [done|]. rewrite Hsl, Hbm. apply wp_ret.
  wp_step. apply wp_modify. wp_step. apply wp_modify. apply wp_ret. split; [done|].
  pose proof (wf_curr _ _ bt_wf0) as Hcur. change (curr_addr (sized s)) with (curr_addr s) in Hcur.
  cbn [slabs caches curr_addr ie ram set_slabs set_caches set_curr set_empty csize full_slabs partial_slabs empty_slabs clock].
  unfold SIZEOF_SLAB in *. rewrite wrap64_small by lia. rewrite Hzero.
  set (n := curr_addr s) in *. set (d := Slab (prim i) (slots i) (slots i) 0 (bm_len i) (replicate (Z.to_nat (bm_len i)) 0)).
  assert (Hc' : arr_get (caches (sized s)) i = Some (Cache (sz i) 0 0 0 false)) by (rewrite sized_get, Hc; cbn; unfold sized_cache; cbn; now rewrite Z2Nat.id by lia).
  assert (Hfr : forall j b e, 0 <= j < 12 -> b ∈ all (L j) -> slabs (sized s) !! b = Some e -> apart (prim i) (pg i * PAGE_SIZE) (start e) (pg j * PAGE_SIZE)).
  { intros j b e Hj Hb He. destruct (bt_start0 j b e Hj Hb He) as [Hlt ->]. apply Hapart; lia. }
  assert (Hm : mem_ok (ram (sized s)) i (prim i)) by (cbn; rewrite bt_ram0; auto).
  pose proof (wf_add (sized s) L bt_wf0 i (prim i) _ true Hc' Hm Hfr) as Hwf. pose proof (live_add (sized s) L bt_wf0 i (prim i) (Cache (sz i) 0 0 0 false) true) as Hlive.
  pose proof (add_all (sized s) L i) as Hall. pose proof (add_notin (sized s) L bt_wf0) as Hnot. cbv zeta in *. cbn [empty_slabs] in *.
  change (curr_addr (sized s)) with n in *. change (slabs (sized s)) with (slabs s) in *. fold d in Hwf, Hlive.
  set (L' := λ j, if decide (j = i) then Lists (lf (L i)) (lp (L i)) (n :: le (L i)) else L j) in *.
  match goal with |- exists L', built _ ?x L' => set (s' := x) end.
  assert (Es : sized s' = Heap (<[n := d]> (slabs s)) (<[Z.to_nat i := set_empty n (Cache (sz i) 0 0 0 false)]> (caches (sized s))) (n + SIZEOF_SLAB + 8 * bm_len i) true (ram (sized s))).
  { unfold sized, s', set_caches, set_curr, set_slabs, SIZEOF_SLAB. cbn [slabs caches curr_addr ie ram]. f_equal; [|done]. rewrite sized_insert by (pose proof (arr_get_Some_lt _ _ _ Hc); lia). unfold sized_cache at 1. cbn. now rewrite Z2Nat.id by lia. }
  exists L'. split.
  - rewrite Es. exact Hwf.
  - intros p j. rewrite Es, Hlive. apply bt_live0.
  - cbn. lia.
  - done.
  - done.
  - intros j Hj. cbn. rewrite arr_get_insert by (eapply arr_get_Some_lt; eauto). rewrite decide_False by lia. apply bt_todo0. lia.
  - intros j c Hj. cbn. rewrite arr_get_insert by (eapply arr_get_Some_lt; eauto). destruct (decide (i = j)) as [<-|]; [intros [= <-]; done|]. apply bt_done0. lia.
  - intros j b e Hj. cbn. intros [[-> ->]|Hb]%Hall; [| |done].
    + rewrite lookup_insert_eq. intros [= <-]. split; [lia|done].
    + rewrite lookup_insert_ne by (intros <-; now apply Hnot in Hb). intros He. destruct (bt_start0 j b e Hj Hb He). split; [lia|done].
Qed.

Lemma sized_id s L : built 12 s L -> sized s = s.
Proof.
  intros []. unfold sized. destruct s as [st cs cu e r]. unfold set_caches. cbn in *. f_equal. apply list_eq. intros j. rewrite list_lookup_imap.
  destruct (cs !! j) as [c|] eqn:E; [|done]. cbn. f_equal. unfold sized_cache.
  pose proof (wf_len _ _ bt_wf0) as Hl. cbn in Hl. rewrite length_imap in Hl. pose proof (lookup_lt_Some _ _ _ E).
  rewrite <- (bt_done0 (Z.of_nat j) c); [now destruct c|lia|]. unfold arr_get. destruct (Z.ltb_spec (Z.of_nat j) 0); [lia|]. now rewrite Nat2Z.id.
Qed.

Lemma init_ok : wp (InitSlabAlloc prim uninit start0) (λ _ s, ram s = m /\ ie s = true /\ exists L, rep s L ∅) (slab_boot m).
Proof.
  unfold InitSlabAlloc. rewrite wp_bind, wp_modify. set (s0 := set_curr start0 (slab_boot m)).
  eapply (wp_loop (λ n i s, 0 <= i <= 12 /\ Z.of_nat n = 12 - i /\ exists L, built i s L) 12); [|lia|].
  - split; [lia|]. split; [lia|]. eexists. apply sized_boot.
  - intros n i s (Hi & Hn & L & Hb). destruct (decide (i < 12)) as [Hlt|Hge].
    + eapply wp_mono; [apply (wp_init_step i s L Hb); lia|]. cbv beta. intros r s' (-> & L' & Hb'). exists (Nat.pred n). split; [lia|]. split; [lia|]. split; [lia|]. eauto.
    + assert (i = 12) as -> by lia. unfold InitSlabAlloc_step. cbn. pose proof (sized_id s L Hb) as Es. destruct Hb. split; [done|]. split; [done|].
      exists L. rewrite Es in bt_wf0, bt_live0. split; [exact bt_wf0|intros p size H; now rewrite lookup_empty in H|].
      intros p j. split; [intros H; destruct (bt_live0 p j H)|]. intros (size & H & _). now rewrite lookup_empty in H.
Qed.
End Init.

(** What the kernel heap promises its clients. *)

(** * The slabs of a cache, by its lists *)

Fixpoint walk_slabs (st : gmap Z slab_t) (fuel : nat) (p : Z) : list Z :=
  match fuel with
  | O => []
  | S fuel => match st !! p with Some d => p :: walk_slabs st fuel (next d) | None => [] end
  end.
Definition owned (s : heap) (j : Z) : list Z :=
  match arr_get (caches s) j with
  | Some c => walk_slabs (slabs s) (size (slabs s)) (full_slabs c) ++ walk_slabs (slabs s) (size (slabs s)) (partial_slabs c) ++
              walk_slabs (slabs s) (size (slabs s)) (empty_slabs c)
  | None => []
  end.

Lemma walk_chain st l : st !! 0 = None -> forall fuel p, chain st p l -> (length l <= fuel)%nat -> walk_slabs st fuel p = l.
Proof.
  intros H0. induction l as [|a l IH]; intros [|fuel] p Hc Hl; cbn in *; try lia; [done|now rewrite Hc, H0|].
  destruct Hc as (-> & _ & d & -> & Hc). f_equal. apply IH; [done|lia].
Qed.

Lemma owned_all s L j : wf s L -> 0 <= j < 12 -> owned s j = all (L j).
Proof.
  intros Hwf Hj. destruct (cache_get s L Hwf j Hj) as (c & Hc & HI & _). unfold owned, all. rewrite Hc.
  assert (H0 : slabs s !! 0 = None) by (destruct (slabs s !! 0) eqn:E; [pose proof (wf_addr s L Hwf 0 ltac:(eauto)); lia|done]).
  pose proof (ci_nodup _ _ _ _ _ HI) as Hn. unfold all in Hn. apply list.NoDup_app in Hn as (Hn1 & _ & Hn). apply list.NoDup_app in Hn as (Hn2 & _ & Hn3).
  destruct HI. erewrite !walk_chain; eauto using slabs_length.
Qed.

(** [AddKernelPages] returned pages of no slab, and there is room for the
    descriptor of a new one. *)
Definition free_pages (s : heap) (i pa : Z) : Prop :=
  mem_ok (ram s) i pa /\ curr_addr s + 200 < 2 ^ 64 /\
  forall j b e, 0 <= j < 12 -> b ∈ owned s j -> slabs s !! b = Some e -> apart pa (pg i * PAGE_SIZE) (start e) (pg j * PAGE_SIZE).

Lemma free_pages_room s L i pa : wf s L -> free_pages s i pa -> room s L i pa.
Proof. intros Hwf (Hm & Hd & Ha). split; [done| |done]. intros j b e Hj Hb. rewrite <- (owned_all s L) in Hb by done. eauto. Qed.

(** A run that returned satisfies what is known of the code. *)
Lemma wp_result {A} (m : M heap A) Q s a s' : m s = Some (a, s') -> wp m Q s -> Q a s'.
Proof. unfold wp. now intros ->. Qed.

Lemma wp_returns {A} (m : M heap A) Q s : wp m Q s -> exists a s', m s = Some (a, s') /\ Q a s'.
Proof. apply wp_run. Qed.

(** * Runs *)

(** Memory for the twelve first slabs. *)
Record boot_pages (m : memory) (prim : Z -> Z) : Prop := {
  bp_mem i : 0 <= i < 12 -> mem_ok m i (prim i);
  bp_apart i j : 0 <= i < 12 -> 0 <= j < 12 -> i <> j -> apart (prim i) (pg i * PAGE_SIZE) (prim j) (pg j * PAGE_SIZE) }.

(** The heap and the blocks its clients hold: built at boot, then any
    sequence of allocations, frees of blocks held, and stores into them. *)
Inductive run : heap -> gmap Z Z -> Prop :=
| run_init m prim uninit st s : boot_pages m prim -> (forall x, uninit x = 0) -> 0 < st -> st + 3000 < 2 ^ 64 ->
    InitSlabAlloc prim uninit st (slab_boot m) = Some (tt, s) -> run s ∅
| run_alloc s C pages size p s' : run s C -> 0 < size <= 4096 -> free_pages s (best size) (pages (pg (best size))) ->
    kmalloc pages size s = Some (p, s') -> run s' (<[p := size]> C)
| run_free s C p size s' : run s C -> C !! p = Some size -> kfree p size s = Some (tt, s') -> run s' (delete p C)
| run_store s C p size x v : run s C -> C !! p = Some size -> p <= x < p + size -> run (set_ram (<[x := v]> (ram s)) s) C.

Lemma run_rep s C : run s C -> exists L, rep s L C.
Proof.
  induction 1 as [m prim uninit st s [] Hz H0 Hlt E | s C pages size p s' _ [L Hr] Hs Hf E | s C p size s' _ [L Hr] HC E | s C p size x v _ [L Hr] HC Hx].
  - pose proof (init_ok prim uninit m st H0 Hlt Hz bp_mem0 bp_apart0) as Hw. apply (wp_result _ _ _ _ _ E) in Hw as (_ & _ & HL). exact HL.
  - pose proof (slab_kmalloc_ok s L C pages size Hr Hs (free_pages_room _ _ _ _ (rp_wf _ _ _ Hr) Hf)) as Hw. apply (wp_result _ _ _ _ _ E) in Hw as (_ & _ & _ & _ & HL). exact HL.
  - pose proof (kfree_ok s L C p size Hr HC) as Hw. apply (wp_result _ _ _ _ _ E) in Hw as (_ & _ & HL). exact HL.
  - exists L. destruct Hr as [Hwf Hsz Hl]. split; [|done|].
    + rewrite <- (set_ie_id (ie s) (set_ram (<[x := v]> (ram s)) s)) by done. apply wf_ram; [done|]. intros y Hy. destruct (decide (y = x)) as [->|]; [rewrite lookup_insert_eq; eauto|now rewrite lookup_insert_ne].
    + intros q j. now rewrite (live_same _ s).
Qed.

(** * The properties *)

(** C26. After any sequence of allocations, frees and stores, the blocks held
    are pairwise disjoint; [kmalloc] of at most a page returns a new block, never null, with
    its bytes zero, and changes no other byte; [kfree] of a block
    held returns, having overwritten the block and nothing else; both restore
    the interrupt flag. *)
Theorem slab_heap_safe s C : run s C ->
  (forall p n q m, C !! p = Some n -> C !! q = Some m -> p <> q -> apart p n q m) /\
  (forall pages size, 0 < size <= 4096 -> free_pages s (best size) (pages (pg (best size))) ->
     exists p s', kmalloc pages size s = Some (p, s') /\ 0 < p /\ C !! p = None /\ ie s' = ie s /\ written (ram s) (ram s') p size 0) /\
  (forall p size, C !! p = Some size ->
     exists s', kfree p size s = Some (tt, s') /\ ie s' = ie s /\ written (ram s) (ram s') p size SLAB_GARBAGE_BYTE).
Proof.
  intros [L Hr]%run_rep. split; [|split].
  - intros p n q m. now apply (rep_apart s L).
  - intros pages size Hs Hf. pose proof (slab_kmalloc_ok s L C pages size Hr Hs (free_pages_room _ _ _ _ (rp_wf _ _ _ Hr) Hf)) as Hw.
    destruct (wp_returns _ _ _ Hw) as (p & s2 & E2 & ? & ? & ? & ? & _). exists p, s2. auto.
  - intros p size HC. pose proof (kfree_ok s L C p size Hr HC) as Hw. destruct (wp_returns _ _ _ Hw) as ([] & s2 & E2 & ? & ? & _). exists s2. auto.
Qed.

(** A size larger than a page has no cache. *)
Lemma kmalloc_too_large pages s C size : run s C -> 4096 < size -> kmalloc pages size s = Some (0, s).
Proof.
  intros [L Hr]%run_rep Hs. assert (Hw : wp (kmalloc pages size) (λ p s', p = 0 /\ s' = s) s).
  { unfold kmalloc. rewrite wp_bind. eapply wp_GetBestCacheIndex; [apply Hr|]. now rewrite best_none. }
  destruct (wp_returns _ _ _ Hw) as (p & s' & E & -> & ->). exact E.
Qed.

(** * A run *)

Definition demo_prim (i : Z) : Z := 0x100000 + 0x40000 * i.
Definition demo_boot (m : memory) : heap :=
  match InitSlabAlloc demo_prim (λ _, 0) 0x10000 (slab_boot m) with Some (_, s) => s | None => slab_boot m end.

Lemma demo_boot_run m : InitSlabAlloc demo_prim (λ _, 0) 0x10000 (slab_boot m) = Some (tt, demo_boot m).
Proof. vm_compute. reflexivity. Qed.

Lemma mem_exists : exists m : memory, forall x, 0x100000 <= x < 0x800000 -> is_Some (m !! x).
Proof.
  exists (store_bytes ∅ 0x100000 (replicate (Z.to_nat 0x700000) 0)). intros x Hx. rewrite store_bytes_lookup, length_replicate, Z2Nat.id by lia.
  rewrite decide_True by lia. apply lookup_lt_is_Some. rewrite length_replicate. lia.
Qed.

Lemma demo_mem_ok m i pa : (forall x, 0x100000 <= x < 0x800000 -> is_Some (m !! x)) -> 0 <= i < 12 -> 0x100000 <= pa <= 0x700000 -> mem_ok m i pa.
Proof. intros Hm Hi Hpa. destruct (const_bounds i Hi) as (_ & Hp & _). unfold PAGE_SIZE. split; unfold PAGE_SIZE; [lia..|]. intros x Hx. apply Hm. lia. Qed.

Lemma demo_pages m : (forall x, 0x100000 <= x < 0x800000 -> is_Some (m !! x)) -> boot_pages m demo_prim.
Proof.
  intros Hm. split.
  - intros i Hi. apply demo_mem_ok; [done..|]. unfold demo_prim. lia.
  - intros i j Hi Hj Hn. destruct (const_bounds i Hi) as (_ & ? & _), (const_bounds j Hj) as (_ & ? & _). unfold apart, demo_prim, PAGE_SIZE. lia.
Qed.

Lemma demo_free m : (forall x, 0x100000 <= x < 0x800000 -> is_Some (m !! x)) -> free_pages (demo_boot m) (best 100) 0x700000.
Proof.
  intros Hm. destruct (best_fits 100 ltac:(lia)) as [Hi _]. split; [apply demo_mem_ok; [done..|lia]|]. split; [vm_compute; done|].
  assert (H : forall j, 0 <= j < 12 -> forallb (λ b, match slabs (demo_boot m) !! b with Some e => start e + 0x20000 <=? 0x700000 | None => true end) (owned (demo_boot m) j) = true).
  { intros j Hj. cases12 j; vm_compute; reflexivity. }
  intros j b e Hj Hb He. specialize (H j Hj). rewrite forallb_forall in H. specialize (H b ltac:(now apply list_elem_of_In)). rewrite He in H.
  destruct (const_bounds j Hj) as (_ & ? & _). unfold apart, PAGE_SIZE. lia.
Qed.

(** A block is allocated, and given back. *)
Lemma slab_heap_safe_witness : exists s p s1 s2, run s ∅ /\ kmalloc (λ _, 0x700000) 100 s = Some (p, s1) /\ run s1 {[p := 100]} /\
  kfree p 100 s1 = Some (tt, s2) /\ run s2 ∅ /\ ram s2 !! p = Some SLAB_GARBAGE_BYTE.
Proof.
  destruct mem_exists as [m Hm].
  assert (R : run (demo_boot m) ∅) by (apply (run_init m demo_prim (λ _, 0) 0x10000); [now apply demo_pages|done|lia|lia|apply demo_boot_run]).
  destruct (slab_heap_safe _ _ R) as (_ & Hk & _). destruct (Hk (λ _, 0x700000) 100 ltac:(lia) (demo_free m Hm)) as (p & s1 & E1 & Hp & _).
  assert (R1 : run s1 {[p := 100]}) by (apply (run_alloc _ ∅ (λ _, 0x700000) 100 p s1 R ltac:(lia) (demo_free m Hm) E1)).
  destruct (slab_heap_safe _ _ R1) as (_ & _ & Hf). destruct (Hf p 100) as (s2 & E2 & _ & Hw); [apply lookup_singleton_eq|].
  exists (demo_boot m), p, s1, s2. split; [done|]. split; [done|]. split; [done|]. split; [done|]. split.
  - rewrite <- (delete_singleton_eq p 100). eapply run_free; [exact R1|apply lookup_singleton_eq|exact E2].
  - rewrite (Hw p). rewrite decide_True by lia. done.
Defined.
