(* ===== verification/Ext2.v ===== *)
(** The ext2 file system: its data, the block buffers it works on, and how
    numbers on disk become types, permissions and flags
    (src/file_system/ext2_types.h, ext2_defs.h, ext2_helpers.c).

    The buffer cache is what Buffer.v implements, seen from its clients: the
    cached blocks with their contents, reference counts and dirty marks, over
    the blocks of the volume. A block that is not cached takes, when the cache
    is at its capacity, the place of an unreferenced one chosen by [victim],
    which is written first if it is dirty. In-memory inodes are a store, so
    that a directory and an entry of it may be the same inode. Access to a
    block outside the volume, to a buffer that is not cached and past the end
    of a buffer is undefined; the device does not fail. *)

From S2P Require Import Prelude BitMath Bytes.

(** * Data *)

Record ext2_block_group_t := Bg {
  block_bitmap : Z; inode_bitmap : Z; inode_table : Z;
  free_blocks_count : Z; free_inodes_count : Z; used_dirs_count : Z }.

Record ext2_inode_data_t := InoData {
  inode_number : Z; block_group : Z; disk_offset : Z;
  ref_count : Z; changed_at : Z; modified_at : Z; accessed_at : Z; i_blocks : Z;
  i_generation : Z; i_file_acl : Z; i_dir_acl : Z; i_faddr : Z; i_osd1 : Z; i_osd2 : list Z; i_dtime : Z;
  i_block : list Z }.

(** [inode_t] with its [fs_specific]. *)
Record inode_t := Inode {
  owner_id : Z; group_id : Z; flags : Z; type : Z; isize : Z; permissions : Z; dev_id : Z;
  data : ext2_inode_data_t }.

(** A cached block. *)
Record buffer := Buf { refs : Z; dirty : bool; bytes : list Z }.

Record ext2 := Ext2 {
  disk : gmap Z (list Z);          (** the blocks on the device *)
  bufs : gmap Z buffer;
  cache_lock : bool;               (** buffer_cache.lock, once bread left it held *)
  free_blocks : Z; free_inodes : Z;
  bgdt : list ext2_block_group_t;
  inodes : gmap Z inode_t;
  io_inflight : Z; unmounting : bool;
  inode_alloc_lock : bool;
  vol_state : Z;
  clock : nat }.                   (** how often the clock has been read *)

(** What mounting fixes: fields of [superblock_t], its device and [ext2_info_t]. *)
Class Volume := Vol {
  block_size : Z; sector_size : Z; blocks_per_group : Z; inodes_per_group : Z; inode_size : Z;
  first_data_block : Z; block_group_count : Z }.

(** The rest of the kernel: whether pages are left for a buffer, which
    unreferenced buffer makes room, the address of a new inode (0 is none),
    whether [kmalloc] succeeds for a small object, the clock, and the bytes of
    memory that follow a block's buffer. *)
Class Kernel := Kern {
  page_free : gmap Z buffer -> bool;
  victim : gmap Z buffer -> option Z;
  new_inode : gmap Z inode_t -> Z;
  small_free : ext2 -> bool;
  rtc : nat -> Z;
  after : Z -> list Z }.

(** * Updates *)

Definition set_free_blocks_count v g := Bg (block_bitmap g) (inode_bitmap g) (inode_table g) v (free_inodes_count g) (used_dirs_count g).
Definition set_free_inodes_count v g := Bg (block_bitmap g) (inode_bitmap g) (inode_table g) (free_blocks_count g) v (used_dirs_count g).
Definition set_used_dirs_count v g := Bg (block_bitmap g) (inode_bitmap g) (inode_table g) (free_blocks_count g) (free_inodes_count g) v.

Definition set_inode_number v d := InoData v (block_group d) (disk_offset d) (ref_count d) (changed_at d) (modified_at d) (accessed_at d) (i_blocks d) (i_generation d) (i_file_acl d) (i_dir_acl d) (i_faddr d) (i_osd1 d) (i_osd2 d) (i_dtime d) (i_block d).
Definition set_block_group v d := InoData (inode_number d) v (disk_offset d) (ref_count d) (changed_at d) (modified_at d) (accessed_at d) (i_blocks d) (i_generation d) (i_file_acl d) (i_dir_acl d) (i_faddr d) (i_osd1 d) (i_osd2 d) (i_dtime d) (i_block d).
Definition set_disk_offset v d := InoData (inode_number d) (block_group d) v (ref_count d) (changed_at d) (modified_at d) (accessed_at d) (i_blocks d) (i_generation d) (i_file_acl d) (i_dir_acl d) (i_faddr d) (i_osd1 d) (i_osd2 d) (i_dtime d) (i_block d).
Definition set_ref_count v d := InoData (inode_number d) (block_group d) (disk_offset d) v (changed_at d) (modified_at d) (accessed_at d) (i_blocks d) (i_generation d) (i_file_acl d) (i_dir_acl d) (i_faddr d) (i_osd1 d) (i_osd2 d) (i_dtime d) (i_block d).
Definition set_changed_at v d := InoData (inode_number d) (block_group d) (disk_offset d) (ref_count d) v (modified_at d) (accessed_at d) (i_blocks d) (i_generation d) (i_file_acl d) (i_dir_acl d) (i_faddr d) (i_osd1 d) (i_osd2 d) (i_dtime d) (i_block d).
Definition set_modified_at v d := InoData (inode_number d) (block_group d) (disk_offset d) (ref_count d) (changed_at d) v (accessed_at d) (i_blocks d) (i_generation d) (i_file_acl d) (i_dir_acl d) (i_faddr d) (i_osd1 d) (i_osd2 d) (i_dtime d) (i_block d).
Definition set_accessed_at v d := InoData (inode_number d) (block_group d) (disk_offset d) (ref_count d) (changed_at d) (modified_at d) v (i_blocks d) (i_generation d) (i_file_acl d) (i_dir_acl d) (i_faddr d) (i_osd1 d) (i_osd2 d) (i_dtime d) (i_block d).
Definition set_i_blocks v d := InoData (inode_number d) (block_group d) (disk_offset d) (ref_count d) (changed_at d) (modified_at d) (accessed_at d) v (i_generation d) (i_file_acl d) (i_dir_acl d) (i_faddr d) (i_osd1 d) (i_osd2 d) (i_dtime d) (i_block d).
Definition set_i_dtime v d := InoData (inode_number d) (block_group d) (disk_offset d) (ref_count d) (changed_at d) (modified_at d) (accessed_at d) (i_blocks d) (i_generation d) (i_file_acl d) (i_dir_acl d) (i_faddr d) (i_osd1 d) (i_osd2 d) v (i_block d).
Definition set_i_block v d := InoData (inode_number d) (block_group d) (disk_offset d) (ref_count d) (changed_at d) (modified_at d) (accessed_at d) (i_blocks d) (i_generation d) (i_file_acl d) (i_dir_acl d) (i_faddr d) (i_osd1 d) (i_osd2 d) (i_dtime d) v.

Definition set_data v n := Inode (owner_id n) (group_id n) (flags n) (type n) (isize n) (permissions n) (dev_id n) v.
Definition set_isize v n := Inode (owner_id n) (group_id n) (flags n) (type n) v (permissions n) (dev_id n) (data n).
Definition set_dev_id v n := Inode (owner_id n) (group_id n) (flags n) (type n) (isize n) (permissions n) v (data n).

Definition set_disk v s := Ext2 v (bufs s) (cache_lock s) (free_blocks s) (free_inodes s) (bgdt s) (inodes s) (io_inflight s) (unmounting s) (inode_alloc_lock s) (vol_state s) (clock s).
Definition set_bufs v s := Ext2 (disk s) v (cache_lock s) (free_blocks s) (free_inodes s) (bgdt s) (inodes s) (io_inflight s) (unmounting s) (inode_alloc_lock s) (vol_state s) (clock s).
Definition set_cache_lock v s := Ext2 (disk s) (bufs s) v (free_blocks s) (free_inodes s) (bgdt s) (inodes s) (io_inflight s) (unmounting s) (inode_alloc_lock s) (vol_state s) (clock s).
Definition set_free_blocks v s := Ext2 (disk s) (bufs s) (cache_lock s) v (free_inodes s) (bgdt s) (inodes s) (io_inflight s) (unmounting s) (inode_alloc_lock s) (vol_state s) (clock s).
Definition set_free_inodes v s := Ext2 (disk s) (bufs s) (cache_lock s) (free_blocks s) v (bgdt s) (inodes s) (io_inflight s) (unmounting s) (inode_alloc_lock s) (vol_state s) (clock s).
Definition set_bgdt v s := Ext2 (disk s) (bufs s) (cache_lock s) (free_blocks s) (free_inodes s) v (inodes s) (io_inflight s) (unmounting s) (inode_alloc_lock s) (vol_state s) (clock s).
Definition set_inodes v s := Ext2 (disk s) (bufs s) (cache_lock s) (free_blocks s) (free_inodes s) (bgdt s) v (io_inflight s) (unmounting s) (inode_alloc_lock s) (vol_state s) (clock s).
Definition set_io_inflight v s := Ext2 (disk s) (bufs s) (cache_lock s) (free_blocks s) (free_inodes s) (bgdt s) (inodes s) v (unmounting s) (inode_alloc_lock s) (vol_state s) (clock s).
Definition set_unmounting v s := Ext2 (disk s) (bufs s) (cache_lock s) (free_blocks s) (free_inodes s) (bgdt s) (inodes s) (io_inflight s) v (inode_alloc_lock s) (vol_state s) (clock s).
Definition set_inode_alloc_lock v s := Ext2 (disk s) (bufs s) (cache_lock s) (free_blocks s) (free_inodes s) (bgdt s) (inodes s) (io_inflight s) (unmounting s) v (vol_state s) (clock s).
Definition set_vol_state v s := Ext2 (disk s) (bufs s) (cache_lock s) (free_blocks s) (free_inodes s) (bgdt s) (inodes s) (io_inflight s) (unmounting s) (inode_alloc_lock s) v (clock s).
Definition set_clock v s := Ext2 (disk s) (bufs s) (cache_lock s) (free_blocks s) (free_inodes s) (bgdt s) (inodes s) (io_inflight s) (unmounting s) (inode_alloc_lock s) (vol_state s) v.

(** * Types, modes and flags *)

Definition VFS_TYPE_UNKNOWN : Z := 0.
Definition VFS_TYPE_FILE : Z := 1.
Definition VFS_TYPE_DIR : Z := 2.
Definition VFS_TYPE_SYMLINK : Z := 3.
Definition VFS_TYPE_CHARDEV : Z := 4.
Definition VFS_TYPE_BLOCKDEV : Z := 5.
Definition VFS_TYPE_FIFO : Z := 6.
Definition VFS_TYPE_SOCKET : Z := 7.

Definition EXT2ModeToType (mode : Z) : Z :=
  let m := Z.land mode 0xF000 in
  if m =? 0x8000 then VFS_TYPE_FILE else if m =? 0x4000 then VFS_TYPE_DIR else if m =? 0xA000 then VFS_TYPE_SYMLINK
  else if m =? 0x2000 then VFS_TYPE_CHARDEV else if m =? 0x6000 then VFS_TYPE_BLOCKDEV else if m =? 0x1000 then VFS_TYPE_FIFO
  else if m =? 0xC000 then VFS_TYPE_SOCKET else VFS_TYPE_UNKNOWN.

Definition EXT2TypeToMode (type : Z) : Z :=
  if type =? VFS_TYPE_FILE then 0x8000 else if type =? VFS_TYPE_DIR then 0x4000 else if type =? VFS_TYPE_SYMLINK then 0xA000
  else if type =? VFS_TYPE_CHARDEV then 0x2000 else if type =? VFS_TYPE_BLOCKDEV then 0x6000 else if type =? VFS_TYPE_FIFO then 0x1000
  else if type =? VFS_TYPE_SOCKET then 0xC000 else 0.

Definition EXT2TypeToFT (type : Z) : Z :=
  if type =? VFS_TYPE_FILE then 1 else if type =? VFS_TYPE_DIR then 2 else if type =? VFS_TYPE_SYMLINK then 7
  else if type =? VFS_TYPE_CHARDEV then 3 else if type =? VFS_TYPE_BLOCKDEV then 4 else if type =? VFS_TYPE_FIFO then 5
  else if type =? VFS_TYPE_SOCKET then 6 else 0.

Definition EXT2PremissionsToMod (permissions : Z) : Z := Z.land permissions 0xFFF.

(** [if (x & bit) flags |= flag;] *)
Definition map_flag (x bit flag acc : Z) : Z := if Z.land x bit =? 0 then acc else Z.lor acc flag.
Definition EXT2FlagsToVFSFlags (i_flags : Z) : Z :=
  map_flag i_flags 0x08 1 (map_flag i_flags 0x40 16 (map_flag i_flags 0x80 8 (map_flag i_flags 0x20 4 (map_flag i_flags 0x10 2 0)))).
Definition EXT2VFSFlagsToIFlags (flags : Z) : Z :=
  map_flag flags 1 0x08 (map_flag flags 16 0x40 (map_flag flags 8 0x80 (map_flag flags 4 0x20 (map_flag flags 2 0x10 0)))).

(** * Buffers *)

Definition BUFFER_CACHE_CAP : Z := 4096.

(** Bytes [off, off + n) of a list, and their replacement. *)
Definition sub (l : list Z) (off n : nat) : list Z := take n (drop off l).
Definition put (l : list Z) (off : nat) (bs : list Z) : list Z := take off l ++ bs ++ drop (off + length bs) l.

(** The cache lock is free unless [bread] gave up while holding it. *)
Definition cache_free : M ext2 unit := let* s := get in if cache_lock s then undef else ret tt.
Definition write_back (b : Z) (u : buffer) (s : ext2) : ext2 := if dirty u then set_disk (<[b := bytes u]> (disk s)) s else s.

Section Buffers.
Context `{Volume} `{Kernel}.

(** The buffer enters the cache with the device's contents. *)
Definition bread_fill (b : Z) : M ext2 bool :=
  let* s := get in
  let* l := of_option (disk s !! b) in
  modify (set_bufs (<[b := Buf 1 false l]> (bufs s)));;
  ret true.
(** False is NULL. *)
Definition bread (block_number : Z) : M ext2 bool :=
  let b := wrap32 block_number in
  cache_free;;
  let* s := get in
  match bufs s !! b with
  | Some u => modify (set_bufs (<[b := Buf (refs u + 1) (dirty u) (bytes u)]> (bufs s)));; ret true
  | None =>
      if negb (page_free (bufs s)) then ret false
      else if Z.of_nat (size (bufs s)) =? BUFFER_CACHE_CAP then
        match victim (bufs s) with
        | None => modify (set_cache_lock true);; ret false
        | Some v =>
            let* u := of_option (bufs s !! v) in
            modify (write_back v u);;
            modify (set_bufs (delete v (bufs s)));;
            bread_fill b
        end
      else bread_fill b
  end.
(** [bread] whose result is followed without a check. *)
Definition bread_use (b : Z) : M ext2 unit := let* ok := bread b in if ok then ret tt else undef.
Definition brelse (block_number : Z) : M ext2 unit :=
  let b := wrap32 block_number in
  cache_free;;
  let* s := get in
  match bufs s !! b with
  | Some u => modify (set_bufs (<[b := Buf (if 0 <? refs u then refs u - 1 else refs u) (dirty u) (bytes u)]> (bufs s)))
  | None => ret tt
  end.
Definition bwrite (block_number : Z) : M ext2 unit :=
  let b := wrap32 block_number in
  cache_free;;
  let* s := get in
  match bufs s !! b with
  | Some u => modify (set_bufs (<[b := Buf (refs u) true (bytes u)]> (bufs s)))
  | None => ret tt
  end.
Definition bflush (block_number : Z) : M ext2 unit :=
  let b := wrap32 block_number in
  cache_free;;
  let* s := get in
  match bufs s !! b with
  | Some u => modify (write_back b u);; modify (set_bufs (<[b := Buf (refs u) false (bytes u)]> (bufs s)))
  | None => ret tt
  end.
Definition bflush_all : M ext2 unit :=
  cache_free;;
  modify (λ s, set_bufs ((λ u, Buf (refs u) false (bytes u)) <$> bufs s) (map_fold write_back s (bufs s))).
Definition binvalidate (block_number : Z) : M ext2 unit :=
  cache_free;;
  modify (λ s, set_bufs (delete (wrap32 block_number) (bufs s)) s).
(** Stepping to the LRU head's predecessor faults when nothing is cached. *)
Definition bclean_all : M ext2 unit :=
  cache_free;;
  let* s := get in
  if decide (bufs s = ∅) then undef else modify (λ s, set_bufs ∅ (map_fold write_back s (bufs s))).

(** Memory accesses through the pointer [bread] returned. *)
Definition buf_read (b off n : Z) : M ext2 (list Z) :=
  let* s := get in
  let* u := of_option (bufs s !! wrap32 b) in
  if (0 <=? off) && (off + n <=? Z.of_nat (length (bytes u))) then ret (sub (bytes u) (Z.to_nat off) (Z.to_nat n)) else undef.
Definition buf_write (b off : Z) (bs : list Z) : M ext2 unit :=
  let* s := get in
  let* u := of_option (bufs s !! wrap32 b) in
  if (0 <=? off) && (off + Z.of_nat (length bs) <=? Z.of_nat (length (bytes u)))
  then modify (set_bufs (<[wrap32 b := Buf (refs u) (dirty u) (put (bytes u) (Z.to_nat off) bs)]> (bufs s))) else undef.
Definition get_le (n : nat) (b off : Z) : M ext2 Z := let* l := buf_read b off (Z.of_nat n) in ret (le_decode l).
Definition put_le (n : nat) (b off v : Z) : M ext2 unit := buf_write b off (le_encode n v).

(** * Inodes in memory, block groups, the clock *)

Definition ino_at (p : Z) : M ext2 inode_t := let* s := get in of_option (inodes s !! p).
Definition ino_upd (p : Z) (f : inode_t -> inode_t) : M ext2 unit :=
  let* n := ino_at p in modify (λ s, set_inodes (<[p := f n]> (inodes s)) s).
Definition data_upd (p : Z) (f : ext2_inode_data_t -> ext2_inode_data_t) : M ext2 unit := ino_upd p (λ n, set_data (f (data n)) n).
Definition bg_at (g : Z) : M ext2 ext2_block_group_t := let* s := get in of_option (arr_get (bgdt s) g).
Definition bg_upd (g : Z) (f : ext2_block_group_t -> ext2_block_group_t) : M ext2 unit :=
  let* b := bg_at g in let* s := get in let* l := of_option (arr_set (bgdt s) g (f b)) in modify (set_bgdt l).
Definition blk_at (p i : Z) : M ext2 Z := let* n := ino_at p in of_option (arr_get (i_block (data n)) i).
Definition blk_set (p i v : Z) : M ext2 unit :=
  let* n := ino_at p in let* l := of_option (arr_set (i_block (data n)) i v) in data_upd p (set_i_block l).
(** [GetTotalTime] and [CalculateUnixTimestamp]. *)
Definition unix_time : M ext2 Z := let* n := gets clock in modify (set_clock (S n));; ret (wrap32 (rtc n)).

(** One more or less in a 32-bit counter. *)
Definition inc32 (x : Z) : Z := wrap32 (x + 1).
Definition dec32 (x : Z) : Z := wrap32 (x - 1).

(** [for (j = from; ...; j++)], [n] times. *)
Fixpoint for_from (n : nat) (j : Z) (body : Z -> M ext2 unit) : M ext2 unit :=
  match n with O => ret tt | S n => body j;; for_from n (j + 1) body end.

(** [mutex_lock(&vol->inode_alloc_lock)] by a task that may already hold it. *)
Definition alloc_lock : M ext2 unit := let* s := get in if inode_alloc_lock s then undef else modify (set_inode_alloc_lock true).
Definition alloc_unlock : M ext2 unit := modify (set_inode_alloc_lock false).

(** * Requests in flight (vfs.c) *)

Definition fs_io_begin : M ext2 Z :=
  let* s := get in
  if unmounting s then ret (-EBUSY) else modify (set_io_inflight (wrap64 (io_inflight s + 1)));; ret 0.
Definition fs_io_end : M ext2 unit :=
  let* s := get in when (0 <? io_inflight s) (modify (set_io_inflight (io_inflight s - 1))).
(** [io_ret = fs_io_begin(sb); if (io_ret < 0) return io_ret; r = inner; fs_io_end(sb); return r;] *)
Definition fs_op {A} (fail : Z -> A) (inner : M ext2 A) : M ext2 A :=
  let* io_ret := fs_io_begin in
  if io_ret <? 0 then ret (fail io_ret) else let* r := inner in fs_io_end;; ret r.
End Buffers.
