(* ===== verification/Ext2Blocks.v ===== *)
(** ext2: the blocks of a file. Finding, allocating, adding and freeing blocks
    (ext2_helpers.c, EXT2DeleteBlockFromBG), and the inode table that records
    them: decoding, encoding, reading and writing inodes (ext2_sb_ops.c). *)

From S2P Require Import Prelude BitMath Bytes Ext2.

Section Blocks.
Context `{Volume} `{Kernel}.

Definition EXT2_BLOCKS_PER_BLOCK : Z := block_size / 4.

Definition EXT2InodeNumberToGroup (inode_number : Z) : Z := wrap32 (inode_number - 1) / inodes_per_group.

(** * Finding a block of a file *)

Definition FindIndirect (inode block_idx : Z) : M ext2 Z :=
  if inode =? 0 then ret (-1)
  else
    let* indirect_block := blk_at inode 12 in
    if indirect_block =? 0 then ret 0
    else
      bread_use indirect_block;;
      let block := wrap32 (block_idx - 12) mod EXT2_BLOCKS_PER_BLOCK in
      let* r := get_le 4 indirect_block (4 * block) in
      brelse indirect_block;;
      if r =? 0 then ret 0 else ret r.

(** [block_idx - 12 - bpb] and [block_idx - 12 - bpb - bpb * bpb], in 64 bits. *)
Definition double_rest (block_idx : Z) : Z := wrap64 (wrap32 (block_idx - 12) - EXT2_BLOCKS_PER_BLOCK).
Definition triple_rest (block_idx : Z) : Z := wrap64 (double_rest block_idx - wrap64 (EXT2_BLOCKS_PER_BLOCK * EXT2_BLOCKS_PER_BLOCK)).

Definition FindDoubleIndirect (inode block_idx : Z) : M ext2 Z :=
  if inode =? 0 then ret 0
  else
    let* double_indirect_block := blk_at inode 13 in
    bread_use double_indirect_block;;
    let* indirect_block := get_le 4 double_indirect_block (4 * (double_rest block_idx / EXT2_BLOCKS_PER_BLOCK)) in
    if indirect_block =? 0 then brelse double_indirect_block;; ret 0
    else
      bread_use indirect_block;;
      let* block := get_le 4 indirect_block (4 * (double_rest block_idx mod EXT2_BLOCKS_PER_BLOCK)) in
      brelse double_indirect_block;;
      brelse indirect_block;;
      ret block.

Definition FindTripleIndirect (inode block_idx : Z) : M ext2 Z :=
  let bpb := EXT2_BLOCKS_PER_BLOCK in
  let r := triple_rest block_idx in
  if inode =? 0 then ret 0
  else
    let* triple_indirect_block := blk_at inode 14 in
    if triple_indirect_block =? 0 then ret 0
    else
      bread_use triple_indirect_block;;
      let* double_indirect_block := get_le 4 triple_indirect_block (4 * (r / wrap64 (bpb * bpb))) in
      if double_indirect_block =? 0 then brelse triple_indirect_block;; ret 0
      else
        bread_use double_indirect_block;;
        let* indirect_block := get_le 4 double_indirect_block (4 * ((r / bpb) mod bpb)) in
        if indirect_block =? 0 then brelse triple_indirect_block;; brelse double_indirect_block;; ret 0
        else
          bread_use indirect_block;;
          let* block := get_le 4 indirect_block (4 * (r mod bpb)) in
          brelse triple_indirect_block;;
          brelse double_indirect_block;;
          brelse indirect_block;;
          ret block.

Definition FindDataBlock (inode block_idx : Z) : M ext2 Z :=
  let bpb := EXT2_BLOCKS_PER_BLOCK in
  let block_idx := wrap32 block_idx in
  if inode =? 0 then ret (-1)
  else if block_idx <? 12 then blk_at inode block_idx
  else if block_idx <? wrap64 (12 + bpb) then FindIndirect inode block_idx
  else if block_idx <? wrap64 (12 + bpb + bpb * bpb) then FindDoubleIndirect inode block_idx
  else FindTripleIndirect inode block_idx.

(** * The bitmaps of a block group *)

(** The 64-bit words of a list of bytes. *)
Fixpoint words_of (n : nat) (l : list Z) : list Z :=
  match n with O => [] | S n => le_decode (take 8 l) :: words_of n (drop 8 l) end.
(** [FindFirstUnsetInBuffer] on the words of a buffer. *)
Definition find_unset (b : Z) : M ext2 Z :=
  let u64_inside_block := wrap32 (block_size / 8) in
  let* l := buf_read b 0 (8 * u64_inside_block) in
  of_option (FindFirstUnsetInBuffer (words_of (Z.to_nat u64_inside_block) l)).
(** [bitmap[i / 64] |= 1ULL << (i % 64)] and its inverse. *)
Definition bit_set (b i : Z) : M ext2 unit :=
  let* w := get_le 8 b (8 * (i / 64)) in put_le 8 b (8 * (i / 64)) (Z.lor w (Z.shiftl 1 (i mod 64))).
Definition bit_clear (b i : Z) : M ext2 unit :=
  let* w := get_le 8 b (8 * (i / 64)) in put_le 8 b (8 * (i / 64)) (Z.land w (not64 (Z.shiftl 1 (i mod 64)))).

Definition EXT2AllocBlock (block_group : Z) : M ext2 Z :=
  let* bg := bg_at block_group in
  if free_blocks_count bg =? 0 then ret 0
  else
    let block_bitmap_block := block_bitmap bg in
    bread_use block_bitmap_block;;
    let* bit_idx := find_unset block_bitmap_block in
    if bit_idx =? -1 then brelse block_bitmap_block;; ret 0
    else
      modify (λ s, set_free_blocks (dec32 (free_blocks s)) s);;
      bg_upd block_group (λ g, set_free_blocks_count (dec32 (free_blocks_count g)) g);;
      bit_set block_bitmap_block bit_idx;;
      bwrite block_bitmap_block;;
      brelse block_bitmap_block;;
      let new_block := wrap32 (wrap32 (block_group * blocks_per_group) + bit_idx + first_data_block + 1) in
      let* zbuf := bread new_block in
      when zbuf (
        buf_write new_block 0 (replicate (Z.to_nat block_size) 0);;
        bwrite new_block;;
        brelse new_block);;
      ret new_block.

Definition EXT2DeleteBlockFromBG (inode block_idx : Z) : M ext2 Z :=
  if (inode =? 0) || (block_idx =? 0) then ret (-EINVAL)
  else
    let* n := ino_at inode in
    if inode_number (data n) =? 0 then ret (-EINVAL)
    else
      let bg_idx := wrap32 (block_idx / blocks_per_group) in
      bg_upd bg_idx (λ g, set_free_blocks_count (inc32 (free_blocks_count g)) g);;
      modify (λ s, set_free_blocks (inc32 (free_blocks s)) s);;
      let* bg := bg_at bg_idx in
      bread_use (block_bitmap bg);;
      let block_idx_inside_bitmap := wrap32 (block_idx - first_data_block - 1 - wrap32 (blocks_per_group * bg_idx)) in
      bit_clear (block_bitmap bg) block_idx_inside_bitmap;;
      bwrite (block_bitmap bg);;
      brelse (block_bitmap bg);;
      ret 0.

(** * Inodes on disk *)

(** The 32-bit words of [i_block]. *)
Fixpoint words32 (n : nat) (l : list Z) : list Z :=
  match n with O => [] | S n => le_decode (take 4 l) :: words32 n (drop 4 l) end.
Definition bytes32 (ws : list Z) : list Z := concat (map (le_encode 4) ws).

(** A field of [ext2_inode_disk_t], of [n] bytes at [off]. *)
Definition raw_get (raw : list Z) (off n : nat) : Z := le_decode (sub raw off n).

Definition PopulateInode (raw : list Z) (inode : inode_t) : inode_t :=
  let d := data inode in
  let type := EXT2ModeToType (raw_get raw 0 2) in
  let size := raw_get raw 4 4 in
  Inode (raw_get raw 2 2) (raw_get raw 24 2) (EXT2FlagsToVFSFlags (raw_get raw 32 4)) type
    (if type =? VFS_TYPE_FILE then Z.lor size (Z.shiftl (raw_get raw 108 4) 32) else size)
    (Z.land (raw_get raw 0 2) 0x0FFF)
    (if (type =? VFS_TYPE_CHARDEV) || (type =? VFS_TYPE_BLOCKDEV) then Z.land (raw_get raw 40 4) 0xFFFF else dev_id inode)
    (InoData (inode_number d) (block_group d) (disk_offset d)
      (raw_get raw 26 2) (raw_get raw 12 4) (raw_get raw 16 4) (raw_get raw 8 4) (raw_get raw 28 4)
      (raw_get raw 100 4) (raw_get raw 104 4) (raw_get raw 108 4) (raw_get raw 112 4) (raw_get raw 36 4)
      (sub raw 116 12) (raw_get raw 20 4) (words32 15 (sub raw 40 60))).

(** The assignments fill the structure's 128 bytes; each truncates to its field. *)
Definition PopulateRawInode (inode : inode_t) : list Z :=
  let d := data inode in
  le_encode 2 (Z.lor (EXT2TypeToMode (type inode)) (Z.land (permissions inode) 0x0FFF)) ++
  le_encode 2 (owner_id inode) ++ le_encode 4 (isize inode) ++ le_encode 4 (accessed_at d) ++ le_encode 4 (changed_at d) ++
  le_encode 4 (modified_at d) ++ le_encode 4 (i_dtime d) ++ le_encode 2 (group_id inode) ++ le_encode 2 (ref_count d) ++
  le_encode 4 (i_blocks d) ++ le_encode 4 (EXT2VFSFlagsToIFlags (flags inode)) ++ le_encode 4 (i_osd1 d) ++ bytes32 (i_block d) ++
  le_encode 4 (i_generation d) ++ le_encode 4 (i_file_acl d) ++ le_encode 4 (i_dir_acl d) ++ le_encode 4 (i_faddr d) ++ i_osd2 d.

(** [if (data->disk_offset == 0) ...] *)
Definition locate_inode (inode : Z) : M ext2 unit :=
  let* n := ino_at inode in
  let d := data n in
  when (disk_offset d =? 0) (
    let inode_index := wrap32 (inode_number d - 1) mod inodes_per_group in
    let* bg := bg_at (block_group d) in
    let block_offset := wrap32 (wrap32 (inode_index * inode_size) / block_size) in
    let byte_offset := wrap32 (wrap32 (inode_index * inode_size) mod block_size) in
    data_upd inode (set_disk_offset (wrap64 (wrap32 (inode_table bg + block_offset) * block_size + byte_offset)))).

Definition EXT2ReadInode (inode : Z) : M ext2 Z :=
  if inode =? 0 then ret 1
  else
    let* n := ino_at inode in
    when (block_group (data n) =? 2 ^ 32 - 1) (data_upd inode (set_block_group (EXT2InodeNumberToGroup (inode_number (data n)))));;
    locate_inode inode;;
    let* n := ino_at inode in
    let block_offset := wrap32 (disk_offset (data n) / block_size) in
    let bytes_offset := wrap32 (disk_offset (data n) mod block_size) in
    bread_use block_offset;;
    let* raw_inode := buf_read block_offset bytes_offset 128 in
    ino_upd inode (PopulateInode raw_inode);;
    let* unix_timestamp := unix_time in
    when (negb (unix_timestamp =? 0)) (data_upd inode (set_accessed_at unix_timestamp));;
    brelse block_offset;;
    ret 0.

Definition EXT2WriteInode (inode : Z) : M ext2 Z :=
  if inode =? 0 then ret 1
  else
    let* now := unix_time in
    data_upd inode (set_changed_at now);;
    locate_inode inode;;
    let* n := ino_at inode in
    let block_offset := wrap32 (disk_offset (data n) / block_size) in
    let byte_offset := wrap32 (disk_offset (data n) mod block_size) in
    bread_use block_offset;;
    buf_write block_offset byte_offset (PopulateRawInode n);;
    bwrite block_offset;;
    brelse block_offset;;
    ret 0.

(** [kmalloc] zeroes what it returns. *)
Definition zero_inode : inode_t :=
  Inode 0 0 0 0 0 0 0 (InoData 0 (2 ^ 32 - 1) 0 0 0 0 0 0 0 0 0 0 0 (replicate 12 0) 0 (replicate 15 0)).
(** 0 is NULL: no memory for the inode or for its data. *)
Definition EXT2AllocInode : M ext2 Z :=
  let* s := get in
  let p := new_inode (inodes s) in
  if p =? 0 then ret 0 else modify (set_inodes (<[p := zero_inode]> (inodes s)));; ret p.
Definition EXT2FreeInode (inode : Z) : M ext2 Z :=
  let* _ := ino_at inode in modify (λ s, set_inodes (delete inode (inodes s)) s);; ret 0.

(** * Adding a block to a file *)

Definition AddIndirect (inode block_idx block_number : Z) : M ext2 Z :=
  if inode =? 0 then ret (-1)
  else
    let* indirect_block := blk_at inode 12 in
    if indirect_block =? 0 then ret 0
    else
      bread_use indirect_block;;
      let block := wrap32 (block_idx - 12) mod EXT2_BLOCKS_PER_BLOCK in
      put_le 4 indirect_block (4 * block) block_number;;
      bwrite indirect_block;;
      brelse indirect_block;;
      ret 0.

(** The block at entry [i] of buffer [b], allocated and entered if there is none. *)
Definition entry_or_alloc (inode b i : Z) : M ext2 Z :=
  let* child := get_le 4 b (4 * i) in
  if child =? 0 then
    let* n := ino_at inode in
    let* child := EXT2AllocBlock (block_group (data n)) in
    put_le 4 b (4 * i) child;;
    bwrite b;;
    ret child
  else ret child.

Definition AddDoubleIndirect (inode block_idx block_number : Z) : M ext2 Z :=
  if inode =? 0 then ret 0
  else
    let* double_indirect_block := blk_at inode 13 in
    let indirect_idx := wrap32 (double_rest block_idx / EXT2_BLOCKS_PER_BLOCK) in
    let double_indirect_idx := wrap32 (double_rest block_idx mod EXT2_BLOCKS_PER_BLOCK) in
    bread_use double_indirect_block;;
    let* indirect_block := entry_or_alloc inode double_indirect_block indirect_idx in
    bread_use indirect_block;;
    put_le 4 indirect_block (4 * double_indirect_idx) block_number;;
    bwrite indirect_block;;
    brelse double_indirect_block;;
    brelse indirect_block;;
    ret 0.

Definition AddTripleIndirect (inode block_idx block_number : Z) : M ext2 Z :=
  if inode =? 0 then ret 0
  else
    let* triple_indirect_block := blk_at inode 14 in
    if triple_indirect_block =? 0 then ret 0
    else
      let blocks_per_block := wrap32 EXT2_BLOCKS_PER_BLOCK in
      let square := wrap32 (blocks_per_block * blocks_per_block) in
      let r := wrap32 (block_idx - 12 - blocks_per_block - square) in
      let indirect_idx := r mod blocks_per_block in
      let double_indirect_idx := (r / blocks_per_block) mod blocks_per_block in
      if square =? 0 then undef
      else
        let triple_indirect_idx := r / square in
        bread_use triple_indirect_block;;
        let* double_indirect_block := entry_or_alloc inode triple_indirect_block triple_indirect_idx in
        bread_use double_indirect_block;;
        let* indirect_block := entry_or_alloc inode double_indirect_block double_indirect_idx in
        bread_use indirect_block;;
        put_le 4 indirect_block (4 * indirect_idx) block_number;;
        bwrite indirect_block;;
        brelse triple_indirect_block;;
        brelse double_indirect_block;;
        brelse indirect_block;;
        ret 0.

Definition EXT2AddBlockToInode (inode block_number : Z) : M ext2 Z :=
  let bpb := EXT2_BLOCKS_PER_BLOCK in
  if inode =? 0 then ret 0
  else
    let* n := ino_at inode in
    let block_idx := wrap32 (wrap32 (i_blocks (data n) * sector_size) / block_size) in
    data_upd inode (set_i_blocks (wrap32 (i_blocks (data n) + block_size / sector_size)));;
    if block_idx <? 12 then blk_set inode block_idx block_number;; let* _ := EXT2WriteInode inode in ret 0
    else
      let* res :=
        if block_idx <? wrap64 (12 + bpb) then AddIndirect inode block_idx block_number
        else if block_idx <? wrap64 (12 + bpb + bpb * bpb) then AddDoubleIndirect inode block_idx block_number
        else AddTripleIndirect inode block_idx block_number in
      if res <? 0 then ret (wrap32 res) else let* _ := EXT2WriteInode inode in ret 0.

(** * Freeing the blocks of a file *)

Definition sectors_per_block : Z := wrap32 (block_size / 512).
(** [if (data->i_blocks >= sectors_per_block) data->i_blocks -= sectors_per_block;] *)
Definition charge_block (inode : Z) : M ext2 unit :=
  data_upd inode (λ d, if sectors_per_block <=? i_blocks d then set_i_blocks (i_blocks d - sectors_per_block) d else d).
(** [EXT2DeleteBlockFromBG(inode, b); binvalidate(sb, b);] *)
Definition drop_block (inode b : Z) : M ext2 unit := let* _ := EXT2DeleteBlockFromBG inode b in binvalidate b.
(** Every entry of the buffer is 0. *)
Definition fully_empty (b : Z) : M ext2 Z :=
  let* l := buf_read b 0 (4 * EXT2_BLOCKS_PER_BLOCK) in
  ret (if forallb (λ w, w =? 0) (words32 (Z.to_nat EXT2_BLOCKS_PER_BLOCK) l) then 1 else 0).

Definition FreeInSingleIndirect (inode indirect_block start : Z) : M ext2 Z :=
  let bpb := EXT2_BLOCKS_PER_BLOCK in
  let* buf := bread indirect_block in
  if negb buf then ret (-EIO)
  else
    for_from (Z.to_nat (bpb - start)) start (λ j,
      let* e := get_le 4 indirect_block (4 * j) in
      when (negb (e =? 0)) (
        drop_block inode e;;
        put_le 4 indirect_block (4 * j) 0;;
        charge_block inode));;
    let* empty := fully_empty indirect_block in
    bwrite indirect_block;;
    brelse indirect_block;;
    ret empty.

(** The loops over the entries of a double or triple indirect block. *)
Definition free_children (inode b start : Z) (free : Z -> Z -> M ext2 Z) : M ext2 unit :=
  for_from (Z.to_nat (EXT2_BLOCKS_PER_BLOCK - start)) start (λ i,
    let* e := get_le 4 b (4 * i) in
    when (negb (e =? 0)) (
      let* empty := free i e in
      when (empty =? 1) (drop_block inode e;; put_le 4 b (4 * i) 0))).

Definition FreeInDoubleIndirect (inode double_block start_outer start_inner : Z) : M ext2 Z :=
  let* buf := bread double_block in
  if negb buf then ret (-EIO)
  else
    free_children inode double_block start_outer (λ i e, FreeInSingleIndirect inode e (if i =? start_outer then start_inner else 0));;
    let* empty := fully_empty double_block in
    bwrite double_block;;
    brelse double_block;;
    ret empty.

Definition FreeInTripleIndirect (inode triple_block start_triple start_outer start_inner : Z) : M ext2 Z :=
  let* buf := bread triple_block in
  if negb buf then ret (-EIO)
  else
    free_children inode triple_block start_triple (λ i e,
      FreeInDoubleIndirect inode e (if i =? start_triple then start_outer else 0) (if i =? start_triple then start_inner else 0));;
    let* empty := fully_empty triple_block in
    bwrite triple_block;;
    brelse triple_block;;
    ret empty.

(** [if (empty == 1) { ...; data->i_block[i] = 0; }] *)
Definition drop_root (inode i empty : Z) : M ext2 unit :=
  when (empty =? 1) (let* b := blk_at inode i in drop_block inode b;; blk_set inode i 0).

Definition EXT2FreeBlocksFrom (inode first_logical_idx : Z) : M ext2 Z :=
  let bpb := EXT2_BLOCKS_PER_BLOCK in
  let first := first_logical_idx in
  let single_start := 12 in
  let double_start := wrap64 (12 + bpb) in
  let triple_start := wrap64 (12 + bpb + bpb * bpb) in
  if inode =? 0 then ret (-EINVAL)
  else
    when (first <? single_start) (for_from (Z.to_nat (12 - first)) first (λ i,
      let* b := blk_at inode i in
      when (negb (b =? 0)) (drop_block inode b;; blk_set inode i 0;; charge_block inode)));;
    let* b12 := blk_at inode 12 in
    when ((first <? double_start) && negb (b12 =? 0)) (
      let inner := if single_start <? first then first - single_start else 0 in
      let* empty := FreeInSingleIndirect inode b12 inner in
      drop_root inode 12 empty);;
    let* b13 := blk_at inode 13 in
    when ((first <? triple_start) && negb (b13 =? 0)) (
      let offset := if double_start <? first then first - double_start else 0 in
      let* empty := FreeInDoubleIndirect inode b13 (offset / bpb) (offset mod bpb) in
      drop_root inode 13 empty);;
    let* b14 := blk_at inode 14 in
    when (negb (b14 =? 0)) (
      let offset := if triple_start <? first then first - triple_start else 0 in
      let square := wrap64 (bpb * bpb) in
      let* empty := FreeInTripleIndirect inode b14 (offset / square) ((offset mod square) / bpb) ((offset mod square) mod bpb) in
      drop_root inode 14 empty);;
    ret 0.
End Blocks.
