(* ===== verification/Ext2Dir.v ===== *)
(** ext2: directories and links (src/file_system/ext2_ino_ops.c).

    A [dentry_t] is its name, without the NUL, and the inode it refers to; the
    operations return it with the inode they set. File and dentry pointers and
    names are not NULL: the VFS checks them. *)

From S2P Require Import Prelude BitMath Bytes CString Ext2 Ext2Blocks.

Record dentry_t := Dentry { name : list Z; inode : Z }.

Definition EACCES : Z := 13.
Definition EXT2_ROOT_INO : Z := 2.
Definition MAX_FAST_SYMLINK_LENGTH : Z := 60.

(** [strncmp] on the bytes that follow its two arguments in memory. *)
Fixpoint strncmp_bytes (str1 str2 : list Z) (n : nat) : option Z :=
  match str1, str2 with
  | a :: str1, b :: str2 =>
      if negb (a =? 0) && negb (b =? 0) then
        match n with
        | O => Some 0
        | S n => if to_s8 b <? to_s8 a then Some 1 else if to_s8 a <? to_s8 b then Some (-1) else strncmp_bytes str1 str2 n
        end
      else match n with O => Some 0 | S _ => if negb (a =? 0) then Some 1 else if negb (b =? 0) then Some (-1) else Some 0 end
  | _, _ => None
  end.

(** [EXT2_DIRENT_ALIGN] on a 64-bit size. *)
Definition EXT2_DIRENT_ALIGN (n : Z) : Z := Z.land (wrap64 (n + 3)) (2 ^ 64 - 4).

Section Directories.
Context `{Volume} `{Kernel}.

(** * Directory entries *)

(** The fields of the [ext2_dir_entry_t] at [off] in the buffer of block [b]. *)
Definition de_inode (b off : Z) : M ext2 Z := get_le 4 b off.
Definition de_rec_len (b off : Z) : M ext2 Z := get_le 2 b (off + 4).
Definition de_name_len (b off : Z) : M ext2 Z := get_le 1 b (off + 6).
Definition de_file_type (b off : Z) : M ext2 Z := get_le 1 b (off + 7).
(** [strncmp(entry->name, name, n)]; the comparison reads one byte more than [n]. *)
Definition de_strncmp (b off : Z) (name : list Z) (n : Z) : M ext2 Z :=
  let* s := get in
  let* u := of_option (bufs s !! wrap32 b) in
  of_option (strncmp_bytes (drop (Z.to_nat (off + 8)) (bytes u ++ after (wrap32 b))) (name ++ [0]) (Z.to_nat n)).
(** [*entry = (ext2_dir_entry_t) {...}; memcpy(entry->name, name, name_len)] *)
Definition de_write (b off inode_number rec_len : Z) (name : list Z) (type : Z) : M ext2 unit :=
  buf_write b off (le_encode 4 inode_number ++ le_encode 2 rec_len ++ le_encode 1 (Z.of_nat (length name)) ++ le_encode 1 (EXT2TypeToFT type));;
  buf_write b (off + 8) name.

(** [size / block_size] of a directory, in 32 bits. *)
Definition dir_blocks (dir : Z) : M ext2 Z := let* n := ino_at dir in ret (wrap32 (isize n / block_size)).

(** One entry of the search: leave with the inode number of the match. *)
Definition lookup_step (b : Z) (nm : list Z) (offset : Z) : M ext2 (Z + option Z) :=
  if negb (offset <? block_size) then ret (inr None)
  else
    let* name_len := de_name_len b offset in
    let* ino := de_inode b offset in
    let* rec_len := de_rec_len b offset in
    if negb (wrap64 (Z.of_nat (length nm)) =? name_len) || (ino =? 0) then ret (inl (wrap32 (offset + rec_len)))
    else
      let* c := de_strncmp b offset nm name_len in
      if c =? 0 then ret (inr (Some ino)) else ret (inl (wrap32 (offset + rec_len))).

Definition block_fuel : nat := S (Z.to_nat block_size).

Fixpoint lookup_blocks (n : nat) (dir i : Z) (nm : list Z) : M ext2 (Z * Z) :=
  match n with
  | O => ret (-ENOENT, 0)
  | S n =>
      let* block_number := FindDataBlock dir i in
      if block_number =? 0 then lookup_blocks n dir (i + 1) nm
      else
        bread_use block_number;;
        let* r := loop block_fuel (lookup_step block_number nm) 0 in
        match r with
        | Some ino =>
            let* p := EXT2AllocInode in
            if p =? 0 then undef
            else
              data_upd p (set_inode_number ino);;
              let* _ := EXT2ReadInode p in
              brelse block_number;;
              ret (0, p)
        | None => brelse block_number;; lookup_blocks n dir (i + 1) nm
        end
  end.
Definition EXT2LookupInner (dir : Z) (dentry : dentry_t) : M ext2 (Z * dentry_t) :=
  if dir =? 0 then ret (-1, dentry)
  else
    let* n := dir_blocks dir in
    let* r := lookup_blocks (Z.to_nat n) dir 0 (name dentry) in
    ret (r.1, if r.1 =? 0 then Dentry (name dentry) r.2 else dentry).

(** * Creating *)

Definition EXT2AddInode (block_group : Z) : M ext2 Z :=
  alloc_lock;;
  let* bg := bg_at block_group in
  if free_inodes_count bg =? 0 then alloc_unlock;; ret 0
  else
    let inode_bitmap_block := inode_bitmap bg in
    bread_use inode_bitmap_block;;
    let* bit_idx := find_unset inode_bitmap_block in
    if bit_idx =? -1 then brelse inode_bitmap_block;; alloc_unlock;; ret 0
    else
      bit_set inode_bitmap_block bit_idx;;
      bwrite inode_bitmap_block;;
      brelse inode_bitmap_block;;
      modify (λ s, set_free_inodes (dec32 (free_inodes s)) s);;
      bg_upd block_group (λ g, set_free_inodes_count (dec32 (free_inodes_count g)) g);;
      alloc_unlock;;
      ret (wrap32 (wrap32 (block_group * inodes_per_group) + bit_idx + 1)).

(** [if (offset + entry->rec_len == block_size)] leaves with the offset. *)
Definition last_step (b offset : Z) : M ext2 (Z + option Z) :=
  if negb (offset <? wrap32 block_size) then ret (inr None)
  else
    let* rec_len := de_rec_len b offset in
    if wrap32 (offset + rec_len) =? wrap32 block_size then ret (inr (Some offset)) else ret (inl (wrap32 (offset + rec_len))).
(** The result, [*out_block_idx] and [*out_block_offset]. *)
Definition EXT2FindLastDirEntryLocation (dir : Z) : M ext2 (Z * Z * Z) :=
  let* n := ino_at dir in
  let blocks := wrap32 (isize n / wrap32 block_size) in
  if blocks =? 0 then ret (-1, 0, 0)
  else
    let* block_number := FindDataBlock dir (blocks - 1) in
    bread_use block_number;;
    let* r := loop block_fuel (last_step block_number) 0 in
    brelse block_number;;
    match r with Some offset => ret (0, wrap32 block_number, offset) | None => ret (-2, 0, 0) end.

(** The inode number the entry for [dentry] records. *)
Definition dentry_ino (dentry : dentry_t) : M ext2 Z := let* n := ino_at (inode dentry) in ret (inode_number (data n)).
(** A new block at the end of a directory; 0 is -ENOSPC. *)
Definition grow_dir (dir : Z) : M ext2 Z :=
  let* n := ino_at dir in
  let* b := EXT2AllocBlock (block_group (data n)) in
  if b =? 0 then ret 0
  else
    let* _ := EXT2AddBlockToInode dir b in
    ino_upd dir (λ n, set_isize (wrap64 (isize n + block_size)) n);;
    ret b.
(** The entry is written to block [b] from [off] to the end of the block. *)
Definition put_entry (dir b off : Z) (dentry : dentry_t) (type : Z) : M ext2 Z :=
  let* ino := dentry_ino dentry in
  bread_use b;;
  de_write b off ino (block_size - off) (name dentry) type;;
  bwrite b;;
  brelse b;;
  let* _ := EXT2WriteInode dir in
  ret 0.

Definition EXT2PopulateDirEntry (dir : Z) (dentry : dentry_t) (type : Z) : M ext2 Z :=
  let* now := unix_time in
  data_upd dir (set_accessed_at now);;
  let req_space := wrap32 (8 + Z.of_nat (length (name dentry))) in
  let* last := EXT2FindLastDirEntryLocation dir in
  let '(last_res, last_block_idx, last_bytes_offset) := last in
  if (last_res <? 0) && negb (last_res =? -1) then ret last_res
  else if last_res =? -1 then
    let* b := grow_dir dir in
    if b =? 0 then ret (-ENOSPC) else put_entry dir b 0 dentry type
  else
    bread_use last_block_idx;;
    let* name_len := de_name_len last_block_idx last_bytes_offset in
    let* rec_len := de_rec_len last_block_idx last_bytes_offset in
    let last_entry_actual_size := wrap32 (EXT2_DIRENT_ALIGN (8 + name_len)) in
    let free_space := wrap32 (rec_len - last_entry_actual_size) in
    let* where_ :=
      if free_space <? req_space then let* b := grow_dir dir in ret (b, 0)
      else
        put_le 2 last_block_idx (last_bytes_offset + 4) last_entry_actual_size;;
        bwrite last_block_idx;;
        brelse last_block_idx;;
        ret (last_block_idx, wrap32 (last_bytes_offset + last_entry_actual_size)) in
    if where_.1 =? 0 then ret (-ENOSPC)
    else
      let* now := unix_time in
      data_upd dir (set_modified_at now);;
      put_entry dir where_.1 where_.2 dentry type.

Definition EXT2PopulateNewInode (inode type permissions : Z) : M ext2 Z :=
  if inode =? 0 then ret (-EINVAL)
  else
    let* n := ino_at inode in
    let* ino := EXT2AddInode (block_group (data n)) in
    data_upd inode (set_inode_number ino);;
    if ino =? 0 then ret (-ENOSPC)
    else
      ino_upd inode (λ n, Inode 0 0 (flags n) type 0 permissions (dev_id n) (data n));;
      data_upd inode (λ d, set_ref_count (if type =? VFS_TYPE_DIR then 2 else 1) (set_i_blocks 0 (set_block_group (EXT2InodeNumberToGroup ino) d)));;
      let* curr_time := unix_time in
      data_upd inode (λ d, set_changed_at curr_time (set_modified_at curr_time (set_accessed_at curr_time d)));;
      let* _ := EXT2WriteInode inode in
      ret 0.

(** The result and [*out]. *)
Definition EXT2PopulateInodeEntry (dir out type permissions : Z) : M ext2 (Z * Z) :=
  let* p := EXT2AllocInode in
  if p =? 0 then ret (-ENOMEM, out)
  else
    let* d := ino_at dir in
    data_upd p (set_block_group (block_group (data d)));;
    let* res_pop := EXT2PopulateNewInode p type permissions in
    ret (res_pop, if res_pop <? 0 then out else p).

Definition EXT2CreateGeneric (dir : Z) (dentry : dentry_t) (permissions type : Z) : M ext2 (Z * dentry_t) :=
  let* l := EXT2LookupInner dir dentry in
  let '(r, dentry) := l in
  if r =? 0 then ret (-EEXIST, dentry)
  else
    let* e := EXT2PopulateInodeEntry dir (inode dentry) type permissions in
    let dentry := Dentry (name dentry) e.2 in
    if e.1 <? 0 then ret (e.1, dentry)
    else
      let* dir_entry_res := EXT2PopulateDirEntry dir dentry type in
      ret (if dir_entry_res <? 0 then dir_entry_res else 0, dentry).

Definition EXT2MknodInner (dir : Z) (dentry : dentry_t) (type permissions dev : Z) : M ext2 (Z * dentry_t) :=
  if negb (type =? VFS_TYPE_CHARDEV) && negb (type =? VFS_TYPE_BLOCKDEV) && negb (type =? VFS_TYPE_FIFO) && negb (type =? VFS_TYPE_SOCKET)
  then ret (-EINVAL, dentry)
  else
    let* r := EXT2CreateGeneric dir dentry permissions type in
    let '(res, dentry) := r in
    if res <? 0 then ret (res, dentry)
    else
      blk_set (inode dentry) 0 (Z.land dev 0xFFFF);;
      ino_upd (inode dentry) (set_dev_id dev);;
      let* _ := EXT2WriteInode (inode dentry) in
      ret (0, dentry).

Definition dot : list Z := [46].
Definition dotdot : list Z := [46; 46].

Definition EXT2MkdirInner (dir : Z) (dentry : dentry_t) (permissions : Z) : M ext2 (Z * dentry_t) :=
  let* r := EXT2CreateGeneric dir dentry permissions VFS_TYPE_DIR in
  let '(res, dentry) := r in
  if res <? 0 then ret (res, dentry)
  else
    let* dot_res := EXT2PopulateDirEntry (inode dentry) (Dentry dot (inode dentry)) VFS_TYPE_DIR in
    if dot_res <? 0 then ret (dot_res, dentry)
    else
      let* dotdot_res := EXT2PopulateDirEntry (inode dentry) (Dentry dotdot dir) VFS_TYPE_DIR in
      if dotdot_res <? 0 then ret (dotdot_res, dentry)
      else
        data_upd dir (λ d, set_ref_count (inc32 (ref_count d)) d);;
        let* _ := EXT2WriteInode dir in
        let* n := ino_at (inode dentry) in
        bg_upd (block_group (data n)) (λ g, set_used_dirs_count (inc32 (used_dirs_count g)) g);;
        ret (0, dentry).

(** * Removing *)

Definition EXT2DeleteInodeFromBG (inode : Z) : M ext2 Z :=
  if inode =? 0 then ret (-EINVAL)
  else
    let* n := ino_at inode in
    let d := data n in
    if inode_number d =? 0 then ret (-EINVAL)
    else
      alloc_lock;;
      let* bg := bg_at (block_group d) in
      bread_use (inode_bitmap bg);;
      let inode_idx_inside_bitmap := wrap32 (wrap32 (inode_number d - 1) - wrap32 (inodes_per_group * block_group d)) in
      bit_clear (inode_bitmap bg) inode_idx_inside_bitmap;;
      bwrite (inode_bitmap bg);;
      brelse (inode_bitmap bg);;
      when (type n =? VFS_TYPE_DIR) (bg_upd (block_group d) (λ g, set_used_dirs_count (dec32 (used_dirs_count g)) g));;
      bg_upd (block_group d) (λ g, set_free_inodes_count (inc32 (free_inodes_count g)) g);;
      modify (λ s, set_free_inodes (inc32 (free_inodes s)) s);;
      alloc_unlock;;
      ret 0.

Definition EXT2DeleteDataBlocksFromBG (inode : Z) : M ext2 Z :=
  if inode =? 0 then ret (-EINVAL)
  else
    let* n := ino_at inode in
    if inode_number (data n) =? 0 then ret (-EINVAL) else EXT2FreeBlocksFrom inode 0.

Definition SetDeleteTime (inode : Z) : M ext2 Z := let* t := unix_time in data_upd inode (set_i_dtime t);; ret 0.

(** [p1] is at [offset]; [p2] the entry after it. True: the entry was found and merged into [p1]. *)
Definition remove_step (b : Z) (nm : list Z) (offset : Z) : M ext2 (Z + bool) :=
  let* len1 := de_rec_len b offset in
  if negb (wrap32 (offset + len1) <? block_size) then ret (inr false)
  else
    let p2 := offset + len1 in
    let* ino := de_inode b p2 in
    let* nlen := de_name_len b p2 in
    let* c := if ino =? 0 then ret 1 else de_strncmp b p2 nm nlen in
    if negb (ino =? 0) && (c =? 0) then
      let* len2 := de_rec_len b p2 in
      put_le 2 b (offset + 4) (len1 + len2);;
      ret (inr true)
    else ret (inl (wrap32 (offset + len1))).

Fixpoint remove_blocks (n : nat) (dir i : Z) (nm : list Z) : M ext2 Z :=
  match n with
  | O => ret (-ENOENT)
  | S n =>
      let* block_number := FindDataBlock dir i in
      if block_number =? 0 then remove_blocks n dir (i + 1) nm
      else
        bread_use block_number;;
        let* nlen := de_name_len block_number 0 in
        let* c := de_strncmp block_number 0 nm nlen in
        if c =? 0 then put_le 4 block_number 0 0;; brelse block_number;; ret 0
        else
          let* found := loop block_fuel (remove_step block_number nm) 0 in
          if found : bool then bwrite block_number;; brelse block_number;; ret 0
          else brelse block_number;; remove_blocks n dir (i + 1) nm
  end.
Definition EXT2RemoveFromDir (dir : Z) (dentry : dentry_t) : M ext2 Z :=
  if dir =? 0 then ret (-EINVAL)
  else let* n := dir_blocks dir in remove_blocks (Z.to_nat n) dir 0 (name dentry).

(** [del_data->ref_count--; if (del_data->ref_count == 0) ...] *)
Definition drop_link (del : Z) : M ext2 unit :=
  data_upd del (λ d, set_ref_count (dec32 (ref_count d)) d);;
  let* n := ino_at del in
  when (ref_count (data n) =? 0) (
    let* _ := EXT2DeleteInodeFromBG del in
    let* _ := EXT2DeleteDataBlocksFromBG del in
    let* _ := SetDeleteTime del in
    let* _ := EXT2WriteInode del in
    let* _ := EXT2FreeInode del in
    ret tt).

Definition EXT2UnlinkInner (dir : Z) (dentry : dentry_t) : M ext2 (Z * dentry_t) :=
  let* l := EXT2LookupInner dir dentry in
  let '(lookup_ret, dentry) := l in
  if lookup_ret <? 0 then ret (lookup_ret, dentry)
  else
    let* n := ino_at (inode dentry) in
    if type n =? VFS_TYPE_DIR then ret (-EISDIR, dentry)
    else
      let* _ := EXT2RemoveFromDir dir dentry in
      drop_link (inode dentry);;
      ret (0, dentry).

Definition EXT2RmdirInner (dir : Z) (dentry : dentry_t) : M ext2 (Z * dentry_t) :=
  let* l := EXT2LookupInner dir dentry in
  let '(lookup_ret, dentry) := l in
  if lookup_ret <? 0 then ret (lookup_ret, dentry)
  else
    let* n := ino_at (inode dentry) in
    if negb (type n =? VFS_TYPE_DIR) then ret (-ENOTDIR, dentry)
    else if inode_number (data n) =? EXT2_ROOT_INO then ret (-EACCES, dentry)
    else
      let* last := EXT2FindLastDirEntryLocation (inode dentry) in
      let '(last_entry_ret, b, off) := last in
      if last_entry_ret <? 0 then ret (last_entry_ret, dentry)
      else
        bread_use b;;
        let* ino := de_inode b off in
        let* nlen := de_name_len b off in
        if ino =? 0 then ret (-1, dentry)
        else if negb (nlen =? 2) then ret (-ENOTEMPTY, dentry)
        else
          let* c := de_strncmp b off dotdot 2 in
          if negb (c =? 0) then ret (-ENOTEMPTY, dentry)
          else
            let* _ := EXT2RemoveFromDir dir dentry in
            drop_link (inode dentry);;
            data_upd dir (λ d, set_ref_count (dec32 (ref_count d)) d);;
            let* _ := EXT2WriteInode dir in
            ret (0, dentry).

(** * Renaming and linking *)

Definition EXT2RenameInner (old_dir : Z) (old_dentry : dentry_t) (new_dir : Z) (new_dentry : dentry_t) : M ext2 (Z * dentry_t) :=
  if (old_dir =? 0) || (new_dir =? 0) then ret (-EINVAL, new_dentry)
  else if inode old_dentry =? 0 then ret (-EINVAL, new_dentry)
  else
    let* remv_ret := EXT2RemoveFromDir old_dir old_dentry in
    if remv_ret <? 0 then ret (remv_ret, new_dentry)
    else
      let new_dentry := Dentry (name new_dentry) (inode old_dentry) in
      let* n := ino_at (inode new_dentry) in
      let* pop_ret := EXT2PopulateDirEntry new_dir new_dentry (type n) in
      ret (if pop_ret <? 0 then pop_ret else 0, new_dentry).

Definition EXT2HardLinkInner (dir existing_inode : Z) (dentry : dentry_t) : M ext2 (Z * dentry_t) :=
  if (dir =? 0) || (existing_inode =? 0) then ret (-EINVAL, dentry)
  else
    let dentry := Dentry (name dentry) existing_inode in
    let* n := ino_at existing_inode in
    let* _ := EXT2PopulateDirEntry dir dentry (type n) in
    data_upd existing_inode (λ d, set_ref_count (inc32 (ref_count d)) d);;
    let* _ := EXT2WriteInode existing_inode in
    ret (0, dentry).

(** [i_block] as the 60 bytes of memory it is. *)
Definition blk_bytes_upd (inode off : Z) (bs : list Z) : M ext2 unit :=
  let* n := ino_at inode in
  if (0 <=? off) && (off + Z.of_nat (length bs) <=? 60)
  then data_upd inode (set_i_block (words32 15 (put (bytes32 (i_block (data n))) (Z.to_nat off) bs))) else undef.

Definition EXT2SymLinkInner (dir : Z) (dentry : dentry_t) (target : list Z) : M ext2 (Z * dentry_t) :=
  if dir =? 0 then ret (-EINVAL, dentry)
  else
    let name_len := Z.of_nat (length target) in
    if block_size <? name_len then ret (-EINVAL, dentry)
    else
      let* r := EXT2CreateGeneric dir dentry 511 VFS_TYPE_SYMLINK in
      let '(create_ret, dentry) := r in
      if create_ret <? 0 then ret (create_ret, dentry)
      else
        let p := inode dentry in
        if name_len <=? MAX_FAST_SYMLINK_LENGTH then
          blk_bytes_upd p 0 target;;
          ino_upd p (set_isize name_len);;
          let* _ := EXT2WriteInode p in
          ret (0, dentry)
        else
          let* n := ino_at p in
          let* new_block := EXT2AllocBlock (block_group (data n)) in
          if new_block =? 0 then ret (-ENOSPC, dentry)
          else
            let* _ := EXT2AddBlockToInode p new_block in
            bread_use new_block;;
            buf_write new_block 0 target;;
            bwrite new_block;;
            ino_upd p (set_isize name_len);;
            data_upd p (set_i_blocks (wrap32 (block_size / sector_size)));;
            let* _ := EXT2WriteInode p in
            ret (0, dentry).

(** The loop of [EXT2ReadLinkInner]: every block is copied to the start of [buf]. *)
Fixpoint readlink_blocks (n : nat) (inode i remain_size : Z) (buf : list Z) : M ext2 (list Z) :=
  match n with
  | O => ret buf
  | S n =>
      let* b := FindDataBlock inode i in
      let data_block := wrap32 b in
      if data_block =? 0 then readlink_blocks n inode (i + 1) remain_size buf
      else
        bread_use data_block;;
        let specific_cpy := if block_size <? remain_size then block_size else remain_size in
        let* src := buf_read data_block 0 specific_cpy in
        readlink_blocks n inode (i + 1) (remain_size - specific_cpy) (put buf 0 src)
  end.
(** [buf] is the caller's buffer, of [size] bytes. *)
Definition EXT2ReadLinkInner (inode : Z) (buf : list Z) : M ext2 (Z * list Z) :=
  let size := Z.of_nat (length buf) in
  if (inode =? 0) || (size =? 0) then ret (-EINVAL, buf)
  else
    let* n := ino_at inode in
    let cpy_size := if size <? isize n then size else isize n in
    if isize n <=? MAX_FAST_SYMLINK_LENGTH then
      ret (cpy_size, put buf 0 (take (Z.to_nat cpy_size) (bytes32 (i_block (data n)))))
    else
      let num_blocks := wrap64 (cpy_size + block_size - 1) / block_size in
      let* buf := readlink_blocks (Z.to_nat num_blocks) inode 0 cpy_size buf in
      ret (cpy_size, buf).

(** * The operations of a mounted volume *)

(** [if (dir == NULL) return -EINVAL;] and the guard against unmounting. *)
Definition dir_op (dir : Z) (dentry : dentry_t) (inner : M ext2 (Z * dentry_t)) : M ext2 (Z * dentry_t) :=
  if dir =? 0 then ret (-EINVAL, dentry) else fs_op (λ e, (e, dentry)) inner.

Definition EXT2Lookup (dir : Z) (dentry : dentry_t) := dir_op dir dentry (EXT2LookupInner dir dentry).
Definition EXT2Create (dir : Z) (dentry : dentry_t) (permissions : Z) := dir_op dir dentry (EXT2CreateGeneric dir dentry permissions VFS_TYPE_FILE).
Definition EXT2Mknod (dir : Z) (dentry : dentry_t) (type permissions dev_id : Z) := dir_op dir dentry (EXT2MknodInner dir dentry type permissions dev_id).
Definition EXT2Mkdir (dir : Z) (dentry : dentry_t) (permissions : Z) := dir_op dir dentry (EXT2MkdirInner dir dentry permissions).
Definition EXT2Unlink (dir : Z) (dentry : dentry_t) := dir_op dir dentry (EXT2UnlinkInner dir dentry).
Definition EXT2Rmdir (dir : Z) (dentry : dentry_t) := dir_op dir dentry (EXT2RmdirInner dir dentry).
Definition EXT2Rename (old_dir : Z) (old_dentry : dentry_t) (new_dir : Z) (new_dentry : dentry_t) :=
  dir_op old_dir new_dentry (EXT2RenameInner old_dir old_dentry new_dir new_dentry).
Definition EXT2HardLink (dir existing_inode : Z) (dentry : dentry_t) := dir_op dir dentry (EXT2HardLinkInner dir existing_inode dentry).
Definition EXT2SymLink (dir : Z) (dentry : dentry_t) (target : list Z) := dir_op dir dentry (EXT2SymLinkInner dir dentry target).
Definition EXT2ReadLink (inode : Z) (buf : list Z) : M ext2 (Z * list Z) :=
  if inode =? 0 then ret (-EINVAL, buf) else fs_op (λ e, (e, buf)) (EXT2ReadLinkInner inode buf).

Record fs_inode_stat_t := Stat {
  st_type : Z; st_mode : Z; st_size : Z; st_nlinks : Z; st_uid : Z; st_gid : Z; st_dev_id : Z; st_atime : Z; st_mtime : Z; st_ctime : Z }.
Definition EXT2GetAttr (inode : Z) : M ext2 (Z * option fs_inode_stat_t) :=
  if inode =? 0 then ret (-EINVAL, None)
  else
    let* n := ino_at inode in
    let d := data n in
    ret (0, Some (Stat (type n) (Z.land (permissions n) 0x0FFF) (isize n) (ref_count d) (owner_id n) (group_id n) (dev_id n)
      (accessed_at d) (modified_at d) (changed_at d))).
End Directories.
