(* ===== verification/Ext2File.v ===== *)
(** ext2: files (src/file_system/ext2_file_ops.c) and the volume as a whole:
    its superblock, group descriptors, sync and unmount (ext2_sb_ops.c).

    A [file_t] is passed to an operation and returned by it. A user's buffer is
    the list of its bytes; an access past its end is undefined. *)

From S2P Require Import Prelude BitMath Bytes Ext2 Ext2Blocks Ext2Dir.

Record ext2_private_file_t := Priv { dir_blocks_offset : Z; dir_bytes_offset : Z; cached_blocks : list Z }.
Record file_t := File { f_inode : Z; position : Z; private_data : option ext2_private_file_t }.
Definition set_position v f := File (f_inode f) v (private_data f).
Definition set_private v f := File (f_inode f) (position f) v.

Section Files.
Context `{Volume} `{Kernel}.

(** * Reading *)

Record read_vars := Rv { rd_i : Z; rd_off : Z; rd_remain : Z; rd_pos : Z; rd_buf : list Z }.
(** Leaves with false for -EIO. *)
Definition read_step (inode last : Z) (v : read_vars) : M ext2 (read_vars + bool * read_vars) :=
  if negb ((rd_i v <? last) && (0 <? rd_remain v)) then ret (inr (true, v))
  else
    let bs := wrap32 block_size in
    let append := bs - rd_pos v mod bs in
    let append := if rd_remain v <? append then rd_remain v else append in
    let next buf := inl (Rv (rd_i v + 1) (rd_off v + append) (rd_remain v - append) (wrap64 (rd_pos v + append)) buf) in
    let store bs := if rd_off v + append <=? Z.of_nat (length (rd_buf v)) then ret (next (put (rd_buf v) (Z.to_nat (rd_off v)) bs)) else undef in
    let* b := FindDataBlock inode (rd_i v) in
    let curr_block := wrap32 b in
    if curr_block =? 0 then store (replicate (Z.to_nat append) 0)
    else
      let* temp_buf := bread curr_block in
      if negb temp_buf then ret (inr (false, v))
      else
        let* bytes := buf_read curr_block (rd_pos v mod bs) append in
        let* r := store bytes in
        brelse curr_block;;
        ret r.

(** The result, the file and the buffer, of which [size] bytes were asked for. *)
Definition EXT2Read (file : file_t) (buf : list Z) (size : Z) : M ext2 (Z * file_t * list Z) :=
  if f_inode file =? 0 then ret (-EINVAL, file, buf)
  else if UINT64_MAX - size <? position file then ret (-EINVAL, file, buf)
  else fs_op (λ e, (e, file, buf)) (
    let* n := ino_at (f_inode file) in
    let end_offset := wrap64 (position file + size) in
    let clamped := if end_offset <? isize n then end_offset else isize n in
    let to_read := wrap64 (clamped - position file) in
    let bs := wrap32 block_size in
    let start_block := position file / bs in
    let blocks_to_read := wrap64 (to_read + position file mod bs + bs - 1) / bs in
    let* r := loop (S (Z.to_nat blocks_to_read)) (read_step (f_inode file) (wrap64 (blocks_to_read + start_block)))
                (Rv start_block 0 to_read (position file) buf) in
    let '(ok, v) := r in
    ret (if ok : bool then to_s64 to_read else -EIO, set_position (rd_pos v) file, rd_buf v)).

(** * Growing and shrinking *)

Fixpoint add_blocks (n : nat) (inode : Z) : M ext2 Z :=
  match n with
  | O => ret 0
  | S n =>
      let* i := ino_at inode in
      let* new_block := EXT2AllocBlock (block_group (data i)) in
      if new_block =? 0 then ret (-ENOSPC) else let* _ := EXT2AddBlockToInode inode new_block in add_blocks n inode
  end.
Definition AddBlocksToInode (inode count : Z) : M ext2 Z :=
  if (inode =? 0) || (count =? 0) then ret (-EINVAL)
  else
    let* n := ino_at inode in
    let* bg := bg_at (block_group (data n)) in
    if free_blocks_count bg <? count then ret (-ENOSPC) else add_blocks (Z.to_nat count) inode.

Definition EXT2BlocksNeeded (block_size current_size data_size : Z) : Z :=
  let current_end := wrap64 (current_size + data_size) in
  let blocks_after := wrap64 (current_end + block_size - 1) / block_size in
  let blocks_before := wrap64 (current_size + block_size - 1) / block_size in
  wrap64 (blocks_after - blocks_before).

Definition EXT2BlockToRemove (block_size current_size rem_size : Z) : Z :=
  if current_size <? rem_size then 0
  else
    let current_end := current_size - rem_size in
    let blocks_after := wrap64 (current_end + block_size - 1) / block_size in
    let blocks_before := wrap64 (current_size + block_size - 1) / block_size in
    wrap64 (blocks_before - blocks_after).

(** [memset(buf + off, 0, n); bwrite; brelse] of a block just read. *)
Definition zero_tail (b off n : Z) : M ext2 unit :=
  buf_write b off (replicate (Z.to_nat n) 0);; bwrite b;; brelse b.
Definition grow_size (inode add : Z) : M ext2 unit := ino_upd inode (λ n, set_isize (wrap64 (isize n + add)) n).

(** The loop that clears the new blocks; [remain] is what is left to add. *)
Fixpoint expand_blocks (n : nat) (inode i remain : Z) : M ext2 unit :=
  match n with
  | O => ret tt
  | S n =>
      if negb (0 <? remain) then ret tt
      else
        let* ino := ino_at inode in
        let bs := wrap32 block_size in
        let start := isize ino mod bs in
        let size := if remain <? bs - start then remain else bs - start in
        let* b := FindDataBlock inode i in
        let curr_block := wrap32 b in
        if curr_block =? 0 then expand_blocks n inode (i + 1) remain
        else
          bread_use curr_block;;
          zero_tail curr_block start size;;
          grow_size inode size;;
          expand_blocks n inode (i + 1) (remain - size)
  end.

Definition EXT2ExpandFile (inode add : Z) : M ext2 Z :=
  if inode =? 0 then ret (-EINVAL)
  else if add =? 0 then ret 0
  else
    let bs := wrap32 block_size in
    let* n := ino_at inode in
    let count_blocks := EXT2BlocksNeeded bs (isize n) add in
    if count_blocks =? 0 then
      let* b := FindDataBlock inode (isize n / bs) in
      let last_block := wrap32 b in
      if last_block =? 0 then ret (-EIO)
      else
        let* buf := bread last_block in
        if negb buf then ret (-EIO)
        else
          zero_tail last_block (isize n mod bs) add;;
          grow_size inode add;;
          let* _ := EXT2WriteInode inode in
          ret 0
    else
      let* add_ret := AddBlocksToInode inode count_blocks in
      if add_ret <? 0 then ret add_ret
      else
        let* n := ino_at inode in
        let start_block_idx := isize n / bs in
        let end_block_idx := wrap64 (isize n + add + bs - 1) / bs in
        expand_blocks (Z.to_nat (end_block_idx - start_block_idx)) inode start_block_idx add;;
        let* _ := EXT2WriteInode inode in
        ret 0.

(** The block that becomes the last one keeps its first [tail] bytes; false is -EIO. *)
Definition clear_tail (inode new_block_count tail : Z) : M ext2 bool :=
  let* b := FindDataBlock inode (new_block_count - 1) in
  let last_block := wrap32 b in
  if last_block =? 0 then ret true
  else
    let* buf := bread last_block in
    if negb buf then ret false else zero_tail last_block tail (block_size - tail);; ret true.

Definition EXT2ShrinkFile (inode sub : Z) : M ext2 Z :=
  if inode =? 0 then ret (-EINVAL)
  else if sub =? 0 then ret 0
  else
    let* n := ino_at inode in
    if isize n <? sub then ret (-EINVAL)
    else
      let new_size := isize n - sub in
      let new_block_count := wrap64 (new_size + block_size - 1) / block_size in
      let tail := new_size mod block_size in
      let* ok := if negb (tail =? 0) && (0 <? new_block_count) then clear_tail inode new_block_count tail else ret true in
      if negb ok then ret (-EIO)
      else
        let* free_ret := EXT2FreeBlocksFrom inode new_block_count in
        if free_ret <? 0 then ret free_ret
        else
          ino_upd inode (set_isize new_size);;
          let* now := unix_time in
          data_upd inode (set_modified_at now);;
          let* _ := EXT2WriteInode inode in
          ret 0.

Definition EXT2TruncateInner (file : file_t) (new_size : Z) : M ext2 Z :=
  let inode := f_inode file in
  if inode =? 0 then ret (-EINVAL)
  else
    let* n := ino_at inode in
    if new_size =? isize n then ret 0
    else if (type n =? VFS_TYPE_SYMLINK) && (isize n <=? MAX_FAST_SYMLINK_LENGTH) then
      if MAX_FAST_SYMLINK_LENGTH <? new_size then ret (-EINVAL)
      else
        when (new_size <? isize n) (blk_bytes_upd inode new_size (replicate (Z.to_nat (isize n - new_size)) 0));;
        ino_upd inode (set_isize new_size);;
        let* now := unix_time in
        data_upd inode (set_modified_at now);;
        let* _ := EXT2WriteInode inode in
        ret 0
    else if new_size <? isize n then EXT2ShrinkFile inode (isize n - new_size)
    else EXT2ExpandFile inode (new_size - isize n).

Definition EXT2Truncate (file : file_t) (new_size : Z) : M ext2 Z :=
  if f_inode file =? 0 then ret (-EINVAL) else fs_op (λ e, e) (EXT2TruncateInner file new_size).

(** * Writing *)

Definition CheckSizeForWrite (file : file_t) (size : Z) : M ext2 Z :=
  if f_inode file =? 0 then ret (-EINVAL)
  else if UINT64_MAX - size <? position file then ret (-EINVAL)
  else
    let* n := ino_at (f_inode file) in
    let end_offset := wrap64 (position file + size) in
    if isize n <? end_offset then
      let* truncate_ret := EXT2TruncateInner file end_offset in
      ret (if truncate_ret <? 0 then truncate_ret else 0)
    else ret 0.

(** Prepending a block to the list to flush; without memory it is left out. *)
Definition cache_block (b : Z) (private : option ext2_private_file_t) : M ext2 (option ext2_private_file_t) :=
  let* s := get in
  if small_free s then
    let* p := of_option private in ret (Some (Priv (dir_blocks_offset p) (dir_bytes_offset p) (b :: cached_blocks p)))
  else ret private.

Record write_vars := Wv { wr_i : Z; wr_off : Z; wr_remain : Z; wr_file : file_t }.
Definition write_step (buf : list Z) (last : Z) (v : write_vars) : M ext2 (write_vars + bool * write_vars) :=
  let f := wr_file v in
  if negb ((wr_i v <? last) && (0 <? wr_remain v)) then ret (inr (true, v))
  else
    let append := block_size - position f mod block_size in
    let append := if wr_remain v <? append then wr_remain v else append in
    let next f := Wv (wr_i v + 1) (wr_off v + append) (wr_remain v - append) (set_position (wrap64 (position f + append)) f) in
    let* curr_block := FindDataBlock (f_inode f) (wr_i v) in
    if curr_block =? 0 then ret (inl (next f))
    else
      let* private := cache_block (wrap64 curr_block) (private_data f) in
      let f := set_private private f in
      let* temp_buf := bread curr_block in
      if negb temp_buf then ret (inr (false, Wv (wr_i v) (wr_off v) (wr_remain v) f))
      else if wr_off v + append <=? Z.of_nat (length buf) then
        buf_write curr_block (position f mod block_size) (sub buf (Z.to_nat (wr_off v)) (Z.to_nat append));;
        bwrite curr_block;;
        ret (inl (next f))
      else undef.

Definition EXT2Write (file : file_t) (buf : list Z) (size : Z) : M ext2 (Z * file_t) :=
  if f_inode file =? 0 then ret (-EINVAL, file)
  else if UINT64_MAX - size <? position file then ret (-EINVAL, file)
  else fs_op (λ e, (e, file)) (
    let* blockscheck_ret := CheckSizeForWrite file size in
    if blockscheck_ret <? 0 then ret (blockscheck_ret, file)
    else
      let start_block := position file / block_size in
      let blocks_to_write := wrap64 (size + position file mod block_size + block_size - 1) / block_size in
      let* r := loop (S (Z.to_nat blocks_to_write)) (write_step buf (wrap64 (start_block + blocks_to_write))) (Wv start_block 0 size file) in
      let '(ok, v) := r in
      ret (if ok : bool then to_s64 (size - wr_remain v) else -EIO, wr_file v)).

(** * Listing a directory *)

(** One call of [EXT2ReadDirInner]: either it calls itself with the advanced
    position, or it returns the result, the file and the entry. *)
Definition readdir_step (out : dentry_t) (file : file_t) : M ext2 (file_t + Z * file_t * dentry_t) :=
  let* n := ino_at (f_inode file) in
  let* p := of_option (private_data file) in
  if isize n <=? wrap64 (dir_blocks_offset p * block_size + dir_bytes_offset p) then ret (inr (0, file, out))
  else
    let* b := FindDataBlock (f_inode file) (dir_blocks_offset p) in
    let block_to_read := wrap32 b in
    let off := dir_bytes_offset p in
    bread_use block_to_read;;
    let* ino := de_inode block_to_read off in
    let* rec_len := de_rec_len block_to_read off in
    let bytes_offset := wrap32 (off + rec_len) in
    let next := if bytes_offset <? block_size then Priv (dir_blocks_offset p) bytes_offset (cached_blocks p)
                else Priv (inc32 (dir_blocks_offset p)) 0 (cached_blocks p) in
    if ino =? 0 then brelse block_to_read;; ret (inl (set_private (Some next) file))
    else
      let* name_len := de_name_len block_to_read off in
      let* s := get in
      if negb (small_free s) then undef
      else
        let* name := buf_read block_to_read (off + 8) name_len in
        let* q := EXT2AllocInode in
        if q =? 0 then undef
        else
          data_upd q (set_inode_number ino);;
          let* read_ret := EXT2ReadInode q in
          if read_ret <? 0 then brelse block_to_read;; ret (inr (read_ret, file, Dentry [] q))
          else brelse block_to_read;; ret (inr (name_len, set_private (Some next) file, Dentry name q)).
Definition EXT2ReadDirInner (file : file_t) (out : dentry_t) : M ext2 (Z * file_t * dentry_t) :=
  let* n := ino_at (f_inode file) in loop (S (Z.to_nat (isize n))) (readdir_step out) file.
Definition EXT2ReadDir (file : file_t) (out : dentry_t) : M ext2 (Z * file_t * dentry_t) :=
  if f_inode file =? 0 then ret (-EINVAL, file, out) else fs_op (λ e, (e, file, out)) (EXT2ReadDirInner file out).

(** * Opening, flushing, closing, seeking *)

Definition EXT2Open (file : file_t) : M ext2 (Z * file_t) :=
  let* s := get in
  if negb (small_free s) then ret (-ENOMEM, file) else ret (0, set_private (Some (Priv 0 0 [])) file).

Fixpoint flush_blocks (l : list Z) : M ext2 unit :=
  match l with [] => ret tt | b :: l => bflush b;; brelse b;; flush_blocks l end.
Definition EXT2Flush (file : file_t) : M ext2 (Z * file_t) :=
  match private_data file with
  | None => ret (-EINVAL, file)
  | Some p => flush_blocks (cached_blocks p);; ret (0, set_private (Some (Priv (dir_blocks_offset p) (dir_bytes_offset p) [])) file)
  end.

Definition EXT2Close (file : file_t) : M ext2 (Z * file_t) :=
  match private_data file with
  | None => ret (0, file)
  | Some _ =>
      let* r := EXT2Flush file in
      let '(flush_ret, file) := r in
      if flush_ret <? 0 then ret (flush_ret, file)
      else
        (if f_inode file =? 0 then ret tt else let* _ := EXT2WriteInode (f_inode file) in ret tt);;
        ret (0, set_private None file)
  end.

Definition SEEK_SET : Z := 0.
Definition SEEK_CUR : Z := 1.
Definition SEEK_END : Z := 2.
(** Signed overflow is undefined. *)
Definition EXT2Seek (file : file_t) (offset whence : Z) : M ext2 (Z * file_t) :=
  if f_inode file =? 0 then ret (-EINVAL, file)
  else
    let* n := ino_at (f_inode file) in
    let seek base :=
      let new_pos := base + offset in
      if (new_pos <? - 2 ^ 63) || (2 ^ 63 <=? new_pos) then undef
      else if new_pos <? 0 then ret (-EINVAL, file) else ret (new_pos, set_position new_pos file) in
    if whence =? SEEK_SET then seek 0
    else if whence =? SEEK_CUR then seek (to_s64 (position file))
    else if whence =? SEEK_END then seek (to_s64 (isize n))
    else ret (-EINVAL, file).

Definition EXT2_IOC_GET_INO : Z := 1.
Definition EXT2_IOC_GET_SIZE : Z := 2.
Definition EXT2_IOC_GET_BLOCK_SIZE : Z := 3.
Definition EXT2_IOC_FIBMAP : Z := 4.
Definition EXT2_IOC_SYNC_FILE : Z := 5.
(** [arg] is the word it points to, if it is not NULL; 32-bit results replace its low half. *)
Definition EXT2Ioctl (file : file_t) (cmd : Z) (arg : option Z) : M ext2 (Z * file_t * option Z) :=
  let low v a := Z.lor (Z.land a (2 ^ 64 - 2 ^ 32)) (wrap32 v) in
  if f_inode file =? 0 then ret (-EINVAL, file, arg)
  else
    let* n := ino_at (f_inode file) in
    if cmd =? EXT2_IOC_GET_INO then
      match arg with None => ret (-EINVAL, file, arg) | Some a => ret (0, file, Some (low (inode_number (data n)) a)) end
    else if cmd =? EXT2_IOC_GET_SIZE then
      match arg with None => ret (-EINVAL, file, arg) | Some _ => ret (0, file, Some (isize n)) end
    else if cmd =? EXT2_IOC_GET_BLOCK_SIZE then
      match arg with None => ret (-EINVAL, file, arg) | Some a => ret (0, file, Some (low block_size a)) end
    else if cmd =? EXT2_IOC_FIBMAP then
      match arg with
      | None => ret (-EINVAL, file, arg)
      | Some logical => let* phys := FindDataBlock (f_inode file) logical in ret (if phys <? 0 then (phys, file, arg) else (0, file, Some phys))
      end
    else if cmd =? EXT2_IOC_SYNC_FILE then
      let* r := EXT2Flush file in
      let '(flush_ret, file) := r in
      if flush_ret <? 0 then ret (flush_ret, file, arg)
      else let* _ := EXT2WriteInode (f_inode file) in ret (0, file, arg)
    else ret (-ENOTTY, file, arg).

(** * Group descriptors, sync and unmount *)

Definition bgdt_block : Z := if block_size =? 1024 then 2 else 1.
Definition groups : nat := Z.to_nat block_group_count.

(** [buf[i]] of the descriptor table, 32 bytes each; [pad] and [reserved] are not touched. *)
Definition EXT2ReadBG (i : Z) : M ext2 ext2_block_group_t :=
  let* l := buf_read bgdt_block (32 * i) 32 in
  ret (Bg (raw_get l 0 4) (raw_get l 4 4) (raw_get l 8 4) (raw_get l 12 2) (raw_get l 14 2) (raw_get l 16 2)).
Definition EXT2WriteBG (i : Z) (g : ext2_block_group_t) : M ext2 unit :=
  buf_write bgdt_block (32 * i)
    (le_encode 4 (block_bitmap g) ++ le_encode 4 (inode_bitmap g) ++ le_encode 4 (inode_table g) ++
     le_encode 2 (free_blocks_count g) ++ le_encode 2 (free_inodes_count g) ++ le_encode 2 (used_dirs_count g)).

Fixpoint read_groups (n : nat) (i : Z) : M ext2 (list ext2_block_group_t) :=
  match n with O => ret [] | S n => let* g := EXT2ReadBG i in let* l := read_groups n (i + 1) in ret (g :: l) end.
(** The array [bgdt] is allocated for the groups; without memory it is NULL. *)
Definition EXT2ReadBGDT (has_memory : bool) : M ext2 Z :=
  if block_size =? 0 then ret 1
  else
    bread_use bgdt_block;;
    (if has_memory || (block_group_count =? 0) then let* l := read_groups groups 0 in modify (set_bgdt l) else undef);;
    brelse bgdt_block;;
    ret 0.

Definition EXT2WriteBGDT : M ext2 Z :=
  if block_size =? 0 then ret 1
  else
    bread_use bgdt_block;;
    for_from groups 0 (λ i, let* g := bg_at i in EXT2WriteBG i g);;
    bwrite bgdt_block;;
    ret 0.

(** The superblock at byte [off] of block [b]. *)
Definition CopyInternalToSbExt (b off : Z) : M ext2 Z :=
  let* s := get in
  put_le 4 b (off + 16) (free_inodes s);;
  put_le 4 b (off + 12) (free_blocks s);;
  put_le 2 b (off + 58) (vol_state s);;
  let* _ := EXT2WriteBGDT in
  ret 0.

Definition EXT2Sync : M ext2 Z :=
  let b := 1024 / block_size in
  bread_use b;;
  let* _ := CopyInternalToSbExt b (1024 mod block_size) in
  bwrite b;;
  brelse b;;
  bflush_all;;
  ret 0.

Definition EXT2_VALID_FS : Z := 1.
(** The wait for the requests in flight ends when others finish them. *)
Definition EXT2Umount : M ext2 Z :=
  modify (set_unmounting true);;
  let* s := get in
  if 0 <? io_inflight s then undef
  else
    modify (set_vol_state EXT2_VALID_FS);;
    let* _ := EXT2Sync in
    bclean_all;;
    ret 0.
End Files.

(** * Mounting: the superblock *)

Definition EXT2_MAGIC : Z := 0xEF53.
(** [CopySbExtToInternal] up to the group descriptors: the geometry, the free
    block and inode counts and the state, from the superblock's bytes. *)
Definition CopySbExtToInternal (sector : Z) (raw : list Z) : option (Volume * (Z * Z * Z)) :=
  let u32 (off : nat) := raw_get raw off 4 in
  let u16 (off : nat) := raw_get raw off 2 in
  if negb (u16 56%nat =? EXT2_MAGIC) then None
  else
    let bs := wrap32 (Z.shiftl 1024 (u32 24%nat)) in
    Some (Vol (if bs <? 2 ^ 31 then bs else bs + (2 ^ 64 - 2 ^ 32)) sector (u32 32%nat) (u32 40%nat) (if 1 <=? u32 76%nat then u16 88%nat else 128) (u32 20%nat) (u32 4%nat / u32 32%nat),
          (u32 12%nat, u32 16%nat, u16 58%nat)).
