(* ===== verification/Ext2Cache.v ===== *)
(** ext2: what its routines may rely on from the block buffers. The cache and
    the device together stand for an array of blocks ([content]); a buffer in
    use stays cached, so that its changes are not lost before [bwrite] marks
    them. Each buffer routine is specified on that array and on the reference
    counts; a routine that leaves both as they were is [quiet]. *)

From S2P Require Import Prelude BitMath Bytes Ext2.

(** What ext2 relies on: there is memory, and a buffer that makes room is an
    unreferenced one, found when there is one. *)
Class KernelOk `{Kernel} := {
  page_ok : forall m, page_free m = true;
  victim_ok : forall m v u, m !! v = Some u -> refs u = 0 -> exists v' u', victim m = Some v' /\ m !! v' = Some u' /\ refs u' = 0;
  small_ok : forall s, small_free s = true;
  inode_ok : forall m, new_inode m <> 0 /\ m !! new_inode m = None }.

Definition upd {A} (f : Z -> A) (b : Z) (v : A) : Z -> A := λ x, if decide (x = b) then v else f x.
Lemma upd_eq {A} (f : Z -> A) b v : upd f b v b = v.
Proof. unfold upd. now rewrite decide_True. Qed.
Lemma upd_ne {A} (f : Z -> A) b v x : x <> b -> upd f b v x = f x.
Proof. intros. unfold upd. now rewrite decide_False. Qed.

Definition content (s : ext2) (b : Z) : option (list Z) :=
  match bufs s !! b with Some u => Some (bytes u) | None => disk s !! b end.
Definition rc (s : ext2) (b : Z) : Z := match bufs s !! b with Some u => refs u | None => 0 end.
(** Everything but the blocks. *)
Definition core (s : ext2) : ext2 := set_disk ∅ (set_bufs ∅ s).

(** The buffers whose changes are not marked yet are those of [X], all in use. *)
Record consistent (X : gset Z) (s : ext2) : Prop := {
  co_lock : cache_lock s = false;
  co_refs : forall b u, bufs s !! b = Some u -> 0 <= refs u;
  co_held : forall b, b ∈ X -> 0 < rc s b;
  co_clean : forall b u, bufs s !! b = Some u -> b ∉ X -> dirty u = false -> disk s !! b = Some (bytes u) }.

Record st (X : gset Z) (c : Z -> option (list Z)) (r : Z -> Z) (s : ext2) : Prop := {
  st_ok : consistent X s;
  st_content : forall b, content s b = c b;
  st_refs : forall b, rc s b = r b }.

(** At most [4096 - k] buffers are in use. *)
Definition room (k : Z) (r : Z -> Z) : Prop :=
  exists h : gset Z, (forall b, 0 < r b -> b ∈ h) /\ Z.of_nat (size h) + k <= BUFFER_CACHE_CAP.

Lemma room_le k k' r : room k r -> k' <= k -> room k' r.
Proof. intros (h & ? & ?) ?. exists h. split; [easy | lia]. Qed.

Lemma room_upd k r b v : room (k + 1) r -> room k (upd r b v).
Proof.
  intros (h & Hh & Hk). exists ({[b]} ∪ h). split.
  - intros x. unfold upd. case_decide; set_solver.
  - pose proof (size_union_alt {[b]} h) as E. pose proof (subseteq_size (h ∖ {[b]}) h ltac:(set_solver)).
    rewrite size_singleton in E. lia.
Qed.

Lemma st_ext X c c' r r' s : st X c r s -> (forall b, c' b = c b) -> (forall b, r' b = r b) -> st X c' r' s.
Proof. intros [H Hc Hr] Ec Er. split; [exact H| |]; intros b; [now rewrite Hc, Ec | now rewrite Hr, Er]. Qed.

(** The other fields do not matter. *)
Lemma st_core X c r s s' : st X c r s -> disk s' = disk s -> bufs s' = bufs s -> cache_lock s' = cache_lock s -> st X c r s'.
Proof.
  intros [[H1 H2 H3 H4] Hc Hr] Ed Eb El. unfold content, rc in *.
  split; [split|..]; unfold content, rc; rewrite ?Ed, ?Eb, ?El; assumption.
Qed.

Lemma core_inodes s s' : core s' = core s -> inodes s' = inodes s.
Proof. intros E. exact (f_equal inodes E). Qed.
Lemma core_bgdt s s' : core s' = core s -> bgdt s' = bgdt s.
Proof. intros E. exact (f_equal bgdt E). Qed.

Section Rules.
Context `{Volume} `{KK : Kernel} {KO : KernelOk}.

Lemma wp_cache_free X c r s (Q : unit -> ext2 -> Prop) : st X c r s -> Q tt s -> wp cache_free Q s.
Proof. intros [[Hl _ _ _] _ _] HQ. unfold cache_free, wp, bind, get. rewrite Hl. exact HQ. Qed.

(** With fewer than [4096] buffers in use, a full cache has one to give up. *)
Lemma find_victim X c r s : st X c r s -> room 1 r -> Z.of_nat (size (bufs s)) = BUFFER_CACHE_CAP ->
  exists v u, victim (bufs s) = Some v /\ bufs s !! v = Some u /\ refs u = 0.
Proof.
  intros [[_ Hnn _ _] _ Hr] (h & Hh & Hk) Hsz.
  assert (exists v u, bufs s !! v = Some u /\ refs u = 0) as (v & u & Ev & Eu); [|exact (victim_ok _ v u Ev Eu)].
  destruct (decide (map_Exists (λ _ u, refs u = 0) (bufs s))) as [(v & u & Ev & Eu)|Hno]; [eauto|]. exfalso.
  assert (dom (bufs s) ⊆ h) as Hsub.
  { intros b [u Eu]%elem_of_dom. apply Hh. rewrite <- Hr. unfold rc. rewrite Eu.
    pose proof (Hnn b u Eu). destruct (decide (refs u = 0)); [|lia]. elim Hno. now exists b, u. }
  apply subseteq_size in Hsub. rewrite size_dom in Hsub. lia.
Qed.

Lemma st_write_back X c r s v u : st X c r s -> bufs s !! v = Some u -> st X c r (write_back v u s).
Proof.
  intros [[H1 H2 H3 H4] Hc Hr] Ev. unfold write_back. destruct (dirty u) eqn:Ed; [|now split].
  split; [split|..]; simpl; auto.
  - intros b u' Eb HX Hd. destruct (decide (b = v)) as [->|]; [congruence|]. rewrite lookup_insert_ne by done. eauto.
  - intros b. rewrite <- Hc. unfold content. simpl. destruct (bufs s !! b) eqn:Eb; [easy|].
    rewrite lookup_insert_ne; [easy|congruence].
Qed.

(** Dropping an unreferenced buffer whose contents are on the device. *)
Lemma st_evict X c r s v u : st X c r s -> bufs s !! v = Some u -> refs u = 0 ->
  let s' := set_bufs (delete v (bufs s)) (write_back v u s) in st X c r s'.
Proof.
  intros Hst Ev Eu. pose proof (st_write_back X c r s v u Hst Ev) as [[W1 W2 W3 W4] Wc Wr]. simpl.
  assert (v ∉ X) as HvX. { intros Hv. destruct Hst as [[_ _ H3 _] _ _]. specialize (H3 v Hv). unfold rc in H3. rewrite Ev in H3. lia. }
  assert (bufs (write_back v u s) = bufs s) as Eb by (unfold write_back; now destruct (dirty u)).
  assert (disk (write_back v u s) !! v = Some (bytes u)) as Edv.
  { unfold write_back. destruct (dirty u) eqn:Ed; [apply lookup_insert_eq|]. destruct Hst as [[_ _ _ H4] _ _]. eauto. }
  rewrite <- Eb. set (w := write_back v u s) in *. rewrite <- Eb in Ev. clearbody w.
  split; [split|..]; simpl; auto.
  - intros b u' [_ Hb]%lookup_delete_Some. eauto.
  - intros b Hb. specialize (W3 b Hb). unfold rc in *. simpl. rewrite lookup_delete_ne by set_solver. exact W3.
  - intros b u' [Hne Hb]%lookup_delete_Some HX Hd. eauto.
  - intros b. rewrite <- Wc. unfold content. simpl. destruct (decide (b = v)) as [->|].
    + rewrite lookup_delete_eq, Ev. exact Edv.
    + now rewrite lookup_delete_ne by done.
  - intros b. rewrite <- Wr. unfold rc. simpl. destruct (decide (b = v)) as [->|].
    + now rewrite lookup_delete_eq, Ev.
    + now rewrite lookup_delete_ne by done.
Qed.

Lemma st_fill X c r s b l : st X c r s -> bufs s !! b = None -> disk s !! b = Some l ->
  st X c (upd r b (r b + 1)) (set_bufs (<[b := Buf 1 false l]> (bufs s)) s).
Proof.
  intros [[H1 H2 H3 H4] Hc Hr] Eb Ed. split; [split|..]; simpl; auto.
  - intros b' u [[_ <-]|[_ Hb']]%lookup_insert_Some; [simpl; lia|eauto].
  - intros b' Hb'. specialize (H3 b' Hb'). unfold rc in *. simpl. destruct (decide (b' = b)) as [->|]; [rewrite lookup_insert_eq; simpl; lia|].
    now rewrite lookup_insert_ne.
  - intros b' u [[<- <-]|[Hne Hb']]%lookup_insert_Some HX Hd; [exact Ed|eauto].
  - intros b'. rewrite <- Hc. unfold content. simpl. destruct (decide (b' = b)) as [->|]; [now rewrite lookup_insert_eq, Eb|now rewrite lookup_insert_ne].
  - intros b'. unfold upd. case_decide as E; [subst|]; rewrite <- Hr; unfold rc; simpl; [now rewrite lookup_insert_eq, Eb|now rewrite lookup_insert_ne].
Qed.

(** Replacing a cached buffer by one with the same bytes. *)
Lemma st_replace X X' c r s b u n d : st X c r s -> bufs s !! b = Some u -> 0 <= n ->
  X' = X \/ (d = true /\ X' = X ∖ {[b]}) -> (d = false -> dirty u = false) -> (b ∈ X' -> 0 < n) ->
  st X' c (upd r b n) (set_bufs (<[b := Buf n d (bytes u)]> (bufs s)) s).
Proof.
  intros [[H1 H2 H3 H4] Hc Hr] Eb Hn HX' Hd Hb. split; [split|..]; simpl; auto.
  - intros b' u' [[_ <-]|[_ Hb']]%lookup_insert_Some; [simpl; lia|eauto].
  - intros b' Hb'. unfold rc. simpl. destruct (decide (b' = b)) as [->|]; [rewrite lookup_insert_eq; simpl; auto|].
    rewrite lookup_insert_ne by done. apply H3. destruct HX' as [->|[_ ->]]; set_solver.
  - intros b' u' [[<- <-]|[Hne Hb']]%lookup_insert_Some HX Hd'; simpl in *.
    + destruct HX' as [->|[-> ->]]; [|discriminate]. eapply H4; eauto.
    + eapply H4; eauto. destruct HX' as [->|[_ ->]]; set_solver.
  - intros b'. rewrite <- Hc. unfold content. simpl. destruct (decide (b' = b)) as [->|]; [now rewrite lookup_insert_eq, Eb|now rewrite lookup_insert_ne].
  - intros b'. unfold upd. case_decide as E; [subst|]; rewrite <- ?Hr; unfold rc; simpl; [now rewrite lookup_insert_eq|now rewrite lookup_insert_ne].
Qed.

Definition word32 (b : Z) : Prop := is_word 32 b.

(** * The buffer routines *)

Lemma wp_bread X c r s b l : st X c r s -> room 1 r -> word32 b -> c b = Some l ->
  wp (bread b) (λ ok s', ok = true /\ st X c (upd r b (r b + 1)) s' /\ core s' = core s) s.
Proof.
  intros Hst Hroom Hb Hl. unfold bread. rewrite (wrap_small 32 b Hb). apply wp_bind. eapply wp_cache_free; [exact Hst|]. apply wp_bind, wp_get.
  destruct (bufs s !! b) as [u|] eqn:Eb.
  - assert (r b = refs u) as Er by (rewrite <- (st_refs _ _ _ _ Hst); unfold rc; now rewrite Eb).
    pose proof (co_refs _ _ (st_ok _ _ _ _ Hst) b u Eb). repeat wp_step.
    rewrite Er. split; [easy|]. split; [|easy]. apply (st_replace X X); auto; lia.
  - rewrite page_ok. simpl negb. cbv iota.
    assert (disk s !! b = Some l) as Ed by (pose proof (st_content _ _ _ _ Hst b) as E; unfold content in E; rewrite Eb in E; congruence).
    destruct (Z.eqb_spec (Z.of_nat (size (bufs s))) BUFFER_CACHE_CAP) as [Hfull|_].
    + destruct (find_victim X c r s Hst Hroom Hfull) as (v & u & Hv & Ev & Eu). rewrite Hv. apply wp_bind. eapply wp_of_option; [exact Ev|].
      repeat wp_step. pose proof (st_evict X c r s v u Hst Ev Eu) as He. simpl in He.
      set (w := set_bufs (delete v (bufs s)) (write_back v u s)) in *.
      assert (bufs w !! b = None) as Eb' by (unfold w; simpl; apply lookup_delete_None; auto).
      assert (disk w !! b = Some l) as Ed'.
      { pose proof (st_content _ _ _ _ He b) as E. unfold content in E. rewrite Eb' in E. congruence. }
      unfold bread_fill. apply wp_bind, wp_get, wp_bind. eapply wp_of_option; [exact Ed'|]. repeat wp_step.
      split; [easy|]. split; [now apply st_fill|]. unfold w, core, write_back. now destruct (dirty u).
    + unfold bread_fill. apply wp_bind, wp_get, wp_bind. eapply wp_of_option; [exact Ed|]. repeat wp_step.
      split; [easy|]. split; [now apply st_fill|easy].
Qed.

Lemma wp_bread_use X c r s b l : st X c r s -> room 1 r -> word32 b -> c b = Some l ->
  wp (bread_use b) (λ _ s', st X c (upd r b (r b + 1)) s' /\ core s' = core s) s.
Proof.
  intros Hst Hroom Hb Hl. unfold bread_use. apply wp_bind. eapply wp_mono; [exact (wp_bread X c r s b l Hst Hroom Hb Hl)|].
  intros ok s' (-> & H1 & H2). now apply wp_ret.
Qed.

(** A block in use is cached. *)
Lemma held_cached X c r s b : st X c r s -> 0 < r b -> exists u, bufs s !! b = Some u /\ refs u = r b /\ c b = Some (bytes u).
Proof.
  intros [_ Hc Hr] Hb. specialize (Hc b). specialize (Hr b). unfold content, rc in *.
  destruct (bufs s !! b) as [u|]; [|lia]. exists u. split_and!; congruence.
Qed.

Lemma wp_brelse X c r s b : st X c r s -> word32 b -> 0 < r b -> (b ∈ X -> 1 < r b) ->
  wp (brelse b) (λ _ s', st X c (upd r b (r b - 1)) s' /\ core s' = core s) s.
Proof.
  intros Hst Hb Hpos HX. destruct (held_cached X c r s b Hst Hpos) as (u & Eu & Er & _).
  unfold brelse. rewrite (wrap_small 32 b Hb). apply wp_bind. eapply wp_cache_free; [exact Hst|]. apply wp_bind, wp_get.
  rewrite Eu. apply wp_modify. split; [|easy]. destruct (Z.ltb_spec 0 (refs u)); [|lia]. rewrite Er. apply (st_replace X X); auto; [lia|intros E%HX; lia].
Qed.

Lemma wp_bwrite X c r s b : st X c r s -> word32 b -> 0 < r b ->
  wp (bwrite b) (λ _ s', st (X ∖ {[b]}) c r s' /\ core s' = core s) s.
Proof.
  intros Hst Hb Hpos. destruct (held_cached X c r s b Hst Hpos) as (u & Eu & Er & _).
  unfold bwrite. rewrite (wrap_small 32 b Hb). apply wp_bind. eapply wp_cache_free; [exact Hst|]. apply wp_bind, wp_get.
  rewrite Eu. apply wp_modify. split; [|easy].
  eapply st_ext; [apply (st_replace X (X ∖ {[b]}) c r s b u (refs u) true Hst Eu); auto; [lia|easy|lia]|easy|].
  intros b'. unfold upd. case_decide; [subst; congruence|easy].
Qed.

Lemma wp_buf_read X c r s b l off n : st X c r s -> word32 b -> 0 < r b -> c b = Some l ->
  0 <= off -> off + n <= Z.of_nat (length l) ->
  wp (buf_read b off n) (λ bs s', bs = sub l (Z.to_nat off) (Z.to_nat n) /\ s' = s) s.
Proof.
  intros Hst Hb Hpos Hl H1 H2. destruct (held_cached X c r s b Hst Hpos) as (u & Eu & Er & Ec).
  unfold buf_read. rewrite (wrap_small 32 b Hb). apply wp_bind, wp_get, wp_bind. eapply wp_of_option; [exact Eu|].
  assert (bytes u = l) as -> by congruence.
  rewrite (proj2 (Z.leb_le 0 off)), (proj2 (Z.leb_le (off + n) _)) by lia. now apply wp_ret.
Qed.

Lemma wp_get_le X c r s b l off n : st X c r s -> word32 b -> 0 < r b -> c b = Some l ->
  0 <= off -> off + Z.of_nat n <= Z.of_nat (length l) ->
  wp (get_le n b off) (λ v s', v = le_decode (sub l (Z.to_nat off) n) /\ s' = s) s.
Proof.
  intros Hst Hb Hpos Hl H1 H2. unfold get_le. apply wp_bind.
  eapply wp_mono; [exact (wp_buf_read X c r s b l off (Z.of_nat n) Hst Hb Hpos Hl H1 H2)|].
  intros bs s' [-> ->]. apply wp_ret. now rewrite Nat2Z.id.
Qed.

Lemma wp_buf_write X c r s b l off bs : st X c r s -> word32 b -> 0 < r b -> c b = Some l ->
  0 <= off -> off + Z.of_nat (length bs) <= Z.of_nat (length l) ->
  wp (buf_write b off bs) (λ _ s', st (X ∪ {[b]}) (upd c b (Some (put l (Z.to_nat off) bs))) r s' /\ core s' = core s) s.
Proof.
  intros Hst Hb Hpos Hl H1 H2. destruct (held_cached X c r s b Hst Hpos) as (u & Eu & Er & Ec).
  unfold buf_write. rewrite (wrap_small 32 b Hb). apply wp_bind, wp_get, wp_bind. eapply wp_of_option; [exact Eu|].
  assert (bytes u = l) as -> by congruence.
  rewrite (proj2 (Z.leb_le 0 off)), (proj2 (Z.leb_le (off + _) _)) by lia. apply wp_modify. split; [|easy].
  destruct Hst as [[G1 G2 G3 G4] Hc Hr]. split; [split|..]; simpl; auto.
  - intros b' u' [[_ <-]|[_ Hb']]%lookup_insert_Some; [simpl|]; eauto.
  - intros b' Hb'. unfold rc. simpl. destruct (decide (b' = b)) as [->|]; [rewrite lookup_insert_eq; simpl; lia|].
    rewrite lookup_insert_ne by done. apply G3. set_solver.
  - intros b' u' [[<- <-]|[Hne Hb']]%lookup_insert_Some HX Hd; [set_solver|]. eapply G4; eauto. set_solver.
  - intros b'. unfold upd. case_decide as E; [subst|]; rewrite <- ?Hc; unfold content; simpl; [now rewrite lookup_insert_eq|now rewrite lookup_insert_ne].
  - intros b'. rewrite <- Hr. unfold rc. simpl. destruct (decide (b' = b)) as [->|]; [now rewrite lookup_insert_eq, Eu|now rewrite lookup_insert_ne].
Qed.

(** * Routines that only read *)

(** [m] returns [v] and leaves the blocks, the counts and everything else as they are. *)
Definition quiet {A} (m : M ext2 A) (v : A) (X : gset Z) (c : Z -> option (list Z)) (r : Z -> Z) (s : ext2) : Prop :=
  wp m (λ a s', a = v /\ st X c r s' /\ core s' = core s) s.

Lemma quiet_ret {A} (v : A) X c r s : st X c r s -> quiet (ret v) v X c r s.
Proof. intros. now apply wp_ret. Qed.
End Rules.
