(* ===== verification/Ext2Map.v ===== *)
(** ext2: a file's blocks as a map. [bmap] is the map an inode's pointers
    describe: twelve direct blocks, then trees of one, two and three levels of
    pointer blocks. [FindDataBlock] computes it, and only reads. *)

From S2P Require Import Prelude BitMath Bytes Ext2 Ext2Cache Ext2Blocks.

Class VolumeOk `{Volume} := {
  bs_word : block_size mod 8 = 0;
  bs_range : 128 <= block_size <= 2 ^ 16;
  ss_pos : 0 < sector_size /\ sector_size * 2 <= 2 ^ 16;
  ss_div : block_size mod sector_size = 0 }.

Section Map.
Context `{Volume} {VO : VolumeOk} `{KK : Kernel} {KO : KernelOk}.

Abbreviation N := EXT2_BLOCKS_PER_BLOCK.

Lemma N_eq : block_size = 4 * N /\ 32 <= N <= 2 ^ 14.
Proof.
  unfold EXT2_BLOCKS_PER_BLOCK. pose proof bs_word. pose proof bs_range.
  pose proof (Z_div_mod_eq_full block_size 8). pose proof (Z_div_mod_eq_full block_size 4). pose proof (Z.mod_pos_bound block_size 4 ltac:(lia)). lia.
Qed.

Definition is_block (l : list Z) : Prop := Z.of_nat (length l) = block_size /\ Forall is_byte l.

(** Entry [i] of the pointer block [b]. *)
Definition ptr (c : Z -> option (list Z)) (b i : Z) : Z :=
  match c b with Some l => le_decode (sub l (Z.to_nat (4 * i)) 4) | None => 0 end.

(** Block [i] of the tree of [k] levels under [b]; a hole is 0. *)
Fixpoint tree_at (k : nat) (c : Z -> option (list Z)) (b i : Z) : Z :=
  match k with
  | O => b
  | S k => if b =? 0 then 0 else tree_at k c (ptr c b (i / N ^ Z.of_nat k)) (i mod N ^ Z.of_nat k)
  end.

Definition bmap (c : Z -> option (list Z)) (blocks : list Z) (i : Z) : Z :=
  let root j := nth j blocks 0 in
  if i <? 12 then root (Z.to_nat i)
  else if i <? 12 + N then tree_at 1 c (root 12%nat) (i - 12)
  else if i <? 12 + N + N ^ 2 then tree_at 2 c (root 13%nat) (i - 12 - N)
  else tree_at 3 c (root 14%nat) (i - 12 - N - N ^ 2).

Definition capacity : Z := 12 + N + N ^ 2 + N ^ 3.

(** Every block of the tree is on the volume. *)
Fixpoint tree_ok (k : nat) (c : Z -> option (list Z)) (b : Z) : Prop :=
  word32 b /\
  (b <> 0 -> (exists l, c b = Some l /\ is_block l) /\
    match k with O => True | S k => forall i, 0 <= i < N -> tree_ok k c (ptr c b i) end).

Record file_ok (c : Z -> option (list Z)) (blocks : list Z) : Prop := {
  fo_len : length blocks = 15%nat;
  fo_direct : forall j, (j < 12)%nat -> tree_ok 0 c (nth j blocks 0);
  fo_single : tree_ok 1 c (nth 12 blocks 0);
  fo_double : tree_ok 2 c (nth 13 blocks 0);
  fo_triple : tree_ok 3 c (nth 14 blocks 0) }.

Lemma sub_length l off n : (off + n <= length l)%nat -> length (sub l off n) = n.
Proof. intros. unfold sub. rewrite length_take, length_drop. lia. Qed.

Lemma sub_bytes l off n : Forall is_byte l -> Forall is_byte (sub l off n).
Proof. intros. unfold sub. now apply Forall_take, Forall_drop. Qed.

Lemma tree_ok_word k c b : tree_ok k c b -> word32 b.
Proof. destruct k; now intros [? _]. Qed.

Lemma tree_ok_block k c b : tree_ok k c b -> b <> 0 -> exists l, c b = Some l /\ is_block l.
Proof. destruct k; intros [_ Hb] Hn; now destruct (Hb Hn). Qed.

Lemma tree_ok_child k c b i : tree_ok (S k) c b -> b <> 0 -> 0 <= i < N -> tree_ok k c (ptr c b i).
Proof. intros [_ Hb] Hn Hi. destruct (Hb Hn) as [_ Hc]. now apply Hc. Qed.

Lemma tree_at_ok k c b i : tree_ok k c b -> 0 <= i < N ^ Z.of_nat k -> tree_ok 0 c (tree_at k c b i).
Proof.
  pose proof N_eq. revert b i. induction k as [|k IH]; intros b i Hb Hi; [exact Hb|]. cbn [tree_at].
  destruct (Z.eqb_spec b 0) as [->|Hn]; [split; [unfold word32, is_word; lia|easy]|].
  rewrite Nat2Z.inj_succ, Z.pow_succ_r in Hi by lia. assert (0 < N ^ Z.of_nat k) by (apply Z.pow_pos_nonneg; lia).
  apply IH; [apply tree_ok_child; auto; split; [apply Z.div_pos; lia|apply Z.div_lt_upper_bound; lia]|apply Z.mod_pos_bound; lia].
Qed.

Lemma bmap_ok c blocks i : file_ok c blocks -> 0 <= i < capacity -> tree_ok 0 c (bmap c blocks i).
Proof.
  intros [H0 H1 H2 H3 H4] Hi. unfold capacity in Hi. pose proof N_eq. assert (0 < N ^ 2) by nia. unfold bmap.
  destruct (Z.ltb_spec i 12); [apply H1; lia|].
  destruct (Z.ltb_spec i (12 + N)); [apply tree_at_ok; [exact H2|change (Z.of_nat 1) with 1; lia]|].
  destruct (Z.ltb_spec i (12 + N + N ^ 2)); apply tree_at_ok; auto; change (Z.of_nat 2) with 2; change (Z.of_nat 3) with 3; lia.
Qed.

(** * Running through a pointer block *)

Lemma wp_ptr X c r s b i k : st X c r s -> tree_ok (S k) c b -> b <> 0 -> 0 < r b -> 0 <= i < N ->
  wp (get_le 4 b (4 * i)) (λ v s', v = ptr c b i /\ s' = s) s.
Proof.
  intros Hst Hok Hb Hr Hi. pose proof N_eq. destruct (tree_ok_block _ _ _ Hok Hb) as (l & Hl & Hlen & _).
  eapply wp_mono; [eapply (wp_get_le X c r s b l (4 * i) 4 Hst (tree_ok_word _ _ _ Hok) Hr Hl); lia|].
  intros v s' [-> ->]. split; [|easy]. unfold ptr. now rewrite Hl.
Qed.

Lemma wp_open_block X c r s b k : st X c r s -> room 1 r -> tree_ok k c b -> b <> 0 ->
  wp (bread_use b) (λ _ s', st X c (upd r b (r b + 1)) s' /\ core s' = core s) s.
Proof.
  intros Hst Hroom Hok Hb. destruct (tree_ok_block _ _ _ Hok Hb) as (l & Hl & _).
  exact (wp_bread_use X c r s b l Hst Hroom (tree_ok_word _ _ _ Hok) Hl).
Qed.

Definition nonneg (r : Z -> Z) : Prop := forall b, 0 <= r b.
Lemma nonneg_upd r b v : nonneg r -> 0 <= v -> nonneg (upd r b v).
Proof. intros Hr Hv x. unfold upd. case_decide; auto. Qed.
Lemma st_nonneg X c r s : st X c r s -> nonneg r.
Proof. intros [[_ H2 _ _] _ Hr] b. rewrite <- Hr. unfold rc. destruct (bufs s !! b) eqn:E; eauto. lia. Qed.

(** Releasing a reference taken before. *)
Lemma wp_close X c r s b : st X c r s -> word32 b -> 0 < r b -> (b ∈ X -> 1 < r b) ->
  wp (brelse b) (λ _ s', st X c (upd r b (r b - 1)) s' /\ core s' = core s) s.
Proof. apply wp_brelse. Qed.

(** Closes counts that were raised and lowered again. *)
Ltac counts := intros ?b; unfold upd; repeat case_decide; subst; first [easy | lia | congruence].

Lemma lookup_nth (l : list Z) i : (i < length l)%nat -> l !! i = Some (nth i l 0).
Proof. intros Hi. destruct (nth_lookup_or_length l i 0); [easy|lia]. Qed.

Lemma wp_blk_at s p n i (Q : Z -> ext2 -> Prop) : inodes s !! p = Some n -> length (i_block (data n)) = 15%nat -> 0 <= i < 15 ->
  Q (nth (Z.to_nat i) (i_block (data n)) 0) s -> wp (blk_at p i) Q s.
Proof.
  intros Hp Hlen Hi HQ. unfold blk_at, ino_at. rewrite wp_bind, wp_bind, wp_get. eapply wp_of_option; [exact Hp|].
  eapply wp_of_option; [|exact HQ]. unfold arr_get. destruct (Z.ltb_spec i 0); [lia|]. apply lookup_nth. lia.
Qed.

Ltac run H := apply wp_bind; eapply wp_mono; [eapply H; eauto|]; cbv beta.

Lemma held_X X c r s b : st X c r s -> b ∈ X -> 0 < r b.
Proof. intros [[_ _ H3 _] _ Hr] Hb. rewrite <- Hr. auto. Qed.

Lemma single_ok X c r s p n idx : st X c r s -> room 1 r -> p <> 0 -> inodes s !! p = Some n -> file_ok c (i_block (data n)) ->
  12 <= idx < 12 + N -> quiet (FindIndirect p idx) (tree_at 1 c (nth 12 (i_block (data n)) 0) (idx - 12)) X c r s.
Proof.
  intros Hst Hroom Hp0 Hp Hf Hi. pose proof N_eq. unfold quiet, FindIndirect. destruct (Z.eqb_spec p 0); [easy|]. apply wp_bind.
  eapply wp_blk_at; [exact Hp|apply Hf|lia|]. change (Z.to_nat 12) with 12%nat. pose proof (fo_single _ _ Hf) as Hok.
  set (b := nth 12 (i_block (data n)) 0) in *. clearbody b. cbn [tree_at]. destruct (Z.eqb_spec b 0) as [->|Hb]; [now apply wp_ret|].
  pose proof (st_nonneg _ _ _ _ Hst) as Hnn. pose proof (Hnn b). change (N ^ Z.of_nat 0) with 1. rewrite Z.div_1_r.
  run wp_open_block. intros _ s1 [S1 C1]. rewrite (wrap_small 32 (idx - 12)) by (unfold is_word; lia). rewrite (Z.mod_small (idx - 12)) by lia.
  run (wp_ptr X c (upd r b (r b + 1)) s1 b (idx - 12) 0%nat); [rewrite upd_eq; lia|lia|]. intros v s2 [-> ->].
  run wp_close; [apply (tree_ok_word _ _ _ Hok)|rewrite upd_eq; lia|intros Hx%(held_X _ _ _ _ _ Hst); rewrite upd_eq; lia|].
  intros _ s3 [S3 C3]. assert (st X c r s3) by (eapply st_ext; [exact S3|easy|counts]).
  destruct (ptr c b (idx - 12) =? 0) eqn:E; apply wp_ret; split_and!; auto; try congruence. now apply Z.eqb_eq in E.
Qed.

(** Opening a pointer block and reading an entry of it. *)
Lemma wp_open_ptr {A} X c r s b i k (K : Z -> M ext2 A) Q : st X c r s -> room 1 r -> tree_ok (S k) c b -> b <> 0 -> 0 <= i < N ->
  (forall s', st X c (upd r b (r b + 1)) s' -> core s' = core s -> wp (K (ptr c b i)) Q s') ->
  wp (bread_use b;; let* v := get_le 4 b (4 * i) in K v) Q s.
Proof.
  intros Hst Hroom Hok Hb Hi HK. pose proof (st_nonneg _ _ _ _ Hst b). run wp_open_block. intros _ s1 [S1 C1].
  run (wp_ptr X c (upd r b (r b + 1)) s1 b i k); [rewrite upd_eq; lia|]. intros v s2 [-> ->]. now apply HK.
Qed.

(** Releasing a block that was opened over the counts [r0]. *)
Lemma wp_close_then {A} X c r0 r s b (K : M ext2 A) Q : (forall x, x ∈ X -> 0 < r0 x) -> (forall x, 0 <= r0 x) ->
  st X c r s -> word32 b -> r0 b < r b ->
  (forall s', st X c (upd r b (r b - 1)) s' -> core s' = core s -> wp K Q s') -> wp (brelse b;; K) Q s.
Proof.
  intros HX Hnn Hst Hb Hr HK. run wp_close; [specialize (Hnn b); lia|intros Hx%HX; lia|]. intros _ s1 [S1 C1]. now apply HK.
Qed.

(** The tail of the searches: the blocks opened over [r0] are released. *)
Ltac close_all Hst :=
  let X1 := fresh in let N1 := fresh in
  pose proof (λ b, held_X _ _ _ _ b Hst) as X1; pose proof (st_nonneg _ _ _ _ Hst) as N1;
  repeat (eapply wp_close_then; [exact X1|exact N1|eassumption|eapply tree_ok_word; eassumption|unfold upd; repeat case_decide; subst; lia|intros ? ? ?]);
  apply wp_ret; split_and!; [auto|eapply st_ext; [eassumption|easy|counts]|congruence].

Lemma double_ok X c r s p n idx : st X c r s -> room 2 r -> p <> 0 -> inodes s !! p = Some n -> file_ok c (i_block (data n)) ->
  12 + N <= idx < 12 + N + N ^ 2 -> nth 13 (i_block (data n)) 0 <> 0 ->
  quiet (FindDoubleIndirect p idx) (tree_at 2 c (nth 13 (i_block (data n)) 0) (idx - 12 - N)) X c r s.
Proof.
  intros Hst Hroom Hp0 Hp Hf Hi Hb. pose proof N_eq. assert (N ^ 2 = N * N) by ring. assert (0 < N ^ 2 <= 2 ^ 28) by nia. unfold quiet, FindDoubleIndirect.
  destruct (Z.eqb_spec p 0); [easy|]. apply wp_bind. eapply wp_blk_at; [exact Hp|apply Hf|lia|]. change (Z.to_nat 13) with 13%nat.
  pose proof (fo_double _ _ Hf) as Hok. set (b := nth 13 (i_block (data n)) 0) in *. clearbody b. cbn [tree_at]. rewrite (proj2 (Z.eqb_neq b 0) Hb).
  change (N ^ Z.of_nat 1) with (N ^ 1). change (N ^ Z.of_nat 0) with 1. rewrite Z.pow_1_r, Z.div_1_r.
  assert (double_rest idx = idx - 12 - N) as Ed.
  { unfold double_rest. rewrite (wrap_small 32), wrap64_small by (unfold is_word; lia). lia. }
  rewrite Ed. assert (0 <= idx - 12 - N < N * N) as Hj by lia. set (j := idx - 12 - N) in *. clearbody j.
  assert (0 <= j / N < N) by (split; [apply Z.div_pos; lia|apply Z.div_lt_upper_bound; lia]). assert (0 <= j mod N < N) by (apply Z.mod_pos_bound; lia).
  eapply wp_open_ptr; [eassumption|eapply room_le; [eassumption|lia]|eassumption..|]. intros s1 S1 C1.
  assert (tree_ok _ c (ptr c _ (j / N))) as Hok1 by (apply (tree_ok_child _ _ _ _ Hok Hb); lia). set (b1 := ptr c b (j / N)) in *. clearbody b1.
  destruct (Z.eqb_spec b1 0) as [E|Hb1]; [close_all Hst|].
  eapply wp_open_ptr; [eassumption|apply room_upd, Hroom|eassumption..|]. intros s2 S2 C2. close_all Hst.
Qed.

Lemma triple_ok X c r s p n idx : st X c r s -> room 3 r -> p <> 0 -> inodes s !! p = Some n -> file_ok c (i_block (data n)) ->
  12 + N + N ^ 2 <= idx < capacity -> idx < 2 ^ 32 ->
  quiet (FindTripleIndirect p idx) (tree_at 3 c (nth 14 (i_block (data n)) 0) (idx - 12 - N - N ^ 2)) X c r s.
Proof.
  intros Hst Hroom Hp0 Hp Hf Hi Hi32. unfold capacity in Hi. pose proof N_eq. assert (N ^ 2 = N * N) by ring. assert (0 < N ^ 2 <= 2 ^ 28) by nia. assert (N ^ 3 = N * (N * N)) by ring.
  unfold quiet, FindTripleIndirect. destruct (Z.eqb_spec p 0); [easy|]. apply wp_bind. eapply wp_blk_at; [exact Hp|apply Hf|lia|]. change (Z.to_nat 14) with 14%nat.
  pose proof (fo_triple _ _ Hf) as Hok. set (b := nth 14 (i_block (data n)) 0) in *. clearbody b. cbn [tree_at]. destruct (Z.eqb_spec b 0) as [E|Hb]; [now apply wp_ret|].
  change (N ^ Z.of_nat 2) with (N ^ 2). change (N ^ Z.of_nat 1) with (N ^ 1). change (N ^ Z.of_nat 0) with 1. rewrite Z.pow_1_r, Z.div_1_r.
  assert (wrap64 (N * N) = N ^ 2) as E2 by (rewrite wrap64_small; nia).
  assert (triple_rest idx = idx - 12 - N - N ^ 2) as Ed.
  { unfold triple_rest, double_rest. rewrite E2, (wrap_small 32), !wrap64_small by (unfold is_word; rewrite ?wrap64_small; lia). lia. }
  rewrite E2, Ed. assert (0 <= idx - 12 - N - N ^ 2 < N * (N * N)) as Hj by lia. set (j := idx - 12 - N - N ^ 2) in *. clearbody j.
  assert (0 <= j / N ^ 2 < N) by (split; [apply Z.div_pos; lia|apply Z.div_lt_upper_bound; nia]).
  assert (0 <= j mod N ^ 2 < N ^ 2) by (apply Z.mod_pos_bound; lia). assert (0 <= j mod N < N) by (apply Z.mod_pos_bound; lia).
  assert (j mod N ^ 2 / N = (j / N) mod N) as Em.
  { replace (N ^ 2) with (N * N) by ring. rewrite (Z.rem_mul_r j N N), (Z.mul_comm N (_ mod _)), Z.div_add by lia. rewrite (Z.div_small (j mod N)) by lia. lia. }
  assert ((j mod N ^ 2) mod N = j mod N) as Em2.
  { replace (N ^ 2) with (N * N) by ring. rewrite (Z.rem_mul_r j N N), (Z.mul_comm N (_ mod _)), Z_mod_plus_full by lia. apply Z.mod_small. lia. }
  rewrite Em, Em2. assert (0 <= (j / N) mod N < N) by (apply Z.mod_pos_bound; lia).
  eapply wp_open_ptr; [eassumption|eapply room_le; [eassumption|lia]|eassumption..|]. intros s1 S1 C1.
  assert (tree_ok _ c (ptr c _ (j / N ^ 2))) as Hok1 by (apply (tree_ok_child _ _ _ _ Hok Hb); lia). set (b1 := ptr c b (j / N ^ 2)) in *. clearbody b1.
  destruct (Z.eqb_spec b1 0) as [E|Hb1]; [close_all Hst|].
  eapply wp_open_ptr; [eassumption|apply (room_le 2); [apply room_upd, Hroom|lia]|eassumption..|]. intros s2 S2 C2.
  assert (tree_ok _ c (ptr c _ ((j / N) mod N))) as Hok2 by (apply (tree_ok_child _ _ _ _ Hok1 Hb1); lia). set (b2 := ptr c b1 ((j / N) mod N)) in *. clearbody b2.
  destruct (Z.eqb_spec b2 0) as [E|Hb2]; [close_all Hst|].
  eapply wp_open_ptr; [eassumption|do 2 apply room_upd; exact Hroom|eassumption..|]. intros s3 S3 C3. close_all Hst.
Qed.

(** The double indirect block is not checked for a hole. *)
Definition no_double_hole (blocks : list Z) (idx : Z) : Prop := 12 + N <= idx < 12 + N + N ^ 2 -> nth 13 blocks 0 <> 0.

Lemma find_data_block_ok X c r s p n idx : st X c r s -> room 3 r -> p <> 0 -> inodes s !! p = Some n -> file_ok c (i_block (data n)) ->
  0 <= idx < capacity -> idx < 2 ^ 32 -> no_double_hole (i_block (data n)) idx ->
  quiet (FindDataBlock p idx) (bmap c (i_block (data n)) idx) X c r s.
Proof.
  intros Hst Hroom Hp0 Hp Hf Hi Hi32 Hd. pose proof N_eq. assert (N ^ 2 = N * N) by ring. assert (0 < N ^ 2 <= 2 ^ 28) by nia. unfold FindDataBlock, bmap.
  rewrite (wrap_small 32 idx) by (unfold is_word; lia). rewrite !wrap64_small by nia. replace (N * N) with (N ^ 2) by ring. destruct (Z.eqb_spec p 0); [easy|].
  destruct (Z.ltb_spec idx 12).
  { eapply wp_blk_at; [exact Hp|apply Hf|lia|]. auto. }
  destruct (Z.ltb_spec idx (12 + N)); [apply single_ok; auto; eapply room_le; eauto; lia|].
  destruct (Z.ltb_spec idx (12 + N + N ^ 2)); [apply double_ok; auto; eapply room_le; eauto; lia|].
  apply triple_ok; auto; lia.
Qed.
End Map.

(** ext2: reading a file. The bytes of a file are those of its blocks in the
    order of the block map, holes reading as zeros; [EXT2Read] copies the
    requested ones, up to the end of the file. *)

From S2P Require Import Ext2Dir Ext2File.

(** * Parts of byte lists *)

Lemma put_length l off bs : (off + length bs <= length l)%nat -> length (put l off bs) = length l.
Proof. intros. unfold put. rewrite !length_app, length_take, length_drop. lia. Qed.

Lemma put_nil l off : (off <= length l)%nat -> put l off [] = l.
Proof. intros. unfold put. simpl. rewrite Nat.add_0_r. apply take_drop. Qed.

Lemma put_lookup l off bs i : (off + length bs <= length l)%nat ->
  put l off bs !! i = if decide (off <= i < off + length bs)%nat then bs !! (i - off)%nat else l !! i.
Proof.
  intros Hl. unfold put. case_decide as Hi.
  - rewrite lookup_app_r by (rewrite length_take; lia). rewrite length_take, Nat.min_l by lia. now rewrite lookup_app_l by lia.
  - destruct (decide (i < off)%nat).
    + rewrite lookup_app_l by (rewrite length_take; lia). now rewrite lookup_take_lt.
    + rewrite lookup_app_r by (rewrite length_take; lia). rewrite length_take, Nat.min_l by lia. rewrite lookup_app_r by lia.
      rewrite lookup_drop. f_equal. lia.
Qed.

(** Two adjacent replacements are one. *)
Lemma put_put_app l off bs bs' : (off + length bs + length bs' <= length l)%nat ->
  put (put l off bs) (off + length bs) bs' = put l off (bs ++ bs').
Proof.
  intros Hl. apply list_eq. intros i. rewrite !put_lookup; rewrite ?put_length, ?length_app; try lia.
  repeat case_decide; try lia; [|rewrite lookup_app_l by lia; easy|easy].
  rewrite lookup_app_r by lia. f_equal. lia.
Qed.

Lemma sub_lookup l off n i : sub l off n !! i = if decide (i < n)%nat then l !! (off + i)%nat else None.
Proof.
  unfold sub. case_decide; [rewrite lookup_take_lt by done; apply lookup_drop|apply lookup_take_ge; lia].
Qed.

Lemma sub_put l off bs : (off + length bs <= length l)%nat -> sub (put l off bs) off (length bs) = bs.
Proof.
  intros Hl. apply list_eq. intros i. rewrite sub_lookup, put_lookup by exact Hl. repeat case_decide; try lia; [f_equal; lia|].
  symmetry. apply lookup_ge_None. lia.
Qed.

Lemma sub_map (f : Z -> Z) (l : list Z) off n a :
  (forall i, (i < n)%nat -> l !! (off + i)%nat = Some (f (a + Z.of_nat i))) -> sub l off n = f <$> seqZ a (Z.of_nat n).
Proof.
  intros Hf. apply list_eq. intros i. rewrite sub_lookup, list_lookup_fmap. case_decide as Hi.
  - rewrite (Hf i Hi), lookup_seqZ_lt by lia. easy.
  - now rewrite lookup_seqZ_ge by lia.
Qed.

Section Read.
Context `{Volume} {VO : VolumeOk} `{KK : Kernel} {KO : KernelOk}.

(** * The bytes of a file *)

Definition byte_at (c : Z -> option (list Z)) (blocks : list Z) (k : Z) : Z :=
  let b := bmap c blocks (k / block_size) in
  if b =? 0 then 0 else match c b with Some l => nth (Z.to_nat (k mod block_size)) l 0 | None => 0 end.
Definition bytes_at (c : Z -> option (list Z)) (blocks : list Z) (pos n : Z) : list Z := byte_at c blocks <$> seqZ pos n.

Lemma bytes_at_length c blocks pos n : length (bytes_at c blocks pos n) = Z.to_nat n.
Proof. unfold bytes_at. now rewrite length_fmap, length_seqZ. Qed.

Lemma bytes_at_app c blocks pos n1 n2 : 0 <= n1 -> 0 <= n2 ->
  bytes_at c blocks pos (n1 + n2) = bytes_at c blocks pos n1 ++ bytes_at c blocks (pos + n1) n2.
Proof. intros. unfold bytes_at. now rewrite seqZ_app, fmap_app. Qed.

Lemma bs_pos : 0 < block_size.
Proof. pose proof bs_range. lia. Qed.

Lemma div_bs x : 0 <= x -> 0 <= x / block_size <= x.
Proof. intros. pose proof bs_pos. split; [apply Z.div_pos; lia|]. apply Z.div_le_upper_bound; nia. Qed.

(** Positions within one block. *)
Lemma same_block pos i : 0 <= pos -> 0 <= i -> pos mod block_size + i < block_size ->
  (pos + i) / block_size = pos / block_size /\ (pos + i) mod block_size = pos mod block_size + i.
Proof.
  intros Hp Hi Hb. pose proof bs_pos. pose proof (Z_div_mod_eq_full pos block_size). pose proof (Z.mod_pos_bound pos block_size bs_pos).
  assert (pos + i = block_size * (pos / block_size) + (pos mod block_size + i)) as E by lia.
  split; symmetry; [eapply Z.div_unique_pos; [|exact E]; lia|eapply Z.mod_unique_pos; [|exact E]; lia].
Qed.

(** The part of the file in one block. *)
Lemma block_bytes c blocks pos n : 0 <= pos -> 0 <= n -> pos mod block_size + n <= block_size ->
  let b := bmap c blocks (pos / block_size) in
  (b = 0 -> bytes_at c blocks pos n = replicate (Z.to_nat n) 0) /\
  (forall l, b <> 0 -> c b = Some l -> is_block l -> bytes_at c blocks pos n = sub l (Z.to_nat (pos mod block_size)) (Z.to_nat n)).
Proof.
  intros Hp Hn Hb b. pose proof bs_pos. pose proof (Z.mod_pos_bound pos block_size bs_pos). split.
  - intros Eb. rewrite <- (Z2Nat.id n) at 1 by lia. unfold bytes_at. rewrite (const_fmap _ _ 0); [now rewrite length_seqZ, Nat2Z.id|].
    intros i x [-> Hi]%lookup_seqZ. unfold byte_at. rewrite (proj1 (same_block pos (Z.of_nat i) Hp ltac:(lia) ltac:(lia))). fold b. now rewrite Eb.
  - intros l Hb0 Hl [Hlen _]. unfold bytes_at. rewrite <- (Z2Nat.id n) at 1 by lia. symmetry. apply sub_map. intros i Hi.
    destruct (same_block pos (Z.of_nat i) Hp ltac:(lia) ltac:(lia)) as [E1 E2]. unfold byte_at. rewrite E1, E2. fold b.
    rewrite (proj2 (Z.eqb_neq b 0) Hb0), Hl. rewrite Z2Nat.inj_add, Nat2Z.id by lia. apply lookup_nth. lia.
Qed.

(** What a step takes of the [rem] bytes left at [pos]: up to the end of the block. *)
Definition chunk (pos rem : Z) : Z := if rem <? block_size - pos mod block_size then rem else block_size - pos mod block_size.
Lemma chunk_spec pos rem : 0 <= pos -> 0 < rem -> 0 < chunk pos rem <= rem /\ pos mod block_size + chunk pos rem <= block_size /\
  (chunk pos rem < rem -> (pos + chunk pos rem) / block_size = pos / block_size + 1 /\
    (pos + chunk pos rem) / block_size < (pos + rem - 1) / block_size + 1).
Proof.
  intros Hp Hr. pose proof bs_pos. pose proof (Z.mod_pos_bound pos block_size bs_pos). unfold chunk.
  destruct (Z.ltb_spec rem (block_size - pos mod block_size)); (split_and!; [lia|lia|lia|]); intros Hlt; [lia|]. split.
  - symmetry. apply (Z.div_unique_pos _ _ _ 0); [lia|]. pose proof (Z_div_mod_eq_full pos block_size). lia.
  - apply Z.lt_succ_r, Z.div_le_mono; lia.
Qed.

(** * One request *)

Lemma wp_fs_op {A} (fail : Z -> A) (inner : M ext2 A) Q s : unmounting s = false -> 0 <= io_inflight s < 2 ^ 64 - 1 ->
  wp inner (λ a s', io_inflight s' = io_inflight s + 1 /\ Q a (set_io_inflight (io_inflight s) s')) (set_io_inflight (io_inflight s + 1) s) ->
  wp (fs_op fail inner) Q s.
Proof.
  intros Hu Hi Hw. unfold fs_op, fs_io_begin. apply wp_bind, wp_bind, wp_get. rewrite Hu. apply wp_bind, wp_modify, wp_ret. simpl Z.ltb. cbv iota.
  rewrite wrap64_small by lia. apply wp_bind. eapply wp_mono; [exact Hw|]. intros a s' [Ei HQ]. unfold fs_io_end. apply wp_bind, wp_bind, wp_get, wp_when.
  rewrite Ei. destruct (Z.ltb_spec 0 (io_inflight s + 1)); [|lia]. apply wp_modify, wp_ret. now rewrite Z.add_simpl_r.
Qed.

(** A file of at most [2^32] blocks, all within reach of the block map. *)
Record in_reach (c : Z -> option (list Z)) (n : inode_t) : Prop := {
  rd_file : file_ok c (i_block (data n));
  rd_size : 0 <= isize n <= capacity * block_size /\ isize n <= 2 ^ 32 * block_size }.
(** The bytes from [lo] to [hi] do not lie in the double indirect part of a file
    without a double indirect block. *)
Definition double_there (n : inode_t) (lo hi : Z) : Prop := forall i, lo / block_size <= i -> i * block_size < hi -> no_double_hole (i_block (data n)) i.
Record readable (c : Z -> option (list Z)) (n : inode_t) : Prop := {
  rd_reach : in_reach c n;
  rd_double : forall i, 0 <= i -> i * block_size < isize n -> no_double_hole (i_block (data n)) i }.

Lemma in_file c n lo hi pos : in_reach c n -> double_there n lo hi -> 0 <= lo <= pos -> pos < hi <= isize n ->
  let i := pos / block_size in 0 <= i < capacity /\ i < 2 ^ 32 /\ no_double_hole (i_block (data n)) i.
Proof.
  intros [_ Hs] Hd Hlo Hp i. pose proof bs_pos. pose proof (Z_div_mod_eq_full pos block_size). pose proof (Z.mod_pos_bound pos block_size bs_pos).
  assert (0 <= i) by (apply Z.div_pos; lia). assert (i * block_size <= pos) by (unfold i; lia). split_and!; [lia|nia|nia|]. apply Hd; [apply Z.div_le_mono; lia|lia].
Qed.

Lemma wrap_bs : wrap32 block_size = block_size.
Proof. pose proof bs_range. apply wrap_small. unfold is_word. lia. Qed.

(** The loop before copying what is at [pos0 + done]. *)
Definition reading (c : Z -> option (list Z)) (n : inode_t) (pos0 total last : Z) (buf : list Z) (v : read_vars) : Prop :=
  exists d, 0 <= d <= total /\ rd_off v = d /\ rd_remain v = total - d /\ rd_pos v = pos0 + d /\
    rd_buf v = put buf 0 (bytes_at c (i_block (data n)) pos0 d) /\ (d < total -> rd_i v = (pos0 + d) / block_size /\ rd_i v < last).

Lemma read_step_ok X c r s p n pos0 total last buf v :
  st X c r s -> room 3 r -> p <> 0 -> inodes s !! p = Some n -> in_reach c n -> double_there n pos0 (pos0 + total) -> 0 <= pos0 -> pos0 + total <= isize n -> total <= Z.of_nat (length buf) ->
  (0 < total -> last = (pos0 + total - 1) / block_size + 1) -> reading c n pos0 total last buf v ->
  wp (read_step p last v) (λ x s', st X c r s' /\ core s' = core s /\
    match x with inl v' => rd_i v' = rd_i v + 1 /\ rd_i v < last /\ reading c n pos0 total last buf v'
               | inr (ok, v') => ok = true /\ rd_pos v' = pos0 + total /\ rd_buf v' = put buf 0 (bytes_at c (i_block (data n)) pos0 total) end) s.
Proof.
  intros Hst Hroom Hp0 Hp Hrd Hdt Hpos Htot Hbuf Hlast (d & Hd & Ho & Hr & Ep & Eb & Hi). unfold read_step. rewrite Hr, Ho, Ep, wrap_bs.
  pose proof bs_pos as Hbs. destruct (decide (d = total)) as [->|Hne].
  { rewrite Z.sub_diag, andb_false_r. apply wp_ret. auto. }
  destruct (Hi ltac:(lia)) as [Ei Hil]. rewrite (proj2 (Z.ltb_lt _ _) Hil), (proj2 (Z.ltb_lt 0 (total - d))) by lia. simpl negb. cbv iota zeta.
  set (pos := pos0 + d) in *. fold (chunk pos (total - d)). destruct (chunk_spec pos (total - d)) as (Ha & Ha2 & Ha3); [lia..|].
  set (append := chunk pos (total - d)) in *. destruct (Z.mod_pos_bound pos block_size Hbs) as [Hm1 Hm2].
  clearbody append. destruct (in_file c n pos0 (pos0 + total) pos Hrd Hdt ltac:(lia) ltac:(lia)) as (G1 & G2 & G3). rewrite <- Ei in *.
  destruct (block_bytes c (i_block (data n)) pos append ltac:(lia) ltac:(lia) ltac:(lia)) as [B0 B1]. rewrite <- Ei in B0, B1.
  pose proof (bmap_ok c _ (rd_i v) (rd_file _ _ Hrd) G1) as Hok.
  apply wp_bind. eapply wp_mono; [apply (find_data_block_ok X c r s p n (rd_i v) Hst Hroom Hp0 Hp (rd_file _ _ Hrd) G1 G2 G3)|].
  intros b s1 (-> & S1 & C1). rewrite (wrap_small 32) by apply (tree_ok_word _ _ _ Hok). set (b := bmap c (i_block (data n)) (rd_i v)) in *.
  assert (length (rd_buf v) = length buf) as Elen by (rewrite Eb; apply put_length; rewrite bytes_at_length; lia).
  rewrite (proj2 (Z.leb_le (d + append) (Z.of_nat (length (rd_buf v))))) by (rewrite Elen; lia).
  assert (forall part, part = bytes_at c (i_block (data n)) pos append ->
    reading c n pos0 total last buf (Rv (rd_i v + 1) (d + append) (total - d - append) (wrap64 (pos + append)) (put (rd_buf v) (Z.to_nat d) part))) as Hnext.
  { intros part ->. exists (d + append). simpl. split_and!; try lia.
    - destruct Hrd as [_ [_ Hsz]]. pose proof bs_range. rewrite wrap64_small by lia. lia.
    - rewrite Eb, bytes_at_app by lia. replace (Z.to_nat d) with (0 + length (bytes_at c (i_block (data n)) pos0 d))%nat by now rewrite bytes_at_length.
      apply put_put_app. rewrite !bytes_at_length. lia.
    - intros Hlt. replace (pos0 + (d + append)) with (pos + append) by (unfold pos; lia). destruct Ha3 as [E1 E2]; [lia|].
      rewrite Hlast by lia. replace (pos + (total - d) - 1) with (pos0 + total - 1) in E2 by (unfold pos; lia). lia. }
  destruct (Z.eqb_spec b 0) as [Hb|Hb].
  { apply wp_ret. split_and!; auto. apply Hnext. now rewrite B0. }
  destruct (tree_ok_block _ _ _ Hok Hb) as (l & Hl & Hblk). pose proof (tree_ok_word _ _ _ Hok) as Hw.
  apply wp_bind. eapply wp_mono; [apply (wp_bread X c r s1 b l S1 (room_le _ 1 _ Hroom ltac:(lia)) Hw Hl)|]. intros ok s2 (-> & S2 & C2). simpl negb. cbv iota.
  pose proof (st_nonneg _ _ _ _ Hst b). apply wp_bind. eapply wp_mono; [eapply (wp_buf_read X c _ s2 b l (pos mod block_size) append S2 Hw); [rewrite upd_eq; lia|exact Hl|lia|destruct Hblk; lia]|].
  intros bs s3 [-> ->]. apply wp_bind, wp_ret, wp_bind. eapply wp_mono; [apply (wp_brelse X c _ s2 b S2 Hw); [rewrite upd_eq; lia|intros Hx%(held_X _ _ _ _ _ Hst); rewrite upd_eq; lia]|].
  intros _ s4 [S4 C4]. apply wp_ret. split_and!; auto; [|congruence|apply Hnext; symmetry; now apply B1].
  eapply st_ext; [exact S4|easy|]. intros x. unfold upd. repeat case_decide; subst; easy || lia.
Qed.

(** The number of blocks the request spans. *)
Lemma last_block pos n : 0 <= pos -> 0 < n ->
  (n + pos mod block_size + block_size - 1) / block_size + pos / block_size = (pos + n - 1) / block_size + 1.
Proof.
  intros. pose proof bs_pos. pose proof (Z_div_mod_eq_full pos block_size).
  replace (pos + n - 1) with ((n + pos mod block_size - 1) + pos / block_size * block_size) by lia.
  replace (n + pos mod block_size + block_size - 1) with ((n + pos mod block_size - 1) + 1 * block_size) by lia.
  rewrite !Z.div_add by lia. lia.
Qed.

(** What a read leaves behind: nothing but the advanced position. *)
Lemma read_ok X c r s f buf size n : st X c r s -> room 3 r -> unmounting s = false -> 0 <= io_inflight s < 2 ^ 64 - 1 ->
  f_inode f <> 0 -> inodes s !! f_inode f = Some n -> in_reach c n -> double_there n (position f) (Z.min (position f + size) (isize n)) ->
  0 <= position f <= isize n -> 0 <= size -> position f + size < 2 ^ 64 -> size <= Z.of_nat (length buf) ->
  wp (EXT2Read f buf size) (λ res s', let k := Z.min size (isize n - position f) in
    res = (k, set_position (position f + k) f, put buf 0 (bytes_at c (i_block (data n)) (position f) k)) /\ st X c r s' /\ core s' = core s) s.
Proof.
  intros Hst Hroom Hu Hio Hp0 Hp Hrd Hdt Hpos Hs Hsum Hbuf. unfold EXT2Read. destruct (Z.eqb_spec (f_inode f) 0); [easy|].
  destruct (Z.ltb_spec (UINT64_MAX - size) (position f)); [unfold UINT64_MAX in *; lia|]. apply wp_fs_op; [exact Hu|exact Hio|].
  set (s0 := set_io_inflight (io_inflight s + 1) s). assert (st X c r s0) as S0 by now apply (st_core _ _ _ _ _ Hst).
  unfold ino_at. apply wp_bind, wp_bind, wp_get. eapply wp_of_option; [exact Hp|]. rewrite wrap_bs, (wrap64_small (position f + size)) by lia.
  set (k := Z.min size (isize n - position f)).
  assert (wrap64 ((if position f + size <? isize n then position f + size else isize n) - position f) = k) as ->.
  { destruct (rd_size _ _ Hrd) as [_ Hsz]. pose proof bs_range. rewrite wrap64_small; destruct (Z.ltb_spec (position f + size) (isize n)); lia. }
  destruct (rd_size _ _ Hrd) as [_ Hsz]. pose proof bs_range. pose proof bs_pos. pose proof (Z.mod_pos_bound (position f) block_size bs_pos).
  assert (0 <= k <= size /\ k <= isize n - position f) as Hk by lia. rewrite wrap64_small by lia.
  set (count := (k + position f mod block_size + block_size - 1) / block_size).
  assert (0 <= count <= k + position f mod block_size + block_size - 1) by (apply div_bs; lia).
  assert (0 <= position f / block_size <= position f) by (apply div_bs; lia). rewrite wrap64_small by lia.
  apply wp_bind.
  eapply (wp_loop (λ m v s', st X c r s' /\ core s' = core s0 /\ reading c n (position f) k (count + position f / block_size) buf v /\
    Z.of_nat m = Z.max 0 (count + position f / block_size - rd_i v)) (Z.to_nat count)).
  - split_and!; auto; [|simpl; lia]. exists 0. simpl. split_and!; try lia; [|intros Hk0; rewrite Z.add_0_r; split; [easy|]].
    + unfold bytes_at. simpl. rewrite put_nil; [easy|lia].
    + unfold count. rewrite last_block by lia. apply Z.lt_succ_r, Z.div_le_mono; lia.
  - lia.
  - intros m v s1 (S1 & C1 & Hr & Hm). assert (inodes s1 !! f_inode f = Some n) as Hp1 by now rewrite (core_inodes _ _ C1).
    eapply wp_mono; [apply (read_step_ok X c r s1 (f_inode f) n (position f) k (count + position f / block_size) buf v); auto; try lia; [intros j ? ?; apply Hdt; lia|now apply last_block]|].
    intros [v'|[ok v']] s2 (S2 & C2 & Hx).
    + destruct Hx as (Ei & Hlt & Hr'). exists (Z.to_nat (count + position f / block_size - rd_i v')). split; [lia|]. split_and!; auto; [congruence|lia].
    + destruct Hx as (-> & Ep & Eb). apply wp_ret. rewrite Ep, Eb. assert (core s2 = core s0) as C by congruence.
      split; [exact (f_equal io_inflight C)|]. split_and!; [|now apply (st_core _ _ _ _ _ S2)|].
      * unfold to_s64. rewrite wrap64_small by lia. destruct (Z.ltb_spec k (2 ^ 63)); [easy|lia].
      * transitivity (set_io_inflight (io_inflight s) (core s2)); [easy|]. rewrite C. now destruct s.
Qed.
End Read.
