(* ===== verification/Ext2Write.v ===== *)
(** ext2: writing within a file. When no block of the file serves twice, a
    write changes exactly the bytes of the file it was asked to change, except
    that bytes falling into a hole are dropped; every other block of the volume
    and the map itself stay as they are. *)

From S2P Require Import Prelude BitMath Bytes Ext2 Ext2Cache Ext2Blocks Ext2Map Ext2Dir Ext2File.

Section Write.
Context `{Volume} {VO : VolumeOk} `{KK : Kernel} {KO : KernelOk}.

Abbreviation N := EXT2_BLOCKS_PER_BLOCK.

(** * Pointer blocks *)

(** [x] is a pointer block of the tree of [k] levels under [b]. *)
Fixpoint ptr_block (k : nat) (c : Z -> option (list Z)) (b x : Z) : Prop :=
  match k with
  | O => False
  | S k => b <> 0 /\ (x = b \/ exists i, 0 <= i < N /\ ptr_block k c (ptr c b i) x)
  end.

Lemma ptr_upd c b v x i : x <> b -> ptr (upd c b v) x i = ptr c x i.
Proof. intros. unfold ptr. now rewrite upd_ne. Qed.

Section Upd.
Context (c : Z -> option (list Z)) (b : Z) (l : list Z) (Hl : is_block l).
Abbreviation c' := (upd c b (Some l)).

Lemma tree_at_upd k root i : ~ ptr_block k c root b -> 0 <= i < N ^ Z.of_nat k -> tree_at k c' root i = tree_at k c root i.
Proof using VO.
  pose proof N_eq. revert root i. induction k as [|k IH]; intros root i Hn Hi; [easy|]. cbn [tree_at]. destruct (Z.eqb_spec root 0); [easy|].
  cbn [ptr_block] in Hn. rewrite Nat2Z.inj_succ, Z.pow_succ_r in Hi by lia. assert (0 < N ^ Z.of_nat k) by (apply Z.pow_pos_nonneg; lia).
  assert (0 <= i / N ^ Z.of_nat k < N) by (split; [apply Z.div_pos; lia|apply Z.div_lt_upper_bound; lia]).
  rewrite ptr_upd by (intros ->; auto). apply IH; [|apply Z.mod_pos_bound; lia]. intros Hc. apply Hn. split; [easy|]. right. eauto.
Qed.

Lemma tree_ok_upd k root : ~ ptr_block k c root b -> tree_ok k c root -> tree_ok k c' root.
Proof using Hl.
  revert root. induction k as [|k IH]; intros root Hn [Hw Hr]; (split; [exact Hw|]); intros H0; destruct (Hr H0) as [(l0 & E0 & B0) Hc]; (split; [unfold upd; case_decide; eauto|]); [exact I|].
  cbn [ptr_block] in Hn. intros i Hi. rewrite ptr_upd by (intros ->; auto). apply IH; [|now apply Hc]. intros Hx. apply Hn. eauto.
Qed.

Lemma ptr_block_upd k root x : ~ ptr_block k c root b -> ptr_block k c' root x -> ptr_block k c root x.
Proof using.
  revert root. induction k as [|k IH]; intros root Hn Hx; [easy|]. cbn [ptr_block] in *. destruct Hx as [H0 [->|(i & Hi & Hx)]]; [auto|].
  split; [easy|]. right. exists i. split; [easy|]. rewrite ptr_upd in Hx by (intros ->; auto). apply IH; [|easy]. intros Hb. apply Hn. eauto.
Qed.
End Upd.

Definition pointer (c : Z -> option (list Z)) (blocks : list Z) (x : Z) : Prop :=
  ptr_block 1 c (nth 12 blocks 0) x \/ ptr_block 2 c (nth 13 blocks 0) x \/ ptr_block 3 c (nth 14 blocks 0) x.

(** No block of the file serves twice. *)
Record separate (c : Z -> option (list Z)) (blocks : list Z) : Prop := {
  sp_inj : forall i j, 0 <= i < capacity -> 0 <= j < capacity -> bmap c blocks i <> 0 -> bmap c blocks i = bmap c blocks j -> i = j;
  sp_ptr : forall i, 0 <= i < capacity -> bmap c blocks i <> 0 -> ~ pointer c blocks (bmap c blocks i) }.

Lemma bmap_upd c blocks b l i : ~ pointer c blocks b -> 0 <= i < capacity -> bmap (upd c b (Some l)) blocks i = bmap c blocks i.
Proof.
  intros Hn Hi. unfold capacity in Hi. unfold pointer in Hn. pose proof N_eq. unfold bmap. destruct (Z.ltb_spec i 12); [easy|].
  destruct (Z.ltb_spec i (12 + N)); [apply tree_at_upd; [tauto|change (Z.of_nat 1) with 1; lia]|].
  destruct (Z.ltb_spec i (12 + N + N ^ 2)); (apply tree_at_upd; [tauto|]); change (Z.of_nat 2) with 2; change (Z.of_nat 3) with 3; lia.
Qed.

Lemma file_ok_upd c blocks b l : is_block l -> ~ pointer c blocks b -> file_ok c blocks -> file_ok (upd c b (Some l)) blocks.
Proof.
  intros Hl Hn [H0 H1 H2 H3 H4]. unfold pointer in Hn. split; auto; [intros j Hj; apply tree_ok_upd; auto|apply tree_ok_upd; tauto..].
Qed.

Lemma separate_upd c blocks b l : ~ pointer c blocks b -> separate c blocks -> separate (upd c b (Some l)) blocks.
Proof.
  intros Hn [H1 H2]. split.
  - intros i j Hi Hj. rewrite !bmap_upd by auto. auto.
  - intros i Hi. rewrite bmap_upd by auto. intros H0 Hp. apply (H2 i Hi H0). unfold pointer in *.
    destruct Hp as [Hp|[Hp|Hp]]; apply ptr_block_upd in Hp; tauto.
Qed.

(** * What a write does *)

Definition in_range (pos n k : Z) : bool := (pos <=? k) && (k <? pos + n).

(** From [c] to [c'] the bytes [bs] were written at [pos] of the file. *)
Record written (c c' : Z -> option (list Z)) (blocks : list Z) (pos : Z) (bs : list Z) : Prop := {
  wr_map : forall i, 0 <= i < capacity -> bmap c' blocks i = bmap c blocks i;
  wr_ok : file_ok c' blocks;
  wr_sep : separate c' blocks;
  wr_byte : forall k, 0 <= k < capacity * block_size ->
    byte_at c' blocks k = if in_range pos (Z.of_nat (length bs)) k && negb (bmap c blocks (k / block_size) =? 0) then nth (Z.to_nat (k - pos)) bs 0 else byte_at c blocks k;
  wr_other : forall x, (forall i, pos / block_size <= i <= (pos + Z.of_nat (length bs) - 1) / block_size -> x <> bmap c blocks i) -> c' x = c x }.

Lemma index_range k : 0 <= k < capacity * block_size -> 0 <= k / block_size < capacity.
Proof. intros. pose proof bs_pos. split; [apply Z.div_pos; lia|apply Z.div_lt_upper_bound; lia]. Qed.

Lemma nothing_written c blocks pos : file_ok c blocks -> separate c blocks -> written c c blocks pos [].
Proof.
  intros Ho Hs. split; auto. intros k Hk. assert (in_range pos (Z.of_nat (length (@nil Z))) k = false) as ->; [|easy]. unfold in_range. simpl.
  rewrite Z.add_0_r. destruct (Z.leb_spec pos k), (Z.ltb_spec k pos); easy || lia.
Qed.

Lemma same_index pos n k : 0 <= pos -> pos mod block_size + n <= block_size -> in_range pos n k = true -> k / block_size = pos / block_size.
Proof.
  unfold in_range. intros Hp Hb [E1%Z.leb_le E2%Z.ltb_lt]%andb_true_iff. replace k with (pos + (k - pos)) by lia. apply same_block; lia.
Qed.

(** Into a hole nothing is written. *)
Lemma write_into_hole c blocks pos bs : file_ok c blocks -> separate c blocks -> 0 <= pos ->
  pos mod block_size + Z.of_nat (length bs) <= block_size -> bmap c blocks (pos / block_size) = 0 -> written c c blocks pos bs.
Proof.
  intros Ho Hs Hp Hb H0. split; auto. intros k Hk. destruct (in_range pos (Z.of_nat (length bs)) k) eqn:E; [|easy].
  now rewrite (same_index pos _ k Hp Hb E), H0.
Qed.

Lemma put_block l off bs : is_block l -> Forall is_byte bs -> (off + length bs <= length l)%nat -> is_block (put l off bs).
Proof.
  intros [Hl Hb] Hbs Hlen. split; [now rewrite put_length|]. unfold put. apply Forall_app. split; [now apply Forall_take|].
  apply Forall_app. split; [easy|now apply Forall_drop].
Qed.

Lemma nth_put l off bs i : (off + length bs <= length l)%nat -> (i < length l)%nat ->
  nth i (put l off bs) 0 = if decide (off <= i < off + length bs)%nat then nth (i - off) bs 0 else nth i l 0.
Proof.
  intros Hl Hi. apply Some_inj. rewrite <- (lookup_nth (put l off bs)) by (rewrite put_length; lia). rewrite put_lookup by lia.
  case_decide; apply lookup_nth; lia.
Qed.

(** Writing within one block. *)
Lemma write_in_block c blocks pos bs l : file_ok c blocks -> separate c blocks -> 0 <= pos -> 0 < Z.of_nat (length bs) -> Forall is_byte bs ->
  pos mod block_size + Z.of_nat (length bs) <= block_size -> pos / block_size < capacity ->
  let b := bmap c blocks (pos / block_size) in b <> 0 -> c b = Some l -> is_block l ->
  written c (upd c b (Some (put l (Z.to_nat (pos mod block_size)) bs))) blocks pos bs.
Proof.
  intros Ho Hs Hp Hn Hbs Hb Hcap b Hb0 Hl Hblk. pose proof bs_pos. pose proof (Z.mod_pos_bound pos block_size bs_pos).
  assert (0 <= pos / block_size) by (apply Z.div_pos; lia). assert (~ pointer c blocks b) as Hnp by (apply (sp_ptr _ _ Hs); [lia|exact Hb0]).
  assert (is_block (put l (Z.to_nat (pos mod block_size)) bs)) as Hput by (apply put_block; auto; destruct Hblk; lia).
  set (l' := put l (Z.to_nat (pos mod block_size)) bs) in *.
  split; [intros i Hi; now apply bmap_upd|now apply file_ok_upd|now apply separate_upd| |].
  - intros k Hk. unfold byte_at. rewrite bmap_upd by (auto using index_range).
    destruct (Z.eqb_spec (bmap c blocks (k / block_size)) 0); [now rewrite andb_false_r|]. rewrite andb_true_r. unfold upd. case_decide as Ek.
    + assert (k / block_size = pos / block_size) as Ei by (symmetry; apply (sp_inj _ _ Hs); auto using index_range; lia).
      rewrite Ek, Hl. pose proof (Z.mod_pos_bound k block_size bs_pos). pose proof (Z_div_mod_eq_full k block_size). pose proof (Z_div_mod_eq_full pos block_size).
      destruct Hblk as [Hlen _]. unfold l', in_range. rewrite nth_put by lia. case_decide.
      * rewrite (proj2 (Z.leb_le pos k)), (proj2 (Z.ltb_lt k _)) by lia. simpl. f_equal. lia.
      * destruct (Z.leb_spec pos k), (Z.ltb_spec k (pos + Z.of_nat (length bs))); easy || lia.
    + destruct (in_range pos (Z.of_nat (length bs)) k) eqn:E; [|easy]. now rewrite (same_index pos _ k Hp Hb E) in Ek.
  - intros x Hx. apply upd_ne. apply Hx. split; [lia|]. apply Z.div_le_mono; lia.
Qed.

(** Two adjacent writes are one. *)
Lemma write_after_write c c1 c2 blocks pos bs1 bs2 : 0 <= pos -> pos + Z.of_nat (length bs1) + Z.of_nat (length bs2) <= capacity * block_size ->
  written c c1 blocks pos bs1 -> written c1 c2 blocks (pos + Z.of_nat (length bs1)) bs2 -> written c c2 blocks pos (bs1 ++ bs2).
Proof.
  intros Hp Hc [M1 O1 S1 B1 X1] [M2 O2 S2 B2 X2]. split; auto.
  - intros i Hi. now rewrite M2, M1.
  - intros k Hk. rewrite B2, B1, M1 by (auto using index_range). rewrite length_app, Nat2Z.inj_add. unfold in_range.
    destruct (bmap c blocks (k / block_size) =? 0); [now rewrite !andb_false_r|]. rewrite !andb_true_r.
    destruct (Z.leb_spec (pos + Z.of_nat (length bs1)) k), (Z.ltb_spec k (pos + Z.of_nat (length bs1) + Z.of_nat (length bs2))),
      (Z.leb_spec pos k), (Z.ltb_spec k (pos + Z.of_nat (length bs1))), (Z.ltb_spec k (pos + (Z.of_nat (length bs1) + Z.of_nat (length bs2)))); simpl; try lia; auto.
    + rewrite app_nth2 by lia. f_equal. lia.
    + rewrite app_nth1 by lia. easy.
  - pose proof bs_pos. intros x Hx. rewrite length_app, Nat2Z.inj_add in Hx. rewrite X2, X1; [easy|intros i Hi; apply Hx|].
    + split; [lia|]. etransitivity; [apply Hi|]. apply Z.div_le_mono; lia.
    + intros i Hi. rewrite M1.
      * apply Hx. split; [|etransitivity; [apply Hi|]; apply Z.div_le_mono; lia]. etransitivity; [|apply Hi]. apply Z.div_le_mono; lia.
      * assert (0 <= (pos + Z.of_nat (length bs1)) / block_size) by (apply Z.div_pos; lia). split; [lia|].
        apply Z.le_lt_trans with ((pos + Z.of_nat (length bs1) + Z.of_nat (length bs2) - 1) / block_size); [lia|]. apply Z.div_lt_upper_bound; lia.
Qed.

(** * The loop *)

(** The counts after one more reference to each block of [L]. *)
Definition held (r : Z -> Z) (L : list Z) : Z -> Z := foldr (λ b r, upd r b (r b + 1)) r L.

Definition cache_of (f : file_t) : list Z := match private_data f with Some p => cached_blocks p | None => [] end.

(** [f] has advanced by [d] and remembers the blocks [L] besides those of [f0]. *)
Definition advanced (f0 f : file_t) (d : Z) (L : list Z) : Prop :=
  exists p0, private_data f0 = Some p0 /\
    f = File (f_inode f0) (position f0 + d) (Some (Priv (dir_blocks_offset p0) (dir_bytes_offset p0) (L ++ cached_blocks p0))).

Lemma wp_cache_block X c r s b f0 f d L (Q : option ext2_private_file_t -> ext2 -> Prop) : advanced f0 f d L -> st X c r s ->
  (forall f', f' = set_private (private_data f') f -> advanced f0 f' d (b :: L) -> Q (private_data f') s) -> wp (cache_block b (private_data f)) Q s.
Proof.
  intros (p0 & E0 & ->) Hst HQ. unfold cache_block. apply wp_bind, wp_get. rewrite small_ok. apply wp_bind, wp_ret, wp_ret. simpl.
  apply (HQ (File (f_inode f0) (position f0 + d) (Some (Priv (dir_blocks_offset p0) (dir_bytes_offset p0) (b :: L ++ cached_blocks p0))))); [easy|].
  exists p0. split; [exact E0|easy].
Qed.

(** [L] are blocks of the volume, and has the file's blocks under the [d] bytes written. *)
Definition covers (c : Z -> option (list Z)) (n : inode_t) (f0 : file_t) (d : Z) (L : list Z) : Prop :=
  Forall word32 L /\ forall i, 0 < d -> position f0 / block_size <= i -> i * block_size < position f0 + d ->
    bmap c (i_block (data n)) i <> 0 -> bmap c (i_block (data n)) i ∈ L.

Lemma covers_step c n f0 d L L' add b : 0 <= d -> 0 <= position f0 + d -> 0 < add -> (position f0 + d) mod block_size + add <= block_size ->
  b = bmap c (i_block (data n)) ((position f0 + d) / block_size) -> word32 b -> L' = (if b =? 0 then L else b :: L) ->
  covers c n f0 d L -> covers c n f0 (d + add) L'.
Proof.
  intros Hd Hp Ha Hm Hb Hw -> [H1 H2]. split; [destruct (b =? 0); auto|]. intros i _ Hi Hlt H0.
  pose proof bs_pos. pose proof (Z_div_mod_eq_full (position f0 + d) block_size). pose proof (Z.mod_pos_bound (position f0 + d) block_size bs_pos). set (j := (position f0 + d) / block_size) in *.
  destruct (decide (i = j)) as [->|Hne].
  - rewrite <- Hb in *. rewrite (proj2 (Z.eqb_neq b 0) H0). left.
  - assert (bmap c (i_block (data n)) i ∈ L) by (assert (i < j) by nia; apply H2; auto; [|nia]; destruct (decide (d = 0)) as [->|]; [|lia]; unfold j in *; rewrite Z.add_0_r in *; lia). destruct (b =? 0); [easy|now right].
Qed.

(** The loop before writing what is at [position f0 + d]. *)
Definition writing (c : Z -> option (list Z)) (r : Z -> Z) (n : inode_t) (f0 : file_t) (buf : list Z) (total last : Z) (v : write_vars) (s : ext2) : Prop :=
  exists d c' L, 0 <= d <= total /\ wr_off v = d /\ wr_remain v = total - d /\ advanced f0 (wr_file v) d L /\
    written c c' (i_block (data n)) (position f0) (take (Z.to_nat d) buf) /\ st ∅ c' (held r L) s /\
    covers c n f0 d L /\ (d < total -> wr_i v = (position f0 + d) / block_size /\ wr_i v < last /\ room (3 + (last - wr_i v)) (held r L)).

Lemma written_reach c c' n pos bs : in_reach c n -> written c c' (i_block (data n)) pos bs -> in_reach c' n.
Proof. intros [H1 H2] Hw. split; [apply Hw|exact H2]. Qed.

Lemma take_sub (buf : list Z) d n : take (d + n) buf = take d buf ++ sub buf d n.
Proof. unfold sub. now rewrite take_take_drop. Qed.

Lemma write_step_ok c r s n f0 buf total last v :
  f_inode f0 <> 0 -> inodes s !! f_inode f0 = Some n -> in_reach c n -> double_there n (position f0) (position f0 + total) -> 0 <= position f0 -> position f0 + total <= isize n ->
  total <= Z.of_nat (length buf) -> Forall is_byte buf -> (0 < total -> last = (position f0 + total - 1) / block_size + 1) -> writing c r n f0 buf total last v s ->
  wp (write_step buf last v) (λ x s', core s' = core s /\
    match x with inl v' => wr_i v' = wr_i v + 1 /\ wr_i v < last /\ writing c r n f0 buf total last v' s'
               | inr (ok, v') => ok = true /\ v' = v /\ wr_remain v = 0 /\ s' = s end) s.
Proof.
  intros Hp0 Hp Hrd Hdt Hpos Htot Hbuf Hbytes Hlast (d & c1 & L & Hd & Ho & Hr & Hf & Hw & Hst & Hcv & Hi). unfold write_step. rewrite Hr, Ho.
  pose proof bs_pos as Hbs. destruct (decide (d = total)) as [->|Hne].
  { rewrite Z.sub_diag, andb_false_r. apply wp_ret. split_and!; auto; lia. }
  destruct (Hi ltac:(lia)) as (Ei & Hil & Hroom). rewrite (proj2 (Z.ltb_lt _ _) Hil), (proj2 (Z.ltb_lt 0 (total - d))) by lia. simpl negb. cbv iota zeta.
  assert (position (wr_file v) = position f0 + d /\ f_inode (wr_file v) = f_inode f0) as [Ep Ef] by (destruct Hf as (p0 & _ & ->); easy).
  rewrite Ep, Ef. set (pos := position f0 + d) in *. fold (chunk pos (total - d)). destruct (chunk_spec pos (total - d)) as (Ha & Ha2 & Ha3); [lia..|].
  set (append := chunk pos (total - d)) in *. destruct (Z.mod_pos_bound pos block_size Hbs) as [Hm1 Hm2].
  clearbody append. pose proof (written_reach c c1 n _ _ Hrd Hw) as Hrd1. assert (0 <= pos < isize n) as Hin by lia.
  destruct (in_file c1 n (position f0) (position f0 + total) pos Hrd1 Hdt ltac:(lia) ltac:(lia)) as (G1 & G2 & G3). rewrite <- Ei in *.
  pose proof (bmap_ok c1 _ (wr_i v) (rd_file _ _ Hrd1) G1) as Hok. pose proof (tree_ok_word _ _ _ Hok) as Hwd.
  assert (room 3 (held r L)) as Hroom3 by (eapply room_le; [exact Hroom|lia]).
  apply wp_bind. eapply wp_mono; [apply (find_data_block_ok ∅ c1 _ s (f_inode f0) n (wr_i v) Hst Hroom3 Hp0 Hp (rd_file _ _ Hrd1) G1 G2 G3)|].
  intros b s1 (-> & S1 & C1). set (b := bmap c1 (i_block (data n)) (wr_i v)) in *.
  set (part := sub buf (Z.to_nat d) (Z.to_nat append)). assert (Z.of_nat (length part) = append) as Epart by (unfold part; rewrite sub_length; lia).
  assert (pos / block_size < capacity) as Hcap by lia.
  assert (capacity * block_size >= pos + append) as Hcapb by (destruct Hrd as [_ Hsz]; lia).
  assert (forall c2 L2 f s2, written c1 c2 (i_block (data n)) pos part -> advanced f0 f d L2 -> L2 = (if b =? 0 then L else b :: L) -> st ∅ c2 (held r L2) s2 -> (0 < last - (wr_i v + 1) -> room (3 + (last - (wr_i v + 1))) (held r L2)) ->
    writing c r n f0 buf total last (Wv (wr_i v + 1) (d + append) (total - d - append) (set_position (wrap64 (pos + append)) f)) s2) as Hnext.
  { intros c2 L2 f s2 Hw2 Hf2 EL Hst2 Hroom2. exists (d + append), c2, L2. simpl. split_and!; try lia; auto.
    - destruct Hf2 as (p0 & E0 & ->). exists p0. split; [exact E0|]. unfold set_position. simpl. f_equal.
      destruct Hrd as [_ [_ Hsz]]. pose proof bs_range. rewrite wrap64_small by lia. unfold pos. lia.
    - rewrite Z2Nat.inj_add, take_sub by lia. fold part. assert (length (take (Z.to_nat d) buf) = Z.to_nat d) as El by (rewrite length_take; lia).
      apply (write_after_write c c1); [lia| |exact Hw|]; rewrite El, Z2Nat.id by lia; [rewrite Epart; unfold pos in *; lia|exact Hw2].
    - apply (covers_step c n f0 d L L2 append b); auto; [lia|fold pos; lia|lia|]. fold pos. rewrite <- Ei. apply (wr_map _ _ _ _ _ Hw _ G1).
    - intros Hlt. replace (position f0 + (d + append)) with (pos + append) by (unfold pos; lia). destruct Ha3 as [E1 E2]; [lia|].
      replace (pos + (total - d) - 1) with (position f0 + total - 1) in E2 by (unfold pos; lia). rewrite <- Hlast in E2 by lia.
      split_and!; [lia|lia|apply Hroom2; lia]. }
  assert (wr_i v = pos / block_size) as Ei' by easy. destruct (Z.eqb_spec b 0) as [Hb|Hb].
  { apply wp_ret. split_and!; auto. apply (Hnext c1 L (wr_file v) s1); auto; [|intros; eapply room_le; [exact Hroom|lia]].
    apply write_into_hole; [apply Hw|apply Hw|lia|lia|rewrite <- Ei'; exact Hb]. }
  destruct (tree_ok_block _ _ _ Hok Hb) as (l & Hl & Hblk). assert (wrap64 b = b) as -> by (apply wrap64_small; unfold word32, is_word in Hwd; lia).
  apply wp_bind. eapply wp_cache_block; [exact Hf|exact S1|]. intros f' Ef' Hf'. rewrite <- Ef'. apply wp_bind.
  eapply wp_mono; [apply (wp_bread ∅ c1 _ s1 b l S1 (room_le _ 1 _ Hroom3 ltac:(lia)) Hwd Hl)|]. intros ok s2 (-> & S2 & C2). simpl negb. cbv iota.
  rewrite (proj2 (Z.leb_le (d + append) (Z.of_nat (length buf)))) by lia. pose proof (st_nonneg _ _ _ _ Hst b).
  assert (position f' = pos) as Ep' by (rewrite Ef'; exact Ep). rewrite Ep'.
  apply wp_bind. eapply wp_mono; [eapply (wp_buf_write ∅ c1 _ s2 b l (pos mod block_size) part S2 Hwd); [rewrite upd_eq; lia|exact Hl|lia|destruct Hblk; lia]|].
  intros _ s3 [S3 C3]. apply wp_bind. eapply wp_mono; [apply (wp_bwrite _ _ _ s3 b S3 Hwd); rewrite upd_eq; lia|].
  intros _ s4 [S4 C4]. apply wp_ret. split_and!; auto; [congruence|].
  apply (Hnext (upd c1 b (Some (put l (Z.to_nat (pos mod block_size)) part))) (b :: L) f' s4); auto.
  - unfold b. rewrite Ei'. apply write_in_block; auto; [apply Hw|apply Hw|lia|lia|apply sub_bytes; exact Hbytes|lia|rewrite <- Ei'; exact Hb|rewrite <- Ei'; exact Hl].
  - replace (∅ : gset Z) with ((∅ ∪ {[b]}) ∖ {[b]} : gset Z) by set_solver. exact S4.
  - intros Hl1. simpl. apply room_upd. eapply room_le; [exact Hroom|lia].
Qed.

Lemma check_size_in_place s f size n (Q : Z -> ext2 -> Prop) : f_inode f <> 0 -> inodes s !! f_inode f = Some n -> 0 <= position f -> 0 <= size ->
  position f + size <= isize n -> position f + size < 2 ^ 64 -> Q 0 s -> wp (CheckSizeForWrite f size) Q s.
Proof.
  intros Hp0 Hp Hpos Hs Hin Hw HQ. unfold CheckSizeForWrite. destruct (Z.eqb_spec (f_inode f) 0); [easy|].
  destruct (Z.ltb_spec (UINT64_MAX - size) (position f)); [unfold UINT64_MAX in *; lia|]. unfold ino_at. apply wp_bind, wp_bind, wp_get.
  eapply wp_of_option; [exact Hp|]. rewrite wrap64_small by lia. destruct (Z.ltb_spec (isize n) (position f + size)); [lia|]. now apply wp_ret.
Qed.

(** The number of blocks a write of [size] bytes touches. *)
Definition span (f : file_t) (size : Z) : Z := (size + position f mod block_size + block_size - 1) / block_size.

Lemma write_ok c r s f buf size n : st ∅ c r s -> room (3 + span f size) r -> unmounting s = false -> 0 <= io_inflight s < 2 ^ 64 - 1 ->
  f_inode f <> 0 -> inodes s !! f_inode f = Some n -> private_data f <> None -> in_reach c n -> double_there n (position f) (position f + size) -> separate c (i_block (data n)) ->
  0 <= position f -> 0 <= size -> position f + size <= isize n -> size <= Z.of_nat (length buf) -> Forall is_byte buf ->
  wp (EXT2Write f buf size) (λ res s', core s' = core s /\ res.1 = size /\ exists c' L, advanced f res.2 size L /\ covers c n f size L /\
    written c c' (i_block (data n)) (position f) (take (Z.to_nat size) buf) /\ st ∅ c' (held r L) s') s.
Proof.
  intros Hst Hroom Hu Hio Hp0 Hp Hpr Hrd Hdt Hsep Hpos Hs Hin Hbuf Hbytes. destruct (rd_size _ _ Hrd) as [_ Hsz]. pose proof bs_range. pose proof bs_pos.
  pose proof (Z.mod_pos_bound (position f) block_size bs_pos). unfold EXT2Write.
  destruct (Z.eqb_spec (f_inode f) 0); [easy|]. destruct (Z.ltb_spec (UINT64_MAX - size) (position f)); [unfold UINT64_MAX in *; lia|].
  apply wp_fs_op; [exact Hu|exact Hio|]. set (s0 := set_io_inflight (io_inflight s + 1) s). assert (st ∅ c r s0) as S0 by now apply (st_core _ _ _ _ _ Hst).
  apply wp_bind. eapply check_size_in_place; [exact Hp0|exact Hp|lia..|]. simpl Z.ltb. cbv iota. rewrite wrap64_small by lia. fold (span f size).
  assert (0 <= span f size <= size + position f mod block_size + block_size - 1) by (apply div_bs; lia).
  assert (0 <= position f / block_size <= position f) by (apply div_bs; lia). rewrite wrap64_small by lia.
  set (last := position f / block_size + span f size). apply wp_bind.
  eapply (wp_loop (λ m v s', core s' = core s0 /\ writing c r n f buf size last v s' /\ Z.of_nat m = Z.max 0 (last - wr_i v)) (Z.to_nat (span f size))).
  - split; [easy|]. split; [|simpl; lia]. exists 0, c, []. simpl. split_and!; try lia; auto.
    + destruct (private_data f) as [p0|] eqn:E0; [|easy]. exists p0. split; [exact E0|]. rewrite Z.add_0_r. destruct p0, f; simpl in *. congruence.
    + apply nothing_written; [apply Hrd|exact Hsep].
    + split; [constructor|]. intros i Hlt. lia.
    + intros Hlt. rewrite Z.add_0_r. assert (0 < span f size) by (unfold span; apply Z.div_str_pos; lia). split_and!; [easy|lia|].
      eapply room_le; [exact Hroom|lia].
  - lia.
  - intros m v s1 (C1 & Hwr & Hm). assert (inodes s1 !! f_inode f = Some n) as Hp1 by now rewrite (core_inodes _ _ C1).
    eapply wp_mono; [apply (write_step_ok c r s1 n f buf size last v); auto; intros Hs0; unfold last, span; rewrite Z.add_comm; now apply last_block|].
    intros [v'|[ok v']] s2 (C2 & Hx).
    + destruct Hx as (Ei & Hlt & Hr'). exists (Z.to_nat (last - wr_i v')). split; [lia|]. split_and!; auto; [congruence|lia].
    + destruct Hx as (-> & -> & E0 & ->). apply wp_ret. destruct Hwr as (d & c' & L & Hd & _ & Hr & Hf & Hw & S' & Hcv & _). assert (d = size) as -> by lia.
      split; [exact (f_equal io_inflight C1)|]. split_and!.
      * transitivity (set_io_inflight (io_inflight s) (core s1)); [easy|]. rewrite C1. now destruct s.
      * simpl. rewrite E0, Z.sub_0_r. unfold to_s64. rewrite wrap64_small by lia. destruct (Z.ltb_spec size (2 ^ 63)); [easy|lia].
      * exists c', L. split_and!; auto. now apply (st_core _ _ _ _ _ S').
Qed.

(** * Flushing *)

Lemma wp_bflush X c r s b : st X c r s -> word32 b -> b ∉ X ->
  wp (bflush b) (λ _ s', st X c r s' /\ core s' = core s /\ disk s' !! b = c b /\ forall x, disk s !! x = c x -> disk s' !! x = c x) s.
Proof.
  intros Hst Hb HX. unfold bflush. rewrite (wrap_small 32 b Hb). apply wp_bind. eapply wp_cache_free; [exact Hst|]. apply wp_bind, wp_get.
  pose proof (st_content _ _ _ _ Hst b) as Ec. unfold content in Ec. destruct (bufs s !! b) as [u|] eqn:Eu; [|apply wp_ret; now split_and!].
  repeat wp_step. pose proof (st_write_back X c r s b u Hst Eu) as Sw. assert (bufs (write_back b u s) = bufs s) as Eb by (unfold write_back; now destruct (dirty u)).
  assert (disk (write_back b u s) !! b = c b) as Ed.
  { unfold write_back. destruct (dirty u) eqn:Ed; [simpl; now rewrite lookup_insert_eq|]. rewrite <- Ec. eapply co_clean; [apply Hst|..]; eauto. }
  split_and!.
  - destruct Sw as [[W1 W2 W3 W4] Wc Wr]. rewrite Eb in *. split; [split|..]; simpl; auto.
    + intros b' u' [[_ <-]|[_ Hb']]%lookup_insert_Some; simpl; eauto.
    + intros b' Hb'. specialize (W3 b' Hb'). unfold rc in *. rewrite Eb in W3. simpl. rewrite lookup_insert_ne by set_solver. exact W3.
    + intros b' u' [[<- <-]|[Hne Hb']]%lookup_insert_Some HX' Hd'; simpl; [congruence|eauto].
    + intros b'. rewrite <- Wc. unfold content. rewrite Eb. simpl. destruct (decide (b' = b)) as [->|]; [now rewrite lookup_insert_eq, Eu|now rewrite lookup_insert_ne].
    + intros b'. rewrite <- Wr. unfold rc. rewrite Eb. simpl. destruct (decide (b' = b)) as [->|]; [now rewrite lookup_insert_eq, Eu|now rewrite lookup_insert_ne].
  - unfold core, write_back. now destruct (dirty u).
  - exact Ed.
  - simpl. intros x Hx. unfold write_back in *. destruct (dirty u); [|easy]. simpl in *. destruct (decide (x = b)) as [->|]; [exact Ed|now rewrite lookup_insert_ne].
Qed.

Lemma brelse_disk b s a s' : brelse b s = Some (a, s') -> disk s' = disk s.
Proof.
  unfold brelse, cache_free, bind, get. destruct (cache_lock s); [easy|]. simpl. destruct (bufs s !! wrap32 b); intros [= <-]; subst; easy.
Qed.

Lemma flush_blocks_ok c r L s : nonneg r -> Forall word32 L -> st ∅ c (held r L) s ->
  wp (flush_blocks L) (λ _ s', st ∅ c r s' /\ core s' = core s /\ (forall x, x ∈ L \/ disk s !! x = c x -> disk s' !! x = c x)) s.
Proof.
  intros Hnn Hw. revert s. induction Hw as [|b L Hb Hw IH]; intros s Hst; [apply wp_ret; split_and!; auto; intros x [[]%not_elem_of_nil|?]; auto|].
  cbn [flush_blocks]. apply wp_bind. eapply wp_mono; [apply (wp_bflush ∅ c _ s b Hst Hb); set_solver|]. intros _ s1 (S1 & C1 & D1 & K1).
  assert (0 <= held r L b) as Hpos by (clear -Hnn; induction L as [|a L IH]; simpl; [auto|unfold upd; case_decide; subst; lia]).
  apply wp_bind. assert (wp (brelse b) (λ _ s2, st ∅ c (upd (held r (b :: L)) b (held r (b :: L) b - 1)) s2 /\ core s2 = core s1) s1) as Hrel
    by (apply (wp_brelse ∅ c _ s1 b S1 Hb); [simpl; rewrite upd_eq; lia|set_solver]).
  apply wp_run in Hrel as (u & s2 & E2 & S2 & C2). eapply wp_intro; [exact E2|]. apply brelse_disk in E2 as Ed.
  assert (st ∅ c (held r L) s2) as S2' by (eapply st_ext; [exact S2|easy|]; intros x; simpl; unfold upd; repeat case_decide; subst; lia || easy).
  eapply wp_mono; [apply (IH s2 S2')|]. intros _ s3 (S3 & C3 & K3). split_and!; auto; [congruence|].
  intros x Hx. apply K3. rewrite Ed. destruct Hx as [[->|Hx]%elem_of_cons|Hx]; auto.
Qed.
End Write.
