(* ===== verification/Ext2Inode.v ===== *)
(** ext2: inodes on disk. The 128 bytes of an inode decode to what was encoded,
    and an inode written to the inode table is read back as it was, whatever
    the buffer cache did in between. *)

From S2P Require Import Prelude BitMath Bytes Ext2 Ext2Cache Ext2Blocks Ext2Map Ext2Dir Ext2File.

(** * Types, permissions and flags *)

Definition vfs_type (t : Z) : Prop := VFS_TYPE_FILE <= t <= VFS_TYPE_SOCKET.

(** The mode word keeps the type and the permission bits. *)
Lemma mode_roundtrip t p : vfs_type t -> 0 <= p < 2 ^ 12 ->
  let mode := Z.lor (EXT2TypeToMode t) (Z.land p 0x0FFF) in
  0 <= mode < 2 ^ 16 /\ EXT2ModeToType mode = t /\ Z.land mode 0x0FFF = p.
Proof.
  intros Ht Hp mode. assert (Z.land p 0x0FFF = p) as Ep by (change 0x0FFF with (Z.ones 12); rewrite Z.land_ones by lia; apply Z.mod_small; lia).
  subst mode. rewrite Ep.
  assert (forall m, Z.land m 0xFFF = 0 -> 0 <= m < 2 ^ 16 -> 0 <= Z.lor m p < 2 ^ 16 /\ Z.land (Z.lor m p) 0xF000 = Z.land m 0xF000 /\ Z.land (Z.lor m p) 0x0FFF = p) as Hm.
  { intros m Hm0 Hm. split; [apply lor_range; lia|]. rewrite !Z.land_lor_distr_l, Hm0, Ep. split; [|easy].
    assert (Z.land p 0xF000 = 0) as ->; [|apply Z.lor_0_r]. rewrite <- Ep, <- Z.land_assoc. apply Z.land_0_r. }
  unfold vfs_type, VFS_TYPE_FILE, VFS_TYPE_SOCKET in Ht.
  assert (t = 1 \/ t = 2 \/ t = 3 \/ t = 4 \/ t = 5 \/ t = 6 \/ t = 7) as [->|[->|[->|[->|[->|[->| ->]]]]]] by lia;
    match goal with |- context [EXT2TypeToMode ?k] => let m := eval vm_compute in (EXT2TypeToMode k) in change (EXT2TypeToMode k) with m; destruct (Hm m) as (G1 & G2 & G3); [easy|lia|] end;
    (split; [exact G1|]); (split; [|exact G3]); unfold EXT2ModeToType; rewrite G2; reflexivity.
Qed.

(** The five flags both sides know survive. *)
Lemma flags_roundtrip fl : 0 <= fl < 2 ^ 5 -> EXT2FlagsToVFSFlags (EXT2VFSFlagsToIFlags fl) = fl /\ 0 <= EXT2VFSFlagsToIFlags fl < 2 ^ 32.
Proof.
  intros Hf. pose proof (Z_enum 32 (λ fl, (EXT2FlagsToVFSFlags (EXT2VFSFlagsToIFlags fl) =? fl) && (0 <=? EXT2VFSFlagsToIFlags fl) && (EXT2VFSFlagsToIFlags fl <? 2 ^ 32)) ltac:(vm_compute; reflexivity) fl ltac:(lia)) as E.
  apply andb_true_iff in E as [[E1%Z.eqb_eq E2%Z.leb_le]%andb_true_iff E3%Z.ltb_lt]. auto.
Qed.

(** * The layout *)

Lemma sub_skip l l' off n : (length l <= off)%nat -> sub (l ++ l') off n = sub l' (off - length l) n.
Proof. intros. unfold sub. now rewrite drop_app_ge. Qed.
Lemma sub_here l l' n : length l = n -> sub (l ++ l') 0 n = l.
Proof. intros <-. unfold sub. rewrite drop_0. apply take_app_length. Qed.
Lemma sub_whole l n : length l = n -> sub l 0 n = l.
Proof. intros <-. unfold sub. rewrite drop_0. now apply take_ge. Qed.

Lemma bytes32_length ws : length (bytes32 ws) = (4 * length ws)%nat.
Proof. unfold bytes32. induction ws as [|w ws IH]; [easy|]. cbn [map concat length]. rewrite length_app, le_encode_length, IH. lia. Qed.

Lemma words32_bytes32 ws : Forall word32 ws -> words32 (length ws) (bytes32 ws) = ws.
Proof.
  induction 1 as [|w ws Hw _ IH]; [easy|]. unfold bytes32 in *. cbn [length words32 map concat].
  rewrite take_app_le, drop_app_ge, le_encode_length, Nat.sub_diag, drop_0, take_ge, IH by (rewrite le_encode_length; lia).
  f_equal. rewrite le_decode_encode. now apply Z.mod_small.
Qed.

(** The values fit the fields of an inode on disk. *)
Record storable (n : inode_t) : Prop := {
  so_type : vfs_type (type n);
  so_perm : 0 <= permissions n < 2 ^ 12;
  so_flags : 0 <= flags n < 2 ^ 5;
  so_ids : 0 <= owner_id n < 2 ^ 16 /\ 0 <= group_id n < 2 ^ 16 /\ 0 <= ref_count (data n) < 2 ^ 16;
  so_words : Forall word32 [accessed_at (data n); changed_at (data n); modified_at (data n); i_dtime (data n); i_blocks (data n); i_osd1 (data n);
    i_generation (data n); i_file_acl (data n); i_dir_acl (data n); i_faddr (data n)];
  so_block : length (i_block (data n)) = 15%nat /\ Forall word32 (i_block (data n));
  so_osd2 : length (i_osd2 (data n)) = 12%nat /\ Forall is_byte (i_osd2 (data n)) }.

(** The size the disk records: the low 32 bits of the size, and for a file the
    word [i_dir_acl] above them, which a write does not take from the size. *)
Definition stored_size (n : inode_t) : Z := isize n mod 2 ^ 32 + (if type n =? VFS_TYPE_FILE then 2 ^ 32 * i_dir_acl (data n) else 0).
(** The device number it records: the low half of the first block pointer. *)
Definition stored_dev (n : inode_t) : Z := nth 0 (i_block (data n)) 0 mod 2 ^ 16.
(** The inode [m] with everything the disk records taken from [n]. *)
Definition restored (n m : inode_t) : inode_t :=
  Inode (owner_id n) (group_id n) (flags n) (type n) (stored_size n) (permissions n)
    (if (type n =? VFS_TYPE_CHARDEV) || (type n =? VFS_TYPE_BLOCKDEV) then stored_dev n else dev_id m)
    (InoData (inode_number (data m)) (block_group (data m)) (disk_offset (data m))
      (ref_count (data n)) (changed_at (data n)) (modified_at (data n)) (accessed_at (data n)) (i_blocks (data n)) (i_generation (data n))
      (i_file_acl (data n)) (i_dir_acl (data n)) (i_faddr (data n)) (i_osd1 (data n)) (i_osd2 (data n)) (i_dtime (data n)) (i_block (data n))).

Section Layout.
Context (n : inode_t) (Hlen : length (i_block (data n)) = 15%nat) (Hosd : length (i_osd2 (data n)) = 12%nat).

Lemma raw_length : length (PopulateRawInode n) = 128%nat.
Proof. unfold PopulateRawInode. rewrite !length_app, !le_encode_length, bytes32_length, Hlen, Hosd. reflexivity. Qed.

(** Finds the field of the layout that starts at an offset. *)
Ltac seek := unfold PopulateRawInode; repeat (rewrite sub_skip by (rewrite ?le_encode_length, ?bytes32_length, ?Hlen; lia); rewrite ?le_encode_length, ?bytes32_length, ?Hlen; simpl (_ - _)%nat).
Ltac field := intros; unfold raw_get; seek; rewrite sub_here by apply le_encode_length; rewrite le_decode_encode; now apply Z.mod_small.

Lemma raw_mode : let m := Z.lor (EXT2TypeToMode (type n)) (Z.land (permissions n) 0x0FFF) in 0 <= m < 2 ^ 16 -> raw_get (PopulateRawInode n) 0 2 = m.
Proof. field. Qed.
Lemma raw_uid : 0 <= owner_id n < 2 ^ 16 -> raw_get (PopulateRawInode n) 2 2 = owner_id n.
Proof. field. Qed.
Lemma raw_size : raw_get (PopulateRawInode n) 4 4 = wrap32 (isize n).
Proof. unfold raw_get. seek. rewrite sub_here by apply le_encode_length. now rewrite le_decode_encode. Qed.
Lemma raw_gid : 0 <= group_id n < 2 ^ 16 -> raw_get (PopulateRawInode n) 24 2 = group_id n.
Proof. field. Qed.
Lemma raw_links : 0 <= ref_count (data n) < 2 ^ 16 -> raw_get (PopulateRawInode n) 26 2 = ref_count (data n).
Proof. field. Qed.
Lemma raw_flags : 0 <= EXT2VFSFlagsToIFlags (flags n) < 2 ^ 32 -> raw_get (PopulateRawInode n) 32 4 = EXT2VFSFlagsToIFlags (flags n).
Proof. field. Qed.
Lemma raw_words : Forall word32 [accessed_at (data n); changed_at (data n); modified_at (data n); i_dtime (data n); i_blocks (data n); i_osd1 (data n);
    i_generation (data n); i_file_acl (data n); i_dir_acl (data n); i_faddr (data n)] ->
  map (λ off, raw_get (PopulateRawInode n) off 4) [8; 12; 16; 20; 28; 36; 100; 104; 108; 112]%nat =
    [accessed_at (data n); changed_at (data n); modified_at (data n); i_dtime (data n); i_blocks (data n); i_osd1 (data n);
     i_generation (data n); i_file_acl (data n); i_dir_acl (data n); i_faddr (data n)].
Proof. rewrite !list.Forall_cons. unfold word32, is_word. intros. destruct_and!. cbn [map]. repeat f_equal; field. Qed.
Lemma raw_block : sub (PopulateRawInode n) 40 60 = bytes32 (i_block (data n)).
Proof. seek. apply sub_here. now rewrite bytes32_length, Hlen. Qed.
Lemma raw_osd2 : sub (PopulateRawInode n) 116 12 = i_osd2 (data n).
Proof. seek. now apply sub_whole. Qed.
Lemma raw_dev : Forall word32 (i_block (data n)) -> raw_get (PopulateRawInode n) 40 4 = nth 0 (i_block (data n)) 0.
Proof.
  intros Hw. unfold raw_get. seek. destruct (i_block (data n)) as [|w ws]; [easy|]. unfold bytes32. cbn [map concat]. rewrite <- app_assoc, sub_here by apply le_encode_length.
  rewrite le_decode_encode. apply list.Forall_cons in Hw as [Hw _]. now apply Z.mod_small.
Qed.
End Layout.

Lemma raw_bytes n : Forall is_byte (i_osd2 (data n)) -> Forall is_byte (PopulateRawInode n).
Proof.
  intros Ho. unfold PopulateRawInode. repeat (apply Forall_app; split; [try apply le_encode_bytes|]); [|apply le_encode_bytes..|exact Ho].
  unfold bytes32. induction (i_block (data n)) as [|w ws IH]; [constructor|]. cbn [map concat]. apply Forall_app. split; [apply le_encode_bytes|exact IH].
Qed.

Lemma lor_high a b : 0 <= a < 2 ^ 32 -> Z.lor a (Z.shiftl b 32) = a + 2 ^ 32 * b.
Proof.
  intros Ha. rewrite Z.mul_comm, <- Z.shiftl_mul_pow2 by lia. symmetry. rewrite Z.add_nocarry_lxor; [apply Z.lxor_lor|]; rewrite <- (Z.mod_small a (2 ^ 32)), <- Z.land_ones by lia;
    apply Z.bits_inj'; intros k Hk; rewrite !Z.land_spec, Z.bits_0; destruct (Z.lt_ge_cases k 32);
    rewrite ?Z.ones_spec_high, ?(Z.shiftl_spec_low b 32 k) by lia; rewrite ?andb_false_r; reflexivity.
Qed.

Lemma decode_encode n m : storable n -> PopulateInode (PopulateRawInode n) m = restored n m.
Proof.
  intros [Ht Hp Hf (Hu & Hg & Hl) Hw [Bl Bw] [Ol Ob]].
  destruct (mode_roundtrip _ _ Ht Hp) as (M1 & M2 & M3). destruct (flags_roundtrip _ Hf) as [F1 F2].
  pose proof (raw_words n Bl Ol Hw) as HW. unfold PopulateInode, restored. injection HW as E1 E2 E3 E4 E5 E6 E7 E8 E9 E10. 
  rewrite E1, E2, E3, E4, E5, E6, E7, E8, E9, E10, raw_mode, raw_uid, raw_gid, raw_links, raw_size, raw_flags, raw_block, raw_osd2, raw_dev by assumption. rewrite M2, M3, F1.
  assert (words32 15 (bytes32 (i_block (data n))) = i_block (data n)) as -> by (rewrite <- Bl; now apply words32_bytes32).
  unfold stored_size, stored_dev. f_equal.
  - destruct (type n =? VFS_TYPE_FILE); [apply lor_high, (wrap_range 32); lia|now rewrite Z.add_0_r].
  - destruct (_ || _); [|easy]. change 0xFFFF with (Z.ones 16). now rewrite Z.land_ones by lia.
Qed.

(** * The inode table *)

Section Table.
Context `{Volume} {VO : VolumeOk} `{KK : Kernel} {KO : KernelOk}.

(** Inode number [ino] is at byte [off] of block [blk]. *)
Record placed (s : ext2) (ino blk off : Z) : Prop := {
  pl_ino : 0 < ino < 2 ^ 32;
  pl_group : exists bg, arr_get (bgdt s) ((ino - 1) / inodes_per_group) = Some bg /\
    blk = inode_table bg + ((ino - 1) mod inodes_per_group * inode_size) / block_size;
  pl_off : off = ((ino - 1) mod inodes_per_group * inode_size) mod block_size;
  pl_fits : off + 128 <= block_size;
  pl_geom : 0 < inodes_per_group /\ 0 <= inode_size /\ (ino - 1) mod inodes_per_group * inode_size < 2 ^ 32;
  pl_blk : 0 < blk < 2 ^ 32 }.

Lemma placed_bgdt s s' ino blk off : bgdt s' = bgdt s -> placed s ino blk off -> placed s' ino blk off.
Proof. intros E [H1 H2 H3 H4 H5 H6]. split; auto. now rewrite E. Qed.

Definition upd_inode (p : Z) (n : inode_t) (s : ext2) : ext2 := set_inodes (<[p := n]> (inodes s)) s.

Lemma wp_ino_at s p n (Q : inode_t -> ext2 -> Prop) : inodes s !! p = Some n -> Q n s -> wp (ino_at p) Q s.
Proof. intros Hp HQ. unfold ino_at. apply wp_bind, wp_get. eapply wp_of_option; [exact Hp|exact HQ]. Qed.

Lemma wp_data_upd s p n f (Q : unit -> ext2 -> Prop) : inodes s !! p = Some n -> Q tt (upd_inode p (set_data (f (data n)) n) s) -> wp (data_upd p f) Q s.
Proof. intros Hp HQ. unfold data_upd, ino_upd. apply wp_bind. eapply wp_ino_at; [exact Hp|]. now apply wp_modify. Qed.

Lemma wp_ino_upd s p n f (Q : unit -> ext2 -> Prop) : inodes s !! p = Some n -> Q tt (upd_inode p (f n) s) -> wp (ino_upd p f) Q s.
Proof. intros Hp HQ. unfold ino_upd. apply wp_bind. eapply wp_ino_at; [exact Hp|]. now apply wp_modify. Qed.

Lemma st_upd_inode X c r s p n : st X c r s -> st X c r (upd_inode p n s).
Proof. intros Hst. now apply (st_core _ _ _ _ _ Hst). Qed.
Lemma upd_inode_eq s p n : inodes (upd_inode p n s) !! p = Some n.
Proof. apply lookup_insert_eq. Qed.
Lemma upd_inode_twice s p n m : upd_inode p m (upd_inode p n s) = upd_inode p m s.
Proof. unfold upd_inode. simpl. now rewrite insert_insert_eq. Qed.
Lemma upd_inode_same s p n : inodes s !! p = Some n -> upd_inode p n s = s.
Proof. intros E. unfold upd_inode. rewrite (insert_id _ _ _ E). now destruct s. Qed.

(** The offset recorded in memory is 0 or the right one. *)
Definition offset_ok (n : inode_t) (blk off : Z) : Prop := disk_offset (data n) = 0 \/ disk_offset (data n) = blk * block_size + off.
Definition located (n : inode_t) (blk off : Z) : inode_t := set_data (set_disk_offset (blk * block_size + off) (data n)) n.

Lemma table_offset s ino blk off : placed s ino blk off -> exists bg, arr_get (bgdt s) ((ino - 1) / inodes_per_group) = Some bg /\
  wrap64 (wrap32 (inode_table bg + wrap32 (wrap32 (wrap32 (ino - 1) mod inodes_per_group * inode_size) / block_size)) * block_size
    + wrap32 (wrap32 (wrap32 (ino - 1) mod inodes_per_group * inode_size) mod block_size)) = blk * block_size + off.
Proof.
  intros [H1 (bg & Hbg & Eb) H3 H4 H5 H6]. exists bg. split; [exact Hbg|]. pose proof bs_range. pose proof bs_pos.
  rewrite (wrap_small 32 (ino - 1)) by (unfold is_word; lia). set (i := (ino - 1) mod inodes_per_group * inode_size) in *.
  assert (0 <= (ino - 1) mod inodes_per_group) by (apply Z.mod_pos_bound; lia). assert (0 <= i) by (unfold i; nia).
  rewrite (wrap_small 32 i) by (unfold is_word; lia). assert (0 <= i / block_size <= i) by now apply div_bs. pose proof (Z.mod_pos_bound i block_size bs_pos).
  rewrite (wrap_small 32 (i / block_size)), (wrap_small 32 (i mod block_size)) by (unfold is_word; lia). rewrite <- Eb.
  rewrite (wrap_small 32 blk) by (unfold is_word; lia). rewrite wrap64_small by nia. now rewrite H3.
Qed.

Lemma wp_locate s p n blk off (Q : unit -> ext2 -> Prop) : inodes s !! p = Some n -> placed s (inode_number (data n)) blk off ->
  block_group (data n) = (inode_number (data n) - 1) / inodes_per_group -> offset_ok n blk off ->
  Q tt (upd_inode p (located n blk off) s) -> wp (locate_inode p) Q s.
Proof.
  intros Hp Hpl Hg Ho HQ. unfold locate_inode. apply wp_bind. eapply wp_ino_at; [exact Hp|]. apply wp_when.
  destruct (Z.eqb_spec (disk_offset (data n)) 0) as [E|E].
  - destruct (table_offset _ _ _ _ Hpl) as (bg & Hbg & Eo). unfold bg_at. apply wp_bind, wp_bind, wp_get. eapply wp_of_option; [rewrite Hg; exact Hbg|].
    eapply wp_data_upd; [exact Hp|]. rewrite Eo. exact HQ.
  - assert (located n blk off = n) as El.
    { unfold located, set_disk_offset, set_data. destruct Ho as [Ho|Ho]; [easy|]. rewrite <- Ho. destruct n as [? ? ? ? ? ? ? []]. reflexivity. }
    now rewrite El, upd_inode_same in HQ.
Qed.

(** Where the routines find the inode. *)
Lemma located_place n s ino blk off : placed s ino blk off ->
  wrap32 (disk_offset (data (located n blk off)) / block_size) = blk /\ wrap32 (disk_offset (data (located n blk off)) mod block_size) = off.
Proof.
  intros [H1 _ H3 H4 H5 H6]. simpl. pose proof bs_range. pose proof bs_pos.
  assert (0 <= off < block_size) by (rewrite H3; apply Z.mod_pos_bound; lia).
  rewrite Z.div_add_l, Z.div_small, Z.add_0_r by lia. rewrite Z.add_comm, Z_mod_plus_full, Z.mod_small by lia.
  split; apply wrap_small; unfold is_word; lia.
Qed.

(** Reading a block of the volume and giving it back. *)
Lemma upd_back (r : Z -> Z) b x : upd (upd r b (r b + 1)) b (upd r b (r b + 1) b - 1) x = r x.
Proof. unfold upd. repeat case_decide; subst; easy || lia. Qed.

Definition stamped (n : inode_t) (t : Z) : inode_t := set_data (set_changed_at t (data n)) n.
Definition touched (n : inode_t) (t : Z) : inode_t := if t =? 0 then n else set_data (set_accessed_at t (data n)) n.
Definition now (s : ext2) : Z := wrap32 (rtc (clock s)).
Definition tick (s : ext2) : ext2 := set_clock (S (clock s)) s.

Lemma write_inode_ok c r s p n blk off l : st ∅ c r s -> room 1 r -> p <> 0 -> inodes s !! p = Some n -> placed s (inode_number (data n)) blk off ->
  block_group (data n) = (inode_number (data n) - 1) / inodes_per_group -> offset_ok n blk off -> c blk = Some l -> is_block l ->
  length (i_block (data n)) = 15%nat -> length (i_osd2 (data n)) = 12%nat ->
  let n' := located (stamped n (now s)) blk off in
  wp (EXT2WriteInode p) (λ a s', a = 0 /\ st ∅ (upd c blk (Some (put l (Z.to_nat off) (PopulateRawInode n')))) r s' /\
    core s' = core (upd_inode p n' (tick s))) s.
Proof.
  intros Hst Hroom Hp0 Hp Hpl Hg Ho Hl Hblk Bl Ol n'. unfold EXT2WriteInode. destruct (Z.eqb_spec p 0); [easy|].
  unfold unix_time. apply wp_bind. repeat wp_step. fold (now s) (tick s). eapply wp_data_upd; [exact Hp|]. fold (stamped n (now s)).
  apply wp_bind. eapply wp_locate; [apply upd_inode_eq|apply (placed_bgdt s _ _ blk off); [reflexivity|exact Hpl]|exact Hg|exact Ho|]. rewrite upd_inode_twice. fold n'.
  apply wp_bind. eapply wp_ino_at; [apply upd_inode_eq|]. set (s1 := upd_inode p n' (tick s)).
  destruct (located_place (stamped n (now s)) s _ blk off Hpl) as [E1 E2]. fold n' in E1, E2. rewrite E1, E2.
  assert (st ∅ c r s1) as S1 by now apply (st_core _ _ _ _ _ Hst). assert (word32 blk) as Hw by (destruct (pl_blk _ _ _ _ Hpl); unfold word32, is_word; lia).
  pose proof (st_nonneg _ _ _ _ Hst blk). assert (0 <= off) by (rewrite (pl_off _ _ _ _ Hpl); apply Z.mod_pos_bound, bs_pos).
  apply wp_bind. eapply wp_mono; [apply (wp_bread_use ∅ c r s1 blk l S1 Hroom Hw Hl)|]. intros _ s2 [S2 C2].
  apply wp_bind. eapply wp_mono; [apply (wp_buf_write _ _ _ s2 blk l off (PopulateRawInode n') S2 Hw); [rewrite upd_eq; lia|exact Hl|lia|]|].
  { rewrite raw_length by assumption. destruct Hblk as [-> _]. apply (pl_fits _ _ _ _ Hpl). }
  intros _ s3 [S3 C3]. apply wp_bind. eapply wp_mono; [apply (wp_bwrite _ _ _ s3 blk S3 Hw); rewrite upd_eq; lia|]. intros _ s4 [S4 C4].
  replace ((∅ ∪ {[blk]}) ∖ {[blk]} : gset Z) with (∅ : gset Z) in S4 by set_solver.
  apply wp_bind. eapply wp_mono; [apply (wp_brelse ∅ _ _ s4 blk S4 Hw); [rewrite upd_eq; lia|set_solver]|]. intros _ s5 [S5 C5].
  apply wp_ret. split_and!; [easy|eapply st_ext; [exact S5|easy|]; intros x; now rewrite upd_back|congruence].
Qed.

Lemma read_inode_ok c r s p n blk off l : st ∅ c r s -> room 1 r -> p <> 0 -> inodes s !! p = Some n -> placed s (inode_number (data n)) blk off ->
  block_group (data n) = 2 ^ 32 - 1 -> disk_offset (data n) = 0 -> c blk = Some l -> is_block l ->
  let n1 := located (set_data (set_block_group ((inode_number (data n) - 1) / inodes_per_group) (data n)) n) blk off in
  wp (EXT2ReadInode p) (λ a s', a = 0 /\ st ∅ c r s' /\
    core s' = core (upd_inode p (touched (PopulateInode (sub l (Z.to_nat off) 128) n1) (now s)) (tick s))) s.
Proof.
  intros Hst Hroom Hp0 Hp Hpl Hg Ho Hl Hblk n1. unfold EXT2ReadInode. destruct (Z.eqb_spec p 0); [easy|].
  apply wp_bind. eapply wp_ino_at; [exact Hp|]. apply wp_bind, wp_when. rewrite Hg. rewrite Z.eqb_refl.
  assert (EXT2InodeNumberToGroup (inode_number (data n)) = (inode_number (data n) - 1) / inodes_per_group) as Eg.
  { unfold EXT2InodeNumberToGroup. rewrite wrap_small; [easy|]. destruct (pl_ino _ _ _ _ Hpl). unfold is_word. lia. }
  rewrite Eg. eapply wp_data_upd; [exact Hp|]. set (ng := set_data _ _).
  apply wp_bind. eapply wp_locate; [apply upd_inode_eq|apply (placed_bgdt s _ _ blk off); [reflexivity|exact Hpl]|easy|now left|]. rewrite upd_inode_twice. fold n1.
  apply wp_bind. eapply wp_ino_at; [apply upd_inode_eq|]. set (s1 := upd_inode p n1 s). destruct (located_place ng s _ blk off Hpl) as [E1 E2]. fold n1 in E1, E2. rewrite E1, E2.
  assert (st ∅ c r s1) as S1 by now apply (st_core _ _ _ _ _ Hst). assert (word32 blk) as Hw by (destruct (pl_blk _ _ _ _ Hpl); unfold word32, is_word; lia).
  pose proof (st_nonneg _ _ _ _ Hst blk). assert (0 <= off) by (rewrite (pl_off _ _ _ _ Hpl); apply Z.mod_pos_bound, bs_pos).
  apply wp_bind. eapply wp_mono; [apply (wp_bread_use ∅ c r s1 blk l S1 Hroom Hw Hl)|]. intros _ s2 [S2 C2].
  apply wp_bind. eapply wp_mono; [apply (wp_buf_read _ _ _ s2 blk l off 128 S2 Hw); [rewrite upd_eq; lia|exact Hl|lia|]|].
  { destruct Hblk as [-> _]. apply (pl_fits _ _ _ _ Hpl). }
  intros raw s3 [-> ->]. assert (inodes s2 !! p = Some n1) as Ep by (rewrite (core_inodes _ _ C2); apply upd_inode_eq).
  apply wp_bind. eapply wp_ino_upd; [exact Ep|]. set (m := PopulateInode _ n1). unfold unix_time. apply wp_bind. repeat wp_step.
  assert (wrap32 (rtc (clock (upd_inode p m s2))) = now s) as -> by (unfold now; do 2 f_equal; exact (f_equal clock C2)).
  assert (forall s6, st ∅ c (upd r blk (r blk + 1)) s6 -> core s6 = core (upd_inode p (touched m (now s)) (tick s)) ->
    wp (brelse blk;; ret 0) (λ a s', a = 0 /\ st ∅ c r s' /\ core s' = core (upd_inode p (touched m (now s)) (tick s))) s6) as Hend.
  { intros s6 S6 C6. apply wp_bind. eapply wp_mono; [apply (wp_brelse ∅ _ _ s6 blk S6 Hw); [rewrite upd_eq; lia|set_solver]|]. intros _ s7 [S7 C7].
    apply wp_ret. split_and!; [easy|eapply st_ext; [exact S7|easy|]; intros x; now rewrite upd_back|congruence]. }
  assert (core (tick (upd_inode p m s2)) = core (upd_inode p m (tick s))) as C3.
  { transitivity (tick (upd_inode p m (core s2))); [easy|]. rewrite C2. unfold s1, upd_inode, tick, core. simpl. now rewrite insert_insert_eq. }
  unfold touched in *. destruct (now s =? 0); simpl negb; cbv iota.
  - apply Hend; [now apply (st_core _ _ _ _ _ S2)|exact C3].
  - eapply wp_data_upd; [apply lookup_insert_eq|]. apply Hend; [now apply (st_core _ _ _ _ _ S2)|].
    change (core (upd_inode p ?x ?y)) with (upd_inode p x (core y)). change (set_clock _ (upd_inode p m s2)) with (tick (upd_inode p m s2)). rewrite C3.
    change (core (upd_inode p m (tick s))) with (upd_inode p m (core (tick s))). apply upd_inode_twice.
Qed.
End Table.
