(* ===== verification/Ext2Lookup.v ===== *)
(** ext2: looking a name up in a directory. A directory is the list of its
    entries; [EXT2LookupInner] finds the first one in use with the name, reads
    the inode it refers to, and fails exactly when there is none. *)

From S2P Require Import Prelude BitMath Bytes CString Ext2 Ext2Cache Ext2Blocks Ext2Map Ext2Dir Ext2File Ext2Inode.

(** * Names *)

Definition is_name (nm : list Z) : Prop := Forall (λ x, 0 < x < 256) nm /\ (length nm < 256)%nat.

Lemma byte_s8_inj a b : is_byte a -> is_byte b -> to_s8 a = to_s8 b -> a = b.
Proof. unfold is_byte, to_s8. intros. destruct (Z.ltb_spec a 128), (Z.ltb_spec b 128); lia. Qed.

(** Names of one length compare equal exactly when they are. *)
Lemma strncmp_bytes_eq a nm rest : length a = length nm -> Forall is_byte a -> Forall (λ x, 0 < x < 256) nm -> rest <> [] ->
  exists v, strncmp_bytes (a ++ rest) (nm ++ [0]) (length nm) = Some v /\ (v = 0 <-> a = nm).
Proof.
  revert nm. induction a as [|x a IH]; intros [|y nm] Hl Ha Hn Hr; try easy.
  - destruct rest as [|z rest]; [easy|]. exists 0. split; [|easy]. simpl. rewrite andb_false_r. reflexivity.
  - apply list.Forall_cons in Ha as [Hx Ha]. apply list.Forall_cons in Hn as [Hy Hn]. injection Hl as Hl. simpl.
    rewrite (proj2 (Z.eqb_neq y 0)) by lia. destruct (Z.eqb_spec x 0) as [->|Hx0]; simpl.
    + exists (-1). split; [easy|]. split; [easy|]. intros [= E]. lia.
    + destruct (Z.ltb_spec (to_s8 y) (to_s8 x)); [exists 1; split; [easy|]; split; [easy|intros [= -> _]; lia]|].
      destruct (Z.ltb_spec (to_s8 x) (to_s8 y)); [exists (-1); split; [easy|]; split; [easy|intros [= -> _]; lia]|].
      destruct (IH nm Hl Ha Hn Hr) as (v & Ev & Hv). exists v. split; [exact Ev|]. rewrite Hv. split; [intros ->|now intros [= _ ->]].
      f_equal. apply byte_s8_inj; [exact Hx|unfold is_byte; lia|lia].
Qed.

Section Lookup.
Context `{Volume} {VO : VolumeOk} `{KK : Kernel} {KO : KernelOk} (Hafter : forall b, after b <> []).

(** * Directories as lists of entries *)

Record dirent := Ent { de_off : Z; de_ino : Z; de_len : Z; de_nlen : Z; de_name : list Z }.

Definition entry_at (l : list Z) (off : Z) : dirent :=
  let o := Z.to_nat off in
  Ent off (raw_get l o 4) (raw_get l (o + 4) 2) (raw_get l (o + 6) 1) (sub l (o + 8) (Z.to_nat (raw_get l (o + 6) 1))).

(** The entries of a block from [off] on; they fill the block exactly. *)
Fixpoint parse (fuel : nat) (l : list Z) (off : Z) : option (list dirent) :=
  match fuel with
  | O => None
  | S fuel =>
      if off =? block_size then Some []
      else if block_size <? off + 8 then None
      else
        let e := entry_at l off in
        if (de_len e <? 8 + de_nlen e) || (block_size <? off + de_len e) then None
        else match parse fuel l (off + de_len e) with Some es => Some (e :: es) | None => None end
  end.

Definition matches (nm : list Z) (e : dirent) : bool := negb (de_ino e =? 0) && bool_decide (de_name e = nm).
Definition find_name (nm : list Z) (es : list dirent) : option Z :=
  match List.find (matches nm) es with Some e => Some (de_ino e) | None => None end.

Definition entries_of (c : Z -> option (list Z)) (b : Z) : list dirent :=
  match c b with Some l => default [] (parse block_fuel l 0) | None => [] end.
Definition index_entries (c : Z -> option (list Z)) (blocks : list Z) (i : Z) : list dirent :=
  let b := bmap c blocks i in if b =? 0 then [] else entries_of c b.
(** The entries in blocks [i] to [i + k - 1] of the directory. *)
Fixpoint dir_entries (c : Z -> option (list Z)) (blocks : list Z) (k : nat) (i : Z) : list dirent :=
  match k with O => [] | S k => index_entries c blocks i ++ dir_entries c blocks k (i + 1) end.

Lemma find_name_app nm es es' : find_name nm (es ++ es') = match find_name nm es with Some i => Some i | None => find_name nm es' end.
Proof using. unfold find_name. induction es as [|e es IH]; [easy|]. simpl. now destruct (matches nm e). Qed.

(** The block is cut into entries. *)
Definition dir_block (c : Z -> option (list Z)) (b : Z) : Prop := exists l es, c b = Some l /\ is_block l /\ parse block_fuel l 0 = Some es.

(** * The search in one block *)

(** An entry that lies within its block. *)
Record fits (l : list Z) (off : Z) : Prop := {
  fi_off : 0 <= off /\ off + 8 <= block_size;
  fi_len : 8 + de_nlen (entry_at l off) <= de_len (entry_at l off);
  fi_end : off + de_len (entry_at l off) <= block_size }.

Lemma raw_byte l o : Forall is_byte l -> 0 <= raw_get l o 1 < 256.
Proof using.
  intros Hb. unfold raw_get. pose proof (le_decode_range (sub l o 1) (sub_bytes l o 1 Hb)) as Hr. assert (length (sub l o 1) <= 1)%nat by (unfold sub; rewrite length_take; lia).
  assert (256 ^ Z.of_nat (length (sub l o 1)) <= 256 ^ 1) by (apply Z.pow_le_mono_r; lia). lia.
Qed.

Lemma entry_name l off : is_block l -> fits l off -> let e := entry_at l off in
  0 <= de_nlen e < 256 /\ Z.of_nat (length (de_name e)) = de_nlen e /\ Forall is_byte (de_name e) /\
  forall a, drop (Z.to_nat (off + 8)) (l ++ a) = de_name e ++ drop (Z.to_nat (off + 8 + de_nlen e)) l ++ a.
Proof using VO.
  intros [Hlen Hb] [F1 F2 F3] e. assert (0 <= de_nlen e < 256) as Hn by now apply raw_byte. fold e in F2, F3.
  assert (length (de_name e) = Z.to_nat (de_nlen e)) as El by (apply sub_length; change (raw_get l (Z.to_nat off + 6) 1) with (de_nlen e); lia).
  split; [exact Hn|]. split; [lia|]. split; [now apply sub_bytes|]. intros a. rewrite drop_app_le by lia. rewrite app_assoc. f_equal.
  change (de_name e) with (sub l (Z.to_nat off + 8) (Z.to_nat (de_nlen e))). unfold sub.
  replace (Z.to_nat (off + 8)) with (Z.to_nat off + 8)%nat by lia. rewrite <- (take_drop (Z.to_nat (de_nlen e)) (drop (Z.to_nat off + 8) l)) at 1.
  f_equal. rewrite drop_drop. f_equal. lia.
Qed.

Lemma wp_de_strncmp X c r s b l nm off : st X c r s -> word32 b -> 0 < r b -> c b = Some l -> is_block l -> is_name nm -> fits l off ->
  Z.of_nat (length nm) = de_nlen (entry_at l off) ->
  wp (de_strncmp b off nm (de_nlen (entry_at l off))) (λ v s', (v = 0 <-> de_name (entry_at l off) = nm) /\ s' = s) s.
Proof using VO KO Hafter.
  intros Hst Hb Hr Hl Hblk [Hn1 Hn2] Hf En. destruct (entry_name l off Hblk Hf) as (E1 & E2 & E3 & E4).
  destruct (held_cached X c r s b Hst Hr) as (u & Eu & _ & Ec). assert (bytes u = l) as Eb by congruence.
  unfold de_strncmp. rewrite (wrap_small 32 b Hb). apply wp_bind, wp_get, wp_bind. eapply wp_of_option; [exact Eu|]. rewrite Eb, E4.
  destruct (strncmp_bytes_eq (de_name (entry_at l off)) nm (drop (Z.to_nat (off + 8 + de_nlen (entry_at l off))) l ++ after b)) as (v & Ev & Hv); auto; [lia|..].
  { intros [_ Ha]%app_eq_nil. now apply (Hafter b). }
  replace (Z.to_nat (de_nlen (entry_at l off))) with (length nm) by lia. eapply wp_of_option; [exact Ev|]. auto.
Qed.

(** Reading a field of an entry. *)
Lemma wp_de_field X c r s b l off o n : st X c r s -> word32 b -> 0 < r b -> c b = Some l -> is_block l ->
  0 <= off -> (o + n <= 8)%nat -> off + 8 <= block_size ->
  wp (get_le n b (off + Z.of_nat o)) (λ v s', v = raw_get l (Z.to_nat off + o) n /\ s' = s) s.
Proof using.
  intros Hst Hb Hr Hl [Hlen _] Ho Hn Hfit. eapply wp_mono; [apply (wp_get_le X c r s b l (off + Z.of_nat o) n Hst Hb Hr Hl); lia|].
  intros v s' [-> ->]. split; [|easy]. unfold raw_get. do 2 f_equal. lia.
Qed.

Lemma parse_inv fuel l off es : 0 <= off -> parse (S fuel) l off = Some es ->
  (off = block_size /\ es = []) \/ (off < block_size /\ fits l off /\ exists es', es = entry_at l off :: es' /\ parse fuel l (off + de_len (entry_at l off)) = Some es').
Proof using.
  intros Ho Hp. cbn [parse] in Hp. destruct (Z.eqb_spec off block_size); [left; split; [easy|congruence]|right].
  destruct (Z.ltb_spec block_size (off + 8)); [easy|]. destruct (Z.ltb_spec (de_len (entry_at l off)) (8 + de_nlen (entry_at l off))); [easy|].
  destruct (Z.ltb_spec block_size (off + de_len (entry_at l off))); [easy|]. simpl in Hp. destruct (parse fuel l _) as [es'|]; [|easy].
  split; [lia|]. split; [now split|]. exists es'. split; [congruence|easy].
Qed.

Lemma lookup_block_ok X c r s b l nm fuel off es : st X c r s -> word32 b -> 0 < r b -> c b = Some l -> is_block l -> is_name nm -> 0 <= off ->
  parse fuel l off = Some es -> wp (loop fuel (lookup_step b nm) off) (λ res s', res = find_name nm es /\ s' = s) s.
Proof using VO KO Hafter.
  intros Hst Hb Hr Hl Hblk Hn. pose proof bs_range. revert off es. induction fuel as [|fuel IH]; intros off es Ho Hp; [easy|].
  rewrite loop_S. apply wp_bind. unfold lookup_step at 1. destruct (parse_inv fuel l off es Ho Hp) as [[-> ->]|(Hlt & Hf & es' & -> & Hp')].
  { rewrite Z.ltb_irrefl. simpl. apply wp_ret, wp_ret. auto. }
  destruct (Z.ltb_spec off block_size); [|lia]. simpl negb. cbv iota. destruct (entry_name l off Hblk Hf) as (E1 & E2 & E3 & _). pose proof Hf as [F1 F2 F3].
  set (e := entry_at l off) in *. unfold de_name_len, de_inode, de_rec_len.
  apply wp_bind. eapply wp_mono; [apply (wp_de_field X c r s b l off 6 1 Hst Hb Hr Hl Hblk); lia|]. intros nl s1 [Enl ->]. change (nl = de_nlen e) in Enl.
  apply wp_bind. rewrite <- (Z.add_0_r off) at 1. eapply wp_mono; [apply (wp_de_field X c r s b l off 0 4 Hst Hb Hr Hl Hblk); lia|]. intros ino s1 [Ei ->].
  rewrite Nat.add_0_r in Ei. change (ino = de_ino e) in Ei.
  apply wp_bind. eapply wp_mono; [apply (wp_de_field X c r s b l off 4 2 Hst Hb Hr Hl Hblk); lia|]. intros rl s1 [Erl ->]. change (rl = de_len e) in Erl.
  assert (wrap32 (off + rl) = off + de_len e) as Enext by (rewrite Erl; apply wrap_small; unfold is_word; lia).
  rewrite Enext, (wrap64_small (Z.of_nat (length nm))) by (destruct Hn; lia). unfold find_name. cbn [List.find]. unfold matches at 1. rewrite <- Ei, Enl.
  assert (wp (loop fuel (lookup_step b nm) (off + de_len e)) (λ res s', res = find_name nm es' /\ s' = s) s) as Hnext by (apply IH; [lia|exact Hp']).
  destruct (Z.eqb_spec ino 0); [rewrite orb_true_r; apply wp_ret; exact Hnext|]. rewrite orb_false_r.
  destruct (Z.eqb_spec (Z.of_nat (length nm)) (de_nlen e)) as [El|El]; simpl.
  - apply wp_bind. eapply wp_mono; [apply (wp_de_strncmp X c r s b l nm off); auto|]. intros v s2 [Hv ->]. fold e in Hv.
    destruct (Z.eqb_spec v 0) as [E0|E0]; [rewrite bool_decide_true by tauto|rewrite bool_decide_false by tauto]; apply wp_ret; [apply wp_ret; now subst|exact Hnext].
  - rewrite bool_decide_false; [apply wp_ret; exact Hnext|]. intros E. apply El. rewrite <- E. exact E2.
Qed.

(** * The whole directory *)

(** The inode a number refers to, as it is read from the table. *)
Definition fetched (lt : list Z) (blk off ino t : Z) : inode_t :=
  let m := set_data (set_inode_number ino (data zero_inode)) zero_inode in
  touched (PopulateInode (sub lt (Z.to_nat off) 128) (located (set_data (set_block_group ((ino - 1) / inodes_per_group) (data m)) m) blk off)) t.

Definition in_table (s : ext2) (c : Z -> option (list Z)) (ino blk off : Z) (lt : list Z) : Prop :=
  placed s ino blk off /\ c blk = Some lt /\ is_block lt.

(** Blocks [i] to [j - 1] of a directory, whose entries refer to inodes of the volume. *)
Record directory (s : ext2) (c : Z -> option (list Z)) (n : inode_t) : Prop := {
  di_file : readable c n;
  di_whole : isize n mod block_size = 0 /\ isize n / block_size < 2 ^ 32;
  di_blocks : forall i, 0 <= i < isize n / block_size -> bmap c (i_block (data n)) i <> 0 -> dir_block c (bmap c (i_block (data n)) i);
  di_inodes : forall i e, 0 <= i < isize n / block_size -> e ∈ index_entries c (i_block (data n)) i -> de_ino e <> 0 ->
    exists blk off lt, in_table s c (de_ino e) blk off lt }.

(** What a lookup returns and leaves behind. *)
Definition lookup_post (c : Z -> option (list Z)) (r : Z -> Z) (s : ext2) (found : option Z) (res : Z * Z) (s' : ext2) : Prop :=
  st ∅ c r s' /\
  match found with
  | None => res = (-ENOENT, 0) /\ core s' = core s
  | Some ino => exists blk off lt, in_table s c ino blk off lt /\
      res = (0, new_inode (inodes s)) /\ core s' = core (upd_inode (new_inode (inodes s)) (fetched lt blk off ino (now s)) (tick s))
  end.

Lemma find_name_in nm es ino : find_name nm es = Some ino -> exists e, e ∈ es /\ de_ino e = ino /\ ino <> 0.
Proof using.
  unfold find_name. destruct (List.find _ es) as [e|] eqn:E; [|easy]. intros [= <-]. apply List.find_some in E as [Hin Hm].
  exists e. split; [now apply list_elem_of_In|]. split; [easy|]. unfold matches in Hm. apply andb_true_iff in Hm as [Hm _]. apply negb_true_iff, Z.eqb_neq in Hm. exact Hm.
Qed.

(** Reading the inode of the entry found, while the directory block is held. *)
Lemma fetch_ok {A} c r s b ino blk off lt (K : Z -> M ext2 A) Q : st ∅ c (upd r b (r b + 1)) s -> nonneg r -> room 2 r -> word32 b -> in_table s c ino blk off lt ->
  (forall s', st ∅ c r s' -> core s' = core (upd_inode (new_inode (inodes s)) (fetched lt blk off ino (now s)) (tick s)) -> wp (K (new_inode (inodes s))) Q s') ->
  wp (let* p := EXT2AllocInode in if p =? 0 then undef else data_upd p (set_inode_number ino);; let* _ := EXT2ReadInode p in brelse b;; K p) Q s.
Proof using VO KO.
  intros Hst Hnn Hroom Hb (Hpl & Hlt & Hblk) HK. unfold EXT2AllocInode. apply wp_bind, wp_bind, wp_get. destruct (inode_ok (inodes s)) as [Hq0 Hq].
  set (q := new_inode (inodes s)) in *. destruct (Z.eqb_spec q 0); [easy|]. repeat wp_step. destruct (Z.eqb_spec q 0); [easy|]. apply wp_bind. eapply wp_data_upd; [apply lookup_insert_eq|].
  set (m := set_data _ zero_inode). set (s1 := upd_inode q m _). assert (st ∅ c (upd r b (r b + 1)) s1) as S1 by now apply (st_core _ _ _ _ _ Hst).
  apply wp_bind. eapply wp_mono; [apply (read_inode_ok c (upd r b (r b + 1)) s1 q m blk off lt); auto|].
  - apply room_upd. exact Hroom.
  - apply lookup_insert_eq.
  - now apply (placed_bgdt s).
  - intros _ s2 (_ & S2 & C2). apply wp_bind. eapply wp_mono; [apply (wp_brelse ∅ c _ s2 b S2 Hb); [rewrite upd_eq; specialize (Hnn b); lia|set_solver]|].
    intros _ s3 [S3 C3]. apply HK; [eapply st_ext; [exact S3|easy|]; intros x; now rewrite upd_back|]. rewrite C3, C2. unfold s1, upd_inode, tick, core. simpl.
    now rewrite !insert_insert_eq.
Qed.

Lemma lookup_blocks_ok c r s p n nm k i : st ∅ c r s -> room 3 r -> p <> 0 -> inodes s !! p = Some n -> directory s c n -> is_name nm ->
  0 <= i -> i + Z.of_nat k = isize n / block_size ->
  wp (lookup_blocks k p i nm) (lookup_post c r s (find_name nm (dir_entries c (i_block (data n)) k i))) s.
Proof using VO KO Hafter.
  intros Hst Hroom Hp0 Hp Hdir Hn. pose proof bs_pos as Hbs. pose proof (st_nonneg _ _ _ _ Hst) as Hnn.
  enough (forall s1, st ∅ c r s1 -> core s1 = core s -> 0 <= i -> i + Z.of_nat k = isize n / block_size ->
    wp (lookup_blocks k p i nm) (lookup_post c r s (find_name nm (dir_entries c (i_block (data n)) k i))) s1) as Hall by (intros; now apply Hall).
  revert i. induction k as [|k IH]; intros i s1 S1 C1 Hi Hk; [apply wp_ret; now split_and!|]. cbn [lookup_blocks dir_entries]. rewrite find_name_app.
  assert (inodes s1 !! p = Some n) as Hp1 by now rewrite (core_inodes _ _ C1).
  assert (i < isize n / block_size) as Hlt by lia. assert (i * block_size < isize n) as Hib by (pose proof (Z_div_mod_eq_full (isize n) block_size); destruct (di_whole _ _ _ Hdir); nia).
  pose proof (di_file _ _ _ Hdir) as Hrd. assert (0 <= i < capacity) as Hcap by (destruct (rd_size _ _ (rd_reach _ _ Hrd)); nia). assert (i < 2 ^ 32) as H32 by (destruct (di_whole _ _ _ Hdir); lia).
  apply wp_bind. eapply wp_mono; [apply (find_data_block_ok ∅ c r s1 p n i S1 Hroom Hp0 Hp1 (rd_file _ _ (rd_reach _ _ Hrd)) Hcap H32 (rd_double _ _ Hrd i Hi Hib))|].
  intros b s2 (-> & S2 & C2). assert (core s2 = core s) as C2' by congruence. pose proof (bmap_ok c _ i (rd_file _ _ (rd_reach _ _ Hrd)) Hcap) as Hok.
  pose proof (di_blocks _ _ _ Hdir i ltac:(lia)) as Hblk. assert (forall e, e ∈ index_entries c (i_block (data n)) i -> de_ino e <> 0 -> exists blk off lt, in_table s c (de_ino e) blk off lt) as Htab
    by (intros e; apply (di_inodes _ _ _ Hdir); lia).
  unfold index_entries in *. set (b := bmap c (i_block (data n)) i) in *. clearbody b. destruct (Z.eqb_spec b 0) as [E|Hb]; [apply IH; auto; lia|].
  destruct (Hblk Hb) as (l & es & Hl & Hbl & Hes). unfold entries_of in *. rewrite Hl, Hes in *. cbn [default from_option id] in *. pose proof (tree_ok_word _ _ _ Hok) as Hw.
  apply wp_bind. eapply wp_mono; [apply (wp_bread_use ∅ c r s2 b l S2 (room_le _ 1 _ Hroom ltac:(lia)) Hw Hl)|]. intros _ s3 [S3 C3].
  apply wp_bind. eapply wp_mono; [eapply (lookup_block_ok ∅ c _ s3 b l nm block_fuel 0 es S3 Hw); auto; [rewrite upd_eq; specialize (Hnn b); lia|lia]|].
  intros res s4 [-> ->]. assert (core s3 = core s) as C3' by congruence. destruct (find_name nm es) as [ino|] eqn:Ef.
  - destruct (find_name_in _ _ _ Ef) as (e & He & Ei & Hi0). destruct (Htab e He ltac:(lia)) as (blk & off & lt & Ht). rewrite Ei in Ht.
    assert (inodes s3 = inodes s) as Ein by exact (core_inodes _ _ C3'). assert (now s3 = now s) as Enow by (unfold now; do 2 f_equal; exact (f_equal clock C3')).
    apply (fetch_ok c r s3 b ino blk off lt (λ p, ret (0, p))); auto; [eapply room_le; [exact Hroom|lia]|destruct Ht as (H1 & H2 & H3); split_and!; auto; apply (placed_bgdt s); auto; exact (core_bgdt _ _ C3')|].
    intros s5 S5 C5. apply wp_ret. split; [exact S5|]. exists blk, off, lt. split; [exact Ht|]. rewrite <- Ein. split; [easy|]. rewrite C5, Enow.
    change (upd_inode (new_inode (inodes s3)) (fetched lt blk off ino (now s)) (tick (core s3)) = upd_inode (new_inode (inodes s3)) (fetched lt blk off ino (now s)) (tick (core s))). now rewrite C3'.
  - apply wp_bind. eapply wp_mono; [apply (wp_brelse ∅ c _ s3 b S3 Hw); [rewrite upd_eq; specialize (Hnn b); lia|set_solver]|]. intros _ s5 [S5 C5].
    apply IH; [eapply st_ext; [exact S5|easy|]; intros x; now rewrite upd_back|congruence|lia|lia].
Qed.

Lemma dir_lookup_ok c r s p n d : st ∅ c r s -> room 3 r -> p <> 0 -> inodes s !! p = Some n -> directory s c n -> is_name (name d) ->
  wp (EXT2LookupInner p d) (λ res s', exists q, res = (q.1, if q.1 =? 0 then Dentry (name d) q.2 else d) /\
    lookup_post c r s (find_name (name d) (dir_entries c (i_block (data n)) (Z.to_nat (isize n / block_size)) 0)) q s') s.
Proof using VO KO Hafter.
  intros Hst Hroom Hp0 Hp Hdir Hn. unfold EXT2LookupInner. destruct (Z.eqb_spec p 0); [easy|]. unfold dir_blocks. apply wp_bind, wp_bind. eapply wp_ino_at; [exact Hp|].
  apply wp_ret. destruct (di_whole _ _ _ Hdir) as [_ H32]. pose proof bs_pos. destruct (rd_size _ _ (rd_reach _ _ (di_file _ _ _ Hdir))) as [Hsz _].
  assert (0 <= isize n / block_size) by (apply Z.div_pos; lia). rewrite (wrap_small 32) by (unfold is_word; lia).
  apply wp_bind. eapply wp_mono; [apply (lookup_blocks_ok c r s p n (name d) (Z.to_nat (isize n / block_size)) 0); auto; lia|].
  intros q s' Hq. apply wp_ret. exists q. auto.
Qed.
End Lookup.
