(* ===== verification/Ext2Insert.v ===== *)
(** ext2: adding an entry to a directory. The last entry of a directory gives
    up the space it does not need, and the new entry takes it: the directory's
    list of entries is the old one with the new entry at its end. *)

From S2P Require Import Prelude BitMath Bytes CString Ext2 Ext2Cache Ext2Blocks Ext2Map Ext2Dir Ext2File Ext2Write Ext2Inode Ext2Lookup.

(** * Parts of a changed list *)

Lemma sub_put_before l off bs o n : (o + n <= off)%nat -> (off + length bs <= length l)%nat -> sub (put l off bs) o n = sub l o n.
Proof. intros H1 H2. apply list_eq. intros i. rewrite !sub_lookup, put_lookup by exact H2. repeat case_decide; auto; lia. Qed.
Lemma sub_put_after l off bs o n : (off + length bs <= o)%nat -> (off + length bs <= length l)%nat -> sub (put l off bs) o n = sub l o n.
Proof. intros H1 H2. apply list_eq. intros i. rewrite !sub_lookup, put_lookup by exact H2. repeat case_decide; auto; lia. Qed.

Lemma sub_put_in l off bs p n : (p + n <= length bs)%nat -> (off + length bs <= length l)%nat -> sub (put l off bs) (off + p) n = sub bs p n.
Proof. intros H1 H2. apply list_eq. intros i. rewrite !sub_lookup, put_lookup by exact H2. repeat case_decide; auto; try lia. f_equal. lia. Qed.

(** The size of an entry, rounded up to a multiple of 4. *)
Lemma dirent_align n : 0 <= n < 256 -> let a := wrap32 (EXT2_DIRENT_ALIGN (8 + n)) in 8 + n <= a <= 11 + n.
Proof.
  intros Hn. pose proof (Z_enum 256 (λ n, let a := wrap32 (EXT2_DIRENT_ALIGN (8 + n)) in (8 + n <=? a) && (a <=? 11 + n)) ltac:(vm_compute; reflexivity) n Hn) as E.
  apply andb_true_iff in E as [E1%Z.leb_le E2%Z.leb_le]. auto.
Qed.

Section Insert.
Context `{Volume} {VO : VolumeOk} `{KK : Kernel} {KO : KernelOk}.

(** * Chains of entries *)

Inductive chain (l : list Z) : Z -> list dirent -> Prop :=
| chain_nil : chain l block_size []
| chain_cons off es : off < block_size -> fits l off -> chain l (off + de_len (entry_at l off)) es -> chain l off (entry_at l off :: es).

Lemma parse_chain fuel l off es : is_block l -> 0 <= off -> parse fuel l off = Some es -> chain l off es.
Proof.
  intros Hl. revert off es. induction fuel as [|fuel IH]; intros off es Ho Hp; [easy|]. destruct (parse_inv _ _ _ _ Ho Hp) as [[-> ->]|(Hlt & Hf & es' & -> & Hp')]; [constructor|].
  constructor; auto. apply IH; [|exact Hp']. destruct (entry_name l off Hl Hf) as (E1 & _). destruct Hf. lia.
Qed.

Lemma chain_parse l off es fuel : is_block l -> chain l off es -> block_size - off < Z.of_nat fuel -> parse fuel l off = Some es.
Proof.
  intros Hl Hc. revert fuel. induction Hc as [|off es Hlt Hf Hc IH]; intros fuel Hfuel.
  - destruct fuel as [|fuel]; [lia|]. cbn [parse]. now rewrite Z.eqb_refl.
  - destruct fuel as [|fuel]; [lia|]. destruct (entry_name l off Hl Hf) as (E1 & _). destruct Hf as [F1 F2 F3]. cbn [parse].
    destruct (Z.eqb_spec off block_size); [lia|]. destruct (Z.ltb_spec block_size (off + 8)); [lia|].
    destruct (Z.ltb_spec (de_len (entry_at l off)) (8 + de_nlen (entry_at l off))); [lia|]. destruct (Z.ltb_spec block_size (off + de_len (entry_at l off))); [lia|].
    simpl. rewrite IH by lia. reflexivity.
Qed.

Lemma chain_inv l off e es : chain l off (e :: es) -> off < block_size /\ fits l off /\ e = entry_at l off /\ chain l (off + de_len (entry_at l off)) es.
Proof. intros Hc. remember (e :: es) as es1 eqn:E. destruct Hc; [easy|]. injection E as <- <-. auto. Qed.

Lemma chain_offsets l off es e : is_block l -> chain l off es -> e ∈ es -> off <= de_off e.
Proof.
  intros Hl. induction 1 as [|off es Hlt Hf Hc IH]; [now intros ?%not_elem_of_nil|]. destruct (entry_name l off Hl Hf) as (E1 & _). destruct Hf as [F1 F2 F3].
  intros [->|He]%elem_of_cons; [easy|]. specialize (IH He). lia.
Qed.

(** The last entry ends the block. *)
Lemma chain_last l off es : chain l off es -> off < block_size ->
  exists es0 o, es = es0 ++ [entry_at l o] /\ fits l o /\ o + de_len (entry_at l o) = block_size.
Proof.
  induction 1 as [|off es Hlt Hf Hc IH]; intros Hlt'; [lia|]. destruct (decide (off + de_len (entry_at l off) = block_size)) as [E|E].
  - rewrite E in Hc. inversion Hc; [|lia]. exists [], off. auto.
  - destruct IH as (es0 & o & -> & Hfo & Eo); [destruct Hf; lia|]. exists (entry_at l off :: es0), o. auto.
Qed.

(** * The block with the entry added *)

Definition new_header (ino len : Z) (nm : list Z) (type : Z) : list Z :=
  le_encode 4 ino ++ le_encode 2 len ++ le_encode 1 (Z.of_nat (length nm)) ++ le_encode 1 (EXT2TypeToFT type).
Definition inserted (l : list Z) (o a ino : Z) (nm : list Z) (type : Z) : list Z :=
  put (put (put l (Z.to_nat (o + 4)) (le_encode 2 a)) (Z.to_nat (o + a)) (new_header ino (block_size - (o + a)) nm type)) (Z.to_nat (o + a + 8)) nm.

Definition shortened (e : dirent) (a : Z) : dirent := Ent (de_off e) (de_ino e) a (de_nlen e) (de_name e).
Definition new_entry (o a ino : Z) (nm : list Z) : dirent := Ent (o + a) ino (block_size - (o + a)) (Z.of_nat (length nm)) nm.

Section Block.
Context (l : list Z) (o a ino : Z) (nm : list Z) (type : Z).
Context (Hl : is_block l) (Hf : fits l o) (Hend : o + de_len (entry_at l o) = block_size).
Context (Ha : 8 + de_nlen (entry_at l o) <= a) (Hfit : a + 8 + Z.of_nat (length nm) <= de_len (entry_at l o)) (Hino : word32 ino) (Hnm : is_name nm).
Abbreviation l' := (inserted l o a ino nm type).

Lemma inserted_pos : 0 <= o /\ 8 <= a /\ o + a + 8 + Z.of_nat (length nm) <= block_size /\ Z.of_nat (length l) = block_size /\ 0 <= de_nlen (entry_at l o) < 256.
Proof. destruct (entry_name l o Hl Hf) as (E1 & _). destruct Hf as [[F0 _] F2 F3], Hl. lia. Qed.

Lemma header_length len : length (new_header ino len nm type) = 8%nat.
Proof. reflexivity. Qed.

Ltac pos := pose proof inserted_pos; repeat rewrite put_length; rewrite ?header_length, ?le_encode_length; lia.

Lemma inserted_block : is_block l'.
Proof.
  pose proof inserted_pos. destruct Hnm as [Hn1 Hn2]. unfold inserted. repeat apply put_block; auto; try apply le_encode_bytes; try pos.
  - unfold new_header. repeat (apply Forall_app; split); apply le_encode_bytes.
  - revert Hn1. apply Forall_impl. unfold is_byte. lia.
Qed.

Lemma sub_low p n : (p + n <= Z.to_nat (o + 4))%nat -> sub l' p n = sub l p n.
Proof. intros Hp. unfold inserted. rewrite !sub_put_before; auto; pos. Qed.
Lemma sub_mid p n : (Z.to_nat (o + 6) <= p)%nat -> (p + n <= Z.to_nat (o + a))%nat -> sub l' p n = sub l p n.
Proof. intros Hp Hn. unfold inserted. rewrite (sub_put_before _ (Z.to_nat (o + a + 8))), (sub_put_before _ (Z.to_nat (o + a))), sub_put_after; auto; pos. Qed.
Lemma sub_len : sub l' (Z.to_nat o + 4) 2 = le_encode 2 a.
Proof.
  unfold inserted. rewrite (sub_put_before _ (Z.to_nat (o + a + 8))), (sub_put_before _ (Z.to_nat (o + a))) by pos.
  replace (Z.to_nat o + 4)%nat with (Z.to_nat (o + 4) + 0)%nat by pos. rewrite sub_put_in by pos. now apply sub_whole.
Qed.
Lemma sub_header p n : (p + n <= 8)%nat -> sub l' (Z.to_nat (o + a) + p) n = sub (new_header ino (block_size - (o + a)) nm type) p n.
Proof. intros Hp. unfold inserted. rewrite sub_put_before by pos. apply sub_put_in; pos. Qed.
Lemma sub_name : sub l' (Z.to_nat (o + a) + 8) (length nm) = nm.
Proof. unfold inserted. replace (Z.to_nat (o + a) + 8)%nat with (Z.to_nat (o + a + 8) + 0)%nat by pos. rewrite sub_put_in by pos. now apply sub_whole. Qed.

Lemma inserted_before off : 0 <= off -> fits l off -> off + de_len (entry_at l off) <= o -> entry_at l' off = entry_at l off.
Proof.
  intros Ho Hfo Hlt. destruct (entry_name l off Hl Hfo) as (E1 & _). destruct Hfo as [F1 F2 F3]. unfold entry_at in *. cbn [de_len de_nlen] in *. unfold raw_get in *.
  rewrite !(sub_low (Z.to_nat off)), !(sub_low (Z.to_nat off + 4)), !(sub_low (Z.to_nat off + 6)), sub_low by lia. reflexivity.
Qed.

Lemma inserted_last : a < 2 ^ 16 -> entry_at l' o = shortened (entry_at l o) a.
Proof.
  intros Ha16. pose proof inserted_pos as (P1 & P2 & P3 & P4 & P5). unfold entry_at, shortened in *. cbn [de_off de_ino de_len de_nlen de_name] in *. unfold raw_get in *.
  rewrite !(sub_low (Z.to_nat o)), sub_len, !(sub_mid (Z.to_nat o + 6)), (sub_mid (Z.to_nat o + 8)) by lia. rewrite le_decode_encode, Z.mod_small by lia. reflexivity.
Qed.

Lemma inserted_new : entry_at l' (o + a) = new_entry o a ino nm.
Proof.
  pose proof inserted_pos as (P1 & P2 & P3 & P4 & P5). pose proof bs_range. destruct Hnm as [Hn1 Hn2]. unfold entry_at, new_entry, raw_get.
  pose proof (sub_header 0 4 ltac:(lia)) as E1. rewrite Nat.add_0_r in E1. rewrite E1, (sub_header 4 2), (sub_header 6 1) by lia. unfold new_header.
  rewrite sub_here by reflexivity. rewrite (sub_skip _ _ 4) by reflexivity. rewrite (sub_here (le_encode 2 _)) by reflexivity.
  rewrite (sub_skip (le_encode 4 ino)), (sub_skip (le_encode 2 _)) by (simpl; lia). rewrite (sub_here (le_encode 1 _)) by reflexivity.
  rewrite !le_decode_encode, !Z.mod_small by (unfold word32, is_word in Hino; simpl; lia). rewrite Nat2Z.id, sub_name. reflexivity.
Qed.

(** The entries of the block, before and after. *)
Lemma chain_inserted off es0 : a < 2 ^ 16 -> chain l off (es0 ++ [entry_at l o]) -> chain l' off (es0 ++ [shortened (entry_at l o) a; new_entry o a ino nm]).
Proof.
  intros Ha16. pose proof inserted_pos as (P1 & P2 & P3 & P4 & P5). revert off. induction es0 as [|e0 es0 IH]; intros off Hc; destruct (chain_inv _ _ _ _ Hc) as (Hlt & Hfo & Ee & Hc').
  - assert (o = off) as <- by exact (f_equal de_off Ee). simpl. rewrite <- (inserted_last Ha16), <- inserted_new. constructor; [lia|split; rewrite ?inserted_last by exact Ha16; unfold shortened; cbn [de_len de_nlen]; lia|].
    rewrite inserted_last by exact Ha16. simpl de_len. constructor; [lia|split; rewrite ?inserted_new; unfold new_entry; cbn [de_len de_nlen]; lia|]. rewrite inserted_new. simpl de_len.
    replace (o + a + (block_size - (o + a))) with block_size by lia. constructor.
  - destruct (entry_name l off Hl Hfo) as (E1 & _). assert (off + de_len (entry_at l off) <= o) as Hle.
    { apply (chain_offsets l _ (es0 ++ [entry_at l o]) (entry_at l o) Hl); [exact Hc'|]. apply elem_of_app. right. left. }
    assert (0 <= off) as Hoff by (destruct Hfo; lia). pose proof (inserted_before off Hoff Hfo Hle) as Eb. simpl. rewrite Ee, <- Eb. constructor; [lia| |rewrite Eb; now apply IH].
    destruct Hfo as [F1 F2 F3]. split; rewrite ?Eb; auto.
Qed.
End Block.

(** * The operation *)

Lemma last_loop_ok X c r s b l off es fuel : st X c r s -> word32 b -> 0 < r b -> c b = Some l -> is_block l -> chain l off es -> off < block_size ->
  block_size - off < Z.of_nat fuel ->
  wp (loop fuel (last_step b) off) (λ res s', s' = s /\ exists es0 o, es = es0 ++ [entry_at l o] /\ fits l o /\ o + de_len (entry_at l o) = block_size /\ res = Some o) s.
Proof.
  intros Hst Hb Hr Hl Hblk Hc. pose proof bs_range. revert fuel. induction Hc as [|off es Hlt Hf Hc IH]; intros fuel Hoff Hfuel; [lia|].
  destruct fuel as [|fuel]; [lia|]. rewrite loop_S. apply wp_bind. unfold last_step at 1. rewrite wrap_bs. rewrite (proj2 (Z.ltb_lt off block_size)) by lia. simpl negb. cbv iota.
  destruct (entry_name l off Hblk Hf) as (E1 & _). pose proof Hf as [F1 F2 F3]. unfold de_rec_len. apply wp_bind.
  eapply wp_mono; [apply (wp_de_field X c r s b l off 4 2 Hst Hb Hr Hl Hblk); lia|]. intros rl s1 [Erl ->]. change (rl = de_len (entry_at l off)) in Erl.
  rewrite (wrap_small 32 (off + rl)) by (unfold is_word; lia). rewrite Erl. destruct (Z.eqb_spec (off + de_len (entry_at l off)) block_size) as [E|E].
  - apply wp_ret, wp_ret. split; [easy|]. rewrite E in Hc. inversion Hc; [|lia]. exists [], off. auto.
  - apply wp_ret. eapply wp_mono; [apply IH; lia|]. intros res s2 (-> & es0 & o & -> & Hfo & Eo & ->). split; [easy|]. exists (entry_at l off :: es0), o. auto.
Qed.

Definition last_index (n : inode_t) : Z := isize n / block_size - 1.

(** The last block of a directory has entries. *)
Record last_block (c : Z -> option (list Z)) (n : inode_t) (b : Z) (l : list Z) (es : list dirent) : Prop := {
  lb_file : readable c n;
  lb_whole : 0 <= last_index n /\ isize n / block_size < 2 ^ 32 /\ isize n mod block_size = 0;
  lb_block : bmap c (i_block (data n)) (last_index n) = b /\ b <> 0;
  lb_bytes : c b = Some l /\ is_block l;
  lb_chain : chain l 0 es }.

Lemma find_last_ok c r s p n b l es : st ∅ c r s -> room 3 r -> p <> 0 -> inodes s !! p = Some n -> last_block c n b l es ->
  wp (EXT2FindLastDirEntryLocation p) (λ res s', st ∅ c r s' /\ core s' = core s /\
    exists es0 o, es = es0 ++ [entry_at l o] /\ fits l o /\ o + de_len (entry_at l o) = block_size /\ res = (0, b, o)) s.
Proof.
  intros Hst Hroom Hp0 Hp [Hrd (W1 & W2 & W3) [Eb Hb] [Hl Hblk] Hc]. unfold last_index in *. unfold EXT2FindLastDirEntryLocation. pose proof bs_range. pose proof bs_pos.
  apply wp_bind. eapply wp_ino_at; [exact Hp|]. rewrite wrap_bs, (wrap_small 32 (isize n / block_size)) by (unfold is_word; lia).
  destruct (Z.eqb_spec (isize n / block_size) 0); [lia|]. set (i := isize n / block_size - 1) in *.
  assert (i * block_size < isize n) as Hib by (pose proof (Z_div_mod_eq_full (isize n) block_size); unfold i; nia).
  assert (0 <= i < capacity) as Hcap by (destruct (rd_size _ _ (rd_reach _ _ Hrd)); nia). assert (i < 2 ^ 32) as H32 by (unfold i; lia).
  apply wp_bind. eapply wp_mono; [apply (find_data_block_ok ∅ c r s p n i Hst Hroom Hp0 Hp (rd_file _ _ (rd_reach _ _ Hrd)) Hcap H32 (rd_double _ _ Hrd i W1 Hib))|].
  intros b' s1 (-> & S1 & C1). pose proof (tree_ok_word _ _ _ (bmap_ok c _ i (rd_file _ _ (rd_reach _ _ Hrd)) Hcap)) as Hw. rewrite Eb in *. pose proof (st_nonneg _ _ _ _ Hst b).
  apply wp_bind. eapply wp_mono; [apply (wp_bread_use ∅ c r s1 b l S1 (room_le _ 1 _ Hroom ltac:(lia)) Hw Hl)|]. intros _ s2 [S2 C2].
  apply wp_bind. eapply wp_mono; [eapply (last_loop_ok ∅ c _ s2 b l 0 es block_fuel S2 Hw); auto; [rewrite upd_eq; lia|unfold block_fuel; lia]|].
  intros res s3 (-> & es0 & o & Ees & Hfo & Eo & ->). apply wp_bind. eapply wp_mono; [apply (wp_brelse ∅ c _ s2 b S2 Hw); [rewrite upd_eq; lia|set_solver]|].
  intros _ s4 [S4 C4]. apply wp_ret. split_and!; [eapply st_ext; [exact S4|easy|]; intros x; now rewrite upd_back|congruence|].
  exists es0, o. split_and!; auto. now rewrite (wrap_small 32 b Hw).
Qed.

(** Changing a block in use: store, mark and release. *)
Lemma wp_change {A} c r s b l' (m : M ext2 unit) (K : M ext2 A) Q : nonneg r -> word32 b ->
  wp m (λ _ s2, st {[b]} (upd c b (Some l')) (upd r b (r b + 1)) s2 /\ core s2 = core s) s ->
  (forall s', st ∅ (upd c b (Some l')) r s' -> core s' = core s -> wp K Q s') ->
  wp (m;; bwrite b;; brelse b;; K) Q s.
Proof.
  intros Hnn Hw Hm HK. specialize (Hnn b). apply wp_bind. eapply wp_mono; [exact Hm|]. intros _ s2 [S2 C2].
  apply wp_bind. eapply wp_mono; [apply (wp_bwrite _ _ _ s2 b S2 Hw); rewrite upd_eq; lia|].
  intros _ s3 [S3 C3]. replace ({[b]} ∖ {[b]} : gset Z) with (∅ : gset Z) in S3 by set_solver.
  apply wp_bind. eapply wp_mono; [apply (wp_brelse ∅ _ _ s3 b S3 Hw); [rewrite upd_eq; lia|set_solver]|]. intros _ s4 [S4 C4].
  apply HK; [|congruence]. eapply st_ext; [exact S4|easy|]. intros x. now rewrite upd_back.
Qed.

Lemma upd_upd {A} (f : Z -> A) b v w x : upd (upd f b v) b w x = upd f b w x.
Proof using. unfold upd. now case_decide. Qed.

(** The new entry is stored in two steps: its header and its name. *)
Lemma de_write_ok c r s b l off ino len nm type : st ∅ c r s -> word32 b -> 0 < r b -> c b = Some l -> is_block l ->
  0 <= off -> off + 8 + Z.of_nat (length nm) <= block_size ->
  wp (de_write b off ino len nm type) (λ _ s', st {[b]} (upd c b (Some (put (put l (Z.to_nat off) (new_header ino len nm type)) (Z.to_nat (off + 8)) nm))) r s' /\ core s' = core s) s.
Proof.
  intros Hst Hw Hr Hl [Hlen _] Ho Hfit. unfold de_write. change (le_encode 4 ino ++ _) with (new_header ino len nm type). set (h := new_header ino len nm type).
  assert (length h = 8%nat) as Eh by reflexivity.
  apply wp_bind. eapply wp_mono; [apply (wp_buf_write ∅ c r s b l off h Hst Hw Hr Hl Ho); lia|]. intros _ s1 [S1 C1].
  assert (length (put l (Z.to_nat off) h) = length l) as El by (apply put_length; lia).
  eapply wp_mono; [apply (wp_buf_write _ _ r s1 b _ (off + 8) nm S1 Hw Hr (upd_eq _ _ _)); lia|]. intros _ s2 [S2 C2]. split; [|congruence].
  replace (∅ ∪ {[b]} ∪ {[b]} : gset Z) with ({[b]} : gset Z) in S2 by set_solver. eapply st_ext; [exact S2| |easy]. intros x. now rewrite upd_upd.
Qed.

(** The inode of the directory has a place in the table, outside block [b]. *)
Record in_place (s : ext2) (c : Z -> option (list Z)) (n : inode_t) (blk off : Z) (lt : list Z) : Prop := {
  ip_table : in_table s c (inode_number (data n)) blk off lt;
  ip_group : block_group (data n) = (inode_number (data n) - 1) / inodes_per_group;
  ip_offset : offset_ok n blk off;
  ip_lengths : length (i_block (data n)) = 15%nat /\ length (i_osd2 (data n)) = 12%nat }.

Lemma now_core s s' : core s' = core s -> now s' = now s.
Proof using. intros E. unfold now. do 2 f_equal. exact (f_equal clock E). Qed.
Lemma core_upd_inode s s' p n : core s' = core s -> core (upd_inode p n (tick s')) = core (upd_inode p n (tick s)).
Proof using. intros E. change (upd_inode p n (tick (core s')) = upd_inode p n (tick (core s))). now rewrite E. Qed.

Definition table_block (lt : list Z) (off : Z) (n : inode_t) : list Z := put lt (Z.to_nat off) (PopulateRawInode n).

Lemma put_entry_ok c r s p n d m type b l off blk offi lt : st ∅ c r s -> room 1 r -> p <> 0 -> inodes s !! p = Some n -> inodes s !! inode d = Some m ->
  word32 b -> c b = Some l -> is_block l -> 0 <= off -> off + 8 + Z.of_nat (length (name d)) <= block_size -> in_place s c n blk offi lt -> blk <> b ->
  let n' := located (stamped n (now s)) blk offi in
  let l' := put (put l (Z.to_nat off) (new_header (inode_number (data m)) (block_size - off) (name d) type)) (Z.to_nat (off + 8)) (name d) in
  wp (put_entry p b off d type) (λ a s', a = 0 /\ st ∅ (upd (upd c b (Some l')) blk (Some (table_block lt offi n'))) r s' /\ core s' = core (upd_inode p n' (tick s))) s.
Proof.
  intros Hst Hroom Hp0 Hp Hm Hw Hl Hblk Ho Hfit [(Hpl & Hlt & Htb) Hg Hof [Bl Ol]] Hne n' l'. pose proof (st_nonneg _ _ _ _ Hst) as Hnn.
  unfold put_entry, dentry_ino. apply wp_bind, wp_bind. eapply wp_ino_at; [exact Hm|]. apply wp_ret.
  apply wp_bind. eapply wp_mono; [apply (wp_bread_use ∅ c r s b l Hst Hroom Hw Hl)|]. intros _ s1 [S1 C1]. apply (wp_change c r s1 b l'); auto.
  - apply de_write_ok; auto. rewrite upd_eq. specialize (Hnn b). lia.
  - intros s2 S2 C2. assert (core s2 = core s) as C2' by congruence. apply wp_bind.
    assert (inodes s2 !! p = Some n) as Hp2 by now rewrite (core_inodes _ _ C2').
    eapply wp_mono; [apply (write_inode_ok _ r s2 p n blk offi lt S2 Hroom Hp0 Hp2); auto|].
    + apply (placed_bgdt s); [exact (core_bgdt _ _ C2')|exact Hpl].
    + now rewrite upd_ne.
    + intros _ s3 (_ & S3 & C3). apply wp_ret. rewrite (now_core _ _ C2') in *. split_and!; [easy|exact S3|]. rewrite C3. now apply core_upd_inode.
Qed.

(** * The whole operation, when the last entry has room to spare *)

Definition last_size (e : dirent) : Z := wrap32 (EXT2_DIRENT_ALIGN (8 + de_nlen e)).

(** The directory as [EXT2PopulateDirEntry] leaves it in memory. *)
Definition with_times (n : inode_t) (s : ext2) : inode_t :=
  set_data (set_modified_at (now (tick s)) (set_accessed_at (now s) (data n))) n.
Definition dir_after (n : inode_t) (s : ext2) (blk off : Z) : inode_t := located (stamped (with_times n s) (now (tick (tick s)))) blk off.

Definition slack (e : dirent) (nm : list Z) : Prop := last_size e + 8 + Z.of_nat (length nm) <= de_len e.

Lemma last_block_times c n n' b l es : isize n' = isize n -> i_block (data n') = i_block (data n) -> last_block c n b l es -> last_block c n' b l es.
Proof using.
  intros E1 E2 [[[R1 R2] R3] L2 L3 L4 L5]. unfold last_index in *. split; unfold last_index; rewrite ?E1, ?E2; auto. split; [split|]; rewrite ?E1, ?E2; auto.
Qed.

(** From the shortened last entry on. *)
Lemma populate_tail c r s s4 p n d m type b l a o blk offi lt :
  st ∅ (upd c b (Some (put l (Z.to_nat (o + 4)) (le_encode 2 a)))) r s4 -> core s4 = core (upd_inode p (set_data (set_accessed_at (now s) (data n)) n) (tick s)) ->
  room 1 r -> p <> 0 -> inodes s !! p = Some n -> inodes s !! inode d = Some m -> word32 b -> is_block (put l (Z.to_nat (o + 4)) (le_encode 2 a)) ->
  0 <= o + a -> o + a + 8 + Z.of_nat (length (name d)) <= block_size -> in_place s c n blk offi lt -> blk <> b ->
  let n' := dir_after n s blk offi in
  wp (let* now := unix_time in data_upd p (set_modified_at now);; put_entry p b (o + a) d type) (λ res s', res = 0 /\
    st ∅ (upd (upd c b (Some (inserted l o a (inode_number (data m)) (name d) type))) blk (Some (table_block lt offi n'))) r s' /\
    core s' = core (upd_inode p n' (tick (tick (tick s))))) s4.
Proof.
  set (l1 := put l _ _). set (n1 := set_data (set_accessed_at _ _) n). set (s1 := upd_inode p n1 (tick s)). intros S4 C4 Hroom Hp0 Hp Hm Hw Hb1 Ho Hfit Hip Hne n'.
  assert (inodes s4 !! p = Some n1) as Hp4 by (rewrite (core_inodes _ _ C4); apply lookup_insert_eq).
  unfold unix_time. apply wp_bind. repeat wp_step. eapply wp_data_upd; [exact Hp4|]. fold (now s4) (tick s4). rewrite (now_core _ _ C4).
  change (set_data _ n1) with (with_times n s). set (s5 := upd_inode p (with_times n s) (tick s4)). assert (core s5 = core (upd_inode p (with_times n s) (tick (tick s)))) as C5.
  { etransitivity; [exact (core_upd_inode _ _ p (with_times n s) C4)|]. unfold s1. change (tick (upd_inode p n1 (tick s))) with (upd_inode p n1 (tick (tick s))). now rewrite upd_inode_twice. }
  assert (exists m', inodes s5 !! inode d = Some m' /\ inode_number (data m') = inode_number (data m)) as (m' & Hm' & Em).
  { rewrite (core_inodes _ _ C5). simpl. destruct (decide (inode d = p)) as [E|E]; [exists (with_times n s); rewrite E in *; split; [apply lookup_insert_eq|now replace m with n by congruence]|].
    exists m. now rewrite lookup_insert_ne. }
  destruct Hip as [(Hpl & Hlt & Htb) Hg Hof HL].
  eapply wp_mono; [apply (put_entry_ok (upd c b (Some l1)) r s5 p (with_times n s) d m' type b l1 (o + a) blk offi lt); auto|].
  - now apply (st_core _ _ _ _ _ S4).
  - apply lookup_insert_eq.
  - apply upd_eq.
  - split; auto. split_and!; auto; [apply (placed_bgdt s); [exact (core_bgdt _ _ C5)|exact Hpl]|now rewrite upd_ne].
  - intros res s6 (-> & S6 & C6). rewrite (now_core _ _ C5), Em in *. split_and!; [easy| |].
    + eapply st_ext; [exact S6| |easy]. intros x. unfold upd. repeat case_decide; easy.
    + rewrite C6. rewrite (core_upd_inode _ _ p _ C5). change (tick (upd_inode p ?x ?y)) with (upd_inode p x (tick y)). now rewrite upd_inode_twice.
Qed.

Lemma populate_ok c r s p n d m type b l es0 o blk offi lt : st ∅ c r s -> room 3 r -> p <> 0 -> inodes s !! p = Some n ->
  last_block c n b l (es0 ++ [entry_at l o]) -> slack (entry_at l o) (name d) -> is_name (name d) ->
  inodes s !! inode d = Some m -> in_place s c n blk offi lt -> blk <> b ->
  let a := last_size (entry_at l o) in let n' := dir_after n s blk offi in
  wp (EXT2PopulateDirEntry p d type) (λ res s', res = 0 /\
    st ∅ (upd (upd c b (Some (inserted l o a (inode_number (data m)) (name d) type))) blk (Some (table_block lt offi n'))) r s' /\
    core s' = core (upd_inode p n' (tick (tick (tick s))))) s.
Proof.
  intros Hst Hroom Hp0 Hp Hlb Hsl [Hn1 Hn2] Hm Hip Hne a n'. pose proof bs_range as Hbs. pose proof (st_nonneg _ _ _ _ Hst) as Hnn. pose proof Hlb as [_ _ [_ Hb0] [Hl Hblk] _].
  unfold EXT2PopulateDirEntry. unfold unix_time at 1. apply wp_bind. repeat wp_step. eapply wp_data_upd; [exact Hp|]. fold (now s) (tick s).
  set (n1 := set_data _ n). set (s1 := upd_inode p n1 (tick s)). assert (st ∅ c r s1) as S1 by now apply (st_core _ _ _ _ _ Hst).
  apply wp_bind. eapply wp_mono; [apply (find_last_ok c r s1 p n1 b l (es0 ++ [entry_at l o]) S1 Hroom Hp0); [apply lookup_insert_eq|now apply (last_block_times c n)]|].
  intros res s2 (S2 & C2 & es1 & o' & Ees & Hf & Hend & ->). apply app_inj_tail in Ees as [<- Eo]. assert (o' = o) as -> by (symmetry; exact (f_equal de_off Eo)). clear Eo.
  destruct (entry_name l o Hblk Hf) as (E1 & _). pose proof (dirent_align _ E1) as Ha. cbv zeta in Ha. fold (last_size (entry_at l o)) in Ha. fold a in Ha. unfold slack in Hsl. fold a in Hsl. pose proof Hf as [F1 F2 F3].
  assert (word32 b) as Hw. { destruct Hlb as [R (W1 & W2 & _) [<- _] _ _]. eapply tree_ok_word, bmap_ok; [apply (rd_file _ _ (rd_reach _ _ R))|].
    unfold last_index in *. destruct (rd_size _ _ (rd_reach _ _ R)). split; [lia|]. pose proof (Z_div_mod_eq_full (isize n) block_size). pose proof (Z.mod_pos_bound (isize n) block_size bs_pos).
    assert ((isize n / block_size - 1) * block_size < isize n) by nia. nia. }
  simpl (_ && _). cbv iota. change (0 =? -1) with false. cbv iota.
  apply wp_bind. eapply wp_mono; [apply (wp_bread_use ∅ c r s2 b l S2 (room_le _ 1 _ Hroom ltac:(lia)) Hw Hl)|]. intros _ s3 [S3 C3]. unfold de_name_len, de_rec_len.
  assert (0 < upd r b (r b + 1) b) as Hr by (rewrite upd_eq; specialize (Hnn b); lia).
  apply wp_bind. eapply wp_mono; [apply (wp_de_field ∅ c _ s3 b l o 6 1 S3 Hw Hr Hl Hblk); lia|]. intros nl s4 [Enl ->]. change (nl = de_nlen (entry_at l o)) in Enl. subst nl.
  apply wp_bind. eapply wp_mono; [apply (wp_de_field ∅ c _ s3 b l o 4 2 S3 Hw Hr Hl Hblk); lia|]. intros rl s4 [Erl ->]. change (rl = de_len (entry_at l o)) in Erl. subst rl.
  fold (last_size (entry_at l o)). fold a. rewrite (wrap_small 32 (de_len _ - a)), (wrap_small 32 (8 + _)) by (unfold is_word; lia).
  destruct (Z.ltb_spec (de_len (entry_at l o) - a) (8 + Z.of_nat (length (name d)))); [lia|]. rewrite (wrap_small 32 (o + a)) by (unfold is_word; lia).
  set (l1 := put l (Z.to_nat (o + 4)) (le_encode 2 a)). assert (Z.of_nat (length l) = block_size) as Hlen by apply Hblk.
  assert (is_block l1) as Hb1 by (apply put_block; auto; [apply le_encode_bytes|rewrite le_encode_length; lia]).
  apply wp_bind. unfold put_le. apply (wp_change c r s3 b l1); auto.
  { eapply wp_mono; [apply (wp_buf_write ∅ c _ s3 b l (o + 4) (le_encode 2 a) S3 Hw Hr Hl); rewrite ?le_encode_length; lia|]. intros _ s4 [S4 C4].
    replace (∅ ∪ {[b]} : gset Z) with ({[b]} : gset Z) in S4 by set_solver. auto. }
  intros s4 S4 C4. apply wp_ret. simpl fst. simpl snd. destruct (Z.eqb_spec b 0); [easy|]. assert (core s4 = core s1) as C4' by congruence.
  assert (inodes s4 !! p = Some n1) as Hp4 by (rewrite (core_inodes _ _ C4'); apply lookup_insert_eq).
  apply (populate_tail c r s s4 p n d m type b l a o blk offi lt); auto; try lia. eapply room_le; [exact Hroom|lia].
Qed.

(** * The directory afterwards *)

Lemma dir_entries_app c blocks k1 k2 i : dir_entries c blocks (k1 + k2) i = dir_entries c blocks k1 i ++ dir_entries c blocks k2 (i + Z.of_nat k1).
Proof using.
  revert i. induction k1 as [|k1 IH]; intros i; simpl; [now rewrite Z.add_0_r|]. rewrite IH, app_assoc. do 2 f_equal. lia.
Qed.
Lemma dir_entries_ext c c' blocks k i : (forall j, i <= j < i + Z.of_nat k -> index_entries c' blocks j = index_entries c blocks j) -> dir_entries c' blocks k i = dir_entries c blocks k i.
Proof using. revert i. induction k as [|k IH]; intros i Hj; simpl; [easy|]. rewrite Hj, IH by lia || (intros; apply Hj; lia). reflexivity. Qed.

(** The names in a directory with the inodes they refer to. *)
Definition listing (c : Z -> option (list Z)) (n : inode_t) : list (Z * list Z) :=
  map (λ e, (de_ino e, de_name e)) (dir_entries c (i_block (data n)) (Z.to_nat (isize n / block_size)) 0).

(** A directory that takes an entry for [nm] in its last block [b], whose last entry is [e]. *)
Record insertable (s : ext2) (c : Z -> option (list Z)) (n : inode_t) (b : Z) (e : dirent) (nm : list Z) (blk offi : Z) (lt : list Z) : Prop := {
  in_dir : directory s c n;
  in_sep : separate c (i_block (data n));
  in_last : 0 < isize n /\ bmap c (i_block (data n)) (last_index n) = b /\ b <> 0;
  in_slack : (exists es, entries_of c b = es ++ [e]) /\ slack e nm;
  in_inode : in_place s c n blk offi lt /\ Forall is_byte (i_osd2 (data n));
  in_apart : ~ pointer c (i_block (data n)) blk /\ forall i, 0 <= i < capacity -> bmap c (i_block (data n)) i <> blk }.

Section After.
Context (s : ext2) (c : Z -> option (list Z)) (n : inode_t) (b : Z) (e : dirent) (nm : list Z) (blk offi : Z) (lt : list Z) (ino type : Z).
Context (Hin : insertable s c n b e nm blk offi lt) (Hnm : is_name nm) (Hino : word32 ino).
Abbreviation blocks := (i_block (data n)).

Lemma last_index_range : 0 <= last_index n < capacity /\ last_index n + 1 = isize n / block_size /\ isize n / block_size <= capacity.
Proof using Hin VO.
  destruct Hin as [[R [D1 D2] _ _] _ [L1 _] _ _ _]. destruct (rd_size _ _ (rd_reach _ _ R)) as [Hs _]. unfold last_index. pose proof bs_pos. pose proof (Z_div_mod_eq_full (isize n) block_size) as E. rewrite D1, Z.add_0_r in E.
  assert (isize n / block_size <= capacity) by (apply Z.div_le_upper_bound; lia). assert (0 < isize n / block_size) by nia. lia.
Qed.

Lemma last_cut : exists l es0 o, c b = Some l /\ is_block l /\ chain l 0 (es0 ++ [entry_at l o]) /\ e = entry_at l o /\ fits l o /\ o + de_len (entry_at l o) = block_size /\
  entries_of c b = es0 ++ [entry_at l o].
Proof using Hin VO.
  pose proof last_index_range. destruct Hin as [[R _ D3 _] _ (L1 & L2 & L3) [[es1 Hlast] _] _ _]. specialize (D3 (last_index n) ltac:(lia)). rewrite L2 in D3. destruct (D3 L3) as (l & es & Hl & Hblk & Hes).
  unfold entries_of in Hlast |- *. rewrite Hl, Hes in *. cbn [default from_option id] in *. pose proof (parse_chain _ _ _ _ Hblk (Z.le_refl 0) Hes) as Hc.
  destruct (chain_last _ _ _ Hc bs_pos) as (es0 & o & -> & Hf & Hend). apply app_inj_tail in Hlast as [_ <-]. exists l, es0, o. auto 10.
Qed.

Lemma insertable_last : exists l es0 o, e = entry_at l o /\ last_block c n b l (es0 ++ [entry_at l o]) /\ fits l o /\ o + de_len (entry_at l o) = block_size /\ entries_of c b = es0 ++ [entry_at l o].
Proof using Hin VO.
  pose proof last_index_range. destruct last_cut as (l & es0 & o & Hl & Hblk & Hc & He & Hf & Hend & Ees). exists l, es0, o. destruct Hin as [[R [D1 D2] _ _] _ (L1 & L2 & L3) _ _ _].
  split_and!; auto. split; auto. split_and!; auto; lia.
Qed.

Context (l : list Z) (es0 : list dirent) (o : Z) (tb : list Z).
Context (He : e = entry_at l o) (Hlb : last_block c n b l (es0 ++ [entry_at l o])) (Hf : fits l o) (Hend : o + de_len (entry_at l o) = block_size).
Context (Ees : entries_of c b = es0 ++ [entry_at l o]) (Htb : is_block tb).
Abbreviation a := (last_size (entry_at l o)).
Abbreviation l' := (inserted l o a ino nm type).
Abbreviation c' := (upd (upd c b (Some l')) blk (Some tb)).

Lemma last_size_ok : 8 + de_nlen (entry_at l o) <= a <= 11 + de_nlen (entry_at l o) /\ 0 <= de_nlen (entry_at l o) < 256 /\ a + 8 + Z.of_nat (length nm) <= de_len (entry_at l o).
Proof using Hin He Hf Hlb VO.
  destruct (entry_name l o (proj2 (lb_bytes _ _ _ _ _ Hlb)) Hf) as (E & _). destruct (in_slack _ _ _ _ _ _ _ _ _ Hin) as [_ Hs]. rewrite He in Hs. split; [exact (dirent_align _ E)|auto].
Qed.

Lemma new_block : is_block l' /\ parse block_fuel l' 0 = Some (es0 ++ [shortened (entry_at l o) a; new_entry o a ino nm]).
Proof using Hin He Hf Hlb Hend Hnm Hino VO.
  destruct last_size_ok as (H1 & H2 & H3). destruct (lb_bytes _ _ _ _ _ Hlb) as [_ Hblk]. assert (is_block l') as Hb' by (apply inserted_block; auto; lia).
  split; [exact Hb'|]. apply chain_parse; auto; [|unfold block_fuel; pose proof bs_pos; lia]. apply chain_inserted; auto; try lia. apply (lb_chain _ _ _ _ _ Hlb).
Qed.

Lemma apart : blk <> b /\ ~ pointer c blocks b /\ ~ pointer (upd c b (Some l')) blocks blk.
Proof using Hin VO.
  pose proof last_index_range as (R & _). destruct (in_last _ _ _ _ _ _ _ _ _ Hin) as (_ & L2 & L3). destruct (in_apart _ _ _ _ _ _ _ _ _ Hin) as [A1 A2].
  assert (~ pointer c blocks b) as Hb by (rewrite <- L2 in L3 |- *; now apply (sp_ptr _ _ (in_sep _ _ _ _ _ _ _ _ _ Hin))).
  split_and!; [rewrite <- L2; intros E; now apply (A2 _ R)|exact Hb|]. intros Hp. apply A1. unfold pointer in *. destruct Hp as [Hp|[Hp|Hp]]; apply ptr_block_upd in Hp; tauto.
Qed.

Lemma after_bmap i : 0 <= i < capacity -> bmap c' blocks i = bmap c blocks i.
Proof using Hin VO. intros Hi. destruct apart as (_ & A1 & A2). now rewrite !bmap_upd. Qed.

Lemma after_entries i : 0 <= i < isize n / block_size ->
  index_entries c' blocks i = if decide (i = last_index n) then es0 ++ [shortened (entry_at l o) a; new_entry o a ino nm] else index_entries c blocks i.
Proof using Hin He Hf Hlb Hend Hnm Hino VO.
  intros Hi. pose proof last_index_range as (R1 & R2 & R3). destruct apart as (Hne & _). destruct (in_last _ _ _ _ _ _ _ _ _ Hin) as (_ & L2 & L3). destruct (in_apart _ _ _ _ _ _ _ _ _ Hin) as [_ A2].
  unfold index_entries. rewrite after_bmap by lia. case_decide as Ei.
  - rewrite Ei, L2. rewrite (proj2 (Z.eqb_neq b 0)) by exact L3. unfold entries_of. rewrite upd_ne, upd_eq by auto. now rewrite (proj2 new_block).
  - destruct (Z.eqb_spec (bmap c blocks i) 0) as [|Hi0]; [easy|]. unfold entries_of. rewrite upd_ne by (apply A2; lia). rewrite upd_ne; [easy|].
    intros E. apply Ei. apply (sp_inj _ _ (in_sep _ _ _ _ _ _ _ _ _ Hin)); auto; [lia|]. now rewrite E.
Qed.

Lemma after_listing n' : isize n' = isize n -> i_block (data n') = blocks -> listing c' n' = listing c n ++ [(ino, nm)].
Proof using Hin He Hf Hlb Hend Hnm Hino Ees VO.
  intros E1 E2. unfold listing. rewrite E1, E2. pose proof last_index_range as (R1 & R2 & _). destruct (in_last _ _ _ _ _ _ _ _ _ Hin) as (_ & L2 & L3).
  replace (Z.to_nat (isize n / block_size)) with (Z.to_nat (last_index n) + 1)%nat by lia. rewrite !dir_entries_app. cbn [dir_entries]. replace (0 + Z.of_nat _) with (last_index n) by lia.
  rewrite (dir_entries_ext c c') by (intros j Hj; rewrite after_entries by lia; rewrite decide_False; [easy|lia]).
  rewrite after_entries, decide_True by lia. assert (index_entries c blocks (last_index n) = es0 ++ [entry_at l o]) as ->.
  { unfold index_entries. rewrite L2, (proj2 (Z.eqb_neq b 0)) by exact L3. exact Ees. }
  rewrite !app_nil_r, !map_app. simpl. now rewrite <- !app_assoc.
Qed.

Lemma after_block x lx : c x = Some lx -> is_block lx -> exists ly, c' x = Some ly /\ is_block ly.
Proof using Hin He Hf Hlb Hend Hnm Hino Htb VO.
  intros Hx Hb. unfold upd. repeat case_decide; eauto. exists l'. split; [easy|]. apply new_block.
Qed.

Lemma after_table s' k bk ok lk : bgdt s' = bgdt s -> in_table s c k bk ok lk -> exists lk', in_table s' c' k bk ok lk'.
Proof using Hin He Hf Hlb Hend Hnm Hino Htb VO.
  intros E (Hp & Hl & Hb). destruct (after_block _ _ Hl Hb) as (lk' & Hl' & Hb'). exists lk'. split; [now apply (placed_bgdt s)|auto].
Qed.

Lemma after_readable n' : isize n' = isize n -> i_block (data n') = blocks -> readable c' n'.
Proof using Hin He Hf Hlb Hend Hnm Hino Htb VO.
  intros E1 E2. destruct apart as (_ & A1 & A2). destruct (di_file _ _ _ (in_dir _ _ _ _ _ _ _ _ _ Hin)) as [[R1 R2] R3]. split; [split|]; rewrite ?E1, ?E2; auto.
  apply file_ok_upd; auto. apply file_ok_upd; auto. apply new_block.
Qed.

Lemma after_directory s' n' bk ok lk : bgdt s' = bgdt s -> isize n' = isize n -> i_block (data n') = blocks -> in_table s c ino bk ok lk -> directory s' c' n'.
Proof using Hin He Hf Hlb Hend Hnm Hino Htb Ees VO.
  intros Eb E1 E2 Hnew. pose proof last_index_range as (R1 & R2 & R3). destruct (in_last _ _ _ _ _ _ _ _ _ Hin) as (_ & L2 & L3). destruct (in_dir _ _ _ _ _ _ _ _ _ Hin) as [D1 D2 D3 D4].
  split; rewrite ?E1, ?E2; auto using after_readable.
  - intros i Hi. rewrite after_bmap by lia. intros Hi0. destruct apart as (Hne & _). destruct (in_apart _ _ _ _ _ _ _ _ _ Hin) as [_ A2]. destruct (D3 i Hi Hi0) as (li & ei & Hl & Hb & Hes).
    unfold dir_block. rewrite upd_ne by (apply A2; lia). destruct (decide (bmap c blocks i = b)) as [->|Eib].
    + destruct new_block as [N1 N2]. eexists _, _. rewrite upd_eq. split_and!; [reflexivity|exact N1|exact N2].
    + exists li, ei. now rewrite upd_ne.
  - intros i x Hi. rewrite after_entries by lia. intros Hx Hx0.
    assert ((exists y, y ∈ index_entries c blocks i /\ de_ino y = de_ino x) \/ de_ino x = ino) as [(y & Hy & Ey)|Ex].
    { case_decide as Ei; [|eauto]. assert (index_entries c blocks i = es0 ++ [entry_at l o]) as ->.
      { unfold index_entries. rewrite Ei, L2, (proj2 (Z.eqb_neq b 0)) by exact L3. exact Ees. }
      apply elem_of_app in Hx as [Hx|[->|[->|[]%not_elem_of_nil]%elem_of_cons]%elem_of_cons]; [left; exists x; split; [apply elem_of_app; auto|easy]| |now right].
      left. exists (entry_at l o). split; [apply elem_of_app; right; left|easy]. }
    + rewrite <- Ey in *. destruct (D4 i y Hi Hy Hx0) as (bk' & ok' & lk' & Ht). destruct (after_table s' _ _ _ _ Eb Ht) as (lk2 & Ht2). eauto.
    + rewrite Ex. destruct (after_table s' _ _ _ _ Eb Hnew) as (lk2 & Ht2). eauto.
Qed.
End After.

(** A new entry for the inode [m] is added: the listing grows by it at its end, and the directory stays one. *)
Lemma insert_ok c r s p n d m type b e blk offi lt bk ok lk : st ∅ c r s -> room 3 r -> p <> 0 -> inodes s !! p = Some n ->
  insertable s c n b e (name d) blk offi lt -> is_name (name d) -> inodes s !! inode d = Some m -> in_table s c (inode_number (data m)) bk ok lk ->
  let n' := dir_after n s blk offi in
  wp (EXT2PopulateDirEntry p d type) (λ res s', res = 0 /\ core s' = core (upd_inode p n' (tick (tick (tick s)))) /\
    exists c', st ∅ c' r s' /\ (forall x, x <> b -> x <> blk -> c' x = c x) /\ directory s' c' n' /\ listing c' n' = listing c n ++ [(inode_number (data m), name d)]) s.
Proof.
  intros Hst Hroom Hp0 Hp Hin Hnm Hm Ht n'. destruct (insertable_last s c n b e (name d) blk offi lt Hin) as (l & es0 & o & He & Hlb & Hf & Hend & Ees).
  assert (word32 (inode_number (data m))) as Hino by (destruct Ht as (Hpl & _); destruct (pl_ino _ _ _ _ Hpl); unfold word32, is_word; lia).
  destruct (apart s c n b e (name d) blk offi lt (inode_number (data m)) type Hin l o) as (Hne & _). destruct (in_slack _ _ _ _ _ _ _ _ _ Hin) as [_ Hsl]. rewrite He in Hsl.
  destruct (in_inode _ _ _ _ _ _ _ _ _ Hin) as [Hip Hosd]. assert (is_block (table_block lt offi n')) as Htb.
  { destruct Hip as [(Hpl & _ & Hlt) _ _ [Bl Ol]]. apply put_block; [exact Hlt|now apply raw_bytes|]. rewrite raw_length by assumption.
    pose proof (pl_fits _ _ _ _ Hpl). assert (0 <= offi) by (rewrite (pl_off _ _ _ _ Hpl); apply Z.mod_pos_bound, bs_pos). destruct Hlt. lia. }
  eapply wp_mono; [apply (populate_ok c r s p n d m type b l es0 o blk offi lt); assumption|]. intros res s' (-> & S' & C'). fold n' in S', C'. split_and!; [easy|exact C'|].
  eexists. split; [exact S'|]. split_and!.
  - intros x H1 H2. now rewrite !upd_ne.
  - eapply (after_directory s); eauto. exact (core_bgdt _ _ C').
  - eapply (after_listing s); eauto.
Qed.
End Insert.
