(* ===== verification/Ext2Thms.v ===== *)
(** ext2: the theorems about reading, writing and storing inodes, on the whole
    operations, with a small volume on which they are evaluated. *)

From S2P Require Import Prelude BitMath Bytes Ext2 Ext2Cache Ext2Blocks Ext2Map Ext2Dir Ext2File Ext2Write Ext2Inode Ext2Lookup Ext2Insert.

Section Claims.
Context `{Volume} {VO : VolumeOk} `{KK : Kernel} {KO : KernelOk}.

(** An open file of the volume that may be operated on. *)
Record usable (s : ext2) (f : file_t) (n : inode_t) : Prop := {
  us_mounted : unmounting s = false;
  us_inflight : 0 <= io_inflight s < 2 ^ 64 - 1;
  us_inode : f_inode f <> 0 /\ inodes s !! f_inode f = Some n }.

(** C27. [EXT2Read] at a position within the file returns
    [min(size, file size - position)] and that many bytes of the file, as the
    map of direct, single, double and triple indirect blocks gives them: bytes
    of missing data blocks, and those under missing indirect blocks, are zeros;
    it advances the position by as much and leaves the rest of the buffer, every
    block, every reference count and every other part of the file system's state
    as they were. Not covered: bytes in the double indirect part of a file
    without a double indirect block ([double_there] excludes them), which are
    found through block 0 ([double_hole_reads_block_zero]). The file is within
    the map's reach, memory does not run out, every block can be read, and the
    cache has room for three more blocks. *)
Theorem read_returns_bytes X c r s f n buf size : st X c r s -> room 3 r -> usable s f n -> in_reach c n -> double_there n (position f) (Z.min (position f + size) (isize n)) ->
  0 <= position f <= isize n -> 0 <= size -> position f + size < 2 ^ 64 -> size <= Z.of_nat (length buf) ->
  wp (EXT2Read f buf size) (λ res s', let k := Z.min size (isize n - position f) in
    res = (k, set_position (position f + k) f, put buf 0 (bytes_at c (i_block (data n)) (position f) k)) /\ st X c r s' /\ core s' = core s) s.
Proof. intros Hst Hr [Hu Hi [Hp0 Hp]] Hrd. now apply read_ok. Qed.

(** C28. Writing [size] bytes within a file none of whose blocks serves twice
    and flushing the file returns [size] and 0 and advances the position; then
    the file's bytes at the position are the written ones, except under missing
    data or indirect blocks, where they are dropped; all its other bytes, its
    map, every block of the volume that is not under the written bytes, the
    reference counts and the rest of the state are as before; and the written
    blocks are on the device. Not covered: bytes in the double indirect part of
    a file without a double indirect block ([double_there] excludes them), which
    are stored in a block found through block 0 ([double_hole_reads_block_zero]).
    The file is within the map's reach and has no blocks waiting to be flushed,
    memory does not run out, every block can be read, and the cache has room for
    three more blocks than the write touches. *)
Theorem write_flush_reaches_disk c r s f n p0 buf size : st ∅ c r s -> room (3 + span f size) r -> usable s f n -> private_data f = Some p0 -> cached_blocks p0 = [] ->
  in_reach c n -> double_there n (position f) (position f + size) -> separate c (i_block (data n)) -> 0 <= position f -> 0 <= size -> position f + size <= isize n ->
  size <= Z.of_nat (length buf) -> Forall is_byte buf ->
  wp (let* w := EXT2Write f buf size in let* x := EXT2Flush w.2 in ret (w.1, x)) (λ res s', res = (size, (0, set_position (position f + size) f)) /\
    exists c', written c c' (i_block (data n)) (position f) (take (Z.to_nat size) buf) /\ st ∅ c' r s' /\ core s' = core s /\
      forall i, 0 < size -> position f / block_size <= i -> i * block_size < position f + size ->
        let b := bmap c (i_block (data n)) i in b <> 0 -> disk s' !! b = c' b) s.
Proof.
  intros Hst Hroom [Hu Hi [Hp0 Hp]] Hpr Hca Hrd Hdt Hsep Hpos Hs Hin Hbuf Hbytes. apply wp_bind.
  eapply wp_mono; [apply (write_ok c r s f buf size n); auto; congruence|]. intros [k f'] s1 (C1 & E1 & c' & L & (p1 & Ep & Ef) & [Hw Hcv] & Hwr & S1). simpl in *. subst k f'.
  rewrite Hpr in Ep. injection Ep as <-. rewrite Hca, app_nil_r. unfold EXT2Flush. cbn [private_data cached_blocks]. apply wp_bind, wp_bind.
  eapply wp_mono; [apply (flush_blocks_ok c' r L s1 (st_nonneg _ _ _ _ Hst) Hw S1)|]. intros _ s2 (S2 & C2 & D2). apply wp_ret, wp_ret. split.
  - unfold set_position, set_private. simpl. rewrite Hpr. destruct p0; simpl in *; congruence.
  - exists c'. split; [exact Hwr|]. split; [exact S2|]. split; [congruence|]. intros i Hs0 Hi1 Hi2 Hb. apply D2. left. now apply Hcv.
Qed.

(** C29. An inode written to the inode table and looked up again by its number
    into new memory comes back as the disk records it: type, permissions,
    flags, owner, links, times and all 15 block pointers as they were; of the
    size only the low 32 bits, with the unchanged word [i_dir_acl] above them
    for a file, so that a size of 4 GiB or more is lost unless that word
    already held its high half; for a device file the number in its first block
    pointer. The change time is that of the write and the access time that of
    the reading. No other byte of the block and no other block changes. The
    inode's values fit their fields, it has a place in the table, memory does
    not run out, and the cache has room for one more block. *)
Theorem inode_write_read c r s p n blk off l : st ∅ c r s -> room 1 r -> p <> 0 -> inodes s !! p = Some n ->
  placed s (inode_number (data n)) blk off -> block_group (data n) = (inode_number (data n) - 1) / inodes_per_group -> offset_ok n blk off ->
  c blk = Some l -> is_block l -> storable n ->
  let n' := located (stamped n (now s)) blk off in
  wp (let* _ := EXT2WriteInode p in let* q := EXT2AllocInode in data_upd q (set_inode_number (inode_number (data n)));; let* _ := EXT2ReadInode q in ino_at q)
     (λ m s', m = touched (restored n' (set_dev_id 0 n')) (now (tick s)) /\
       st ∅ (upd c blk (Some (put l (Z.to_nat off) (PopulateRawInode n')))) r s') s.
Proof.
  intros Hst Hroom Hp0 Hp Hpl Hg Ho Hl Hblk Hso n'. assert (storable n') as Hso'.
  { destruct Hso as [S1 S2 S3 S4 S7 S8 S9]. split; auto. simpl. rewrite !list.Forall_cons in S7 |- *. destruct_and!. split_and!; auto. apply (wrap_range 32). lia. }
  pose proof (proj1 (so_block _ Hso)) as Bl. pose proof (proj1 (so_osd2 _ Hso)) as Ol. pose proof (raw_length n' Bl Ol) as Hrl.
  assert (0 <= off) by (rewrite (pl_off _ _ _ _ Hpl); apply Z.mod_pos_bound, bs_pos). pose proof (pl_fits _ _ _ _ Hpl). pose proof (proj1 Hblk).
  apply wp_bind. eapply wp_mono; [apply (write_inode_ok c r s p n blk off l); assumption|]. intros _ s1 (_ & S1 & C1). fold n' in S1, C1.
  set (l' := put l (Z.to_nat off) (PopulateRawInode n')) in *. unfold EXT2AllocInode. apply wp_bind, wp_bind, wp_get.
  destruct (inode_ok (inodes s1)) as [Hq0 Hq]. set (q := new_inode (inodes s1)) in *. destruct (Z.eqb_spec q 0); [easy|].
  repeat wp_step. eapply wp_data_upd; [apply lookup_insert_eq|]. set (m0 := set_data _ zero_inode). set (s2 := upd_inode q m0 _).
  assert (bgdt s2 = bgdt s) as Eb by exact (f_equal bgdt C1). assert (now s2 = now (tick s)) as En by (unfold now; do 2 f_equal; exact (f_equal clock C1)).
  assert (length l' = length l) as El by (apply put_length; lia).
  apply wp_bind. eapply wp_mono; [apply (read_inode_ok (upd c blk (Some l')) r s2 q m0 blk off l'); auto|].
  - now apply (st_core _ _ _ _ _ S1).
  - apply lookup_insert_eq.
  - now apply (placed_bgdt s).
  - apply upd_eq.
  - apply put_block; auto; [apply raw_bytes, Hso|lia].
  - intros _ s3 (_ & S3 & C3). eapply wp_ino_at; [rewrite (core_inodes _ _ C3); apply lookup_insert_eq|]. split; [|exact S3].
    assert (sub l' (Z.to_nat off) 128 = PopulateRawInode n') as -> by (rewrite <- Hrl; apply sub_put; lia).
    rewrite En, decode_encode by exact Hso'. unfold restored, located, set_dev_id. simpl. now rewrite Hg.
Qed.

(** A size below 4 GiB survives, a larger one does not. *)
Lemma stored_size_small n : 0 <= isize n < 2 ^ 32 -> type n <> VFS_TYPE_FILE \/ i_dir_acl (data n) = 0 -> stored_size n = isize n.
Proof. intros Hs Ht. unfold stored_size. rewrite Z.mod_small by lia. destruct (Z.eqb_spec (type n) VFS_TYPE_FILE); [|lia]. destruct Ht as [?| ->]; [easy|lia]. Qed.

Lemma directory_bgdt s s' c n : bgdt s' = bgdt s -> directory s c n -> directory s' c n.
Proof.
  intros E [H1 H2 H3 H4]. split; auto. intros i e Hi He He0. destruct (H4 i e Hi He He0) as (blk & off & lt & Hp & Ht). exists blk, off, lt. split; [|exact Ht].
  now apply (placed_bgdt s).
Qed.

(** What a lookup in a directory leaves: the named inode in new memory, or an error and nothing else. *)
Definition lookup_result (c : Z -> option (list Z)) (r : Z -> Z) (s : ext2) (n : inode_t) (d : dentry_t) (res : Z * dentry_t) (s' : ext2) : Prop :=
  st ∅ c r s' /\
  match find_name (name d) (dir_entries c (i_block (data n)) (Z.to_nat (isize n / block_size)) 0) with
  | None => res = (-ENOENT, d) /\ core s' = core s
  | Some ino => exists blk off lt, in_table s c ino blk off lt /\ res = (0, Dentry (name d) (new_inode (inodes s))) /\
      core s' = core (upd_inode (new_inode (inodes s)) (fetched lt blk off ino (now s)) (tick s))
  end.

(** C30. [EXT2Lookup] in a directory whose blocks are cut into entries finds
    the first entry in use with exactly the name, in the order of the blocks,
    returns 0 and the inode it refers to, decoded from its place in the inode
    table into new memory; when there is no such entry it returns -ENOENT and
    changes nothing. No block and no reference count changes in either case. *)
Theorem lookup_finds_entry c r s p n d : (forall b, after b <> []) -> st ∅ c r s -> room 3 r -> unmounting s = false -> 0 <= io_inflight s < 2 ^ 64 - 1 ->
  p <> 0 -> inodes s !! p = Some n -> directory s c n -> is_name (name d) ->
  wp (EXT2Lookup p d) (lookup_result c r s n d) s.
Proof.
  intros Ha Hst Hroom Hu Hio Hp0 Hp Hdir Hn. unfold EXT2Lookup, dir_op. destruct (Z.eqb_spec p 0); [easy|]. apply wp_fs_op; [exact Hu|exact Hio|].
  set (s0 := set_io_inflight (io_inflight s + 1) s). assert (st ∅ c r s0) as S0 by now apply (st_core _ _ _ _ _ Hst). assert (directory s0 c n) as D0 by now apply (directory_bgdt s).
  eapply wp_mono; [apply (dir_lookup_ok Ha c r s0 p n d S0 Hroom Hp0 Hp D0 Hn)|]. intros res s' (q & -> & S' & Hq).
  assert (forall s1, core s' = core (set_io_inflight (io_inflight s + 1) s1) -> io_inflight s1 = io_inflight s ->
    io_inflight s' = io_inflight s + 1 /\ core (set_io_inflight (io_inflight s) s') = core s1) as Hio'.
  { intros s1 C E. split; [exact (f_equal io_inflight C)|]. transitivity (set_io_inflight (io_inflight s) (core s')); [easy|]. rewrite C, <- E. now destruct s1. }
  unfold lookup_result. destruct (find_name _ _) as [ino|].
  - destruct Hq as (blk & off & lt & (Hpl & Ht) & -> & C). simpl. destruct (Hio' (upd_inode (new_inode (inodes s)) (fetched lt blk off ino (now s)) (tick s))) as [E1 E2]; [exact C|easy|].
    split; [exact E1|]. split; [now apply (st_core _ _ _ _ _ S')|]. exists blk, off, lt. split; [split; [now apply (placed_bgdt s0)|exact Ht]|]. auto.
  - destruct Hq as [-> C]. simpl. destruct (Hio' s) as [E1 E2]; [exact C|easy|]. split; [exact E1|]. split; [now apply (st_core _ _ _ _ _ S')|]. auto.
Qed.

(** C31. [EXT2PopulateDirEntry] for an inode of the volume, in a directory
    whose last entry has room to spare after its own name, returns 0; the
    directory's listing is the old one with the new name and inode number at
    its end, the directory is still cut into entries that refer to inodes of
    the volume, and its inode is stored with the new times. No block but the
    last one of the directory and that of its inode changes, and no reference
    count. *)
Theorem entry_is_added c r s p n d m type b e blk off lt bk ok lk : st ∅ c r s -> room 3 r -> p <> 0 -> inodes s !! p = Some n ->
  insertable s c n b e (name d) blk off lt -> is_name (name d) -> inodes s !! inode d = Some m -> in_table s c (inode_number (data m)) bk ok lk ->
  let n' := dir_after n s blk off in
  wp (EXT2PopulateDirEntry p d type) (λ res s', res = 0 /\ core s' = core (upd_inode p n' (tick (tick (tick s)))) /\
    exists c', st ∅ c' r s' /\ (forall x, x <> b -> x <> blk -> c' x = c x) /\ directory s' c' n' /\ listing c' n' = listing c n ++ [(inode_number (data m), name d)]) s.
Proof. apply insert_ok. Qed.
End Claims.

(** * Files with direct blocks only *)

Section Direct.
Context `{Volume} {VO : VolumeOk} (c : Z -> option (list Z)) (blocks : list Z).
Context (H12 : nth 12 blocks 0 = 0) (H13 : nth 13 blocks 0 = 0) (H14 : nth 14 blocks 0 = 0).

Lemma direct_bmap i : bmap c blocks i = if i <? 12 then nth (Z.to_nat i) blocks 0 else 0.
Proof. unfold bmap. rewrite H12, H13, H14. destruct (i <? 12); [easy|]. now repeat case_match. Qed.

Lemma direct_file_ok : length blocks = 15%nat -> (forall j, (j < 12)%nat -> tree_ok 0 c (nth j blocks 0)) -> file_ok c blocks.
Proof.
  intros Hl Hd. assert (word32 0) by (unfold word32, is_word; lia). split; auto; rewrite ?H12, ?H13, ?H14; (split; [easy|]); easy.
Qed.

Lemma direct_pointer x : ~ pointer c blocks x.
Proof. unfold pointer. rewrite H12, H13, H14. simpl. intros [[]|[[]|[]]]; easy. Qed.

Lemma direct_separate : (forall i j, (i < 12)%nat -> (j < 12)%nat -> nth i blocks 0 <> 0 -> nth i blocks 0 = nth j blocks 0 -> i = j) -> separate c blocks.
Proof.
  intros Hd. split.
  - intros i j Hi Hj. rewrite !direct_bmap. destruct (Z.ltb_spec i 12), (Z.ltb_spec j 12); try easy; intros Hn E; try (now rewrite E in Hn).
    assert (Z.to_nat i = Z.to_nat j) by (apply Hd; auto; lia). lia.
  - intros i Hi _. apply direct_pointer.
Qed.
End Direct.

Lemma st_start s : bufs s = ∅ -> cache_lock s = false -> st ∅ (content s) (rc s) s.
Proof. intros Eb El. split; [split|..]; auto; intros b; rewrite ?Eb, ?lookup_empty; easy || set_solver. Qed.

Lemma room_start k s : bufs s = ∅ -> k <= BUFFER_CACHE_CAP -> room k (rc s).
Proof. intros Eb Hk. exists ∅. split; [intros b; unfold rc; rewrite Eb, lookup_empty; lia|]. now rewrite size_empty. Qed.

(** * A small volume *)
Module Demo.
#[export] Instance vol : Volume := Vol 1024 512 8192 16 128 1 1.
#[export] Instance vol_ok : VolumeOk.
Proof. split; vm_compute; intuition congruence. Qed.

#[export] Instance kern : Kernel :=
  Kern (λ _, true) (λ m, fst <$> head (map_to_list (filter (λ p : Z * buffer, refs p.2 = 0) m))) (λ m, fresh (dom m ∪ {[0]})) (λ _, true) (λ n, 1000 + Z.of_nat n) (λ _, [0]).
#[export] Instance kern_ok : KernelOk.
Proof.
  split; auto.
  - intros m v u Hv Hu. simpl. destruct (map_to_list (filter _ m)) as [|[v' u'] l] eqn:E.
    + assert ((v, u) ∈ map_to_list (filter (λ p : Z * buffer, refs p.2 = 0) m)) as Hin by (apply elem_of_map_to_list, map_lookup_filter_Some; auto).
      rewrite E in Hin. now apply not_elem_of_nil in Hin.
    + assert ((v', u') ∈ map_to_list (filter (λ p : Z * buffer, refs p.2 = 0) m)) as Hin by (rewrite E; left).
      apply elem_of_map_to_list, map_lookup_filter_Some in Hin as [H1 H2]. exists v', u'. auto.
  - intros m. pose proof (is_fresh (dom m ∪ {[0]})) as Hf. simpl. split; [intros E; rewrite E in Hf; set_solver|]. apply not_elem_of_dom. set_solver.
Qed.

(** A file of 1500 bytes in blocks 20 and 21, with a hole after them. *)
Definition n : inode_t := Inode 0 0 0 VFS_TYPE_FILE 1500 420 0 (InoData 12 0 0 1 0 0 0 4 0 0 0 0 0 (replicate 12 0) 0 (20 :: 21 :: replicate 13 0)).
(** A directory of one block, 22, with an entry for itself and one for the file. *)
Definition dir : inode_t := Inode 0 0 0 VFS_TYPE_DIR 1024 493 0 (InoData 2 0 0 2 0 0 0 2 0 0 0 0 0 (replicate 12 0) 0 (22 :: replicate 14 0)).
Definition foo : list Z := [102; 111; 111].
Definition entry (ino len : Z) (nm : list Z) (ft : Z) : list Z := le_encode 4 ino ++ le_encode 2 len ++ [Z.of_nat (length nm); ft] ++ nm.
Definition dir_bytes : list Z := entry 2 12 dot 2 ++ replicate 3 0 ++ entry 12 1012 foo 1 ++ replicate 1001 0.
Definition block_bytes (i : Z) : list Z := if i =? 22 then dir_bytes else replicate 1024 (i mod 256).
Definition disk0 : gmap Z (list Z) := list_to_map ((λ i, (i, block_bytes i)) <$> seqZ 0 30).
Definition s : ext2 := Ext2 disk0 ∅ false 40 5 [Bg 3 4 5 40 5 1] {[100 := n; 101 := dir]} 0 false false 1 0.
Definition f : file_t := File 100 1000 (Some (Priv 0 0 [])).

Lemma content_s b : 0 <= b < 30 -> content s b = Some (block_bytes b).
Proof.
  intros Hb. change (content s b) with (disk0 !! b). unfold disk0. apply elem_of_list_to_map_1.
  - rewrite <- list_fmap_compose. apply NoDup_fmap_2; [|apply NoDup_seqZ]. intros ? ? E. exact E.
  - apply list_elem_of_fmap. exists b. split; [easy|]. apply elem_of_seqZ. lia.
Qed.

Lemma block_bytes_ok b : is_block (block_bytes b).
Proof.
  unfold block_bytes. destruct (b =? 22); (split; [reflexivity|]); [|apply Forall_replicate, Z.mod_pos_bound; lia].
  apply Forall_forall. intros x Hx. assert (forallb (λ x, (0 <=? x) && (x <? 256)) dir_bytes = true) as E by (vm_compute; reflexivity).
  rewrite forallb_forall in E. apply E, andb_true_iff in Hx as [H1%Z.leb_le H2%Z.ltb_lt]. now split.
Qed.

Lemma block_ok b : 0 <= b < 30 -> tree_ok 0 (content s) b.
Proof.
  intros Hb. split; [unfold word32, is_word; lia|]. intros _. split; [|easy]. exists (block_bytes b). split; [now apply content_s|apply block_bytes_ok].
Qed.

Lemma usable_f : usable s f n.
Proof. split; [reflexivity|vm_compute; intuition congruence|]. split; [easy|apply lookup_insert_eq]. Qed.

Lemma reach_n : in_reach (content s) n.
Proof.
  split; [|vm_compute; intuition congruence]. apply direct_file_ok; [reflexivity..|]. intros j Hj. apply block_ok. do 12 (destruct j; [vm_compute; intuition congruence|]). lia.
Qed.
Lemma double_n hi : hi <= 1500 -> double_there n 1000 hi.
Proof. intros Hh i Hi Hlt [Hi' _]. change block_size with 1024 in Hlt. change EXT2_BLOCKS_PER_BLOCK with 256 in Hi'. lia. Qed.

Lemma dir_index i : 0 <= i < 1 -> @bmap vol (content s) (i_block (data dir)) i = 22 /\
  index_entries (content s) (i_block (data dir)) i = [Ent 0 2 12 1 dot; Ent 12 12 1012 3 foo].
Proof. intros Hi. assert (i = 0) as -> by lia. split; [reflexivity|]. vm_compute. reflexivity. Qed.

Lemma inode_placed ino blk off : 0 < ino < 17 -> blk = 5 + (ino - 1) * 128 / 1024 -> off = (ino - 1) * 128 mod 1024 ->
  off + 128 <= 1024 -> 0 < blk < 30 -> exists blk off lt, in_table s (content s) ino blk off lt.
Proof.
  intros Hi Hb Ho Hf Hr. exists blk, off, (block_bytes blk). split; [|split; [now apply content_s; lia|apply block_bytes_ok]].
  split; simpl; rewrite ?(Z.mod_small (ino - 1) 16), ?(Z.div_small (ino - 1) 16) by lia; try lia.
  eexists. split; [reflexivity|exact Hb].
Qed.

Lemma directory_dir : directory s (content s) dir.
Proof.
  split.
  - split; [split|].
    + apply direct_file_ok; [reflexivity..|]. intros j Hj. apply block_ok. do 12 (destruct j; [vm_compute; intuition congruence|]). lia.
    + vm_compute. intuition congruence.
    + intros i Hi Hlt [Hi' _]. change block_size with 1024 in Hlt. change (isize dir) with 1024 in Hlt. change EXT2_BLOCKS_PER_BLOCK with 256 in Hi'. lia.
  - vm_compute. intuition congruence.
  - intros i Hi. rewrite (proj1 (dir_index i Hi)). intros _. exists (block_bytes 22). eexists. split; [now apply content_s|]. split; [apply block_bytes_ok|]. vm_compute. reflexivity.
  - intros i e Hi. rewrite (proj2 (dir_index i Hi)). intros [->|[->|[]%not_elem_of_nil]%elem_of_cons]%elem_of_cons _; [apply (inode_placed 2 5 128)|apply (inode_placed 12 6 384)]; easy.
Qed.

Lemma insertable_dir : insertable s (content s) dir 22 (Ent 12 12 1012 3 foo) [98; 97; 114] 5 128 (block_bytes 5).
Proof.
  split.
  - apply directory_dir.
  - apply direct_separate; [reflexivity..|]. intros i j Hi Hj. do 12 (destruct i; [do 12 (destruct j; [vm_compute; congruence|]); lia|]). lia.
  - split_and!; easy.
  - split; [exists [Ent 0 2 12 1 dot]|]; vm_compute; easy.
  - split; [|apply Forall_replicate; now split]. split; [|reflexivity|now left|easy]. split; [|split; [now apply content_s|apply block_bytes_ok]].
    split; try (vm_compute; intuition congruence). eexists. now split.
  - split; [now apply direct_pointer|]. intros i Hi. rewrite direct_bmap by reflexivity. destruct (Z.ltb_spec i 12); [|easy].
    assert (Z.to_nat i < 12)%nat as Hi' by lia. generalize dependent (Z.to_nat i). intros j Hj. do 12 (destruct j as [|j]; [easy|]). lia.
Qed.

Lemma separate_n : separate (content s) (i_block (data n)).
Proof.
  apply direct_separate; [reflexivity..|]. intros i j Hi Hj. do 12 (destruct i; [do 12 (destruct j; [vm_compute; congruence|]); lia|]). lia.
Qed.
End Demo.

Lemma read_returns_bytes_witness :
  wp (@EXT2Read Demo.vol Demo.kern Demo.f (replicate 600 0) 600)
    (λ res s', res = (500, set_position 1500 Demo.f, put (replicate 600 0) 0 (@bytes_at Demo.vol (content Demo.s) (i_block (data Demo.n)) 1000 500)) /\
      st ∅ (content Demo.s) (rc Demo.s) s' /\ core s' = core Demo.s) Demo.s.
Proof.
  apply (@read_returns_bytes Demo.vol Demo.vol_ok Demo.kern Demo.kern_ok ∅ (content Demo.s) (rc Demo.s) Demo.s Demo.f Demo.n (replicate 600 0) 600);
    [now apply st_start|now apply room_start|apply Demo.usable_f|apply Demo.reach_n|apply Demo.double_n; easy|vm_compute; intuition congruence..].
Defined.

Lemma write_flush_reaches_disk_witness : let buf := replicate 100 7 in
  wp (let* w := @EXT2Write Demo.vol Demo.kern Demo.f buf 100 in let* x := @EXT2Flush w.2 in ret (w.1, x)) (λ res s', res = (100, (0, set_position 1100 Demo.f)) /\
    exists c', @written Demo.vol (content Demo.s) c' (i_block (data Demo.n)) 1000 (take 100 buf) /\ st ∅ c' (rc Demo.s) s' /\ core s' = core Demo.s /\
      forall i, 0 < 100 -> 0 <= i -> i * 1024 < 1100 ->
        let b := @bmap Demo.vol (content Demo.s) (i_block (data Demo.n)) i in b <> 0 -> disk s' !! b = c' b) Demo.s.
Proof.
  apply (@write_flush_reaches_disk Demo.vol Demo.vol_ok Demo.kern Demo.kern_ok (content Demo.s) (rc Demo.s) Demo.s Demo.f Demo.n (Priv 0 0 []) (replicate 100 7) 100);
    [now apply st_start|now apply room_start|apply Demo.usable_f|reflexivity|reflexivity|apply Demo.reach_n|apply Demo.double_n; easy|apply Demo.separate_n|vm_compute; intuition congruence..|].
  apply Forall_replicate. now split.
Defined.

Lemma inode_write_read_witness : let n' := @located Demo.vol (stamped Demo.n 1000) 6 384 in
  wp (let* _ := @EXT2WriteInode Demo.vol Demo.kern 100 in let* q := @EXT2AllocInode Demo.kern in data_upd q (set_inode_number 12);; let* _ := @EXT2ReadInode Demo.vol Demo.kern q in ino_at q)
     (λ m s', m = touched (restored n' (set_dev_id 0 n')) 1001 /\
       st ∅ (upd (content Demo.s) 6 (Some (put (replicate 1024 6) 384 (PopulateRawInode n')))) (rc Demo.s) s') Demo.s.
Proof.
  apply (@inode_write_read Demo.vol Demo.vol_ok Demo.kern Demo.kern_ok (content Demo.s) (rc Demo.s) Demo.s 100 Demo.n 6 384 (replicate 1024 6));
    [now apply st_start|now apply room_start|easy|apply lookup_insert_eq| |reflexivity|now left|reflexivity| |].
  - split; try (vm_compute; intuition congruence). eexists. now split.
  - split; [reflexivity|]. apply Forall_replicate. now split.
  - split; [split; easy|split; easy|split; easy|split_and!; easy|..].
    + repeat (apply Forall_cons_2; [unfold word32, is_word; simpl; lia|]). apply Forall_nil_2.
    + split; [reflexivity|]. repeat (apply Forall_cons_2; [unfold word32, is_word; simpl; lia|]). apply Forall_nil_2.
    + split; [reflexivity|]. apply Forall_replicate. now split.
Defined.

(** A file of 269 blocks that are all missing, on a volume whose block 0 and
    block 23 are full of the numbers 23 and 24: the last byte of the file is
    that of block 24, not zero, and a byte written there changes block 24. *)
Module Sparse.
Definition inode : inode_t := Inode 0 0 0 VFS_TYPE_FILE (269 * 1024) 420 0 (InoData 12 0 0 1 0 0 0 0 0 0 0 0 0 (replicate 12 0) 0 (replicate 15 0)).
Definition full (b : Z) : list Z := concat (replicate 256 (le_encode 4 b)).
Definition state : ext2 := Ext2 (<[0 := full 23]> (<[23 := full 24]> Demo.disk0)) ∅ false 40 5 [Bg 3 4 5 40 5 1] {[100 := inode]} 0 false false 1 0.
Definition file : file_t := File 100 (269 * 1024 - 1) (Some (Priv 0 0 [])).
End Sparse.
Example double_hole_reads_block_zero :
  option_map fst (@EXT2Read Demo.vol Demo.kern Sparse.file [7] 1 Sparse.state) = Some (1, set_position (269 * 1024) Sparse.file, [24]) /\
  option_map (λ r, (r.1, list_find (λ p : Z * Z, p.1 <> p.2) (zip (default [] (content r.2 24)) (Demo.block_bytes 24))))
    ((let* w := @EXT2Write Demo.vol Demo.kern Sparse.file [7] 1 in ret w.1) Sparse.state) = Some (1, Some (1023%nat, (7, 24))).
Proof. split; vm_compute; reflexivity. Qed.

(** A file of 4 GiB and 1500 bytes, stored and read again, has 1500. *)
Example large_size_lost :
  let big := Inode 0 0 0 VFS_TYPE_FILE (2 ^ 32 + 1500) 420 0 (data Demo.n) in
  option_map (λ r, isize r.1) ((let* _ := @EXT2WriteInode Demo.vol Demo.kern 100 in let* q := @EXT2AllocInode Demo.kern in data_upd q (set_inode_number 12);;
    let* _ := @EXT2ReadInode Demo.vol Demo.kern q in ino_at q) (upd_inode 100 big Demo.s)) = Some 1500.
Proof. vm_compute. reflexivity. Qed.

Lemma lookup_finds_entry_witness :
  wp (@EXT2Lookup Demo.vol Demo.kern 101 (Dentry Demo.foo 0)) (@lookup_result Demo.vol Demo.kern (content Demo.s) (rc Demo.s) Demo.s Demo.dir (Dentry Demo.foo 0)) Demo.s.
Proof.
  apply (@lookup_finds_entry Demo.vol Demo.vol_ok Demo.kern Demo.kern_ok (content Demo.s) (rc Demo.s) Demo.s 101 Demo.dir (Dentry Demo.foo 0));
    [easy|now apply st_start|now apply room_start|reflexivity|easy|easy|reflexivity|apply Demo.directory_dir|].
  split; [repeat (apply Forall_cons_2; [easy|]); apply Forall_nil_2|simpl; lia].
Defined.

Lemma entry_is_added_witness : let n' := @dir_after Demo.vol Demo.kern Demo.dir Demo.s 5 128 in
  wp (@EXT2PopulateDirEntry Demo.vol Demo.kern 101 (Dentry [98; 97; 114] 100) VFS_TYPE_FILE) (λ res s', res = 0 /\
    core s' = core (upd_inode 101 n' (tick (tick (tick Demo.s)))) /\
    exists c', st ∅ c' (rc Demo.s) s' /\ (forall x, x <> 22 -> x <> 5 -> c' x = content Demo.s x) /\ @directory Demo.vol s' c' n' /\
      @listing Demo.vol c' n' = @listing Demo.vol (content Demo.s) Demo.dir ++ [(12, [98; 97; 114])]) Demo.s.
Proof.
  apply (@entry_is_added Demo.vol Demo.vol_ok Demo.kern Demo.kern_ok (content Demo.s) (rc Demo.s) Demo.s 101 Demo.dir (Dentry [98; 97; 114] 100) Demo.n VFS_TYPE_FILE 22
    (Ent 12 12 1012 3 Demo.foo) 5 128 (Demo.block_bytes 5) 6 384 (Demo.block_bytes 6));
    [now apply st_start|now apply room_start|easy|reflexivity|apply Demo.insertable_dir|split; [repeat (apply Forall_cons_2; [easy|]); apply Forall_nil_2|simpl; lia]|reflexivity|].
  split; [|split; [now apply Demo.content_s|apply Demo.block_bytes_ok]]. split; try (vm_compute; intuition congruence). eexists. now split.
Defined.
