(* ===== verification/Vt.v ===== *)
(** The kernel's console: the framebuffer console (drivers/fb_console.c,
    fb_pack of drivers/fb.c) and the virtual terminals drawn on it
    (drivers/vt.c).

    The framebuffer is its array of 32-bit pixels, rows of [pitch / 4]; the font
    is the embedded PSF2 file. An access outside either, or outside the cells
    of a terminal, has no result. A terminal is named by its index in [vts];
    [None] is NULL. The geometry of a display fits in 32 bits, so that positions
    in the framebuffer do not wrap. *)

From S2P Require Import Prelude BitMath Bytes.

(** [fb_info] after [fb_map], the font, and whether the buddy allocator has
    memory for the cells of terminal [i]. *)
Class Display := Disp {
  fb_mapped : bool; bpp : Z; pitch : Z; width : Z; height : Z;
  red_size : Z; green_size : Z; blue_size : Z; red_shift : Z; green_shift : Z; blue_shift : Z;
  font : list Z;
  cells_free : Z -> bool }.

Record vt_cell_t := Cell { ch : Z; fg : Z; bg : Z }.
Inductive vt_pstate_t := VT_GROUND | VT_ESC | VT_CSI.
Definition NUM_VTS : Z := 6.
Definition VT_MAX_PARAMS : Z := 8.

Record vt_t := Vt {
  locked : bool; cols : Z; rows : Z; cells : option (list vt_cell_t);
  cur_row : Z; cur_col : Z; cur_fg : Z; cur_bg : Z; cur_bold : bool;
  pstate : vt_pstate_t; params : list Z; n_params : Z; has_param : bool }.

Section Setters.
Context (v : vt_t).
Definition set_locked x : vt_t := Vt x (cols v) (rows v) (cells v) (cur_row v) (cur_col v) (cur_fg v) (cur_bg v) (cur_bold v) (pstate v) (params v) (n_params v) (has_param v).
Definition set_cells x : vt_t := Vt (locked v) (cols v) (rows v) x (cur_row v) (cur_col v) (cur_fg v) (cur_bg v) (cur_bold v) (pstate v) (params v) (n_params v) (has_param v).
Definition set_cursor x y : vt_t := Vt (locked v) (cols v) (rows v) (cells v) x y (cur_fg v) (cur_bg v) (cur_bold v) (pstate v) (params v) (n_params v) (has_param v).
Definition set_sgr x y z : vt_t := Vt (locked v) (cols v) (rows v) (cells v) (cur_row v) (cur_col v) x y z (pstate v) (params v) (n_params v) (has_param v).
Definition set_pstate x : vt_t := Vt (locked v) (cols v) (rows v) (cells v) (cur_row v) (cur_col v) (cur_fg v) (cur_bg v) (cur_bold v) x (params v) (n_params v) (has_param v).
Definition set_params x y z : vt_t := Vt (locked v) (cols v) (rows v) (cells v) (cur_row v) (cur_col v) (cur_fg v) (cur_bg v) (cur_bold v) (pstate v) x y z.
End Setters.

(** The statics of fb_console.c once [g_ready] is set. *)
Record geometry := Geo { g_glyphs : Z; g_bytes_per_glyph : Z; g_glyph_w : Z; g_glyph_h : Z; g_bytes_per_row : Z; g_cols : Z; g_rows : Z }.

Record console := Con {
  pixels : list Z;
  g_ready : option geometry;
  vts : list vt_t;
  active_vt : option Z;
  klog_vt : option Z;
  fb_owner : Z;
  winch : list Z;            (** the tasks that were sent SIGWINCH *)
  intr : bool }.

#[export] Instance console_if : HasIF console :=
  Field intr (λ b s, Con (pixels s) (g_ready s) (vts s) (active_vt s) (klog_vt s) (fb_owner s) (winch s) b).
Definition set_pixels x s : console := Con x (g_ready s) (vts s) (active_vt s) (klog_vt s) (fb_owner s) (winch s) (intr s).
Definition set_ready x s : console := Con (pixels s) x (vts s) (active_vt s) (klog_vt s) (fb_owner s) (winch s) (intr s).
Definition set_vts x s : console := Con (pixels s) (g_ready s) x (active_vt s) (klog_vt s) (fb_owner s) (winch s) (intr s).
Definition set_active x s : console := Con (pixels s) (g_ready s) (vts s) x (klog_vt s) (fb_owner s) (winch s) (intr s).
Definition set_klog x s : console := Con (pixels s) (g_ready s) (vts s) (active_vt s) x (fb_owner s) (winch s) (intr s).
Definition set_owner x s : console := Con (pixels s) (g_ready s) (vts s) (active_vt s) (klog_vt s) x (winch s) (intr s).
Definition signal_winch t s : console := Con (pixels s) (g_ready s) (vts s) (active_vt s) (klog_vt s) (fb_owner s) (winch s ++ [t]) (intr s).

(** [for (i = lo; i < hi; i++) body] *)
Fixpoint count_up {S} (n : nat) (i : Z) (body : Z -> M S unit) : M S unit :=
  match n with O => ret tt | Datatypes.S n => body i;; count_up n (i + 1) body end.
Definition for_range {S} (lo hi : Z) (body : Z -> M S unit) : M S unit := count_up (Z.to_nat (hi - lo)) lo body.

(** * Pixels *)

Section Console.
Context `{Display}.

Definition pitch_px : Z := pitch / 4.
Definition store_pixel (i v : Z) : M console unit :=
  let* s := get in let* p := of_option (arr_set (pixels s) i v) in modify (set_pixels p).
Definition font_byte (i : Z) : M console Z := of_option (arr_get font i).
Definition font32 (off : nat) : Z := le_decode (take 4 (drop off font)).

Definition fb_pack (r g b : Z) : Z :=
  let m size := wrap32 (wrap32 (Z.shiftl 1 size) - 1) in
  Z.lor (Z.lor (wrap32 (Z.shiftl (Z.land r (m red_size)) red_shift)) (wrap32 (Z.shiftl (Z.land g (m green_size)) green_shift)))
        (wrap32 (Z.shiftl (Z.land b (m blue_size)) blue_shift)).

Definition cga_palette_rgb : list Z :=
  [0x000000; 0x0000AA; 0x00AA00; 0x00AAAA; 0xAA0000; 0xAA00AA; 0xAA5500; 0xAAAAAA;
   0x555555; 0x5555FF; 0x55FF55; 0x55FFFF; 0xFF5555; 0xFF55FF; 0xFFFF55; 0xFFFFFF].
Definition pack_palette (idx : Z) : Z :=
  let rgb := nth (Z.to_nat (Z.land idx 0x0F)) cga_palette_rgb 0 in
  fb_pack (Z.land (Z.shiftr rgb 16) 0xFF) (Z.land (Z.shiftr rgb 8) 0xFF) (Z.land rgb 0xFF).

Definition fill_rect (px_x px_y w h pixel : Z) : M console unit :=
  for_range 0 h (λ dy, for_range 0 w (λ dx, store_pixel ((px_y + dy) * pitch_px + px_x + dx) pixel)).

Definition fb_blit_cell (row col : Z) (cell : vt_cell_t) : M console unit :=
  let* g := gets g_ready in
  match g with
  | None => ret tt
  | Some g =>
      if (g_rows g <=? row) || (g_cols g <=? col) then ret tt
      else
        let fgp := pack_palette (fg cell) in
        let bgp := pack_palette (bg cell) in
        let glyph_idx := if (ch cell <? 32) || (126 <? ch cell) then 63 else ch cell in
        let glyph := g_glyphs g + glyph_idx * g_bytes_per_glyph g in
        let row0 := row * g_glyph_h g * pitch_px + col * g_glyph_w g in
        for_range 0 (g_glyph_h g) (λ gy,
          for_range 0 (g_glyph_w g) (λ gx,
            let bit := 7 - Z.land gx 7 in
            let* byte := font_byte (glyph + gy * g_bytes_per_row g + Z.shiftr gx 3) in
            store_pixel (row0 + gy * pitch_px + gx) (if negb (Z.land byte (Z.shiftl 1 bit) =? 0) then fgp else bgp)))
  end.

Definition fb_clear_all (b : Z) : M console unit :=
  let* g := gets g_ready in
  match g with None => ret tt | Some _ => fill_rect 0 0 width height (pack_palette b) end.

Definition blit_from (cs : list vt_cell_t) (cell_cols r c : Z) : M console unit :=
  let* cell := of_option (arr_get cs (r * cell_cols + c)) in fb_blit_cell r c cell.

(** [r + 1 < cell_rows] bounds the rows drawn again. *)
Definition fb_scroll_up (cs : list vt_cell_t) (cell_rows cell_cols b : Z) : M console unit :=
  let* g := gets g_ready in
  match g with
  | None => ret tt
  | Some g =>
      for_range 0 (cell_rows - 1) (λ r, for_range 0 cell_cols (λ c, blit_from cs cell_cols r c));;
      fill_rect 0 ((cell_rows - 1) * g_glyph_h g) (cell_cols * g_glyph_w g) (g_glyph_h g) (pack_palette b)
  end.

Definition fb_redraw_cells (cs : list vt_cell_t) (rows cols : Z) : M console unit :=
  let* g := gets g_ready in
  match g with
  | None => ret tt
  | Some _ => for_range 0 rows (λ r, for_range 0 cols (λ c, blit_from cs cols r c))
  end.

(** The result, [*out_cols] and [*out_rows]. *)
Definition fb_console_init : M console (bool * Z * Z) :=
  if negb fb_mapped || negb (bpp =? 32) then ret (false, 0, 0)
  else if negb (bool_decide (take 4 font = [0x72; 0xB5; 0x4A; 0x86])) then ret (false, 0, 0)
  else
    let header_size := font32 8 in
    let bytes_per_glyph := font32 20 in
    let h := font32 24 in
    let w := font32 28 in
    if (w =? 0) || (h =? 0) || (bytes_per_glyph =? 0) then ret (false, 0, 0)
    else
      let g := Geo header_size bytes_per_glyph w h (wrap32 (w + 7) / 8) (width / w) (height / h) in
      modify (set_ready (Some g));;
      fb_clear_all 0;;
      ret (true, g_cols g, g_rows g).

(** * Virtual terminals *)

Definition DEFAULT_FG : Z := 7.
Definition DEFAULT_BG : Z := 0.
Definition ansi_to_cga : list Z := [0; 4; 2; 6; 1; 5; 3; 7].

Definition vt_at (k : Z) : M console vt_t := let* s := get in of_option (arr_get (vts s) k).
Definition vt_upd (k : Z) (f : vt_t -> vt_t) : M console unit :=
  let* s := get in
  let* v := of_option (arr_get (vts s) k) in
  let* l := of_option (arr_set (vts s) k (f v)) in
  modify (set_vts l).
Definition vt_lock (k : Z) : M console unit :=
  let* v := vt_at k in if locked v then undef else vt_upd k (λ v, set_locked v true).
Definition vt_unlock (k : Z) : M console unit := vt_upd k (λ v, set_locked v false).
Definition is_active (k : Z) : M console bool := let* s := get in ret (bool_decide (active_vt s = Some k)).

(** [{ .ch = c, .fg = vt->cur_fg, .bg = vt->cur_bg }] *)
Definition cell_of (v : vt_t) (c : Z) : vt_cell_t := Cell c (cur_fg v) (cur_bg v).
Definition blank (v : vt_t) : vt_cell_t := cell_of v 32.

(** A store to [vt->cells[i]]. *)
Definition cell_set (k i : Z) (c : vt_cell_t) : M console unit :=
  let* v := vt_at k in
  let* cs := of_option (cells v) in
  let* cs := of_option (arr_set cs i c) in
  vt_upd k (λ v, set_cells v (Some cs)).

Definition clear_cells (k : Z) : M console unit :=
  let* v := vt_at k in for_range 0 (rows v * cols v) (λ i, cell_set k i (blank v)).

(** [memcpy(cells, cells + n, m * sizeof(vt_cell_t))] *)
Definition cells_down (k n m : Z) : M console unit :=
  let* v := vt_at k in
  let* cs := of_option (cells v) in
  if (n <? 0) || (m <? 0) || (Z.of_nat (length cs) <? n + m) then undef
  else vt_upd k (λ v, set_cells v (Some (take (Z.to_nat m) (drop (Z.to_nat n) cs) ++ drop (Z.to_nat m) cs))).

Definition scroll_one (k : Z) : M console unit :=
  let* v := vt_at k in
  let row_cells := cols v in
  cells_down k row_cells ((rows v - 1) * row_cells);;
  for_range 0 (cols v) (λ c, cell_set k ((rows v - 1) * cols v + c) (blank v));;
  let* a := is_active k in
  when a (
    let* v := vt_at k in
    let* cs := of_option (cells v) in
    fb_scroll_up cs (rows v) (cols v) (cur_bg v)).

(** A cell is stored and, on the active terminal, drawn. *)
Definition put_cell (k row col : Z) (cell : vt_cell_t) : M console unit :=
  let* v := vt_at k in
  cell_set k (row * cols v + col) cell;;
  let* a := is_active k in
  when a (fb_blit_cell row col cell).

Definition put_glyph (k c : Z) : M console unit :=
  let* v := vt_at k in put_cell k (cur_row v) (cur_col v) (cell_of v c).

Definition newline_locked (k : Z) : M console unit :=
  vt_upd k (λ v, set_cursor v (cur_row v + 1) 0);;
  let* v := vt_at k in
  when (rows v <=? cur_row v) (
    scroll_one k;;
    vt_upd k (λ v, set_cursor v (rows v - 1) (cur_col v))).

Definition param_or (v : vt_t) (idx def : Z) : M console Z :=
  if n_params v <=? idx then ret def else of_option (arr_get (params v) idx).

(** One parameter of [ESC [ ... m]. *)
Definition sgr (p : Z) (v : vt_t) : vt_t :=
  let colour i := nth (Z.to_nat i) ansi_to_cga 0 in
  if p =? 0 then set_sgr v DEFAULT_FG DEFAULT_BG false
  else if p =? 1 then set_sgr v (cur_fg v) (cur_bg v) true
  else if p =? 22 then set_sgr v (cur_fg v) (cur_bg v) false
  else if p =? 39 then set_sgr v DEFAULT_FG (cur_bg v) (cur_bold v)
  else if p =? 49 then set_sgr v (cur_fg v) DEFAULT_BG (cur_bold v)
  else if (30 <=? p) && (p <=? 37) then set_sgr v (colour (p - 30)) (cur_bg v) (cur_bold v)
  else if (40 <=? p) && (p <=? 47) then set_sgr v (cur_fg v) (colour (p - 40)) (cur_bold v)
  else if (90 <=? p) && (p <=? 97) then set_sgr v (Z.lor (colour (p - 90)) 8) (cur_bg v) (cur_bold v)
  else if (100 <=? p) && (p <=? 107) then set_sgr v (cur_fg v) (Z.lor (colour (p - 100)) 8) (cur_bold v)
  else v.
Definition apply_sgr (k : Z) : M console unit :=
  let* v := vt_at k in
  let count := if n_params v =? 0 then 1 else n_params v in
  for_range 0 count (λ i,
    let* v := vt_at k in
    let* p := if i <? n_params v then of_option (arr_get (params v) i) else ret 0 in
    vt_upd k (sgr p));;
  let* v := vt_at k in
  when (cur_bold v) (vt_upd k (λ v, set_sgr v (Z.lor (cur_fg v) 8) (cur_bg v) (cur_bold v))).

(** [if (row == 0) row = 1; if (row > vt->rows) row = vt->rows; row - 1], in 32 bits. *)
Definition clamp (row limit : Z) : Z :=
  let row := if row =? 0 then 1 else row in
  let row := if limit <? row then wrap32 limit else row in
  wrap32 (row - 1).
Definition erase_line (k : Z) : M console unit :=
  let* v := vt_at k in
  for_range (cur_col v) (cols v) (λ c, put_cell k (cur_row v) c (blank v)).
Definition dispatch_csi (k final : Z) : M console unit :=
  let* v := vt_at k in
  if (final =? 72) || (final =? 102) then                         (* H f *)
    let* row := param_or v 0 1 in
    let* col := param_or v 1 1 in
    vt_upd k (λ v, set_cursor v (clamp row (rows v)) (clamp col (cols v)))
  else if final =? 74 then                                        (* J *)
    let* mode := param_or v 0 0 in
    when (mode =? 2) (
      clear_cells k;;
      vt_upd k (λ v, set_cursor v 0 0);;
      let* a := is_active k in
      when a (fb_clear_all (cur_bg v)))
  else if final =? 75 then                                        (* K *)
    let* mode := param_or v 0 0 in
    when (mode =? 0) (erase_line k)
  else when (final =? 109) (apply_sgr k).                         (* m *)

Definition reset_csi (k : Z) : M console unit :=
  vt_upd k (λ v, set_params v (replicate (Z.to_nat VT_MAX_PARAMS) 0) 0 false).

Definition ground_byte (k c : Z) : M console unit :=
  let* v := vt_at k in
  if c =? 27 then vt_upd k (λ v, set_pstate v VT_ESC)
  else if c =? 10 then newline_locked k
  else if c =? 13 then vt_upd k (λ v, set_cursor v (cur_row v) 0)
  else if c =? 8 then
    when (0 <? cur_col v) (
      vt_upd k (λ v, set_cursor v (cur_row v) (cur_col v - 1));;
      put_cell k (cur_row v) (cur_col v - 1) (blank v))
  else if c =? 9 then
    let next := Z.land (cur_col v + 4) (2 ^ 64 - 4) in
    let next := if cols v <? next then cols v else next in
    for_range (cur_col v) next (λ _, put_glyph k 32;; vt_upd k (λ v, set_cursor v (cur_row v) (cur_col v + 1)))
  else
    put_glyph k c;;
    vt_upd k (λ v, set_cursor v (cur_row v) (cur_col v + 1));;
    let* v := vt_at k in
    when (cols v <=? cur_col v) (newline_locked k).

Definition csi_byte (k c : Z) : M console unit :=
  let* v := vt_at k in
  if (48 <=? c) && (c <=? 57) then
    when (n_params v <? VT_MAX_PARAMS) (
      let* p := of_option (arr_get (params v) (n_params v)) in
      let* ps := of_option (arr_set (params v) (n_params v) (wrap32 (wrap32 (p * 10) + (c - 48)))) in
      vt_upd k (λ v, set_params v ps (n_params v) true))
  else if c =? 59 then
    vt_upd k (λ v, set_params v (params v) (if has_param v || (n_params v <? VT_MAX_PARAMS) then n_params v + 1 else n_params v) false)
  else when ((64 <=? c) && (c <=? 126)) (
    vt_upd k (λ v, set_params v (params v) (if has_param v then n_params v + 1 else n_params v) (has_param v));;
    dispatch_csi k c;;
    vt_upd k (λ v, set_pstate v VT_GROUND)).

(** The byte is 0 to 255. *)
Definition vt_write_byte (vt : option Z) (c : Z) : M console unit :=
  match vt with
  | None => ret tt
  | Some k =>
      let* v := vt_at k in
      match cells v with
      | None => ret tt
      | Some _ =>
          let* ie := check_interrupts in
          CliHelper;;
          vt_lock k;;
          match pstate v with
          | VT_GROUND => ground_byte k c
          | VT_ESC => if c =? 91 then vt_upd k (λ v, set_pstate v VT_CSI);; reset_csi k else vt_upd k (λ v, set_pstate v VT_GROUND)
          | VT_CSI => csi_byte k c
          end;;
          vt_unlock k;;
          when ie StiHelper
      end
  end.

Definition vt_switch_to (idx : Z) : M console unit :=
  if NUM_VTS <=? idx then ret tt
  else
    let* a := is_active idx in
    if a then ret tt
    else
      let* target := vt_at idx in
      match cells target with
      | None => ret tt
      | Some cs =>
          let* ie := check_interrupts in
          CliHelper;;
          vt_lock idx;;
          modify (set_active (Some idx));;
          let* owner := gets fb_owner in
          (if (idx =? 0) && negb (owner =? 0) then
             vt_unlock idx;;
             modify (signal_winch owner)
           else
             fb_clear_all (cur_bg target);;
             fb_redraw_cells cs (rows target) (cols target);;
             vt_unlock idx);;
          when ie StiHelper
      end.

Definition vt_set_fb_owner (t : Z) : M console unit := modify (set_owner t).
Definition vt_klog_redirect (idx : Z) : M console unit :=
  if NUM_VTS <=? idx then ret tt
  else
    let* v := vt_at idx in
    match cells v with None => ret tt | Some _ => modify (set_klog (Some idx)) end.
Definition vt_write_klog_ (c : Z) : M console unit := let* k := gets klog_vt in vt_write_byte k c.

Definition vt_start (i cs rs : Z) : vt_t :=
  Vt false cs rs (if cells_free i then Some (replicate (Z.to_nat (rs * cs)) (Cell 32 DEFAULT_FG DEFAULT_BG)) else None)
    0 0 DEFAULT_FG DEFAULT_BG false VT_GROUND (replicate (Z.to_nat VT_MAX_PARAMS) 0) 0 false.
Definition vt_init_all : M console unit :=
  let* r := fb_console_init in
  let '(ok, cs, rs) := r in
  if negb ok then ret tt
  else
    for_range 0 NUM_VTS (λ i, vt_upd i (λ _, vt_start i cs rs));;
    modify (set_active (Some 0));;
    modify (set_klog (Some 0));;
    let* v := vt_at 0 in
    fb_clear_all (cur_bg v).
End Console.
