(* ===== verification/VtDraw.v ===== *)
(** What the drawing routines of the framebuffer console do to the pixels: each
    paints a rectangle and leaves every other pixel, and the rest of the
    console, as it was. *)

From S2P Require Import Prelude BitMath Bytes Vt.

(** * Loops *)

Lemma wp_for_range {S} (I : Z -> S -> Prop) lo hi (body : Z -> M S unit) (Q : unit -> S -> Prop) s : lo <= hi -> I lo s ->
  (forall j s1, lo <= j < hi -> I j s1 -> wp (body j) (λ _ s2, I (j + 1) s2) s1) -> (forall s1, I hi s1 -> Q tt s1) -> wp (for_range lo hi body) Q s.
Proof.
  intros Hle HI Hstep HQ. unfold for_range. remember (Z.to_nat (hi - lo)) as n eqn:En. revert lo s Hle HI Hstep En.
  induction n as [|n IH]; intros lo s Hle HI Hstep En; simpl.
  - apply wp_ret, HQ. replace hi with lo by lia. exact HI.
  - apply wp_bind. eapply wp_mono; [apply Hstep; [lia|exact HI]|]. intros [] s1 H1. apply IH; auto; [lia|intros j s2 Hj; apply Hstep; lia|lia].
Qed.

Lemma wp_for_none {S} lo hi (body : Z -> M S unit) (Q : unit -> S -> Prop) s : hi <= lo -> Q tt s -> wp (for_range lo hi body) Q s.
Proof. intros Hle HQ. unfold for_range. replace (Z.to_nat (hi - lo)) with O by lia. exact HQ. Qed.

Section Draw.
Context `{Display}.
Abbreviation P := pitch_px.

(** The display is a grid of pixels. *)
Definition px (s : console) (x y : Z) : option Z := arr_get (pixels s) (y * P + x).
Definition rect (x0 y0 w h x y : Z) : bool := (x0 <=? x) && (x <? x0 + w) && (y0 <=? y) && (y <? y0 + h).

(** From [s] to [s1] the pixels [inside] became those of [f]. *)
Record drawn (s s1 : console) (inside : Z -> Z -> bool) (f : Z -> Z -> Z) : Prop := {
  dr_same : s1 = set_pixels (pixels s1) s;
  dr_len : length (pixels s1) = length (pixels s);
  dr_px : forall x y, 0 <= x < P -> 0 <= y -> y * P + x < Z.of_nat (length (pixels s)) -> px s1 x y = if inside x y then Some (f x y) else px s x y }.

Lemma drawn_nothing s f : drawn s s (λ _ _, false) f.
Proof. split; auto. now destruct s. Qed.

Lemma drawn_ext s s1 i i' f f' : drawn s s1 i f -> (forall x y, 0 <= x < P -> 0 <= y -> i' x y = i x y /\ (i x y = true -> f' x y = f x y)) -> drawn s s1 i' f'.
Proof.
  intros [D1 D2 D3] E. split; auto. intros x y Hx Hy Hi. rewrite D3 by auto. destruct (E x y Hx Hy) as [-> Ef]. destruct (i x y); [|easy]. now rewrite Ef.
Qed.

Lemma drawn_then s s1 s2 i1 i2 f1 f2 : drawn s s1 i1 f1 -> drawn s1 s2 i2 f2 -> drawn s s2 (λ x y, i1 x y || i2 x y) (λ x y, if i2 x y then f2 x y else f1 x y).
Proof.
  intros [D1 D2 D3] [E1 E2 E3]. split; [rewrite E1; now rewrite D1|congruence|]. intros x y Hx Hy Hi. rewrite E3 by (auto; rewrite D2; auto). destruct (i2 x y); [now rewrite orb_true_r|].
  rewrite orb_false_r. now apply D3.
Qed.

Lemma grid_inj x y x' y' : 0 <= x < P -> 0 <= x' < P -> y * P + x = y' * P + x' -> x' = x /\ y' = y.
Proof. intros. assert (y' = y) by (destruct (Z.lt_trichotomy y y') as [|[|]]; nia). nia. Qed.

Lemma wp_store_pixel s x y v : 0 <= x < P -> 0 <= y -> y * P + x < Z.of_nat (length (pixels s)) ->
  wp (store_pixel (y * P + x) v) (λ _ s1, drawn s s1 (rect x y 1 1) (λ _ _, v)) s.
Proof.
  intros Hx Hy Hi. unfold store_pixel. apply wp_bind, wp_get, wp_bind. rewrite arr_set_lt by nia. apply wp_modify.
  split; simpl; [easy|apply length_insert|]. intros x' y' Hx' Hy' Hi'. unfold px. simpl. rewrite arr_get_insert by nia. unfold rect.
  case_decide as E.
  - destruct (grid_inj x y x' y' Hx Hx' E) as [-> ->]. rewrite !Z.leb_refl. now rewrite !(proj2 (Z.ltb_lt _ _)) by lia.
  - destruct ((x <=? x') && (x' <? x + 1) && (y <=? y') && (y' <? y + 1)) eqn:Er; [|easy]. exfalso. apply E. assert (x' = x /\ y' = y) as [-> ->] by lia. reflexivity.
Qed.

(** The same console, but for its pixels. *)
Definition same_but_pixels (s s1 : console) : Prop := s1 = set_pixels (pixels s1) s /\ length (pixels s1) = length (pixels s).

Lemma drawn_same s s1 i f : drawn s s1 i f -> same_but_pixels s s1.
Proof. now intros [D1 D2 _]. Qed.

(** Two nested loops that store one pixel each paint a rectangle. *)
Lemma paint_ok s x0 y0 w h (m : Z -> Z -> M console unit) f : 0 <= w -> 0 <= h ->
  (forall s1 dx dy, 0 <= dx < w -> 0 <= dy < h -> same_but_pixels s s1 -> wp (m dy dx) (λ _ s2, drawn s1 s2 (rect (x0 + dx) (y0 + dy) 1 1) (λ _ _, f dx dy)) s1) ->
  wp (for_range 0 h (λ dy, for_range 0 w (m dy))) (λ _ s1, drawn s s1 (rect x0 y0 w h) (λ x y, f (x - x0) (y - y0))) s.
Proof.
  intros Hw Hh Hm. set (F := λ x y, f (x - x0) (y - y0)).
  apply (wp_for_range (λ dy s1, drawn s s1 (rect x0 y0 w dy) F)); [lia| | |auto].
  - eapply drawn_ext; [apply drawn_nothing|]. intros x y Hx Hy. split; [unfold rect; lia|easy].
  - intros dy s1 Hdy D1. apply (wp_for_range (λ dx s2, drawn s s2 (λ x y, rect x0 y0 w dy x y || rect x0 (y0 + dy) dx 1 x y) F)); [lia| | |].
    + eapply drawn_ext; [exact D1|]. intros x y _ _. split; [unfold rect; lia|easy].
    + intros dx s2 Hdx D2. eapply wp_mono; [apply (Hm s2 dx dy Hdx Hdy (drawn_same _ _ _ _ D2))|]. intros [] s3 D3.
      eapply drawn_ext; [exact (drawn_then _ _ _ _ _ _ _ D2 D3)|]. intros x y _ _. split; [unfold rect; lia|]. intros _.
      destruct (rect (x0 + dx) (y0 + dy) 1 1 x y) eqn:E; [|easy]. unfold F. unfold rect in E. f_equal; lia.
    + intros s2 D2. eapply drawn_ext; [exact D2|]. intros x y _ _. split; [unfold rect; lia|easy].
Qed.

(** * Cells *)

(** The geometry suits the display and the font; the glyph of a space is empty. *)
Record suits (g : geometry) : Prop := {
  su_glyph : 0 < g_glyph_w g /\ 0 < g_glyph_h g;
  su_cols : 0 < g_cols g /\ g_cols g * g_glyph_w g <= width;
  su_rows : 0 < g_rows g /\ g_rows g * g_glyph_h g <= height;
  su_small : g_cols g < 2 ^ 32 /\ g_rows g < 2 ^ 32;
  su_pitch : width <= P;
  su_font : forall i gx gy, 32 <= i <= 126 -> 0 <= gx < g_glyph_w g -> 0 <= gy < g_glyph_h g ->
    is_Some (arr_get font (g_glyphs g + i * g_bytes_per_glyph g + gy * g_bytes_per_row g + Z.shiftr gx 3));
  su_space : forall gx gy b, 0 <= gx < g_glyph_w g -> 0 <= gy < g_glyph_h g ->
    arr_get font (g_glyphs g + 32 * g_bytes_per_glyph g + gy * g_bytes_per_row g + Z.shiftr gx 3) = Some b -> Z.land b (Z.shiftl 1 (7 - Z.land gx 7)) = 0 }.

Definition glyph_index (c : Z) : Z := if (c <? 32) || (126 <? c) then 63 else c.
(** Pixel ([gx], [gy]) of a cell. *)
Definition glyph_px (g : geometry) (cell : vt_cell_t) (gx gy : Z) : Z :=
  match arr_get font (g_glyphs g + glyph_index (ch cell) * g_bytes_per_glyph g + gy * g_bytes_per_row g + Z.shiftr gx 3) with
  | Some b => if negb (Z.land b (Z.shiftl 1 (7 - Z.land gx 7)) =? 0) then pack_palette (fg cell) else pack_palette (bg cell)
  | None => 0
  end.

Definition shown (s : console) (g : geometry) (r c : Z) (cell : vt_cell_t) : Prop :=
  forall gx gy, 0 <= gx < g_glyph_w g -> 0 <= gy < g_glyph_h g -> px s (c * g_glyph_w g + gx) (r * g_glyph_h g + gy) = Some (glyph_px g cell gx gy).

(** The framebuffer holds the whole display. *)
Definition framed (s : console) : Prop := height * P <= Z.of_nat (length (pixels s)).

Section Geometry.
Context (g : geometry) (SU : suits g).
Abbreviation W := (g_glyph_w g).
Abbreviation Ht := (g_glyph_h g).

Lemma cell_inside r c gx gy s : framed s -> 0 <= r < g_rows g -> 0 <= c < g_cols g -> 0 <= gx < W -> 0 <= gy < Ht ->
  0 <= c * W + gx < P /\ 0 <= r * Ht + gy /\ (r * Ht + gy) * P + (c * W + gx) < Z.of_nat (length (pixels s)).
Proof.
  intros Hf Hr Hc Hx Hy. destruct SU as [[G1 G2] [C1 C2] [R1 R2] _ P1 _ _]. unfold framed in Hf.
  assert (0 <= c * W + gx < width) by nia. assert (0 <= r * Ht + gy < height) by nia. split; [lia|]. split; [lia|]. nia.
Qed.

Lemma glyph_index_range c : 32 <= glyph_index c <= 126.
Proof. unfold glyph_index. destruct (Z.ltb_spec c 32), (Z.ltb_spec 126 c); simpl; lia. Qed.

Lemma blit_ok s r c cell : g_ready s = Some g -> framed s -> 0 <= r < g_rows g -> 0 <= c < g_cols g ->
  wp (fb_blit_cell r c cell) (λ _ s1, drawn s s1 (rect (c * W) (r * Ht) W Ht) (λ x y, glyph_px g cell (x - c * W) (y - r * Ht))) s.
Proof.
  intros Hg Hf Hr Hc. unfold fb_blit_cell. apply wp_bind, wp_gets. rewrite Hg. destruct (Z.leb_spec (g_rows g) r), (Z.leb_spec (g_cols g) c); try lia. simpl orb. cbv iota.
  destruct (su_glyph g SU). apply (paint_ok s (c * W) (r * Ht) W Ht _ (glyph_px g cell)); [lia..|]. intros s1 dx dy Hdx Hdy [E1 E2].
  fold (glyph_index (ch cell)). unfold glyph_px. destruct (su_font g SU (glyph_index (ch cell)) dx dy (glyph_index_range _) Hdx Hdy) as [b Eb]. rewrite Eb.
  apply wp_bind. unfold font_byte. eapply wp_of_option; [exact Eb|].
  replace (r * Ht * P + c * W + dy * P + dx) with ((r * Ht + dy) * P + (c * W + dx)) by lia.
  destruct (cell_inside r c dx dy s Hf Hr Hc Hdx Hdy) as (I1 & I2 & I3). apply wp_store_pixel; auto. now rewrite E2.
Qed.

Lemma drawn_shown s s1 r c cell : framed s -> 0 <= r < g_rows g -> 0 <= c < g_cols g ->
  drawn s s1 (rect (c * W) (r * Ht) W Ht) (λ x y, glyph_px g cell (x - c * W) (y - r * Ht)) -> shown s1 g r c cell.
Proof.
  intros Hf Hr Hc [_ _ D] gx gy Hx Hy. destruct (cell_inside r c gx gy s Hf Hr Hc Hx Hy) as (I1 & I2 & I3). rewrite D by auto.
  replace (rect _ _ _ _ _ _) with true by (unfold rect; lia). do 2 f_equal; lia.
Qed.

(** The other cells keep their pixels. *)
Lemma drawn_other s s1 r c r' c' cell f : framed s -> 0 <= r' < g_rows g -> 0 <= c' < g_cols g -> (r' <> r \/ c' <> c) ->
  drawn s s1 (rect (c * W) (r * Ht) W Ht) f -> shown s g r' c' cell -> shown s1 g r' c' cell.
Proof.
  intros Hf Hr Hc Hne [_ _ D] Hs gx gy Hx Hy. destruct (cell_inside r' c' gx gy s Hf Hr Hc Hx Hy) as (I1 & I2 & I3). rewrite D by auto.
  assert (rect (c * W) (r * Ht) W Ht (c' * W + gx) (r' * Ht + gy) = false) as ->; [|auto]. unfold rect.
  destruct Hne as [Hne|Hne]; [assert (r' * Ht + gy < r * Ht \/ r * Ht + Ht <= r' * Ht + gy) by nia|assert (c' * W + gx < c * W \/ c * W + W <= c' * W + gx) by nia]; lia.
Qed.

Lemma drawn_below s s1 x0 y0 w h f r c cell : framed s -> 0 <= r < g_rows g -> 0 <= c < g_cols g -> r * Ht + Ht <= y0 ->
  drawn s s1 (rect x0 y0 w h) f -> shown s g r c cell -> shown s1 g r c cell.
Proof.
  intros Hf Hr Hc Hy0 [_ _ D] Hs gx gy Hx Hy. destruct (cell_inside r c gx gy s Hf Hr Hc Hx Hy) as (I1 & I2 & I3). rewrite D by auto.
  assert (rect x0 y0 w h (c * W + gx) (r * Ht + gy) = false) as -> by (unfold rect; lia). auto.
Qed.

Lemma same_framed s s1 : same_but_pixels s s1 -> framed s -> framed s1.
Proof. intros [_ E] Hf. unfold framed. now rewrite E. Qed.
Lemma same_trans s s1 s2 : same_but_pixels s s1 -> same_but_pixels s1 s2 -> same_but_pixels s s2.
Proof. intros [E1 L1] [E2 L2]. split; [|congruence]. rewrite E2. now rewrite E1. Qed.
Lemma same_refl s : same_but_pixels s s.
Proof. split; [now destruct s|easy]. Qed.
Lemma same_ready s s1 : same_but_pixels s s1 -> g_ready s1 = g_ready s.
Proof. intros [E _]. now rewrite E. Qed.

(** The cells of an array, row by row. *)
Definition cell_ref (cs : list vt_cell_t) (r c : Z) : vt_cell_t := nth (Z.to_nat (r * g_cols g + c)) cs (Cell 0 0 0).
Definition rows_shown (s : console) (cs : list vt_cell_t) (n : Z) : Prop := forall r c, 0 <= r < n -> 0 <= c < g_cols g -> shown s g r c (cell_ref cs r c).

Lemma cell_ref_get (cs : list vt_cell_t) r c : Z.of_nat (length cs) = g_rows g * g_cols g -> 0 <= r < g_rows g -> 0 <= c < g_cols g ->
  arr_get cs (r * g_cols g + c) = Some (cell_ref cs r c).
Proof.
  intros Hl Hr Hc. unfold arr_get, cell_ref. assert (0 <= r * g_cols g + c < Z.of_nat (length cs)) by nia. destruct (Z.ltb_spec (r * g_cols g + c) 0); [lia|].
  rewrite nth_lookup. destruct (lookup_lt_is_Some_2 cs (Z.to_nat (r * g_cols g + c)) ltac:(lia)) as [x ->]. reflexivity.
Qed.

Lemma blit_rows_ok s cs n : g_ready s = Some g -> framed s -> Z.of_nat (length cs) = g_rows g * g_cols g -> 0 <= n <= g_rows g ->
  wp (for_range 0 n (λ r, for_range 0 (g_cols g) (λ c, blit_from cs (g_cols g) r c))) (λ _ s1, same_but_pixels s s1 /\ rows_shown s1 cs n) s.
Proof.
  intros Hg Hf Hl Hn. destruct (su_cols g SU). apply (wp_for_range (λ r s1, same_but_pixels s s1 /\ rows_shown s1 cs r)); [lia| | |auto].
  { split; [apply same_refl|]. intros r c Hr. lia. }
  intros r s1 Hr [E1 R1]. apply (wp_for_range (λ c s2, same_but_pixels s s2 /\ rows_shown s2 cs r /\ forall c', 0 <= c' < c -> shown s2 g r c' (cell_ref cs r c'))); [lia| | |].
  { split_and!; auto. lia. }
  - intros c s2 Hc (E2 & R2 & C2). unfold blit_from. apply wp_bind. eapply wp_of_option; [apply cell_ref_get; auto; lia|].
    pose proof (same_framed _ _ E2 Hf) as F2. eapply wp_mono; [apply blit_ok; auto; [now rewrite (same_ready _ _ E2)|lia]|]. intros [] s3 D.
    split_and!; [eapply same_trans; [exact E2|exact (drawn_same _ _ _ _ D)]| |].
    + intros r' c' Hr' Hc'. eapply drawn_other; [exact F2|lia|lia|left|exact D|]; [lia|]. now apply R2.
    + intros c' Hc'. destruct (decide (c' = c)) as [->|Hne]; [eapply drawn_shown; [exact F2|lia|lia|exact D]|].
      eapply drawn_other; [exact F2|lia|lia|right; exact Hne|exact D|]. apply C2. lia.
  - intros s2 (E2 & R2 & C2). split; [exact E2|]. intros r' c' Hr' Hc'. destruct (decide (r' = r)) as [->|]; [auto|]. apply R2; lia.
Qed.

(** A rectangle of one colour shows spaces on that background. *)
Lemma space_px f b gx gy : 0 <= gx < W -> 0 <= gy < Ht -> glyph_px g (Cell 32 f b) gx gy = pack_palette b.
Proof.
  intros Hx Hy. unfold glyph_px. cbn [ch fg bg]. change (glyph_index 32) with 32. destruct (su_font g SU 32 gx gy ltac:(lia) Hx Hy) as [x Ex]. rewrite Ex.
  now rewrite (su_space g SU gx gy x Hx Hy Ex).
Qed.

Lemma fill_rect_ok s x0 y0 w h v : framed s -> 0 <= x0 -> 0 <= y0 -> 0 <= w -> 0 <= h -> x0 + w <= width -> y0 + h <= height ->
  wp (fill_rect x0 y0 w h v) (λ _ s1, drawn s s1 (rect x0 y0 w h) (λ _ _, v)) s.
Proof.
  intros Hf X Y Hw Hh HX HY. unfold fill_rect. pose proof (su_pitch g SU). apply (paint_ok s x0 y0 w h _ (λ _ _, v)); auto. intros s1 dx dy Hdx Hdy [E1 E2].
  replace ((y0 + dy) * P + x0 + dx) with ((y0 + dy) * P + (x0 + dx)) by lia. unfold framed in Hf. apply wp_store_pixel; [lia|lia|]. rewrite E2. nia.
Qed.

Lemma fill_shows s s1 x0 y0 w h v r c f b : framed s -> 0 <= r < g_rows g -> 0 <= c < g_cols g -> v = pack_palette b ->
  x0 <= c * W -> c * W + W <= x0 + w -> y0 <= r * Ht -> r * Ht + Ht <= y0 + h -> drawn s s1 (rect x0 y0 w h) (λ _ _, v) -> shown s1 g r c (Cell 32 f b).
Proof.
  intros Hf Hr Hc -> X1 X2 Y1 Y2 [_ _ D] gx gy Hx Hy. destruct (cell_inside r c gx gy s Hf Hr Hc Hx Hy) as (I1 & I2 & I3). rewrite D by auto.
  replace (rect _ _ _ _ _ _) with true by (unfold rect; lia). now rewrite space_px.
Qed.
(** Every cell is a space on one background. *)
Lemma shown_spaces s s1 f b n x0 y0 w h : framed s -> (forall r c, 0 <= r < g_rows g -> 0 <= c < g_cols g -> x0 <= c * g_glyph_w g /\ c * g_glyph_w g + g_glyph_w g <= x0 + w /\
    y0 <= r * g_glyph_h g /\ r * g_glyph_h g + g_glyph_h g <= y0 + h) -> Z.of_nat n = g_rows g * g_cols g ->
  drawn s s1 (rect x0 y0 w h) (λ _ _, pack_palette b) -> rows_shown s1 (replicate n (Cell 32 f b)) (g_rows g).
Proof.
  intros F Hin Hn D r c Hr Hc. destruct (Hin r c Hr Hc) as (X1 & X2 & Y1 & Y2). unfold cell_ref. rewrite nth_lookup, lookup_replicate_2 by nia. cbn [default from_option id].
  exact (fill_shows s s1 x0 y0 w h _ r c f b F Hr Hc eq_refl X1 X2 Y1 Y2 D).
Qed.
End Geometry.
End Draw.
