(* ===== verification/VtRef.v ===== *)
(** The virtual terminals against a reference: a terminal is a grid of cells
    with a cursor, each byte is a function on it, and the framebuffer shows the
    grid of the active terminal at every moment. *)

From S2P Require Import Prelude BitMath Bytes Vt VtDraw.

(** * The reference *)

Definition grid (v : vt_t) : list vt_cell_t := default [] (cells v).
Definition with_grid (v : vt_t) (cs : list vt_cell_t) : vt_t := set_cells v (Some cs).

Definition put_at (v : vt_t) (r c : Z) (cell : vt_cell_t) : vt_t := with_grid v (<[Z.to_nat (r * cols v + c) := cell]> (grid v)).
(** The first row leaves, an empty one comes. *)
Definition scrolled (v : vt_t) : vt_t := with_grid v (drop (Z.to_nat (cols v)) (grid v) ++ replicate (Z.to_nat (cols v)) (blank v)).
Definition next_line (v : vt_t) : vt_t :=
  if cur_row v + 1 <? rows v then set_cursor v (cur_row v + 1) 0 else set_cursor (scrolled v) (rows v - 1) 0.
Definition typed (v : vt_t) (c : Z) : vt_t :=
  let v := put_at v (cur_row v) (cur_col v) (cell_of v c) in
  if cur_col v + 1 <? cols v then set_cursor v (cur_row v) (cur_col v + 1) else next_line v.
(** Columns [c] to the end of the row are blanked. *)
Fixpoint blank_from (n : nat) (c : Z) (v : vt_t) : vt_t :=
  match n with O => v | S n => put_at (blank_from n c v) (cur_row v) (c + Z.of_nat n) (blank v) end.
Definition wiped (v : vt_t) : vt_t := set_cursor (with_grid v (replicate (length (grid v)) (blank v))) 0 0.

Definition param (v : vt_t) (i def : Z) : Z := if n_params v <=? i then def else nth (Z.to_nat i) (params v) 0.
Definition coloured (v : vt_t) : vt_t :=
  let v' := foldl (λ v p, sgr p v) v (if n_params v =? 0 then [0] else take (Z.to_nat (n_params v)) (params v)) in
  if cur_bold v' then set_sgr v' (Z.lor (cur_fg v') 8) (cur_bg v') true else v'.
Definition command (v : vt_t) (final : Z) : vt_t :=
  if (final =? 72) || (final =? 102) then set_cursor v (clamp (param v 0 1) (rows v)) (clamp (param v 1 1) (cols v))
  else if final =? 74 then (if param v 0 0 =? 2 then wiped v else v)
  else if final =? 75 then (if param v 0 0 =? 0 then blank_from (Z.to_nat (cols v - cur_col v)) (cur_col v) v else v)
  else if final =? 109 then coloured v
  else v.

(** The column a tab goes to. *)
Definition tab_stop (v : vt_t) : Z := Z.land (cur_col v + 4) (2 ^ 64 - 4).
(** [n] spaces typed without leaving the row. *)
Fixpoint spaces (n : nat) (v : vt_t) : vt_t :=
  match n with
  | O => v
  | S n => let v := spaces n v in set_cursor (put_at v (cur_row v) (cur_col v) (cell_of v 32)) (cur_row v) (cur_col v + 1)
  end.

(** The effect of one byte, given that of the commands; a tab must stop within
    the row. *)
Definition feed_with (command : vt_t -> Z -> vt_t) (v : vt_t) (c : Z) : vt_t :=
  match pstate v with
  | VT_GROUND =>
      if c =? 27 then set_pstate v VT_ESC
      else if c =? 10 then next_line v
      else if c =? 13 then set_cursor v (cur_row v) 0
      else if c =? 8 then
        (if 0 <? cur_col v then put_at (set_cursor v (cur_row v) (cur_col v - 1)) (cur_row v) (cur_col v - 1) (blank v) else v)
      else if c =? 9 then spaces (Z.to_nat (tab_stop v - cur_col v)) v
      else typed v c
  | VT_ESC => if c =? 91 then set_params (set_pstate v VT_CSI) (replicate 8 0) 0 false else set_pstate v VT_GROUND
  | VT_CSI =>
      if (48 <=? c) && (c <=? 57) then
        (if n_params v <? 8 then set_params v (<[Z.to_nat (n_params v) := wrap32 (wrap32 (nth (Z.to_nat (n_params v)) (params v) 0 * 10) + (c - 48))]> (params v)) (n_params v) true else v)
      else if c =? 59 then set_params v (params v) (if has_param v || (n_params v <? 8) then n_params v + 1 else n_params v) false
      else if (64 <=? c) && (c <=? 126) then
        set_pstate (command (set_params v (params v) (if has_param v then n_params v + 1 else n_params v) (has_param v)) c) VT_GROUND
      else v
  end.
Definition feed : vt_t -> Z -> vt_t := feed_with command.

(** * The console implements it *)

Section Terminal.
Context `{Display} (g : geometry) (SU : suits g) (s0 : console) (k : Z).
Context (Hg : g_ready s0 = Some g) (Hf : framed s0) (Hk : 0 <= k < Z.of_nat (length (vts s0))).
Implicit Types (v : vt_t).

(** Terminal [k] is [v], all others and the rest of the console are as in [s0]. *)
Record loose (v : vt_t) (s : console) : Prop := {
  lo_state : s = set_pixels (pixels s) (set_vts (<[Z.to_nat k := v]> (vts s0)) s0);
  lo_len : length (pixels s) = length (pixels s0);
  lo_idle : active_vt s0 <> Some k -> pixels s = pixels s0;
  lo_cells : cells v = Some (grid v) /\ Z.of_nat (length (grid v)) = g_rows g * g_cols g;
  lo_size : cols v = g_cols g /\ rows v = g_rows g }.
(** Moreover the framebuffer shows it when it is active. *)
Definition holds (v : vt_t) (s : console) : Prop := loose v s /\ (active_vt s0 = Some k -> rows_shown g s (grid v) (g_rows g)).

Lemma loose_at v s : loose v s -> arr_get (vts s) k = Some v.
Proof. intros [E _ _ _ _]. rewrite E. simpl. rewrite arr_get_insert by exact Hk. now rewrite decide_True. Qed.
Lemma loose_len v s : loose v s -> length (vts s) = length (vts s0).
Proof. intros [E _ _ _ _]. rewrite E. apply length_insert. Qed.
Lemma loose_ready v s : loose v s -> g_ready s = Some g /\ framed s /\ active_vt s = active_vt s0.
Proof. intros [E L _ _ _]. split; [now rewrite E|]. split; [unfold framed in *; now rewrite L|now rewrite E]. Qed.

Lemma wp_vt_at v s (Q : vt_t -> console -> Prop) : loose v s -> Q v s -> wp (vt_at k) Q s.
Proof. intros Hl HQ. unfold vt_at. apply wp_bind, wp_get. eapply wp_of_option; [exact (loose_at v s Hl)|exact HQ]. Qed.

Lemma loose_upd v v' s : loose v s -> cells v' = Some (grid v') -> Z.of_nat (length (grid v')) = g_rows g * g_cols g -> cols v' = g_cols g /\ rows v' = g_rows g ->
  loose v' (set_vts (<[Z.to_nat k := v']> (vts s)) s).
Proof. intros [E L I C S] Hc Hl Hs. split; simpl; auto. rewrite E. simpl. now rewrite list_insert_insert_eq. Qed.

Lemma wp_upd_loose v f s (Q : unit -> console -> Prop) : loose v s -> cells (f v) = Some (grid (f v)) -> Z.of_nat (length (grid (f v))) = g_rows g * g_cols g ->
  cols (f v) = g_cols g /\ rows (f v) = g_rows g -> (forall s1, loose (f v) s1 -> pixels s1 = pixels s -> Q tt s1) -> wp (vt_upd k f) Q s.
Proof.
  intros Hl H1 H2 H3 HQ. unfold vt_upd. apply wp_bind, wp_get, wp_bind. eapply wp_of_option; [exact (loose_at v s Hl)|]. apply wp_bind.
  rewrite arr_set_lt by (rewrite (loose_len v s Hl); exact Hk). apply wp_modify. apply HQ; [|easy]. now apply (loose_upd v).
Qed.

(** Updates that leave the cells alone. *)
Lemma wp_upd v f s (Q : unit -> console -> Prop) : holds v s -> cells (f v) = cells v /\ cols (f v) = cols v /\ rows (f v) = rows v ->
  (forall s1, holds (f v) s1 -> Q tt s1) -> wp (vt_upd k f) Q s.
Proof.
  intros [Hl Hs] (E1 & E2 & E3) HQ. assert (grid (f v) = grid v) as Eg by (unfold grid; now rewrite E1). destruct (lo_cells _ _ Hl) as [C1 C2]. destruct (lo_size _ _ Hl) as [S1 S2].
  eapply wp_upd_loose; [exact Hl|congruence|congruence|split; congruence|]. intros s1 L1 Ep. apply HQ. split; [exact L1|]. intros Ha. rewrite Eg. specialize (Hs Ha).
  intros r c Hr Hc gx gy Hx Hy. specialize (Hs r c Hr Hc gx gy Hx Hy). unfold px in *. now rewrite Ep.
Qed.

Lemma is_active_ok v s (Q : bool -> console -> Prop) : loose v s -> Q (bool_decide (active_vt s0 = Some k)) s -> wp (is_active k) Q s.
Proof. intros Hl HQ. unfold is_active. apply wp_bind, wp_get, wp_ret. destruct (loose_ready _ _ Hl) as (_ & _ & ->). exact HQ. Qed.

Lemma wp_cell_set v i c s (Q : unit -> console -> Prop) : loose v s -> 0 <= i < g_rows g * g_cols g ->
  (forall s1, loose (with_grid v (<[Z.to_nat i := c]> (grid v))) s1 -> pixels s1 = pixels s -> Q tt s1) -> wp (cell_set k i c) Q s.
Proof.
  intros Hl Hi HQ. destruct (lo_cells _ _ Hl) as [C1 C2]. unfold cell_set. apply wp_bind. eapply wp_vt_at; [exact Hl|]. apply wp_bind. eapply wp_of_option; [exact C1|].
  apply wp_bind. rewrite arr_set_lt by lia. apply (wp_upd_loose v); auto; [|exact (lo_size _ _ Hl)]. unfold grid at 1. simpl. now rewrite length_insert.
Qed.

(** Drawing on the active terminal only touches the pixels. *)
Lemma loose_same v s s1 : loose v s -> same_but_pixels s s1 -> active_vt s0 = Some k -> loose v s1.
Proof. intros [E L I C S] [E1 L1] Ha. split; auto; [rewrite E1; now rewrite E|congruence|congruence]. Qed.

Lemma put_at_ref v r c cell r' c' : cols v = g_cols g -> Z.of_nat (length (grid v)) = g_rows g * g_cols g -> 0 <= r < g_rows g -> 0 <= c < g_cols g ->
  0 <= r' < g_rows g -> 0 <= c' < g_cols g ->
  cell_ref g (grid (put_at v r c cell)) r' c' = if decide (r' = r /\ c' = c) then cell else cell_ref g (grid v) r' c'.
Proof.
  intros Ec Hl Hr Hc Hr' Hc'. unfold cell_ref, put_at, with_grid, grid at 1. cbn [cells set_cells default from_option id]. rewrite Ec. rewrite !nth_lookup.
  assert (0 <= r * g_cols g + c < g_rows g * g_cols g) by nia. case_decide as E.
  - destruct E as [-> ->]. rewrite list_lookup_insert_eq by lia. reflexivity.
  - rewrite list_lookup_insert_ne; [easy|]. intros E2. apply E. assert (r * g_cols g + c = r' * g_cols g + c') as E3 by nia.
    assert (r' = r) by (destruct (Z.lt_trichotomy r r') as [|[|]]; nia). nia.
Qed.

Lemma wp_put_cell v r c cell s (Q : unit -> console -> Prop) : holds v s -> 0 <= r < g_rows g -> 0 <= c < g_cols g ->
  (forall s1, holds (put_at v r c cell) s1 -> Q tt s1) -> wp (put_cell k r c cell) Q s.
Proof.
  intros [Hl Hs] Hr Hc HQ. destruct (lo_size _ _ Hl) as [S1 S2]. destruct (lo_cells _ _ Hl) as [C1 C2]. unfold put_cell. apply wp_bind. eapply wp_vt_at; [exact Hl|].
  apply wp_bind. rewrite S1. apply (wp_cell_set v); auto; [nia|]. intros s1 L1 P1. replace (with_grid v _) with (put_at v r c cell) in L1 by (unfold put_at; now rewrite S1).
  apply wp_bind. eapply is_active_ok; [exact L1|]. apply wp_when. destruct (bool_decide_reflect (active_vt s0 = Some k)) as [Ha|Ha].
  - destruct (loose_ready _ _ L1) as (G1 & F1 & _). eapply wp_mono; [apply (blit_ok g SU s1 r c cell G1 F1 Hr Hc)|]. intros [] s2 D. apply HQ.
    split; [exact (loose_same _ _ _ L1 (drawn_same _ _ _ _ D) Ha)|]. intros _ r' c' Hr' Hc'. rewrite put_at_ref by auto. case_decide as E.
    + destruct E as [-> ->]. exact (drawn_shown g SU s1 s2 r c cell F1 Hr Hc D).
    + eapply (drawn_other g SU s1 s2 r c); [exact F1|exact Hr'|exact Hc'|lia|exact D|]. intros gx gy Hx Hy. specialize (Hs Ha r' c' Hr' Hc' gx gy Hx Hy). unfold px in *. now rewrite P1.
  - apply HQ. split; [exact L1|]. intros E. now elim Ha.
Qed.

(** * Rows at a time *)

Lemma fill_step (pre post : list vt_cell_t) (b : vt_cell_t) (c : nat) : (c < length post)%nat ->
  <[(length pre + c)%nat := b]> (pre ++ replicate c b ++ drop c post) = pre ++ replicate (S c) b ++ drop (S c) post.
Proof.
  intros Hc. rewrite insert_app_r_alt by lia. replace (length pre + c - length pre)%nat with c by lia. f_equal.
  rewrite insert_app_r_alt by (rewrite length_replicate; lia). rewrite length_replicate, Nat.sub_diag. destruct (drop c post) as [|x rest] eqn:E.
  { apply (f_equal length) in E. rewrite length_drop in E. simpl in E. lia. }
  assert (drop (S c) post = rest) as -> by (replace (S c) with (c + 1)%nat by lia; rewrite <- drop_drop, E; reflexivity).
  rewrite <- Nat.add_1_r, replicate_add. simpl. now rewrite <- app_assoc.
Qed.

Lemma wp_fill v pre post b n s (Q : unit -> console -> Prop) : loose (with_grid v (pre ++ post)) s -> Z.of_nat (length post) = n ->
  (forall s1, loose (with_grid v (pre ++ replicate (Z.to_nat n) b)) s1 -> pixels s1 = pixels s -> Q tt s1) ->
  wp (for_range 0 n (λ c, cell_set k (Z.of_nat (length pre) + c) b)) Q s.
Proof.
  intros Hl Hn HQ. pose proof (proj2 (lo_cells _ _ Hl)) as Hlen. unfold grid in Hlen. simpl in Hlen. rewrite length_app in Hlen.
  apply (wp_for_range (λ c s1, loose (with_grid v (pre ++ replicate (Z.to_nat c) b ++ drop (Z.to_nat c) post)) s1 /\ pixels s1 = pixels s)); [lia|auto| |].
  - intros c s1 Hc [L1 P1]. apply (wp_cell_set _ _ _ _ _ L1); [lia|]. intros s2 L2 P2. split; [|congruence]. unfold grid in L2. simpl in L2.
    replace (Z.to_nat (Z.of_nat (length pre) + c)) with (length pre + Z.to_nat c)%nat in L2 by lia. rewrite fill_step in L2 by lia. now replace (Z.to_nat (c + 1)) with (S (Z.to_nat c)) by lia.
  - intros s1 [L1 P1]. apply HQ; [|exact P1]. rewrite drop_ge, app_nil_r in L1 by lia. exact L1.
Qed.

Lemma with_grid_id v : cells v = Some (grid v) -> with_grid v (grid v) = v.
Proof. intros E. unfold with_grid, set_cells. rewrite <- E. now destruct v. Qed.

Lemma rows_shown_same s1 s2 cs n : pixels s2 = pixels s1 -> rows_shown g s1 cs n -> rows_shown g s2 cs n.
Proof. intros E Hs r c Hr Hc gx gy Hx Hy. specialize (Hs r c Hr Hc gx gy Hx Hy). unfold px in *. now rewrite E. Qed.

Lemma wp_clear_cells v s (Q : unit -> console -> Prop) : loose v s -> (forall s1, loose (with_grid v (replicate (length (grid v)) (blank v))) s1 -> Q tt s1) -> wp (clear_cells k) Q s.
Proof.
  intros Hl HQ. destruct (lo_size _ _ Hl) as [S1 S2]. destruct (lo_cells _ _ Hl) as [C1 C2]. unfold clear_cells. apply wp_bind. eapply wp_vt_at; [exact Hl|]. rewrite S1, S2.
  apply (wp_fill v [] (grid v) (blank v)); [now rewrite with_grid_id|easy|]. intros s1 L1 _. apply HQ. now replace (length (grid v)) with (Z.to_nat (g_rows g * g_cols g)) by lia.
Qed.

Lemma wp_clear_all v s b (Q : unit -> console -> Prop) : loose v s -> active_vt s0 = Some k ->
  (forall s1, loose v s1 -> (forall f n, Z.of_nat n = g_rows g * g_cols g -> rows_shown g s1 (replicate n (Cell 32 f b)) (g_rows g)) -> Q tt s1) -> wp (fb_clear_all b) Q s.
Proof.
  intros Hl Ha HQ. destruct (loose_ready _ _ Hl) as (G1 & F1 & _). pose proof (su_cols g SU). pose proof (su_rows g SU). pose proof (su_glyph g SU). unfold fb_clear_all.
  apply wp_bind, wp_gets. rewrite G1. eapply wp_mono; [apply (fill_rect_ok g SU s 0 0 width height (pack_palette b) F1); nia|]. intros [] s1 D.
  apply HQ; [exact (loose_same _ _ _ Hl (drawn_same _ _ _ _ D) Ha)|]. intros f n Hn. apply (shown_spaces g SU s s1 f b n 0 0 width height F1); auto. intros r c Hr Hc. nia.
Qed.

Lemma wp_wipe v s (Q : unit -> console -> Prop) : holds v s -> (forall s1, holds (wiped v) s1 -> Q tt s1) ->
  wp (clear_cells k;; vt_upd k (λ v, set_cursor v 0 0);; let* a := is_active k in when a (fb_clear_all (cur_bg v))) Q s.
Proof.
  intros [Hl _] HQ. destruct (lo_cells _ _ Hl) as [C1 C2]. apply wp_bind. apply (wp_clear_cells v s); [exact Hl|]. intros s1 L1.
  apply wp_bind. eapply (wp_upd_loose _ _ _ _ L1); [reflexivity|exact (proj2 (lo_cells _ _ L1))|exact (lo_size _ _ L1)|]. intros s2 L2 _. change (loose (wiped v) s2) in L2.
  apply wp_bind. eapply is_active_ok; [exact L2|]. apply wp_when. destruct (bool_decide_reflect (active_vt s0 = Some k)) as [Ha|Ha].
  - apply (wp_clear_all _ _ _ _ L2 Ha). intros s3 L3 Hs. apply HQ. split; [exact L3|]. intros _. now apply Hs.
  - apply HQ. split; [exact L2|]. intros E. now elim Ha.
Qed.

(** * Scrolling *)

Lemma scroll_up_ok v s (Q : unit -> console -> Prop) : loose v s -> active_vt s0 = Some k -> 0 < g_rows g ->
  (forall c, 0 <= c < g_cols g -> cell_ref g (grid v) (g_rows g - 1) c = blank v) ->
  (forall s1, holds v s1 -> Q tt s1) -> wp (fb_scroll_up (grid v) (rows v) (cols v) (cur_bg v)) Q s.
Proof.
  intros Hl Ha Hpos Hlast HQ. destruct (lo_size _ _ Hl) as [-> ->]. destruct (lo_cells _ _ Hl) as [C1 C2]. destruct (loose_ready _ _ Hl) as (G1 & F1 & _).
  pose proof (su_cols g SU). pose proof (su_rows g SU). pose proof (su_glyph g SU). unfold fb_scroll_up. apply wp_bind, wp_gets. rewrite G1.
  apply wp_bind. eapply wp_mono; [apply (blit_rows_ok g SU s (grid v) (g_rows g - 1) G1 F1 C2); lia|]. intros [] s1 [E1 R1]. pose proof (same_framed _ _ E1 F1) as F2.
  eapply wp_mono; [apply (fill_rect_ok g SU s1 0 ((g_rows g - 1) * g_glyph_h g) (g_cols g * g_glyph_w g) (g_glyph_h g) (pack_palette (cur_bg v)) F2); nia|]. intros [] s2 D.
  apply HQ. split; [exact (loose_same _ _ _ (loose_same _ _ _ Hl E1 Ha) (drawn_same _ _ _ _ D) Ha)|]. intros _ r c Hr Hc. destruct (decide (r = g_rows g - 1)) as [->|Hne].
  - rewrite Hlast by exact Hc. eapply (fill_shows g SU s1 s2); [exact F2|exact Hr|exact Hc|reflexivity| | | | |exact D]; nia.
  - eapply (drawn_below g SU s1 s2); [exact F2|exact Hr|exact Hc| |exact D|apply R1; lia]. nia.
Qed.

Lemma wp_cells_down v n m s (Q : unit -> console -> Prop) : loose v s -> 0 <= n -> 0 <= m -> n + m = Z.of_nat (length (grid v)) ->
  (forall s1, loose (with_grid v (drop (Z.to_nat n) (grid v) ++ drop (Z.to_nat m) (grid v))) s1 -> Q tt s1) -> wp (cells_down k n m) Q s.
Proof.
  intros Hl Hn Hm Hnm HQ. destruct (lo_cells _ _ Hl) as [C1 C2]. unfold cells_down. apply wp_bind. eapply wp_vt_at; [exact Hl|]. apply wp_bind. eapply wp_of_option; [exact C1|].
  destruct (Z.ltb_spec n 0), (Z.ltb_spec m 0), (Z.ltb_spec (Z.of_nat (length (grid v))) (n + m)); try lia. simpl orb. cbv iota.
  rewrite take_ge by (rewrite length_drop; lia). apply (wp_upd_loose v); auto; [|exact (lo_size _ _ Hl)]. unfold grid at 1. simpl. rewrite length_app, !length_drop. lia.
Qed.

Lemma scrolled_last v c : cols v = g_cols g -> Z.of_nat (length (grid v)) = g_rows g * g_cols g -> 0 < g_rows g -> 0 <= c < g_cols g ->
  cell_ref g (grid (scrolled v)) (g_rows g - 1) c = blank v.
Proof.
  intros Ec Hl Hr Hc. unfold cell_ref, scrolled, with_grid, grid at 1. cbn [cells set_cells default from_option id]. rewrite nth_lookup, lookup_app_r; rewrite length_drop, Ec; [|nia].
  rewrite lookup_replicate_2 by nia. reflexivity.
Qed.

Lemma wp_scroll_one v s (Q : unit -> console -> Prop) : loose v s -> (forall s1, holds (scrolled v) s1 -> Q tt s1) -> wp (scroll_one k) Q s.
Proof.
  intros Hl HQ. destruct (lo_size _ _ Hl) as [S1 S2]. destruct (lo_cells _ _ Hl) as [C1 C2]. pose proof (su_cols g SU). pose proof (su_rows g SU).
  unfold scroll_one. apply wp_bind. eapply wp_vt_at; [exact Hl|]. rewrite S1, S2. apply wp_bind. apply (wp_cells_down v); [exact Hl|nia..|]. intros s1 L1.
  apply wp_bind. set (pre := drop (Z.to_nat (g_cols g)) (grid v)) in *. assert (Z.of_nat (length pre) = (g_rows g - 1) * g_cols g) as Ep by (unfold pre; rewrite length_drop; nia).
  rewrite <- Ep. apply (wp_fill v pre (drop (Z.to_nat ((g_rows g - 1) * g_cols g)) (grid v)) (blank v) (g_cols g)); [exact L1|rewrite length_drop; nia|].
  intros s2 L2 _. replace (with_grid v _) with (scrolled v) in L2 by (unfold scrolled; now rewrite S1). apply wp_bind. eapply is_active_ok; [exact L2|]. apply wp_when.
  destruct (bool_decide_reflect (active_vt s0 = Some k)) as [Ha|Ha]; [|apply HQ; split; [exact L2|now intros E]].
  apply wp_bind. eapply wp_vt_at; [exact L2|]. apply wp_bind. eapply wp_of_option; [exact (proj1 (lo_cells _ _ L2))|].
  apply (scroll_up_ok (scrolled v)); auto; [lia|]. intros c Hc. exact (scrolled_last v c S1 C2 ltac:(lia) Hc).
Qed.

Lemma wp_newline v s (Q : unit -> console -> Prop) : holds v s -> cur_row v < g_rows g -> (forall s1, holds (next_line v) s1 -> Q tt s1) -> wp (newline_locked k) Q s.
Proof.
  intros Hh Hrow HQ. unfold newline_locked. apply wp_bind. eapply (wp_upd v); [exact Hh|easy|]. intros s1 [L1 V1]. pose proof (lo_size _ _ L1) as [S1 S2]. simpl in S1, S2.
  apply wp_bind. eapply wp_vt_at; [exact L1|]. apply wp_when. unfold next_line in HQ. simpl. rewrite S2 in *. destruct (Z.leb_spec (g_rows g) (cur_row v + 1)).
  - rewrite (proj2 (Z.ltb_ge _ _)) in HQ by lia. apply wp_bind. apply (wp_scroll_one _ _ _ L1). intros s2 H2. eapply (wp_upd _ _ _ _ H2); [easy|].
    intros s3 H3. apply HQ. simpl in H3. rewrite S2 in H3. exact H3.
  - rewrite (proj2 (Z.ltb_lt _ _)) in HQ by lia. apply HQ. now split.
Qed.

(** * One byte *)

Record wf (v : vt_t) : Prop := {
  wf_row : 0 <= cur_row v < g_rows g;
  wf_col : 0 <= cur_col v < g_cols g;
  wf_params : length (params v) = 8%nat /\ Forall (is_word 32) (params v);
  wf_count : 0 <= n_params v <= 8 }.
(** Inside a sequence, a parameter that is being read has a place. *)
Definition parsing (v : vt_t) : Prop := pstate v = VT_CSI -> has_param v = true -> n_params v < 8.

Lemma wp_typed v c s (Q : unit -> console -> Prop) : holds v s -> wf v -> (forall s1, holds (typed v c) s1 -> Q tt s1) ->
  wp (put_glyph k c;; vt_upd k (λ v, set_cursor v (cur_row v) (cur_col v + 1));; let* v := vt_at k in when (cols v <=? cur_col v) (newline_locked k)) Q s.
Proof.
  intros Hh Hw HQ. destruct (wf_row _ Hw) as [Hr0 Hr1], (wf_col _ Hw) as [Hc0 Hc1]. unfold put_glyph. apply wp_bind, wp_bind. eapply wp_vt_at; [exact (proj1 Hh)|].
  apply (wp_put_cell v); auto. intros s1 H1. set (v1 := put_at _ _ _ _) in *. unfold typed in HQ. fold v1 in HQ. pose proof (lo_size _ _ (proj1 H1)) as [S1 S2].
  apply wp_bind. eapply (wp_upd v1); [exact H1|easy|]. intros s2 H2. apply wp_bind. eapply wp_vt_at; [exact (proj1 H2)|]. apply wp_when.
  change (cols (set_cursor v1 _ _)) with (cols v1). change (cur_col (set_cursor v1 _ _)) with (cur_col v1 + 1). change (cur_col v1) with (cur_col v) in *. change (cur_row v1) with (cur_row v) in *.
  rewrite S1 in *. destruct (Z.leb_spec (g_cols g) (cur_col v + 1)).
  - rewrite (proj2 (Z.ltb_ge _ _)) in HQ by lia. apply (wp_newline _ _ _ H2); [easy|]. intros s3 H3. apply HQ.
    assert (next_line (set_cursor v1 (cur_row v1) (cur_col v + 1)) = next_line v1) as <- by (unfold next_line; simpl; destruct (_ <? _); reflexivity). exact H3.
  - rewrite (proj2 (Z.ltb_lt _ _)) in HQ by lia. now apply HQ.
Qed.

Lemma blank_from_keeps n c v : let v' := blank_from n c v in cur_row v' = cur_row v /\ blank v' = blank v /\ cols v' = cols v.
Proof. induction n as [|n IH]; [easy|]. exact IH. Qed.

Lemma wp_erase_line v s (Q : unit -> console -> Prop) : holds v s -> wf v -> (forall s1, holds (blank_from (Z.to_nat (cols v - cur_col v)) (cur_col v) v) s1 -> Q tt s1) ->
  wp (erase_line k) Q s.
Proof.
  intros Hh Hw HQ. destruct (wf_row _ Hw) as [Hr0 Hr1], (wf_col _ Hw) as [Hc0 Hc1]. destruct (lo_size _ _ (proj1 Hh)) as [S1 S2]. unfold erase_line. apply wp_bind. eapply wp_vt_at; [exact (proj1 Hh)|]. rewrite S1 in *.
  apply (wp_for_range (λ c s1, holds (blank_from (Z.to_nat (c - cur_col v)) (cur_col v) v) s1)); [lia|now rewrite Z.sub_diag| |].
  - intros c s1 Hc H1. apply (wp_put_cell _ _ _ _ _ _ H1); [lia..|]. intros s2 H2. replace (Z.to_nat (c + 1 - cur_col v)) with (S (Z.to_nat (c - cur_col v))) by lia.
    simpl. now replace (cur_col v + Z.of_nat (Z.to_nat (c - cur_col v))) with c by lia.
  - intros s1 H1. now apply HQ.
Qed.

Lemma sgr_colours p v : exists f b d, sgr p v = set_sgr v f b d.
Proof. unfold sgr. repeat case_match; eauto. exists (cur_fg v), (cur_bg v), (cur_bold v). now destruct v. Qed.
Lemma foldl_colours l v : exists f b d, foldl (λ v p, sgr p v) v l = set_sgr v f b d.
Proof.
  revert v. induction l as [|p l IH]; intros v; simpl; [exists (cur_fg v), (cur_bg v), (cur_bold v); now destruct v|].
  destruct (sgr_colours p v) as (f & b & d & ->). destruct (IH (set_sgr v f b d)) as (f' & b' & d' & ->). now exists f', b', d'.
Qed.

Lemma wp_apply_sgr v s (Q : unit -> console -> Prop) : holds v s -> wf v -> (forall s1, holds (coloured v) s1 -> Q tt s1) -> wp (apply_sgr k) Q s.
Proof.
  intros Hh Hw HQ. destruct (wf_params _ Hw) as [Hp _]. pose proof (wf_count _ Hw) as Hcount. unfold apply_sgr. apply wp_bind. eapply wp_vt_at; [exact (proj1 Hh)|].
  set (L := if n_params v =? 0 then [0] else take (Z.to_nat (n_params v)) (params v)). set (count := if n_params v =? 0 then 1 else n_params v).
  assert (Z.of_nat (length L) = count /\ 0 <= count) as [HL H0] by (unfold L, count; destruct (n_params v =? 0); rewrite ?length_take; simpl; lia).
  apply wp_bind. apply (wp_for_range (λ i s1, holds (foldl (λ v p, sgr p v) v (take (Z.to_nat i) L)) s1)); [lia|exact Hh| |].
  - intros i s1 Hi H1. set (vi := foldl _ v _) in *. assert (n_params vi = n_params v /\ params vi = params v) as [E1 E2].
    { destruct (foldl_colours (take (Z.to_nat i) L) v) as (f & b & d & Ev). unfold vi. now rewrite Ev. }
    destruct (lookup_lt_is_Some_2 L (Z.to_nat i) ltac:(lia)) as [p Ep]. apply wp_bind. eapply wp_vt_at; [exact (proj1 H1)|]. rewrite E1, E2.
    assert (forall Q', Q' p s1 -> wp (if i <? n_params v then of_option (arr_get (params v) i) else ret 0) Q' s1) as Hread.
    { intros Q' HQ'. unfold L, count in *. destruct (Z.eqb_spec (n_params v) 0) as [E0|E0].
      - rewrite (proj2 (Z.ltb_ge _ _)) by lia. apply wp_ret. assert (i = 0) as -> by lia. simpl in Ep. congruence.
      - rewrite (proj2 (Z.ltb_lt _ _)) by lia. rewrite lookup_take_lt in Ep by lia. eapply wp_of_option; [|exact HQ']. unfold arr_get. rewrite (proj2 (Z.ltb_ge _ _)) by lia. exact Ep. }
    apply wp_bind, Hread. eapply (wp_upd vi); [exact H1|destruct (sgr_colours p vi) as (f & b & d & ->); easy|]. intros s2 H2.
    replace (Z.to_nat (i + 1)) with (S (Z.to_nat i)) by lia. rewrite (take_S_r _ _ _ Ep), foldl_app. exact H2.
  - intros s1 H1. rewrite take_ge in H1 by lia. unfold coloured in HQ. fold L in HQ. cbv zeta in HQ. set (v' := foldl _ v L) in *. apply wp_bind. eapply wp_vt_at; [exact (proj1 H1)|]. apply wp_when.
    destruct (cur_bold v') eqn:Eb; [|now apply HQ]. eapply (wp_upd v'); [exact H1|easy|]. intros s2 H2. apply HQ. now rewrite Eb in H2.
Qed.

Lemma wp_param v i def s (Q : Z -> console -> Prop) : wf v -> 0 <= i -> Q (param v i def) s -> wp (param_or v i def) Q s.
Proof.
  intros Hw Hi HQ. destruct (wf_params _ Hw) as [Hp _]. pose proof (wf_count _ Hw) as Hcount. unfold param_or, param in *. destruct (Z.leb_spec (n_params v) i); [now apply wp_ret|].
  eapply wp_of_option; [|exact HQ]. unfold arr_get. rewrite (proj2 (Z.ltb_ge _ _)) by lia. destruct (lookup_lt_is_Some_2 (params v) (Z.to_nat i) ltac:(lia)) as [x Ex]. rewrite nth_lookup, Ex. reflexivity.
Qed.

Lemma wp_command v c s (Q : unit -> console -> Prop) : holds v s -> wf v -> (forall s1, holds (command v c) s1 -> Q tt s1) -> wp (dispatch_csi k c) Q s.
Proof.
  intros Hh Hw HQ. unfold dispatch_csi. apply wp_bind. eapply wp_vt_at; [exact (proj1 Hh)|]. unfold command in HQ. destruct (_ || _).
  { apply wp_bind. apply wp_param; [exact Hw|lia|]. apply wp_bind. apply wp_param; [exact Hw|lia|]. eapply (wp_upd v); [exact Hh|easy|exact HQ]. }
  destruct (c =? 74).
  { apply wp_bind. apply wp_param; [exact Hw|lia|]. apply wp_when. destruct (_ =? 2); [|now apply HQ]. now apply (wp_wipe v). }
  destruct (c =? 75).
  { apply wp_bind. apply wp_param; [exact Hw|lia|]. apply wp_when. destruct (_ =? 0); [|now apply HQ]. now apply (wp_erase_line v). }
  apply wp_when. destruct (c =? 109); [|now apply HQ]. now apply (wp_apply_sgr v).
Qed.

(** The byte is not a tab that would reach the end of the row. *)
Definition within (v : vt_t) (c : Z) : Prop := pstate v = VT_GROUND -> c = 9 -> tab_stop v < cols v.

Lemma spaces_cursor n v : cur_row (spaces n v) = cur_row v /\ cur_col (spaces n v) = cur_col v + Z.of_nat n.
Proof. induction n as [|n [IH1 IH2]]; [simpl; lia|]. cbn [spaces]. simpl. lia. Qed.

Lemma wp_tab v s (Q : unit -> console -> Prop) : holds v s -> wf v -> tab_stop v < g_cols g ->
  (forall s1, holds (spaces (Z.to_nat (tab_stop v - cur_col v)) v) s1 -> Q tt s1) ->
  wp (for_range (cur_col v) (tab_stop v) (λ _, put_glyph k 32;; vt_upd k (λ v, set_cursor v (cur_row v) (cur_col v + 1)))) Q s.
Proof.
  intros Hh Hw Ht HQ. destruct (wf_row _ Hw) as [Hr0 Hr1], (wf_col _ Hw) as [Hc0 Hc1]. destruct (Z.le_gt_cases (tab_stop v) (cur_col v)) as [Hle|Hgt].
  { apply wp_for_none; [lia|]. apply HQ. now replace (Z.to_nat (tab_stop v - cur_col v)) with O by lia. }
  apply (wp_for_range (λ c s1, holds (spaces (Z.to_nat (c - cur_col v)) v) s1)); [lia|now rewrite Z.sub_diag| |auto].
  intros c s1 Hc H1. destruct (spaces_cursor (Z.to_nat (c - cur_col v)) v) as [E1 E2]. replace (Z.to_nat (c + 1 - cur_col v)) with (S (Z.to_nat (c - cur_col v))) by lia. cbn [spaces]. set (v1 := spaces (Z.to_nat (c - cur_col v)) v) in *.
  unfold put_glyph. apply wp_bind, wp_bind. eapply wp_vt_at; [exact (proj1 H1)|]. apply (wp_put_cell v1); [exact H1|lia..|]. intros s2 H2.
  eapply (wp_upd _ _ _ _ H2); [easy|]. intros s3 H3. exact H3.
Qed.

Lemma wp_ground v c s (Q : unit -> console -> Prop) : holds v s -> wf v -> pstate v = VT_GROUND -> within v c -> (forall s1, holds (feed v c) s1 -> Q tt s1) -> wp (ground_byte k c) Q s.
Proof.
  intros Hh Hw Hp Hin HQ. destruct (wf_row _ Hw) as [Hr0 Hr1], (wf_col _ Hw) as [Hc0 Hc1]. unfold ground_byte. apply wp_bind. eapply wp_vt_at; [exact (proj1 Hh)|]. unfold feed, feed_with in HQ. rewrite Hp in HQ.
  destruct (c =? 27); [now apply (wp_upd v)|]. destruct (c =? 10); [now apply (wp_newline v)|]. destruct (c =? 13); [now apply (wp_upd v)|]. destruct (c =? 8).
  { apply wp_when. destruct (Z.ltb_spec 0 (cur_col v)); [|now apply HQ]. apply wp_bind. eapply (wp_upd v); [exact Hh|easy|]. intros s1 H1. now apply (wp_put_cell _ _ _ _ _ _ H1); [lia..|]. }
  destruct (Z.eqb_spec c 9) as [->|]; [|now apply (wp_typed v)]. pose proof (Hin Hp eq_refl) as Ht. fold (tab_stop v). rewrite (proj2 (Z.ltb_ge _ _)) by lia.
  apply wp_tab; auto. now rewrite <- (proj1 (lo_size _ _ (proj1 Hh))).
Qed.

Lemma wf_opened v : wf v -> parsing v -> pstate v = VT_CSI -> wf (set_params v (params v) (if has_param v then n_params v + 1 else n_params v) (has_param v)).
Proof.
  intros [W1 W2 W3 W4] Hq Hp. specialize (Hq Hp). split; simpl; auto. destruct (has_param v); [specialize (Hq eq_refl)|]; lia.
Qed.

Lemma wp_csi v c s (Q : unit -> console -> Prop) : holds v s -> wf v -> parsing v -> pstate v = VT_CSI -> (forall s1, holds (feed v c) s1 -> Q tt s1) -> wp (csi_byte k c) Q s.
Proof.
  intros Hh Hw Hq Hp HQ. destruct (wf_params _ Hw) as [Hlen _]. pose proof (wf_count _ Hw) as Hcount. unfold csi_byte. apply wp_bind. eapply wp_vt_at; [exact (proj1 Hh)|]. unfold feed, feed_with in HQ. rewrite Hp in HQ.
  destruct (_ && _).
  { apply wp_when. change VT_MAX_PARAMS with 8. destruct (Z.ltb_spec (n_params v) 8) as [Hn|]; [|now apply HQ].
    destruct (lookup_lt_is_Some_2 (params v) (Z.to_nat (n_params v)) ltac:(lia)) as [x Ex]. apply wp_bind. eapply wp_of_option.
    { unfold arr_get. rewrite (proj2 (Z.ltb_ge _ _)) by lia. exact Ex. }
    apply wp_bind. rewrite arr_set_lt by lia. eapply (wp_upd v); [exact Hh|easy|]. rewrite nth_lookup, Ex in HQ. exact HQ. }
  destruct (c =? 59); [now apply (wp_upd v)|]. apply wp_when. destruct (_ && _); [|now apply HQ].
  apply wp_bind. eapply (wp_upd v); [exact Hh|easy|]. intros s1 H1. apply wp_bind. apply (wp_command _ _ _ _ H1); [now apply wf_opened|]. intros s2 H2.
  eapply (wp_upd _ _ _ _ H2); [easy|]. exact HQ.
Qed.

(** * Well-formed terminals stay so *)

Lemma clamp_range p limit : is_word 32 p -> 0 < limit < 2 ^ 32 -> 0 <= clamp p limit < limit.
Proof.
  unfold is_word, clamp. intros Hp Hl. destruct (Z.eqb_spec p 0) as [->|].
  - destruct (Z.ltb_spec limit 1); [lia|]. change (wrap32 (1 - 1)) with 0. lia.
  - destruct (Z.ltb_spec limit p); rewrite ?(wrap_small 32 limit) by (unfold is_word; lia); rewrite wrap_small by (unfold is_word; lia); lia.
Qed.

Lemma param_word v i def : wf v -> is_word 32 def -> is_word 32 (param v i def).
Proof.
  intros Hw Hd. destruct (wf_params _ Hw) as [_ Hp]. unfold param. destruct (_ <=? i); [exact Hd|]. rewrite nth_lookup. destruct (params v !! Z.to_nat i) as [x|] eqn:E; [|now split].
  exact (proj1 (Forall_lookup _ _) Hp _ _ E).
Qed.

Lemma wf_cursor v v' : wf v -> 0 <= cur_row v' < g_rows g -> 0 <= cur_col v' < g_cols g -> params v' = params v -> n_params v' = n_params v -> wf v'.
Proof. intros [W1 W2 W3 W4] H1 H2 E1 E2. split; rewrite ?E1, ?E2; auto. Qed.

Lemma wf_next_line v : wf v -> rows v = g_rows g -> wf (next_line v).
Proof.
  intros Hw Er. pose proof (su_cols g SU). pose proof (su_rows g SU). destruct (wf_row _ Hw) as [Hr0 Hr1].
  apply (wf_cursor v _ Hw); unfold next_line; destruct (Z.ltb_spec (cur_row v + 1) (rows v)); simpl; lia || easy.
Qed.

Lemma wf_typed v c : wf v -> rows v = g_rows g -> cols v = g_cols g -> wf (typed v c).
Proof.
  intros Hw Er Ec. destruct (wf_row _ Hw) as [Hr0 Hr1], (wf_col _ Hw) as [Hc0 Hc1]. assert (wf (put_at v (cur_row v) (cur_col v) (cell_of v c))) as Hput by now apply (wf_cursor v _ Hw).
  unfold typed. set (v1 := put_at _ _ _ _) in *. destruct (Z.ltb_spec (cur_col v1 + 1) (cols v1)) as [Hlt|Hlt]; [|now apply wf_next_line].
  change (cols v1) with (cols v) in Hlt. apply (wf_cursor v1 _ Hput); simpl in *; lia || easy.
Qed.

Lemma wf_command v c : wf v -> rows v = g_rows g -> cols v = g_cols g -> wf (command v c).
Proof.
  intros Hw Er Ec. pose proof (su_cols g SU). pose proof (su_rows g SU). pose proof (su_small g SU). destruct (wf_row _ Hw) as [Hr0 Hr1], (wf_col _ Hw) as [Hc0 Hc1].
  assert (is_word 32 1) as Hw1 by now split. unfold command. repeat case_match; try exact Hw.
  - apply (wf_cursor v _ Hw); try easy; simpl; rewrite ?Er, ?Ec; apply clamp_range; try lia; now apply param_word.
  - apply (wf_cursor v _ Hw); simpl; lia || easy.
  - generalize (Z.to_nat (cols v - cur_col v)). intros n. induction n as [|n IH]; [exact Hw|]. apply (wf_cursor _ _ IH); try easy; simpl; apply IH.
  - unfold coloured. destruct (foldl_colours (if n_params v =? 0 then [0] else take (Z.to_nat (n_params v)) (params v)) v) as (f & b & d & ->).
    destruct (cur_bold _); now apply (wf_cursor v _ Hw).
Qed.

Lemma spaces_keeps n v : params (spaces n v) = params v /\ n_params (spaces n v) = n_params v /\ pstate (spaces n v) = pstate v.
Proof. induction n as [|n IH]; [easy|exact IH]. Qed.

Lemma wf_feed_with cmd v c : (forall w, wf w -> rows w = g_rows g -> cols w = g_cols g -> wf (cmd w c)) ->
  wf v -> parsing v -> rows v = g_rows g -> cols v = g_cols g -> within v c -> wf (feed_with cmd v c).
Proof.
  intros Hcmd Hw Hq Er Ec Hin. destruct (wf_row _ Hw) as [Hr0 Hr1], (wf_col _ Hw) as [Hc0 Hc1]. pose proof (su_cols g SU). unfold feed_with. destruct (pstate v) eqn:Ep.
  - destruct (c =? 27); [now apply (wf_cursor v _ Hw)|]. destruct (c =? 10); [now apply wf_next_line|]. destruct (c =? 13); [apply (wf_cursor v _ Hw); simpl; lia || easy|].
    destruct (c =? 8). { destruct (Z.ltb_spec 0 (cur_col v)); [|easy]. apply (wf_cursor v _ Hw); simpl; lia || easy. }
    destruct (Z.eqb_spec c 9) as [->|]; [|now apply wf_typed]. pose proof (Hin Ep eq_refl). destruct (spaces_cursor (Z.to_nat (tab_stop v - cur_col v)) v) as [E1 E2].
    destruct (spaces_keeps (Z.to_nat (tab_stop v - cur_col v)) v) as (K1 & K2 & _). apply (wf_cursor v _ Hw); auto; lia.
  - destruct (c =? 91); [|now apply (wf_cursor v _ Hw)]. destruct Hw as [W1 W2 W3 W4]. split; simpl; auto; try lia. split; [easy|]. repeat (apply Forall_cons_2; [now split|]). apply Forall_nil_2.
  - destruct (_ && _).
    { destruct (Z.ltb_spec (n_params v) 8); [|easy]. destruct Hw as [W1 W2 [W3 W3'] W4]. split; simpl; auto. split; [now rewrite length_insert|]. apply Forall_insert; [exact W3'|now apply wrap_range]. }
    destruct (c =? 59). { destruct Hw as [W1 W2 W3 W4]. specialize (Hq Ep). split; simpl; auto. destruct (has_param v); simpl; [specialize (Hq eq_refl); lia|]. destruct (Z.ltb_spec (n_params v) 8); lia. }
    destruct (_ && _); [|exact Hw]. apply (wf_cursor _ _ (Hcmd _ (wf_opened v Hw Hq Ep) Er Ec)); try easy; apply (Hcmd _ (wf_opened v Hw Hq Ep) Er Ec).
Qed.

Lemma wf_feed v c : wf v -> parsing v -> rows v = g_rows g -> cols v = g_cols g -> within v c -> wf (feed v c).
Proof. apply wf_feed_with. intros w Hw. now apply wf_command. Qed.

Lemma next_line_pstate v : pstate (next_line v) = pstate v.
Proof. unfold next_line. now destruct (_ <? _). Qed.

Lemma parsing_feed cmd v c : parsing v -> parsing (feed_with cmd v c).
Proof.
  unfold parsing, feed_with. intros Hq. destruct (pstate v) eqn:Ep.
  - repeat case_match; try easy; try (now rewrite next_line_pstate, Ep); try (simpl; now rewrite Ep).
    + rewrite (proj2 (proj2 (spaces_keeps _ _))), Ep. easy.
    + unfold typed. repeat case_match; rewrite ?next_line_pstate; simpl; now rewrite Ep.
  - destruct (c =? 91); easy.
  - repeat case_match; try (simpl; easy); simpl; try (rewrite Ep; now apply Hq).
    intros _ _. lia.
Qed.
End Terminal.

(** * The lock word plays no part *)

Lemma next_line_locked b v : next_line (set_locked v b) = set_locked (next_line v) b.
Proof. unfold next_line. simpl. now destruct (_ <? _). Qed.
Lemma typed_locked b v c : typed (set_locked v b) c = set_locked (typed v c) b.
Proof.
  unfold typed. change (put_at (set_locked v b) _ _ _) with (set_locked (put_at v (cur_row v) (cur_col v) (cell_of v c)) b).
  rewrite next_line_locked. simpl. now destruct (_ <? _).
Qed.
Lemma blank_from_locked b n c v : blank_from n c (set_locked v b) = set_locked (blank_from n c v) b.
Proof. induction n as [|n IH]; [easy|]. cbn [blank_from]. now rewrite IH. Qed.
Lemma spaces_locked b n v : spaces n (set_locked v b) = set_locked (spaces n v) b.
Proof. induction n as [|n IH]; [easy|]. cbn [spaces]. now rewrite IH. Qed.
Lemma coloured_locked b v : coloured (set_locked v b) = set_locked (coloured v) b.
Proof.
  assert (forall l v, foldl (λ v p, sgr p v) (set_locked v b) l = set_locked (foldl (λ v p, sgr p v) v l) b) as E.
  { intros l. induction l as [|p l IH]; intros w; [easy|]. simpl. rewrite <- IH. f_equal. unfold sgr. simpl. now repeat case_match. }
  unfold coloured. rewrite E. simpl. now destruct (cur_bold _).
Qed.
Lemma command_locked b v c : command (set_locked v b) c = set_locked (command v c) b.
Proof.
  unfold command. rewrite coloured_locked. change (param (set_locked v b)) with (param v). simpl cols. simpl cur_col. rewrite blank_from_locked. now repeat case_match.
Qed.
Lemma feed_locked b v c : feed (set_locked v b) c = set_locked (feed v c) b.
Proof.
  unfold feed, feed_with. simpl pstate. destruct (pstate v).
  - rewrite next_line_locked, typed_locked. change (tab_stop (set_locked v b)) with (tab_stop v). simpl cur_col. rewrite spaces_locked. now repeat case_match.
  - now destruct (c =? 91).
  - simpl. change (set_params (set_locked v b) ?x ?y ?z) with (set_locked (set_params v x y z) b). rewrite command_locked. now repeat case_match.
Qed.
