(* ===== verification/VtThms.v ===== *)
(** The console as a whole: whatever is written to its terminals and however
    they are switched, each terminal is what the reference says and the
    framebuffer shows the active one; and a tab that reaches the end of the last
    row, where the code leaves the grid. *)

From S2P Require Import Prelude BitMath Bytes Vt VtDraw VtRef.

(** * What the console is to its users *)

Record terms := Terms { t_vts : list vt_t; t_active : option Z; t_klog : option Z }.
Inductive op := OpWrite (k c : Z) | OpKlog (c : Z) | OpSwitch (i : Z) | OpRedirect (i : Z).

Definition has_cells (v : vt_t) : bool := match cells v with Some _ => true | None => false end.
Definition usable (t : terms) (i : Z) : bool :=
  (i <? NUM_VTS) && match arr_get (t_vts t) i with Some v => has_cells v | None => false end.
Definition spec_write (k c : Z) (t : terms) : terms :=
  match arr_get (t_vts t) k with
  | Some v => if has_cells v then Terms (<[Z.to_nat k := feed v c]> (t_vts t)) (t_active t) (t_klog t) else t
  | None => t
  end.
Definition spec (o : op) (t : terms) : terms :=
  match o with
  | OpWrite k c => spec_write k c t
  | OpKlog c => match t_klog t with Some k => spec_write k c t | None => t end
  | OpSwitch i => if usable t i then Terms (t_vts t) (Some i) (t_klog t) else t
  | OpRedirect i => if usable t i then Terms (t_vts t) (t_active t) (Some i) else t
  end.

(** A tab must stop within its row. *)
Definition tab_fits (t : terms) (k c : Z) : Prop := forall v, arr_get (t_vts t) k = Some v -> within v c.
Definition allowed (o : op) (t : terms) : Prop :=
  match o with
  | OpWrite k c => 0 <= k < NUM_VTS /\ tab_fits t k c
  | OpKlog c => forall k, t_klog t = Some k -> tab_fits t k c
  | OpSwitch i | OpRedirect i => 0 <= i
  end.
Fixpoint all_allowed (os : list op) (t : terms) : Prop :=
  match os with [] => True | o :: os => allowed o t /\ all_allowed os (spec o t) end.

Section Whole.
Context `{Display} (g : geometry) (SU : suits g).

Definition run_op (o : op) : M console unit :=
  match o with
  | OpWrite k c => vt_write_byte (Some k) c
  | OpKlog c => vt_write_klog_ c
  | OpSwitch i => vt_switch_to i
  | OpRedirect i => vt_klog_redirect i
  end.
Fixpoint run_ops (os : list op) : M console unit := match os with [] => ret tt | o :: os => run_op o;; run_ops os end.
Definition abs (s : console) : terms := Terms (vts s) (active_vt s) (klog_vt s).

Record ready_vt (v : vt_t) : Prop := {
  rv_wf : wf g v;
  rv_parsing : parsing v;
  rv_cells : Z.of_nat (length (grid v)) = g_rows g * g_cols g;
  rv_size : cols v = g_cols g /\ rows v = g_rows g }.

Record inv (s : console) : Prop := {
  iv_ready : g_ready s = Some g /\ framed s;
  iv_owner : fb_owner s = 0;
  iv_vts : Z.of_nat (length (vts s)) = NUM_VTS;
  iv_vt : forall k v, arr_get (vts s) k = Some v -> locked v = false /\ (has_cells v = true -> ready_vt v);
  iv_klog : forall k, klog_vt s = Some k -> 0 <= k < NUM_VTS;
  iv_shown : exists k v, active_vt s = Some k /\ arr_get (vts s) k = Some v /\ (has_cells v = true -> rows_shown g s (grid v) (g_rows g)) }.

Lemma has_grid v : has_cells v = true -> cells v = Some (grid v).
Proof. unfold has_cells, grid. now destruct (cells v). Qed.

Lemma run_append s m2 (m1 : M console unit) (Q : unit -> console -> Prop) : wp m1 (λ _ s1, wp m2 Q s1) s -> wp (m1;; m2) Q s.
Proof. intros. now apply wp_bind. Qed.

(** The interrupt flag is not seen. *)
Lemma rows_shown_pixels s s1 cs n : pixels s1 = pixels s -> rows_shown g s cs n -> rows_shown g s1 cs n.
Proof. intros E Hs r c Hr Hc gx gy Hx Hy. specialize (Hs r c Hr Hc gx gy Hx Hy). unfold px in *. now rewrite E. Qed.

(** The body of [vt_write_byte], on a terminal that is locked. *)
Lemma wp_byte s0 k v c s (Q : unit -> console -> Prop) : g_ready s0 = Some g -> framed s0 -> 0 <= k < Z.of_nat (length (vts s0)) ->
  holds g s0 k v s -> wf g v -> parsing v -> within v c -> (forall s1, holds g s0 k (feed v c) s1 -> Q tt s1) ->
  wp (match pstate v with
      | VT_GROUND => ground_byte k c
      | VT_ESC => if c =? 91 then vt_upd k (λ v, set_pstate v VT_CSI);; reset_csi k else vt_upd k (λ v, set_pstate v VT_GROUND)
      | VT_CSI => csi_byte k c
      end) Q s.
Proof.
  intros Hg Hf Hk Hh Hw Hq Hin HQ. destruct (pstate v) eqn:Ep.
  - now apply (wp_ground g SU s0 k Hg Hf Hk v).
  - unfold feed, feed_with in HQ. rewrite Ep in HQ. destruct (c =? 91).
    + apply wp_bind. eapply (wp_upd g s0 k Hk v); [exact Hh|easy|]. intros s1 H1. eapply (wp_upd g s0 k Hk _ _ _ _ H1); [easy|exact HQ].
    + eapply (wp_upd g s0 k Hk v); [exact Hh|easy|exact HQ].
  - now apply (wp_csi g SU s0 k Hg Hf Hk v).
Qed.

(** What a write leaves: terminal [k] is [v'], shown when active. *)
Lemma inv_write s k v v' s1 b : inv s -> arr_get (vts s) k = Some v -> has_cells v = true -> locked v' = false -> wf g v' -> parsing v' ->
  holds g (fset if_flag false s) k v' s1 -> let s' := fset if_flag b s1 in
  inv s' /\ abs s' = Terms (<[Z.to_nat k := v']> (vts s)) (active_vt s) (klog_vt s).
Proof.
  intros [[I1 I2] I3 I4 I5 I6 (ka & va & A1 & A2 & A3)] Hv Hc Hlk Hw Hq [[E L Id [C1 C2] Sz] Hs] s'. pose proof (arr_get_Some_lt _ _ _ Hv) as Hk. simpl in *.
  assert (vts s' = <[Z.to_nat k := v']> (vts s)) as Ev by (unfold s'; simpl; now rewrite E). assert (pixels s' = pixels s1) as Ep by easy.
  assert (active_vt s' = active_vt s /\ klog_vt s' = klog_vt s /\ g_ready s' = g_ready s /\ fb_owner s' = fb_owner s) as (Ea & Ek & Eg & Eo) by (unfold s'; simpl; rewrite E; easy).
  split; [|unfold abs; now rewrite Ev, Ea, Ek]. split.
  - split; [now rewrite Eg|]. unfold framed in *. rewrite Ep, L. exact I2.
  - congruence.
  - rewrite Ev, length_insert. exact I4.
  - intros j w. rewrite Ev, arr_get_insert by exact Hk. case_decide; [intros [= <-]; split; [exact Hlk|]; intros _; now split|apply I5].
  - rewrite Ek. exact I6.
  - rewrite Ea, Ev. destruct (decide (k = ka)) as [<-|Hne].
    + exists k, v'. split; [exact A1|]. rewrite arr_get_insert, decide_True by auto. split; [easy|]. intros _. apply (rows_shown_pixels s1); [easy|]. now apply Hs.
    + exists ka, va. split; [exact A1|]. rewrite arr_get_insert, decide_False by auto. split; [exact A2|]. intros Hca. apply (rows_shown_pixels s); [|auto]. rewrite Ep. apply Id. congruence.
Qed.

Lemma intr_same (s : console) b : intr s = b -> fset if_flag b s = s.
Proof. intros <-. now destruct s. Qed.

Lemma wp_irq_end (s : console) (ie : bool) (Q : unit -> console -> Prop) : Q tt (if ie then fset if_flag true s else s) -> wp (when ie StiHelper) Q s.
Proof. intros HQ. apply wp_when. now destruct ie. Qed.

Lemma vt_write_ok s k c : inv s -> 0 <= k < NUM_VTS -> tab_fits (abs s) k c ->
  wp (vt_write_byte (Some k) c) (λ _ s', inv s' /\ abs s' = spec_write k c (abs s) /\ intr s' = intr s) s.
Proof.
  intros Hinv Hk Hin. pose proof Hinv as [[I1 I2] _ I4 I5 _ _]. rewrite <- I4 in Hk. destruct (arr_get_lt _ _ Hk) as [v Ev]. specialize (Hin v Ev). destruct (I5 k v Ev) as [Hl Hr].
  unfold vt_write_byte, spec_write. simpl t_vts. rewrite Ev. apply wp_bind. unfold vt_at at 1. apply wp_bind, wp_get. eapply wp_of_option; [exact Ev|].
  destruct (has_cells v) eqn:Ehc; unfold has_cells in Ehc; destruct (cells v) as [cs|] eqn:Ec; try easy. specialize (Hr eq_refl). destruct Hr as [Rw Rq Rc Rs].
  apply wp_bind, wp_gets, wp_bind, wp_modify. set (s0 := fset if_flag false s). assert (has_cells v = true) as Hc by (unfold has_cells; now rewrite Ec).
  assert (holds g s0 k v s0) as H0.
  { destruct Hinv as [_ _ _ _ _ (ka & va & A1 & A2 & A3)]. split; [split; auto using has_grid|].
    - simpl. rewrite list_insert_id; [now destruct s|]. unfold arr_get in Ev. destruct (k <? 0); [easy|exact Ev].
    - intros Ha. assert (ka = k) as -> by (simpl in Ha; congruence). assert (va = v) as -> by congruence. apply (rows_shown_pixels s); auto. }
  unfold vt_lock. apply wp_bind, wp_bind. eapply (wp_vt_at g s0 k Hk); [exact (proj1 H0)|]. rewrite Hl. eapply (wp_upd g s0 k Hk v); [exact H0|easy|]. intros s1 H1.
  apply wp_bind. change (pstate v) with (pstate (set_locked v true)).
  apply (wp_byte s0 k (set_locked v true)); auto; [destruct Rw; now split|]. intros s2 H2. rewrite feed_locked in H2.
  apply wp_bind. eapply (wp_upd g s0 k Hk _ _ _ _ H2); [easy|]. intros s3 H3. change (set_locked (set_locked (feed v c) true) false) with (set_locked (feed v c) false) in H3.
  assert (set_locked (feed v c) false = feed v c) as E by (rewrite <- feed_locked; f_equal; rewrite <- Hl; now destruct v). rewrite E in H3.
  assert (wf g (feed v c)) as Hw' by (apply (wf_feed g SU s0 k Hk); auto; apply Rs). assert (locked (feed v c) = false) as Hl' by now rewrite <- E.
  apply wp_irq_end. unfold check_interrupts. destruct (inv_write s k v (feed v c) s3 (intr s) Hinv Ev Hc Hl' Hw' (parsing_feed s0 k Hk command v c Rq) H3) as [J1 J2].
  assert ((if fget if_flag s then fset if_flag true s3 else s3) = fset if_flag (intr s) s3) as ->.
  { change (fget if_flag s) with (intr s). destruct (intr s) eqn:Ei; [easy|]. assert (intr s3 = false) as Ei3 by (rewrite (lo_state _ _ _ _ _ (proj1 H3)); easy). symmetry. now apply intr_same. }
  split; [exact J1|]. split; [exact J2|easy].
Qed.

(** Drawing the terminal that is switched to. *)
Lemma wp_show s k v cs : g_ready s = Some g -> framed s -> arr_get (vts s) k = Some v -> cells v = Some cs -> Z.of_nat (length cs) = g_rows g * g_cols g -> cols v = g_cols g /\ rows v = g_rows g ->
  wp (fb_clear_all (cur_bg v);; fb_redraw_cells cs (rows v) (cols v)) (λ _ s1, same_but_pixels s s1 /\ rows_shown g s1 cs (g_rows g)) s.
Proof.
  intros Hg Hf Hv Hc Hl [-> ->]. unfold fb_clear_all, fb_redraw_cells. apply wp_bind, wp_bind, wp_gets. rewrite Hg. pose proof (su_cols g SU). pose proof (su_rows g SU). pose proof (su_glyph g SU).
  eapply wp_mono; [apply (fill_rect_ok g SU s 0 0 width height (pack_palette (cur_bg v)) Hf); nia|]. intros [] s1 D. pose proof (drawn_same _ _ _ _ D) as E1.
  apply wp_bind, wp_gets. rewrite (same_ready _ _ E1), Hg.
  eapply wp_mono; [apply (blit_rows_ok g SU s1 cs (g_rows g)); [now rewrite (same_ready _ _ E1)|exact (same_framed _ _ E1 Hf)|exact Hl|lia]|].
  intros [] s2 [E2 R2]. split; [exact (same_trans _ _ _ E1 E2)|exact R2].
Qed.

Lemma wp_upd_at s k v f (Q : unit -> console -> Prop) : arr_get (vts s) k = Some v -> Q tt (set_vts (<[Z.to_nat k := f v]> (vts s)) s) -> wp (vt_upd k f) Q s.
Proof.
  intros Hv HQ. unfold vt_upd. apply wp_bind, wp_get, wp_bind. eapply wp_of_option; [exact Hv|]. apply wp_bind. rewrite arr_set_lt by exact (arr_get_Some_lt _ _ _ Hv). now apply wp_modify.
Qed.

Lemma vt_switch_ok s i : inv s -> 0 <= i -> wp (vt_switch_to i) (λ _ s', inv s' /\ abs s' = spec (OpSwitch i) (abs s) /\ intr s' = intr s) s.
Proof.
  intros Hinv Hi. pose proof Hinv as [[I1 I2] I3 I4 I5 I6 (ka & va & A1 & A2 & A3)]. unfold vt_switch_to, spec, usable. simpl t_vts.
  destruct (Z.leb_spec NUM_VTS i); [rewrite (proj2 (Z.ltb_ge _ _)) by lia; now apply wp_ret|]. rewrite (proj2 (Z.ltb_lt _ _)) by lia. simpl andb.
  destruct (arr_get_lt (vts s) i ltac:(lia)) as [v Ev]. rewrite Ev. unfold is_active. apply wp_bind, wp_bind, wp_get, wp_ret.
  destruct (bool_decide_reflect (active_vt s = Some i)) as [Ea|Ea].
  { apply wp_ret. split; [exact Hinv|]. split; [|easy]. destruct (has_cells v); [|easy]. unfold abs. simpl. congruence. }
  unfold vt_at. apply wp_bind, wp_bind, wp_get. eapply wp_of_option; [exact Ev|]. destruct (I5 i v Ev) as [Hl Hr]. unfold has_cells in Hr |- *.
  destruct (cells v) as [cs|] eqn:Ec; [|now apply wp_ret]. destruct (Hr eq_refl) as [Rw Rq Rc Rs]. assert (cs = grid v) as -> by (unfold grid; now rewrite Ec).
  apply wp_bind, wp_gets, wp_bind, wp_modify. unfold vt_lock, vt_at. apply wp_bind, wp_bind, wp_bind, wp_get. eapply wp_of_option; [exact Ev|]. rewrite Hl. eapply wp_upd_at; [exact Ev|].
  apply wp_bind, wp_modify, wp_bind, wp_gets. set (s1 := set_active _ _). change (fb_owner s1) with (fb_owner s). rewrite I3. rewrite andb_false_r. pose proof (arr_get_Some_lt _ _ _ Ev) as Hk.
  assert (arr_get (vts s1) i = Some (set_locked v true)) as Ev1 by (simpl; now rewrite arr_get_insert, decide_True).
  apply wp_bind. apply wp_assoc. apply wp_bind. eapply wp_mono; [apply (wp_show s1 i (set_locked v true) (grid v)); auto|]. intros [] s2 [[E2 L2] R2].
  unfold vt_unlock. assert (arr_get (vts s2) i = Some (set_locked v true)) as Ev2 by (rewrite E2; exact Ev1). eapply wp_upd_at; [exact Ev2|].
  apply wp_irq_end. set (s3 := set_vts _ s2). assert (vts s3 = vts s) as E3.
  { simpl. rewrite E2. simpl. rewrite list_insert_insert_eq. change (set_locked (set_locked v true) false) with (set_locked v false). assert (set_locked v false = v) as -> by (rewrite <- Hl; now destruct v).
    apply list_insert_id. unfold arr_get in Ev. destruct (i <? 0); [easy|exact Ev]. }
  assert (forall b, let s' := fset if_flag b s3 in inv s' /\ abs s' = Terms (vts s) (Some i) (klog_vt s)) as Hdone.
  { intros b s'. assert (vts s' = vts s) as Ev' by exact E3. assert (pixels s' = pixels s2) as Ep by easy.
    assert (active_vt s' = Some i /\ klog_vt s' = klog_vt s /\ g_ready s' = g_ready s /\ fb_owner s' = fb_owner s) as (Fa & Fk & Fg & Fo) by (unfold s', s3; simpl; now rewrite E2).
    split; [|unfold abs; now rewrite Ev', Fa, Fk]. split; rewrite ?Ev', ?Fa, ?Fk, ?Fg, ?Fo; auto; [split; [easy|unfold framed in *; rewrite Ep, L2; exact I2]|].
    exists i, v. split; [easy|]. split; [exact Ev|]. intros _. now apply (rows_shown_pixels s2). }
  assert (intr s3 = false) as Ei3 by (simpl; rewrite E2; easy). change (fget if_flag s) with (intr s). 
  assert ((if intr s then fset if_flag true s3 else s3) = fset if_flag (intr s) s3) as ->.
  { destruct (intr s); [easy|]. symmetry. now apply intr_same. }
  destruct (Hdone (intr s)) as [J1 J2]. split; [exact J1|]. split; [exact J2|easy].
Qed.

Lemma redirect_ok s i : inv s -> 0 <= i -> wp (vt_klog_redirect i) (λ _ s', inv s' /\ abs s' = spec (OpRedirect i) (abs s) /\ intr s' = intr s) s.
Proof.
  intros Hinv Hi. pose proof Hinv as [I1 I3 I4 I5 I6 I7]. unfold vt_klog_redirect, spec, usable. simpl t_vts.
  destruct (Z.leb_spec NUM_VTS i); [rewrite (proj2 (Z.ltb_ge _ _)) by lia; now apply wp_ret|]. rewrite (proj2 (Z.ltb_lt _ _)) by lia. simpl andb.
  destruct (arr_get_lt (vts s) i ltac:(lia)) as [v Ev]. rewrite Ev. unfold vt_at. apply wp_bind, wp_bind, wp_get. eapply wp_of_option; [exact Ev|]. unfold has_cells.
  destruct (cells v); [|now apply wp_ret]. apply wp_modify. split; [|easy]. split; auto. simpl. intros k [= <-]. lia.
Qed.

Lemma op_ok s o : inv s -> allowed o (abs s) -> wp (run_op o) (λ _ s', inv s' /\ abs s' = spec o (abs s) /\ intr s' = intr s) s.
Proof.
  intros Hinv Ha. destruct o as [k c|c|i|i]; simpl in Ha.
  - now apply vt_write_ok.
  - unfold run_op, vt_write_klog_. apply wp_bind, wp_gets. unfold spec. simpl t_klog. destruct (klog_vt s) as [k|] eqn:Ek; [|now apply wp_ret].
    apply vt_write_ok; auto. now apply (iv_klog s).
  - now apply vt_switch_ok.
  - now apply redirect_ok.
Qed.

Lemma ops_ok os s : inv s -> all_allowed os (abs s) -> wp (run_ops os) (λ _ s', inv s' /\ abs s' = foldl (λ t o, spec o t) (abs s) os /\ intr s' = intr s) s.
Proof.
  revert s. induction os as [|o os IH]; intros s Hinv Ha; [now apply wp_ret|]. destruct Ha as [Ha Hb]. apply wp_bind. eapply wp_mono; [now apply op_ok|]. intros [] s1 (H1 & E1 & F1).
  eapply wp_mono; [apply IH; [exact H1|now rewrite E1]|]. intros [] s2 (H2 & E2 & F2). split; [exact H2|]. rewrite E2, E1, F2. auto.
Qed.
End Whole.

(** * From boot on *)

Section Boot.
Context `{Display}.

Definition font_geometry : geometry :=
  Geo (font32 8) (font32 20) (font32 28) (font32 24) (wrap32 (font32 28 + 7) / 8) (width / font32 28) (height / font32 24).
(** There is a mapped display of 32 bits per pixel, and the font is one the kernel accepts. *)
Record display_found : Prop := {
  df_mapped : fb_mapped = true /\ bpp = 32;
  df_magic : take 4 font = [0x72; 0xB5; 0x4A; 0x86];
  df_font : font32 28 <> 0 /\ font32 24 <> 0 /\ font32 20 <> 0 }.

Definition at_boot : terms :=
  Terms (map (λ i, vt_start i (g_cols font_geometry) (g_rows font_geometry)) (seqZ 0 NUM_VTS)) (Some 0) (Some 0).

Lemma start_ready i : suits font_geometry -> has_cells (vt_start i (g_cols font_geometry) (g_rows font_geometry)) = true ->
  ready_vt font_geometry (vt_start i (g_cols font_geometry) (g_rows font_geometry)).
Proof.
  set (g := font_geometry). clearbody g. intros SU Hc. pose proof (su_cols _ SU). pose proof (su_rows _ SU). unfold has_cells in Hc. unfold vt_start in *. simpl in Hc. destruct (cells_free i); [|easy].
  split; [split| | |]; simpl; try lia; try easy.
  - split; [easy|]. repeat (apply Forall_cons_2; [now split|]). apply Forall_nil_2.
  - unfold grid. simpl. rewrite length_replicate. nia.
Qed.

Lemma wp_fill_vts s f (Q : unit -> console -> Prop) : Z.of_nat (length (vts s)) = NUM_VTS -> Q tt (set_vts (map f (seqZ 0 NUM_VTS)) s) -> wp (for_range 0 NUM_VTS (λ i, vt_upd i (λ _, f i))) Q s.
Proof.
  unfold NUM_VTS. intros Hlen HQ. destruct s as [p g l a kl o w i]. simpl in Hlen. destruct l as [|v0 [|v1 [|v2 [|v3 [|v4 [|v5 [|]]]]]]]; try (simpl in Hlen; lia).
  unfold for_range. change (Z.to_nat (6 - 0)) with 6%nat. cbn [count_up]. repeat (apply wp_bind; eapply wp_upd_at; [reflexivity|]). exact HQ.
Qed.

Lemma started_list (f : Z -> vt_t) : let L := map f (seqZ 0 NUM_VTS) in
  Z.of_nat (length L) = NUM_VTS /\ (forall k v, arr_get L k = Some v -> exists i, v = f i) /\ arr_get L 0 = Some (f 0).
Proof.
  cbv zeta. split; [reflexivity|]. split; [|reflexivity]. intros k v. unfold arr_get. destruct (k <? 0); [easy|].
  intros Hv%list_elem_of_lookup_2. apply list_elem_of_fmap in Hv as (i & -> & _). eauto.
Qed.

Lemma cells_on_display g : suits g -> forall r c, 0 <= r < g_rows g -> 0 <= c < g_cols g -> 0 <= c * g_glyph_w g /\ c * g_glyph_w g + g_glyph_w g <= 0 + width /\
  0 <= r * g_glyph_h g /\ r * g_glyph_h g + g_glyph_h g <= 0 + height.
Proof. intros SU r c Hr Hc. pose proof (su_cols _ SU). pose proof (su_rows _ SU). pose proof (su_glyph _ SU). nia. Qed.

Lemma vt_init_ok s : display_found -> suits font_geometry -> framed s -> Z.of_nat (length (vts s)) = NUM_VTS -> fb_owner s = 0 ->
  wp vt_init_all (λ _ s', inv font_geometry s' /\ abs s' = at_boot /\ intr s' = intr s) s.
Proof.
  intros [[D1 D2] D3 (D4 & D5 & D6)] SU Hf Hlen Ho. pose proof (su_cols _ SU). pose proof (su_rows _ SU). pose proof (su_glyph _ SU). unfold vt_init_all, fb_console_init. apply wp_bind.
  rewrite D1, D2. simpl negb. simpl orb. cbv iota. rewrite bool_decide_true by exact D3. simpl negb. cbv iota.
  destruct (Z.eqb_spec (font32 28) 0); [easy|]. destruct (Z.eqb_spec (font32 24) 0); [easy|]. destruct (Z.eqb_spec (font32 20) 0); [easy|]. simpl orb. cbv iota. fold font_geometry. set (g := font_geometry) in *.
  apply wp_bind, wp_modify, wp_bind. unfold fb_clear_all. apply wp_bind, wp_gets. simpl g_ready. set (s1 := set_ready _ s). assert (framed s1) as F1 by exact Hf.
  eapply wp_mono; [apply (fill_rect_ok g SU s1 0 0 width height (pack_palette 0) F1); nia|]. intros [] s2 D. pose proof (drawn_same _ _ _ _ D) as [E2 L2]. apply wp_ret. simpl negb. cbv iota.
  assert (vts s2 = vts s) as Ev by now rewrite E2. assert (g_ready s2 = Some g /\ fb_owner s2 = 0 /\ intr s2 = intr s) as (G2 & O2 & I2) by now rewrite E2. clear E2 D.
  destruct (started_list (λ i, vt_start i (g_cols g) (g_rows g))) as (N1 & N2 & N3). unfold at_boot in *. fold g. set (L := map _ _) in *.
  apply wp_bind. apply (wp_fill_vts s2 (λ i, vt_start i (g_cols g) (g_rows g))); [now rewrite Ev|]. fold L. clearbody L. set (v := vt_start 0 _ _) in *.
  apply wp_bind, wp_modify, wp_bind, wp_modify. unfold vt_at. apply wp_bind, wp_bind, wp_get. eapply wp_of_option; [exact N3|]. set (s3 := set_klog _ _).
  assert (framed s3) as F3 by (unfold framed in *; change (pixels s3) with (pixels s2); now rewrite L2). apply wp_bind, wp_gets. change (g_ready s3) with (g_ready s2). rewrite G2.
  eapply wp_mono; [apply (fill_rect_ok g SU s3 0 0 width height (pack_palette (cur_bg v)) F3); nia|]. intros [] s4 D. pose proof (drawn_same _ _ _ _ D) as [E4 L4].
  assert (vts s4 = L /\ active_vt s4 = Some 0 /\ klog_vt s4 = Some 0 /\ g_ready s4 = Some g /\ fb_owner s4 = 0 /\ intr s4 = intr s) as (V4 & A4 & K4 & G4 & O4 & J4) by (rewrite E4; easy).
  split; [|split; [unfold abs; now rewrite V4, A4, K4|exact J4]]. split; rewrite ?V4, ?A4, ?K4; auto.
  - split; [exact G4|]. unfold framed in *. now rewrite L4.
  - intros k w Hw. destruct (N2 k w Hw) as [i ->]. split; [easy|]. now apply start_ready.
  - intros k [= <-]. unfold NUM_VTS. lia.
  - exists 0, v. split; [easy|]. split; [exact N3|]. intros Hc. destruct (start_ready 0 SU Hc) as [_ _ Hl _]. fold g in Hl. fold v in Hl. revert Hl. unfold grid. unfold v, vt_start, has_cells in *. cbn [cells cur_bg] in *.
    destruct (cells_free 0); [|easy]. cbn [default from_option id]. rewrite length_replicate. intros Hl. exact (shown_spaces g SU s3 s4 DEFAULT_FG DEFAULT_BG _ 0 0 width height F3 (cells_on_display g SU) Hl D).
Qed.

(** C32. After the terminals are set up, whatever bytes are written to any of
    them, including escape sequences and kernel log output, and however the
    display is switched between them, as long as no tab reaches the end of a row
    and no task owns the framebuffer: nothing goes out of bounds, every terminal
    is the grid that the reference terminal computes from its bytes, and every
    pixel of every cell on the display is that of the active terminal's cell. *)
Theorem console_shows_terminals s os : display_found -> suits font_geometry -> framed s -> Z.of_nat (length (vts s)) = NUM_VTS -> fb_owner s = 0 -> all_allowed os at_boot ->
  wp (vt_init_all;; run_ops os) (λ _ s', abs s' = foldl (λ t o, spec o t) at_boot os /\ intr s' = intr s /\
    exists k v, active_vt s' = Some k /\ arr_get (vts s') k = Some v /\ (has_cells v = true -> rows_shown font_geometry s' (grid v) (g_rows font_geometry))) s.
Proof.
  intros Hd SU Hf Hlen Ho Ha. apply wp_bind. eapply wp_mono; [now apply vt_init_ok|]. intros [] s1 (I1 & E1 & F1).
  eapply wp_mono; [apply (ops_ok font_geometry SU os s1 I1); now rewrite E1|]. intros [] s2 (I2 & E2 & F2). split; [congruence|]. split; [congruence|]. exact (iv_shown _ _ I2).
Qed.
End Boot.

(** * A small display *)
Module Demo.
(** 2x2 glyphs, the space empty; 4 columns and 2 rows. *)
Definition glyphs : list Z := concat (map (λ i, if i =? 32 then [0; 0] else [192; i]) (seqZ 0 127)).
Definition header : list Z := [0x72; 0xB5; 0x4A; 0x86] ++ concat (map (le_encode 4) [0; 32; 0; 127; 2; 2; 2]).
#[export] Instance disp : Display := Disp true 32 32 8 4 8 8 8 16 8 0 (header ++ glyphs) (λ _, true).
Definition s : console := Con (replicate 32 0) None (replicate 6 (Vt false 0 0 None 0 0 0 0 false VT_GROUND [] 0 false)) None None 0 [] true.

Lemma disp_suits : suits font_geometry.
Proof.
  change font_geometry with (Geo 32 2 2 2 1 4 2). split; cbn [g_glyphs g_bytes_per_glyph g_glyph_w g_glyph_h g_bytes_per_row g_cols g_rows]; try (split; vm_compute; easy); try (vm_compute; easy).
  - intros i gx gy Hi Hx Hy. apply arr_get_lt. replace (Z.of_nat (length _)) with 286 by (vm_compute; reflexivity). assert (Z.shiftr gx 3 = 0) as -> by (rewrite Z.shiftr_div_pow2 by lia; apply Z.div_small; simpl; lia). lia.
  - intros gx gy b Hx Hy. assert (gx = 0 \/ gx = 1) as [-> | ->] by lia; assert (gy = 0 \/ gy = 1) as [-> | ->] by lia; vm_compute; now intros [= <-].
Qed.
End Demo.

(** A tab that reaches the end of the last row leaves the cursor outside the
    grid: the next character is stored past the last cell. *)
Lemma tab_at_edge_overruns : (@vt_init_all Demo.disp;; @run_ops Demo.disp [OpWrite 0 10; OpWrite 0 9; OpWrite 0 120]) Demo.s = None.
Proof. vm_compute. reflexivity. Qed.

(** A coloured character, a line feed on the last row, and a switch. *)
Lemma console_shows_terminals_witness : let os := [OpWrite 0 27; OpWrite 0 91; OpWrite 0 51; OpWrite 0 49; OpWrite 0 109; OpWrite 0 65; OpWrite 0 10; OpWrite 0 10; OpWrite 1 66; OpSwitch 1] in
  wp (@vt_init_all Demo.disp;; @run_ops Demo.disp os) (λ _ s', abs s' = foldl (λ t o, spec o t) (@at_boot Demo.disp) os /\ intr s' = true /\
    exists k v, active_vt s' = Some k /\ arr_get (vts s') k = Some v /\ (has_cells v = true -> @rows_shown Demo.disp (@font_geometry Demo.disp) s' (grid v) 2)) Demo.s.
Proof.
  apply (@console_shows_terminals Demo.disp Demo.s); [split; vm_compute; easy|apply Demo.disp_suits|vm_compute; easy|reflexivity|reflexivity|].
  simpl. unfold tab_fits, within, NUM_VTS. repeat (split; [try (split; [lia|]); try (intros v Hv Hp Ht; discriminate); try lia|]). exact I.
Defined.
