(* ===== verification/Term.v ===== *)
(** The terminal emulator (user/term.c): the screen it draws in the mapped
    framebuffer, the parser of the bytes that come from the pty, the overlays
    (caret, selection, pointer), the keyboard, the clipboard, and the frames
    of its event pipe.

    The cells, the cursor, the colours and the parser's variables are those of
    a kernel terminal ([vt_t] of Vt.v, without a lock), the font's variables a
    [geometry], what /dev/fb reports and the font a [Display]. A flag and the
    variables that are read only when it is set are one option: [cursor_visible]
    with its row and column, [pp_visible] with its own, [sp_visible] with
    [sp_lo] and [sp_hi]. *)

From S2P Require Import Prelude BitMath Bytes CMem Vt.

Record mouse_t := Mouse { mx_px : Z; my_px : Z; mp_row : Z; mp_col : Z; prev_btns : Z }.
Record select_t := Sel { have_selection : bool; sel_anchor : Z; sel_head : Z }.
Record kbd_t := Kbd { mods : Z; pending_extended : bool; kbd_shortcut : Z }.
Record term := Term {
  fb_pixels : list Z;
  tv : vt_t;
  caret : option (Z * Z);
  pp : option (Z * Z);
  sp : option (Z * Z);
  blink_on : bool;
  mouse : mouse_t;
  sel : select_t;
  clipboard : list Z;        (** the first [clip_len] bytes *)
  kbd : kbd_t;
  to_pty : list Z }.         (** what was written to the pty so far *)

Section Setters.
Context (t : term).
Definition set_fb x : term := Term x (tv t) (caret t) (pp t) (sp t) (blink_on t) (mouse t) (sel t) (clipboard t) (kbd t) (to_pty t).
Definition set_tv x : term := Term (fb_pixels t) x (caret t) (pp t) (sp t) (blink_on t) (mouse t) (sel t) (clipboard t) (kbd t) (to_pty t).
Definition set_caret x : term := Term (fb_pixels t) (tv t) x (pp t) (sp t) (blink_on t) (mouse t) (sel t) (clipboard t) (kbd t) (to_pty t).
Definition set_pp x : term := Term (fb_pixels t) (tv t) (caret t) x (sp t) (blink_on t) (mouse t) (sel t) (clipboard t) (kbd t) (to_pty t).
Definition set_sp x : term := Term (fb_pixels t) (tv t) (caret t) (pp t) x (blink_on t) (mouse t) (sel t) (clipboard t) (kbd t) (to_pty t).
Definition set_blink x : term := Term (fb_pixels t) (tv t) (caret t) (pp t) (sp t) x (mouse t) (sel t) (clipboard t) (kbd t) (to_pty t).
Definition set_mouse x : term := Term (fb_pixels t) (tv t) (caret t) (pp t) (sp t) (blink_on t) x (sel t) (clipboard t) (kbd t) (to_pty t).
Definition set_sel x : term := Term (fb_pixels t) (tv t) (caret t) (pp t) (sp t) (blink_on t) (mouse t) x (clipboard t) (kbd t) (to_pty t).
Definition set_clipboard x : term := Term (fb_pixels t) (tv t) (caret t) (pp t) (sp t) (blink_on t) (mouse t) (sel t) x (kbd t) (to_pty t).
Definition set_kbd x : term := Term (fb_pixels t) (tv t) (caret t) (pp t) (sp t) (blink_on t) (mouse t) (sel t) (clipboard t) x (to_pty t).
Definition set_to_pty x : term := Term (fb_pixels t) (tv t) (caret t) (pp t) (sp t) (blink_on t) (mouse t) (sel t) (clipboard t) (kbd t) x.
End Setters.

(** The same routine as [memcpy] of util/memory.c. Below it moves whole cells
    and pixels, to lower addresses of their array. *)
Definition my_memcpy (dst src n : Z) : M memory unit := memcpy dst src n.

Section Terminal.
Context `{Display} (g : geometry).
Abbreviation term_cols := (g_cols g).
Abbreviation term_rows := (g_rows g).

(** * Framebuffer rendering *)

Definition cga : list Z :=
  [0x000000; 0x0000AA; 0x00AA00; 0x00AAAA; 0xAA0000; 0xAA00AA; 0xAA5500; 0xAAAAAA;
   0x555555; 0x5555FF; 0x55FF55; 0x55FFFF; 0xFF5555; 0xFF55FF; 0xFFFF55; 0xFFFFFF].
Definition pack_color (idx : Z) : Z :=
  let rgb := nth (Z.to_nat (Z.land idx 0x0F)) cga 0 in
  let r := Z.land (Z.shiftr rgb 16) 0xFF in
  let gr := Z.land (Z.shiftr rgb 8) 0xFF in
  let b := Z.land rgb 0xFF in
  Z.lor (Z.lor (Z.shiftl r 16) (Z.shiftl gr 8)) b.

Definition store_px (i v : Z) : M term unit :=
  let* t := get in let* p := of_option (arr_set (fb_pixels t) i v) in modify (λ t, set_fb t p).

Definition blit_cell (row col : Z) (cell : vt_cell_t) : M term unit :=
  if (term_rows <=? row) || (term_cols <=? col) then ret tt
  else
    let fgp := pack_color (fg cell) in
    let bgp := pack_color (bg cell) in
    let idx := if (ch cell <? 32) || (126 <? ch cell) then 63 else ch cell in
    let glyph := g_glyphs g + idx * g_bytes_per_glyph g in
    let px_x := col * g_glyph_w g in
    let px_y := row * g_glyph_h g in
    for_range 0 (g_glyph_h g) (λ gy,
      let line := glyph + gy * g_bytes_per_row g in
      let prow := (px_y + gy) * pitch_px + px_x in
      for_range 0 (g_glyph_w g) (λ gx,
        let bit := 7 - Z.land gx 7 in
        let* byte := of_option (arr_get font (line + Z.shiftr gx 3)) in
        store_px (prow + gx) (if negb (Z.land byte (Z.shiftl 1 bit) =? 0) then fgp else bgp))).

Definition fill_rect (px_x px_y w h pix : Z) : M term unit :=
  for_range 0 h (λ dy, for_range 0 w (λ dx, store_px ((px_y + dy) * pitch_px + px_x + dx) pix)).

Definition cell_at (i : Z) : M term vt_cell_t :=
  let* t := get in
  let* cs := of_option (cells (tv t)) in
  of_option (arr_get cs i).
Definition cell_put (i : Z) (c : vt_cell_t) : M term unit :=
  let* t := get in
  let* cs := of_option (cells (tv t)) in
  let* cs := of_option (arr_set cs i c) in
  modify (λ t, set_tv t (set_cells (tv t) (Some cs))).

(** The overlays are forgotten, not erased. *)
Definition no_overlays : M term unit := modify (λ t, set_pp (set_sp (set_caret t None) None) None).

Definition clear_screen : M term unit :=
  let* v := gets tv in
  fill_rect 0 0 width height (pack_color (cur_bg v));;
  for_range 0 (term_rows * term_cols) (λ i, cell_put i (blank v));;
  no_overlays.

Definition redraw_all : M term unit :=
  let* v := gets tv in
  fill_rect 0 0 width height (pack_color (cur_bg v));;
  for_range 0 term_rows (λ row, for_range 0 term_cols (λ col,
    let* c := cell_at (row * term_cols + col) in blit_cell row col c));;
  no_overlays.

(** * Overlays *)

Definition inverted (c : vt_cell_t) : vt_cell_t := Cell (ch c) (bg c) (fg c).
Definition blit_inverted (row col : Z) : M term unit :=
  let* c := cell_at (row * term_cols + col) in blit_cell row col (inverted c).
Definition blit_plain (row col : Z) : M term unit :=
  let* c := cell_at (row * term_cols + col) in blit_cell row col c.

Definition sel_logical (s : select_t) : option (Z * Z) :=
  if have_selection s then
    Some (if sel_anchor s <? sel_head s then (sel_anchor s, sel_head s) else (sel_head s, sel_anchor s))
  else None.

(** [sp_visible && idx >= sp_lo && idx <= sp_hi], [pp_visible && row == pp_row && col == pp_col] *)
Definition in_range (o : option (Z * Z)) (idx : Z) : bool :=
  match o with Some (lo, hi) => (lo <=? idx) && (idx <=? hi) | None => false end.
Definition at_cell (o : option (Z * Z)) (row col : Z) : bool :=
  match o with Some (r, c) => (row =? r) && (col =? c) | None => false end.

(** The caret's cell without the caret, by what is painted. *)
Definition restore_cell (row col : Z) : M term unit :=
  let* t := get in
  let o_sel := in_range (sp t) (row * term_cols + col) in
  let o_ptr := at_cell (pp t) row col in
  let o_inv := if o_ptr && o_sel then false else o_ptr || o_sel in
  if o_inv then blit_inverted row col else blit_plain row col.

Definition caret_redraw : M term unit :=
  let* t := get in
  let v := tv t in
  if (term_rows <=? cur_row v) || (term_cols <=? cur_col v) then ret tt
  else if blink_on t then
    if at_cell (caret t) (cur_row v) (cur_col v) then ret tt
    else
      match caret t with Some (r, c) => restore_cell r c | None => ret tt end;;
      fill_rect (cur_col v * g_glyph_w g) (cur_row v * g_glyph_h g) (g_glyph_w g) (g_glyph_h g) (pack_color (cur_fg v));;
      modify (λ t, set_caret t (Some (cur_row v, cur_col v)))
  else
    match caret t with
    | Some (r, c) => restore_cell r c;; modify (λ t, set_caret t None)
    | None => ret tt
    end.

Definition reconcile_selection : M term unit :=
  let* t := get in
  let now := sel_logical (sel t) in
  match sp t with
  | Some (lo, hi) =>
      for_range lo (hi + 1) (λ idx,
        when (negb (in_range now idx)) (
          let* c := cell_at idx in blit_cell (idx / term_cols) (idx mod term_cols) c))
  | None => ret tt
  end;;
  match now with
  | Some (n_lo, n_hi) =>
      for_range n_lo (n_hi + 1) (λ idx,
        when (negb (in_range (sp t) idx)) (blit_inverted (idx / term_cols) (idx mod term_cols)));;
      modify (λ t, set_sp t now)
  | None => modify (λ t, set_sp t None)
  end.

(** Old pointer cell: left to the caret, to the selection, or plain. *)
Definition erase_pointer : M term unit :=
  let* t := get in
  match pp t with
  | Some (r, c) =>
      when ((r <? term_rows) && (c <? term_cols)) (
        if at_cell (caret t) r c then ret tt
        else if in_range (sp t) (r * term_cols + c) then blit_inverted r c
        else blit_plain r c);;
      modify (λ t, set_pp t None)
  | None => ret tt
  end.
Definition paint_pointer : M term unit :=
  let* t := get in
  let r := mp_row (mouse t) in
  let c := mp_col (mouse t) in
  when ((r <? term_rows) && (c <? term_cols)) (
    (if at_cell (caret t) r c then ret tt
     else if in_range (sp t) (r * term_cols + c) then blit_plain r c
     else blit_inverted r c);;
    modify (λ t, set_pp t (Some (r, c)))).
Definition reconcile_pointer : M term unit := erase_pointer;; paint_pointer.

Definition overlays_full_repaint : M term unit :=
  modify (λ t, set_pp (set_sp t None) None);;
  reconcile_selection;;
  reconcile_pointer;;
  caret_redraw.

(** [my_memcpy(cells, cells + n, m * sizeof(vt_cell_t))] *)
Definition cells_down (n m : Z) : M term unit :=
  let* t := get in
  let* cs := of_option (cells (tv t)) in
  if (n <? 0) || (m <? 0) || (Z.of_nat (length cs) <? n + m) then undef
  else modify (λ t, set_tv t (set_cells (tv t) (Some (take (Z.to_nat m) (drop (Z.to_nat n) cs) ++ drop (Z.to_nat m) cs)))).
(** [my_memcpy(base + dst, base + src, n * sizeof(unsigned int))], [dst] below [src]. *)
Definition px_down (dst src n : Z) : M term unit :=
  let* t := get in
  let p := fb_pixels t in
  if (dst <? 0) || (src <? dst) || (n <? 0) || (Z.of_nat (length p) <? src + n) then undef
  else modify (λ t, set_fb t (take (Z.to_nat dst) p ++ take (Z.to_nat n) (drop (Z.to_nat src) p) ++ drop (Z.to_nat (dst + n)) p)).

(** The overlaid cells as plain text, before the pixels move. *)
Definition erase_overlays : M term unit :=
  let* t := get in
  match caret t with
  | Some (r, c) => when ((r <? term_rows) && (c <? term_cols)) (blit_plain r c)
  | None => ret tt
  end;;
  match pp t with
  | Some (r, c) => when ((r <? term_rows) && (c <? term_cols) && negb (at_cell (caret t) r c)) (blit_plain r c)
  | None => ret tt
  end;;
  match sp t with
  | Some (lo, hi) =>
      for_range lo (hi + 1) (λ idx,
        let r := idx / term_cols in
        let c := idx mod term_cols in
        if at_cell (caret t) r c then ret tt
        else if at_cell (pp t) r c then ret tt
        else let* cell := cell_at idx in blit_cell r c cell)
  | None => ret tt
  end.

Definition scroll_one : M term unit :=
  let* t := get in
  erase_overlays;;
  cells_down term_cols ((term_rows - 1) * term_cols);;
  for_range 0 term_cols (λ c, cell_put ((term_rows - 1) * term_cols + c) (blank (tv t)));;
  let row_px := term_cols * g_glyph_w g in
  for_range 0 ((term_rows - 1) * g_glyph_h g) (λ y, px_down (y * pitch_px) ((y + g_glyph_h g) * pitch_px) row_px);;
  fill_rect 0 ((term_rows - 1) * g_glyph_h g) (term_cols * g_glyph_w g) (g_glyph_h g) (pack_color (cur_bg (tv t)));;
  no_overlays;;
  modify (λ t, set_sel t (Sel false (sel_anchor (sel t)) (sel_head (sel t)))).

(** * The parser *)

Definition tv_upd (f : vt_t -> vt_t) : M term unit := modify (λ t, set_tv t (f (tv t))).

Definition newline : M term unit :=
  tv_upd (λ v, set_cursor v (cur_row v + 1) 0);;
  let* v := gets tv in
  when (term_rows <=? cur_row v) (
    scroll_one;;
    tv_upd (λ v, set_cursor v (term_rows - 1) (cur_col v))).

(** A cell is stored and drawn. *)
Definition put_cell (row col : Z) (c : vt_cell_t) : M term unit :=
  cell_put (row * term_cols + col) c;; blit_cell row col c.
Definition put_glyph_at_cursor (c : Z) : M term unit :=
  let* v := gets tv in put_cell (cur_row v) (cur_col v) (cell_of v c).

Definition param_or (v : vt_t) (i def : Z) : M term Z :=
  if n_params v <=? i then ret def else of_option (arr_get (params v) i).

Definition apply_sgr : M term unit :=
  let* v := gets tv in
  let count := if n_params v =? 0 then 1 else n_params v in
  for_range 0 count (λ i,
    let* v := gets tv in
    let* p := if i <? n_params v then of_option (arr_get (params v) i) else ret 0 in
    tv_upd (sgr p));;
  let* v := gets tv in
  when (cur_bold v) (tv_upd (λ v, set_sgr v (Z.lor (cur_fg v) 8) (cur_bg v) (cur_bold v))).

Definition clear_line_to_eol : M term unit :=
  let* v := gets tv in for_range (cur_col v) term_cols (λ c, put_cell (cur_row v) c (blank v)).
Definition clear_to_end_of_display : M term unit :=
  let* v := gets tv in
  for_range (cur_col v) term_cols (λ c, put_cell (cur_row v) c (blank v));;
  for_range (cur_row v + 1) term_rows (λ r, for_range 0 term_cols (λ c, put_cell r c (blank v))).

(** The parameter of a movement, at least 1. *)
Definition param_1 (v : vt_t) (i : Z) : M term Z := let* n := param_or v i 1 in ret (if n =? 0 then 1 else n).

Definition dispatch_csi (final : Z) : M term unit :=
  let* v := gets tv in
  if final =? 65 then                                             (* A *)
    let* n := param_1 v 0 in
    tv_upd (λ v, set_cursor v (if n <? cur_row v then cur_row v - n else 0) (cur_col v))
  else if final =? 66 then                                        (* B *)
    let* n := param_1 v 0 in
    tv_upd (λ v, set_cursor v (if term_rows <=? cur_row v + n then term_rows - 1 else cur_row v + n) (cur_col v))
  else if final =? 67 then                                        (* C *)
    let* n := param_1 v 0 in
    tv_upd (λ v, set_cursor v (cur_row v) (if term_cols <=? cur_col v + n then term_cols - 1 else cur_col v + n))
  else if final =? 68 then                                        (* D *)
    let* n := param_1 v 0 in
    tv_upd (λ v, set_cursor v (cur_row v) (if n <? cur_col v then cur_col v - n else 0))
  else if (final =? 72) || (final =? 102) then                    (* H f *)
    let* row := param_1 v 0 in
    let* col := param_1 v 1 in
    tv_upd (λ v, set_cursor v ((if term_rows <? row then term_rows else row) - 1) ((if term_cols <? col then term_cols else col) - 1))
  else if final =? 74 then                                        (* J *)
    let* mode := param_or v 0 0 in
    if mode =? 0 then clear_to_end_of_display
    else when (mode =? 2) (clear_screen;; tv_upd (λ v, set_cursor v 0 0))
  else if final =? 75 then                                        (* K *)
    let* mode := param_or v 0 0 in
    when (mode =? 0) clear_line_to_eol
  else when (final =? 109) apply_sgr.                             (* m *)

Definition reset_csi : M term unit := tv_upd (λ v, set_params v (replicate 8 0) 0 false).

Definition ground_byte (c : Z) : M term unit :=
  let* v := gets tv in
  if c =? 27 then tv_upd (λ v, set_pstate v VT_ESC)
  else if c =? 10 then newline
  else if c =? 13 then tv_upd (λ v, set_cursor v (cur_row v) 0)
  else if c =? 8 then
    when (0 <? cur_col v) (
      tv_upd (λ v, set_cursor v (cur_row v) (cur_col v - 1));;
      put_cell (cur_row v) (cur_col v - 1) (blank v))
  else if c =? 9 then
    let next := Z.land (cur_col v + 4) (2 ^ 64 - 4) in
    let next := if term_cols <? next then term_cols else next in
    for_range (cur_col v) next (λ _, put_glyph_at_cursor 32;; tv_upd (λ v, set_cursor v (cur_row v) (cur_col v + 1)))
  else
    put_glyph_at_cursor c;;
    tv_upd (λ v, set_cursor v (cur_row v) (cur_col v + 1));;
    let* v := gets tv in
    when (term_cols <=? cur_col v) newline.

Definition csi_byte (c : Z) : M term unit :=
  let* v := gets tv in
  if (48 <=? c) && (c <=? 57) then
    when (n_params v <? 8) (
      let* p := of_option (arr_get (params v) (n_params v)) in
      let* ps := of_option (arr_set (params v) (n_params v) (wrap32 (wrap32 (p * 10) + (c - 48)))) in
      tv_upd (λ v, set_params v ps (n_params v) true))
  else if c =? 59 then
    tv_upd (λ v, set_params v (params v) (if has_param v || (n_params v <? 8) then n_params v + 1 else n_params v) false)
  else when ((64 <=? c) && (c <=? 126)) (
    tv_upd (λ v, set_params v (params v) (if has_param v then n_params v + 1 else n_params v) (has_param v));;
    dispatch_csi c;;
    tv_upd (λ v, set_pstate v VT_GROUND)).

(** The byte is 0 to 255. *)
Definition vt_input_byte (c : Z) : M term unit :=
  let* v := gets tv in
  match pstate v with
  | VT_GROUND => ground_byte c
  | VT_ESC => if c =? 91 then tv_upd (λ v, set_pstate v VT_CSI);; reset_csi else tv_upd (λ v, set_pstate v VT_GROUND)
  | VT_CSI => csi_byte c
  end.

(** * The keyboard *)

(** US scancode set 1; codes beyond the lists have no character. *)
Definition kbd_us : list Z :=
  [0; 27; 49; 50; 51; 52; 53; 54; 55; 56; 57; 48; 45; 61; 8;
   9; 113; 119; 101; 114; 116; 121; 117; 105; 111; 112; 91; 93; 10;
   0; 97; 115; 100; 102; 103; 104; 106; 107; 108; 59; 39; 96;
   0; 92; 122; 120; 99; 118; 98; 110; 109; 44; 46; 47;
   0; 42; 0; 32].
Definition kbd_us_shift : list Z :=
  [0; 27; 33; 64; 35; 36; 37; 94; 38; 42; 40; 41; 95; 43; 8;
   9; 81; 87; 69; 82; 84; 89; 85; 73; 79; 80; 123; 125; 10;
   0; 65; 83; 68; 70; 71; 72; 74; 75; 76; 58; 34; 126;
   0; 124; 90; 88; 67; 86; 66; 78; 77; 60; 62; 63;
   0; 42; 0; 32].
Definition MOD_SHIFT : Z := 1.
Definition MOD_CTRL : Z := 2.
Definition MOD_ALT : Z := 4.

Definition has_mod (m x : Z) : bool := negb (Z.land m x =? 0).
(** A modifier's key went up or down. *)
Definition mod_key (release : bool) (x : Z) (k : kbd_t) : kbd_t :=
  Kbd (if release then Z.land (mods k) (255 - x) else Z.lor (mods k) x) (pending_extended k) (kbd_shortcut k).
Definition ctrl_fold (c : Z) : Z :=
  if (97 <=? c) && (c <=? 122) then c - 97 + 1 else if (65 <=? c) && (c <=? 90) then c - 65 + 1 else c.
(** The final byte of an arrow's sequence, Home's or End's. *)
Definition extended_final (code : Z) : option Z :=
  if code =? 0x48 then Some 65 else if code =? 0x50 then Some 66 else if code =? 0x4D then Some 67
  else if code =? 0x4B then Some 68 else if code =? 0x47 then Some 72 else if code =? 0x4F then Some 70 else None.

(** The new state of the keyboard and the bytes of [out]. *)
Definition translate_one (sc : Z) (k : kbd_t) : kbd_t * list Z :=
  if sc =? 0xE0 then (Kbd (mods k) true (kbd_shortcut k), [])
  else
    let extended := pending_extended k in
    let k := Kbd (mods k) false (kbd_shortcut k) in
    let release := negb (Z.land sc 0x80 =? 0) in
    let code := Z.land sc 0x7F in
    if (code =? 0x2A) || (code =? 0x36) then (mod_key release MOD_SHIFT k, [])
    else if code =? 0x1D then (mod_key release MOD_CTRL k, [])
    else if code =? 0x38 then (mod_key release MOD_ALT k, [])
    else if release then (k, [])
    else
      let both := (Z.land (mods k) (Z.lor MOD_SHIFT MOD_CTRL) =? Z.lor MOD_SHIFT MOD_CTRL) && negb extended in
      if both && (code =? 0x2E) then (Kbd (mods k) false 1, [])
      else if both && (code =? 0x2F) then (Kbd (mods k) false 2, [])
      else if negb extended && (code =? 0x1C) && has_mod (mods k) MOD_SHIFT && negb (has_mod (mods k) MOD_CTRL) then (k, [0x1E])
      else if extended then
        match extended_final code with Some f => (k, [27; 91; f]) | None => (k, []) end
      else
        let c := nth (Z.to_nat code) (if has_mod (mods k) MOD_SHIFT then kbd_us_shift else kbd_us) 0 in
        if c =? 0 then (k, [])
        else (k, [if has_mod (mods k) MOD_CTRL then ctrl_fold c else c]).

(** * The clipboard *)

Definition CLIP_CAP : Z := 4096.

(** The characters of [n] cells from [i]. *)
Fixpoint chars_at (n : nat) (i : Z) : M term (list Z) :=
  match n with
  | O => ret []
  | S n => let* c := cell_at i in let* l := chars_at n (i + 1) in ret (ch c :: l)
  end.
(** One past the last character that is not a space, 0 when there is none. *)
Fixpoint text_end (l : list Z) (i acc : nat) : nat :=
  match l with [] => acc | c :: l => text_end l (S i) (if c =? 32 then acc else S i) end.

(** The rows from [row], [n] of them, the last one [hi_row]. *)
Fixpoint copy_rows (n : nat) (lo hi row : Z) (out : list Z) : M term (list Z) :=
  match n with
  | O => ret out
  | S n =>
      if CLIP_CAP <=? Z.of_nat (length out) then ret out
      else
        let lo_row := lo / term_cols in
        let hi_row := hi / term_cols in
        let c0 := if row =? lo_row then lo mod term_cols else 0 in
        let c1 := if row =? hi_row then hi mod term_cols else term_cols - 1 in
        let* l := chars_at (Z.to_nat (c1 - c0 + 1)) (row * term_cols + c0) in
        let out := out ++ take (Z.to_nat CLIP_CAP - length out) (take (text_end l 0 0) l) in
        let out := if negb (row =? hi_row) && (Z.of_nat (length out) <? CLIP_CAP) then out ++ [10] else out in
        copy_rows n lo hi (row + 1) out
  end.
Definition clipboard_copy_selection : M term unit :=
  let* t := get in
  match sel_logical (sel t) with
  | None => modify (λ t, set_clipboard t [])
  | Some (lo, hi) =>
      let lo_row := lo / term_cols in
      let hi_row := hi / term_cols in
      let* out := copy_rows (Z.to_nat (hi_row - lo_row + 1)) lo hi lo_row [] in
      modify (λ t, set_clipboard t out)
  end.

(** [ptmx sent chunk] is the result of writing [chunk] to the pty after [sent]. *)
Section Pty.
Context (ptmx : list Z -> list Z -> Z).

Definition write_pty (l : list Z) : M term Z :=
  let* t := get in
  let w := ptmx (to_pty t) l in
  modify (λ t, set_to_pty t (to_pty t ++ take (Z.to_nat w) l));;
  ret w.
Definition pasted (c : Z) : Z := if c =? 10 then 0x1E else c.
Definition paste_step (clip : list Z) (sent : Z) : M term (Z + unit) :=
  if Z.of_nat (length clip) <=? sent then ret (inr tt)
  else
    let* w := write_pty (map pasted (take 64 (drop (Z.to_nat sent) clip))) in
    if w <=? 0 then ret (inr tt) else ret (inl (sent + w)).
Definition clipboard_paste : M term unit :=
  let* clip := gets clipboard in
  if Z.of_nat (length clip) =? 0 then ret tt else loop (S (length clip)) (paste_step clip) 0.

(** * The mouse *)

(** What [handle_mouse] returns and leaves; positions fit [long]. *)
Definition clip_to (x hi : Z) : Z := let x := if x <? 0 then 0 else x in if hi <? x then hi else x.
Definition handle_mouse (dx dy buttons : Z) (m : mouse_t) (s : select_t) : bool * mouse_t * select_t :=
  let x := clip_to (mx_px m + dx) (width - 1) in
  let y := clip_to (my_px m + dy) (height - 1) in
  let row := y / g_glyph_h g in
  let col := x / g_glyph_w g in
  let row := if term_rows <=? row then term_rows - 1 else row in
  let col := if term_cols <=? col then term_cols - 1 else col in
  let here := row * term_cols + col in
  let changed := Z.testbit (Z.lxor buttons (prev_btns m)) 0 in
  let down := Z.testbit buttons 0 in
  let s' :=
    if changed && down then Sel true here here
    else if down then Sel true (sel_anchor s) here
    else if changed && (sel_anchor s =? sel_head s) then Sel false (sel_anchor s) (sel_head s)
    else s in
  let moved := negb (row =? mp_row m) || negb (col =? mp_col m) in
  let reselected := negb (Bool.eqb (have_selection s') (have_selection s)) ||
    (have_selection s' && (negb (sel_anchor s' =? sel_anchor s) || negb (sel_head s' =? sel_head s))) in
  (moved || reselected, Mouse x y row col buttons, s').

(** * The render loop *)

(** What [read_exact] hands the loop: a frame, or -EINTR after SIGWINCH, when
    the framebuffer may hold anything. *)
Inductive event :=
| EvPty (bytes : list Z)
| EvKbd (scancode : Z)
| EvMouse (dx dy buttons : Z)
| EvBlink
| EvWinch (pixels : list Z).

Fixpoint input_bytes (l : list Z) : M term unit :=
  match l with [] => ret tt | c :: l => vt_input_byte c;; input_bytes l end.

Definition handle_event (e : event) : M term unit :=
  match e with
  | EvPty l =>
      input_bytes l;;
      modify (λ t, set_blink t true);;
      overlays_full_repaint
  | EvKbd sc =>
      let* t := get in
      let '(k, out) := translate_one sc (Kbd (mods (kbd t)) (pending_extended (kbd t)) 0) in
      modify (λ t, set_kbd t k);;
      if kbd_shortcut k =? 1 then clipboard_copy_selection
      else if kbd_shortcut k =? 2 then clipboard_paste
      else when (0 <? Z.of_nat (length out)) (write_pty out;; ret tt)
  | EvMouse dx dy buttons =>
      let* t := get in
      let '(visible, m, s) := handle_mouse dx dy buttons (mouse t) (sel t) in
      modify (λ t, set_sel (set_mouse t m) s);;
      when visible (reconcile_selection;; reconcile_pointer)
  | EvBlink =>
      modify (λ t, set_blink t (negb (blink_on t)));;
      caret_redraw
  | EvWinch p =>
      modify (λ t, set_fb t p);;
      redraw_all;;
      modify (λ t, set_blink t true);;
      overlays_full_repaint
  end.
Fixpoint handle_events (l : list event) : M term unit :=
  match l with [] => ret tt | e :: l => handle_event e;; handle_events l end.
End Pty.

(** The variables at the start, with [p] on the display and fresh cells. *)
Definition boot (p : list Z) : term :=
  Term p (Vt false term_cols term_rows (Some (replicate (Z.to_nat (term_rows * term_cols)) (Cell 0 0 0))) 0 0 7 0 false VT_GROUND (replicate 8 0) 0 false)
    None None None true (Mouse 0 0 0 0 0) (Sel false 0 0) [] (Kbd 0 false 0) [].
(** [_start] from the first [clear_screen] to the first repaint. *)
Definition start : M term unit :=
  clear_screen;;
  let mx := width / 2 in
  let my := height / 2 in
  modify (λ t, set_mouse t (Mouse mx my (my / g_glyph_h g) (mx / g_glyph_w g) (prev_btns (mouse t))));;
  overlays_full_repaint.
End Terminal.

(** * The frames of the event pipe *)

(** What the pipe holds for a reader: bytes, an interruption, or a result that
    ends the reading. *)
Inductive arrival := Bytes (l : list Z) | Interrupted | Ended (r : Z).

(** At most [n] bytes of the first piece; the rest of it stays. *)
Definition sys_read (n : Z) : M (list arrival) (Z * list Z) :=
  let* q := get in
  match q with
  | [] => ret (0, [])
  | Bytes l :: q =>
      let r := take (Z.to_nat n) l in
      modify (λ _, if Z.of_nat (length l) <=? n then q else Bytes (drop (Z.to_nat n) l) :: q);;
      ret (Z.of_nat (length r), r)
  | Interrupted :: q => modify (λ _, q);; ret (-EINTR, [])
  | Ended r :: q => modify (λ _, q);; ret (r, [])
  end.
(** The bytes so far; the result and the buffer at the end. *)
Definition read_exact_step (n : Z) (buf : list Z) : M (list arrival) (list Z + (Z * list Z)) :=
  let got := Z.of_nat (length buf) in
  if negb (got <? n) then ret (inr (got, buf))
  else
    let* r := sys_read (n - got) in
    if r.1 =? -EINTR then (if got =? 0 then ret (inr (-EINTR, buf)) else ret (inl buf))
    else if r.1 <=? 0 then ret (inr (r.1, buf))
    else ret (inl (buf ++ r.2)).
Definition read_exact (fuel : nat) (n : Z) : M (list arrival) (Z * list Z) := loop fuel (read_exact_step n) [].

(** A writer: the results of the coming writes, and what was written. *)
Definition sys_write (l : list Z) : M (list Z * list Z) Z :=
  let* s := get in
  match s.1 with
  | [] => ret 0
  | w :: ws => modify (λ _, (ws, s.2 ++ take (Z.to_nat w) l));; ret w
  end.
Definition send_step (l : list Z) : M (list Z * list Z) (list Z + unit) :=
  if Z.of_nat (length l) =? 0 then ret (inr tt)
  else
    let* w := sys_write l in
    if w =? -EINTR then ret (inl l) else if w <=? 0 then ret (inr tt) else ret (inl (drop (Z.to_nat w) l)).
Definition send_event (fuel : nat) (frame : list Z) : M (list Z * list Z) unit := loop fuel send_step frame.
