(* ===== verification/TermDraw.v ===== *)
(** What the drawing routines of the terminal emulator do to the pixels. They
    do what those of the kernel's console do on a display with the plain colour
    layout, so the facts about the pixels are shared. *)

From S2P Require Import Prelude BitMath Bytes Vt VtDraw Term.

Section Draw.
Context (D : Display) (g : geometry).

(** The same display with eight bits for red, green and blue, from bit 16 down. *)
Definition plain : Display := @Disp true 32 (@pitch D) (@width D) (@height D) 8 8 8 16 8 0 (@font D) (λ _, true).
(** The kernel's console over the pixels [p]. *)
Definition con (p : list Z) : console := Con p (Some g) [] None None 0 [] false.
(** The pixels [p] show [cell] at row [r] and column [c]. *)
Definition show (p : list Z) (r c : Z) (cell : vt_cell_t) : Prop := @shown plain (con p) g r c cell.

Lemma pack_color_plain idx : pack_color idx = @pack_palette plain idx.
Proof.
  unfold pack_color, pack_palette. change cga with cga_palette_rgb. set (i := Z.land idx 15). assert (0 <= i < 16) as Hi by (unfold i; change 15 with (Z.ones 4); rewrite Z.land_ones by lia; apply Z.mod_pos_bound; lia).
  assert (i = 0 \/ i = 1 \/ i = 2 \/ i = 3 \/ i = 4 \/ i = 5 \/ i = 6 \/ i = 7 \/ i = 8 \/ i = 9 \/ i = 10 \/ i = 11 \/ i = 12 \/ i = 13 \/ i = 14 \/ i = 15) as E by lia.
  clearbody i. repeat (destruct E as [->|E]; [vm_compute; reflexivity|]). subst i. vm_compute. reflexivity.
Qed.

(** * The same steps on the same pixels *)

Definition sim (m : M term unit) (m' : M console unit) : Prop := forall t,
  match m' (con (fb_pixels t)) with
  | Some (_, s) => s = con (pixels s) /\ m t = Some (tt, set_fb t (pixels s))
  | None => m t = None
  end.

Lemma sim_ret : sim (ret tt) (ret tt).
Proof. intros t. simpl. split; [easy|]. now destruct t. Qed.

Lemma sim_bind m m' k k' : sim m m' -> sim k k' -> sim (m;; k) (m';; k').
Proof.
  intros Hm Hk t. unfold bind. specialize (Hm t). destruct (m' _) as [[[] s]|]; [|now rewrite Hm]. destruct Hm as [E ->]. cbv beta iota. remember (pixels s) as p eqn:Ep. clear Ep. subst s. specialize (Hk (set_fb t p)).
  cbn [fb_pixels set_fb] in Hk. destruct (k' _) as [[[] s']|]; [|exact Hk]. destruct Hk as [E' ->]. split; [exact E'|reflexivity].
Qed.

Lemma sim_for lo hi m m' : (forall i, sim (m i) (m' i)) -> sim (for_range lo hi m) (for_range lo hi m').
Proof.
  intros Hm. unfold for_range. generalize (Z.to_nat (hi - lo)). intros n. revert lo. induction n as [|n IH]; intros lo; simpl; [apply sim_ret|]. apply sim_bind; auto.
Qed.

Lemma sim_store i v : sim (store_px i v) (store_pixel i v).
Proof. intros t. unfold store_px, store_pixel, bind, get. simpl. destruct (arr_set _ _ _); simpl; auto. Qed.

Lemma sim_blit r c cell : sim (@blit_cell D g r c cell) (@fb_blit_cell plain r c cell).
Proof.
  intros t. unfold fb_blit_cell. unfold bind at 1, gets. cbn [g_ready con]. revert t. change (sim (@blit_cell D g r c cell) (if (g_rows g <=? r) || (g_cols g <=? c) then ret tt else
    for_range 0 (g_glyph_h g) (λ gy, for_range 0 (g_glyph_w g) (λ gx, let* byte := @font_byte plain (g_glyphs g + glyph_index (ch cell) * g_bytes_per_glyph g + gy * g_bytes_per_row g + Z.shiftr gx 3) in
      store_pixel (r * g_glyph_h g * @pitch_px plain + c * g_glyph_w g + gy * @pitch_px plain + gx) (if negb (Z.land byte (Z.shiftl 1 (7 - Z.land gx 7)) =? 0) then @pack_palette plain (fg cell) else @pack_palette plain (bg cell)))))).
  unfold blit_cell. destruct (_ || _); [apply sim_ret|]. apply sim_for. intros gy. apply sim_for. intros gx t. unfold font_byte. change (@font plain) with (@font D). fold (glyph_index (ch cell)).
  unfold bind at 1 2, of_option. destruct (arr_get _ _) as [b|]; [|reflexivity]. rewrite !pack_color_plain.
  replace ((r * g_glyph_h g + gy) * @pitch_px D + c * g_glyph_w g + gx) with (r * g_glyph_h g * @pitch_px plain + c * g_glyph_w g + gy * @pitch_px plain + gx) by (change (@pitch_px plain) with (@pitch_px D); lia).
  apply sim_store.
Qed.

Lemma sim_fill x y w h v : sim (@fill_rect D x y w h v) (@Vt.fill_rect plain x y w h v).
Proof. unfold fill_rect, Vt.fill_rect. apply sim_for. intros dy. apply sim_for. intros dx. apply sim_store. Qed.

Lemma sim_wp m m' t (Q : unit -> term -> Prop) : sim m m' -> wp m' (λ _ s, Q tt (set_fb t (pixels s))) (con (fb_pixels t)) -> wp m Q t.
Proof. intros Hs. specialize (Hs t). unfold wp. destruct (m' _) as [[[] s]|]; [|easy]. now destruct Hs as [_ ->]. Qed.

(** * Cells *)

Context (SU0 : @suits D g).

Lemma suits_plain : @suits plain g.
Proof. destruct SU0. constructor; assumption. Qed.
Local Abbreviation SU := suits_plain.
Local Abbreviation P := (@pitch_px D).
Abbreviation W := (g_glyph_w g).
Abbreviation Ht := (g_glyph_h g).

(** The framebuffer holds the whole display. *)
Definition fits (p : list Z) : Prop := @height D * P <= Z.of_nat (length p).
(** The cells other than ([r], [c]) look the same. *)
Definition same_but (r c : Z) (p p' : list Z) : Prop := forall r' c' x, 0 <= r' < g_rows g -> 0 <= c' < g_cols g -> r' <> r \/ c' <> c -> show p r' c' x -> show p' r' c' x.

Lemma wp_blit r c cell t (Q : unit -> term -> Prop) : fits (fb_pixels t) -> 0 <= r < g_rows g -> 0 <= c < g_cols g ->
  (forall p, length p = length (fb_pixels t) -> show p r c cell -> same_but r c (fb_pixels t) p -> Q tt (set_fb t p)) -> wp (@blit_cell D g r c cell) Q t.
Proof.
  intros Hf Hr Hc HQ. eapply sim_wp; [apply sim_blit|]. eapply wp_mono; [apply (@blit_ok plain g SU (con (fb_pixels t)) r c cell eq_refl Hf Hr Hc)|]. intros [] s Dr.
  assert (s = con (pixels s)) as E by (rewrite (dr_same _ _ _ _ Dr); reflexivity). apply HQ; [exact (dr_len _ _ _ _ Dr)| |].
  - unfold show. rewrite <- E. exact (@drawn_shown plain g SU (con (fb_pixels t)) s r c cell Hf Hr Hc Dr).
  - intros r' c' x Hr' Hc' Hne. unfold show. rewrite <- E. exact (@drawn_other plain g SU (con (fb_pixels t)) s r c r' c' x _ Hf Hr' Hc' Hne Dr).
Qed.

Lemma wp_fill_cell r c v t (Q : unit -> term -> Prop) : fits (fb_pixels t) -> 0 <= r < g_rows g -> 0 <= c < g_cols g ->
  (forall p, length p = length (fb_pixels t) -> same_but r c (fb_pixels t) p -> Q tt (set_fb t p)) -> wp (@fill_rect D (c * W) (r * Ht) W Ht v) Q t.
Proof.
  intros Hf Hr Hc HQ. pose proof (su_glyph g SU). destruct (su_cols g SU), (su_rows g SU). eapply sim_wp; [apply sim_fill|]. eapply wp_mono; [apply (@fill_rect_ok plain g SU (con (fb_pixels t)) (c * W) (r * Ht) W Ht v Hf); nia|]. intros [] s Dr.
  assert (s = con (pixels s)) as E by (rewrite (dr_same _ _ _ _ Dr); reflexivity). apply HQ; [exact (dr_len _ _ _ _ Dr)|].
  intros r' c' x Hr' Hc' Hne. unfold show. rewrite <- E. exact (@drawn_other plain g SU (con (fb_pixels t)) s r c r' c' x _ Hf Hr' Hc' Hne Dr).
Qed.

Lemma wp_fill_all b t (Q : unit -> term -> Prop) : fits (fb_pixels t) ->
  (forall p, length p = length (fb_pixels t) -> (forall r c f, 0 <= r < g_rows g -> 0 <= c < g_cols g -> show p r c (Cell 32 f b)) -> Q tt (set_fb t p)) ->
  wp (@fill_rect D 0 0 (@width D) (@height D) (pack_color b)) Q t.
Proof.
  intros Hf HQ. pose proof (su_glyph g SU). destruct (su_cols g SU), (su_rows g SU). change (@width plain) with (@width D) in *. change (@height plain) with (@height D) in *.
  eapply sim_wp; [apply sim_fill|]. eapply wp_mono; [apply (@fill_rect_ok plain g SU (con (fb_pixels t)) 0 0 (@width D) (@height D) (pack_color b) Hf); change (@width plain) with (@width D); change (@height plain) with (@height D); nia|]. intros [] s Dr.
  assert (s = con (pixels s)) as E by (rewrite (dr_same _ _ _ _ Dr); reflexivity). apply HQ; [exact (dr_len _ _ _ _ Dr)|].
  intros r c f Hr Hc. unfold show. rewrite <- E. eapply (@fill_shows plain g SU (con (fb_pixels t)) s); [exact Hf|exact Hr|exact Hc|apply pack_color_plain| | | | |exact Dr]; nia.
Qed.

Lemma wp_fill_last b t (Q : unit -> term -> Prop) : fits (fb_pixels t) ->
  (forall p, length p = length (fb_pixels t) -> (forall c f, 0 <= c < g_cols g -> show p (g_rows g - 1) c (Cell 32 f b)) ->
    (forall r c x, 0 <= r < g_rows g - 1 -> 0 <= c < g_cols g -> show (fb_pixels t) r c x -> show p r c x) -> Q tt (set_fb t p)) ->
  wp (@fill_rect D 0 ((g_rows g - 1) * Ht) (g_cols g * W) Ht (pack_color b)) Q t.
Proof.
  intros Hf HQ. pose proof (su_glyph g SU). destruct (su_cols g SU), (su_rows g SU).
  eapply sim_wp; [apply sim_fill|]. eapply wp_mono; [apply (@fill_rect_ok plain g SU (con (fb_pixels t)) 0 ((g_rows g - 1) * Ht) (g_cols g * W) Ht (pack_color b) Hf); nia|]. intros [] s Dr.
  assert (s = con (pixels s)) as E by (rewrite (dr_same _ _ _ _ Dr); reflexivity). apply HQ; [exact (dr_len _ _ _ _ Dr)| |].
  - intros c f Hc. unfold show. rewrite <- E. eapply (@fill_shows plain g SU (con (fb_pixels t)) s); [exact Hf|lia|exact Hc|apply pack_color_plain| | | | |exact Dr]; nia.
  - intros r c x Hr Hc. unfold show. rewrite <- E. eapply (@drawn_below plain g SU (con (fb_pixels t)) s); [exact Hf|lia|exact Hc| |exact Dr]. nia.
Qed.

(** * Scrolling the pixels *)

Lemma px_down_lookup (p : list Z) dst src n i : 0 <= dst <= src -> 0 <= n -> src + n <= Z.of_nat (length p) ->
  arr_get (take (Z.to_nat dst) p ++ take (Z.to_nat n) (drop (Z.to_nat src) p) ++ drop (Z.to_nat (dst + n)) p) i = arr_get p (if (dst <=? i) && (i <? dst + n) then src + (i - dst) else i).
Proof.
  intros Hd Hn Hs. unfold arr_get. destruct (Z.leb_spec dst i), (Z.ltb_spec i (dst + n)); simpl; destruct (Z.ltb_spec i 0); try lia; try easy.
  - rewrite (proj2 (Z.ltb_ge _ _)) by lia. rewrite lookup_app_r by (rewrite length_take; lia). rewrite length_take, Nat.min_l by lia. rewrite lookup_app_l by (rewrite length_take, length_drop; lia).
    rewrite lookup_take_lt by lia. rewrite lookup_drop. f_equal. lia.
  - rewrite lookup_app_r by (rewrite length_take; lia). rewrite length_take, Nat.min_l by lia. rewrite lookup_app_r by (rewrite length_take, length_drop; lia).
    rewrite length_take, length_drop, Nat.min_l by lia. rewrite lookup_drop. f_equal. lia.
  - rewrite lookup_app_l by (rewrite length_take; lia). now rewrite lookup_take_lt by lia.
Qed.

(** Every row of cells but the last shows what was below it. *)
Lemma wp_px_scroll t (Q : unit -> term -> Prop) : fits (fb_pixels t) ->
  (forall p, length p = length (fb_pixels t) -> (forall r c x, 0 <= r < g_rows g - 1 -> 0 <= c < g_cols g -> show (fb_pixels t) (r + 1) c x -> show p r c x) -> Q tt (set_fb t p)) ->
  wp (for_range 0 ((g_rows g - 1) * Ht) (λ y, px_down (y * P) ((y + Ht) * P) (g_cols g * W))) Q t.
Proof.
  intros Hf HQ. pose proof (su_glyph g SU). destruct (su_cols g SU), (su_rows g SU). pose proof (su_pitch g SU) as HP. change (@pitch_px plain) with P in HP. change (@width plain) with (@width D) in *. change (@height plain) with (@height D) in *.
  unfold fits in Hf. set (p0 := fb_pixels t) in *.
  apply (wp_for_range (λ y t1, exists p, t1 = set_fb t p /\ length p = length p0 /\
    forall x y', 0 <= x < g_cols g * W -> 0 <= y' < g_rows g * Ht -> arr_get p (y' * P + x) = arr_get p0 ((if y' <? y then y' + Ht else y') * P + x))); [nia| | |].
  - exists p0. split; [now destruct t|]. split; [easy|]. intros x y' Hx Hy. now rewrite (proj2 (Z.ltb_ge _ _)) by lia.
  - intros y t1 Hy (p & -> & Hl & Hp). unfold px_down. apply wp_bind, wp_get. cbn [fb_pixels set_fb]. assert (P * (y + Ht) + g_cols g * W <= Z.of_nat (length p)) as Hin.
    { assert (y + Ht + 1 <= @height D) by nia. nia. }
    destruct (Z.ltb_spec (y * P) 0), (Z.ltb_spec ((y + Ht) * P) (y * P)), (Z.ltb_spec (g_cols g * W) 0), (Z.ltb_spec (Z.of_nat (length p)) ((y + Ht) * P + g_cols g * W)); try nia. simpl orb. cbv iota.
    apply wp_modify. eexists. split; [reflexivity|]. split. { rewrite !length_app, !length_take, !length_drop. nia. }
    intros x y' Hx Hy'. rewrite px_down_lookup by nia. destruct (Z.lt_trichotomy y' y) as [Hlt|[->|Hgt]].
    + replace (_ && _) with false by nia. rewrite Hp by lia. rewrite !(proj2 (Z.ltb_lt _ _)) by lia. reflexivity.
    + replace (_ && _) with true by nia. replace ((y + Ht) * P + (y * P + x - y * P)) with ((y + Ht) * P + x) by lia. rewrite Hp by nia.
      rewrite (proj2 (Z.ltb_ge (y + Ht) y)) by lia. now rewrite (proj2 (Z.ltb_lt y (y + 1))) by lia.
    + replace (_ && _) with false by nia. rewrite Hp by lia. rewrite !(proj2 (Z.ltb_ge _ _)) by lia. reflexivity.
  - intros t1 (p & -> & Hl & Hp). apply HQ; [exact Hl|]. intros r c x Hr Hc Hs gx gy Hx Hy. specialize (Hs gx gy Hx Hy). unfold px in *. simpl in *. change (@pitch_px plain) with P in *. rewrite Hp by nia.
    rewrite (proj2 (Z.ltb_lt _ _)) by nia. rewrite <- Hs. f_equal. lia.
Qed.
End Draw.
