(* ===== verification/TermThms.v ===== *)
(** The terminal emulator: its cells are the grid a reference terminal computes
    from the bytes of the pty, and after every event the framebuffer shows them,
    inverted where the selection or the pointer is. *)

From S2P Require Import Prelude BitMath Bytes Vt VtDraw VtRef VtThms Term TermDraw.

(** * The reference *)

Definition param1 (v : vt_t) (i : Z) : Z := if param v i 1 =? 0 then 1 else param v i 1.
(** Everything from the cursor on is blanked. *)
Definition blank_rest (v : vt_t) : vt_t :=
  let i := Z.to_nat (cur_row v * cols v + cur_col v) in with_grid v (take i (grid v) ++ replicate (length (grid v) - i) (blank v)).
Definition tcommand (v : vt_t) (final : Z) : vt_t :=
  if final =? 65 then set_cursor v (Z.max 0 (cur_row v - param1 v 0)) (cur_col v)
  else if final =? 66 then set_cursor v (Z.min (rows v - 1) (cur_row v + param1 v 0)) (cur_col v)
  else if final =? 67 then set_cursor v (cur_row v) (Z.min (cols v - 1) (cur_col v + param1 v 0))
  else if final =? 68 then set_cursor v (cur_row v) (Z.max 0 (cur_col v - param1 v 0))
  else if (final =? 72) || (final =? 102) then set_cursor v (Z.min (rows v) (param1 v 0) - 1) (Z.min (cols v) (param1 v 1) - 1)
  else if final =? 74 then
    (if param v 0 0 =? 0 then blank_rest v else if param v 0 0 =? 2 then wiped v else v)
  else if final =? 75 then (if param v 0 0 =? 0 then blank_from (Z.to_nat (cols v - cur_col v)) (cur_col v) v else v)
  else if final =? 109 then coloured v
  else v.
(** The effect of one byte. *)
Definition tfeed : vt_t -> Z -> vt_t := feed_with tcommand.

(** Facts about terminals of the kernel's console are stated in one. *)
Definition idle : console := Con [] None [Vt false 0 0 None 0 0 0 0 false VT_GROUND [] 0 false] None None 0 [] false.
Lemma idle_0 : 0 <= 0 < Z.of_nat (length (vts idle)).
Proof. simpl. lia. Qed.

Section Terminal.
Context {D : Display} (g : geometry) (SU : suits g).
Local Abbreviation R := (g_rows g).
Local Abbreviation C := (g_cols g).

(** * Cells and pixels *)

Record sized (v : vt_t) : Prop := {
  sz_cells : cells v = Some (grid v);
  sz_len : Z.of_nat (length (grid v)) = R * C;
  sz_cols : cols v = C;
  sz_rows : rows v = R }.

Abbreviation shows := (show D g).
Abbreviation fits := (fits D).
Definition inside (r c : Z) : Prop := 0 <= r < R /\ 0 <= c < C.
Definition cell (v : vt_t) (r c : Z) : vt_cell_t := cell_ref g (grid v) r c.
(** The cells that satisfy [P] look as [f] says. *)
Definition all_show (p : list Z) (P : Z -> Z -> Prop) (f : Z -> Z -> vt_cell_t) : Prop := forall r c, inside r c -> P r c -> shows p r c (f r c).

Lemma positive : 0 < R /\ 0 < C.
Proof. destruct (su_cols g SU), (su_rows g SU). lia. Qed.

Lemma inside_index r c : inside r c -> 0 <= r * C + c < R * C.
Proof. unfold inside. nia. Qed.
Lemma index_inside i : 0 <= i < R * C -> inside (i / C) (i mod C) /\ i / C * C + i mod C = i.
Proof.
  intros Hi. pose proof positive. pose proof (Z_div_mod_eq_full i C). pose proof (Z.mod_pos_bound i C ltac:(lia)). split; [|lia]. split; [|lia]. split; [apply Z.div_pos; lia|apply Z.div_lt_upper_bound; lia].
Qed.
Lemma index_div r c : inside r c -> (r * C + c) / C = r /\ (r * C + c) mod C = c.
Proof. intros [Hr Hc]. split; [rewrite Z.div_add_l by lia; rewrite Z.div_small by lia; lia|]. rewrite Z.add_comm, Z_mod_plus_full. apply Z.mod_small. lia. Qed.

Lemma all_show_but p p' r c (P : Z -> Z -> Prop) f : all_show p P f -> same_but D g r c p p' -> all_show p' (λ r' c', P r' c' /\ (r' <> r \/ c' <> c)) f.
Proof. intros Ha Hs r' c' [Hr Hc] [HP Hne]. apply Hs; auto. apply Ha; auto. now split. Qed.

(** One more cell shows what it should. *)
Lemma all_show_step p p' r c (P P' : Z -> Z -> Prop) f : all_show p P f -> same_but D g r c p p' -> (P' r c -> shows p' r c (f r c)) ->
  (forall r' c', inside r' c' -> P' r' c' -> r' <> r \/ c' <> c -> P r' c') -> all_show p' P' f.
Proof.
  intros Ha Hs Hc HP r' c' Hin HP'. destruct (decide (r' = r /\ c' = c)) as [[-> ->]|Hne]; [auto|].
  assert (r' <> r \/ c' <> c) as Hne' by (destruct (decide (r' = r)); [right; intros ->; now apply Hne|now left]). pose proof Hin as Hin'. destruct Hin'. apply Hs; auto.
Qed.

Lemma all_show_mono p (P P' : Z -> Z -> Prop) f : all_show p P f -> (forall r c, inside r c -> P' r c -> P r c) -> all_show p P' f.
Proof. intros Ha HP r c Hin H. auto. Qed.

Lemma wp_cell_at r c t (Q : vt_cell_t -> term -> Prop) : sized (tv t) -> inside r c -> Q (cell (tv t) r c) t -> wp (cell_at (r * C + c)) Q t.
Proof.
  intros Hz [Hr Hc] HQ. unfold cell_at. apply wp_bind, wp_get, wp_bind. eapply wp_of_option; [exact (sz_cells _ Hz)|]. eapply wp_of_option; [|exact HQ]. apply cell_ref_get; auto. exact (sz_len _ Hz).
Qed.
Lemma wp_cell_index i t (Q : vt_cell_t -> term -> Prop) : sized (tv t) -> 0 <= i < R * C -> Q (cell (tv t) (i / C) (i mod C)) t -> wp (cell_at i) Q t.
Proof. intros Hz Hi HQ. destruct (index_inside i Hi) as [Hin E]. rewrite <- E. now apply wp_cell_at. Qed.

(** Drawing a cell changes the pixels only. *)
Definition repaints (r c : Z) (x : vt_cell_t) (t : term) (Q : unit -> term -> Prop) : Prop :=
  forall p, length p = length (fb_pixels t) -> shows p r c x -> same_but D g r c (fb_pixels t) p -> Q tt (set_fb t p).
Lemma wp_plain r c t Q : fits (fb_pixels t) -> sized (tv t) -> inside r c -> repaints r c (cell (tv t) r c) t Q -> wp (blit_plain g r c) Q t.
Proof. intros Hf Hz Hin HQ. unfold blit_plain. apply wp_bind. apply wp_cell_at; auto. destruct Hin. now apply (wp_blit D g SU). Qed.
Lemma wp_inverted r c t Q : fits (fb_pixels t) -> sized (tv t) -> inside r c -> repaints r c (inverted (cell (tv t) r c)) t Q -> wp (blit_inverted g r c) Q t.
Proof. intros Hf Hz Hin HQ. unfold blit_inverted. apply wp_bind. apply wp_cell_at; auto. destruct Hin. now apply (wp_blit D g SU). Qed.

Lemma fits_same p p' : length p' = length p -> fits p -> fits p'.
Proof. unfold TermDraw.fits. intros ->. auto. Qed.

(** * Overlays *)

Definition marked (o : option (Z * Z)) : Prop := forall r c, o = Some (r, c) -> inside r c.
Definition ranged (o : option (Z * Z)) : Prop := forall lo hi, o = Some (lo, hi) -> 0 <= lo <= hi /\ hi < R * C.
Definition selected (s : select_t) : Prop := 0 <= sel_anchor s < R * C /\ 0 <= sel_head s < R * C.
Definition pointer (m : mouse_t) : option (Z * Z) := Some (mp_row m, mp_col m).

Lemma logical_ranged s : selected s -> ranged (sel_logical s).
Proof. intros [H1 H2] lo hi. unfold sel_logical. destruct (have_selection s); [|easy]. destruct (Z.ltb_spec (sel_anchor s) (sel_head s)); intros [= <- <-]; lia. Qed.

Lemma at_cell_true o r c : at_cell o r c = true <-> o = Some (r, c).
Proof. unfold at_cell. destruct o as [[r' c']|]; [|easy]. split; [intros E; f_equal; f_equal; lia|intros [= -> ->]; now rewrite !Z.eqb_refl]. Qed.
Lemma at_cell_false o r c : at_cell o r c = false <-> o <> Some (r, c).
Proof. rewrite <- at_cell_true. now destruct (at_cell o r c). Qed.

(** A cell under a selection painted from [o]. *)
Definition by_range (v : vt_t) (o : option (Z * Z)) (r c : Z) : vt_cell_t := if in_range o (r * C + c) then inverted (cell v r c) else cell v r c.
(** What a cell looks like under the painted selection and pointer. *)
Definition seen (t : term) (r c : Z) : vt_cell_t :=
  if xorb (in_range (sp t) (r * C + c)) (at_cell (pp t) r c) then inverted (cell (tv t) r c) else cell (tv t) r c.

Definition off_caret (t : term) (r c : Z) : Prop := caret t <> Some (r, c).

Lemma index_inj r c r' c' : inside r c -> inside r' c' -> r * C + c = r' * C + c' -> r = r' /\ c = c'.
Proof. intros H1 H2 E. destruct (index_div r c H1) as [A1 A2], (index_div r' c' H2) as [B1 B2]. rewrite E in A1, A2. split; congruence. Qed.

Lemma reconcile_selection_ok t (ex : Z -> Z -> Prop) now (Q : unit -> term -> Prop) : sel_logical (sel t) = now ->
  fits (fb_pixels t) -> sized (tv t) -> ranged (sp t) -> ranged now ->
  all_show (fb_pixels t) (λ r c, ~ ex r c /\ (in_range (sp t) (r * C + c) = true \/ in_range now (r * C + c) = false)) (by_range (tv t) (sp t)) ->
  (forall p, length p = length (fb_pixels t) -> all_show p (λ r c, ~ ex r c) (by_range (tv t) now) -> Q tt (set_sp (set_fb t p) now)) -> wp (reconcile_selection g) Q t.
Proof.
  intros En Hf Hz Hsp Hnow Ha HQ. unfold reconcile_selection. apply wp_bind, wp_get. rewrite En.
  set (F := λ p (P : Z -> Prop) o, all_show p (λ r c, ~ ex r c /\ P (r * C + c)) (by_range (tv t) o)).
  assert (forall p, length p = length (fb_pixels t) -> F p (λ i, in_range (sp t) i = true \/ in_range now i = false) now ->
    wp (match now with Some (n_lo, n_hi) => for_range n_lo (n_hi + 1) (λ idx, when (negb (in_range (sp t) idx)) (blit_inverted g (idx / C) (idx mod C)));; modify (λ t, set_sp t now) | None => modify (λ t, set_sp t None) end) Q (set_fb t p)) as Hpaint.
  { intros p Hp HF. clear Ha. destruct now as [[lo hi]|].
    2:{ apply wp_modify. apply HQ; [exact Hp|]. eapply all_show_mono; [exact HF|]. intros r c _ Hex. split; [exact Hex|now right]. }
    destruct (Hnow lo hi eq_refl) as [Hlo Hhi]. apply wp_bind.
    apply (wp_for_range (λ j t1, exists p, t1 = set_fb t p /\ length p = length (fb_pixels t) /\ F p (λ i, in_range (sp t) i = true \/ in_range (Some (lo, hi)) i = false \/ i < j) (Some (lo, hi)))); [lia| | |].
    - exists p. split; [easy|]. split; [exact Hp|]. eapply all_show_mono; [exact HF|]. intros r c _ (Hex & Hi). split; [exact Hex|]. destruct Hi as [Hi|[Hi|Hi]]; auto. right. simpl. lia.
    - intros j t1 Hj (p1 & -> & Hp1 & HF1). destruct (index_inside j ltac:(lia)) as [Hin Ej]. apply wp_when. destruct (in_range (sp t) j) eqn:Es; simpl negb; cbv iota.
      { exists p1. split; [easy|]. split; [exact Hp1|]. eapply all_show_mono; [exact HF1|]. intros r c _ (Hex & Hi). split; [exact Hex|]. destruct (decide (r * C + c = j)) as [E|E]; [left; now rewrite E|]. destruct Hi as [Hi|[Hi|Hi]]; auto. right; right; lia. }
      apply wp_inverted; [exact (fits_same _ _ Hp1 Hf)|exact Hz|exact Hin|]. intros p2 Hp2 Hs2 Hb2. exists p2. split; [easy|]. split; [simpl in Hp2; congruence|].
      eapply (all_show_step p1 p2 (j / C) (j mod C)); [exact HF1|exact Hb2| |].
      + intros _. unfold by_range. rewrite Ej. simpl. replace (_ && _) with true by lia. exact Hs2.
      + intros r c Hrc [Hex Hi] Hne. split; [exact Hex|]. destruct Hi as [Hi|[Hi|Hi]]; auto. right; right. assert (r * C + c <> j); [|lia]. intros E. rewrite <- Ej in E. destruct (index_inj _ _ _ _ Hrc Hin E). intuition.
    - intros t1 (p1 & -> & Hp1 & HF1). apply wp_modify. apply HQ; [exact Hp1|]. eapply all_show_mono; [exact HF1|]. intros r c _ Hex. split; [exact Hex|]. simpl. destruct (in_range (sp t) (r * C + c)); auto. right. lia. }
  destruct (sp t) as [[lo hi]|] eqn:Esp.
  2:{ apply wp_bind, wp_ret. specialize (Hpaint (fb_pixels t) eq_refl). replace (set_fb t (fb_pixels t)) with t in Hpaint by now destruct t. apply Hpaint. intros r c Hrc [Hex Hi]. specialize (Ha r c Hrc (conj Hex Hi)). unfold by_range in *. simpl in *. destruct Hi as [Hi|Hi]; [easy|]. now rewrite Hi. }
  destruct (Hsp lo hi eq_refl) as [Hlo Hhi]. apply wp_bind.
  apply (wp_for_range (λ j t1, exists p, t1 = set_fb t p /\ length p = length (fb_pixels t) /\ all_show p (λ r c, ~ ex r c /\ (in_range (Some (lo, hi)) (r * C + c) = true \/ in_range now (r * C + c) = false))
    (λ r c, if in_range (Some (lo, hi)) (r * C + c) && (in_range now (r * C + c) || (j <=? r * C + c)) then inverted (cell (tv t) r c) else cell (tv t) r c))); [lia| | |].
  - exists (fb_pixels t). split; [now destruct t|]. split; [easy|]. intros r c Hrc HP. specialize (Ha r c Hrc HP). unfold by_range in Ha. simpl in *. destruct ((lo <=? _) && _) eqn:E; simpl; [|exact Ha]. replace (_ || _) with true by lia. exact Ha.
  - intros j t1 Hj (p1 & -> & Hp1 & HF1). destruct (index_inside j ltac:(lia)) as [Hin Ej]. apply wp_when. destruct (in_range now j) eqn:Es; simpl negb; cbv iota.
    + exists p1. split; [easy|]. split; [exact Hp1|]. intros r c Hrc HP. specialize (HF1 r c Hrc HP). simpl in *. destruct (decide (r * C + c = j)) as [E|E]; [rewrite E, Es in HF1 |- *; exact HF1|]. replace (j + 1 <=? r * C + c) with (j <=? r * C + c) by lia. exact HF1.
    + apply wp_bind. apply wp_cell_index; [exact Hz|lia|]. destruct Hin as [Hr Hc]. apply (wp_blit D g SU); [exact (fits_same _ _ Hp1 Hf)|exact Hr|exact Hc|]. intros p2 Hp2 Hs2 Hb2. exists p2. split; [easy|]. split; [simpl in Hp2; congruence|].
      intros r c Hrc HP. destruct (decide (r * C + c = j)) as [E|E].
      * destruct (index_inj r c (j / C) (j mod C) Hrc (conj Hr Hc) ltac:(lia)) as [-> ->]. rewrite Ej, Es. replace (j + 1 <=? j) with false by lia. rewrite andb_false_r. exact Hs2.
      * replace (j + 1 <=? r * C + c) with (j <=? r * C + c) by lia. apply Hb2; [apply Hrc|apply Hrc| |exact (HF1 r c Hrc HP)]. destruct (decide (r = j / C)) as [->|]; [|now left]. right. intros ->. now apply E.
  - intros t1 (p1 & -> & Hp1 & HF1). rewrite <- Esp in *. apply Hpaint; [exact Hp1|]. intros r c Hrc HP. specialize (HF1 r c Hrc HP). destruct HP as [_ HP]. unfold by_range. rewrite Esp in *. simpl in *.
    destruct (in_range now (r * C + c)); simpl in *; [destruct HP as [HP|]; [now rewrite HP in HF1|easy]|]. destruct ((lo <=? r * C + c) && (r * C + c <=? hi)) eqn:E; simpl in *; [|exact HF1]. now replace (hi + 1 <=? r * C + c) with false in HF1 by lia.
Qed.

(** What a cell looks like with the selection [o] and the pointer [q] painted. *)
Definition look (v : vt_t) (o q : option (Z * Z)) (r c : Z) : vt_cell_t :=
  if xorb (in_range o (r * C + c)) (at_cell q r c) then inverted (cell v r c) else cell v r c.

Lemma look_range v o q r c : q <> Some (r, c) -> look v o q r c = by_range v o r c.
Proof. intros Hq. unfold look, by_range. apply at_cell_false in Hq. rewrite Hq. now rewrite xorb_false_r. Qed.
Lemma look_pointer v o r c : look v o (Some (r, c)) r c = if in_range o (r * C + c) then cell v r c else inverted (cell v r c).
Proof. unfold look. rewrite (proj2 (at_cell_true _ r c) eq_refl). rewrite xorb_true_r. now destruct (in_range _ _). Qed.

(** A cell is drawn as it looks. *)
Lemma wp_look r c (q : option (Z * Z)) t Q : fits (fb_pixels t) -> sized (tv t) -> inside r c -> repaints r c (look (tv t) (sp t) q r c) t Q ->
  wp (if xorb (in_range (sp t) (r * C + c)) (at_cell q r c) then blit_inverted g r c else blit_plain g r c) Q t.
Proof. intros Hf Hz Hin HQ. unfold look in HQ. destruct (xorb _ _); [now apply wp_inverted|now apply wp_plain]. Qed.

Lemma other_cell (r c r' c' : Z) : ~ (r' = r /\ c' = c) -> r' <> r \/ c' <> c.
Proof. intros Hne. destruct (decide (r' = r)); [right; intros ->; now apply Hne|now left]. Qed.

Lemma erase_pointer_ok t (P : Z -> Z -> Prop) (Q : unit -> term -> Prop) : fits (fb_pixels t) -> sized (tv t) -> marked (pp t) ->
  all_show (fb_pixels t) (λ r c, off_caret t r c /\ pp t <> Some (r, c) /\ P r c) (by_range (tv t) (sp t)) ->
  (forall p, length p = length (fb_pixels t) -> all_show p (λ r c, off_caret t r c /\ P r c) (by_range (tv t) (sp t)) -> Q tt (set_pp (set_fb t p) None)) ->
  wp (erase_pointer g) Q t.
Proof.
  intros Hf Hz Hpp Ha HQ. unfold erase_pointer. apply wp_bind, wp_get. destruct (pp t) as [[r c]|] eqn:Epp.
  2:{ apply wp_ret. specialize (HQ (fb_pixels t) eq_refl). replace (set_pp (set_fb t (fb_pixels t)) None) with t in HQ by (destruct t; simpl in *; now subst). apply HQ.
    eapply all_show_mono; [exact Ha|]. intros r c _ [H1 H2]. auto. }
  specialize (Hpp r c eq_refl) as Hin. destruct (Hin) as [Hr Hc]. apply wp_bind, wp_when. replace (_ && _) with true by lia. destruct (at_cell (caret t) r c) eqn:Ec.
  - apply wp_ret, wp_modify. specialize (HQ (fb_pixels t) eq_refl). replace (set_fb t (fb_pixels t)) with t in HQ by now destruct t. apply HQ. eapply all_show_mono; [exact Ha|].
    intros r' c' _ [H1 H2]. split_and!; auto. intros [= <- <-]. apply at_cell_true in Ec. now apply H1.
  - assert (repaints r c (by_range (tv t) (sp t) r c) t (λ _, wp (modify (λ t, set_pp t None)) Q)) as Hstep.
    { intros p Hp Hs Hb. apply wp_modify. apply HQ; [exact Hp|]. eapply (all_show_step _ p r c); [exact Ha|exact Hb|auto|]. intros r' c' _ [H1 H2] Hne. split_and!; auto. intros [= <- <-]. destruct Hne as [Hne|Hne]; now apply Hne. }
    unfold by_range in Hstep. destruct (in_range (sp t) (r * C + c)); [now apply wp_inverted|now apply wp_plain].
Qed.

Lemma paint_pointer_ok t (Q : unit -> term -> Prop) : fits (fb_pixels t) -> sized (tv t) -> marked (pointer (mouse t)) ->
  all_show (fb_pixels t) (λ r c, off_caret t r c /\ pointer (mouse t) <> Some (r, c)) (by_range (tv t) (sp t)) ->
  (forall p, length p = length (fb_pixels t) -> all_show p (off_caret t) (look (tv t) (sp t) (pointer (mouse t))) -> Q tt (set_pp (set_fb t p) (pointer (mouse t)))) ->
  wp (paint_pointer g) Q t.
Proof.
  intros Hf Hz Hm Ha HQ. unfold paint_pointer. apply wp_bind, wp_get. unfold pointer in *. set (r := mp_row (mouse t)) in *. set (c := mp_col (mouse t)) in *.
  specialize (Hm r c eq_refl) as Hin. destruct (Hin) as [Hr Hc]. apply wp_when. replace (_ && _) with true by lia. apply wp_bind. destruct (at_cell (caret t) r c) eqn:Ec.
  - apply wp_ret, wp_modify. specialize (HQ (fb_pixels t) eq_refl). replace (set_fb t (fb_pixels t)) with t in HQ by now destruct t. apply HQ. intros r' c' Hin' Hoff.
    apply at_cell_true in Ec. assert (Some (r, c) <> Some (r', c')) as Hne by (intros [= <- <-]; now apply Hoff). rewrite look_range by exact Hne. now apply Ha.
  - assert (repaints r c (look (tv t) (sp t) (Some (r, c)) r c) t (λ _, wp (modify (λ t, set_pp t (Some (r, c)))) Q)) as Hstep.
    { intros p Hp Hs Hb. apply wp_modify. apply HQ; [exact Hp|]. intros r' c' Hin' Hoff. destruct (decide (r' = r /\ c' = c)) as [[-> ->]|Hne%other_cell]; [exact Hs|].
      assert (Some (r, c) <> Some (r', c')) as Hne' by (intros [= <- <-]; destruct Hne as [Hne|Hne]; now apply Hne). rewrite look_range by exact Hne'. apply Hb; [apply Hin'|apply Hin'|exact Hne|now apply Ha]. }
    rewrite look_pointer in Hstep. destruct (in_range (sp t) (r * C + c)); [now apply wp_plain|now apply wp_inverted].
Qed.

Lemma reconcile_pointer_ok t (Q : unit -> term -> Prop) : fits (fb_pixels t) -> sized (tv t) -> marked (pp t) -> marked (pointer (mouse t)) ->
  all_show (fb_pixels t) (λ r c, off_caret t r c /\ pp t <> Some (r, c) /\ pointer (mouse t) <> Some (r, c)) (by_range (tv t) (sp t)) ->
  (forall p, length p = length (fb_pixels t) -> all_show p (off_caret t) (look (tv t) (sp t) (pointer (mouse t))) -> Q tt (set_pp (set_fb t p) (pointer (mouse t)))) ->
  wp (reconcile_pointer g) Q t.
Proof.
  intros Hf Hz Hpp Hm Ha HQ. apply wp_bind. apply (erase_pointer_ok t (λ r c, pointer (mouse t) <> Some (r, c))); auto. intros p Hp Hs.
  apply paint_pointer_ok; auto; [exact (fits_same _ _ Hp Hf)|]. intros p2 Hp2 Hs2. apply HQ; [simpl in Hp2; congruence|exact Hs2].
Qed.

(** Around the caret's old place everything looks as it should, and then also there. *)
Lemma wp_restore r c t (Q : unit -> term -> Prop) : fits (fb_pixels t) -> sized (tv t) -> inside r c -> caret t = Some (r, c) ->
  all_show (fb_pixels t) (off_caret t) (look (tv t) (sp t) (pp t)) ->
  (forall p, length p = length (fb_pixels t) -> all_show p (λ _ _, True) (look (tv t) (sp t) (pp t)) -> Q tt (set_fb t p)) -> wp (restore_cell g r c) Q t.
Proof.
  intros Hf Hz Hin Ec Ha HQ. unfold restore_cell. apply wp_bind, wp_get.
  assert ((if at_cell (pp t) r c && in_range (sp t) (r * C + c) then false else at_cell (pp t) r c || in_range (sp t) (r * C + c)) = xorb (in_range (sp t) (r * C + c)) (at_cell (pp t) r c)) as ->
    by (destruct (at_cell _ _ _), (in_range _ _); reflexivity).
  apply wp_look; auto. intros p Hp Hs Hb. apply HQ; [exact Hp|]. eapply (all_show_step _ p r c); [exact Ha|exact Hb|auto|]. intros r' c' _ _ Hne. unfold off_caret. rewrite Ec. intros [= -> ->]. destruct Hne as [Hne|Hne]; now apply Hne.
Qed.

Lemma caret_redraw_ok t (Q : unit -> term -> Prop) : fits (fb_pixels t) -> sized (tv t) -> inside (cur_row (tv t)) (cur_col (tv t)) -> marked (caret t) ->
  all_show (fb_pixels t) (off_caret t) (look (tv t) (sp t) (pp t)) ->
  (forall p o, length p = length (fb_pixels t) -> marked o -> all_show p (λ r c, o <> Some (r, c)) (look (tv t) (sp t) (pp t)) -> Q tt (set_caret (set_fb t p) o)) -> wp (caret_redraw g) Q t.
Proof.
  intros Hf Hz Hcur Hk Ha HQ. destruct (Hcur) as [Hr Hc]. unfold caret_redraw. apply wp_bind, wp_get. replace (_ || _) with false by lia.
  destruct (blink_on t).
  - destruct (at_cell (caret t) _ _) eqn:E.
    { apply wp_ret. specialize (HQ (fb_pixels t) (caret t) eq_refl Hk Ha). now destruct t. }
    assert (forall p, length p = length (fb_pixels t) -> all_show p (λ _ _, True) (look (tv t) (sp t) (pp t)) ->
      wp (fill_rect (cur_col (tv t) * g_glyph_w g) (cur_row (tv t) * g_glyph_h g) (g_glyph_w g) (g_glyph_h g) (pack_color (cur_fg (tv t)));; modify (λ t0, set_caret t0 (Some (cur_row (tv t), cur_col (tv t))))) Q (set_fb t p)) as Hblock.
    { intros p Hp HF. apply wp_bind. apply (wp_fill_cell D g SU); [exact (fits_same _ _ Hp Hf)|exact Hr|exact Hc|]. intros p2 Hp2 Hb. apply wp_modify. apply HQ; [simpl in Hp2; congruence|intros r c [= <- <-]; exact Hcur|].
      intros r c [Hr' Hc'] Hne. apply Hb; auto; [|apply HF; now split]. destruct (decide (r = cur_row (tv t))) as [->|]; [|now left]. right. intros ->. now apply Hne. }
    destruct (caret t) as [[r c]|] eqn:Ek.
    + apply wp_bind. apply wp_restore; auto.
    + apply wp_bind, wp_ret. specialize (Hblock (fb_pixels t) eq_refl). replace (set_fb t (fb_pixels t)) with t in Hblock by now destruct t. apply Hblock. eapply all_show_mono; [exact Ha|]. intros r c _ _. unfold off_caret. now rewrite Ek.
  - destruct (caret t) as [[r c]|] eqn:Ek.
    + apply wp_bind. apply wp_restore; auto. intros p Hp HF. apply wp_modify. apply HQ; [exact Hp|easy|]. eapply all_show_mono; [exact HF|easy].
    + apply wp_ret. specialize (HQ (fb_pixels t) None eq_refl Hk). replace (set_caret (set_fb t (fb_pixels t)) None) with t in HQ by (destruct t; simpl in *; now subst). apply HQ.
      eapply all_show_mono; [exact Ha|]. intros r c _ _. unfold off_caret. now rewrite Ek.
Qed.

(** * The parser *)

(** What the parser does not touch since [t0]; it may forget overlays. *)
Record kept (t0 t : term) : Prop := {
  kp_mouse : mouse t = mouse t0; kp_clip : clipboard t = clipboard t0; kp_kbd : kbd t = kbd t0; kp_pty : to_pty t = to_pty t0;
  kp_fb : length (fb_pixels t) = length (fb_pixels t0);
  kp_ends : sel_anchor (sel t) = sel_anchor (sel t0) /\ sel_head (sel t) = sel_head (sel t0);
  kp_sp : sp t = None \/ sp t = sp t0 /\ sel t = sel t0;
  kp_pp : pp t = None \/ pp t = pp t0 }.

Lemma kept_refl t : kept t t.
Proof. split; auto. Qed.

Section Input.
Context (t0 : term) (Hf0 : fits (fb_pixels t0)).

(** The cells are those of [v], and all but the overlaid ones are drawn plain. *)
Record drawn (v : vt_t) (t : term) : Prop := {
  dw_tv : tv t = v;
  dw_sized : sized v;
  dw_caret : marked (caret t); dw_pp : marked (pp t); dw_sp : ranged (sp t);
  dw_show : all_show (fb_pixels t) (λ r c, off_caret t r c /\ in_range (sp t) (r * C + c) = false /\ pp t <> Some (r, c)) (cell v);
  dw_kept : kept t0 t }.

Lemma drawn_fits v t : drawn v t -> fits (fb_pixels t).
Proof. intros Hd. exact (fits_same _ _ (kp_fb _ _ (dw_kept _ _ Hd)) Hf0). Qed.

Lemma kept_fb t p : kept t0 t -> length p = length (fb_pixels t) -> kept t0 (set_fb t p).
Proof. intros [K1 K2 K3 K4 K5 K6 K7 K8] Hp. split; auto. simpl. congruence. Qed.
Lemma kept_tv t v : kept t0 t -> kept t0 (set_tv t v).
Proof. intros [K1 K2 K3 K4 K5 K6 K7 K8]. now split. Qed.

(** Updates that leave the cells alone. *)
Lemma wp_tv_upd v f t (Q : unit -> term -> Prop) : drawn v t -> cells (f v) = cells v /\ cols (f v) = cols v /\ rows (f v) = rows v ->
  (forall t', drawn (f v) t' -> Q tt t') -> wp (tv_upd f) Q t.
Proof.
  intros [E Z1 K1 K2 K3 A K] (E1 & E2 & E3) HQ. apply wp_modify. apply HQ. assert (grid (f v) = grid v) as Eg by (unfold grid; now rewrite E1). destruct Z1.
  split; simpl; auto; [now rewrite E|split; congruence| |now apply kept_tv]. intros r c Hin HP. unfold cell. rewrite Eg. now apply A.
Qed.

Lemma wp_gets_tv {A} v t (k : vt_t -> M term A) Q : drawn v t -> wp (k v) Q t -> wp (let* v := gets tv in k v) Q t.
Proof. intros Hd HQ. apply wp_bind, wp_gets. now rewrite (dw_tv _ _ Hd). Qed.

Lemma sized_with v cs : sized v -> length cs = length (grid v) -> sized (with_grid v cs).
Proof. intros [Z1 Z2 Z3 Z4] Hl. split; simpl; auto. unfold grid. simpl. congruence. Qed.

Lemma wp_cell_put v i x t (Q : unit -> term -> Prop) : tv t = v -> sized v -> 0 <= i < R * C -> Q tt (set_tv t (with_grid v (<[Z.to_nat i := x]> (grid v)))) -> wp (cell_put i x) Q t.
Proof.
  intros E Hz Hi HQ. unfold cell_put. apply wp_bind, wp_get, wp_bind. rewrite E. eapply wp_of_option; [exact (sz_cells _ Hz)|]. apply wp_bind. rewrite arr_set_lt by (rewrite (sz_len _ Hz); exact Hi). apply wp_modify. now rewrite E.
Qed.

Lemma put_at_cell v r c x r' c' : sized v -> inside r c -> inside r' c' -> cell (put_at v r c x) r' c' = if decide (r' = r /\ c' = c) then x else cell v r' c'.
Proof. intros [Z1 Z2 Z3 Z4] [Hr Hc] [Hr' Hc']. now apply (put_at_ref g idle). Qed.

Lemma term_wp_put_cell v r c x t (Q : unit -> term -> Prop) : drawn v t -> inside r c -> (forall t', drawn (put_at v r c x) t' -> Q tt t') -> wp (put_cell g r c x) Q t.
Proof.
  intros Hd Hin HQ. pose proof (drawn_fits _ _ Hd) as Hf. destruct Hd as [E Z1 K1 K2 K3 A K]. unfold put_cell. apply wp_bind. eapply wp_cell_put; [exact E|exact Z1|now apply inside_index|].
  assert (with_grid v (<[Z.to_nat (r * C + c):=x]> (grid v)) = put_at v r c x) as -> by (unfold put_at; now rewrite (sz_cols _ Z1)).
  destruct (Hin) as [Hr Hc]. apply (wp_blit D g SU); auto. intros p Hp Hs Hb. apply HQ. split; auto; [|intros r' c' Hin' HP|now apply kept_fb; [apply kept_tv|]].
  - unfold put_at. apply sized_with; [exact Z1|apply length_insert].
  - rewrite put_at_cell by auto. case_decide as Ed; [destruct Ed as [-> ->]; exact Hs|]. apply Hb; [apply Hin'|apply Hin'|now apply other_cell|]. now apply A.
Qed.

(** * Scrolling and clearing *)

Lemma erase_overlays_ok v t (Q : unit -> term -> Prop) : drawn v t -> (forall p, length p = length (fb_pixels t) -> all_show p (λ _ _, True) (cell v) -> Q tt (set_fb t p)) -> wp (erase_overlays g) Q t.
Proof.
  intros Hd HQ. pose proof (drawn_fits _ _ Hd) as Hf. destruct Hd as [E Z1 K1 K2 K3 A K]. unfold erase_overlays. apply wp_bind, wp_get.
  (* every cell is drawn plain *)
  set (Plain := λ (P : Z -> Z -> Prop) t', exists p, t' = set_fb t p /\ length p = length (fb_pixels t) /\ all_show p P (cell v)).
  assert (forall r c P P' t1 (Q : unit -> term -> Prop), inside r c -> Plain P t1 -> (forall r' c', inside r' c' -> P' r' c' -> r' <> r \/ c' <> c -> P r' c') -> (forall t2, Plain P' t2 -> Q tt t2) -> wp (blit_plain g r c) Q t1) as Hplain.
  { intros r c P P' t1 Q' Hin (p1 & -> & Hp1 & HA) HP HQ'. apply wp_plain; [exact (fits_same _ _ Hp1 Hf)|simpl; now rewrite E|exact Hin|]. intros p2 Hp2 Hs Hb. apply HQ'. exists p2. split; [easy|]. split; [simpl in Hp2; congruence|].
    simpl in Hs. rewrite E in Hs. eapply (all_show_step p1 p2 r c); [exact HA|exact Hb|auto|exact HP]. }
  apply wp_bind. match goal with |- wp _ ?Q1 _ => assert (forall t1, Plain (λ r c, in_range (sp t) (r * C + c) = false /\ pp t <> Some (r, c) \/ caret t = Some (r, c)) t1 -> Q1 tt t1) as Hphase2 end.
  2:{ destruct (caret t) as [[r c]|] eqn:Ec.
    - destruct (K1 r c eq_refl) as [Hr Hc]. apply wp_when. replace (_ && _) with true by lia. eapply (Hplain r c (λ r' c', off_caret t r' c' /\ in_range (sp t) (r' * C + c') = false /\ pp t <> Some (r', c'))); [now split| | |exact Hphase2].
      + exists (fb_pixels t). split; [now destruct t|]. split; [easy|exact A].
      + intros r' c' Hin' HP Hne. unfold off_caret. rewrite Ec. assert (Some (r, c) <> Some (r', c')) as Hne' by (intros [= <- <-]; destruct Hne as [Hne|Hne]; now apply Hne). destruct HP as [HP|HP]; [now split|easy].
    - apply wp_ret. apply Hphase2. exists (fb_pixels t). split; [now destruct t|]. split; [easy|]. eapply all_show_mono; [exact A|]. intros r c _ [HP|HP]; [|easy]. split; [unfold off_caret; now rewrite Ec|exact HP]. }
  intros t1 H1. apply wp_bind. match goal with |- wp _ ?Q1 _ => assert (forall t1, Plain (λ r c, in_range (sp t) (r * C + c) = false \/ caret t = Some (r, c) \/ pp t = Some (r, c)) t1 -> Q1 tt t1) as Hphase3 end.
  2:{ destruct (pp t) as [[r c]|] eqn:Ep.
    - destruct (K2 r c eq_refl) as [Hr Hc]. apply wp_when. destruct (at_cell (caret t) r c) eqn:Ea.
      + replace (_ && _) with false by lia. apply Hphase3. destruct H1 as (p1 & -> & Hp1 & HA). exists p1. split; [easy|]. split; [exact Hp1|]. apply at_cell_true in Ea. eapply all_show_mono; [exact HA|].
        intros r' c' _ HP. destruct (decide (caret t = Some (r', c'))) as [|Hne]; [now right|]. left. destruct HP as [HP|[HP|HP]]; [split; [exact HP|congruence]|easy|congruence].
      + replace (_ && _) with true by lia. eapply (Hplain r c); [now split|exact H1| |exact Hphase3]. intros r' c' _ HP Hne.
        assert (Some (r, c) <> Some (r', c')) as Hne' by (intros [= <- <-]; destruct Hne as [Hne|Hne]; now apply Hne). destruct HP as [HP|[HP|HP]]; [left; now split|now right|easy].
    - apply wp_ret. apply Hphase3. destruct H1 as (p1 & -> & Hp1 & HA). exists p1. split; [easy|]. split; [exact Hp1|]. eapply all_show_mono; [exact HA|]. intros r c _ [HP|[HP|HP]]; [left; now split|now right|easy]. }
  clear t1 H1. intros t1 H1. assert (forall t1, Plain (λ _ _, True) t1 -> Q tt t1) as Hmove by (intros t2 (p2 & -> & Hp2 & HA); now apply HQ).
  { destruct (sp t) as [[lo hi]|] eqn:Es; [|apply wp_ret, Hmove; destruct H1 as (p1 & -> & Hp1 & HA); exists p1; split; [easy|]; split; [exact Hp1|]; eapply all_show_mono; [exact HA|]; intros r c _ _; now left].
    destruct (K3 lo hi eq_refl) as [Hlo Hhi].
    apply (wp_for_range (λ j, Plain (λ r c, in_range (Some (lo, hi)) (r * C + c) = false \/ caret t = Some (r, c) \/ pp t = Some (r, c) \/ r * C + c < j))); [lia| | |].
    - destruct H1 as (p1 & -> & Hp1 & HA). exists p1. split; [easy|]. split; [exact Hp1|]. eapply all_show_mono; [exact HA|]. simpl. intros r c _ [HP|[HP|[HP|HP]]]; [now left|now right; left|now right; right|left; lia].
    - intros j t2 Hj H2. destruct (index_inside j ltac:(lia)) as [Hin Ej]. destruct (at_cell (caret t) (j / C) (j mod C)) eqn:Ea; [|destruct (at_cell (pp t) (j / C) (j mod C)) eqn:Eb].
      1,2: apply wp_ret; destruct H2 as (p1 & -> & Hp1 & HA); exists p1; split; [easy|]; split; [exact Hp1|]; eapply all_show_mono; [exact HA|]; intros r c Hrc HP; destruct (decide (r * C + c = j)) as [Erc|Erc];
        [destruct (index_inj r c (j / C) (j mod C) Hrc Hin ltac:(lia)) as [-> ->]; apply at_cell_true in Ea || apply at_cell_true in Eb; auto|destruct HP as [HP|[HP|[HP|HP]]]; auto; right; right; right; lia].
      match goal with |- wp _ ?Q1 _ => enough (wp (blit_plain g (j / C) (j mod C)) Q1 t2) as Hb by (unfold blit_plain in Hb; rewrite Ej in Hb; exact Hb) end. eapply (Hplain (j / C) (j mod C) _ (λ r c, in_range (Some (lo, hi)) (r * C + c) = false \/ caret t = Some (r, c) \/ pp t = Some (r, c) \/ r * C + c < j + 1)); [exact Hin|exact H2| |auto].
      intros r c Hrc HP Hne. destruct HP as [HP|[HP|[HP|HP]]]; auto. right; right; right. assert (r * C + c <> j); [|lia]. intros E'. destruct (index_inj r c (j / C) (j mod C) Hrc Hin ltac:(lia)). intuition.
    - intros t2 (p2 & -> & Hp2 & HA). apply Hmove. exists p2. split; [easy|]. split; [exact Hp2|]. eapply all_show_mono; [exact HA|]. intros r c _ _. simpl. destruct (Z.leb_spec lo (r * C + c)), (Z.leb_spec (r * C + c) hi); simpl; auto. right; right; right. lia. }
Qed.

Lemma term_wp_scroll_one v t (Q : unit -> term -> Prop) : drawn v t -> (forall t', drawn (scrolled v) t' -> Q tt t') -> wp (scroll_one g) Q t.
Proof.
  intros Hd HQ. pose proof (drawn_fits _ _ Hd) as Hf. unfold scroll_one. apply wp_bind, wp_get, wp_bind. apply (erase_overlays_ok v); [exact Hd|]. destruct Hd as [E Z1 K1 K2 K3 A K]. rewrite E. intros p1 Hp1 HA. pose proof positive. destruct Z1 as [Zc Zl Zco Zr].
  unfold cells_down. apply wp_bind, wp_bind, wp_get. cbn [tv set_fb]. rewrite E. apply wp_bind. eapply wp_of_option; [exact Zc|]. destruct (Z.ltb_spec C 0), (Z.ltb_spec ((R - 1) * C) 0), (Z.ltb_spec (Z.of_nat (length (grid v))) (C + (R - 1) * C)); try nia. apply wp_modify.
  rewrite take_ge by (rewrite length_drop; nia). set (pre := drop (Z.to_nat C) (grid v)). assert (Z.of_nat (length pre) = (R - 1) * C) as Epre by (unfold pre; rewrite length_drop; nia).
  set (post := drop (Z.to_nat ((R - 1) * C)) (grid v)). assert (Z.of_nat (length post) = C) as Epost by (unfold post; rewrite length_drop; nia).
  set (row := λ c, pre ++ replicate (Z.to_nat c) (blank v) ++ drop (Z.to_nat c) post).
  assert (forall c, 0 <= c <= C -> length (row c) = length (grid v)) as Hrow by (intros c Hc; unfold row; rewrite !length_app, length_replicate, length_drop; nia).
  apply wp_bind. cbn [tv set_fb]. rewrite E. apply (wp_for_range (λ c t1, t1 = set_tv (set_fb t p1) (with_grid v (row c)))); [lia|reflexivity| |].
  { intros c t1 Hc ->. eapply (wp_cell_put (with_grid v (row c))); [reflexivity|apply sized_with; [now split|apply Hrow; lia]|nia|].
    replace (with_grid (with_grid v (row c)) _) with (with_grid v (row (c + 1))); [reflexivity|]. unfold with_grid. f_equal. f_equal. unfold grid, row. simpl.
    replace (Z.to_nat ((R - 1) * C + c)) with (length pre + Z.to_nat c)%nat by lia. rewrite (fill_step idle) by lia. now replace (Z.to_nat (c + 1)) with (S (Z.to_nat c)) by lia. }
  intros t1 ->. replace (with_grid v (row C)) with (scrolled v) by (unfold scrolled, row; rewrite Zco; rewrite (drop_ge post), app_nil_r by lia; reflexivity).
  apply wp_bind. apply (wp_px_scroll D g SU); [exact (fits_same _ _ Hp1 Hf)|]. intros p2 Hp2 Hs2. cbn [fb_pixels set_fb set_tv] in Hp2, Hs2. apply wp_bind. apply (wp_fill_last D g SU); [apply (fits_same (fb_pixels t)); [simpl; congruence|exact Hf]|].
  intros p3 Hp3 Hs3 Hr3. unfold no_overlays. apply wp_bind, wp_modify, wp_modify. cbn [fb_pixels set_fb set_tv] in *. apply HQ. split; simpl; try easy.
  - unfold scrolled. apply sized_with; [now split|]. rewrite length_app, length_drop, length_replicate. nia.
  - intros r c Hin _. destruct (Hin) as [Hr Hc]. destruct (decide (r = R - 1)) as [->|Hne].
    + unfold cell. rewrite (scrolled_last g idle v c) by (auto; lia). apply Hs3. exact Hc.
    + apply Hr3; [lia|exact Hc|]. apply Hs2; [lia|exact Hc|]. replace (cell (scrolled v) r c) with (cell v (r + 1) c); [apply HA; [split; lia|easy]|].
      unfold cell, cell_ref, scrolled, with_grid, grid. simpl. rewrite Zco. rewrite !nth_lookup. rewrite lookup_app_l by (rewrite length_drop; unfold grid in Zl; nia). rewrite lookup_drop. do 3 f_equal. nia.
  - destruct K. split; simpl; auto. congruence.
Qed.

(** All cells become [b] on the background that fills the display. *)
Lemma wp_clear_screen v t (Q : unit -> term -> Prop) : tv t = v -> sized v -> kept t0 t -> (forall t', drawn (with_grid v (replicate (length (grid v)) (blank v))) t' -> Q tt t') -> wp (clear_screen g) Q t.
Proof.
  intros E Z1 K HQ. pose proof (fits_same _ _ (kp_fb _ _ K) Hf0) as Hf. unfold clear_screen. apply wp_bind, wp_gets. rewrite E. apply wp_bind. apply (wp_fill_all D g SU); [exact Hf|]. intros p Hp Hs.
  destruct (Z1) as [Zc Zl Zco Zr]. pose proof positive.
  apply wp_bind. apply (wp_for_range (λ i t1, t1 = set_tv (set_fb t p) (with_grid v (replicate (Z.to_nat i) (blank v) ++ drop (Z.to_nat i) (grid v))))); [nia| | |].
  - simpl. rewrite with_grid_id by exact Zc. rewrite <- E. now destruct t.
  - intros i t1 Hi ->. eapply (wp_cell_put (with_grid v (replicate (Z.to_nat i) (blank v) ++ drop (Z.to_nat i) (grid v)))); [reflexivity|apply sized_with; [exact Z1|rewrite length_app, length_replicate, length_drop; nia]|exact Hi|].
    replace (with_grid (with_grid v _) _) with (with_grid v (replicate (Z.to_nat (i + 1)) (blank v) ++ drop (Z.to_nat (i + 1)) (grid v))); [reflexivity|]. unfold with_grid. f_equal. f_equal. unfold grid at 2. simpl.
    symmetry. replace (Z.to_nat (i + 1)) with (S (Z.to_nat i)) by lia. apply (fill_step idle [] (grid v) (blank v) (Z.to_nat i)). lia.
  - intros t1 ->. rewrite drop_ge, app_nil_r by nia. apply wp_modify. apply HQ. split; simpl; try easy.
    + replace (length (grid v)) with (Z.to_nat (R * C)) by lia. reflexivity.
    + apply sized_with; [exact Z1|apply length_replicate].
    + intros r c Hin _. unfold cell, cell_ref, with_grid, grid. simpl. pose proof (inside_index r c Hin). rewrite nth_lookup, lookup_replicate_2 by (fold (grid v); lia). apply Hs; apply Hin.
    + destruct K. split; simpl; auto. congruence.
Qed.

(** * One byte *)

Lemma term_wp_newline v t (Q : unit -> term -> Prop) : drawn v t -> cur_row v < R -> (forall t', drawn (next_line v) t' -> Q tt t') -> wp (newline g) Q t.
Proof.
  intros Hd Hrow HQ. unfold newline. apply wp_bind. eapply (wp_tv_upd v); [exact Hd|easy|]. intros t1 D1. pose proof (sz_rows _ (dw_sized _ _ Hd)) as Er.
  eapply wp_gets_tv; [exact D1|]. apply wp_when. unfold next_line in HQ. simpl. rewrite Er in *. destruct (Z.leb_spec R (cur_row v + 1)).
  - rewrite (proj2 (Z.ltb_ge _ _)) in HQ by lia. apply wp_bind. apply (term_wp_scroll_one _ _ _ D1). intros t2 D2. eapply (wp_tv_upd _ _ _ _ D2); [easy|]. intros t3 D3. now apply HQ.
  - rewrite (proj2 (Z.ltb_lt _ _)) in HQ by lia. now apply HQ.
Qed.

Lemma wf_inside v : wf g v -> inside (cur_row v) (cur_col v).
Proof. intros [W1 W2 _ _]. now split. Qed.

Lemma term_wp_typed v c t (Q : unit -> term -> Prop) : drawn v t -> wf g v -> (forall t', drawn (typed v c) t' -> Q tt t') ->
  wp (put_glyph_at_cursor g c;; tv_upd (λ v, set_cursor v (cur_row v) (cur_col v + 1));; let* v := gets tv in when (C <=? cur_col v) (newline g)) Q t.
Proof.
  intros Hd Hw HQ. pose proof (wf_inside _ Hw) as Hin. pose proof (sz_cols _ (dw_sized _ _ Hd)) as Ec. unfold put_glyph_at_cursor. apply wp_bind. eapply wp_gets_tv; [exact Hd|].
  apply (term_wp_put_cell v); auto. intros t1 D1. unfold typed in HQ. set (v1 := put_at _ _ _ _) in *. apply wp_bind. eapply (wp_tv_upd v1); [exact D1|easy|]. intros t2 D2. eapply wp_gets_tv; [exact D2|]. apply wp_when.
  change (cur_col (set_cursor v1 _ _)) with (cur_col v + 1). change (cur_row v1) with (cur_row v) in *. change (cur_col v1) with (cur_col v) in *. change (cols v1) with (cols v) in *. rewrite Ec in *. destruct (Z.leb_spec C (cur_col v + 1)).
  - rewrite (proj2 (Z.ltb_ge _ _)) in HQ by lia. apply (term_wp_newline _ _ _ D2); [apply Hin|]. intros t3 D3. apply HQ.
    assert (next_line (set_cursor v1 (cur_row v) (cur_col v + 1)) = next_line v1) as <- by (unfold next_line; simpl; destruct (_ <? _); reflexivity). exact D3.
  - rewrite (proj2 (Z.ltb_lt _ _)) in HQ by lia. now apply HQ.
Qed.

(** Blanks from column [c] to the end of the cursor's row. *)
Lemma wp_blank_row v t (Q : unit -> term -> Prop) : drawn v t -> wf g v -> (forall t', drawn (blank_from (Z.to_nat (C - cur_col v)) (cur_col v) v) t' -> Q tt t') ->
  wp (for_range (cur_col v) C (λ c, put_cell g (cur_row v) c (blank v))) Q t.
Proof.
  intros Hd Hw HQ. destruct (wf_inside _ Hw) as [Hr Hc]. apply (wp_for_range (λ c t1, drawn (blank_from (Z.to_nat (c - cur_col v)) (cur_col v) v) t1)); [lia|now rewrite Z.sub_diag| |auto].
  intros c t1 Hj D1. apply (term_wp_put_cell _ _ _ _ _ _ D1); [split; lia|]. intros t2 D2. replace (Z.to_nat (c + 1 - cur_col v)) with (S (Z.to_nat (c - cur_col v))) by lia. cbn [blank_from].
  now replace (cur_col v + Z.of_nat (Z.to_nat (c - cur_col v))) with c by lia.
Qed.

(** The cells before index [i] stay, those up to [j] become blank. *)
Definition blanked (v : vt_t) (i j : Z) : vt_t :=
  with_grid v (take (Z.to_nat i) (grid v) ++ replicate (Z.to_nat (j - i)) (blank v) ++ drop (Z.to_nat j) (grid v)).
Lemma blanked_put v i r c : sized v -> inside r c -> 0 <= i <= r * C + c -> put_at (blanked v i (r * C + c)) r c (blank v) = blanked v i (r * C + c + 1).
Proof.
  intros [Z1 Z2 Z3 Z4] Hin Hi. pose proof (inside_index r c Hin). unfold put_at, blanked, with_grid. f_equal. f_equal. cbn [cols set_cells]. rewrite Z3. match goal with |- <[_ := _]> (grid (set_cells _ (Some ?l))) = _ => change (grid (set_cells v (Some l))) with l end.
  pose proof (fill_step idle (take (Z.to_nat i) (grid v)) (drop (Z.to_nat i) (grid v)) (blank v) (Z.to_nat (r * C + c - i))) as F. rewrite length_take, length_drop, !drop_drop in F.
  replace (Z.to_nat i `min` length (grid v) + Z.to_nat (r * C + c - i))%nat with (Z.to_nat (r * C + c)) in F by lia. replace (Z.to_nat i + Z.to_nat (r * C + c - i))%nat with (Z.to_nat (r * C + c)) in F by lia.
  rewrite F by lia. replace (Z.to_nat (r * C + c + 1 - i)) with (S (Z.to_nat (r * C + c - i))) by lia. now replace (Z.to_nat (r * C + c + 1)) with (Z.to_nat i + S (Z.to_nat (r * C + c - i)))%nat by lia.
Qed.
Lemma wp_blanked v i r c1 c2 t (Q : unit -> term -> Prop) : sized v -> inside r c1 -> c1 <= c2 <= C -> 0 <= i <= r * C + c1 -> drawn (blanked v i (r * C + c1)) t ->
  (forall t', drawn (blanked v i (r * C + c2)) t' -> Q tt t') -> wp (for_range c1 c2 (λ c, put_cell g r c (blank v))) Q t.
Proof.
  intros Hz [Hr Hc] H2 Hi Hd HQ. apply (wp_for_range (λ c t1, drawn (blanked v i (r * C + c)) t1)); [lia|exact Hd| |auto].
  intros c t1 Hj D1. apply (term_wp_put_cell _ _ _ _ _ _ D1); [split; lia|]. intros t2 D2. rewrite blanked_put in D2; [now rewrite Z.add_assoc|exact Hz|split; lia|lia].
Qed.

Lemma wp_clear_rest v t (Q : unit -> term -> Prop) : drawn v t -> wf g v -> (forall t', drawn (blank_rest v) t' -> Q tt t') -> wp (clear_to_end_of_display g) Q t.
Proof.
  intros Hd Hw HQ. destruct (wf_inside _ Hw) as [Hr Hc]. pose proof (dw_sized _ _ Hd) as Hz. destruct (Hz) as [Z1 Z2 Z3 Z4]. pose proof positive. unfold clear_to_end_of_display. eapply wp_gets_tv; [exact Hd|].
  set (i := cur_row v * C + cur_col v). assert (forall j, j = i -> drawn (blanked v i j) t) as H0.
  { intros j ->. unfold blanked. rewrite Z.sub_diag. simpl. rewrite take_drop. now rewrite with_grid_id. }
  apply wp_bind. apply (wp_blanked v i (cur_row v) (cur_col v) C); [exact Hz|now split|lia|unfold i; nia|now apply H0|]. intros t1 D1.
  apply (wp_for_range (λ r t1, drawn (blanked v i (r * C)) t1)); [lia|now replace ((cur_row v + 1) * C) with (cur_row v * C + C) by lia| |].
  - intros r t2 Hj D2. apply (wp_blanked v i r 0 C); [exact Hz|split; lia|lia|unfold i; nia|now rewrite Z.add_0_r|]. intros t3 D3. now replace ((r + 1) * C) with (r * C + C) by lia.
  - intros t2 D2. apply HQ. replace (blank_rest v) with (blanked v i (R * C)); [exact D2|]. unfold blanked, blank_rest. rewrite drop_ge, app_nil_r by lia. rewrite Z3. fold i. do 3 f_equal. lia.
Qed.

Lemma term_wp_apply_sgr v t (Q : unit -> term -> Prop) : drawn v t -> wf g v -> (forall t', drawn (coloured v) t' -> Q tt t') -> wp apply_sgr Q t.
Proof.
  intros Hd Hw HQ. destruct (wf_params _ _ Hw) as [Hp _]. pose proof (wf_count _ _ Hw) as Hcount. unfold apply_sgr. eapply wp_gets_tv; [exact Hd|].
  set (L := if n_params v =? 0 then [0] else take (Z.to_nat (n_params v)) (params v)). set (count := if n_params v =? 0 then 1 else n_params v).
  assert (Z.of_nat (length L) = count /\ 0 <= count) as [HL H0] by (unfold L, count; destruct (n_params v =? 0); rewrite ?length_take; simpl; lia).
  apply wp_bind. apply (wp_for_range (λ i t1, drawn (foldl (λ v p, sgr p v) v (take (Z.to_nat i) L)) t1)); [lia|exact Hd| |].
  - intros i t1 Hi D1. set (vi := foldl _ v _) in *. assert (n_params vi = n_params v /\ params vi = params v) as [E1 E2].
    { destruct (foldl_colours (take (Z.to_nat i) L) v) as (f & b & d & Ev). unfold vi. now rewrite Ev. }
    destruct (lookup_lt_is_Some_2 L (Z.to_nat i) ltac:(lia)) as [p Ep]. eapply wp_gets_tv; [exact D1|]. rewrite E1, E2.
    assert (forall Q', Q' p t1 -> wp (if i <? n_params v then of_option (arr_get (params v) i) else ret 0) Q' t1) as Hread.
    { intros Q' HQ'. unfold L, count in *. destruct (Z.eqb_spec (n_params v) 0) as [E0|E0].
      - rewrite (proj2 (Z.ltb_ge _ _)) by lia. apply wp_ret. assert (i = 0) as -> by lia. simpl in Ep. congruence.
      - rewrite (proj2 (Z.ltb_lt _ _)) by lia. rewrite lookup_take_lt in Ep by lia. eapply wp_of_option; [|exact HQ']. unfold arr_get. rewrite (proj2 (Z.ltb_ge _ _)) by lia. exact Ep. }
    apply wp_bind, Hread. eapply (wp_tv_upd vi); [exact D1|destruct (sgr_colours p vi) as (f & b & d & ->); easy|]. intros t2 D2.
    replace (Z.to_nat (i + 1)) with (S (Z.to_nat i)) by lia. rewrite (take_S_r _ _ _ Ep), foldl_app. exact D2.
  - intros t1 D1. rewrite take_ge in D1 by lia. unfold coloured in HQ. fold L in HQ. cbv zeta in HQ. set (v' := foldl _ v L) in *. eapply wp_gets_tv; [exact D1|]. apply wp_when.
    destruct (cur_bold v') eqn:Eb; [|now apply HQ]. eapply (wp_tv_upd v'); [exact D1|easy|]. intros t2 D2. apply HQ. now rewrite Eb in D2.
Qed.

Lemma term_wp_param v i def t (Q : Z -> term -> Prop) : wf g v -> 0 <= i -> Q (param v i def) t -> wp (param_or v i def) Q t.
Proof.
  intros Hw Hi HQ. destruct (wf_params _ _ Hw) as [Hp _]. pose proof (wf_count _ _ Hw) as Hcount. unfold param_or, param in *. destruct (Z.leb_spec (n_params v) i); [now apply wp_ret|].
  eapply wp_of_option; [|exact HQ]. unfold arr_get. rewrite (proj2 (Z.ltb_ge _ _)) by lia. destruct (lookup_lt_is_Some_2 (params v) (Z.to_nat i) ltac:(lia)) as [x Ex]. rewrite nth_lookup, Ex. reflexivity.
Qed.
Lemma wp_param1 v i t (Q : Z -> term -> Prop) : wf g v -> 0 <= i -> Q (param1 v i) t -> wp (param_1 v i) Q t.
Proof. intros Hw Hi HQ. apply wp_bind. apply term_wp_param; [exact Hw|exact Hi|]. now apply wp_ret. Qed.

Lemma param1_pos v i : wf g v -> 1 <= param1 v i.
Proof. intros Hw. pose proof (param_word g v i 1 Hw ltac:(now split)) as [H1 _]. unfold param1. destruct (Z.eqb_spec (param v i 1) 0); lia. Qed.

Lemma term_wp_command v c t (Q : unit -> term -> Prop) : drawn v t -> wf g v -> (forall t', drawn (tcommand v c) t' -> Q tt t') -> wp (dispatch_csi g c) Q t.
Proof.
  intros Hd Hw HQ. destruct (wf_inside _ Hw) as [Hr Hc]. destruct (dw_sized _ _ Hd) as [Z1 Z2 Z3 Z4]. pose proof (param1_pos v 0 Hw). pose proof (param1_pos v 1 Hw). unfold dispatch_csi. eapply wp_gets_tv; [exact Hd|]. unfold tcommand in HQ.
  assert (forall x y, (forall t', drawn (set_cursor v x y) t' -> Q tt t') -> forall f, f v = set_cursor v x y -> wp (tv_upd f) Q t) as Hmove.
  { intros x y HQ' f Ef. eapply (wp_tv_upd v); [exact Hd|now rewrite Ef|]. rewrite Ef. exact HQ'. }
  destruct (c =? 65); [apply wp_bind, wp_param1; [exact Hw|lia|]; eapply Hmove; [exact HQ|]; cbv beta; f_equal; destruct (Z.ltb_spec (param1 v 0) (cur_row v)); lia|].
  destruct (c =? 66); [apply wp_bind, wp_param1; [exact Hw|lia|]; eapply Hmove; [exact HQ|]; cbv beta; f_equal; rewrite Z4; destruct (Z.leb_spec R (cur_row v + param1 v 0)); lia|].
  destruct (c =? 67); [apply wp_bind, wp_param1; [exact Hw|lia|]; eapply Hmove; [exact HQ|]; cbv beta; f_equal; rewrite Z3; destruct (Z.leb_spec C (cur_col v + param1 v 0)); lia|].
  destruct (c =? 68); [apply wp_bind, wp_param1; [exact Hw|lia|]; eapply Hmove; [exact HQ|]; cbv beta; f_equal; destruct (Z.ltb_spec (param1 v 0) (cur_col v)); lia|].
  destruct (_ || _).
  { apply wp_bind, wp_param1; [exact Hw|lia|]. apply wp_bind, wp_param1; [exact Hw|lia|]. eapply Hmove; [exact HQ|]. cbv beta. rewrite Z3, Z4. f_equal; [destruct (Z.ltb_spec R (param1 v 0))|destruct (Z.ltb_spec C (param1 v 1))]; lia. }
  destruct (c =? 74).
  { apply wp_bind, term_wp_param; [exact Hw|lia|]. destruct (_ =? 0); [now apply (wp_clear_rest v)|]. apply wp_when. destruct (_ =? 2); [|now apply HQ]. apply wp_bind. apply (wp_clear_screen v); try apply Hd. intros t1 D1.
    eapply (wp_tv_upd _ _ _ _ D1); [easy|]. intros t2 D2. now apply HQ. }
  destruct (c =? 75).
  { apply wp_bind, term_wp_param; [exact Hw|lia|]. apply wp_when. destruct (_ =? 0); [|now apply HQ]. unfold clear_line_to_eol. eapply wp_gets_tv; [exact Hd|]. apply wp_blank_row; auto. now rewrite <- Z3. }
  apply wp_when. destruct (c =? 109); [|now apply HQ]. now apply (term_wp_apply_sgr v).
Qed.

Lemma term_wp_tab v t (Q : unit -> term -> Prop) : drawn v t -> wf g v -> tab_stop v < C -> (forall t', drawn (spaces (Z.to_nat (tab_stop v - cur_col v)) v) t' -> Q tt t') ->
  wp (for_range (cur_col v) (tab_stop v) (λ _, put_glyph_at_cursor g 32;; tv_upd (λ v, set_cursor v (cur_row v) (cur_col v + 1)))) Q t.
Proof.
  intros Hd Hw Ht HQ. destruct (wf_inside _ Hw) as [Hr Hc]. destruct (Z.le_gt_cases (tab_stop v) (cur_col v)) as [Hle|Hgt].
  { apply wp_for_none; [lia|]. apply HQ. now replace (Z.to_nat (tab_stop v - cur_col v)) with O by lia. }
  apply (wp_for_range (λ c t1, drawn (spaces (Z.to_nat (c - cur_col v)) v) t1)); [lia|now rewrite Z.sub_diag| |auto].
  intros c t1 Hj D1. destruct (spaces_cursor idle (Z.to_nat (c - cur_col v)) v) as [E1 E2]. replace (Z.to_nat (c + 1 - cur_col v)) with (S (Z.to_nat (c - cur_col v))) by lia. cbn [spaces]. set (v1 := spaces (Z.to_nat (c - cur_col v)) v) in *.
  unfold put_glyph_at_cursor. apply wp_bind. eapply wp_gets_tv; [exact D1|]. apply (term_wp_put_cell v1); [exact D1|split; lia|]. intros t2 D2. eapply (wp_tv_upd _ _ _ _ D2); [easy|auto].
Qed.

Lemma term_wp_byte v c t (Q : unit -> term -> Prop) : drawn v t -> wf g v -> parsing v -> within v c -> (forall t', drawn (tfeed v c) t' -> Q tt t') -> wp (vt_input_byte g c) Q t.
Proof.
  intros Hd Hw Hq Hin HQ. destruct (wf_inside _ Hw) as [Hr Hc]. unfold vt_input_byte. eapply wp_gets_tv; [exact Hd|]. unfold tfeed, feed_with in HQ. destruct (pstate v) eqn:Ep.
  - unfold ground_byte. eapply wp_gets_tv; [exact Hd|]. destruct (c =? 27); [now apply (wp_tv_upd v)|]. destruct (c =? 10); [now apply (term_wp_newline v)|]. destruct (c =? 13); [now apply (wp_tv_upd v)|]. destruct (c =? 8).
    { apply wp_when. destruct (Z.ltb_spec 0 (cur_col v)); [|now apply HQ]. apply wp_bind. eapply (wp_tv_upd v); [exact Hd|easy|]. intros t1 D1. apply (term_wp_put_cell _ _ _ _ _ _ D1); [split; lia|auto]. }
    destruct (Z.eqb_spec c 9) as [->|]; [|now apply (term_wp_typed v)]. pose proof (Hin Ep eq_refl) as Ht. rewrite (sz_cols _ (dw_sized _ _ Hd)) in Ht. fold (tab_stop v). rewrite (proj2 (Z.ltb_ge _ _)) by lia. now apply term_wp_tab.
  - destruct (c =? 91); [|now apply (wp_tv_upd v)]. apply wp_bind. eapply (wp_tv_upd v); [exact Hd|easy|]. intros t1 D1. now apply (wp_tv_upd _ _ _ _ D1).
  - destruct (wf_params _ _ Hw) as [Hlen _]. pose proof (wf_count _ _ Hw) as Hcount. unfold csi_byte. eapply wp_gets_tv; [exact Hd|]. destruct (_ && _).
    { apply wp_when. destruct (Z.ltb_spec (n_params v) 8) as [Hn|]; [|now apply HQ]. destruct (lookup_lt_is_Some_2 (params v) (Z.to_nat (n_params v)) ltac:(lia)) as [x Ex]. apply wp_bind. eapply wp_of_option.
      { unfold arr_get. rewrite (proj2 (Z.ltb_ge _ _)) by lia. exact Ex. }
      apply wp_bind. rewrite arr_set_lt by lia. eapply (wp_tv_upd v); [exact Hd|easy|]. rewrite nth_lookup, Ex in HQ. exact HQ. }
    destruct (c =? 59); [now apply (wp_tv_upd v)|]. apply wp_when. destruct (_ && _); [|now apply HQ]. apply wp_bind. eapply (wp_tv_upd v); [exact Hd|easy|]. intros t1 D1. apply wp_bind. apply (term_wp_command _ _ _ _ D1); [now apply (wf_opened g idle)|].
    intros t2 D2. now apply (wp_tv_upd _ _ _ _ D2).
Qed.

(** The cursor stays on the screen. *)
Lemma wf_tcommand v c : wf g v -> rows v = R -> cols v = C -> wf g (tcommand v c).
Proof.
  intros Hw Er Ec. destruct (wf_inside _ Hw) as [Hr Hc]. pose proof (param1_pos v 0 Hw). pose proof (param1_pos v 1 Hw). pose proof positive. unfold tcommand.
  repeat case_match; try exact Hw; try (apply (wf_cursor g v _ Hw); simpl; rewrite ?Er, ?Ec; lia || easy).
  - pose proof (wf_command g SU idle 0 idle_0 v 75 Hw Er Ec) as Hcmd. unfold command in Hcmd. simpl in Hcmd. now rewrite H9 in Hcmd.
  - exact (wf_command g SU idle 0 idle_0 v 109 Hw Er Ec).
Qed.
End Input.

(** * Events *)

(** The screen between two events. *)
Record screen (t : term) : Prop := {
  sc_fits : fits (fb_pixels t);
  sc_sized : sized (tv t);
  sc_wf : wf g (tv t);
  sc_parsing : parsing (tv t);
  sc_caret : marked (caret t);
  sc_sel : selected (sel t);
  sc_sp : sp t = sel_logical (sel t);
  sc_mouse : marked (pointer (mouse t));
  sc_pp : pp t = pointer (mouse t);
  sc_show : all_show (fb_pixels t) (off_caret t) (look (tv t) (sp t) (pp t)) }.

Lemma kept_selected t0 t : kept t0 t -> selected (sel t0) -> selected (sel t).
Proof. intros [_ _ _ _ _ [E1 E2] _ _] [S1 S2]. split; congruence. Qed.

(** After the parser has drawn over the overlays they are all painted again. *)
Lemma repaint_ok v t0 t (Q : unit -> term -> Prop) : fits (fb_pixels t0) -> drawn t0 v t -> wf g v -> parsing v -> selected (sel t0) -> marked (pointer (mouse t0)) ->
  sp t0 = sel_logical (sel t0) -> pp t0 = pointer (mouse t0) ->
  (forall t', screen t' -> tv t' = v -> kbd t' = kbd t0 -> clipboard t' = clipboard t0 -> to_pty t' = to_pty t0 -> Q tt t') -> wp (overlays_full_repaint g) Q t.
Proof.
  intros Hf0 Hd Hw Hq Hsel Hm Esp Epp HQ. pose proof (drawn_fits t0 Hf0 v t Hd) as Hf. destruct Hd as [E Z1 K1 K2 K3 A K]. pose proof (kept_selected _ _ K Hsel) as Hsel'. unfold overlays_full_repaint. apply wp_bind, wp_modify.
  set (now := sel_logical (sel t)). set (ex := λ r c, caret t = Some (r, c) \/ pointer (mouse t) = Some (r, c)).
  apply wp_bind. apply (reconcile_selection_ok _ ex now); simpl; auto; [now rewrite E|now intros ?|now apply logical_ranged| |].
  { intros r c Hin [Hex Hi]. destruct Hi as [Hi|Hi]; [easy|]. unfold by_range. simpl. rewrite E. apply A; [exact Hin|]. unfold ex in Hex. split; [intros Hx; apply Hex; now left|]. split.
    - destruct (kp_sp _ _ K) as [-> | [-> Es]]; [easy|]. rewrite Esp, <- Es. exact Hi.
    - destruct (kp_pp _ _ K) as [-> | ->]; [easy|]. rewrite Epp, <- (kp_mouse _ _ K). intros Hx. apply Hex. now right. }
  intros p Hp Hs. apply wp_bind. pose proof (fits_same _ _ Hp Hf) as Hf1. assert (marked (pointer (mouse t))) as Hm' by (rewrite (kp_mouse _ _ K); exact Hm).
  apply reconcile_pointer_ok; simpl; auto; [now rewrite E|now intros ?| |].
  { intros r c Hin (H1 & _ & H2). apply Hs; [exact Hin|]. unfold ex. intros [Hx|Hx]; [now apply H1|now apply H2]. }
  intros p2 Hp2 Hs2. simpl in Hp2. assert (fits p2) as Hf2 by (apply (fits_same (fb_pixels t)); [congruence|exact Hf]).
  apply caret_redraw_ok; simpl; auto; [now rewrite E|rewrite E; now apply wf_inside|]. intros p3 o Hp3 Ho Hs3. simpl in Hp3. apply HQ; simpl; auto; try apply K. split; simpl; auto; try (rewrite E; assumption).
  apply (fits_same (fb_pixels t)); [congruence|exact Hf].
Qed.

Definition within_all (v : vt_t) (l : list Z) : Prop := forall l1 c l2, l = l1 ++ c :: l2 -> within (foldl tfeed v l1) c.
Lemma within_cons v c l : within_all v (c :: l) -> within v c /\ within_all (tfeed v c) l.
Proof. intros Hall. split; [exact (Hall [] c l eq_refl)|]. intros l1 c' l2 ->. exact (Hall (c :: l1) c' l2 eq_refl). Qed.

Lemma wp_input l v t0 t (Q : unit -> term -> Prop) : fits (fb_pixels t0) -> drawn t0 v t -> wf g v -> parsing v -> within_all v l ->
  (forall t', drawn t0 (foldl tfeed v l) t' -> wf g (foldl tfeed v l) -> parsing (foldl tfeed v l) -> Q tt t') -> wp (input_bytes g l) Q t.
Proof.
  intros Hf. revert v t. induction l as [|c l IH]; intros v t Hd Hw Hq Hall HQ; simpl; [apply wp_ret; auto|]. destruct (within_cons _ _ _ Hall) as [Hc Hl]. destruct (dw_sized _ _ _ Hd) as [_ _ Zc Zr].
  apply wp_bind. apply (term_wp_byte t0 Hf v); auto. intros t1 D1. apply (IH (tfeed v c)); auto.
  - apply (wf_feed_with g SU idle 0 idle_0); auto. intros w Hw' Er Ec. now apply wf_tcommand.
  - now apply (parsing_feed idle 0 idle_0).
Qed.

Lemma screen_drawn t : screen t -> drawn t (tv t) t.
Proof.
  intros [S1 S2 S3 S4 S5 S6 S7 S8 S9 S10]. split; auto; [rewrite S9; exact S8|rewrite S7; now apply logical_ranged| |apply kept_refl].
  intros r c Hin (H1 & H2 & H3). specialize (S10 r c Hin H1). unfold look in S10. apply at_cell_false in H3. rewrite H2, H3 in S10. exact S10.
Qed.

(** The mouse. *)
Lemma clip_to_range x hi : 0 <= hi -> 0 <= clip_to x hi <= hi.
Proof. unfold clip_to. intros. destruct (Z.ltb_spec x 0); cbv zeta; [destruct (Z.ltb_spec hi 0)|destruct (Z.ltb_spec hi x)]; lia. Qed.

Lemma handle_mouse_ok dx dy b m s visible m' s' : handle_mouse g dx dy b m s = (visible, m', s') -> selected s -> marked (pointer m) ->
  selected s' /\ marked (pointer m') /\ (visible = false -> pointer m' = pointer m /\ sel_logical s' = sel_logical s).
Proof.
  intros E Hs Hm. pose proof positive. pose proof (su_glyph g SU). destruct (su_cols g SU), (su_rows g SU). unfold handle_mouse in E.
  set (x := clip_to (mx_px m + dx) _) in E. set (y := clip_to (my_px m + dy) _) in E. assert (0 < width /\ 0 < height) as [Hw Hh] by nia.
  assert (0 <= x) as Hx by (apply clip_to_range; lia). assert (0 <= y) as Hy by (apply clip_to_range; lia). clearbody x y.
  set (r := if R <=? y / g_glyph_h g then _ else _) in E. set (c := if C <=? x / g_glyph_w g then _ else _) in E.
  assert (inside r c) as Hin. { pose proof (Z.div_pos y (g_glyph_h g) Hy ltac:(lia)). pose proof (Z.div_pos x (g_glyph_w g) Hx ltac:(lia)). unfold r, c. split; destruct (Z.leb_spec R (y / g_glyph_h g)), (Z.leb_spec C (x / g_glyph_w g)); lia. }
  clearbody r c. pose proof (inside_index _ _ Hin) as Hi. injection E as Ev <- <-. set (s1 := if _ && _ then Sel true _ _ else _) in *. assert (selected s1) as Hs1 by (destruct Hs; unfold s1, selected; repeat case_match; simpl; auto).
  split; [exact Hs1|]. split; [intros r' c' [= <- <-]; exact Hin|]. intros ->. apply orb_false_iff in Ev as [Ev1 Ev2]. apply orb_false_iff in Ev1 as [Er Ec]. apply orb_false_iff in Ev2 as [Eh Ea]. split; [unfold pointer; simpl; f_equal; f_equal; lia|].
  apply negb_false_iff, Bool.eqb_prop in Eh. unfold sel_logical. rewrite Eh in *. destruct (have_selection s); [|easy]. simpl in Ea. replace (sel_anchor s1) with (sel_anchor s) by lia. now replace (sel_head s1) with (sel_head s) by lia.
Qed.

Section Events.
Context (ptmx : list Z -> list Z -> Z).

(** The bytes of the pty that the events bring, and what the events must be:
    no tab reaches the end of a row, and a framebuffer is a whole one. *)
Definition event_bytes (e : event) : list Z := match e with EvPty l => l | _ => [] end.
Definition allowed (v : vt_t) (e : event) : Prop :=
  match e with EvPty l => within_all v l | EvWinch p => fits p | _ => True end.
Fixpoint all_allowed (v : vt_t) (es : list event) : Prop :=
  match es with [] => True | e :: es => allowed v e /\ all_allowed (foldl tfeed v (event_bytes e)) es end.

Lemma chars_at_ok n i t (Q : list Z -> term -> Prop) : sized (tv t) -> 0 <= i -> i + Z.of_nat n <= R * C -> (forall l, Q l t) -> wp (chars_at n i) Q t.
Proof.
  intros Hz. revert i Q. induction n as [|n IH]; intros i Q Hi Hn HQ; simpl; [now apply wp_ret|]. apply wp_bind. apply wp_cell_index; [exact Hz|lia|]. apply wp_bind. apply IH; [lia|lia|]. intros l. now apply wp_ret.
Qed.
Lemma copy_rows_ok n lo hi row out t (Q : list Z -> term -> Prop) : sized (tv t) -> 0 <= lo <= hi -> hi < R * C -> lo / C <= row -> row + Z.of_nat n <= hi / C + 1 -> (forall l, Q l t) -> wp (copy_rows g n lo hi row out) Q t.
Proof.
  intros Hz Hlo Hhi. revert row out. induction n as [|n IH]; intros row out Hrow Hn HQ; simpl; [now apply wp_ret|]. destruct (_ <=? _); [now apply wp_ret|]. apply wp_bind.
  pose proof positive. destruct (index_inside lo ltac:(lia)) as [[L1 L2] EL], (index_inside hi ltac:(lia)) as [[U1 U2] EU].
  apply chars_at_ok; [exact Hz| | |].
  - destruct (Z.eqb_spec row (lo / C)); nia.
  - destruct (Z.eqb_spec row (lo / C)), (Z.eqb_spec row (hi / C)); nia.
  - intros l. apply IH; [lia|lia|exact HQ].
Qed.

Lemma paste_ok t (Q : unit -> term -> Prop) : (forall l, Q tt (set_to_pty t l)) -> wp (clipboard_paste ptmx) Q t.
Proof.
  intros HQ. unfold clipboard_paste. apply wp_bind, wp_gets. assert (Q tt t) as HQt by (specialize (HQ (to_pty t)); now destruct t). destruct (_ =? 0); [now apply wp_ret|].
  apply (wp_loop (λ n sent t1, (exists l, t1 = set_to_pty t l) /\ 0 <= sent /\ (n = Z.to_nat (Z.of_nat (length (clipboard t)) - sent))) (length (clipboard t))); [|lia|].
  - split; [exists (to_pty t); now destruct t|]. lia.
  - intros n sent t1 ([l ->] & Hs & Hn). unfold paste_step. destruct (Z.leb_spec (Z.of_nat (length (clipboard t))) sent); [apply wp_ret, HQ|]. unfold write_pty. apply wp_bind, wp_bind, wp_get, wp_bind, wp_modify, wp_ret.
    destruct (Z.leb_spec (ptmx (to_pty (set_to_pty t l)) (map pasted (take 64 (drop (Z.to_nat sent) (clipboard t))))) 0) as [Hw|Hw]; apply wp_ret; [apply HQ|].
    eexists. split; [|split; [eexists; reflexivity|split; [|reflexivity]]]; lia.
Qed.

Lemma screen_other t k cl out : screen t -> screen (set_kbd (set_clipboard (set_to_pty t out) cl) k).
Proof. intros [S1 S2 S3 S4 S5 S6 S7 S8 S9 S10]. now split. Qed.

Lemma pty_ok l t (Q : unit -> term -> Prop) : screen t -> within_all (tv t) l -> (forall t', screen t' -> tv t' = foldl tfeed (tv t) l -> Q tt t') -> wp (handle_event g ptmx (EvPty l)) Q t.
Proof.
  intros Hs Ha HQ. pose proof (screen_drawn t Hs) as Hd. destruct (Hs) as [S1 S2 S3 S4 S5 S6 S7 S8 S9 S10]. unfold handle_event. apply wp_bind. apply (wp_input l (tv t) t); auto. intros t1 D1 W1 P1. apply wp_bind, wp_modify.
  assert (drawn (set_blink t true) (foldl tfeed (tv t) l) (set_blink t1 true)) as D2 by (destruct D1 as [E Z1 K1 K2 K3 A [k1 k2 k3 k4 k5 k6 k7 k8]]; split; simpl; auto; now split).
  apply (repaint_ok (foldl tfeed (tv t) l) (set_blink t true)); auto.
Qed.

Lemma kbd_ok sc t (Q : unit -> term -> Prop) : screen t -> (forall t', screen t' -> tv t' = tv t -> Q tt t') -> wp (handle_event g ptmx (EvKbd sc)) Q t.
Proof.
  intros Hs HQ. unfold handle_event. apply wp_bind, wp_get. destruct (translate_one _ _) as [k out]. apply wp_bind, wp_modify. destruct (kbd_shortcut k =? 1); [|destruct (kbd_shortcut k =? 2)].
  - unfold clipboard_copy_selection. apply wp_bind, wp_get. cbn [sel set_kbd]. destruct (sel_logical (sel t)) as [[lo hi]|] eqn:El.
    + destruct (logical_ranged _ (sc_sel _ Hs) lo hi El) as [Hlo Hhi]. apply wp_bind. apply copy_rows_ok; auto; [apply Hs|lia| |].
      { pose proof positive. pose proof (Z.div_le_mono lo hi C ltac:(lia) ltac:(lia)). lia. }
      intros l. apply wp_modify. apply HQ; [|easy]. exact (screen_other t k l (to_pty t) Hs).
    + apply wp_modify. apply HQ; [|easy]. exact (screen_other t k [] (to_pty t) Hs).
  - apply paste_ok. intros l. apply HQ; [|easy]. exact (screen_other t k (clipboard t) l Hs).
  - apply wp_when. destruct (_ <? _); [unfold write_pty; apply wp_bind, wp_bind, wp_get, wp_bind, wp_modify, wp_ret, wp_ret|]; (apply HQ; [|easy]); [exact (screen_other t k (clipboard t) _ Hs)|exact (screen_other t k (clipboard t) (to_pty t) Hs)].
Qed.

Lemma mouse_ok dx dy b t (Q : unit -> term -> Prop) : screen t -> (forall t', screen t' -> tv t' = tv t -> Q tt t') -> wp (handle_event g ptmx (EvMouse dx dy b)) Q t.
Proof.
  intros Hs HQ. unfold handle_event. apply wp_bind, wp_get. destruct (handle_mouse g dx dy b (mouse t) (sel t)) as [[visible m] s] eqn:Em. destruct Hs as [S1 S2 S3 S4 S5 S6 S7 S8 S9 S10].
  destruct (handle_mouse_ok _ _ _ _ _ _ _ _ Em S6 S8) as (M1 & M2 & M3). apply wp_bind, wp_modify, wp_when. destruct visible.
  - apply wp_bind. assert (marked (pp t)) as Hpp by (rewrite S9; exact S8). apply (reconcile_selection_ok _ (λ r c, caret t = Some (r, c) \/ pp t = Some (r, c)) (sel_logical s)); simpl; auto; [rewrite S7; now apply logical_ranged|now apply logical_ranged| |].
    { intros r c Hin [Hex _]. rewrite <- (look_range (tv t) (sp t) (pp t)) by (intros Hx; apply Hex; now right). apply S10; [exact Hin|]. intros Hx. apply Hex. now left. }
    intros p Hp Hs. pose proof (fits_same _ _ Hp S1) as Hf1. apply reconcile_pointer_ok; simpl; auto.
    { intros r c Hin (H1 & H2 & _). apply Hs; [exact Hin|]. intros [Hx|Hx]; [now apply H1|now apply H2]. }
    intros p2 Hp2 Hs2. simpl in Hp2. apply HQ; [|easy]. split; simpl; auto. apply (fits_same (fb_pixels t)); [congruence|exact S1].
  - destruct (M3 eq_refl) as [E1 E2]. apply HQ; [|easy]. split; simpl; auto; congruence.
Qed.

Lemma blink_ok t (Q : unit -> term -> Prop) : screen t -> (forall t', screen t' -> tv t' = tv t -> Q tt t') -> wp (handle_event g ptmx EvBlink) Q t.
Proof.
  intros [S1 S2 S3 S4 S5 S6 S7 S8 S9 S10] HQ. unfold handle_event. apply wp_bind, wp_modify. apply caret_redraw_ok; simpl; auto; [now apply wf_inside|]. intros p o Hp Ho Hs. apply HQ; [|easy]. split; simpl; auto. exact (fits_same _ _ Hp S1).
Qed.

(** All cells are drawn plain, whatever the framebuffer held. *)
Lemma redraw_ok t (Q : unit -> term -> Prop) : fits (fb_pixels t) -> sized (tv t) ->
  (forall p, length p = length (fb_pixels t) -> all_show p (λ _ _, True) (cell (tv t)) -> Q tt (set_pp (set_sp (set_caret (set_fb t p) None) None) None)) -> wp (redraw_all g) Q t.
Proof.
  intros Hf S2 HQ. unfold redraw_all. apply wp_bind, wp_gets. apply wp_bind. apply (wp_fill_all D g SU); [exact Hf|]. intros p1 Hp1 _. destruct (S2) as [Zc Zl Zco Zr]. pose proof positive. apply wp_bind.
  apply (wp_for_range (λ r t1, exists p2, t1 = set_fb t p2 /\ length p2 = length (fb_pixels t) /\ all_show p2 (λ r' _, r' < r) (cell (tv t)))); [lia| | |].
  { exists p1. split; [easy|]. split; [exact Hp1|]. intros r c [Hr _]. lia. }
  - intros r t1 Hr (p2 & -> & Hp2 & HA). apply (wp_for_range (λ c t1, exists p2, t1 = set_fb t p2 /\ length p2 = length (fb_pixels t) /\ all_show p2 (λ r' c', r' < r \/ r' = r /\ c' < c) (cell (tv t)))); [lia| | |].
    { exists p2. split; [easy|]. split; [exact Hp2|]. eapply all_show_mono; [exact HA|]. intros r' c' [_ Hc'] [Hx|Hx]; lia. }
    + intros c t1 Hc (p3 & -> & Hp3 & HA3). apply (wp_plain r c (set_fb t p3)); [exact (fits_same _ _ Hp3 Hf)|exact S2|now split|]. intros p4 Hp4 Hs4 Hb4. exists p4. split; [easy|]. split; [simpl in Hp4; congruence|].
      eapply (all_show_step p3 p4 r c); [exact HA3|exact Hb4|auto|]. intros r' c' _ HP Hne. cbv beta in *. lia.
    + intros t1 (p3 & -> & Hp3 & HA3). exists p3. split; [easy|]. split; [exact Hp3|]. eapply all_show_mono; [exact HA3|]. intros r' c' [_ Hc'] Hx. lia.
  - intros t1 (p2 & -> & Hp2 & HA). apply wp_modify. apply HQ; [exact Hp2|]. eapply all_show_mono; [exact HA|]. intros r c [Hr _] _. lia.
Qed.

Lemma winch_ok p t (Q : unit -> term -> Prop) : screen t -> fits p -> (forall t', screen t' -> tv t' = tv t -> Q tt t') -> wp (handle_event g ptmx (EvWinch p)) Q t.
Proof.
  intros [S1 S2 S3 S4 S5 S6 S7 S8 S9 S10] Hp HQ. unfold handle_event. apply wp_bind, wp_modify. apply wp_bind. apply redraw_ok; [exact Hp|exact S2|]. intros p2 Hp2 HA. apply wp_bind, wp_modify.
  apply (repaint_ok (tv t) (set_blink (set_fb t p) true)); auto. split; simpl; try easy.
  - intros r c Hin _. now apply HA.
  - split; simpl; auto.
Qed.

Lemma event_ok e t (Q : unit -> term -> Prop) : screen t -> allowed (tv t) e -> (forall t', screen t' -> tv t' = foldl tfeed (tv t) (event_bytes e) -> Q tt t') -> wp (handle_event g ptmx e) Q t.
Proof. destruct e; intros Hs Ha HQ; [now apply pty_ok|now apply kbd_ok|now apply mouse_ok|now apply blink_ok|now apply winch_ok]. Qed.

Lemma events_ok es t (Q : unit -> term -> Prop) : screen t -> all_allowed (tv t) es -> (forall t', screen t' -> tv t' = foldl tfeed (tv t) (concat (map event_bytes es)) -> Q tt t') -> wp (handle_events g ptmx es) Q t.
Proof.
  revert t. induction es as [|e es IH]; intros t Hs Ha HQ; simpl in *; [apply wp_ret; now apply HQ|]. destruct Ha as [Ha Hes]. apply wp_bind. apply event_ok; auto. intros t1 S1 E1. apply IH; [exact S1|now rewrite E1|].
  intros t2 S2 E2. apply HQ; [exact S2|]. rewrite E2, E1. now rewrite foldl_app.
Qed.

(** An empty screen. *)
Definition fresh : vt_t := Vt false C R (Some (replicate (Z.to_nat (R * C)) (Cell 32 7 0))) 0 0 7 0 false VT_GROUND (replicate 8 0) 0 false.

Lemma term_fresh_ok : sized fresh /\ wf g fresh /\ parsing fresh.
Proof.
  pose proof positive. split; [split; simpl; auto; unfold fresh, grid; simpl; rewrite length_replicate; nia|]. split; [|easy].
  split; simpl; try lia. split; [easy|]. repeat (apply Forall_cons_2; [now split|]). apply Forall_nil_2.
Qed.

Lemma centre_cell n k m : 0 < k -> m = n / k -> 0 < m -> 0 <= n / 2 / k < m.
Proof.
  intros Hk Hm Hpos. pose proof (Z_div_mod_eq_full n k). pose proof (Z.mod_pos_bound n k Hk). assert (0 <= n) by nia. split; [apply Z.div_pos; [apply Z.div_pos; lia|lia]|].
  apply Z.div_lt_upper_bound; [lia|]. apply Z.div_lt_upper_bound; [lia|]. nia.
Qed.

Lemma start_ok p (Q : unit -> term -> Prop) : fits p -> C = width / g_glyph_w g -> R = height / g_glyph_h g -> (forall t, screen t -> tv t = fresh -> Q tt t) -> wp (start g) Q (boot g p).
Proof.
  intros Hf HC HR HQ. pose proof positive as [HR0 HC0]. pose proof (su_glyph g SU) as [Hgw Hgh]. destruct term_fresh_ok as (F1 & F2 & F3). unfold start. apply wp_bind.
  assert (sized (tv (boot g p))) as Hz by (split; simpl; auto; unfold grid; simpl; rewrite length_replicate; nia).
  eapply (wp_clear_screen (boot g p) Hf); [reflexivity|exact Hz|apply kept_refl|]. intros t1 D1. apply wp_bind, wp_modify.
  set (m := Mouse _ _ _ _ _). assert (marked (pointer m)) as Hm. { intros r c [= <- <-]. split; simpl; now apply centre_cell. }
  replace (with_grid _ _) with fresh in D1 by (unfold fresh, with_grid, grid; simpl; now rewrite length_replicate).
  apply (repaint_ok fresh (set_pp (set_mouse (boot g p) m) (pointer m))); auto.
  - destruct D1 as [E Z1 K1 K2 K3 A [k1 k2 k3 k4 k5 k6 k7 k8]]. simpl in *. split; simpl; auto. split; simpl; auto. destruct k8 as [k8|k8]; now left.
  - simpl. pose proof (proj1 (conj HR0 HC0)). split; simpl; nia.
Qed.
Lemma run_ok p es : fits p -> C = width / g_glyph_w g -> R = height / g_glyph_h g -> all_allowed fresh es ->
  wp (start g;; handle_events g ptmx es) (λ _ t, screen t /\ tv t = foldl tfeed fresh (concat (map event_bytes es))) (boot g p).
Proof.
  intros Hf HC HR Ha. apply wp_bind. apply start_ok; auto. intros t1 S1 E1. apply events_ok; [exact S1|now rewrite E1|]. intros t2 S2 E2. now rewrite E1 in E2.
Qed.
End Events.
End Terminal.

(** C33. While [/bin/term] runs, in every sequence of events - bytes from the
    shell in pieces of any size, keys, mouse movements and buttons, blinks of
    the caret, and repaints after another terminal has overwritten the
    framebuffer - as long as no tab reaches the end of a row, nothing goes out
    of bounds; its screen holds what the reference terminal makes of the bytes,
    and after the last event every pixel of every cell but the caret's is that
    of the cell's character in its colours, which are swapped exactly under the
    selection or under the pointer, but not under both. *)
Theorem terminal_shows_output `{Display} g ptmx p es : suits g -> g_cols g = width / g_glyph_w g -> g_rows g = height / g_glyph_h g ->
  height * pitch_px <= Z.of_nat (length p) -> all_allowed (fresh g) es ->
  wp (start g;; handle_events g ptmx es) (λ _ t,
    tv t = foldl tfeed (fresh g) (concat (map event_bytes es)) /\
    forall r c, 0 <= r < g_rows g -> 0 <= c < g_cols g -> caret t <> Some (r, c) ->
      show _ g (fb_pixels t) r c (look g (tv t) (sel_logical (sel t)) (pointer (mouse t)) r c)) (boot g p).
Proof.
  intros SU HC HR Hf Ha. eapply wp_mono; [now apply (run_ok g SU ptmx p es)|]. intros [] t [S E]. split; [exact E|]. intros r c Hr Hc Hoff.
  rewrite <- (sc_sp _ _ S), <- (sc_pp _ _ S). apply (sc_show _ _ S); [now split|exact Hoff].
Qed.

(** * The clipboard *)

(** A row without the spaces at its end. *)
Fixpoint strip (l : list Z) : list Z :=
  match l with
  | [] => []
  | c :: l => match strip l with [] => if c =? 32 then [] else [c] | l' => c :: l' end
  end.
Fixpoint join (rows : list (list Z)) : list Z :=
  match rows with [] => [] | [r] => r | r :: rows => r ++ 10 :: join rows end.

Section Clipboard.
Context {D : Display} (g : geometry) (SU : suits g).
Local Abbreviation R := (g_rows g).
Local Abbreviation C := (g_cols g).

(** The selected part of row [r], and the whole selection. *)
Definition row_text (v : vt_t) (lo hi r : Z) : list Z :=
  let c0 := if r =? lo / C then lo mod C else 0 in
  let c1 := if r =? hi / C then hi mod C else C - 1 in
  strip (map (λ c, ch (cell g v r c)) (seqZ c0 (c1 - c0 + 1))).
Definition selection_text (v : vt_t) (lo hi : Z) : list Z :=
  take 4096 (join (map (row_text v lo hi) (seqZ (lo / C) (hi / C - lo / C + 1)))).

Lemma text_end_strip l i acc : text_end l i acc = if decide (strip l = []) then acc else (i + length (strip l))%nat.
Proof.
  revert i acc. induction l as [|c l IH]; intros i acc; [easy|]. simpl. rewrite IH. destruct (strip l) as [|d l'] eqn:E.
  - rewrite decide_True by easy. destruct (c =? 32); simpl; [easy|lia].
  - rewrite !decide_False by easy. simpl. lia.
Qed.
Lemma take_strip l : take (length (strip l)) l = strip l.
Proof. induction l as [|c l IH]; [easy|]. simpl. destruct (strip l) as [|d l']; [now destruct (c =? 32)|]. simpl in *. now rewrite IH. Qed.
Lemma strip_trim l : take (text_end l 0 0) l = strip l.
Proof. rewrite text_end_strip. case_decide as E; [now rewrite E|]. simpl. apply take_strip. Qed.

Lemma chars_at_row n r c t (Q : list Z -> term -> Prop) : sized g (tv t) -> 0 <= r < R -> 0 <= c -> c + Z.of_nat n <= C -> Q (map (λ c, ch (cell g (tv t) r c)) (seqZ c (Z.of_nat n))) t -> wp (chars_at n (r * C + c)) Q t.
Proof.
  intros Hz Hr. revert c Q. induction n as [|n IH]; intros c Q Hc Hn HQ; simpl; [now apply wp_ret|]. apply wp_bind. apply (wp_cell_at g r c t); [exact Hz|split; lia|]. apply wp_bind.
  rewrite <- Z.add_assoc. apply IH; [lia|lia|]. apply wp_ret. rewrite Nat2Z.inj_succ, seqZ_cons in HQ by lia. replace (Z.pred (Z.succ (Z.of_nat n))) with (Z.of_nat n) in HQ by lia. exact HQ.
Qed.

Lemma copy_rows_text n lo hi row out t (Q : list Z -> term -> Prop) : sized g (tv t) -> 0 <= lo <= hi -> hi < R * C -> lo / C <= row -> row + Z.of_nat n = hi / C + 1 -> (length out <= 4096)%nat ->
  Q (take 4096 (out ++ join (map (row_text (tv t) lo hi) (seqZ row (Z.of_nat n))))) t -> wp (copy_rows g n lo hi row out) Q t.
Proof.
  intros Hz Hlo Hhi. pose proof (positive g SU). destruct (index_inside g SU lo ltac:(lia)) as [[L1 L2] EL], (index_inside g SU hi ltac:(lia)) as [[U1 U2] EU].
  revert row out. induction n as [|n IH]; intros row out Hrow Hn Hout HQ; cbn [copy_rows].
  { apply wp_ret. simpl in HQ. now rewrite app_nil_r, take_ge in HQ by lia. }
  change CLIP_CAP with 4096. destruct (Z.leb_spec 4096 (Z.of_nat (length out))); [apply wp_ret; rewrite take_app_le, take_ge in HQ by lia; exact HQ|].
  rewrite Nat2Z.inj_succ, seqZ_cons in HQ by lia. replace (Z.pred (Z.succ (Z.of_nat n))) with (Z.of_nat n) in HQ by lia. cbn [map] in HQ. unfold row_text at 1 in HQ.
  set (c0 := if row =? lo / C then lo mod C else 0) in *. set (c1 := if row =? hi / C then hi mod C else C - 1) in *.
  assert (0 <= c0 < C /\ c0 <= c1 + 1 /\ c1 < C) as (B1 & B2 & B3) by (unfold c0, c1; destruct (Z.eqb_spec row (lo / C)), (Z.eqb_spec row (hi / C)); nia).
  apply wp_bind. apply chars_at_row; [exact Hz|lia|lia|lia|]. rewrite strip_trim. replace (Z.of_nat (Z.to_nat (c1 - c0 + 1))) with (c1 - c0 + 1) by lia. set (rt := strip _) in *.
  change (Z.to_nat 4096) with 4096%nat. set (out1 := out ++ take (4096 - length out) rt). assert (length out1 = (length out + Nat.min (4096 - length out) (length rt))%nat) as E1 by (unfold out1; now rewrite length_app, length_take).
  assert (forall rest, (length out1 = 4096)%nat -> take 4096 (out ++ rt ++ rest) = out1) as Hfull.
  { intros rest Hl. unfold out1. rewrite take_app. rewrite (take_ge out) by lia. f_equal. rewrite take_app_le by lia. easy. }
  destruct n as [|n].
  - assert (row = hi / C) as -> by lia. rewrite Z.eqb_refl. simpl negb. cbn [andb]. cbn [copy_rows]. apply wp_ret. simpl in HQ. destruct (decide (length out1 = 4096%nat)) as [Hl|Hl].
    + specialize (Hfull [] Hl). rewrite app_nil_r in Hfull. now rewrite Hfull in HQ.
    + unfold out1 in *. rewrite (take_ge rt) by lia. rewrite take_ge in HQ by (rewrite length_app; lia). exact HQ.
  - replace (row =? hi / C) with false by lia. simpl negb. cbn [andb]. rewrite Nat2Z.inj_succ, seqZ_cons in HQ by lia. replace (Z.pred (Z.succ (Z.of_nat n))) with (Z.of_nat n) in HQ by lia.
    assert (seqZ (Z.succ row) (Z.of_nat (S n)) = Z.succ row :: seqZ (Z.succ (Z.succ row)) (Z.of_nat n)) as Es by (rewrite Nat2Z.inj_succ, seqZ_cons by lia; now replace (Z.pred (Z.succ (Z.of_nat n))) with (Z.of_nat n) by lia).
    cbn [map join] in HQ. destruct (Z.ltb_spec (Z.of_nat (length out1)) 4096) as [Hl|Hl].
    + apply IH; [lia|lia|rewrite length_app; simpl; lia|]. replace (row + 1) with (Z.succ row) by lia. rewrite Es. cbn [map]. unfold out1 in *. rewrite (take_ge rt) by lia. rewrite <- !app_assoc. exact HQ.
    + apply IH; [lia|lia|lia|]. rewrite take_app_le, take_ge by lia. rewrite Hfull in HQ by lia. exact HQ.
Qed.

Context (ptmx : list Z -> list Z -> Z).
(** The pty takes at least a byte of every piece. *)
Definition accepts : Prop := forall sent l, l <> [] -> 0 < ptmx sent l <= Z.of_nat (length l).

Lemma paste_sends t (Q : unit -> term -> Prop) : accepts -> Q tt (set_to_pty t (to_pty t ++ map pasted (clipboard t))) -> wp (clipboard_paste ptmx) Q t.
Proof.
  intros Hacc HQ. unfold clipboard_paste. apply wp_bind, wp_gets. destruct (Z.eqb_spec (Z.of_nat (length (clipboard t))) 0) as [E|E].
  { destruct (clipboard t) eqn:Ec; [|simpl in E; lia]. apply wp_ret. simpl in HQ. rewrite app_nil_r in HQ. now destruct t. }
  apply (wp_loop (λ n sent t1, 0 <= sent <= Z.of_nat (length (clipboard t)) /\ n = Z.to_nat (Z.of_nat (length (clipboard t)) - sent) /\ t1 = set_to_pty t (to_pty t ++ map pasted (take (Z.to_nat sent) (clipboard t)))) (length (clipboard t))); [|lia|].
  - split; [lia|]. split; [lia|]. simpl. rewrite app_nil_r. now destruct t.
  - intros n sent t1 (Hs & Hn & ->). unfold paste_step. destruct (Z.leb_spec (Z.of_nat (length (clipboard t))) sent); [apply wp_ret; now rewrite take_ge in * by lia|].
    unfold write_pty. apply wp_bind, wp_bind, wp_get, wp_bind, wp_modify, wp_ret. set (l := map pasted (take 64 (drop (Z.to_nat sent) (clipboard t)))).
    assert (length l = Nat.min 64 (length (clipboard t) - Z.to_nat sent)) as El by (unfold l; now rewrite length_map, length_take, length_drop).
    set (w := ptmx _ l). assert (0 < w <= Z.of_nat (length l)) as Hw by (apply Hacc; intros E0; rewrite E0 in El; cbn [length] in El; lia). destruct (Z.leb_spec w 0); [lia|]. apply wp_ret.
    eexists. split; [|split; [lia|split; [reflexivity|]]]; [lia|]. cbn [to_pty set_to_pty]. f_equal. rewrite <- app_assoc. f_equal. unfold l. rewrite firstn_map, <- map_app. f_equal. rewrite take_take.
    rewrite Nat.min_l by lia. replace (Z.to_nat (sent + w)) with (Z.to_nat sent + Z.to_nat w)%nat by lia. symmetry. rewrite <- (take_drop (Z.to_nat sent) (take (Z.to_nat sent + Z.to_nat w) (clipboard t))). rewrite take_take, Nat.min_l by lia.
    f_equal. now rewrite take_drop_commute.
Qed.
End Clipboard.

(** C34. Ctrl+Shift+C and then Ctrl+Shift+V, with a selection on the screen:
    what goes to the shell is the selected text, row by row without the spaces
    at the end of each row, the rows separated by the soft newline that does
    not submit a line, cut to the 4096 bytes of the clipboard; all of it, in
    order, however little of it the pty takes at a time. *)
Theorem copy_paste_sends_selection `{Display} g ptmx t lo hi : suits g -> screen g t -> sel_logical (sel t) = Some (lo, hi) -> mods (kbd t) = Z.lor MOD_SHIFT MOD_CTRL -> pending_extended (kbd t) = false -> accepts ptmx ->
  wp (handle_event g ptmx (EvKbd 0x2E);; handle_event g ptmx (EvKbd 0x2F)) (λ _ t',
    let text := selection_text g (tv t) lo hi in
    clipboard t' = text /\ to_pty t' = to_pty t ++ map (λ c, if c =? 10 then 0x1E else c) text /\
    tv t' = tv t /\ fb_pixels t' = fb_pixels t /\ sel t' = sel t) t.
Proof.
  intros SU Hs El Em Ex Hacc. apply wp_bind. unfold handle_event at 1. apply wp_bind, wp_get. rewrite Em, Ex. cbn [translate_one]. apply wp_bind, wp_modify. unfold clipboard_copy_selection. apply wp_bind, wp_get. cbn [sel set_kbd]. rewrite El.
  destruct (logical_ranged g _ (sc_sel _ _ Hs) lo hi El) as [Hlo Hhi]. pose proof (positive g SU). pose proof (Z.div_le_mono lo hi (g_cols g) ltac:(lia) ltac:(lia)).
  apply wp_bind. apply (copy_rows_text g SU); [apply Hs|lia|exact Hhi|lia|lia|simpl; lia|]. apply wp_modify. cbn [app tv set_kbd]. rewrite Z2Nat.id by lia. fold (selection_text g (tv t) lo hi).
  unfold handle_event. apply wp_bind, wp_get. cbn [kbd set_kbd set_clipboard mods pending_extended translate_one]. apply wp_bind, wp_modify. apply paste_sends; [exact Hacc|]. now destruct t.
Qed.

(** * The event pipe *)

Fixpoint bytes_of (q : list arrival) : list Z :=
  match q with [] => [] | Bytes l :: q => l ++ bytes_of q | _ :: q => bytes_of q end.
(** Nothing ends the reading. *)
Definition steady (q : list arrival) : Prop := Forall (λ a, match a with Bytes l => l <> [] | Interrupted => True | Ended _ => False end) q.

(** A frame is read whole, in pieces of any size and across interruptions, and
    the next frame starts where it ends. *)
Lemma read_exact_whole n l q fuel : 0 < n <= Z.of_nat (length (bytes_of (Bytes l :: q))) -> steady (Bytes l :: q) -> (Z.to_nat n + S (length q) < fuel)%nat ->
  wp (read_exact fuel n) (λ r q', r = (n, take (Z.to_nat n) (bytes_of (Bytes l :: q))) /\ bytes_of q' = drop (Z.to_nat n) (bytes_of (Bytes l :: q)) /\ steady q') (Bytes l :: q).
Proof.
  intros Hn Hq Hfuel. set (all := bytes_of (Bytes l :: q)) in *. apply (wp_loop (λ m buf q', buf ++ bytes_of q' = all /\ Z.of_nat (length buf) <= n /\ steady q' /\ (length buf = 0%nat -> exists l' q2, q' = Bytes l' :: q2) /\ (m = Z.to_nat n - length buf + length q')%nat) (Z.to_nat n + S (length q))); [|exact Hfuel|].
  { split; [easy|]. simpl. split; [lia|]. split; [exact Hq|]. split; [eauto|lia]. }
  intros m buf q' (Eb & Hb & Hs & H0 & Em). unfold read_exact_step. destruct (Z.ltb_spec (Z.of_nat (length buf)) n) as [Hlt|Hge]; simpl negb; cbv iota.
  2:{ apply wp_ret. assert (Z.to_nat n = length buf) as -> by lia. rewrite <- Eb, take_app_length, drop_app_length. split_and!; auto. f_equal. lia. }
  unfold sys_read. apply wp_bind, wp_bind, wp_get. destruct q' as [|[p| |r] q'].
  - simpl in Eb. rewrite app_nil_r in Eb. subst all. rewrite Eb in Hlt. lia.
  - destruct (Forall_cons_1 _ _ _ Hs) as [Hp Hs']. apply wp_bind, wp_modify, wp_ret. cbn [fst snd]. set (d := take (Z.to_nat (n - Z.of_nat (length buf))) p). assert (length d = Nat.min (Z.to_nat (n - Z.of_nat (length buf))) (length p)) as Ed by (unfold d; apply length_take).
    assert (0 < length p)%nat by (destruct p; [easy|simpl; lia]). destruct (Z.eqb_spec (Z.of_nat (length d)) (-EINTR)) as [E|_]; [exfalso; unfold EINTR in E; lia|]. destruct (Z.leb_spec (Z.of_nat (length d)) 0); [lia|]. apply wp_ret.
    eexists. split; [|split; [|split; [|split; [|split; [|reflexivity]]]]]; rewrite ?length_app; cbn [length] in *.
    + destruct (Z.leb_spec (Z.of_nat (length p)) (n - Z.of_nat (length buf))); cbn [length]; lia.
    + rewrite <- Eb. cbn [bytes_of]. rewrite <- app_assoc. f_equal. unfold d. destruct (Z.leb_spec (Z.of_nat (length p)) (n - Z.of_nat (length buf))); [now rewrite take_ge by lia|]. cbn [bytes_of]. rewrite app_assoc. now rewrite take_drop.
    + lia.
    + destruct (Z.leb_spec (Z.of_nat (length p)) (n - Z.of_nat (length buf))); [exact Hs'|]. apply Forall_cons_2; [|exact Hs']. intros E. apply (f_equal length) in E. rewrite length_drop in E. simpl in E. lia.
    + lia.
  - destruct (Forall_cons_1 _ _ _ Hs) as [_ Hs']. apply wp_bind, wp_modify, wp_ret. cbn [fst snd]. rewrite Z.eqb_refl. destruct (Z.eqb_spec (Z.of_nat (length buf)) 0) as [E|E].
    { destruct (H0 ltac:(lia)) as (l' & q2 & Eq). discriminate. }
    apply wp_ret. eexists. split; [|split; [exact Eb|split; [exact Hb|split; [exact Hs'|split; [|reflexivity]]]]]; cbn [length] in *; lia.
  - now destruct (Forall_cons_1 _ _ _ Hs).
Qed.

(** A writer sends its frame whole when the pipe takes a byte at least of
    every piece, whatever interrupts it. *)
Lemma send_event_whole frame ws out fuel : Forall (λ w, w = -EINTR \/ 0 < w) ws -> Z.of_nat (length frame) <= foldr (λ w n, Z.max 0 w + n) 0 ws -> (length ws < fuel)%nat ->
  wp (send_event fuel frame) (λ _ s, s.2 = out ++ frame) (ws, out).
Proof.
  intros Hws Hsum Hfuel. assert (forall l, 0 <= foldr (λ w n, Z.max 0 w + n) 0 l) as Hpos by (intros l; induction l; simpl; lia). unfold send_event. revert frame out fuel Hsum Hfuel. induction Hws as [|w ws Hw Hws IH]; intros frame out fuel Hsum Hfuel; (destruct fuel as [|fuel]; [simpl in Hfuel; lia|]); rewrite loop_S; apply wp_bind; unfold send_step;
    destruct (Z.eqb_spec (Z.of_nat (length frame)) 0) as [E|E]; try (apply wp_ret, wp_ret; destruct frame; [now rewrite app_nil_r|simpl in E; lia]).
  - simpl in Hsum. lia.
  - unfold sys_write. apply wp_bind, wp_bind, wp_get. cbn [fst snd]. apply wp_bind, wp_modify, wp_ret. cbn [foldr length] in *. destruct Hw as [-> | Hw].
    + rewrite Z.eqb_refl. apply wp_ret. change (Z.to_nat (-EINTR)) with 0%nat. rewrite take_0, app_nil_r. apply IH; unfold EINTR in *; lia.
    + destruct (Z.eqb_spec w (-EINTR)) as [->|_]; [unfold EINTR in Hw; lia|]. destruct (Z.leb_spec w 0); [lia|]. apply wp_ret. specialize (Hpos ws). eapply wp_mono; [apply IH; [rewrite length_drop; lia|lia]|].
      intros [] s ->. rewrite <- app_assoc. now rewrite take_drop.
Qed.

(** * On a small display *)

Module Small.
Definition geo : geometry := Geo 32 2 2 2 1 4 2.
Lemma geo_suits : @suits Demo.disp geo.
Proof. exact Demo.disp_suits. Qed.
(** Two letters on two rows, a selection over both, another terminal that
    paints over the screen, and the keys Ctrl and Shift held. *)
Definition events : list event := [EvPty [65; 10]; EvMouse (-4) (-2) 1; EvBlink; EvPty [66]; EvMouse 3 2 1; EvWinch (replicate 32 5); EvKbd 0x1D; EvKbd 0x2A].
Definition slow (sent l : list Z) : Z := 1.
Definition final : term := Eval vm_compute in
  match (@start Demo.disp geo;; @handle_events Demo.disp geo slow events) (boot geo (replicate 32 0)) with Some (_, t) => t | None => boot geo [] end.
End Small.

Lemma no_tabs v l : Forall (λ c, c <> 9) l -> within_all v l.
Proof. intros Hl l1 c l2 ->. apply Forall_app in Hl as [_ Hl]. destruct (Forall_cons_1 _ _ _ Hl) as [Hc _]. intros _ E. now elim Hc. Qed.

Lemma small_allowed : @all_allowed Demo.disp (fresh Small.geo) Small.events.
Proof. repeat split; try (apply no_tabs; repeat constructor; easy). vm_compute. easy. Qed.

Lemma terminal_shows_output_witness :
  wp (@start Demo.disp Small.geo;; @handle_events Demo.disp Small.geo Small.slow Small.events) (λ _ t,
    map ch (grid (tv t)) = [65; 32; 32; 32; 66; 32; 32; 32] /\
    (caret t <> Some (1, 0) -> exists x, @show Demo.disp Small.geo (fb_pixels t) 1 0 x /\ ch x = 66)) (boot Small.geo (replicate 32 0)).
Proof.
  eapply wp_mono; [apply (@terminal_shows_output Demo.disp Small.geo Small.slow (replicate 32 0) Small.events Small.geo_suits eq_refl eq_refl); [vm_compute; easy|apply small_allowed]|].
  intros [] t [-> Hs]. split; [vm_compute; reflexivity|]. intros Hc. eexists. split; [apply (Hs 1 0 ltac:(easy) ltac:(easy) Hc)|]. unfold look. destruct (xorb _ _); vm_compute; reflexivity.
Defined.

Lemma small_run : (@start Demo.disp Small.geo;; @handle_events Demo.disp Small.geo Small.slow Small.events) (boot Small.geo (replicate 32 0)) = Some (tt, Small.final).
Proof. vm_compute. reflexivity. Qed.

Lemma small_screen : @screen Demo.disp Small.geo Small.final.
Proof.
  pose proof (@run_ok Demo.disp Small.geo Small.geo_suits Small.slow (replicate 32 0) Small.events ltac:(vm_compute; easy) eq_refl eq_refl small_allowed) as H. destruct (proj1 (wp_run _ _ _) H) as ([] & t & Et & Ht & _).
  pose proof (eq_trans (eq_sym Et) small_run) as E. pose proof (f_equal (λ o, match o with Some (_, x) => x | None => t end) E) as Ex. cbv beta iota in Ex. rewrite <- Ex. exact Ht.
Qed.

Lemma copy_paste_sends_selection_witness :
  wp (@handle_event Demo.disp Small.geo Small.slow (EvKbd 0x2E);; @handle_event Demo.disp Small.geo Small.slow (EvKbd 0x2F)) (λ _ t', clipboard t' = [65; 10; 66] /\ to_pty t' = [65; 0x1E; 66]) Small.final.
Proof.
  eapply wp_mono; [apply (@copy_paste_sends_selection Demo.disp Small.geo Small.slow Small.final 0 5 Small.geo_suits small_screen); try (vm_compute; reflexivity)|].
  - intros sent l Hl. unfold Small.slow. destruct l; [easy|]. simpl. lia.
  - intros [] t' (E1 & E2 & _). rewrite E1, E2. vm_compute. easy.
Defined.

(** A tab that reaches the end of the last row: the next character is stored
    past the last cell, as in the kernel's terminals. *)
Lemma term_tab_overruns : (@start Demo.disp Small.geo;; @handle_events Demo.disp Small.geo Small.slow [EvPty [10; 9; 120]]) (boot Small.geo (replicate 32 0)) = None.
Proof. vm_compute. reflexivity. Qed.

(** A character that is typed and erased leaves the cursor where it was, and
    the caret, which it has overwritten, is not drawn again: the four pixels of
    its cell are black. *)
Lemma caret_overwritten :
  match (@start Demo.disp Small.geo;; @handle_events Demo.disp Small.geo Small.slow [EvPty [120; 8]]) (boot Small.geo (replicate 32 0)) with
  | Some (_, t) => (blink_on t, caret t, map (arr_get (fb_pixels t)) [0; 1; 8; 9])
  | None => (false, None, [])
  end = (true, Some (0, 0), [Some 0; Some 0; Some 0; Some 0]).
Proof. vm_compute. reflexivity. Qed.
