(* ===== verification/DiskDevs.v ===== *)
(** Device nodes: the table of drivers (drivers/devfs.c), the memory and RAM
    nodes (drivers/mem_devs.c, drivers/ram_block.c), partition tables
    (file_system/mbr.c) and the nodes of disks and partitions
    (drivers/disk_devs.c).

    Byte buffers are lists; a store beyond one has no result. A file is its
    [position]; a driver's operations are named by an identifier, 0 for NULL. *)

From Stdlib Require Import String.
From S2P Require Import Prelude Bytes Ext2 BlockDev.
#[local] Open Scope string_scope.
#[local] Open Scope list_scope.
#[local] Open Scope Z_scope.

(** * The table of drivers *)

Definition DEVFS_MAX_DEVICES : Z := 32.
Definition MKDEV (maj min : Z) : Z := Z.lor (Z.shiftl (Z.land maj 0xFF) 8) (Z.land min 0xFF).
Definition MAJOR (dev : Z) : Z := Z.land (Z.shiftr dev 8) 0xFF.
Definition MINOR (dev : Z) : Z := Z.land dev 0xFF.

(** [token] points to the view of a disk node; [None] is any other token. *)
Record disk_view_t := View { bd : Z; start_lba : Z; sector_count : Z }.
Record devfs_entry_t := Dev { major : Z; minor : Z; is_block : bool; fops : Z; token : option disk_view_t }.

Definition devfs_init : list devfs_entry_t := replicate (Z.to_nat DEVFS_MAX_DEVICES) (Dev 0 0 false 0 None).

Definition same_device (b : bool) (maj min : Z) (e : devfs_entry_t) : bool :=
  Bool.eqb (is_block e) b && (major e =? maj) && (minor e =? min).

(** The loop over the slots from [i]: -EBUSY, or the first free slot. *)
Fixpoint register_scan (l : list devfs_entry_t) (i free_slot : Z) (b : bool) (maj min : Z) : option Z :=
  match l with
  | [] => Some free_slot
  | e :: l =>
      if fops e =? 0 then register_scan l (i + 1) (if free_slot <? 0 then i else free_slot) b maj min
      else if same_device b maj min e then None
      else register_scan l (i + 1) free_slot b maj min
  end.
Definition devfs_register (b : bool) (maj min f : Z) (tok : option disk_view_t) : M (list devfs_entry_t) Z :=
  if f =? 0 then ret (-EINVAL)
  else
    let* devices := get in
    match register_scan devices 0 (-1) b maj min with
    | None => ret (-EBUSY)
    | Some free_slot =>
        if free_slot <? 0 then ret (-ENOMEM)
        else
          let* devices := of_option (arr_set devices free_slot (Dev maj min b f tok)) in
          modify (λ _, devices);;
          ret 0
    end.
Definition devfs_register_char := devfs_register false.
Definition devfs_register_block := devfs_register true.

Fixpoint devfs_lookup (devices : list devfs_entry_t) (b : bool) (maj min : Z) : option devfs_entry_t :=
  match devices with
  | [] => None
  | e :: l => if negb (fops e =? 0) && same_device b maj min e then Some e else devfs_lookup l b maj min
  end.

(** * Memory and RAM nodes *)

Definition null_read (buf : list Z) (size : Z) : Z * list Z := (0, buf).
Definition null_write (size : Z) : Z := size.
Definition zero_read (buf : list Z) (size : Z) : option (Z * list Z) :=
  if size <=? Z.of_nat (length buf) then Some (size, put buf 0 (replicate (Z.to_nat size) 0)) else None.

Definition NULL_FOPS : Z := 1.
Definition ZERO_FOPS : Z := 2.
Definition RAM_FOPS : Z := 3.
Definition DISK_FOPS : Z := 4.
Definition mem_devs_init : M (list devfs_entry_t) unit :=
  let* _ := devfs_register_char 1 3 NULL_FOPS None in
  let* _ := devfs_register_char 1 5 ZERO_FOPS None in
  ret tt.

Definition RAM_BLOCK_SIZE : Z := 4096.
(** The result, the new position, and the buffer. *)
Definition ram_read (position : Z) (buf : list Z) (size : Z) : M (list Z) (Z * Z * list Z) :=
  if RAM_BLOCK_SIZE <=? position then ret (0, position, buf)
  else
    let avail := RAM_BLOCK_SIZE - position in
    let size := if avail <? size then avail else size in
    let* ram_buffer := get in
    if Z.of_nat (length buf) <? size then undef
    else ret (size, position + size, put buf 0 (sub ram_buffer (Z.to_nat position) (Z.to_nat size))).
Definition ram_write (position : Z) (buf : list Z) (size : Z) : M (list Z) (Z * Z) :=
  if RAM_BLOCK_SIZE <=? position then ret (-ENOSPC, position)
  else
    let avail := RAM_BLOCK_SIZE - position in
    let size := if avail <? size then avail else size in
    if Z.of_nat (length buf) <? size then undef
    else
      modify (λ ram_buffer, put ram_buffer (Z.to_nat position) (take (Z.to_nat size) buf));;
      ret (size, position + size).
(** [base + offset] in [int64_t]; signed overflow is undefined. *)
Definition seek_to (position offset base : Z) : option (Z * Z) :=
  let np := base + offset in
  if (np <? - 2 ^ 63) || (2 ^ 63 <=? np) then None
  else if np <? 0 then Some (-EINVAL, position) else Some (np, np).
Definition node_seek (position offset whence size : Z) : option (Z * Z) :=
  if whence =? 0 then seek_to position offset 0
  else if whence =? 1 then seek_to position offset (to_s64 position)
  else if whence =? 2 then seek_to position offset (to_s64 size)
  else Some (-EINVAL, position).
Definition ram_seek (position offset whence : Z) : option (Z * Z) := node_seek position offset whence RAM_BLOCK_SIZE.
Definition ram_block_init : M (list devfs_entry_t * list Z) unit :=
  let* s := get in
  match devfs_register_block 1 0 RAM_FOPS None s.1 with
  | Some (_, devices) => modify (λ _, (devices, replicate (Z.to_nat RAM_BLOCK_SIZE) 0))
  | None => undef
  end.

(** * Disk nodes *)

Section Disk.
Context {D : Type} `{BlockDevice D}.
Definition PAGE_SIZE : Z := 4096.

Definition view_size_bytes (v : disk_view_t) : Z := wrap64 (sector_count v * sector_size).

Record io_vars := IO { done : Z; io_buf : list Z; bounce : list Z }.

(** A transfer into the bounce page must fit it. *)
Definition bounce_read (abs_lba sectors : Z) (b : list Z) : M D (option (list Z)) :=
  let* d := get in
  match dev_read d abs_lba sectors with
  | None => ret None
  | Some l => if (length b <? length l)%nat then undef else ret (Some (put b 0 l))
  end.
Definition bounce_write (abs_lba sectors : Z) (b : list Z) : M D bool :=
  let* d := get in
  if Z.of_nat (length b) <? sectors * sector_size then undef
  else match dev_write d abs_lba (take (Z.to_nat (sectors * sector_size)) b) with
       | None => ret false
       | Some d' => modify (λ _, d');; ret true
       end.

Definition io_step (v : disk_view_t) (byte_off size : Z) (is_write : bool) (x : io_vars) : M D (io_vars + (Z * list Z)) :=
  if negb (done x <? size) then ret (inr (done x, io_buf x))
  else
    let ss := sector_size in
    let cur := byte_off + done x in
    let rel_lba := cur / ss in
    let in_sec := cur mod ss in
    let want := size - done x in
    let avail_in_bounce := PAGE_SIZE / ss * ss - in_sec in
    let want := if avail_in_bounce <? want then avail_in_bounce else want in
    let sectors := wrap32 ((in_sec + want + ss - 1) / ss) in
    let abs_lba := start_lba v + rel_lba in
    if is_write then
      let head_partial := negb (in_sec =? 0) in
      let tail_partial := negb ((in_sec + want) mod ss =? 0) in
      let* b := if head_partial || tail_partial then bounce_read abs_lba sectors (bounce x) else ret (Some (bounce x)) in
      match b with
      | None => ret (inr (-EIO, io_buf x))
      | Some b =>
          let src := sub (io_buf x) (Z.to_nat (done x)) (Z.to_nat want) in
          if (Z.of_nat (length b) <? in_sec + want) || (Z.of_nat (length (io_buf x)) <? done x + want) then undef
          else
            let b := put b (Z.to_nat in_sec) src in
            let* ok := bounce_write abs_lba sectors b in
            if ok : bool then ret (inl (IO (done x + want) (io_buf x) b)) else ret (inr (-EIO, io_buf x))
      end
    else
      let* b := bounce_read abs_lba sectors (bounce x) in
      match b with
      | None => ret (inr (-EIO, io_buf x))
      | Some b =>
          if Z.of_nat (length (io_buf x)) <? done x + want then undef
          else ret (inl (IO (done x + want) (put (io_buf x) (Z.to_nat (done x)) (sub b (Z.to_nat in_sec) (Z.to_nat want))) b))
      end.

(** [page] is the bounce page, with what it holds, when there is one. *)
Definition do_io (page : option (list Z)) (v : disk_view_t) (byte_off : Z) (buf : list Z) (size : Z) (is_write : bool) : M D (Z * list Z) :=
  let cap := view_size_bytes v in
  if cap <=? byte_off then ret (if is_write then -ENOSPC else 0, buf)
  else
    let size := if cap <? wrap64 (byte_off + size) then cap - byte_off else size in
    if size =? 0 then ret (0, buf)
    else
      match page with
      | None => ret (-ENOMEM, buf)
      | Some b => loop (S (Z.to_nat size)) (io_step v byte_off size is_write) (IO 0 buf b)
      end.

(** The result, the new position, and the buffer. *)
Definition disk_read (page : option (list Z)) (v : disk_view_t) (position : Z) (buf : list Z) (size : Z) : M D (Z * Z * list Z) :=
  let* r := do_io page v position buf size false in
  ret (r.1, if 0 <? r.1 then position + r.1 else position, r.2).
Definition disk_write (page : option (list Z)) (v : disk_view_t) (position : Z) (buf : list Z) (size : Z) : M D (Z * Z) :=
  let* r := do_io page v position buf size true in
  ret (r.1, if 0 <? r.1 then position + r.1 else position).
Definition disk_seek (v : disk_view_t) (position offset whence : Z) : option (Z * Z) := node_seek position offset whence (view_size_bytes v).
(** [flush] is [v->bd->flush], when there is one. *)
Definition disk_flush (flush : option (D -> Z * D)) : M D Z :=
  match flush with
  | None => ret 0
  | Some f => let* d := get in modify (λ _, (f d).2);; ret (if (f d).1 =? 0 then 0 else -EIO)
  end.
End Disk.

(** * Partition tables *)

Record block_device_t := BD { bd_id : Z; bd_name : list Z; total_sectors : Z }.
Record partition_device_t := Part { physical_device : block_device_t; part_start : Z; part_count : Z; partition_type : Z }.

Definition field_le (buf : list Z) (off n : nat) : Z := le_decode (sub buf off n).
Definition mbr_entry (buf : list Z) (dev : block_device_t) (i : nat) (parts : list partition_device_t) : list partition_device_t :=
  let off := (446 + 16 * i)%nat in
  let attributes := field_le buf off 1 in
  let sectors := field_le buf (off + 12) 4 in
  if sectors =? 0 then parts
  else if negb (attributes =? 0x80) then parts
  else Part dev (field_le buf (off + 8) 4) sectors (field_le buf (off + 4) 1) :: parts.
(** [parts] is the list from [parts_head]. The C code does not check its two
    allocations per partition; they are taken to succeed. *)
Definition ParseMbr (buf : list Z) (dev : block_device_t) (parts : list partition_device_t) : list partition_device_t :=
  if negb (field_le buf 510 2 =? 0xAA55) then Part dev 0 (total_sectors dev) 0 :: parts
  else foldl (λ parts i, mbr_entry buf dev i parts) parts (seq 0 4).
(** The first sector of each device, [None] when it cannot be read: then the
    buffer holds what it held, zeros after the first device. *)
Fixpoint parse_devices (sector0 : block_device_t -> option (list Z)) (devs : list block_device_t) (buf : list Z) (parts : list partition_device_t) : list partition_device_t :=
  match devs with
  | [] => parts
  | dev :: devs =>
      let buf := match sector0 dev with Some l => l | None => buf end in
      parse_devices sector0 devs (replicate 512 0) (ParseMbr buf dev parts)
  end.
Definition ParseDevicesMbrs sector0 devs buf parts : list partition_device_t := parse_devices sector0 devs buf parts.

(** * The nodes under /dev *)

Definition DISK_MAJOR : Z := 8.
Definition MINORS_PER_DISK : Z := 16.

(** A node that was made, by path, type and device. *)
Record node := Node { node_path : list Z; node_type : Z; node_dev : Z }.
(** The drivers, the nodes in the order they were made, and the number of calls
    of [vfs_sync]. *)
Record nodes := Nodes { devices : list devfs_entry_t; made : list node; syncs : Z }.

Section Nodes.
(** Which paths resolve, and whether the slab allocator has memory for a view. *)
Context (path_exists : list node -> list Z -> bool) (view_free : disk_view_t -> bool).

Definition ensure_node (path : list Z) (type dev : Z) : M nodes unit :=
  let* s := get in
  if path_exists (made s) path then ret tt else modify (λ s, Nodes (devices s) (made s ++ [Node path type dev]) (syncs s)).
Definition ensure_dir (path : list Z) : M nodes unit :=
  let* s := get in
  if path_exists (made s) path then ret tt else modify (λ s, Nodes (devices s) (made s ++ [Node path VFS_TYPE_DIR 0]) (syncs s)).

Definition make_view (dev : block_device_t) (start count : Z) : option disk_view_t :=
  let v := View (bd_id dev) start count in if view_free v then Some v else None.
Definition register_view (minor : Z) (v : disk_view_t) : M nodes Z :=
  let* s := get in
  match devfs_register_block DISK_MAJOR minor DISK_FOPS (Some v) (devices s) with
  | Some (r, l) => modify (λ s, Nodes l (made s) (syncs s));; ret r
  | None => undef
  end.

Definition dev_slash : list Z := [47; 100; 101; 118; 47].
(** Decimal, for 1 to 99. *)
Definition two_digits (idx : Z) : list Z := (if 10 <=? idx then [48 + idx / 10] else []) ++ [48 + idx mod 10].
(** The name is cut so that the path fits its 32 bytes. *)
Definition part_path (name : list Z) (idx : Z) : list Z := dev_slash ++ take (28 - length dev_slash) name ++ two_digits idx.
Definition disk_path (name : list Z) : list Z := dev_slash ++ take (31 - length dev_slash) name.

Definition dev_path (name : String.string) : list Z :=
  map (λ b, Z.of_N (Byte.to_N b)) (String.list_byte_of_string (String.append "/dev" name)).
Definition PTY_MAX_PAIRS : Z := 8.
Definition PTY_PTMX_MAJOR : Z := 5.
Definition PTY_PTMX_MINOR : Z := 2.
Definition PTY_SLAVE_MAJOR : Z := 136.
Definition make_slave_node (i : Z) : M nodes unit :=
  ensure_node (dev_path "/pts/" ++ two_digits i) VFS_TYPE_CHARDEV (MKDEV PTY_SLAVE_MAJOR i).
Definition make_static_dev_nodes : M nodes unit :=
  ensure_dir (dev_path "");;
  ensure_node (dev_path "/tty") VFS_TYPE_CHARDEV (MKDEV 4 0);;
  ensure_node (dev_path "/null") VFS_TYPE_CHARDEV (MKDEV 1 3);;
  ensure_node (dev_path "/zero") VFS_TYPE_CHARDEV (MKDEV 1 5);;
  ensure_node (dev_path "/ram0") VFS_TYPE_BLOCKDEV (MKDEV 1 0);;
  ensure_node (dev_path "/ptmx") VFS_TYPE_CHARDEV (MKDEV PTY_PTMX_MAJOR PTY_PTMX_MINOR);;
  ensure_dir (dev_path "/pts");;
  foldl (λ m i, m;; make_slave_node i) (ret tt) (seqZ 0 PTY_MAX_PAIRS);;
  ensure_node (dev_path "/fb") VFS_TYPE_CHARDEV (MKDEV 29 0);;
  ensure_node (dev_path "/kbd") VFS_TYPE_CHARDEV (MKDEV 13 0);;
  ensure_node (dev_path "/mouse") VFS_TYPE_CHARDEV (MKDEV 13 1).

Fixpoint register_partitions_for (parts : list partition_device_t) (dev : block_device_t) (base_minor idx : Z) : M nodes unit :=
  match parts with
  | [] => ret tt
  | p :: parts =>
      if negb (bd_id (physical_device p) =? bd_id dev) then register_partitions_for parts dev base_minor idx
      else
        let idx := idx + 1 in
        if MINORS_PER_DISK <=? idx then ret tt
        else
          match make_view dev (part_start p) (part_count p) with
          | None => ret tt
          | Some v =>
              let minor := base_minor + idx in
              let* r := register_view minor v in
              if r <? 0 then register_partitions_for parts dev base_minor idx
              else
                ensure_node (part_path (bd_name dev) idx) VFS_TYPE_BLOCKDEV (MKDEV DISK_MAJOR minor);;
                register_partitions_for parts dev base_minor idx
          end
  end.

(** The loop of [disk_devs_init] over [devices_head]. *)
Fixpoint disk_devs_loop (devs : list block_device_t) (parts : list partition_device_t) (disk_idx : Z) : M nodes unit :=
  match devs with
  | [] => ret tt
  | dev :: devs =>
      if 256 / MINORS_PER_DISK <=? disk_idx then ret tt
      else
        let base_minor := disk_idx * MINORS_PER_DISK in
        match make_view dev 0 (total_sectors dev) with
        | None => disk_devs_loop devs parts disk_idx
        | Some whole =>
            let* r := register_view base_minor whole in
            if r <? 0 then disk_devs_loop devs parts disk_idx
            else
              ensure_node (disk_path (bd_name dev)) VFS_TYPE_BLOCKDEV (MKDEV DISK_MAJOR base_minor);;
              register_partitions_for parts dev base_minor 0;;
              disk_devs_loop devs parts (disk_idx + 1)
        end
  end.
(** [root] says whether a root is mounted, whose file system is then synced. *)
Definition disk_devs_init (root : bool) (devices_head : list block_device_t) (parts_head : list partition_device_t) : M nodes unit :=
  make_static_dev_nodes;;
  match devices_head with
  | [] => ret tt
  | _ =>
      disk_devs_loop devices_head parts_head 0;;
      when root (modify (λ s, Nodes (devices s) (made s) (syncs s + 1)))
  end.
End Nodes.

(** A disk with one bootable partition: its nodes, and the device each opens. *)
Example disk_devs_init_nodes :
  let sda := BD 0 [115; 100; 97] 100 in
  let buf := replicate 446 0 ++ [0x80; 0; 0; 0; 0x83; 0; 0; 0; 63; 0; 0; 0; 37; 0; 0; 0] ++ replicate 48 0 ++ [0x55; 0xAA] in
  let parts := ParseDevicesMbrs (λ _, Some buf) [sda] [] [] in
  match disk_devs_init (λ l p, existsb (λ n, bool_decide (node_path n = p)) l) (λ _, true) true [sda] parts (Nodes devfs_init [] 0) with
  | Some (_, s) =>
      length (made s) = 20%nat /\ syncs s = 1 /\
      drop 18 (made s) = [Node (dev_path "/sda") VFS_TYPE_BLOCKDEV (MKDEV 8 0); Node (dev_path "/sda1") VFS_TYPE_BLOCKDEV (MKDEV 8 1)] /\
      devfs_lookup (devices s) true (MAJOR (MKDEV 8 1)) (MINOR (MKDEV 8 1)) = Some (Dev 8 1 true DISK_FOPS (Some (View 0 63 37)))
  | None => False
  end.
Proof. vm_compute. easy. Qed.
