(* ===== verification/DiskThms.v ===== *)
(** Device nodes: a disk or partition node is an array of bytes to its readers
    and writers, whatever the alignment of their requests, and the table of
    drivers finds what was registered. *)

From S2P Require Import Prelude BitMath Bytes Ext2 Ext2Cache Ext2Blocks Ext2Map BlockDev DiskDevs.

(** A transfer of several sectors is that of its parts. *)
Class DeviceSplit (D : Type) `{DeviceLaws D} := {
  has_split : forall d lba n m, 0 <= n -> 0 <= m -> dev_has d lba (n + m) -> dev_has d lba n /\ dev_has d (lba + n) m;
  read_split : forall d lba n m l1 l2, 0 <= n -> 0 <= m -> dev_has d lba (n + m) -> dev_read d lba n = Some l1 -> dev_read d (lba + n) m = Some l2 ->
    dev_read d lba (n + m) = Some (l1 ++ l2) }.

Section Views.
Context {D : Type} `{DeviceSplit D}.
Abbreviation ss := sector_size.
Context (v : disk_view_t) (Hss : ss <= PAGE_SIZE).
Abbreviation cap := (sector_count v * ss).

(** The view lies on the device. *)
Definition on_device (d : D) : Prop := 0 <= sector_count v /\ dev_has d (start_lba v) (sector_count v).
(** Its bytes. *)
Definition view_bytes (d : D) : list Z := default [] (dev_read d (start_lba v) (sector_count v)).

Lemma view_length d : on_device d -> Z.of_nat (length (view_bytes d)) = cap.
Proof. intros [_ Hd]. unfold view_bytes. destruct (dev_read_ok _ _ _ Hd) as (l & -> & Hl). exact Hl. Qed.

Lemma view_cut d i m : on_device d -> 0 <= i -> 0 <= m -> i + m <= sector_count v ->
  dev_has d (start_lba v + i) m /\ dev_read d (start_lba v + i) m = Some (sub (view_bytes d) (Z.to_nat (i * ss)) (Z.to_nat (m * ss))) /\
  exists a b, dev_read d (start_lba v) i = Some a /\ dev_read d (start_lba v + i + m) (sector_count v - i - m) = Some b /\
    Z.of_nat (length a) = i * ss /\ view_bytes d = a ++ sub (view_bytes d) (Z.to_nat (i * ss)) (Z.to_nat (m * ss)) ++ b.
Proof.
  intros [Hn0 Hd] Hi Hm Him. pose proof sector_pos. replace (sector_count v) with (i + (sector_count v - i)) in Hd by lia.
  destruct (has_split d _ i (sector_count v - i) Hi ltac:(lia) Hd) as [Ha Hr]. replace (sector_count v - i) with (m + (sector_count v - i - m)) in Hr by lia.
  destruct (has_split d _ m (sector_count v - i - m) Hm ltac:(lia) Hr) as [Hb Hc]. destruct (dev_read_ok _ _ _ Ha) as (a & Ea & La). destruct (dev_read_ok _ _ _ Hb) as (b & Eb & Lb). destruct (dev_read_ok _ _ _ Hc) as (c & Ec & Lc).
  pose proof (read_split d _ m (sector_count v - i - m) b c Hm ltac:(lia) Hr Eb Ec) as E1. replace (m + (sector_count v - i - m)) with (sector_count v - i) in E1 by lia.
  pose proof (read_split d _ i (sector_count v - i) a (b ++ c) Hi ltac:(lia) Hd Ea E1) as E2. replace (i + (sector_count v - i)) with (sector_count v) in E2 by lia.
  assert (view_bytes d = a ++ b ++ c) as Ev by (unfold view_bytes; now rewrite E2).
  assert (sub (view_bytes d) (Z.to_nat (i * ss)) (Z.to_nat (m * ss)) = b) as Es.
  { rewrite Ev. unfold sub. rewrite drop_app_length' by lia. rewrite take_app_length'; [easy|lia]. }
  rewrite Es. split; [exact Hb|]. split; [exact Eb|]. exists a, c. auto.
Qed.

(** Storing whole sectors changes those bytes of the view and no other sector. *)
Lemma view_store d i m l : on_device d -> 0 <= i -> 0 <= m -> i + m <= sector_count v -> Z.of_nat (length l) = m * ss ->
  exists d', dev_write d (start_lba v + i) l = Some d' /\ on_device d' /\ view_bytes d' = put (view_bytes d) (Z.to_nat (i * ss)) l /\
    (forall lba n, lba + n <= start_lba v \/ start_lba v + sector_count v <= lba -> dev_read d' lba n = dev_read d lba n).
Proof.
  intros Hd Hi Hm Him Hl. pose proof sector_pos. destruct (view_cut d i m Hd Hi Hm Him) as (Hb & _ & a & c & Ea & Ec & La & Ev).
  destruct (dev_write_ok d _ m l Hb Hl) as (d' & Ew & Er & Eo & Eh). exists d'. split; [exact Ew|]. assert (on_device d') as Hd' by (destruct Hd; split; auto). split; [exact Hd'|].
  destruct (view_cut d' i m Hd' Hi Hm Him) as (_ & Eb' & a' & c' & Ea' & Ec' & La' & Ev'). split; [|intros lba n Hout; apply Eo; lia].
  assert (a' = a) as -> by (rewrite Eo in Ea' by lia; congruence). assert (c' = c) as -> by (rewrite Eo in Ec' by lia; congruence). rewrite Er in Eb'. injection Eb' as Eb'. rewrite Ev', <- Eb'.
  set (b := sub (view_bytes d) _ _) in *. assert (length b = length l) as Lb.
  { pose proof (view_length d Hd) as Lv. rewrite Ev in Lv. rewrite !length_app in Lv. destruct (dev_read_ok d' _ _ (proj2 (has_split d' (start_lba v + i) m (sector_count v - i - m) Hm ltac:(lia)
      ltac:(replace (m + (sector_count v - i - m)) with (sector_count v - i) by lia; apply (has_split d' (start_lba v) i (sector_count v - i)); [lia|lia|replace (i + (sector_count v - i)) with (sector_count v) by lia; apply Hd'])))) as (c0 & Ec0 & Lc0).
    rewrite Ec' in Ec0. injection Ec0 as <-. nia. }
  rewrite Ev. unfold put. rewrite take_app_length' by lia. f_equal. f_equal. rewrite app_assoc. rewrite drop_app_length'; [easy|]. rewrite length_app. lia.
Qed.

(** * The transfer *)

(** One turn of the loop: the bytes it moves and the sectors they lie in. *)
Definition step_want (cur rem : Z) : Z := if PAGE_SIZE / ss * ss - cur mod ss <? rem then PAGE_SIZE / ss * ss - cur mod ss else rem.
Definition step_sectors (cur rem : Z) : Z := (cur mod ss + step_want cur rem + ss - 1) / ss.

Lemma step_chunk cur rem : 0 <= cur -> 0 < rem -> cur + rem <= cap -> let w := step_want cur rem in let n := step_sectors cur rem in
  0 < w <= rem /\ cur mod ss + w <= n * ss /\ n * ss < cur mod ss + w + ss /\ n * ss <= PAGE_SIZE /\ 0 <= cur / ss /\ 0 < n /\ cur / ss + n <= sector_count v /\ 0 <= cur mod ss < ss /\ wrap32 n = n.
Proof.
  intros Hc Hr Hcap. pose proof sector_pos as Hs. cbv zeta. unfold step_sectors. set (w := step_want cur rem). set (n := (cur mod ss + w + ss - 1) / ss).
  pose proof (Z.mod_pos_bound cur ss Hs). pose proof (Z_div_mod_eq_full cur ss). assert (0 <= cur / ss) by (apply Z.div_pos; lia).
  assert (1 <= PAGE_SIZE / ss) by (apply Z.div_le_lower_bound; lia). assert (PAGE_SIZE / ss * ss <= PAGE_SIZE) by (rewrite Z.mul_comm; apply Z.mul_div_le; lia).
  assert (0 < w <= rem /\ cur mod ss + w <= PAGE_SIZE / ss * ss) as [Hw1 Hw2] by (unfold w, step_want; destruct (Z.ltb_spec (PAGE_SIZE / ss * ss - cur mod ss) rem); nia).
  pose proof (Z_div_mod_eq_full (cur mod ss + w + ss - 1) ss) as En. fold n in En. pose proof (Z.mod_pos_bound (cur mod ss + w + ss - 1) ss Hs).
  assert (n * ss < cur mod ss + w + ss /\ cur mod ss + w <= n * ss) as [N1 N2] by lia. assert (0 < n) by nia. assert (n <= PAGE_SIZE / ss) by nia. assert (cur / ss + n <= sector_count v) by nia.
  split_and!; try lia; try nia. apply wrap_small. unfold is_word, PAGE_SIZE in *. nia.
Qed.

Lemma wp_bounce_read d lba n b l (Q : option (list Z) -> D -> Prop) : dev_read d lba n = Some l -> (length l <= length b)%nat -> Q (Some (put b 0 l)) d -> wp (bounce_read lba n b) Q d.
Proof. intros El Hl HQ. unfold bounce_read. apply wp_bind, wp_get. rewrite El. rewrite (proj2 (Nat.ltb_ge _ _)) by exact Hl. now apply wp_ret. Qed.

Lemma cur_split cur : cur / ss * ss + cur mod ss = cur.
Proof. pose proof (Z_div_mod_eq_full cur ss). lia. Qed.

(** What lies at [in_sec] of the sectors that hold [cur]. *)
Lemma sub_sectors l cur n w : 0 <= cur -> 0 <= cur mod ss + w <= n * ss -> 0 <= w -> 
  sub (sub l (Z.to_nat (cur / ss * ss)) (Z.to_nat (n * ss))) (Z.to_nat (cur mod ss)) (Z.to_nat w) = sub l (Z.to_nat cur) (Z.to_nat w).
Proof.
  intros Hc Hn Hw. pose proof sector_pos as Hs. pose proof (Z.mod_pos_bound cur ss Hs). assert (0 <= cur / ss) by (apply Z.div_pos; lia). pose proof (cur_split cur).
  apply list_eq. intros i. rewrite !sub_lookup. repeat case_decide; try lia; [f_equal; nia|easy].
Qed.

Lemma sub_app_next (l : list Z) o d w : sub l o d ++ sub l (o + d) w = sub l o (d + w).
Proof.
  unfold sub. rewrite <- drop_drop. rewrite <- (take_drop d (drop o l)) at 3. rewrite take_app. rewrite take_take. destruct (decide (d <= length (drop o l))%nat).
  - rewrite length_take. f_equal; f_equal; lia.
  - rewrite (drop_ge (drop o l) d) by lia. rewrite !take_nil, !app_nil_r. rewrite !take_ge by lia. easy.
Qed.

Section Transfer.
Context (d0 : D) (off k : Z) (buf : list Z) (Hd0 : on_device d0) (Hoff : 0 <= off) (Hk : 0 < k) (Hcap : off + k <= cap) (Hbuf : k <= Z.of_nat (length buf)).

Definition read_inv (n : nat) (x : io_vars) (d : D) : Prop :=
  d = d0 /\ 0 <= done x <= k /\ Z.of_nat n = k - done x /\ Z.of_nat (length (bounce x)) = PAGE_SIZE /\ io_buf x = put buf 0 (sub (view_bytes d0) (Z.to_nat off) (Z.to_nat (done x))).

Lemma sub_view_length o n : 0 <= o -> 0 <= n -> o + n <= cap -> length (sub (view_bytes d0) (Z.to_nat o) (Z.to_nat n)) = Z.to_nat n.
Proof. intros. pose proof (view_length d0 Hd0). apply sub_length. lia. Qed.

Lemma io_read_step_ok n x d : read_inv n x d -> wp (io_step v off k false x) (λ r d', match r with
    | inl x' => exists n', (n' < n)%nat /\ read_inv n' x' d'
    | inr q => q = (k, put buf 0 (sub (view_bytes d0) (Z.to_nat off) (Z.to_nat k))) /\ d' = d0 end) d.
Proof.
  intros (-> & Hd & Hn & Hb & Hbf). unfold io_step. destruct (Z.ltb_spec (done x) k) as [Hlt|Hge]; simpl negb; cbv iota.
  2:{ apply wp_ret. replace (done x) with k in * by lia. now rewrite Hbf. }
  set (cur := off + done x). fold (step_want cur (k - done x)). fold (step_sectors cur (k - done x)). destruct (step_chunk cur (k - done x) ltac:(lia) ltac:(lia) ltac:(unfold cur; lia)) as (W & N1 & N2 & N3 & R & N0 & NC & M & ->).
  set (w := step_want cur (k - done x)) in *. set (ns := step_sectors cur (k - done x)) in *.
  destruct (view_cut d0 (cur / ss) ns Hd0 R ltac:(lia) NC) as (Hhas & Er & _). destruct (dev_read_ok _ _ _ Hhas) as (l & El & Ll). rewrite El in Er. injection Er as El'.
  apply wp_bind. apply (wp_bounce_read _ _ _ _ l); [exact El|lia|].
  pose proof (view_length d0 Hd0) as Hv. assert (length (io_buf x) = length buf) as Lb by (rewrite Hbf; apply put_length; rewrite sub_view_length by lia; lia).
  destruct (Z.ltb_spec (Z.of_nat (length (io_buf x))) (done x + w)); [lia|]. apply wp_ret. exists (n - Z.to_nat w)%nat. split; [lia|]. split; [easy|]. cbn [done bounce io_buf].
  assert (length (put (bounce x) 0 l) = length (bounce x)) as Lp by (apply put_length; lia). split_and!; [lia|lia|lia|lia|].
  assert (sub (put (bounce x) 0 l) (Z.to_nat (cur mod ss)) (Z.to_nat w) = sub (view_bytes d0) (Z.to_nat cur) (Z.to_nat w)) as ->.
  { rewrite <- (sub_sectors (view_bytes d0) cur ns w) by lia. rewrite <- El'. apply list_eq. intros i. rewrite !sub_lookup. case_decide; [|easy]. rewrite put_lookup by lia. rewrite decide_True by lia. f_equal. lia. }
  rewrite Hbf. replace (Z.to_nat (done x)) with (0 + length (sub (view_bytes d0) (Z.to_nat off) (Z.to_nat (done x))))%nat at 2 by (rewrite sub_view_length by lia; lia).
  rewrite put_put_app by (rewrite !sub_view_length by (unfold cur; lia); lia). f_equal. replace (Z.to_nat cur) with (Z.to_nat off + Z.to_nat (done x))%nat by (unfold cur; lia).
  rewrite sub_app_next. f_equal. lia.
Qed.

Definition untouched (d d' : D) : Prop := forall lba n, lba + n <= start_lba v \/ start_lba v + sector_count v <= lba -> dev_read d' lba n = dev_read d lba n.

Definition write_inv (n : nat) (x : io_vars) (d : D) : Prop :=
  on_device d /\ untouched d0 d /\ 0 <= done x <= k /\ Z.of_nat n = k - done x /\ Z.of_nat (length (bounce x)) = PAGE_SIZE /\ io_buf x = buf /\
  view_bytes d = put (view_bytes d0) (Z.to_nat off) (take (Z.to_nat (done x)) buf).

(** The bounce page holds what its sectors become. *)
Lemma write_sectors (old b : list Z) (i n : nat) src : (length src <= n)%nat -> (i + length src <= n)%nat -> (n <= length b)%nat -> length old = n ->
  (i = 0%nat /\ length src = n \/ take n b = old) -> take n (put b i src) = put old i src.
Proof.
  intros Hl Hi Hn Ho Hb. apply list_eq. intros j. destruct (decide (j < n)%nat) as [Hj|Hj].
  - rewrite lookup_take_lt by exact Hj. rewrite !put_lookup by lia. case_decide; [easy|]. destruct Hb as [[-> E]|Hb]; [lia|]. rewrite <- Hb. now rewrite lookup_take_lt.
  - rewrite lookup_take_ge by lia. symmetry. apply lookup_ge_None. rewrite put_length by lia. lia.
Qed.

Lemma put_sectors (l : list Z) (cur n : Z) src : 0 <= cur -> cur mod ss + Z.of_nat (length src) <= n * ss -> cur / ss * ss + n * ss <= Z.of_nat (length l) ->
  put l (Z.to_nat (cur / ss * ss)) (put (sub l (Z.to_nat (cur / ss * ss)) (Z.to_nat (n * ss))) (Z.to_nat (cur mod ss)) src) = put l (Z.to_nat cur) src.
Proof.
  intros Hc Hn Hl. pose proof sector_pos as Hs. pose proof (Z.mod_pos_bound cur ss Hs). assert (0 <= cur / ss) by (apply Z.div_pos; lia). pose proof (cur_split cur).
  set (a := cur / ss * ss) in *. assert (0 <= a) by (unfold a; nia). assert (length (sub l (Z.to_nat a) (Z.to_nat (n * ss))) = Z.to_nat (n * ss)) as Ls by (apply sub_length; lia).
  assert (length (put (sub l (Z.to_nat a) (Z.to_nat (n * ss))) (Z.to_nat (cur mod ss)) src) = Z.to_nat (n * ss)) as Lp by (rewrite put_length; lia).
  apply list_eq. intros j. rewrite (put_lookup l (Z.to_nat a)) by lia. rewrite (put_lookup l (Z.to_nat cur)) by lia. rewrite Lp. case_decide as E1.
  - rewrite put_lookup by lia. rewrite sub_lookup. repeat case_decide; try lia; f_equal; lia.
  - case_decide; [lia|easy].
Qed.

Lemma wp_bounce_write d i n b (Q : bool -> D -> Prop) : on_device d -> 0 <= i -> 0 <= n -> i + n <= sector_count v -> n * ss <= Z.of_nat (length b) ->
  (forall d', on_device d' -> untouched d d' -> view_bytes d' = put (view_bytes d) (Z.to_nat (i * ss)) (take (Z.to_nat (n * ss)) b) -> Q true d') -> wp (bounce_write (start_lba v + i) n b) Q d.
Proof.
  intros Hd Hi Hn Hin Hb HQ. pose proof sector_pos. unfold bounce_write. apply wp_bind, wp_get. destruct (Z.ltb_spec (Z.of_nat (length b)) (n * ss)); [lia|].
  destruct (view_store d i n (take (Z.to_nat (n * ss)) b) Hd Hi Hn Hin) as (d' & Ew & Hd' & Ev & Eo); [rewrite length_take; nia|]. rewrite Ew. apply wp_bind, wp_modify, wp_ret. now apply HQ.
Qed.

Lemma io_write_step_ok n x d : write_inv n x d -> wp (io_step v off k true x) (λ r d', match r with
    | inl x' => exists n', (n' < n)%nat /\ write_inv n' x' d'
    | inr q => q = (k, buf) /\ on_device d' /\ untouched d0 d' /\ view_bytes d' = put (view_bytes d0) (Z.to_nat off) (take (Z.to_nat k) buf) end) d.
Proof.
  intros (Hdev & Hun & Hd & Hn & Hb & Hbf & Hv). unfold io_step. destruct (Z.ltb_spec (done x) k) as [Hlt|Hge]; simpl negb; cbv iota.
  2:{ apply wp_ret. replace (done x) with k in * by lia. now rewrite Hbf. }
  pose proof (cur_split (off + done x)) as Hsplit. set (cur := off + done x) in *. fold (step_want cur (k - done x)). fold (step_sectors cur (k - done x)).
  destruct (step_chunk cur (k - done x) ltac:(lia) ltac:(lia) ltac:(unfold cur; lia)) as (W & N1 & N2 & N3 & R & N0 & NC & M & ->).
  set (w := step_want cur (k - done x)) in *. set (ns := step_sectors cur (k - done x)) in *.
  pose proof (view_length d Hdev) as Lv. destruct (view_cut d (cur / ss) ns Hdev R ltac:(lia) NC) as (Hhas & Er & _). destruct (dev_read_ok _ _ _ Hhas) as (l & El & Ll). rewrite El in Er. injection Er as El'.
  rewrite Hbf. set (src := sub buf (Z.to_nat (done x)) (Z.to_nat w)). assert (length src = Z.to_nat w) as Ls by (apply sub_length; lia).
  assert (forall b, Z.of_nat (length b) = PAGE_SIZE -> take (Z.to_nat (ns * ss)) b = l \/ (cur mod ss = 0 /\ w = ns * ss) ->
    wp (if (Z.of_nat (length b) <? cur mod ss + w) || (Z.of_nat (length buf) <? done x + w) then undef
        else let b := put b (Z.to_nat (cur mod ss)) src in
             let* ok := bounce_write (start_lba v + cur / ss) ns b in
             if ok : bool then ret (inl (IO (done x + w) buf b)) else ret (inr (-EIO, buf)))
      (λ r d', match r with
       | inl x' => exists n', (n' < n)%nat /\ write_inv n' x' d'
       | inr q => q = (k, buf) /\ on_device d' /\ untouched d0 d' /\ view_bytes d' = put (view_bytes d0) (Z.to_nat off) (take (Z.to_nat k) buf) end) d) as Hrest.
  { intros b Lb Hold. destruct (Z.ltb_spec (Z.of_nat (length b)) (cur mod ss + w)), (Z.ltb_spec (Z.of_nat (length buf)) (done x + w)); try lia. simpl orb. cbv iota. cbv zeta.
    assert (length (put b (Z.to_nat (cur mod ss)) src) = length b) as Lp by (apply put_length; lia).
    apply wp_bind. apply wp_bounce_write; auto; [lia|lia|]. intros d' Hd' Hu' Ev'. apply wp_ret. exists (n - Z.to_nat w)%nat. split; [lia|].
    split; [exact Hd'|]. split; [intros lba m Hout; rewrite Hu' by exact Hout; now apply Hun|]. cbn [done bounce io_buf]. split_and!; [lia|lia|lia|lia|easy|].
    rewrite Ev', (write_sectors l); [|lia|lia|lia|lia|destruct Hold as [Ho|[E1 E2]]; [now right|left; lia]].
    rewrite El'. rewrite put_sectors; [|lia|lia|rewrite Lv; nia]. rewrite Hv. replace (Z.to_nat cur) with (Z.to_nat off + length (take (Z.to_nat (done x)) buf))%nat by (rewrite length_take; unfold cur; lia).
    pose proof (view_length d0 Hd0). rewrite put_put_app by (rewrite length_take; lia). f_equal. unfold src. replace (Z.to_nat (done x + w)) with (Z.to_nat (done x) + Z.to_nat w)%nat by lia.
    unfold sub. rewrite take_drop_commute. rewrite <- (take_drop (Z.to_nat (done x)) (take (Z.to_nat (done x) + Z.to_nat w) buf)) at 2. rewrite take_take. do 2 f_equal. lia. }
  destruct (Z.eqb_spec (cur mod ss) 0) as [E1|E1], (Z.eqb_spec ((cur mod ss + w) mod ss) 0) as [E2|E2]; simpl negb; simpl orb; cbv iota.
  1:{ apply wp_bind, wp_ret. apply Hrest; [exact Hb|]. right. split; [exact E1|]. pose proof sector_pos.
    pose proof (Z_div_mod_eq_full (cur mod ss + w) ss) as Eq. rewrite E2 in Eq. set (q := (cur mod ss + w) / ss) in *. assert (ns = q) by nia. nia. }
  all: apply wp_bind; apply (wp_bounce_read _ _ _ _ l); [exact El|lia|]; apply Hrest; [rewrite put_length; lia|left; unfold put; rewrite take_0; simpl; apply take_app_length'; lia].
Qed.
End Transfer.

(** * The node's operations *)

Section Node.
Context (d : D) (off size : Z) (buf b0 : list Z) (Hd : on_device d) (Hb0 : Z.of_nat (length b0) = PAGE_SIZE) (H64 : cap < 2 ^ 64).
Context (Hoff : 0 <= off) (Hsize : 0 <= size) (Hsum : off + size < 2 ^ 64) (Hbuf : size <= Z.of_nat (length buf)).

Definition moved : Z := Z.max 0 (Z.min size (cap - off)).

Lemma cap_pos : 0 <= cap.
Proof. pose proof sector_pos. destruct Hd. nia. Qed.

Lemma io_read_ok : wp (do_io (Some b0) v off buf size false) (λ r d', r = (moved, put buf 0 (sub (view_bytes d) (Z.to_nat off) (Z.to_nat moved))) /\ d' = d) d.
Proof.
  pose proof cap_pos as Hc. unfold do_io, view_size_bytes. rewrite (wrap64_small cap), (wrap64_small (off + size)) by lia.
  assert (moved = 0 -> (0, buf) = (moved, put buf 0 (sub (view_bytes d) (Z.to_nat off) (Z.to_nat moved)))) as Hnone by (intros ->; unfold sub; now rewrite take_0, put_nil by lia).
  unfold moved in *. destruct (Z.leb_spec cap off); [apply wp_ret; split; [apply Hnone; lia|easy]|].
  assert ((if cap <? off + size then cap - off else size) = Z.max 0 (Z.min size (cap - off))) as -> by (destruct (Z.ltb_spec cap (off + size)); lia).
  set (k := Z.max _ _) in *. destruct (Z.eqb_spec k 0) as [E|E]; [apply wp_ret; split; [now apply Hnone|easy]|].
  apply (wp_loop (read_inv d off k buf) (Z.to_nat k)); [|lia|].
  - split; [easy|]. cbn [done bounce io_buf]. split_and!; try lia. unfold sub. now rewrite take_0, put_nil by lia.
  - intros n x d1 Hinv. apply (io_read_step_ok d off k buf); auto; lia.
Qed.

Lemma io_write_ok : wp (do_io (Some b0) v off buf size true) (λ r d', r = (if cap <=? off then -ENOSPC else moved, buf) /\ on_device d' /\ untouched d d' /\
  view_bytes d' = put (view_bytes d) (Z.to_nat (Z.min off cap)) (take (Z.to_nat moved) buf)) d.
Proof.
  pose proof cap_pos as Hc. pose proof (view_length d Hd) as Lv. unfold do_io, view_size_bytes. rewrite (wrap64_small cap), (wrap64_small (off + size)) by lia.
  assert (moved = 0 -> view_bytes d = put (view_bytes d) (Z.to_nat (Z.min off cap)) (take (Z.to_nat moved) buf)) as Hnone by (intros ->; rewrite take_0, put_nil; [easy|lia]).
  unfold moved in *. destruct (Z.leb_spec cap off); [apply wp_ret; split_and!; auto; [now intros ? ?|apply Hnone; lia]|].
  assert ((if cap <? off + size then cap - off else size) = Z.max 0 (Z.min size (cap - off))) as -> by (destruct (Z.ltb_spec cap (off + size)); lia).
  set (k := Z.max _ _) in *. destruct (Z.eqb_spec k 0) as [E|E]; [apply wp_ret; split_and!; auto; [congruence|now intros ? ?]|]. rewrite (Z.min_l off cap) by lia.
  apply (wp_loop (write_inv d off k buf) (Z.to_nat k)); [|lia|].
  - split; [exact Hd|]. split; [now intros ? ?|]. cbn [done bounce io_buf]. split_and!; try lia; [easy|]. rewrite take_0, put_nil; [easy|lia].
  - intros n x d1 Hinv. apply (io_write_step_ok d off k buf); auto; lia.
Qed.
End Node.

(** C40. A disk or partition node is an array of bytes: reading [size] bytes at
    any position, aligned to sectors or not, returns the smaller of [size] and
    what is left of the view, and those bytes, advances the position by as many
    and does not change the device; writing them stores exactly those bytes,
    advances the position, and changes no other byte of the view and no sector
    outside it; past the end reading returns 0 and writing -ENOSPC. *)
Theorem disk_node_is_bytes d off size buf b0 : on_device d -> Z.of_nat (length b0) = PAGE_SIZE -> cap < 2 ^ 64 -> 0 <= off -> 0 <= size -> off + size < 2 ^ 64 -> size <= Z.of_nat (length buf) ->
  let k := Z.max 0 (Z.min size (cap - off)) in
  wp (disk_read (Some b0) v off buf size) (λ r d', r = (k, off + k, put buf 0 (sub (view_bytes d) (Z.to_nat off) (Z.to_nat k))) /\ d' = d) d /\
  wp (disk_write (Some b0) v off buf size) (λ r d', r = (if cap <=? off then -ENOSPC else k, off + k) /\ on_device d' /\ untouched d d' /\
    view_bytes d' = put (view_bytes d) (Z.to_nat (Z.min off cap)) (take (Z.to_nat k) buf)) d.
Proof.
  intros Hd Hb H64 Hoff Hs Hsum Hbuf k. split.
  - unfold disk_read. apply wp_bind. eapply wp_mono; [now apply io_read_ok|]. intros r d' [-> ->]. apply wp_ret. split; [|easy]. cbn [fst snd]. fold (moved off size) in k. fold k.
    f_equal. f_equal. destruct (Z.ltb_spec 0 k); unfold k, moved in *; lia.
  - unfold disk_write. apply wp_bind. eapply wp_mono; [now apply io_write_ok|]. intros r d' (-> & H2 & H3 & H4). apply wp_ret. split_and!; auto. cbn [fst]. fold (moved off size) in k. fold k. f_equal.
    destruct (Z.leb_spec cap off) as [Hc|Hc]; [|destruct (Z.ltb_spec 0 k); unfold k, moved in *; lia]. assert (k = 0) as -> by (unfold k, moved; lia). change (0 <? -ENOSPC) with false. cbv iota. lia.
Qed.
End Views.

(** * The table of drivers *)

Lemma same_device_refl b maj min f tok : same_device b maj min (Dev maj min b f tok) = true.
Proof. unfold same_device. simpl. now rewrite Bool.eqb_reflx, !Z.eqb_refl. Qed.

Definition vacant (e : devfs_entry_t) : bool := fops e =? 0.

(** The scan stops at the device itself, or gives the first vacant slot. *)
Lemma register_scan_ok l i fs b maj min : 0 <= i -> register_scan l i fs b maj min =
  match devfs_lookup l b maj min with
  | Some _ => None
  | None => Some (if fs <? 0 then match list_find (λ e, vacant e = true) l with Some (j, _) => i + Z.of_nat j | None => fs end else fs)
  end.
Proof.
  revert i fs. induction l as [|e l IH]; intros i fs Hi; simpl; [now destruct (fs <? 0)|]. assert (vacant e = (fops e =? 0)) as Ev by easy. destruct (Z.eqb_spec (fops e) 0) as [E|E]; simpl.
  - rewrite IH by lia. rewrite decide_True by exact Ev. destruct (devfs_lookup l b maj min); [easy|]. f_equal. destruct (Z.ltb_spec fs 0) as [Hs|Hs]; [|now rewrite (proj2 (Z.ltb_ge fs 0)) by lia].
    rewrite (proj2 (Z.ltb_ge i 0)) by lia. lia.
  - destruct (same_device b maj min e); [easy|]. rewrite IH by lia. rewrite decide_False by (rewrite Ev; easy). destruct (devfs_lookup l b maj min); [easy|]. f_equal. destruct (fs <? 0); [|easy].
    destruct (list_find _ l) as [[j x]|]; simpl; [lia|easy].
Qed.

Lemma lookup_insert_dev l j b maj min f tok b' maj' min' : f <> 0 -> (j < length l)%nat -> (forall e, l !! j = Some e -> vacant e = true) -> devfs_lookup l b maj min = None ->
  devfs_lookup (<[j := Dev maj min b f tok]> l) b' maj' min' = if Bool.eqb b b' && (maj =? maj') && (min =? min') then Some (Dev maj min b f tok) else devfs_lookup l b' maj' min'.
Proof.
  intros Hf. revert j. induction l as [|e l IH]; intros j Hj Hv Hnone; [simpl in Hj; lia|]. destruct j as [|j]; simpl.
  - rewrite (proj2 (Z.eqb_neq f 0)) by exact Hf. simpl. specialize (Hv e eq_refl). unfold vacant in Hv. rewrite Hv. simpl. unfold same_device at 1. simpl. easy.
  - simpl in Hnone. destruct (negb (fops e =? 0) && same_device b maj min e) eqn:Ee; [easy|]. rewrite IH; [|simpl in Hj; lia|exact Hv|exact Hnone].
    destruct (negb (fops e =? 0) && same_device b' maj' min' e) eqn:Ee'; [|easy]. destruct (Bool.eqb b b' && (maj =? maj') && (min =? min')) eqn:Ek; [|easy].
    apply andb_true_iff in Ek as [[Eb%Bool.eqb_prop Em%Z.eqb_eq]%andb_true_iff En%Z.eqb_eq]. subst. congruence.
Qed.

(** Registering a driver for a device that has one returns -EBUSY, in a full
    table -ENOMEM, and changes nothing in both cases; otherwise it returns 0,
    looking the device up then finds the driver and its token, and every other
    device is found as before. *)
Theorem devfs_register_found devices b maj min f tok : f <> 0 ->
  devfs_register b maj min f tok devices =
    match devfs_lookup devices b maj min, list_find (λ e, vacant e = true) devices with
    | Some _, _ => Some (-EBUSY, devices)
    | None, None => Some (-ENOMEM, devices)
    | None, Some (j, _) => Some (0, <[j := Dev maj min b f tok]> devices)
    end /\
  forall devices', devfs_register b maj min f tok devices = Some (0, devices') -> length devices' = length devices /\
    forall b' maj' min', devfs_lookup devices' b' maj' min' =
      if Bool.eqb b b' && (maj =? maj') && (min =? min') then Some (Dev maj min b f tok) else devfs_lookup devices b' maj' min'.
Proof.
  intros Hf. assert (devfs_register b maj min f tok devices =
    match devfs_lookup devices b maj min, list_find (λ e, vacant e = true) devices with
    | Some _, _ => Some (-EBUSY, devices)
    | None, None => Some (-ENOMEM, devices)
    | None, Some (j, _) => Some (0, <[j := Dev maj min b f tok]> devices)
    end) as E.
  { unfold devfs_register. rewrite (proj2 (Z.eqb_neq f 0)) by exact Hf. unfold bind at 1, get. rewrite register_scan_ok by lia. destruct (devfs_lookup devices b maj min); [easy|].
    change (-1 <? 0) with true. cbv iota. destruct (list_find _ devices) as [[j x]|] eqn:El; [|easy]. apply list_find_Some in El as (Ej%lookup_lt_Some & _).
    rewrite (proj2 (Z.ltb_ge _ _)) by lia. rewrite arr_set_lt by lia. replace (Z.to_nat (0 + Z.of_nat j)) with j by lia. reflexivity. }
  split; [exact E|]. rewrite E. intros devices'. destruct (devfs_lookup devices b maj min) eqn:Elk; [easy|]. destruct (list_find _ devices) as [[j x]|] eqn:El; [|easy].
  intros [= <-]. apply list_find_Some in El as (Ej & Ev & _). split; [apply length_insert|]. intros b' maj' min'. apply lookup_insert_dev; auto; [now apply lookup_lt_Some in Ej|]. intros e He. congruence.
Qed.

Lemma devfs_register_found_witness : exists devices', devfs_register true 8 1 DISK_FOPS (Some (View 0 63 100)) devfs_init = Some (0, devices') /\
  devfs_lookup devices' true 8 1 = Some (Dev 8 1 true DISK_FOPS (Some (View 0 63 100))).
Proof.
  destruct (devfs_register_found devfs_init true 8 1 DISK_FOPS (Some (View 0 63 100)) ltac:(easy)) as [E H]. eexists. split; [exact E|]. destruct (H _ E) as [_ Hl]. rewrite Hl. reflexivity.
Defined.

(** * A device in memory *)

#[export] Instance ram_split s (Hs : 0 < s) : @DeviceSplit (list Z) (RamDisk s) (RamDiskLaws s Hs).
Proof.
  split.
  - change (@dev_has _ _ (RamDiskLaws s Hs)) with (ram_has s). unfold ram_has. intros d lba n m Hn Hm (H1 & H2 & H3). nia.
  - change (@dev_read _ (RamDisk s)) with (BlockDev.ram_read s). change (@dev_has _ _ (RamDiskLaws s Hs)) with (ram_has s). unfold BlockDev.ram_read. intros d lba n m l1 l2 Hn Hm Hh. assert (ram_has s d lba n /\ ram_has s d (lba + n) m) as [H1 H2] by (unfold ram_has in *; nia).
    rewrite (proj2 (ram_ok_has s d lba (n + m)) Hh), (proj2 (ram_ok_has s d lba n) H1), (proj2 (ram_ok_has s d (lba + n) m) H2). intros [= <-] [= <-]. f_equal.
    destruct H1 as (H1 & _). replace (Z.to_nat ((lba + n) * s)) with (Z.to_nat (lba * s) + Z.to_nat (n * s))%nat by nia. replace (Z.to_nat ((n + m) * s)) with (Z.to_nat (n * s) + Z.to_nat (m * s))%nat by nia.
    symmetry. apply sub_app_next.
Qed.

(** Five sectors of 4 bytes from the second on, and a request that is not aligned. *)
Lemma disk_node_is_bytes_witness : let d := seqZ 0 40 in let v := View 0 2 5 in let b0 := replicate 4096 0 in let buf := replicate 9 7 in
  wp (@disk_read _ (RamDisk 4) (Some b0) v 3 buf 9) (λ r d', r = (9, 12, seqZ 11 9) /\ d' = d) d /\
  wp (@disk_write _ (RamDisk 4) (Some b0) v 3 buf 9) (λ r d', r = (9, 12) /\ @untouched _ (RamDisk 4) v d d' /\ @view_bytes _ (RamDisk 4) v d' = seqZ 8 3 ++ replicate 9 7 ++ seqZ 20 8) d.
Proof.
  destruct (@disk_node_is_bytes _ (RamDisk 4) (RamDiskLaws 4 eq_refl) (ram_split 4 eq_refl) (View 0 2 5) ltac:(vm_compute; easy) (seqZ 0 40) 3 9 (replicate 9 7) (replicate 4096 0)) as [Hr Hw].
  { split; [easy|]. change (ram_has 4 (seqZ 0 40) 2 5). unfold ram_has. rewrite length_seqZ. lia. }
  1-6: vm_compute; intuition congruence.
  cbv zeta. split; [exact Hr|]. eapply wp_mono; [exact Hw|]. intros r d' (H1 & _ & H3 & H4). split; [exact H1|]. split; [exact H3|]. rewrite H4. reflexivity.
Defined.
