(* ===== verification/Sh.v ===== *)
(** The shell (user/sh.c): words and pipelines, running them, the history of
    lines, the line editor and the main loop.

    Strings are lists of bytes without their NUL. An array of the C code is a
    list and its size: every store, that of a terminating NUL too, is preceded
    by [store_at], which is undefined outside the array. A byte written to the
    terminal is in [out], a message ([st_puts]) in [said]. System calls are
    what the kernel documents: descriptors from 3 are given lowest first (Files.v), and
    whether a file opens, a program starts or memory suffices are parameters.
    A child is the code after [sys_fork] returned 0, run on a copy of the
    shell until it executes a program or exits. *)

From Stdlib Require Import String.
From S2P Require Import Prelude.
#[local] Open Scope string_scope.
#[local] Open Scope list_scope.
#[local] Open Scope Z_scope.

Definition text (s : string) : list Z := map (λ b, Z.of_N (Byte.to_N b)) (list_byte_of_string s).

Definition line_of (s : string) : list Z := text s ++ [10].

Definition LINE_MAX : Z := 256.
Definition TOKBUF_MAX : Z := 320.
Definition TOKENS_MAX : Z := 64.
Definition ARGV_MAX : Z := 16.
Definition STAGES_MAX : Z := 8.
Definition HIST_MAX : Z := 64.

(** * Arrays *)

Definition index_ok (size i : Z) : bool := (0 <=? i) && (i <? size).
(** A store at index [i] of an array with [size] cells. *)
Definition store_at {S} (size i : Z) : M S unit := if index_ok size i then ret tt else undef.
(** The loop that copies a string, at most [limit] bytes of it, into an array of
    [size] bytes; [i] are copied. *)
Fixpoint copy_to (size limit i : Z) (l : list Z) : option (list Z) :=
  match l with
  | [] => Some []
  | c :: l =>
      if i <? limit then if index_ok size i then l ← copy_to size limit (i + 1) l; Some (c :: l) else None
      else Some []
  end.
(** The same, and the NUL behind it. *)
Definition copy_str (size limit : Z) (l : list Z) : option (list Z) :=
  l ← copy_to size limit 0 l; if index_ok size (Z.of_nat (length l)) then Some l else None.

(** * Words *)

Inductive tok_kind_t := TOK_WORD | TOK_PIPE | TOK_REDIR_IN | TOK_REDIR_OUT | TOK_REDIR_APPEND.
#[export] Instance tok_kind_eq : EqDecision tok_kind_t.
Proof. solve_decision. Defined.
(** A token's kind, and its word in [tokbuf], which is never written again. *)
Definition token : Type := tok_kind_t * list Z.

Definition is_blank (c : Z) : bool := (c =? 32) || (c =? 9).
Definition is_special (c : Z) : bool := (c =? 124) || (c =? 60) || (c =? 62).

(** The inner loop: the word at the head of the line, the rest, and the place
    in [tokbuf]; [None] is the result -1, when [tokbuf] is full. *)
Fixpoint scan_word (l : list Z) (tb : Z) : M unit (option (list Z * list Z * Z)) :=
  match l with
  | [] => ret (Some ([], [], tb))
  | c :: l' =>
      if is_blank c || is_special c then ret (Some ([], l, tb))
      else if TOKBUF_MAX - 1 <=? tb then ret None
      else
        store_at TOKBUF_MAX tb;;
        let* r := scan_word l' (tb + 1) in
        ret (match r with Some (w, rest, tb) => Some (c :: w, rest, tb) | None => None end)
  end.

(** [kinds[n]] and [words[n++]]. *)
Definition push_token (toks : list token) (t : token) : M unit (list token) :=
  store_at TOKENS_MAX (Z.of_nat (length toks));; ret (toks ++ [t]).

(** One round of the outer loop on the rest of the line, [tb] and the tokens so
    far; [None] is the result -1. *)
Definition tok_step (v : list Z * Z * list token) : M unit (list Z * Z * list token + option (list token)) :=
  let '(line, tb, toks) := v in
  match line with
  | [] => ret (inr (Some toks))
  | c :: rest =>
      if is_blank c then ret (inl (rest, tb, toks))
      else if TOKENS_MAX - 1 <=? Z.of_nat (length toks) then ret (inr None)
      else if c =? 124 then let* toks := push_token toks (TOK_PIPE, []) in ret (inl (rest, tb, toks))
      else if c =? 60 then let* toks := push_token toks (TOK_REDIR_IN, []) in ret (inl (rest, tb, toks))
      else if c =? 62 then
        match rest with
        | d :: rest' =>
            if d =? 62 then let* toks := push_token toks (TOK_REDIR_APPEND, []) in ret (inl (rest', tb, toks))
            else let* toks := push_token toks (TOK_REDIR_OUT, []) in ret (inl (rest, tb, toks))
        | [] => let* toks := push_token toks (TOK_REDIR_OUT, []) in ret (inl (rest, tb, toks))
        end
      else
        let* _ := push_token toks (TOK_WORD, []) in
        let* r := scan_word line tb in
        match r with
        | None => ret (inr None)
        | Some (w, rest, tb) =>
            if TOKBUF_MAX <=? tb then ret (inr None)
            else store_at TOKBUF_MAX tb;; ret (inl (rest, tb + 1, toks ++ [(TOK_WORD, w)]))
        end
  end.
Definition tokenize (line : list Z) : M unit (option (list token)) := loop (S (length line)) tok_step (line, 0, []).

(** * Pipelines *)

Record stage_t := Stage { argv : list (list Z); in_file : option (list Z); out_file : option (list Z); append : bool }.
Definition no_stage : stage_t := Stage [] None None false.
Definition argc (s : stage_t) : Z := Z.of_nat (length (argv s)).

(** The loop over the tokens: the stages before [stages[s]], and that one. *)
Fixpoint parse_tokens (toks : list token) (before : list stage_t) (cur : stage_t) : M unit (string + list stage_t) :=
  match toks with
  | [] =>
      if argc cur =? 0 then ret (inl "empty command")
      else store_at ARGV_MAX (argc cur);; ret (inr (before ++ [cur]))
  | (TOK_WORD, w) :: toks =>
      if ARGV_MAX - 1 <=? argc cur then ret (inl "too many arguments")
      else store_at ARGV_MAX (argc cur);; parse_tokens toks before (Stage (argv cur ++ [w]) (in_file cur) (out_file cur) (append cur))
  | (TOK_PIPE, _) :: toks =>
      if argc cur =? 0 then ret (inl "empty command in pipeline")
      else
        store_at ARGV_MAX (argc cur);;
        if STAGES_MAX <=? Z.of_nat (length before) + 1 then ret (inl "too many pipeline stages")
        else store_at STAGES_MAX (Z.of_nat (length before) + 1);; parse_tokens toks (before ++ [cur]) no_stage
  | (kind, _) :: toks =>
      match toks with
      | (TOK_WORD, w) :: toks =>
          parse_tokens toks before
            (if decide (kind = TOK_REDIR_IN) then Stage (argv cur) (Some w) (out_file cur) (append cur)
             else Stage (argv cur) (in_file cur) (Some w) (bool_decide (kind = TOK_REDIR_APPEND)))
      | _ => ret (inl "expected filename after redirection")
      end
  end.

(** The loop over the stages, of which [j] are behind. *)
Fixpoint check_redirs (stages : list stage_t) (j : nat) : option string :=
  match stages with
  | [] => None
  | s :: rest =>
      if (0 <? j)%nat && bool_decide (is_Some (in_file s)) then Some "stdin redirection conflicts with upstream pipe"
      else if negb (bool_decide (rest = [])) && bool_decide (is_Some (out_file s)) then Some "stdout redirection conflicts with downstream pipe"
      else check_redirs rest (S j)
  end.
Definition parse_pipeline (toks : list token) : M unit (string + list stage_t) :=
  store_at STAGES_MAX 0;;
  let* r := parse_tokens toks [] no_stage in
  match r with
  | inl e => ret (inl e)
  | inr stages => ret (match check_redirs stages 0 with Some e => inl e | None => inr stages end)
  end.

(** [out] holds the bytes so far; its array has [size] bytes, of which the
    function was told [out_size]. *)
Fixpoint append_to (size out_size : Z) (l out : list Z) : M unit (option (list Z)) :=
  match l with
  | [] => ret (Some out)
  | c :: l =>
      if out_size - 1 <=? Z.of_nat (length out) then ret None
      else store_at size (Z.of_nat (length out));; append_to size out_size l (out ++ [c])
  end.
Definition build_path (size : Z) (name : list Z) (out_size : Z) : M unit (option (list Z)) :=
  let* p := append_to size out_size (text "/bin/") [] in
  match p with
  | None => ret None
  | Some out =>
      let* q := append_to size out_size name out in
      match q with
      | None => ret None
      | Some out => store_at size (Z.of_nat (length out));; ret (Some out)
      end
  end.

Definition WIFEXITED (s : Z) : bool := Z.land s 0x7F =? 0.
Definition WEXITSTATUS (s : Z) : Z := Z.land (Z.shiftr s 8) 0xFF.
Definition WIFSIGNALED (s : Z) : bool := negb (Z.land s 0x7F =? 0) && negb (Z.land s 0x7F =? 0x7F).
Definition WTERMSIG (s : Z) : Z := Z.land s 0x7F.
Definition wait_status_to_rc (st : Z) : Z :=
  if WIFEXITED st then WEXITSTATUS st else if WIFSIGNALED st then 128 + WTERMSIG st else -1.

(** * The shell and the system *)

Inductive desc := Terminal | PipeR (p : Z) | PipeW (p : Z) | File (path : list Z) (flags : Z).
(** What a child came to: a program with its arguments, or an exit code. *)
Inductive ending := Ran (path : list Z) (args : list (list Z)) | Exited (code : Z).
Record child := Child { c_pid : Z; c_pgid : Z; c_fds : list (option desc); c_said : list (list Z); c_end : ending }.

Record history := Hist { hist : list (list Z); hist_count : Z; hist_head : Z }.
Definition no_history : history := Hist (replicate (Z.to_nat HIST_MAX) []) 0 0.
Record shell := Shell {
  fds : list (option desc);
  next_pipe : Z;
  pipe_memory : list bool;      (** whether the coming pipes can be made *)
  forks : list Z;               (** the results of the coming forks, in the parent *)
  children : list child;        (** in the order they were started *)
  waited : list Z;
  foreground : list Z;          (** the groups the terminal was given to *)
  said : list (list Z);
  chdirs : list (list Z);
  over : option Z;              (** [sys_exit] *)
  hist_of : history;
  hist_file : list Z }.         (** what was appended to the history file *)

Section Setters.
Context (s : shell).
Definition set_fds x : shell := Shell x (next_pipe s) (pipe_memory s) (forks s) (children s) (waited s) (foreground s) (said s) (chdirs s) (over s) (hist_of s) (hist_file s).
Definition set_pipes x y z : shell := Shell x y z (forks s) (children s) (waited s) (foreground s) (said s) (chdirs s) (over s) (hist_of s) (hist_file s).
Definition set_forks x : shell := Shell (fds s) (next_pipe s) (pipe_memory s) x (children s) (waited s) (foreground s) (said s) (chdirs s) (over s) (hist_of s) (hist_file s).
Definition add_child x : shell := Shell (fds s) (next_pipe s) (pipe_memory s) (forks s) (children s ++ [x]) (waited s) (foreground s) (said s) (chdirs s) (over s) (hist_of s) (hist_file s).
Definition add_waited x : shell := Shell (fds s) (next_pipe s) (pipe_memory s) (forks s) (children s) (waited s ++ [x]) (foreground s) (said s) (chdirs s) (over s) (hist_of s) (hist_file s).
Definition add_foreground x : shell := Shell (fds s) (next_pipe s) (pipe_memory s) (forks s) (children s) (waited s) (foreground s ++ [x]) (said s) (chdirs s) (over s) (hist_of s) (hist_file s).
Definition add_said x : shell := Shell (fds s) (next_pipe s) (pipe_memory s) (forks s) (children s) (waited s) (foreground s) (said s ++ [x]) (chdirs s) (over s) (hist_of s) (hist_file s).
Definition add_chdir x : shell := Shell (fds s) (next_pipe s) (pipe_memory s) (forks s) (children s) (waited s) (foreground s) (said s) (chdirs s ++ [x]) (over s) (hist_of s) (hist_file s).
Definition set_over x : shell := Shell (fds s) (next_pipe s) (pipe_memory s) (forks s) (children s) (waited s) (foreground s) (said s) (chdirs s) x (hist_of s) (hist_file s).
Definition set_hist x : shell := Shell (fds s) (next_pipe s) (pipe_memory s) (forks s) (children s) (waited s) (foreground s) (said s) (chdirs s) (over s) x (hist_file s).
Definition add_hist_file x : shell := Shell (fds s) (next_pipe s) (pipe_memory s) (forks s) (children s) (waited s) (foreground s) (said s) (chdirs s) (over s) (hist_of s) (hist_file s ++ x).
End Setters.

Definition st_puts (l : list Z) : M shell unit := modify (λ s, add_said s l).

(** The lowest free descriptor from [i] on. *)
Fixpoint free_from (l : list (option desc)) (i : Z) : option Z :=
  match l with [] => None | Some _ :: l => free_from l (i + 1) | None :: _ => Some i end.
Definition fd_put (d : desc) : M shell Z :=
  let* s := get in
  match free_from (drop 3 (fds s)) 3 with
  | None => ret (-EMFILE)
  | Some i => modify (λ s, set_fds s (<[Z.to_nat i := Some d]> (fds s)));; ret i
  end.
Definition sys_close (fd : Z) : M shell unit :=
  modify (λ s, if (0 <=? fd) && (fd <? Z.of_nat (length (fds s))) then set_fds s (<[Z.to_nat fd := None]> (fds s)) else s).
Definition sys_dup2 (old new : Z) : M shell unit :=
  modify (λ s, match arr_get (fds s) old with
    | Some (Some d) => if (0 <=? new) && (new <? Z.of_nat (length (fds s))) then set_fds s (<[Z.to_nat new := Some d]> (fds s)) else s
    | _ => s
    end).
(** A new pipe's ends, both or none. *)
Definition sys_pipe : M shell (option (Z * Z)) :=
  let* s := get in
  match pipe_memory s with
  | true :: rest =>
      modify (λ s, set_pipes s (fds s) (next_pipe s + 1) rest);;
      let* r := fd_put (PipeR (next_pipe s)) in
      if r <? 0 then ret None
      else
        let* w := fd_put (PipeW (next_pipe s)) in
        if w <? 0 then sys_close r;; ret None else ret (Some (r, w))
  | _ => modify (λ s, set_pipes s (fds s) (next_pipe s) (tail (pipe_memory s)));; ret None
  end.

(** * History *)

Definition hist_add (s : list Z) (h : history) : option history :=
  if bool_decide (s = []) then Some h
  else
    let prev := (hist_head h - 1 + HIST_MAX) mod HIST_MAX in
    last ← (if 0 <? hist_count h then l ← arr_get (hist h) prev; Some (bool_decide (l = s)) else Some false);
    if last : bool then Some h
    else
      row ← copy_str LINE_MAX (LINE_MAX - 1) s;
      l ← arr_set (hist h) (hist_head h) row;
      Some (Hist l (if hist_count h <? HIST_MAX then hist_count h + 1 else hist_count h) ((hist_head h + 1) mod HIST_MAX)).

(** [None] is NULL; the index is below [HIST_MAX]. *)
Definition hist_get (back : Z) (h : history) : option (list Z) :=
  if (back <=? 0) || (hist_count h <? back) then None
  else arr_get (hist h) ((hist_head h - back + HIST_MAX * 2) mod HIST_MAX).

(** The bytes of the file, [line] those of the current line, in an array of
    [LINE_MAX] bytes. *)
Fixpoint hist_load_bytes (l : list Z) (line : list Z) (h : history) : option history :=
  let at_end := index_ok LINE_MAX (Z.of_nat (length line)) in
  match l with
  | [] => if 0 <? Z.of_nat (length line) then if at_end then hist_add line h else None else Some h
  | c :: l =>
      if c =? 10 then if at_end then h ← hist_add line h; hist_load_bytes l [] h else None
      else if Z.of_nat (length line) <? LINE_MAX - 1 then if at_end then hist_load_bytes l (line ++ [c]) h else None
      else hist_load_bytes l line h
  end.

(** * The prompt *)

(** The working directory as it is shown; [collapsed] has 256 bytes. *)
Definition prompt_path (cwd : option (list Z)) : option (list Z) :=
  let path := default (text "?") cwd in
  if bool_decide (take 5 path = text "/home") && (bool_decide (drop 5 path = []) || bool_decide (take 1 (drop 5 path) = text "/"))
  then copy_str 256 (256 - 1) (text "~" ++ drop 5 path) else Some path.
(** What is written, and [prompt_visible_width]. *)
Definition prompt (cwd : option (list Z)) : option (list Z * Z) :=
  path ← prompt_path cwd;
  Some (27 :: text "[93m$ " ++ 27 :: text "[96m" ++ path ++ text " " ++ 27 :: text "[90m>" ++ 27 :: text "[0m ", 2 + Z.of_nat (length path) + 3).

(** * The line editor *)

Inductive ed_state := GROUND | ESC1 | CSI.
(** What a read of one byte returns: 1, 0 or an error. *)
Inductive read_result := Byte (b : Z) | Eof | Failed.
(** What the editor comes to: a line and the reads after it, the end of the
    input, or nothing yet. *)
Inductive edited := Line (l : list Z) (rest : list read_result) | Closed | Waiting.
(** [line] is the first [len] bytes of the buffer; moving its tail by one place
    is an insertion or a deletion. *)
Record editor := Ed { line : list Z; cur : Z; cur_row : Z; saved_live : list Z; hist_view : Z; state : ed_state; out : list Z }.

Section EdSetters.
Context (e : editor).
Definition set_line l c r : editor := Ed l c r (saved_live e) (hist_view e) (state e) (out e).
Definition set_cur c r : editor := set_line (line e) c r.
Definition set_view v sv : editor := Ed (line e) (cur e) (cur_row e) sv v (state e) (out e).
Definition set_state x : editor := Ed (line e) (cur e) (cur_row e) (saved_live e) (hist_view e) x (out e).
Definition add_out l : editor := Ed (line e) (cur e) (cur_row e) (saved_live e) (hist_view e) (state e) (out e ++ l).
Definition len : Z := Z.of_nat (length (line e)).
End EdSetters.

Definition emit (l : list Z) : M editor unit := modify (λ e, add_out e l).

(** The digits of [v] before those of [acc]; [room] cells of [num] are left. *)
Fixpoint dec (room : nat) (v : Z) (acc : list Z) : option (list Z) :=
  if v <=? 0 then Some acc
  else match room with O => None | S room => dec room (v / 10) (48 + v mod 10 :: acc) end.
(** [ESC [ n final]; 8 is the size of [num], and [buf] has 16 bytes. *)
Definition csi (n final : Z) : option (list Z) :=
  if n <=? 0 then Some []
  else
    ds ← dec 8 n [];
    if index_ok 16 (2 + Z.of_nat (length ds)) then Some (27 :: 91 :: ds ++ [final]) else None.
Definition cursor_left (n : Z) : option (list Z) := csi n 68.
Definition cursor_right (n : Z) : option (list Z) := csi n 67.
Definition cursor_up (n : Z) : option (list Z) := csi n 65.
(** Output that is undefined when a number does not fit. *)
Definition emit_opt (o : option (list Z)) : M editor unit := let* l := of_option o in emit l.

(** The loop from [i] on, [idx] the last newline so far. *)
Fixpoint last_nl (l : list Z) (i idx : Z) : Z :=
  match l with [] => idx | c :: l => last_nl l (i + 1) (if c =? 10 then i else idx) end.
Definition last_nl_before (l : list Z) (end_ : Z) : Z := last_nl (take (Z.to_nat end_) l) 0 (-1).

Section Editing.
Context (prompt_visible_width cap : Z) (h : history).

(** The column of buffer position [c]. *)
Definition column (l : list Z) (c : Z) : Z :=
  let nl := last_nl_before l c in if nl <? 0 then prompt_visible_width + c else c - nl - 1.
Definition redraw_multiline (l : list Z) (cur prev_cur_row : Z) : option (list Z) :=
  up ← cursor_up prev_cur_row;
  right ← cursor_right prompt_visible_width;
  let tail := drop (Z.to_nat cur) l in
  let tail_nls := Z.of_nat (length (filter (λ c, c = 10) tail)) in
  back ← (if tail_nls =? 0 then cursor_left (Z.of_nat (length tail))
          else up ← cursor_up tail_nls; right ← cursor_right (column l cur); Some (up ++ [13] ++ right));
  Some ([13] ++ up ++ right ++ [27; 91; 74] ++ concat (map (λ c, if c =? 10 then [13; 10] else [c]) l) ++ back).
Definition redraw_tail (l : list Z) (cur : Z) : option (list Z) :=
  let tail := drop (Z.to_nat cur) l in
  left ← cursor_left (Z.of_nat (length tail));
  Some (tail ++ [27; 91; 75] ++ left).

Definition home : M editor unit :=
  let* e := get in when (0 <? cur e) (emit_opt (cursor_left (cur e));; modify (λ e, set_cur e 0 (cur_row e))).
Definition end_key : M editor unit :=
  let* e := get in when (cur e <? len e) (emit_opt (cursor_right (len e - cur e));; modify (λ e, set_cur e (len e) (cur_row e))).

(** A line of the history or the live one in place of the buffer, which has
    [LINE_MAX] bytes; at most [limit] bytes are copied. *)
Definition show_line (limit : Z) (l : list Z) : M editor unit :=
  let* e := get in
  let* l := of_option (copy_to LINE_MAX limit 0 l) in
  modify (λ e, set_line e l (Z.of_nat (length l)) 0);;
  emit_opt (redraw_multiline l (Z.of_nat (length l)) (cur_row e)).
Definition key_up : M editor unit :=
  let* e := get in
  match hist_get (hist_view e + 1) h with
  | None => ret tt
  | Some l =>
      let* live := (if hist_view e =? 0 then of_option (copy_to LINE_MAX (len e) 0 (line e)) else ret (saved_live e)) in
      modify (λ e, set_view e (hist_view e + 1) live);;
      show_line (cap - 1) l
  end.
Definition key_down : M editor unit :=
  let* e := get in
  if hist_view e =? 0 then ret tt
  else
    modify (λ e, set_view e (hist_view e - 1) (saved_live e));;
    if hist_view e - 1 =? 0 then show_line (Z.of_nat (length (saved_live e))) (saved_live e)
    else let* l := of_option (hist_get (hist_view e - 1) h) in show_line (cap - 1) l.
Definition key_left : M editor unit :=
  let* e := get in
  when (0 <? cur e) (
    let* c := of_option (arr_get (line e) (cur e - 1)) in
    modify (λ e, set_cur e (cur e - 1) (if c =? 10 then cur_row e - 1 else cur_row e));;
    emit_opt (if c =? 10 then up ← cursor_up 1; right ← cursor_right (column (line e) (cur e - 1)); Some (up ++ [13] ++ right) else Some [27; 91; 68])).
Definition key_right : M editor unit :=
  let* e := get in
  when (cur e <? len e) (
    let* c := of_option (arr_get (line e) (cur e)) in
    modify (λ e, set_cur e (cur e + 1) (if c =? 10 then cur_row e + 1 else cur_row e));;
    emit (if c =? 10 then [27; 91; 69] else [27; 91; 67])).

Definition csi_key (b : Z) : M editor unit :=
  if b =? 68 then key_left
  else if b =? 67 then key_right
  else if b =? 65 then key_up
  else if b =? 66 then key_down
  else if b =? 72 then home
  else if b =? 70 then end_key
  else ret tt.

(** Moving the tail by one place stores at all indices from that of the cursor
    to [len]; a deletion stores below [len]. *)
Definition insert_at (l : list Z) (i c : Z) : list Z := take (Z.to_nat i) l ++ c :: drop (Z.to_nat i) l.
Definition delete_at (l : list Z) (i : Z) : list Z := take (Z.to_nat i) l ++ drop (S (Z.to_nat i)) l.

Definition soft_newline : M editor unit :=
  let* e := get in
  when (len e <? cap - 1) (
    store_at LINE_MAX (cur e);; store_at LINE_MAX (len e);;
    modify (λ e, set_line e (insert_at (line e) (cur e) 10) (cur e + 1) (cur_row e + 1));;
    emit [13; 10]).
Definition backspace : M editor unit :=
  let* e := get in
  when (0 <? cur e) (
    let* c := of_option (arr_get (line e) (cur e - 1)) in
    let l := delete_at (line e) (cur e - 1) in
    if c =? 10 then
      modify (λ e, set_line e l (cur e - 1) (cur_row e - 1));;
      emit_opt (redraw_multiline l (cur e - 1) (cur_row e))
    else
      modify (λ e, set_line e l (cur e - 1) (cur_row e));;
      emit [8];;
      emit_opt (redraw_tail l (cur e - 1))).
Definition self_insert (b : Z) : M editor unit :=
  let* e := get in
  when (len e <? cap - 1) (
    store_at LINE_MAX (cur e);; store_at LINE_MAX (len e);;
    let l := insert_at (line e) (cur e) b in
    modify (λ e, set_line e l (cur e + 1) (cur_row e));;
    emit [b];;
    emit_opt (redraw_tail l (cur e + 1))).

(** One byte of the terminal, 0 to 255; the result says that the line is
    complete. *)
Definition edit_byte (b : Z) : M editor bool :=
  let* e := get in
  match state e with
  | ESC1 => modify (λ e, set_state e (if b =? 91 then CSI else GROUND));; ret false
  | CSI =>
      if ((48 <=? b) && (b <=? 57)) || (b =? 59) then ret false
      else modify (λ e, set_state e GROUND);; csi_key b;; ret false
  | GROUND =>
      if b =? 27 then modify (λ e, set_state e ESC1);; ret false
      else if b =? 30 then soft_newline;; ret false
      else if (b =? 13) || (b =? 10) then emit [10];; store_at LINE_MAX (len e);; ret true
      else if (b =? 127) || (b =? 8) then backspace;; ret false
      else if b =? 1 then home;; ret false
      else if b =? 5 then end_key;; ret false
      else if (32 <=? b) && (b <? 127) then self_insert b;; ret false
      else ret false
  end.
(** The results of [sys_read(0, &b, 1)] that arrive: after the last one the
    shell waits in the system call. *)
Fixpoint read_line_edit (input : list read_result) : M editor edited :=
  match input with
  | [] => ret Waiting
  | Eof :: _ => ret Closed
  | Failed :: input => read_line_edit input
  | Byte b :: input =>
      let* done := edit_byte b in
      if done : bool then let* e := get in ret (Line (line e) input) else read_line_edit input
  end.
End Editing.
Definition fresh_editor : editor := Ed [] 0 0 [] 0 GROUND [].

(** * Running commands *)

Section Run.
Context (can_open : list Z -> Z -> bool) (can_exec : list Z -> bool) (can_chdir : list Z -> bool) (status : Z -> Z) (sh_pgid : Z) (getcwd : list (list Z) -> option (list Z)).

Definition sys_open (path : list Z) (flags : Z) : M shell Z := if can_open path flags then fd_put (File path flags) else ret (-ENOENT).
Definition sys_waitpid (pid : Z) : M shell Z := modify (λ s, add_waited s pid);; ret (status pid).
Definition give_terminal_to (pgid : Z) : M shell unit := modify (λ s, add_foreground s pgid).
(** [code] is what the child does, [pgid] the group it joins, 0 for its own. *)
Definition sys_fork (pgid : Z) (code : M shell ending) : M shell Z :=
  let* s := get in
  match forks s with
  | [] => ret (-ENOMEM)
  | pid :: rest =>
      modify (λ s, set_forks s rest);;
      if pid <? 0 then ret pid
      else
        match code s with
        | None => undef
        | Some (e, s') => modify (λ s, add_child s (Child pid (if pgid =? 0 then pid else pgid) (fds s') (drop (length (said s)) (said s')) e));; ret pid
        end
  end.
(** [sys_exec] and what follows when it returns. *)
Definition exec_or_exit (path : list Z) (args : list (list Z)) : M shell ending :=
  if can_exec path then ret (Ran path args)
  else
    let* name := of_option (head args) in
    st_puts (text "sh: ");; st_puts name;; st_puts (line_of ": not found");;
    ret (Exited 127).
(** The result of code without a state. *)
Definition run_pure {A} (m : M unit A) : M shell A := of_option (option_map fst (m tt)).
(** [build_path(argv[0], path, sizeof(path))] with [path[64]]. *)
Definition command_path (st : stage_t) : M shell (option (list Z)) :=
  let* name := of_option (head (argv st)) in run_pure (build_path 64 name 64).

Definition run_simple (st : stage_t) : M shell Z :=
  let* path := command_path st in
  match path with
  | None => st_puts (line_of "sh: command name too long");; ret 127
  | Some path =>
      let* pid := sys_fork 0 (exec_or_exit path (argv st)) in
      if pid <? 0 then st_puts (line_of "sh: fork failed");; ret 127
      else
        give_terminal_to pid;;
        let* st := sys_waitpid pid in
        give_terminal_to sh_pgid;;
        ret (wait_status_to_rc st)
  end.

Definition O_RDONLY : Z := 0.
Definition O_WRONLY : Z := 1.
Definition O_CREAT : Z := 0x40.
Definition O_TRUNC : Z := 0x200.
Definition O_APPEND : Z := 0x400.

(** A file in place of descriptor [fd]. *)
Definition redirect (path : list Z) (flags fd : Z) : M shell Z :=
  let* f := sys_open path flags in
  if f <? 0 then st_puts (text "sh: ");; st_puts path;; st_puts (line_of ": cannot open");; ret (-1)
  else sys_dup2 f fd;; sys_close f;; ret 0.
Definition apply_redirs (st : stage_t) : M shell Z :=
  let* r := match in_file st with Some path => redirect path O_RDONLY 0 | None => ret 0 end in
  if r <? 0 then ret (-1)
  else
    match out_file st with
    | Some path => redirect path (Z.lor (Z.lor O_WRONLY O_CREAT) (if append st then O_APPEND else O_TRUNC)) 1
    | None => ret 0
    end.

(** The pipes made so far; [None] when one cannot be made. *)
Fixpoint make_pipes (n : nat) (pipes : list (Z * Z)) : M shell (option (list (Z * Z))) :=
  match n with
  | O => ret (Some pipes)
  | S n =>
      let* p := sys_pipe in
      store_at (STAGES_MAX - 1) (Z.of_nat (length pipes));;
      match p with
      | None => st_puts (line_of "sh: pipe failed");; ret None
      | Some p => make_pipes n (pipes ++ [p])
      end
  end.
Fixpoint close_pipes (pipes : list (Z * Z)) : M shell unit :=
  match pipes with [] => ret tt | (r, w) :: pipes => sys_close r;; sys_close w;; close_pipes pipes end.
Fixpoint wait_all (pids : list Z) (rc : Z) : M shell Z :=
  match pids with [] => ret rc | pid :: pids => let* st := sys_waitpid pid in wait_all pids (wait_status_to_rc st) end.

(** The child of stage [i] of [n]. *)
Definition stage_child (pipes : list (Z * Z)) (n i : nat) (st : stage_t) : M shell ending :=
  match i with
  | O => ret tt
  | S j => let* p := of_option (pipes !! j) in sys_dup2 p.1 0
  end;;
  (if (i <? n - 1)%nat then let* p := of_option (pipes !! i) in sys_dup2 p.2 1 else ret tt);;
  close_pipes pipes;;
  let* r := apply_redirs st in
  if r <? 0 then ret (Exited 127)
  else
    let* path := command_path st in
    match path with
    | None => st_puts (line_of "sh: command name too long");; ret (Exited 127)
    | Some path => exec_or_exit path (argv st)
    end.
(** The forks of the stages from [i] on; [None] after one failed. *)
Fixpoint fork_stages (pipes : list (Z * Z)) (n i : nat) (stages : list stage_t) (pids : list Z) (leader : Z) : M shell (option (list Z * Z)) :=
  match stages with
  | [] => ret (Some (pids, leader))
  | st :: stages =>
      let* pid := sys_fork leader (stage_child pipes n i st) in
      if pid <? 0 then
        st_puts (line_of "sh: fork failed");;
        close_pipes pipes;;
        let* _ := wait_all pids 0 in
        ret None
      else
        store_at STAGES_MAX (Z.of_nat (length pids));;
        fork_stages pipes n (S i) stages (pids ++ [pid]) (if (i =? 0)%nat then pid else leader)
  end.
Definition run_pipeline (stages : list stage_t) : M shell Z :=
  let n := length stages in
  let* pipes := make_pipes (n - 1) [] in
  match pipes with
  | None => ret 127
  | Some pipes =>
      let* r := fork_stages pipes n 0 stages [] 0 in
      match r with
      | None => ret 127
      | Some (pids, leader) =>
          give_terminal_to leader;;
          close_pipes pipes;;
          let* rc := wait_all pids 0 in
          give_terminal_to sh_pgid;;
          ret rc
      end
  end.

Definition try_builtin (st : stage_t) : M shell bool :=
  let* name := of_option (head (argv st)) in
  if bool_decide (name = text "exit") then modify (λ s, set_over s (Some 0));; ret true
  else if bool_decide (name = text "cd") then
    let* dst := (if 2 <=? argc st then of_option (argv st !! 1%nat) else ret (text "/")) in
    (if can_chdir dst then modify (λ s, add_chdir s dst)
     else st_puts (text "cd: ");; st_puts dst;; st_puts (line_of ": no such directory"));;
    ret true
  else ret false.

Definition HIST_FILE : list Z := text "/home/.sh_history".
Definition hist_load (content : option (list Z)) (h : history) : option history :=
  match content with None => Some h | Some l => hist_load_bytes l [] h end.
Definition hist_persist_append (l : list Z) : M shell unit :=
  let* fd := sys_open HIST_FILE (Z.lor (Z.lor O_WRONLY O_CREAT) O_APPEND) in
  if fd <? 0 then ret tt
  else modify (λ s, add_hist_file s (l ++ [10]));; sys_close fd.

(** * Commands *)

Definition is_simple (stages : list stage_t) : bool :=
  match stages with [st] => bool_decide (in_file st = None) && bool_decide (out_file st = None) | _ => false end.
Definition exec_one (cmd : list Z) : M shell unit :=
  let* toks := run_pure (tokenize cmd) in
  match toks with
  | None => st_puts (line_of "sh: line too long")
  | Some [] => ret tt
  | Some toks =>
      let* r := run_pure (parse_pipeline toks) in
      match r with
      | inl e => st_puts (text "sh: ");; st_puts (line_of e)
      | inr stages =>
          let* builtin := if is_simple stages then try_builtin (hd no_stage stages) else ret false in
          if builtin : bool then ret tt
          else if is_simple stages then let* _ := run_simple (hd no_stage stages) in ret tt
          else let* _ := run_pipeline stages in ret tt
      end
  end.

(** A line goes into the history, and into its file when the history changed. *)
Definition remember (seg : list Z) : M shell unit :=
  let* h := gets hist_of in
  let* h' := of_option (hist_add seg h) in
  modify (λ s, set_hist s h');;
  when (negb (hist_head h' =? hist_head h) || negb (hist_count h' =? hist_count h)) (hist_persist_append seg).
(** A segment of the line the editor returned. *)
Definition run_segment (seg : list Z) : M shell unit :=
  if bool_decide (seg = []) then ret tt else remember seg;; exec_one seg.
(** The loop over the line; [seg] is its part from [start] on. After
    [sys_exit] nothing runs. *)
Fixpoint run_line (l seg : list Z) : M shell unit :=
  match l with
  | [] => run_segment seg
  | c :: l =>
      if c =? 10 then
        run_segment seg;;
        let* o := gets over in
        match o with Some _ => ret tt | None => run_line l [] end
      else run_line l (seg ++ [c])
  end.

(** The main loop; [input] is what reading the terminal returns. The result says
    whether the shell has ended, or waits for more. *)
Fixpoint main_loop (fuel : nat) (input : list read_result) : M shell bool :=
  match fuel with
  | O => undef
  | S fuel =>
      let* s := get in
      let* p := of_option (prompt (getcwd (chdirs s))) in
      st_puts p.1;;
      let* r := of_option (read_line_edit p.2 LINE_MAX (hist_of s) input fresh_editor) in
      st_puts (out r.2);;
      match r.1 with
      | Waiting => ret false
      | Closed => ret true
      | Line l rest =>
          store_at LINE_MAX (Z.of_nat (length l));;
          run_line l [];;
          let* o := gets over in
          match o with Some _ => ret true | None => main_loop fuel rest end
      end
  end.
(** [main] with the history file's [content]. *)
Definition main (content : option (list Z)) (input : list read_result) : M shell bool :=
  when (can_chdir (text "/home")) (modify (λ s, add_chdir s (text "/home")));;
  let* s := get in
  let* h := of_option (hist_load content (hist_of s)) in
  modify (λ s, set_hist s h);;
  main_loop (S (length input)) input.
End Run.

(** The shell as it is started, with [k] free descriptors. *)
Definition initial (k : nat) (pipes : list bool) (pids : list Z) : shell :=
  Shell ([Some Terminal; Some Terminal; Some Terminal] ++ replicate k None) 0 pipes pids [] [] [] [] [] None no_history [].
