(* ===== verification/ShThms.v ===== *)
(** The shell: a command line is read as it is written, the pipeline's
    processes are plumbed together, the history is the list of recent lines. *)

From Stdlib Require Import String.
From S2P Require Import Prelude Sh.
#[local] Open Scope list_scope.
#[local] Open Scope Z_scope.

(** * Arrays *)

Lemma index_in size i : 0 <= i < size -> index_ok size i = true.
Proof. intros H. unfold index_ok. now rewrite (proj2 (Z.leb_le _ _)), (proj2 (Z.ltb_lt _ _)) by lia. Qed.
Lemma store_in {S A} size i (m : M S A) s : 0 <= i < size -> (store_at size i;; m) s = m s.
Proof. intros H. unfold store_at. now rewrite index_in. Qed.
Lemma wp_store_at {S A} size i (m : M S A) (Q : A -> S -> Prop) s : 0 <= i < size -> wp m Q s -> wp (store_at size i;; m) Q s.
Proof. intros H. unfold wp. now rewrite store_in. Qed.
Lemma copy_to_take size limit l : forall i, 0 <= i -> limit <= size -> copy_to size limit i l = Some (take (Z.to_nat (limit - i)) l).
Proof.
  induction l as [|c l IH]; intros i Hi Hl; [now rewrite take_nil|]. cbn [copy_to]. destruct (Z.ltb_spec i limit).
  - rewrite index_in by lia. rewrite IH by lia. cbn [mbind option_bind]. now replace (Z.to_nat (limit - i)) with (S (Z.to_nat (limit - (i + 1)))) by lia.
  - now replace (Z.to_nat (limit - i)) with 0%nat by lia.
Qed.
Lemma copy_str_take size limit l : limit < size -> 0 < size -> copy_str size limit l = Some (take (Z.to_nat limit) l).
Proof. intros H1 H2. unfold copy_str. rewrite copy_to_take by lia. rewrite Z.sub_0_r. cbn [mbind option_bind]. rewrite index_in; [easy|]. rewrite length_take. lia. Qed.

(** * Words *)

Definition plain (c : Z) : bool := negb (is_blank c || is_special c).
Definition flush (w : list Z) : list token := if bool_decide (w = []) then [] else [(TOK_WORD, w)].
(** The tokens of a line of any length; [w] is the word so far. *)
Fixpoint lex (l w : list Z) : list token :=
  match l with
  | [] => flush w
  | c :: l =>
      if is_blank c then flush w ++ lex l []
      else if c =? 124 then flush w ++ (TOK_PIPE, []) :: lex l []
      else if c =? 60 then flush w ++ (TOK_REDIR_IN, []) :: lex l []
      else if c =? 62 then
        flush w ++ match l with
          | d :: l' => if d =? 62 then (TOK_REDIR_APPEND, []) :: lex l' [] else (TOK_REDIR_OUT, []) :: lex l []
          | [] => [(TOK_REDIR_OUT, [])]
          end
      else lex l (w ++ [c])
  end.

Definition stops (l : list Z) : Prop := match l with c :: _ => plain c = false | [] => True end.

Lemma plain_cases c : plain c = true <-> is_blank c = false /\ (c =? 124) = false /\ (c =? 60) = false /\ (c =? 62) = false.
Proof. unfold plain, is_special. destruct (is_blank c), (c =? 124), (c =? 60), (c =? 62); simpl; naive_solver. Qed.
Lemma lex_plain c l w : plain c = true -> lex (c :: l) w = lex l (w ++ [c]).
Proof. intros (E1 & E2 & E3 & E4)%plain_cases. cbn [lex]. now rewrite E1, E2, E3, E4. Qed.
Lemma lex_stop c l w : plain c = false -> lex (c :: l) w = flush w ++ lex (c :: l) [].
Proof.
  unfold plain, is_special. intros E. cbn [lex]. change (flush []) with (@nil token). destruct (is_blank c); [easy|]. destruct (c =? 124); [easy|]. destruct (c =? 60); [easy|].
  destruct (c =? 62); [|easy]. now destruct l.
Qed.
Lemma lex_word w l acc : Forall (λ c, plain c = true) w -> stops l -> lex (w ++ l) acc = flush (acc ++ w) ++ lex l [].
Proof.
  intros Hw Hl. revert acc. induction Hw as [|c w Hc _ IH]; intros acc.
  - simpl. rewrite app_nil_r. destruct l as [|c l]; [now rewrite app_nil_r|]. now apply lex_stop.
  - simpl app. rewrite lex_plain by exact Hc. rewrite IH. now rewrite <- app_assoc.
Qed.

Lemma scan_word_spec l tb : 0 <= tb -> tb + Z.of_nat (length l) <= TOKBUF_MAX - 1 ->
  exists w rest, scan_word l tb tt = Some (Some (w, rest, tb + Z.of_nat (length w)), tt) /\ l = w ++ rest /\ Forall (λ c, plain c = true) w /\ stops rest.
Proof.
  revert tb. induction l as [|c l IH]; intros tb H0 H; cbn [scan_word].
  - exists [], []. simpl. rewrite Z.add_0_r. auto.
  - simpl length in H. destruct (is_blank c || is_special c) eqn:E.
    + exists [], (c :: l). rewrite Z.add_0_r. repeat split; auto. simpl. unfold plain. now rewrite E.
    + rewrite (proj2 (Z.leb_gt _ _)) by lia. rewrite store_in by lia. destruct (IH (tb + 1)) as (w & rest & Es & -> & Hw & Hr); [lia|lia|]. unfold bind. rewrite Es. exists (c :: w), rest.
      repeat split; auto; [simpl length; unfold ret; do 4 f_equal; lia|]. constructor; [|exact Hw]. unfold plain. now rewrite E.
Qed.

(** The bytes of [tokbuf] a line still needs at most. *)
Definition room (l : list Z) : Z := Z.of_nat (length l) + match l with c :: _ => if plain c then 1 else 0 | [] => 0 end.
Lemma tokbuf_room_le l : Z.of_nat (length l) <= room l <= Z.of_nat (length l) + 1.
Proof. unfold room. destruct l; [lia|]. case_match; lia. Qed.
Lemma room_stops l : stops l -> room l = Z.of_nat (length l).
Proof. unfold room. destruct l; [easy|]. simpl. intros ->. lia. Qed.

Definition limit (toks : list token) : option (list token) := if Z.of_nat (length toks) <=? TOKENS_MAX - 1 then Some toks else None.

Definition after_token (c : Z) (l : list Z) (tb : Z) (toks : list token) (t : token) (rest : list Z) (tb' : Z) : Prop :=
  lex (c :: l) [] = t :: lex rest [] /\ (length rest <= length l)%nat /\ 0 <= tb' /\ tb' + room rest <= tb + room (c :: l) /\
  tok_step (c :: l, tb, toks) tt = Some (if TOKENS_MAX - 1 <=? Z.of_nat (length toks) then inr None else inl (rest, tb', toks ++ [t]), tt).

Lemma push_in {A} toks t (m : list token -> M unit A) s : Z.of_nat (length toks) < TOKENS_MAX -> (let* toks := push_token toks t in m toks) s = m (toks ++ [t]) s.
Proof. intros H. unfold push_token, bind at 1. rewrite store_in by lia. reflexivity. Qed.
Lemma special_token c l tb toks t rest : 0 <= tb -> plain c = false -> lex (c :: l) [] = t :: lex rest [] -> (length rest <= length l)%nat ->
  tok_step (c :: l, tb, toks) tt = Some (if TOKENS_MAX - 1 <=? Z.of_nat (length toks) then inr None else inl (rest, tb, toks ++ [t]), tt) ->
  after_token c l tb toks t rest tb.
Proof. intros H0 Ep El Hl Es. repeat split; auto. pose proof (tokbuf_room_le rest). rewrite (room_stops (c :: l)) by exact Ep. simpl length. lia. Qed.

Local Ltac special_tac := match goal with |- context [TOKENS_MAX - 1 <=? ?n] => destruct (Z.leb_spec (TOKENS_MAX - 1) n); [easy|]; rewrite push_in by lia; reflexivity end.
(** A round on a line with a token at its head. *)
Lemma tok_step_token c l tb toks : 0 <= tb -> is_blank c = false -> tb + room (c :: l) <= TOKBUF_MAX - 1 -> exists t rest tb', after_token c l tb toks t rest tb'.
Proof.
  intros H0 Hb Hr. destruct (plain c) eqn:Ep.
  - pose proof (tokbuf_room_le (c :: l)). destruct (scan_word_spec (c :: l) tb) as (w & rest & Es & Ew & Hw & Hs); [lia|lia|].
    destruct w as [|d w]; [simpl in Ew; subst rest; simpl in Hs; congruence|]. injection Ew as <- Ew.
    exists (TOK_WORD, c :: w), rest, (tb + Z.of_nat (length (c :: w)) + 1). split; [|split; [|split; [simpl length; lia|split]]].
    + rewrite Ew. change (c :: w ++ rest) with ((c :: w) ++ rest). now rewrite lex_word.
    + rewrite Ew, length_app. lia.
    + rewrite (room_stops rest Hs). unfold room. rewrite Ep. rewrite Ew. simpl length. rewrite length_app. lia.
    + assert (room (c :: l) = Z.of_nat (length l) + 2) as Er by (unfold room; rewrite Ep; simpl length; lia).
      assert (length l = (length w + length rest)%nat) as El by (rewrite Ew; apply length_app).
      unfold tok_step. apply plain_cases in Ep as (_ & E2 & E3 & E4). rewrite Hb, E2, E3, E4. destruct (Z.leb_spec (TOKENS_MAX - 1) (Z.of_nat (length toks))); [easy|]. rewrite push_in by lia.
      unfold bind at 1. rewrite Es. rewrite (proj2 (Z.leb_gt _ _)) by (simpl length; lia). rewrite store_in by (simpl length; lia). reflexivity.
  - unfold tok_step. destruct (c =? 124) eqn:E2; [|destruct (c =? 60) eqn:E3; [|destruct (c =? 62) eqn:E4]].
    + exists (TOK_PIPE, []), l, tb. apply special_token; auto; [cbn [lex]|unfold tok_step]; rewrite Hb, E2; [easy|]. special_tac.
    + exists (TOK_REDIR_IN, []), l, tb. apply special_token; auto; [cbn [lex]|unfold tok_step]; rewrite Hb, E2, E3; [easy|]. special_tac.
    + destruct l as [|d l].
      * exists (TOK_REDIR_OUT, []), [], tb. apply special_token; auto; [cbn [lex]|unfold tok_step]; rewrite Hb, E2, E3, E4; [easy|]. special_tac.
      * destruct (d =? 62) eqn:Ed.
        -- exists (TOK_REDIR_APPEND, []), l, tb. apply special_token; auto; [cbn [lex]|simpl; lia|unfold tok_step]; rewrite Hb, E2, E3, E4, Ed; [easy|]. special_tac.
        -- exists (TOK_REDIR_OUT, []), (d :: l), tb. apply special_token; auto; [cbn [lex]|unfold tok_step]; rewrite Hb, E2, E3, E4, Ed; [easy|]. special_tac.
    + unfold plain, is_special in Ep. rewrite Hb, E2, E3, E4 in Ep. easy.
Qed.

Lemma tokenize_loop n : forall line tb toks, (length line < n)%nat -> 0 <= tb -> tb + room line <= TOKBUF_MAX - 1 -> Z.of_nat (length toks) <= TOKENS_MAX - 1 ->
  loop n tok_step (line, tb, toks) tt = Some (limit (toks ++ lex line []), tt).
Proof.
  induction n as [|n IH]; [lia|]. intros line tb toks Hn H0 Hr Ht.
  change (match tok_step (line, tb, toks) tt with Some (a, s) => match a with inl v => loop n tok_step v | inr r => ret r end s | None => None end = Some (limit (toks ++ lex line []), tt)).
  destruct line as [|c l].
  { cbn [tok_step]. simpl lex. change (flush []) with (@nil token). rewrite app_nil_r. unfold limit, ret. now rewrite (proj2 (Z.leb_le _ _)) by lia. }
  simpl in Hn. destruct (is_blank c) eqn:Hb.
  - cbn [tok_step lex]. rewrite Hb. change (flush []) with (@nil token). rewrite app_nil_l. apply IH; [lia|exact H0| |exact Ht].
    pose proof (tokbuf_room_le l). unfold room in Hr at 1. unfold plain in Hr. rewrite Hb in Hr. simpl in Hr. lia.
  - destruct (tok_step_token c l tb toks H0 Hb Hr) as (t & rest & tb' & El & Hl & H0' & Hr' & ->). rewrite El. destruct (Z.leb_spec (TOKENS_MAX - 1) (Z.of_nat (length toks))).
    + unfold limit. rewrite length_app. simpl length. now rewrite (proj2 (Z.leb_gt _ _)) by lia.
    + replace (toks ++ t :: lex rest []) with ((toks ++ [t]) ++ lex rest []) by now rewrite <- app_assoc. apply IH; [lia|lia|lia|]. rewrite length_app. simpl. lia.
Qed.

(** Whatever the line, its words are found, and there is room for them; only
    more than 63 tokens are refused. *)
Lemma tokenize_lex line : Z.of_nat (length line) < LINE_MAX -> tokenize line tt = Some (limit (lex line []), tt).
Proof.
  intros Hl. unfold tokenize. rewrite (tokenize_loop _ line 0 []); [easy|lia|lia| |easy]. pose proof (tokbuf_room_le line). unfold LINE_MAX, TOKBUF_MAX in *. lia.
Qed.

(** * Command lines *)

Definition redir_tokens (kind : tok_kind_t) (f : option (list Z)) : list token := match f with Some w => [(kind, []); (TOK_WORD, w)] | None => [] end.
Definition stage_tokens (s : stage_t) : list token :=
  map (pair TOK_WORD) (argv s) ++ redir_tokens TOK_REDIR_IN (in_file s) ++ redir_tokens (if append s then TOK_REDIR_APPEND else TOK_REDIR_OUT) (out_file s).
Fixpoint pipeline_tokens (stages : list stage_t) : list token :=
  match stages with
  | [] => []
  | s :: rest => stage_tokens s ++ match rest with [] => [] | _ => (TOK_PIPE, []) :: pipeline_tokens rest end
  end.
(** The tokens on a line, a blank behind each. *)
Definition token_text (t : token) : list Z :=
  match t.1 with TOK_WORD => t.2 | TOK_PIPE => [124] | TOK_REDIR_IN => [60] | TOK_REDIR_OUT => [62] | TOK_REDIR_APPEND => [62; 62] end ++ [32].
Definition print (stages : list stage_t) : list Z := concat (map token_text (pipeline_tokens stages)).

Definition word (w : list Z) : Prop := w <> [] /\ Forall (λ c, plain c = true) w.
Definition wf_token (t : token) : Prop := match t.1 with TOK_WORD => word t.2 | _ => t.2 = [] end.
Definition file_word (f : option (list Z)) : Prop := match f with Some w => word w | None => True end.
Record wf_stage (s : stage_t) : Prop := {
  ws_argc : 1 <= argc s < ARGV_MAX;
  ws_argv : Forall word (argv s);
  ws_in : file_word (in_file s);
  ws_out : file_word (out_file s);
  ws_append : out_file s = None -> append s = false }.
(** Only the first stage reads a file, only the last one writes one. *)
Definition redirs_at_ends (stages : list stage_t) (j : nat) : Prop := forall i s, stages !! i = Some s ->
  ((0 < j + i)%nat -> in_file s = None) /\ ((S i < length stages)%nat -> out_file s = None).
Record wf_pipeline (stages : list stage_t) : Prop := {
  wp_count : 1 <= Z.of_nat (length stages) <= STAGES_MAX;
  wp_stages : Forall wf_stage stages;
  wp_redirs : redirs_at_ends stages 0 }.

Lemma check_redirs_spec stages : forall j, check_redirs stages j = None <-> redirs_at_ends stages j.
Proof.
  induction stages as [|s stages IH]; intros j; cbn [check_redirs]; [split; [intros _ i s E; easy|easy]|].
  assert (redirs_at_ends (s :: stages) j <-> ((0 < j)%nat -> in_file s = None) /\ (stages <> [] -> out_file s = None) /\ redirs_at_ends stages (S j)) as ->.
  { split.
    - intros H. destruct (H 0%nat s eq_refl) as [H1 H2]. rewrite Nat.add_0_r in H1. split; [exact H1|]. split; [intros Hne; apply H2; destruct stages; [easy|simpl; lia]|].
      intros i s' E. destruct (H (S i) s' E) as [H3 H4]. split; [intros _; apply H3; lia|]. intros Hi. apply H4. simpl. lia.
    - intros (H1 & H2 & H3) [|i] s' E; simpl in E.
      + injection E as <-. rewrite Nat.add_0_r. split; [exact H1|]. intros Hi. apply H2. intros ->. simpl in Hi. lia.
      + destruct (H3 i s' E) as [H4 H5]. split; [intros _; apply H4; lia|]. intros Hi. apply H5. simpl in Hi. lia. }
  rewrite <- IH. assert (forall o : option (list Z), ~ is_Some o <-> o = None) as Hn by (intros o; symmetry; apply eq_None_not_Some).
  destruct (Nat.ltb_spec 0 j); cbn [andb]; repeat case_bool_decide; cbn [negb andb]; rewrite <- ?Hn; intuition (discriminate || lia).
Qed.

Lemma lex_print toks : Forall wf_token toks -> lex (concat (map token_text toks)) [] = toks.
Proof.
  induction 1 as [|[kind w] toks Hw _ IH]; [easy|]. cbn [map concat]. unfold token_text at 1. destruct kind; cbn [fst snd wf_token] in *; unfold wf_token in Hw; cbn [fst snd] in Hw;
    try (subst w; simpl; now rewrite IH).
  destruct Hw as [Hne Hw]. rewrite <- app_assoc. rewrite lex_word by easy. simpl. unfold flush. rewrite bool_decide_eq_false_2 by exact Hne. now rewrite IH.
Qed.

Lemma wf_redir_tokens kind f : kind <> TOK_WORD -> file_word f -> Forall wf_token (redir_tokens kind f).
Proof. destruct f as [w|]; simpl; [|constructor]. intros Hk Hw. repeat constructor; [|exact (proj1 Hw)|exact (proj2 Hw)]. now destruct kind. Qed.
Lemma wf_stage_tokens s : wf_stage s -> Forall wf_token (stage_tokens s).
Proof.
  intros [_ Ha Hi Ho _]. unfold stage_tokens. rewrite !Forall_app. split; [|split].
  - clear -Ha. induction Ha; simpl; constructor; auto.
  - now apply wf_redir_tokens.
  - apply wf_redir_tokens; [|exact Ho]. now destruct (append s).
Qed.
Lemma wf_pipeline_tokens stages : Forall wf_stage stages -> Forall wf_token (pipeline_tokens stages).
Proof.
  induction 1 as [|s stages Hs _ IH]; [constructor|]. cbn [pipeline_tokens]. apply Forall_app. split; [now apply wf_stage_tokens|]. destruct stages; [constructor|]. now constructor.
Qed.

Lemma argc_nonneg s : 0 <= argc s.
Proof. unfold argc. lia. Qed.
Lemma parse_words ws toks before cur : argc cur + Z.of_nat (length ws) < ARGV_MAX ->
  parse_tokens (map (pair TOK_WORD) ws ++ toks) before cur tt = parse_tokens toks before (Stage (argv cur ++ ws) (in_file cur) (out_file cur) (append cur)) tt.
Proof.
  revert cur. induction ws as [|w ws IH]; intros cur Hn; cbn [map app].
  - rewrite app_nil_r. now destruct cur.
  - simpl length in Hn. pose proof (argc_nonneg cur). cbn [parse_tokens]. rewrite (proj2 (Z.leb_gt _ _)) by lia. rewrite store_in by lia. rewrite IH; simpl; [now rewrite <- app_assoc|]. unfold argc in *. simpl. rewrite length_app. simpl. lia.
Qed.
Lemma parse_stage s toks before : wf_stage s -> parse_tokens (stage_tokens s ++ toks) before no_stage tt = parse_tokens toks before s tt.
Proof.
  intros [Hn _ _ _ Ha]. unfold stage_tokens. rewrite <- !app_assoc, parse_words; [|exact (proj2 Hn)]. simpl argv. rewrite app_nil_l. destruct s as [av fi fo ap]. simpl in *.
  assert (parse_tokens (redir_tokens TOK_REDIR_IN fi ++ redir_tokens (if ap then TOK_REDIR_APPEND else TOK_REDIR_OUT) fo ++ toks) before (Stage av None None false) =
    parse_tokens (redir_tokens (if ap then TOK_REDIR_APPEND else TOK_REDIR_OUT) fo ++ toks) before (Stage av fi None false)) as -> by (destruct fi; [reflexivity|easy]).
  destruct fo as [w|]; [|now rewrite (Ha eq_refl)]. simpl. now destruct ap.
Qed.
Lemma parse_stages stages before : Forall wf_stage stages -> stages <> [] -> Z.of_nat (length before + length stages) <= STAGES_MAX ->
  parse_tokens (pipeline_tokens stages) before no_stage tt = Some (inr (before ++ stages), tt).
Proof.
  intros Hw. revert before. induction Hw as [|s stages Hs _ IH]; intros before Hne Hn; [easy|]. simpl in Hn. pose proof (ws_argc _ Hs) as Hargc. cbn [pipeline_tokens]. rewrite parse_stage by exact Hs. destruct stages as [|s' stages].
  - cbn [parse_tokens]. rewrite (proj2 (Z.eqb_neq _ _)) by lia. now rewrite store_in by lia.
  - simpl length in Hn. set (toks := pipeline_tokens (s' :: stages)) in *. cbn [parse_tokens]. rewrite (proj2 (Z.eqb_neq _ _)) by lia. rewrite store_in by lia. rewrite (proj2 (Z.leb_gt _ _)) by lia. rewrite store_in by lia.
    rewrite IH; [now rewrite <- app_assoc|easy|]. rewrite length_app. simpl. lia.
Qed.
Lemma parse_print stages : wf_pipeline stages -> parse_pipeline (pipeline_tokens stages) tt = Some (inr stages, tt).
Proof.
  intros [Hn Hw Hr]. unfold parse_pipeline. rewrite store_in by easy. unfold bind. rewrite parse_stages; auto; [now rewrite app_nil_l, (proj2 (check_redirs_spec stages 0) Hr)| |simpl; lia]. intros ->. simpl in Hn. lia.
Qed.

Lemma wf_flush w : Forall (λ c, plain c = true) w -> Forall wf_token (flush w).
Proof. intros Hw. unfold flush. case_bool_decide; repeat constructor; auto. Qed.
Lemma wf_lex n : forall l w, (length l <= n)%nat -> Forall (λ c, plain c = true) w -> Forall wf_token (lex l w).
Proof.
  induction n as [|n IH]; intros l w Hn Hw; (destruct l as [|c l]; [now apply wf_flush|]); simpl in Hn; [lia|]. cbn [lex].
  destruct (is_blank c) eqn:E1; [|destruct (c =? 124) eqn:E2; [|destruct (c =? 60) eqn:E3; [|destruct (c =? 62) eqn:E4]]].
  5: { apply IH; [lia|]. apply Forall_app. split; [exact Hw|]. repeat constructor. now apply plain_cases. }
  all: apply Forall_app; split; [now apply wf_flush|]. 4: destruct l as [|d l]; [repeat constructor|]; destruct (d =? 62); simpl in Hn.
  all: repeat match goal with |- Forall _ (_ :: _) => constructor; [easy|] end; apply IH; simpl in *; auto; lia.
Qed.

(** What the loop over the tokens has made so far is well-formed. *)
Record wf_partial (s : stage_t) : Prop := {
  wq_argc : argc s < ARGV_MAX;
  wq_argv : Forall word (argv s);
  wq_in : file_word (in_file s);
  wq_out : file_word (out_file s);
  wq_append : out_file s = None -> append s = false }.
Lemma wf_no_stage : wf_partial no_stage.
Proof. split; simpl; auto. done. Qed.
Lemma wf_complete s : wf_partial s -> argc s <> 0 -> wf_stage s.
Proof. intros [] Hz. split; auto. unfold argc in *. lia. Qed.

Lemma parse_tokens_wf n : forall toks before cur, (length toks <= n)%nat -> Forall wf_token toks -> Forall wf_stage before -> wf_partial cur -> Z.of_nat (length before) < STAGES_MAX ->
  wp (parse_tokens toks before cur) (λ r _, forall stages, r = inr stages -> Forall wf_stage stages /\ 1 <= Z.of_nat (length stages) <= STAGES_MAX) tt.
Proof.
  set (Q := λ (r : string + list stage_t) (_ : unit), forall stages, r = inr stages -> Forall wf_stage stages /\ 1 <= Z.of_nat (length stages) <= STAGES_MAX).
  assert (forall e, wp (ret (inl e)) Q tt) as Herr by (intros e; apply wp_ret; now intros stages E).
  induction n as [|n IH]; intros [|[kind w] toks] before cur Hn Ht Hb Hc Hl; simpl in Hn; try lia; pose proof (argc_nonneg cur) as H0; pose proof (wq_argc _ Hc) as Ha'; cbn [parse_tokens].
  1, 2: destruct (Z.eqb_spec (argc cur) 0); [apply Herr|]; apply wp_store_at; [lia|]; apply wp_ret; intros stages [= <-]; rewrite length_app; simpl; split; [apply Forall_app; split; auto; constructor; [now apply wf_complete|constructor]|lia].
  apply Forall_cons_iff in Ht as [Hw Ht]. pose proof Hc as [Ha Hv Hi Ho Hp]. destruct (decide (kind = TOK_WORD)) as [->|Hk].
  { destruct (Z.leb_spec (ARGV_MAX - 1) (argc cur)); [apply Herr|]. apply wp_store_at; [lia|]. apply IH; auto; [lia|]. split; simpl; auto; [unfold argc in *; simpl; rewrite length_app; simpl; lia|]. apply Forall_app. auto. }
  destruct (decide (kind = TOK_PIPE)) as [->|Hk'].
  { destruct (Z.eqb_spec (argc cur) 0); [apply Herr|]. apply wp_store_at; [lia|]. destruct (Z.leb_spec STAGES_MAX (Z.of_nat (length before) + 1)); [apply Herr|]. apply wp_store_at; [lia|].
    apply (IH toks (before ++ [cur]) no_stage); auto using wf_no_stage; [lia| |rewrite length_app; simpl; lia]. apply Forall_app. split; [exact Hb|]. repeat constructor; auto. lia. }
  assert (forall w' rest, toks = (TOK_WORD, w') :: rest -> wp (parse_tokens rest before
    (if decide (kind = TOK_REDIR_IN) then Stage (argv cur) (Some w') (out_file cur) (append cur) else Stage (argv cur) (in_file cur) (Some w') (bool_decide (kind = TOK_REDIR_APPEND)))) Q tt) as Hgo.
  { intros w' rest ->. apply Forall_cons_iff in Ht as [Hw' Ht]. simpl in Hn. apply IH; auto; [lia|]. unfold wf_token in Hw'. simpl in Hw'. case_decide; split; simpl; auto; easy. }
  destruct kind; try easy; (destruct toks as [|[[] w'] rest]; try apply Herr); now apply (Hgo w').
Qed.
(** Whatever the tokens, parsing stays inside the arrays. *)
Lemma parsed_wf toks : Forall wf_token toks -> exists r, parse_pipeline toks tt = Some (r, tt) /\ forall stages, r = inr stages -> wf_pipeline stages.
Proof.
  intros Ht. unfold parse_pipeline. rewrite store_in by easy. pose proof (parse_tokens_wf (length toks) toks [] no_stage (le_n _) Ht (Forall_nil_2 _) wf_no_stage eq_refl) as Hp.
  unfold wp in Hp. unfold bind. destruct (parse_tokens toks [] no_stage tt) as [[r []]|]; [|easy]. destruct r as [e|st]; [exists (inl e); easy|]. destruct (Hp st eq_refl) as [H1 H2].
  eexists. split; [reflexivity|]. destruct (check_redirs st 0) eqn:Er; [easy|]. intros stages [= <-]. split; auto. now apply check_redirs_spec.
Qed.

(** C38. A command line means what it says. Printing a well-formed pipeline - one
    to eight commands of one to fifteen words without blanks and operators, a
    file for the input only at the first and one for the output only at the
    last, written or appended to - and reading the line gives the pipeline
    back, if the line is shorter than 256 bytes and has at most 63 tokens; and
    whatever line of less than 256 bytes is read, the tokenizer and the parser
    store only inside their arrays (words, kinds, tokbuf, stages and argv), the
    line is refused for its length only from 64 tokens on, and a pipeline it is
    taken for is well-formed. *)
Theorem command_line_roundtrip :
  (forall stages, wf_pipeline stages -> Z.of_nat (length (print stages)) < LINE_MAX -> Z.of_nat (length (pipeline_tokens stages)) < TOKENS_MAX ->
    tokenize (print stages) tt = Some (Some (pipeline_tokens stages), tt) /\ parse_pipeline (pipeline_tokens stages) tt = Some (inr stages, tt)) /\
  (forall line, Z.of_nat (length line) < LINE_MAX -> exists r, tokenize line tt = Some (r, tt) /\
    match r with
    | None => TOKENS_MAX <= Z.of_nat (length (lex line []))
    | Some toks => exists p, parse_pipeline toks tt = Some (p, tt) /\ forall stages, p = inr stages -> wf_pipeline stages
    end).
Proof.
  split.
  - intros stages Hw Hl Ht. rewrite tokenize_lex by exact Hl. unfold print. rewrite lex_print by apply wf_pipeline_tokens, Hw. unfold limit. rewrite (proj2 (Z.leb_le _ _)) by lia. auto using parse_print.
  - intros line Hl. rewrite tokenize_lex by exact Hl. eexists. split; [reflexivity|]. unfold limit. destruct (Z.leb_spec (Z.of_nat (length (lex line []))) (TOKENS_MAX - 1)); [|lia].
    apply parsed_wf. now apply (wf_lex (length line)).
Qed.
Lemma command_line_roundtrip_witness :
  let stages := [Stage [[99; 97; 116]] (Some [97]) None false; Stage [[119; 99]; [45; 108]] None (Some [98]) true] in
  tokenize (print stages) tt = Some (Some (pipeline_tokens stages), tt) /\ parse_pipeline (pipeline_tokens stages) tt = Some (inr stages, tt).
Proof.
  apply (proj1 command_line_roundtrip); [|vm_compute; reflexivity|vm_compute; reflexivity]. split; [vm_compute; split; intros E; discriminate E| |].
  - repeat constructor; try discriminate; vm_compute; easy.
  - intros [|[|i]] s E; [injection E as <-|injection E as <-|easy]; split; simpl; intros; (reflexivity || lia).
Defined.

(** * The history *)

(** The recent lines, the last one first. *)
Definition recent_add (s : list Z) (hs : list (list Z)) : list (list Z) :=
  if bool_decide (s = []) || bool_decide (head hs = Some s) then hs else take (Z.to_nat HIST_MAX) (s :: hs).
Record represents (h : history) (hs : list (list Z)) : Prop := {
  hr_len : Z.of_nat (length (hist h)) = HIST_MAX;
  hr_count : hist_count h = Z.of_nat (length hs) /\ Z.of_nat (length hs) <= HIST_MAX;
  hr_head : 0 <= hist_head h < HIST_MAX;
  hr_at : forall i, 0 <= i < Z.of_nat (length hs) -> arr_get (hist h) ((hist_head h - 1 - i) mod HIST_MAX) = hs !! Z.to_nat i }.

Lemma no_history_represents : represents no_history [].
Proof. split; simpl; try lia; done. Qed.

Lemma slot_range x : 0 <= x mod HIST_MAX < HIST_MAX.
Proof. now apply Z.mod_pos_bound. Qed.

Lemma hist_add_ok s h hs : represents h hs -> Z.of_nat (length s) < LINE_MAX ->
  exists h', hist_add s h = Some h' /\ represents h' (recent_add s hs) /\
    (negb (hist_head h' =? hist_head h) || negb (hist_count h' =? hist_count h)) = negb (bool_decide (s = []) || bool_decide (head hs = Some s)).
Proof.
  intros HR Hs. pose proof HR as [Hl [Hc Hc'] Hh Ha]. unfold hist_add, recent_add. case_bool_decide as E0; cbn [orb].
  { exists h. now rewrite !Z.eqb_refl. }
  assert ((if 0 <? hist_count h then l ← arr_get (hist h) ((hist_head h - 1 + HIST_MAX) mod HIST_MAX); Some (bool_decide (l = s)) else Some false) = Some (bool_decide (head hs = Some s))) as ->.
  { destruct hs as [|l hs]; simpl length in *.
    - rewrite Hc. cbn [length Z.of_nat Z.ltb Z.compare head]. rewrite bool_decide_eq_false_2; easy.
    - rewrite (proj2 (Z.ltb_lt _ _)) by lia. replace ((hist_head h - 1 + HIST_MAX) mod HIST_MAX) with ((hist_head h - 1 - 0) mod HIST_MAX) by (unfold HIST_MAX; Z.div_mod_to_equations; lia).
      rewrite Ha by lia. simpl. f_equal. apply bool_decide_ext. naive_solver. }
  cbn [mbind option_bind]. case_bool_decide as E1.
  { exists h. now rewrite !Z.eqb_refl. }
  rewrite copy_str_take by easy. cbn [mbind option_bind]. rewrite arr_set_lt by lia. cbn [mbind option_bind]. rewrite take_ge by (unfold LINE_MAX in *; lia). eexists. split; [reflexivity|]. split.
  2: { cbn [hist_head hist_count negb]. destruct (Z.eqb_spec ((hist_head h + 1) mod HIST_MAX) (hist_head h)) as [E|]; [|easy]. unfold HIST_MAX in *. Z.div_mod_to_equations. lia. }
  split; cbn [hist hist_count hist_head].
  - now rewrite length_insert.
  - rewrite length_take. cbn [length]. unfold HIST_MAX in *. destruct (Z.ltb_spec (hist_count h) 64); lia.
  - apply slot_range.
  - intros i. rewrite length_take. cbn [length]. intros Hi. rewrite arr_get_insert by (rewrite Hl; exact Hh). rewrite lookup_take_lt by (unfold HIST_MAX in *; lia). destruct (Z.eq_dec i 0) as [->|Hi0].
    + rewrite decide_True; [reflexivity|]. unfold HIST_MAX in *. Z.div_mod_to_equations. lia.
    + rewrite decide_False by (unfold HIST_MAX in *; Z.div_mod_to_equations; lia).
      replace (((hist_head h + 1) mod HIST_MAX - 1 - i) mod HIST_MAX) with ((hist_head h - 1 - (i - 1)) mod HIST_MAX) by (unfold HIST_MAX in *; Z.div_mod_to_equations; lia).
      rewrite Ha by lia. replace (Z.to_nat i) with (S (Z.to_nat (i - 1))) by lia. reflexivity.
Qed.

Lemma hist_get_ok back h hs : represents h hs -> hist_get back h = if back <=? 0 then None else hs !! Z.to_nat (back - 1).
Proof.
  intros [Hl [Hc Hc'] Hh Ha]. unfold hist_get. destruct (Z.leb_spec back 0); [easy|]. simpl. destruct (Z.ltb_spec (hist_count h) back).
  - symmetry. apply lookup_ge_None_2. lia.
  - replace ((hist_head h - back + HIST_MAX * 2) mod HIST_MAX) with ((hist_head h - 1 - (back - 1)) mod HIST_MAX) by (unfold HIST_MAX in *; Z.div_mod_to_equations; lia). apply Ha. lia.
Qed.

Definition file_of (ls : list (list Z)) : list Z := concat (map (λ l, l ++ [10]) ls).
Definition one_line (l : list Z) : Prop := Forall (λ c, c <> 10) l.
Definition cut (l : list Z) : list Z := take (Z.to_nat (LINE_MAX - 1)) l.
Definition recents (ls : list (list Z)) : list (list Z) := foldl (λ hs s, recent_add s hs) [] ls.

Lemma cut_short l : Z.of_nat (length (cut l)) < LINE_MAX.
Proof. unfold cut. rewrite length_take. unfold LINE_MAX. lia. Qed.
Lemma cut_id l : Z.of_nat (length l) < LINE_MAX -> cut l = l.
Proof. intros H. apply take_ge. unfold LINE_MAX in *. lia. Qed.

Lemma map_cut ls : Forall (λ l, Z.of_nat (length l) < LINE_MAX) ls -> map cut ls = ls.
Proof. induction 1 as [|l ls Hl _ IH]; [easy|]. cbn [map]. now rewrite IH, cut_id. Qed.

Lemma load_line l rest h : forall acc, one_line l -> Z.of_nat (length acc) < LINE_MAX ->
  hist_load_bytes (l ++ 10 :: rest) acc h = (h' ← hist_add (cut (acc ++ l)) h; hist_load_bytes rest [] h').
Proof.
  induction l as [|c l IH]; intros acc Hl Ha.
  - rewrite app_nil_r, cut_id by exact Ha. cbn [app hist_load_bytes Z.eqb Pos.eqb]. now rewrite index_in by lia.
  - apply Forall_cons_iff in Hl as [Hc Hl]. cbn [app hist_load_bytes]. rewrite (proj2 (Z.eqb_neq _ _)) by exact Hc. rewrite index_in by lia. destruct (Z.ltb_spec (Z.of_nat (length acc)) (LINE_MAX - 1)).
    + rewrite IH; [now rewrite <- app_assoc|exact Hl|]. rewrite length_app. simpl. lia.
    + rewrite IH by auto. unfold cut. rewrite !take_app_le by (unfold LINE_MAX in *; lia). reflexivity.
Qed.
Lemma load_lines ls d : Forall one_line ls -> forall h hs, represents h hs ->
  exists h', represents h' (foldl (λ hs s, recent_add s hs) hs (map cut ls)) /\ hist_load_bytes (file_of ls ++ d) [] h = hist_load_bytes d [] h'.
Proof.
  induction 1 as [|l ls Hl _ IH]; intros h hs HR; [now exists h|]. unfold file_of. cbn [map concat]. rewrite <- !app_assoc. cbn [app]. rewrite load_line by easy. rewrite app_nil_l.
  destruct (hist_add_ok (cut l) h hs HR (cut_short l)) as (h1 & -> & H1 & _). cbn [mbind option_bind foldl]. now apply IH.
Qed.
Lemma load_file ls : Forall one_line ls -> exists h, hist_load (Some (file_of ls)) no_history = Some h /\ represents h (recents (map cut ls)).
Proof.
  intros Hl. destruct (load_lines ls [] Hl no_history [] no_history_represents) as (h & HR & E). rewrite app_nil_r in E. exists h. split; [exact E|exact HR].
Qed.

(** The lines that change the history, and so go to the file. *)
Fixpoint kept (hs : list (list Z)) (ls : list (list Z)) : list (list Z) :=
  match ls with
  | [] => []
  | s :: ls => (if bool_decide (s = []) || bool_decide (head hs = Some s) then [] else [s]) ++ kept (recent_add s hs) ls
  end.
Lemma kept_recents ls : forall hs, foldl (λ hs s, recent_add s hs) hs (kept hs ls) = foldl (λ hs s, recent_add s hs) hs ls.
Proof.
  induction ls as [|s ls IH]; intros hs; [easy|]. cbn [kept foldl]. destruct (_ || _) eqn:E; cbn [app foldl]; [|now rewrite IH].
  assert (recent_add s hs = hs) as -> by (unfold recent_add; now rewrite E). apply IH.
Qed.
Lemma kept_sub P ls : Forall P ls -> forall hs, Forall P (kept hs ls).
Proof. induction 1; intros hs; [constructor|]. cbn [kept]. apply Forall_app. split; [|auto]. case_match; auto. Qed.

(** A descriptor is free, and [open] gives the lowest one. *)
Lemma free_from_spec l i j : free_from l i = Some j -> i <= j < i + Z.of_nat (length l) /\ l !! Z.to_nat (j - i) = Some None.
Proof.
  revert i. induction l as [|[d|] l IH]; intros i E; simpl in E; [easy| |].
  - apply IH in E as [H1 H2]. simpl length. split; [lia|]. now replace (Z.to_nat (j - i)) with (S (Z.to_nat (j - (i + 1)))) by lia.
  - injection E as <-. simpl length. split; [lia|]. now rewrite Z.sub_diag.
Qed.
Lemma wp_fd_put d s (Q : Z -> shell -> Prop) :
  (forall i, 3 <= i < Z.of_nat (length (fds s)) -> fds s !! Z.to_nat i = Some None -> Q i (set_fds s (<[Z.to_nat i := Some d]> (fds s)))) ->
  (free_from (drop 3 (fds s)) 3 = None -> Q (-EMFILE) s) -> wp (fd_put d) Q s.
Proof.
  intros H1 H2. unfold fd_put. apply wp_bind, wp_get. destruct (free_from (drop 3 (fds s)) 3) as [i|] eqn:E; [|now apply wp_ret, H2].
  apply free_from_spec in E as [Hi E]. rewrite length_drop in Hi. rewrite lookup_drop in E. apply wp_bind, wp_modify, wp_ret. apply H1; [lia|]. now replace (Z.to_nat i) with (3 + Z.to_nat (i - 3))%nat by lia.
Qed.

Lemma wp_sys_close i s (Q : unit -> shell -> Prop) :
  Q tt (if (0 <=? i) && (i <? Z.of_nat (length (fds s))) then set_fds s (<[Z.to_nat i := None]> (fds s)) else s) -> wp (sys_close i) Q s.
Proof. intros HQ. exact HQ. Qed.

Section Remember.
Context (can_open : list Z -> Z -> bool).
Definition append_flags : Z := Z.lor (Z.lor O_WRONLY O_CREAT) O_APPEND.
(** The history file can be opened, and there is a descriptor for it. *)
Definition writable (l : list (option desc)) : Prop := can_open HIST_FILE append_flags = true /\ free_from (drop 3 l) 3 <> None.

Lemma wp_persist seg s (Q : unit -> shell -> Prop) :
  (forall s', s' = add_hist_file s (seg ++ [10]) \/ (s' = s /\ ~ writable (fds s)) -> Q tt s') -> wp (hist_persist_append can_open seg) Q s.
Proof.
  intros HQ. unfold hist_persist_append, sys_open. fold append_flags. apply wp_bind. destruct (can_open HIST_FILE append_flags) eqn:Eo.
  - apply wp_fd_put.
    + intros i Hi Ei. rewrite (proj2 (Z.ltb_ge _ _)) by lia. apply wp_bind, wp_modify, wp_sys_close. simpl. rewrite length_insert. rewrite (proj2 (Z.leb_le _ _)), (proj2 (Z.ltb_lt _ _)) by lia. simpl.
      rewrite list_insert_insert_eq, (list_insert_id _ _ _ Ei). apply HQ. left. now destruct s.
    + intros En. simpl. apply wp_ret, HQ. right. unfold writable. tauto.
  - apply wp_ret. simpl. apply wp_ret, HQ. right. split; [easy|]. intros [E _]. congruence.
Qed.

Lemma wp_remember seg s hs (Q : unit -> shell -> Prop) : represents (hist_of s) hs -> Z.of_nat (length seg) < LINE_MAX ->
  (forall s', represents (hist_of s') (recent_add seg hs) -> fds s' = fds s -> over s' = over s -> (writable (fds s) -> hist_file s' = hist_file s ++ file_of (kept hs [seg])) -> Q tt s') ->
  wp (remember can_open seg) Q s.
Proof.
  intros HR Hl HQ. destruct (hist_add_ok seg _ hs HR Hl) as (h' & E & HR' & Ec). unfold remember. apply wp_bind, wp_gets, wp_bind. eapply wp_of_option; [exact E|]. apply wp_bind, wp_modify, wp_when. rewrite Ec.
  destruct (bool_decide (seg = []) || bool_decide (head hs = Some seg)) eqn:Ek; cbn [negb].
  - apply HQ; auto. intros _. cbn [kept]. rewrite Ek. simpl. now rewrite app_nil_r.
  - apply wp_persist. intros s' [->|[-> Hw]]; apply HQ; auto; [|tauto]. intros _. cbn [kept]. rewrite Ek. unfold file_of. simpl. now rewrite app_nil_r.
Qed.

Definition remember_all (ls : list (list Z)) : M shell unit := foldr (λ l k, remember can_open l;; k) (ret tt) ls.
Lemma remember_all_ok ls : Forall (λ l, Z.of_nat (length l) < LINE_MAX) ls -> forall s hs, represents (hist_of s) hs -> writable (fds s) ->
  wp (remember_all ls) (λ _ s', represents (hist_of s') (foldl (λ hs s, recent_add s hs) hs ls) /\ hist_file s' = hist_file s ++ file_of (kept hs ls)) s.
Proof.
  induction 1 as [|l ls Hl _ IH]; intros s hs HR Hw; cbn [remember_all foldr].
  - apply wp_ret. simpl. now rewrite app_nil_r.
  - apply wp_bind. apply (wp_remember l s hs); auto. intros s1 H1 Ef _ Eh. eapply wp_mono; [apply (IH s1 (recent_add l hs) H1); now rewrite Ef|].
    intros _ s2 [H2 E2]. split; [exact H2|]. rewrite E2, (Eh Hw), <- app_assoc. f_equal. cbn [kept]. unfold file_of. rewrite app_nil_r, map_app, concat_app. reflexivity.
Qed.

(** C39. The history is the list of recent lines, and it survives the shell. A
    shell that starts with the lines [old] in its history file and is given the
    lines [ls] then shows for the k-th Up exactly the k-th most recent of them,
    up to 64, without empty lines and immediate repetitions, old lines cut to
    255 bytes, and nothing beyond; and a shell that loads the file as the first
    has left it has the same history. *)
Theorem history_survives old ls s h : Forall one_line old -> Forall one_line ls -> Forall (λ l, Z.of_nat (length l) < LINE_MAX) ls -> writable (fds s) ->
  hist_load (Some (file_of old)) no_history = Some h ->
  wp (remember_all ls) (λ _ s',
    (forall k, hist_get k (hist_of s') = if k <=? 0 then None else recents (map cut old ++ ls) !! Z.to_nat (k - 1)) /\
    exists new h', hist_file s' = hist_file s ++ new /\ hist_load (Some (file_of old ++ new)) no_history = Some h' /\ forall k, hist_get k h' = hist_get k (hist_of s'))
    (set_hist s h).
Proof.
  intros Ho H1 Hl Hw Eh. destruct (load_file old Ho) as (h0 & E0 & HR). rewrite Eh in E0. injection E0 as <-.
  eapply wp_mono; [apply (remember_all_ok ls Hl (set_hist s h) _ HR Hw)|]. simpl. set (hs := recents (map cut old)). intros _ s' [HR' Ef].
  assert (foldl (λ hs s, recent_add s hs) hs ls = recents (map cut old ++ ls)) as Er by (unfold recents; now rewrite foldl_app). split.
  - intros k. rewrite (hist_get_ok _ _ _ HR'). now rewrite Er.
  - destruct (load_lines old (file_of (kept hs ls)) Ho no_history [] no_history_represents) as (h1 & HR1 & E1). fold (recents (map cut old)) in HR1. fold hs in HR1.
    destruct (load_lines (kept hs ls) [] (kept_sub _ _ H1 hs) h1 hs HR1) as (h2 & HR2 & E2). rewrite app_nil_r in E2.
    rewrite (map_cut _ (kept_sub _ _ Hl hs)), kept_recents in HR2. exists (file_of (kept hs ls)), h2. split; [exact Ef|]. split; [unfold hist_load; now rewrite E1, E2|].
    intros k. now rewrite (hist_get_ok _ _ _ HR2), (hist_get_ok _ _ _ HR').
Qed.
End Remember.
Lemma history_survives_witness : let h := Hist (<[0%nat := [108; 115]]> (replicate 64 [])) 1 1 in
  wp (remember_all (λ _ _, true) [[112; 115]; [112; 115]; []]) (λ _ s',
    (forall k, hist_get k (hist_of s') = if k <=? 0 then None else recents (map cut [[108; 115]] ++ [[112; 115]; [112; 115]; []]) !! Z.to_nat (k - 1)) /\
    exists new h', hist_file s' = [] ++ new /\ hist_load (Some (file_of [[108; 115]] ++ new)) no_history = Some h' /\ forall k, hist_get k h' = hist_get k (hist_of s'))
    (set_hist (initial 1 [] []) h).
Proof. apply (history_survives (λ _ _, true) [[108; 115]] [[112; 115]; [112; 115]; []] (initial 1 [] [])); [repeat constructor; discriminate|repeat constructor; discriminate|repeat constructor|split; [reflexivity|discriminate]|reflexivity]. Defined.
