(* ===== verification/ShRun.v ===== *)
(** The shell at work: how a pipeline is plumbed together, and that the shell
    never gets stuck. *)

From Stdlib Require Import String.
From S2P Require Import Prelude Sh ShThms.
#[local] Open Scope string_scope.
#[local] Open Scope list_scope.
#[local] Open Scope Z_scope.

(** * Descriptors *)

(** The descriptors of [n] pipes from number [p] on, and the pairs of their
    places from [b] on. *)
Fixpoint pipe_fds (p : Z) (n : nat) : list (option desc) :=
  match n with O => [] | S n => Some (PipeR p) :: Some (PipeW p) :: pipe_fds (p + 1) n end.
Fixpoint ends (b : Z) (n : nat) : list (Z * Z) :=
  match n with O => [] | S n => (b, b + 1) :: ends (b + 2) n end.

Lemma length_pipe_fds p n : length (pipe_fds p n) = (2 * n)%nat.
Proof. revert p. induction n as [|n IH]; intros p; [easy|]. simpl pipe_fds. simpl length. rewrite IH. lia. Qed.
Lemma length_ends b n : length (ends b n) = n.
Proof. revert b. induction n as [|n IH]; intros b; simpl; auto. Qed.
Lemma ends_lookup n : forall b i, (i < n)%nat -> ends b n !! i = Some (b + 2 * Z.of_nat i, b + 2 * Z.of_nat i + 1).
Proof. induction n as [|n IH]; intros b i Hi; [lia|]. destruct i as [|i]; simpl; [do 2 f_equal; lia|]. rewrite IH by lia. do 2 f_equal; lia. Qed.
Lemma pipe_fds_lookup n : forall p i, (i < n)%nat -> pipe_fds p n !! (2 * i)%nat = Some (Some (PipeR (p + Z.of_nat i))) /\ pipe_fds p n !! (2 * i + 1)%nat = Some (Some (PipeW (p + Z.of_nat i))).
Proof.
  induction n as [|n IH]; intros p i Hi; [lia|]. destruct i as [|i]; [simpl; now rewrite Z.add_0_r|]. destruct (IH (p + 1) i) as [E1 E2]; [lia|].
  replace (2 * S i)%nat with (S (S (2 * i))) by lia. replace (p + Z.of_nat (S i)) with (p + 1 + Z.of_nat i) by lia. cbn [pipe_fds Nat.add lookup list_lookup]. auto.
Qed.

Lemma arr_get_at {A} (l1 : list A) x l2 i : i = Z.of_nat (length l1) -> arr_get (l1 ++ x :: l2) i = Some x.
Proof. intros ->. unfold arr_get. rewrite (proj2 (Z.ltb_ge _ _)) by lia. now rewrite Nat2Z.id, list_lookup_middle. Qed.

Lemma insert_mid {A} (l1 : list A) x y l2 : <[length l1 := y]> (l1 ++ x :: l2) = l1 ++ y :: l2.
Proof. rewrite insert_app_r_alt by lia. now rewrite Nat.sub_diag. Qed.

Lemma free_from_full l k : Forall is_Some l -> forall b, free_from (l ++ None :: k) b = Some (b + Z.of_nat (length l)).
Proof. induction 1 as [|x l [d ->] _ IH]; intros b; simpl; [now rewrite Z.add_0_r|]. rewrite IH. f_equal. lia. Qed.
Lemma free_first pre k i : (3 <= length pre)%nat -> Forall is_Some (drop 3 pre) -> i = Z.of_nat (length pre) -> free_from (drop 3 (pre ++ None :: k)) 3 = Some i.
Proof. intros Hl Hp ->. rewrite drop_app_le by exact Hl. rewrite free_from_full by exact Hp. rewrite length_drop. f_equal. lia. Qed.
Lemma fd_put_first d pre k s : fds s = pre ++ None :: k -> (3 <= length pre)%nat -> Forall is_Some (drop 3 pre) ->
  fd_put d s = Some (Z.of_nat (length pre), set_fds s (pre ++ Some d :: k)).
Proof.
  intros E Hl Hp. unfold fd_put, bind, get. rewrite E. rewrite (free_first pre k _ Hl Hp eq_refl). unfold modify, ret. rewrite E, Nat2Z.id. now rewrite insert_mid.
Qed.
Lemma sys_close_at i pre x post s : fds s = pre ++ x :: post -> i = Z.of_nat (length pre) -> sys_close i s = Some (tt, set_fds s (pre ++ None :: post)).
Proof.
  intros E ->. unfold sys_close, modify. rewrite E, length_app. simpl length. rewrite (proj2 (Z.leb_le _ _)), (proj2 (Z.ltb_lt _ _)) by lia. simpl andb. cbv iota. now rewrite Nat2Z.id, insert_mid.
Qed.
Lemma sys_dup2_at old new d x pre post s : arr_get (fds s) old = Some (Some d) -> fds s = pre ++ x :: post -> new = Z.of_nat (length pre) -> sys_dup2 old new s = Some (tt, set_fds s (pre ++ Some d :: post)).
Proof.
  intros Eo E ->. unfold sys_dup2, modify. rewrite Eo, E, length_app. simpl length. rewrite (proj2 (Z.leb_le _ _)), (proj2 (Z.ltb_lt _ _)) by lia. simpl andb. cbv iota. now rewrite Nat2Z.id, insert_mid.
Qed.

Lemma set_fds_twice s a b : set_fds (set_fds s a) b = set_fds s b.
Proof. reflexivity. Qed.
Lemma set_fds_id s : set_fds s (fds s) = s.
Proof. now destruct s. Qed.

Lemma sys_pipe_ok pre k s mem : fds s = pre ++ None :: None :: k -> (3 <= length pre)%nat -> Forall is_Some (drop 3 pre) -> pipe_memory s = true :: mem ->
  let b := Z.of_nat (length pre) in
  sys_pipe s = Some (Some (b, b + 1), set_pipes s (pre ++ Some (PipeR (next_pipe s)) :: Some (PipeW (next_pipe s)) :: k) (next_pipe s + 1) mem).
Proof.
  intros E Hl Hp Em b. unfold sys_pipe, bind at 1, get at 1. rewrite Em. unfold bind at 1, modify at 1. unfold bind at 1. erewrite (fd_put_first (PipeR (next_pipe s)) pre (None :: k)) by eauto.
  rewrite (proj2 (Z.ltb_ge _ _)) by lia. unfold bind at 1. erewrite (fd_put_first (PipeW (next_pipe s)) (pre ++ [Some (PipeR (next_pipe s))]) k).
  - rewrite length_app. simpl. rewrite (proj2 (Z.ltb_ge _ _)) by lia. unfold ret. rewrite <- app_assoc. simpl. do 4 f_equal. unfold b. lia.
  - simpl. now rewrite <- app_assoc.
  - rewrite length_app. lia.
  - rewrite drop_app_le by exact Hl. apply Forall_app. split; [exact Hp|]. repeat constructor. now eexists.
Qed.

Lemma make_pipes_ok n : forall ps pre k s mem, Z.of_nat (length ps + n) < STAGES_MAX -> fds s = pre ++ replicate (2 * n) None ++ k -> (3 <= length pre)%nat -> Forall is_Some (drop 3 pre) -> pipe_memory s = replicate n true ++ mem ->
  make_pipes n ps s = Some (Some (ps ++ ends (Z.of_nat (length pre)) n), set_pipes s (pre ++ pipe_fds (next_pipe s) n ++ k) (next_pipe s + Z.of_nat n) mem).
Proof.
  induction n as [|n IH]; intros ps pre k s mem Hs E Hl Hp Em.
  - simpl in *. unfold ret. rewrite app_nil_r, Z.add_0_r. do 2 f_equal. destruct s; simpl in *; now subst.
  - cbn [make_pipes]. unfold bind at 1. replace (2 * S n)%nat with (S (S (2 * n))) in E by lia. rewrite (sys_pipe_ok pre (replicate (2 * n) None ++ k) s (replicate n true ++ mem) E Hl Hp Em). rewrite store_in by lia.
    rewrite (IH _ (pre ++ [Some (PipeR (next_pipe s)); Some (PipeW (next_pipe s))]) k _ mem); simpl.
    + rewrite <- !app_assoc. rewrite length_app. simpl. unfold set_pipes. simpl. replace (Z.of_nat (length pre + 2)) with (Z.of_nat (length pre) + 2) by lia.
      replace (next_pipe s + Z.of_nat (S n)) with (next_pipe s + 1 + Z.of_nat n) by lia. reflexivity.
    + rewrite length_app. simpl. lia.
    + now rewrite <- app_assoc.
    + rewrite length_app. lia.
    + rewrite drop_app_le by exact Hl. apply Forall_app. split; [exact Hp|]. repeat constructor; now eexists.
    + reflexivity.
Qed.

Lemma close_pipes_ok n : forall p pre post s, fds s = pre ++ pipe_fds p n ++ post ->
  close_pipes (ends (Z.of_nat (length pre)) n) s = Some (tt, set_fds s (pre ++ replicate (2 * n) None ++ post)).
Proof.
  induction n as [|n IH]; intros p pre post s E.
  - simpl in *. unfold ret. now rewrite <- E, set_fds_id.
  - cbn [ends close_pipes]. cbn [pipe_fds app] in E. unfold bind at 1. rewrite (sys_close_at _ _ _ _ _ E eq_refl). unfold bind at 1.
    rewrite (sys_close_at _ (pre ++ [None]) (Some (PipeW p)) (pipe_fds (p + 1) n ++ post)); [|simpl; now rewrite <- app_assoc|rewrite length_app; simpl; lia]. rewrite set_fds_twice.
    replace (Z.of_nat (length pre) + 2) with (Z.of_nat (length ((pre ++ [None]) ++ [None]))) by (rewrite !length_app; simpl; lia).
    rewrite (IH (p + 1) _ post); [|simpl; now rewrite <- !app_assoc]. rewrite set_fds_twice, <- !app_assoc. now replace (2 * S n)%nat with (S (S (2 * n))) by lia.
Qed.

(** * Paths *)

Lemma append_to_spec size n l : forall out, n <= size -> append_to size n l out tt = Some (if decide (l <> [] /\ n <= Z.of_nat (length out + length l)) then None else Some (out ++ l), tt).
Proof.
  induction l as [|c l IH]; intros out Hn; cbn [append_to].
  - rewrite decide_False by tauto. now rewrite app_nil_r.
  - simpl length. destruct (Z.leb_spec (n - 1) (Z.of_nat (length out))).
    + now rewrite decide_True by (split; [easy|lia]).
    + rewrite store_in by lia. rewrite IH by exact Hn. rewrite length_app, <- app_assoc. simpl length. do 2 f_equal. destruct (decide (l <> [] /\ _)) as [[H1 H2]|H1], (decide (c :: l <> [] /\ _)) as [H3|H3]; try easy.
      * destruct H3. split; [easy|lia].
      * destruct H3 as [_ H3]. destruct H1. split; [|lia]. intros ->. simpl in H3. lia.
Qed.
(** The program of a name; [None] when it is too long. *)
Definition path_of (name : list Z) : option (list Z) := if Z.of_nat (length name) <=? 58 then Some (text "/bin/" ++ name) else None.
Lemma build_path_spec name : build_path 64 name 64 tt = Some (path_of name, tt).
Proof.
  unfold build_path, bind at 1. rewrite append_to_spec by lia. rewrite decide_False by (simpl; lia). rewrite app_nil_l. unfold bind at 1. rewrite append_to_spec by lia. unfold path_of. change (length (text "/bin/")) with 5%nat.
  destruct (Z.leb_spec (Z.of_nat (length name)) 58).
  - rewrite decide_False by lia. rewrite store_in; [easy|]. rewrite length_app. change (length (text "/bin/")) with 5%nat. lia.
  - rewrite decide_True; [easy|]. split; [|lia]. intros ->. simpl in *. lia.
Qed.
Lemma command_path_spec st s : argv st <> [] -> command_path st s = Some (path_of (hd [] (argv st)), s).
Proof. intros Hne. unfold command_path, run_pure. destruct (argv st) as [|name args]; [easy|]. cbn [head hd of_option]. unfold bind, ret at 1. now rewrite build_path_spec. Qed.

(** * Pipelines *)

Section Pipeline.
Context (can_open : list Z -> Z -> bool) (can_exec : list Z -> bool) (status : Z -> Z) (sh_pgid : Z).

Definition out_flags (st : stage_t) : Z := Z.lor (Z.lor O_WRONLY O_CREAT) (if append st then O_APPEND else O_TRUNC).
Definition opens (st : stage_t) : bool :=
  (match in_file st with Some f => can_open f O_RDONLY | None => true end) && (match out_file st with Some f => can_open f (out_flags st) | None => true end).
(** What the child of a stage comes to. *)
Definition ending_of (st : stage_t) : ending :=
  if opens st then
    match path_of (hd [] (argv st)) with
    | Some path => if can_exec path then Ran path (argv st) else Exited 127
    | None => Exited 127
    end
  else Exited 127.
Definition or_file (f : option (list Z)) (flags : Z) (d : option desc) : option desc := match f with Some path => Some (File path flags) | None => d end.

Lemma sh_redirect_ok path flags fd a b c k s : fds s = [a; b; c] ++ replicate (S k) None -> fd = 0 \/ fd = 1 -> can_open path flags = true ->
  redirect can_open path flags fd s = Some (0, set_fds s ((if fd =? 0 then [Some (File path flags); b; c] else [a; Some (File path flags); c]) ++ replicate (S k) None)).
Proof.
  intros E Hf Ho. unfold redirect, sys_open. rewrite Ho. unfold bind at 1. rewrite (fd_put_first _ [a; b; c] (replicate k None) s E); [|simpl; lia|constructor].
  change (Z.of_nat (length [a; b; c])) with 3. cbn [Z.ltb Z.compare]. unfold bind at 1. set (d := Some (File path flags)). destruct Hf as [-> | ->].
  - rewrite (sys_dup2_at 3 0 (File path flags) a [] ([b; c] ++ d :: replicate k None)); [|apply (arr_get_at [a; b; c])| |]; try reflexivity. rewrite set_fds_twice. unfold bind at 1.
    now rewrite (sys_close_at 3 [d; b; c] d (replicate k None)).
  - rewrite (sys_dup2_at 3 1 (File path flags) b [a] ([c] ++ d :: replicate k None)); [|apply (arr_get_at [a; b; c])| |]; try reflexivity. rewrite set_fds_twice. unfold bind at 1.
    now rewrite (sys_close_at 3 [a; d; c] d (replicate k None)).
Qed.
Lemma redirect_fails path flags fd s : can_open path flags = false -> exists s', redirect can_open path flags fd s = Some (-1, s').
Proof. intros Ho. unfold redirect, sys_open. rewrite Ho. eexists. reflexivity. Qed.

Lemma apply_redirs_ok st a b c k s : fds s = [a; b; c] ++ replicate (S k) None -> exists r s', apply_redirs can_open st s = Some (r, s') /\ (r <? 0) = negb (opens st) /\
  (opens st = true -> fds s' = [or_file (in_file st) O_RDONLY a; or_file (out_file st) (out_flags st) b; c] ++ replicate (S k) None).
Proof.
  intros E. unfold apply_redirs, opens. fold (out_flags st). assert (forall a' s', fds s' = [a'; b; c] ++ replicate (S k) None ->
    exists r s'', match out_file st with Some path => redirect can_open path (out_flags st) 1 | None => ret 0 end s' = Some (r, s'') /\ (r <? 0) = negb (match out_file st with Some f => can_open f (out_flags st) | None => true end) /\
      (match out_file st with Some f => can_open f (out_flags st) | None => true end = true -> fds s'' = [a'; or_file (out_file st) (out_flags st) b; c] ++ replicate (S k) None)) as Hout.
  { intros a' s' E'. destruct (out_file st) as [f|]; [|now exists 0, s']. destruct (can_open f (out_flags st)) eqn:Ho.
    - exists 0. eexists. split; [exact (sh_redirect_ok f (out_flags st) 1 a' b c k s' E' (or_intror eq_refl) Ho)|easy].
    - destruct (redirect_fails f (out_flags st) 1 s' Ho) as [s'' ->]. now exists (-1), s''. }
  destruct (in_file st) as [f|]; unfold bind at 1.
  - destruct (can_open f O_RDONLY) eqn:Ho.
    + rewrite (sh_redirect_ok f O_RDONLY 0 a b c k s E (or_introl eq_refl) Ho). cbn [Z.ltb Z.compare Z.eqb]. destruct (Hout (Some (File f O_RDONLY)) (set_fds s ([Some (File f O_RDONLY); b; c] ++ replicate (S k) None)) eq_refl) as (r & s'' & -> & E1 & E2). now exists r, s''.
    + destruct (redirect_fails f O_RDONLY 0 s Ho) as [s' ->]. now exists (-1), s'.
  - destruct (Hout a s E) as (r & s'' & E0 & E1 & E2). now exists r, s''.
Qed.

(** The standard input and output of stage [i] of [n], of which the shell's are
    [t0] and [t1], and whose first pipe is [p]. *)
Definition stage_in (t0 : option desc) (p : Z) (i : nat) (st : stage_t) : option desc :=
  or_file (in_file st) O_RDONLY (match i with O => t0 | S j => Some (PipeR (p + Z.of_nat j)) end).
Definition stage_out (t1 : option desc) (p : Z) (n i : nat) (st : stage_t) : option desc :=
  or_file (out_file st) (out_flags st) (if (i <? n - 1)%nat then Some (PipeW (p + Z.of_nat i)) else t1).

Lemma lookup_std {A} (a b c : A) l i : ([a; b; c] ++ l) !! (3 + i)%nat = l !! i.
Proof. reflexivity. Qed.

Lemma stage_child_ok t0 t1 t2 p m k i st s : fds s = [t0; t1; t2] ++ pipe_fds p m ++ replicate (S k) None -> (i <= m)%nat -> argv st <> [] ->
  exists s', stage_child can_open can_exec (ends 3 m) (S m) i st s = Some (ending_of st, s') /\
    (opens st = true -> fds s' = [stage_in t0 p i st; stage_out t1 p (S m) i st; t2] ++ replicate (2 * m + S k) None).
Proof.
  intros E Hi Hv. unfold stage_child, stage_out, ending_of. replace (S m - 1)%nat with m by lia. set (a := match i with O => t0 | S j => Some (PipeR (p + Z.of_nat j)) end).
  set (b := if (i <? m)%nat then Some (PipeW (p + Z.of_nat i)) else t1).
  assert (match i with O => ret tt | S j => let* q := of_option (ends 3 m !! j) in sys_dup2 q.1 0 end s = Some (tt, set_fds s ([a; t1; t2] ++ pipe_fds p m ++ replicate (S k) None))) as E1.
  { unfold a. destruct i as [|j]; [unfold ret; now rewrite <- E, set_fds_id|]. rewrite ends_lookup by lia. cbn [of_option]. unfold bind, ret. cbn [fst].
    apply (sys_dup2_at _ 0 _ t0 []); [|exact E|easy]. rewrite E. unfold arr_get. rewrite (proj2 (Z.ltb_ge _ _)) by lia. replace (Z.to_nat (3 + 2 * Z.of_nat j)) with (3 + 2 * j)%nat by lia.
    rewrite lookup_std, lookup_app_l by (rewrite length_pipe_fds; lia). now apply pipe_fds_lookup. }
  unfold bind at 1. rewrite E1. set (s1 := set_fds s _). 
  assert ((if (i <? m)%nat then let* q := of_option (ends 3 m !! i) in sys_dup2 q.2 1 else ret tt) s1 = Some (tt, set_fds s ([a; b; t2] ++ pipe_fds p m ++ replicate (S k) None))) as E2.
  { unfold b. destruct (Nat.ltb_spec i m); [|reflexivity]. rewrite ends_lookup by lia. cbn [of_option]. unfold bind, ret. cbn [snd].
    assert (forall x, set_fds s x = set_fds s1 x) as -> by reflexivity. apply (sys_dup2_at _ 1 _ t1 [a]); [|easy|easy]. change (fds s1) with ([a; t1; t2] ++ pipe_fds p m ++ replicate (S k) None). unfold arr_get. rewrite (proj2 (Z.ltb_ge _ _)) by lia. replace (Z.to_nat (3 + 2 * Z.of_nat i + 1)) with (3 + (2 * i + 1))%nat by lia.
    rewrite lookup_std, lookup_app_l by (rewrite length_pipe_fds; lia). now apply pipe_fds_lookup. }
  unfold bind at 1. rewrite E2. unfold bind at 1. rewrite (close_pipes_ok m p [a; b; t2] (replicate (S k) None)) by easy. rewrite set_fds_twice, <- replicate_add. unfold bind at 1. replace (2 * m + S k)%nat with (S (2 * m + k)) by lia.
  destruct (apply_redirs_ok st a b t2 (2 * m + k) (set_fds s ([a; b; t2] ++ replicate (S (2 * m + k)) None)) eq_refl) as (r & s2 & -> & -> & Ef). destruct (opens st); cbn [negb].
  - specialize (Ef eq_refl). unfold bind at 1. rewrite command_path_spec by exact Hv. destruct (path_of (hd [] (argv st))); [|eexists; split; [reflexivity|intros _; exact Ef]].
    unfold exec_or_exit. destruct (can_exec _); [eexists; (split; [reflexivity|intros _; exact Ef])|]. destruct (argv st); [easy|]. eexists; (split; [reflexivity|intros _; exact Ef]).
  - eexists. now split; [reflexivity|].
Qed.

(** ** Starting and waiting *)

Definition forked (s : shell) (rest : list Z) (cs : list child) : shell :=
  Shell (fds s) (next_pipe s) (pipe_memory s) rest (children s ++ cs) (waited s) (foreground s) (said s) (chdirs s) (over s) (hist_of s) (hist_file s).
Definition awaited (s : shell) (l : list Z) : shell :=
  Shell (fds s) (next_pipe s) (pipe_memory s) (forks s) (children s) (waited s ++ l) (foreground s) (said s) (chdirs s) (over s) (hist_of s) (hist_file s).

Lemma wait_all_ok pids : forall rc s, wait_all status pids rc s = Some (foldl (λ _ pid, wait_status_to_rc (status pid)) rc pids, awaited s pids).
Proof.
  induction pids as [|pid pids IH]; intros rc s.
  - simpl. unfold ret, awaited. rewrite app_nil_r. now destruct s.
  - change (wait_all status pids (wait_status_to_rc (status pid)) (add_waited s pid) = Some (foldl (λ _ pid, wait_status_to_rc (status pid)) rc (pid :: pids), awaited s (pid :: pids))).
    rewrite IH. unfold awaited. cbn [waited fds next_pipe pipe_memory forks children foreground said chdirs over hist_of hist_file add_waited]. now rewrite <- app_assoc.
Qed.

(** A child of the pipeline as it should be. *)
Record plumbed (t0 t1 t2 : option desc) (p : Z) (n k : nat) (leader : Z) (i : nat) (st : stage_t) (pid : Z) (c : child) : Prop := {
  pl_pid : c_pid c = pid;
  pl_group : c_pgid c = leader;
  pl_end : c_end c = ending_of st;
  pl_fds : opens st = true -> c_fds c = [stage_in t0 p i st; stage_out t1 p n i st; t2] ++ replicate k None }.

Lemma fork_ok pg code s pid rest e s' : forks s = pid :: rest -> 0 < pid -> code s = Some (e, s') ->
  exists c, sys_fork pg code s = Some (pid, forked s rest [c]) /\ c_pid c = pid /\ c_pgid c = (if pg =? 0 then pid else pg) /\ c_end c = e /\ c_fds c = fds s'.
Proof.
  intros Ef Hp Ec. eexists. split; [|split; [|split; [|split]]]; cycle 1.
  { instantiate (1 := Child pid (if pg =? 0 then pid else pg) (fds s') (drop (length (said s)) (said s')) e). reflexivity. }
  1, 2, 3: reflexivity. unfold sys_fork, bind at 1, get at 1. rewrite Ef. unfold bind at 1, modify at 1. rewrite (proj2 (Z.ltb_ge _ _)) by lia. rewrite Ec. reflexivity.
Qed.

(** The forks of stages that all succeed. *)
Lemma fork_stages_ok t0 t1 t2 p m k : forall stages i s pids rest done leader, Forall (λ st, argv st <> []) stages -> Z.of_nat (length done + length stages) <= STAGES_MAX -> fds s = [t0; t1; t2] ++ pipe_fds p m ++ replicate (S k) None -> (i + length stages <= S m)%nat ->
  forks s = pids ++ rest -> length pids = length stages -> Forall (λ pid, 0 < pid) pids -> (if (i =? 0)%nat then leader = 0 else 0 < leader) ->
  let group := if (i =? 0)%nat then default leader (head pids) else leader in
  exists cs, (forall more, fork_stages can_open can_exec status (ends 3 m) (S m) i (stages ++ more) done leader s = fork_stages can_open can_exec status (ends 3 m) (S m) (i + length stages) more (done ++ pids) group (forked s rest cs)) /\
    length cs = length stages /\ forall j st pid, stages !! j = Some st -> pids !! j = Some pid -> exists c, cs !! j = Some c /\ plumbed t0 t1 t2 p (S m) (2 * m + S k) group (i + j) st pid c.
Proof.
  induction stages as [|st stages IH]; intros i s pids rest done leader Hv Hmax E Hi Ef Hl Hp Hg group; destruct pids as [|pid pids]; simpl in Hl; try lia.
  - exists []. split; [|split]; [|easy|easy]. intros more. rewrite Nat.add_0_r, app_nil_r. unfold group. assert ((if (i =? 0)%nat then default leader (head []) else leader) = leader) as -> by now case_match.
    do 2 f_equal. unfold forked. rewrite app_nil_r. destruct s. simpl in *. now subst.
  - simpl in Hi, Hmax. apply Forall_cons_iff in Hp as [Hpid Hp]. apply Forall_cons_iff in Hv as [Hst Hv]. destruct (stage_child_ok t0 t1 t2 p m k i st s E) as (s' & Ec & Efd); [lia|exact Hst|].
    destruct (fork_ok leader (stage_child can_open can_exec (ends 3 m) (S m) i st) s pid (pids ++ rest) _ _ Ef Hpid Ec) as (c & Es & C1 & C2 & C3 & C4).
    assert (group = if (i =? 0)%nat then pid else leader) as Eg by (unfold group; now case_match).
    destruct (IH (S i) (forked s (pids ++ rest) [c]) pids rest (done ++ [pid]) group) as (cs & Er & Hlen & Hcs); auto; [rewrite length_app; simpl; lia|lia|simpl; rewrite Eg; now case_match|]. simpl in Er, Hcs.
    exists (c :: cs). split; [|split; [simpl; lia|]].
    + intros more. cbn [app fork_stages]. unfold bind at 1. rewrite Es. rewrite (proj2 (Z.ltb_ge _ _)) by lia. rewrite store_in by lia. rewrite <- Eg, Er. rewrite <- app_assoc. simpl length. replace (i + S (length stages))%nat with (S i + length stages)%nat by lia.
      unfold forked. simpl. now rewrite <- app_assoc.
    + intros [|j] st' pid' E1 E2; simpl in E1, E2.
      * injection E1 as <-. injection E2 as <-. exists c. split; [easy|]. split; auto; [|now rewrite Nat.add_0_r, C4]. rewrite C2, Eg. destruct (i =? 0)%nat; [now rewrite Hg|]. now rewrite (proj2 (Z.eqb_neq _ _)) by lia.
      * replace (i + S j)%nat with (S i + j)%nat by lia. now apply Hcs.
Qed.

Lemma foldl_last {A B} (f : A -> B) (d : A) l b : l <> [] -> foldl (λ _ x, f x) b l = f (last l d).
Proof. revert b. induction l as [|x [|y l] IH]; intros b Hl; [easy|easy|]. exact (IH (f x) ltac:(easy)). Qed.
Lemma fork_fails pg code s : match forks s with [] => True | r :: _ => r < 0 end -> exists r, sys_fork pg code s = Some (r, set_forks s (tail (forks s))) /\ r < 0.
Proof.
  intros Hf. unfold sys_fork, bind at 1, get at 1. destruct (forks s) as [|r rest] eqn:E.
  - exists (-ENOMEM). split; [|reflexivity]. unfold ret. do 2 f_equal. simpl. rewrite <- E. now destruct s.
  - exists r. split; [|exact Hf]. unfold bind at 1, modify at 1. now rewrite (proj2 (Z.ltb_lt _ _)) by lia.
Qed.

(** C36. How a pipeline of one to eight commands, each with a name, as the parser
    makes them, runs. When its pipes can be made and the first forks, as
    many as [pids] has, succeed, stage i runs with the read end of pipe i-1 for
    input and the write end of pipe i for output - its own files in their
    place, the shell's terminal at the two ends - and no other pipe end, so
    that every reader meets the end of its input; it runs /bin/<its name> with
    its words or exits with 127 when a file does not open, the name has more
    than 58 bytes or the program does not start; all stages are in
    the process group of the first. The shell has its descriptors back and has
    waited for every child. If all forks succeeded, the terminal went to the
    group and back to the shell, and the result is that of the last stage;
    otherwise it is 127. *)
Theorem pipeline_plumbing t0 t1 t2 stages pids rest mem k s : let m := (length stages - 1)%nat in 1 <= Z.of_nat (length stages) <= STAGES_MAX -> Forall (λ st, argv st <> []) stages ->
  fds s = [t0; t1; t2] ++ replicate (2 * m + S k) None -> pipe_memory s = replicate m true ++ mem ->
  forks s = pids ++ rest -> Forall (λ pid, 0 < pid) pids ->
  length pids = length stages \/ (length pids < length stages)%nat /\ match rest with [] => True | r :: _ => r < 0 end ->
  wp (run_pipeline can_open can_exec status sh_pgid stages) (λ rc s',
    fds s' = fds s /\ waited s' = waited s ++ pids /\
    (exists cs, children s' = children s ++ cs /\ length cs = length pids /\
      forall i st pid, stages !! i = Some st -> pids !! i = Some pid -> exists c, cs !! i = Some c /\ plumbed t0 t1 t2 (next_pipe s) (S m) (2 * m + S k) (hd 0 pids) i st pid c) /\
    if (length pids =? length stages)%nat then rc = wait_status_to_rc (status (last pids 0)) /\ foreground s' = foreground s ++ [hd 0 pids; sh_pgid]
    else rc = 127 /\ foreground s' = foreground s) s.
Proof.
  intros m Hne Hv E Em Ef Hp Hl. assert (length stages = S m) as Hn by (unfold m; lia).
  apply wp_run. unfold run_pipeline, bind at 1. fold m. rewrite (make_pipes_ok m [] [t0; t1; t2] (replicate (S k) None) s mem); [|simpl; lia|now rewrite E, <- replicate_add|simpl; lia|constructor|exact Em].
  change (Z.of_nat (length [t0; t1; t2])) with 3. rewrite app_nil_l, Hn. set (s1 := set_pipes s _ _ _).
  assert (length pids <= length stages)%nat as Hle by lia. pose proof (firstn_skipn (length pids) stages) as Est.
  destruct (fork_stages_ok t0 t1 t2 (next_pipe s) m k (take (length pids) stages) 0 s1 pids rest [] 0) as (cs & Er & Hlen & Hcs); auto; [now apply Forall_take|simpl; rewrite length_take; lia|rewrite length_take; lia|rewrite length_take; lia|easy|].
  simpl in Er, Hcs. specialize (Er (drop (length pids) stages)). rewrite Est in Er. unfold bind at 1. rewrite Er. clear Er. assert (default 0 (head pids) = hd 0 pids) as Eh by now destruct pids. rewrite Eh in *.
  assert (forall i st pid, stages !! i = Some st -> pids !! i = Some pid -> exists c, cs !! i = Some c /\ plumbed t0 t1 t2 (next_pipe s) (S m) (2 * m + S k) (hd 0 pids) i st pid c) as Hall.
  { intros i st pid E1 E2. apply (Hcs i st pid); [|exact E2]. rewrite lookup_take_lt; [exact E1|]. now apply lookup_lt_Some in E2. }
  assert (forall s2, fds s2 = fds s1 -> close_pipes (ends 3 m) s2 = Some (tt, set_fds s2 (fds s))) as Hclose.
  { intros s2 E2. rewrite E, replicate_add. apply (close_pipes_ok m (next_pipe s) [t0; t1; t2]). now rewrite E2. }
  destruct Hl as [Hl|[Hl Hr]].
  - rewrite Hl, drop_all. cbn [fork_stages]. unfold bind at 1, ret at 1. unfold bind at 1, give_terminal_to at 1, modify at 1. unfold bind at 1. rewrite Hclose by easy. unfold bind at 1. rewrite wait_all_ok.
    eexists _, _. split; [reflexivity|]. cbn -[last hd]. repeat split.
    + exists cs. rewrite Hlen, length_take. split; [easy|]. split; [lia|exact Hall].
    + rewrite Hn, Nat.eqb_refl. split; [|now rewrite <- app_assoc]. rewrite (foldl_last _ 0); [easy|]. intros ->. simpl in Hl. lia.
  - destruct (drop (length pids) stages) as [|st more] eqn:Ed; [apply (f_equal length) in Ed; rewrite length_drop in Ed; simpl in Ed; lia|]. cbn [fork_stages]. unfold bind at 1.
    destruct (fork_fails (hd 0 pids) (stage_child can_open can_exec (ends 3 m) (S m) (length (take (length pids) stages)) st) (forked s1 rest cs) Hr) as (r & -> & Hneg). rewrite (proj2 (Z.ltb_lt _ _)) by exact Hneg.
    unfold bind at 1, st_puts at 1, modify at 1. unfold bind at 1. rewrite Hclose by easy. unfold bind at 1. rewrite wait_all_ok. eexists _, _. split; [reflexivity|]. cbn -[last hd]. repeat split.
    + exists cs. rewrite Hlen, length_take. split; [easy|]. split; [lia|exact Hall].
    + rewrite (proj2 (Nat.eqb_neq _ _)) by lia. easy.
Qed.
End Pipeline.

Lemma pipeline_plumbing_witness :
  let can_open := λ path (_ : Z), bool_decide (path = [97]) in
  let stages := [Stage [[99; 97; 116]] (Some [97]) None false; Stage [[119; 99]; [45]] None None false; Stage [[119; 99]] None (Some [98]) false] in
  wp (run_pipeline can_open (λ _, true) (λ pid, 256 * pid) 1 stages) (λ rc s',
    fds s' = fds (initial 5 [true; true] [7; 8; 9; 10]) /\ waited s' = [] ++ [7; 8; 9] /\
    (exists cs, children s' = [] ++ cs /\ length cs = 3%nat /\ forall i st pid, stages !! i = Some st -> [7; 8; 9] !! i = Some pid -> exists c, cs !! i = Some c /\ plumbed can_open (λ _, true) (Some Terminal) (Some Terminal) (Some Terminal) 0 3 5 7 i st pid c) /\
    rc = wait_status_to_rc (256 * 9) /\ foreground s' = [] ++ [7; 1]) (initial 5 [true; true] [7; 8; 9; 10]).
Proof. intros can_open stages. apply (pipeline_plumbing can_open (λ _, true) (λ pid, 256 * pid) 1 (Some Terminal) (Some Terminal) (Some Terminal) stages [7; 8; 9] [10] [] 0 (initial 5 [true; true] [7; 8; 9; 10])); [easy|repeat constructor; easy|reflexivity|reflexivity|reflexivity|repeat constructor|now left]. Defined.

(** When the second of two pipes cannot be made, the first stays open. *)
Lemma pipe_failure_leaks can_open can_exec status sh_pgid a :
  option_map (λ r, (r.1, fds r.2)) (run_pipeline can_open can_exec status sh_pgid [a; a; a] (initial 5 [true; false] [7; 8; 9])) =
  Some (127, [Some Terminal; Some Terminal; Some Terminal; Some (PipeR 0); Some (PipeW 0); None; None; None]).
Proof. reflexivity. Qed.

(** * The shell never gets stuck *)

(** Code that ends, from any state, and leaves the history alone. *)
Definition safe {A} (m : M shell A) : Prop := forall s, wp m (λ _ s', hist_of s' = hist_of s) s.

Section Safe.
Implicit Types (s : shell).

Lemma safe_ret {A} (a : A) : safe (ret a).
Proof. intros s. now apply wp_ret. Qed.
Lemma safe_bind {A B} (m : M shell A) (f : A -> M shell B) : safe m -> (forall a, safe (f a)) -> safe (bind m f).
Proof. intros H1 H2 s. apply wp_bind. eapply wp_mono; [apply H1|]. intros a s1 E1. eapply wp_mono; [apply H2|]. simpl. congruence. Qed.
Lemma safe_get {A} (f : shell -> M shell A) : (forall s, wp (f s) (λ _ s', hist_of s' = hist_of s) s) -> safe (let* s := get in f s).
Proof. intros H s. apply wp_bind, wp_get, H. Qed.
Lemma safe_at {A} (m : M shell A) s : safe m -> wp m (λ _ s', hist_of s' = hist_of s) s.
Proof. auto. Qed.
Lemma safe_modify f : (forall s, hist_of (f s) = hist_of s) -> safe (modify f).
Proof. intros H s. apply wp_modify, H. Qed.
Lemma safe_if {A} (b : bool) (m1 m2 : M shell A) : safe m1 -> safe m2 -> safe (if b then m1 else m2).
Proof. now destruct b. Qed.
Lemma safe_when b m : safe m -> safe (when b m).
Proof. intros. apply safe_if; [assumption|apply safe_ret]. Qed.
Lemma safe_some {A} (o : option A) a : o = Some a -> safe (of_option o).
Proof. intros ->. apply safe_ret. Qed.
Lemma safe_store {A} size i (m : M shell A) : 0 <= i < size -> safe m -> safe (store_at size i;; m).
Proof. intros Hi Hm s. now apply wp_store_at. Qed.
Lemma safe_puts l : safe (st_puts l).
Proof. now apply safe_modify. Qed.
Lemma safe_fd_put d : safe (fd_put d).
Proof. intros s. apply wp_fd_put; auto. Qed.
Lemma safe_close i : safe (sys_close i).
Proof. apply safe_modify. intros s. now case_match. Qed.
Lemma safe_dup2 a b : safe (sys_dup2 a b).
Proof. apply safe_modify. intros s. now repeat case_match. Qed.
End Safe.
Create HintDb shell discriminated.
#[local] Hint Resolve safe_ret safe_puts safe_fd_put safe_close safe_dup2 : shell.

(** The steps of a proof that code is safe. *)
Ltac safe_step :=
  first [ solve [eauto with shell] | apply safe_bind; [|intros ?] | apply safe_if | apply safe_when | (apply safe_modify; reflexivity) | match goal with |- safe (match ?x with _ => _ end) => destruct x end ].
Ltac safe_tac := repeat safe_step.

Section Shell.
Context (can_open : list Z -> Z -> bool) (can_exec : list Z -> bool) (can_chdir : list Z -> bool) (status : Z -> Z) (sh_pgid : Z) (getcwd : list (list Z) -> option (list Z)).

Lemma safe_open path flags : safe (sys_open can_open path flags).
Proof. unfold sys_open. safe_tac. Qed.
Lemma safe_wait pid : safe (sys_waitpid status pid).
Proof. unfold sys_waitpid. safe_tac. Qed.
Lemma safe_give pgid : safe (give_terminal_to pgid).
Proof. now apply safe_modify. Qed.
Lemma safe_pipe : safe sys_pipe.
Proof.
  apply safe_get. intros s. destruct (pipe_memory s) as [|[] rest]; try (now apply wp_bind, wp_modify, wp_ret). apply wp_bind, wp_modify. eapply wp_mono; [apply safe_at; safe_tac|]. simpl. auto.
Qed.
Lemma safe_fork pg code : safe code -> safe (sys_fork pg code).
Proof.
  intros Hc. apply safe_get. intros s. destruct (forks s) as [|pid rest]; [now apply wp_ret|]. apply wp_bind, wp_modify. destruct (pid <? 0); [now apply wp_ret|].
  specialize (Hc s). unfold wp in Hc. destruct (code s) as [[e s']|]; [|easy]. now apply wp_bind, wp_modify, wp_ret.
Qed.
#[local] Hint Resolve safe_open safe_wait safe_give safe_pipe : shell.

Lemma safe_exec path args : args <> [] -> safe (exec_or_exit can_exec path args).
Proof. intros Hne. unfold exec_or_exit. destruct args as [|name args]; [easy|]. apply safe_if; [safe_tac|]. apply safe_bind; [now apply (safe_some _ name)|]. intros a. safe_tac. Qed.
Lemma safe_path st : argv st <> [] -> safe (command_path st).
Proof. intros Hne s. unfold wp. now rewrite command_path_spec. Qed.
Lemma safe_redirect path flags fd : safe (redirect can_open path flags fd).
Proof. unfold redirect. safe_tac. Qed.
#[local] Hint Resolve safe_exec safe_path safe_redirect : shell.
Lemma safe_redirs st : safe (apply_redirs can_open st).
Proof. unfold apply_redirs. safe_tac. Qed.
Lemma safe_wait_all pids : forall rc, safe (wait_all status pids rc).
Proof. induction pids as [|pid pids IH]; intros rc; cbn [wait_all]; safe_tac. Qed.
Lemma safe_close_pipes pipes : safe (close_pipes pipes).
Proof. induction pipes as [|[r w] pipes IH]; cbn [close_pipes]; safe_tac. Qed.
#[local] Hint Resolve safe_redirs safe_wait_all safe_close_pipes : shell.

Lemma wp_make_pipes n : forall pipes s, Z.of_nat (length pipes + n) < STAGES_MAX -> wp (make_pipes n pipes) (λ r s', hist_of s' = hist_of s /\ forall ps, r = Some ps -> length ps = (length pipes + n)%nat) s.
Proof.
  induction n as [|n IH]; intros pipes s Hn; cbn [make_pipes].
  - apply wp_ret. split; [easy|]. intros ps [= <-]. lia.
  - apply wp_bind. eapply wp_mono; [apply safe_pipe|]. intros [p|] s1 E1; apply wp_store_at; try lia.
    + eapply wp_mono; [apply IH; rewrite length_app; simpl; lia|]. intros r s2 [E2 Hl]. split; [congruence|]. intros ps Er. rewrite (Hl ps Er), length_app. simpl. lia.
    + apply wp_bind, wp_modify, wp_ret. simpl. easy.
Qed.
Lemma safe_stage_child pipes i st : (i <= length pipes)%nat -> argv st <> [] -> safe (stage_child can_open can_exec pipes (S (length pipes)) i st).
Proof.
  intros Hi Hv. unfold stage_child. apply safe_bind; [|intros _; apply safe_bind; [|intros _; safe_tac]].
  - destruct i as [|j]; [safe_tac|]. destruct (lookup_lt_is_Some_2 pipes j) as [q Eq]; [lia|]. apply safe_bind; [now apply (safe_some _ q)|]. intros a. safe_tac.
  - destruct (Nat.ltb_spec i (S (length pipes) - 1)); [|safe_tac]. destruct (lookup_lt_is_Some_2 pipes i) as [q Eq]; [lia|]. apply safe_bind; [now apply (safe_some _ q)|]. intros a. safe_tac.
Qed.
Lemma safe_fork_stages pipes stages : forall i pids leader, (i + length stages <= S (length pipes))%nat -> Forall (λ st, argv st <> []) stages -> Z.of_nat (length pids + length stages) <= STAGES_MAX ->
  safe (fork_stages can_open can_exec status pipes (S (length pipes)) i stages pids leader).
Proof.
  induction stages as [|st stages IH]; intros i pids leader Hi Hv Hmax; cbn [fork_stages]; [safe_tac|]. simpl in Hi, Hmax. apply Forall_cons_iff in Hv as [Hst Hv]. apply safe_bind; [apply safe_fork, safe_stage_child; [lia|exact Hst]|]. intros pid.
  apply safe_if; [safe_tac|]. apply safe_store; [lia|]. apply IH; [lia|exact Hv|rewrite length_app; simpl; lia].
Qed.
Lemma safe_run_pipeline stages : 1 <= Z.of_nat (length stages) <= STAGES_MAX -> Forall (λ st, argv st <> []) stages -> safe (run_pipeline can_open can_exec status sh_pgid stages).
Proof.
  intros Hn Hv s. unfold run_pipeline. apply wp_bind. eapply wp_mono; [apply wp_make_pipes; simpl; lia|]. intros [pipes|] s1 [E1 Hl]; [|now apply wp_ret]. specialize (Hl pipes eq_refl). simpl in Hl.
  assert (length stages = S (length pipes)) as En by lia. rewrite <- E1, En. apply safe_at. apply safe_bind; [apply safe_fork_stages; [lia|exact Hv|simpl; lia]|]. intros r. safe_tac.
Qed.
Lemma safe_run_simple st : argv st <> [] -> safe (run_simple can_exec status sh_pgid st).
Proof. intros Hv. unfold run_simple. apply safe_bind; [safe_tac|]. intros [path|]; [|safe_tac]. apply safe_bind; [apply safe_fork; safe_tac|]. intros pid. safe_tac. Qed.
Lemma safe_builtin st : argv st <> [] -> safe (try_builtin can_chdir st).
Proof.
  intros Hv. unfold try_builtin, argc. destruct (argv st) as [|name args]; [easy|]. apply safe_bind; [now apply (safe_some _ name)|]. intros a. apply safe_if; [safe_tac|]. apply safe_if; [|safe_tac]. apply safe_bind; [|intros d; safe_tac].
  destruct (Z.leb_spec 2 (Z.of_nat (length (name :: args)))) as [H2|]; [|safe_tac]. destruct args as [|d args]; [simpl in H2; lia|]. now apply (safe_some _ d).
Qed.
#[local] Hint Resolve safe_run_simple safe_builtin : shell.

Lemma safe_pure {A B} (m : M unit A) a (f : A -> M shell B) : m tt = Some (a, tt) -> safe (f a) -> safe (let* x := run_pure m in f x).
Proof. intros E Hf s. apply wp_bind. unfold run_pure. rewrite E. now apply Hf. Qed.
Lemma safe_exec_one cmd : Z.of_nat (length cmd) < LINE_MAX -> safe (exec_one can_open can_exec can_chdir status sh_pgid cmd).
Proof.
  intros Hl. unfold exec_one. eapply safe_pure; [apply tokenize_lex, Hl|]. unfold limit. destruct (_ <=? _); [|safe_tac]. destruct (parsed_wf (lex cmd [])) as (r & Er & Hr); [now apply (wf_lex (length cmd))|].
  destruct (lex cmd []) as [|t toks]; [safe_tac|]. eapply safe_pure; [exact Er|]. destruct r as [e|stages]; [safe_tac|]. destruct (Hr stages eq_refl) as [Hn Hw _].
  assert (Forall (λ st, argv st <> []) stages) as Hv by (eapply Forall_impl; [|exact Hw]; intros st Hst E; pose proof (ws_argc _ Hst) as Ha; unfold argc in Ha; rewrite E in Ha; simpl in Ha; lia).
  assert (argv (hd no_stage stages) <> []) as Hh by (destruct Hv; [simpl in Hn; lia|assumption]).
  apply safe_bind; [safe_tac|]. intros b. apply safe_if; [safe_tac|]. apply safe_if; [safe_tac|]. apply safe_bind; [now apply safe_run_pipeline|]. intros rc. safe_tac.
Qed.

(** * Lines *)

(** The history is a list of lines that fit a buffer. *)
Definition sane (h : history) : Prop := exists hs, represents h hs /\ Forall (λ l, Z.of_nat (length l) < LINE_MAX) hs.

Lemma recent_add_short s hs : Z.of_nat (length s) < LINE_MAX -> Forall (λ l, Z.of_nat (length l) < LINE_MAX) hs -> Forall (λ l, Z.of_nat (length l) < LINE_MAX) (recent_add s hs).
Proof. intros H1 H2. unfold recent_add. case_match; [exact H2|]. apply Forall_take. now constructor. Qed.

Lemma sane_load l : forall line h, sane h -> Z.of_nat (length line) < LINE_MAX -> exists h', hist_load_bytes l line h = Some h' /\ sane h'.
Proof.
  assert (forall line h, sane h -> Z.of_nat (length line) < LINE_MAX -> exists h', hist_add line h = Some h' /\ sane h') as Hadd.
  { intros line h (hs & HR & HF) Hl. destruct (hist_add_ok line h hs HR Hl) as (h' & E & HR' & _). exists h'. split; [exact E|]. eexists. split; [exact HR'|now apply recent_add_short]. }
  induction l as [|c l IH]; intros line h Hs Hl; cbn [hist_load_bytes]; rewrite index_in by lia.
  - destruct (0 <? Z.of_nat (length line)); [now apply Hadd|now exists h].
  - destruct (c =? 10).
    + destruct (Hadd line h Hs Hl) as (h' & -> & Hs'). cbn [mbind option_bind]. now apply IH.
    + destruct (Z.ltb_spec (Z.of_nat (length line)) (LINE_MAX - 1)); (apply IH; [exact Hs|]); [rewrite length_app; simpl; lia|exact Hl].
Qed.

Lemma run_segment_ok seg s : sane (hist_of s) -> Z.of_nat (length seg) < LINE_MAX -> wp (run_segment can_open can_exec can_chdir status sh_pgid seg) (λ _ s', sane (hist_of s')) s.
Proof.
  intros (hs & HR & HF) Hl. unfold run_segment. case_bool_decide; [apply wp_ret; now exists hs|]. apply wp_bind. apply (wp_remember can_open seg s hs _ HR Hl). intros s1 HR1 _ _ _.
  eapply wp_mono; [now apply safe_exec_one|]. simpl. intros _ s2 ->. eexists. split; [exact HR1|now apply recent_add_short].
Qed.
Lemma run_line_ok l : forall seg s, sane (hist_of s) -> Z.of_nat (length seg + length l) < LINE_MAX -> wp (run_line can_open can_exec can_chdir status sh_pgid l seg) (λ _ s', sane (hist_of s')) s.
Proof.
  induction l as [|c l IH]; intros seg s Hs Hl; cbn [run_line]; simpl in Hl.
  - apply run_segment_ok; [exact Hs|lia].
  - destruct (c =? 10).
    + apply wp_bind. eapply wp_mono; [apply run_segment_ok; [exact Hs|lia]|]. intros [] s1 H1. apply wp_bind, wp_gets. destruct (over s1); [now apply wp_ret|]. apply IH; [exact H1|simpl; lia].
    + apply IH; [exact Hs|]. rewrite length_app. simpl. lia.
Qed.

(** * The editor *)

(** A number of at most eight digits fits [num], and the sequence [buf]. *)
Lemma dec_some room : forall n acc, n < 10 ^ Z.of_nat room -> exists ds, dec room n acc = Some ds /\ (length ds <= length acc + room)%nat.
Proof.
  induction room as [|room IH]; intros n acc Hn; cbn [dec]; (destruct (Z.leb_spec n 0); [exists acc; split; [easy|lia]|]).
  - change (10 ^ Z.of_nat 0) with 1 in Hn. lia.
  - rewrite Nat2Z.inj_succ, Z.pow_succ_r in Hn by lia. destruct (IH (n / 10) (48 + n mod 10 :: acc)) as (ds & -> & Hd); [apply Z.div_lt_upper_bound; lia|]. exists ds. split; [easy|]. simpl in Hd. lia.
Qed.
Lemma csi_some n fin : n < 10 ^ 8 -> is_Some (csi n fin).
Proof.
  intros Hn. unfold csi. destruct (n <=? 0); [now eexists|]. destruct (dec_some 8 n []) as (ds & -> & Hd); [exact Hn|]. cbn [mbind option_bind]. simpl in Hd. rewrite index_in by lia. now eexists.
Qed.
Lemma is_Some_bind {A B} (o : option A) (f : A -> option B) : is_Some o -> (forall a, is_Some (f a)) -> is_Some (a ← o; f a).
Proof. intros [a ->] Hf. apply Hf. Qed.

Section Editor.
Context (pvw : Z) (Hpvw : pvw < 1000) (h : history) (hs : list (list Z)) (HR : represents h hs).
Implicit Types (k : Z) (e : editor).

(** The cursor is in the line, the line in its buffer, and the row has not gone
    beyond [k]. *)
Record edits (k : Z) (e : editor) : Prop := {
  ed_cur : 0 <= cur e <= len e;
  ed_len : len e < LINE_MAX;
  ed_saved : Z.of_nat (length (saved_live e)) < LINE_MAX;
  ed_view : 0 <= hist_view e <= Z.of_nat (length hs);
  ed_row : cur_row e <= k }.

Lemma wp_edit f e (Q : unit -> editor -> Prop) : Q tt (f e) -> wp (modify f) Q e.
Proof. intros HQ. now apply wp_modify. Qed.

Lemma edits_out k e l : edits k e -> edits k (add_out e l).
Proof. intros []. now split. Qed.
Lemma edits_state k e x : edits k e -> edits k (set_state e x).
Proof. intros []. now split. Qed.
Lemma edits_mono k k' e : edits k e -> k <= k' -> edits k' e.
Proof. intros [] Hk. split; auto. lia. Qed.
Lemma edits_line k k' e l c r : edits k e -> 0 <= c <= Z.of_nat (length l) -> Z.of_nat (length l) < LINE_MAX -> r <= k' -> edits k' (set_line e l c r).
Proof. intros [] H1 H2 H3. now split. Qed.
Lemma wp_emit_edits k l e : edits k e -> wp (emit l) (λ _ e', edits k e') e.
Proof. intros He. apply wp_modify. now apply edits_out. Qed.
Lemma wp_emit_opt o e (Q : unit -> editor -> Prop) : is_Some o -> (forall l, o = Some l -> Q tt (add_out e l)) -> wp (emit_opt o) Q e.
Proof. intros [l ->] HQ. unfold emit_opt. apply wp_bind. eapply wp_of_option; [reflexivity|]. now apply wp_modify, HQ. Qed.
Lemma emit_opt_edits k o e : is_Some o -> edits k e -> wp (emit_opt o) (λ _ e', edits k e') e.
Proof. intros Ho He. apply wp_emit_opt; [exact Ho|]. intros l _. now apply edits_out. Qed.

Lemma length_insert_at l i c : 0 <= i <= Z.of_nat (length l) -> length (insert_at l i c) = S (length l).
Proof. intros Hi. unfold insert_at. rewrite length_app, length_take. simpl. rewrite length_drop. lia. Qed.
Lemma length_delete_at l i : 0 <= i < Z.of_nat (length l) -> length (delete_at l i) = (length l - 1)%nat.
Proof. intros Hi. unfold delete_at. rewrite length_app, length_take, length_drop. lia. Qed.

Lemma column_small l c : c < LINE_MAX -> column pvw l c < 10 ^ 8.
Proof. intros Hc. unfold column, LINE_MAX in *. destruct (Z.ltb_spec (last_nl_before l c) 0); lia. Qed.
Lemma redraw_some l c r : Z.of_nat (length l) < LINE_MAX -> c < LINE_MAX -> r < 10 ^ 8 -> is_Some (redraw_multiline pvw l c r).
Proof.
  intros Hl Hc Hr. unfold redraw_multiline, cursor_up, cursor_right, cursor_left. apply is_Some_bind; [now apply csi_some|]. intros up. apply is_Some_bind; [apply csi_some; lia|]. intros right. apply is_Some_bind; [|now eexists].
  assert (length (filter (λ d : Z, d = 10%Z) (drop (Z.to_nat c) l)) <= length l)%nat. { etransitivity; [apply length_filter|]. rewrite length_drop. lia. }
  unfold LINE_MAX in *. case_match.
  - apply csi_some. rewrite length_drop. lia.
  - apply is_Some_bind; [apply csi_some; lia|]. intros up'. apply is_Some_bind; [apply csi_some, column_small; unfold LINE_MAX; lia|]. now eexists.
Qed.
Lemma redraw_tail_some l c : Z.of_nat (length l) < LINE_MAX -> is_Some (redraw_tail l c).
Proof. intros Hl. unfold redraw_tail, cursor_left. apply is_Some_bind; [|now eexists]. apply csi_some. rewrite length_drop. unfold LINE_MAX in *. lia. Qed.

Lemma edits_show k limit l e : edits k e -> 0 <= k < 10 ^ 8 -> limit < LINE_MAX -> wp (show_line pvw limit l) (λ _ e', edits k e') e.
Proof.
  intros He Hk Hl. unfold show_line. apply wp_bind, wp_get, wp_bind. eapply wp_of_option; [apply copy_to_take; lia|]. rewrite Z.sub_0_r. set (l' := take (Z.to_nat limit) l). assert (Z.of_nat (length l') < LINE_MAX) as Hl' by (unfold l'; rewrite length_take; unfold LINE_MAX in *; lia).
  apply wp_bind, wp_modify. pose proof (ed_row _ _ He). apply emit_opt_edits; [apply redraw_some; lia|]. eapply edits_line; [exact He|lia|exact Hl'|lia].
Qed.
Lemma wp_live k e (Q : list Z -> editor -> Prop) : edits k e -> (forall live, live = (if hist_view e =? 0 then line e else saved_live e) -> Q live e) ->
  wp (if hist_view e =? 0 then of_option (copy_to LINE_MAX (len e) 0 (line e)) else ret (saved_live e)) Q e.
Proof.
  intros He HQ. pose proof (ed_len _ _ He). destruct (hist_view e =? 0); [|now apply wp_ret, HQ]. eapply wp_of_option; [apply copy_to_take; lia|]. apply HQ. apply take_ge. unfold len. lia.
Qed.

Lemma edits_key_up k e : edits k e -> 0 <= k < 10 ^ 8 -> wp (key_up pvw LINE_MAX h) (λ _ e', edits k e') e.
Proof.
  intros He Hk. unfold key_up. apply wp_bind, wp_get. rewrite (hist_get_ok _ _ _ HR). destruct (Z.leb_spec (hist_view e + 1) 0); [now apply wp_ret|]. destruct (hs !! _) as [l|] eqn:El; [|now apply wp_ret].
  pose proof (lookup_lt_Some _ _ _ El) as Hlt. apply wp_bind, (wp_live k e _ He). intros live Elive. apply wp_bind, wp_modify. apply edits_show; [|exact Hk|lia]. destruct He as [H1 H2 H3 H4 H5]. split; simpl; auto; [|lia]. rewrite Elive. now case_match.
Qed.
Lemma edits_key_down k e : edits k e -> 0 <= k < 10 ^ 8 -> wp (key_down pvw LINE_MAX h) (λ _ e', edits k e') e.
Proof.
  intros He Hk. pose proof He as [H1 H2 H3 H4 H5]. unfold key_down. apply wp_bind, wp_get. destruct (Z.eqb_spec (hist_view e) 0); [now apply wp_ret|]. apply wp_bind, wp_modify.
  assert (edits k (set_view e (hist_view e - 1) (saved_live e))) as He' by (split; simpl; auto; lia). destruct (Z.eqb_spec (hist_view e - 1) 0); [now apply edits_show|].
  rewrite (hist_get_ok _ _ _ HR). rewrite (proj2 (Z.leb_gt _ _)) by lia. destruct (lookup_lt_is_Some_2 hs (Z.to_nat (hist_view e - 1 - 1))) as [l El]; [lia|]. apply wp_bind. eapply wp_of_option; [exact El|].
  apply edits_show; [exact He'|exact Hk|lia].
Qed.
Lemma edits_key_left k e : edits k e -> wp (key_left pvw) (λ _ e', edits k e') e.
Proof.
  intros He. pose proof He as [H1 H2 H3 H4 H5]. unfold key_left. apply wp_bind, wp_get, wp_when. destruct (Z.ltb_spec 0 (cur e)); [|exact He]. destruct (arr_get_lt (line e) (cur e - 1)) as [c Ec]; [unfold len in *; lia|]. apply wp_bind. eapply wp_of_option; [exact Ec|].
  apply wp_bind, wp_modify. apply emit_opt_edits; [|eapply edits_line; [exact He|unfold len in *; lia|exact H2|case_match; lia]]. destruct (c =? 10); [|now eexists].
  apply is_Some_bind; [now apply csi_some|]. intros up. apply is_Some_bind; [apply csi_some, column_small; lia|now eexists].
Qed.
Lemma edits_key_right k e : edits k e -> wp key_right (λ _ e', edits (k + 1) e') e.
Proof.
  intros He. pose proof He as [H1 H2 H3 H4 H5]. unfold key_right. apply wp_bind, wp_get, wp_when. destruct (Z.ltb_spec (cur e) (len e)); [|apply (edits_mono k); [exact He|lia]]. destruct (arr_get_lt (line e) (cur e)) as [c Ec]; [unfold len in *; lia|].
  apply wp_bind. eapply wp_of_option; [exact Ec|]. apply wp_bind, wp_modify, wp_emit_edits. eapply edits_line; [exact He|unfold len in *; lia|exact H2|case_match; lia].
Qed.
Lemma edits_home k e : edits k e -> wp home (λ _ e', edits k e') e.
Proof.
  intros He. pose proof He as [H1 H2 H3 H4 H5]. unfold home. apply wp_bind, wp_get, wp_when. destruct (0 <? cur e); [|exact He]. apply wp_bind, wp_emit_opt; [apply csi_some; unfold LINE_MAX in *; lia|]. intros l _. apply wp_modify.
  eapply edits_line; [now apply edits_out|simpl; lia|exact H2|exact H5].
Qed.
Lemma edits_end k e : edits k e -> wp end_key (λ _ e', edits k e') e.
Proof.
  intros He. pose proof He as [H1 H2 H3 H4 H5]. unfold end_key. apply wp_bind, wp_get, wp_when. destruct (cur e <? len e); [|exact He]. apply wp_bind, wp_emit_opt; [apply csi_some; unfold LINE_MAX in *; lia|]. intros l _. apply wp_modify.
  eapply edits_line; [now apply edits_out|unfold len in *; simpl; lia|exact H2|exact H5].
Qed.
Lemma edits_then k k' {A} (m : M editor A) e : wp m (λ _ e', edits k e') e -> k <= k' -> wp m (λ _ e', edits k' e') e.
Proof. intros Hm Hk. eapply wp_mono; [exact Hm|]. intros a e' He'. now apply (edits_mono k). Qed.
Lemma edits_csi k b e : edits k e -> 0 <= k < 10 ^ 8 -> wp (csi_key pvw LINE_MAX h b) (λ _ e', edits (k + 1) e') e.
Proof.
  intros He Hk. unfold csi_key. destruct (b =? 68); [apply (edits_then k); [now apply edits_key_left|lia]|]. destruct (b =? 67); [now apply edits_key_right|]. destruct (b =? 65); [apply (edits_then k); [now apply edits_key_up|lia]|].
  destruct (b =? 66); [apply (edits_then k); [now apply edits_key_down|lia]|]. destruct (b =? 72); [apply (edits_then k); [now apply edits_home|lia]|]. destruct (b =? 70); [apply (edits_then k); [now apply edits_end|lia]|].
  apply wp_ret. apply (edits_mono k); [exact He|lia].
Qed.
Lemma edits_backspace k e : edits k e -> 0 <= k < 10 ^ 8 -> wp (backspace pvw) (λ _ e', edits k e') e.
Proof.
  intros He Hk. pose proof He as [H1 H2 H3 H4 H5]. unfold backspace, len in *. apply wp_bind, wp_get, wp_when. destruct (Z.ltb_spec 0 (cur e)); [|exact He]. destruct (arr_get_lt (line e) (cur e - 1)) as [c Ec]; [lia|].
  apply wp_bind. eapply wp_of_option; [exact Ec|]. pose proof (length_delete_at (line e) (cur e - 1)) as Hlen. assert (forall r, r <= k -> edits k (set_line e (delete_at (line e) (cur e - 1)) (cur e - 1) r)) as Hd by (intros r Hr; eapply edits_line; [exact He|lia|lia|exact Hr]).
  destruct (c =? 10).
  - apply wp_bind, wp_modify. apply emit_opt_edits; [apply redraw_some; lia|apply Hd; lia].
  - apply wp_bind, wp_modify, wp_bind, wp_modify. apply emit_opt_edits; [apply redraw_tail_some; lia|]. apply edits_out, Hd. lia.
Qed.
Lemma edits_newline k e : edits k e -> wp (soft_newline LINE_MAX) (λ _ e', edits (k + 1) e') e.
Proof.
  intros He. pose proof He as [H1 H2 H3 H4 H5]. unfold soft_newline. apply wp_bind, wp_get, wp_when. destruct (Z.ltb_spec (len e) (LINE_MAX - 1)); [|apply (edits_mono k); [exact He|lia]]. apply wp_store_at; [lia|]. apply wp_store_at; [lia|].
  unfold len in *. apply wp_bind, wp_modify, wp_emit_edits. eapply edits_line; [exact He|rewrite length_insert_at by lia; lia|rewrite length_insert_at by lia; lia|lia].
Qed.
Lemma edits_insert k b e : edits k e -> wp (self_insert LINE_MAX b) (λ _ e', edits k e') e.
Proof.
  intros He. pose proof He as [H1 H2 H3 H4 H5]. unfold self_insert. apply wp_bind, wp_get, wp_when. destruct (Z.ltb_spec (len e) (LINE_MAX - 1)); [|exact He]. apply wp_store_at; [lia|]. apply wp_store_at; [lia|].
  unfold len in *. pose proof (length_insert_at (line e) (cur e) b) as Hlen. apply wp_bind, wp_modify, wp_bind, wp_modify. apply emit_opt_edits; [apply redraw_tail_some; lia|]. apply edits_out. eapply edits_line; [exact He|lia|lia|exact H5].
Qed.

Lemma edit_byte_ok k b e : edits k e -> 0 <= k < 10 ^ 8 -> wp (edit_byte pvw LINE_MAX h b) (λ done e', edits (k + 1) e') e.
Proof.
  intros He Hk. pose proof He as [H1 H2 H3 H4 H5]. assert (edits (k + 1) e) as He' by (apply (edits_mono k); [exact He|lia]). unfold edit_byte. apply wp_bind, wp_get. destruct (state e).
  2: { apply wp_bind, wp_modify, wp_ret. now apply edits_state. }
  2: { destruct (_ || _); [now apply wp_ret|]. apply wp_bind, wp_modify, wp_bind. eapply wp_mono; [apply (edits_csi k); [now apply edits_state|exact Hk]|]. intros [] e1 He1. now apply wp_ret. }
  assert (forall m : M editor unit, wp m (λ _ e', edits (k + 1) e') e -> forall r : bool, wp (m;; ret r) (λ done e', edits (k + 1) e') e) as Hthen.
  { intros m Hm r. apply wp_bind. eapply wp_mono; [exact Hm|]. intros [] e1 He1. now apply wp_ret. }
  destruct (b =? 27); [apply (Hthen _); now apply wp_modify, edits_state|]. destruct (b =? 30); [apply Hthen; now apply edits_newline|].
  destruct (_ || _); [apply wp_bind, wp_modify, wp_store_at; [lia|]; now apply wp_ret, edits_out|]. destruct (_ || _); [apply Hthen, (edits_then k); [now apply edits_backspace|lia]|].
  destruct (b =? 1); [apply Hthen, (edits_then k); [now apply edits_home|lia]|]. destruct (b =? 5); [apply Hthen, (edits_then k); [now apply edits_end|lia]|].
  destruct (_ && _); [|now apply wp_ret]. apply Hthen, (edits_then k); [now apply edits_insert|lia].
Qed.

(** The editor on any results of the reads; failed ones are tried again. *)
Lemma read_line_ok input : forall k e, edits k e -> 0 <= k -> k + Z.of_nat (length input) < 10 ^ 8 -> exists r e', read_line_edit pvw LINE_MAX h input e = Some (r, e') /\
  match r with
  | Line l rest => Z.of_nat (length l) < LINE_MAX /\ (length rest < length input)%nat /\ (In Eof input -> In Eof rest)
  | Closed => True
  | Waiting => ~ In Eof input
  end.
Proof.
  induction input as [|x input IH]; intros k e He Hk Hn; [exists Waiting, e; split; [easy|intros []]|]. simpl length in Hn. cbn [read_line_edit]. destruct x as [b| |].
  - unfold bind. pose proof (edit_byte_ok k b e He ltac:(lia)) as Hb. unfold wp in Hb. destruct (edit_byte pvw LINE_MAX h b e) as [[[] e1]|]; [| |easy].
    + eexists _, _. split; [reflexivity|]. split; [exact (ed_len _ _ Hb)|]. split; [simpl; lia|]. now intros [|H].
    + destruct (IH (k + 1) e1 Hb) as (r & e2 & -> & Hr); [lia|lia|]. exists r, e2. split; [easy|]. destruct r as [l rest| |]; [|easy|].
      * destruct Hr as (R1 & R2 & R3). split; [exact R1|]. split; [simpl; lia|]. intros [|H]; [easy|auto].
      * now intros [|H].
  - now exists Closed, e.
  - destruct (IH k e He Hk) as (r & e2 & -> & Hr); [lia|]. exists r, e2. split; [easy|]. destruct r as [l rest| |]; [|easy|].
    + destruct Hr as (R1 & R2 & R3). split; [exact R1|]. split; [simpl; lia|]. intros [|H]; [easy|auto].
    + now intros [|H].
Qed.
Lemma fresh_edits : edits 0 fresh_editor.
Proof. split; simpl; unfold len; unfold LINE_MAX; simpl; lia. Qed.
End Editor.

(** A read that fails again and again keeps the editor in its loop: however
    often it is tried, no line and no end of the input comes out of it. *)
Lemma failing_reads_loop pvw cap h n e : read_line_edit pvw cap h (replicate n Failed) e = Some (Waiting, e).
Proof. induction n as [|n IH]; [easy|]. exact IH. Qed.

Lemma prompt_some cwd : (forall c, cwd = Some c -> Z.of_nat (length c) < 256) -> exists p w, prompt cwd = Some (p, w) /\ w < 1000.
Proof.
  intros Hc. unfold prompt. assert (exists path, prompt_path cwd = Some path /\ Z.of_nat (length path) < 256) as (path & -> & Hp); [|eexists _, _; split; [reflexivity|lia]].
  unfold prompt_path. case_match; [|eexists; split; [reflexivity|]; destruct cwd; [now apply Hc|easy]]. rewrite copy_str_take by lia. eexists. split; [reflexivity|]. rewrite length_take. lia.
Qed.

(** [sys_getcwd] stays inside the buffer of 256 bytes it is given. *)
Context (Hcwd : forall l c, getcwd l = Some c -> Z.of_nat (length c) < 256).

Lemma main_loop_ok fuel : forall input s, (length input < fuel)%nat -> Z.of_nat (length input) < 10 ^ 8 -> sane (hist_of s) ->
  wp (main_loop can_open can_exec can_chdir status sh_pgid getcwd fuel input) (λ ended s', sane (hist_of s') /\ (In Eof input -> ended = true)) s.
Proof.
  induction fuel as [|fuel IH]; intros input s Hf Hi Hs; [lia|]. cbn [main_loop]. apply wp_bind, wp_get, wp_bind. destruct (prompt_some (getcwd (chdirs s)) (Hcwd (chdirs s))) as (p & w & Ep & Hw). eapply wp_of_option; [exact Ep|].
  apply wp_bind, wp_modify, wp_bind. pose proof Hs as (hs & HR & HF).
  destruct (read_line_ok w Hw (hist_of s) hs HR input 0 fresh_editor (fresh_edits hs)) as (r & e & E & Hr); [lia|lia|]. eapply wp_of_option; [exact E|]. apply wp_bind, wp_modify. cbn [fst snd].
  destruct r as [l rest| |]; [|now apply wp_ret|apply wp_ret; split; [exact Hs|tauto]]. destruct Hr as (R1 & R2 & R3). apply wp_store_at; [lia|]. apply wp_bind. eapply wp_mono; [apply run_line_ok; [exact Hs|simpl; lia]|].
  intros [] s1 H1. apply wp_bind, wp_gets. destruct (over s1); [now apply wp_ret|]. eapply wp_mono; [apply IH; [lia|lia|exact H1]|]. intros ended s2 [H2 H3]. split; [exact H2|auto].
Qed.
End Shell.

(** C37. The shell stays inside its arrays and its loops end. Whatever the reads
    of the terminal return - fewer than 10^8 results, bytes, failures that are
    tried again, or the end of the input - whatever the history file holds, and
    whichever files open, programs start, directories exist, pipes and
    processes can be made: no store leaves its array (the tokens, their bytes,
    the stages, their arguments and terminating NULLs, the path of a command,
    pipes and pids, the line and the saved line of the editor, a line read from
    the history file, the rows of the history, the digits of a cursor movement
    and the shortened prompt, each in the size it is declared with); the shell
    ends when the end of the input is among the results, otherwise it has ended
    by exit or worked through all of them and waits in the next read; and the
    history is a list of at most 64 lines of at most 255 bytes. The working
    directory is as the kernel gives it, less than 256 bytes; the bound on the
    input is that of the eight digits of a cursor movement. *)
Theorem shell_never_stuck can_open can_exec can_chdir status sh_pgid getcwd content input s :
  (forall l c, getcwd l = Some c -> Z.of_nat (length c) < 256) -> Z.of_nat (length input) < 10 ^ 8 -> hist_of s = no_history ->
  wp (main can_open can_exec can_chdir status sh_pgid getcwd content input) (λ ended s', sane (hist_of s') /\ (In Eof input -> ended = true)) s.
Proof.
  intros Hcwd Hi E. assert (sane no_history) as H0 by (exists []; split; [apply no_history_represents|constructor]). unfold main. apply wp_bind, wp_when.
  assert (forall s1, hist_of s1 = no_history -> wp (let* s := get in let* h := of_option (hist_load content (hist_of s)) in modify (λ s, set_hist s h);; main_loop can_open can_exec can_chdir status sh_pgid getcwd (S (length input)) input)
    (λ ended s', sane (hist_of s') /\ (In Eof input -> ended = true)) s1) as Hgo.
  { intros s1 E1. apply wp_bind, wp_get, wp_bind. rewrite E1. assert (exists h, hist_load content no_history = Some h /\ sane h) as (h & Eh & Hh) by (destruct content as [l|]; [now apply sane_load|now exists no_history]).
    eapply wp_of_option; [exact Eh|]. apply wp_bind, wp_modify. apply main_loop_ok; [exact Hcwd|lia|exact Hi|exact Hh]. }
  case_match; [apply wp_modify|]; now apply Hgo.
Qed.
(** A pipeline, a read that fails, two commands in one line, a line of the
    history, and the end of the input. *)
Lemma shell_never_stuck_witness :
  let input := map Byte ([108; 115; 124; 119; 99; 8; 30] ++ [27; 91; 65; 27; 91; 66]) ++ [Failed; Byte 13; Byte 108; Failed; Eof] in
  wp (main (λ _ _, true) (λ _, true) (λ _, true) (λ _, 0) 1 (λ _, None) (Some [108; 115; 10; 112]) input) (λ ended s', sane (hist_of s') /\ (In Eof input -> ended = true)) (initial 4 [true] [7; 8]).
Proof. apply shell_never_stuck; [discriminate|reflexivity|reflexivity]. Defined.
