(* ===== verification/ShEdit.v ===== *)
(** The shell's line editor on the terminal emulator: as long as everything
    fits the row, the screen shows the prompt and the line, with the cursor at
    its place. *)

From S2P Require Import Prelude Sh ShThms ShRun BitMath Bytes Vt VtDraw VtRef VtThms Term TermDraw TermThms.
#[local] Open Scope list_scope.
#[local] Open Scope Z_scope.

(** * Control sequences *)

Definition digit (d : Z) : Prop := 48 <= d <= 57.
Definition digit_step (a d : Z) : Z := wrap32 (wrap32 (a * 10) + (d - 48)).
(** A terminal inside a sequence that has read the parameter [a], or none. *)
Definition in_csi (v : vt_t) (a : Z) (any : bool) : vt_t := set_params (set_pstate v VT_CSI) (a :: replicate 7 0) 0 any.

Lemma feed_open v : pstate v = VT_GROUND -> foldl tfeed v [27; 91] = in_csi v 0 false.
Proof. destruct v. simpl. intros ->. reflexivity. Qed.
Lemma feed_digits v ds : forall a any, Forall digit ds -> foldl tfeed (in_csi v a any) ds = in_csi v (foldl digit_step a ds) (any || negb (bool_decide (ds = []))).
Proof.
  induction ds as [|d ds IH]; intros a any Hd; [simpl; now rewrite orb_false_r|]. apply Forall_cons_iff in Hd as [[H1 H2] Hd]. cbn [foldl].
  assert (tfeed (in_csi v a any) d = in_csi v (digit_step a d) true) as ->. { unfold tfeed, feed_with. cbn [pstate in_csi set_params set_pstate]. rewrite (proj2 (Z.leb_le _ _) H1), (proj2 (Z.leb_le _ _) H2). reflexivity. }
  rewrite IH by exact Hd. simpl. now rewrite orb_true_r.
Qed.
Lemma feed_final v a any fin : 64 <= fin <= 126 -> tfeed (in_csi v a any) fin = set_pstate (tcommand (set_params (set_pstate v VT_CSI) (a :: replicate 7 0) (if any then 1 else 0) any) fin) VT_GROUND.
Proof.
  intros Hf. unfold tfeed, feed_with. cbn [pstate in_csi set_params set_pstate]. assert (((48 <=? fin) && (fin <=? 57)) = false) as -> by (apply andb_false_iff; right; apply Z.leb_gt; lia).
  rewrite (proj2 (Z.eqb_neq fin 59)) by lia. rewrite (proj2 (Z.leb_le 64 fin)), (proj2 (Z.leb_le fin 126)) by lia. reflexivity.
Qed.
Lemma feed_csi v ds fin : pstate v = VT_GROUND -> Forall digit ds -> 64 <= fin <= 126 ->
  foldl tfeed v (27 :: 91 :: ds ++ [fin]) = let any := negb (bool_decide (ds = [])) in
    set_pstate (tcommand (set_params (set_pstate v VT_CSI) (foldl digit_step 0 ds :: replicate 7 0) (if any then 1 else 0) any) fin) VT_GROUND.
Proof. intros Hp Hd Hf. change (27 :: 91 :: ds ++ [fin]) with ([27; 91] ++ ds ++ [fin]). rewrite !foldl_app, feed_open by exact Hp. rewrite feed_digits by exact Hd. now apply feed_final. Qed.

(** The decimal number of a movement is read back. *)
Lemma dec_value room : forall n acc ds, 0 <= n < 2 ^ 32 -> dec room n acc = Some ds -> foldl digit_step 0 ds = foldl digit_step n acc.
Proof.
  induction room as [|room IH]; intros n acc ds Hn E; cbn [dec] in E; (destruct (Z.leb_spec n 0); [injection E as <-; now replace n with 0 by lia|]); [easy|].
  apply IH in E; [|Z.div_mod_to_equations; lia]. rewrite E. cbn [foldl]. f_equal. unfold digit_step. pose proof (Z_div_mod_eq_full n 10). pose proof (Z.mod_pos_bound n 10).
  rewrite !wrap_small; unfold is_word; rewrite ?wrap_small; unfold is_word; lia.
Qed.
Lemma dec_digits room : forall n acc ds, 0 <= n -> Forall digit acc -> dec room n acc = Some ds -> Forall digit ds.
Proof.
  induction room as [|room IH]; intros n acc ds Hn Ha E; cbn [dec] in E; (destruct (n <=? 0); [now injection E as <-|]); [easy|]. apply IH in E; auto; [Z.div_mod_to_equations; lia|]. constructor; [|exact Ha]. unfold digit. pose proof (Z.mod_pos_bound n 10). lia.
Qed.
Lemma dec_nonempty room : forall n acc ds, acc <> [] -> dec room n acc = Some ds -> ds <> [].
Proof. induction room as [|room IH]; intros n acc ds Ha E; cbn [dec] in E; (destruct (n <=? 0); [now injection E as <-|]); [easy|]. eapply IH; [|exact E]. easy. Qed.
Lemma feed_move v n fin o : pstate v = VT_GROUND -> 0 < n < 2 ^ 32 -> 64 <= fin <= 126 -> csi n fin = Some o ->
  foldl tfeed v o = set_pstate (tcommand (set_params (set_pstate v VT_CSI) (n :: replicate 7 0) 1 true) fin) VT_GROUND.
Proof.
  intros Hp Hn Hf Eo. unfold csi in Eo. rewrite (proj2 (Z.leb_gt _ _)) in Eo by lia. destruct (dec 8 n []) as [ds|] eqn:Ed; [|easy]. cbn [mbind option_bind] in Eo. destruct (index_ok _ _); [|easy]. injection Eo as <-.
  assert (ds <> []) as Hd. { change (dec 8 n []) with (if n <=? 0 then Some [] else dec 7 (n / 10) [48 + n mod 10]) in Ed. rewrite (proj2 (Z.leb_gt _ _)) in Ed by lia. eapply dec_nonempty; [|exact Ed]. easy. }
  rewrite feed_csi; [|exact Hp|eapply dec_digits; [|constructor|exact Ed]; lia|exact Hf]. rewrite (dec_value 8 n [] ds) by (auto; lia). now rewrite bool_decide_eq_false_2.
Qed.
Lemma csi_zero n fin o : n <= 0 -> csi n fin = Some o -> o = [].
Proof. intros Hn E. unfold csi in E. rewrite (proj2 (Z.leb_le _ _)) in E by lia. now injection E as <-. Qed.

(** * One row of the screen *)

Definition printable (c : Z) : Prop := 32 <= c < 127.

Section Row.
Context {D : Display} (g : geometry) (SU : suits g) (v0 : vt_t) (r : Z).
Local Abbreviation C := (g_cols g).
Implicit Types (v : vt_t) (f : Z -> Z).

(** The row [r] shows the characters [f], the cursor is in it at [col], and the
    rows above are those of [v0]. *)
Record row_is (f : Z -> Z) (col : Z) (v : vt_t) : Prop := {
  ri_sized : sized g v;
  ri_ground : pstate v = VT_GROUND;
  ri_row : cur_row v = r /\ 0 <= r < g_rows g;
  ri_col : cur_col v = col /\ 0 <= col < C;
  ri_text : forall x, 0 <= x < C -> ch (cell g v r x) = f x;
  ri_above : forall r' x, 0 <= r' < r -> 0 <= x < C -> cell g v r' x = cell g v0 r' x }.

Lemma row_ext f f' col v : row_is f col v -> (forall x, 0 <= x < C -> f x = f' x) -> row_is f' col v.
Proof. intros [] H. split; auto. intros x Hx. rewrite <- H by exact Hx. auto. Qed.
(** A terminal with the same cells and another cursor in the row. *)
Lemma row_moved f col col' v v' : row_is f col v -> cells v' = cells v -> cols v' = cols v -> rows v' = rows v -> pstate v' = VT_GROUND -> cur_row v' = cur_row v -> cur_col v' = col' -> 0 <= col' < C -> row_is f col' v'.
Proof.
  intros [[Z1 Z2 Z3 Z4] H2 H3 H4 H5 H6] E1 E2 E3 E4 E5 E6 Hc. assert (grid v' = grid v) as Eg by (unfold grid; now rewrite E1). split; auto; [|now rewrite E5|intros; unfold cell; rewrite Eg; now apply H5|intros; unfold cell; rewrite Eg; now apply H6].
  split; rewrite ?Eg, ?E1; congruence.
Qed.

Lemma row_left n o f col v : row_is f col v -> 0 <= n <= col -> n < 2 ^ 32 -> cursor_left n = Some o -> row_is f (col - n) (foldl tfeed v o).
Proof.
  intros HR Hn Hm Eo. pose proof (ri_col _ _ _ HR) as [Ec Hc]. unfold cursor_left in Eo. destruct (Z.eq_dec n 0) as [->|Hz]; [apply csi_zero in Eo as ->; [now rewrite Z.sub_0_r|lia]|]. rewrite (feed_move v n 68 o); [|apply HR|lia|lia|exact Eo]. unfold tcommand. cbn [Z.eqb].
  eapply row_moved; [exact HR|reflexivity..| |lia]. simpl. unfold param1, param. simpl. rewrite (proj2 (Z.eqb_neq n 0)) by exact Hz. lia.
Qed.
Lemma row_right n o f col v : row_is f col v -> 0 <= n -> col + n < C -> n < 2 ^ 32 -> cursor_right n = Some o -> row_is f (col + n) (foldl tfeed v o).
Proof.
  intros HR Hn Hm H8 Eo. pose proof (ri_col _ _ _ HR) as [Ec Hc]. pose proof (sz_cols _ _ (ri_sized _ _ _ HR)). unfold cursor_right in Eo. destruct (Z.eq_dec n 0) as [->|Hz]; [apply csi_zero in Eo as ->; [now rewrite Z.add_0_r|lia]|]. rewrite (feed_move v n 67 o); [|apply HR|lia|lia|exact Eo].
  eapply row_moved; [exact HR|reflexivity..| |lia]. simpl. unfold param1, param. simpl. rewrite (proj2 (Z.eqb_neq n 0)) by exact Hz. lia.
Qed.
Lemma row_left1 f col v : row_is f col v -> 0 < col -> row_is f (col - 1) (foldl tfeed v [27; 91; 68]).
Proof.
  intros HR Hn. pose proof (ri_col _ _ _ HR) as [Ec Hc]. change [27; 91; 68] with (27 :: 91 :: [] ++ [68]). rewrite feed_csi by (auto; apply HR || lia). eapply row_moved; [exact HR|reflexivity..| |lia]. simpl. unfold param1, param. simpl. lia.
Qed.
Lemma row_right1 f col v : row_is f col v -> col + 1 < C -> row_is f (col + 1) (foldl tfeed v [27; 91; 67]).
Proof.
  intros HR Hn. pose proof (ri_col _ _ _ HR) as [Ec Hc]. pose proof (sz_cols _ _ (ri_sized _ _ _ HR)). change [27; 91; 67] with (27 :: 91 :: [] ++ [67]). rewrite feed_csi by (auto; apply HR || lia). eapply row_moved; [exact HR|reflexivity..| |lia]. simpl. unfold param1, param. simpl. lia.
Qed.
Lemma row_start f col v : row_is f col v -> row_is f 0 (foldl tfeed v [13]).
Proof. intros HR. pose proof (positive g SU). cbn [foldl]. unfold tfeed, feed_with. rewrite (ri_ground _ _ _ HR). cbn [Z.eqb]. eapply row_moved; [exact HR|reflexivity..|apply HR|reflexivity|reflexivity|lia]. Qed.
(** Colours. *)
Lemma row_colour ds f col v : row_is f col v -> Forall digit ds -> row_is f col (foldl tfeed v (27 :: 91 :: ds ++ [109])).
Proof.
  intros HR Hd. rewrite feed_csi by (auto; apply HR || lia). cbv zeta. set (w := set_params _ _ _ _). destruct (ri_col _ _ _ HR). assert (forall l u, let u' := foldl (λ v p, sgr p v) u l in cells u' = cells u /\ cols u' = cols u /\ rows u' = rows u /\ cur_row u' = cur_row u /\ cur_col u' = cur_col u) as Hs.
  { induction l as [|p l IH]; intros u; [easy|]. cbn [foldl]. destruct (IH (sgr p u)) as (E1 & E2 & E3 & E4 & E5). cbv zeta in *. rewrite E1, E2, E3, E4, E5. unfold sgr. now repeat case_match. }
  unfold tcommand. cbn [Z.eqb orb]. unfold coloured. set (l := if n_params w =? 0 then _ else _). destruct (Hs l w) as (E1 & E2 & E3 & E4 & E5). cbv zeta in *.
  destruct (cur_bold _); (eapply row_moved; [exact HR|simpl; rewrite ?E1, ?E2, ?E3, ?E4, ?E5; reflexivity..| | ]; [simpl; rewrite E5; easy|easy]).
Qed.

Lemma row_put f col v c x : row_is f col v -> 0 <= x < C -> forall cell',
  ch cell' = c -> let v' := put_at v r x cell' in sized g v' /\ (forall y, 0 <= y < C -> ch (cell g v' r y) = if y =? x then c else f y) /\ (forall r' y, 0 <= r' < r -> 0 <= y < C -> cell g v' r' y = cell g v0 r' y).
Proof.
  intros HR Hx cell' Hc v'. destruct HR as [H1 H2 [H3 H3'] H4 H5 H6]. assert (sized g v') as Hz by (apply sized_with; [exact H1|apply length_insert]). split; [exact Hz|]. split.
  - intros y Hy. unfold v'. rewrite (put_at_cell g) by (auto; split; auto). case_decide as E.
    + destruct E as [_ ->]. now rewrite Z.eqb_refl.
    + rewrite (proj2 (Z.eqb_neq y x)) by tauto. now apply H5.
  - intros r' y Hr Hy. unfold v'. rewrite (put_at_cell g) by (auto; split; lia). rewrite decide_False by lia. now apply H6.
Qed.
Lemma row_type1 c f col v : row_is f col v -> printable c -> col + 1 < C -> row_is (λ x, if x =? col then c else f x) (col + 1) (tfeed v c).
Proof.
  intros HR Hc Hw. pose proof HR as [H1 H2 [H3 H3'] [H4 H4'] H5 H6]. unfold tfeed, feed_with, printable in *. rewrite H2. rewrite !(proj2 (Z.eqb_neq c _)) by lia. unfold typed. cbv zeta.
  change (cur_col (put_at v (cur_row v) (cur_col v) (cell_of v c))) with (cur_col v). change (cur_row (put_at v (cur_row v) (cur_col v) (cell_of v c))) with (cur_row v). rewrite H3, H4.
  destruct (row_put f col v c col HR H4' (cell_of v c) eq_refl) as (Z1 & Z2 & Z3). cbn zeta in *. rewrite (sz_cols _ _ Z1). rewrite (proj2 (Z.ltb_lt _ _)) by lia.
  split; simpl; auto; [destruct Z1; now split|lia].
Qed.
Lemma row_type t : forall f col v, row_is f col v -> Forall printable t -> col + Z.of_nat (length t) < C ->
  row_is (λ x, if (col <=? x) && (x <? col + Z.of_nat (length t)) then nth (Z.to_nat (x - col)) t 32 else f x) (col + Z.of_nat (length t)) (foldl tfeed v t).
Proof.
  induction t as [|c t IH]; intros f col v HR Ht Hw.
  - simpl. rewrite Z.add_0_r. eapply row_ext; [exact HR|]. intros x Hx. destruct (Z.leb_spec col x), (Z.ltb_spec x col); try lia; easy.
  - apply Forall_cons_iff in Ht as [Hc Ht]. simpl length in Hw. cbn [foldl]. apply row_type1 with (c := c) in HR; [|exact Hc|lia]. apply IH in HR; [|exact Ht|lia].
    simpl length. replace (col + Z.of_nat (S (length t))) with (col + 1 + Z.of_nat (length t)) by lia. eapply row_ext; [exact HR|]. intros x Hx. cbv beta.
    destruct (Z.leb_spec (col + 1) x), (Z.ltb_spec x (col + 1 + Z.of_nat (length t))), (Z.leb_spec col x); try lia; simpl; try (now rewrite (proj2 (Z.eqb_neq x col)) by lia).
    + replace (Z.to_nat (x - col)) with (S (Z.to_nat (x - (col + 1)))) by lia. reflexivity.
    + replace x with col by lia. now rewrite Z.eqb_refl, Z.sub_diag.
Qed.
Lemma row_erase1 f col v : row_is f col v -> 0 < col -> row_is (λ x, if x =? col - 1 then 32 else f x) (col - 1) (foldl tfeed v [8]).
Proof.
  intros HR Hw. pose proof HR as [H1 H2 [H3 H3'] [H4 H4'] H5 H6]. cbn [foldl]. unfold tfeed, feed_with. rewrite H2. cbn [Z.eqb]. rewrite H4, (proj2 (Z.ltb_lt _ _)) by lia. rewrite H3.
  assert (row_is f (col - 1) (set_cursor v r (col - 1))) as HR' by (eapply row_moved; [exact HR|reflexivity..|exact H2|simpl; congruence|reflexivity|lia]).
  destruct (row_put f (col - 1) _ 32 (col - 1) HR' ltac:(lia) (blank v) eq_refl) as (Z1 & Z2 & Z3). cbn zeta in *. split; simpl; auto; lia.
Qed.
Lemma row_put_at f col v x cell' : row_is f col v -> 0 <= x < C -> row_is (λ y, if y =? x then ch cell' else f y) col (put_at v r x cell').
Proof.
  intros HR Hx. pose proof HR as [H1 H2 H3 H4 H5 H6]. destruct (row_put f col v (ch cell') x HR Hx cell' eq_refl) as (Z1 & Z2 & Z3). now split.
Qed.
Lemma row_blank_from n : forall f col c v, row_is f col v -> 0 <= c -> c + Z.of_nat n <= C -> row_is (λ x, if (c <=? x) && (x <? c + Z.of_nat n) then 32 else f x) col (blank_from n c v).
Proof.
  induction n as [|n IH]; intros f col c v HR Hc Hn; cbn [blank_from].
  - eapply row_ext; [exact HR|]. intros x Hx. destruct (Z.leb_spec c x), (Z.ltb_spec x (c + Z.of_nat 0)); try lia; easy.
  - rewrite (proj1 (ri_row _ _ _ HR)). specialize (IH f col c v HR Hc ltac:(lia)). apply (row_put_at _ _ _ (c + Z.of_nat n) (blank v)) in IH; [|lia]. eapply row_ext; [exact IH|]. intros x Hx. cbv beta.
    destruct (Z.eqb_spec x (c + Z.of_nat n)), (Z.leb_spec c x), (Z.ltb_spec x (c + Z.of_nat n)), (Z.ltb_spec x (c + Z.of_nat (S n))); try lia; easy.
Qed.
Lemma blank_from_pstate b n c v : blank_from n c (set_pstate v b) = set_pstate (blank_from n c v) b.
Proof. induction n as [|n IH]; [easy|]. cbn [blank_from]. now rewrite IH. Qed.

(** The end of the row is erased. *)
Lemma row_erase_end f col v : row_is f col v -> row_is (λ x, if x <? col then f x else 32) col (foldl tfeed v [27; 91; 75]).
Proof.
  intros HR. pose proof (ri_col _ _ _ HR) as [Ec Hc]. change [27; 91; 75] with (27 :: 91 :: [] ++ [75]). rewrite feed_csi by (auto; apply HR || lia). cbv zeta. set (w := set_params _ _ _ _).
  change (tcommand w 75) with (blank_from (Z.to_nat (cols v - cur_col v)) (cur_col v) w). rewrite <- blank_from_pstate. rewrite Ec, (sz_cols _ _ (ri_sized _ _ _ HR)).
  assert (row_is f col (set_pstate w VT_GROUND)) as Hw by (eapply row_moved; [exact HR|reflexivity..|exact Ec|lia]). apply (row_blank_from (Z.to_nat (C - col)) _ _ col) in Hw; [|lia|lia]. eapply row_ext; [exact Hw|]. intros x Hx. cbv beta.
  destruct (Z.leb_spec col x), (Z.ltb_spec x (col + Z.of_nat (Z.to_nat (C - col)))), (Z.ltb_spec x col); try lia; easy.
Qed.
(** Everything from the cursor on is erased. *)
Lemma row_erase_rest f col v : row_is f col v -> row_is (λ x, if x <? col then f x else 32) col (foldl tfeed v [27; 91; 74]).
Proof.
  intros HR. pose proof HR as [[Z1 Z2 Z3 Z4] H2 [H3 H3'] [H4 H4'] H5 H6]. change [27; 91; 74] with (27 :: 91 :: [] ++ [74]). rewrite feed_csi by (auto; lia). cbv zeta. set (w := set_params _ _ _ _).
  set (i := Z.to_nat (r * C + col)). assert (0 <= r * C + col < g_rows g * C) as Hi by nia. set (cs := take i (grid v) ++ replicate (length (grid v) - i) (blank v)).
  assert (tcommand w 74 = with_grid w cs) as ->. { change (tcommand w 74) with (blank_rest w). unfold blank_rest. change (cols w) with (cols v). change (cur_row w) with (cur_row v). change (cur_col w) with (cur_col v). rewrite H3, H4, Z3. reflexivity. }
  assert (length cs = length (grid v)) as El by (unfold cs; rewrite length_app, length_take, length_replicate; lia).
  assert (forall r' x, 0 <= r' < g_rows g -> 0 <= x < C -> cell g (set_pstate (with_grid w cs) VT_GROUND) r' x = if r' * C + x <? r * C + col then cell g v r' x else blank v) as Hcell.
  { intros r' x Hr Hx. assert (0 <= r' * C + x < g_rows g * C) by nia. unfold cell, cell_ref. change (grid (set_pstate (with_grid w cs) VT_GROUND)) with cs. unfold cs. destruct (Z.ltb_spec (r' * C + x) (r * C + col)).
    - rewrite app_nth1 by (rewrite length_take; lia). rewrite !nth_lookup. now rewrite lookup_take_lt by lia.
    - rewrite app_nth2 by (rewrite length_take; lia). rewrite nth_lookup, lookup_replicate_2; [easy|]. rewrite length_take. lia. }
  split; [split; [reflexivity|change (grid (set_pstate (with_grid w cs) VT_GROUND)) with cs; lia|exact Z3|exact Z4]|reflexivity|now split|now split| |].
  - intros x Hx. rewrite Hcell by auto. destruct (Z.ltb_spec (r * C + x) (r * C + col)), (Z.ltb_spec x col); try lia; auto.
  - intros r' x Hr Hx. rewrite Hcell by lia. rewrite (proj2 (Z.ltb_lt _ _)) by nia. now apply H6.
Qed.

(** * The editor's output *)

Context (pvw : Z) (h : history) (hs : list (list Z)) (HR : represents h hs) (HP : Forall (Forall printable) hs).
(** The prompt's characters. *)
Context (P : list Z) (HPl : Z.of_nat (length P) = pvw) (Hpv : pvw < 1000).

Definition shown (l : list Z) : Z -> Z := λ x, nth (Z.to_nat x) (P ++ l) 32.
Definition fit (l : list Z) : Prop := Z.of_nat (length l) < LINE_MAX /\ pvw + Z.of_nat (length l) < C.

Lemma shown_prompt l x : 0 <= x < pvw -> shown l x = nth (Z.to_nat x) P 32.
Proof. intros Hx. unfold shown. apply app_nth1. lia. Qed.
Lemma shown_line l x : pvw <= x -> shown l x = nth (Z.to_nat (x - pvw)) l 32.
Proof. intros Hx. unfold shown. rewrite app_nth2 by lia. f_equal. lia. Qed.

(** Redrawing the tail of a line whose head is on the screen. *)
Lemma tail_redrawn l c o f v : redraw_tail l c = Some o -> row_is f (pvw + c) v -> Forall printable l -> fit l -> 0 <= c <= Z.of_nat (length l) ->
  (forall x, 0 <= x < pvw + c -> f x = shown l x) -> row_is (shown l) (pvw + c) (foldl tfeed v o).
Proof.
  intros Eo Hv Hl Hf Hc Hx. unfold redraw_tail, fit in *. set (tail := drop (Z.to_nat c) l) in *. destruct (cursor_left _) as [left|] eqn:El in Eo; [|easy]. injection Eo as <-. assert (Z.of_nat (length tail) = Z.of_nat (length l) - c) as Et by (unfold tail; rewrite length_drop; lia).
  rewrite !foldl_app. assert (Forall printable tail) as Ht by now apply Forall_drop. apply row_type with (t := tail) in Hv; [|exact Ht|lia]. apply row_erase_end in Hv. apply row_left with (n := Z.of_nat (length tail)) (o := left) in Hv; [|lia|unfold LINE_MAX in *; lia|exact El].
  replace (pvw + c + Z.of_nat (length tail) - Z.of_nat (length tail)) with (pvw + c) in Hv by lia. eapply row_ext; [exact Hv|]. intros x Hx'. cbv beta.
  destruct (Z.ltb_spec x (pvw + c + Z.of_nat (length tail))).
  - destruct (Z.leb_spec (pvw + c) x); cbn [andb]; [|now apply Hx]. rewrite shown_line by lia. unfold tail. rewrite !nth_lookup, lookup_drop. do 3 f_equal. lia.
  - rewrite shown_line by lia. rewrite nth_overflow by lia. reflexivity.
Qed.
Lemma shown_insert l c b x : 0 <= c <= Z.of_nat (length l) -> 0 <= x -> shown (insert_at l c b) x = if x <? pvw + c then shown l x else if x =? pvw + c then b else shown l (x - 1).
Proof.
  intros Hc Hx. assert (length (take (Z.to_nat c) l) = Z.to_nat c) as El by (rewrite length_take; lia). destruct (Z.ltb_spec x pvw) as [Hp|Hp].
  { rewrite (proj2 (Z.ltb_lt x _)) by lia. now rewrite !shown_prompt by lia. }
  rewrite shown_line by lia. unfold insert_at. destruct (Z.ltb_spec x (pvw + c)).
  - rewrite app_nth1 by lia. rewrite shown_line by lia. rewrite !nth_lookup. now rewrite lookup_take_lt by lia.
  - rewrite app_nth2 by lia. rewrite El. destruct (Z.eqb_spec x (pvw + c)) as [->|Hn]; [now replace (Z.to_nat (pvw + c - pvw) - Z.to_nat c)%nat with 0%nat by lia|].
    replace (Z.to_nat (x - pvw) - Z.to_nat c)%nat with (S (Z.to_nat (x - 1 - pvw - c))) by lia. rewrite shown_line by lia. cbn [nth]. rewrite !nth_lookup, lookup_drop. do 2 f_equal. lia.
Qed.
Lemma shown_delete l c x : 0 <= c < Z.of_nat (length l) -> 0 <= x < pvw + c -> shown (delete_at l c) x = shown l x.
Proof.
  intros Hc Hx. assert (length (take (Z.to_nat c) l) = Z.to_nat c) as El by (rewrite length_take; lia). destruct (Z.ltb_spec x pvw) as [Hp|Hp]; [now rewrite !shown_prompt by lia|].
  rewrite !shown_line by lia. unfold delete_at. rewrite app_nth1 by lia. rewrite !nth_lookup. now rewrite lookup_take_lt by lia.
Qed.
Lemma printable_insert l c b : Forall printable l -> printable b -> Forall printable (insert_at l c b).
Proof. intros Hl Hb. unfold insert_at. apply Forall_app. split; [now apply Forall_take|]. constructor; [exact Hb|now apply Forall_drop]. Qed.
Lemma printable_delete l c : Forall printable l -> Forall printable (delete_at l c).
Proof. intros Hl. unfold delete_at. apply Forall_app. split; [now apply Forall_take|now apply Forall_drop]. Qed.
Lemma no_newline l : Forall printable l -> forall i c, arr_get l i = Some c -> (c =? 10) = false.
Proof. intros Hl i c E. unfold arr_get in E. case_match; [easy|]. apply (Forall_lookup_1 _ _ _ _ Hl) in E. apply Z.eqb_neq. unfold printable in E. lia. Qed.

(** The editor and the screen: the prompt, the line and the cursor. *)
Record on_screen (e : editor) : Prop := {
  os_edits : edits hs 0 e;
  os_line : Forall printable (line e) /\ Forall printable (saved_live e);
  os_row : Sh.cur_row e = 0;
  os_shown : row_is (shown (line e)) (pvw + cur e) (foldl tfeed v0 (out e)) }.

(** The whole line drawn again. *)
Lemma redraw_line l o f col v : redraw_multiline pvw l (Z.of_nat (length l)) 0 = Some o -> Forall printable l -> fit l -> row_is f col v -> (forall x, 0 <= x < pvw -> f x = nth (Z.to_nat x) P 32) ->
  row_is (shown l) (pvw + Z.of_nat (length l)) (foldl tfeed v o).
Proof.
  intros Eo Hl Hf Hs Hx0. unfold redraw_multiline in Eo. change (cursor_up 0) with (Some (@nil Z)) in Eo. cbn [mbind option_bind] in Eo. destruct (cursor_right pvw) as [right|] eqn:Er; [|easy]. cbn [mbind option_bind] in Eo.
  rewrite Nat2Z.id, drop_all in Eo. change (Z.of_nat (length (filter (λ c : Z, c = 10) []))) with 0 in Eo. cbn [Z.eqb length] in Eo. change (cursor_left (Z.of_nat 0)) with (Some (@nil Z)) in Eo. cbn [mbind option_bind] in Eo. injection Eo as <-.
  assert (concat (map (λ c, if c =? 10 then [13; 10] else [c]) l) = l) as ->. { clear -Hl. induction Hl as [|c l Hc _ IH]; [easy|]. cbn [map concat]. rewrite IH. unfold printable in Hc. now rewrite (proj2 (Z.eqb_neq c 10)) by lia. }
  rewrite app_nil_r. change (13 :: right ++ 27 :: 91 :: 74 :: l) with ([13] ++ right ++ [27; 91; 74] ++ l). rewrite !foldl_app. unfold fit in Hf. pose proof (positive g SU).
  apply row_start in Hs. apply row_right with (n := pvw) (o := right) in Hs; [|lia|lia|lia|exact Er]. apply row_erase_rest in Hs. apply row_type with (t := l) in Hs; [|exact Hl|lia]. rewrite Z.add_0_l in Hs. eapply row_ext; [exact Hs|]. intros x Hx. cbv beta.
  destruct (Z.leb_spec pvw x); cbn [andb].
  - rewrite (shown_line l) by lia. destruct (Z.ltb_spec x (pvw + Z.of_nat (length l))); [easy|]. rewrite (proj2 (Z.ltb_ge _ _)) by lia. now rewrite nth_overflow by lia.
  - rewrite (proj2 (Z.ltb_lt _ _)) by lia. rewrite shown_prompt by lia. apply Hx0. lia.
Qed.

(** What follows if the line still fits. *)
Definition then_shown {A} (_ : A) (e : editor) : Prop := fit (line e) -> on_screen e.

Lemma wp_then_shown {A} (m : M editor A) e : wp m (λ _ e', on_screen e') e -> wp m then_shown e.
Proof. intros Hm. eapply wp_mono; [exact Hm|]. intros a e' He' _. exact He'. Qed.

(** Output that moves the cursor of an unchanged line. *)
Lemma screen_moved e o c : on_screen e -> 0 <= c <= len e -> row_is (shown (line e)) (pvw + c) (foldl tfeed (foldl tfeed v0 (out e)) o) -> on_screen (add_out (set_cur e c (Sh.cur_row e)) o).
Proof.
  intros [H1 [H2 H2'] H3 H4] Hc Hs. split; [|now split|exact H3|].
  - eapply edits_out, edits_line; [exact H1|exact Hc|exact (ed_len _ _ _ H1)|lia].
  - cbn [out add_out set_cur set_line line cur]. now rewrite foldl_app.
Qed.

Lemma screen_home e : on_screen e -> wp home (λ _ e', on_screen e') e.
Proof.
  intros He. pose proof He as [H1 _ H3 H4]. pose proof (ed_cur _ _ _ H1). pose proof (ed_len _ _ _ H1). unfold home. apply wp_bind, wp_get, wp_when. destruct (Z.ltb_spec 0 (cur e)); [|exact He]. apply wp_bind, wp_emit_opt; [apply csi_some; unfold LINE_MAX in *; lia|]. intros o Eo. apply wp_modify.
  apply (screen_moved e o 0 He); [lia|]. replace (pvw + 0) with (pvw + cur e - cur e) by lia. eapply row_left; [exact H4|lia|unfold LINE_MAX in *; lia|exact Eo].
Qed.
Lemma screen_end e : on_screen e -> fit (line e) -> wp end_key (λ _ e', on_screen e') e.
Proof.
  intros He [Hf1 Hf2]. pose proof He as [H1 _ H3 H4]. pose proof (ed_cur _ _ _ H1). fold (len e) in *. unfold end_key. apply wp_bind, wp_get, wp_when. destruct (Z.ltb_spec (cur e) (len e)); [|exact He]. apply wp_bind, wp_emit_opt; [apply csi_some; unfold LINE_MAX in *; lia|]. intros o Eo. apply wp_modify.
  apply (screen_moved e o (len e) He); [lia|]. replace (pvw + len e) with (pvw + cur e + (len e - cur e)) by lia. eapply row_right; [exact H4|lia|lia|unfold LINE_MAX in *; lia|exact Eo].
Qed.
Lemma screen_left e : on_screen e -> wp (key_left pvw) (λ _ e', on_screen e') e.
Proof.
  intros He. pose proof He as [H1 [H2 _] H3 H4]. pose proof (ed_cur _ _ _ H1). unfold key_left. apply wp_bind, wp_get, wp_when. destruct (Z.ltb_spec 0 (cur e)); [|exact He].
  destruct (arr_get_lt (line e) (cur e - 1)) as [c Ec]; [unfold len in *; lia|]. apply wp_bind. eapply wp_of_option; [exact Ec|]. rewrite (no_newline _ H2 _ _ Ec). apply wp_bind, wp_modify, wp_emit_opt; [now eexists|]. intros o [= <-].
  apply (screen_moved e [27; 91; 68] (cur e - 1) He); [lia|]. replace (pvw + (cur e - 1)) with (pvw + cur e - 1) by lia. apply row_left1; [exact H4|lia].
Qed.
Lemma screen_right e : on_screen e -> fit (line e) -> wp (key_right) (λ _ e', on_screen e') e.
Proof.
  intros He [_ Hf]. pose proof He as [H1 [H2 _] H3 H4]. pose proof (ed_cur _ _ _ H1). unfold key_right. apply wp_bind, wp_get, wp_when. destruct (Z.ltb_spec (cur e) (len e)); [|exact He]. unfold len in *.
  destruct (arr_get_lt (line e) (cur e)) as [c Ec]; [lia|]. apply wp_bind. eapply wp_of_option; [exact Ec|]. rewrite (no_newline _ H2 _ _ Ec). apply wp_bind, wp_modify, wp_modify.
  apply (screen_moved e [27; 91; 67] (cur e + 1) He); [unfold len; lia|]. rewrite Z.add_assoc. apply row_right1; [exact H4|lia].
Qed.

Lemma screen_show limit l e : edits hs 0 e -> Forall printable (saved_live e) -> Sh.cur_row e = 0 -> Forall printable l -> limit < LINE_MAX -> row_is (shown (line e)) (pvw + cur e) (foldl tfeed v0 (out e)) -> wp (show_line pvw limit l) then_shown e.
Proof.
  intros He Hsv Hr Hl Hlim Hs. unfold show_line. apply wp_bind, wp_get, wp_bind. eapply wp_of_option; [apply copy_to_take; lia|]. rewrite Z.sub_0_r. set (l' := take (Z.to_nat limit) l).
  assert (Z.of_nat (length l') < LINE_MAX) as Hl' by (unfold l'; rewrite length_take; unfold LINE_MAX in *; lia). assert (Forall printable l') as Hp' by now apply Forall_take. apply wp_bind, wp_modify. rewrite Hr.
  apply wp_emit_opt; [apply redraw_some; lia|]. intros o Eo Hf. change (fit l') in Hf. split; [eapply edits_out, edits_line; [exact He|lia|exact Hl'|lia]|now split|reflexivity|].
  cbn [out add_out set_line line cur]. rewrite foldl_app. eapply redraw_line; [exact Eo|exact Hp'|exact Hf|exact Hs|]. intros x Hx. now apply shown_prompt.
Qed.
Lemma history_printable i l : hs !! i = Some l -> Forall printable l.
Proof. intros E. exact (Forall_lookup_1 _ _ _ _ HP E). Qed.
Lemma screen_up e : on_screen e -> wp (key_up pvw LINE_MAX h) then_shown e.
Proof.
  intros He. pose proof He as [H1 [H2 H2'] H3 H4]. unfold key_up. apply wp_bind, wp_get. rewrite (hist_get_ok _ _ _ HR). destruct (Z.leb_spec (hist_view e + 1) 0); [now apply wp_ret|]. destruct (hs !! _) as [l|] eqn:El; [|now apply wp_ret].
  apply history_printable in El as Hl. pose proof (lookup_lt_Some _ _ _ El) as Hlt. apply wp_bind, (wp_live hs 0 e _ H1). intros live Elive. apply wp_bind, wp_modify. apply screen_show; auto; [|cbn [saved_live set_view]; rewrite Elive; now case_match|lia].
  destruct H1 as [E1 E2 E3 E4 E5]. split; simpl; auto; [|lia]. rewrite Elive. now case_match.
Qed.
Lemma screen_down e : on_screen e -> wp (key_down pvw LINE_MAX h) then_shown e.
Proof.
  intros He. pose proof He as [H1 [H2 H2'] H3 H4]. pose proof H1 as [E1 E2 E3 E4 E5]. unfold key_down. apply wp_bind, wp_get. destruct (Z.eqb_spec (hist_view e) 0); [now apply wp_ret|]. apply wp_bind, wp_modify.
  assert (edits hs 0 (set_view e (hist_view e - 1) (saved_live e))) as He' by (split; simpl; auto; lia). destruct (Z.eqb_spec (hist_view e - 1) 0); [now apply screen_show|].
  rewrite (hist_get_ok _ _ _ HR). rewrite (proj2 (Z.leb_gt _ _)) by lia. destruct (lookup_lt_is_Some_2 hs (Z.to_nat (hist_view e - 1 - 1))) as [l El]; [lia|]. apply wp_bind. eapply wp_of_option; [exact El|].
  apply screen_show; auto; [|lia]. now apply history_printable in El.
Qed.
Lemma screen_csi b e : on_screen e -> fit (line e) -> wp (csi_key pvw LINE_MAX h b) then_shown e.
Proof.
  intros He Hf. unfold csi_key. destruct (b =? 68); [now apply wp_then_shown, screen_left|]. destruct (b =? 67); [now apply wp_then_shown, screen_right|]. destruct (b =? 65); [now apply screen_up|].
  destruct (b =? 66); [now apply screen_down|]. destruct (b =? 72); [now apply wp_then_shown, screen_home|]. destruct (b =? 70); [now apply wp_then_shown, screen_end|]. now apply wp_ret.
Qed.

Lemma screen_backspace e : on_screen e -> fit (line e) -> wp (backspace pvw) (λ _ e', on_screen e') e.
Proof.
  intros He [Hf1 Hf2]. pose proof He as [H1 [H2 H2'] H3 H4]. pose proof (ed_cur _ _ _ H1). unfold backspace, len in *. apply wp_bind, wp_get, wp_when. destruct (Z.ltb_spec 0 (cur e)); [|exact He].
  destruct (arr_get_lt (line e) (cur e - 1)) as [c Ec]; [lia|]. apply wp_bind. eapply wp_of_option; [exact Ec|]. rewrite (no_newline _ H2 _ _ Ec). set (l := delete_at (line e) (cur e - 1)).
  assert (length l = (length (line e) - 1)%nat) as El by (unfold l; rewrite length_delete_at; lia). apply wp_bind, wp_modify, wp_bind, wp_modify, wp_emit_opt; [apply redraw_tail_some; lia|]. intros o Eo. split.
  - eapply edits_out, edits_out, edits_line; [exact H1|lia|lia|lia].
  - split; [now apply printable_delete|exact H2'].
  - exact H3.
  - cbn [out add_out set_line line cur]. rewrite !foldl_app. apply row_erase1 in H4; [|lia]. replace (pvw + cur e - 1) with (pvw + (cur e - 1)) in H4 by lia.
    eapply tail_redrawn; [exact Eo|exact H4|now apply printable_delete|split; lia|lia|]. intros x Hx. cbv beta. rewrite (proj2 (Z.eqb_neq _ _)) by lia. unfold l. now rewrite shown_delete by lia.
Qed.
Lemma screen_insert b e : on_screen e -> printable b -> wp (self_insert LINE_MAX b) then_shown e.
Proof.
  intros He Hb. pose proof He as [H1 [H2 H2'] H3 H4]. pose proof (ed_cur _ _ _ H1). pose proof (ed_len _ _ _ H1). unfold self_insert, len in *. apply wp_bind, wp_get, wp_when. destruct (Z.ltb_spec (Z.of_nat (length (line e))) (LINE_MAX - 1)); [|now intros _]. apply wp_store_at; [lia|]. apply wp_store_at; [lia|]. set (l := insert_at (line e) (cur e) b).
  assert (length l = S (length (line e))) as El by (unfold l; now rewrite length_insert_at by lia). assert (Forall printable l) as Hl by now apply printable_insert. apply wp_bind, wp_modify, wp_bind, wp_modify, wp_emit_opt; [apply redraw_tail_some; lia|]. intros o Eo Hf. change (fit l) in Hf. split.
  - eapply edits_out, edits_out, edits_line; [exact H1|lia|lia|lia].
  - now split.
  - exact H3.
  - cbn [out add_out set_line line cur]. rewrite !foldl_app. destruct Hf as [Hf1 Hf2]. apply row_type1 with (c := b) in H4; [|exact Hb|lia]. replace (pvw + cur e + 1) with (pvw + (cur e + 1)) in H4 by lia.
    eapply tail_redrawn; [exact Eo|exact H4|exact Hl|split; lia|lia|]. intros x Hx. cbv beta. unfold l. rewrite shown_insert by lia. destruct (Z.eqb_spec x (pvw + cur e)) as [->|]; [now rewrite Z.ltb_irrefl|]. now rewrite (proj2 (Z.ltb_lt _ _)) by lia.
Qed.

Lemma screen_byte b e : on_screen e -> fit (line e) -> b <> 30 -> b <> 13 -> b <> 10 -> wp (edit_byte pvw LINE_MAX h b) (λ done e', done = false /\ then_shown tt e') e.
Proof.
  intros He Hf N1 N2 N3. assert (forall x, on_screen (set_state e x)) as Hst by (intros x; destruct He as [H1 H2 H3 H4]; split; auto using edits_state).
  assert (forall e1 (m : M editor unit), wp m then_shown e1 -> wp (m;; ret false) (λ done e', done = false /\ then_shown tt e') e1) as Hthen.
  { intros e1 m Hm. apply wp_bind. eapply wp_mono; [exact Hm|]. intros [] e2 H2. now apply wp_ret. }
  unfold edit_byte. apply wp_bind, wp_get. destruct (state e).
  2: { apply wp_bind, wp_modify, wp_ret. split; [easy|]. intros _. apply Hst. }
  2: { destruct (_ || _); [apply wp_ret; split; [easy|now intros _]|]. apply wp_bind, wp_modify. apply Hthen. now apply screen_csi. }
  destruct (b =? 27); [apply Hthen; apply wp_modify; intros _; apply Hst|]. rewrite (proj2 (Z.eqb_neq b 30)), (proj2 (Z.eqb_neq b 13)), (proj2 (Z.eqb_neq b 10)) by assumption. cbn [orb].
  destruct (_ || _); [apply Hthen, wp_then_shown; now apply screen_backspace|]. destruct (b =? 1); [apply Hthen, wp_then_shown; now apply screen_home|]. destruct (b =? 5); [apply Hthen, wp_then_shown; now apply screen_end|].
  destruct (Z.leb_spec 32 b), (Z.ltb_spec b 127); cbn [andb]; try (apply wp_ret; split; [easy|now intros _]). apply Hthen. now apply screen_insert.
Qed.
End Row.

(** * The prompt and a whole line *)

(** What the prompt for the directory [path] shows. *)
Definition prompt_text (path : list Z) : list Z := [36; 32] ++ path ++ [32; 62; 32].

Lemma prompt_bytes cwd path : prompt_path cwd = Some path -> prompt cwd =
  Some ((27 :: 91 :: [57; 51] ++ [109]) ++ [36; 32] ++ (27 :: 91 :: [57; 54] ++ [109]) ++ path ++ [32] ++ (27 :: 91 :: [57; 48] ++ [109]) ++ [62] ++ (27 :: 91 :: [48] ++ [109]) ++ [32], Z.of_nat (length (prompt_text path))).
Proof.
  intros E. unfold prompt. rewrite E. cbn [mbind option_bind]. unfold prompt_text. rewrite !length_app. simpl length. replace (2 + Z.of_nat (length path) + 3) with (Z.of_nat (2 + (length path + 3))) by lia. reflexivity.
Qed.

(** Text behind text. *)
Lemma row_more `{Display} g v0 r s t v : suits g -> row_is g v0 r (λ x, nth (Z.to_nat x) s 32) (Z.of_nat (length s)) v -> Forall printable t -> Z.of_nat (length (s ++ t)) < g_cols g ->
  row_is g v0 r (λ x, nth (Z.to_nat x) (s ++ t) 32) (Z.of_nat (length (s ++ t))) (foldl tfeed v t).
Proof.
  intros SU HR Ht Hl. rewrite length_app in Hl. apply (row_type g) with (t := t) in HR; [|exact Ht|lia]. rewrite length_app, Nat2Z.inj_add. eapply row_ext; [exact HR|]. intros x Hx. cbv beta.
  destruct (Z.leb_spec (Z.of_nat (length s)) x); cbn [andb].
  - rewrite (app_nth2 s t) by lia. replace (Z.to_nat x - length s)%nat with (Z.to_nat (x - Z.of_nat (length s))) by lia. destruct (Z.ltb_spec x (Z.of_nat (length s) + Z.of_nat (length t))); [easy|]. rewrite !nth_overflow by lia. reflexivity.
  - now rewrite app_nth1 by lia.
Qed.
Lemma prompt_shown `{Display} g v0 r cwd path p pvw : suits g -> prompt_path cwd = Some path -> prompt cwd = Some (p, pvw) -> row_is g v0 r (λ _, 32) 0 v0 -> Forall printable path -> pvw < g_cols g ->
  pvw = Z.of_nat (length (prompt_text path)) /\ row_is g v0 r (λ x, nth (Z.to_nat x) (prompt_text path) 32) pvw (foldl tfeed v0 p).
Proof.
  intros SU Ep E HR Hp Hw. rewrite (prompt_bytes cwd path Ep) in E. apply (inj Some), pair_equal_spec in E as [<- <-]. split; [easy|]. unfold prompt_text in *. rewrite !foldl_app. rewrite !length_app in Hw. simpl length in Hw.
  assert (row_is g v0 r (λ x, nth (Z.to_nat x) [] 32) (Z.of_nat (length (@nil Z))) v0) as H0 by (eapply row_ext; [exact HR|]; intros x _; now destruct (Z.to_nat x)).
  apply (row_colour g) with (ds := [57; 51]) in H0; [|repeat constructor; easy]. apply (row_more g) with (t := [36; 32]) in H0; [|exact SU|repeat constructor; easy|simpl; lia].
  apply (row_colour g) with (ds := [57; 54]) in H0; [|repeat constructor; easy]. apply (row_more g) with (t := path) in H0; [|exact SU|exact Hp|rewrite !length_app; simpl; lia].
  apply (row_more g) with (t := [32]) in H0; [|exact SU|repeat constructor; easy|rewrite !length_app; simpl; lia]. apply (row_colour g) with (ds := [57; 48]) in H0; [|repeat constructor; easy].
  apply (row_more g) with (t := [62]) in H0; [|exact SU|repeat constructor; easy|rewrite !length_app; simpl; lia]. apply (row_colour g) with (ds := [48]) in H0; [|repeat constructor; easy].
  apply (row_more g) with (t := [32]) in H0; [|exact SU|repeat constructor; easy|rewrite !length_app; simpl; lia]. rewrite <- !app_assoc in H0. exact H0.
Qed.

(** The editor given bytes that do not end the line. *)
Fixpoint edit_all (pvw : Z) (h : history) (bs : list Z) : M editor unit :=
  match bs with [] => ret tt | b :: bs => let* _ := edit_byte pvw LINE_MAX h b in edit_all pvw h bs end.

Section Typing.
Context {D : Display} (g : geometry) (SU : suits g) (v0 : vt_t) (r : Z) (pvw : Z) (h : history) (hs : list (list Z)) (HR : represents h hs) (HP : Forall (Forall printable) hs).
Context (P : list Z) (HPl : Z.of_nat (length P) = pvw) (Hpv : pvw < 1000).

(** Bytes that neither end the line nor break it. *)
Definition keeps_line (b : Z) : Prop := b <> 30 /\ b <> 13 /\ b <> 10.
(** The line fits the row after each of the bytes. *)
Definition fits_row (e : editor) (bs : list Z) : Prop := forall n e', edit_all pvw h (take n bs) e = Some (tt, e') -> pvw + Z.of_nat (length (line e')) < g_cols g.

Lemma typing_shown bs rest : Forall keeps_line bs -> forall e, on_screen g v0 r pvw hs P e -> fits_row e bs ->
  wp (edit_all pvw h bs) (λ _ e', on_screen g v0 r pvw hs P e' /\ (state e' = GROUND -> read_line_edit pvw LINE_MAX h (map Byte bs ++ Byte 13 :: rest) e = Some (Line (line e') rest, add_out e' [10]))) e.
Proof.
  induction 1 as [|b bs (N1 & N2 & N3) _ IH]; intros e He Hf; cbn [edit_all].
  - apply wp_ret. split; [exact He|]. intros Es. cbn [map app read_line_edit]. unfold bind at 1, edit_byte, bind at 1, get at 1. rewrite Es. cbn [Z.eqb Pos.eqb orb]. unfold bind at 1, emit at 1, modify at 1.
    pose proof (os_edits _ _ _ _ _ _ _ He) as He0. pose proof (ed_len _ _ _ He0). pose proof (ed_cur _ _ _ He0). rewrite store_in by lia. reflexivity.
  - assert (fit g pvw (line e)) as Hfe by (split; [exact (ed_len _ _ _ (os_edits _ _ _ _ _ _ _ He))|exact (Hf 0%nat e eq_refl)]).
    pose proof (screen_byte g SU v0 r pvw h hs HR HP P HPl Hpv b e He Hfe N1 N2 N3) as Hb. apply wp_bind. unfold wp in Hb |- * at 1. destruct (edit_byte pvw LINE_MAX h b e) as [[done e1]|] eqn:Eb; [|easy]. destruct Hb as [-> He1].
    assert (fits_row e1 bs) as Hf1. { intros n e' E. apply (Hf (S n) e'). cbn [take edit_all]. unfold bind. now rewrite Eb. }
    eapply wp_mono; [apply (IH e1); [|exact Hf1]|].
    + apply He1. split; [|exact (Hf1 0%nat e1 eq_refl)]. pose proof (edit_byte_ok pvw Hpv h hs HR 0 b e (os_edits _ _ _ _ _ _ _ He) ltac:(lia)) as Hok. unfold wp in Hok. rewrite Eb in Hok. exact (ed_len _ _ _ Hok).
    + intros _ e' [H1 H2]. split; [exact H1|]. intros Es. cbn [map app read_line_edit]. unfold bind. rewrite Eb. now apply H2.
Qed.
End Typing.

(** C35. The editor on the terminal. The shell writes its prompt at the start of
    an empty row of the terminal emulator and then whatever the line editor
    writes while bytes are typed - characters, erasing, the arrows, Home and
    End, older and newer lines of the history, unknown sequences - without line
    breaks, and as long as prompt and line fit the row: the row then shows the
    prompt and the line being edited and nothing else, the cursor is on the
    character that is edited, the rows above are untouched; and Enter submits
    the line that is shown. *)
Theorem editor_on_terminal `{Display} g h hs cwd path p pvw bs rest v0 : suits g -> sized g v0 -> pstate v0 = VT_GROUND -> 0 <= cur_row v0 < g_rows g -> cur_col v0 = 0 ->
  (forall x, 0 <= x < g_cols g -> ch (cell g v0 (cur_row v0) x) = 32) ->
  prompt_path cwd = Some path -> prompt cwd = Some (p, pvw) ->
  Forall printable path -> Z.of_nat (length path) < 256 -> represents h hs -> Forall (Forall printable) hs -> Forall keeps_line bs ->
  fits_row g pvw h fresh_editor bs ->
  wp (edit_all pvw h bs) (λ _ e,
    let v := foldl tfeed (foldl tfeed v0 p) (out e) in
    (forall x, 0 <= x < g_cols g -> ch (cell g v (cur_row v0) x) = nth (Z.to_nat x) (prompt_text path ++ line e) 32) /\
    cur_row v = cur_row v0 /\ cur_col v = pvw + cur e /\ pstate v = VT_GROUND /\
    (forall r x, 0 <= r < cur_row v0 -> 0 <= x < g_cols g -> cell g v r x = cell g v0 r x) /\
    (state e = GROUND -> read_line_edit pvw LINE_MAX h (map Byte bs ++ Byte 13 :: rest) fresh_editor = Some (Line (line e) rest, add_out e [10]))) fresh_editor.
Proof.
  intros SU Hz Hg Hr Hc Hb Epath Ep Hp Hl HR HP Hk Hf. pose proof (Hf 0%nat fresh_editor eq_refl) as Hw. simpl in Hw. rewrite Z.add_0_r in Hw. pose proof (positive g SU) as [_ HC].
  assert (row_is g v0 (cur_row v0) (λ _, 32) 0 v0) as H0 by (split; auto; lia). destruct (prompt_shown g v0 (cur_row v0) cwd path p pvw SU Epath Ep H0 Hp Hw) as [Epvw H1].
  assert (pvw < 1000) as Hpv by (rewrite Epvw; unfold prompt_text; rewrite !length_app; simpl; lia). set (v1 := foldl tfeed v0 p) in *.
  assert (on_screen g v1 (cur_row v0) pvw hs (prompt_text path) fresh_editor) as He.
  { split; [apply fresh_edits|now split|reflexivity|]. cbn [out line cur fresh_editor foldl]. rewrite Z.add_0_r. unfold shown. rewrite app_nil_r. destruct H1 as [A1 A2 A3 A4 A5 A6]. now split. }
  eapply wp_mono; [apply (typing_shown g SU v1 (cur_row v0) _ h hs HR HP _ (eq_sym Epvw) Hpv bs rest Hk _ He Hf)|]. intros _ e [[_ _ _ [B1 B2 B3 B4 B5 B6]] He']. cbv zeta. split; [exact B5|]. split; [apply B3|]. split; [apply B4|]. split; [exact B2|]. split; [|exact He'].
  intros r x Hrx Hx. rewrite B6 by auto. now apply (ri_above _ _ _ _ _ _ H1).
Qed.

Module Wide.
(** 16 columns and 2 rows with the font of [Demo]. *)
#[export] Instance disp : Display := Disp true 32 128 32 4 8 8 8 16 8 0 (Demo.header ++ Demo.glyphs) (λ _, true).
Definition geo : geometry := Geo 32 2 2 2 1 16 2.
Lemma wide_suits : suits geo.
Proof.
  split; cbn [g_glyphs g_bytes_per_glyph g_glyph_w g_glyph_h g_bytes_per_row g_cols g_rows geo]; try (split; vm_compute; easy); try (vm_compute; easy).
  - intros i gx gy Hi Hx Hy. exact (su_font _ Demo.disp_suits i gx gy Hi Hx Hy).
  - intros gx gy b Hx Hy. exact (su_space _ Demo.disp_suits gx gy b Hx Hy).
Qed.
(** A history of one line, and two letters, the left arrow, backspace and Up. *)
Definition past : history := Hist ([108; 115] :: replicate 63 []) 1 1.
Lemma past_ok : represents past [[108; 115]].
Proof. destruct (hist_add_ok [108; 115] no_history [] no_history_represents) as (h' & E & Hh & _); [easy|]. injection E as <-. exact Hh. Qed.
Definition keys : list Z := [97; 98; 27; 91; 68; 8; 27; 91; 65].
(** The prompt when the directory is not known. *)
Definition unknown : list Z * Z := default ([], 0) (prompt None).
Lemma keys_fit : fits_row geo unknown.2 past fresh_editor keys.
Proof. intros n e'. do 10 (destruct n as [|n]; [vm_compute; intros [= <-]; reflexivity|]). rewrite take_ge by (simpl; lia). vm_compute. intros [= <-]. reflexivity. Qed.
End Wide.

Lemma editor_on_terminal_witness : let v0 := fresh Wide.geo in
  wp (edit_all Wide.unknown.2 Wide.past Wide.keys) (λ _ e,
    let v := foldl tfeed (foldl tfeed v0 Wide.unknown.1) (out e) in
    (forall x, 0 <= x < 16 -> ch (cell Wide.geo v (cur_row v0) x) = nth (Z.to_nat x) (prompt_text [63] ++ line e) 32) /\
    cur_row v = cur_row v0 /\ cur_col v = Wide.unknown.2 + cur e /\ pstate v = VT_GROUND /\
    (forall r x, 0 <= r < cur_row v0 -> 0 <= x < 16 -> cell Wide.geo v r x = cell Wide.geo v0 r x) /\
    (state e = GROUND -> read_line_edit Wide.unknown.2 LINE_MAX Wide.past (map Byte Wide.keys ++ Byte 13 :: [Eof]) fresh_editor = Some (Line (line e) [Eof], add_out e [10]))) fresh_editor.
Proof.
  apply (@editor_on_terminal Wide.disp Wide.geo Wide.past [[108; 115]] None [63]).
  - apply Wide.wide_suits.
  - apply (term_fresh_ok Wide.geo Wide.wide_suits).
  - reflexivity.
  - easy.
  - reflexivity.
  - intros x Hx. unfold cell, cell_ref, grid. cbn [fresh cells default from_option id]. rewrite nth_lookup, lookup_replicate_2; [easy|]. cbn [g_cols g_rows Wide.geo cur_row fresh] in *. lia.
  - reflexivity.
  - reflexivity.
  - repeat constructor; easy.
  - easy.
  - apply Wide.past_ok.
  - repeat constructor; easy.
  - repeat constructor; easy.
  - apply Wide.keys_fit.
Defined.

(** * What goes wrong with more rows *)

Definition typed_out (keys : list Z) : option (list Z * Z * Z * list Z) :=
  option_map (λ r, (line r.2, cur r.2, Sh.cur_row r.2, drop (length (out r.2) - 4) (out r.2))) (edit_all 6 Wide.past keys fresh_editor).
(** Right over a soft newline asks for the start of the next line; the terminal
    does not know the sequence, and the cursor stays. *)
Lemma next_line_ignored v : pstate v = VT_GROUND -> let v' := foldl tfeed v [27; 91; 69] in cur_row v' = cur_row v /\ cur_col v' = cur_col v.
Proof. intros Hp. change [27; 91; 69] with (27 :: 91 :: [] ++ [69]). rewrite feed_csi by (auto; lia). easy. Qed.
(** Down brings a line of two rows back with the cursor at its end, in row 0. *)
Lemma down_forgets_row : typed_out [97; 30; 98; 27; 91; 65; 27; 91; 66] = Some ([97; 10; 98], 3, 0, [97; 13; 10; 98]).
Proof. vm_compute. reflexivity. Qed.
(** Home moves left by three columns in the second row, from column 1. *)
Lemma home_stays_in_row : typed_out [97; 30; 98; 27; 91; 72] = Some ([97; 10; 98], 0, 1, [27; 91; 51; 68]).
Proof. vm_compute. reflexivity. Qed.
(** A soft newline before a letter does not draw it in its new row. *)
Lemma break_leaves_tail : typed_out [97; 98; 27; 91; 68; 30] = Some ([97; 10; 98], 2, 1, [91; 68; 13; 10]).
Proof. vm_compute. reflexivity. Qed.
